(* ===== verification/_CoqProject ===== *)
-Q . S2P
Prelude.v
Vec.v
Deque.v
Queue.v
Nodes.v
Quorum.v
Olist.v
Changes.v
ChangesProof.v
ChangesProps.v
Mem.v
Imap.v
ImapProof.v
ImapMap.v
ImapWalk.v
ImapSets.v
ImapEq.v
ImapProps.v
Smap.v
SmapProof.v
SmapAdd.v
SmapMap.v
SmapWalk.v
SmapProps.v
Stream.v
Omap.v
Req.v
ReqProof.v
ReqProps.v
Away.v
AwayProof.v
AwayProps.v
Opr.v
OprProps.v
Utf8.v
Utf8Proof.v
Utf8Props.v
Strx.v
StrxProps.v
Spec.v
Keywords.v
KeywordsProps.v
Field.v
Wrap.v
FieldProof.v
FieldMod.v
FieldMaps.v
WrapProps.v
FieldProps.v
Update.v
Varr.v
VarrProps.v
Index.v
IndexProps.v
Gc.v
GcProof.v
GcProps.v
FieldInit.v
FieldInitProof.v
TypeDeps.v
TypeProps.v
Cryptx.v
Users.v
UsersProof.v
UsersSteps.v
UsersPriv.v
UsersProps.v
Base64.v
Mpack.v
MpackProof.v
MpackRead.v
MpackSkip.v
MpackProps.v
Scope.v
ScopeProps.v
ScopeNames.v
Task.v
TaskProps.v
