(* ===== verification/Prelude.v ===== *)
(** * ThingsDB: the agreement between nodes, its containers and operators, verified

    ThingsDB is a distributed data store. Every node of a cluster holds the
    collections; a query that changes data becomes a change with an id, the
    cluster agrees by a quorum on which node gets which id, and every node
    commits the changes in the order of their ids. This library models the
    part of the C sources that carries this agreement, together with the
    containers it is built on, and proves what makes each of them correct.
    Where the code does not do what it means to, the input that shows it is a
    theorem too.

    ** The parts and the files that model them

    - [Prelude]: machine integers with their wrap-around, arrays of cells with
      undefined reads and writes outside them, [memmove], [memcpy] and
      [realloc], and the tactics and hints the other files share.
    - [Vec]: [src/src/util/vec.c], vectors of pointers that grow by
      re-allocation. [vec_move] rotates in place along the cycles of a gcd.
    - [Deque] and [Queue]: [src/src/util/queue.c], circular queues. [Deque] is
      the interface: a class with the laws a client may use; [Queue] is the
      implementation and its proof against lists.
    - [Nodes]: the part of [src/src/ti/nodes.c] that looks at the state of the
      cluster: quorums, the committed ids, the choice of a ready node.
    - [Quorum]: [src/src/ti/quorum.c], counting the answers to a request.
    - [Olist]: [src/src/util/olist.c], the ordered list of skipped change ids.
    - [Changes], [ChangesProof], [ChangesProps]: [src/src/ti/changes.c] and
      [src/src/ti/change.c], the queue of changes. The state is a record with a
      heap of reference-counted changes, the queue, the skipped ids, the
      pending requests and the queries; every operation is a program of a state
      monad in which a read of freed memory and a failing assertion are
      undefined. It uses the queue through [Deque] and [Queue], the quorum and
      the id list as they are modelled.
    - [Mem]: the monad of the containers that allocate, with a bounded number
      of allocations, changes of reference counts and calls of callbacks.
    - [Imap], [ImapProof], [ImapMap], [ImapWalk], [ImapSets], [ImapEq],
      [ImapProps]: [src/src/util/imap.c], maps from 64-bit ids to pointers as
      trees of blocks that have all 32 slots or only one, with the set
      operations on them.
    - [Smap], [SmapProof], [SmapAdd], [SmapMap], [SmapWalk], [SmapProps]:
      [src/src/util/smap.c], maps from strings to pointers as prefix trees.
    - [Stream]: the packages of [src/src/ti/pkg.c] and the buffer in which
      [src/src/ti/stream.c] puts them together from the bytes that arrive.
    - [Omap]: [src/src/util/omap.c], ordered chains from ids to pointers.
    - [Req], [ReqProof], [ReqProps]: [src/src/ti/req.c], [src/src/ti/write.c]
      and the opening and closing of a stream in [src/src/ti/stream.c]. The
      state is one stream with its map of open requests (an [omap]), their
      timers, the writes libuv has not finished and the reference count.
      Addresses are never reused, so every use of a freed object is undefined.
    - [Away], [AwayProof], [AwayProps]: [src/src/ti/away.c], the answer to a
      request to go away in [src/src/ti/nodes.c] and the stop signal in
      [src/src/ti/signals.c]. The state is the away record, the cluster as
      [Nodes] has it, the open quorums of [Quorum] and the libuv objects; the
      events of the main loop are the constructors of [aevent].
    - [Opr], [OprProps]: the operators of the query language on numbers,
      booleans and strings, [src/inc/ti/opr], [src/src/ti/opr.c] and
      [src/src/ti/preopr.c]. Doubles are a parameter, a record of operations.
    - [Utf8], [Utf8Proof], [Utf8Props]: [src/inc/lib/simdutf8check.h], both
      builds of the validation of UTF-8; the SSE intrinsics are functions on
      lists of 16 bytes.
    - [Strx], [StrxProps]: [src/src/util/strx.c]. A string of C is a list of
      bytes with its terminator, a pointer into it is the rest of the list.
    - [Spec], [Keywords], [KeywordsProps]: the specifications of values in
      [src/src/ti/spec.c] (a code of 16 bits), the values of the language as far
      as they are checked, and the two perfect hash tables of names.
    - [Field], [FieldProof], [FieldMod], [FieldMaps], [FieldProps]: the checks of
      [src/src/ti/field.c] with a field of a type: assigning a value, giving the
      field another specification, and matching it with a value or a field of
      another type. They call [Spec] the way the code does.
    - [Wrap], [WrapProps]: which properties [src/src/ti/wrap.c] shows of a thing
      that is wrapped by a type, with the mappings of [src/src/ti/type.c].
    - [Update]: compound assignment in [src/src/ti/do.c], with [Opr] and [Field].
    - [Varr], [VarrProps]: the lists of [src/src/ti/varr.c] with the flags that
      say whether they hold things or rooms, and the walks that rely on them.
    - [Index], [IndexProps]: indices and slices, [src/src/ti/index.c].
    - [Gc], [GcProof], [GcProps]: the garbage collector of a collection,
      [src/src/ti/collection.c]. Things are a heap by id.
    - [FieldInit], [FieldInitProof]: reading the declaration of a field,
      [field__init] of [src/src/ti/field.c] and [src/src/ti/condition.c], and the
      default values. [TypeDeps], [TypeProps]: types that use each other, over any
      sequence of new types and of fields added, changed and removed.
    - [Cryptx]: [src/src/util/cryptx.c], the encryption of passwords.
    - [Users], [UsersProof], [UsersSteps], [UsersPriv], [UsersProps]:
      [src/src/ti/user.c], [users.c], [access.c], [auth.c], [token.c] and
      [whitelist.c], with what removing a user does to tasks and the functions of
      the language that change users. The state is a heap of users with counts of
      references, and everything that holds a pointer into it.
    - [Base64]: the base64 routines of [src/src/ti/raw.c].
    - [Mpack], [MpackProof], [MpackRead], [MpackSkip], [MpackProps]:
      [src/inc/util/mpack.h], reading msgpack and packing it. [MpackProof] has the
      grammar of the format; the packer of the msgpack library is a class of
      operations with laws in terms of that grammar. The unpacker is a position in
      a buffer, and whether [char] is signed is a parameter.
    - [Scope], [ScopeProps], [ScopeNames]: [src/src/ti/scope.c] on top of [Mpack],
      with the names and ids of collections in [src/src/ti/collections.c].
    - [Task], [TaskProps]: the tasks with which changes of users reach the other
      nodes, packed in [src/src/ti/task.c] and applied in [src/src/ti/ttask.c], over
      the state of [Users] and the reader of [Mpack].

    Definitions have the names of the C functions they translate. A pointer is
    a value of a type parameter or an address of a heap, NULL is [None] or the
    address 0, a failing allocation is a boolean argument or an exhausted
    counter, and a run with undefined behaviour is [None] or [Undefined]:
    a theorem that a run is [Some] shows that there is none.

    ** What is proved

    - Changes: over any sequence of operations, with any answers of other nodes
      and any failures, the reference counts are exact, the queue is sorted and
      nothing freed is touched; a node accepts each id at most once; the loop
      commits in increasing order and runs a query only at its own id; the
      missing id that is asked for is the least one. Three scenarios show a
      change that is never answered, a lost change and a leak.
    - Quorum: two nodes never win the same id when all answers arrive, the
      callback is called once and the memory freed at the last answer, the
      order of the answers does not matter, and a collision is resolved when
      the others vote; with lost answers two nodes can both win.
    - Containers: vectors, queues, id maps and string maps refine lists, lists,
      finite maps and finite maps: any session of calls within the contract
      returns what the abstract object returns, with every allocation allowed
      to fail where the code handles it. Set operations on id maps are the
      pointwise ones and account for every reference; walks visit each item
      once and within their buffers; the items of a string map rebuild it; the
      fields of its nodes stay within their eight bits.
    - Packages: however the bytes of packages are cut into reads, the same
      packages come out, in order, within the buffer, after finitely many reads;
      a callback that closes the stream makes the reading undefined.
    - Requests: when no request ends while its package is being written and none
      is sent on a closed stream, nothing freed is used and every request gets
      exactly one callback; two scenarios show that both conditions matter.
    - Away: under every order of events no handler trips an assertion or misuses
      a handle, and the status agrees with the timer, the work, the quorum and
      the status shown to others; two nodes that ask at the same time are never
      both accepted, which combines the answers with the counting of [Quorum];
      ready nodes try at times at least 17 seconds apart. Stopping leaves
      callbacks behind.
    - Operators: integer arithmetic is exact or an error, with the exceptions the
      theorem names; no product with a negative right operand succeeds; signs
      in front of a value mean what applying them one by one means.
    - Strings: both validators decide UTF-8, except that one refuses control
      characters; literals of integers are read as their value, and integers are
      read back from their text, with the exceptions the theorems name; the perfect
      hash tables accept exactly their words.
    - Typed values: an assignment accepts exactly the values of a field; a field
      gets another specification only when all its values fit; wrapping a thing
      with a type shows only what passes the check of each field, as for a thing
      without a type, and the header counts it. Compound assignments are not
      checked.
    - Lists: the operations on a list keep its flags, so that the walks that skip
      lists without them miss nothing, when its items may not be nil; slices are
      those of the reference when the step goes from the first to the second
      index, and exactly the slices of the theorem read outside the list;
      assigning to a slice stays inside the memory.
    - Garbage collection: between any changes of the collection, nothing that can
      be reached is destroyed and no reference is left to a destroyed thing, when
      the mark phase follows all values; three scenarios show what it does not
      follow.
    - Declarations: a declaration that is accepted gives a well-formed field with
      a default that fits and counts the dependency that is later taken back, with
      the exceptions the theorem names; between types the fields that cannot be nil
      never have a cycle, so the search for one ends and every type has a default.
    - Users: under every sequence of calls the counts of references are exact and
      every call returns; access lists implement a map to privileges; somebody can
      always grant on ThingsDB; a user that is removed is gone from everything,
      when only the five privileges were granted; a password that was set lets the
      user in. Base64 is decoded to what was encoded.
    - Messages: reading one object of msgpack gives exactly the value whose form
      follows, passing over a value exactly one value, but for two sizes that wrap
      around, both inside the buffer for any bytes; what is packed is read back. A
      request gets a scope exactly for the texts of the grammar of scopes, and the
      names of scopes lead back to their ids whatever is done to the collections.
      Every task for a change of users is accepted by a node in the same state and
      leaves it in the state of the node that made the change.
    - Nodes: adding a node never costs the quorum, the committed ids are the
      minimum over the cluster, the choice of a ready node prefers the zone.

    ** Bounds and fuel

    Loops over lists recurse on the list. The recursion over the levels of an
    id map takes [IMAP_FUEL] = 14 levels: the root uses the low five bits of an
    id and every level below at least five more, so 64-bit ids have at most 13.
    The functions on a string map take one more than the length of the key:
    every level uses at least one byte. The change loop has at most five
    iterations, as in the code. The search for the next ready node takes one step
    for each node: it ends at this node at the latest. Reading packages takes one
    step more than there are bytes in the buffer: every package has a header. The
    callback of a request
    has one level of fuel for each request sent from within a callback that in
    turn cancels one; without requests from callbacks one level is enough.
    Validating UTF-8 takes one step for each byte or block of bytes, replacing in
    a string one for each byte, printing an integer 20 digits (64 bits have 19),
    marking one level for each thing, since every call clears a flag. The search
    for a cycle of types and making the default of a type take one level for each
    type: [type_defaults_made] shows that this is enough. Removing expired tokens
    takes one step for each token, the loops of [cryptx] 64. Passing over a value of
    msgpack takes two calls for each byte and two more ([mp_skip_total]).
    Counters of 32 bits are assumed not to overflow where a theorem says so
    (fewer than 2^32 - 1 items); counters of 8 bits are wrapped, never assumed.

    ** What is not modelled

    Sockets, files and the inside of libuv, most of what is packed into messages,
    and of the language and the data of collections what the files above do not
    name: parsing, most functions, relations between types, migrations of things when
    a type changes. The collections of [Users] are those of the initial state.
    PCRE2, [strtod] and the operations on doubles are parameters.
    What the modelled operations need of them is an argument or an event: the
    answers of other nodes, the result of running a query or of applying a
    change, the clock, the outcome of libuv calls. Freed memory is tracked for
    changes, requests and the away record; the containers do not model a leak
    of a block that is overwritten. The work done in away mode and the
    transfers to nodes that synchronise are not modelled. *)
From Stdlib Require Import ZArith Lia.
From stdpp Require Import base list option numbers.

Global Open Scope Z_scope.

(** ** Machine integers

    A C integer of width [w] is kept as a [Z]; every operation of the source
    that can leave its range is wrapped explicitly. *)

Definition u8 (x : Z) : Z := x mod 256.
Definition u32 (x : Z) : Z := x mod 4294967296.
Definition u64 (x : Z) : Z := x mod 18446744073709551616.
Definition i8 (x : Z) : Z := (x + 128) mod 256 - 128.

Definition UINT8_MAX : Z := 255.
Definition UINT32_MAX : Z := 4294967295.
Definition UINT64_MAX : Z := 18446744073709551615.

Definition b2z (b : bool) : Z := if b then 1 else 0.

Lemma u8_small x : 0 <= x < 256 -> u8 x = x.
Proof. apply Z.mod_small. Qed.

Lemma u32_small x : 0 <= x < 4294967296 -> u32 x = x.
Proof. apply Z.mod_small. Qed.

Lemma u64_small x : 0 <= x < 18446744073709551616 -> u64 x = x.
Proof. apply Z.mod_small. Qed.

Lemma i8_small x : -128 <= x < 128 -> i8 x = x.
Proof. unfold i8. intros ?. rewrite Z.mod_small; lia. Qed.

Lemma u8_range x : 0 <= u8 x < 256.
Proof. apply Z.mod_pos_bound. lia. Qed.

Lemma u32_range x : 0 <= u32 x < 4294967296.
Proof. apply Z.mod_pos_bound. lia. Qed.

Lemma u64_range x : 0 <= u64 x < 18446744073709551616.
Proof. apply Z.mod_pos_bound. lia. Qed.

Ltac unwrap :=
  repeat first
    [ rewrite u32_small by lia | rewrite u64_small by lia
    | rewrite u8_small by lia | rewrite i8_small by lia ].

(** ** Arrays of pointer-sized cells

    An allocated block of [void *] cells is a list of cells. A cell that was
    never written holds [None]: reading it is undefined behaviour, and so is
    every access outside the block. Operations that may hit undefined
    behaviour return [None]; [Some] is a defined run. *)

Definition len {A} (l : list A) : Z := Z.of_nat (length l).

Definition rd {V} (a : list (option V)) (i : Z) : option V :=
  if 0 <=? i then mjoin (a !! Z.to_nat i) else None.

Definition wr {V} (a : list (option V)) (i : Z) (v : V) : option (list (option V)) :=
  if (0 <=? i) && (i <? len a)
  then Some (<[Z.to_nat i := Some v]> a) else None.

(** [n] cells of [a] starting at [i]. *)
Definition slice {A} (a : list A) (i n : Z) : list A :=
  take (Z.to_nat n) (drop (Z.to_nat i) a).

(** Overwrite [a] with [l] at [d]. *)
Definition blit {A} (a : list A) (d : Z) (l : list A) : list A :=
  take (Z.to_nat d) a ++ l ++ drop (Z.to_nat d + length l) a.

(** [memmove] and [memcpy] of [n] cells from [src] (at [s]) to [dst] (at [d]);
    the bounds of both blocks are checked. *)
Definition copy {A} (dst : list A) (d : Z) (src : list A) (s n : Z) : option (list A) :=
  if (0 <=? d) && (0 <=? s) && (0 <=? n)
     && (d + n <=? len dst) && (s + n <=? len src)
  then Some (blit dst d (slice src s n)) else None.

Definition memmove {A} (a : list A) (d s n : Z) : option (list A) :=
  copy a d a s n.

(** [memcpy] inside one block: overlapping ranges are undefined. *)
Definition memcpy_in {A} (a : list A) (d s n : Z) : option (list A) :=
  if (n <=? 0) || (d + n <=? s) || (s + n <=? d) then copy a d a s n else None.

(** [realloc]: the common prefix is kept, new cells are uninitialised. *)
Definition realloc {V} (a : list (option V)) (n : Z) : list (option V) :=
  take (Z.to_nat n) a ++ replicate (Z.to_nat n - length a) None.

Definition malloc {V} (n : Z) : list (option V) := replicate (Z.to_nat n) None.

Lemma len_nonneg {A} (l : list A) : 0 <= len l.
Proof. unfold len. lia. Qed.

Lemma len_app {A} (l k : list A) : len (l ++ k) = len l + len k.
Proof. unfold len. rewrite length_app. lia. Qed.

Lemma len_nonnil {A} (l : list A) : 0 < len l -> l <> [].
Proof. by destruct l. Qed.

Lemma length_realloc {V} (a : list (option V)) n :
  0 <= n -> length (realloc a n) = Z.to_nat n.
Proof.
  intros ?. unfold realloc. rewrite length_app, length_take, length_replicate. lia.
Qed.

Lemma lookup_realloc {V} (a : list (option V)) n i :
  (i < length a)%nat -> (i < Z.to_nat n)%nat -> realloc a n !! i = a !! i.
Proof.
  intros ??. unfold realloc. rewrite lookup_app_l by (rewrite length_take; lia).
  by rewrite lookup_take_lt.
Qed.

Lemma cell_Some {V} (o : option (option V)) x : mjoin o = Some x -> o = Some (Some x).
Proof. destruct o as [[?|]|]; simpl; intros; by simplify_eq. Qed.

Lemma rd_Some {V} (a : list (option V)) i v :
  rd a i = Some v <-> 0 <= i /\ a !! Z.to_nat i = Some (Some v).
Proof.
  unfold rd. destruct (Z.leb_spec 0 i).
  - destruct (a !! Z.to_nat i) as [[?|]|]; simpl; split; intros; destruct_and?; by simplify_eq.
  - split; [done|]. intros [? _]. lia.
Qed.

Lemma wr_Some {V} (a : list (option V)) i v :
  0 <= i < len a -> wr a i v = Some (<[Z.to_nat i := Some v]> a).
Proof.
  intros [??]. unfold wr.
  rewrite (proj2 (Z.leb_le 0 i)), (proj2 (Z.ltb_lt i (len a))) by lia. done.
Qed.

Lemma length_blit {A} (a : list A) d l :
  0 <= d -> d + len l <= len a -> length (blit a d l) = length a.
Proof.
  unfold blit, len. intros ??. rewrite !length_app, length_take, length_drop. lia.
Qed.

Lemma lookup_blit {A} (a : list A) d l (i : nat) :
  0 <= d -> d + len l <= len a ->
  blit a d l !! i =
    (if (Z.to_nat d <=? i)%nat && (i <? Z.to_nat d + length l)%nat
     then l !! (i - Z.to_nat d)%nat else a !! i).
Proof.
  unfold blit, len. intros Hd Hl.
  destruct (Nat.leb_spec (Z.to_nat d) i); simpl.
  - rewrite lookup_app_r by (rewrite length_take; lia).
    rewrite length_take, Nat.min_l by lia.
    destruct (Nat.ltb_spec i (Z.to_nat d + length l)).
    + by rewrite lookup_app_l by lia.
    + rewrite lookup_app_r, lookup_drop by lia. f_equal. lia.
  - rewrite lookup_app_l by (rewrite length_take; lia). by rewrite lookup_take_lt by lia.
Qed.

Lemma lookup_slice {A} (a : list A) s n (i : nat) :
  slice a s n !! i = (if (i <? Z.to_nat n)%nat then a !! (Z.to_nat s + i)%nat else None).
Proof.
  unfold slice. destruct (Nat.ltb_spec i (Z.to_nat n)).
  - by rewrite lookup_take_lt, lookup_drop.
  - apply lookup_ge_None. rewrite length_take. lia.
Qed.

Lemma length_slice {A} (a : list A) s n :
  0 <= s -> 0 <= n -> s + n <= len a -> length (slice a s n) = Z.to_nat n.
Proof. unfold slice, len. intros. rewrite length_take, length_drop. lia. Qed.

(** The one fact about [copy] the components use: it is defined within bounds
    and its effect is pointwise. *)
Lemma copy_spec {A} (dst : list A) d (src : list A) s n :
  0 <= d -> 0 <= s -> 0 <= n -> d + n <= len dst -> s + n <= len src ->
  exists r, copy dst d src s n = Some r /\ length r = length dst /\
    forall i : nat, r !! i =
      (if (Z.to_nat d <=? i)%nat && (i <? Z.to_nat (d + n))%nat
       then src !! (Z.to_nat s + (i - Z.to_nat d))%nat else dst !! i).
Proof.
  intros. unfold copy.
  rewrite (proj2 (Z.leb_le 0 d)), (proj2 (Z.leb_le 0 s)), (proj2 (Z.leb_le 0 n)),
    (proj2 (Z.leb_le (d + n) _)), (proj2 (Z.leb_le (s + n) _)) by lia.
  simpl. eexists. split; [done|].
  assert (Hls : length (slice src s n) = Z.to_nat n) by (apply length_slice; lia).
  assert (Hlz : len (slice src s n) = n) by (unfold len; lia).
  split; [apply length_blit; lia|].
  intros i. rewrite lookup_blit, lookup_slice, Hls by lia.
  replace (Z.to_nat (d + n)) with (Z.to_nat d + Z.to_nat n)%nat by lia.
  destruct (Nat.leb_spec (Z.to_nat d) i), (Nat.ltb_spec i (Z.to_nat d + Z.to_nat n)); simpl;
    try done.
  by destruct (Nat.ltb_spec (i - Z.to_nat d) (Z.to_nat n)); [|lia].
Qed.

Lemma memmove_spec {A} (a : list A) d s n :
  0 <= d -> 0 <= s -> 0 <= n -> d + n <= len a -> s + n <= len a ->
  exists r, memmove a d s n = Some r /\ length r = length a /\
    forall i : nat, r !! i =
      (if (Z.to_nat d <=? i)%nat && (i <? Z.to_nat (d + n))%nat
       then a !! (Z.to_nat s + (i - Z.to_nat d))%nat else a !! i).
Proof. apply copy_spec. Qed.

Lemma memcpy_in_spec {A} (a : list A) d s n :
  0 <= d -> 0 <= s -> 0 <= n -> d + n <= len a -> s + n <= len a ->
  (n = 0 \/ d + n <= s \/ s + n <= d) ->
  exists r, memcpy_in a d s n = Some r /\ length r = length a /\
    forall i : nat, r !! i =
      (if (Z.to_nat d <=? i)%nat && (i <? Z.to_nat (d + n))%nat
       then a !! (Z.to_nat s + (i - Z.to_nat d))%nat else a !! i).
Proof.
  intros ????? Hov. unfold memcpy_in.
  replace ((n <=? 0) || (d + n <=? s) || (s + n <=? d)) with true.
  - by apply copy_spec.
  - symmetry. destruct (Z.leb_spec n 0), (Z.leb_spec (d + n) s), (Z.leb_spec (s + n) d);
      simpl; (done || lia).
Qed.

(** Two arrays are equal when they agree on every index. *)
Lemma list_ext {A} (l k : list A) :
  length l = length k -> (forall i, (i < length l)%nat -> l !! i = k !! i) -> l = k.
Proof.
  intros Hlen H. apply list_eq. intros i.
  destruct (decide (i < length l)%nat); [by apply H|].
  by rewrite !lookup_ge_None_2 by lia.
Qed.

(** Comparisons of the source are boolean; this turns those of a goal and of
    the context into hypotheses. *)
Ltac zbool :=
  repeat match goal with
  | |- context [ ?a <=? ?b ] => destruct (Z.leb_spec a b)
  | |- context [ ?a <? ?b ] => destruct (Z.ltb_spec a b)
  | |- context [ ?a =? ?b ] => destruct (Z.eqb_spec a b)
  | |- context [ (?a <=? ?b)%nat ] => destruct (Nat.leb_spec a b)
  | |- context [ (?a <? ?b)%nat ] => destruct (Nat.ltb_spec a b)
  | |- context [ (?a =? ?b)%nat ] => destruct (Nat.eqb_spec a b)
  end.

(** The same, for comparisons nested in the hypotheses [zbool] leaves. *)
Ltac zbool_all :=
  zbool;
  repeat match goal with
  | H : context [ if ?a <=? ?b then _ else _ ] |- _ => destruct (Z.leb_spec a b)
  | H : context [ if ?a <? ?b then _ else _ ] |- _ => destruct (Z.ltb_spec a b)
  | H : context [ if ?a =? ?b then _ else _ ] |- _ => destruct (Z.eqb_spec a b)
  end.

Create HintDb tdb.
Create Rewrite HintDb tdb.
#[export] Hint Resolve len_nonneg u8_range u32_range u64_range : tdb.
#[export] Hint Rewrite @len_app @length_insert @length_app @length_take
  @length_drop @length_replicate : tdb.
