(* ===== verification/Vec.v ===== *)
(** * util/vec: growable pointer vectors

    [src/src/util/vec.c] and [src/inc/util/vec.h]. A vector is a header [n],
    [sz] followed by the allocated cells. Every function that may allocate
    takes the outcome of the allocation as a boolean; functions that hand a
    new block back through [vec_t **] return the new vector. *)
From Stdlib Require Import ZArith Znumtheory Lia.
From stdpp Require Import base list option numbers.
From S2P Require Import Prelude.

Record vec (V : Type) := Vec {
  vn : Z;                       (* uint32_t n *)
  vsz : Z;                      (* uint32_t sz *)
  vdata : list (option V)       (* void * data[]: the allocated cells *)
}.
Arguments Vec {V} _ _ _.
Arguments vn {V} _.
Arguments vsz {V} _.
Arguments vdata {V} _.

Section Operations.
Context {V : Type} (NULL : V).
Implicit Types v : vec V.

Definition vec_new (ok : bool) (sz : Z) : option (vec V) :=
  if ok then Some (Vec 0 sz (malloc sz)) else None.

(** The values a [vec_each] loop visits, in order. *)
Definition vec_each v : option (list V) :=
  mapM (fun i : nat => rd (vdata v) (Z.of_nat i)) (seq 0 (Z.to_nat (vn v))).

(** The calls of the destroy callback, in order. *)
Definition vec_destroy (v : option (vec V)) (cb : bool) : option (list V) :=
  match v with
  | Some v => if cb then vec_each v else Some []
  | None => Some []
  end.

Fixpoint vec__gcd (fuel : nat) (a b : Z) : option Z :=
  match fuel with
  | O => None
  | S fuel =>
      if b =? 0 then None (* a % 0 *) else
      let t := b in
      let b := a mod b in
      let a := t in
      if b =? 0 then Some a else vec__gcd fuel a b
  end.

(** The inner [for] loop of [vec_move]. *)
Fixpoint vec_move_cycle (m : nat) (data : list (option V)) (i pos n range : Z)
    : option (list (option V) * Z) :=
  match m with
  | O => Some (data, i)
  | S m =>
      let j := u32 (i + n) mod range in
      x ← rd data (u32 (j + pos));
      data ← wr data (u32 (i + pos)) x;
      vec_move_cycle m data j pos n range
  end.

(** The outer [while (gcd--)] loop of [vec_move]. *)
Fixpoint vec_move_cycles (gcd : nat) (m : nat) (data : list (option V)) (pos n range : Z)
    : option (list (option V)) :=
  match gcd with
  | O => Some data
  | S gcd =>
      let i := Z.of_nat gcd in
      tmp ← rd data (u32 (i + pos));
      '(data, i) ← vec_move_cycle m data i pos n range;
      data ← wr data (u32 (i + pos)) tmp;
      vec_move_cycles gcd m data pos n range
  end.

Definition vec_move v (pos n to : Z) : option (vec V) :=
  if (to =? pos) || (n =? 0) then Some v else
  let '(pos, n, to) :=
    if to <? pos then (to, u32 (pos - to), u32 (to + n)) else (pos, n, to) in
  if negb (u32 (to + n) <=? vn v) then None (* assert *) else
  let range := u32 (to + n - pos) in
  gcd ← vec__gcd (S (Z.to_nat n)) range n;
  let m := u32 (range / gcd - 1) in
  data ← vec_move_cycles (Z.to_nat gcd) (Z.to_nat m) (vdata v) pos n range;
  Some (Vec (vn v) (vsz v) data).

(** The loop of [vec_reverse]: [i] from [0] to [e], [n] decremented. *)
Fixpoint vec_reverse_loop (e : nat) (data : list (option V)) (i n : Z)
    : option (list (option V)) :=
  match e with
  | O => Some data
  | S e =>
      let n := n - 1 in
      tmp ← rd data i;
      x ← rd data n;
      data ← wr data i x;
      data ← wr data n tmp;
      vec_reverse_loop e data (i + 1) n
  end.

Definition vec_reverse v : option (vec V) :=
  data ← vec_reverse_loop (Z.to_nat (vn v / 2)) (vdata v) 0 (vn v);
  Some (Vec (vn v) (vsz v) data).

Definition vec_remove v (i : Z) : option (V * vec V) :=
  x ← rd (vdata v) i;
  let n := u32 (vn v - 1) in
  data ← memmove (vdata v) i (i + 1) (u32 (n - i));
  Some (x, Vec n (vsz v) data).

Definition vec_swap_remove v (i : Z) : option (V * vec V) :=
  if negb (0 <? vn v) then None (* assert *) else
  x ← rd (vdata v) i;
  let n := vn v - 1 in
  y ← rd (vdata v) n;
  data ← wr (vdata v) i y;
  Some (x, Vec n (vsz v) data).

Definition vec_dup (ok : bool) v : option (option (vec V)) :=
  if ok then
    data ← copy (malloc (vn v)) 0 (vdata v) 0 (vn v);
    Some (Some (Vec (vn v) (vn v) data))
  else Some None.

Definition vec_copy (ok : bool) v : option (option (vec V)) :=
  if ok then
    data ← copy (malloc (vsz v)) 0 (vdata v) 0 (vsz v);
    Some (Some (Vec (vn v) (vsz v) data))
  else Some None.

(** The unsafe macro: no test on the capacity. *)
Definition VEC_push v (d : V) : option (vec V) :=
  data ← wr (vdata v) (vn v) d;
  Some (Vec (u32 (vn v + 1)) (vsz v) data).

(** The growth step [vec_push] and [vec_insert] share textually: double the
    size, or [1] for the first item; [None] when the reallocation fails, in
    which case the original size is restored. *)
Definition vec_grow (ok : bool) v : option (vec V) :=
  let prev := vsz v in
  let sz := if prev =? 0 then 1 else u32 (Z.shiftl prev 1) in
  if ok then Some (Vec (vn v) sz (realloc (vdata v) sz)) else None.

Definition vec_push (ok : bool) v (d : V) : option (Z * vec V) :=
  if vn v =? vsz v then
    match vec_grow ok v with
    | None => Some (-1, v)
    | Some v' => v'' ← VEC_push v' d; Some (0, v'')
    end
  else v' ← VEC_push v d; Some (0, v').

Definition vec_insert (ok : bool) v (d : V) (i : Z) : option (Z * vec V) :=
  if negb (i <=? vn v) then None (* assert *) else
  let set v :=
    data ← (if i <? vn v
            then memmove (vdata v) (i + 1) i (vn v - i) else Some (vdata v));
    data ← wr data i d;
    Some (0, Vec (u32 (vn v + 1)) (vsz v) data) in
  if vn v =? vsz v then
    match vec_grow ok v with
    | None => Some (-1, v)
    | Some v' => set v'
    end
  else set v.

Definition vec_extend (ok : bool) v (data : list (option V)) (n : Z)
    : option (Z * vec V) :=
  let n' := u32 (vn v + n) in
  if vsz v <? n' then
    if ok then
      cells ← copy (realloc (vdata v) n') (u32 (n' - n)) data 0 n;
      Some (0, Vec n' n' cells)
    else Some (-1, Vec (u32 (n' - n)) (vsz v) (vdata v))
  else
    cells ← copy (vdata v) (u32 (n' - n)) data 0 n;
    Some (0, Vec n' (vsz v) cells).

Definition vec_space v : Z := u32 (vsz v - vn v).

Definition vec_reserve (ok : bool) v (n : Z) : Z * vec V :=
  if vec_space v <? n then
    let sz := u32 (Z.shiftl (vsz v) 1) in
    let sz' := u32 (if u64 (sz - vn v) <? n then n else sz) in
    if ok then (0, Vec (vn v) sz' (realloc (vdata v) sz'))
    else (-1, Vec (vn v) (u32 (Z.shiftr sz 1)) (vdata v))
  else (0, v).

Definition vec_make (ok : bool) (v : option (vec V)) (n : Z) : Z * option (vec V) :=
  match v with
  | None => match vec_new ok n with
            | Some v => (0, Some v)
            | None => (-1, None)
            end
  | Some v => let '(rc, v) := vec_reserve ok v n in (rc, Some v)
  end.

Definition vec_resize (ok : bool) v (sz : Z) : Z * vec V :=
  if ok then
    (0, Vec (if sz <? vn v then sz else vn v) sz (realloc (vdata v) sz))
  else (-1, v).

Definition vec_may_shrink (ok : bool) v : Z * vec V :=
  if vec_space v <? 16 then (0, v) else
  if ok then (0, Vec (vn v) (vn v) (realloc (vdata v) (u32 (vn v + 8))))
  else (-1, v).

Definition vec_shrink (ok : bool) v : Z * vec V :=
  if vn v =? vsz v then (0, v) else
  if ok then (0, Vec (vn v) (vn v) (realloc (vdata v) (vn v)))
  else (-1, v).

(** *** vec.h *)

Definition vec_get v (i : Z) : option V :=
  if i <? vn v then rd (vdata v) i else Some NULL.

Definition vec_first v : option V := vec_get v 0.

Definition vec_last v : option V := vec_get v (u32 (vn v - 1)).

Definition vec_set v (d : V) (i : Z) : option (V * vec V) :=
  old ← rd (vdata v) i;
  data ← wr (vdata v) i d;
  Some (old, Vec (vn v) (vsz v) data).

Definition vec_pop v : option (V * vec V) :=
  if vn v =? 0 then Some (NULL, v) else
  let n := vn v - 1 in
  x ← rd (vdata v) n;
  Some (x, Vec n (vsz v) (vdata v)).

Definition vec_clear v : vec V := Vec 0 (vsz v) (vdata v).

Definition vec_clear_cb v : option (list V * vec V) :=
  calls ← vec_each v;
  Some (calls, vec_clear v).

Definition vec_push_create (ok : bool) (v : option (vec V)) (d : V)
    : option (Z * option (vec V)) :=
  match v with
  | Some v => '(rc, v) ← vec_push ok v d; Some (rc, Some v)
  | None => match vec_new ok 7 with
            | None => Some (-1, None)
            | Some v => v ← VEC_push v d; Some (0, Some v)
            end
  end.

Definition vec_swap v (i j : Z) : option (vec V) :=
  tmp ← rd (vdata v) i;
  x ← rd (vdata v) j;
  data ← wr (vdata v) i x;
  data ← wr data j tmp;
  Some (Vec (vn v) (vsz v) data).

Definition vec_fill_null v : option (vec V) :=
  data ← copy (vdata v) 0 (replicate (Z.to_nat (vsz v)) (Some NULL)) 0 (vsz v);
  Some (Vec (vsz v) (vsz v) data).

Definition vec_empty (v : option (vec V)) : bool :=
  match v with Some v => vn v =? 0 | None => true end.

End Operations.

(** ** Representation

    [vrep v l]: the vector [v] holds exactly the list [l], its header is
    consistent with the allocation, and every one of its [n] cells is
    initialised. *)
Record vrep {V} (v : vec V) (l : list V) : Prop := VRep {
  vrep_n : vn v = len l;
  vrep_sz : vn v <= vsz v;
  vrep_cap : vsz v <= len (vdata v);
  vrep_u32 : vsz v < 4294967296;
  vrep_cells : forall i, (i < length l)%nat -> vdata v !! i = Some <$> l !! i
}.

Section Lemmas.
Context {V : Type}.
Implicit Types (v : vec V) (l : list V) (x y d : V).

Lemma vrep_bounds v l : vrep v l -> 0 <= vn v <= vsz v.
Proof. intros []. pose proof (len_nonneg l). lia. Qed.

Lemma vrep_rd v l i x :
  vrep v l -> l !! i = Some x -> rd (vdata v) (Z.of_nat i) = Some x.
Proof.
  intros [] Hx. apply rd_Some. split; [lia|]. rewrite Nat2Z.id.
  rewrite vrep_cells0 by (by eapply lookup_lt_Some). by rewrite Hx.
Qed.

Lemma vrep_rdZ v l i x :
  vrep v l -> 0 <= i -> l !! Z.to_nat i = Some x -> rd (vdata v) i = Some x.
Proof. intros Hr ? Hx. rewrite <-(Z2Nat.id i) by lia. by eapply vrep_rd. Qed.

Lemma lookup_Z_lt l i : 0 <= i < len l -> exists x, l !! Z.to_nat i = Some x.
Proof. intros ?. apply lookup_lt_is_Some. unfold len in *. lia. Qed.

Lemma vec_new_rep sz :
  0 <= sz < 4294967296 -> exists v : vec V, vec_new true sz = Some v /\ vrep v [] /\ vsz v = sz.
Proof.
  intros ?. eexists. split; [done|]. split; [|done]. split; simpl; try lia; try done.
  unfold malloc, len. rewrite length_replicate. lia.
Qed.

(** A write of one cell, growing the list by one at its end. *)
Lemma VEC_push_rep v l d :
  vrep v l -> vn v < vsz v ->
  exists v', VEC_push v d = Some v' /\ vrep v' (l ++ [d]) /\ vsz v' = vsz v.
Proof.
  intros Hr ?. pose proof (vrep_bounds _ _ Hr). destruct Hr.
  unfold VEC_push. rewrite wr_Some by lia. simpl. eexists. split; [done|].
  split; [|done]. split; simpl; unwrap; rewrite ?len_app.
  - rewrite vrep_n0. done.
  - lia.
  - unfold len. rewrite length_insert. done.
  - done.
  - intros i Hi. rewrite length_app in Hi. simpl in Hi.
    destruct (decide (i = length l)) as [->|].
    + rewrite lookup_app_r, Nat.sub_diag by lia. simpl.
      replace (Z.to_nat (vn v)) with (length l) by (unfold len in *; lia).
      rewrite list_lookup_insert_eq by (unfold len in *; lia). done.
    + rewrite lookup_app_l by lia.
      rewrite list_lookup_insert_ne by (unfold len in *; lia). apply vrep_cells0. lia.
Qed.

Lemma vec_grow_rep v l :
  vrep v l -> vn v = vsz v -> vsz v < 2147483648 ->
  exists v', vec_grow true v = Some v' /\ vrep v' l /\ vn v' < vsz v' /\
    vsz v' = (if vsz v =? 0 then 1 else 2 * vsz v).
Proof.
  intros Hr ??. pose proof (vrep_bounds _ _ Hr). destruct Hr.
  assert (Hsh : Z.shiftl (vsz v) 1 = 2 * vsz v) by (rewrite Z.shiftl_mul_pow2 by lia; lia).
  unfold vec_grow. eexists. split; [done|]. simpl.
  set (sz := if vsz v =? 0 then 1 else u32 (Z.shiftl (vsz v) 1)).
  assert (Hsz : sz = if vsz v =? 0 then 1 else 2 * vsz v)
    by (subst sz; rewrite Hsh; unwrap; done).
  assert (vsz v < sz) by (rewrite Hsz; zbool; lia).
  split; [|split; [lia|done]].
  split; simpl; try done; try lia.
  - unfold len. rewrite length_realloc by lia. lia.
  - rewrite Hsz. zbool; lia.
  - intros i Hi. rewrite lookup_realloc by (unfold len in *; lia). by apply vrep_cells0.
Qed.

Lemma vec_push_rep ok v l d :
  vrep v l -> vn v < 2147483648 ->
  exists rc v', vec_push ok v d = Some (rc, v') /\
    ((rc = 0 /\ vrep v' (l ++ [d])) \/ (rc = -1 /\ ok = false /\ v' = v)).
Proof.
  intros Hr Hsz. pose proof (vrep_bounds _ _ Hr). unfold vec_push.
  destruct (Z.eqb_spec (vn v) (vsz v)).
  - destruct ok.
    + destruct (vec_grow_rep _ _ Hr) as (v1 & -> & Hr1 & Hlt & _); [lia..|].
      destruct (VEC_push_rep _ _ d Hr1 Hlt) as (v2 & -> & ? & _). simpl. eauto 10.
    + simpl. eauto 10.
  - destruct (VEC_push_rep _ _ d Hr) as (v2 & -> & ? & _); [lia|]. simpl. eauto 10.
Qed.

(** Opening a gap at [i]: shifting the tail one cell up and writing [d]. *)
Lemma vec_open_gap v l d i :
  vrep v l -> 0 <= i <= vn v -> vn v < vsz v ->
  exists data data',
    (if i <? vn v then memmove (vdata v) (i + 1) i (vn v - i) else Some (vdata v)) = Some data /\
    wr data i d = Some data' /\
    vrep (Vec (vn v + 1) (vsz v) data') (take (Z.to_nat i) l ++ d :: drop (Z.to_nat i) l).
Proof.
  intros Hr ??. pose proof (vrep_bounds _ _ Hr). destruct Hr.
  assert (exists data, (if i <? vn v then memmove (vdata v) (i + 1) i (vn v - i)
      else Some (vdata v)) = Some data /\ length data = length (vdata v) /\
      forall k, (k <= length l)%nat -> k <> Z.to_nat i ->
        data !! k = vdata v !! (if (k <? Z.to_nat i)%nat then k else (k - 1)%nat))
    as (data & -> & Hlen & Hdata).
  { destruct (Z.ltb_spec i (vn v)).
    - destruct (memmove_spec (vdata v) (i + 1) i (vn v - i)) as (r & -> & Hlr & Hr); [lia..|].
      eexists. split; [done|]. split; [done|]. intros k Hk ?. rewrite Hr.
      zbool; simpl; try (f_equal; lia); unfold len in *; lia.
    - eexists. split; [done|]. split; [done|]. intros k Hk ?.
      destruct (Nat.ltb_spec k (Z.to_nat i)); [done|]. unfold len in *. lia. }
  exists data, (<[Z.to_nat i := Some d]> data). split; [done|].
  split; [apply wr_Some; unfold len in *; lia|].
  split; simpl.
  - rewrite len_app. unfold len in *. simpl. rewrite length_take, length_drop. lia.
  - lia.
  - unfold len in *. rewrite length_insert. lia.
  - done.
  - intros k Hk. rewrite length_app in Hk. simpl in Hk. rewrite length_take, length_drop in Hk.
    destruct (decide (k = Z.to_nat i)) as [->|Hne].
    + rewrite list_lookup_insert_eq by (unfold len in *; lia).
      rewrite lookup_app_r by (rewrite length_take; lia).
      rewrite length_take, Nat.min_l, Nat.sub_diag by (unfold len in *; lia). done.
    + rewrite list_lookup_insert_ne by done. rewrite Hdata by (unfold len in *; lia).
      destruct (Nat.ltb_spec k (Z.to_nat i)).
      * rewrite vrep_cells0, lookup_app_l, lookup_take_lt
          by (rewrite ?length_take; unfold len in *; lia). done.
      * rewrite vrep_cells0 by (unfold len in *; lia).
        rewrite lookup_app_r by (rewrite length_take; lia).
        rewrite length_take, Nat.min_l by (unfold len in *; lia).
        destruct (k - Z.to_nat i)%nat eqn:E; [lia|]. simpl. rewrite lookup_drop.
        do 2 f_equal. lia.
Qed.

Lemma vec_insert_rep ok v l d i :
  vrep v l -> 0 <= i <= vn v -> vn v < 2147483648 ->
  exists rc v', vec_insert ok v d i = Some (rc, v') /\
    ((rc = 0 /\ vrep v' (take (Z.to_nat i) l ++ d :: drop (Z.to_nat i) l)) \/
     (rc = -1 /\ ok = false /\ v' = v)).
Proof.
  intros Hr Hi Hsz. pose proof (vrep_bounds _ _ Hr). unfold vec_insert.
  rewrite (proj2 (Z.leb_le i (vn v))) by lia. simpl.
  destruct (Z.eqb_spec (vn v) (vsz v)).
  - destruct ok; [|simpl; eauto 10].
    destruct (vec_grow_rep _ _ Hr) as (v1 & E & Hr1 & Hlt & Hsz1); [lia..|]. rewrite E.
    assert (vn v1 = vn v) as Hn by (unfold vec_grow in E; by simplify_eq/=).
    destruct (vec_open_gap v1 l d i Hr1) as (da & db & -> & Hw & Hr2); [lia..|].
    simpl. rewrite Hw. simpl. rewrite u32_small by (zbool; lia). eauto 10.
  - destruct (vec_open_gap v l d i Hr) as (da & db & -> & Hw & Hr2); [lia..|].
    simpl. rewrite Hw. simpl. rewrite u32_small by (destruct Hr; lia). eauto 10.
Qed.

Lemma vrep_len v l : vrep v l -> len (vdata v) >= len l.
Proof. intros Hr. pose proof (vrep_bounds _ _ Hr). destruct Hr. lia. Qed.

(** Any rewrite of the cells that leaves the header alone. *)
Lemma vrep_update v l data (k : list V) :
  vrep v l -> length data = length (vdata v) -> length k = length l ->
  (forall i, (i < length l)%nat -> data !! i = Some <$> k !! i) ->
  vrep (Vec (vn v) (vsz v) data) k.
Proof.
  intros [] Hlen Hk Hc. split; simpl; unfold len in *; try lia.
  intros i Hi. apply Hc. lia.
Qed.

Lemma vec_remove_rep v l i x :
  vrep v l -> 0 <= i -> l !! Z.to_nat i = Some x ->
  exists v', vec_remove v i = Some (x, v') /\ vrep v' (delete (Z.to_nat i) l) /\ vsz v' = vsz v.
Proof.
  intros Hr Hi Hx. pose proof (vrep_bounds _ _ Hr). pose proof (lookup_lt_Some _ _ _ Hx).
  unfold vec_remove. rewrite (vrep_rdZ _ _ _ _ Hr Hi Hx). simpl. destruct Hr.
  unfold len in *. unwrap.
  destruct (memmove_spec (vdata v) i (i + 1) (vn v - 1 - i)) as (r & -> & Hlr & Hr);
    [unfold len in *; lia..|].
  simpl. eexists. split; [done|]. split; [|done]. split; simpl; unfold len in *; try lia.
  - rewrite length_delete by eauto. lia.
  - intros k Hk. rewrite length_delete in Hk by eauto. rewrite Hr.
    destruct (decide (k < Z.to_nat i)%nat).
    + rewrite list_lookup_delete_lt by done. zbool; simpl; try lia.
      all: apply vrep_cells0; lia.
    + rewrite list_lookup_delete_ge by lia. zbool; simpl; try lia.
      replace (Z.to_nat (i + 1) + (k - Z.to_nat i))%nat with (S k) by lia.
      apply vrep_cells0; lia.
Qed.

Lemma vec_swap_remove_rep v l i x y :
  vrep v l -> 0 <= i -> l !! Z.to_nat i = Some x -> list.last l = Some y ->
  exists v', vec_swap_remove v i = Some (x, v') /\
    vrep v' (take (length l - 1) (<[Z.to_nat i := y]> l)).
Proof.
  intros Hr Hi Hx Hy. pose proof (vrep_bounds _ _ Hr). pose proof (lookup_lt_Some _ _ _ Hx).
  pose proof (vrep_len _ _ Hr).
  unfold vec_swap_remove. pose proof (vrep_n _ _ Hr). unfold len in *.
  rewrite (proj2 (Z.ltb_lt 0 (vn v))) by lia. simpl.
  rewrite (vrep_rdZ _ _ _ _ Hr Hi Hx). simpl.
  rewrite last_lookup in Hy. rewrite (vrep_rdZ _ _ (vn v - 1) y Hr);
    [|lia|rewrite <-Hy; f_equal; lia].
  simpl. rewrite wr_Some by (unfold len; lia). simpl. eexists. split; [done|].
  destruct Hr. split; simpl; unfold len in *; rewrite ?length_take, ?length_insert; try lia.
  intros k Hk. rewrite lookup_take_lt by lia.
  destruct (decide (k = Z.to_nat i)) as [->|].
  - by rewrite !list_lookup_insert_eq by lia.
  - rewrite !list_lookup_insert_ne by done. apply vrep_cells0. lia.
Qed.

Lemma vec_pop_rep (NULL : V) v l :
  vrep v l ->
  match l with
  | [] => vec_pop NULL v = Some (NULL, v)
  | _ => exists v', vec_pop NULL v = Some (default NULL (list.last l), v') /\
           vrep v' (take (length l - 1) l)
  end.
Proof.
  intros Hr. pose proof (vrep_bounds _ _ Hr). pose proof (vrep_n _ _ Hr).
  unfold vec_pop, len in *. destruct (Z.eqb_spec (vn v) 0), l as [|a l]; simpl in *;
    try lia; [done|].
  destruct (last_is_Some (a :: l)) as [_ Hls]. destruct Hls as [y Hy]; [done|].
  change (match l with [] => Some a | _ => list.last l end) with (list.last (a :: l)) in *.
  rewrite Hy. rewrite last_lookup in Hy. simpl in Hy.
  rewrite (vrep_rdZ _ _ (vn v - 1) y Hr); [|lia|rewrite <-Hy; f_equal; lia].
  simpl. eexists. split; [done|]. destruct Hr.
  split; simpl; unfold len in *; rewrite ?length_take; simpl in *; try lia.
  intros k Hk. rewrite Nat.sub_0_r. rewrite lookup_take_lt by lia. apply vrep_cells0. lia.
Qed.

Lemma vec_set_rep v l d i x :
  vrep v l -> 0 <= i -> l !! Z.to_nat i = Some x ->
  exists v', vec_set v d i = Some (x, v') /\ vrep v' (<[Z.to_nat i := d]> l).
Proof.
  intros Hr Hi Hx. pose proof (vrep_len _ _ Hr). pose proof (lookup_lt_Some _ _ _ Hx).
  unfold vec_set. rewrite (vrep_rdZ _ _ _ _ Hr Hi Hx). simpl.
  unfold len in *. rewrite wr_Some by (unfold len; lia). simpl. eexists. split; [done|].
  apply (vrep_update v l); [done|by rewrite length_insert..|].
  intros k Hk. destruct (decide (k = Z.to_nat i)) as [->|].
  - by rewrite !list_lookup_insert_eq by lia.
  - rewrite !list_lookup_insert_ne by done. by apply Hr.
Qed.

Lemma vec_swap_rep v l i j x y :
  vrep v l -> 0 <= i -> 0 <= j -> l !! Z.to_nat i = Some x -> l !! Z.to_nat j = Some y ->
  exists v', vec_swap v i j = Some v' /\
    vrep v' (<[Z.to_nat j := x]> (<[Z.to_nat i := y]> l)).
Proof.
  intros Hr Hi Hj Hx Hy. pose proof (vrep_len _ _ Hr).
  pose proof (lookup_lt_Some _ _ _ Hx). pose proof (lookup_lt_Some _ _ _ Hy).
  unfold vec_swap. rewrite (vrep_rdZ _ _ _ _ Hr Hi Hx), (vrep_rdZ _ _ _ _ Hr Hj Hy). simpl.
  unfold len in *. rewrite wr_Some by (unfold len; lia). simpl.
  rewrite wr_Some by (unfold len; rewrite length_insert; lia). simpl.
  eexists. split; [done|].
  apply (vrep_update v l); [done|by rewrite !length_insert..|].
  intros k Hk. rewrite !list_lookup_insert, !length_insert.
  repeat case_decide; try done; try lia. by apply Hr.
Qed.

Lemma vec_extend_rep ok v l data n (k : list V) :
  vrep v l -> n = len k -> (forall i, (i < length k)%nat -> data !! i = Some <$> k !! i) ->
  n <= len data -> vn v + n < 4294967296 ->
  exists rc v', vec_extend ok v data n = Some (rc, v') /\
    ((rc = 0 /\ vrep v' (l ++ k)) \/ (rc = -1 /\ ok = false /\ v' = v)).
Proof.
  intros Hr -> Hdata Hcap Hfit. pose proof (vrep_bounds _ _ Hr). pose proof (len_nonneg k).
  assert (Hcells : forall cells r, (length l + length k <= length cells)%nat ->
      (forall i, (i < length l)%nat -> cells !! i = Some <$> l !! i) ->
      length r = length cells ->
      (forall i, r !! i = if (Z.to_nat (vn v) <=? i)%nat && (i <? Z.to_nat (vn v + len k))%nat
         then data !! (Z.to_nat 0 + (i - Z.to_nat (vn v)))%nat else cells !! i) ->
      forall i, (i < length (l ++ k))%nat -> r !! i = Some <$> (l ++ k) !! i).
  { intros cells r Hc Hl Hlr Hri i Hi. rewrite length_app in Hi. rewrite Hri.
    pose proof (vrep_n _ _ Hr). unfold len in *.
    destruct (decide (i < length l)%nat).
    - rewrite lookup_app_l by done. zbool; simpl; try lia; by apply Hl.
    - rewrite lookup_app_r by lia. zbool; simpl; try lia.
      rewrite Hdata by lia. do 2 f_equal. lia. }
  unfold vec_extend. rewrite (u32_small (vn v + len k)) by lia.
  replace (vn v + len k - len k) with (vn v) by lia. rewrite (u32_small (vn v)) by (destruct Hr; lia).
  destruct Hr. destruct (Z.ltb_spec (vsz v) (vn v + len k)).
  - destruct ok; [|eexists _, _; split; [done|]; right; by destruct v].
    assert (Hrl : length (realloc (vdata v) (vn v + len k)) = Z.to_nat (vn v + len k))
      by (apply length_realloc; lia).
    destruct (copy_spec (realloc (vdata v) (vn v + len k)) (vn v) data 0 (len k))
      as (r & -> & Hlr & Hri); [unfold len in *; lia..|].
    simpl. eexists _, _. split; [done|]. left. split; [done|].
    split; simpl; try lia; try (unfold len in *; rewrite ?length_app; lia).
    eapply Hcells; [|intros; rewrite lookup_realloc; [by apply vrep_cells0|..]|done..];
      unfold len in *; lia.
  - destruct (copy_spec (vdata v) (vn v) data 0 (len k)) as (r & -> & Hlr & Hri);
      [unfold len in *; lia..|].
    simpl. eexists _, _. split; [done|]. left. split; [done|].
    split; simpl; try lia; try (unfold len in *; rewrite ?length_app; lia).
    eapply Hcells; [|done..]. unfold len in *; lia.
Qed.

Lemma vec_realloc_rep v l n sz cap :
  vrep v l -> n = Z.min (vn v) n -> 0 <= n <= sz -> sz <= cap -> sz < 4294967296 ->
  vrep (Vec n sz (realloc (vdata v) cap)) (take (Z.to_nat n) l).
Proof.
  intros [] ????. split; simpl; unfold len in *; rewrite ?length_take, ?length_realloc by lia;
    try lia.
  intros i Hi. rewrite lookup_take_lt by lia. rewrite lookup_realloc by lia. apply vrep_cells0. lia.
Qed.

Lemma vec_each_rep v l : vrep v l -> vec_each v = Some l.
Proof.
  intros Hr. unfold vec_each. apply mapM_Some. apply Forall2_same_length_lookup. split.
  - rewrite length_seq. pose proof (vrep_n _ _ Hr). unfold len in *. lia.
  - intros i a x Ha Hx. apply lookup_seq in Ha as [-> _]. by eapply vrep_rd.
Qed.
End Lemmas.

(** ** [vec_move]: the rotation by cycles *)
Section Move.
Context {V : Type}.

Lemma vec__gcd_correct fuel a b :
  0 <= a -> 0 < b -> (Z.to_nat b <= fuel)%nat -> vec__gcd fuel a b = Some (Z.gcd a b).
Proof.
  revert a b. induction fuel as [|fuel IH]; intros a b Ha Hb Hf; [lia|]. simpl.
  destruct (Z.eqb_spec b 0); [lia|].
  pose proof (Z.mod_pos_bound a b Hb).
  assert (Hg : Z.gcd a b = Z.gcd b (a mod b))
    by (rewrite (Z.gcd_comm b), Z.gcd_mod by lia; apply Z.gcd_comm).
  destruct (Z.eqb_spec (a mod b) 0) as [E|].
  - rewrite Hg, E, Z.gcd_0_r, Z.abs_eq by lia. done.
  - rewrite IH by lia. by rewrite Hg.
Qed.

(** The cells of one cycle: [c], [c + n], [c + 2n], ... modulo [range]. *)
Definition cyc (n range c : Z) (k : nat) : Z := (c + Z.of_nat k * n) mod range.

Definition visited (n range c : Z) (k : nat) (x : Z) : bool :=
  existsb (fun j => x =? cyc n range c j) (seq 0 k).

Lemma visited_S n range c k x :
  visited n range c (S k) x = visited n range c k x || (x =? cyc n range c k).
Proof.
  unfold visited. rewrite seq_S, existsb_app. simpl. by rewrite orb_false_r.
Qed.

Lemma visited_true n range c k x :
  visited n range c k x = true <-> exists j, (j < k)%nat /\ x = cyc n range c j.
Proof.
  unfold visited. rewrite existsb_exists. split.
  - intros (j & Hj & ?%Z.eqb_eq). apply in_seq in Hj. exists j. split; [lia|done].
  - intros (j & ? & ->). exists j. rewrite in_seq, Z.eqb_eq. split; [lia|done].
Qed.

Context (n range : Z) (Hn : 0 < n < range).
Let g := Z.gcd range n.

Lemma cyc_gcd_pos : 0 < g.
Proof.
  assert (g <> 0) by (intros ?%Z.gcd_eq_0_l; lia). pose proof (Z.gcd_nonneg range n). lia.
Qed.

Lemma cyc_range c k : 0 <= cyc n range c k < range.
Proof. apply Z.mod_pos_bound. lia. Qed.

Lemma cyc_next c k : (cyc n range c k + n) mod range = cyc n range c (S k).
Proof.
  unfold cyc. rewrite Zplus_mod_idemp_l. f_equal. lia.
Qed.

Lemma cyc_mod_gcd c k : cyc n range c k mod g = c mod g.
Proof.
  pose proof cyc_gcd_pos. unfold cyc.
  destruct (Z.gcd_divide_l range n) as [p Hp], (Z.gcd_divide_r range n) as [q Hq]. fold g in Hp, Hq.
  pose proof (Z.div_mod (c + Z.of_nat k * n) range ltac:(lia)) as E.
  set (s := (c + Z.of_nat k * n) / range) in *. set (r := _ mod range) in *.
  replace r with (c + (Z.of_nat k * q - p * s) * g) by (rewrite Hp, Hq in E; lia).
  by rewrite Z.mod_add by lia.
Qed.

Lemma cyc_period : exists K, range = g * Z.of_nat (S K).
Proof.
  pose proof cyc_gcd_pos.
  destruct (Z.gcd_divide_l range n) as [p Hp]. fold g in Hp.
  assert (0 < p) by nia. exists (Z.to_nat (p - 1)).
  replace (Z.of_nat (S (Z.to_nat (p - 1)))) with p by lia. lia.
Qed.

(** [j] and [k] hit the same cell only when the period divides their distance. *)
Lemma cyc_inj c j k K :
  range = g * Z.of_nat (S K) -> (j <= K)%nat -> (k <= K)%nat ->
  cyc n range c j = cyc n range c k -> j = k.
Proof.
  intros HK Hj Hk E. pose proof cyc_gcd_pos.
  assert (Hdiv : (range | (Z.of_nat j - Z.of_nat k) * n)).
  { apply Z.mod_divide; [lia|]. unfold cyc in E.
    replace ((Z.of_nat j - Z.of_nat k) * n)
      with ((c + Z.of_nat j * n) - (c + Z.of_nat k * n)) by lia.
    rewrite Zminus_mod, E, Z.sub_diag. by apply Z.mod_0_l; lia. }
  destruct (Z.gcd_divide_r range n) as [q Hq]. fold g in Hq.
  assert (Hrel : Z.gcd (Z.of_nat (S K)) q = 1).
  { assert (Hg : g * Z.gcd (Z.of_nat (S K)) q = g * 1).
    { rewrite <-Z.gcd_mul_mono_l_nonneg by lia. rewrite <-HK, (Z.mul_comm g q), <-Hq. lia. }
    nia. }
  assert (Hd2 : (Z.of_nat (S K) | (Z.of_nat j - Z.of_nat k) * q)).
  { destruct Hdiv as [w Hw]. exists w. rewrite Hq, HK in Hw. nia. }
  rewrite Z.mul_comm in Hd2. apply Z.gauss in Hd2 as [w Hw]; [|done].
  destruct (decide (w = 0)) as [->|]; [lia|]. nia.
Qed.

(** A full cycle visits exactly the residue class of its start. *)
Lemma visited_full c K x :
  range = g * Z.of_nat (S K) -> 0 <= c < g -> 0 <= x < range ->
  visited n range c (S K) x = (x mod g =? c).
Proof.
  intros HK Hc Hx. pose proof cyc_gcd_pos. apply eq_true_iff_eq.
  rewrite visited_true, Z.eqb_eq. split.
  - intros (j & _ & ->). by rewrite cyc_mod_gcd, Z.mod_small.
  - intros Hmod. destruct (Z.gcd_bezout range n g eq_refl) as (a & b & Hab).
    pose proof (Z.div_mod x g ltac:(lia)).
    set (t := x / g) in *. set (k := (t * b) mod Z.of_nat (S K)).
    pose proof (Z.mod_pos_bound (t * b) (Z.of_nat (S K)) ltac:(lia)) as Hk. fold k in Hk.
    exists (Z.to_nat k). split; [lia|]. unfold cyc. rewrite Z2Nat.id by lia.
    assert (Hk2 : t * b = Z.of_nat (S K) * (t * b / Z.of_nat (S K)) + k)
      by (apply Z.div_mod; lia).
    destruct (Z.gcd_divide_r range n) as [q Hq]. fold g in Hq.
    set (s := t * b / Z.of_nat (S K)) in *.
    replace (c + k * n) with (x + (- t * a - q * s) * range); cycle 1.
    { clearbody g k s t.
      assert (Hqr : Z.of_nat (S K) * n = q * range) by (rewrite HK, Hq; ring).
      assert (Hkn : k * n = t * (b * n) - s * (Z.of_nat (S K) * n)).
      { replace k with (t * b - Z.of_nat (S K) * s) by lia. ring. }
      replace (b * n) with (g - a * range) in Hkn by lia.
      rewrite Hkn, Hqr. replace x with (g * t + c) by lia. ring. }
    by rewrite Z.mod_add, Z.mod_small by lia.
Qed.

Context (pos : Z) (Hpos : 0 <= pos) (Hfit : pos + range + n <= 4294967296).

(** [cells data D]: the rotated window of [data] reads as [D]. *)
Definition cells (data : list (option V)) (D : Z -> V) : Prop :=
  forall x, 0 <= x < range -> rd data (pos + x) = Some (D x).

Definition frame (data data' : list (option V)) : Prop :=
  length data' = length data /\
  forall i, (i < Z.to_nat pos \/ Z.to_nat (pos + range) <= i)%nat -> data' !! i = data !! i.

Lemma cells_wr data D x v :
  cells data D -> 0 <= x < range -> pos + range <= len data ->
  exists data', wr data (pos + x) v = Some data' /\ frame data data' /\
    cells data' (fun y => if y =? x then v else D y).
Proof.
  intros Hc Hx Hl. rewrite wr_Some by lia. eexists. split; [done|]. split.
  - split; [apply length_insert|]. intros i Hi. apply list_lookup_insert_ne. lia.
  - intros y Hy. apply rd_Some. split; [lia|].
    destruct (Z.eqb_spec y x) as [->|].
    + rewrite list_lookup_insert_eq by (unfold len in *; lia). done.
    + rewrite list_lookup_insert_ne by lia. by apply rd_Some, Hc.
Qed.

Lemma frame_trans a b c : frame a b -> frame b c -> frame a c.
Proof. intros [? H1] [? H2]. split; [congruence|]. intros. rewrite H2, H1; auto. Qed.

Lemma frame_refl a : frame a a.
Proof. by split. Qed.

Lemma cells_ext data D D' :
  cells data D -> (forall x, 0 <= x < range -> D x = D' x) -> cells data D'.
Proof. intros Hc HD x Hx. rewrite <-HD by done. by apply Hc. Qed.

Lemma vec_move_cycle_spec c K m k data D :
  range = g * Z.of_nat (S K) -> (k + m <= K)%nat -> pos + range <= len data ->
  cells data (fun x => if visited n range c k x then D ((x + n) mod range) else D x) ->
  exists data', vec_move_cycle m data (cyc n range c k) pos n range
      = Some (data', cyc n range c (k + m)) /\ frame data data' /\
    cells data' (fun x => if visited n range c (k + m) x then D ((x + n) mod range) else D x).
Proof.
  intros HK. revert k data. induction m as [|m IH]; intros k data Hkm Hl Hc.
  { rewrite Nat.add_0_r. exists data. simpl. auto using frame_refl. }
  pose proof (cyc_range c k). pose proof (cyc_range c (S k)). simpl.
  rewrite (u32_small (cyc n range c k + n)) by lia. rewrite cyc_next, !u32_small by lia.
  rewrite (Z.add_comm (cyc n range c (S k))), (Z.add_comm (cyc n range c k)).
  rewrite Hc by done. simpl.
  destruct (visited n range c k (cyc n range c (S k))) eqn:Hv.
  { apply visited_true in Hv as (j & ? & E). apply (cyc_inj c _ _ K) in E; [lia|done|lia..]. }
  destruct (cells_wr data _ (cyc n range c k) (D (cyc n range c (S k))) Hc)
    as (d1 & -> & Hf1 & Hc1); [done..|]. simpl.
  destruct (IH (S k) d1) as (d2 & -> & Hf2 & Hc2); [lia|..].
  - unfold len in *. destruct Hf1. lia.
  - eapply cells_ext; [apply Hc1|]. intros x Hx. simpl. rewrite visited_S.
    destruct (Z.eqb_spec x (cyc n range c k)) as [->|]; [|by rewrite orb_false_r].
    by rewrite orb_true_r, cyc_next.
  - replace (k + S m)%nat with (S k + m)%nat by lia. eauto using frame_trans.
Qed.

Lemma vec_move_cycles_spec K c data D :
  range = g * Z.of_nat (S K) -> Z.of_nat c <= g -> pos + range <= len data ->
  cells data (fun x => if Z.of_nat c <=? x mod g then D ((x + n) mod range) else D x) ->
  exists data', vec_move_cycles c K data pos n range = Some data' /\ frame data data' /\
    cells data' (fun x => D ((x + n) mod range)).
Proof.
  intros HK. pose proof cyc_gcd_pos. revert data. induction c as [|c IH]; intros data Hcg Hl Hc.
  { exists data. split; [done|]. split; [apply frame_refl|]. eapply cells_ext; [done|].
    intros x Hx. simpl. pose proof (Z.mod_pos_bound x g ltac:(lia)).
    by rewrite (proj2 (Z.leb_le _ _)) by lia. }
  simpl. assert (Hc0 : Z.of_nat c = cyc n range (Z.of_nat c) 0).
  { unfold cyc. rewrite Z.mul_0_l, Z.add_0_r, Z.mod_small; [done|]. nia. }
  pose proof (cyc_range (Z.of_nat c) 0). rewrite u32_small, Z.add_comm by lia.
  rewrite Hc by lia. simpl.
  assert (Hmc : Z.of_nat c mod g = Z.of_nat c) by (apply Z.mod_small; lia).
  rewrite Hmc, (proj2 (Z.leb_gt (Z.of_nat (S c)) (Z.of_nat c))) by lia.
  set (D1 := fun x => if Z.of_nat (S c) <=? x mod g then D ((x + n) mod range) else D x) in *.
  destruct (vec_move_cycle_spec (Z.of_nat c) K K 0 data D1) as (d1 & E1 & Hf1 & Hc1);
    [done|lia|done|by eapply cells_ext|].
  rewrite <-Hc0 in E1. rewrite E1. simpl. clear E1. rewrite Nat.add_0_l in *.
  pose proof (cyc_range (Z.of_nat c) K). rewrite u32_small, Z.add_comm by lia.
  destruct (cells_wr d1 _ (cyc n range (Z.of_nat c) K) (D (Z.of_nat c)) Hc1)
    as (d2 & -> & Hf2 & Hc2); [done|unfold len in *; destruct Hf1; lia|]. simpl.
  destruct (IH d2) as (d3 & -> & Hf3 & Hc3); [lia|unfold len in *; destruct Hf1, Hf2; lia| |].
  2: { exists d3. eauto using frame_trans. }
  eapply cells_ext; [apply Hc2|]. intros x Hx. simpl.
  assert (HD1 : x mod g = Z.of_nat c -> D1 ((x + n) mod range) = D ((x + n) mod range)).
  { intros Hxc. unfold D1. replace (((x + n) mod range) mod g) with (x mod g).
    - by rewrite Hxc, (proj2 (Z.leb_gt _ _)) by lia.
    - pose proof (cyc_mod_gcd x 1) as E. unfold cyc in E. by rewrite Z.mul_1_l in E. }
  pose proof (visited_full (Z.of_nat c) K x HK ltac:(lia) Hx) as Hfull.
  rewrite visited_S in Hfull.
  destruct (Z.eqb_spec x (cyc n range (Z.of_nat c) K)) as [->|].
  - rewrite cyc_mod_gcd, Hmc, Z.leb_refl, cyc_next. f_equal. unfold cyc.
    replace (Z.of_nat c + Z.of_nat (S K) * n) with (Z.of_nat c + (n / g) * range).
    + rewrite Z.mod_add by lia. rewrite Z.mod_small; [done|]. nia.
    + destruct (Z.gcd_divide_r range n) as [q Hq]. fold g in Hq. rewrite Hq at 1.
      rewrite Z.div_mul by lia. rewrite Hq at 1. rewrite HK at 1. lia.
  - rewrite orb_false_r in Hfull. rewrite Hfull.
    destruct (Z.eqb_spec (x mod g) (Z.of_nat c)) as [Hxc|].
    + rewrite Hxc, Z.leb_refl. auto.
    + unfold D1. destruct (Z.leb_spec (Z.of_nat (S c)) (x mod g)),
        (Z.leb_spec (Z.of_nat c) (x mod g)); try done; lia.
Qed.
End Move.

Section MoveRep.
Context {V : Type}.
Implicit Types (v : vec V) (l A B C E : list V).

(** [list_move l pos n to]: take the block of [n] items at [pos] out of [l]
    and put it back at index [to] of what is left. *)
Definition list_move l (pos n to : Z) : list V :=
  let rest := take (Z.to_nat pos) l ++ drop (Z.to_nat (pos + n)) l in
  take (Z.to_nat to) rest ++ slice l pos n ++ drop (Z.to_nat to) rest.

Lemma list_move_forward A B C E :
  list_move (A ++ B ++ C ++ E) (len A) (len B) (len A + len C) = A ++ C ++ B ++ E.
Proof.
  unfold list_move, slice, len.
  rewrite !Nat2Z.id, <-!Nat2Z.inj_add, !Nat2Z.id.
  rewrite take_app_length, drop_app_length, take_app_length.
  rewrite <-drop_drop, !drop_app_length.
  rewrite (app_assoc A C E), <-length_app, take_app_length, drop_app_length.
  by rewrite <-app_assoc.
Qed.

Lemma list_move_backward A B C E :
  list_move (A ++ B ++ C ++ E) (len A + len B) (len C) (len A) = A ++ C ++ B ++ E.
Proof.
  unfold list_move, slice, len.
  rewrite <-!Nat2Z.inj_add, !Nat2Z.id.
  assert (take (length A + length B) (A ++ B ++ C ++ E) = A ++ B) as ->
    by (by rewrite app_assoc, <-length_app, take_app_length).
  rewrite <-!drop_drop, !drop_app_length, take_app_length.
  rewrite <-(app_assoc A B), take_app_length, drop_app_length. done.
Qed.

(** Exchanging two adjacent blocks, which is what both directions reduce to. *)
Lemma vec_rotate v A B C E data :
  let l := A ++ B ++ C ++ E in
  let range := len B + len C in
  vrep v l -> B <> [] -> C <> [] -> frame range (len A) (vdata v) data ->
  (forall d0, cells range (len A) data
     (fun x => default d0 (l !! Z.to_nat (len A + (x + len B) mod range)))) ->
  vrep (Vec (vn v) (vsz v) data) (A ++ C ++ B ++ E).
Proof.
  intros l range Hr HB HC [Hlen Hf] Hc. destruct B as [|d0 B']; [done|]. clear HB.
  set (B := d0 :: B') in *. specialize (Hc d0).
  apply (vrep_update v l); [done|done|unfold l; rewrite !length_app; lia|].
  intros i Hi. destruct (decide (i < length A \/ length A + length B + length C <= i)%nat) as [Ho|Hin].
  - rewrite Hf by (unfold range, len; lia). rewrite (vrep_cells _ _ Hr) by done. f_equal.
    unfold l. destruct Ho.
    + by rewrite !lookup_app_l by lia.
    + rewrite !lookup_app_r by lia. f_equal. lia.
  - assert (length C <> 0%nat) by (by destruct C).
    set (x := Z.of_nat i - len A).
    assert (Hx : 0 <= x < range) by (unfold x, range, len; lia).
    specialize (Hc x Hx). apply rd_Some in Hc as [_ Hc].
    replace (Z.to_nat (len A + x)) with i in Hc by (unfold x, len; lia). rewrite Hc. clear Hc.
    assert (HD : l !! Z.to_nat (len A + (x + len B) mod range) = (A ++ C ++ B ++ E) !! i).
    { rewrite (lookup_app_r A) by lia. unfold l.
      pose proof (Z.mod_pos_bound (x + len B) range ltac:(lia)).
      rewrite (lookup_app_r A) by (unfold len in *; lia).
      replace (Z.to_nat (len A + (x + len B) mod range) - length A)%nat
        with (Z.to_nat ((x + len B) mod range)) by (unfold len in *; lia).
      destruct (decide (x < len C)) as [Hlt|Hge].
      - rewrite Z.mod_small by (unfold range, len in *; lia).
        rewrite (lookup_app_l C) by (unfold x, len in *; lia).
        rewrite (lookup_app_r B) by (unfold x, len in *; lia).
        rewrite lookup_app_l by (unfold x, len in *; lia). f_equal. unfold x, len. lia.
      - replace (x + len B) with (x - len C + 1 * range) by (unfold range; lia).
        rewrite Z.mod_add, Z.mod_small by (unfold range, len in *; lia).
        rewrite (lookup_app_r C) by (unfold x, len in *; lia).
        rewrite !(lookup_app_l B) by (unfold x, range, len in *; lia). f_equal.
        unfold x, len. lia. }
    rewrite HD. destruct (lookup_lt_is_Some_2 (A ++ C ++ B ++ E) i) as [y Hy].
    { unfold l in Hi. rewrite !length_app in *. lia. }
    by rewrite Hy.
Qed.

Lemma vec_move_rotate v A B C E :
  let range := len B + len C in
  vrep v (A ++ B ++ C ++ E) -> B <> [] -> C <> [] -> vn v < 2147483648 ->
  exists gcd data, vec__gcd (S (Z.to_nat (len B))) range (len B) = Some gcd /\
    vec_move_cycles (Z.to_nat gcd) (Z.to_nat (u32 (range / gcd - 1))) (vdata v)
      (len A) (len B) range = Some data /\
    vrep (Vec (vn v) (vsz v) data) (A ++ C ++ B ++ E).
Proof.
  intros range Hr HB HC Hfit.
  assert (0 < len B /\ 0 < len C) as [??] by (split; [destruct B|destruct C]; unfold len; simpl; done || lia).
  pose proof (len_nonneg A). pose proof (len_nonneg E).
  assert (Hn : 0 < len B < range) by (unfold range; lia).
  pose proof (vrep_n _ _ Hr) as Hlen. rewrite !len_app in Hlen.
  rewrite vec__gcd_correct by (unfold range; lia).
  set (g := Z.gcd range (len B)).
  destruct (cyc_period (len B) range Hn) as [K HK]. fold g in HK.
  pose proof (cyc_gcd_pos (len B) range Hn) as Hg. fold g in Hg.
  assert (HKr : Z.to_nat (u32 (range / g - 1)) = K).
  { assert (range / g = Z.of_nat (S K)) as -> by (rewrite HK, Z.mul_comm; apply Z.div_mul; lia).
    rewrite u32_small by (unfold range in *; nia). lia. }
  destruct B as [|d0 B']; [done|]. set (B := d0 :: B') in *.
  set (l := A ++ B ++ C ++ E) in *.
  set (D := fun x => default d0 (l !! Z.to_nat (len A + x))).
  pose proof (vrep_bounds _ _ Hr). pose proof (vrep_cap _ _ Hr).
  destruct (vec_move_cycles_spec (len B) range Hn (len A) ltac:(lia) ltac:(unfold range; lia)
    K (Z.to_nat g) (vdata v) D) as (data & E1 & Hf & Hc);
    [done|fold g; lia|unfold range; lia| |].
  { intros x Hx. fold g. rewrite (proj2 (Z.leb_gt _ _)); cycle 1.
    { rewrite Z2Nat.id by lia. apply Z.mod_pos_bound. lia. }
    destruct (lookup_lt_is_Some_2 l (Z.to_nat (len A + x))) as [y Hy].
    { unfold l, range, len in *. rewrite !length_app. lia. }
    rewrite (vrep_rdZ v l (len A + x) y Hr ltac:(lia) Hy). unfold D. by rewrite Hy. }
  exists g, data. split; [done|]. rewrite HKr. split; [done|].
  apply (vec_rotate v A B C E data Hr); [done..|].
  intros d1 x Hx. rewrite Hc by done. unfold D.
  pose proof (Z.mod_pos_bound (x + len B) range ltac:(lia)).
  destruct (lookup_lt_is_Some_2 l (Z.to_nat (len A + (x + len B) mod range))) as [y Hy].
  { unfold l, range, len in *. rewrite !length_app. lia. }
  fold range l. by rewrite !Hy.
Qed.

(** Cutting a list at two indices. *)
Lemma list_cut3 l (a b c : Z) :
  0 <= a -> 0 <= b -> 0 <= c -> a + b + c <= len l ->
  exists A B C E, l = A ++ B ++ C ++ E /\ len A = a /\ len B = b /\ len C = c.
Proof.
  intros ????. exists (take (Z.to_nat a) l), (slice l a b), (slice l (a + b) c),
    (drop (Z.to_nat (a + b + c)) l).
  split; [|split; [|split]].
  - unfold slice.
    replace (Z.to_nat (a + b + c)) with (Z.to_nat c + Z.to_nat (a + b))%nat by lia.
    rewrite Nat.add_comm, <-drop_drop, take_drop.
    replace (Z.to_nat (a + b)) with (Z.to_nat a + Z.to_nat b)%nat by lia.
    by rewrite <-drop_drop, take_drop, take_drop.
  - unfold len in *. rewrite length_take. lia.
  - unfold len in *. rewrite length_slice by (unfold len; lia). lia.
  - unfold len in *. rewrite length_slice by (unfold len; lia). lia.
Qed.

Lemma vec_move_rep v l pos n to :
  vrep v l -> 0 <= pos -> 0 <= n -> 0 <= to -> pos + n <= vn v -> to + n <= vn v ->
  vn v < 2147483648 ->
  exists v', vec_move v pos n to = Some v' /\ vrep v' (list_move l pos n to).
Proof.
  intros Hr Hpos Hn Hto Hpn Htn Hfit. pose proof (vrep_n _ _ Hr) as Hlen. unfold vec_move.
  destruct (Z.eqb_spec to pos) as [->|]; [|destruct (Z.eqb_spec n 0) as [->|]]; cbn [orb].
  - exists v. split; [done|]. replace (list_move l pos n pos) with l; [done|].
    destruct (list_cut3 l pos n 0) as (A & B & C & E & -> & <- & <- & HC); [lia..|].
    destruct C; [|discriminate]. pose proof (list_move_forward A B [] E) as Hm.
    simpl in *. rewrite Z.add_0_r in Hm. done.
  - exists v. split; [done|]. replace (list_move l pos 0 to) with l; [done|].
    unfold list_move, slice. rewrite Z.add_0_r. simpl. by rewrite !take_drop.
  - destruct (Z.ltb_spec to pos).
    + destruct (list_cut3 l to (pos - to) n) as (A & B & C & E & -> & HA & HB & HC); [lia..|].
      rewrite <-HA, <-HC. replace pos with (len A + len B) by lia.
      rewrite list_move_backward.
      replace (len A + len B - len A) with (len B) by lia. pose proof (len_nonneg E).
      rewrite !len_app in Hlen.
      rewrite (u32_small (len A + len C)), (u32_small (len B)) by lia.
      rewrite !u32_small by lia. rewrite (proj2 (Z.leb_le _ _)) by lia. cbn [negb].
      replace (len A + len C + len B - len A) with (len B + len C) by lia.
      destruct (vec_move_rotate v A B C E Hr) as (gcd & data & -> & Hd & Hr');
        [apply len_nonnil; lia..|lia|]. simpl. rewrite Hd. simpl. eauto.
    + destruct (list_cut3 l pos n (to - pos)) as (A & B & C & E & -> & HA & HB & HC); [lia..|].
      rewrite <-HA, <-HB. replace to with (len A + len C) by lia.
      rewrite list_move_forward. pose proof (len_nonneg E). rewrite !len_app in Hlen.
      rewrite !u32_small by lia. rewrite (proj2 (Z.leb_le _ _)) by lia. cbn [negb].
      replace (len A + len C + len B - len A) with (len B + len C) by lia.
      destruct (vec_move_rotate v A B C E Hr) as (gcd & data & -> & Hd & Hr');
        [apply len_nonnil; lia..|lia|]. simpl. rewrite Hd. simpl. eauto.
Qed.

(** [vec_reverse]: after [k] exchanges the first and last [k] cells are the
    mirrored ones. *)
Lemma vec_reverse_loop_spec (data : list (option V)) k e n :
  n <= len data -> (2 * (k + e) <= Z.to_nat n)%nat ->
  forall d, length d = length data ->
  (forall i, (i < Z.to_nat n)%nat -> is_Some (mjoin (data !! i))) ->
  (forall i, (i < length data)%nat -> d !! i = if (i <? k)%nat then data !! (Z.to_nat n - 1 - i)%nat
     else if (Z.to_nat n - k <=? i)%nat && (i <? Z.to_nat n)%nat
     then data !! (Z.to_nat n - 1 - i)%nat else data !! i) ->
  exists d', vec_reverse_loop e d (Z.of_nat k) (n - Z.of_nat k) = Some d' /\
    length d' = length data /\
    forall i, (i < length data)%nat -> d' !! i = if (i <? k + e)%nat then data !! (Z.to_nat n - 1 - i)%nat
     else if (Z.to_nat n - (k + e) <=? i)%nat && (i <? Z.to_nat n)%nat
     then data !! (Z.to_nat n - 1 - i)%nat else data !! i.
Proof.
  intros Hn. revert k. induction e as [|e IH]; intros k Hke d Hlen Hinit Hd.
  { exists d. rewrite Nat.add_0_r. done. }
  simpl. unfold len in *.
  destruct (Hinit k ltac:(lia)) as [x Hx], (Hinit (Z.to_nat n - 1 - k)%nat ltac:(lia)) as [y Hy].
  apply cell_Some in Hx, Hy.
  assert (Hrx : rd d (Z.of_nat k) = Some x).
  { apply rd_Some. split; [lia|]. rewrite Nat2Z.id, Hd by lia. zbool; simpl; try lia; done. }
  assert (Hry : rd d (n - Z.of_nat k - 1) = Some y).
  { apply rd_Some. split; [lia|]. rewrite Hd by lia.
    replace (Z.to_nat (n - Z.of_nat k - 1)) with (Z.to_nat n - 1 - k)%nat by lia.
    zbool; simpl; try lia; done. }
  rewrite Hrx. simpl. rewrite Hry. simpl. rewrite wr_Some by (unfold len; lia). simpl.
  rewrite wr_Some by (unfold len; rewrite length_insert; lia). simpl.
  replace (Z.of_nat k + 1) with (Z.of_nat (S k)) by lia.
  replace (n - Z.of_nat k - 1) with (n - Z.of_nat (S k)) by lia.
  replace (k + S e)%nat with (S k + e)%nat by lia.
  apply IH; [lia|by rewrite !length_insert|done|].
  intros i Hi. rewrite !list_lookup_insert, !length_insert.
  rewrite Hd by lia.
  repeat case_decide; zbool; simpl; subst; try lia; try done.
  all: try (replace (Z.to_nat n - 1 - k)%nat with (Z.to_nat n - 1 - Z.to_nat (Z.of_nat k))%nat in Hy by lia).
  all: try (rewrite <-Hy; f_equal; lia).
  all: try (rewrite <-Hx; f_equal; lia).
Qed.

Lemma vec_reverse_rep v l :
  vrep v l -> exists v', vec_reverse v = Some v' /\ vrep v' (reverse l).
Proof.
  intros Hr. pose proof (vrep_bounds _ _ Hr). pose proof (vrep_n _ _ Hr). pose proof (vrep_len _ _ Hr).
  pose proof (Z.mul_div_le (vn v) 2 ltac:(lia)).
  pose proof (Z.mul_succ_div_gt (vn v) 2 ltac:(lia)).
  destruct (vec_reverse_loop_spec (vdata v) 0 (Z.to_nat (vn v / 2)) (vn v)) with (d := vdata v)
    as (d & E & Hlen & Hd); [lia|lia|done| | |].
  - intros i Hi. unfold len in *. rewrite (vrep_cells _ _ Hr) by lia.
    destruct (lookup_lt_is_Some_2 l i) as [x ->]; [lia|]. by exists x.
  - intros i Hi. zbool; simpl; try done; lia.
  - unfold vec_reverse. change (Z.of_nat 0) with 0 in E. rewrite Z.sub_0_r in E. rewrite E.
    eexists. split; [done|]. apply (vrep_update v l); [done|done|by rewrite length_reverse|].
    intros i Hi. unfold len in *. rewrite Hd by lia. rewrite reverse_lookup by done.
    replace (length l - S i)%nat with (Z.to_nat (vn v) - 1 - i)%nat by lia.
    rewrite <-(vrep_cells _ _ Hr) by lia.
    zbool; simpl; try done; try lia. f_equal. lia.
Qed.
End MoveRep.

(** ** The contract of the vector, and the refinement *)
Section Contract.
Context {V : Type} (NULL : V).
Implicit Types (v : vec V) (l : list V) (d : V).

Inductive vop :=
  | OPush (d : V) | OInsert (d : V) (i : Z) | OExtend (k : list V)
  | ORemove (i : Z) | OSwapRemove (i : Z) | OPop
  | OSet (d : V) (i : Z) | OSwap (i j : Z)
  | OReverse | OMove (pos n to : Z) | OShrink | OClear.

Inductive vres := RInt (rc : Z) | RPtr (x : V) | RUnit.

(** The vector as a client sees it: a list. [None] is a call outside the
    contract (an index out of range, a vector over half the index space). *)
Definition vec_spec (op : vop) l : option (vres * list V) :=
  guard (len l < 2147483648);;
  match op with
  | OPush d => Some (RInt 0, l ++ [d])
  | OInsert d i =>
      guard (0 <= i <= len l);;
      Some (RInt 0, take (Z.to_nat i) l ++ d :: drop (Z.to_nat i) l)
  | OExtend k => guard (len l + len k < 4294967296);; Some (RInt 0, l ++ k)
  | ORemove i =>
      guard (0 <= i);; x ← l !! Z.to_nat i; Some (RPtr x, delete (Z.to_nat i) l)
  | OSwapRemove i =>
      guard (0 <= i);; x ← l !! Z.to_nat i; y ← list.last l;
      Some (RPtr x, take (length l - 1) (<[Z.to_nat i := y]> l))
  | OPop => Some (RPtr (default NULL (list.last l)), take (length l - 1) l)
  | OSet d i =>
      guard (0 <= i);; x ← l !! Z.to_nat i; Some (RPtr x, <[Z.to_nat i := d]> l)
  | OSwap i j =>
      guard (0 <= i);; guard (0 <= j);; x ← l !! Z.to_nat i; y ← l !! Z.to_nat j;
      Some (RUnit, <[Z.to_nat j := x]> (<[Z.to_nat i := y]> l))
  | OReverse => Some (RUnit, reverse l)
  | OMove pos n to =>
      guard (0 <= pos /\ 0 <= n /\ 0 <= to /\ pos + n <= len l /\ to + n <= len l);;
      Some (RUnit, list_move l pos n to)
  | OShrink => Some (RInt 0, l)
  | OClear => Some (RUnit, [])
  end.

Definition vec_exec (ok : bool) (op : vop) v : option (vres * vec V) :=
  match op with
  | OPush d => '(rc, v) ← vec_push ok v d; Some (RInt rc, v)
  | OInsert d i => '(rc, v) ← vec_insert ok v d i; Some (RInt rc, v)
  | OExtend k => '(rc, v) ← vec_extend ok v (Some <$> k) (len k); Some (RInt rc, v)
  | ORemove i => '(x, v) ← vec_remove v i; Some (RPtr x, v)
  | OSwapRemove i => '(x, v) ← vec_swap_remove v i; Some (RPtr x, v)
  | OPop => '(x, v) ← vec_pop NULL v; Some (RPtr x, v)
  | OSet d i => '(x, v) ← vec_set v d i; Some (RPtr x, v)
  | OSwap i j => v ← vec_swap v i j; Some (RUnit, v)
  | OReverse => v ← vec_reverse v; Some (RUnit, v)
  | OMove pos n to => v ← vec_move v pos n to; Some (RUnit, v)
  | OShrink => let '(rc, v) := vec_shrink ok v in Some (RInt rc, v)
  | OClear => Some (RUnit, vec_clear v)
  end.

(** One step of the implementation against one step of the contract. *)
Definition vec_sim (ok : bool) v (r : vres) l' (res : option (vres * vec V)) : Prop :=
  exists r1 v1, res = Some (r1, v1) /\
    ((r1 = r /\ vrep v1 l') \/ (ok = false /\ r1 = RInt (-1) /\ v1 = v)).

Lemma vec_sim_ok ok v r l' v1 : vrep v1 l' -> vec_sim ok v r l' (Some (r, v1)).
Proof. intros. eexists _, _. eauto. Qed.

Lemma vec_sim_rc ok v l' (res : option (Z * vec V)) :
  (exists rc v', res = Some (rc, v') /\
     ((rc = 0 /\ vrep v' l') \/ (rc = -1 /\ ok = false /\ v' = v))) ->
  vec_sim ok v (RInt 0) l' ('(rc, v) ← res; Some (RInt rc, v)).
Proof.
  intros (rc & v' & -> & [[-> ?]|(-> & -> & ->)]); simpl; eexists _, _; eauto 10.
Qed.

Lemma vec_shrink_sim ok v l :
  vrep v l -> vec_sim ok v (RInt 0) l (let '(rc, v) := vec_shrink ok v in Some (RInt rc, v)).
Proof.
  intros Hr. pose proof (vrep_bounds _ _ Hr). unfold vec_shrink.
  destruct (Z.eqb_spec (vn v) (vsz v)); [by apply vec_sim_ok|].
  destruct ok; [|eexists _, _; eauto 10]. apply vec_sim_ok.
  pose proof (vrep_n _ _ Hr). pose proof (vrep_u32 _ _ Hr).
  replace l with (take (Z.to_nat (vn v)) l) by (apply take_ge; unfold len in *; lia).
  apply vec_realloc_rep; [done|lia..].
Qed.

Lemma vec_sim_all ok op v l r l' :
  vrep v l -> vec_spec op l = Some (r, l') -> vec_sim ok v r l' (vec_exec ok op v).
Proof.
  intros Hr Hs. pose proof (vrep_n _ _ Hr) as Hn. unfold vec_spec in Hs.
  case_guard; [|done]. simpl in Hs.
  destruct op; simpl in *; repeat (case_guard; [|done]); simpl in *;
    try (simplify_option_eq; []).
  - apply vec_sim_rc, vec_push_rep; [done|lia].
  - apply vec_sim_rc, vec_insert_rep; [done|lia..].
  - apply vec_sim_rc, vec_extend_rep; [done|done| | |lia].
    + intros i Hi. by rewrite list_lookup_fmap.
    + unfold len. by rewrite length_fmap.
  - edestruct (vec_remove_rep v l) as (v1 & -> & ? & _); [eassumption..|]. by apply vec_sim_ok.
  - edestruct (vec_swap_remove_rep v l) as (v1 & -> & ?); [eassumption..|]. by apply vec_sim_ok.
  - pose proof (vec_pop_rep NULL v l Hr) as Hp. destruct l as [|a l].
    + rewrite Hp. by apply vec_sim_ok.
    + destruct Hp as (v1 & -> & ?). by apply vec_sim_ok.
  - edestruct (vec_set_rep v l) as (v1 & -> & ?); [eassumption..|]. by apply vec_sim_ok.
  - edestruct (vec_swap_rep v l) as (v1 & -> & ?); [eassumption..|]. by apply vec_sim_ok.
  - destruct (vec_reverse_rep v l Hr) as (v1 & -> & ?). by apply vec_sim_ok.
  - destruct (vec_move_rep v l pos n to Hr) as (v1 & -> & ?); [destruct_and!; lia..|].
    by apply vec_sim_ok.
  - by apply vec_shrink_sim.
  - apply vec_sim_ok. pose proof (vrep_bounds _ _ Hr). destruct Hr.
    split; simpl; try done; lia.
Qed.

(** A whole client session: a list of calls, each with the outcome of its
    allocation. A failed call leaves the contract's list alone. *)
Fixpoint vec_run (ops : list (bool * vop)) v : option (list vres * vec V) :=
  match ops with
  | [] => Some ([], v)
  | (ok, op) :: ops =>
      '(r, v) ← vec_exec ok op v; '(rs, v) ← vec_run ops v; Some (r :: rs, v)
  end.

Inductive vec_session : list V -> list (bool * vop) -> list vres -> list V -> Prop :=
  | session_nil l : vec_session l [] [] l
  | session_ok l ok op r l1 ops rs l2 :
      vec_spec op l = Some (r, l1) -> vec_session l1 ops rs l2 ->
      vec_session l ((ok, op) :: ops) (r :: rs) l2
  | session_fail l op ops rs l2 :
      is_Some (vec_spec op l) -> vec_session l ops rs l2 ->
      vec_session l ((false, op) :: ops) (RInt (-1) :: rs) l2.

(** Every call of the session is within the contract, whatever allocations
    before it have failed. *)
Inductive vec_legal : list V -> list (bool * vop) -> Prop :=
  | legal_nil l : vec_legal l []
  | legal_cons l ok op r l1 ops :
      vec_spec op l = Some (r, l1) -> vec_legal l1 ops ->
      (ok = false -> vec_legal l ops) -> vec_legal l ((ok, op) :: ops).
End Contract.

(** ** Properties *)

(** Refinement of the vector API. Take any session of calls on a vector
    ([vec_push], [vec_insert], [vec_extend], [vec_remove], [vec_swap_remove],
    [vec_pop], [vec_set], [vec_swap], [vec_reverse], [vec_move], [vec_shrink],
    [vec_clear]) that respects the contract, with any pattern of allocation
    failures. Then no call hits undefined behaviour, and the results are those
    of the list the contract describes, where a failed allocation returns -1
    and changes nothing. *)
Theorem vec_session_refines {V} (NULL : V) (ops : list (bool * vop)) (v : vec V) (l : list V) :
  vrep v l -> vec_legal NULL l ops ->
  exists rs v' l', vec_run NULL ops v = Some (rs, v') /\
    vec_session NULL l ops rs l' /\ vrep v' l'.
Proof.
  intros Hr Hl. revert v Hr. induction Hl as [l|l ok op r l1 ops Hs Hl IH Hfl IHf]; intros v Hr.
  { exists [], v, l. repeat constructor; apply Hr. }
  simpl. destruct (vec_sim_all NULL ok op v l r l1 Hr Hs) as (r1 & v1 & -> & Hres). simpl.
  destruct Hres as [[-> Hr1]|(-> & -> & ->)].
  - destruct (IH v1 Hr1) as (rs & v2 & l2 & -> & ? & ?). simpl.
    eexists _, _, _. split; [done|]. split; [|done]. by econstructor.
  - destruct (IHf eq_refl v Hr) as (rs & v2 & l2 & -> & ? & ?). simpl.
    eexists _, _, _. split; [done|]. split; [|done]. by apply session_fail.
Qed.

(** [vec_move] by rotation cycles: with the block and its target inside
    the vector, the gcd loop terminates without undefined behaviour and the
    result is the list with the block of [n] items taken out at [pos] and put
    back at [to]; header and capacity are untouched. *)
Theorem vec_move_correct {V} (v : vec V) (l : list V) (pos n to : Z) :
  vrep v l -> 0 <= pos -> 0 <= n -> 0 <= to ->
  pos + n <= vn v -> to + n <= vn v -> vn v < 2147483648 ->
  exists v', vec_move v pos n to = Some v' /\ vrep v' (list_move l pos n to).
Proof. apply vec_move_rep. Qed.

(** [vec_reserve] keeps the contents, and the "at least [n] free spots"
    it documents are there exactly when doubling the size is enough or the
    vector is empty: the fall-back sets the size to [n] where it needs
    [vec->n + n]. *)
Theorem vec_reserve_space {V} (v : vec V) (l : list V) (n : Z) :
  vrep v l -> vsz v < 2147483648 -> 0 <= n < 4294967296 ->
  exists v', vec_reserve true v n = (0, v') /\ vrep v' l /\
    (n <= vsz v' - vn v' <-> n <= 2 * vsz v - vn v \/ vn v = 0).
Proof.
  intros Hr Hsz Hn. pose proof (vrep_bounds _ _ Hr). unfold vec_reserve, vec_space.
  rewrite (u32_small (vsz v - vn v)) by lia.
  assert (Hsh : Z.shiftl (vsz v) 1 = 2 * vsz v) by (rewrite Z.shiftl_mul_pow2 by lia; lia).
  destruct (Z.ltb_spec (vsz v - vn v) n); [|exists v; repeat split; try apply Hr; lia].
  rewrite Hsh, (u32_small (2 * vsz v)), (u64_small (2 * vsz v - vn v)) by lia.
  eexists. split; [done|].
  assert (Hl : take (Z.to_nat (vn v)) l = l)
    by (apply take_ge; pose proof (vrep_n _ _ Hr); unfold len in *; lia).
  destruct (Z.ltb_spec (2 * vsz v - vn v) n); rewrite u32_small by lia; simpl.
  - split; [|lia]. rewrite <-Hl at 1. apply vec_realloc_rep; [done|lia..].
  - split; [|lia]. rewrite <-Hl at 1. apply vec_realloc_rep; [done|lia..].
Qed.

Definition vec_of {V} (l : list V) : vec V := Vec (len l) (len l) (Some <$> l).

Lemma vec_of_rep {V} (l : list V) : len l < 4294967296 -> vrep (vec_of l) l.
Proof.
  intros ?. split; simpl; try lia.
  - unfold len. by rewrite length_fmap.
  - intros i Hi. by rewrite list_lookup_fmap.
Qed.

Lemma vec_session_refines_witness :
  exists rs v' l',
    vec_run 0 [(true, OPush 7); (false, OPush 8); (true, OMove 0 2 2); (true, OPop)]
      (vec_of [1; 2; 3]) = Some (rs, v') /\
    vec_session 0 [1; 2; 3]
      [(true, OPush 7); (false, OPush 8); (true, OMove 0 2 2); (true, OPop)] rs l' /\
    vrep v' l'.
Proof.
  apply (vec_session_refines 0); [by apply vec_of_rep|].
  repeat first [apply legal_nil | eapply legal_cons; [vm_compute; reflexivity| |intros; try done]].
Defined.

Lemma vec_move_correct_witness :
  exists v', vec_move (vec_of [1; 2; 3; 4; 5; 6]) 0 2 3 = Some v' /\
    vrep v' [3; 4; 5; 1; 2; 6].
Proof.
  apply (vec_move_correct (vec_of [1; 2; 3; 4; 5; 6]) [1; 2; 3; 4; 5; 6] 0 2 3);
    [by apply vec_of_rep|vm_compute; congruence..].
Defined.

(** A full vector of four items, asked for five free spots, gets one. *)
Lemma vec_reserve_space_witness :
  exists v', vec_reserve true (vec_of [1; 2; 3; 4]) 5 = (0, v') /\
    vrep v' [1; 2; 3; 4] /\
    (5 <= vsz v' - vn v' <-> 5 <= 2 * 4 - 4 \/ 4 = 0).
Proof.
  apply (vec_reserve_space (vec_of [1; 2; 3; 4]) [1; 2; 3; 4] 5);
    [by apply vec_of_rep|vm_compute; congruence|lia].
Defined.
