(* ===== verification/Deque.v ===== *)
(** * The double-ended queue interface

    What [src/src/ti/changes.c] relies on when it keeps its pending changes in
    a [queue_t]: the operations it calls, and the laws that relate them to a
    list. The laws are discharged for [util/queue] in [Queue]. *)
From Stdlib Require Import ZArith Lia.
From stdpp Require Import base list option numbers.
From S2P Require Import Prelude.

Class Deque (Q V : Type) := {
  dq_rep : Q -> list V -> Prop;        (* the contents, first item first *)
  dq_space : Q -> Z;                   (* free cells *)
  dq_can_remove : Q -> Prop;           (* [dq_rmval] may be called *)
  dq_can_remove_dec :: forall q, Decision (dq_can_remove q);
  dq_each : Q -> option (list V);
  dq_first : V -> Q -> option V;
  dq_last : V -> Q -> option V;
  dq_push : bool -> Q -> V -> option (Z * Q);
  dq_insert : bool -> Q -> Z -> V -> option (Z * Q);
  dq_shift : V -> Q -> option (V * Q);
  dq_reserve : bool -> Q -> Z -> option (Z * Q);
  dq_rmval : V -> Q -> V -> option (V * Q)
}.

(** The number of items the laws speak about. *)
Definition dq_limit : Z := 1152921504606846976.

Fixpoint remove_first {V} `{EqDecision V} (x : V) (l : list V) : list V :=
  match l with
  | [] => []
  | y :: l => if decide (y = x) then l else y :: remove_first x l
  end.

Class DequeLaws (Q V : Type) `{EqDecision V} {D : Deque Q V} : Prop := {
  dq_each_ok q l : dq_rep q l -> dq_each q = Some l;
  dq_first_ok NULL q l : dq_rep q l -> dq_first NULL q = Some (default NULL (head l));
  dq_last_ok NULL q l : dq_rep q l -> dq_last NULL q = Some (default NULL (list.last l));
  dq_push_ok ok q l (d : V) :
    dq_rep q l -> len l < dq_limit -> 0 < dq_space q ->
    exists q', dq_push ok q d = Some (0, q') /\ dq_rep q' (l ++ [d]);
  dq_insert_ok ok q l i (d : V) :
    dq_rep q l -> len l < dq_limit -> 0 < dq_space q -> 0 <= i ->
    exists q', dq_insert ok q i d = Some (0, q') /\
      dq_rep q' (take (Z.to_nat i) l ++ d :: drop (Z.to_nat i) l);
  dq_shift_ok NULL q l :
    dq_rep q l -> exists q', dq_shift NULL q = Some (default NULL (head l), q') /\
      dq_rep q' (tail l);
  dq_reserve_ok ok q l n :
    dq_rep q l -> 0 <= n -> len l + n < dq_limit ->
    exists rc q', dq_reserve ok q n = Some (rc, q') /\
      ((rc = 0 /\ dq_rep q' l /\ n <= dq_space q') \/ (rc = -1 /\ ok = false /\ q' = q));
  dq_rmval_ok NULL q l x :
    dq_rep q l -> dq_can_remove q ->
    exists q', dq_rmval NULL q x = Some (if decide (x ∈ l) then x else NULL, q') /\
      dq_rep q' (remove_first x l) /\ (x ∈ l -> 0 < dq_space q') /\ (x ∉ l -> q' = q)
}.
