(* ===== verification/Queue.v ===== *)
(** * util/queue: circular pointer queues

    [src/src/util/queue.c] and [src/inc/util/queue.h]. A queue is a header
    [n], [sz], [s_] followed by [sz] cells; item [i] lives in cell
    [(s_ + i) % sz]. *)
From Stdlib Require Import ZArith Lia.
From stdpp Require Import base list option numbers.
From S2P Require Import Prelude Deque.

Record queue (V : Type) := Queue {
  qn : Z;                       (* size_t n *)
  qsz : Z;                      (* size_t sz *)
  qs : Z;                       (* size_t s_ *)
  qdata : list (option V)       (* void * data_[] *)
}.
Arguments Queue {V} _ _ _ _.
Arguments qn {V} _.
Arguments qsz {V} _.
Arguments qs {V} _.
Arguments qdata {V} _.

Section Operations.
Context {V : Type} (NULL : V) `{EqDecision V}.
Implicit Types q : queue V.

(** [queue__i]: [(s_ + i) % sz]; the remainder by zero is undefined. *)
Definition queue__i q (i : Z) : option Z :=
  if qsz q =? 0 then None else Some (u64 (qs q + i) mod qsz q).

Definition queue_new (ok : bool) (sz : Z) : option (queue V) :=
  if ok then Some (Queue 0 sz 0 (malloc sz)) else None.

(** The loop head [queue_each]: two pointers [v__] and [n__] that start at
    [s_] and [s_ + n] and are both rewound when the end [e__] of the block is
    passed; the values visited, in order. *)
Fixpoint queue_each_from (fuel : nat) (data : list (option V)) (v e n : Z)
    : option (list V) :=
  match fuel with
  | O => None
  | S fuel =>
      if (v <? e) && (v <? n) then
        x ← rd data v; xs ← queue_each_from fuel data (v + 1) e n; Some (x :: xs)
      else if e <? n then
        let n := n - e in
        let v := 0 in
        x ← rd data v; xs ← queue_each_from fuel data (v + 1) e n; Some (x :: xs)
      else Some []
  end.

Definition queue_each q : option (list V) :=
  queue_each_from (S (Z.to_nat (qn q))) (qdata q) (qs q) (qsz q) (qs q + qn q).

Definition queue_destroy (q : option (queue V)) (cb : bool) : option (list V) :=
  match q with
  | Some q => if cb then queue_each q else Some []
  | None => Some []
  end.

Definition queue_dup (ok : bool) q : option (option (queue V)) :=
  if negb ok then Some None else
  let m := u64 (qsz q - qs q) in
  data ← (if m <? qn q then
            d ← copy (malloc (qn q)) 0 (qdata q) (qs q) m;
            copy d m (qdata q) 0 (qn q - m)
          else copy (malloc (qn q)) 0 (qdata q) (qs q) (qn q));
  Some (Some (Queue (qn q) (qn q) 0 data)).

(** [for (; i > s_; i--) data_[i] = data_[i - 1];] *)
Fixpoint queue_walk_down (k : nat) (data : list (option V)) (i : Z)
    : option (list (option V)) :=
  match k with
  | O => Some data
  | S k =>
      x ← rd data (i - 1);
      data ← wr data i x;
      queue_walk_down k data (i - 1)
  end.

(** [for (; i < e; i++) data_[i - 1] = data_[i];] *)
Fixpoint queue_walk_up (k : nat) (data : list (option V)) (i : Z)
    : option (list (option V)) :=
  match k with
  | O => Some data
  | S k =>
      x ← rd data i;
      data ← wr data (i - 1) x;
      queue_walk_up k data (i + 1)
  end.

Definition queue_remove q (idx : Z) : option (V * queue V) :=
  if qn q <=? idx then Some (NULL, q) else
  i ← queue__i q idx;
  d ← rd (qdata q) i;
  if qs q <=? i then
    data ← queue_walk_down (Z.to_nat (i - qs q)) (qdata q) i;
    Some (d, Queue (qn q - 1) (qsz q) (qs q + 1) data)
  else
    e ← queue__i q (qn q);
    data ← queue_walk_up (Z.to_nat (e - (i + 1))) (qdata q) (i + 1);
    Some (d, Queue (qn q - 1) (qsz q) (qs q) data).

(** The index at which the [queue_each] loop of [queue_rmval] stops. *)
Fixpoint index_of (x : V) (l : list V) : option nat :=
  match l with
  | [] => None
  | y :: l => if decide (y = x) then Some 0%nat else S <$> index_of x l
  end.

Definition queue_rmval q (d : V) : option (V * queue V) :=
  l ← queue_each q;
  match index_of d l with
  | Some i => queue_remove q (Z.of_nat i)
  | None => Some (NULL, q)
  end.

Definition queue_replace q (idx : Z) (d : V) : option (V * queue V) :=
  i ← queue__i q idx;
  ret ← rd (qdata q) i;
  data ← wr (qdata q) i d;
  Some (ret, Queue (qn q) (qsz q) (qs q) data).

Definition queue_reserve (ok : bool) q (n : Z) : option (Z * queue V) :=
  let nn := u64 (qn q + n) in
  if qsz q <? nn then
    let sz := qsz q in
    let sz' := u64 (Z.shiftl sz 1) in
    let sz' := if sz' <? nn then nn else sz' in
    if negb ok then Some (-1, q) else
    data ← memcpy_in (realloc (qdata q) sz') sz 0 (qs q);
    Some (0, Queue (qn q) sz' (qs q) data)
  else Some (0, q).

Definition queue__grow (ok : bool) q : option (option (queue V)) :=
  let sz := qsz q in
  let sz' := u64 (Z.shiftl (if sz =? 0 then 1 else sz) 1) in
  if negb ok then Some None else
  data ← memcpy_in (realloc (qdata q) sz') sz 0 (qs q);
  Some (Some (Queue (qn q) sz' (qs q) data)).

(** The unsafe macros. *)
Definition QUEUE_push q (d : V) : option (queue V) :=
  i ← queue__i q (qn q);
  data ← wr (qdata q) i d;
  Some (Queue (u64 (qn q + 1)) (qsz q) (qs q) data).

Definition QUEUE_unshift q (d : V) : option (queue V) :=
  let n := u64 (qn q + 1) in
  let s := u64 ((if qs q =? 0 then qsz q else qs q) - b2z (negb (n =? 0))) in
  data ← wr (qdata q) s d;
  Some (Queue n (qsz q) s data).

(** The common prologue: grow when the queue is full. *)
Definition queue_room (ok : bool) q : option (option (queue V)) :=
  if qn q =? qsz q then queue__grow ok q else Some (Some q).

Definition queue_push (ok : bool) q (d : V) : option (Z * queue V) :=
  g ← queue_room ok q;
  match g with
  | None => Some (-1, q)
  | Some q => q ← QUEUE_push q d; Some (0, q)
  end.

Definition queue_unshift (ok : bool) q (d : V) : option (Z * queue V) :=
  g ← queue_room ok q;
  match g with
  | None => Some (-1, q)
  | Some q => q ← QUEUE_unshift q d; Some (0, q)
  end.

Definition queue_insert (ok : bool) q (idx : Z) (d : V) : option (Z * queue V) :=
  if idx =? 0 then queue_unshift ok q d else
  if qn q <=? idx then queue_push ok q d else
  g ← queue_room ok q;
  match g with
  | None => Some (-1, q)
  | Some q =>
      i ← queue__i q idx;
      e ← queue__i q (qn q);
      if i <? e then
        (* walk reverse: for (x = e; x != i; x--) *)
        data ← queue_walk_down (Z.to_nat (e - i)) (qdata q) e;
        data ← wr data i d;
        Some (0, Queue (u64 (qn q + 1)) (qsz q) (qs q) data)
      else
        (* walk forward: --i; for (x = s_;; x++) until x == i *)
        let i := u64 (i - 1) in
        data ← queue_walk_up (S (Z.to_nat (i - qs q))) (qdata q) (qs q);
        data ← wr data i d;
        Some (0, Queue (u64 (qn q + 1)) (qsz q) (u64 (qs q - 1)) data)
  end.

Definition queue_extend (ok : bool) q (data : list (option V)) (n : Z)
    : option (Z * queue V) :=
  '(rc, q) ← queue_reserve ok q n;
  if negb (rc =? 0) then Some (-1, q) else
  next ← queue__i q (qn q);
  let m := u64 (qsz q - next) in
  cells ← (if (next <? qs q) || (n <=? m) then copy (qdata q) next data 0 n
           else
             cells ← copy (qdata q) next data 0 m;
             copy cells 0 data m (n - m));
  Some (0, Queue (u64 (qn q + n)) (qsz q) (qs q) cells).

Definition queue_shrink (ok : bool) q : option (Z * queue V) :=
  if qn q =? qsz q then Some (0, q) else
  let n := u64 (qsz q - qs q) in
  let n := if n <=? qn q then n else qn q in
  data ← memmove (qdata q) (qn q - n) (qs q) n;
  if negb ok then Some (-1, Queue (qn q) (qsz q) (qs q) data) else
  Some (0, Queue (qn q) (qn q) (qn q - n) (realloc data (qn q))).

(** [cb] returns zero to go on. The values it was called on, and the result. *)
Fixpoint walk_cb (cb : V -> Z) (l : list V) : Z :=
  match l with
  | [] => 0
  | x :: l => let rc := cb x in if rc =? 0 then walk_cb cb l else rc
  end.

Definition queue_walk q (cb : V -> Z) : option Z :=
  l ← queue_each q; Some (walk_cb cb l).

(** *** queue.h *)

Definition queue_space q : Z := u64 (qsz q - qn q).

Definition queue_get q (i : Z) : option V :=
  i ← queue__i q i; rd (qdata q) i.

Definition queue_first q : option V :=
  if qn q =? 0 then Some NULL else queue_get q 0.

Definition queue_last q : option V :=
  if qn q =? 0 then Some NULL else queue_get q (qn q - 1).

Definition queue_pop q : option (V * queue V) :=
  if qn q =? 0 then Some (NULL, q) else
  let n := qn q - 1 in
  x ← queue_get q n;
  Some (x, Queue n (qsz q) (qs q) (qdata q)).

Definition queue_shift q : option (V * queue V) :=
  if qn q =? 0 then Some (NULL, q) else
  s ← queue__i q 1;
  x ← rd (qdata q) ((if s =? 0 then qsz q else s) - 1);
  Some (x, Queue (qn q - 1) (qsz q) s (qdata q)).

Definition queue_clear q : queue V := Queue 0 (qsz q) 0 (qdata q).

End Operations.

(** ** Representation *)

(** The cell of item [i], without the remainder. *)
Definition pos (s sz i : Z) : Z := if s + i <? sz then s + i else s + i - sz.

Record qrep {V} (q : queue V) (l : list V) : Prop := QRep {
  qrep_n : qn q = len l;
  qrep_le : qn q <= qsz q;
  qrep_sz : qsz q = len (qdata q);
  qrep_s : 0 <= qs q <= qsz q;
  qrep_max : qsz q <= 4611686018427387904;
  qrep_cells : forall i, (i < length l)%nat ->
    qdata q !! Z.to_nat (pos (qs q) (qsz q) (Z.of_nat i)) = Some <$> l !! i
}.

(** How far the theorems let a queue grow: a quarter of what fits an index. *)
Definition QUEUE_LIMIT : Z := 1152921504606846976.

Section Lemmas.
Context {V : Type}.
Implicit Types (q : queue V) (l : list V) (x d : V).

Lemma qrep_bounds q l : qrep q l -> 0 <= qn q <= qsz q /\ 0 <= qs q <= qsz q.
Proof. intros []. pose proof (len_nonneg l). lia. Qed.

Lemma queue__i_pos q l i :
  qrep q l -> 0 <= i -> i <= qsz q -> i + qs q < 2 * qsz q ->
  queue__i q i = Some (pos (qs q) (qsz q) i).
Proof.
  intros Hr ???. pose proof (qrep_bounds _ _ Hr). destruct Hr.
  unfold queue__i, pos. destruct (Z.eqb_spec (qsz q) 0); [lia|].
  rewrite u64_small by lia. f_equal. destruct (Z.ltb_spec (qs q + i) (qsz q)).
  - apply Z.mod_small; lia.
  - symmetry. apply (Z.mod_unique_pos _ _ 1); lia.
Qed.

Lemma pos_range s sz i : 0 <= s <= sz -> 0 <= i < sz -> 0 <= pos s sz i < sz.
Proof. unfold pos. zbool; lia. Qed.

Lemma qrep_cell q l i x :
  qrep q l -> l !! i = Some x ->
  qdata q !! Z.to_nat (pos (qs q) (qsz q) (Z.of_nat i)) = Some (Some x).
Proof.
  intros [] Hx. rewrite qrep_cells0 by (by eapply lookup_lt_Some). by rewrite Hx.
Qed.

Lemma qrep_rd q l i x :
  qrep q l -> 0 <= i -> l !! Z.to_nat i = Some x ->
  rd (qdata q) (pos (qs q) (qsz q) i) = Some x.
Proof.
  intros Hr Hi Hx. pose proof (qrep_bounds _ _ Hr). pose proof (qrep_n _ _ Hr).
  pose proof (lookup_lt_Some _ _ _ Hx). unfold len in *.
  apply rd_Some. split; [apply pos_range; lia|].
  rewrite <-(Z2Nat.id i) at 1 by lia. by apply (qrep_cell q l).
Qed.

Lemma queue_new_rep sz :
  0 <= sz <= 4611686018427387904 ->
  exists q : queue V, queue_new true sz = Some q /\ qrep q [] /\ qsz q = sz.
Proof.
  intros ?. eexists. split; [done|]. split; [|done]. split; simpl; try done; try lia.
  unfold malloc, len. rewrite length_replicate. lia.
Qed.

(** *** The two shifting loops *)

Lemma queue_walk_down_spec k data i :
  Z.of_nat k <= i -> i < len data ->
  (forall j, i - Z.of_nat k <= j < i -> is_Some (rd data j)) ->
  exists r, queue_walk_down k data i = Some r /\ length r = length data /\
    forall j, 0 <= j -> r !! Z.to_nat j =
      (if (i - Z.of_nat k <? j) && (j <=? i) then data !! Z.to_nat (j - 1)
       else (data : list (option V)) !! Z.to_nat j).
Proof.
  revert data i. induction k as [|k IH]; intros data i Hk Hi Hinit.
  { exists data. split; [done|]. split; [done|]. intros j Hj. zbool; simpl; try done; lia. }
  simpl. destruct (Hinit (i - 1)) as [x Hx]; [lia|]. rewrite Hx. simpl.
  rewrite wr_Some by lia. simpl.
  destruct (IH (<[Z.to_nat i := Some x]> data) (i - 1)) as (r & -> & Hlr & Hr).
  - lia.
  - unfold len in *. rewrite length_insert. lia.
  - intros j Hj. destruct (Hinit j) as [y Hy]; [lia|]. exists y. apply rd_Some in Hy as [??].
    apply rd_Some. split; [done|]. by rewrite list_lookup_insert_ne by lia.
  - exists r. split; [done|]. rewrite Hlr, length_insert. split; [done|].
    intros j Hj. rewrite Hr by done. apply rd_Some in Hx as [_ Hx].
    destruct (decide (j = i)) as [->|].
    + zbool; simpl; try lia.
      all: rewrite list_lookup_insert_eq by (unfold len in *; lia); done.
    + zbool; simpl; try lia; rewrite list_lookup_insert_ne by lia; done.
Qed.

Lemma queue_walk_up_spec k data i :
  1 <= i -> i + Z.of_nat k <= len data ->
  (forall j, i <= j < i + Z.of_nat k -> is_Some (rd data j)) ->
  exists r, queue_walk_up k data i = Some r /\ length r = length data /\
    forall j, 0 <= j -> r !! Z.to_nat j =
      (if (i - 1 <=? j) && (j <? i + Z.of_nat k - 1) then data !! Z.to_nat (j + 1)
       else (data : list (option V)) !! Z.to_nat j).
Proof.
  revert data i. induction k as [|k IH]; intros data i Hi Hk Hinit.
  { exists data. split; [done|]. split; [done|]. intros j Hj. zbool; simpl; try done; lia. }
  simpl. destruct (Hinit i) as [x Hx]; [lia|]. rewrite Hx. simpl.
  rewrite wr_Some by lia. simpl.
  destruct (IH (<[Z.to_nat (i - 1) := Some x]> data) (i + 1)) as (r & -> & Hlr & Hr).
  - lia.
  - unfold len in *. rewrite length_insert. lia.
  - intros j Hj. destruct (Hinit j) as [y Hy]; [lia|]. exists y. apply rd_Some in Hy as [??].
    apply rd_Some. split; [done|]. by rewrite list_lookup_insert_ne by lia.
  - exists r. split; [done|]. rewrite Hlr, length_insert. split; [done|].
    intros j Hj. rewrite Hr by done. apply rd_Some in Hx as [_ Hx].
    destruct (decide (j = i - 1)) as [->|].
    + replace (i - 1 + 1) with i by lia. zbool; simpl; try lia.
      all: rewrite list_lookup_insert_eq by (unfold len in *; lia); done.
    + zbool; simpl; try lia; rewrite list_lookup_insert_ne by lia; done.
Qed.

(** *** Growing *)

(** Reallocating to at least twice the size and copying the wrapped prefix
    behind the old end keeps the contents. *)
Lemma queue_regrow q l sz' :
  qrep q l -> 2 * qsz q <= sz' -> sz' <= 4611686018427387904 ->
  exists data, memcpy_in (realloc (qdata q) sz') (qsz q) 0 (qs q) = Some data /\
    qrep (Queue (qn q) sz' (qs q) data) l.
Proof.
  intros Hr Hsz Hmax. pose proof (qrep_bounds _ _ Hr). destruct Hr.
  assert (Hrl : length (realloc (qdata q) sz') = Z.to_nat sz') by (apply length_realloc; lia).
  destruct (memcpy_in_spec (realloc (qdata q) sz') (qsz q) 0 (qs q)) as (r & -> & Hlr & Hr);
    [unfold len in *; lia..|].
  exists r. split; [done|]. split; simpl; try lia.
  - unfold len. lia.
  - intros i Hi. unfold len in *.
    assert (Hp : pos (qs q) sz' (Z.of_nat i) = qs q + Z.of_nat i)
      by (unfold pos; zbool; lia).
    rewrite Hp, <-qrep_cells0 by done. rewrite Hr. unfold pos.
    destruct (Z.ltb_spec (qs q + Z.of_nat i) (qsz q)).
    + zbool; simpl; try lia. all: rewrite lookup_realloc by lia; done.
    + zbool; simpl; try lia. rewrite lookup_realloc by lia. f_equal. lia.
Qed.

Lemma queue__grow_rep q l :
  qrep q l -> qn q = qsz q -> qsz q < QUEUE_LIMIT ->
  exists q', queue__grow true q = Some (Some q') /\ qrep q' l /\ qn q' < qsz q'.
Proof.
  unfold QUEUE_LIMIT. intros Hr ??. pose proof (qrep_bounds _ _ Hr). unfold queue__grow. simpl.
  set (sz := if qsz q =? 0 then 1 else qsz q).
  assert (0 < sz <= QUEUE_LIMIT) by (unfold sz, QUEUE_LIMIT; zbool; lia). unfold QUEUE_LIMIT in *.
  rewrite Z.shiftl_mul_pow2 by lia. rewrite u64_small by lia.
  destruct (queue_regrow q l (sz * 2 ^ 1) Hr) as (data & -> & Hr'); [unfold sz; zbool; lia|lia|].
  simpl. eexists. split; [done|]. split; [done|]. simpl. unfold sz. zbool; lia.
Qed.

Lemma queue_room_rep ok q l :
  qrep q l -> qn q < QUEUE_LIMIT ->
  exists g, queue_room ok q = Some g /\
    match g with
    | Some q' => qrep q' l /\ qn q' < qsz q'
    | None => ok = false
    end.
Proof.
  intros Hr Hn. pose proof (qrep_bounds _ _ Hr). unfold queue_room.
  destruct (Z.eqb_spec (qn q) (qsz q)); [|exists (Some q); split; [done|split; [done|lia]]].
  destruct ok; [|by exists None].
  destruct (queue__grow_rep q l Hr) as (q' & -> & ? & ?); [lia..|]. by exists (Some q').
Qed.

Lemma queue_reserve_rep ok q l n :
  qrep q l -> 0 <= n -> qn q + n < QUEUE_LIMIT ->
  exists rc q', queue_reserve ok q n = Some (rc, q') /\
    ((rc = 0 /\ qrep q' l /\ qn q' + n <= qsz q') \/ (rc = -1 /\ ok = false /\ q' = q)).
Proof.
  unfold QUEUE_LIMIT. intros Hr Hn Hmax. pose proof (qrep_bounds _ _ Hr). unfold queue_reserve.
  rewrite (u64_small (qn q + n)) by lia.
  destruct (Z.ltb_spec (qsz q) (qn q + n)); [|eexists _, _; split; [done|]; left; auto].
  rewrite Z.shiftl_mul_pow2 by lia. rewrite u64_small by lia.
  destruct ok; simpl; [|eexists _, _; split; [done|]; right; auto].
  set (sz' := if qsz q * 2 ^ 1 <? qn q + n then qn q + n else qsz q * 2 ^ 1).
  assert (2 * qsz q <= sz' /\ qn q + n <= sz' <= 4611686018427387904)
    by (unfold sz'; zbool; lia).
  destruct (queue_regrow q l sz' Hr) as (data & -> & Hr'); [lia..|].
  simpl. eexists _, _. split; [done|]. left. split; [done|]. split; [done|]. simpl. lia.
Qed.

(** *** Push, unshift, pop, shift *)

Lemma QUEUE_push_rep q l d :
  qrep q l -> qn q < qsz q -> exists q', QUEUE_push q d = Some q' /\ qrep q' (l ++ [d]).
Proof.
  intros Hr Hn. pose proof (qrep_bounds _ _ Hr). unfold QUEUE_push.
  rewrite (queue__i_pos q l) by (done || lia). simpl. destruct Hr.
  pose proof (pos_range (qs q) (qsz q) (qn q) ltac:(lia) ltac:(lia)) as Hp.
  rewrite wr_Some by lia. simpl. eexists. split; [done|].
  split; simpl; rewrite ?u64_small by lia; rewrite ?len_app; try (unfold len in *; simpl; lia).
  - unfold len. by rewrite length_insert.
  - intros i Hi. rewrite length_app in Hi. simpl in Hi. unfold len in *.
    destruct (decide (i = length l)) as [->|].
    + rewrite <-qrep_n0, list_lookup_insert_eq by lia.
      by rewrite lookup_app_r, Nat.sub_diag by lia.
    + rewrite list_lookup_insert_ne, lookup_app_l by (unfold pos in *; zbool; lia).
      apply qrep_cells0. lia.
Qed.

Lemma QUEUE_unshift_rep q l d :
  qrep q l -> qn q < qsz q -> exists q', QUEUE_unshift q d = Some q' /\ qrep q' (d :: l).
Proof.
  intros Hr Hn. pose proof (qrep_bounds _ _ Hr). unfold QUEUE_unshift. destruct Hr.
  rewrite (u64_small (qn q + 1)) by lia. rewrite (proj2 (Z.eqb_neq (qn q + 1) 0)) by lia. simpl.
  set (s := (if qs q =? 0 then qsz q else qs q) - 1).
  assert (0 <= s < qsz q) by (unfold s; zbool; lia).
  rewrite u64_small by lia. rewrite wr_Some by lia. simpl. eexists. split; [done|].
  split; simpl; try lia.
  - unfold len in *. simpl. lia.
  - unfold len. by rewrite length_insert.
  - intros [|i] Hi; simpl in *; unfold len in *.
    + replace (Z.to_nat (pos s (qsz q) (Z.of_nat 0))) with (Z.to_nat s)
        by (unfold pos; zbool; lia).
      by rewrite list_lookup_insert_eq by lia.
    + rewrite list_lookup_insert_ne by (unfold pos; zbool; lia).
      rewrite <-qrep_cells0 by lia. do 2 f_equal. unfold pos, s. zbool; lia.
Qed.

Lemma queue_push_rep ok q l d :
  qrep q l -> qn q < QUEUE_LIMIT ->
  exists rc q', queue_push ok q d = Some (rc, q') /\
    ((rc = 0 /\ qrep q' (l ++ [d])) \/ (rc = -1 /\ ok = false /\ q' = q)).
Proof.
  intros Hr Hn. unfold queue_push.
  destruct (queue_room_rep ok q l Hr Hn) as ([q'|] & -> & Hg); simpl; [|eauto 10].
  destruct Hg as [Hr' ?]. destruct (QUEUE_push_rep q' l d Hr') as (q2 & -> & ?); [done|].
  simpl. eauto 10.
Qed.

Lemma queue_unshift_rep ok q l d :
  qrep q l -> qn q < QUEUE_LIMIT ->
  exists rc q', queue_unshift ok q d = Some (rc, q') /\
    ((rc = 0 /\ qrep q' (d :: l)) \/ (rc = -1 /\ ok = false /\ q' = q)).
Proof.
  intros Hr Hn. unfold queue_unshift.
  destruct (queue_room_rep ok q l Hr Hn) as ([q'|] & -> & Hg); simpl; [|eauto 10].
  destruct Hg as [Hr' ?]. destruct (QUEUE_unshift_rep q' l d Hr') as (q2 & -> & ?); [done|].
  simpl. eauto 10.
Qed.

Lemma queue_get_rep q l i x :
  qrep q l -> 0 <= i -> l !! Z.to_nat i = Some x -> queue_get q i = Some x.
Proof.
  intros Hr Hi Hx. pose proof (qrep_bounds _ _ Hr). pose proof (qrep_n _ _ Hr).
  pose proof (lookup_lt_Some _ _ _ Hx). unfold len in *. unfold queue_get.
  rewrite (queue__i_pos q l) by (done || lia). simpl. by apply (qrep_rd q l).
Qed.

Lemma queue_first_rep NULL q l :
  qrep q l -> queue_first NULL q = Some (default NULL (head l)).
Proof.
  intros Hr. pose proof (qrep_n _ _ Hr). unfold queue_first, len in *.
  destruct (Z.eqb_spec (qn q) 0), l as [|x l]; simpl in *; try lia; [done|].
  by apply (queue_get_rep q (x :: l)).
Qed.

Lemma queue_last_rep NULL q l :
  qrep q l -> queue_last NULL q = Some (default NULL (list.last l)).
Proof.
  intros Hr. pose proof (qrep_n _ _ Hr). unfold queue_last, len in *.
  destruct (Z.eqb_spec (qn q) 0) as [|Hn].
  - destruct l; [done|simpl in *; lia].
  - destruct (list.last l) as [x|] eqn:E.
    + simpl. rewrite last_lookup in E. apply (queue_get_rep q l); [done|lia|].
      rewrite <-E. f_equal. lia.
    + apply last_None in E as ->. simpl in *. lia.
Qed.

Lemma queue_pop_rep NULL q l :
  qrep q l -> exists q', queue_pop NULL q = Some (default NULL (list.last l), q') /\
    qrep q' (take (length l - 1) l).
Proof.
  intros Hr. pose proof (qrep_n _ _ Hr). pose proof (qrep_bounds _ _ Hr).
  unfold queue_pop, len in *.
  destruct (Z.eqb_spec (qn q) 0) as [|Hn].
  { destruct l; [|simpl in *; lia]. exists q. done. }
  destruct (list.last l) as [x|] eqn:E; [|apply last_None in E as ->; simpl in *; lia].
  rewrite last_lookup in E.
  rewrite (queue_get_rep q l (qn q - 1) x); [|done|lia|rewrite <-E; f_equal; lia].
  simpl. eexists. split; [done|]. destruct Hr.
  split; simpl; unfold len in *; rewrite ?length_take; try lia.
  intros i Hi. rewrite lookup_take_lt by lia. apply qrep_cells0. lia.
Qed.

Lemma queue_shift_rep NULL q l :
  qrep q l -> exists q', queue_shift NULL q = Some (default NULL (head l), q') /\
    qrep q' (tail l) /\ qsz q' = qsz q.
Proof.
  intros Hr. pose proof (qrep_n _ _ Hr). pose proof (qrep_bounds _ _ Hr).
  unfold queue_shift, len in *.
  destruct l as [|x l]; simpl in *.
  { rewrite (proj2 (Z.eqb_eq (qn q) 0)) by lia. exists q. done. }
  rewrite (proj2 (Z.eqb_neq (qn q) 0)) by lia.
  assert (Hi : queue__i q 1 = Some ((qs q + 1) mod qsz q)).
  { unfold queue__i. rewrite (proj2 (Z.eqb_neq (qsz q) 0)) by lia. f_equal.
    destruct Hr. by rewrite u64_small by lia. }
  rewrite Hi. simpl. clear Hi. set (s := (qs q + 1) mod qsz q).
  assert (Hs : (qs q + 1 < qsz q /\ s = qs q + 1) \/ (qs q + 1 = qsz q /\ s = 0)
      \/ (qs q = qsz q /\ s = 1 mod qsz q)).
  { unfold s. destruct (Z.lt_trichotomy (qs q + 1) (qsz q)) as [|[E|]].
    - left. rewrite Z.mod_small; lia.
    - right. left. rewrite E, Z.mod_same; lia.
    - right. right. replace (qs q + 1) with (1 + 1 * qsz q) by lia. rewrite Z.mod_add; lia. }
  assert (H1 : (qsz q = 1 /\ 1 mod qsz q = 0) \/ (1 < qsz q /\ 1 mod qsz q = 1)).
  { destruct (decide (qsz q = 1)) as [->|]; [by left|]. right. split; [lia|].
    apply Z.mod_small. lia. }
  assert (Hx : rd (qdata q) ((if s =? 0 then qsz q else s) - 1) = Some x).
  { rewrite <-(qrep_rd q (x :: l) 0 x Hr) by done. f_equal. unfold pos. zbool; lia. }
  rewrite Hx. simpl. eexists. split; [done|]. split; [|done]. destruct Hr.
  split; simpl; unfold len in *; simpl in *; try lia.
  intros i Hi. specialize (qrep_cells0 (S i) ltac:(lia)). simpl in qrep_cells0.
  rewrite <-qrep_cells0. do 2 f_equal.
  unfold pos. zbool; lia.
Qed.
End Lemmas.

Section MoreLemmas.
Context {V : Type} `{EqDecision V} (NULL : V).
Implicit Types (q : queue V) (l : list V) (x d : V).

(** *** Iteration *)

Lemma queue_each_unfold fuel (data : list (option V)) v e n :
  queue_each_from (S fuel) data v e n =
    if (v <? e) && (v <? n) then
      x ← rd data v; xs ← queue_each_from fuel data (v + 1) e n; Some (x :: xs)
    else if e <? n then
      x ← rd data 0; xs ← queue_each_from fuel data 1 e (n - e); Some (x :: xs)
    else Some [].
Proof. done. Qed.

Lemma queue_each_straight (data : list (option V)) e l v :
  0 <= v -> v + len l <= e ->
  (forall i, (i < length l)%nat -> data !! Z.to_nat (v + Z.of_nat i) = Some <$> l !! i) ->
  queue_each_from (S (length l)) data v e (v + len l) = Some l.
Proof.
  revert v. induction l as [|x l IH]; intros v Hv He Hc; unfold len in *; simpl length in *.
  - simpl. zbool; simpl; try done; lia.
  - rewrite queue_each_unfold. zbool; cbn [andb]; try lia.
    assert (rd data v = Some x) as ->.
    { apply rd_Some. split; [done|]. specialize (Hc 0%nat ltac:(lia)). simpl in Hc.
      by rewrite Z.add_0_r in Hc. }
    cbn [mbind option_bind]. replace (v + Z.of_nat (S (length l))) with (v + 1 + Z.of_nat (length l)) by lia.
    rewrite IH; [done|lia|lia|]. intros i Hi. specialize (Hc (S i) ltac:(lia)). simpl in Hc.
    rewrite <-Hc. f_equal. lia.
Qed.

Lemma queue_each_wrapped (data : list (option V)) e l1 l2 v :
  0 <= v -> v + len l1 = e -> l2 <> [] -> len l2 <= e ->
  (forall i, (i < length l1)%nat -> data !! Z.to_nat (v + Z.of_nat i) = Some <$> l1 !! i) ->
  (forall i, (i < length l2)%nat -> data !! i = Some <$> l2 !! i) ->
  queue_each_from (S (length (l1 ++ l2))) data v e (e + len l2) = Some (l1 ++ l2).
Proof.
  revert v. induction l1 as [|x l1 IH]; intros v Hv He Hn2 Hl2 Hc1 Hc2; unfold len in *;
    simpl length in *.
  - destruct l2 as [|x l2]; [done|]. simpl app. simpl length in *. rewrite queue_each_unfold.
    zbool; cbn [andb]; try lia.
    assert (rd data 0 = Some x) as ->.
    { apply rd_Some. split; [done|]. by apply (Hc2 0%nat ltac:(lia)). }
    cbn [mbind option_bind]. replace (e + Z.of_nat (S (length l2)) - e) with (1 + len l2)
      by (unfold len; lia).
    rewrite (queue_each_straight data e l2 1); [done|lia|unfold len; lia|].
    intros i Hi. specialize (Hc2 (S i) ltac:(lia)). simpl in Hc2. rewrite <-Hc2. f_equal. lia.
  - assert (length l2 <> 0%nat) by (by destruct l2).
    simpl app. simpl length. rewrite queue_each_unfold. zbool; cbn [andb]; try lia.
    assert (rd data v = Some x) as ->.
    { apply rd_Some. split; [done|]. specialize (Hc1 0%nat ltac:(lia)). simpl in Hc1.
      by rewrite Z.add_0_r in Hc1. }
    cbn [mbind option_bind]. rewrite IH; [done|lia..|done|lia| |done].
    intros i Hi. specialize (Hc1 (S i) ltac:(lia)). simpl in Hc1. rewrite <-Hc1. f_equal. lia.
Qed.

Lemma queue_each_rep q l : qrep q l -> queue_each q = Some l.
Proof.
  intros Hr. pose proof (qrep_bounds _ _ Hr). destruct Hr. unfold queue_each.
  replace (Z.to_nat (qn q)) with (length l) by (unfold len in *; lia). rewrite qrep_n0.
  destruct (decide (qs q + len l <= qsz q)).
  - apply queue_each_straight; [lia|done|]. intros i Hi. unfold len in *.
    rewrite <-qrep_cells0 by done. do 2 f_equal. unfold pos. zbool; lia.
  - set (k := Z.to_nat (qsz q - qs q)). unfold len in *.
    rewrite <-(take_drop k l) at 1 3.
    replace (qs q + Z.of_nat (length l)) with (qsz q + len (drop k l))
      by (unfold len; rewrite length_drop; lia).
    apply queue_each_wrapped; unfold len; rewrite ?length_take, ?length_drop; try lia.
    + intros E%(f_equal length). rewrite length_drop in E. simpl in E. lia.
    + intros i Hi. rewrite lookup_take_lt by lia. rewrite <-qrep_cells0 by lia.
      do 2 f_equal. unfold pos. zbool; lia.
    + intros i Hi. rewrite lookup_drop. rewrite <-qrep_cells0 by lia.
      f_equal. unfold pos. zbool; lia.
Qed.

(** *** Removing *)

(** [queue_remove] is right unless the queue is full and its start index is
    one past the end of the block. *)
Lemma queue_remove_rep q l i x :
  qrep q l -> 0 <= i -> l !! Z.to_nat i = Some x -> qs q + qn q < 2 * qsz q ->
  exists q', queue_remove NULL q i = Some (x, q') /\ qrep q' (delete (Z.to_nat i) l) /\
    qsz q' = qsz q.
Proof.
  intros Hr Hi Hx Hnf. pose proof (qrep_bounds _ _ Hr). pose proof (lookup_lt_Some _ _ _ Hx).
  pose proof (qrep_n _ _ Hr) as Hn. unfold len in Hn. unfold queue_remove.
  rewrite (proj2 (Z.leb_gt (qn q) i)) by lia.
  rewrite (queue__i_pos q l i) by (done || lia). simpl.
  rewrite (qrep_rd q l i x Hr Hi Hx). simpl.
  assert (Hinit : forall j, 0 <= j < qn q -> is_Some (rd (qdata q) (pos (qs q) (qsz q) j))).
  { intros j Hj. destruct (lookup_lt_is_Some_2 l (Z.to_nat j)) as [y Hy]; [lia|].
    exists y. apply (qrep_rd q l); [done|lia|done]. }
  destruct (Z.leb_spec (qs q) (pos (qs q) (qsz q) i)).
  - assert (Hp : pos (qs q) (qsz q) i = qs q + i /\ qs q + i < qsz q).
    { unfold pos in *. destruct (Z.ltb_spec (qs q + i) (qsz q)); lia. }
    destruct Hp as [Hp ?]. rewrite Hp in *. pose proof (qrep_sz _ _ Hr).
    destruct (queue_walk_down_spec (Z.to_nat (qs q + i - qs q)) (qdata q) (qs q + i))
      as (r & -> & Hlr & Hrr); [unfold len in *; unfold pos in *; zbool; lia..| |].
    { intros j Hj. specialize (Hinit (j - qs q) ltac:(lia)).
      replace (pos (qs q) (qsz q) (j - qs q)) with j in Hinit; [done|].
      unfold pos in *; zbool; lia. }
    simpl. eexists. split; [done|]. split; [|done]. destruct Hr.
    split; simpl; unfold len in *; rewrite ?length_delete by eauto;
      try (unfold pos in *; zbool; lia).
    intros j Hj. rewrite Hrr by (unfold pos; zbool; lia).
    destruct (decide (j < Z.to_nat i)%nat).
    + rewrite list_lookup_delete_lt, <-qrep_cells0 by lia.
      unfold pos in *; zbool; simpl; try lia; f_equal; lia.
    + rewrite list_lookup_delete_ge, <-qrep_cells0 by lia.
      unfold pos in *; zbool; simpl; try lia; f_equal; lia.
  - assert (Hp : pos (qs q) (qsz q) i = qs q + i - qsz q /\ qsz q <= qs q + i).
    { unfold pos in *. destruct (Z.ltb_spec (qs q + i) (qsz q)); lia. }
    destruct Hp as [Hp ?]. rewrite (queue__i_pos q l) by (done || lia). simpl.
    assert (Hpn : pos (qs q) (qsz q) (qn q) = qs q + qn q - qsz q)
      by (unfold pos in *; zbool; lia).
    rewrite Hp, Hpn in *. pose proof (qrep_sz _ _ Hr).
    destruct (queue_walk_up_spec (Z.to_nat (qs q + qn q - qsz q - (qs q + i - qsz q + 1)))
      (qdata q) (qs q + i - qsz q + 1)) as (r & -> & Hlr & Hrr); [lia..| |].
    { intros j Hj. specialize (Hinit (j + qsz q - qs q) ltac:(lia)).
      replace (pos (qs q) (qsz q) (j + qsz q - qs q)) with j in Hinit; [done|].
      unfold pos in *; zbool; lia. }
    simpl. eexists. split; [done|]. split; [|done]. destruct Hr.
    split; simpl; unfold len in *; rewrite ?length_delete by eauto; try lia.
    intros j Hj. rewrite Hrr by (unfold pos; zbool; lia).
    destruct (decide (j < Z.to_nat i)%nat).
    + rewrite list_lookup_delete_lt, <-qrep_cells0 by lia.
      unfold pos in *; zbool; simpl; try lia; f_equal; lia.
    + rewrite list_lookup_delete_ge, <-qrep_cells0 by lia.
      unfold pos in *; zbool; simpl; try lia; f_equal; lia.
Qed.

(** What happens in the excluded state: the shifting loop is empty, so the
    last item is dropped and the removed one stays. *)
Lemma queue_remove_full q l i x :
  qrep q l -> 0 <= i -> l !! Z.to_nat i = Some x -> qs q = qsz q -> qn q = qsz q ->
  exists q', queue_remove NULL q i = Some (x, q') /\ qrep q' (take (length l - 1) l).
Proof.
  intros Hr Hi Hx Hs Hf. pose proof (qrep_bounds _ _ Hr). pose proof (lookup_lt_Some _ _ _ Hx).
  pose proof (qrep_n _ _ Hr) as Hn. unfold len in Hn. unfold queue_remove.
  rewrite (proj2 (Z.leb_gt (qn q) i)) by lia.
  rewrite (queue__i_pos q l i) by (done || lia). simpl.
  rewrite (qrep_rd q l i x Hr Hi Hx). simpl.
  rewrite (proj2 (Z.leb_gt _ _)) by (unfold pos; zbool; lia).
  assert (queue__i q (qn q) = Some 0) as ->.
  { unfold queue__i. rewrite (proj2 (Z.eqb_neq _ _)) by lia. f_equal. destruct Hr.
    rewrite u64_small by lia. rewrite Hs, Hf.
    replace (qsz q + qsz q) with (2 * qsz q) by lia. apply Z.mod_mul. lia. }
  simpl. assert (0 <= pos (qs q) (qsz q) i) by (unfold pos; zbool; lia).
  replace (Z.to_nat (0 - (pos (qs q) (qsz q) i + 1))) with 0%nat by lia. simpl.
  eexists. split; [done|]. destruct Hr.
  split; simpl; unfold len in *; rewrite ?length_take; try lia.
  intros j Hj. rewrite lookup_take_lt by lia. apply qrep_cells0. lia.
Qed.

Lemma index_of_Some x l i : index_of x l = Some i -> l !! i = Some x.
Proof.
  revert i. induction l as [|y l IH]; intros i; simpl; [done|]. case_decide.
  - intros [= <-]. by subst.
  - destruct (index_of x l); simpl; [|done]. intros [= <-]. by apply IH.
Qed.

Lemma index_of_None x l : index_of x l = None -> x ∉ l.
Proof.
  induction l as [|y l IH]; simpl; [by intros _ ?%elem_of_nil|]. case_decide; [done|].
  destruct (index_of x l); [done|]. intros _. rewrite elem_of_cons. intros [?|?]; [congruence|by apply IH].
Qed.

Lemma remove_first_index x l i : index_of x l = Some i -> delete i l = remove_first x l.
Proof.
  revert i. induction l as [|y l IH]; intros i; simpl; [done|]. case_decide.
  - by intros [= <-].
  - destruct (index_of x l); simpl; [|done]. intros [= <-]. simpl. by rewrite (IH _ eq_refl).
Qed.

Lemma remove_first_notin x l : x ∉ l -> remove_first x l = l.
Proof.
  induction l as [|y l IH]; [done|]. rewrite not_elem_of_cons. intros [? ?]. simpl.
  case_decide; [congruence|]. by rewrite IH.
Qed.

Lemma queue_rmval_rep q l x :
  qrep q l -> (x ∈ l -> qs q + qn q < 2 * qsz q) ->
  exists q', queue_rmval NULL q x = Some (if decide (x ∈ l) then x else NULL, q') /\
    qrep q' (remove_first x l) /\ (x ∈ l -> qn q' < qsz q') /\ (x ∉ l -> q' = q).
Proof.
  intros Hr Hnf. unfold queue_rmval. rewrite (queue_each_rep q l Hr). simpl.
  destruct (index_of x l) as [i|] eqn:E.
  - pose proof (index_of_Some _ _ _ E) as Hx.
    assert (x ∈ l) by (by eapply list_elem_of_lookup_2).
    destruct (queue_remove_rep q l (Z.of_nat i) x Hr) as (q' & -> & Hr' & Hsz);
      [lia|by rewrite Nat2Z.id|auto|].
    rewrite decide_True by done. rewrite Nat2Z.id in Hr'. exists q'. split; [done|].
    split; [by rewrite <-(remove_first_index x l i E)|]. split; [|done]. intros _.
    pose proof (qrep_n _ _ Hr'). pose proof (qrep_n _ _ Hr). pose proof (qrep_le _ _ Hr).
    unfold len in *. rewrite length_delete in * by eauto.
    pose proof (lookup_lt_Some _ _ _ Hx). lia.
  - apply index_of_None in E. rewrite decide_False, remove_first_notin by done.
    exists q. split_and!; done.
Qed.

Lemma queue_replace_rep q l i x d :
  qrep q l -> 0 <= i -> l !! Z.to_nat i = Some x ->
  exists q', queue_replace q i d = Some (x, q') /\ qrep q' (<[Z.to_nat i := d]> l).
Proof.
  intros Hr Hi Hx. pose proof (qrep_bounds _ _ Hr). pose proof (lookup_lt_Some _ _ _ Hx).
  pose proof (qrep_n _ _ Hr) as Hn. unfold len in Hn. unfold queue_replace.
  rewrite (queue__i_pos q l i) by (done || lia). simpl.
  rewrite (qrep_rd q l i x Hr Hi Hx). simpl. pose proof (qrep_sz _ _ Hr).
  pose proof (pos_range (qs q) (qsz q) i ltac:(lia) ltac:(lia)).
  rewrite wr_Some by lia. simpl. eexists. split; [done|]. destruct Hr.
  split; simpl; unfold len in *; rewrite ?length_insert; try lia.
  intros j Hj. destruct (decide (j = Z.to_nat i)) as [->|].
  - rewrite Z2Nat.id by lia. by rewrite !list_lookup_insert_eq by lia.
  - rewrite !list_lookup_insert_ne by (unfold pos; zbool; lia). by apply qrep_cells0.
Qed.

(** *** Inserting *)

(** Either shifting loop turns a queue with room into the queue with [d] at
    [idx]: the tail moves up by one cell, or the front moves down by one. *)
Lemma queue_insert_down q l idx d :
  qrep q l -> 0 < idx < qn q -> qn q < qsz q ->
  pos (qs q) (qsz q) idx < pos (qs q) (qsz q) (qn q) ->
  let i := pos (qs q) (qsz q) idx in
  let e := pos (qs q) (qsz q) (qn q) in
  exists data data', queue_walk_down (Z.to_nat (e - i)) (qdata q) e = Some data /\
    wr data i d = Some data' /\
    qrep (Queue (qn q + 1) (qsz q) (qs q) data')
      (take (Z.to_nat idx) l ++ d :: drop (Z.to_nat idx) l).
Proof.
  intros Hr Hi Hlt Hie i e. pose proof (qrep_bounds _ _ Hr). pose proof (qrep_sz _ _ Hr).
  pose proof (qrep_n _ _ Hr) as Hn.
  assert (Hsplit : (qs q + qn q < qsz q) \/ (qsz q <= qs q + idx)).
  { unfold pos in Hie. revert Hie. zbool_all; lia. }
  destruct (queue_walk_down_spec (Z.to_nat (e - i)) (qdata q) e) as (r & Er & Hlr & Hrr).
  { unfold e, i, pos. zbool_all; lia. }
  { unfold e, pos. zbool_all; lia. }
  { intros j Hj. destruct (lookup_lt_is_Some_2 l (Z.to_nat (j - e + qn q))) as [y Hy].
    { revert Hj. unfold i, e, pos, len in *. zbool_all; lia. }
    exists y. replace j with (pos (qs q) (qsz q) (j - e + qn q))
      by (revert Hj; unfold i, e, pos; zbool_all; lia).
    apply (qrep_rd q l); [done| |done]. revert Hj. unfold i, e, pos. zbool_all; lia. }
  exists r, (<[Z.to_nat i := Some d]> r). split; [done|].
  split; [apply wr_Some; unfold len in *; unfold i, pos; zbool_all; lia|].
  destruct Hr. split; simpl; unfold len in *; rewrite ?length_insert; try lia.
  { rewrite length_app. simpl. rewrite length_take, length_drop. lia. }
  intros j Hj. rewrite length_app in Hj. simpl in Hj. rewrite length_take, length_drop in Hj.
  destruct (decide (j = Z.to_nat idx)) as [->|Hne].
  { rewrite Z2Nat.id by lia. fold i. rewrite list_lookup_insert_eq by (unfold i, pos; zbool_all; lia).
    rewrite lookup_app_r by (rewrite length_take; lia).
    by rewrite length_take, Nat.min_l, Nat.sub_diag by lia. }
  rewrite list_lookup_insert_ne by (unfold i, pos; zbool_all; lia).
  rewrite Hrr by (unfold pos; zbool_all; lia).
  destruct (decide (j < Z.to_nat idx)%nat).
  - rewrite lookup_app_l, lookup_take_lt, <-qrep_cells0 by (rewrite ?length_take; lia).
    unfold i, e, pos. zbool_all; simpl; try lia; done.
  - rewrite lookup_app_r by (rewrite length_take; lia). rewrite length_take, Nat.min_l by lia.
    destruct (j - Z.to_nat idx)%nat eqn:E; [lia|]. simpl. rewrite lookup_drop.
    replace (Z.to_nat idx + n0)%nat with (j - 1)%nat by lia. rewrite <-qrep_cells0 by lia.
    unfold i, e, pos. zbool_all; simpl; try lia; f_equal; lia.
Qed.

Lemma queue_insert_up q l idx d :
  qrep q l -> 0 < idx < qn q -> qn q < qsz q ->
  pos (qs q) (qsz q) (qn q) <= pos (qs q) (qsz q) idx ->
  let i := pos (qs q) (qsz q) idx - 1 in
  exists data data',
    queue_walk_up (S (Z.to_nat (i - qs q))) (qdata q) (qs q) = Some data /\
    wr data i d = Some data' /\ 0 < qs q /\ 0 <= i < qsz q /\
    qrep (Queue (qn q + 1) (qsz q) (qs q - 1) data')
      (take (Z.to_nat idx) l ++ d :: drop (Z.to_nat idx) l).
Proof.
  intros Hr Hi Hlt Hie i. pose proof (qrep_bounds _ _ Hr). pose proof (qrep_sz _ _ Hr).
  pose proof (qrep_n _ _ Hr) as Hn.
  assert (Hsplit : qs q + idx < qsz q /\ qsz q <= qs q + qn q).
  { unfold pos in Hie. revert Hie. zbool_all; lia. }
  assert (Hii : i = qs q + idx - 1) by (unfold i, pos; zbool_all; lia).
  destruct (queue_walk_up_spec (S (Z.to_nat (i - qs q))) (qdata q) (qs q)) as (r & Er & Hlr & Hrr);
    [lia|lia| |].
  { intros j Hj. destruct (lookup_lt_is_Some_2 l (Z.to_nat (j - qs q))) as [y Hy].
    { unfold len in *. lia. }
    exists y. replace j with (pos (qs q) (qsz q) (j - qs q)) by (unfold pos; zbool_all; lia).
    apply (qrep_rd q l); [done|lia|done]. }
  exists r, (<[Z.to_nat i := Some d]> r). split; [done|].
  split; [apply wr_Some; unfold len in *; lia|]. split; [lia|]. split; [lia|].
  destruct Hr. split; simpl; unfold len in *; rewrite ?length_insert; try lia.
  { rewrite length_app. simpl. rewrite length_take, length_drop. lia. }
  intros j Hj. rewrite length_app in Hj. simpl in Hj. rewrite length_take, length_drop in Hj.
  destruct (decide (j = Z.to_nat idx)) as [->|Hne].
  { rewrite Z2Nat.id by lia. replace (pos (qs q - 1) (qsz q) idx) with i by (unfold pos; zbool_all; lia).
    rewrite list_lookup_insert_eq by lia.
    rewrite lookup_app_r by (rewrite length_take; lia).
    by rewrite length_take, Nat.min_l, Nat.sub_diag by lia. }
  rewrite list_lookup_insert_ne by (unfold pos; zbool_all; lia).
  rewrite Hrr by (unfold pos; zbool_all; lia).
  destruct (decide (j < Z.to_nat idx)%nat).
  - rewrite lookup_app_l, lookup_take_lt, <-qrep_cells0 by (rewrite ?length_take; lia).
    unfold pos. zbool_all; simpl; try lia; f_equal; lia.
  - rewrite lookup_app_r by (rewrite length_take; lia). rewrite length_take, Nat.min_l by lia.
    destruct (j - Z.to_nat idx)%nat eqn:E; [lia|]. simpl. rewrite lookup_drop.
    replace (Z.to_nat idx + n0)%nat with (j - 1)%nat by lia. rewrite <-qrep_cells0 by lia.
    unfold pos. zbool_all; simpl; try lia; f_equal; lia.
Qed.

Lemma queue_insert_rep ok q l idx d :
  qrep q l -> 0 <= idx -> qn q < QUEUE_LIMIT ->
  exists rc q', queue_insert ok q idx d = Some (rc, q') /\
    ((rc = 0 /\ qrep q' (take (Z.to_nat idx) l ++ d :: drop (Z.to_nat idx) l)) \/
     (rc = -1 /\ ok = false /\ q' = q)).
Proof.
  intros Hr Hi Hlim. pose proof (qrep_n _ _ Hr) as Hn. unfold len in Hn. unfold queue_insert.
  destruct (Z.eqb_spec idx 0) as [->|]; [by apply queue_unshift_rep|].
  destruct (Z.leb_spec (qn q) idx) as [|Hidx].
  { rewrite take_ge, drop_ge by lia. by apply queue_push_rep. }
  destruct (queue_room_rep ok q l Hr Hlim) as ([q1|] & -> & Hg); simpl; [|eauto 10].
  destruct Hg as [Hr1 Hlt]. pose proof (qrep_n _ _ Hr1) as Hn1. unfold len in Hn1.
  pose proof (qrep_bounds _ _ Hr1). pose proof (qrep_max _ _ Hr1).
  rewrite (queue__i_pos q1 l idx), (queue__i_pos q1 l (qn q1)) by (done || lia). simpl.
  rewrite (u64_small (qn q1 + 1)) by lia.
  destruct (Z.ltb_spec (pos (qs q1) (qsz q1) idx) (pos (qs q1) (qsz q1) (qn q1))).
  - destruct (queue_insert_down q1 l idx d Hr1) as (da & db & -> & Hw & Hr2); [lia..|].
    simpl. rewrite Hw. simpl. eauto 10.
  - destruct (queue_insert_up q1 l idx d Hr1) as (da & db & Ed & Hw & ? & ? & Hr2); [lia..|].
    rewrite !u64_small by lia. cbn [queue_walk_up] in Ed |- *. rewrite Ed. simpl.
    rewrite Hw. simpl. eauto 10.
Qed.

(** *** Extending, shrinking, duplicating *)

Lemma queue_extend_rep ok q l data n (k : list V) :
  qrep q l -> n = len k -> 0 < n -> n <= len data ->
  (forall i, (i < length k)%nat -> data !! i = Some <$> k !! i) ->
  qn q + n < QUEUE_LIMIT ->
  exists rc q', queue_extend ok q data n = Some (rc, q') /\
    ((rc = 0 /\ qrep q' (l ++ k)) \/ (rc = -1 /\ ok = false /\ q' = q)).
Proof.
  intros Hr Hk Hpos Hcap Hdata Hlim. unfold queue_extend.
  destruct (queue_reserve_rep ok q l n Hr) as (rc & q1 & -> & Hres); [lia..|].
  simpl. destruct Hres as [(-> & Hr1 & Hroom)|(-> & -> & ->)]; simpl; [|eauto 10].
  pose proof (qrep_bounds _ _ Hr1). pose proof (qrep_sz _ _ Hr1). pose proof (qrep_n _ _ Hr1).
  pose proof (qrep_max _ _ Hr1).
  rewrite (queue__i_pos q1 l (qn q1)) by (done || lia). simpl.
  set (next := pos (qs q1) (qsz q1) (qn q1)).
  assert (0 <= next < qsz q1) by (apply pos_range; lia).
  rewrite (u64_small (qsz q1 - next)), (u64_small (qn q1 + n)) by lia.
  assert (exists cells,
    (if (next <? qs q1) || (n <=? qsz q1 - next) then copy (qdata q1) next data 0 n
     else cells ← copy (qdata q1) next data 0 (qsz q1 - next);
          copy cells 0 data (qsz q1 - next) (n - (qsz q1 - next))) = Some cells /\
    length cells = length (qdata q1) /\
    (forall j, 0 <= j < qn q1 ->
       cells !! Z.to_nat (pos (qs q1) (qsz q1) j) = qdata q1 !! Z.to_nat (pos (qs q1) (qsz q1) j)) /\
    (forall j, 0 <= j < n ->
       cells !! Z.to_nat (pos (qs q1) (qsz q1) (qn q1 + j)) = data !! Z.to_nat j))
    as (cells & -> & Hlc & Hold & Hnew).
  { destruct ((next <? qs q1) || (n <=? qsz q1 - next)) eqn:Eb.
    - assert (Hb : next < qs q1 \/ n <= qsz q1 - next)
        by (apply orb_true_iff in Eb as [?%Z.ltb_lt|?%Z.leb_le]; lia).
      destruct (copy_spec (qdata q1) next data 0 n) as (r & -> & Hlr & Hrr);
        [unfold next, pos in *; revert Hb; zbool_all; lia..|].
      exists r. split; [done|]. split; [done|]. split.
      + intros j Hj. rewrite Hrr. unfold next, pos in *. revert Hb. zbool_all; simpl; try done; lia.
      + intros j Hj. rewrite Hrr. unfold next, pos in *.
        revert Hb. zbool_all; simpl; try lia; intros; f_equal; lia.
    - apply orb_false_iff in Eb as [?%Z.ltb_ge ?%Z.leb_gt].
      destruct (copy_spec (qdata q1) next data 0 (qsz q1 - next)) as (r1 & -> & Hl1 & Hr1'); [lia..|].
      simpl. destruct (copy_spec r1 0 data (qsz q1 - next) (n - (qsz q1 - next)))
        as (r & -> & Hlr & Hrr); [unfold len in *; lia..|].
      exists r. split; [done|]. split; [lia|]. split.
      + intros j Hj. rewrite Hrr, Hr1'. unfold next, pos in *. zbool_all; simpl; try done; lia.
      + intros j Hj. rewrite Hrr, Hr1'. unfold next, pos in *.
        zbool_all; simpl; try lia; f_equal; lia. }
  simpl. eexists _, _. split; [done|]. left. split; [done|]. destruct Hr1.
  split; simpl; rewrite ?len_app; unfold len in *; try lia.
  intros j Hj. rewrite length_app in Hj. destruct (decide (j < length l)%nat).
  - rewrite lookup_app_l, Hold, <-qrep_cells0 by lia. done.
  - rewrite lookup_app_r by lia. replace (Z.of_nat j) with (qn q1 + (Z.of_nat j - qn q1)) by lia.
    rewrite Hnew by lia. rewrite <-Hdata by lia. f_equal. lia.
Qed.

Lemma queue_shrink_rep q l :
  qrep q l -> exists q', queue_shrink true q = Some (0, q') /\ qrep q' l /\ qsz q' = qn q'.
Proof.
  intros Hr. pose proof (qrep_bounds _ _ Hr). pose proof (qrep_sz _ _ Hr).
  pose proof (qrep_n _ _ Hr). pose proof (qrep_max _ _ Hr). unfold queue_shrink.
  destruct (Z.eqb_spec (qn q) (qsz q)) as [|Hne]; [exists q; by split_and!|].
  rewrite (u64_small (qsz q - qs q)) by lia.
  set (n := if qsz q - qs q <=? qn q then qsz q - qs q else qn q).
  assert (Hn : n = qsz q - qs q /\ qsz q - qs q <= qn q \/ n = qn q /\ qn q < qsz q - qs q)
    by (unfold n; zbool_all; lia).
  destruct (memmove_spec (qdata q) (qn q - n) (qs q) n) as (r & -> & Hlr & Hrr); [lia..|].
  simpl. eexists. split; [done|]. split; [|done]. destruct Hr.
  split; simpl; try (unfold len in *; lia).
  { unfold len in *. rewrite length_realloc by lia. lia. }
  intros i Hi. unfold len in *. rewrite <-qrep_cells0 by done.
  rewrite lookup_realloc by (unfold pos; zbool_all; lia). rewrite Hrr.
  unfold pos. zbool_all; simpl; try lia; try done; f_equal; lia.
Qed.

Lemma queue_dup_rep q l :
  qrep q l -> exists q', queue_dup true q = Some (Some q') /\ qrep q' l /\ qsz q' = qn q.
Proof.
  intros Hr. pose proof (qrep_bounds _ _ Hr). pose proof (qrep_sz _ _ Hr).
  pose proof (qrep_n _ _ Hr). pose proof (qrep_max _ _ Hr). unfold queue_dup. simpl.
  rewrite (u64_small (qsz q - qs q)) by lia.
  assert (Hm : length (malloc (V := V) (qn q)) = Z.to_nat (qn q))
    by (unfold malloc; apply length_replicate).
  assert (exists cells,
    (if qsz q - qs q <? qn q then
       d ← copy (malloc (qn q)) 0 (qdata q) (qs q) (qsz q - qs q);
       copy d (qsz q - qs q) (qdata q) 0 (qn q - (qsz q - qs q))
     else copy (malloc (qn q)) 0 (qdata q) (qs q) (qn q)) = Some cells /\
    length cells = Z.to_nat (qn q) /\
    (forall j, 0 <= j < qn q ->
       cells !! Z.to_nat j = qdata q !! Z.to_nat (pos (qs q) (qsz q) j)))
    as (cells & -> & Hlc & Hc).
  { destruct (Z.ltb_spec (qsz q - qs q) (qn q)).
    - destruct (copy_spec (malloc (qn q)) 0 (qdata q) (qs q) (qsz q - qs q))
        as (r1 & -> & Hl1 & Hr1); [unfold len in *; lia..|]. simpl.
      destruct (copy_spec r1 (qsz q - qs q) (qdata q) 0 (qn q - (qsz q - qs q)))
        as (r & -> & Hl & Hrr); [unfold len in *; lia..|].
      exists r. split; [done|]. split; [lia|]. intros j Hj. rewrite Hrr, Hr1.
      unfold pos. zbool_all; simpl; try lia; f_equal; lia.
    - destruct (copy_spec (malloc (qn q)) 0 (qdata q) (qs q) (qn q))
        as (r & -> & Hl & Hrr); [unfold len in *; lia..|].
      exists r. split; [done|]. split; [lia|]. intros j Hj. rewrite Hrr.
      unfold pos. zbool_all; simpl; try lia; f_equal; lia. }
  simpl. eexists. split; [done|]. split; [|done]. destruct Hr.
  split; simpl; unfold len in *; try lia.
  intros i Hi. replace (pos 0 (qn q) (Z.of_nat i)) with (Z.of_nat i) by (unfold pos; zbool_all; lia).
  rewrite Hc, <-qrep_cells0 by lia. done.
Qed.
End MoreLemmas.

(** ** The queue implements the deque interface *)
#[export] Instance queue_deque {V} `{EqDecision V} : Deque (queue V) V := {
  dq_rep := qrep;
  dq_space := queue_space;
  dq_can_remove := fun q => qn q = 0 \/ qs q + qn q < 2 * qsz q;
  dq_can_remove_dec := fun q => or_dec _ _;
  dq_each := queue_each;
  dq_first := queue_first;
  dq_last := queue_last;
  dq_push := queue_push;
  dq_insert := queue_insert;
  dq_shift := queue_shift;
  dq_reserve := queue_reserve;
  dq_rmval := fun NULL q x => queue_rmval NULL q x
}.

Section Laws.
Context {V : Type} `{EqDecision V}.
Implicit Types (q : queue V) (l : list V).

Lemma queue_space_eq q l : qrep q l -> queue_space q = qsz q - qn q.
Proof.
  intros Hr. pose proof (qrep_bounds _ _ Hr). pose proof (qrep_max _ _ Hr).
  unfold queue_space. rewrite u64_small; lia.
Qed.

Lemma queue_room_free ok q l : qrep q l -> 0 < queue_space q -> queue_room ok q = Some (Some q).
Proof.
  intros Hr Hsp. rewrite (queue_space_eq q l Hr) in Hsp. unfold queue_room.
  by rewrite (proj2 (Z.eqb_neq _ _)) by lia.
Qed.

(** With a free cell the allocation oracle is not consulted. *)
Lemma queue_push_free ok q l (d : V) :
  qrep q l -> 0 < queue_space q -> queue_push ok q d = queue_push true q d.
Proof. intros Hr Hsp. unfold queue_push. by rewrite !(queue_room_free _ q l). Qed.

Lemma queue_insert_free ok q l i (d : V) :
  qrep q l -> 0 < queue_space q -> queue_insert ok q i d = queue_insert true q i d.
Proof.
  intros Hr Hsp. unfold queue_insert, queue_unshift, queue_push.
  by rewrite !(queue_room_free _ q l).
Qed.
End Laws.

#[export] Instance queue_deque_laws {V} `{EqDecision V} : DequeLaws (queue V) V.
Proof.
  split; simpl.
  - intros. by apply queue_each_rep.
  - intros. by apply queue_first_rep.
  - intros. by apply queue_last_rep.
  - intros ok q l d Hr Hl Hsp. rewrite (queue_push_free ok q l) by done.
    destruct (queue_push_rep true q l d Hr) as (rc & q' & E & Hres).
    { pose proof (qrep_n _ _ Hr). unfold QUEUE_LIMIT, dq_limit in *. lia. }
    destruct Hres as [[-> ?]|(_ & ? & _)]; [by exists q'|done].
  - intros ok q l i d Hr Hl Hsp Hi. rewrite (queue_insert_free ok q l) by done.
    destruct (queue_insert_rep true q l i d Hr Hi) as (rc & q' & E & Hres).
    { pose proof (qrep_n _ _ Hr). unfold QUEUE_LIMIT, dq_limit in *. lia. }
    destruct Hres as [[-> ?]|(_ & ? & _)]; [by exists q'|done].
  - intros NULL q l Hr. destruct (queue_shift_rep NULL q l Hr) as (q' & -> & ? & _). eauto.
  - intros ok q l n Hr Hn Hlim. destruct (queue_reserve_rep ok q l n Hr Hn) as (rc & q' & -> & Hres).
    { pose proof (qrep_n _ _ Hr). unfold QUEUE_LIMIT, dq_limit in *. lia. }
    eexists _, _. split; [done|]. destruct Hres as [(-> & Hr' & ?)|?]; [left|by right].
    rewrite (queue_space_eq q' l Hr'). split_and!; [done|done|lia].
  - intros NULL q l x Hr Hcan. destruct (queue_rmval_rep NULL q l x Hr) as (q' & -> & Hr' & Hsp & Heq).
    { intros Hx. destruct Hcan; [|done]. apply list_elem_of_In in Hx. destruct l; [done|].
      pose proof (qrep_n _ _ Hr). unfold len in *. simpl in *. lia. }
    exists q'. split; [done|]. split; [done|]. rewrite (queue_space_eq q' _ Hr').
    split; [|done]. intros Hx. specialize (Hsp Hx). lia.
Qed.

(** ** Contract and properties *)
Section Contract.
Context {V : Type} `{EqDecision V} (NULL : V).
Implicit Types (q : queue V) (l : list V) (d : V).

Inductive qop :=
  | QPush (d : V) | QUnshift (d : V) | QInsert (i : Z) (d : V) | QExtend (k : list V)
  | QReserve (n : Z) | QPop | QShift | QRemove (i : Z) | QRmval (d : V)
  | QReplace (i : Z) (d : V) | QClear.

(** The queue as a client sees it: a list; [inl] is a status, [inr] an item. *)
Definition queue_spec (op : qop) l : option ((Z + V) * list V) :=
  guard (len l < QUEUE_LIMIT);;
  match op with
  | QPush d => Some (inl 0, l ++ [d])
  | QUnshift d => Some (inl 0, d :: l)
  | QInsert i d =>
      guard (0 <= i);; Some (inl 0, take (Z.to_nat i) l ++ d :: drop (Z.to_nat i) l)
  | QExtend k =>
      guard (0 < len k /\ len l + len k < QUEUE_LIMIT);; Some (inl 0, l ++ k)
  | QReserve n => guard (0 <= n /\ len l + n < QUEUE_LIMIT);; Some (inl 0, l)
  | QPop => Some (inr (default NULL (list.last l)), take (length l - 1) l)
  | QShift => Some (inr (default NULL (head l)), tail l)
  | QRemove i =>
      guard (0 <= i);; x ← l !! Z.to_nat i; Some (inr x, delete (Z.to_nat i) l)
  | QRmval d => Some (inr (if decide (d ∈ l) then d else NULL), remove_first d l)
  | QReplace i d =>
      guard (0 <= i);; x ← l !! Z.to_nat i; Some (inr x, <[Z.to_nat i := d]> l)
  | QClear => Some (inl 0, [])
  end.

Definition queue_exec (ok : bool) (op : qop) q : option ((Z + V) * queue V) :=
  let st := fmap (M := option) (fun '(rc, q) => (inl rc, q)) in
  let it := fmap (M := option) (fun '(x, q) => (inr x, q)) in
  match op with
  | QPush d => st (queue_push ok q d)
  | QUnshift d => st (queue_unshift ok q d)
  | QInsert i d => st (queue_insert ok q i d)
  | QExtend k => st (queue_extend ok q (Some <$> k) (len k))
  | QReserve n => st (queue_reserve ok q n)
  | QPop => it (queue_pop NULL q)
  | QShift => it (queue_shift NULL q)
  | QRemove i => it (queue_remove NULL q i)
  | QRmval d => it (queue_rmval NULL q d)
  | QReplace i d => it (queue_replace q i d)
  | QClear => st (Some (0, queue_clear q))
  end.

(** The states in which the removal loop is right. *)
Definition qop_ok (op : qop) q : Prop :=
  match op with
  | QRemove _ | QRmval _ => dq_can_remove q
  | _ => True
  end.

Definition queue_sim (ok : bool) q (r : Z + V) l' (res : option ((Z + V) * queue V)) : Prop :=
  exists r1 q1, res = Some (r1, q1) /\
    ((r1 = r /\ qrep q1 l') \/ (ok = false /\ r1 = inl (-1) /\ q1 = q)).

Lemma queue_sim_item ok q x l' res :
  (exists q', res = Some (x, q') /\ qrep q' l') ->
  queue_sim ok q (inr x) l' ((fun '(x, q) => (inr x, q)) <$> res).
Proof. intros (q' & -> & ?). eexists _, _. simpl. eauto. Qed.

Lemma queue_sim_rc ok q l' res :
  (exists rc q', res = Some (rc, q') /\
     ((rc = 0 /\ qrep q' l') \/ (rc = -1 /\ ok = false /\ q' = q))) ->
  queue_sim ok q (inl 0) l' ((fun '(rc, q) => (inl rc, q)) <$> res).
Proof.
  intros (rc & q' & -> & [[-> ?]|(-> & -> & ->)]); eexists _, _; simpl; eauto 10.
Qed.
End Contract.

(** C39. Refinement of the queue API, one call at a time. On a queue that holds
    the list [l], every call within the contract, with either outcome of its
    allocation, runs without undefined behaviour; it returns and leaves what
    the contract says, or it returns -1 for a failed allocation and leaves
    the queue unchanged. [queue_remove] and [queue_rmval] are covered in every
    state but the full one whose start index is one past the block. *)
Theorem queue_step_refines {V} `{EqDecision V} (NULL : V) ok (op : qop) (q : queue V)
    (l : list V) r l' :
  qrep q l -> queue_spec NULL op l = Some (r, l') -> qop_ok op q ->
  queue_sim ok q r l' (queue_exec NULL ok op q).
Proof.
  intros Hr Hs Hop. pose proof (qrep_n _ _ Hr) as Hn. unfold queue_spec in Hs.
  case_guard; [|done]. simpl in Hs.
  destruct op; simpl in *; repeat (case_guard; [|done]); simpl in *;
    try (simplify_option_eq; []).
  - apply queue_sim_rc, queue_push_rep; [done|lia].
  - apply queue_sim_rc, queue_unshift_rep; [done|lia].
  - apply queue_sim_rc, queue_insert_rep; [done|done|lia].
  - apply queue_sim_rc, queue_extend_rep; [done|done|lia| | |lia].
    + unfold len. by rewrite length_fmap.
    + intros i Hi. by rewrite list_lookup_fmap.
  - apply queue_sim_rc. edestruct (queue_reserve_rep ok q) as (rc & q' & -> & Hres); [exact Hr|lia..|].
    eexists _, _. split; [done|]. destruct Hres as [(? & ? & _)|?]; auto.
  - apply queue_sim_item. by apply queue_pop_rep.
  - apply queue_sim_item. edestruct (queue_shift_rep NULL q l) as (q' & -> & ? & _); eauto.
  - apply queue_sim_item. edestruct (queue_remove_rep NULL q l) as (q' & -> & ? & _); eauto.
    destruct Hop; [|done]. unfold len in *. destruct l; simpl in *; [done|lia].
  - injection Hs as <- <-. apply queue_sim_item. edestruct (queue_rmval_rep NULL q l) as (q' & -> & ? & _); eauto.
    intros Hx. destruct Hop; [|done]. apply list_elem_of_In in Hx. destruct l; [done|].
    unfold len in *. simpl in *. lia.
  - apply queue_sim_item. by apply queue_replace_rep.
  - eexists _, _. split; [done|]. left. split; [done|].
    pose proof (qrep_bounds _ _ Hr). destruct Hr. split; simpl; try done; lia.
Qed.

(** [queue_remove] exactly: it returns item [i] in every state, but the
    list it leaves is the one without item [i] only while [s_ + n < 2 sz].
    When the queue is full and [s_ = sz] the end index wraps to zero, the
    shifting loop does nothing, and the queue has lost its last item while it
    still holds the item that was handed out. *)
Theorem queue_remove_exact {V} `{EqDecision V} (NULL : V) (q : queue V) (l : list V) i x :
  qrep q l -> 0 <= i -> l !! Z.to_nat i = Some x ->
  exists q', queue_remove NULL q i = Some (x, q') /\
    qrep q' (if (qs q =? qsz q) && (qn q =? qsz q)
             then take (length l - 1) l else delete (Z.to_nat i) l).
Proof.
  intros Hr Hi Hx. pose proof (qrep_bounds _ _ Hr).
  destruct (Z.eqb_spec (qs q) (qsz q)), (Z.eqb_spec (qn q) (qsz q)); simpl.
  1: by apply queue_remove_full.
  all: destruct (queue_remove_rep NULL q l i x Hr) as (q' & -> & ? & _); [done|done|lia|eauto].
Qed.

(** The faulty state of [queue_remove] is reached through the API alone:
    a queue of size 4 after pushes, shifts and one removal at index 0 is full
    with [s_ = sz]; removing its second item then leaves a queue that still
    contains it and misses the last one. *)
Theorem queue_remove_faulty_reachable :
  exists q1 q2 : queue Z,
    (q ← queue_new true 4;
     '(_, q) ← queue_push true q 1; '(_, q) ← queue_push true q 2;
     '(_, q) ← queue_push true q 3; '(_, q) ← queue_push true q 4;
     '(_, q) ← queue_shift 0 q; '(_, q) ← queue_shift 0 q; '(_, q) ← queue_shift 0 q;
     '(_, q) ← queue_remove 0 q 0;
     '(_, q) ← queue_push true q 5; '(_, q) ← queue_push true q 6;
     '(_, q) ← queue_push true q 7; '(_, q) ← queue_push true q 8; Some q) = Some q1 /\
    queue_each q1 = Some [5; 6; 7; 8] /\
    queue_remove 0 q1 1 = Some (6, q2) /\
    queue_each q2 = Some [5; 6; 7].
Proof.
  exists (Queue 4 4 4 [Some 5; Some 6; Some 7; Some 8]),
    (Queue 3 4 4 [Some 5; Some 6; Some 7; Some 8]).
  vm_compute. repeat split; reflexivity.
Qed.

(** [queue_shrink] moves the cells before it asks for memory: when the
    reallocation fails it reports -1 but the queue no longer holds its items
    (here the first one is replaced by a stale cell). *)
Theorem queue_shrink_failure_corrupts :
  exists q1 q2 : queue Z,
    (q ← queue_new true 8;
     '(_, q) ← queue_push true q 1; '(_, q) ← queue_push true q 2; '(_, q) ← queue_push true q 3;
     '(_, q) ← queue_push true q 4; '(_, q) ← queue_push true q 5; '(_, q) ← queue_push true q 6;
     '(_, q) ← queue_shift 0 q; '(_, q) ← queue_shift 0 q; Some q) = Some q1 /\
    queue_each q1 = Some [3; 4; 5; 6] /\
    queue_shrink false q1 = Some (-1, q2) /\
    queue_each q2 = Some [5; 6; 5; 6].
Proof.
  exists (Queue 4 8 2 [Some 1; Some 2; Some 3; Some 4; Some 5; Some 6; None; None]),
    (Queue 4 8 2 [Some 3; Some 4; Some 5; Some 6; Some 5; Some 6; None; None]).
  vm_compute. repeat split; reflexivity.
Qed.

Definition queue_of {V} (l : list V) : queue V := Queue (len l) (len l) 0 (Some <$> l).

Lemma queue_of_rep {V} (l : list V) : len l <= 4611686018427387904 -> qrep (queue_of l) l.
Proof.
  intros ?. pose proof (len_nonneg l). split; simpl; try done; try lia.
  - unfold len. by rewrite length_fmap.
  - intros i Hi. rewrite list_lookup_fmap. unfold pos, len. do 2 f_equal. zbool; lia.
Qed.

Lemma queue_step_refines_witness :
  queue_sim true (queue_of [1; 2; 3]) (inr 2) [1; 3]
    (queue_exec 0 true (QRemove 1) (queue_of [1; 2; 3])).
Proof.
  apply (queue_step_refines 0 true (QRemove 1) (queue_of [1; 2; 3]) [1; 2; 3]);
    [by apply queue_of_rep|reflexivity|right; vm_compute; reflexivity].
Defined.

Lemma queue_remove_exact_witness :
  exists q', queue_remove 0 (Queue 3 3 3 [Some 1; Some 2; Some 3]) 1 = Some (2, q') /\
    qrep q' [1; 2].
Proof.
  apply (queue_remove_exact 0 (Queue 3 3 3 [Some 1; Some 2; Some 3]) [1; 2; 3] 1 2);
    [|lia|reflexivity].
  split; simpl; try done; try lia. intros [|[|[|]]] Hi; try done; lia.
Defined.
