(* ===== verification/Nodes.v ===== *)
(** * ti/nodes: the cluster as one node sees it

    [src/src/ti/nodes.c] (the part that is logic: quorum, status queries, the
    cluster-wide committed and stored change ids, adding and removing nodes)
    and [src/inc/ti/node.t.h]. The vector [nodes->vec] is the list of node
    records; a [ti_node_t *] is an index of it. *)
From Stdlib Require Import ZArith Lia.
From stdpp Require Import base list option numbers.
From S2P Require Import Prelude.

(** [ti_node_status_t] *)
Definition TI_NODE_STAT_OFFLINE : Z := 0.
Definition TI_NODE_STAT_CONNECTING : Z := 1.
Definition TI_NODE_STAT_CONNECTED : Z := 2.
Definition TI_NODE_STAT_BUILDING : Z := 4.
Definition TI_NODE_STAT_SHUTTING_DOWN : Z := 8.
Definition TI_NODE_STAT_SYNCHRONIZING : Z := 16.
Definition TI_NODE_STAT_AWAY : Z := 32.
Definition TI_NODE_STAT_AWAY_SOON : Z := 64.
Definition TI_NODE_STAT_READY : Z := 128.

Definition NODES__MAX : Z := 127.

Record ti_node := Node {
  node_id : Z;              (* uint32_t id *)
  node_port : Z;            (* uint16_t port *)
  node_syntax_ver : Z;      (* uint16_t syntax_ver *)
  node_status : Z;          (* uint8_t status *)
  node_zone : Z;            (* uint8_t zone *)
  node_retry_counter : Z;   (* uint32_t retry_counter *)
  node_ccid : Z;            (* uint64_t ccid *)
  node_scid : Z;            (* uint64_t scid *)
  node_addr : list Z        (* char * addr *)
}.

Record ti_nodes := Nodes {
  nodes_vec : list ti_node;
  nodes_ccid : Z;           (* last committed change id by all nodes *)
  nodes_scid : Z;           (* last stored change id by all nodes *)
  nodes_next_id : Z;        (* uint32_t next_id *)
  nodes_syntax_ver : Z
}.

(** ** Quorum *)

(** Number of nodes required, this node excluded; [uint8_t]. *)
Definition ti_nodes_quorum (vec : list ti_node) : Z :=
  if (len vec =? 2) && existsb (fun n => node_status n <=? TI_NODE_STAT_SHUTTING_DOWN) vec
  then 0 else u8 (len vec / 2).

(** The counting loop of [ti_nodes_has_quorum]: [++q == quorum] stops it. *)
Fixpoint has_quorum_loop (quorum q : Z) (vec : list ti_node) : bool :=
  match vec with
  | [] => false
  | n :: vec =>
      if TI_NODE_STAT_SHUTTING_DOWN <? node_status n
      then let q := q + 1 in if q =? quorum then true else has_quorum_loop quorum q vec
      else has_quorum_loop quorum q vec
  end.

Definition ti_nodes_has_quorum (vec : list ti_node) : bool :=
  has_quorum_loop (ti_nodes_quorum vec + 1) 0 vec.

(** ** Status queries. A found node is returned with its index. *)

Fixpoint find_node (p : ti_node -> bool) (i : nat) (vec : list ti_node) : option (nat * ti_node) :=
  match vec with
  | [] => None
  | n :: vec => if p n then Some (i, n) else find_node p (S i) vec
  end.

Definition ti_nodes_not_ready (vec : list ti_node) : option (nat * ti_node) :=
  find_node (fun n => negb (node_status n =? TI_NODE_STAT_READY)) 0 vec.

Definition ti_nodes_offline_found (vec : list ti_node) : bool :=
  existsb (fun n => (node_status n <=? TI_NODE_STAT_CONNECTING)
                    && (3 <? node_retry_counter n)) vec.

Definition ti_nodes_require_sync (vec : list ti_node) : bool :=
  existsb (fun n => node_status n =? TI_NODE_STAT_SYNCHRONIZING) vec.

Definition ti_nodes_node_by_id (vec : list ti_node) (id : Z) : option (nat * ti_node) :=
  find_node (fun n => node_id n =? id) 0 vec.

Definition ti_nodes_get_away (vec : list ti_node) : option (nat * ti_node) :=
  find_node (fun n => node_status n =? TI_NODE_STAT_AWAY) 0 vec.

Definition ti_nodes_get_away_or_soon (vec : list ti_node) : option (nat * ti_node) :=
  find_node (fun n => (node_status n =? TI_NODE_STAT_AWAY)
                      || (node_status n =? TI_NODE_STAT_AWAY_SOON)) 0 vec.

Inductive ti_nodes_ignore :=
  | TI_NODES_IGNORE_SYNC | TI_NODES_RETRY_OFFLINE | TI_NODES_WAIT_AWAY.

(** The loop of [ti_nodes_ignore_sync]; [None] is the early return. *)
Fixpoint ignore_sync_loop (m : Z) (retry_offline : bool) (n offline : Z) (vec : list ti_node)
    : option (Z * Z) :=
  match vec with
  | [] => Some (n, offline)
  | x :: vec =>
      if (m <? node_ccid x) || (TI_NODE_STAT_SYNCHRONIZING <? node_status x) then None else
      let offline :=
        if retry_offline && (node_status x <? TI_NODE_STAT_SYNCHRONIZING)
        then u8 (offline + 1) else offline in
      let n := if node_status x =? TI_NODE_STAT_SYNCHRONIZING then u8 (n + 1) else n in
      ignore_sync_loop m retry_offline n offline vec
  end.

Definition ti_nodes_ignore_sync (this_ccid : Z) (vec : list ti_node) (retry_offline : Z)
    : ti_nodes_ignore :=
  if this_ccid =? 0 then TI_NODES_WAIT_AWAY else
  match ignore_sync_loop this_ccid (negb (retry_offline =? 0)) 0 0 vec with
  | None => TI_NODES_WAIT_AWAY
  | Some (n, offline) =>
      if negb (offline =? 0) then TI_NODES_RETRY_OFFLINE
      else if ti_nodes_quorum vec <? n then TI_NODES_IGNORE_SYNC
      else TI_NODES_WAIT_AWAY
  end.

(** ** Change ids committed, and stored, by all nodes *)

Fixpoint min_id (f : ti_node -> Z) (m : Z) (vec : list ti_node) : Z :=
  match vec with
  | [] => m
  | n :: vec => min_id f (if f n <? m then f n else m) vec
  end.

Definition ti_nodes_ccid (this : ti_node) (s : ti_nodes) : Z * ti_nodes :=
  let m := min_id node_ccid (node_ccid this) (nodes_vec s) in
  if nodes_ccid s <? m
  then (m, Nodes (nodes_vec s) m (nodes_scid s) (nodes_next_id s) (nodes_syntax_ver s))
  else (nodes_ccid s, s).

Definition ti_nodes_scid (this : ti_node) (s : ti_nodes) : Z * ti_nodes :=
  let m := min_id node_scid (node_scid this) (nodes_vec s) in
  if nodes_scid s <? m
  then (m, Nodes (nodes_vec s) (nodes_ccid s) m (nodes_next_id s) (nodes_syntax_ver s))
  else (nodes_scid s, s).

Definition ti_nodes_update_syntax_ver (s : ti_nodes) (v : Z) : ti_nodes :=
  if v =? nodes_syntax_ver s then s else
  let v := min_id node_syntax_ver v (nodes_vec s) in
  let set v := Nodes (nodes_vec s) (nodes_ccid s) (nodes_scid s) (nodes_next_id s) v in
  if v <? nodes_syntax_ver s then set v
  else if nodes_syntax_ver s <? v then set v else s.

(** ** Adding and removing *)

Inductive check_add_result := AddOk | AddMaxQuota | AddExists | AddWait.

(** The loop of [ti_nodes_check_add]; [!may_skip--] tests, then decrements. *)
Fixpoint check_add_loop (addr : list Z) (port : Z) (may_skip : Z) (vec : list ti_node)
    : check_add_result :=
  match vec with
  | [] => AddOk
  | n :: vec =>
      if bool_decide (node_addr n = addr) && (node_port n =? port) then AddExists else
      if node_status n <=? TI_NODE_STAT_CONNECTED then
        if may_skip =? 0 then AddWait
        else check_add_loop addr port (may_skip - 1) vec
      else check_add_loop addr port may_skip vec
  end.

Definition ti_nodes_check_add (addr : list Z) (port : Z) (vec : list ti_node)
    : check_add_result :=
  let may_skip := if 4 <=? len vec then u8 (u8 (len vec / 2) - 1) else 0 in
  if len vec =? NODES__MAX then AddMaxQuota
  else check_add_loop addr port may_skip vec.

(** [node] is the freshly created node, [None] when its creation failed. *)
Definition ti_nodes_new_node (ok : bool) (node : option ti_node) (s : ti_nodes)
    : option ti_nodes :=
  match node with
  | Some n =>
      if ok then
        Some (Nodes (nodes_vec s ++ [n]) (nodes_ccid s) (nodes_scid s)
          (if nodes_next_id s <=? node_id n then u32 (node_id n + 1) else nodes_next_id s)
          (nodes_syntax_ver s))
      else None
  | None => None
  end.

(** [vec_swap_remove]: the last node takes the place of the removed one. *)
Definition ti_nodes_del_node (s : ti_nodes) (id : Z) : ti_nodes :=
  match ti_nodes_node_by_id (nodes_vec s) id, list.last (nodes_vec s) with
  | Some (i, _), Some y =>
      Nodes (take (length (nodes_vec s) - 1) (<[i := y]> (nodes_vec s)))
        (nodes_ccid s) (nodes_scid s) (nodes_next_id s) (nodes_syntax_ver s)
  | _, _ => s
  end.

(** The loop of [ti_nodes_random_ready_node]: indices are collected in two
    static arrays of 63 entries; a store past the end is undefined. *)
Fixpoint ready_nodes_loop (this : nat) (zone : Z) (i : nat) (vec : list ti_node)
    (z o : list nat) : option (list nat * list nat) :=
  match vec with
  | [] => Some (z, o)
  | n :: vec =>
      if (i =? this)%nat || negb (node_status n =? TI_NODE_STAT_READY)
      then ready_nodes_loop this zone (S i) vec z o
      else if zone =? node_zone n then
        if (length z <? 63)%nat then ready_nodes_loop this zone (S i) vec (z ++ [i]) o else None
      else
        if (length o <? 63)%nat then ready_nodes_loop this zone (S i) vec z (o ++ [i]) else None
  end.

(** [r] is the value of [rand()]. *)
Definition ti_nodes_random_ready_node (this : nat) (zone : Z) (r : nat) (vec : list ti_node)
    : option (option nat) :=
  '(z, o) ← ready_nodes_loop this zone 0 vec [] [];
  Some (if (length z =? 0)%nat
        then if (length o =? 0)%nat then None else o !! (r mod length o)%nat
        else z !! (r mod length z)%nat).

(** ** Lemmas *)

Lemma has_quorum_loop_true k q vec :
  q < k ->
  has_quorum_loop k q vec = true <->
  k - q <= len (filter (fun n => TI_NODE_STAT_SHUTTING_DOWN < node_status n) vec).
Proof.
  revert q. induction vec as [|n vec IH]; intros q Hq; simpl.
  - unfold len. simpl. split; [done|lia].
  - destruct (Z.ltb_spec TI_NODE_STAT_SHUTTING_DOWN (node_status n)).
    + rewrite filter_cons_True by done. unfold len in *. simpl length.
      destruct (Z.eqb_spec (q + 1) k).
      * split; [intros _; lia|done].
      * rewrite IH by lia. lia.
    + rewrite filter_cons_False by lia. by apply IH.
Qed.

Lemma ti_nodes_quorum_bounds vec :
  len vec <= NODES__MAX -> 0 <= ti_nodes_quorum vec <= len vec / 2.
Proof.
  unfold NODES__MAX. intros Hv. pose proof (len_nonneg vec).
  pose proof (Z.div_pos (len vec) 2 ltac:(lia) ltac:(lia)).
  assert (len vec / 2 < 64) by (apply Z.div_lt_upper_bound; lia).
  unfold ti_nodes_quorum. destruct (_ && _); [lia|]. rewrite u8_small; lia.
Qed.

Lemma has_quorum_iff vec :
  len vec <= NODES__MAX ->
  ti_nodes_has_quorum vec = true <->
  ti_nodes_quorum vec < len (filter (fun n => TI_NODE_STAT_SHUTTING_DOWN < node_status n) vec).
Proof.
  intros Hv. pose proof (ti_nodes_quorum_bounds vec Hv). unfold ti_nodes_has_quorum.
  rewrite has_quorum_loop_true by lia. lia.
Qed.

Lemma min_id_le f m vec : min_id f m vec <= m /\ forall n, n ∈ vec -> min_id f m vec <= f n.
Proof.
  revert m. induction vec as [|n vec IH]; intros m; simpl.
  - split; [lia|]. by intros n ?%elem_of_nil.
  - destruct (IH (if f n <? m then f n else m)) as [H1 H2].
    split; [revert H1; zbool; lia|].
    intros n' [->|Hn]%elem_of_cons; [revert H1; zbool; lia|by apply H2].
Qed.

Lemma check_add_loop_ok addr port k vec :
  0 <= k -> check_add_loop addr port k vec = AddOk ->
  len (filter (fun n => node_status n <= TI_NODE_STAT_CONNECTED) vec) <= k.
Proof.
  revert k. induction vec as [|n vec IH]; intros k Hk; simpl; [unfold len; simpl; lia|].
  destruct (_ && _); [done|].
  destruct (Z.leb_spec (node_status n) TI_NODE_STAT_CONNECTED).
  - destruct (Z.eqb_spec k 0); [done|]. intros Hc%IH; [|lia].
    rewrite filter_cons_True by done. unfold len in *. simpl. lia.
  - intros Hc%IH; [|done]. by rewrite filter_cons_False by lia.
Qed.

(** Counting with a predicate and with its negation covers the list. *)
Lemma filter_split (P Q : ti_node -> Prop) `{forall n, Decision (P n), forall n, Decision (Q n)} vec :
  (forall n, n ∈ vec -> P n \/ Q n) -> len vec <= len (filter P vec) + len (filter Q vec).
Proof.
  induction vec as [|n vec IH]; intros HPQ; [done|].
  assert (IH' := IH (fun n' Hn => HPQ n' (list_elem_of_further _ _ _ Hn))).
  destruct (HPQ n (list_elem_of_here _ _)); unfold len in *; rewrite !filter_cons;
    repeat case_decide; simpl; try done; lia.
Qed.

Lemma ready_nodes_loop_spec this zone vec : forall i z o,
  (length z + length o + length vec <= 63)%nat ->
  exists z' o', ready_nodes_loop this zone i vec z o = Some (z ++ z', o ++ o') /\
    (forall j, j ∈ z' <-> exists n, vec !! (j - i)%nat = Some n /\ (i <= j)%nat /\ j <> this /\
       node_status n = TI_NODE_STAT_READY /\ node_zone n = zone) /\
    (forall j, j ∈ o' <-> exists n, vec !! (j - i)%nat = Some n /\ (i <= j)%nat /\ j <> this /\
       node_status n = TI_NODE_STAT_READY /\ node_zone n <> zone).
Proof.
  induction vec as [|n vec IH]; intros i z o Hl; simpl in *.
  { exists [], []. rewrite !app_nil_r. split; [done|].
    split; intros j; (split; [by intros ?%elem_of_nil|by intros (? & ? & _)]). }
  assert (Hstep : forall (P : ti_node -> Prop) (l : list nat) (j : nat),
    (j ∈ l <-> exists n', vec !! (j - S i)%nat = Some n' /\ (S i <= j)%nat /\ j <> this /\
       node_status n' = TI_NODE_STAT_READY /\ P n') ->
    (exists n', (n :: vec) !! (j - i)%nat = Some n' /\ (i <= j)%nat /\ j <> this /\
       node_status n' = TI_NODE_STAT_READY /\ P n') <->
    (j = i /\ i <> this /\ node_status n = TI_NODE_STAT_READY /\ P n) \/ j ∈ l).
  { intros P l j ->. destruct (decide (j = i)) as [->|].
    - rewrite Nat.sub_diag. simpl. split.
      + intros (n' & [= <-] & ? & ? & ? & ?). auto.
      + intros [(_ & ? & ? & ?)|(? & ? & ? & _)]; [eauto 10|lia].
    - split.
      + intros (n' & Hn & ? & ? & ? & ?). right. exists n'. split_and!; try done; [|lia].
        rewrite <-Hn. replace (j - i)%nat with (S (j - S i)) by lia. done.
      + intros [[? _]|(n' & Hn & ? & ? & ? & ?)]; [done|]. exists n'. split_and!; try done; [|lia].
        rewrite <-Hn. replace (j - i)%nat with (S (j - S i)) by lia. done. }
  destruct ((i =? this)%nat || negb (node_status n =? TI_NODE_STAT_READY)) eqn:E.
  - destruct (IH (S i) z o) as (z' & o' & -> & Hz & Ho); [lia|]. exists z', o'. split; [done|].
    assert (~ (i <> this /\ node_status n = TI_NODE_STAT_READY)).
    { intros [? ?]. apply orb_true_iff in E as [?%Nat.eqb_eq|?%negb_true_iff%Z.eqb_neq]; done. }
    split; intros j.
    + rewrite (Hstep (fun n => node_zone n = zone) z' j (Hz j)). naive_solver.
    + rewrite (Hstep (fun n => node_zone n <> zone) o' j (Ho j)). naive_solver.
  - apply orb_false_iff in E as [?%Nat.eqb_neq ?%negb_false_iff%Z.eqb_eq].
    destruct (Z.eqb_spec zone (node_zone n)).
    + rewrite (proj2 (Nat.ltb_lt (length z) 63)) by lia.
      destruct (IH (S i) (z ++ [i]) o) as (z' & o' & -> & Hz & Ho); [rewrite length_app; simpl; lia|].
      exists (i :: z'), o'. rewrite <-app_assoc. split; [done|]. split; intros j.
      * rewrite elem_of_cons, (Hstep (fun n => node_zone n = zone) z' j (Hz j)). naive_solver.
      * rewrite (Hstep (fun n => node_zone n <> zone) o' j (Ho j)). naive_solver.
    + rewrite (proj2 (Nat.ltb_lt (length o) 63)) by lia.
      destruct (IH (S i) z (o ++ [i])) as (z' & o' & -> & Hz & Ho); [rewrite length_app; simpl; lia|].
      exists z', (i :: o'). rewrite <-app_assoc. split; [done|]. split; intros j.
      * rewrite (Hstep (fun n => node_zone n = zone) z' j (Hz j)). naive_solver.
      * rewrite elem_of_cons, (Hstep (fun n => node_zone n <> zone) o' j (Ho j)). naive_solver.
Qed.

Lemma min_id_in f m vec :
  min_id f m vec = m \/ exists n, n ∈ vec /\ min_id f m vec = f n.
Proof.
  revert m. induction vec as [|n vec IH]; intros m; simpl; [by left|].
  destruct (IH (if f n <? m then f n else m)) as [->|(n' & ? & ->)].
  - destruct (f n <? m); [right; exists n; split; [left|done]|by left].
  - right. exists n'. by split; [right|].
Qed.

(** A cluster of [NODES__MAX] nodes, all of them ready, in one zone. *)
Definition ready_node (i : Z) : ti_node :=
  Node i 9220 0 TI_NODE_STAT_READY 0 0 0 0 [].
Definition ready_cluster (n : nat) : list ti_node :=
  (fun i => ready_node (Z.of_nat i)) <$> seq 0 n.

(** ** Properties *)

(** [ti_nodes_check_add] keeps its promise: when it lets a node be added
    and no node is in the building or shutting-down state, the cluster still
    has a quorum right after [ti_nodes_new_node], with the new node off-line. *)
Theorem check_add_keeps_quorum (addr : list Z) (port : Z) (new : ti_node) (s s' : ti_nodes) :
  0 < len (nodes_vec s) < NODES__MAX ->
  (forall n, n ∈ nodes_vec s -> node_status n <= TI_NODE_STAT_CONNECTED \/
                          TI_NODE_STAT_SHUTTING_DOWN < node_status n) ->
  ti_nodes_check_add addr port (nodes_vec s) = AddOk ->
  node_status new = TI_NODE_STAT_OFFLINE ->
  ti_nodes_new_node true (Some new) s = Some s' ->
  ti_nodes_has_quorum (nodes_vec s') = true.
Proof.
  unfold ti_nodes_check_add, ti_nodes_new_node. intros Hn Hst Hadd Hnew [= <-].
  cbn [nodes_vec]. set (vec := nodes_vec s) in *.
  assert (Hlen : len (vec ++ [new]) = len vec + 1) by (rewrite len_app; done).
  apply has_quorum_iff; [lia|]. rewrite list.filter_app, len_app.
  pose proof (filter_split _ _ vec Hst) as Hsplit.
  assert (0 <= len (filter (fun n => TI_NODE_STAT_SHUTTING_DOWN < node_status n) [new]))
    by apply len_nonneg.
  destruct (len vec =? NODES__MAX); [done|].
  unfold NODES__MAX in Hn. pose proof (Z.div_mod (len vec) 2 ltac:(lia)).
  pose proof (Z.mod_pos_bound (len vec) 2 ltac:(lia)).
  apply check_add_loop_ok in Hadd; [|destruct (4 <=? len vec); [apply u8_range|lia]].
  destruct (Z.eq_dec (len vec) 1) as [E1|].
  - unfold ti_nodes_quorum. rewrite Hlen, E1 in *.
    rewrite existsb_app. simpl existsb. rewrite Hnew. rewrite !orb_true_r. simpl in *. lia.
  - pose proof (proj2 (ti_nodes_quorum_bounds (vec ++ [new]) ltac:(unfold NODES__MAX; lia))) as Hq.
    rewrite Hlen in Hq. pose proof (Z.div_mod (len vec + 1) 2 ltac:(lia)).
    pose proof (Z.mod_pos_bound (len vec + 1) 2 ltac:(lia)).
    destruct (Z.leb_spec 4 (len vec)).
    + rewrite (u8_small (len vec / 2)) in Hadd by lia. rewrite u8_small in Hadd by lia. lia.
    + lia.
Qed.

(** Four ready nodes and one that is off-line: a sixth may be added. *)
Lemma check_add_keeps_quorum_witness :
  exists s', ti_nodes_new_node true (Some (Node 9 9220 0 0 0 0 0 0 [1]))
    (Nodes (ready_cluster 4 ++ [Node 8 9220 0 0 0 0 0 0 [2]]) 0 0 9 0) = Some s' /\
  ti_nodes_has_quorum (nodes_vec s') = true.
Proof.
  eexists. split; [reflexivity|].
  eapply (check_add_keeps_quorum [1] 9220 (Node 9 9220 0 0 0 0 0 0 [1])
    (Nodes (ready_cluster 4 ++ [Node 8 9220 0 0 0 0 0 0 [2]]) 0 0 9 0));
    [vm_compute; done| |reflexivity|reflexivity|reflexivity].
  intros n Hn. simpl in Hn. repeat (apply elem_of_cons in Hn as [->|Hn]; [vm_compute; intuition discriminate|]).
  by apply elem_of_nil in Hn.
Defined.

(** C40. The change id [ti_nodes_ccid] reports never decreases, and when it
    moves, this node and every other one has committed it and it is the id of
    one of them: it is the greatest id committed by all nodes. The same holds
    of [ti_nodes_scid] and the stored change ids. *)
Theorem ccid_committed_by_all (this : ti_node) (s : ti_nodes) :
  let (m, s') := ti_nodes_ccid this s in
  let (k, s'') := ti_nodes_scid this s in
  m = nodes_ccid s' /\ nodes_ccid s <= m /\
  (m <> nodes_ccid s -> m <= node_ccid this /\ (forall n, n ∈ nodes_vec s -> m <= node_ccid n) /\
     exists n, (n = this \/ n ∈ nodes_vec s) /\ m = node_ccid n) /\
  k = nodes_scid s'' /\ nodes_scid s <= k /\
  (k <> nodes_scid s -> k <= node_scid this /\ (forall n, n ∈ nodes_vec s -> k <= node_scid n) /\
     exists n, (n = this \/ n ∈ nodes_vec s) /\ k = node_scid n).
Proof.
  assert (Hmin : forall f, let m := min_id f (f this) (nodes_vec s) in
    m <= f this /\ (forall n, n ∈ nodes_vec s -> m <= f n) /\
    exists n, (n = this \/ n ∈ nodes_vec s) /\ m = f n).
  { intros f. destruct (min_id_le f (f this) (nodes_vec s)) as [H1 H2]. split_and!; try done.
    destruct (min_id_in f (f this) (nodes_vec s)) as [E|(n & ? & E)]; eauto. }
  unfold ti_nodes_ccid, ti_nodes_scid.
  destruct (Z.ltb_spec (nodes_ccid s) (min_id node_ccid (node_ccid this) (nodes_vec s)));
  destruct (Z.ltb_spec (nodes_scid s) (min_id node_scid (node_scid this) (nodes_vec s)));
    cbn [nodes_ccid nodes_scid]; split_and!; try lia; try done; intros _;
    first [apply (Hmin node_ccid)|apply (Hmin node_scid)].
Qed.

(** With at most 63 nodes, [ti_nodes_random_ready_node] is defined, and it
    answers a ready node other than this one, in this node's own zone when
    such a node exists; it answers none exactly when no other node is ready. *)
Theorem random_ready_node_correct (this : nat) (zone : Z) (r : nat) (vec : list ti_node) :
  (length vec <= 63)%nat ->
  let ready j := exists n, vec !! j = Some n /\ j <> this /\ node_status n = TI_NODE_STAT_READY in
  let ready_in_zone j := exists n, vec !! j = Some n /\ j <> this /\
                           node_status n = TI_NODE_STAT_READY /\ node_zone n = zone in
  exists res, ti_nodes_random_ready_node this zone r vec = Some res /\
    match res with
    | Some j => ready j /\ ((exists j', ready_in_zone j') -> ready_in_zone j)
    | None => forall j, ~ ready j
    end.
Proof.
  intros Hl ready ready_in_zone. unfold ti_nodes_random_ready_node.
  destruct (ready_nodes_loop_spec this zone vec 0 [] []) as (z & o & -> & Hz & Ho); [simpl; lia|].
  simpl. eexists. split; [done|].
  assert (Hz' : forall j, j ∈ z <-> ready_in_zone j).
  { intros j. rewrite Hz, Nat.sub_0_r. unfold ready_in_zone. split; intros (n & ?); exists n; intuition lia. }
  assert (Ho' : forall j, j ∈ o -> ready j).
  { intros j. rewrite Ho, Nat.sub_0_r. intros (n & ?); exists n; intuition. }
  assert (Hzr : forall j, ready_in_zone j -> ready j) by (intros j (n & ?); exists n; intuition).
  destruct (Nat.eqb_spec (length z) 0) as [E|E].
  - apply nil_length_inv in E as ->.
    assert (Hnz : forall j, ~ ready_in_zone j) by (intros j Hj; apply Hz' in Hj; by apply elem_of_nil in Hj).
    destruct (Nat.eqb_spec (length o) 0) as [E|E].
    + apply nil_length_inv in E as ->. intros j (n & Hn & Hj & Hr).
      destruct (Z.eq_dec (node_zone n) zone).
      * apply (Hnz j). exists n; intuition.
      * apply (not_elem_of_nil j), Ho. rewrite Nat.sub_0_r. exists n. intuition lia.
    + destruct (lookup_lt_is_Some_2 o (r mod length o)) as [j Hj]; [by apply Nat.mod_upper_bound|].
      rewrite Hj. split; [by apply Ho'; eapply list_elem_of_lookup_2|].
      intros [j' Hj']. by apply Hnz in Hj'.
  - destruct (lookup_lt_is_Some_2 z (r mod length z)) as [j Hj]; [by apply Nat.mod_upper_bound|].
    rewrite Hj. apply list_elem_of_lookup_2, Hz' in Hj. auto.
Qed.

Lemma random_ready_node_correct_witness :
  (length (ready_cluster 3) <= 63)%nat /\
  exists res, ti_nodes_random_ready_node 0 0 5 (ready_cluster 3) = Some res /\
    match res with
    | Some j => exists n, ready_cluster 3 !! j = Some n /\ j <> 0%nat /\ node_status n = 128
    | None => False
    end.
Proof.
  split; [vm_compute; lia|].
  destruct (random_ready_node_correct 0 0 5 (ready_cluster 3)) as ([j|] & E & H);
    [vm_compute; lia| |].
  - exists (Some j). split; [exact E|]. exact (proj1 H).
  - vm_compute in E. discriminate E.
Defined.

(** The two index arrays of [ti_nodes_random_ready_node] hold 63 entries,
    while [ti_nodes_check_add] accepts a cluster up to [NODES__MAX] = 127: with
    65 ready nodes in one zone the function writes past the array, and every
    one of these nodes can be added. *)
Theorem random_ready_node_overflow :
  ti_nodes_random_ready_node 0 0 0 (ready_cluster 64) <> None /\
  ti_nodes_check_add [1] 9220 (ready_cluster 64) = AddOk /\
  ti_nodes_random_ready_node 0 0 0 (ready_cluster 65) = None.
Proof. split_and!; vm_compute; done. Qed.
