(* ===== verification/Quorum.v ===== *)
(** * ti/quorum: collecting the answers of the other nodes

    [src/src/ti/quorum.c] and the inline functions of [src/inc/ti/quorum.h].
    A quorum counts the answers to one request sent to every other node (a
    change id, or going away), calls its callback once a decision is known and
    frees itself after the last answer. The callback is observed as the list of
    booleans it is called with; a freed quorum is [None]. *)
From Stdlib Require Import ZArith Lia.
From stdpp Require Import base list option numbers sets.
From S2P Require Import Prelude Nodes.

Record ti_quorum := Quorum {
  diff_requests : Z;        (* int8_t *)
  accepted : Z;             (* uint8_t *)
  rejected : Z;             (* uint8_t *)
  collisions : Z;           (* uint8_t *)
  requests : Z;             (* uint8_t *)
  q_quorum : Z;             (* uint8_t *)
  win_collision : bool;     (* uint8_t used as a boolean *)
  accept_threshold : Z;     (* uint8_t *)
  cb_ : bool                (* the callback is still to be called *)
}.

(** ** Operations *)

Definition ti_quorum_shrink_one (q : ti_quorum) : Z * ti_quorum :=
  let set r := Quorum (diff_requests q) (accepted q) (rejected q) (collisions q) r
    (q_quorum q) (win_collision q) (requests q / 2) (cb_ q) in
  if negb (requests q =? 0) then
    let r := u8 (requests q - 1) in
    ((if q_quorum q <=? r then 0 else -1), set r)
  else (-1, set (requests q)).

Definition ti_quorum_new (vec : list ti_node) : ti_quorum :=
  snd (ti_quorum_shrink_one
    (Quorum 0 0 0 0 (u8 (len vec)) (ti_nodes_quorum vec) true 0 true)).

(** The value of the last callback, when no decision was taken before. *)
Definition quorum_final (q : ti_quorum) : bool :=
  if diff_requests q <? 0 then false
  else if (diff_requests q <? collisions q) && (accepted q =? rejected q)
  then win_collision q else rejected q <? accepted q.

Definition clear_cb (q : ti_quorum) : ti_quorum :=
  Quorum (diff_requests q) (accepted q) (rejected q) (collisions q) (requests q)
    (q_quorum q) (win_collision q) (accept_threshold q) false.

(** The early decisions of [ti_quorum_go]. *)
Definition quorum_early (q : ti_quorum) : option bool :=
  if requests q <? q_quorum q then Some false
  else if accepted q =? accept_threshold q then Some true
  else if accept_threshold q <? rejected q + Z.land (requests q) 1 then Some false
  else None.

Definition ti_quorum_go (q : ti_quorum) : list bool * option ti_quorum :=
  let n := u8 (accepted q + rejected q + collisions q) in
  let '(cs, q) :=
    if cb_ q then
      match quorum_early q with
      | Some b => ([b], clear_cb q)
      | None => ([], q)
      end
    else ([], q) in
  if n <? requests q then (cs, Some q)
  else (cs ++ (if cb_ q then [quorum_final q] else []), None).

(** An answer as [ti_quorum_req_cb] sees it. A collision carries the number of
    requests of the other node, when its payload is an unsigned integer, and
    the id of that node; every other answer, and every failed request, is
    [AnsError]. *)
Inductive answer :=
  | AnsAccept
  | AnsReject
  | AnsCollision (n : option Z) (from : Z)
  | AnsError.

(** The switch of [ti_quorum_req_cb]; [this] is the id of this node. *)
Definition quorum_count (this : Z) (a : answer) (q : ti_quorum) : ti_quorum :=
  match a with
  | AnsAccept => Quorum (diff_requests q) (u8 (accepted q + 1)) (rejected q) (collisions q)
      (requests q) (q_quorum q) (win_collision q) (accept_threshold q) (cb_ q)
  | AnsReject => Quorum (diff_requests q) (accepted q) (u8 (rejected q + 1)) (collisions q)
      (requests q) (q_quorum q) (win_collision q) (accept_threshold q) (cb_ q)
  | AnsCollision n from =>
      let '(d, w) :=
        match n with
        | Some n =>
            if negb (n =? requests q) then
              (if n <? requests q then i8 (diff_requests q + 1) else i8 (diff_requests q - 1),
               win_collision q)
            else (diff_requests q, if from <? this then false else win_collision q)
        | None => (diff_requests q, if from <? this then false else win_collision q)
        end in
      Quorum d (accepted q) (rejected q) (u8 (collisions q + 1))
        (requests q) (q_quorum q) w (accept_threshold q) (cb_ q)
  | AnsError => snd (ti_quorum_shrink_one q)
  end.

Definition ti_quorum_req_cb (this : Z) (a : answer) (q : ti_quorum) : list bool * option ti_quorum :=
  ti_quorum_go (quorum_count this a q).

(** ** A whole request

    [k] requests could not be sent, then [ti_quorum_go] is called, then the
    answers arrive one by one. An answer for a freed quorum is a use after
    free: [None]. *)

Fixpoint quorum_shrink (k : nat) (q : ti_quorum) : ti_quorum :=
  match k with
  | O => q
  | S k => quorum_shrink k (snd (ti_quorum_shrink_one q))
  end.

Fixpoint quorum_answers (this : Z) (o : option ti_quorum) (l : list answer)
    : option (list bool * option ti_quorum) :=
  match l with
  | [] => Some ([], o)
  | a :: l =>
      q ← o;
      let '(cs, o') := ti_quorum_req_cb this a q in
      '(cs', o'') ← quorum_answers this o' l;
      Some (cs ++ cs', o'')
  end.

Definition quorum_request (this : Z) (vec : list ti_node) (k : nat) (l : list answer)
    : option (list bool * option ti_quorum) :=
  let '(cs, o) := ti_quorum_go (quorum_shrink k (ti_quorum_new vec)) in
  '(cs', o') ← quorum_answers this o l;
  Some (cs ++ cs', o').

(** ** Counting answers *)

Definition is_accept (a : answer) : bool := match a with AnsAccept => true | _ => false end.
Definition is_reject (a : answer) : bool := match a with AnsReject => true | _ => false end.
Definition is_collision (a : answer) : bool := match a with AnsCollision _ _ => true | _ => false end.
Definition is_error (a : answer) : bool := match a with AnsError => true | _ => false end.

Definition count (p : answer -> bool) (l : list answer) : Z := len (List.filter p l).

Lemma count_cons p a l : count p (a :: l) = b2z (p a) + count p l.
Proof. unfold count, len. simpl. destruct (p a); simpl; lia. Qed.

Lemma count_nonneg p l : 0 <= count p l.
Proof. apply len_nonneg. Qed.

Lemma count_Permutation p l l' : l ≡ₚ l' -> count p l = count p l'.
Proof.
  induction 1 as [|a l l' _ IH|a b l|l l' l'' _ IH _ IH']; rewrite ?count_cons; lia.
Qed.

Lemma count_total l :
  len l = count is_accept l + count is_reject l + count is_collision l + count is_error l.
Proof.
  induction l as [|a l IH]; [done|].
  rewrite !count_cons. unfold len in *. destruct a; simpl; lia.
Qed.

(** ** Invariant: [m] answers are still expected *)

Definition q_inv (m : Z) (q : ti_quorum) : Prop :=
  0 <= accepted q /\ 0 <= rejected q /\ 0 <= collisions q /\ 0 <= m /\
  accepted q + rejected q + collisions q + m = requests q /\ requests q < 128 /\
  accept_threshold q = (requests q + 1) / 2.

Lemma q_inv_shrink m q :
  0 < m -> q_inv m q -> q_inv (m - 1) (snd (ti_quorum_shrink_one q)) /\
  cb_ (snd (ti_quorum_shrink_one q)) = cb_ q.
Proof.
  unfold q_inv, ti_quorum_shrink_one. intros ? (? & ? & ? & ? & ? & ? & ?).
  destruct (Z.eqb_spec (requests q) 0); [lia|]. simpl. rewrite u8_small by lia.
  split; [|done]. split_and!; try lia. f_equal. lia.
Qed.

Lemma q_inv_new vec :
  0 < len vec <= NODES__MAX -> q_inv (len vec - 1) (ti_quorum_new vec) /\
  requests (ti_quorum_new vec) = len vec - 1 /\ cb_ (ti_quorum_new vec) = true.
Proof.
  unfold NODES__MAX. intros ?. unfold q_inv, ti_quorum_new, ti_quorum_shrink_one. simpl.
  rewrite (u8_small (len vec)) by lia.
  destruct (Z.eqb_spec (len vec) 0); [lia|]. simpl. rewrite u8_small by lia.
  split_and!; try lia; try done. f_equal. lia.
Qed.

Lemma q_inv_shrinks k : forall m q,
  Z.of_nat k <= m -> q_inv m q ->
  q_inv (m - Z.of_nat k) (quorum_shrink k q) /\ cb_ (quorum_shrink k q) = cb_ q.
Proof.
  induction k as [|k IH]; intros m q Hk Hq; simpl quorum_shrink.
  - by rewrite Z.sub_0_r.
  - destruct (q_inv_shrink m q) as [Hq' <-]; [lia|done|].
    destruct (IH (m - 1) (snd (ti_quorum_shrink_one q))) as [H1 H2]; [lia|done|].
    split; [|done]. by replace (m - Z.of_nat (S k)) with (m - 1 - Z.of_nat k) by lia.
Qed.

Lemma q_inv_count this a m q :
  0 < m -> q_inv m q -> q_inv (m - 1) (quorum_count this a q) /\
  cb_ (quorum_count this a q) = cb_ q.
Proof.
  intros Hm Hq. destruct a as [| |n from|]; simpl; [| | |by apply q_inv_shrink].
  all: destruct Hq as (? & ? & ? & ? & ? & ? & ?); unfold q_inv; simpl.
  - rewrite u8_small by lia. split_and!; try done; lia.
  - rewrite u8_small by lia. split_and!; try done; lia.
  - rewrite u8_small by lia.
    destruct n as [n|]; [destruct (negb (n =? requests q))|]; simpl; split_and!; try done; lia.
Qed.

(** [ti_quorum_go] frees the quorum exactly when nothing is expected any more,
    and calls the callback at most once, and at the latest then. *)
Lemma q_go m q :
  q_inv m q ->
  if m =? 0
  then exists cs, ti_quorum_go q = (cs, None) /\ length cs = (if cb_ q then 1 else 0)%nat
  else exists cs q', ti_quorum_go q = (cs, Some q') /\ q_inv m q' /\
    (length cs + (if cb_ q' then 1 else 0) = (if cb_ q then 1 else 0))%nat.
Proof.
  intros Hq. pose proof Hq as (? & ? & ? & ? & ? & ? & ?). unfold ti_quorum_go.
  rewrite u8_small by lia.
  destruct (cb_ q) eqn:Ecb; [destruct (quorum_early q) as [b|]|]; simpl; rewrite ?Ecb;
    (destruct (Z.eqb_spec m 0);
      [rewrite (proj2 (Z.ltb_ge _ _)) by (simpl; lia)
      |rewrite (proj2 (Z.ltb_lt _ _)) by (simpl; lia)]); eauto 10.
  - eexists _, _. split; [done|]. rewrite Ecb. auto.
  - eexists _, _. split; [done|]. rewrite Ecb. auto.
Qed.

Lemma q_answers this l : forall m q,
  0 < m -> len l <= m -> q_inv m q ->
  exists cs o, quorum_answers this (Some q) l = Some (cs, o) /\
    match o with
    | None => len l = m /\ length cs = (if cb_ q then 1 else 0)%nat
    | Some q' => len l < m /\ q_inv (m - len l) q' /\
        (length cs + (if cb_ q' then 1 else 0) = (if cb_ q then 1 else 0))%nat
    end.
Proof.
  induction l as [|a l IH]; intros m q Hm Hl Hq; simpl.
  - eexists [], _. split; [done|]. unfold len. simpl. rewrite Z.sub_0_r. split_and!; done.
  - assert (Hlen : len (a :: l) = len l + 1) by (unfold len; simpl; lia). rewrite Hlen in *.
    destruct (q_inv_count this a m q) as [Hq' Hcb]; [done|done|].
    unfold ti_quorum_req_cb. pose proof (q_go _ _ Hq') as Hgo.
    destruct (Z.eqb_spec (m - 1) 0).
    + destruct Hgo as (cs & -> & Hcs). pose proof (len_nonneg l).
      destruct l; [|unfold len in *; simpl in *; lia]. simpl.
      eexists _, _. split; [done|]. rewrite app_nil_r, Hcs, Hcb. split; [unfold len in *; simpl in *; lia|done].
    + destruct Hgo as (cs & q' & -> & Hinv & Hcs).
      destruct (IH (m - 1) q') as (cs' & o & -> & Ho); [lia|lia|done|]. simpl.
      eexists _, _. split; [done|]. rewrite length_app. rewrite Hcb in Hcs.
      destruct o as [q''|].
      * destruct Ho as (? & Hi & ?). split_and!; [lia| |lia].
        by replace (m - (len l + 1)) with (m - 1 - len l) by lia.
      * destruct Ho. split; lia.
Qed.

(** ** The decision without failures

    With all requests sent and answered, only the counts matter. *)

Definition q_pending (q : ti_quorum) : Prop :=
  accepted q < accept_threshold q /\ rejected q <= requests q - accept_threshold q.

(** What a complete tally means. *)
Definition quorum_decision (q : ti_quorum) : bool :=
  (accept_threshold q <=? accepted q) || quorum_final q.

Lemma land_1 x : Z.land x 1 = x mod 2.
Proof. change 1 with (Z.ones 1). by rewrite Z.land_ones. Qed.

Lemma half_even_odd r : 0 <= r -> r mod 2 + 2 * (r / 2) = r /\ (r + 1) / 2 = r / 2 + r mod 2 /\ 0 <= r mod 2 <= 1.
Proof.
  intros. pose proof (Z.div_mod r 2 ltac:(lia)). pose proof (Z.mod_pos_bound r 2 ltac:(lia)).
  split_and!; try lia. symmetry. apply (Z.div_unique _ _ _ (1 - r mod 2)); lia.
Qed.

(** An early decision is the decision of every complete tally it can become:
    the counts only grow. *)
Lemma quorum_early_decision q q' b m :
  q_inv m q -> q_inv 0 q' -> q_quorum q <= requests q ->
  requests q' = requests q ->
  accepted q <= accepted q' -> rejected q <= rejected q' ->
  (accepted q < accept_threshold q \/ accepted q = accept_threshold q) ->
  quorum_early q = Some b -> quorum_decision q' = b.
Proof.
  intros (? & ? & ? & ? & ? & ? & Ht) (? & ? & ? & ? & ? & ? & Ht') Hq Hr Ha Hrej Hle.
  unfold quorum_early, quorum_decision, quorum_final. rewrite land_1.
  destruct (half_even_odd (requests q)) as (E1 & E2 & E3); [lia|].
  rewrite Ht', Hr, <-Ht.
  destruct (Z.ltb_spec (requests q) (q_quorum q)); [lia|].
  destruct (Z.eqb_spec (accepted q) (accept_threshold q)) as [Eq|].
  - intros [= <-]. destruct (Z.leb_spec (accept_threshold q) (accepted q')); [done|lia].
  - destruct (Z.ltb_spec (accept_threshold q) (rejected q + requests q mod 2)); [|done].
    intros [= <-]. destruct (Z.leb_spec (accept_threshold q) (accepted q')); [lia|]. simpl.
    destruct (Z.eqb_spec (accepted q') (rejected q')); [lia|]. rewrite andb_false_r.
    destruct (diff_requests q' <? 0); [done|]. apply Z.ltb_ge. lia.
Qed.

Definition quorum_tally (this : Z) (l : list answer) (q : ti_quorum) : ti_quorum :=
  fold_left (fun q a => quorum_count this a q) l q.

Lemma tally_counts this l : forall q,
  count is_error l = 0 -> q_inv (len l) q ->
  let q' := quorum_tally this l q in
  q_inv 0 q' /\ accepted q' = accepted q + count is_accept l /\
  rejected q' = rejected q + count is_reject l /\
  collisions q' = collisions q + count is_collision l /\
  requests q' = requests q /\ q_quorum q' = q_quorum q /\
  accept_threshold q' = accept_threshold q.
Proof.
  induction l as [|a l IH]; intros q He Hq.
  - simpl. unfold count, len in *. simpl in *. split_and!; try done; lia.
  - rewrite count_cons in He. pose proof (count_nonneg is_error l).
    assert (is_error a = false) by (destruct (is_error a); simpl in *; [lia|done]).
    assert (Hlen : len (a :: l) = len l + 1) by (unfold len; simpl; lia).
    pose proof (len_nonneg l).
    destruct (q_inv_count this a (len (a :: l)) q) as [Hq' _]; [lia|done|].
    rewrite Hlen in *. replace (len l + 1 - 1) with (len l) in Hq' by lia.
    destruct (IH (quorum_count this a q)) as (? & E1 & E2 & E3 & E4 & E5 & E6);
      [destruct (is_error a); simpl in *; lia|done|].
    simpl quorum_tally. unfold quorum_tally in *. rewrite !count_cons, E1, E2, E3, E4, E5, E6.
    split; [done|]. clear IH E1 E2 E3 E4 E5 E6. destruct Hq as (? & ? & ? & ? & ? & ? & ?).
    destruct a as [| |n from|]; simpl in *; [| | |done];
      try (destruct n as [n|]; [destruct (negb (n =? requests q))|]; simpl);
      rewrite ?u8_small by lia; split_and!; try done; lia.
Qed.

Lemma q_go_pending m q b :
  q_inv m q -> cb_ q = true -> quorum_early q = Some b ->
  ti_quorum_go q = ([b], if m =? 0 then None else Some (clear_cb q)).
Proof.
  intros (? & ? & ? & ? & ? & ? & ?) Hcb He. unfold ti_quorum_go. rewrite Hcb, He.
  rewrite u8_small by lia. simpl. destruct (Z.eqb_spec m 0);
    [rewrite (proj2 (Z.ltb_ge _ _)) by lia|rewrite (proj2 (Z.ltb_lt _ _)) by lia]; done.
Qed.

Lemma q_go_none m q :
  q_inv m q -> cb_ q = true -> quorum_early q = None ->
  ti_quorum_go q = (if m =? 0 then ([quorum_final q], None) else ([], Some q)).
Proof.
  intros (? & ? & ? & ? & ? & ? & ?) Hcb He. unfold ti_quorum_go. rewrite Hcb, He.
  rewrite u8_small by lia. simpl. rewrite Hcb. destruct (Z.eqb_spec m 0);
    [rewrite (proj2 (Z.ltb_ge _ _)) by lia|rewrite (proj2 (Z.ltb_lt _ _)) by lia]; done.
Qed.

Lemma quorum_early_None q :
  accepted q <= accept_threshold q -> quorum_early q = None -> accepted q < accept_threshold q.
Proof. unfold quorum_early. zbool; try done; lia. Qed.

Lemma quorum_count_bounds this a m q :
  is_error a = false -> 0 < m -> q_inv m q ->
  requests (quorum_count this a q) = requests q /\
  q_quorum (quorum_count this a q) = q_quorum q /\
  accept_threshold (quorum_count this a q) = accept_threshold q /\
  accepted (quorum_count this a q) <= accepted q + 1.
Proof.
  intros He Hm (? & ? & ? & ? & ? & ? & ?). destruct a as [| |n from|]; simpl in *; [| | |done];
    try (destruct n as [n|]; [destruct (negb (n =? requests q))|]; simpl);
    rewrite ?u8_small by lia; split_and!; try done; lia.
Qed.

(** One call of [ti_quorum_go] followed by the remaining answers. *)
Lemma q_go_answers this l : forall q,
  count is_error l = 0 -> q_inv (len l) q -> q_quorum q <= requests q -> cb_ q = true ->
  accepted q <= accept_threshold q ->
  (let '(cs, o) := ti_quorum_go q in
   '(cs', o') ← quorum_answers this o l; Some (cs ++ cs', o')) =
  Some ([quorum_decision (quorum_tally this l q)], None).
Proof.
  induction l as [|a l IH]; intros q He Hq Hqr Hcb Hth.
  - change (len (@nil answer)) with 0 in Hq. simpl.
    destruct (quorum_early q) as [b|] eqn:E.
    + rewrite (q_go_pending 0 q b) by done. simpl. unfold quorum_tally. simpl. do 3 f_equal.
      symmetry. apply (quorum_early_decision q q b 0); try done; lia.
    + rewrite (q_go_none 0 q) by done. simpl. unfold quorum_decision.
      apply quorum_early_None in E; [|done].
      by rewrite (proj2 (Z.leb_gt _ _)) by lia.
  - pose proof (len_nonneg l).
    assert (Hlen : len (a :: l) = len l + 1) by (unfold len; simpl; lia).
    destruct (quorum_early q) as [b|] eqn:E.
    + rewrite (q_go_pending _ _ _ Hq Hcb E). rewrite (proj2 (Z.eqb_neq _ _)) by lia.
      destruct (q_answers this (a :: l) (len (a :: l)) (clear_cb q)) as (cs & o & -> & Ho);
        [lia|lia|by destruct Hq as (? & ? & ? & ? & ? & ? & ?)|].
      destruct o; [destruct Ho; lia|]. simpl cb_ in Ho. destruct Ho as [_ ->%nil_length_inv].
      cbn [mbind option_bind app]. do 3 f_equal. symmetry.
      destruct (tally_counts this (a :: l) q He Hq) as (? & Ea & Er & _ & Eq & _).
      pose proof (count_nonneg is_accept (a :: l)). pose proof (count_nonneg is_reject (a :: l)).
      apply (quorum_early_decision q _ b _ Hq); try done; lia.
    + rewrite (q_go_none _ _ Hq Hcb E). rewrite (proj2 (Z.eqb_neq _ _)) by lia.
      apply quorum_early_None in E; [|done].
      destruct (q_inv_count this a (len (a :: l)) q) as [Hq' Hcb']; [lia|done|].
      rewrite Hlen in Hq'. replace (len l + 1 - 1) with (len l) in Hq' by lia.
      rewrite count_cons in He. pose proof (count_nonneg is_error l).
      assert (Ha : is_error a = false) by (destruct (is_error a); simpl in *; [lia|done]).
      destruct (quorum_count_bounds this a (len (a :: l)) q Ha) as (E1 & E2 & E3 & E4); [lia|done|].
      cbn [quorum_answers mbind option_bind]. unfold ti_quorum_req_cb.
      change (quorum_tally this (a :: l) q) with (quorum_tally this l (quorum_count this a q)).
      rewrite <-(IH (quorum_count this a q)); [| |done|lia|congruence|lia].
      * destruct (ti_quorum_go (quorum_count this a q)) as [cs o].
        cbn [mbind option_bind]. by destruct (quorum_answers this o l) as [[cs' o']|].
      * rewrite Ha in He. simpl in He. lia.
Qed.

(** A request that was sent to, and answered by, all other nodes. *)
Lemma quorum_request_complete this vec l :
  0 < len vec <= NODES__MAX -> len l = len vec - 1 -> count is_error l = 0 ->
  quorum_request this vec 0 l =
    Some ([quorum_decision (quorum_tally this l (ti_quorum_new vec))], None).
Proof.
  intros Hv Hl He. destruct (q_inv_new vec Hv) as (Hq & Hr & Hcb). unfold quorum_request.
  simpl quorum_shrink. apply q_go_answers; [done|by rewrite Hl| |done|].
  - rewrite Hr. unfold ti_quorum_new, ti_quorum_shrink_one.
    assert (Hqq : ti_nodes_quorum vec <= len vec - 1).
    { destruct (ti_nodes_quorum_bounds vec ltac:(lia)) as [_ ?].
      pose proof (Z.div_mod (len vec) 2 ltac:(lia)). pose proof (Z.mod_pos_bound (len vec) 2 ltac:(lia)).
      lia. }
    by destruct (negb _).
  - destruct Hq as (? & ? & ? & ? & ? & ? & ->).
    pose proof (Z.div_pos (requests (ti_quorum_new vec) + 1) 2 ltac:(lia) ltac:(lia)).
    assert (accepted (ti_quorum_new vec) = 0) as ->; [|done].
    unfold ti_quorum_new, ti_quorum_shrink_one. by destruct (negb _).
Qed.

Lemma i8_add x y : i8 (i8 x + y) = i8 (x + y).
Proof.
  unfold i8. f_equal. replace ((x + 128) mod 256 - 128 + y + 128) with ((x + 128) mod 256 + y) by lia.
  rewrite Zplus_mod_idemp_l. f_equal. lia.
Qed.

Lemma quorum_count_comm this a b q :
  is_error a = false -> is_error b = false ->
  quorum_count this a (quorum_count this b q) = quorum_count this b (quorum_count this a q).
Proof.
  destruct a as [| |n f|], b as [| |n' f'|]; simpl; try done; intros _ _;
    repeat match goal with
    | |- context [ match ?o with Some _ => _ | None => _ end ] => is_var o; destruct o
    | |- context [ if negb ?b then _ else _ ] => destruct b eqn:?; simpl in *
    end; try done;
    repeat match goal with |- context [ if ?b then _ else _ ] => destruct b eqn:?; simpl in * end;
    try done; try congruence;
    rewrite ?Z.add_opp_r, ?i8_add; try done; unfold Z.sub; rewrite ?i8_add; do 2 f_equal; lia.
Qed.

Lemma tally_Permutation this l l' :
  l ≡ₚ l' -> forall q, count is_error l = 0 -> quorum_tally this l q = quorum_tally this l' q.
Proof.
  unfold quorum_tally.
  induction 1 as [|a l l' _ IH|a b l|l l' l'' H1 IH H2 IH']; intros q He; simpl; try done.
  - apply IH. rewrite count_cons in He. pose proof (count_nonneg is_error l).
    destruct (is_error a); simpl in *; lia.
  - rewrite !count_cons in He. pose proof (count_nonneg is_error l).
    destruct (is_error a) eqn:?, (is_error b) eqn:?; simpl in He; try lia.
    by rewrite quorum_count_comm.
  - rewrite IH by done. apply IH'. by rewrite <-(count_Permutation _ _ _ H1).
Qed.

(** Two requesters of one id, [r] and [s]: [fr] and [fs] are the answers of the
    nodes [vs] to them. *)
Lemma count_map_le {V : Type} (fr fs : V -> answer) (vs : list V) :
  (forall v, v ∈ vs -> fr v = AnsAccept -> fs v = AnsReject) ->
  count is_accept (fr <$> vs) <= count is_reject (fs <$> vs).
Proof.
  induction vs as [|v vs IH]; intros H; [done|].
  rewrite !fmap_cons, !count_cons. specialize (IH (fun v' Hv => H v' (list_elem_of_further _ _ _ Hv))).
  specialize (H v (list_elem_of_here _ _)). destruct (fr v); simpl; try (destruct (is_reject (fs v)); simpl; lia).
  rewrite H by done. simpl. lia.
Qed.

Lemma tally_win_false this l q :
  win_collision q = false -> win_collision (quorum_tally this l q) = false.
Proof.
  unfold quorum_tally. revert q. induction l as [|a l IH]; intros q Hw; simpl; [done|].
  apply IH. destruct a as [| |n from|]; simpl; try done.
  - destruct n as [n|]; [destruct (negb (n =? requests q))|]; simpl; try done; by destruct (from <? this).
  - unfold ti_quorum_shrink_one. by destruct (negb _).
Qed.

Lemma count_error_0 l : AnsError ∉ l -> count is_error l = 0.
Proof.
  induction l as [|a l IH]; [done|]. intros He. rewrite count_cons, IH by set_solver.
  destruct a; simpl; try lia. set_solver.
Qed.

(** Only collisions change the difference and the tie-breaker. *)
Lemma tally_no_collision this l : forall q,
  count is_collision l = 0 ->
  diff_requests (quorum_tally this l q) = diff_requests q /\
  win_collision (quorum_tally this l q) = win_collision q.
Proof.
  unfold quorum_tally. induction l as [|a l IH]; intros q; [done|]. rewrite count_cons.
  pose proof (count_nonneg is_collision l). intros Hc. cbn [fold_left].
  destruct (IH (quorum_count this a q)) as [-> ->]; [destruct (is_collision a); simpl in *; lia|].
  destruct a as [| |n from|]; simpl in *; [done|done|lia|].
  unfold ti_quorum_shrink_one. by destruct (negb _).
Qed.

Lemma quorum_new_zero vec :
  let q := ti_quorum_new vec in
  accepted q = 0 /\ rejected q = 0 /\ collisions q = 0 /\ diff_requests q = 0 /\
  win_collision q = true.
Proof. unfold ti_quorum_new, ti_quorum_shrink_one. by destruct (negb _). Qed.

(** The decision on the complete tally of [a0 :: l], in the counts. *)
Lemma decision_counts this vec a0 l :
  0 < len vec <= NODES__MAX -> len (a0 :: l) = len vec - 1 -> count is_error (a0 :: l) = 0 ->
  let q := quorum_tally this (a0 :: l) (ti_quorum_new vec) in
  let a := count is_accept (a0 :: l) in
  let r := count is_reject (a0 :: l) in
  quorum_decision q = true ->
  len vec / 2 <= a \/ r < a \/
  (a = r /\ (forall from, a0 = AnsCollision (Some (len vec - 1)) from -> this <= from)).
Proof.
  intros Hv Hl He q a r. destruct (q_inv_new vec Hv) as (Hq & Hr & _).
  destruct (tally_counts this (a0 :: l) (ti_quorum_new vec) He ltac:(by rewrite Hl))
    as (_ & Ea & Er & _ & _ & _ & Et). fold q a r in Ea, Er, Et.
  destruct (quorum_new_zero vec) as (Hz1 & Hz2 & _), Hq as (_ & _ & _ & _ & _ & _ & Hth).
  rewrite Hth, Hr, Z.sub_add in Et. rewrite Hz1 in Ea. rewrite Hz2 in Er.
  unfold quorum_decision, quorum_final. rewrite Ea, Er, Et, !Z.add_0_l.
  destruct (Z.leb_spec (len vec / 2) a); [by left|]. simpl.
  destruct (diff_requests q <? 0); [done|].
  destruct (Z.eqb_spec a r) as [E|]; [|rewrite andb_false_r; intros ?%Z.ltb_lt; auto].
  rewrite andb_true_r. destruct (diff_requests q <? collisions q).
  - intros Hw. right. right. split; [done|]. intros from ->.
    destruct (Z.leb_spec this from); [done|]. exfalso.
    unfold q in Hw. change (quorum_tally this (?a :: l) ?q) with (quorum_tally this l (quorum_count this a q)) in Hw.
    rewrite tally_win_false in Hw; [done|]. simpl. rewrite Hr, Z.eqb_refl. simpl.
    by rewrite (proj2 (Z.ltb_lt from this)) by lia.
  - intros ?%Z.ltb_lt. lia.
Qed.

(** One collision, between nodes that sent the same number of requests. *)
Lemma decision_one_collision this other vec l :
  0 < len vec <= NODES__MAX -> len l + 2 = len vec ->
  count is_error l = 0 -> count is_collision l = 0 ->
  quorum_decision (quorum_tally this (AnsCollision (Some (len vec - 1)) other :: l) (ti_quorum_new vec)) =
  if count is_accept l =? count is_reject l then this <=? other
  else count is_reject l <? count is_accept l.
Proof.
  intros Hv Hl He Hc. set (a0 := AnsCollision (Some (len vec - 1)) other).
  destruct (q_inv_new vec Hv) as (Hq & Hr & _).
  destruct (tally_counts this (a0 :: l) (ti_quorum_new vec)) as (_ & Ea & Er & Ec & _ & _ & Et);
    [by rewrite count_cons|unfold len in *; simpl in *; by replace (Z.of_nat (S (length l))) with (Z.of_nat (length vec) - 1) by lia|].
  rewrite count_cons in Ea, Er, Ec. cbn [is_accept is_reject is_collision b2z a0] in Ea, Er, Ec.
  destruct (quorum_new_zero vec) as (Hz1 & Hz2 & Hz3 & Hz4 & Hz5), Hq as (_ & _ & _ & _ & _ & _ & Hth).
  destruct (tally_no_collision this l (quorum_count this a0 (ti_quorum_new vec)) Hc) as [Hd Hw].
  change (quorum_tally this l (quorum_count this a0 (ti_quorum_new vec)))
    with (quorum_tally this (a0 :: l) (ti_quorum_new vec)) in Hd, Hw.
  assert (Hc0 : diff_requests (quorum_count this a0 (ti_quorum_new vec)) = 0 /\
    win_collision (quorum_count this a0 (ti_quorum_new vec)) = negb (other <? this)).
  { simpl. rewrite Hr, Z.eqb_refl, Hz4, Hz5. by destruct (other <? this). }
  destruct Hc0 as [Hc1 Hc2]. rewrite Hc1 in Hd. rewrite Hc2 in Hw.
  unfold quorum_decision, quorum_final.
  rewrite Hd, Hw, Ea, Er, Ec, Et, Hz1, Hz2, Hz3, Hc, Hth, Hr, Z.sub_add.
  rewrite !Z.add_0_l. simpl. pose proof (count_total l). pose proof (Z.div_mod (len vec) 2 ltac:(lia)).
  pose proof (Z.mod_pos_bound (len vec) 2 ltac:(lia)).
  destruct (Z.leb_spec (len vec / 2) (count is_accept l)), (Z.eqb_spec (count is_accept l) (count is_reject l));
    simpl; lia.
Qed.

(** The requests of [r] and [s] for one id: [ar] is the answer of [s] to [r],
    [br] the answer of [r] to [s]. *)
Lemma no_two_winners {V : Type} (vec : list ti_node) (r s : Z) (vs : list V) (ar br : answer)
    (fr fs : V -> answer) (lr ls : list answer) :
  0 < len vec <= NODES__MAX -> len vec = len vs + 2 -> r <> s ->
  lr ≡ₚ ar :: (fr <$> vs) -> ls ≡ₚ br :: (fs <$> vs) ->
  AnsError ∉ lr -> AnsError ∉ ls ->
  (ar = AnsReject \/ ar = AnsCollision (Some (len vec - 1)) s) ->
  (br = AnsReject \/ br = AnsCollision (Some (len vec - 1)) r) ->
  (forall v, v ∈ vs -> fr v = AnsAccept -> fs v = AnsReject) ->
  (forall v, v ∈ vs -> fs v = AnsAccept -> fr v = AnsReject) ->
  quorum_request r vec 0 lr = Some ([true], None) ->
  quorum_request s vec 0 ls = Some ([true], None) -> False.
Proof.
  intros Hv Hn Hrs Pr Ps Er Es Hr Hs Hfr Hfs.
  apply count_error_0 in Er as Cr. apply count_error_0 in Es as Cs. clear Er Es.
  assert (Hlr : len lr = len vec - 1) by (rewrite Hn; unfold len; rewrite Pr; simpl; rewrite length_fmap; lia).
  assert (Hls : len ls = len vec - 1) by (rewrite Hn; unfold len; rewrite Ps; simpl; rewrite length_fmap; lia).
  rewrite !quorum_request_complete by done.
  rewrite (tally_Permutation _ _ _ Pr), (tally_Permutation _ _ _ Ps) by done.
  rewrite (count_Permutation _ _ _ Pr) in Cr. rewrite (count_Permutation _ _ _ Ps) in Cs.
  unfold len in Hlr, Hls. rewrite Pr in Hlr. rewrite Ps in Hls.
  intros [= Dr] [= Ds].
  apply decision_counts in Dr; [|done|done|done]. apply decision_counts in Ds; [|done|done|done].
  pose proof (count_map_le fr fs vs Hfr). pose proof (count_map_le fs fr vs Hfs).
  pose proof (count_total (fr <$> vs)) as Tr. pose proof (count_total (fs <$> vs)) as Ts.
  unfold len in Tr, Ts. rewrite length_fmap in Tr, Ts. fold (len vs) in Tr, Ts.
  pose proof (count_nonneg is_collision (fr <$> vs)). pose proof (count_nonneg is_collision (fs <$> vs)).
  pose proof (count_nonneg is_error (fr <$> vs)). pose proof (count_nonneg is_error (fs <$> vs)).
  pose proof (Z.div_mod (len vec) 2 ltac:(lia)). pose proof (Z.mod_pos_bound (len vec) 2 ltac:(lia)).
  rewrite !count_cons in Dr, Ds.
  destruct Hr as [Hr|Hr], Hs as [Hs|Hs]; rewrite Hr in Dr; rewrite Hs in Ds; simpl in Dr, Ds;
    try lia.
  destruct Dr as [?|[?|[? Dr]]], Ds as [?|[?|[? Ds]]]; try lia.
  specialize (Dr s eq_refl). specialize (Ds r eq_refl). lia.
Qed.

(** ** Properties *)

(** C5. Whatever the answers, and however many of the requests could not be
    sent: the callback is called exactly once, the quorum is freed exactly when
    the last answer arrives, and no answer meets a freed quorum. *)
Theorem quorum_called_once (this : Z) (vec : list ti_node) (k : nat) (l : list answer) :
  0 < len vec <= NODES__MAX ->
  Z.of_nat k + len l = len vec - 1 ->
  (exists b, quorum_request this vec k l = Some ([b], None)) /\
  (forall j, (j < length l)%nat ->
     exists cs q, quorum_request this vec k (take j l) = Some (cs, Some q) /\ (length cs <= 1)%nat).
Proof.
  intros Hv Hk. destruct (q_inv_new vec Hv) as (Hq & _ & Hcb). pose proof (len_nonneg l).
  destruct (q_inv_shrinks k (len vec - 1) _ ltac:(lia) Hq) as [Hq' Hcb'].
  replace (len vec - 1 - Z.of_nat k) with (len l) in Hq' by lia.
  unfold quorum_request. rewrite Hcb in Hcb'. pose proof (q_go _ _ Hq') as Hgo. rewrite Hcb' in Hgo.
  destruct (Z.eqb_spec (len l) 0).
  - destruct Hgo as (cs & -> & Hcs). destruct l; [|unfold len in *; simpl in *; lia].
    split; [|simpl; lia]. destruct cs as [|b [|]]; try done. by exists b.
  - destruct Hgo as (cs & q & -> & Hinv & Hcs). split.
    + destruct (q_answers this l (len l) q) as (cs' & o & -> & Ho); [lia|lia|done|]. simpl.
      destruct o; [destruct Ho; lia|]. destruct Ho as [_ Ho].
      assert (Hl : length (cs ++ cs') = 1%nat) by (rewrite length_app; destruct (cb_ q); lia).
      destruct (cs ++ cs') as [|b [|]]; try done. by exists b.
    + intros j Hj. assert (len (take j l) < len l) by (unfold len in *; rewrite length_take; lia).
      destruct (q_answers this (take j l) (len l) q) as (cs' & o & -> & Ho); [lia|lia|done|]. simpl.
      destruct o as [q'|]; [|destruct Ho; lia]. destruct Ho as (_ & _ & ?).
      eexists _, _. split; [done|]. rewrite length_app. destruct (cb_ q), (cb_ q'); lia.
Qed.

(** Five nodes, one unreachable; an accept, a failure and a reject arrive. *)
Lemma quorum_called_once_witness :
  0 < len (ready_cluster 5) <= NODES__MAX /\
  exists b, quorum_request 0 (ready_cluster 5) 1 [AnsAccept; AnsError; AnsReject] = Some ([b], None).
Proof.
  split; [vm_compute; split; [reflexivity|discriminate]|].
  apply (quorum_called_once 0 (ready_cluster 5) 1 [AnsAccept; AnsError; AnsReject]);
    vm_compute; [split; [reflexivity|discriminate]|reflexivity].
Defined.

(** C7. When all other nodes answer, the order in which the answers arrive
    has no influence on the outcome; without collisions the id is accepted
    exactly when at least half of the other nodes accept it. *)
Theorem quorum_order_independent (this : Z) (vec : list ti_node) (l l' : list answer) :
  0 < len vec <= NODES__MAX ->
  len l = len vec - 1 -> AnsError ∉ l -> l ≡ₚ l' ->
  quorum_request this vec 0 l = quorum_request this vec 0 l' /\
  (count is_collision l = 0 ->
   quorum_request this vec 0 l = Some ([len vec - 1 <=? 2 * count is_accept l], None)).
Proof.
  intros Hv Hl He%count_error_0 HP.
  rewrite quorum_request_complete by done. split.
  - rewrite quorum_request_complete; [|done| |by rewrite <-(count_Permutation _ _ _ HP)].
    + by rewrite (tally_Permutation _ _ _ HP).
    + unfold len in *. by rewrite <-HP.
  - intros H0. destruct (q_inv_new vec Hv) as (Hq & Hr & _).
    destruct (tally_counts this l (ti_quorum_new vec) He ltac:(by rewrite Hl))
      as (_ & Ea & Er & Ec & _ & _ & Et).
    destruct (quorum_new_zero vec) as (Hz1 & Hz2 & Hz3 & Hz4 & _), Hq as (_ & _ & _ & _ & _ & _ & Hth).
    destruct (tally_no_collision this l (ti_quorum_new vec) H0) as [Hd _]. rewrite Hz4 in Hd.
    unfold quorum_decision, quorum_final. do 3 f_equal.
    rewrite Hd, Ea, Er, Ec, Et, Hz1, Hz2, Hz3, H0, Hth, Hr, Z.sub_add. simpl.
    pose proof (count_total l).
    destruct (half_even_odd (len vec - 1)) as (E1 & E2 & E3); [lia|].
    rewrite Z.sub_add in E2.
    destruct (Z.leb_spec (len vec / 2) (count is_accept l)),
      (Z.ltb_spec (count is_reject l) (count is_accept l)),
      (Z.leb_spec (len vec - 1) (2 * count is_accept l)); simpl; try done; lia.
Qed.

Lemma quorum_order_independent_witness :
  quorum_request 0 (ready_cluster 4) 0 [AnsAccept; AnsReject; AnsAccept] =
  quorum_request 0 (ready_cluster 4) 0 [AnsReject; AnsAccept; AnsAccept] /\
  quorum_request 0 (ready_cluster 4) 0 [AnsAccept; AnsReject; AnsAccept] = Some ([true], None).
Proof.
  destruct (quorum_order_independent 0 (ready_cluster 4) [AnsAccept; AnsReject; AnsAccept]
    [AnsReject; AnsAccept; AnsAccept]) as [H1 H2].
  - vm_compute; split; [reflexivity|discriminate].
  - reflexivity.
  - set_solver.
  - apply perm_swap.
  - split; [exact H1|]. rewrite H2; reflexivity.
Defined.

(** C4. At most one winner. Nodes [r] and [s] request the same id from all
    nodes and get all answers, in any order; [vs] are the other nodes. When a
    node that accepts one of the two rejects the other, and [r] and [s] answer
    each other with a reject or a collision, they never both win the id. *)
Theorem quorum_unique_winner (vec : list ti_node) (r s : Z) (vs : list Z)
    (fr fs : Z -> answer) (lr ls : list answer) :
  0 < len vec <= NODES__MAX -> len vec = len vs + 2 -> r <> s ->
  lr ≡ₚ fr s :: (fr <$> vs) -> ls ≡ₚ fs r :: (fs <$> vs) ->
  AnsError ∉ lr -> AnsError ∉ ls ->
  (fr s = AnsReject \/ fr s = AnsCollision (Some (len vec - 1)) s) ->
  (fs r = AnsReject \/ fs r = AnsCollision (Some (len vec - 1)) r) ->
  (forall v, v ∈ vs -> fr v = AnsAccept -> fs v = AnsReject) ->
  (forall v, v ∈ vs -> fs v = AnsAccept -> fr v = AnsReject) ->
  quorum_request r vec 0 lr = Some ([true], None) ->
  quorum_request s vec 0 ls = Some ([true], None) -> False.
Proof. apply no_two_winners. Qed.

(** Nodes 1 and 2 of four; node 3 accepts 1, node 4 accepts 2. *)
Lemma quorum_unique_winner_witness :
  quorum_request 1 (ready_cluster 4) 0 [AnsAccept; AnsReject; AnsCollision (Some 3) 2] = Some ([true], None) /\
  quorum_request 2 (ready_cluster 4) 0 [AnsReject; AnsAccept; AnsCollision (Some 3) 1] <> Some ([true], None).
Proof.
  split; [reflexivity|]. intros E2.
  apply (quorum_unique_winner (ready_cluster 4) 1 2 [3; 4]
    (fun v => if v =? 2 then AnsCollision (Some 3) 2 else if v =? 3 then AnsAccept else AnsReject)
    (fun v => if v =? 1 then AnsCollision (Some 3) 1 else if v =? 4 then AnsAccept else AnsReject)
    [AnsAccept; AnsReject; AnsCollision (Some 3) 2] [AnsReject; AnsAccept; AnsCollision (Some 3) 1]).
  - vm_compute; split; [reflexivity|discriminate].
  - reflexivity.
  - lia.
  - symmetry. apply (Permutation_cons_append [AnsAccept; AnsReject]).
  - symmetry. apply (Permutation_cons_append [AnsReject; AnsAccept]).
  - set_solver.
  - set_solver.
  - by right.
  - by right.
  - intros v [->|[->|[]%elem_of_nil]%elem_of_cons]%elem_of_cons; simpl; congruence.
  - intros v [->|[->|[]%elem_of_nil]%elem_of_cons]%elem_of_cons; simpl; congruence.
  - reflexivity.
  - exact E2.
Defined.

(** C6. A collision of two is always resolved. Nodes [r] and [s] request the
    same id, answer each other with a collision, and each of the other nodes
    accepts exactly one of them: exactly one of the two wins. *)
Theorem quorum_collision_resolved (vec : list ti_node) (r s : Z) (vs : list Z)
    (pick : Z -> bool) (lr ls : list answer) :
  0 < len vec <= NODES__MAX -> len vec = len vs + 2 -> r <> s ->
  lr ≡ₚ AnsCollision (Some (len vec - 1)) s ::
          ((fun v => if pick v then AnsAccept else AnsReject) <$> vs) ->
  ls ≡ₚ AnsCollision (Some (len vec - 1)) r ::
          ((fun v => if pick v then AnsReject else AnsAccept) <$> vs) ->
  exists b, quorum_request r vec 0 lr = Some ([b], None) /\
            quorum_request s vec 0 ls = Some ([negb b], None).
Proof.
  intros Hv Hn Hrs Pr Ps.
  assert (Hcnt : let fr v := if pick v then AnsAccept else AnsReject in
    let fs v := if pick v then AnsReject else AnsAccept in
    count is_error (fr <$> vs) = 0 /\ count is_error (fs <$> vs) = 0 /\
    count is_collision (fr <$> vs) = 0 /\ count is_collision (fs <$> vs) = 0 /\
    count is_accept (fr <$> vs) = count is_reject (fs <$> vs) /\
    count is_reject (fr <$> vs) = count is_accept (fs <$> vs)).
  { clear. intros fr fs. induction vs as [|v vs IH]; [done|]. rewrite !fmap_cons, !count_cons.
    unfold fr at 1 3 5 7, fs at 1 3 5 7. destruct (pick v);
      cbn [is_accept is_reject is_collision is_error b2z]; lia. }
  simpl in Hcnt. set (fr := (fun v => if pick v then AnsAccept else AnsReject) <$> vs) in *.
  set (fs := (fun v => if pick v then AnsReject else AnsAccept) <$> vs) in *.
  destruct Hcnt as (Hr1 & Hs1 & Hr2 & Hs2 & E1 & E2).
  assert (Hlf : len fr = len vs /\ len fs = len vs) by (unfold len, fr, fs; rewrite !length_fmap; done).
  destruct Hlf as [Hlr Hls]. pose proof (count_total fr) as Tr.
  pose proof (len_nonneg vs).
  assert (HlR : len lr = len vec - 1) by (unfold len in *; rewrite Pr; simpl; lia).
  assert (HlS : len ls = len vec - 1) by (unfold len in *; rewrite Ps; simpl; lia).
  assert (HeR : count is_error lr = 0) by by rewrite (count_Permutation _ _ _ Pr), count_cons.
  assert (HeS : count is_error ls = 0) by by rewrite (count_Permutation _ _ _ Ps), count_cons.
  rewrite !quorum_request_complete by done.
  rewrite (tally_Permutation _ _ _ Pr), (tally_Permutation _ _ _ Ps) by done.
  rewrite !decision_one_collision by (done || lia). eexists. split; [done|]. do 3 f_equal.
  rewrite <-E1, <-E2, (Z.eqb_sym (count is_reject fr)).
  destruct (Z.eqb_spec (count is_accept fr) (count is_reject fr)); zbool; simpl; done || lia.
Qed.

Lemma quorum_collision_resolved_witness :
  exists b,
    quorum_request 1 (ready_cluster 4) 0 [AnsCollision (Some 3) 2; AnsAccept; AnsReject] = Some ([b], None) /\
    quorum_request 2 (ready_cluster 4) 0 [AnsCollision (Some 3) 1; AnsReject; AnsAccept] = Some ([negb b], None).
Proof.
  apply (quorum_collision_resolved (ready_cluster 4) 1 2 [3; 4] (fun v => v =? 3)).
  - vm_compute; split; [reflexivity|discriminate].
  - reflexivity.
  - lia.
  - reflexivity.
  - reflexivity.
Defined.

(** With lost answers there can be two winners. Five ready nodes; node 1
    loses the answers of 2 and 5, is accepted by 3 and rejected by 4, and node
    2 loses the answers of 1 and 5, is accepted by 4 and rejected by 3: both win
    the same id, with one accept each, because the threshold shrinks with the
    failed requests. The hypothesis of the uniqueness theorem is needed. *)
Theorem quorum_two_winners_on_failure :
  quorum_request 1 (ready_cluster 5) 0 [AnsError; AnsError; AnsAccept; AnsReject] = Some ([true], None) /\
  quorum_request 2 (ready_cluster 5) 0 [AnsError; AnsError; AnsAccept; AnsReject] = Some ([true], None).
Proof. split; reflexivity. Qed.
