(* ===== verification/Olist.v ===== *)
(** * util/olist: the ordered list of 64-bit ids

    [src/src/util/olist.c], [src/inc/util/olist.h]. The chain of cells behind
    the head is the list of their ids; [ol_n] is the counter the head keeps. *)
From Stdlib Require Import ZArith Lia Sorted.
From stdpp Require Import base list option numbers sets.
From S2P Require Import Prelude.

Record olist := Olist { ol_next : list Z; ol_n : Z (* size_t n *) }.

Definition olist_create (ok : bool) : option olist :=
  if ok then Some (Olist [] 0) else None.

(** The walk of [olist_set] along the cells. The result is the return code,
    whether a cell was linked, and the chain. *)
Fixpoint olist__link (ok : bool) (id : Z) (l : list Z) : Z * bool * list Z :=
  match l with
  | [] => if ok then (0, true, [id]) else (-1, false, [])
  | x :: l' =>
      if x <? id then
        let '(rc, b, l') := olist__link ok id l' in (rc, b, x :: l')
      else if x =? id then (0, false, l)
      else if ok then (0, true, id :: l) else (-1, false, l)
  end.

Definition olist_set (ok : bool) (o : olist) (id : Z) : Z * olist :=
  let '(rc, linked, l) := olist__link ok id (ol_next o) in
  (rc, Olist l (if linked then u64 (ol_n o + 1) else ol_n o)).

Fixpoint olist__is_set (id : Z) (l : list Z) : bool :=
  match l with
  | [] => false
  | x :: l => if x <? id then olist__is_set id l else x =? id
  end.

Definition olist_is_set (o : olist) (id : Z) : bool := olist__is_set id (ol_next o).

Fixpoint olist__unlink (id : Z) (l : list Z) : bool * list Z :=
  match l with
  | [] => (false, [])
  | x :: l' =>
      if x <? id then let '(b, l') := olist__unlink id l' in (b, x :: l')
      else if x =? id then (true, l') else (false, l)
  end.

Definition olist_rm (o : olist) (id : Z) : olist :=
  let '(unlinked, l) := olist__unlink id (ol_next o) in
  Olist l (if unlinked then u64 (ol_n o - 1) else ol_n o).

(** ** Invariant and lemmas *)

Definition ol_wf (o : olist) : Prop :=
  StronglySorted Z.lt (ol_next o) /\ ol_n o = len (ol_next o) /\
  len (ol_next o) < 18446744073709551615.

Lemma sorted_cons_lt x l : StronglySorted Z.lt (x :: l) -> forall y, y ∈ l -> x < y.
Proof. intros [_ H]%StronglySorted_inv y Hy. by eapply Forall_forall in H. Qed.

Lemma olist__link_spec ok id l :
  StronglySorted Z.lt l ->
  let '(rc, b, l') := olist__link ok id l in
  StronglySorted Z.lt l' /\
  (forall y, y ∈ l' <-> y ∈ l \/ (rc = 0 /\ y = id)) /\
  (rc = 0 \/ (rc = -1 /\ ok = false /\ id ∉ l)) /\
  len l' = len l + b2z b /\ (b = true <-> rc = 0 /\ id ∉ l).
Proof.
  induction l as [|x l IH]; intros Hs; simpl.
  - destruct ok; unfold len; simpl.
    + split_and!; [repeat constructor| |auto|done|]. { set_solver. }
      split; [intros _; split; [done|by intros ?%elem_of_nil]|done].
    + split_and!; [constructor| |right; set_solver|done|]. { set_solver. }
      split; [done|]. by intros [? _].
  - pose proof (sorted_cons_lt x l Hs) as Hx. apply StronglySorted_inv in Hs as [Hs Hf].
    specialize (IH Hs). destruct (Z.ltb_spec x id).
    + destruct (olist__link ok id l) as [[rc b] l'] eqn:E. destruct IH as (S1 & S2 & S3 & S4 & S5).
      assert (x <> id) by lia.
      split_and!.
      * constructor; [done|]. apply Forall_forall. intros y [Hy|[_ ->]]%S2; [by apply Hx|done].
      * set_solver.
      * destruct S3 as [?|(? & ? & ?)]; [by left|right; set_solver].
      * unfold len in *. simpl. lia.
      * rewrite S5. set_solver.
    + destruct (Z.eqb_spec x id) as [->|Hne].
      * split_and!; [by constructor|set_solver|by left|unfold len; simpl; lia|]. set_solver.
      * assert (id < x) by lia.
        assert (Hni : id ∉ x :: l).
        { intros [?|Hin]%elem_of_cons; [lia|]. specialize (Hx _ Hin). lia. }
        destruct ok.
        { split_and!; [|set_solver|by left|unfold len; simpl; lia|done].
          constructor; [by constructor|]. constructor; [done|].
          apply Forall_forall. intros y Hy. specialize (Hx y Hy). lia. }
        { split_and!; [by constructor|set_solver|by right|unfold len; simpl; lia|].
          split; [done|]. by intros [? _]. }
Qed.

Lemma olist_set_spec ok o id rc o' :
  ol_wf o -> olist_set ok o id = (rc, o') -> len (ol_next o) + 1 < 18446744073709551615 ->
  ol_wf o' /\ (forall y, y ∈ ol_next o' <-> y ∈ ol_next o \/ (rc = 0 /\ y = id)) /\
  (rc = 0 \/ (rc = -1 /\ ok = false)) /\ len (ol_next o') <= len (ol_next o) + 1.
Proof.
  intros (Hs & Hn & Hl) E Hlim. unfold olist_set in E.
  pose proof (olist__link_spec ok id (ol_next o) Hs) as H.
  destruct (olist__link ok id (ol_next o)) as [[rc' b] l']. destruct H as (S1 & S2 & S3 & S4 & _).
  injection E as <- <-. unfold ol_wf. simpl. pose proof (len_nonneg (ol_next o)).
  destruct b; simpl in *; rewrite ?Hn; rewrite ?u64_small by lia;
    (split_and!; [done|lia|lia|done|intuition|lia]).
Qed.

Lemma olist__is_set_iff id l :
  StronglySorted Z.lt l -> olist__is_set id l = true <-> id ∈ l.
Proof.
  induction l as [|x l IH]; intros Hs; simpl; [set_solver|].
  pose proof (sorted_cons_lt x l Hs) as Hx. apply StronglySorted_inv in Hs as [Hs _].
  destruct (Z.ltb_spec x id).
  - rewrite IH by done. rewrite elem_of_cons. intuition lia.
  - rewrite Z.eqb_eq, elem_of_cons. split; [auto|]. intros [?|Hin]; [done|].
    specialize (Hx _ Hin). lia.
Qed.

Lemma olist__unlink_spec id l :
  StronglySorted Z.lt l ->
  let '(b, l') := olist__unlink id l in
  StronglySorted Z.lt l' /\ (forall y, y ∈ l' <-> y ∈ l /\ y <> id) /\
  len l = len l' + b2z b.
Proof.
  induction l as [|x l IH]; intros Hs; simpl; [split_and!; [done|set_solver|done]|].
  pose proof (sorted_cons_lt x l Hs) as Hx. apply StronglySorted_inv in Hs as [Hs Hf].
  specialize (IH Hs). destruct (Z.ltb_spec x id).
  - destruct (olist__unlink id l) as [b l']. destruct IH as (S1 & S2 & S3). split_and!.
    + constructor; [done|]. apply Forall_forall. intros y [Hy _]%S2. by apply Hx.
    + intros y. rewrite !elem_of_cons, S2. intuition lia.
    + unfold len in *. simpl. lia.
  - destruct (Z.eqb_spec x id) as [->|Hne].
    + split_and!; [done| |unfold len; simpl; lia]. intros y. rewrite elem_of_cons. split.
      * intros Hy. specialize (Hx y Hy). split; [by right|lia].
      * intros [[->|?] ?]; done.
    + split_and!; [by constructor| |unfold len; simpl; lia]. intros y. rewrite elem_of_cons. split.
      * intros Hy. split; [done|]. destruct Hy as [->|Hy]; [lia|]. specialize (Hx y Hy). lia.
      * by intros [? _].
Qed.

Lemma olist_rm_spec o id :
  ol_wf o -> ol_wf (olist_rm o id) /\
  (forall y, y ∈ ol_next (olist_rm o id) <-> y ∈ ol_next o /\ y <> id) /\
  len (ol_next (olist_rm o id)) <= len (ol_next o).
Proof.
  intros (Hs & Hn & Hl). unfold olist_rm.
  pose proof (olist__unlink_spec id (ol_next o) Hs) as H.
  destruct (olist__unlink id (ol_next o)) as [b l']. destruct H as (S1 & S2 & S3).
  unfold ol_wf. simpl. pose proof (len_nonneg l').
  destruct b; simpl in *; rewrite ?Hn; rewrite ?u64_small by lia; (split_and!; [done|lia|lia|done|lia]).
Qed.

(** The ordered list is a set of ids: after [olist_set] and [olist_rm] on
    a well-formed list it is well-formed again (strictly increasing, with the
    right counter) and [olist_is_set] answers membership; a failed allocation
    in [olist_set] returns -1 and leaves the set unchanged. *)
Theorem olist_is_a_set (ok : bool) (o : olist) (id : Z) :
  ol_wf o -> len (ol_next o) + 1 < 18446744073709551615 ->
  let '(rc, o') := olist_set ok o id in
  ol_wf o' /\ ol_wf (olist_rm o id) /\ (rc = 0 \/ (rc = -1 /\ ok = false)) /\
  forall y, olist_is_set o' y = (olist_is_set o y || ((rc =? 0) && (y =? id))) /\
            olist_is_set (olist_rm o id) y = (olist_is_set o y && negb (y =? id)).
Proof.
  intros Hwf Hlim. destruct (olist_set ok o id) as [rc o'] eqn:E.
  destruct (olist_set_spec _ _ _ _ _ Hwf E Hlim) as (Hwf' & Hin & Hrc & _).
  destruct (olist_rm_spec o id Hwf) as (Hwf'' & Hin' & _).
  split_and!; [done..|]. intros y. unfold olist_is_set. split; apply eq_bool_prop_intro;
    rewrite ?andb_True, ?orb_True, ?andb_True, ?negb_True, !Is_true_true,
      !olist__is_set_iff, ?Z.eqb_eq by (apply Hwf || apply Hwf' || apply Hwf'').
  - rewrite Hin. tauto.
  - rewrite Hin'. tauto.
Qed.

Lemma olist_is_a_set_witness :
  ol_wf (Olist [2; 5] 2) /\ olist_is_set (snd (olist_set true (Olist [2; 5] 2) 3)) 3 = true.
Proof.
  assert (Hwf : ol_wf (Olist [2; 5] 2)).
  { split_and!; [|reflexivity|vm_compute; reflexivity].
    repeat constructor; lia. }
  split; [exact Hwf|].
  pose proof (olist_is_a_set true (Olist [2; 5] 2) 3 Hwf eq_refl) as H.
  simpl in H. destruct H as (_ & _ & _ & H). exact (proj1 (H 3)).
Defined.
