(* ===== verification/Changes.v ===== *)
(** * ti/changes and ti/change: ordering and committing changes

    [src/src/ti/changes.c], the life cycle of a change from
    [src/src/ti/change.c], and the node side of a change-id request. A node
    keeps the changes it knows in a queue ordered by change id; it asks the
    other nodes to accept an id for its own changes (a quorum), receives
    changes of other nodes, and its change loop commits the queued changes in
    order.

    Pointers to changes are addresses in a heap; dropping the last reference
    frees the cell and touching a freed cell is undefined behaviour
    ([Undefined]). The queue is any double-ended queue with the laws of
    [DequeLaws]; [queue_t] is one of them. [queue_rmval] is wrong in one state of
    the queue (see [Queue]); a run that meets it stops with [BadRemove].
    Failures of the allocator and the results of code outside this component
    (running a query, applying a change, sending a request) are arguments. *)
From Stdlib Require Import ZArith Lia Sorted.
From stdpp Require Import base list option numbers sets gmap.
From S2P Require Import Prelude Deque Nodes Quorum Olist.

Definition loc := nat.
Definition NULL : loc := 0%nat.

Definition EX_MEMORY : Z := -2.
Definition EX_NODE_ERROR : Z := -51.

(** Times are nanoseconds of the monotonic clock. *)
Definition SECOND : Z := 1000000000.
Definition CHANGES__TIMEOUT : Z := 42 * SECOND.
Definition CHANGES__NEW_TIMEOUT : Z := 21 * SECOND.
Definition CHANGES__MISSING_TIMEOUT : Z := 6 * SECOND.
Definition CHANGES__MAX_ID_GAP : Z := 1000.

Definition TI_CPKG_FLAG_ALLOW_GAP : Z := 1.
Definition TI_CHANGE_FLAG_SAVE : Z := 1.

Inductive ti_change_status := STAT_NEW | STAT_CANCEL | STAT_READY.

(** The type of a change together with its [via] union: [TI_CHANGE_TP_MASTER]
    with a query, or [TI_CHANGE_TP_CPKG] with the flags of its package. *)
Inductive ti_change_via := ViaQuery (q : nat) | ViaCpkg (flags : Z).

Record ti_change := Change {
  ch_ref : Z;                     (* uint32_t ref *)
  ch_status : ti_change_status;
  ch_flags : Z;                   (* uint8_t flags *)
  ch_requests : Z;                (* uint8_t requests *)
  ch_id : Z;                      (* uint64_t id *)
  ch_via : ti_change_via;
  ch_time : Z
}.

#[export] Instance status_eq_dec : EqDecision ti_change_status.
Proof. solve_decision. Defined.

Definition is_master (c : ti_change) : bool :=
  match ch_via c with ViaQuery _ => true | ViaCpkg _ => false end.

(** What the component does to the rest of the program. *)
Inductive event :=
  | EvRun (id : Z)            (* [ti_query_run] of the master change [id] *)
  | EvApply (id : Z) (ok : bool)  (* [ti_change_run] and [ti_archive_push] *)
  | EvSkip (id : Z)           (* a queued change that is already committed *)
  | EvKill (id : Z)           (* a change without quorum that timed out *)
  | EvGap (id : Z)            (* an id committed without its change *)
  | EvMissing (id : Z)        (* another node is asked for [id] *)
  | EvSave                    (* [ti_save] *)
  | EvError (q : nat) (nr : Z).  (* error response for the query [q] *)

Record ti_changes (Q : Type) := Changes {
  heap : gmap loc ti_change;
  next_loc : loc;                     (* the next address of the allocator *)
  next_qid : nat;                     (* the next name of a pending quorum *)
  ch_queue : Q;
  next_change_id : Z;                 (* uint64_t *)
  skipped_ids : olist;
  this_ccid : Z;                      (* [ti.node->ccid] *)
  wait_ccid : Z;
  wait_gap_time : Z;
  req_id : Z;                         (* [change__req_id] *)
  pending : gmap nat (ti_quorum * loc);  (* quorums waiting for answers *)
  queries : gmap nat loc;             (* [query->change] of the live queries *)
  quorum_lost : Z;
  changes_unaligned : Z;
  trace : list event                  (* most recent event first *)
}.
Arguments Changes {Q}.
Arguments heap {Q}. Arguments next_loc {Q}. Arguments next_qid {Q}. Arguments ch_queue {Q}.
Arguments next_change_id {Q}. Arguments skipped_ids {Q}. Arguments this_ccid {Q}.
Arguments wait_ccid {Q}. Arguments wait_gap_time {Q}. Arguments req_id {Q}.
Arguments pending {Q}. Arguments queries {Q}. Arguments quorum_lost {Q}.
Arguments changes_unaligned {Q}. Arguments trace {Q}.

(** ** A state monad with undefined behaviour *)

Inductive outcome (S A : Type) :=
  | Done (a : A) (s : S)
  | Undefined
  | BadRemove.
Arguments Done {S A}. Arguments Undefined {S A}. Arguments BadRemove {S A}.

Definition M (S A : Type) := S -> outcome S A.

Definition ret {S A} (a : A) : M S A := fun s => Done a s.
Definition bind {S A B} (m : M S A) (k : A -> M S B) : M S B :=
  fun s => match m s with
           | Done a s => k a s
           | Undefined => Undefined
           | BadRemove => BadRemove
           end.

Declare Scope change_scope.
Delimit Scope change_scope with change.
Notation "x <- m ;; k" := (bind m (fun x => k))
  (at level 100, m at next level, right associativity) : change_scope.
Notation "m ;;; k" := (bind m (fun _ => k))
  (at level 100, right associativity) : change_scope.
Open Scope change_scope.

(** A step that may be undefined, from an option. *)
Definition lift {S A} (o : option A) : M S A :=
  fun s => match o with Some a => Done a s | None => Undefined end.

Section Component.
Context {Q : Type} {D : Deque Q loc}.
Notation state := (ti_changes Q).
Notation M := (M state).
Implicit Types (s : state) (l : loc).

Definition get : M state := fun s => Done s s.
Definition modify (f : state -> state) : M unit := fun s => Done tt (f s).

Definition set_heap (h : gmap loc ti_change) s : state :=
  Changes h (next_loc s) (next_qid s) (ch_queue s) (next_change_id s) (skipped_ids s) (this_ccid s) (wait_ccid s)
    (wait_gap_time s) (req_id s) (pending s) (queries s) (quorum_lost s) (changes_unaligned s) (trace s).
Definition set_queue (q : Q) s : state :=
  Changes (heap s) (next_loc s) (next_qid s) q (next_change_id s) (skipped_ids s) (this_ccid s) (wait_ccid s)
    (wait_gap_time s) (req_id s) (pending s) (queries s) (quorum_lost s) (changes_unaligned s) (trace s).
Definition set_next (n : Z) s : state :=
  Changes (heap s) (next_loc s) (next_qid s) (ch_queue s) n (skipped_ids s) (this_ccid s) (wait_ccid s)
    (wait_gap_time s) (req_id s) (pending s) (queries s) (quorum_lost s) (changes_unaligned s) (trace s).
Definition set_skipped (o : olist) s : state :=
  Changes (heap s) (next_loc s) (next_qid s) (ch_queue s) (next_change_id s) o (this_ccid s) (wait_ccid s)
    (wait_gap_time s) (req_id s) (pending s) (queries s) (quorum_lost s) (changes_unaligned s) (trace s).
Definition set_ccid (c : Z) s : state :=
  Changes (heap s) (next_loc s) (next_qid s) (ch_queue s) (next_change_id s) (skipped_ids s) c (wait_ccid s)
    (wait_gap_time s) (req_id s) (pending s) (queries s) (quorum_lost s) (changes_unaligned s) (trace s).
Definition set_wait (c t : Z) s : state :=
  Changes (heap s) (next_loc s) (next_qid s) (ch_queue s) (next_change_id s) (skipped_ids s) (this_ccid s) c
    t (req_id s) (pending s) (queries s) (quorum_lost s) (changes_unaligned s) (trace s).
Definition set_pending (p : gmap nat (ti_quorum * loc)) s : state :=
  Changes (heap s) (next_loc s) (next_qid s) (ch_queue s) (next_change_id s) (skipped_ids s) (this_ccid s) (wait_ccid s)
    (wait_gap_time s) (req_id s) p (queries s) (quorum_lost s) (changes_unaligned s) (trace s).
Definition add_pending (q : ti_quorum) l s : state :=
  Changes (heap s) (next_loc s) (S (next_qid s)) (ch_queue s) (next_change_id s) (skipped_ids s) (this_ccid s)
    (wait_ccid s) (wait_gap_time s) (req_id s) (<[next_qid s := (q, l)]> (pending s)) (queries s)
    (quorum_lost s) (changes_unaligned s) (trace s).
Definition set_queries (m : gmap nat loc) s : state :=
  Changes (heap s) (next_loc s) (next_qid s) (ch_queue s) (next_change_id s) (skipped_ids s) (this_ccid s) (wait_ccid s)
    (wait_gap_time s) (req_id s) (pending s) m (quorum_lost s) (changes_unaligned s) (trace s).
Definition set_req_id (i : Z) s : state :=
  Changes (heap s) (next_loc s) (next_qid s) (ch_queue s) (next_change_id s) (skipped_ids s) (this_ccid s) (wait_ccid s)
    (wait_gap_time s) i (pending s) (queries s) (quorum_lost s) (changes_unaligned s) (trace s).
Definition count_lost s : state :=
  Changes (heap s) (next_loc s) (next_qid s) (ch_queue s) (next_change_id s) (skipped_ids s) (this_ccid s) (wait_ccid s)
    (wait_gap_time s) (req_id s) (pending s) (queries s) (u64 (quorum_lost s + 1)) (changes_unaligned s) (trace s).
Definition count_unaligned s : state :=
  Changes (heap s) (next_loc s) (next_qid s) (ch_queue s) (next_change_id s) (skipped_ids s) (this_ccid s) (wait_ccid s)
    (wait_gap_time s) (req_id s) (pending s) (queries s) (quorum_lost s) (u64 (changes_unaligned s + 1)) (trace s).
Definition log (e : event) s : state :=
  Changes (heap s) (next_loc s) (next_qid s) (ch_queue s) (next_change_id s) (skipped_ids s) (this_ccid s) (wait_ccid s)
    (wait_gap_time s) (req_id s) (pending s) (queries s) (quorum_lost s) (changes_unaligned s) (e :: trace s).

(** ** Changes in the heap *)

Definition load l : M ti_change := fun s =>
  match heap s !! l with Some c => Done c s | None => Undefined end.
Definition store l (c : ti_change) : M unit := fun s =>
  match heap s !! l with
  | Some _ => Done tt (set_heap (<[l := c]> (heap s)) s)
  | None => Undefined
  end.

Definition with_ref (r : Z) (c : ti_change) : ti_change :=
  Change r (ch_status c) (ch_flags c) (ch_requests c) (ch_id c) (ch_via c) (ch_time c).
Definition with_status (st : ti_change_status) (c : ti_change) : ti_change :=
  Change (ch_ref c) st (ch_flags c) (ch_requests c) (ch_id c) (ch_via c) (ch_time c).
Definition with_flags (f : Z) (c : ti_change) : ti_change :=
  Change (ch_ref c) (ch_status c) f (ch_requests c) (ch_id c) (ch_via c) (ch_time c).
Definition with_requests (r : Z) (c : ti_change) : ti_change :=
  Change (ch_ref c) (ch_status c) (ch_flags c) r (ch_id c) (ch_via c) (ch_time c).
Definition with_id (i : Z) (c : ti_change) : ti_change :=
  Change (ch_ref c) (ch_status c) (ch_flags c) (ch_requests c) i (ch_via c) (ch_time c).
Definition with_via (v : ti_change_via) (c : ti_change) : ti_change :=
  Change (ch_ref c) (ch_status c) (ch_flags c) (ch_requests c) (ch_id c) v (ch_time c).

Definition update l (f : ti_change -> ti_change) : M unit := c <- load l;; store l (f c).

(** [ti_change_create]; the id is set by the caller. *)
Definition ti_change_create (ok : bool) (via : ti_change_via) (now : Z) : M loc := fun s =>
  if ok then
    let l := next_loc s in
    Done l (Changes (<[l := Change 1 STAT_NEW 0 0 0 via now]> (heap s)) (S l) (next_qid s) (ch_queue s)
      (next_change_id s) (skipped_ids s) (this_ccid s) (wait_ccid s) (wait_gap_time s) (req_id s)
      (pending s) (queries s) (quorum_lost s) (changes_unaligned s) (trace s))
  else Done NULL s.

Definition ti_incref l : M unit := update l (fun c => with_ref (u32 (ch_ref c + 1)) c).

Definition ti_change_drop l : M unit :=
  if (l =? NULL)%nat then ret tt else
  c <- load l;;
  let r := u32 (ch_ref c - 1) in
  if negb (r =? 0) then store l (with_ref r c)
  else modify (fun s => set_heap (delete l (heap s)) s).

(** [ok]: a ready node was found, and the package was made and written. *)
Definition ti_change_missing (ok : bool) (id : Z) : M unit :=
  s <- get;;
  if req_id s =? id then ret tt
  else if ok then modify (log (EvMissing id));;; modify (set_req_id id)
  else ret tt.

(** ** Queries, as far as they refer to a change *)

(** [ti_query_destroy]: the reference of the query is dropped. *)
Definition query_destroy (q : nat) : M unit :=
  s <- get;;
  match queries s !! q with
  | Some l => modify (set_queries (delete q (queries s)));;; ti_change_drop l
  | None => lift None
  end.

(** [ti_query_response] with an error. *)
Definition ti_query_response (q : nat) (nr : Z) : M unit :=
  modify (log (EvError q nr));;; query_destroy q.

(** [ti_query_run]: the query may set flags on its change, and may be finished
    ([fin]) or wait for futures. *)
Definition ti_query_run (q : nat) (flags : Z) (fin : bool) : M unit :=
  s <- get;;
  match queries s !! q with
  | Some l =>
      update l (fun c => with_flags (Z.lor (ch_flags c) flags) c);;;
      (if fin then query_destroy q else ret tt)
  | None => lift None
  end.

(** ** The queue *)

Definition queued : M (list loc) := s <- get;; lift (dq_each (ch_queue s)).
Definition first_change : M loc := s <- get;; lift (dq_first NULL (ch_queue s)).
Definition last_change : M loc := s <- get;; lift (dq_last NULL (ch_queue s)).

Definition queue_op {A} (f : Q -> option (A * Q)) : M A :=
  s <- get;; p <- lift (f (ch_queue s));; modify (set_queue (snd p));;; ret (fst p).

Definition remove_change l : M loc :=
  s <- get;;
  if decide (dq_can_remove (ch_queue s)) then queue_op (fun q => dq_rmval NULL q l)
  else fun _ => BadRemove.

Fixpoint load_all (ls : list loc) : M (list ti_change) :=
  match ls with
  | [] => ret []
  | l :: ls => c <- load l;; cs <- load_all ls;; ret (c :: cs)
  end.

(** The index of the first change with a higher id. *)
Fixpoint insert_index (id : Z) (cs : list ti_change) : Z :=
  match cs with
  | [] => 0
  | c :: cs => if id <? ch_id c then 0 else 1 + insert_index id cs
  end.

Definition changes__push (ok : bool) l : M Z :=
  c <- load l;;
  last <- last_change;;
  higher <- (if (last =? NULL)%nat then ret true else cl <- load last;; ret (ch_id cl <? ch_id c));;
  if higher : bool then queue_op (fun q => dq_push ok q l)
  else
    modify count_unaligned;;;
    ls <- queued;;
    cs <- load_all ls;;
    queue_op (fun q => dq_insert ok q (insert_index (ch_id c) cs) l).

(** ** Requesting a change id *)

(** What the allocator and the network do in one attempt: is the quorum
    allocated, is the package allocated, which requests are created, and can
    the queue grow. *)
Record attempt := Attempt {
  at_quorum : bool;
  at_buffer : bool;
  at_sent : list bool;
  at_reserve : bool
}.

(** The nodes other than [this] for which no request could be made. *)
Fixpoint failed_requests (this : nat) (i : nat) (sent : list bool) (vec : list ti_node) : nat :=
  match vec with
  | [] => 0
  | n :: vec =>
      if (i =? this)%nat then failed_requests this (S i) sent vec
      else
        let ok := match sent with b :: _ => b | [] => true end in
        (if (node_status n <=? TI_NODE_STAT_SHUTTING_DOWN)%Z || negb ok then 1 else 0)
        + failed_requests this (S i) (tail sent) vec
  end%nat.

Definition changes__new_id (req : loc -> M Z) (vec : list ti_node) (reserve : bool) l : M unit :=
  let fail nr :=
    ti_change_drop l;;;
    c <- load l;;
    match ch_via c with
    | ViaQuery q => ti_query_response q nr;;; update l (with_status STAT_CANCEL)
    | ViaCpkg _ => lift None
    end in
  x <- remove_change l;;
  room <- (if (x =? NULL)%nat then
             ti_incref l;;; rc <- queue_op (fun q => dq_reserve reserve q 1);; ret (rc =? 0)
           else ret true);;
  if negb room then fail EX_MEMORY
  else if negb (ti_nodes_has_quorum vec) then fail EX_NODE_ERROR
  else
    rc <- req l;;
    if rc =? 0 then ret tt else fail rc.

Definition changes__on_req_change_id (new_id : loc -> M unit) l (acc : bool) : M unit :=
  (if negb acc then modify count_lost;;; new_id l
   else update l (with_status STAT_READY));;;
  ti_change_drop l.

(** The callbacks of a quorum, in the order it makes them. *)
Fixpoint run_callbacks (cb : loc -> bool -> M unit) l (bs : list bool) : M unit :=
  match bs with
  | [] => ret tt
  | b :: bs => cb l b;;; run_callbacks cb l bs
  end.

(** The list of attempts is consumed by the recursion through [changes__new_id]
    (a request that is lost before any answer arrives); when it is used up the
    next allocation of a quorum fails. *)
Fixpoint changes__req_change_id (vec : list ti_node) (this : nat) (att : list attempt) l : M Z :=
  match att with
  | [] => ret EX_MEMORY
  | a :: att =>
      if negb (at_quorum a) then ret EX_MEMORY
      else if negb (at_buffer a) then ret EX_MEMORY
      else
        ti_incref l;;;
        s <- get;;
        update l (with_id (next_change_id s));;;
        modify (set_next (u64 (next_change_id s + 1)));;;
        changes__push false l;;;
        let q := quorum_shrink (failed_requests this 0 (at_sent a) vec) (ti_quorum_new vec) in
        update l (with_requests (requests q));;;
        let '(bs, o) := ti_quorum_go q in
        modify (match o with Some q => add_pending q l | None => fun s => s end);;;
        run_callbacks (changes__on_req_change_id
          (changes__new_id (changes__req_change_id vec this att) vec (at_reserve a))) l bs;;;
        ret 0
  end.

(** ** Operations of the component *)

Definition changes__max_id_gap (id : Z) s : bool :=
  (next_change_id s <? id) && (CHANGES__MAX_ID_GAP <? id - next_change_id s).

(** [reserve] and [create] are the outcomes of the two allocations. *)
Definition ti_changes_create_new_change (vec : list ti_node) (this : nat) (reserve create : bool)
    (now : Z) (att : list attempt) (query : nat) : M Z :=
  if negb (ti_nodes_has_quorum vec) then ret EX_NODE_ERROR else
  rc <- queue_op (fun q => dq_reserve reserve q 1);;
  if negb (rc =? 0) then ret EX_MEMORY else
  l <- ti_change_create create (ViaQuery query) now;;
  if (l =? NULL)%nat then ret EX_MEMORY else
  ti_incref l;;;
  s <- get;;
  modify (set_queries (<[query := l]> (queries s)));;;
  changes__req_change_id vec this att l.

(** An answer for the pending quorum [p] ([ti_quorum_req_cb]). *)
Definition changes_on_answer (vec : list ti_node) (this : nat) (this_id : Z) (reserve : bool)
    (att : list attempt) (p : nat) (a : answer) : M unit :=
  s <- get;;
  match pending s !! p with
  | None => lift None
  | Some (q, l) =>
      let '(bs, o) := ti_quorum_req_cb this_id a q in
      modify (set_pending (match o with
                           | Some q => <[p := (q, l)]> (pending s)
                           | None => delete p (pending s)
                           end));;;
      run_callbacks (changes__on_req_change_id
        (changes__new_id (changes__req_change_id vec this att) vec reserve)) l bs
  end.

(** The last queued change with this id. *)
Fixpoint find_id (id : Z) (ls : list loc) (cs : list ti_change) (found : loc) : loc :=
  match ls, cs with
  | l :: ls, c :: cs => find_id id ls cs (if ch_id c =? id then l else found)
  | _, _ => found
  end.

Definition ti_changes_add_change (reserve create : bool) (now : Z) (id flags : Z) : M Z :=
  s <- get;;
  if changes__max_id_gap id s then ret 1
  else if id <=? this_ccid s then ret 1
  else
    (if next_change_id s <=? id then modify (set_next (u64 (id + 1))) else ret tt);;;
    ls <- queued;;
    cs <- load_all ls;;
    let l := find_id id ls cs NULL in
    go <- (if (l =? NULL)%nat then ret true else
           c <- load l;;
           match ch_status c, ch_via c with
           | STAT_READY, ViaQuery _ => ret false
           | STAT_READY, ViaCpkg f => store l (with_via (ViaCpkg (Z.lor f flags)) c);;; ret false
           | _, ViaCpkg _ => lift None      (* assert *)
           | _, ViaQuery _ =>
               x <- remove_change l;;
               (if (x =? NULL)%nat then ret tt else ti_change_drop x);;; ret true
           end);;
    if negb go then ret 1 else
    rc <- queue_op (fun q => dq_reserve reserve q 1);;
    if negb (rc =? 0) then ret (-1) else
    l <- ti_change_create create (ViaCpkg flags) now;;
    if (l =? NULL)%nat then ret (-1) else
    update l (with_id id);;;
    changes__push false l;;;
    update l (with_status STAT_READY);;;
    ret 0.

Inductive ti_proto := RES_ACCEPT | ERR_REJECT | ERR_COLLISION (n : Z).

(** The ids below [id] that were never seen are remembered; [ok] is the outcome
    of each allocation. *)
Fixpoint skip_ids (ok : Z -> bool) (k : nat) (id : Z) (o : olist) : olist :=
  match k with
  | O => o
  | S k => skip_ids ok k (id + 1) (snd (olist_set (ok id) o id))
  end.

Fixpoint accept_queued (id : Z) (cs : list ti_change) : option ti_proto :=
  match cs with
  | [] => None
  | c :: cs =>
      if id <? ch_id c then None
      else if ch_id c =? id then
        Some (if is_master c then ERR_COLLISION (ch_requests c) else ERR_REJECT)
      else accept_queued id cs
  end.

(** The loop over the skipped ids, [ids] is the part of the chain still ahead. *)
Fixpoint accept_skipped (ccid id : Z) (ids : list Z) (o : olist) : bool * olist :=
  match ids with
  | [] => (false, o)
  | x :: ids =>
      if x <=? ccid then accept_skipped ccid id ids (olist_rm o x)
      else if x =? id then (true, olist_rm o x)
      else if id <? x then (false, o)
      else accept_skipped ccid id ids o
  end.

Definition ti_changes_accept_id (ok : Z -> bool) (id : Z) : M ti_proto :=
  s <- get;;
  let next := next_change_id s in
  if id =? next then modify (set_next (u64 (next + 1)));;; ret RES_ACCEPT
  else if next <? id then
    modify (set_skipped (skip_ids ok (Z.to_nat (id - next)) next (skipped_ids s)));;;
    modify (set_next (u64 (id + 1)));;;
    ret RES_ACCEPT
  else
    ls <- queued;;
    cs <- load_all ls;;
    match accept_queued id cs with
    | Some r => ret r
    | None =>
        let '(b, o) := accept_skipped (this_ccid s) id (ol_next (skipped_ids s)) (skipped_ids s) in
        modify (set_skipped o);;;
        ret (if b : bool then RES_ACCEPT else ERR_REJECT)
    end.

Fixpoint next_missing (id : Z) (cs : list ti_change) : Z :=
  match cs with
  | [] => u64 (id + 1)
  | c :: cs =>
      if ch_id c <=? id then next_missing id cs
      else if ch_id c =? u64 (id + 1) then next_missing (u64 (id + 1)) cs
      else u64 (id + 1)
  end.

Definition ti_changes_set_next_missing_id (id : Z) : M Z :=
  s <- get;;
  ls <- queued;;
  cs <- load_all ls;;
  ret (next_missing (if id <? this_ccid s then this_ccid s else id) cs).

(** ** The change loop *)

(** What happens around one iteration: the result of a query ([or_flags],
    [or_fin]) or of applying a package ([or_apply]), the second reading of the
    clock, and whether a missing change can be asked for. *)
Record iteration := Iteration {
  or_flags : Z;
  or_fin : bool;
  or_apply : bool;
  or_clock : Z;
  or_missing : bool
}.

Inductive next_action := ActProcess | ActShift | ActBreak | ActCheckNew.

(** A gap between the committed id and the id of the change [c]. *)
Definition loop_gap (o : iteration) (status timing : Z) (c : ti_change) : M next_action :=
  s <- get;;
  let ccid := this_ccid s in
  let allow_gap := match ch_via c with
                   | ViaCpkg f => negb (Z.land f TI_CPKG_FLAG_ALLOW_GAP =? 0)
                   | ViaQuery _ => false
                   end in
  if allow_gap then ret ActProcess
  else if status =? TI_NODE_STAT_SYNCHRONIZING then ret ActBreak
  else if negb (wait_ccid s =? ccid) then modify (set_wait ccid (or_clock o));;; ret ActBreak
  else
    let diff := timing - wait_gap_time s in
    (if CHANGES__MISSING_TIMEOUT <? diff
     then ti_change_missing (or_missing o) (u64 (ccid + 1)) else ret tt);;;
    if diff <? CHANGES__TIMEOUT then ret ActBreak else
    let ccid := u64 (ccid + 1) in
    modify (set_ccid ccid);;; modify (log (EvGap ccid));;;
    if u64 (ccid + 1) <? ch_id c then ret ActBreak else ret ActCheckNew.

Definition loop_process (o : iteration) l : M unit :=
  c <- load l;;
  match ch_status c with
  | STAT_READY =>
      match ch_via c with
      | ViaQuery q =>
          modify (log (EvRun (ch_id c)));;; ti_query_run q (or_flags o) (or_fin o)
      | ViaCpkg _ => modify (log (EvApply (ch_id c) (or_apply o)))
      end;;;
      c <- load l;;
      modify (set_ccid (ch_id c));;;
      if negb (Z.land (ch_flags c) TI_CHANGE_FLAG_SAVE =? 0) then modify (log EvSave) else ret tt
  | _ => lift None          (* assert *)
  end.

Definition loop_shift_drop l : M bool :=
  queue_op (fun q => dq_shift NULL q);;; ti_change_drop l;;; ret true.

(** One iteration; the result tells whether the loop goes on. *)
Definition loop_body (o : iteration) (status timing : Z) : M bool :=
  l <- first_change;;
  if (l =? NULL)%nat then ret false else
  c <- load l;;
  s <- get;;
  if decide (ch_status c = STAT_CANCEL) then lift None      (* assert *)
  else
    act <- (if ch_id c <=? this_ccid s then modify (log (EvSkip (ch_id c)));;; ret ActShift
            else if u64 (this_ccid s + 1) <? ch_id c then loop_gap o status timing c
            else ret ActCheckNew);;
    match act with
    | ActBreak => ret false
    | ActShift => loop_shift_drop l
    | ActProcess => loop_process o l;;; loop_shift_drop l
    | ActCheckNew =>
        if decide (ch_status c = STAT_NEW) then
          if timing - ch_time c <? CHANGES__NEW_TIMEOUT then ret false
          else modify (log (EvKill (ch_id c)));;; loop_shift_drop l
        else loop_process o l;;; loop_shift_drop l
    end.

Fixpoint loop_iterate (k : nat) (o : nat -> iteration) (status timing : Z) : M unit :=
  match k with
  | O => ret tt
  | S k =>
      b <- loop_body (o k) status timing;;
      if b : bool then loop_iterate k o status timing else ret tt
  end.

(** [lock]: the mutex was free. *)
Definition changes__loop (lock : bool) (o : nat -> iteration) (status timing : Z) : M unit :=
  if negb lock then ret tt else loop_iterate 5 o status timing.

(** The node side of a change-id request ([nodes__on_req_change_id]): [id] is
    the decoded id, [None] when the payload is not an unsigned integer;
    [buffer] is the outcome of the allocation for a collision answer. *)
Inductive id_response :=
  | RespAccept | RespReject
  | RespCollision (n : option Z)
  | RespError (nr : Z).

Definition EX_AUTH_ERROR : Z := -56.
Definition EX_BAD_DATA : Z := -53.

Definition nodes__on_req_change_id (authorized : bool) (status : Z) (ok : Z -> bool) (buffer : bool)
    (id : option Z) : M id_response :=
  if negb authorized then ret (RespError EX_AUTH_ERROR)
  else if status <? TI_NODE_STAT_SHUTTING_DOWN then ret (RespError EX_NODE_ERROR)
  else match id with
  | None => ret (RespError EX_BAD_DATA)
  | Some id =>
      r <- ti_changes_accept_id ok id;;
      ret (match r with
           | RES_ACCEPT => RespAccept
           | ERR_REJECT => RespReject
           | ERR_COLLISION n => RespCollision (if buffer then Some n else None)
           end)
  end.

End Component.
