(* ===== verification/ChangesProof.v ===== *)
(** * Safety of the change queue

    The invariant of [Changes] and its preservation by every operation: the
    reference counts are exact, no freed change is touched, the queue is
    ordered by id, every master change that waits has a live query. The
    theorems are proved against the deque interface. *)
From Stdlib Require Import ZArith Lia Sorted.
From stdpp Require Import base list option numbers sets gmap functions sorting.
From S2P Require Import Prelude Deque Nodes Quorum Olist Changes.

(** ** Weakest preconditions

    [wp m s P]: [m] runs on [s] without undefined behaviour and ends in [P],
    unless it meets the faulty state of the queue's removal. *)
Definition wp {S A} (m : M S A) (s : S) (P : A -> S -> Prop) : Prop :=
  match m s with Done a s' => P a s' | Undefined => False | BadRemove => True end.

Lemma wp_bind {S A B} (m : M S A) (k : A -> M S B) s P :
  wp m s (fun a s' => wp (k a) s' P) -> wp (bind m k) s P.
Proof. unfold wp, bind. by destruct (m s). Qed.

Lemma wp_mono {S A} (m : M S A) s (P P' : A -> S -> Prop) :
  wp m s P -> (forall a s', P a s' -> P' a s') -> wp m s P'.
Proof. unfold wp. destruct (m s); naive_solver. Qed.

Lemma wp_ret {S A} (a : A) (s : S) P : P a s -> wp (ret a) s P.
Proof. done. Qed.

Section Safety.
Context {Q : Type} {D : Deque Q loc} {L : DequeLaws Q loc}.
Notation state := (ti_changes Q).
Implicit Types (s : state) (l : loc) (ql : list loc) (c : ti_change) (w : loc -> bool) (x : loc -> Z).

(** ** The invariant *)

Definition idof s l : Z := match heap s !! l with Some c => ch_id c | None => 0 end.

Definition qref s l c : Z :=
  match ch_via c with
  | ViaQuery q => b2z (bool_decide (queries s !! q = Some l))
  | ViaCpkg _ => 0
  end.

(** The references to [l]: from the queue, from a quorum that still has to call
    back, from its query, and [x l] held elsewhere. *)
Definition owners s ql w x l c : Z :=
  b2z (bool_decide (l ∈ ql)) + b2z (w l) + qref s l c + x l.

(** [e] is a queued change in transition: a package that is not marked ready
    yet, or a master whose query has just finished. *)
Definition item_ok (e : loc) s l c : Prop :=
  0 <= ch_id c < next_change_id s /\ ch_status c <> STAT_CANCEL /\
  match ch_via c with
  | ViaQuery q => queries s !! q = Some l \/ l = e
  | ViaCpkg _ => ch_status c = STAT_READY \/ l = e
  end.

Record inv (e : loc) s ql w x : Prop := {
  inv_rep : dq_rep (ch_queue s) ql;
  inv_sorted : StronglySorted (fun a b => idof s a < idof s b) ql;
  inv_item l : l ∈ ql -> exists c, heap s !! l = Some c /\ item_ok e s l c;
  inv_wait l : w l = true <-> exists p q, pending s !! p = Some (q, l) /\ cb_ q = true;
  inv_wait1 p p' q q' l : pending s !! p = Some (q, l) -> pending s !! p' = Some (q', l) ->
    cb_ q = true -> cb_ q' = true -> p = p';
  inv_pend p q l : pending s !! p = Some (q, l) -> (p < next_qid s)%nat /\ exists m, 0 < m /\ q_inv m q;
  inv_wq l : w l = true -> exists c q, heap s !! l = Some c /\ ch_via c = ViaQuery q /\
    queries s !! q = Some l /\ ch_status c = STAT_NEW;
  inv_query q l : queries s !! q = Some l -> exists c, heap s !! l = Some c /\ ch_via c = ViaQuery q;
  inv_ref l c : heap s !! l = Some c -> ch_ref c = owners s ql w x l c /\ 0 < owners s ql w x l c;
  inv_dead l : heap s !! l = None -> x l = 0;
  inv_x l : 0 <= x l;
  inv_loc l : is_Some (heap s !! l) -> (0 < l < next_loc s)%nat;
  inv_next : 0 <= next_change_id s /\ (0 < next_loc s)%nat;
  inv_skip : ol_wf (skipped_ids s) /\ forall y, y ∈ ol_next (skipped_ids s) -> 0 <= y < next_change_id s
}.

Lemma inv_NoDup e s ql w x : inv e s ql w x -> NoDup ql.
Proof.
  intros [_ Hs _ _ _ _ _ _ _ _ _ _ _ _]. induction Hs as [|a ql Hs IH Hf]; constructor; [|done].
  intros Ha. eapply Forall_forall in Hf; [|done]. lia.
Qed.

Lemma inv_NULL e s ql w x : inv e s ql w x -> heap s !! NULL = None.
Proof.
  intros Hi. destruct (heap s !! NULL) eqn:E; [|done].
  destruct (inv_loc _ _ _ _ _ Hi NULL); [eauto|]. unfold NULL in *. lia.
Qed.

Lemma qref_bound s l c : 0 <= qref s l c <= 1.
Proof. unfold qref. destruct (ch_via c); simpl; [|lia]. destruct (bool_decide _); simpl; lia. Qed.

Lemma owners_bound s ql w x l c : x l <= owners s ql w x l c <= x l + 3.
Proof.
  unfold owners. pose proof (qref_bound s l c). destruct (bool_decide (l ∈ ql)), (w l); simpl; lia.
Qed.

Lemma in_queue_owner e s ql w x l :
  inv e s ql w x -> heap s !! l = None -> l ∉ ql /\ w l = false /\ x l = 0.
Proof.
  intros Hi Hn. split_and!.
  - intros Hl. destruct (inv_item _ _ _ _ _ Hi _ Hl) as (c & ? & _). congruence.
  - destruct (w l) eqn:E; [|done]. destruct (inv_wq _ _ _ _ _ Hi _ E) as (c & q & ? & _). congruence.
  - by apply (inv_dead _ _ _ _ _ Hi).
Qed.

(** ** Heap updates *)

Lemma sorted_idof (f g : loc -> Z) ql :
  (forall l, l ∈ ql -> f l = g l) ->
  StronglySorted (fun a b => f a < f b) ql -> StronglySorted (fun a b => g a < g b) ql.
Proof.
  induction ql as [|a ql IH]; intros Hfg Hs; [constructor|].
  apply StronglySorted_cons in Hs as [Hf Hs]. apply StronglySorted_cons. split.
  - apply Forall_forall. intros b Hb. eapply Forall_forall in Hf; [|done].
    rewrite <-!Hfg by set_solver. done.
  - apply IH; [set_solver|done].
Qed.

Definition same_kind (v v' : ti_change_via) : Prop :=
  match v, v' with
  | ViaQuery q, ViaQuery q' => q = q'
  | ViaCpkg _, ViaCpkg _ => True
  | _, _ => False
  end.

Lemma inv_heap_set e e' s ql w x x' l c c' :
  inv e s ql w x -> heap s !! l = Some c -> same_kind (ch_via c) (ch_via c') ->
  (l ∈ ql -> ch_id c' = ch_id c /\ item_ok e' s l c') ->
  (w l = true -> ch_status c' = STAT_NEW) ->
  (forall l', l' <> l -> x' l' = x l' /\ (l' = e -> l' ∈ ql -> l' = e')) ->
  0 <= x' l -> ch_ref c' = owners s ql w x' l c' -> 0 < ch_ref c' ->
  inv e' (set_heap (<[l := c']> (heap s)) s) ql w x'.
Proof.
  intros Hi Hl Hk Hq Hst Hx Hx0 Hr Hr0. pose proof Hi as [R1 R2 R3 R4 R5 R6 R7 R8 R9 R10 R11 R12 R13 R14].
  split; simpl; try done.
  - eapply sorted_idof; [|exact R2]. intros l' Hl'. unfold idof. simpl.
    destruct (decide (l' = l)) as [->|]; [|by rewrite lookup_insert_ne].
    rewrite lookup_insert_eq, Hl. by destruct (Hq Hl') as [-> _].
  - intros l' Hl'. destruct (decide (l' = l)) as [->|Hne].
    + exists c'. rewrite lookup_insert_eq. split; [done|]. by destruct (Hq Hl').
    + rewrite lookup_insert_ne by done. destruct (R3 l' Hl') as (c0 & ? & Hok). exists c0. split; [done|].
      destruct (Hx l' Hne) as [_ He]. unfold item_ok in *. simpl.
      destruct Hok as (? & ? & Hok). split_and!; try done; try lia.
      destruct (ch_via c0), Hok as [|Hok]; auto.
  - intros l' Hw. destruct (R7 l' Hw) as (c0 & q & Hc0 & Hv & Hq' & Hst').
    destruct (decide (l' = l)) as [->|]; [|exists c0, q; by rewrite lookup_insert_ne].
    exists c', q. rewrite lookup_insert_eq. split_and!; try done; [|by apply Hst]. simplify_eq.
    unfold same_kind in Hk. rewrite Hv in Hk. destruct (ch_via c'); by simplify_eq.
  - intros q l' Hq'. destruct (R8 q l' Hq') as (c0 & Hc0 & Hv).
    destruct (decide (l' = l)) as [->|]; [|exists c0; by rewrite lookup_insert_ne].
    exists c'. rewrite lookup_insert_eq. split; [done|]. simplify_eq.
    unfold same_kind in Hk. rewrite Hv in Hk. destruct (ch_via c'); by simplify_eq.
  - intros l' c0 Hc0. destruct (decide (l' = l)) as [->|Hne].
    + rewrite lookup_insert_eq in Hc0. simplify_eq. unfold owners, qref in *. simpl. lia.
    + rewrite lookup_insert_ne in Hc0 by done. destruct (R9 l' c0 Hc0).
      unfold owners, qref in *. simpl. destruct (Hx l' Hne) as [-> _]. done.
  - intros l' Hn. destruct (decide (l' = l)) as [->|Hne].
    + by rewrite lookup_insert_eq in Hn.
    + rewrite lookup_insert_ne in Hn by done. destruct (Hx l' Hne) as [-> _]. auto.
  - intros l'. destruct (decide (l' = l)) as [->|Hne]; [done|]. destruct (Hx l' Hne) as [-> _]. auto.
  - intros l' Hl'. destruct (decide (l' = l)) as [->|Hne]; [apply R12; eauto|].
    rewrite lookup_insert_ne in Hl' by done. auto.
Qed.

(** The last reference is dropped: the cell is freed. *)
Lemma inv_heap_free e s ql w x l c :
  inv e s ql w x -> heap s !! l = Some c -> owners s ql w x l c = 1 -> x l = 1 ->
  inv e (set_heap (delete l (heap s)) s) ql w (<[l := 0]> x).
Proof.
  intros Hi Hl Ho Hx. pose proof Hi as [R1 R2 R3 R4 R5 R6 R7 R8 R9 R10 R11 R12 R13 R14].
  assert (Hzero : l ∉ ql /\ w l = false /\ qref s l c = 0).
  { unfold owners in Ho. pose proof (qref_bound s l c).
    destruct (bool_decide (l ∈ ql)) eqn:E1, (w l) eqn:E2; simpl in Ho; try lia.
    split_and!; [by apply bool_decide_eq_false in E1|done|lia]. }
  destruct Hzero as (Hnq & Hw & Hqr).
  assert (Hnoq : forall q, queries s !! q <> Some l).
  { intros q Hq. destruct (R8 q l Hq) as (c0 & Hc0 & Hv). simplify_eq. unfold qref in Hqr. rewrite Hv in Hqr.
    by rewrite bool_decide_eq_true_2 in Hqr. }
  split; simpl; try done.
  - eapply sorted_idof; [|exact R2]. intros l' Hl'. unfold idof. simpl.
    rewrite lookup_delete_ne; [done|]. by intros ->.
  - intros l' Hl'. destruct (R3 l' Hl') as (c0 & ? & ?). exists c0. rewrite lookup_delete_ne; [done|]. by intros ->.
  - intros l' Hw'. destruct (R7 l' Hw') as (c0 & q & ? & ? & ? & ?). exists c0, q.
    rewrite lookup_delete_ne; [done|]. intros ->. congruence.
  - intros q l' Hq. destruct (R8 q l' Hq) as (c0 & ? & ?). exists c0. rewrite lookup_delete_ne; [done|].
    intros ->. by eapply Hnoq.
  - intros l' c0 Hc0. destruct (decide (l = l')) as [<-|Hne].
    + by rewrite lookup_delete_eq in Hc0.
    + rewrite lookup_delete_ne in Hc0 by done. destruct (R9 l' c0 Hc0).
      unfold owners, qref in *. simpl. by rewrite fn_lookup_insert_ne by done.
  - intros l' Hn. destruct (decide (l = l')) as [<-|Hne]; [by rewrite fn_lookup_insert|].
    rewrite fn_lookup_insert_ne by done. rewrite lookup_delete_ne in Hn by done. auto.
  - intros l'. destruct (decide (l = l')) as [<-|Hne]; [by rewrite fn_lookup_insert|].
    by rewrite fn_lookup_insert_ne.
  - intros l' Hl'. destruct (decide (l = l')) as [<-|Hne]; [by destruct Hl'; rewrite lookup_delete_eq in *|].
    rewrite lookup_delete_ne in Hl' by done. auto.
Qed.

(** ** Queue updates *)

Lemma inv_queue_set e s ql ql' w x x' l c q' :
  inv e s ql w x -> heap s !! l = Some c -> dq_rep q' ql' ->
  StronglySorted (fun a b => idof s a < idof s b) ql' ->
  (l ∈ ql' -> item_ok e s l c) ->
  (forall l', l' <> l -> (l' ∈ ql' <-> l' ∈ ql) /\ x' l' = x l') ->
  b2z (bool_decide (l ∈ ql')) + x' l = b2z (bool_decide (l ∈ ql)) + x l -> 0 <= x' l ->
  inv e (set_queue q' s) ql' w x'.
Proof.
  intros Hi Hl Hrep Hs Hit Hx Hsum Hx0. pose proof Hi as [R1 R2 R3 R4 R5 R6 R7 R8 R9 R10 R11 R12 R13 R14].
  split; simpl; try done.
  - intros l' Hl'. destruct (decide (l' = l)) as [->|Hne]; [exists c; auto|].
    apply R3. by apply (Hx l' Hne).
  - intros l' c' Hc'. destruct (R9 l' c' Hc') as [E E0]. unfold owners, qref in *. simpl.
    destruct (decide (l' = l)) as [->|Hne]; [lia|]. destruct (Hx l' Hne) as [Hiff ->].
    rewrite (bool_decide_ext _ _ Hiff). done.
  - intros l' Hn. destruct (decide (l' = l)) as [->|Hne]; [congruence|].
    destruct (Hx l' Hne) as [_ ->]. auto.
  - intros l'. destruct (decide (l' = l)) as [->|Hne]; [done|]. destruct (Hx l' Hne) as [_ ->]. auto.
Qed.

Lemma inv_enqueue e s ql1 ql2 w x l c q' :
  inv e s (ql1 ++ ql2) w x -> heap s !! l = Some c -> l ∉ ql1 ++ ql2 -> 1 <= x l -> item_ok e s l c ->
  (forall a, a ∈ ql1 -> idof s a < ch_id c) -> (forall b, b ∈ ql2 -> ch_id c < idof s b) ->
  dq_rep q' (ql1 ++ l :: ql2) ->
  inv e (set_queue q' s) (ql1 ++ l :: ql2) w (<[l := x l - 1]> x).
Proof.
  intros Hi Hl Hn Hx Hit H1 H2 Hrep.
  assert (Hid : idof s l = ch_id c) by (unfold idof; by rewrite Hl).
  eapply (inv_queue_set e s (ql1 ++ ql2) _ w x _ l c); try done.
  - pose proof (inv_sorted _ _ _ _ _ Hi) as Hs. apply StronglySorted_app in Hs as (Hs0 & Hs1 & Hs2).
    apply StronglySorted_app. split_and!; [|done|].
    + intros a b Ha [->|Hb]%elem_of_cons; [rewrite Hid; auto|auto].
    + apply StronglySorted_cons. split; [|done]. apply Forall_forall. rewrite Hid. auto.
  - intros l' Hne. rewrite fn_lookup_insert_ne by done. split; [|done].
    rewrite !elem_of_app, elem_of_cons. intuition.
  - rewrite fn_lookup_insert. rewrite (bool_decide_eq_true_2 (l ∈ ql1 ++ l :: ql2)) by set_solver.
    rewrite (bool_decide_eq_false_2 (l ∈ ql1 ++ ql2)) by done. simpl. lia.
  - rewrite fn_lookup_insert. lia.
Qed.

Lemma elem_of_remove_first (y l : loc) ql : NoDup ql -> y ∈ remove_first l ql <-> y ∈ ql /\ y <> l.
Proof.
  induction 1 as [|a ql Ha Hnd IH]; simpl; [set_solver|].
  destruct (decide (a = l)) as [->|]; rewrite ?elem_of_cons, ?IH; [|intuition congruence].
  split; [|intuition]. intros Hy. split; [by right|]. by intros ->.
Qed.

Lemma len_remove_first (l : loc) ql :
  len (remove_first l ql) = len ql - b2z (bool_decide (l ∈ ql)).
Proof.
  induction ql as [|a ql IH]; [done|]. simpl. destruct (decide (a = l)) as [->|].
  - rewrite bool_decide_eq_true_2 by set_solver. unfold len. simpl. lia.
  - rewrite (bool_decide_ext (l ∈ a :: ql) (l ∈ ql)) by set_solver. unfold len in *. simpl. lia.
Qed.

Lemma sorted_remove_first (R : loc -> loc -> Prop) l ql :
  StronglySorted R ql -> StronglySorted R (remove_first l ql).
Proof.
  induction 1 as [|a ql Hs IH Hf]; simpl; [constructor|]. destruct (decide (a = l)); [done|].
  constructor; [done|]. apply Forall_forall. intros b Hb.
  eapply Forall_forall in Hf; [done|]. clear -Hb. induction ql as [|a' ql IH]; simpl in *; [done|].
  destruct (decide (a' = l)); set_solver.
Qed.

Lemma inv_dequeue e s ql w x l q' :
  inv e s ql w x -> l ∈ ql -> dq_rep q' (remove_first l ql) ->
  inv e (set_queue q' s) (remove_first l ql) w (<[l := x l + 1]> x).
Proof.
  intros Hi Hl Hrep. destruct (inv_item _ _ _ _ _ Hi l Hl) as (c & Hc & Hit).
  pose proof (inv_NoDup _ _ _ _ _ Hi) as Hnd. pose proof (inv_x _ _ _ _ _ Hi l).
  eapply (inv_queue_set e s ql _ w x _ l c); try done.
  - apply sorted_remove_first, (inv_sorted _ _ _ _ _ Hi).
  - intros l' Hne. rewrite elem_of_remove_first by done. rewrite fn_lookup_insert_ne by done. intuition.
  - rewrite fn_lookup_insert, (bool_decide_eq_true_2 (l ∈ ql)) by done.
    rewrite bool_decide_eq_false_2; [simpl; lia|]. rewrite elem_of_remove_first by done. intuition.
  - rewrite fn_lookup_insert. lia.
Qed.

(** A change of fields the invariant does not mention. *)
Lemma inv_ext e s s' ql w x :
  inv e s ql w x -> heap s' = heap s -> ch_queue s' = ch_queue s -> pending s' = pending s ->
  queries s' = queries s -> next_qid s' = next_qid s -> next_loc s' = next_loc s ->
  skipped_ids s' = skipped_ids s -> next_change_id s <= next_change_id s' ->
  inv e s' ql w x.
Proof.
  intros [R1 R2 R3 R4 R5 R6 R7 R8 R9 R10 R11 R12 R13 R14] E1 E2 E3 E4 E5 E6 E7 E8.
  split; rewrite ?E1, ?E2, ?E3, ?E4, ?E5, ?E6, ?E7; try done.
  - eapply sorted_idof; [|exact R2]. intros. unfold idof. by rewrite E1.
  - intros l Hl. destruct (R3 l Hl) as (c & ? & Hok). exists c. split; [done|].
    unfold item_ok in *. rewrite E4. destruct Hok as (? & ? & ?). split_and!; try done; lia.
  - intros l c Hc. destruct (R9 l c Hc). unfold owners, qref in *. by rewrite E4.
  - lia.
  - destruct R14. split; [done|]. intros y Hy. specialize (H0 y Hy). lia.
Qed.

Lemma inv_wait_status e s ql w x l c :
  inv e s ql w x -> heap s !! l = Some c -> w l = true -> ch_status c = STAT_NEW.
Proof. intros Hi Hl Hw. destruct (inv_wq _ _ _ _ _ Hi l Hw) as (c' & q & ? & ? & ? & ?). congruence. Qed.

Lemma inv_x_ext e s ql w x x' : inv e s ql w x -> (forall l, x' l = x l) -> inv e s ql w x'.
Proof.
  intros [R1 R2 R3 R4 R5 R6 R7 R8 R9 R10 R11 R12 R13 R14] Hx. split; try done.
  - intros l c Hc. destruct (R9 l c Hc). unfold owners in *. by rewrite Hx.
  - intros l Hl. rewrite Hx. auto.
  - intros l. by rewrite Hx.
Qed.

(** ** Rules for the heap operations *)

Lemma wp_load s l c P : heap s !! l = Some c -> P c s -> wp (load l) s P.
Proof. unfold wp, load. by intros ->. Qed.

Lemma wp_store s l c c' P :
  heap s !! l = Some c -> P tt (set_heap (<[l := c']> (heap s)) s) -> wp (store l c') s P.
Proof. unfold wp, store. by intros ->. Qed.

Lemma wp_update s l c f P :
  heap s !! l = Some c -> P tt (set_heap (<[l := f c]> (heap s)) s) -> wp (update l f) s P.
Proof. intros Hl HP. unfold update. apply wp_bind. eapply wp_load; [done|]. by eapply wp_store. Qed.

Lemma wp_get s P : P s s -> wp get s P.
Proof. done. Qed.

Lemma wp_modify f s P : P tt (f s) -> wp (modify f) s P.
Proof. done. Qed.

(** An update that keeps id and references, e.g. of status or flags. *)
Lemma wp_update_inv e s ql w x l c f P :
  inv e s ql w x -> heap s !! l = Some c ->
  ch_ref (f c) = ch_ref c -> ch_via (f c) = ch_via c ->
  (l ∈ ql -> ch_id (f c) = ch_id c /\ item_ok e s l (f c)) ->
  (w l = true -> ch_status (f c) = STAT_NEW) ->
  (inv e (set_heap (<[l := f c]> (heap s)) s) ql w x ->
   P tt (set_heap (<[l := f c]> (heap s)) s)) ->
  wp (update l f) s P.
Proof.
  intros Hi Hl Hr Hv Hq Hst HP. eapply wp_update; [done|]. apply HP.
  destruct (inv_ref _ _ _ _ _ Hi l c Hl) as [E E0].
  eapply inv_heap_set; try done.
  - unfold same_kind. rewrite Hv. by destruct (ch_via c).
  - apply (inv_x _ _ _ _ _ Hi).
  - rewrite Hr, E. unfold owners, qref. by rewrite Hv.
  - lia.
Qed.

Lemma wp_incref e s ql w x l c P :
  inv e s ql w x -> heap s !! l = Some c -> x l + 4 < 4294967296 ->
  (forall s', s' = set_heap (<[l := with_ref (ch_ref c + 1) c]> (heap s)) s ->
     inv e s' ql w (<[l := x l + 1]> x) -> P tt s') ->
  wp (ti_incref l) s P.
Proof.
  intros Hi Hl Hb HP. destruct (inv_ref _ _ _ _ _ Hi l c Hl) as [E E0].
  pose proof (owners_bound s ql w x l c). pose proof (inv_x _ _ _ _ _ Hi l).
  eapply wp_update; [done|]. cbv beta. rewrite u32_small by lia. apply HP; [done|].
  eapply inv_heap_set; try done.
  - unfold same_kind. simpl. by destruct (ch_via c).
  - intros Hq. destruct (inv_item _ _ _ _ _ Hi l Hq) as (c0 & ? & Hok). simplify_eq. split; [done|].
    destruct Hok as (? & ? & ?). split_and!; try done; simpl; try lia.
  - exact (inv_wait_status _ _ _ _ _ l c Hi Hl).
  - intros l' Hne. by rewrite fn_lookup_insert_ne.
  - rewrite fn_lookup_insert. lia.
  - simpl. rewrite E. unfold owners, qref. rewrite fn_lookup_insert. simpl. lia.
  - simpl. lia.
Qed.

(** Dropping a reference held outside the queue; the cell survives when there
    is another one. *)
Lemma wp_drop e s ql w x l c P :
  inv e s ql w x -> heap s !! l = Some c -> 1 <= x l -> x l + 4 < 4294967296 ->
  (forall h, let s' := set_heap h s in
     inv e s' ql w (<[l := x l - 1]> x) ->
     (forall l', l' <> l -> h !! l' = heap s !! l') /\
       (h !! l = None \/ h !! l = Some (with_ref (ch_ref c - 1) c)) ->
     (1 < owners s ql w x l c -> h !! l = Some (with_ref (ch_ref c - 1) c)) -> P tt s') ->
  wp (ti_change_drop l) s P.
Proof.
  intros Hi Hl Hx Hb HP. destruct (inv_ref _ _ _ _ _ Hi l c Hl) as [E E0].
  pose proof (owners_bound s ql w x l c). unfold ti_change_drop.
  destruct (Nat.eqb_spec l NULL) as [->|]; [by rewrite (inv_NULL _ _ _ _ _ Hi) in Hl|].
  apply wp_bind. eapply wp_load; [done|]. cbv zeta. rewrite u32_small by lia.
  destruct (Z.eqb_spec (ch_ref c - 1) 0).
  - simpl. apply wp_modify. apply HP.
    + replace (x l - 1) with 0 by (unfold owners in *; pose proof (qref_bound s l c);
        destruct (bool_decide (l ∈ ql)), (w l); simpl in *; lia).
      eapply inv_heap_free; try done; [lia|].
      unfold owners in *; pose proof (qref_bound s l c);
        destruct (bool_decide (l ∈ ql)), (w l); simpl in *; lia.
    + split; [|left; by rewrite lookup_delete_eq]. intros l' Hne. by rewrite lookup_delete_ne.
    + lia.
  - simpl. eapply wp_store; [done|]. apply HP.
    + eapply inv_heap_set; try done.
      * unfold same_kind. simpl. by destruct (ch_via c).
      * intros Hq. destruct (inv_item _ _ _ _ _ Hi l Hq) as (c0 & ? & Hok). simplify_eq. split; [done|].
        destruct Hok as (? & ? & ?). split_and!; try done; simpl; try lia.
      * exact (inv_wait_status _ _ _ _ _ l c Hi Hl).
      * intros l' Hne. by rewrite fn_lookup_insert_ne.
      * rewrite fn_lookup_insert. lia.
      * simpl. rewrite E. unfold owners, qref. rewrite fn_lookup_insert. simpl. lia.
      * simpl. lia.
    + split; [|right; by rewrite lookup_insert_eq]. intros l' Hne. by rewrite lookup_insert_ne.
    + intros _. by rewrite lookup_insert_eq.
Qed.

(** ** Rules for the queue operations *)

(** Only the queue and the counters may differ. *)
Definition qframe s s' : Prop :=
  heap s' = heap s /\ pending s' = pending s /\ queries s' = queries s /\
  next_qid s' = next_qid s /\ next_loc s' = next_loc s /\ next_change_id s' = next_change_id s /\
  skipped_ids s' = skipped_ids s /\ this_ccid s' = this_ccid s /\ trace s' = trace s.

Lemma wp_queue_op {A} (f : Q -> option (A * Q)) s a q' P :
  f (ch_queue s) = Some (a, q') -> P a (set_queue q' s) -> wp (queue_op f) s P.
Proof. unfold wp, queue_op, bind, get, lift. simpl. by intros ->. Qed.

Lemma wp_queue_items e s ql w x P :
  inv e s ql w x -> P ql s -> wp queued s P.
Proof.
  intros Hi HP. unfold wp, queued, bind, get, lift. simpl.
  by rewrite (dq_each_ok _ _ (inv_rep _ _ _ _ _ Hi)).
Qed.

Lemma wp_queue_last e s ql w x P :
  inv e s ql w x -> P (default NULL (list.last ql)) s -> wp last_change s P.
Proof.
  intros Hi HP. unfold wp, last_change, bind, get, lift. simpl.
  by rewrite (dq_last_ok NULL _ _ (inv_rep _ _ _ _ _ Hi)).
Qed.

Lemma wp_queue_first e s ql w x P :
  inv e s ql w x -> P (default NULL (head ql)) s -> wp first_change s P.
Proof.
  intros Hi HP. unfold wp, first_change, bind, get, lift. simpl.
  by rewrite (dq_first_ok NULL _ _ (inv_rep _ _ _ _ _ Hi)).
Qed.

Lemma wp_load_all s ls P :
  (forall l, l ∈ ls -> is_Some (heap s !! l)) ->
  (forall cs, Forall2 (fun l c => heap s !! l = Some c) ls cs -> P cs s) ->
  wp (load_all ls) s P.
Proof.
  revert P. induction ls as [|l ls IH]; intros P Hls HP; simpl; [apply HP; constructor|].
  destruct (Hls l) as [c Hc]; [set_solver|].
  apply wp_bind. eapply wp_load; [done|]. apply wp_bind. apply IH; [set_solver|].
  intros cs Hcs. apply wp_ret, HP. by constructor.
Qed.

Lemma inv_live e s ql w x l : inv e s ql w x -> l ∈ ql -> is_Some (heap s !! l).
Proof. intros Hi Hl. destruct (inv_item _ _ _ _ _ Hi l Hl) as (c & ? & _). eauto. Qed.

Lemma insert_index_split s ql cs id :
  Forall2 (fun l c => heap s !! l = Some c) ql cs ->
  StronglySorted (fun a b => idof s a < idof s b) ql ->
  (forall a, a ∈ ql -> idof s a <> id) ->
  exists ql1 ql2, ql = ql1 ++ ql2 /\ insert_index id cs = len ql1 /\
    (forall a, a ∈ ql1 -> idof s a < id) /\ (forall b, b ∈ ql2 -> id < idof s b).
Proof.
  induction 1 as [|a c ql cs Ha Hcs IH]; intros Hs Hne; simpl.
  - exists [], []. split_and!; set_solver.
  - apply StronglySorted_cons in Hs as [Hf Hs].
    assert (Hid : idof s a = ch_id c) by (unfold idof; by rewrite Ha).
    assert (idof s a <> id) by (apply Hne; set_solver).
    destruct (Z.ltb_spec id (ch_id c)).
    + exists [], (a :: ql). split_and!; try done; [set_solver|].
      intros b [->|Hb]%elem_of_cons; [lia|]. eapply Forall_forall in Hf; [|done]. lia.
    + destruct IH as (ql1 & ql2 & -> & -> & H1 & H2); [done|set_solver|].
      exists (a :: ql1), ql2. split_and!; try done.
      * unfold len. simpl. lia.
      * intros b [->|Hb]%elem_of_cons; [lia|auto].
Qed.

Lemma wp_push e s ql w x l c ok P :
  inv e s ql w x -> heap s !! l = Some c -> l ∉ ql -> 1 <= x l -> item_ok e s l c ->
  (forall a, a ∈ ql -> idof s a <> ch_id c) -> 0 < dq_space (ch_queue s) -> len ql < dq_limit ->
  (forall ql' s', qframe s s' -> inv e s' ql' w (<[l := x l - 1]> x) ->
     (forall y, y ∈ ql' <-> y = l \/ y ∈ ql) -> len ql' = len ql + 1 -> P 0 s') ->
  wp (changes__push ok l) s P.
Proof.
  intros Hi Hl Hn Hx Hit Hne Hsp Hlim HP. unfold changes__push.
  apply wp_bind. eapply wp_load; [done|]. apply wp_bind.
  assert (Hrep := inv_rep _ _ _ _ _ Hi). assert (Hs := inv_sorted _ _ _ _ _ Hi).
  eapply wp_queue_last; [done|].
  assert (Hpush : (forall a, a ∈ ql -> idof s a < ch_id c) ->
    wp (queue_op (fun q => dq_push ok q l)) s P).
  { intros Hlow. destruct (dq_push_ok ok _ _ l Hrep Hlim Hsp) as (q' & E & Hrep').
    eapply wp_queue_op; [done|]. eapply (HP (ql ++ [l])); [done| | |by rewrite len_app].
    - apply (inv_enqueue _ _ ql [] _ _ _ c); rewrite ?app_nil_r; try done. set_solver.
    - set_solver. }
  destruct (list.last ql) as [la|] eqn:Ela; simpl.
  - apply last_Some in Ela as [ql0 ->].
    destruct (inv_item _ _ _ _ _ Hi la) as (cl & Hcl & _); [set_solver|].
    destruct (Nat.eqb_spec la NULL) as [->|_]; [by rewrite (inv_NULL _ _ _ _ _ Hi) in Hcl|].
    apply wp_bind, wp_bind. eapply wp_load; [done|]. apply wp_ret.
    assert (Hid : idof s la = ch_id cl) by (unfold idof; by rewrite Hcl).
    destruct (Z.ltb_spec (ch_id cl) (ch_id c)).
    + apply Hpush. apply StronglySorted_app in Hs as (Hs & _). intros a [Ha|Ha]%elem_of_app.
      * specialize (Hs a la Ha ltac:(set_solver)). lia.
      * apply list_elem_of_singleton in Ha as ->. lia.
    + apply wp_bind, wp_modify. apply wp_bind.
      assert (Hi1 : inv e (count_unaligned s) (ql0 ++ [la]) w x) by (eapply inv_ext; [done..|simpl; lia]).
      eapply wp_queue_items; [done|]. apply wp_bind. apply wp_load_all.
      { intros l' Hl'. by apply (inv_live _ _ _ _ _ _ Hi). }
      intros cs Hcs.
      destruct (insert_index_split s (ql0 ++ [la]) cs (ch_id c) Hcs Hs Hne) as (ql1 & ql2 & Eql & -> & H1 & H2).
      rewrite Eql in *.
      destruct (dq_insert_ok ok _ _ (len ql1) l Hrep Hlim Hsp (len_nonneg ql1)) as (q' & E & Hrep').
      eapply wp_queue_op; [exact E|].
      replace (Z.to_nat (len ql1)) with (length ql1) in Hrep' by (unfold len; lia).
      rewrite take_app_length, drop_app_length in Hrep'.
      eapply (HP (ql1 ++ l :: ql2)); [done| | |].
      * by eapply (inv_enqueue e (count_unaligned s)).
      * set_solver.
      * rewrite !len_app. unfold len. simpl. lia.
  - apply wp_bind, wp_ret. apply Hpush. apply last_None in Ela as ->. set_solver.
Qed.

Lemma wp_rmval e s ql w x l P :
  inv e s ql w x -> l <> NULL ->
  (forall s', qframe s s' ->
     (if decide (l ∈ ql) then inv e s' (remove_first l ql) w (<[l := x l + 1]> x) /\ 0 < dq_space (ch_queue s')
      else s' = s) ->
     P (if decide (l ∈ ql) then l else NULL) s') ->
  wp (remove_change l) s P.
Proof.
  intros Hi Hl HP. unfold remove_change. apply wp_bind, wp_get. destruct (decide (dq_can_remove (ch_queue s))); [|done].
  destruct (dq_rmval_ok NULL _ _ l (inv_rep _ _ _ _ _ Hi) d) as (q' & E & Hrep & Hin & Hni).
  eapply wp_queue_op; [done|]. apply HP; [done|]. destruct (decide (l ∈ ql)) as [Hq|Hq].
  - split; [by apply inv_dequeue|]. by apply Hin.
  - rewrite (Hni Hq). by destruct s.
Qed.

Lemma wp_reserve e s ql w x ok P :
  inv e s ql w x -> len ql + 1 < dq_limit ->
  (forall rc s', qframe s s' -> inv e s' ql w x -> (rc = 0 /\ 0 < dq_space (ch_queue s') \/ rc = -1 /\ ok = false) -> P rc s') ->
  wp (queue_op (fun q => dq_reserve ok q 1)) s P.
Proof.
  intros Hi Hlim HP.
  destruct (dq_reserve_ok ok _ _ 1 (inv_rep _ _ _ _ _ Hi)) as (rc & q' & E & Hres); [lia|lia|].
  eapply wp_queue_op; [done|]. apply HP; [done| |simpl; intuition lia].
  assert (Hrep : dq_rep q' ql) by (destruct Hres as [(_ & ? & _)|(_ & _ & ->)]; [done|apply (inv_rep _ _ _ _ _ Hi)]).
  destruct Hi. split; done.
Qed.

(** ** Rules for queries and pending quorums *)

Lemma inv_query_del e s ql w x q l :
  inv e s ql w x -> queries s !! q = Some l -> (l ∈ ql -> l = e) -> w l = false ->
  inv e (set_queries (delete q (queries s)) s) ql w (<[l := x l + 1]> x).
Proof.
  intros Hi Hq Hn Hw. pose proof Hi as [R1 R2 R3 R4 R5 R6 R7 R8 R9 R10 R11 R12 R13 R14].
  destruct (R8 q l Hq) as (c & Hc & Hv).
  split; simpl; try done.
  - intros l' Hl'. destruct (R3 l' Hl') as (c' & ? & Hok). exists c'. split; [done|].
    unfold item_ok in *. simpl. destruct Hok as (? & ? & Hok). split_and!; try done; try lia.
    destruct (ch_via c') as [q'|]; [|done]. destruct (decide (l = l')) as [<-|]; [auto|].
    destruct Hok as [Hok|]; [left|by right]. rewrite lookup_delete_ne; [done|]. intros <-. congruence.
  - intros l' Hw'. destruct (R7 l' Hw') as (c' & q' & ? & ? & ? & ?). exists c', q'.
    rewrite lookup_delete_ne; [done|]. intros <-. congruence.
  - intros q' l' [? ?]%lookup_delete_Some. by apply R8.
  - intros l' c' Hc'. destruct (R9 l' c' Hc') as [E E0]. unfold owners, qref in *. simpl.
    destruct (decide (l = l')) as [<-|Hne].
    + assert (c' = c) as -> by congruence. rewrite fn_lookup_insert. rewrite Hv in *.
      rewrite lookup_delete_eq. rewrite (bool_decide_eq_true_2 (queries s !! q = Some l)) in E, E0 by done.
      rewrite (bool_decide_eq_false_2 (None = Some l)) by done. simpl in *. lia.
    + rewrite fn_lookup_insert_ne by done. destruct (ch_via c') as [q'|]; [|done].
      destruct (decide (q = q')) as [<-|]; [|by rewrite lookup_delete_ne].
      rewrite lookup_delete_eq. rewrite Hq in E, E0.
      rewrite (bool_decide_eq_false_2 (Some l = Some l')) in E, E0 by congruence.
      by rewrite (bool_decide_eq_false_2 (None = Some l')).
  - intros l' Hn'. destruct (decide (l = l')) as [<-|Hne]; [congruence|].
    rewrite fn_lookup_insert_ne by done. auto.
  - intros l'. destruct (decide (l = l')) as [<-|Hne]; [rewrite fn_lookup_insert; specialize (R11 l); lia|].
    by rewrite fn_lookup_insert_ne.
Qed.

Lemma inv_add_pending e s ql w x q l m c qq :
  inv e s ql w x -> q_inv m q -> 0 < m -> w l = false -> (cb_ q = true -> 1 <= x l) ->
  heap s !! l = Some c -> ch_via c = ViaQuery qq -> queries s !! qq = Some l ->
  ch_status c = STAT_NEW ->
  inv e (add_pending q l s) ql (if cb_ q then <[l := true]> w else w)
    (if cb_ q then <[l := x l - 1]> x else x).
Proof.
  intros Hi Hq Hm Hw Hx Hl Hv Hqq Hst. pose proof Hi as [R1 R2 R3 R4 R5 R6 R7 R8 R9 R10 R11 R12 R13 R14].
  assert (Hnew : pending s !! next_qid s = None).
  { destruct (pending s !! next_qid s) as [[q' l']|] eqn:E; [|done]. destruct (R6 _ _ _ E). lia. }
  split; simpl; try done.
  - intros l'. split.
    + intros Hw'. destruct (decide (l = l')) as [<-|Hne].
      * destruct (cb_ q) eqn:Ecb; [|congruence]. exists (next_qid s), q. by rewrite lookup_insert_eq.
      * assert (Hw0 : w l' = true) by (destruct (cb_ q); [by rewrite fn_lookup_insert_ne in Hw'|done]).
        apply R4 in Hw0 as (p & q' & Hp & ?). exists p, q'. rewrite lookup_insert_ne; [done|]. intros <-. congruence.
    + intros (p & q' & Hp & Hcb). destruct (decide (next_qid s = p)) as [<-|Hne].
      * rewrite lookup_insert_eq in Hp. simplify_eq. rewrite Hcb. by rewrite fn_lookup_insert.
      * rewrite lookup_insert_ne in Hp by done. assert (Hw' : w l' = true) by (apply R4; eauto).
        destruct (cb_ q); [|done]. destruct (decide (l = l')) as [<-|]; [by rewrite fn_lookup_insert|].
        by rewrite fn_lookup_insert_ne.
  - intros p p' q1 q2 l' Hp Hp' H1 H2.
    destruct (decide (next_qid s = p)) as [<-|Hne], (decide (next_qid s = p')) as [<-|Hne']; [done| | |].
    + rewrite lookup_insert_eq in Hp. rewrite lookup_insert_ne in Hp' by done. simplify_eq.
      assert (w l' = true) by (apply R4; eauto). congruence.
    + rewrite lookup_insert_eq in Hp'. rewrite lookup_insert_ne in Hp by done. simplify_eq.
      assert (w l' = true) by (apply R4; eauto). congruence.
    + rewrite lookup_insert_ne in Hp, Hp' by done. by eapply R5.
  - intros p q' l' Hp. destruct (decide (next_qid s = p)) as [<-|Hne].
    + rewrite lookup_insert_eq in Hp. simplify_eq. split; [lia|]. by exists m.
    + rewrite lookup_insert_ne in Hp by done. destruct (R6 _ _ _ Hp). split; [lia|done].
  - intros l' Hw'. destruct (decide (l = l')) as [<-|Hne]; [by exists c, qq|].
    apply R7. destruct (cb_ q); [by rewrite fn_lookup_insert_ne in Hw'|done].
  - intros l' c' Hc'. destruct (R9 l' c' Hc') as [E E0]. unfold owners, qref in *. simpl.
    destruct (cb_ q); [|done]. destruct (decide (l = l')) as [<-|Hne].
    + rewrite !fn_lookup_insert. rewrite Hw in *. simpl in *. lia.
    + by rewrite !fn_lookup_insert_ne.
  - intros l' Hn'. destruct (cb_ q); [|auto]. destruct (decide (l = l')) as [<-|Hne]; [congruence|].
    rewrite fn_lookup_insert_ne by done. auto.
  - intros l'. destruct (cb_ q); [|auto]. destruct (decide (l = l')) as [<-|Hne].
    + rewrite fn_lookup_insert. specialize (Hx eq_refl). lia.
    + by rewrite fn_lookup_insert_ne.
Qed.

(** An answer changes the quorum [p], or frees it; its callback reference
    becomes available when the callback is due. *)
Lemma inv_set_pending e s ql w x p q l o :
  inv e s ql w x -> pending s !! p = Some (q, l) ->
  (forall q', o = Some q' -> (exists m, 0 < m /\ q_inv m q') /\ (cb_ q' = true -> cb_ q = true)) ->
  let due := cb_ q && negb (match o with Some q' => cb_ q' | None => false end) in
  inv e (set_pending (match o with Some q' => <[p := (q', l)]> (pending s)
                                 | None => delete p (pending s) end) s) ql
    (if due then <[l := false]> w else w) (if due then <[l := x l + 1]> x else x).
Proof.
  intros Hi Hp Ho due. pose proof Hi as [R1 R2 R3 R4 R5 R6 R7 R8 R9 R10 R11 R12 R13 R14].
  set (P' := match o with Some q' => <[p := (q', l)]> (pending s) | None => delete p (pending s) end).
  assert (Hne : forall p', p' <> p -> P' !! p' = pending s !! p').
  { intros p' ?. unfold P'. destruct o; [by rewrite lookup_insert_ne|by rewrite lookup_delete_ne]. }
  assert (Heq : P' !! p = (fun q' => (q', l)) <$> o).
  { unfold P'. destruct o; [by rewrite lookup_insert_eq|by rewrite lookup_delete_eq]. }
  assert (Hold : forall p' q' l', P' !! p' = Some (q', l') -> cb_ q' = true ->
    exists q0, pending s !! p' = Some (q0, l') /\ cb_ q0 = true).
  { intros p' q' l' Hp' Hcb. destruct (decide (p' = p)) as [->|]; [|rewrite Hne in Hp' by done; eauto].
    rewrite Heq in Hp'. destruct o as [q1|]; simplify_eq/=. destruct (Ho q' eq_refl) as [_ Hc]. eauto. }
  assert (Hwl : due = true -> w l = true).
  { unfold due. intros [Hc _]%andb_true_iff. apply R4. eauto. }
  split; simpl; try done.
  - intros l'. fold P'. split.
    + intros Hw'. assert (Hw0 : w l' = true).
      { destruct due; [|done]. destruct (decide (l = l')) as [<-|]; [by rewrite fn_lookup_insert in Hw'|].
        by rewrite fn_lookup_insert_ne in Hw'. }
      apply R4 in Hw0 as (p' & q' & Hp' & Hcb). destruct (decide (p' = p)) as [->|Hp'ne].
      * simplify_eq. destruct due eqn:Ed; [by rewrite fn_lookup_insert in Hw'|].
        unfold due in Ed. rewrite Hcb in Ed. simpl in Ed. apply negb_false_iff in Ed.
        destruct o as [q1|]; [|done]. exists p, q1. by rewrite Heq.
      * exists p', q'. by rewrite Hne.
    + intros (p' & q' & Hp' & Hcb). destruct (Hold p' q' l' Hp' Hcb) as (q0 & Hq0 & Hcb0).
      assert (Hw0 : w l' = true) by (apply R4; eauto). destruct due eqn:Ed; [|done].
      destruct (decide (l = l')) as [<-|]; [|by rewrite fn_lookup_insert_ne].
      exfalso. unfold due in Ed. apply andb_true_iff in Ed as [Hq Hn].
      assert (p' = p) as -> by (by eapply R5). rewrite Heq in Hp'.
      destruct o; simplify_eq/=. by rewrite Hcb in Hn.
  - intros p1 p2 q1 q2 l' H1 H2 C1 C2.
    destruct (Hold _ _ _ H1 C1) as (? & ? & ?), (Hold _ _ _ H2 C2) as (? & ? & ?). by eapply R5.
  - intros p' q' l' Hp'. fold P' in Hp'. destruct (decide (p' = p)) as [->|].
    + rewrite Heq in Hp'. destruct o as [q1|]; simplify_eq/=. destruct (Ho q' eq_refl) as [? _].
      split; [|done]. by destruct (R6 _ _ _ Hp).
    + rewrite Hne in Hp' by done. eauto.
  - intros l' Hw'. apply R7. destruct due; [|done]. destruct (decide (l = l')) as [<-|].
    + by rewrite fn_lookup_insert in Hw'.
    + by rewrite fn_lookup_insert_ne in Hw'.
  - intros l' c' Hc'. destruct (R9 l' c' Hc') as [E E0]. unfold owners, qref in *. simpl.
    destruct due; [|done]. destruct (decide (l = l')) as [<-|].
    + rewrite !fn_lookup_insert. rewrite Hwl in E, E0 by done. simpl in *. lia.
    + by rewrite !fn_lookup_insert_ne.
  - intros l' Hn. destruct due; [|auto]. destruct (decide (l = l')) as [<-|].
    + destruct (R7 l (Hwl eq_refl)) as (? & ? & ? & _). congruence.
    + rewrite fn_lookup_insert_ne by done. auto.
  - intros l'. destruct due; [|auto]. destruct (decide (l = l')) as [<-|].
    + rewrite fn_lookup_insert. specialize (R11 l). lia.
    + by rewrite fn_lookup_insert_ne.
Qed.

(** ** Requesting an id *)

Ltac fn_simpl :=
  repeat first
    [ rewrite fn_lookup_insert
    | rewrite fn_lookup_insert_ne by done ].

(** Pointwise equality of two reference functions updated at one address. *)
Ltac fn_ext l :=
  let l' := fresh "l'" in
  intros l'; destruct (decide (l = l')) as [<-|]; fn_simpl; try lia; try done.

(** What every operation but the loop and [ti_changes_accept_id] leaves alone. *)
Definition grow s s' : Prop :=
  next_change_id s <= next_change_id s' /\ skipped_ids s' = skipped_ids s /\ this_ccid s' = this_ccid s.

Lemma grow_trans s1 s2 s3 : grow s1 s2 -> grow s2 s3 -> grow s1 s3.
Proof. intros (? & ? & ?) (? & ? & ?). split_and!; [lia|congruence|congruence]. Qed.

Lemma qframe_grow s s' : qframe s s' -> grow s s'.
Proof. intros (_ & _ & _ & _ & _ & E & ? & ? & _). split_and!; [lia|done|done]. Qed.

Ltac grow_tac := split_and!; [simpl; lia|done|done].

(** [c] is a master change at [l] whose query is alive. *)
Definition master_at s l : Prop :=
  exists c q, heap s !! l = Some c /\ ch_via c = ViaQuery q /\ queries s !! q = Some l /\
    ch_status c = STAT_NEW.

Lemma inv_alive e s ql w x l : inv e s ql w x -> 1 <= x l -> exists c, heap s !! l = Some c.
Proof.
  intros Hi Hx. destruct (heap s !! l) as [c|] eqn:E; [eauto|].
  rewrite (inv_dead _ _ _ _ _ Hi l E) in Hx. lia.
Qed.

Lemma wp_query_destroy e s ql w x q l P :
  inv e s ql w x -> queries s !! q = Some l -> (l ∈ ql -> l = e) -> w l = false -> x l + 5 < 4294967296 ->
  (forall s', inv e s' ql w x -> next_change_id s' = next_change_id s -> ch_queue s' = ch_queue s ->
     this_ccid s' = this_ccid s -> trace s' = trace s -> skipped_ids s' = skipped_ids s ->
     (forall l', is_Some (heap s' !! l') -> idof s' l' = idof s l') -> P tt s') ->
  wp (query_destroy q) s P.
Proof.
  intros Hi Hq Hn Hw Hb HP. unfold query_destroy. apply wp_bind, wp_get. rewrite Hq.
  apply wp_bind, wp_modify. pose proof (inv_x _ _ _ _ _ Hi l).
  destruct (inv_query _ _ _ _ _ Hi q l Hq) as (c & Hc & _).
  assert (Hi' := inv_query_del _ _ _ _ _ _ _ Hi Hq Hn Hw).
  eapply wp_drop; [exact Hi'|exact Hc|fn_simpl; lia|fn_simpl; lia|].
  intros h s' Hinv [Hother Hself] _. apply HP; try done; [eapply inv_x_ext; [exact Hinv|]; fn_ext l|].
  intros l' [c' Hc']. unfold idof. simpl in *. destruct (decide (l' = l)) as [->|]; [|by rewrite Hother].
  rewrite Hc. destruct Hself as [E|E]; rewrite E in *; done.
Qed.

(** The failure path of [changes__new_id]: the reference of the queue and the
    query are gone, the caller's reference is left. *)
Definition new_id_fail (l : loc) (nr : Z) : M state unit :=
  ti_change_drop l;;;
  c <- load l;;
  match ch_via c with
  | ViaQuery q => ti_query_response q nr;;; update l (with_status STAT_CANCEL)
  | ViaCpkg _ => lift None
  end.

Lemma wp_new_id_fail e s ql w x l nr P :
  inv e s ql w x -> master_at s l -> l ∉ ql -> w l = false -> 2 <= x l -> x l + 5 < 4294967296 ->
  (forall s', inv e s' ql w (<[l := x l - 1]> x) -> grow s s' -> P tt s') ->
  wp (new_id_fail l nr) s P.
Proof.
  intros Hi (c & q & Hl & Hv & Hq & Hst) Hn Hw Hx Hb HP. unfold new_id_fail.
  apply wp_bind. eapply wp_drop; [exact Hi|exact Hl|lia|lia|]. intros h s1 Hi1 _ Hself.
  assert (Hc1 : heap s1 !! l = Some (with_ref (ch_ref c - 1) c)).
  { apply Hself. pose proof (owners_bound s ql w x l c). lia. }
  apply wp_bind. eapply wp_load; [exact Hc1|]. cbn [ch_via with_ref]. rewrite Hv.
  apply wp_bind. unfold ti_query_response. apply wp_bind, wp_modify.
  assert (Hi2 : inv e (log (EvError q nr) s1) ql w (<[l := x l - 1]> x)) by (eapply inv_ext; [done..|simpl; lia]).
  eapply wp_query_destroy; [exact Hi2|exact Hq|done|done|fn_simpl; lia|].
  intros s3 Hi3 En Eq Ec _ Es _.
  destruct (inv_alive _ _ _ _ _ l Hi3) as [c3 Hc3]; [fn_simpl; lia|].
  eapply wp_update_inv; [exact Hi3|exact Hc3|done|done|done|congruence|].
  intros Hi4. apply HP; [done|]. split_and!; [simpl; rewrite En; simpl; lia|done|done].
Qed.

Section Request.
Context (vec : list ti_node) (this : nat).
Hypothesis Hvec : 0 < len vec <= NODES__MAX.
Hypothesis Hthis : (this < length vec)%nat.

Lemma failed_requests_le vec' : forall i sent,
  (failed_requests this i sent vec' <=
   length vec' - (if decide (i <= this < i + length vec') then 1 else 0))%nat.
Proof.
  induction vec' as [|n vec' IH]; intros i sent; simpl; [lia|].
  destruct (Nat.eqb_spec i this) as [->|].
  - specialize (IH (S this) sent). destruct (decide (S this <= this < _)%nat); [lia|].
    destruct (decide _); lia.
  - specialize (IH (S i) (tail sent)).
    destruct (decide (S i <= this < _)%nat), (decide (i <= this < _)%nat); destruct (_ || _); lia.
Qed.

Lemma request_quorum sent :
  let q := quorum_shrink (failed_requests this 0 sent vec) (ti_quorum_new vec) in
  exists m, q_inv m q /\ cb_ q = true.
Proof.
  destruct (q_inv_new vec Hvec) as (Hq & _ & Hcb).
  pose proof (failed_requests_le vec 0 sent) as Hf. simpl in Hf.
  destruct (decide (0 <= this < length vec)%nat); [|lia].
  destruct (q_inv_shrinks (failed_requests this 0 sent vec) (len vec - 1) _ ltac:(unfold len in *; lia) Hq) as [Hq' Hcb'].
  eexists. split; [exact Hq'|congruence].
Qed.

Definition att_bound (att : list attempt) s x l : Prop :=
  x l + len att + 10 < 4294967296 /\ next_change_id s + len att + 1 < 18446744073709551616.

(** The specification of [changes__req_change_id]: on success the reference it
    was given has moved, on failure nothing has changed. *)
Definition req_spec (att : list attempt) : Prop :=
  forall e s ql w x l (P : Z -> state -> Prop),
  inv e s ql w x -> master_at s l -> l ∉ ql -> w l = false -> 1 <= x l ->
  att_bound att s x l -> 0 < dq_space (ch_queue s) -> len ql + 1 < dq_limit ->
  (forall s' ql' w', inv e s' ql' w' (<[l := x l - 1]> x) -> len ql' <= len ql + 1 ->
     grow s s' -> P 0 s') ->
  P EX_MEMORY s ->
  wp (changes__req_change_id vec this att l) s P.

Lemma wp_new_id att reserve e s ql w x l P :
  req_spec att ->
  inv e s ql w x -> master_at s l -> w l = false -> 1 <= x l ->
  att_bound att s (<[l := x l + 1]> x) l -> len (remove_first l ql) + 1 < dq_limit ->
  (forall s' ql' w', inv e s' ql' w' x -> len ql' <= len (remove_first l ql) + 1 ->
     grow s s' -> P tt s') ->
  wp (changes__new_id (changes__req_change_id vec this att) vec reserve l) s P.
Proof.
  intros Hreq Hi Hm Hw Hx Hb Hlim HP. unfold changes__new_id. fold (new_id_fail l).
  assert (Hl : l <> NULL).
  { intros ->. destruct Hm as (c & q & Hc & _). by rewrite (inv_NULL _ _ _ _ _ Hi) in Hc. }
  assert (Hmid : forall s1 ql1, inv e s1 ql1 w (<[l := x l + 1]> x) -> qframe s s1 \/ heap s1 = <[l := match heap s !! l with Some c => with_ref (ch_ref c + 1) c | None => Change 0 STAT_NEW 0 0 0 (ViaCpkg 0) 0 end]> (heap s) /\ queries s1 = queries s /\ grow s s1 /\ next_change_id s1 = next_change_id s ->
    l ∉ ql1 -> len ql1 = len (remove_first l ql) ->
    (forall rc, wp (new_id_fail l rc) s1 P) /\
    (0 < dq_space (ch_queue s1) ->
     wp (if negb (ti_nodes_has_quorum vec) then new_id_fail l EX_NODE_ERROR
         else rc <- changes__req_change_id vec this att l;;
              if rc =? 0 then ret tt else new_id_fail l rc) s1 P)).
  { intros s1 ql1 Hi1 Hf Hn1 Hl1.
    assert (Hm1 : master_at s1 l /\ grow s s1).
    { destruct Hm as (c & q & Hc & Hv & Hq & Hst).
      destruct Hf as [Hf|(Eh & Eq & Hg & En)].
      - split; [|by apply qframe_grow]. destruct Hf as (Eh & _ & Eq & _). exists c, q. by rewrite Eh, Eq.
      - split; [|done]. rewrite Hc in Eh. exists (with_ref (ch_ref c + 1) c), q. rewrite Eh, Eq, lookup_insert_eq.
        done. }
    assert (En : next_change_id s1 = next_change_id s).
    { destruct Hf as [(_ & _ & _ & _ & _ & E & _)|(_ & _ & _ & E)]; done. }
    destruct Hm1 as [Hm1 Hg]. destruct Hb as [Hb1 Hb2]. pose proof (len_nonneg att).
    rewrite fn_lookup_insert in Hb1.
    assert (Hfail : forall rc, wp (new_id_fail l rc) s1 P).
    { intros rc. eapply wp_new_id_fail; [exact Hi1|done|done|done|fn_simpl; lia|fn_simpl; lia|].
      intros s' Hi' Hg'. apply (HP s' ql1 w); [|lia|by eapply grow_trans]. eapply inv_x_ext; [exact Hi'|]. fn_ext l. }
    split; [done|]. intros Hsp. destruct (negb _); [done|].
    apply wp_bind. eapply Hreq; try done; [fn_simpl; lia|split; fn_simpl; lia|lia| |].
    - intros s' ql' w' Hi' Hl' Hn'. simpl. apply wp_ret. apply (HP s' ql' w'); [|lia|by eapply grow_trans].
      eapply inv_x_ext; [exact Hi'|]. fn_ext l.
    - simpl. apply Hfail. }
  apply wp_bind. eapply wp_rmval; [done|done|]. intros s1 Hf Hres.
  destruct (decide (l ∈ ql)) as [Hql|Hql].
  - destruct Hres as [Hi1 Hsp]. rewrite (proj2 (Nat.eqb_neq l NULL)) by done.
    apply wp_bind, wp_ret. cbn [negb]. eapply (Hmid s1 (remove_first l ql)); try done.
    + by left.
    + rewrite elem_of_remove_first; [intuition|by eapply inv_NoDup].
  - subst s1. assert (Hrf : len (remove_first l ql) = len ql)
      by (rewrite len_remove_first, bool_decide_eq_false_2 by done; simpl; lia). rewrite Nat.eqb_refl. destruct Hm as (c & q & Hc & Hv & Hq & Hst).
    destruct Hb as [Hb1 Hb2]. rewrite fn_lookup_insert in Hb1. pose proof (len_nonneg att).
    apply wp_bind, wp_bind. eapply wp_incref; [done|done|lia|]. intros s1 -> Hi1.
    apply wp_bind. eapply wp_reserve; [exact Hi1|lia|]. intros rc s2 Hf2 Hi2 Hrc. apply wp_ret.
    destruct (Hmid s2 ql) as [HmA HmB]; [done| |done|done|].
    { right. rewrite Hc. apply qframe_grow in Hf2 as Hg2. by destruct Hf2 as (-> & _ & -> & _ & _ & -> & _). }
    destruct Hrc as [[-> Hsp]|[-> _]]; simpl; [by apply HmB|apply HmA].
Qed.

Lemma wp_on_req att reserve acc e s ql w x l P :
  req_spec att ->
  inv e s ql w x -> master_at s l -> w l = false -> 1 <= x l ->
  att_bound att s (<[l := x l + 1]> x) l -> len (remove_first l ql) + 1 < dq_limit ->
  (forall s' ql' w', inv e s' ql' w' (<[l := x l - 1]> x) -> len ql' <= len (remove_first l ql) + 1 ->
     grow s s' -> P tt s') ->
  wp (changes__on_req_change_id
       (changes__new_id (changes__req_change_id vec this att) vec reserve) l acc) s P.
Proof.
  intros Hreq Hi Hm Hw Hx Hb Hlim HP. unfold changes__on_req_change_id. apply wp_bind.
  assert (Hb1 : x l + 11 < 4294967296).
  { destruct Hb as [Hb _]. rewrite fn_lookup_insert in Hb. pose proof (len_nonneg att). lia. }
  assert (Hdrop : forall s1 ql1 w1, inv e s1 ql1 w1 x -> len ql1 <= len (remove_first l ql) + 1 ->
    grow s s1 -> wp (ti_change_drop l) s1 P).
  { intros s1 ql1 w1 Hi1 Hl1 Hn1. destruct (inv_alive _ _ _ _ _ l Hi1 Hx) as [c1 Hc1].
    eapply wp_drop; [exact Hi1|exact Hc1|lia|lia|]. intros h s' Hi' _ _. by eapply HP. }
  destruct acc; cbn [negb].
  - destruct Hm as (c & q & Hc & Hv & Hq & Hst).
    eapply wp_update_inv; [exact Hi|exact Hc|done|done| |by rewrite Hw|].
    + intros Hql. destruct (inv_item _ _ _ _ _ Hi l Hql) as (c0 & ? & Hit). simplify_eq. split; [done|].
      destruct Hit as (? & ? & ?). split_and!; try done; simpl; [lia|lia|by rewrite Hv in *].
    + intros Hi1. eapply Hdrop; [exact Hi1| |grow_tac].
      rewrite len_remove_first. destruct (bool_decide _); simpl; lia.
  - apply wp_bind, wp_modify.
    eapply (wp_new_id att reserve e (count_lost s) ql w x); try done.
    eapply inv_ext; [done..|simpl; lia].
Qed.

Lemma wp_req_change_id att : req_spec att.
Proof.
  induction att as [|a att IH]; intros e s ql w x l P Hi Hm Hn Hw Hx Hb Hsp Hlim HP Herr; simpl; [done|].
  destruct (negb (at_quorum a)); [done|]. destruct (negb (at_buffer a)); [done|].
  destruct Hm as (c & q & Hc & Hv & Hq & Hst).
  assert (Hlen : len (a :: att) = len att + 1) by (unfold len; simpl; lia).
  destruct Hb as [Hb1 Hb2]. rewrite Hlen in *. pose proof (len_nonneg att).
  pose proof (inv_next _ _ _ _ _ Hi).
  apply wp_bind. eapply wp_incref; [done|done|lia|]. intros s1 -> Hi1.
  apply wp_bind, wp_get. cbn [next_change_id set_heap].
  apply wp_bind. eapply wp_update_inv; [exact Hi1|simpl; by rewrite lookup_insert_eq|done|done|done|by rewrite Hw|].
  simpl heap. rewrite insert_insert_eq. cbn [ch_ref ch_status ch_flags ch_requests ch_via ch_time with_id with_ref].
  set (c2 := with_id (next_change_id s) (with_ref (ch_ref c + 1) c)). fold c2.
  intros Hi2. apply wp_bind, wp_modify. rewrite u64_small by lia.
  match type of Hi2 with inv _ ?s0 _ _ _ => set (s2 := s0) in * end.
  assert (Hi3 : inv e (set_next (next_change_id s + 1) s2) ql w (<[l := x l + 1]> x))
    by (eapply inv_ext; [exact Hi2|done..|simpl; lia]).
  apply wp_bind. eapply (wp_push e _ ql w _ l c2); [exact Hi3|simpl; by rewrite lookup_insert_eq|done|fn_simpl; lia| | | |lia|].
  { split_and!; simpl; [lia|lia|congruence|rewrite Hv; by left]. }
  { intros b Hb'. destruct (inv_item _ _ _ _ _ Hi b Hb') as (cb & Hcb & (Hid & _)).
    unfold idof. simpl. rewrite lookup_insert_ne by (by intros ->). rewrite Hcb. lia. }
  { done. }
  intros ql4 s4 Hf4 Hi4 Hin4 Hlen4.
  assert (Hc4 : heap s4 !! l = Some c2).
  { destruct Hf4 as (-> & _). simpl. by rewrite lookup_insert_eq. }
  assert (Hq4 : queries s4 !! q = Some l) by (by destruct Hf4 as (_ & _ & -> & _)).
  assert (Hn4 : next_change_id s4 = next_change_id s + 1) by (by destruct Hf4 as (_ & _ & _ & _ & _ & -> & _)).
  assert (Hg4 : grow s s4).
  { apply qframe_grow in Hf4. eapply grow_trans; [|exact Hf4]. grow_tac. }
  assert (Hi4' : inv e s4 ql4 w x) by (eapply inv_x_ext; [exact Hi4|]; fn_ext l).
  destruct (request_quorum (at_sent a)) as (m & Hqi & Hcbq).
  set (qu := quorum_shrink (failed_requests this 0 (at_sent a) vec) (ti_quorum_new vec)) in *.
  apply wp_bind. eapply wp_update_inv; [exact Hi4'|exact Hc4|done|done| |by rewrite Hw|].
  { intros Hl4. destruct (inv_item _ _ _ _ _ Hi4' l Hl4) as (c0 & ? & (? & ? & ?)). simplify_eq.
    split; [done|]. split_and!; try done; simpl; lia. }
  intros Hi5. set (c5 := with_requests (requests qu) c2) in *.
  set (s5 := set_heap (<[l := c5]> (heap s4)) s4) in *.
  assert (Hc5 : heap s5 !! l = Some c5) by (simpl; by rewrite lookup_insert_eq).
  pose proof (q_go _ _ Hqi) as Hgo. rewrite Hcbq in Hgo.
  assert (Hcall : forall s6 b, inv e s6 ql4 w x -> heap s6 !! l = Some c5 -> queries s6 !! q = Some l ->
    next_change_id s6 = next_change_id s + 1 -> grow s s6 ->
    wp (run_callbacks (changes__on_req_change_id
          (changes__new_id (changes__req_change_id vec this att) vec (at_reserve a))) l [b];;; ret 0) s6 P).
  { intros s6 b Hi6 Hc6 Hq6 Hn6 Hg6. simpl. apply wp_bind, wp_bind.
    assert (Hrf : len (remove_first l ql4) = len ql)
      by (rewrite len_remove_first, bool_decide_eq_true_2 by (apply Hin4; by left); simpl; lia).
    eapply (wp_on_req att (at_reserve a) b); [exact IH|exact Hi6|by exists c5, q|done|done| |lia|].
    - split; fn_simpl; lia.
    - intros s7 ql7 w7 Hi7 Hl7 Hn7. apply wp_ret, wp_ret. eapply HP; [exact Hi7|lia|by eapply grow_trans]. }
  destruct (ti_quorum_go qu) as [bs o] eqn:Ego. apply wp_bind, wp_modify.
  destruct (Z.eqb_spec m 0).
  - destruct Hgo as (cs & [= <- ->] & Hcs). destruct bs as [|b [|]]; try done. by apply Hcall.
  - destruct Hgo as (cs & q' & [= <- ->] & Hqi' & Hcs).
    assert (Hi6 : inv e (add_pending q' l s5) ql4 (if cb_ q' then <[l := true]> w else w)
      (if cb_ q' then <[l := x l - 1]> x else x)).
    { pose proof Hqi' as (_ & _ & _ & ? & _). eapply (inv_add_pending _ _ _ _ _ _ _ m c5 q); try done; lia. }
    destruct (cb_ q').
    + destruct bs; [|simpl in Hcs; lia]. apply wp_bind, wp_ret, wp_ret. eapply HP; [exact Hi6|lia|exact Hg4].
    + destruct bs as [|b [|]]; try (simpl in Hcs; lia). by apply Hcall.
Qed.

End Request.

(** ** The operations *)

(** The state is as the invariant says, and [x l] references to each change
    [l] are held outside the component (leaked ones). *)
Definition safe s ql w x : Prop := inv NULL s ql w x.

Lemma inv_weaken e s ql w x : inv NULL s ql w x -> inv e s ql w x.
Proof.
  intros Hi. pose proof Hi as [R1 R2 R3 R4 R5 R6 R7 R8 R9 R10 R11 R12 R13 R14]. split; try done.
  intros l Hl. destruct (R3 l Hl) as (c & Hc & (? & ? & Hv)). exists c. split; [done|].
  split_and!; try done; try lia.
  assert (l <> NULL) by (intros ->; by rewrite (inv_NULL _ _ _ _ _ Hi) in Hc).
  destruct (ch_via c), Hv; by auto.
Qed.

(** The other direction, when the exception is not queued. *)
Lemma inv_strengthen e s ql w x : inv e s ql w x -> e ∉ ql -> inv NULL s ql w x.
Proof.
  intros Hi He. pose proof Hi as [R1 R2 R3 R4 R5 R6 R7 R8 R9 R10 R11 R12 R13 R14]. split; try done.
  intros l Hl. destruct (R3 l Hl) as (c & Hc & (? & ? & Hv)). exists c. split; [done|].
  split_and!; try done; try lia.
  assert (l <> e) by congruence. destruct (ch_via c), Hv; by auto.
Qed.

Lemma inv_create e s ql w x via now :
  inv e s ql w x ->
  let l := next_loc s in
  inv e (Changes (<[l := Change 1 STAT_NEW 0 0 0 via now]> (heap s)) (S l) (next_qid s) (ch_queue s)
    (next_change_id s) (skipped_ids s) (this_ccid s) (wait_ccid s) (wait_gap_time s) (req_id s)
    (pending s) (queries s) (quorum_lost s) (changes_unaligned s) (trace s)) ql w (<[l := 1]> x) /\
  heap s !! l = None /\ l ∉ ql /\ w l = false /\ x l = 0.
Proof.
  intros Hi l. pose proof Hi as [R1 R2 R3 R4 R5 R6 R7 R8 R9 R10 R11 R12 R13 R14].
  assert (Hl : heap s !! l = None).
  { destruct (heap s !! l) eqn:E; [|done]. destruct (R12 l); [eauto|]. unfold l in *. lia. }
  destruct (in_queue_owner _ _ _ _ _ _ Hi Hl) as (Hn & Hw & Hx). split; [|done].
  assert (Hnq : forall q, queries s !! q <> Some l).
  { intros q Hq. destruct (R8 q l Hq) as (? & ? & _). congruence. }
  split; simpl; try done.
  - eapply sorted_idof; [|exact R2]. intros l' Hl'. unfold idof. simpl.
    rewrite lookup_insert_ne; [done|]. by intros ->.
  - intros l' Hl'. destruct (R3 l' Hl') as (c & ? & ?). exists c. rewrite lookup_insert_ne; [done|]. by intros ->.
  - intros l' Hw'. destruct (R7 l' Hw') as (c & q & ? & ? & ? & ?). exists c, q.
    rewrite lookup_insert_ne; [done|]. intros ->. congruence.
  - intros q l' Hq. destruct (R8 q l' Hq) as (c & ? & ?). exists c. rewrite lookup_insert_ne; [done|].
    intros <-. by eapply Hnq.
  - intros l' c Hc. destruct (decide (l = l')) as [<-|].
    + rewrite lookup_insert_eq in Hc. simplify_eq. unfold owners, qref. simpl. rewrite Hw, fn_lookup_insert.
      rewrite bool_decide_eq_false_2 by done. destruct via; simpl; [|lia].
      rewrite bool_decide_eq_false_2 by apply Hnq. simpl. lia.
    + rewrite lookup_insert_ne in Hc by done. destruct (R9 l' c Hc). unfold owners, qref in *. simpl.
      by rewrite fn_lookup_insert_ne.
  - intros l' Hl'. destruct (decide (l = l')) as [<-|]; [by rewrite lookup_insert_eq in Hl'|].
    rewrite lookup_insert_ne in Hl' by done. rewrite fn_lookup_insert_ne by done. auto.
  - intros l'. destruct (decide (l = l')) as [<-|]; [by rewrite fn_lookup_insert|]. by rewrite fn_lookup_insert_ne.
  - intros l' Hl'. destruct (decide (l = l')) as [<-|].
    + unfold l in *. lia.
    + rewrite lookup_insert_ne in Hl' by done. specialize (R12 l' Hl'). unfold l. lia.
  - lia.
Qed.

Lemma inv_query_add e s ql w x q l c :
  inv e s ql w x -> queries s !! q = None -> heap s !! l = Some c -> ch_via c = ViaQuery q -> 1 <= x l ->
  inv e (set_queries (<[q := l]> (queries s)) s) ql w (<[l := x l - 1]> x).
Proof.
  intros Hi Hq Hc Hv Hx. pose proof Hi as [R1 R2 R3 R4 R5 R6 R7 R8 R9 R10 R11 R12 R13 R14].
  split; simpl; try done.
  - intros l' Hl'. destruct (R3 l' Hl') as (c' & ? & (? & ? & Hok)). exists c'. split; [done|].
    split_and!; try done; try (simpl; lia). destruct (ch_via c') as [q'|]; [|done].
    destruct Hok as [Hok|]; [left|by right]. simpl. rewrite lookup_insert_ne; [done|]. intros <-. congruence.
  - intros l' Hw'. destruct (R7 l' Hw') as (c' & q' & ? & ? & ? & ?). exists c', q'.
    rewrite lookup_insert_ne; [done|]. intros <-. congruence.
  - intros q' l' Hq'. destruct (decide (q = q')) as [<-|].
    + rewrite lookup_insert_eq in Hq'. simplify_eq. eauto.
    + rewrite lookup_insert_ne in Hq' by done. eauto.
  - intros l' c' Hc'. destruct (R9 l' c' Hc') as [E E0]. unfold owners, qref in *. simpl.
    destruct (decide (l = l')) as [<-|].
    + assert (c' = c) as -> by congruence. rewrite Hv, fn_lookup_insert in *. rewrite lookup_insert_eq.
      rewrite (bool_decide_eq_false_2 (queries s !! q = Some l)) in E, E0 by congruence.
      rewrite (bool_decide_eq_true_2 (Some l = Some l)) by done. simpl in *. lia.
    + rewrite fn_lookup_insert_ne by done. destruct (ch_via c') as [q'|]; [|done].
      destruct (decide (q = q')) as [<-|]; [|by rewrite lookup_insert_ne].
      rewrite lookup_insert_eq. rewrite Hq in E, E0.
      rewrite (bool_decide_eq_false_2 (None = Some l')) in E, E0 by done.
      by rewrite (bool_decide_eq_false_2 (Some l = Some l')) by congruence.
  - intros l' Hl'. destruct (decide (l = l')) as [<-|]; [congruence|]. rewrite fn_lookup_insert_ne by done. auto.
  - intros l'. destruct (decide (l = l')) as [<-|]; [rewrite fn_lookup_insert; lia|]. by rewrite fn_lookup_insert_ne.
Qed.

(** A new change of this node. On success the references are those of before;
    when the id cannot be requested after the change was made, one reference to it is
    left over. *)
Lemma wp_create_new vec this reserve create now att query s ql w x P :
  0 < len vec <= NODES__MAX -> (this < length vec)%nat ->
  safe s ql w x -> queries s !! query = None -> len ql + 1 < dq_limit ->
  len att + 12 < 4294967296 -> next_change_id s + len att + 1 < 18446744073709551616 ->
  (forall rc s' ql' w' x', safe s' ql' w' x' -> grow s s' ->
     ((forall l, x' l = x l) \/ (rc = EX_MEMORY /\ exists l, heap s !! l = None /\ forall l', x' l' = (<[l := 1]> x : loc -> Z) l')) ->
     P rc s') ->
  wp (ti_changes_create_new_change vec this reserve create now att query) s P.
Proof.
  intros Hvec Hthis Hi Hq Hlim Hb1 Hb2 HP. unfold ti_changes_create_new_change.
  destruct (negb (ti_nodes_has_quorum vec)). { apply wp_ret. eapply HP; [exact Hi|grow_tac|by left]. }
  apply wp_bind. eapply wp_reserve; [exact Hi|done|]. intros rc s1 Hf1 Hi1 Hrc.
  destruct Hrc as [[-> Hsp]|[-> _]]; simpl; [|apply wp_ret; eapply HP; [exact Hi1|by apply qframe_grow|by left]].
  apply wp_bind. unfold ti_change_create. destruct create; simpl;
    [|apply wp_ret; eapply HP; [exact Hi1|by apply qframe_grow|by left]].
  destruct (inv_create _ _ _ _ _ (ViaQuery query) now Hi1) as (Hi2 & Hfree & Hn & Hw & Hx).
  unfold wp at 1. set (l := next_loc s1) in *.
  match type of Hi2 with inv _ ?s0 _ _ _ => set (s2 := s0) in * end.
  assert (Hc2 : heap s2 !! l = Some (Change 1 STAT_NEW 0 0 0 (ViaQuery query) now)) by (simpl; by rewrite lookup_insert_eq).
  destruct (Nat.eqb_spec l NULL) as [E|_].
  { rewrite E in Hc2. by rewrite (inv_NULL _ _ _ _ _ Hi2) in Hc2. }
  apply wp_bind. eapply wp_incref; [exact Hi2|exact Hc2|fn_simpl; lia|]. intros s3 Es3 Hi3.
  apply wp_bind, wp_get. apply wp_bind, wp_modify.
  assert (Hc3 : heap s3 !! l = Some (Change 2 STAT_NEW 0 0 0 (ViaQuery query) now)).
  { rewrite Es3. simpl. by rewrite lookup_insert_eq. }
  assert (Hq3 : queries s3 = queries s).
  { rewrite Es3. simpl. by destruct Hf1 as (_ & _ & -> & _). }
  assert (Hi4 := inv_query_add _ _ _ _ _ query l _ Hi3 ltac:(by rewrite Hq3) Hc3 eq_refl ltac:(fn_simpl; lia)).
  match type of Hi4 with inv _ ?s0 _ _ _ => set (s4 := s0) in * end.
  assert (Hg4 : grow s s4).
  { eapply grow_trans; [by apply qframe_grow|]. split_and!; simpl; rewrite Es3; simpl; [lia|done|done]. }
  assert (En4 : next_change_id s4 = next_change_id s).
  { simpl. rewrite Es3. simpl. by destruct Hf1 as (_ & _ & _ & _ & _ & -> & _). }
  eapply (wp_req_change_id vec this Hvec Hthis att NULL s4 ql w _ l); [exact Hi4| |done|done|fn_simpl; lia| | |done| |].
  - eexists _, query. split; [exact Hc3|]. split_and!; try done. simpl. by rewrite lookup_insert_eq.
  - split; fn_simpl; [lia|]. rewrite En4. lia.
  - simpl. rewrite Es3. done.
  - intros s' ql' w' Hi' _ Hg'. eapply HP; [exact Hi'|by eapply grow_trans|]. left. fn_ext l.
  - eapply HP; [exact Hi4|exact Hg4|]. right. split; [done|]. exists l. split.
    + by destruct Hf1 as (<- & _).
    + fn_ext l.
Qed.

(** An answer to a pending request. *)
Lemma wp_on_answer vec this this_id reserve att p a s ql w x P :
  0 < len vec <= NODES__MAX -> (this < length vec)%nat ->
  safe s ql w x -> is_Some (pending s !! p) -> len ql + 1 < dq_limit ->
  (forall l, x l + len att + 13 < 4294967296) -> next_change_id s + len att + 1 < 18446744073709551616 ->
  (forall s' ql' w', safe s' ql' w' x -> grow s s' -> P tt s') ->
  wp (changes_on_answer vec this this_id reserve att p a) s P.
Proof.
  intros Hvec Hthis Hi [[q l] Hp] Hlim Hb1 Hb2 HP. unfold changes_on_answer.
  apply wp_bind, wp_get. rewrite Hp. destruct (inv_pend _ _ _ _ _ Hi p q l Hp) as (_ & m & Hm & Hq).
  destruct (q_inv_count this_id a m q Hm Hq) as [Hq1 Hcb1]. unfold ti_quorum_req_cb.
  pose proof (q_go _ _ Hq1) as Hgo. rewrite Hcb1 in Hgo.
  destruct (ti_quorum_go (quorum_count this_id a q)) as [bs o] eqn:Ego.
  assert (Ho : (forall q', o = Some q' -> (exists m, 0 < m /\ q_inv m q') /\ (cb_ q' = true -> cb_ q = true)) /\
    (length bs = if cb_ q && negb (match o with Some q' => cb_ q' | None => false end) then 1 else 0)%nat).
  { destruct (Z.eqb_spec (m - 1) 0).
    - destruct Hgo as (cs & [= -> ->] & Hcs). split; [done|]. simpl. rewrite andb_true_r. done.
    - destruct Hgo as (cs & q' & [= -> ->] & Hq' & Hcs). split.
      + intros q2 [= <-]. split; [exists (m - 1); split; [lia|done]|].
        destruct (cb_ q); [done|]. intros Hc. rewrite Hc in Hcs. lia.
      + destruct (cb_ q), (cb_ q'); simpl; lia. }
  destruct Ho as [Ho Hbs]. apply wp_bind, wp_modify.
  pose proof (inv_set_pending _ _ _ _ _ _ _ _ o Hi Hp Ho) as Hi1. cbv zeta in Hi1.
  destruct (cb_ q && _) eqn:Edue.
  - destruct bs as [|b [|]]; try done. simpl. apply wp_bind.
    apply andb_true_iff in Edue as [Hcb _].
    assert (Hw : w l = true) by (apply (inv_wait _ _ _ _ _ Hi); eauto).
    destruct (inv_wq _ _ _ _ _ Hi l Hw) as (c & qq & Hc & Hv & Hqq & Hst).
    pose proof (inv_x _ _ _ _ _ Hi l). specialize (Hb1 l). pose proof (len_nonneg att).
    eapply (wp_on_req vec this Hvec Hthis att reserve b NULL); [by apply wp_req_change_id|exact Hi1|by exists c, qq| | | | |].
    + by rewrite fn_lookup_insert.
    + fn_simpl. lia.
    + split; fn_simpl; simpl; lia.
    + rewrite len_remove_first. destruct (bool_decide _); simpl; lia.
    + intros s' ql' w' Hi' _ Hg'. apply wp_ret. eapply HP; [|by eapply grow_trans; [|exact Hg']; grow_tac].
      eapply inv_x_ext; [exact Hi'|]. fn_ext l.
  - destruct bs; [|done]. simpl. apply wp_ret. eapply HP; [exact Hi1|grow_tac].
Qed.

(** The queued change with an id, if any. *)
Lemma find_id_spec s id ls cs found :
  Forall2 (fun l c => heap s !! l = Some c) ls cs ->
  (find_id id ls cs found = found /\ (forall l, l ∈ ls -> idof s l <> id)) \/
  (find_id id ls cs found ∈ ls /\ idof s (find_id id ls cs found) = id).
Proof.
  intros H. revert found. induction H as [|l c ls cs Hl Hcs IH]; intros found; simpl; [left; set_solver|].
  assert (Hid : idof s l = ch_id c) by (unfold idof; by rewrite Hl).
  destruct (Z.eqb_spec (ch_id c) id); destruct (IH (if ch_id c =? id then l else found)) as [[E Hn]|[Hin Hi]].
  all: try (rewrite (proj2 (Z.eqb_eq _ _)) in * by done); try (rewrite (proj2 (Z.eqb_neq _ _)) in * by done).
  - right. rewrite E. split; [set_solver|congruence].
  - right. split; [set_solver|done].
  - left. split; [done|]. intros l' [->|Hl']%elem_of_cons; [congruence|by apply Hn].
  - right. split; [set_solver|done].
Qed.

Lemma sorted_id_unique e s ql w x l l' :
  inv e s ql w x -> l ∈ ql -> l' ∈ ql -> idof s l = idof s l' -> l = l'.
Proof.
  intros Hi. pose proof (inv_sorted _ _ _ _ _ Hi) as Hs. clear Hi.
  induction Hs as [|a ql Hs IH Hf]; [set_solver|].
  rewrite !elem_of_cons. rewrite Forall_forall in Hf.
  intros [->|Hl] [->|Hl'] E; [done| | |auto].
  - specialize (Hf l' Hl'). lia.
  - specialize (Hf l Hl). lia.
Qed.

(** The part of [ti_changes_add_change] after the old change is out of the way. *)
Definition add_new (reserve create : bool) (now id flags : Z) : M state Z :=
  rc <- queue_op (fun q => dq_reserve reserve q 1);;
  if negb (rc =? 0) then ret (-1) else
  l <- ti_change_create create (ViaCpkg flags) now;;
  if (l =? NULL)%nat then ret (-1) else
  update l (with_id id);;;
  changes__push false l;;;
  update l (with_status STAT_READY);;;
  ret 0.

Lemma wp_add_new reserve create now id flags s ql w x P :
  safe s ql w x -> len ql + 1 < dq_limit -> 0 <= id < next_change_id s ->
  (forall l, l ∈ ql -> idof s l <> id) ->
  (forall rc s' ql' w', safe s' ql' w' x -> grow s s' -> P rc s') ->
  wp (add_new reserve create now id flags) s P.
Proof.
  intros Hi Hlim Hid Hne HP. unfold add_new.
  apply wp_bind. eapply wp_reserve; [exact Hi|done|]. intros rc s1 Hf1 Hi1 Hrc.
  destruct Hrc as [[-> Hsp]|[-> _]]; simpl; [|apply wp_ret; eapply HP; [exact Hi1|by apply qframe_grow]].
  apply wp_bind. unfold ti_change_create. destruct create; simpl; [|apply wp_ret; eapply HP; [exact Hi1|by apply qframe_grow]].
  destruct (inv_create _ _ _ _ _ (ViaCpkg flags) now Hi1) as (Hi2 & Hfree & Hn & Hw & Hx).
  unfold wp at 1. set (l := next_loc s1) in *.
  match type of Hi2 with inv _ ?s0 _ _ _ => set (s2 := s0) in * end.
  assert (Hc2 : heap s2 !! l = Some (Change 1 STAT_NEW 0 0 0 (ViaCpkg flags) now)) by (simpl; by rewrite lookup_insert_eq).
  destruct (Nat.eqb_spec l NULL) as [E|_].
  { rewrite E in Hc2. by rewrite (inv_NULL _ _ _ _ _ Hi2) in Hc2. }
  apply wp_bind. eapply (wp_update_inv l); [by apply inv_weaken|exact Hc2|done|done|done|by rewrite Hw|].
  intros Hi3. set (c3 := with_id id _) in *.
  match type of Hi3 with inv _ ?s0 _ _ _ => set (s3 := s0) in * end.
  assert (Hc3 : heap s3 !! l = Some c3) by (simpl; by rewrite lookup_insert_eq).
  apply wp_bind. eapply (wp_push l s3 ql w _ l c3); [exact Hi3|exact Hc3|done|fn_simpl; lia| | | |lia|].
  { destruct Hf1 as (_ & _ & _ & _ & _ & En & _). split_and!; simpl; rewrite ?En; [lia|lia|done|by right]. }
  { intros b Hb. unfold idof. simpl. rewrite !lookup_insert_ne by (by intros ->).
    destruct Hf1 as (Eh & _). rewrite Eh. by apply Hne. }
  { done. }
  intros ql4 s4 Hf4 Hi4 Hin4 _.
  assert (Hc4 : heap s4 !! l = Some c3) by (destruct Hf4 as (-> & _); done).
  apply wp_bind. eapply wp_update; [exact Hc4|]. apply wp_ret. eapply (HP 0 _ ql4 w); [|].
  2: { eapply grow_trans; [apply qframe_grow, Hf1|]. apply qframe_grow in Hf4. exact Hf4. }
  destruct (inv_ref _ _ _ _ _ Hi4 l c3 Hc4) as [E4 E4'].
  eapply (inv_x_ext _ _ _ _ (<[l := (<[l := 1]> x : loc -> Z) l - 1]> (<[l := 1]> x))).
  - eapply inv_heap_set; [exact Hi4|exact Hc4|done| |by rewrite Hw| | | |].
    + intros Hl4. split; [done|]. destruct (inv_item _ _ _ _ _ Hi4 l Hl4) as (c0 & ? & (Hr & ? & ?)).
      assert (c0 = c3) as -> by congruence. split_and!; [apply Hr|apply Hr|done|by left].
    + intros l' Hl'. split; [done|]. done.
    + fn_simpl. lia.
    + simpl. unfold owners, qref in *. simpl in *. lia.
    + simpl. lia.
  - fn_ext l.
Qed.

(** A change received from another node. *)
Lemma wp_add_change reserve create now id flags s ql w x P :
  safe s ql w x -> len ql + 1 < dq_limit -> 0 <= id ->
  next_change_id s + 1002 < 18446744073709551616 -> (forall l, x l + 5 < 4294967296) ->
  (forall rc s' ql' w', safe s' ql' w' x -> grow s s' -> P rc s') ->
  wp (ti_changes_add_change reserve create now id flags) s P.
Proof.
  intros Hi Hlim Hid Hnext Hb HP. unfold ti_changes_add_change. apply wp_bind, wp_get.
  unfold changes__max_id_gap, CHANGES__MAX_ID_GAP.
  destruct ((next_change_id s <? id) && (1000 <? id - next_change_id s)) eqn:Egap;
    [apply wp_ret; eapply HP; [exact Hi|grow_tac]|].
  destruct (id <=? this_ccid s); [apply wp_ret; eapply HP; [exact Hi|grow_tac]|].
  assert (Hle : id <= next_change_id s + 1000).
  { apply andb_false_iff in Egap as [?%Z.ltb_ge|?%Z.ltb_ge]; lia. }
  fold (add_new reserve create now id flags). apply wp_bind.
  assert (Hmid : forall s1, safe s1 ql w x -> id < next_change_id s1 -> grow s s1 ->
    wp (ls <- queued;; cs <- load_all ls;;
        go <- (if (find_id id ls cs NULL =? NULL)%nat then ret true else
           c <- load (find_id id ls cs NULL);;
           match ch_status c, ch_via c with
           | STAT_READY, ViaQuery _ => ret false
           | STAT_READY, ViaCpkg f =>
               store (find_id id ls cs NULL) (with_via (ViaCpkg (Z.lor f flags)) c);;; ret false
           | _, ViaCpkg _ => lift None
           | _, ViaQuery _ =>
               x <- remove_change (find_id id ls cs NULL);;
               (if (x =? NULL)%nat then ret tt else ti_change_drop x);;; ret true
           end);;
        if negb go then ret 1 else add_new reserve create now id flags) s1 P).
  { clear Hi Hnext Egap Hle. intros s1 Hi Hnext Hg1. assert (HP' : forall rc s' ql' w', safe s' ql' w' x -> grow s1 s' -> P rc s')
      by (intros; eapply HP; [done|by eapply grow_trans]). clear HP. clear s Hg1. rename s1 into s. apply wp_bind. eapply wp_queue_items; [exact Hi|].
    apply wp_bind, wp_load_all. { intros. by apply (inv_live _ _ _ _ _ _ Hi). }
    intros cs Hcs. apply wp_bind. destruct (find_id_spec s id ql cs NULL Hcs) as [[-> Hne]|[Hin Eid]].
    - simpl. apply wp_ret. simpl. by eapply wp_add_new.
    - set (l := find_id id ql cs NULL) in *. destruct (inv_item _ _ _ _ _ Hi l Hin) as (c & Hc & (Hr & Hst & Hv)).
      assert (Hl : l <> NULL) by (intros E; rewrite E in Hc; by rewrite (inv_NULL _ _ _ _ _ Hi) in Hc).
      rewrite (proj2 (Nat.eqb_neq l NULL)) by done. apply wp_bind. eapply wp_load; [exact Hc|].
      destruct (ch_status c) eqn:Est, (ch_via c) as [q|f] eqn:Ev; try done.
      + apply wp_bind. eapply wp_rmval; [exact Hi|done|]. intros s1 Hf1 Hres.
        destruct (decide (l ∈ ql)) as [_|]; [|done]. destruct Hres as [Hi1 _].
        rewrite (proj2 (Nat.eqb_neq l NULL)) by done. apply wp_bind.
        pose proof (inv_x _ _ _ _ _ Hi l). specialize (Hb l).
        assert (Hc1 : heap s1 !! l = Some c) by (by destruct Hf1 as (-> & _)).
        eapply wp_drop; [exact Hi1|exact Hc1|fn_simpl; lia|fn_simpl; lia|].
        intros h s2 Hi2 [Hother _] _. apply wp_ret. cbn [negb].
        pose proof (inv_NoDup _ _ _ _ _ Hi) as Hnd.
        eapply (wp_add_new _ _ _ _ _ _ (remove_first l ql) w x).
        * eapply inv_x_ext; [exact Hi2|]. fn_ext l.
        * rewrite len_remove_first. destruct (bool_decide _); simpl; lia.
        * simpl. destruct Hf1 as (_ & _ & _ & _ & _ & -> & _). lia.
        * intros l' [Hl' Hne]%elem_of_remove_first; [|done]. unfold idof. simpl.
          rewrite Hother by done. destruct Hf1 as (-> & _). intros E. apply Hne.
          eapply sorted_id_unique; [exact Hi|done|done|]. by rewrite Eid.
        * intros rc s' ql' w' Hi' Hg'. eapply HP'; [exact Hi'|].
          eapply grow_trans; [apply qframe_grow, Hf1|exact Hg'].
      + destruct Hv as [|Hv]; [congruence|done].
      + apply wp_ret. simpl. apply wp_ret. eapply HP'; [exact Hi|grow_tac].
      + apply wp_bind. eapply wp_store; [exact Hc|]. apply wp_ret. simpl. apply wp_ret. eapply HP'; [|grow_tac].
        destruct (inv_ref _ _ _ _ _ Hi l c Hc) as [Er Er0].
        eapply inv_heap_set; [exact Hi|exact Hc|by rewrite Ev| |by intros Hw; rewrite (inv_wait_status _ _ _ _ _ l c Hi Hc Hw) in Est|done| | |].
        * intros _. split; [done|]. split_and!; simpl; [lia|lia|by rewrite Est|by left].
        * apply (inv_x _ _ _ _ _ Hi).
        * simpl. rewrite Er. unfold owners, qref. simpl. by rewrite Ev.
        * simpl. lia. }
  destruct (Z.leb_spec (next_change_id s) id).
  - apply wp_modify. rewrite u64_small by lia. apply Hmid; [|simpl; lia|grow_tac].
    eapply inv_ext; [exact Hi|done..|simpl; lia].
  - apply wp_ret. apply Hmid; [done|lia|grow_tac].
Qed.

(** A request for an id from another node. *)
Lemma sorted_len (l : list Z) : forall a n,
  StronglySorted Z.lt l -> a <= n -> (forall y, y ∈ l -> a <= y < n) -> len l <= n - a.
Proof.
  induction l as [|y l IH]; intros a n Hs Han Hl; [unfold len; simpl; lia|].
  apply StronglySorted_cons in Hs as [Hf Hs]. assert (a <= y < n) by (apply Hl; set_solver).
  specialize (IH (y + 1) n Hs). unfold len in *. simpl length.
  assert (Z.of_nat (length l) <= n - (y + 1)); [|lia]. apply IH; [lia|].
  intros z Hz. assert (a <= z < n) by (apply Hl; set_solver). rewrite Forall_forall in Hf.
  specialize (Hf z Hz). lia.
Qed.

Lemma skip_ids_spec ok k : forall id o,
  ol_wf o -> 0 <= id -> (forall y, y ∈ ol_next o -> 0 <= y < id) -> id + Z.of_nat k + 1 < 18446744073709551615 ->
  ol_wf (skip_ids ok k id o) /\
  (forall y, y ∈ ol_next (skip_ids ok k id o) -> y ∈ ol_next o \/ id <= y < id + Z.of_nat k) /\
  (forall y, y ∈ ol_next o -> y ∈ ol_next (skip_ids ok k id o)).
Proof.
  induction k as [|k IH]; intros id o Hwf Hid Ho Hb; simpl; [split_and!; auto|].
  destruct (olist_set (ok id) o id) as [rc o'] eqn:E. simpl.
  assert (len (ol_next o) <= id - 0) by (apply sorted_len; [apply Hwf|lia|done]).
  destruct (olist_set_spec _ _ _ _ _ Hwf E) as (Hwf' & Hin & _ & _); [lia|].
  destruct (IH (id + 1) o') as (H1 & H2 & H3); [done|lia| |lia|].
  - intros y [Hy|[_ ->]]%Hin; [specialize (Ho y Hy)|]; lia.
  - split_and!; [done| |].
    + intros y [Hy|?]%H2; [|right; lia]. apply Hin in Hy as [?|[_ ->]]; [by left|right; lia].
    + intros y Hy. apply H3, Hin. by left.
Qed.

Lemma accept_skipped_spec ccid id ids : forall o,
  ol_wf o ->
  let '(b, o') := accept_skipped ccid id ids o in
  ol_wf o' /\ (forall y, y ∈ ol_next o' -> y ∈ ol_next o) /\
  (b = true -> id ∈ ids /\ id ∉ ol_next o').
Proof.
  induction ids as [|y ids IH]; intros o Hwf; simpl; [split_and!; done|].
  destruct (olist_rm_spec o y Hwf) as (Hwf' & Hin & _).
  destruct (y <=? ccid).
  - specialize (IH (olist_rm o y) Hwf'). destruct (accept_skipped ccid id ids (olist_rm o y)) as [b o'].
    destruct IH as (H1 & H2 & H3). split_and!; [done| |].
    + intros z Hz. by apply H2, Hin in Hz as [? _].
    + intros Hb. destruct (H3 Hb). split; [by right|done].
  - destruct (Z.eqb_spec y id) as [->|].
    + split_and!; [done| |]. { intros z Hz. by apply Hin in Hz as [? _]. }
      intros _. split; [by left|]. rewrite Hin. intuition.
    + destruct (id <? y); [split_and!; done|].
      specialize (IH o Hwf). destruct (accept_skipped ccid id ids o) as [b o'].
      destruct IH as (H1 & H2 & H3). split_and!; [done|done|].
      intros Hb. destruct (H3 Hb). split; [by right|done].
Qed.

Lemma inv_set_skipped e s ql w x o :
  inv e s ql w x -> ol_wf o -> (forall y, y ∈ ol_next o -> 0 <= y < next_change_id s) ->
  inv e (set_skipped o s) ql w x.
Proof. intros [R1 R2 R3 R4 R5 R6 R7 R8 R9 R10 R11 R12 R13 R14] Hwf Ho. split; done. Qed.

(** An id is taken once it is below the next id and no longer marked as
    skipped; a taken id is never accepted, and an accepted one is taken. *)
Definition taken s (id : Z) : Prop :=
  id < next_change_id s /\ id ∉ ol_next (skipped_ids s).

Lemma wp_accept_id ok id s ql w x P :
  safe s ql w x -> 0 <= id -> id + 3 < 18446744073709551616 -> next_change_id s + 2 < 18446744073709551616 ->
  (forall r s', safe s' ql w x -> this_ccid s' = this_ccid s ->
     (forall i, taken s i -> taken s' i) -> (r = RES_ACCEPT -> taken s' id) ->
     (taken s id -> r <> RES_ACCEPT) -> P r s') ->
  wp (ti_changes_accept_id ok id) s P.
Proof.
  intros Hi Hid Hb Hb' HP. pose proof Hi as [_ _ _ _ _ _ _ _ _ _ _ _ [Hn0 _] [Hwf Hsk]].
  unfold ti_changes_accept_id. apply wp_bind, wp_get.
  destruct (Z.eqb_spec id (next_change_id s)) as [->|Hne].
  { apply wp_bind, wp_modify, wp_ret. rewrite u64_small by lia. apply HP.
    - eapply inv_ext; [exact Hi|done..|simpl; lia].
    - done.
    - intros i [? ?]. split; [simpl; lia|done].
    - intros _. split; [simpl; lia|]. simpl. intros Hin. specialize (Hsk _ Hin). lia.
    - intros [? _]. lia. }
  destruct (Z.ltb_spec (next_change_id s) id) as [Hlt|Hge].
  { apply wp_bind, wp_modify, wp_bind, wp_modify, wp_ret. rewrite u64_small by lia.
    destruct (skip_ids_spec ok (Z.to_nat (id - next_change_id s)) (next_change_id s) (skipped_ids s))
      as (H1 & H2 & H3); [done|lia|done|lia|].
    set (o := skip_ids _ _ _ _) in *.
    assert (Ho : forall y, y ∈ ol_next o -> 0 <= y < id).
    { intros y [Hy|?]%H2; [specialize (Hsk y Hy)|]; lia. }
    apply HP.
    - apply (inv_set_skipped NULL (set_next (id + 1) s)); [|done|].
      + eapply inv_ext; [exact Hi|done..|simpl; lia].
      + intros y Hy. specialize (Ho y Hy). simpl. lia.
    - done.
    - intros i [Hi1 Hi2]. split; [simpl; lia|]. simpl. intros [?|?]%H2; [done|lia].
    - intros _. split; [simpl; lia|]. simpl. intros Hin. specialize (Ho _ Hin). lia.
    - intros [? _]. lia. }
  apply wp_bind. eapply wp_queue_items; [exact Hi|].
  apply wp_bind, wp_load_all. { intros. by apply (inv_live _ _ _ _ _ _ Hi). }
  intros cs Hcs. destruct (accept_queued id cs) as [r|] eqn:Eq.
  { apply wp_ret. assert (r <> RES_ACCEPT).
    { clear -Eq. induction cs as [|c cs IH]; simpl in Eq; [done|].
      destruct (id <? ch_id c); [done|]. destruct (ch_id c =? id); [|auto].
      destruct (is_master c); by simplify_eq. }
    apply HP; try done. }
  pose proof (accept_skipped_spec (this_ccid s) id (ol_next (skipped_ids s)) (skipped_ids s) Hwf) as Hsp.
  destruct (accept_skipped _ _ _ _) as [b o]. destruct Hsp as (H1 & H2 & H3).
  apply wp_bind, wp_modify, wp_ret. apply HP.
  - apply inv_set_skipped; [exact Hi|done|]. auto.
  - done.
  - intros i [? Hi2]. split; [done|]. simpl. auto.
  - destruct b; [|done]. intros _. destruct (H3 eq_refl). split; [simpl; lia|done].
  - destruct b; [|done]. intros [_ Ht]. by destruct (H3 eq_refl).
Qed.

(** ** The change loop *)

(** What a run of the loop may do to the committed id, most recent event
    first: ids are committed one by one, only a package of another node may
    skip some (it must carry the gap flag), and the committed id never goes
    back. *)
Inductive history (z0 : Z) : list event -> Z -> Prop :=
  | h_nil : history z0 [] z0
  | h_run evs z : history z0 evs z -> history z0 (EvRun (z + 1) :: evs) (z + 1)
  | h_gap evs z : history z0 evs z -> history z0 (EvGap (z + 1) :: evs) (z + 1)
  | h_apply evs z id ok : history z0 evs z -> z < id -> history z0 (EvApply id ok :: evs) id
  | h_skip evs z id : history z0 evs z -> id <= z -> history z0 (EvSkip id :: evs) z
  | h_kill evs z id : history z0 evs z -> z < id -> history z0 (EvKill id :: evs) z
  | h_missing evs z id : history z0 evs z -> z < id -> history z0 (EvMissing id :: evs) z
  | h_save evs z : history z0 evs z -> history z0 (EvSave :: evs) z.

Lemma history_app z0 evs z evs' z' :
  history z0 evs z -> history z evs' z' -> history z0 (evs' ++ evs) z'.
Proof. intros H. induction 1; simpl; eauto using history. Qed.

(** The ids that were committed, most recent first. *)
Fixpoint commits (evs : list event) : list Z :=
  match evs with
  | [] => []
  | (EvRun id | EvGap id | EvApply id _) :: evs => id :: commits evs
  | _ :: evs => commits evs
  end.

Lemma history_commits z0 evs z :
  history z0 evs z -> z0 <= z /\ StronglySorted Z.gt (commits evs) /\
  (forall id, id ∈ commits evs -> z0 < id <= z) /\ default z0 (head (commits evs)) = z.
Proof.
  assert (Hcons : forall z1 id (k : list Z), z0 <= z1 -> z1 < id -> StronglySorted Z.gt k ->
    (forall i, i ∈ k -> z0 < i <= z1) -> StronglySorted Z.gt (id :: k) /\
    (forall i, i ∈ id :: k -> z0 < i <= id)).
  { intros z1 id k Hc Hid Hs Hl. split.
    - constructor; [done|]. apply Forall_forall. intros i Hi. specialize (Hl i Hi). lia.
    - intros i [->|Hi]%elem_of_cons; [lia|]. specialize (Hl i Hi). lia. }
  induction 1 as [|evs z H IH|evs z H IH|evs z id ok H IH Hid|evs z id H IH Hid|evs z id H IH Hid|evs z id H IH Hid|evs z H IH]; simpl.
  - split_and!; [lia|constructor|set_solver|done].
  - destruct IH as (? & ? & ? & ?). destruct (Hcons z (z + 1) (commits evs)); [done|lia|done|done|].
    split_and!; [lia|done|done|done].
  - destruct IH as (? & ? & ? & ?). destruct (Hcons z (z + 1) (commits evs)); [done|lia|done|done|].
    split_and!; [lia|done|done|done].
  - destruct IH as (? & ? & ? & ?). destruct (Hcons z id (commits evs)); [done|lia|done|done|].
    split_and!; [lia|done|done|done].
  - done.
  - done.
  - done.
  - done.
Qed.

(** The post-condition of a part of the loop. *)
Definition loop_post s s' : Prop :=
  next_change_id s' = next_change_id s /\ skipped_ids s' = skipped_ids s /\
  exists evs, trace s' = evs ++ trace s /\ history (this_ccid s) evs (this_ccid s').

Lemma loop_post_same s s' :
  next_change_id s' = next_change_id s -> skipped_ids s' = skipped_ids s ->
  trace s' = trace s -> this_ccid s' = this_ccid s -> loop_post s s'.
Proof. intros ? ? Et Ec. split_and!; [done|done|]. exists []. rewrite Ec. split; [done|constructor]. Qed.

Lemma loop_post_trans s1 s2 s3 : loop_post s1 s2 -> loop_post s2 s3 -> loop_post s1 s3.
Proof.
  intros (E1 & E1' & evs & Et & Hh) (E2 & E2' & evs' & Et' & Hh').
  split_and!; [congruence|congruence|]. exists (evs' ++ evs). rewrite Et', Et, app_assoc.
  split; [done|]. by eapply history_app.
Qed.

(** One event, on a state that is otherwise unchanged for the loop. *)
Lemma loop_post_event s s' ev z :
  next_change_id s' = next_change_id s -> skipped_ids s' = skipped_ids s ->
  trace s' = ev :: trace s -> this_ccid s' = z -> history (this_ccid s) [ev] z -> loop_post s s'.
Proof. intros ? ? Et <- Hh. split_and!; [done|done|]. exists [ev]. by rewrite Et. Qed.

Lemma wp_loop_shift_drop l s ql w x P :
  inv l s (l :: ql) w x -> x l + 5 < 4294967296 ->
  (forall s', safe s' ql w x -> loop_post s s' -> P true s') ->
  wp (loop_shift_drop l) s P.
Proof.
  intros Hi Hb HP. unfold loop_shift_drop. apply wp_bind.
  destruct (dq_shift_ok NULL _ _ (inv_rep _ _ _ _ _ Hi)) as (q' & E & Hrep).
  eapply wp_queue_op; [exact E|]. simpl in Hrep.
  pose proof (inv_dequeue _ _ _ _ _ l q' Hi) as Hi1. simpl in Hi1. rewrite decide_True in Hi1 by done.
  specialize (Hi1 ltac:(set_solver) Hrep). pose proof (inv_x _ _ _ _ _ Hi l).
  destruct (inv_live _ _ _ _ _ l Hi) as [c Hc]; [set_solver|].
  apply wp_bind. eapply wp_drop; [exact Hi1|exact Hc|fn_simpl; lia|fn_simpl; lia|].
  intros h s' Hi' _ _. apply wp_ret. apply HP; [|by apply loop_post_same].
  pose proof (inv_NoDup _ _ _ _ _ Hi) as [Hn _]%NoDup_cons.
  eapply inv_strengthen; [|exact Hn]. eapply inv_x_ext; [exact Hi'|]. fn_ext l.
Qed.

Lemma wp_loop_process o l c s ql w x P :
  safe s (l :: ql) w x -> heap s !! l = Some c -> ch_status c = STAT_READY -> x l + 5 < 4294967296 ->
  this_ccid s < ch_id c -> (is_master c = true -> ch_id c = this_ccid s + 1) ->
  (forall s', inv l s' (l :: ql) w x -> loop_post s s' -> P tt s') ->
  wp (loop_process o l) s P.
Proof.
  intros Hi Hc Hst Hb Hlt Hm HP. unfold loop_process. apply wp_bind. eapply wp_load; [exact Hc|]. rewrite Hst.
  assert (Hw : w l = false).
  { destruct (w l) eqn:E; [|done]. by rewrite (inv_wait_status _ _ _ _ _ l c Hi Hc E) in Hst. }
  destruct (inv_item _ _ _ _ _ Hi l) as (c0 & ? & (_ & _ & Hv)); [set_solver|]. assert (c0 = c) as -> by congruence.
  assert (Hl : l <> NULL) by (intros ->; by rewrite (inv_NULL _ _ _ _ _ Hi) in Hc).
  assert (Hend : forall s1 ev, inv l s1 (l :: ql) w x -> next_change_id s1 = next_change_id s ->
    skipped_ids s1 = skipped_ids s -> trace s1 = ev :: trace s -> idof s1 l = ch_id c ->
    history (this_ccid s) [ev] (ch_id c) ->
    wp (c <- load l;; modify (set_ccid (ch_id c));;;
        if negb (Z.land (ch_flags c) TI_CHANGE_FLAG_SAVE =? 0) then modify (log EvSave) else ret tt) s1 P).
  { intros s1 ev Hi1 En Es Et Eid Hh. destruct (inv_live _ _ _ _ _ l Hi1) as [c1 Hc1]; [set_solver|].
    unfold idof in Eid. rewrite Hc1 in Eid.
    apply wp_bind. eapply wp_load; [exact Hc1|]. apply wp_bind, wp_modify. rewrite Eid.
    assert (Hp : loop_post s (set_ccid (ch_id c) s1)) by (by apply (loop_post_event _ _ ev (ch_id c))).
    destruct (negb _).
    - apply wp_modify. apply HP; [eapply inv_ext; [exact Hi1|done..|simpl; lia]|].
      eapply loop_post_trans; [exact Hp|]. apply (loop_post_event _ _ EvSave (ch_id c)); try done. repeat constructor.
    - apply wp_ret. apply HP; [eapply inv_ext; [exact Hi1|done..|simpl; lia]|done]. }
  apply wp_bind. apply (inv_weaken l) in Hi.
  destruct (ch_via c) as [q|f] eqn:Ev.
  - destruct Hv as [Hq|Hv]; [|done]. apply wp_bind, wp_modify.
    assert (Hi1 : inv l (log (EvRun (ch_id c)) s) (l :: ql) w x) by (eapply inv_ext; [exact Hi|done..|simpl; lia]).
    unfold ti_query_run. apply wp_bind, wp_get. simpl queries. rewrite Hq.
    assert (Hh : history (this_ccid s) [EvRun (ch_id c)] (ch_id c)).
    { rewrite Hm by (unfold is_master; by rewrite Ev). repeat constructor. }
    apply wp_bind. eapply wp_update_inv; [exact Hi1|exact Hc|done|done| |by rewrite Hw|].
    { intros Hin. destruct (inv_item _ _ _ _ _ Hi l Hin) as (c1 & ? & (? & ? & ?)). assert (c1 = c) as -> by congruence.
      split; [done|]. split_and!; try done; simpl; lia. }
    intros Hi2. destruct (or_fin o).
    + eapply wp_query_destroy; [exact Hi2|exact Hq|done|done|lia|].
      intros s3 Hi3 En _ _ Et Es Hids.
      apply (Hend _ (EvRun (ch_id c))); [exact Hi3|done|done|done| |done].
      rewrite Hids by (apply (inv_live _ _ _ _ _ _ Hi3); set_solver).
      unfold idof. simpl. by rewrite lookup_insert_eq.
    + apply wp_ret. apply (Hend _ (EvRun (ch_id c))); try done. unfold idof. simpl. by rewrite lookup_insert_eq.
  - apply wp_modify. eapply (Hend _ (EvApply (ch_id c) (or_apply o))); try done.
    + eapply inv_ext; [exact Hi|done..|simpl; lia].
    + unfold idof. simpl. by rewrite Hc.
    + eapply h_apply; [constructor|done].
Qed.

(** The gap branch: it ends with a change that may be looked at, or breaks. *)
Lemma wp_loop_gap o status timing c s l ql w x P :
  safe s (l :: ql) w x -> heap s !! l = Some c -> 0 <= this_ccid s -> this_ccid s + 1 < ch_id c ->
  ch_id c < 18446744073709551616 ->
  (P ActBreak s) ->
  (is_master c = false -> P ActProcess s) ->
  (forall s' act, safe s' (l :: ql) w x -> heap s' !! l = Some c -> loop_post s s' -> 0 <= this_ccid s' ->
     act = ActBreak \/ (act = ActCheckNew /\ ch_id c = this_ccid s' + 1) -> P act s') ->
  wp (loop_gap o status timing c) s P.
Proof.
  intros Hi Hc H0 Hgap Hmax Hbr Hpr HP. unfold loop_gap. apply wp_bind, wp_get.
  destruct (match ch_via c with ViaQuery _ => false | ViaCpkg f => _ end) eqn:Eg.
  { apply wp_ret, Hpr. unfold is_master. by destruct (ch_via c). }
  destruct (status =? TI_NODE_STAT_SYNCHRONIZING); [done|].
  destruct (negb (wait_ccid s =? this_ccid s)).
  { apply wp_bind, wp_modify, wp_ret. apply HP; [eapply inv_ext; [exact Hi|done..|simpl; lia]|done| |done|by left].
    by apply loop_post_same. }
  apply wp_bind. rewrite (u64_small (this_ccid s + 1)) by lia.
  assert (Hrest : forall s1, safe s1 (l :: ql) w x -> heap s1 !! l = Some c -> loop_post s s1 ->
    this_ccid s1 = this_ccid s ->
    wp (if timing - wait_gap_time s <? CHANGES__TIMEOUT then ret ActBreak
        else modify (set_ccid (this_ccid s + 1));;; modify (log (EvGap (this_ccid s + 1)));;;
          if u64 (this_ccid s + 1 + 1) <? ch_id c then ret ActBreak else ret ActCheckNew) s1 P).
  { intros s1 Hi1 Hc1 Hp Ec. destruct (timing - wait_gap_time s <? CHANGES__TIMEOUT).
    { apply wp_ret, HP; try done; [lia|by left]. }
    apply wp_bind, wp_modify, wp_bind, wp_modify.
    assert (Hi2 : safe (log (EvGap (this_ccid s + 1)) (set_ccid (this_ccid s + 1) s1)) (l :: ql) w x)
      by (eapply inv_ext; [exact Hi1|done..|simpl; lia]).
    assert (Hp2 : loop_post s (log (EvGap (this_ccid s + 1)) (set_ccid (this_ccid s + 1) s1))).
    { eapply loop_post_trans; [exact Hp|]. eapply loop_post_event; [done..|]. simpl.
      rewrite <-Ec. repeat constructor. }
    rewrite u64_small by lia. destruct (Z.ltb_spec (this_ccid s + 1 + 1) (ch_id c)).
    - apply wp_ret, HP; try done; [simpl; lia|by left].
    - apply wp_ret, HP; try done; [simpl; lia|]. right. split; [done|]. simpl. lia. }
  destruct (CHANGES__MISSING_TIMEOUT <? timing - wait_gap_time s).
  - unfold ti_change_missing. apply wp_bind, wp_get. destruct (req_id s =? _).
    { apply wp_ret. apply Hrest; try done. by apply loop_post_same. }
    destruct (or_missing o).
    + apply wp_bind, wp_modify, wp_modify.
      apply Hrest; try done; [eapply inv_ext; [exact Hi|done..|simpl; lia]|].
      eapply loop_post_event; [done..|]. apply h_missing; [apply h_nil|simpl; lia].
    + apply wp_ret. apply Hrest; try done. by apply loop_post_same.
  - apply wp_ret. apply Hrest; try done. by apply loop_post_same.
Qed.

Lemma wp_loop_body o status timing s ql w x P :
  safe s ql w x -> 0 <= this_ccid s -> next_change_id s < 18446744073709551616 ->
  (forall l, x l + 5 < 4294967296) ->
  (forall b s' ql', safe s' ql' w x -> loop_post s s' -> 0 <= this_ccid s' -> len ql' <= len ql -> P b s') ->
  wp (loop_body o status timing) s P.
Proof.
  intros Hi H0 Hnext Hb HP. unfold loop_body. apply wp_bind. eapply wp_queue_first; [exact Hi|].
  destruct ql as [|l ql]; simpl.
  { apply wp_ret. eapply HP; [exact Hi|by apply loop_post_same|done|lia]. }
  destruct (inv_item _ _ _ _ _ Hi l) as (c & Hc & (Hr & Hst & Hv)); [set_solver|].
  assert (Hl : l <> NULL) by (intros ->; by rewrite (inv_NULL _ _ _ _ _ Hi) in Hc).
  rewrite (proj2 (Nat.eqb_neq l NULL)) by done.
  apply wp_bind. eapply wp_load; [exact Hc|]. apply wp_bind, wp_get.
  destruct (decide (ch_status c = STAT_CANCEL)); [done|].
  assert (Hlen : len ql <= len (l :: ql)) by (unfold len; simpl; lia).
  assert (Hccid : forall s', loop_post s s' -> 0 <= this_ccid s').
  { intros s' (_ & _ & evs & _ & Hh). apply history_commits in Hh as [? _]. lia. }
  assert (Hshift : forall s1, inv l s1 (l :: ql) w x -> loop_post s s1 -> wp (loop_shift_drop l) s1 P).
  { intros s1 Hi1 Hp1. eapply wp_loop_shift_drop; [exact Hi1|apply Hb|].
    intros s2 Hi2 Hp2. assert (Hp := loop_post_trans _ _ _ Hp1 Hp2). eapply HP; try done. by apply Hccid. }
  assert (Hproc : forall s1, safe s1 (l :: ql) w x -> loop_post s s1 -> heap s1 !! l = Some c ->
    ch_status c = STAT_READY -> this_ccid s1 < ch_id c -> (is_master c = true -> ch_id c = this_ccid s1 + 1) ->
    wp (loop_process o l;;; loop_shift_drop l) s1 P).
  { intros s1 Hi1 Hp1 Hc1 Hst1 Hlt Hm. apply wp_bind. eapply wp_loop_process; try done.
    intros s2 Hi2 Hp2. apply Hshift; [exact Hi2|]. by eapply loop_post_trans. }
  assert (Hcheck : forall s1, safe s1 (l :: ql) w x -> loop_post s s1 -> heap s1 !! l = Some c ->
    ch_id c = this_ccid s1 + 1 ->
    wp (if decide (ch_status c = STAT_NEW) then
          if timing - ch_time c <? CHANGES__NEW_TIMEOUT then ret false
          else modify (log (EvKill (ch_id c)));;; loop_shift_drop l
        else loop_process o l;;; loop_shift_drop l) s1 P).
  { intros s1 Hi1 Hp1 Hc1 Eid. destruct (decide (ch_status c = STAT_NEW)).
    - destruct (timing - ch_time c <? CHANGES__NEW_TIMEOUT).
      + apply wp_ret. eapply HP; try done. by apply Hccid.
      + apply wp_bind, wp_modify. apply Hshift.
        * apply (inv_weaken l). eapply inv_ext; [exact Hi1|done..|simpl; lia].
        * eapply loop_post_trans; [exact Hp1|]. eapply loop_post_event; [done..|].
          simpl. apply h_kill; [apply h_nil|simpl; lia].
    - apply Hproc; try done; [|lia]. destruct (ch_status c); done. }
  apply wp_bind. destruct (Z.leb_spec (ch_id c) (this_ccid s)).
  { apply wp_bind, wp_modify, wp_ret. apply Hshift.
    - apply (inv_weaken l). eapply inv_ext; [exact Hi|done..|simpl; lia].
    - eapply loop_post_event; [done..|]. simpl. apply h_skip; [apply h_nil|done]. }
  rewrite u64_small by lia. destruct (Z.ltb_spec (this_ccid s + 1) (ch_id c)).
  - eapply (wp_loop_gap o status timing c s l); try done; [lia| | |].
    + apply wp_ret. eapply HP; [exact Hi|by apply loop_post_same|done|done].
    + intros Hm. apply Hproc; try done; [by apply loop_post_same| |congruence].
      unfold is_master in Hm. destruct (ch_via c); [done|]. by destruct Hv.
    + intros s1 act Hi1 Hc1 Hp1 H01 [-> | [-> Eid]]; [|by apply Hcheck].
      apply wp_ret. by eapply HP.
  - apply wp_ret. apply Hcheck; try done; [by apply loop_post_same|lia].
Qed.

Lemma wp_loop_iterate k o status timing : forall s ql w x P,
  safe s ql w x -> 0 <= this_ccid s -> next_change_id s < 18446744073709551616 ->
  (forall l, x l + 5 < 4294967296) ->
  (forall s' ql', safe s' ql' w x -> loop_post s s' -> len ql' <= len ql -> P tt s') ->
  wp (loop_iterate k o status timing) s P.
Proof.
  induction k as [|k IH]; intros s ql w x P Hi H0 Hn Hb HP; simpl.
  - apply wp_ret. eapply HP; [exact Hi|by apply loop_post_same|lia].
  - apply wp_bind. eapply wp_loop_body; [exact Hi|done|done|done|]. intros b s1 ql1 Hi1 Hp1 H01 Hl1. destruct b.
    + eapply IH; [exact Hi1|done| |done|]. { by destruct Hp1 as (-> & _). }
      intros s2 ql2 Hi2 Hp2 Hl2. eapply HP; [exact Hi2|by eapply loop_post_trans|lia].
    + apply wp_ret. eapply HP; [exact Hi1|done|lia].
Qed.

(** ** The next missing id *)

Lemma next_missing_spec (cs : list ti_change) : forall id,
  StronglySorted (fun a b => ch_id a < ch_id b) cs ->
  0 <= id -> (forall c, c ∈ cs -> ch_id c < 18446744073709551614) -> id < 18446744073709551614 ->
  let m := next_missing id cs in
  id < m /\ (forall c, c ∈ cs -> ch_id c <> m) /\
  (forall i, id < i < m -> exists c, c ∈ cs /\ ch_id c = i).
Proof.
  induction cs as [|c cs IH]; intros id Hs H0 Hc Hid; simpl.
  - rewrite u64_small by lia. split_and!; [lia|set_solver|intros; lia].
  - apply StronglySorted_cons in Hs as [Hf Hs]. rewrite Forall_forall in Hf.
    assert (Hc' : forall c', c' ∈ cs -> ch_id c' < 18446744073709551614) by (intros; apply Hc; set_solver).
    assert (ch_id c < 18446744073709551614) by (apply Hc; set_solver).
    rewrite u64_small by lia. destruct (Z.leb_spec (ch_id c) id).
    + destruct (IH id Hs H0 Hc' Hid) as (M1 & M2 & M3). split_and!; [done| |].
      * intros c' [->|Hin]%elem_of_cons; [lia|auto].
      * intros i Hi. destruct (M3 i Hi) as (c' & ? & ?). exists c'. split; [by right|done].
    + destruct (Z.eqb_spec (ch_id c) (id + 1)) as [E|].
      * destruct (IH (id + 1) Hs ltac:(lia) Hc' ltac:(lia)) as (M1 & M2 & M3). split_and!; [lia| |].
        { intros c' [->|Hin]%elem_of_cons; [lia|auto]. }
        { intros i Hi. destruct (decide (i = id + 1)) as [->|]; [exists c; split; [by left|done]|].
          destruct (M3 i ltac:(lia)) as (c' & ? & ?). exists c'. split; [by right|done]. }
      * split_and!; [lia| |intros; lia].
        intros c' [->|Hin]%elem_of_cons; [done|]. specialize (Hf c' Hin). lia.
Qed.

Lemma sorted_changes s ls cs :
  Forall2 (fun l c => heap s !! l = Some c) ls cs ->
  StronglySorted (fun a b => idof s a < idof s b) ls ->
  StronglySorted (fun a b => ch_id a < ch_id b) cs.
Proof.
  induction 1 as [|l c ls cs Hl Hcs IH]; intros Hs; [constructor|].
  apply StronglySorted_cons in Hs as [Hf Hs]. apply StronglySorted_cons. split; [|auto].
  rewrite Forall_forall in Hf. apply Forall_forall. intros c' Hc'. apply list_elem_of_lookup in Hc' as [i Hi].
  destruct (Forall2_lookup_r _ _ _ _ _ Hcs Hi) as (l' & Hl' & Hh).
  specialize (Hf l' (list_elem_of_lookup_2 _ _ _ Hl')). unfold idof in Hf. by rewrite Hl, Hh in Hf.
Qed.

(** ** Sequences of operations *)

Inductive change_op :=
  | OpNew (reserve create : bool) (now : Z) (att : list attempt) (query : nat)
  | OpAnswer (reserve : bool) (att : list attempt) (p : nat) (a : answer)
  | OpAdd (reserve create : bool) (now id flags : Z)
  | OpAccept (ok : Z -> bool) (id : Z)
  | OpLoop (lock : bool) (o : nat -> iteration) (status timing : Z)
  | OpQueryDone (q : nat).

Context (vec : list ti_node) (this : nat) (this_id : Z).

Definition change_exec (op : change_op) : M state (option ti_proto) :=
  match op with
  | OpNew reserve create now att query =>
      ti_changes_create_new_change vec this reserve create now att query;;; ret None
  | OpAnswer reserve att p a => changes_on_answer vec this this_id reserve att p a;;; ret None
  | OpAdd reserve create now id flags =>
      ti_changes_add_change reserve create now id flags;;; ret None
  | OpAccept ok id => r <- ti_changes_accept_id ok id;; ret (Some r)
  | OpLoop lock o status timing => changes__loop lock o status timing;;; ret None
  | OpQueryDone q => query_destroy q;;; ret None
  end.

(** When the operation is called: an answer belongs to a pending request, a new
    query has no change yet, and a query that is finished by something else
    than the loop has run. *)
Definition op_legal s (op : change_op) : Prop :=
  match op with
  | OpNew _ _ _ att query => queries s !! query = None /\ len att < 1000000
  | OpAnswer _ att p _ => is_Some (pending s !! p) /\ len att < 1000000
  | OpAdd _ _ _ id _ => 0 <= id
  | OpAccept _ id => 0 <= id < 9223372036854775808
  | OpLoop _ _ _ _ => True
  | OpQueryDone q => forall l, queries s !! q = Some l ->
      (forall ls, dq_each (ch_queue s) = Some ls -> l ∉ ls) /\
      (forall p qu, pending s !! p = Some (qu, l) -> cb_ qu = false)
  end /\
  (forall q, op = OpQueryDone q -> is_Some (queries s !! q)).

(** Room for more ids and for one more item in the queue. *)
Definition room s : Prop :=
  next_change_id s < 9223372036854775808 /\
  (forall ls, dq_each (ch_queue s) = Some ls -> len ls + 1 < dq_limit).

Definition safe_state s : Prop :=
  0 <= this_ccid s /\ exists ql w x, safe s ql w x /\ forall l, x l <= 1.

Lemma safe_state_intro s ql w x :
  0 <= this_ccid s -> safe s ql w x -> (forall l, x l <= 1) -> safe_state s.
Proof. intros ? ? ?. split; [done|]. by exists ql, w, x. Qed.

Lemma taken_grow s s' i ql w x : safe s ql w x -> grow s s' -> taken s i -> taken s' i.
Proof. intros _ (Hn & Hs & _) [Hi1 Hi2]. split; [lia|]. by rewrite Hs. Qed.

Hypothesis Hvec : 0 < len vec <= NODES__MAX.
Hypothesis Hthis : (this < length vec)%nat.

(** The common form of the safety statements. *)
Lemma wp_change_exec op s :
  safe_state s -> op_legal s op -> room s ->
  wp (change_exec op) s (fun r s' => safe_state s' /\ this_ccid s <= this_ccid s' /\
    (forall i, taken s i -> taken s' i) /\
    (forall ok id, op = OpAccept ok id ->
       (r = Some RES_ACCEPT -> taken s' id) /\ (taken s id -> r <> Some RES_ACCEPT))).
Proof.
  intros (H0 & ql & w & x & Hi & Hx) [Hleg Hq] [Hr1 Hr2].
  assert (Hlen : len ql + 1 < dq_limit) by (apply Hr2, dq_each_ok, (inv_rep _ _ _ _ _ Hi)).
  assert (Hg : forall s' ql' w' x', safe s' ql' w' x' -> (forall l, x' l <= 1) -> grow s s' ->
    (forall ok id, op <> OpAccept ok id) ->
    safe_state s' /\ this_ccid s <= this_ccid s' /\ (forall i, taken s i -> taken s' i) /\
    (forall ok id, op = OpAccept ok id ->
      (@None ti_proto = Some RES_ACCEPT -> taken s' id) /\ (taken s id -> @None ti_proto <> Some RES_ACCEPT))).
  { intros s' ql' w' x' Hi' Hx' Hg Hop. pose proof Hg as (_ & _ & E). split_and!.
    - eapply safe_state_intro; [by rewrite E|exact Hi'|done].
    - lia.
    - intros i. by eapply taken_grow.
    - intros ok id ->. by destruct (Hop ok id). }
  destruct op as [reserve create now att query|reserve att p a|reserve create now id flags|ok id|lock o status timing|q];
    simpl in Hleg |- *; apply wp_bind.
  - destruct Hleg. eapply wp_create_new; try done; [lia|lia|].
    intros rc s' ql' w' x' Hi' Hg' Hx'. apply wp_ret. eapply Hg; try done.
    intros l. destruct Hx' as [->|(_ & l' & _ & ->)]; [done|].
    destruct (decide (l' = l)) as [->|]; [by rewrite fn_lookup_insert|by rewrite fn_lookup_insert_ne].
  - destruct Hleg. eapply wp_on_answer; try done; [|lia|].
    { intros l. specialize (Hx l). lia. }
    intros s' ql' w' Hi' Hg'. apply wp_ret. by eapply Hg.
  - eapply wp_add_change; try done; [lia| |].
    { intros l. specialize (Hx l). lia. }
    intros rc s' ql' w' Hi' Hg'. apply wp_ret. by eapply Hg.
  - eapply wp_accept_id; [exact Hi|lia|lia|lia|].
    intros r s' Hi' Ec Ht Hacc Hnacc. apply wp_ret. split_and!; [|lia|done|].
    + eapply safe_state_intro; [lia|exact Hi'|done].
    + intros ok' id' [= -> ->]. split; [intros [= ->]; auto|]. intros Htk [= ->]. by apply Hnacc.
  - unfold changes__loop. destruct lock; cbn [negb].
    + eapply wp_loop_iterate; [exact Hi|done|lia| |].
      { intros l. specialize (Hx l). lia. }
      intros s' ql' Hi' Hp _. apply wp_ret. destruct Hp as (En & Es & evs & _ & Hh).
      apply history_commits in Hh as [Hc _]. split_and!; [|done| |done].
      * eapply safe_state_intro; [lia|exact Hi'|done].
      * intros i [? ?]. split; [by rewrite En|by rewrite Es].
    + apply wp_ret, wp_ret. by eapply Hg.
  - destruct (Hq q eq_refl) as [l Hl]. destruct (Hleg l Hl) as [Hnq Hnp].
    eapply wp_query_destroy; [exact Hi|exact Hl| | | |].
    + intros Hin. by destruct (Hnq ql (dq_each_ok _ _ (inv_rep _ _ _ _ _ Hi))).
    + destruct (w l) eqn:E; [|done]. apply (inv_wait _ _ _ _ _ Hi) in E as (p & qu & Hp & Hcb).
      by rewrite (Hnp p qu Hp) in Hcb.
    + specialize (Hx l). lia.
    + intros s' Hi' En _ Ec _ Es _. apply wp_ret. eapply Hg; try done. split_and!; [lia|done|done].
Qed.

(** A run: operations that were called legally, with their results. *)
Inductive change_run : state -> list (change_op * option ti_proto) -> state -> Prop :=
  | run_nil s : change_run s [] s
  | run_step s op r s' tr s'' :
      op_legal s op -> room s -> change_exec op s = Done r s' -> change_run s' tr s'' ->
      change_run s ((op, r) :: tr) s''.

Lemma change_run_inv s tr s' :
  change_run s tr s' -> safe_state s ->
  safe_state s' /\ this_ccid s <= this_ccid s' /\ (forall i, taken s i -> taken s' i).
Proof.
  induction 1 as [s|s op r s1 tr s2 Hleg Hroom E Hrun IH]; intros Hs; [split_and!; [done|lia|done]|].
  pose proof (wp_change_exec op s Hs Hleg Hroom) as H. unfold wp in H. rewrite E in H.
  destruct H as (Hs1 & Hc & Ht & _). destruct (IH Hs1) as (? & ? & ?). split_and!; [done|lia|auto].
Qed.

(** An id that is taken is not accepted any more. *)
Lemma change_run_taken s tr s' id :
  change_run s tr s' -> safe_state s -> taken s id ->
  forall ok, (OpAccept ok id, Some RES_ACCEPT) ∉ tr.
Proof.
  induction 1 as [s|s op r s1 tr s2 Hleg Hroom E Hrun IH]; intros Hs Ht ok Hin; [by apply elem_of_nil in Hin|].
  pose proof (wp_change_exec op s Hs Hleg Hroom) as H. unfold wp in H. rewrite E in H.
  destruct H as (Hs1 & _ & Htk & Hacc). apply elem_of_cons in Hin as [[= <- <-]|Hin].
  - destruct (Hacc ok id eq_refl) as [_ H]. by apply (H Ht).
  - by apply (IH Hs1 (Htk id Ht) ok).
Qed.

Lemma change_run_accept_once s tr s' tr1 tr2 ok ok' id :
  change_run s tr s' -> safe_state s ->
  tr = tr1 ++ (OpAccept ok id, Some RES_ACCEPT) :: tr2 ->
  (OpAccept ok' id, Some RES_ACCEPT) ∉ tr2.
Proof.
  intros Hrun. revert tr1. induction Hrun as [s|s op r s1 tr s2 Hleg Hroom E Hrun IH]; intros tr1 Hs Etr.
  - by destruct tr1.
  - pose proof (wp_change_exec op s Hs Hleg Hroom) as H. unfold wp in H. rewrite E in H.
    destruct H as (Hs1 & _ & _ & Hacc). destruct tr1 as [|[op1 r1] tr1]; simpl in Etr; simplify_eq.
    + destruct (Hacc ok id eq_refl) as [Ha _]. eapply change_run_taken; [exact Hrun|done|auto].
    + by eapply IH.
Qed.

End Safety.

(** The state of a node that has just started. *)
Definition changes_start {Q} (q : Q) (next ccid : Z) : ti_changes Q :=
  Changes ∅ 1%nat 0%nat q next (Olist [] 0) ccid 0 0 0 ∅ ∅ 0 0 [].

Lemma changes_start_safe {Q} {D : Deque Q loc} {L : DequeLaws Q loc} (q : Q) next ccid :
  dq_rep q [] -> 0 <= next -> 0 <= ccid -> safe_state (changes_start q next ccid).
Proof.
  intros Hq Hn Hc. apply (safe_state_intro _ [] (fun _ => false) (fun _ => 0)); [done| |intros; lia].
  split; simpl; try done; try lia.
  - constructor.
  - intros l Hl. by apply elem_of_nil in Hl.
  - intros l. split; [done|]. intros (p & qu & Hp & _). done.
  - intros l [c Hl]. done.
  - split; [|intros y Hy; by apply elem_of_nil in Hy].
    split_and!; [constructor|done|done].
Qed.
