(* ===== verification/ChangesProps.v ===== *)
(** * Properties of the change queue

    The theorems about [Changes], proved from the rules of [ChangesProof] for
    every queue with the deque laws, with witnesses on the [queue_t] of [Queue],
    and the behaviours of the component that lose a query or leak a change. *)
From Stdlib Require Import ZArith Lia Sorted.
From stdpp Require Import base list option numbers sets gmap.
From S2P Require Import Prelude Deque Queue Nodes Quorum Olist Changes ChangesProof.

Section Properties.
Context {Q : Type} {D : Deque Q loc} {L : DequeLaws Q loc}.
Context (vec : list ti_node) (this : nat) (this_id : Z).
Implicit Types (s : ti_changes Q).


(** C2. A node accepts each change id at most once, for whichever node asks
    first, whatever happens in between. *)
Theorem changes_accept_once s tr s' tr1 tr2 ok ok' id :
  0 < len vec <= NODES__MAX -> (this < length vec)%nat ->
  safe_state s -> change_run vec this this_id s tr s' ->
  tr = tr1 ++ (OpAccept ok id, Some RES_ACCEPT) :: tr2 ->
  (OpAccept ok' id, Some RES_ACCEPT) ∉ tr2.
Proof. intros Hv Ht Hs Hrun E. by eapply change_run_accept_once. Qed.

(** C3. The change loop commits in order: each own query runs exactly at the
    committed id plus one, an id is given up only in that position, a change of
    another node is applied at an id above the committed one; so the ids it
    commits strictly increase, all of them are new, and the committed id ends
    at the last of them. *)
Theorem changes_loop_commits lock o status timing s :
  safe_state s -> room s ->
  wp (changes__loop lock o status timing) s (fun _ s' =>
    exists evs, trace s' = evs ++ trace s /\ history (this_ccid s) evs (this_ccid s') /\
      StronglySorted Z.gt (commits evs) /\
      (forall id, id ∈ commits evs -> this_ccid s < id <= this_ccid s') /\
      default (this_ccid s) (head (commits evs)) = this_ccid s').
Proof.
  intros (H0 & ql & w & x & Hi & Hx) [Hroom _]. unfold changes__loop. destruct lock; cbn [negb].
  - eapply wp_loop_iterate; [exact Hi|done|lia| |].
    { intros l. specialize (Hx l). lia. }
    intros s' ql' _ (_ & _ & evs & Et & Hh) _. exists evs.
    destruct (history_commits _ _ _ Hh) as (_ & ? & ? & ?). done.
  - apply wp_ret. exists []. split_and!; [done|constructor|constructor| |done].
    intros id Hid. by apply elem_of_nil in Hid.
Qed.

(** [ti_changes_set_next_missing_id] finds the next missing id: it is above
    the given and the committed id, no queued change has it, and every id
    between is that of a queued change. *)
Theorem next_missing_id_correct id s :
  safe_state s -> room s -> 0 <= id < 9223372036854775808 -> this_ccid s < 9223372036854775808 ->
  wp (ti_changes_set_next_missing_id id) s (fun m s' => s' = s /\ exists ls,
    dq_each (ch_queue s) = Some ls /\ Z.max id (this_ccid s) < m /\
    (forall l, l ∈ ls -> idof s l <> m) /\
    (forall i, Z.max id (this_ccid s) < i < m -> exists l, l ∈ ls /\ idof s l = i)).
Proof.
  intros (H0 & ql & w & x & Hi & Hx) [Hroom _] Hid Hc. unfold ti_changes_set_next_missing_id.
  apply wp_bind, wp_get, wp_bind. eapply wp_queue_items; [exact Hi|].
  apply wp_bind, wp_load_all. { intros. by apply (inv_live _ _ _ _ _ _ Hi). }
  intros cs Hcs. apply wp_ret. split; [done|]. exists ql.
  replace (if id <? this_ccid s then this_ccid s else id) with (Z.max id (this_ccid s))
    by (destruct (Z.ltb_spec id (this_ccid s)); lia).
  assert (Hlook : forall c, c ∈ cs -> exists l, l ∈ ql /\ heap s !! l = Some c).
  { intros c Hc'. apply list_elem_of_lookup in Hc' as [i Hin].
    destruct (Forall2_lookup_r _ _ _ _ _ Hcs Hin) as (l & Hl & Hh). exists l.
    split; [by eapply list_elem_of_lookup_2|done]. }
  destruct (next_missing_spec cs (Z.max id (this_ccid s))) as (M1 & M2 & M3); [|lia| |lia|].
  - eapply sorted_changes; [exact Hcs|apply (inv_sorted _ _ _ _ _ Hi)].
  - intros c Hc'. destruct (Hlook c Hc') as (l & Hl & Hh).
    destruct (inv_item _ _ _ _ _ Hi l Hl) as (c0 & ? & (? & _)). assert (c0 = c) as -> by congruence. lia.
  - split_and!; [by apply dq_each_ok, (inv_rep _ _ _ _ _ Hi)|done| |].
    + intros l Hl. apply list_elem_of_lookup in Hl as [i Hin].
      destruct (Forall2_lookup_l _ _ _ _ _ Hcs Hin) as (c & Hcin & Hh).
      unfold idof. rewrite Hh. apply M2. by eapply list_elem_of_lookup_2.
    + intros i Hi'. destruct (M3 i Hi') as (c & Hcin & <-). destruct (Hlook c Hcin) as (l & Hl & Hh).
      exists l. unfold idof. by rewrite Hh.
Qed.

End Properties.

(** ** Runs on the real queue *)

Definition queue4 : Queue.queue loc := Queue 0 4 0 [None; None; None; None].
Definition node_start : ti_changes (Queue.queue loc) := changes_start queue4 1 0.

(** All requests are sent. *)
Definition good : list attempt := [Attempt true true [] true].
Definition iter0 (k : nat) : iteration := Iteration 0 true true 0 false.

Lemma queue4_rep : qrep queue4 [].
Proof. split; simpl; try done; try lia. Qed.

Lemma node_start_safe : safe_state node_start.
Proof. apply changes_start_safe; [apply queue4_rep|lia|lia]. Qed.

(** [exec_all ops s]: the results and the final state. *)
Fixpoint exec_all (vec : list ti_node) (ops : list change_op) (s : ti_changes (Queue.queue loc))
    : option (list (option ti_proto) * ti_changes (Queue.queue loc)) :=
  match ops with
  | [] => Some ([], s)
  | op :: ops =>
      match change_exec vec 0 0 op s with
      | Done r s' => '(rs, s'') ← exec_all vec ops s'; Some (r :: rs, s'')
      | _ => None
      end
  end.

Definition sec (n : Z) : Z := n * SECOND.

(** One own change, accepted by both other nodes and committed. *)
Definition ops_commit : list change_op :=
  [OpNew true true 0 good 7; OpAnswer true good 0 AnsAccept; OpAnswer true good 0 AnsAccept;
   OpLoop true iter0 TI_NODE_STAT_READY (sec 1)].

(** The same change, whose answers arrive after the loop has killed it. *)
Definition ops_killed : list change_op :=
  [OpNew true true 0 good 7; OpLoop true iter0 TI_NODE_STAT_READY (sec 22);
   OpAnswer true good 0 AnsAccept; OpAnswer true good 0 AnsAccept;
   OpLoop true iter0 TI_NODE_STAT_READY (sec 23)].

(** Requests of nodes for ids 1 and 2. *)
Definition ops_accept : list change_op :=
  [OpAccept (fun _ => true) 2; OpAccept (fun _ => true) 1; OpAccept (fun _ => true) 1].

(** Three changes of other nodes and one own change that loses its quorum, then
    three more own changes. *)
Definition ops_lost : list change_op :=
  [OpAdd true true 0 1 0; OpAdd true true 0 2 0; OpAdd true true 0 3 0;
   OpNew true true 0 good 7; OpLoop true iter0 TI_NODE_STAT_READY (sec 1);
   OpAnswer true good 0 AnsReject; OpAnswer true good 0 AnsReject;
   OpNew true true 0 good 8; OpNew true true 0 good 9; OpNew true true 0 good 10;
   OpAnswer true good 2 AnsReject].

(** The state after the first [n] of some operations. *)
Definition after (ops : list change_op) (n : nat) : ti_changes (Queue.queue loc) :=
  match exec_all (ready_cluster 3) (take n ops) node_start with
  | Some (_, s) => s
  | None => node_start
  end.

Lemma room_check (s : ti_changes (Queue.queue loc)) ls :
  dq_each (ch_queue s) = Some ls -> len ls < 1000 -> next_change_id s < 1000 -> room s.
Proof.
  intros E Hl Hn. split; [lia|]. intros ls' E'. rewrite E in E'. simplify_eq. unfold dq_limit. lia.
Qed.

Lemma run_commit3 :
  change_run (ready_cluster 3) 0 0 node_start (zip ops_commit [None; None; None])
    (after ops_commit 3).
Proof.
  apply (run_step _ _ _ _ _ _ (after ops_commit 1)).
  { split; [|done]. split; [reflexivity|]. vm_compute. reflexivity. }
  { apply (room_check _ []); vm_compute; reflexivity. }
  { vm_compute. reflexivity. }
  apply (run_step _ _ _ _ _ _ (after ops_commit 2)).
  { split; [|done]. split; [|vm_compute; reflexivity]. vm_compute. eauto. }
  { apply (room_check _ [1%nat]); vm_compute; reflexivity. }
  { vm_compute. reflexivity. }
  apply (run_step _ _ _ _ _ _ (after ops_commit 3)).
  { split; [|done]. split; [|vm_compute; reflexivity]. vm_compute. eauto. }
  { apply (room_check _ [1%nat]); vm_compute; reflexivity. }
  { vm_compute. reflexivity. }
  apply run_nil.
Qed.

Lemma run_app {Q} {D : Deque Q loc} vec this this_id (s : ti_changes Q) tr s' tr' s'' :
  change_run vec this this_id s tr s' -> change_run vec this this_id s' tr' s'' ->
  change_run vec this this_id s (tr ++ tr') s''.
Proof. induction 1; simpl; [done|]. intros. econstructor; eauto. Qed.

Lemma run_commit :
  change_run (ready_cluster 3) 0 0 node_start (zip ops_commit [None; None; None; None])
    (after ops_commit 4).
Proof.
  apply (run_app _ _ _ _ (zip ops_commit [None; None; None]) _
    [(OpLoop true iter0 TI_NODE_STAT_READY (sec 1), None)] _ run_commit3).
  apply (run_step _ _ _ _ _ _ (after ops_commit 4)).
  { done. }
  { apply (room_check _ [1%nat]); vm_compute; reflexivity. }
  { vm_compute. reflexivity. }
  apply run_nil.
Qed.

Lemma run_accept :
  change_run (ready_cluster 3) 0 0 node_start
    (zip ops_accept [Some RES_ACCEPT; Some RES_ACCEPT; Some ERR_REJECT]) (after ops_accept 3).
Proof.
  apply (run_step _ _ _ _ _ _ (after ops_accept 1)).
  { split; [|done]. simpl. lia. }
  { apply (room_check _ []); vm_compute; reflexivity. }
  { vm_compute. reflexivity. }
  apply (run_step _ _ _ _ _ _ (after ops_accept 2)).
  { split; [|done]. simpl. lia. }
  { apply (room_check _ []); vm_compute; reflexivity. }
  { vm_compute. reflexivity. }
  apply (run_step _ _ _ _ _ _ (after ops_accept 3)).
  { split; [|done]. simpl. lia. }
  { apply (room_check _ []); vm_compute; reflexivity. }
  { vm_compute. reflexivity. }
  apply run_nil.
Qed.


Lemma changes_accept_once_witness :
  (OpAccept (fun _ => true) 1, Some RES_ACCEPT) ∉ [(OpAccept (fun _ => true) 1, Some ERR_REJECT)].
Proof.
  apply (changes_accept_once (ready_cluster 3) 0 0 node_start
    (zip ops_accept [Some RES_ACCEPT; Some RES_ACCEPT; Some ERR_REJECT]) (after ops_accept 3)
    [(OpAccept (fun _ => true) 2, Some RES_ACCEPT)] _ (fun _ => true));
    [vm_compute; split; [reflexivity|discriminate]|vm_compute; lia|apply node_start_safe|apply run_accept|reflexivity].
Defined.

Lemma changes_loop_commits_witness :
  safe_state (after ops_commit 3) /\
  wp (changes__loop true iter0 TI_NODE_STAT_READY (sec 1)) (after ops_commit 3) (fun _ s' =>
    exists evs, trace s' = evs ++ trace (after ops_commit 3) /\
      history (this_ccid (after ops_commit 3)) evs (this_ccid s') /\
      StronglySorted Z.gt (commits evs) /\
      (forall id, id ∈ commits evs -> this_ccid (after ops_commit 3) < id <= this_ccid s') /\
      default (this_ccid (after ops_commit 3)) (head (commits evs)) = this_ccid s').
Proof.
  assert (Hs : safe_state (after ops_commit 3)).
  { eapply (change_run_inv (ready_cluster 3) 0 0);
      [vm_compute; split; [reflexivity|discriminate]|vm_compute; lia|exact run_commit3|apply node_start_safe]. }
  split; [exact Hs|]. apply (changes_loop_commits true iter0 TI_NODE_STAT_READY (sec 1)); [exact Hs|].
  apply (room_check _ [1%nat]); vm_compute; reflexivity.
Defined.

Lemma next_missing_id_correct_witness :
  wp (ti_changes_set_next_missing_id 5) node_start (fun m s' => s' = node_start /\ exists ls,
    dq_each (ch_queue node_start) = Some ls /\ Z.max 5 (this_ccid node_start) < m /\
    (forall l, l ∈ ls -> idof node_start l <> m) /\
    (forall i, Z.max 5 (this_ccid node_start) < i < m -> exists l, l ∈ ls /\ idof node_start l = i)).
Proof.
  apply (next_missing_id_correct 5 node_start);
    [apply node_start_safe|apply (room_check _ []); vm_compute; reflexivity|lia|vm_compute; reflexivity].
Defined.

(** A change that the loop kills while its request is still open is lost
    when the nodes accept it later: it becomes ready outside the queue, its
    query stays alive, and it is neither run nor answered, however often the
    loop runs. The loop kills after 21 seconds, a request is open for 60. *)
Theorem killed_change_never_runs :
  exists s, exec_all (ready_cluster 3) ops_killed node_start = Some ([None; None; None; None; None], s) /\
    trace s = [EvKill 1] /\ queries s !! 7%nat = Some 1%nat /\
    (ch_status <$> heap s !! 1%nat) = Some STAT_READY /\
    dq_each (ch_queue s) = Some [] /\ pending s = ∅ /\
    change_exec (ready_cluster 3) 0 0 (OpLoop true iter0 TI_NODE_STAT_READY (sec 99)) s = Done None s.
Proof. eexists. split; [vm_compute; reflexivity|]. vm_compute. repeat split; reflexivity. Qed.

(** The faulty state of [queue_remove] occurs in the change queue. Three
    changes of other nodes are committed, an own change loses its quorum and
    gets a new id, and three more own changes are queued. When the next one
    loses its quorum, removing it from the queue drops the last queued change
    (address 7) instead, and the lost one (address 5) stays. *)
Theorem lost_quorum_corrupts_queue :
  exists s q', exec_all (ready_cluster 3) ops_lost node_start = Some (replicate 11 None, s) /\
    dq_each (ch_queue s) = Some [4; 5; 6; 7]%nat /\
    change_exec (ready_cluster 3) 0 0 (OpAnswer true good 2 AnsReject) s = BadRemove /\
    Queue.queue_rmval NULL (ch_queue s) 5%nat = Some (5%nat, q') /\
    Queue.queue_each q' = Some [4; 5; 6]%nat.
Proof.
  eexists _, (Queue 3 4 4 [Some 4; Some 5; Some 6; Some 7]%nat).
  split; [vm_compute; reflexivity|]. vm_compute. repeat split; reflexivity.
Qed.

(** When the quorum of a new change cannot be allocated, the change leaks:
    after the error response destroyed the query nothing refers to it, yet it
    keeps a reference and is never freed. *)
Theorem create_failure_leaks :
  exists s, exec_all (ready_cluster 3)
      [OpNew true true 0 [Attempt false true [] true] 7; OpQueryDone 7] node_start = Some ([None; None], s) /\
    (ch_ref <$> heap s !! 1%nat) = Some 1 /\ queries s = ∅ /\ pending s = ∅ /\
    dq_each (ch_queue s) = Some [].
Proof. eexists. split; [vm_compute; reflexivity|]. vm_compute. repeat split; reflexivity. Qed.
