(* ===== verification/Mem.v ===== *)
(** * Allocation, references and callbacks

    The monad of the containers that allocate ([Imap], [Smap]). [mem] is the
    number of allocations that still succeed; the next one fails when it is
    zero. [evs] collects the changes of reference counts and the calls of
    callbacks, most recent first. A run that reads outside a block, through NULL
    or after freeing is [None]. *)
From Stdlib Require Import ZArith Lia.
From stdpp Require Import base list option numbers.
From S2P Require Import Prelude.

Inductive ref_event (V : Type) := Incref (v : V) | Decref (v : V) | Callback (v : V).
Arguments Incref {V}. Arguments Decref {V}. Arguments Callback {V}.

Record ist (V : Type) := IState { mem : nat; evs : list (ref_event V) }.
Arguments IState {V}. Arguments mem {V}. Arguments evs {V}.

Definition IM (V A : Type) := ist V -> option (A * ist V).

#[export] Instance IM_ret V : MRet (IM V) := fun A a s => Some (a, s).
#[export] Instance IM_bind V : MBind (IM V) := fun A B k m s =>
  match m s with Some (a, s') => k a s' | None => None end.

Definition undef {V A} : IM V A := fun _ => None.
Definition deref {V A} (o : option A) : IM V A := fun s => match o with Some a => Some (a, s) | None => None end.
Definition alloc {V} : IM V bool := fun s =>
  match mem s with O => Some (false, s) | S m => Some (true, IState m (evs s)) end.
Definition emit {V} (e : ref_event V) : IM V unit := fun s => Some (tt, IState (mem s) (e :: evs s)).

(** ** Runs of the monad *)

Lemma IM_bind_Some {V A B} (m : IM V A) (k : A -> IM V B) s a s' :
  m s = Some (a, s') -> (m ≫= k) s = k a s'.
Proof. unfold mbind, IM_bind. by intros ->. Qed.

Lemma IM_deref_Some {V A B} (a : A) (k : A -> IM V B) s : (deref (Some a) ≫= k) s = k a s.
Proof. done. Qed.

Lemma IM_bind_ext {V A B} (m : IM V A) (k k' : A -> IM V B) s :
  (forall a s', m s = Some (a, s') -> k a s' = k' a s') -> (m ≫= k) s = (m ≫= k') s.
Proof. unfold mbind, IM_bind. intros H. destruct (m s) as [[a s']|]; [by apply H|done]. Qed.

Lemma IM_bind_cong {V A B} (m m' : IM V A) (k : A -> IM V B) s : m s = m' s -> (m ≫= k) s = (m' ≫= k) s.
Proof. unfold mbind, IM_bind. by intros ->. Qed.

(** ** Runs that never run out of memory

    [runs N m s Q]: with [N] allocations left the run of [m] from [s] is defined,
    uses at most these, and its result satisfies [Q]. *)
Definition runs {V A} (N : nat) (m : IM V A) (s : ist V) (Q : A -> ist V -> Prop) : Prop :=
  (N <= mem s)%nat -> exists a s', m s = Some (a, s') /\ (mem s <= mem s' + N)%nat /\ Q a s'.

Lemma runs_ret {V A} (a : A) (s : ist V) (Q : A -> ist V -> Prop) : Q a s -> runs 0 (mret a) s Q.
Proof. intros HQ _. exists a, s. split; [done|]. split; [lia|done]. Qed.

Lemma runs_emit {V} e (s : ist V) (Q : unit -> ist V -> Prop) :
  Q tt (IState (mem s) (e :: evs s)) -> runs 0 (emit e) s Q.
Proof. intros HQ _. eexists _, _. split; [done|]. simpl. split; [lia|done]. Qed.

Lemma runs_bind {V A B} N1 N2 (m : IM V A) (k : A -> IM V B) s (Q : B -> ist V -> Prop) :
  runs N1 m s (fun a s1 => runs N2 (k a) s1 Q) -> runs (N1 + N2) (m ≫= k) s Q.
Proof.
  intros Hm HN. destruct (Hm ltac:(lia)) as (a & s1 & E & Hs1 & Hk).
  destruct (Hk ltac:(lia)) as (b & s2 & E2 & Hs2 & HQ).
  exists b, s2. rewrite (IM_bind_Some _ _ _ _ _ E), E2. split; [done|]. split; [lia|done].
Qed.

Lemma runs_mono {V A} N N' (m : IM V A) s (Q Q' : A -> ist V -> Prop) :
  (N <= N')%nat -> (forall a s', Q a s' -> Q' a s') -> runs N m s Q -> runs N' m s Q'.
Proof.
  intros HN HQ Hm HN'. destruct (Hm ltac:(lia)) as (a & s' & E & Hs & Ha).
  exists a, s'. split; [done|]. split; [lia|auto].
Qed.

Lemma runs_deref {V A B} N (a : A) (k : A -> IM V B) s Q : runs N (k a) s Q -> runs N (deref (Some a) ≫= k) s Q.
Proof. done. Qed.

(** ** Walks and callbacks *)

(** Walking over a list: a non-zero result stops. *)
Fixpoint walk_list {V A} (cb : V -> A -> Z * A) (l : list V) (arg : A) : Z * A :=
  match l with
  | [] => (0, arg)
  | v :: l => let '(rc, arg) := cb v arg in
              if negb (rc =? 0) then (rc, arg) else walk_list cb l arg
  end.

Fixpoint run_all {V} (cb : V -> IM V unit) (l : list V) : IM V unit :=
  match l with
  | [] => mret tt
  | v :: l => cb v;; run_all cb l
  end.

Lemma walk_list_app {V A} (cb : V -> A -> Z * A) l1 l2 arg :
  walk_list cb (l1 ++ l2) arg =
  let '(rc, a) := walk_list cb l1 arg in if negb (rc =? 0) then (rc, a) else walk_list cb l2 a.
Proof.
  revert arg. induction l1 as [|v l1 IH]; intros arg; simpl; [done|].
  destruct (cb v arg) as [rc a]. destruct (Z.eqb_spec rc 0) as [->|E]; simpl; [apply IH|].
  by rewrite (proj2 (Z.eqb_neq _ _) E).
Qed.

Definition release {V} (v : V) : IM V unit := emit (Callback v).

Lemma run_all_app {V} (cb : V -> IM V unit) l1 l2 s :
  run_all cb (l1 ++ l2) s = (run_all cb l1;; run_all cb l2) s.
Proof.
  revert s. induction l1 as [|v l1 IH]; intros s; simpl; [done|].
  unfold mbind, IM_bind in *. destruct (cb v s) as [[_u s']|]; [|done]. apply IH.
Qed.

Lemma run_all_emit {V} (e : V -> ref_event V) l s :
  run_all (fun v => emit (e v)) l s = Some (tt, IState (mem s) (rev (e <$> l) ++ evs s)).
Proof.
  revert s. induction l as [|v l IH]; intros [k es]; simpl; [done|].
  unfold mbind, IM_bind, emit. simpl. rewrite IH. simpl. by rewrite <- app_assoc.
Qed.
