(* ===== verification/Imap.v ===== *)
(** * util/imap: sparse maps from 64-bit ids to pointers

    [src/src/util/imap.c], [src/inc/util/imap.h]. A map is a root with 32 slots;
    a slot holds the data of its id and a block of child slots, either all 32
    of them ([key] = 32) or only the one with index [key]. The id [i] is at
    slot [i mod 32] of the root and, when [i >= 32], at the id [i / 32 - 1]
    below it.

    A block of slots is a list, a NULL pointer is [None], data pointers are
    values of a type [V]. The functions run in the monad of [Mem]; [None] is an
    access outside a block or through NULL, or the recursion going deeper than
    its fuel: 64-bit ids need at most 13 levels ([IMAP_FUEL]). *)
From Stdlib Require Import ZArith Lia.
From stdpp Require Import base list option numbers.
From S2P Require Import Prelude Mem.

Definition IMAP_NODE_SZ : Z := 32.
Definition IMAP_ERR_EXIST : Z := -2.
Definition IMAP_ERR_ALLOC : Z := -1.
Definition IMAP_FUEL : nat := 14.

(** ** Data *)

Inductive imap_node (V : Type) :=
  | INode (sz : Z) (key : Z) (data : option V) (nodes : option (list (imap_node V))).
Arguments INode {V}.

Definition nd_sz {V} (n : imap_node V) : Z := let 'INode s _ _ _ := n in s.
Definition nd_key {V} (n : imap_node V) : Z := let 'INode _ k _ _ := n in k.
Definition nd_data {V} (n : imap_node V) : option V := let 'INode _ _ d _ := n in d.
Definition nd_nodes {V} (n : imap_node V) : option (list (imap_node V)) :=
  let 'INode _ _ _ ns := n in ns.

Record imap (V : Type) := Imap { im_n : Z; im_nodes : list (imap_node V) }.
Arguments Imap {V}. Arguments im_n {V}. Arguments im_nodes {V}.

Section Imap.
Context {V : Type} `{EqDecision V}.
Notation node := (imap_node V).
Notation M := (IM V).
Implicit Types (n : node) (ns : list node) (id : Z) (data : V).

Definition imap__empty_node : node := INode 0 0 None None.

Definition set_data (d : option V) n : node := INode (nd_sz n) (nd_key n) d (nd_nodes n).
Definition set_sz (s : Z) n : node := INode s (nd_key n) (nd_data n) (nd_nodes n).
Definition set_nodes (ns : option (list node)) n : node := INode (nd_sz n) (nd_key n) (nd_data n) ns.

Definition imap__node_size n : Z := if nd_key n =? IMAP_NODE_SZ then IMAP_NODE_SZ else 1.

(** The index of the child in the block. *)
Definition imap__unsafe_node n (key : Z) : nat :=
  if nd_key n =? IMAP_NODE_SZ then Z.to_nat key else 0%nat.

Definition imap__get_node n (key : Z) : option nat :=
  if nd_key n =? IMAP_NODE_SZ then Some (Z.to_nat key)
  else if nd_key n =? key then Some 0%nat else None.

Definition imap__ensure_node n (key : Z) : option node :=
  match imap__get_node n key with
  | Some i => ns ← nd_nodes n; ns !! i
  | None => Some imap__empty_node
  end.

Definition imap__node_grow n : M (bool * node) :=
  ok ← alloc;
  if ok : bool then
    ns ← deref (nd_nodes n);
    c ← deref (ns !! 0%nat);
    mret (true, INode (nd_sz n) IMAP_NODE_SZ (nd_data n)
      (Some (<[Z.to_nat (nd_key n) := c]> (replicate 32 imap__empty_node))))
  else mret (false, n).

(** ** Creation and destruction *)

Definition imap_create : M (option (imap V)) :=
  ok ← alloc;
  mret (if ok : bool then Some (Imap 0 (replicate 32 imap__empty_node)) else None).

Definition is_nil {A} (l : list A) : bool := match l with [] => true | _ => false end.

(** The callbacks of [imap__node_destroy_cb], in order ([imap__node_destroy]
    only frees). The empty block stands for a block that was freed. *)
Fixpoint imap__node_destroy_cb (h : nat) (cb : V -> M unit) n : M unit :=
  match h with
  | O => undef
  | S h =>
      ns ← deref (nd_nodes n);
      if is_nil ns then undef else
      (fix go ns : M unit :=
         match ns with
         | [] => mret tt
         | c :: ns =>
             match nd_data c with Some d => cb d | None => mret tt end;;
             match nd_nodes c with Some _ => imap__node_destroy_cb h cb c | None => mret tt end;;
             go ns
         end) ns
  end.

(** The loop over the root: [cb] is [None] for a NULL callback; calling it is
    undefined. *)
Definition call_cb (cb : option (V -> M unit)) data : M unit :=
  match cb with Some cb => cb data | None => undef end.

Fixpoint destroy_root (cb : option (V -> M unit)) ns : M unit :=
  match ns with
  | [] => mret tt
  | c :: ns =>
      match nd_data c, cb with Some d, Some cb => cb d | _, _ => mret tt end;;
      match nd_nodes c with Some _ => imap__node_destroy_cb IMAP_FUEL (call_cb cb) c | None => mret tt end;;
      destroy_root cb ns
  end.

Definition imap_destroy (cb : option (V -> M unit)) (m : option (imap V)) : M unit :=
  match m with
  | None => mret tt
  | Some m =>
      if im_n m =? 0 then mret tt
      else match cb with
           | None => mret tt          (* only frees *)
           | Some cb => destroy_root (Some cb) (im_nodes m)
           end
  end.

Definition imap_clear (cb : option (V -> M unit)) (m : imap V) : M (imap V) :=
  if im_n m =? 0 then mret m
  else destroy_root cb (im_nodes m);; mret (Imap 0 (replicate 32 imap__empty_node)).

(** ** Set and add *)

(** The allocation at the start of [imap__set] and [imap__add]: a first single
    block, or room for a second child. *)
Definition imap__room n (key : Z) : M (bool * node) :=
  if nd_sz n =? 0 then
    ok ← alloc;
    if ok : bool
    then mret (true, INode (nd_sz n) key (nd_data n) (Some [imap__empty_node]))
    else mret (false, set_nodes None n)
  else if negb (nd_key n =? key) && negb (nd_key n =? IMAP_NODE_SZ)
  then imap__node_grow n
  else mret (true, n).

(** [n] with its child at [key] replaced, and [b] added to its size. *)
Definition put_child n (key : Z) (c : node) (b : bool) : option node :=
  ns ← nd_nodes n;
  Some (INode (u32 (nd_sz n + b2z b)) (nd_key n) (nd_data n)
          (Some (<[imap__unsafe_node n key := c]> ns))).

Definition child n (key : Z) : option node :=
  ns ← nd_nodes n; ns !! imap__unsafe_node n key.

(** NULL is returned as [None]. *)
Fixpoint imap__set (h : nat) n id data : M (option V * node) :=
  match h with
  | O => undef
  | S h =>
      let key := id mod IMAP_NODE_SZ in
      '(ok, n) ← imap__room n key;
      if negb ok then mret (None, n) else
      c ← deref (child n key);
      let id := id / IMAP_NODE_SZ in
      '(ret, c) ← (if id =? 0
                   then mret (Some (match nd_data c with Some d => d | None => data end),
                              set_data (Some data) c)
                   else imap__set h c (id - 1) data);
      n ← deref (put_child n key c (bool_decide (ret = Some data)));
      mret (ret, n)
  end.

Definition imap_set (m : imap V) id data : M (option V * imap V) :=
  let slot := Z.to_nat (id mod IMAP_NODE_SZ) in
  c ← deref (im_nodes m !! slot);
  let id := id / IMAP_NODE_SZ in
  '(ret, c) ← (if id =? 0
               then mret (Some (match nd_data c with Some d => d | None => data end),
                          set_data (Some data) c)
               else imap__set IMAP_FUEL c (id - 1) data);
  mret (ret, Imap (u64 (im_n m + b2z (bool_decide (ret = Some data)))) (<[slot := c]> (im_nodes m))).

Fixpoint imap__add (h : nat) n id data : M (Z * node) :=
  match h with
  | O => undef
  | S h =>
      let key := id mod IMAP_NODE_SZ in
      '(ok, n) ← imap__room n key;
      if negb ok then mret (IMAP_ERR_ALLOC, n) else
      c ← deref (child n key);
      let id := id / IMAP_NODE_SZ in
      '(rc, c) ← (if id =? 0
                  then mret (match nd_data c with
                             | Some _ => (IMAP_ERR_EXIST, c)
                             | None => (0, set_data (Some data) c)
                             end)
                  else imap__add h c (id - 1) data);
      n ← deref (put_child n key c (rc =? 0));
      mret (rc, n)
  end.

Definition imap_add (m : imap V) id data : M (Z * imap V) :=
  let slot := Z.to_nat (id mod IMAP_NODE_SZ) in
  c ← deref (im_nodes m !! slot);
  let id := id / IMAP_NODE_SZ in
  '(rc, c) ← (if id =? 0
              then mret (match nd_data c with
                         | Some _ => (IMAP_ERR_EXIST, c)
                         | None => (0, set_data (Some data) c)
                         end)
              else imap__add IMAP_FUEL c (id - 1) data);
  mret (rc, Imap (if rc =? 0 then u64 (im_n m + 1) else im_n m) (<[slot := c]> (im_nodes m))).

(** ** Get and pop *)

(** The loop of [imap_get]: [c] is the slot, [id] is already divided. *)
Fixpoint imap__get (h : nat) (c : node) id : option (option V) :=
  match h with
  | O => None
  | S h =>
      if id =? 0 then Some (nd_data c)
      else match nd_nodes c with
           | None => Some None
           | Some ns =>
               let id := id - 1 in
               match imap__get_node c (id mod IMAP_NODE_SZ) with
               | None => Some None
               | Some i => c ← ns !! i; imap__get h c (id / IMAP_NODE_SZ)
               end
           end
  end.

Definition imap_get (m : imap V) id : option (option V) :=
  c ← im_nodes m !! Z.to_nat (id mod IMAP_NODE_SZ);
  imap__get IMAP_FUEL c (id / IMAP_NODE_SZ).

(** What is left of a node that has lost one item: its block is freed with the
    last one. *)
Definition lose_one n (i : nat) (c : node) : option node :=
  ns ← nd_nodes n;
  let sz := u32 (nd_sz n - 1) in
  Some (if sz =? 0 then INode sz (nd_key n) (nd_data n) None
        else INode sz (nd_key n) (nd_data n) (Some (<[i := c]> ns))).

Fixpoint imap__pop (h : nat) n id : option (option V * node) :=
  match h with
  | O => None
  | S h =>
      match imap__get_node n (id mod IMAP_NODE_SZ) with
      | None => Some (None, n)
      | Some i =>
          ns ← nd_nodes n;
          c ← ns !! i;
          let id := id / IMAP_NODE_SZ in
          if id =? 0 then
            match nd_data c with
            | Some d => n ← lose_one n i (set_data None c); Some (Some d, n)
            | None => Some (None, n)
            end
          else
            '(data, c) ← match nd_nodes c with
                         | Some _ => imap__pop h c (id - 1)
                         | None => Some (None, c)
                         end;
            match data with
            | Some d => n ← lose_one n i c; Some (Some d, n)
            | None => Some (None, INode (nd_sz n) (nd_key n) (nd_data n) (Some (<[i := c]> ns)))
            end
      end
  end.

Definition imap_pop (m : imap V) id : option (option V * imap V) :=
  let slot := Z.to_nat (id mod IMAP_NODE_SZ) in
  c ← im_nodes m !! slot;
  let id := id / IMAP_NODE_SZ in
  '(data, c) ← (if id =? 0 then Some (nd_data c, set_data None c)
                else match nd_nodes c with
                     | Some _ => imap__pop IMAP_FUEL c (id - 1)
                     | None => Some (None, c)
                     end);
  Some (data, Imap (match data with Some _ => u64 (im_n m - 1) | None => im_n m end)
                (<[slot := c]> (im_nodes m))).

(** ** Walking *)

(** [imap__one] and the loop of [imap_one]; the inner [None] is the assertion
    that a block has data. *)
Fixpoint imap__one (h : nat) (ns : list node) : option V :=
  match h with
  | O => None
  | S h =>
      (fix go ns : option V :=
         match ns with
         | [] => None
         | c :: ns =>
             match nd_data c with
             | Some d => Some d
             | None => match nd_nodes c with Some ns' => imap__one h ns' | None => go ns end
             end
         end) ns
  end.

Definition imap_one (m : imap V) : option V :=
  if im_n m =? 0 then None else imap__one (S IMAP_FUEL) (im_nodes m).

(** The callback gets and returns its argument; a non-zero result stops. *)
Fixpoint imap__walk {A} (h : nat) (cb : V -> A -> Z * A) ns (arg : A) : option (Z * A) :=
  match h with
  | O => None
  | S h =>
      (fix go ns arg : option (Z * A) :=
         match ns with
         | [] => Some (0, arg)
         | c :: ns =>
             let '(rc, arg) := match nd_data c with Some d => cb d arg | None => (0, arg) end in
             if negb (rc =? 0) then Some (rc, arg) else
             '(rc, arg) ← match nd_nodes c with
                          | Some ns' => imap__walk h cb ns' arg
                          | None => Some (0, arg)
                          end;
             if negb (rc =? 0) then Some (rc, arg) else go ns arg
         end) ns arg
  end.

Definition imap_walk {A} (m : imap V) (cb : V -> A -> Z * A) (arg : A) : option (Z * A) :=
  if im_n m =? 0 then Some (0, arg) else imap__walk (S IMAP_FUEL) cb (im_nodes m) arg.

(** [imap__walkn]: the loop ends when [*n] is zero. *)
Fixpoint imap__walkn {A} (h : nat) (cb : V -> A -> Z * A) ns (arg : A) (k : Z) : option (A * Z) :=
  match h with
  | O => None
  | S h =>
      (fix go ns arg k : option (A * Z) :=
         match ns with
         | [] => Some (arg, k)
         | c :: ns =>
             if k =? 0 then Some (arg, k) else
             let '(arg, k, stop) :=
               match nd_data c with
               | Some d => let '(r, arg) := cb d arg in
                           let k := u64 (k - r) in (arg, k, k =? 0)
               | None => (arg, k, false)
               end in
             if stop : bool then Some (arg, k) else
             '(arg, k) ← match nd_nodes c with
                         | Some ns' => imap__walkn h cb ns' arg k
                         | None => Some (arg, k)
                         end;
             go ns arg k
         end) ns arg k
  end.

(** The loop of [imap_walkn] over the root does not look at [*n] again. *)
Fixpoint walkn_root {A} (cb : V -> A -> Z * A) ns (arg : A) (k : Z) : option (A * Z) :=
  match ns with
  | [] => Some (arg, k)
  | c :: ns =>
      let '(arg, k, stop) :=
        match nd_data c with
        | Some d => let '(r, arg) := cb d arg in
                    let k := u64 (k - r) in (arg, k, k =? 0)
        | None => (arg, k, false)
        end in
      if stop : bool then Some (arg, k) else
      '(arg, k) ← match nd_nodes c with
                  | Some ns' => imap__walkn IMAP_FUEL cb ns' arg k
                  | None => Some (arg, k)
                  end;
      walkn_root cb ns arg k
  end.

Definition imap_walkn {A} (m : imap V) (cb : V -> A -> Z * A) (arg : A) (k : Z) : option (A * Z) :=
  if im_n m =? 0 then Some (arg, k) else walkn_root cb (im_nodes m) arg k.

(** The data of a block, in order ([imap__vec]); [imap__vec_ref] takes a
    reference of each. *)
Fixpoint imap__vec (h : nat) ns : option (list V) :=
  match h with
  | O => None
  | S h =>
      (fix go ns : option (list V) :=
         match ns with
         | [] => Some []
         | c :: ns =>
             l ← match nd_nodes c with Some ns' => imap__vec h ns' | None => Some [] end;
             l' ← go ns;
             Some (option_list (nd_data c) ++ l ++ l')
         end) ns
  end.

(** [VEC_push] does not check the room of the vector made for [imap->n] items. *)
Definition imap_vec (m : imap V) : M (option (list V)) :=
  ok ← alloc;
  if negb ok then mret None else
  if im_n m =? 0 then mret (Some []) else
  l ← deref (imap__vec (S IMAP_FUEL) (im_nodes m));
  if im_n m <? len l then undef else mret (Some l).

Definition emit_all (l : list (ref_event V)) : M unit := fun s => Some (tt, IState (mem s) (rev l ++ evs s)).

Definition imap_vec_ref (m : imap V) : M (option (list V)) :=
  o ← imap_vec m;
  match o with
  | Some l => emit_all (Incref <$> l);; mret (Some l)
  | None => mret None
  end.

(** [imap_walk_cp]: the callback runs until it fails, every item is released. *)
Fixpoint walk_cp_loop {A} (cb : V -> A -> Z * A) (l : list V) (rc : Z) (arg : A) : M (Z * A) :=
  match l with
  | [] => mret (rc, arg)
  | d :: l =>
      let '(rc, arg) := if rc =? 0 then cb d arg else (rc, arg) in
      emit (Callback d);; walk_cp_loop cb l rc arg
  end.

Definition imap_walk_cp {A} (m : imap V) (cb : V -> A -> Z * A) (arg : A) : M (Z * A) :=
  o ← imap_vec_ref m;
  match o with
  | None => mret (-1, arg)
  | Some l => walk_cp_loop cb l 0 arg
  end.

(** ** Comparison *)

(** The test on a pair of slots in [imap__eq]; [rec] compares their blocks. *)
Definition eq_slot (rec : node -> node -> option bool) (x y : node) : option bool :=
  if negb (nd_sz x =? nd_sz y) || negb (bool_decide (nd_data x = nd_data y))
  then Some false
  else match nd_nodes x, nd_nodes y with
       | Some _, Some _ => rec x y
       | None, None => Some true
       | _, _ => Some false
       end.

(** The lock-step loop, [y] running along [x]. *)
Fixpoint eq_loop (test : node -> node -> option bool) (xs ys : list node) : option bool :=
  match xs with
  | [] => Some true
  | x :: xs =>
      match ys with
      | [] => None
      | y :: ys => b ← test x y; if b : bool then eq_loop test xs ys else Some false
      end
  end.

(** The loop of a full block against a block with the single child [y] at
    [ykey]: other slots are only tested for their size. *)
Fixpoint single_loop (test : node -> node -> option bool) (ykey : Z) (y : node) (key : Z)
    (xs : list node) : option bool :=
  match xs with
  | [] => Some true
  | x :: xs =>
      b ← (if ykey =? key then test x y else Some (nd_sz x =? 0));
      if b : bool then single_loop test ykey y (key + 1) xs else Some false
  end.

Fixpoint imap__eq (h : nat) (a b : node) : option bool :=
  match h with
  | O => None
  | S h =>
      let test := eq_slot (imap__eq h) in
      nsa ← nd_nodes a;
      nsb ← nd_nodes b;
      if nd_key a =? nd_key b then eq_loop test nsa nsb
      else if nd_key b =? IMAP_NODE_SZ then
        y ← nsa !! 0%nat; single_loop test (nd_key a) y 0 nsb
      else if negb (nd_key a =? IMAP_NODE_SZ) then Some false
      else y ← nsb !! 0%nat; single_loop test (nd_key b) y 0 nsa
  end.

(** The test of [imap__le]. *)
Definition le_slot (rec : node -> node -> option bool) (x y : node) : option bool :=
  if (nd_sz y <? nd_sz x)
     || (match nd_data x, nd_data y with Some _, None => true | _, _ => false end)
  then Some false
  else match nd_nodes x, nd_nodes y with
       | Some _, Some _ => rec x y
       | Some _, None => Some false
       | None, _ => Some true
       end.

Fixpoint imap__le (h : nat) (a b : node) : option bool :=
  match h with
  | O => None
  | S h =>
      let test := le_slot (imap__le h) in
      nsa ← nd_nodes a;
      nsb ← nd_nodes b;
      if nd_key a =? nd_key b then eq_loop test nsa nsb
      else if nd_key b =? IMAP_NODE_SZ then
        x ← nsa !! 0%nat; y ← nsb !! Z.to_nat (nd_key a); test x y
      else if nd_key a =? IMAP_NODE_SZ then
        y ← nsb !! 0%nat; single_loop test (nd_key b) y 0 nsa
      else Some false
  end.

(** The tests on the root slots do not compare sizes. *)
Definition eq_root (x y : node) : option bool :=
  if negb (bool_decide (nd_data x = nd_data y)) then Some false
  else match nd_nodes x, nd_nodes y with
       | Some _, Some _ => imap__eq IMAP_FUEL x y
       | None, None => Some true
       | _, _ => Some false
       end.

Definition le_root (x y : node) : option bool :=
  if match nd_data x, nd_data y with Some _, None => true | _, _ => false end then Some false
  else match nd_nodes x, nd_nodes y with
       | Some _, Some _ => imap__le IMAP_FUEL x y
       | Some _, None => Some false
       | None, _ => Some true
       end.

Definition imap__eq_ (a b : imap V) : option bool := eq_loop eq_root (im_nodes a) (im_nodes b).
Definition imap__le_ (a b : imap V) : option bool := eq_loop le_root (im_nodes a) (im_nodes b).

(** [same]: the two pointers are equal. *)
Definition imap_eq (same : bool) (a b : imap V) : option bool :=
  if same then Some true
  else if negb (im_n a =? im_n b) then Some false
  else if im_n a =? 0 then Some true else imap__eq_ a b.

Definition imap_le (same : bool) (a b : imap V) : option bool :=
  if same then Some true
  else if im_n a =? 0 then Some true
  else if im_n a <=? im_n b then imap__le_ a b else Some false.

Definition imap_lt (same : bool) (a b : imap V) : option bool :=
  if (im_n a =? 0) && negb (im_n b =? 0) then Some true
  else if negb same && (im_n a <? im_n b) then imap__le_ a b else Some false.

(** ** A free id *)

(** The first slot without data, from [i]. *)
Fixpoint first_free (i : Z) ns : option Z :=
  match ns with
  | [] => None
  | c :: ns => match nd_data c with None => Some i | Some _ => first_free (i + 1) ns end
  end.

(** The second loop of [imap__unused_id]: [k] slots from [i]. *)
Fixpoint unused_loop (rec : node -> Z -> option Z) (m : Z) (k : nat) (i : Z) ns (low : Z) : option Z :=
  match k with
  | O => Some low
  | S k =>
      match ns with
      | [] => None
      | c :: ns =>
          match nd_nodes c with
          | None => Some i
          | Some _ =>
              r ← rec c m;
              if r <? m then
                if r =? 0 then Some i
                else let r := u64 (r * IMAP_NODE_SZ + i) in
                     unused_loop rec m k (i + 1) ns (if r <? low then r else low)
              else unused_loop rec m k (i + 1) ns low
          end
      end
  end.

Fixpoint imap__unused_id (h : nat) n (max : Z) : option Z :=
  match h with
  | O => None
  | S h =>
      if negb (nd_key n =? IMAP_NODE_SZ) then Some (if nd_key n mod IMAP_NODE_SZ =? 0 then 1 else 0)
      else
        ns ← nd_nodes n;
        match first_free 0 ns with
        | Some i => Some i
        | None =>
            let e := if 64 <? max then 64 else max in
            unused_loop (imap__unused_id h) (max / IMAP_NODE_SZ) (Z.to_nat (e - 32)) 32 ns max
        end
  end.

(** The second loop of [imap_unused_id]. *)
Fixpoint unused_root (max m : Z) (k : nat) (i : Z) ns : option Z :=
  match k with
  | O => Some max
  | S k =>
      match ns with
      | [] => None
      | c :: ns =>
          match nd_nodes c with
          | None => Some i
          | Some _ =>
              r ← imap__unused_id IMAP_FUEL c m;
              if (r <? m) && (u64 (r * IMAP_NODE_SZ + i) <? max)
              then Some (u64 (r * IMAP_NODE_SZ + i))
              else unused_root max m k (i + 1) ns
          end
      end
  end.

Definition imap_unused_id (im : imap V) (max : Z) : option Z :=
  if im_n im =? 0 then Some 0 else
  match first_free 0 (im_nodes im) with
  | Some i => Some (if max <? i then max else i)
  | None =>
      let e := if 64 <? max then 64 else max in
      unused_root max (max / IMAP_NODE_SZ) (Z.to_nat (e - 32)) 32 (im_nodes im)
  end.

(** ** Set operations

    A slot step works on the slot [d] of the destination, the matching slots of
    the operands, and the size of the destination's parent; [wrap] is the width of
    that size (32 bits in a node, 64 in the root). *)

Fixpoint each_slot (f : Z -> node -> Z -> M (node * Z)) (i : Z) ns (sz : Z) : M (list node * Z) :=
  match ns with
  | [] => mret ([], sz)
  | d :: ns =>
      '(d, sz) ← f i d sz;
      '(ns, sz) ← each_slot f (i + 1) ns sz;
      mret (d :: ns, sz)
  end.

(** The first index of the loops over a block: [key & 0x1f]. *)
Definition first_index (n : node) : Z := Z.land (nd_key n) 31.

Definition over_block (f : Z -> node -> Z -> M (node * Z)) (dest : node) : M node :=
  ns ← deref (nd_nodes dest);
  '(ns, sz) ← each_slot f (first_index dest) ns (nd_sz dest);
  mret (INode sz (nd_key dest) (nd_data dest) (Some ns)).

(** Room for a child of [node] in [dest]; a failed allocation aborts the
    program. *)
Definition grow_for (dest n : node) : M node :=
  if negb (nd_key dest =? IMAP_NODE_SZ) && negb (nd_key n =? nd_key dest)
  then '(ok, dest) ← imap__node_grow dest; if ok : bool then mret dest else undef
  else mret dest.

(** Drop the block of a node without items. *)
Definition prune (dest : node) : node := if nd_sz dest =? 0 then set_nodes None dest else dest.

Definition union_move_slot (rec : node -> node -> M node) (wrap : Z -> Z) (e d : node) (sz : Z)
    : M (node * Z) :=
  '(d, sz) ← match nd_data e, nd_data d with
             | Some v, Some _ => emit (Decref v);; mret (d, sz)
             | Some v, None => mret (set_data (Some v) d, wrap (sz + 1))
             | None, _ => mret (d, sz)
             end;
  match nd_nodes e, nd_nodes d with
  | Some _, Some _ =>
      d' ← rec d e; mret (d', wrap (sz + (nd_sz d' - nd_sz d)))
  | Some ns, None => mret (INode (nd_sz e) (nd_key e) (nd_data d) (Some ns), wrap (sz + nd_sz e))
  | None, _ => mret (d, sz)
  end.

Fixpoint imap__union_move (h : nat) (dest n : node) : M node :=
  match h with
  | O => undef
  | S h =>
      dest ← grow_for dest n;
      over_block (fun i d sz => e ← deref (imap__ensure_node n i);
                                union_move_slot (imap__union_move h) u32 e d sz) dest
  end.

(** The root level: the slots of [other] by index; [other] is left empty. *)
Definition over_root (f : node -> node -> Z -> M (node * Z)) (dest other : imap V) : M (imap V) :=
  '(ns, n) ← each_slot (fun i d sz => e ← deref (im_nodes other !! Z.to_nat i); f e d sz)
                0 (im_nodes dest) (im_n dest);
  mret (Imap n ns).

Definition imap_union_move (dest other : imap V) : M (imap V * imap V) :=
  dest ← (if im_n other =? 0 then mret dest
          else over_root (union_move_slot (imap__union_move IMAP_FUEL) u64) dest other);
  mret (dest, Imap 0 (replicate 32 imap__empty_node)).

Definition difference_slot (rec : node -> node -> M node) (wrap : Z -> Z) (e d : node) (sz : Z)
    : M (node * Z) :=
  '(d, sz) ← match nd_data e, nd_data d with
             | Some _, Some v => emit (Decref v);; mret (set_data None d, wrap (sz - 1))
             | _, _ => mret (d, sz)
             end;
  match nd_nodes e, nd_nodes d with
  | Some _, Some _ =>
      d' ← rec d e; mret (prune d', wrap (sz - (nd_sz d - nd_sz d')))
  | _, _ => mret (d, sz)
  end.

Fixpoint imap__difference_inplace (h : nat) (dest n : node) : M node :=
  match h with
  | O => undef
  | S h =>
      over_block (fun i d sz => e ← deref (imap__ensure_node n i);
                                difference_slot (imap__difference_inplace h) u32 e d sz) dest
  end.

Definition imap_difference_inplace (dest other : imap V) : M (imap V) :=
  if im_n other =? 0 then mret dest
  else over_root (difference_slot (imap__difference_inplace IMAP_FUEL) u64) dest other.

Definition intersection_slot (rec : node -> node -> M node) (h : nat) (cb : V -> M unit)
    (wrap : Z -> Z) (e d : node) (sz : Z) : M (node * Z) :=
  '(d, sz) ← match nd_data e, nd_data d with
             | None, Some v => cb v;; mret (set_data None d, wrap (sz - 1))
             | _, _ => mret (d, sz)
             end;
  match nd_nodes d, nd_nodes e with
  | Some _, Some _ => d' ← rec d e; mret (d', wrap (sz - (nd_sz d - nd_sz d')))
  | Some _, None =>
      imap__node_destroy_cb h cb d;;
      mret (INode 0 (nd_key d) (nd_data d) None, wrap (sz - nd_sz d))
  | None, _ => mret (d, sz)
  end.

Fixpoint imap__intersection_inplace (h : nat) (cb : V -> M unit) (dest n : node) : M node :=
  match h with
  | O => undef
  | S h =>
      dest ← over_block (fun i d sz => e ← deref (imap__ensure_node n i);
               intersection_slot (imap__intersection_inplace h cb) h cb u32 e d sz) dest;
      mret (prune dest)
  end.

Definition imap_intersection_inplace (dest other : imap V) (cb : V -> M unit) : M (imap V) :=
  over_root (intersection_slot (imap__intersection_inplace IMAP_FUEL cb) IMAP_FUEL cb u64) dest other.

Definition symmdiff_slot (rec : node -> node -> M node) (cb : V -> M unit)
    (wrap : Z -> Z) (e d : node) (sz : Z) : M (node * Z) :=
  '(d, sz) ← match nd_data e, nd_data d with
             | Some v, Some w => emit (Decref w);; cb v;; mret (set_data None d, wrap (sz - 1))
             | Some v, None => mret (set_data (Some v) d, wrap (sz + 1))
             | None, _ => mret (d, sz)
             end;
  match nd_nodes e, nd_nodes d with
  | Some _, Some _ => d' ← rec d e; mret (d', wrap (sz + (nd_sz d' - nd_sz d)))
  | Some ns, None => mret (INode (nd_sz e) (nd_key e) (nd_data d) (Some ns), wrap (sz + nd_sz e))
  | None, _ => mret (d, sz)
  end.

Fixpoint imap__symmdiff_move (h : nat) (cb : V -> M unit) (dest n : node) : M node :=
  match h with
  | O => undef
  | S h =>
      dest ← grow_for dest n;
      dest ← over_block (fun i d sz => e ← deref (imap__ensure_node n i);
               symmdiff_slot (imap__symmdiff_move h cb) cb u32 e d sz) dest;
      mret (prune dest)
  end.

Definition imap_symmdiff_move (dest other : imap V) (cb : V -> M unit) : M (imap V * imap V) :=
  dest ← (if im_n other =? 0 then mret dest
          else over_root (symmdiff_slot (imap__symmdiff_move IMAP_FUEL cb) cb u64) dest other);
  mret (dest, Imap 0 (replicate 32 imap__empty_node)).

(** ** Duplication and the operations that make a new map

    The boolean of the result is false for the return value -1, the node is the
    destination as it is left behind. *)

(** On failure [imap__nodes_dup] calls [imap__node_destroy_cb] with the pointer
    to its block, so with the first slot of the block, whose own block is then
    freed. *)
Definition free_first (h : nat) (ds : list node) : M (list node) :=
  d0 ← deref (ds !! 0%nat);
  imap__node_destroy_cb h (fun v => emit (Decref v)) d0;;
  mret (<[0%nat := set_nodes (Some []) d0]> ds).

Fixpoint imap__nodes_dup (h : nat) (dest n : node) : M (bool * node) :=
  match h with
  | O => undef
  | S h =>
      ns ← deref (nd_nodes n);
      ok ← alloc;
      if negb ok then mret (false, set_nodes None dest) else
      '(ok, ds) ← (fix go (ns : list node) : M (bool * list node) :=
             match ns with
             | [] => mret (true, [])
             | c :: ns =>
                 match nd_data c with Some v => emit (Incref v) | None => mret tt end;;
                 let d := INode 0 0 (nd_data c) None in
                 '(ok, d) ← match nd_nodes c with
                            | Some _ => imap__nodes_dup h d c
                            | None => mret (true, d)
                            end;
                 if ok : bool then '(ok, ds) ← go ns; mret (ok, d :: ds)
                 else mret (false, d :: replicate (length ns) imap__empty_node)
             end) ns;
      if ok : bool then mret (true, INode (nd_sz n) (nd_key n) (nd_data dest) (Some ds))
      else ds ← free_first h ds; mret (false, set_nodes (Some ds) dest)
  end.

(** The clean-up loops of [imap_dup] and [imap__node_dup_cb], from the slot that
    failed back to the first one. *)
Fixpoint break_down (h : nat) (incref : bool) (ds : list node) : M unit :=
  match ds with
  | [] => mret tt
  | d :: ds =>
      match nd_data d with Some v => if incref then emit (Decref v) else mret tt | None => mret tt end;;
      match nd_nodes d with
      | Some ns => c ← deref (ns !! 0%nat); imap__node_destroy_cb h (fun v => emit (Decref v)) c
      | None => mret tt
      end;;
      break_down h incref ds
  end.

(** The loop of the two functions; [done] are the slots behind, last first. *)
Fixpoint dup_loop (rec : node -> M (option node)) (h : nat) (incref : bool) (done ns : list node)
    : M (option (list node)) :=
  match ns with
  | [] => mret (Some (rev done))
  | c :: ns =>
      match nd_data c with Some v => if incref then emit (Incref v) else mret tt | None => mret tt end;;
      o ← match nd_nodes c with Some _ => rec c | None => mret (Some c) end;
      match o with
      | Some d => dup_loop rec h incref (d :: done) ns
      | None => break_down h incref (set_nodes None c :: done);; mret None
      end
  end.

Fixpoint imap__node_dup_cb (h : nat) (incref : bool) n : M (option node) :=
  match h with
  | O => undef
  | S h =>
      ns ← deref (nd_nodes n);
      ok ← alloc;
      if negb ok then mret None else
      o ← dup_loop (imap__node_dup_cb h incref) h incref [] ns;
      mret ((fun ds => set_nodes (Some ds) n) <$> o)
  end.

Definition imap_dup (m : imap V) (incref : bool) : M (option (imap V)) :=
  ok ← alloc;
  if negb ok then mret None else
  o ← dup_loop (imap__node_dup_cb IMAP_FUEL incref) IMAP_FUEL incref [] (im_nodes m);
  mret ((fun ds => Imap (im_n m) ds) <$> o).

(** Loops that may fail. *)
Fixpoint make_slots (f : Z -> node -> Z -> M (bool * node * Z)) (i : Z) ns (sz : Z)
    : M (bool * list node * Z) :=
  match ns with
  | [] => mret (true, [], sz)
  | d :: ns =>
      '(ok, d, sz) ← f i d sz;
      if ok : bool then
        '(ok, ns, sz) ← make_slots f (i + 1) ns sz;
        mret (ok, d :: ns, sz)
      else mret (false, d :: ns, sz)
  end.

Definition make_block (f : Z -> node -> Z -> M (bool * node * Z)) (dest : node) : M (bool * node) :=
  ns ← deref (nd_nodes dest);
  '(ok, ns, sz) ← make_slots f (first_index dest) ns (nd_sz dest);
  mret (ok, INode sz (nd_key dest) (nd_data dest) (Some ns)).

(** A zeroed block for [dest]: one slot, or all of them. *)
Definition new_block (dest : node) (key : Z) : M (bool * node) :=
  ok ← alloc;
  mret (if ok : bool
        then (true, INode (nd_sz dest) key (nd_data dest)
               (Some (replicate (if (key =? IMAP_NODE_SZ)%Z then 32 else 1)%nat imap__empty_node)))
        else (false, set_nodes None dest)).

(** [dest->data = v], with a reference and one more item. *)
Definition take_data (wrap : Z -> Z) (v : V) (d : node) (sz : Z) : M (node * Z) :=
  emit (Incref v);; mret (set_data (Some v) d, wrap (sz + 1)).

(** [if (make(dest_nd, ...)) return -1; dest->sz += dest_nd->sz - tmp], where
    [tmp] is the size before, or zero for a slot that had no block. *)
Definition add_made (wrap : Z -> Z) (sz tmp : Z) (m : M (bool * node)) : M (bool * node * Z) :=
  '(ok, d) ← m; mret (ok, d, if ok : bool then wrap (sz + (nd_sz d - tmp)) else sz).

Fixpoint imap__union_make (h : nat) (dest n : node) : M (bool * node) :=
  match h with
  | O => undef
  | S h =>
      '(ok, dest) ← (if negb (nd_key dest =? IMAP_NODE_SZ) && negb (nd_key n =? nd_key dest)
                     then imap__node_grow dest else mret (true, dest));
      if negb ok then mret (false, dest) else
      make_block (fun i d sz =>
        e ← deref (imap__ensure_node n i);
        '(d, sz) ← match nd_data e, nd_data d with
                   | Some v, None => take_data u32 v d sz
                   | _, _ => mret (d, sz)
                   end;
        match nd_nodes e, nd_nodes d with
        | Some _, Some _ => add_made u32 sz (nd_sz d) (imap__union_make h d e)
        | Some _, None => add_made u32 sz 0 (imap__nodes_dup h d e)
        | None, _ => mret (true, d, sz)
        end) dest
  end.

(** Loop over the slots of the roots of [a] and [b]. *)
Definition make_root (f : node -> node -> node -> Z -> M (bool * node * Z)) (dest a b : imap V)
    : M (bool * imap V) :=
  '(ok, ns, n) ← make_slots (fun i d sz =>
        x ← deref (im_nodes a !! Z.to_nat i);
        y ← deref (im_nodes b !! Z.to_nat i);
        f x y d sz) 0 (im_nodes dest) (im_n dest);
  mret (ok, Imap n ns).

Definition union_root (x y d : node) (sz : Z) : M (bool * node * Z) :=
  let v := match nd_data x with Some v => Some v | None => nd_data y end in
  '(d, sz) ← match v with
             | Some v => take_data u64 v d sz
             | None => mret (set_data None d, sz)
             end;
  '(ok, d, sz) ← match nd_nodes x with
                 | Some _ => add_made u64 sz 0 (imap__nodes_dup IMAP_FUEL d x)
                 | None => mret (true, d, sz)
                 end;
  if negb ok then mret (false, d, sz) else
  match nd_nodes y, nd_nodes d with
  | Some _, Some _ => add_made u64 sz (nd_sz d) (imap__union_make IMAP_FUEL d y)
  | Some _, None => add_made u64 sz 0 (imap__nodes_dup IMAP_FUEL d y)
  | None, _ => mret (true, d, sz)
  end.

Definition imap_union_make (dest a b : imap V) : M (bool * imap V) :=
  if (im_n a =? 0) && (im_n b =? 0) then mret (true, dest) else make_root union_root dest a b.

(** [a_nd->sz != b_nd->sz || !imap__eq(a_nd, b_nd)] *)
Definition differs (h : nat) (x y : node) : option bool :=
  if negb (nd_sz x =? nd_sz y) then Some true else negb <$> imap__eq h x y.

Definition difference_make_slot (make : node -> node -> node -> M (bool * node)) (h : nat)
    (wrap : Z -> Z) (x y d : node) (sz : Z) : M (bool * node * Z) :=
  '(d, sz) ← match nd_data x, nd_data y with
             | Some v, None => take_data wrap v d sz
             | _, _ => mret (d, sz)
             end;
  match nd_nodes x, nd_nodes y with
  | Some _, None => add_made wrap sz 0 (imap__nodes_dup h d x)
  | Some _, Some _ =>
      b ← deref (differs h x y);
      if b : bool then add_made wrap sz 0 (make d x y) else mret (true, d, sz)
  | None, _ => mret (true, d, sz)
  end.

(** The end of the node-level functions: an empty result loses its block. *)
Definition prune_made (r : bool * node) : bool * node :=
  let '(ok, d) := r in (ok, if ok : bool then prune d else d).

Fixpoint imap__difference_make (h : nat) (dest a b : node) : M (bool * node) :=
  match h with
  | O => undef
  | S h =>
      '(ok, dest) ← new_block dest (nd_key a);
      if negb ok then mret (false, dest) else
      r ← make_block (fun i d sz =>
            nsa ← deref (nd_nodes a);
            x ← deref (nsa !! imap__unsafe_node a i);
            y ← deref (imap__ensure_node b i);
            difference_make_slot (imap__difference_make h) h u32 x y d sz) dest;
      mret (prune_made r)
  end.

Definition imap_difference_make (dest a b : imap V) : M (bool * imap V) :=
  if im_n a =? 0 then mret (true, dest)
  else make_root (difference_make_slot (imap__difference_make IMAP_FUEL) IMAP_FUEL u64) dest a b.

Definition intersection_make_slot (make : node -> node -> node -> M (bool * node))
    (wrap : Z -> Z) (x y d : node) (sz : Z) : M (bool * node * Z) :=
  '(d, sz) ← match nd_data x, nd_data y with
             | Some v, Some _ => take_data wrap v d sz
             | _, _ => mret (d, sz)
             end;
  match nd_nodes x, nd_nodes y with
  | Some _, Some _ => add_made wrap sz 0 (make d x y)
  | _, _ => mret (true, d, sz)
  end.

Fixpoint imap__intersection_make (h : nat) (dest a b : node) : M (bool * node) :=
  match h with
  | O => undef
  | S h =>
      let '(a, b) := if imap__node_size b <? imap__node_size a then (b, a) else (a, b) in
      '(ok, dest) ← new_block dest (nd_key a);
      if negb ok then mret (false, dest) else
      r ← make_block (fun i d sz =>
            nsa ← deref (nd_nodes a);
            x ← deref (nsa !! imap__unsafe_node a i);
            y ← deref (imap__ensure_node b i);
            intersection_make_slot (imap__intersection_make h) u32 x y d sz) dest;
      mret (prune_made r)
  end.

Definition imap_intersection_make (dest a b : imap V) : M (bool * imap V) :=
  if (im_n a =? 0) || (im_n b =? 0) then mret (true, dest)
  else make_root (intersection_make_slot (imap__intersection_make IMAP_FUEL) u64) dest a b.

Definition symmdiff_make_slot (make : node -> node -> node -> M (bool * node)) (h : nat)
    (wrap : Z -> Z) (x y d : node) (sz : Z) : M (bool * node * Z) :=
  '(d, sz) ← match nd_data x, nd_data y with
             | Some v, None => take_data wrap v d sz
             | None, Some v => take_data wrap v d sz
             | _, _ => mret (d, sz)
             end;
  match nd_nodes x, nd_nodes y with
  | Some _, Some _ =>
      b ← deref (differs h x y);
      if b : bool then add_made wrap sz 0 (make d x y) else mret (true, d, sz)
  | Some _, None => add_made wrap sz 0 (imap__nodes_dup h d x)
  | None, Some _ => add_made wrap sz 0 (imap__nodes_dup h d y)
  | None, None => mret (true, d, sz)
  end.

Fixpoint imap__symmdiff_make (h : nat) (dest a b : node) : M (bool * node) :=
  match h with
  | O => undef
  | S h =>
      '(ok, dest) ← new_block dest (if (nd_key a =? nd_key b) && negb (nd_key a =? IMAP_NODE_SZ)
                                    then nd_key a else IMAP_NODE_SZ);
      if negb ok then mret (false, dest) else
      make_block (fun i d sz =>
        x ← deref (imap__ensure_node a i);
        y ← deref (imap__ensure_node b i);
        symmdiff_make_slot (imap__symmdiff_make h) h u32 x y d sz) dest
  end.

Definition imap_symmdiff_make (dest a b : imap V) : M (bool * imap V) :=
  if (im_n a =? 0) && (im_n b =? 0) then mret (true, dest)
  else make_root (symmdiff_make_slot (imap__symmdiff_make IMAP_FUEL) IMAP_FUEL u64) dest a b.

End Imap.
