(* ===== verification/ImapProof.v ===== *)
(** * Correctness of the id map

    The meaning of the trees of [Imap]: which id holds which pointer ([look]),
    the invariant of a tree ([wf]: the sizes are the numbers of items), the list
    of items in walking order, and the theorems that [imap_get], [imap_add],
    [imap_set], [imap_pop] and the walks implement a finite map. *)
From Stdlib Require Import ZArith Lia.
From stdpp Require Import base list option numbers sets gmap.
From S2P Require Import Prelude Mem Imap.

Section Tree.
Context {V : Type} `{EqDecision V}.
Notation node := (imap_node V).
Implicit Types (c n : node) (ns : list node) (v : V).

(** ** Slots *)

(** The number of items in a slot and below it. *)
Definition cnt c : Z := (if nd_data c then 1 else 0) + nd_sz c.

Fixpoint total ns : Z := match ns with [] => 0 | c :: ns => cnt c + total ns end.

(** [t]: a block is never empty; without it, the empty blocks a failed
    allocation leaves behind are allowed. *)
Fixpoint wf (t : bool) (h : nat) c : Prop :=
  match nd_nodes c with
  | None => nd_sz c = 0
  | Some ns =>
      match h with
      | O => False
      | S h =>
          0 <= nd_key c <= 32 /\ length ns = (if (nd_key c =? 32)%Z then 32 else 1)%nat /\
          Forall (wf t h) ns /\ nd_sz c = total ns /\ (t = true -> 0 < nd_sz c)
      end
  end.

(** What a slot holds: [q] is 0 for the slot itself, [32 q' + k + 1] for the id
    [q'] in its child [k]. *)
Fixpoint look (h : nat) c (q : Z) : option V :=
  if q =? 0 then nd_data c
  else match nd_nodes c, h with
       | Some ns, S h =>
           i ← imap__get_node c ((q - 1) mod 32);
           c' ← ns !! i;
           look h c' ((q - 1) / 32)
       | _, _ => None
       end.

(** The ids a slot of height [h] can hold. *)
Definition below (h : nat) (q : Z) : Prop := 0 <= q < 32 ^ Z.of_nat h.

Lemma below_step h q : below (S h) q -> q <> 0 -> below h ((q - 1) / 32).
Proof.
  unfold below. rewrite Nat2Z.inj_succ, Z.pow_succ_r by lia. intros [Hq1 Hq2] Hq.
  split; [apply Z.div_pos; lia|]. apply Z.div_lt_upper_bound; lia.
Qed.

Lemma below_0 q : below 0 q -> q = 0.
Proof. unfold below. simpl. lia. Qed.

Lemma wf_sz t h c : wf t h c -> 0 <= nd_sz c.
Proof.
  revert c. induction h as [|h IH]; intros c; simpl; destruct (nd_nodes c) as [ns|]; try lia; try done.
  intros (_ & _ & Hf & -> & _). induction Hf as [|c' ns Hc Hf IHf]; simpl; [lia|].
  unfold cnt. specialize (IH c' Hc). destruct (nd_data c'); lia.
Qed.

Lemma cnt_nonneg t h c : wf t h c -> 0 <= nd_sz c <= cnt c.
Proof. intros Hc%wf_sz. unfold cnt. destruct (nd_data c); lia. Qed.

Lemma total_nonneg t h ns : Forall (wf t h) ns -> 0 <= total ns.
Proof.
  induction 1 as [|c ns Hc Hf IH]; simpl; [lia|]. apply cnt_nonneg in Hc. lia.
Qed.

Lemma total_lookup t h ns i c :
  Forall (wf t h) ns -> ns !! i = Some c -> 0 <= cnt c <= total ns.
Proof.
  intros Hf. revert i. induction Hf as [|c' ns Hc Hf IH]; intros i Hi; [done|].
  pose proof (total_nonneg _ _ _ Hf). apply cnt_nonneg in Hc. simpl.
  destruct i as [|i]; simpl in Hi; [simplify_eq; lia|]. specialize (IH i Hi). lia.
Qed.

Lemma total_insert ns i c c' :
  ns !! i = Some c -> total (<[i := c']> ns) = total ns - cnt c + cnt c'.
Proof.
  revert i. induction ns as [|c0 ns IH]; intros i Hi; [done|].
  destruct i as [|i]; simpl in *; [simplify_eq; lia|]. rewrite (IH i) by done. lia.
Qed.

Lemma wf_set_data t h c d : wf t h c -> wf t h (set_data d c).
Proof. destruct h; by destruct c as [sz key data [ns|]]. Qed.

Lemma wf_empty t h : wf t h (@imap__empty_node V).
Proof. by destruct h. Qed.

Lemma cnt_empty : cnt (@imap__empty_node V) = 0.
Proof. done. Qed.

Lemma total_replicate k : total (replicate k (@imap__empty_node V)) = 0.
Proof. induction k as [|k IH]; simpl; [done|]. rewrite cnt_empty. lia. Qed.

Lemma look_empty h q : look h (@imap__empty_node V) q = None.
Proof. destruct h; simpl; by destruct (q =? 0). Qed.

(** ** The children of a node *)

(** The index of child [k] exists exactly when the node can hold it. *)
Lemma get_node_spec t h c ns k :
  wf t (S h) c -> nd_nodes c = Some ns -> 0 <= k < 32 ->
  match imap__get_node c k with
  | Some i => exists c', ns !! i = Some c' /\ wf t h c'
  | None => nd_key c <> 32 /\ nd_key c <> k
  end.
Proof.
  intros Hw Hns Hk. simpl in Hw. rewrite Hns in Hw. destruct Hw as (Hkey & Hlen & Hf & _).
  unfold imap__get_node, IMAP_NODE_SZ.
  destruct (Z.eqb_spec (nd_key c) 32) as [E|E].
  - destruct (lookup_lt_is_Some_2 ns (Z.to_nat k)) as [c' Hc']; [lia|].
    exists c'. split; [done|]. by eapply Forall_lookup_1.
  - destruct (Z.eqb_spec (nd_key c) k); [|done].
    destruct (lookup_lt_is_Some_2 ns 0) as [c' Hc']; [lia|].
    exists c'. split; [done|]. by eapply Forall_lookup_1.
Qed.

Lemma unsafe_get c k i : imap__get_node c k = Some i -> imap__unsafe_node c k = i.
Proof.
  unfold imap__get_node, imap__unsafe_node.
  destruct (nd_key c =? IMAP_NODE_SZ); [congruence|]. destruct (nd_key c =? k); congruence.
Qed.

(** Distinct ids have distinct children. *)
Lemma get_node_inj c k k' i :
  0 <= k -> 0 <= k' -> imap__get_node c k = Some i -> imap__get_node c k' = Some i -> k = k'.
Proof.
  unfold imap__get_node. destruct (nd_key c =? IMAP_NODE_SZ).
  - intros ? ? [= <-] [= ?]. lia.
  - destruct (Z.eqb_spec (nd_key c) k), (Z.eqb_spec (nd_key c) k'); try done. congruence.
Qed.

(** [imap_get] on a well-formed slot. *)
Lemma imap__get_look t h c q : wf t h c -> below h q -> imap__get (S h) c q = Some (look h c q).
Proof.
  revert c q. induction h as [|h IH]; intros c q Hw Hq.
  - apply below_0 in Hq as ->. done.
  - remember (S h) as h1 eqn:E1. simpl. subst h1. simpl look.
    destruct (Z.eqb_spec q 0); [done|].
    destruct (nd_nodes c) as [ns|] eqn:Ens; [|done].
    pose proof (get_node_spec t h c ns ((q - 1) mod 32) Hw Ens (Z.mod_pos_bound _ 32 eq_refl)) as Hg.
    unfold IMAP_NODE_SZ. destruct (imap__get_node c ((q - 1) mod 32)) as [i|]; [|done].
    destruct Hg as (c' & Hc' & Hw'). simpl. rewrite Hc'. simpl. apply IH; [done|].
    by apply below_step.
Qed.

(** A node with a block, whatever its size. *)
Definition blk (t : bool) (h : nat) n ns : Prop :=
  nd_nodes n = Some ns /\ 0 <= nd_key n <= 32 /\
  length ns = (if (nd_key n =? 32)%Z then 32 else 1)%nat /\
  Forall (wf t h) ns /\ nd_sz n = total ns.

Lemma wf_blk t h n ns : wf t (S h) n -> nd_nodes n = Some ns -> blk t h n ns.
Proof. simpl. intros Hw Hns. rewrite Hns in Hw. unfold blk. tauto. Qed.

Lemma blk_wf t h n ns : blk t h n ns -> (t = true -> 0 < nd_sz n) -> wf t (S h) n.
Proof. intros (Hns & ? & ? & ? & ?) ?. simpl. rewrite Hns. tauto. Qed.

(** The child of [n] that holds the ids with remainder [k]. *)
Definition kid n (k : Z) : option node := ns ← nd_nodes n; i ← imap__get_node n k; ns !! i.

Lemma look_S h n q :
  look (S h) n q = if q =? 0 then nd_data n else kid n ((q - 1) mod 32) ≫= fun c => look h c ((q - 1) / 32).
Proof.
  simpl. destruct (q =? 0); [done|]. unfold kid. destruct (nd_nodes n) as [ns|]; simpl; [|done].
  by destruct (imap__get_node n ((q - 1) mod 32)).
Qed.

Lemma look_0 h n : look h n 0 = nd_data n.
Proof. by destruct h. Qed.

Lemma kid_wf t h n k c : wf t (S h) n -> kid n k = Some c -> wf t h c.
Proof.
  unfold kid. intros Hw. destruct (nd_nodes n) as [ns|] eqn:Hns; simpl; [|done].
  destruct (wf_blk _ _ _ _ Hw Hns) as (_ & _ & _ & Hf & _).
  destruct (imap__get_node n k) as [i|]; simpl; [|done]. intros Hc. by eapply Forall_lookup_1.
Qed.

Lemma kid_cnt t h n k c : wf t (S h) n -> kid n k = Some c -> 0 <= cnt c <= nd_sz n.
Proof.
  unfold kid. intros Hw. destruct (nd_nodes n) as [ns|] eqn:Hns; simpl; [|done].
  destruct (wf_blk _ _ _ _ Hw Hns) as (_ & _ & _ & Hf & ->).
  destruct (imap__get_node n k) as [i|]; simpl; [|done]. intros Hc. by eapply total_lookup.
Qed.

Lemma wf_mono t h c : wf true h c -> wf t h c.
Proof.
  revert c. induction h as [|h IH]; intros c; simpl; destruct (nd_nodes c) as [ns|]; try done.
  intros (? & ? & Hf & ? & Hp). do 2 (split; [done|]).
  split; [by eapply Forall_impl|]. auto.
Qed.

Lemma wf_weaken t t' h c : (t' = true -> t = true) -> wf t h c -> wf t' h c.
Proof. destruct t; [intros _; apply wf_mono|]. destruct t'; [|done]. intros Ht. by specialize (Ht eq_refl). Qed.

(** A slot without items below it. *)
Lemma look_sz0 t h c q : wf t h c -> nd_sz c = 0 -> q <> 0 -> look h c q = None.
Proof.
  revert c q. induction h as [|h IH]; intros c q Hw Hsz Hq.
  - simpl. rewrite (proj2 (Z.eqb_neq q 0)) by done. by destruct (nd_nodes c).
  - rewrite look_S, (proj2 (Z.eqb_neq q 0)) by done.
    destruct (kid c ((q - 1) mod 32)) as [c'|] eqn:Hk; simpl; [|done].
    pose proof (kid_cnt _ _ _ _ _ Hw Hk) as Hc. pose proof (kid_wf _ _ _ _ _ Hw Hk) as Hw'.
    pose proof (wf_sz _ _ _ Hw'). unfold cnt in Hc.
    destruct (Z.eqb_spec ((q - 1) / 32) 0) as [->|Hq']; [|by apply IH; [..|destruct (nd_data c'); lia|]].
    rewrite look_0. destruct (nd_data c'); [lia|done].
Qed.

Lemma look_cnt0 t h c q : wf t h c -> cnt c = 0 -> look h c q = None.
Proof.
  intros Hw Hc. pose proof (wf_sz _ _ _ Hw). unfold cnt in Hc.
  destruct (Z.eqb_spec q 0) as [->|Hq]; [rewrite look_0; destruct (nd_data c); [lia|done]|].
  eapply look_sz0; [done|destruct (nd_data c); lia|done].
Qed.

(** ** Replacing a child *)

Lemma kid_put n ns k k' i c :
  0 <= k -> 0 <= k' -> nd_nodes n = Some ns -> imap__get_node n k = Some i -> (i < length ns)%nat ->
  forall sz d, kid (INode sz (nd_key n) d (Some (<[i := c]> ns))) k' =
  if k' =? k then Some c else kid n k'.
Proof.
  intros Hk Hk' Hns Hi Hlen sz d. unfold kid. rewrite Hns. simpl.
  replace (imap__get_node (INode sz (nd_key n) d (Some (<[i:=c]> ns))) k') with (imap__get_node n k') by done.
  destruct (Z.eqb_spec k' k) as [->|Hne].
  - rewrite Hi. simpl. by apply list_lookup_insert_eq.
  - destruct (imap__get_node n k') as [j|] eqn:Hj; simpl; [|done].
    apply list_lookup_insert_ne. intros <-. apply Hne. by eapply get_node_inj.
Qed.

Lemma blk_put t t' h n ns k i c c' :
  blk t h n ns -> 0 <= k < 32 -> imap__get_node n k = Some i -> ns !! i = Some c ->
  wf t' h c' -> (t' = true -> t = true) ->
  let n2 := INode (nd_sz n + (cnt c' - cnt c)) (nd_key n) (nd_data n) (Some (<[i := c']> ns)) in
  blk t' h n2 (<[i := c']> ns) /\
  (forall q, look (S h) n2 q =
     if q =? 0 then nd_data n
     else if (q - 1) mod 32 =? k then look h c' ((q - 1) / 32) else look (S h) n q).
Proof.
  intros (Hns & Hkey & Hlen & Hf & Hsz) Hk Hi Hc Hw' Ht n2. split.
  - unfold blk. subst n2. simpl. rewrite length_insert. split_and!; try done; try lia.
    + apply Forall_insert; [|done]. eapply Forall_impl; [done|]. intros x Hx. by eapply wf_weaken.
    + rewrite (total_insert _ _ c) by done. lia.
  - intros q. rewrite !look_S. destruct (Z.eqb_spec q 0); [done|].
    pose proof (Z.mod_pos_bound (q - 1) 32 eq_refl). subst n2.
    rewrite (kid_put n ns k) by (try done; try lia; by apply lookup_lt_Some in Hc).
    by destruct ((q - 1) mod 32 =? k).
Qed.

(** ** Making room *)

Lemma blk_child t h n ns k i c :
  blk t h n ns -> imap__get_node n k = Some i -> ns !! i = Some c -> child n k = Some c /\ kid n k = Some c.
Proof.
  intros (Hns & _) Hi Hc. unfold child, kid. rewrite Hns. simpl.
  by rewrite (unsafe_get _ _ _ Hi), Hi.
Qed.

Lemma put_child_Some n ns k c b : nd_nodes n = Some ns ->
  put_child n k c b = Some (INode (u32 (nd_sz n + b2z b)) (nd_key n) (nd_data n)
                              (Some (<[imap__unsafe_node n k := c]> ns))).
Proof. unfold put_child. by intros ->. Qed.

(** A full block made of a single one holds the same items. *)
Lemma grown_block t h n ns c :
  blk t h n ns -> nd_key n <> 32 -> ns !! 0%nat = Some c ->
  let ns' := <[Z.to_nat (nd_key n) := c]> (replicate 32 (@imap__empty_node V)) in
  let n1 := INode (nd_sz n) IMAP_NODE_SZ (nd_data n) (Some ns') in
  blk t h n1 ns' /\ forall q, look (S h) n1 q = look (S h) n q.
Proof.
  intros (Hns & Hkey & Hlen & Hf & Hsz) Hk Hc ns' n1. split.
  - unfold blk. subst n1 ns'. cbn [nd_nodes nd_key nd_sz]. unfold IMAP_NODE_SZ.
    split; [done|]. split; [lia|]. split; [by rewrite length_insert|]. split.
    + apply Forall_insert; [apply Forall_replicate, wf_empty|]. by eapply Forall_lookup_1.
    + rewrite (total_insert _ _ imap__empty_node), total_replicate, cnt_empty
        by (apply lookup_replicate; split; [done|lia]).
      rewrite Hsz. destruct (Z.eqb_spec (nd_key n) 32); [done|].
      destruct ns as [|c0 [|]]; try done. simpl in *. simplify_eq. lia.
  - intros q. rewrite !look_S. destruct (Z.eqb_spec q 0); [done|].
    pose proof (Z.mod_pos_bound (q - 1) 32 eq_refl) as Hm. set (k := (q - 1) mod 32) in *.
    unfold kid. rewrite Hns. subst n1 ns'. cbn [nd_nodes nd_key mbind option_bind].
    unfold imap__get_node at 1. cbn [nd_key]. rewrite Z.eqb_refl.
    unfold imap__get_node, IMAP_NODE_SZ. rewrite (proj2 (Z.eqb_neq (nd_key n) 32)) by done. cbn [mbind option_bind].
    destruct (Z.eqb_spec (nd_key n) k) as [E|E]; cbn [mbind option_bind].
    + rewrite Hc, E, list_lookup_insert_eq by (rewrite length_replicate; lia). done.
    + rewrite list_lookup_insert_ne, lookup_replicate_2 by lia. apply look_empty.
Qed.

Lemma room_spec t h n key s :
  wf t (S h) n -> 0 <= key < 32 ->
  exists ok n1 s1, imap__room n key s = Some ((ok, n1), s1) /\ evs s1 = evs s /\
    nd_data n1 = nd_data n /\ nd_sz n1 = nd_sz n /\
    (forall q, look (S h) n1 q = look (S h) n q) /\
    (if ok : bool
     then exists ns i c, blk t h n1 ns /\ imap__get_node n1 key = Some i /\ ns !! i = Some c
     else mem s = O /\ s1 = s /\ wf t (S h) n1 /\
          forall q, q <> 0 -> (q - 1) mod 32 = key -> look (S h) n q = None).
Proof.
  intros Hw Hk. unfold imap__room.
  destruct (Z.eqb_spec (nd_sz n) 0) as [Hz|Hz].
  - unfold alloc, mbind, IM_bind, mret, IM_ret. destruct s as [[|m] es]; simpl.
    + do 3 eexists. split; [done|]. do 3 (split; [done|]). split; [|do 2 (split; [done|]); split; [exact Hz|]; intros q ? _; by apply (look_sz0 t (S h) n q)].
      intros q. change (look (S h) (set_nodes None n) q = look (S h) n q).
      destruct (Z.eqb_spec q 0) as [->|]; [by rewrite !look_0|].
      rewrite (look_sz0 t (S h) n) by done. rewrite look_S. by rewrite (proj2 (Z.eqb_neq q 0)).
    + do 3 eexists. split; [done|]. do 3 (split; [done|]). split.
      * intros q. match goal with |- context [INode ?a ?b ?c ?d] => set (n1 := INode a b c d) end.
        change (look (S h) n1 q = look (S h) n q).
        destruct (Z.eqb_spec q 0) as [->|]; [by rewrite !look_0|].
        rewrite (look_sz0 t (S h) n), look_S by done. rewrite (proj2 (Z.eqb_neq q 0)) by done.
        unfold kid. simpl. destruct (imap__get_node n1 _) as [[|i]|]; simpl; try done. apply look_empty.
      * exists [imap__empty_node], 0%nat, imap__empty_node. unfold blk, imap__get_node. simpl.
        unfold IMAP_NODE_SZ. rewrite (proj2 (Z.eqb_neq key 32)), Z.eqb_refl by lia.
        rewrite cnt_empty. split_and!; try done; try lia. by repeat constructor; apply wf_empty.
  - destruct (nd_nodes n) as [ns|] eqn:Hns; [|simpl in Hw; by rewrite Hns in Hw].
    pose proof (wf_blk _ _ _ _ Hw Hns) as Hb. pose proof Hb as (_ & Hkey & Hlen & _).
    destruct (negb (nd_key n =? key) && negb (nd_key n =? IMAP_NODE_SZ)) eqn:Hg.
    + apply andb_true_iff in Hg as [Hg1%negb_true_iff%Z.eqb_neq Hg2%negb_true_iff%Z.eqb_neq].
      unfold IMAP_NODE_SZ in Hg2.
      destruct (lookup_lt_is_Some_2 ns 0) as [c Hc]; [destruct (nd_key n =? 32); lia|].
      destruct (grown_block t h n ns c Hb Hg2 Hc) as [Hb' Hl].
      unfold imap__node_grow, alloc, mbind, IM_bind, mret, IM_ret, deref.
      destruct s as [[|m] es]; simpl mem; cbn iota beta.
      * do 3 eexists. split; [done|]. do 7 (split; [done|]).
        intros q Hq Eq. rewrite look_S, (proj2 (Z.eqb_neq q 0)) by done. unfold kid. rewrite Hns, Eq. simpl.
        unfold imap__get_node, IMAP_NODE_SZ.
        by rewrite (proj2 (Z.eqb_neq _ _) Hg2), (proj2 (Z.eqb_neq _ _) Hg1).
      * rewrite Hns, Hc. do 3 eexists. split; [done|]. do 3 (split; [done|]). split; [done|].
        destruct (lookup_lt_is_Some_2 (<[Z.to_nat (nd_key n):=c]> (replicate 32 (@imap__empty_node V)))
                    (Z.to_nat key)) as [c' Hc']; [rewrite length_insert, length_replicate; lia|].
        by do 3 eexists.
    + do 3 eexists. split; [done|]. do 4 (split; [done|]).
      pose proof (get_node_spec t h n ns key Hw Hns Hk) as Hsp.
      destruct (imap__get_node n key) as [i|] eqn:Hi.
      * destruct Hsp as (c & Hc & _). by exists ns, i, c.
      * destruct Hsp as [Hs1 Hs2]. unfold IMAP_NODE_SZ in Hg.
        by rewrite (proj2 (Z.eqb_neq _ _) Hs1), (proj2 (Z.eqb_neq _ _) Hs2) in Hg.
Qed.

(** ** Changes of one id

    [upd t h c q c' w b]: [c'] is [c] with [b] more items, holding [x] at [q] when
    [w] is [Some x] and the same items otherwise. *)
Definition upd (t : bool) (h : nat) c (q : Z) c' (w : option (option V)) (b : Z) : Prop :=
  wf t h c' /\ cnt c' = cnt c + b /\
  forall q', 0 <= q' -> look h c' q' = match w with
                                      | Some x => if q' =? q then x else look h c q'
                                      | None => look h c q'
                                      end.

Lemma div_mod_key q q' k : 0 <= k < 32 -> 0 < q' -> 0 <= q ->
  ((q' - 1) mod 32 =? k) && ((q' - 1) / 32 =? q) = (q' =? 32 * q + k + 1).
Proof.
  intros. apply eq_true_iff_eq. rewrite andb_true_iff, !Z.eqb_eq.
  pose proof (Z.div_mod (q' - 1) 32 ltac:(lia)). split; [intros [? ?]; lia|]. intros E.
  replace (q' - 1) with (k + q * 32) by lia.
  rewrite Z.mod_add, Z.div_add, Z.mod_small, Z.div_small by lia. lia.
Qed.

Lemma upd_lift t t' h n ns k i c q c' w b :
  blk t h n ns -> 0 <= k < 32 -> imap__get_node n k = Some i -> ns !! i = Some c -> 0 <= q ->
  upd t' h c q c' w b -> (t' = true -> t = true /\ 0 < nd_sz n + b) ->
  upd t' (S h) n (32 * q + k + 1)
    (INode (nd_sz n + b) (nd_key n) (nd_data n) (Some (<[i := c']> ns))) w b.
Proof.
  intros Hb Hk Hi Hc Hq (Hw' & Hcnt & Hl) Ht. replace b with (cnt c' - cnt c) in * by lia.
  destruct (blk_put t t' h n ns k i c c' Hb Hk Hi Hc Hw' ltac:(tauto)) as [Hb' Hl'].
  split; [|split].
  - eapply blk_wf; [done|]. simpl. intros E. by apply Ht in E as [_ E].
  - unfold cnt at 1 4. simpl. lia.
  - intros q' Hq'. rewrite Hl'.
    destruct (Z.eqb_spec q' 0) as [->|].
    { rewrite look_0. destruct w; [|done]. destruct (Z.eqb_spec 0 (32 * q + k + 1)); [lia|done]. }
    rewrite <- (div_mod_key q q' k) by lia.
    pose proof (Z.div_pos (q' - 1) 32 ltac:(lia) eq_refl) as Hd.
    destruct (Z.eqb_spec ((q' - 1) mod 32) k) as [E|E]; simpl andb.
    + rewrite (Hl ((q' - 1) / 32)) by done.
      replace (look (S h) n q') with (look h c ((q' - 1) / 32)); [done|].
      rewrite look_S. destruct (Z.eqb_spec q' 0); [done|].
      destruct (blk_child _ _ _ _ _ _ _ Hb Hi Hc) as [_ Hkid]. rewrite E, Hkid. done.
    + destruct w; [|done]. done.
Qed.

(** The child of an id. *)
Lemma look_child t h n ns k i c q :
  blk t h n ns -> 0 <= k < 32 -> imap__get_node n k = Some i -> ns !! i = Some c -> 0 <= q ->
  look (S h) n (32 * q + k + 1) = look h c q.
Proof.
  intros Hb Hk Hi Hc Hq. rewrite look_S. destruct (Z.eqb_spec (32 * q + k + 1) 0); [lia|].
  replace (32 * q + k + 1 - 1) with (k + q * 32) by lia.
  rewrite Z.mod_add, Z.div_add, Z.mod_small, Z.div_small by lia. simpl.
  destruct (blk_child _ _ _ _ _ _ _ Hb Hi Hc) as [_ ->]. done.
Qed.

Lemma look_pos t h c q v : wf t h c -> look h c q = Some v -> 0 < cnt c.
Proof.
  intros Hw Hl. destruct (Z.eq_dec (cnt c) 0) as [E|E].
  - by rewrite (look_cnt0 t h c q Hw E) in Hl.
  - pose proof (cnt_nonneg _ _ _ Hw). lia.
Qed.

Lemma upd_same t h c q : wf t h c -> upd t h c q c None 0.
Proof. intros. split; [done|]. split; [lia|done]. Qed.

Lemma upd_data t h c d b :
  wf t h c -> cnt (set_data d c) = cnt c + b -> upd t h c 0 (set_data d c) (Some d) b.
Proof.
  intros Hw Hb. split; [by apply wf_set_data|]. split; [done|]. intros q' _.
  by destruct h, (q' =? 0) eqn:E; simpl; rewrite E.
Qed.

(** One level of [imap__set] and [imap__add]: the child [c1] the id continues in,
    and what replacing it does to the node. *)
Definition room_ok (t : bool) (h : nat) c (q : Z) n1 : Prop :=
  exists c1, child n1 ((q - 1) mod 32) = Some c1 /\ wf t h c1 /\ cnt c1 <= nd_sz c /\
    look (S h) c q = look h c1 ((q - 1) / 32) /\
    forall t' c' w b, upd t' h c1 ((q - 1) / 32) c' w (b2z b) ->
      (t' = true -> t = true /\ 0 < nd_sz c + b2z b) ->
      exists n2, put_child n1 ((q - 1) mod 32) c' b = Some n2 /\ upd t' (S h) c q n2 w (b2z b).

Lemma room_step t h c q s :
  wf t (S h) c -> below (S h) q -> q <> 0 -> nd_sz c + 1 < 4294967296 ->
  exists ok n1 s1, imap__room c ((q - 1) mod 32) s = Some ((ok, n1), s1) /\ evs s1 = evs s /\
    (if ok : bool then room_ok t h c q n1
     else mem s1 = O /\ look (S h) c q = None /\ upd t (S h) c q n1 None 0).
Proof.
  intros Hw Hq Hne Hsz. pose proof (below_step _ _ Hq Hne) as Hq1. unfold room_ok.
  assert (q = 32 * ((q - 1) / 32) + (q - 1) mod 32 + 1) as Eq by (pose proof (Z.div_mod (q - 1) 32); lia).
  assert (0 <= (q - 1) mod 32 < 32) as Hk by (by apply Z.mod_pos_bound).
  destruct (room_spec t h c _ s Hw Hk) as (ok & n1 & s1 & Hr & He & Hd & Hs & Hl & Hok).
  exists ok, n1, s1. split; [done|]. split; [done|]. destruct ok.
  - destruct Hok as (ns & i & c1 & Hb & Hi & Hc1).
    remember ((q - 1) / 32) as q1 eqn:Eq1. remember ((q - 1) mod 32) as k eqn:Ek.
    pose proof Hb as (Hns & _ & _ & Hfw & Htot).
    pose proof (total_lookup _ _ _ _ _ Hfw Hc1) as Htl.
    exists c1. split; [by eapply blk_child|]. split; [by eapply Forall_lookup_1|]. split; [lia|].
    split. { rewrite <- Hl, Eq. by apply (look_child _ _ _ _ _ _ _ q1 Hb Hk Hi Hc1), Hq1. }
    intros t' c' w b Hu Ht. rewrite (put_child_Some n1 ns), (unsafe_get _ _ _ Hi) by done.
    eexists. split; [done|].
    rewrite u32_small by (pose proof (wf_sz _ _ _ Hw); destruct b; simpl; lia). rewrite <- Hs in Ht.
    destruct (upd_lift t t' h n1 ns k i c1 q1 c' w _ Hb Hk Hi Hc1 (proj1 Hq1) Hu Ht) as (Hu1 & Hu2 & Hu3).
    split; [done|]. split; [unfold cnt in *; rewrite Hs, Hd in *; done|].
    intros q' Hq'. rewrite Hu3, Hl, <- Eq by done. done.
  - destruct Hok as (Hm & -> & Hw1 & Hno). split; [done|]. split; [by apply Hno|].
    split; [done|]. split; [unfold cnt; rewrite Hd, Hs; lia|done].
Qed.

(** ** Adding *)

(** One slot of [imap_add] or [imap__add]. *)
Definition add_slot (f : nat) c (q : Z) v : IM V (Z * node) :=
  if q =? 0 then mret (match nd_data c with
                       | Some _ => (IMAP_ERR_EXIST, c)
                       | None => (0, set_data (Some v) c)
                       end)
  else imap__add f c (q - 1) v.

Definition added (t : bool) (h : nat) c (q : Z) v (s : ist V) (rc : Z) c' (s' : ist V) : Prop :=
  evs s' = evs s /\
  match look h c q with
  | Some _ => rc = IMAP_ERR_EXIST /\ upd t h c q c' None 0
  | None => rc = 0 /\ upd t h c q c' (Some (Some v)) 1 \/
            rc = IMAP_ERR_ALLOC /\ mem s' = O /\ upd false h c q c' None 0
  end.

Lemma upd_mono t h c q c' w b : upd t h c q c' w b -> upd false h c q c' w b.
Proof. intros (? & ? & ?). split; [destruct t; [by apply wf_mono|done]|done]. Qed.

Lemma add_slot_spec t h f c q v s :
  (h <= f)%nat -> wf t h c -> below h q -> nd_sz c + 1 < 4294967296 ->
  exists rc c' s', add_slot f c q v s = Some ((rc, c'), s') /\ added t h c q v s rc c' s'.
Proof.
  revert f c q s. induction h as [|h IH]; intros f c q s Hf Hw Hq Hsz.
  all: unfold add_slot, added; destruct (Z.eqb_spec q 0) as [->|Hne].
  all: try (rewrite look_0; destruct (nd_data c) eqn:E; do 3 eexists; (split; [done|]); (split; [done|]);
    [split; [done|by apply upd_same]|];
    left; split; [done|]; apply upd_data; [done|]; unfold cnt; simpl; rewrite E; lia).
  - by apply below_0 in Hq.
  - destruct f as [|f]; [lia|]. cbn [imap__add]. change IMAP_NODE_SZ with 32.
    destruct (room_step t h c q s Hw Hq Hne Hsz) as (ok & n1 & s1 & Hr & He & Hok).
    rewrite (IM_bind_Some _ _ _ _ _ Hr). destruct ok; cbv beta iota delta [negb].
    + destruct Hok as (c1 & Hch & Hw1 & Hc1 & -> & Hput). pose proof (cnt_nonneg _ _ _ Hw1).
      destruct (IH f c1 _ s1 ltac:(lia) Hw1 (below_step _ _ Hq Hne) ltac:(lia))
        as (rc & c' & s' & Ha & Hev & Hadd).
      rewrite Hch, IM_deref_Some.
      change (if (q - 1) / 32 =? 0 then _ else _) with (add_slot f c1 ((q - 1) / 32) v).
      rewrite (IM_bind_Some _ _ _ _ _ Ha). cbv beta iota.
      destruct (look h c1 ((q - 1) / 32)) as [d|] eqn:Hlook.
      * destruct Hadd as [-> Hu].
        destruct (Hput t c' None (IMAP_ERR_EXIST =? 0) Hu) as (n2 & -> & Hu2).
        { intros ->. split; [done|]. pose proof (look_pos _ _ _ _ _ Hw1 Hlook). simpl. lia. }
        do 3 eexists. split; [done|]. split; [congruence|]. done.
      * destruct Hadd as [[-> Hu]|(-> & Hm & Hu)].
        -- destruct (Hput t c' (Some (Some v)) (0 =? 0) Hu) as (n2 & -> & Hu2).
           { intros ->. split; [done|]. simpl. lia. }
           do 3 eexists. split; [done|]. split; [congruence|]. by left.
        -- destruct (Hput false c' None (IMAP_ERR_ALLOC =? 0) Hu) as (n2 & -> & Hu2); [done|].
           do 3 eexists. split; [done|]. split; [congruence|]. by right.
    + destruct Hok as (Hm & -> & Hu). do 3 eexists. split; [done|]. split; [done|]. right.
      split; [done|]. split; [done|]. by eapply upd_mono.
Qed.

(** ** Setting *)

Definition set_slot (f : nat) c (q : Z) v : IM V (option V * node) :=
  if q =? 0 then mret (Some (match nd_data c with Some d => d | None => v end), set_data (Some v) c)
  else imap__set f c (q - 1) v.

Definition was_set (t : bool) (h : nat) c (q : Z) v (s : ist V) (ret : option V) c' (s' : ist V) : Prop :=
  evs s' = evs s /\
  match look h c q with
  | Some d => ret = Some d /\ upd t h c q c' (Some (Some v)) 0
  | None => ret = Some v /\ upd t h c q c' (Some (Some v)) 1 \/
            ret = None /\ mem s' = O /\ upd false h c q c' None 0
  end.

(** Setting the pointer that is already there is excluded: the code counts it
    twice. *)
Lemma set_slot_spec t h f c q v s :
  (h <= f)%nat -> wf t h c -> below h q -> nd_sz c + 1 < 4294967296 -> look h c q <> Some v ->
  exists ret c' s', set_slot f c q v s = Some ((ret, c'), s') /\ was_set t h c q v s ret c' s'.
Proof.
  revert f c q s. induction h as [|h IH]; intros f c q s Hf Hw Hq Hsz Hnv.
  all: unfold set_slot, was_set; destruct (Z.eqb_spec q 0) as [->|Hne].
  all: try (rewrite look_0; do 3 eexists; (split; [done|]); (split; [done|]);
    destruct (nd_data c) eqn:E; [|left]; (split; [done|]);
    (apply upd_data; [done|]); unfold cnt; simpl; rewrite E; lia).
  - by apply below_0 in Hq.
  - destruct f as [|f]; [lia|]. cbn [imap__set]. change IMAP_NODE_SZ with 32.
    destruct (room_step t h c q s Hw Hq Hne Hsz) as (ok & n1 & s1 & Hr & He & Hok).
    rewrite (IM_bind_Some _ _ _ _ _ Hr). destruct ok; cbv beta iota delta [negb].
    + destruct Hok as (c1 & Hch & Hw1 & Hc1 & Hlk & Hput). pose proof (cnt_nonneg _ _ _ Hw1).
      rewrite Hlk in Hnv |- *.
      destruct (IH f c1 _ s1 ltac:(lia) Hw1 (below_step _ _ Hq Hne) ltac:(lia) Hnv)
        as (ret & c' & s' & Ha & Hev & Hadd).
      rewrite Hch, IM_deref_Some.
      change (if (q - 1) / 32 =? 0 then _ else _) with (set_slot f c1 ((q - 1) / 32) v).
      rewrite (IM_bind_Some _ _ _ _ _ Ha). cbv beta iota.
      destruct (look h c1 ((q - 1) / 32)) as [d|] eqn:Hlook.
      * destruct Hadd as [-> Hu]. rewrite (bool_decide_eq_false_2 (Some d = Some v)) by done.
        destruct (Hput t c' (Some (Some v)) false Hu) as (n2 & -> & Hu2).
        { intros ->. split; [done|]. pose proof (look_pos _ _ _ _ _ Hw1 Hlook). simpl. lia. }
        do 3 eexists. split; [done|]. split; [congruence|]. done.
      * destruct Hadd as [[-> Hu]|(-> & Hm & Hu)].
        -- rewrite (bool_decide_eq_true_2 (Some v = Some v)) by done.
           destruct (Hput t c' (Some (Some v)) true Hu) as (n2 & -> & Hu2).
           { intros ->. split; [done|]. simpl. lia. }
           do 3 eexists. split; [done|]. split; [congruence|]. by left.
        -- rewrite (bool_decide_eq_false_2 (None = Some v)) by done.
           destruct (Hput false c' None false Hu) as (n2 & -> & Hu2); [done|].
           do 3 eexists. split; [done|]. split; [congruence|]. by right.
    + destruct Hok as (Hm & -> & Hu). do 3 eexists. split; [done|]. split; [done|]. right.
      split; [done|]. split; [done|]. by eapply upd_mono.
Qed.

(** ** Popping *)

Definition pop_slot (f : nat) c (q : Z) : option (option V * node) :=
  if q =? 0 then Some (nd_data c, set_data None c)
  else match nd_nodes c with Some _ => imap__pop f c (q - 1) | None => Some (None, c) end.

Definition popped (t : bool) (h : nat) c (q : Z) c' : Prop :=
  match look h c q with
  | Some _ => upd t h c q c' (Some None) (-1)
  | None => upd t h c q c' None 0
  end.

Lemma lose_one_spec t h n ns k i c q c' :
  blk t h n ns -> 0 <= k < 32 -> imap__get_node n k = Some i -> ns !! i = Some c -> 0 <= q ->
  nd_sz n < 4294967296 -> 0 < cnt c -> upd t h c q c' (Some None) (-1) ->
  exists n2, lose_one n i c' = Some n2 /\ upd t (S h) n (32 * q + k + 1) n2 (Some None) (-1).
Proof.
  intros Hb Hk Hi Hc Hq Hsz Hpos Hu. pose proof Hb as (Hns & _ & _ & Hf & Htot).
  pose proof (total_lookup _ _ _ _ _ Hf Hc).
  unfold lose_one. rewrite Hns. simpl. rewrite u32_small by lia.
  eexists. split; [done|]. destruct (Z.eqb_spec (nd_sz n - 1) 0) as [E|E].
  - destruct (upd_lift t false h n ns k i c q c' (Some None) (-1) Hb Hk Hi Hc Hq (upd_mono _ _ _ _ _ _ _ Hu)
      ltac:(done)) as (Hw & Hcnt & Hl).
    split; [simpl; lia|]. split; [unfold cnt in *; simpl in *; lia|].
    intros q' Hq'. rewrite <- Hl by done. rewrite look_S. simpl nd_data.
    destruct (Z.eqb_spec q' 0) as [->|]; [by rewrite look_0|].
    symmetry. by apply (look_sz0 false).
  - apply (upd_lift t t h n ns k i c q c' (Some None) (-1)); try done. intros ->. split; [done|]. lia.
Qed.

Lemma pop_slot_spec t h f c q :
  (h <= f)%nat -> wf t h c -> below h q -> nd_sz c < 4294967296 ->
  exists c', pop_slot f c q = Some (look h c q, c') /\ popped t h c q c'.
Proof.
  revert f c q. induction h as [|h IH]; intros f c q Hf Hw Hq Hsz.
  all: unfold pop_slot, popped; destruct (Z.eqb_spec q 0) as [->|Hne].
  all: try (rewrite look_0; eexists; (split; [done|]);
    destruct (nd_data c) eqn:E; [apply upd_data; [done|]; unfold cnt; simpl; rewrite E; lia|];
    replace (set_data None c) with c by (by destruct c; simpl in *; subst); by apply upd_same).
  - by apply below_0 in Hq.
  - destruct (nd_nodes c) as [ns|] eqn:Hns.
    2: { rewrite look_S, (proj2 (Z.eqb_neq q 0)) by done. unfold kid. rewrite Hns. simpl.
         eexists. split; [done|]. by apply upd_same. }
    destruct f as [|f]; [lia|]. cbn [imap__pop]. change IMAP_NODE_SZ with 32.
    pose proof (below_step _ _ Hq Hne) as Hq1.
    assert (q = 32 * ((q - 1) / 32) + (q - 1) mod 32 + 1) as Eq by (pose proof (Z.div_mod (q - 1) 32); lia).
    assert (0 <= (q - 1) mod 32 < 32) as Hk by (by apply Z.mod_pos_bound).
    pose proof (get_node_spec t h c ns _ Hw Hns Hk) as Hg. pose proof (wf_blk _ _ _ _ Hw Hns) as Hb.
    destruct (imap__get_node c ((q - 1) mod 32)) as [i|] eqn:Hi.
    2: { rewrite look_S, (proj2 (Z.eqb_neq q 0)) by done. unfold kid. rewrite Hns, Hi. simpl.
         eexists. split; [done|]. by apply upd_same. }
    destruct Hg as (c1 & Hc1 & Hw1).
    assert (0 <= cnt c1 <= nd_sz c) as Hcc.
    { destruct Hb as (_ & _ & _ & Hfw & ->). by eapply total_lookup. }
    pose proof (cnt_nonneg _ _ _ Hw1).
    rewrite Hns. cbn [mbind option_bind]. rewrite Hc1. cbn [mbind option_bind].
    remember ((q - 1) / 32) as q1 eqn:Eq1. remember ((q - 1) mod 32) as k eqn:Ek. subst q.
    rewrite (look_child _ _ _ _ _ _ _ _ Hb Hk Hi Hc1) by apply Hq1.
    destruct (IH f c1 q1 ltac:(lia) Hw1 Hq1 ltac:(lia)) as (c' & Hp & Hu). unfold popped in Hu.
    assert (forall d, look h c1 q1 = Some d -> exists n2, lose_one c i c' = Some n2 /\
              upd t (S h) c (32 * q1 + k + 1) n2 (Some None) (-1)) as Hlose.
    { intros d Hd. rewrite Hd in Hu. apply (lose_one_spec t h c ns k i c1); try done; try apply Hq1.
      by eapply look_pos. }
    unfold pop_slot in Hp. destruct (Z.eqb_spec q1 0) as [->|Hq10].
    + injection Hp as Hd <-. rewrite look_0 in *. destruct (nd_data c1) as [d|] eqn:E.
      * destruct (Hlose d eq_refl) as (n2 & -> & Hu2). by eexists.
      * eexists. split; [done|]. by apply upd_same.
    + rewrite Hp. cbn [mbind option_bind]. destruct (look h c1 q1) as [d|] eqn:E.
      * destruct (Hlose d eq_refl) as (n2 & -> & Hu2). by eexists.
      * eexists. split; [cbn [mbind option_bind]; done|].
        destruct (upd_lift t t h c ns k i c1 q1 c' None 0 Hb Hk Hi Hc1 (proj1 Hq1) Hu) as (? & ? & ?).
        { intros ->. split; [done|]. simpl in Hw. rewrite Hns in Hw. destruct Hw as (_ & _ & _ & _ & Hp0).
          specialize (Hp0 eq_refl). lia. }
        rewrite Z.add_0_r in *. by split.
Qed.

End Tree.
