(* ===== verification/ImapMap.v ===== *)
(** * The id map as a finite map

    The items of the trees of [Imap] in walking order, the finite map [to_map]
    they form, the invariant [imap_ok] of a whole map, and the effect of
    [imap_get], [imap_add], [imap_set] and [imap_pop] on it. *)
From Stdlib Require Import ZArith Lia.
From stdpp Require Import base list option numbers sets gmap.
From S2P Require Import Prelude Mem Imap ImapProof.

Section Items.
Context {V : Type} `{EqDecision V}.
Notation node := (imap_node V).
Implicit Types (c n : node) (ns : list node) (v : V) (q : Z).

(** ** The items of a slot, in walking order *)

Definition shift (k : Z) (p : Z * V) : Z * V := (32 * p.1 + k + 1, p.2).

Fixpoint block_items (it : node -> list (Z * V)) (k : Z) ns : list (Z * V) :=
  match ns with
  | [] => []
  | c :: ns => (shift k <$> it c) ++ block_items it (k + 1) ns
  end.

Fixpoint items (h : nat) c : list (Z * V) :=
  match nd_data c with Some v => [(0, v)] | None => [] end ++
  match nd_nodes c, h with
  | Some ns, S h => block_items (items h) (first_index c) ns
  | _, _ => []
  end.

Lemma elem_block it k ns q v :
  (q, v) ∈ block_items it k ns <->
  exists j c q', ns !! j = Some c /\ q = 32 * q' + (k + Z.of_nat j) + 1 /\ (q', v) ∈ it c.
Proof.
  revert k. induction ns as [|c ns IH]; intros k; simpl.
  - split; [by intros ?%not_elem_of_nil|]. by intros (j & c & q' & Hj & _).
  - rewrite elem_of_app, list_elem_of_fmap, IH. split.
    + intros [([q' v'] & E & Hin)|(j & c' & q' & Hj & -> & Hin)].
      * injection E as -> ->. exists 0%nat, c, q'. simpl. split_and!; [done|lia|done].
      * exists (S j), c', q'. split_and!; [done|lia|done].
    + intros ([|j] & c' & q' & Hj & -> & Hin); simpl in Hj.
      * left. simplify_eq. exists (q', v). split; [|done]. unfold shift. simpl. f_equal. lia.
      * right. exists j, c', q'. split_and!; [done|lia|done].
Qed.

(** The keys of the children in their block. *)
Lemma kid_index t h n ns k :
  blk t h n ns -> 0 <= k < 32 ->
  forall c, kid n k = Some c <-> exists j, ns !! j = Some c /\ k = first_index n + Z.of_nat j.
Proof.
  intros (Hns & Hkey & Hlen & _) Hk c. unfold kid, imap__get_node, first_index, IMAP_NODE_SZ.
  rewrite Hns. simpl. revert Hlen. destruct (Z.eqb_spec (nd_key n) 32) as [E|E]; simpl; intros Hlen.
  - rewrite E. change (Z.land 32 31) with 0. split.
    + intros Hc. exists (Z.to_nat k). split; [done|lia].
    + intros (j & Hj & ->). by rewrite Z.add_0_l, Nat2Z.id.
  - assert (Z.land (nd_key n) 31 = nd_key n) as ->.
    { change 31 with (Z.ones 5). rewrite Z.land_ones by lia. apply Z.mod_small. lia. }
    destruct (Z.eqb_spec (nd_key n) k) as [->|E']; simpl.
    + split; [intros Hc; exists 0%nat; split; [done|lia]|].
      intros (j & Hj & Hjk). by replace j with 0%nat in Hj by lia.
    + split; [done|]. intros (j & Hj & Hjk). apply lookup_lt_Some in Hj. lia.
Qed.

Lemma first_index_range t h n ns j : blk t h n ns -> (j < length ns)%nat -> 0 <= first_index n + Z.of_nat j < 32.
Proof.
  intros (Hns & Hkey & Hlen & _) Hj. unfold first_index. revert Hlen.
  destruct (Z.eqb_spec (nd_key n) 32) as [E|E]; intros Hlen.
  - rewrite E. change (Z.land 32 31) with 0. lia.
  - change 31 with (Z.ones 5). rewrite Z.land_ones by lia. rewrite Z.mod_small; lia.
Qed.

Lemma elem_items t h c q v : wf t h c -> (q, v) ∈ items h c <-> 0 <= q /\ look h c q = Some v.
Proof.
  revert c q. induction h as [|h IH]; intros c q Hw.
  - simpl in Hw. destruct (nd_nodes c) as [|] eqn:Hns; [done|]. simpl. rewrite Hns, app_nil_r.
    destruct (Z.eqb_spec q 0) as [->|]; destruct (nd_data c); simpl;
      rewrite ?list_elem_of_singleton, ?elem_of_nil; intuition (congruence || lia).
  - rewrite look_S. simpl. rewrite elem_of_app. 
    assert ((q, v) ∈ match nd_data c with Some v0 => [(0, v0)] | None => [] end <-> q = 0 /\ nd_data c = Some v) as ->.
    { destruct (nd_data c); rewrite ?list_elem_of_singleton, ?elem_of_nil; intuition congruence. }
    destruct (nd_nodes c) as [ns|] eqn:Hns.
    + pose proof (wf_blk _ _ _ _ Hw Hns) as Hb. rewrite elem_block. split.
      * intros [[-> Hd]|(j & c' & q' & Hj & -> & Hin)]; [done|].
        pose proof Hb as (_ & _ & _ & Hf & _).
        apply IH in Hin as [Hq' Hl]; [|by eapply Forall_lookup_1].
        pose proof (first_index_range _ _ _ _ j Hb (lookup_lt_Some _ _ _ Hj)) as Hk.
        split; [lia|]. rewrite (proj2 (Z.eqb_neq _ 0)) by lia.
        replace (32 * q' + (first_index c + Z.of_nat j) + 1 - 1)
          with (first_index c + Z.of_nat j + q' * 32) by lia.
        rewrite Z.mod_add, Z.div_add, Z.mod_small, Z.div_small by lia.
        rewrite (proj2 (kid_index _ _ _ _ _ Hb Hk c')) by eauto. done.
      * intros [Hq Hl]. destruct (Z.eqb_spec q 0) as [->|Hne]; [by left|]. right.
        pose proof (Z.mod_pos_bound (q - 1) 32 eq_refl) as Hk.
        pose proof (Z.div_mod (q - 1) 32 ltac:(lia)). pose proof (Z.div_pos (q - 1) 32 ltac:(lia) eq_refl).
        destruct (kid c ((q - 1) mod 32)) as [c'|] eqn:Hkid; [|done]. simpl in Hl.
        pose proof (kid_wf _ _ _ _ _ Hw Hkid) as Hw'.
        apply (kid_index _ _ _ _ _ Hb Hk) in Hkid as (j & Hj & Ej).
        exists j, c', ((q - 1) / 32). split; [done|]. split; [lia|]. by apply IH.
    + unfold kid. rewrite Hns. simpl. rewrite elem_of_nil.
      destruct (Z.eqb_spec q 0) as [->|]; intuition (congruence || lia).
Qed.

Lemma length_block it k ns :
  (forall c, c ∈ ns -> Z.of_nat (length (it c)) = cnt c) -> Z.of_nat (length (block_items it k ns)) = total ns.
Proof.
  revert k. induction ns as [|c ns IH]; intros k Hit; simpl; [done|].
  rewrite length_app, length_fmap, Nat2Z.inj_add, IH, Hit; [done|left|].
  intros c' Hc'. apply Hit. by right.
Qed.

Lemma length_items t h c : wf t h c -> Z.of_nat (length (items h c)) = cnt c.
Proof.
  revert c. induction h as [|h IH]; intros c Hw; simpl; rewrite length_app, Nat2Z.inj_add; unfold cnt.
  - simpl in Hw. destruct (nd_nodes c); [done|]. rewrite Hw. by destruct (nd_data c).
  - destruct (nd_nodes c) as [ns|] eqn:Hns.
    + destruct (wf_blk _ _ _ _ Hw Hns) as (_ & _ & _ & Hf & ->).
      rewrite length_block; [by destruct (nd_data c)|]. intros c' Hc'. apply IH.
      rewrite Forall_forall in Hf. by apply Hf.
    + simpl in Hw. rewrite Hns in Hw. rewrite Hw. by destruct (nd_data c).
Qed.

Lemma NoDup_block t h k ns :
  Forall (wf t h) ns -> (forall c, wf t h c -> NoDup (items h c).*1) -> 0 <= k ->
  k + Z.of_nat (length ns) <= 32 -> NoDup (block_items (items h) k ns).*1.
Proof.
  intros Hf Hnd. revert k. induction Hf as [|c ns Hc Hf IH]; intros k Hk Hlen; simpl; [by constructor|].
  simpl in Hlen. rewrite fmap_app. apply NoDup_app. split_and!.
  - rewrite <- list_fmap_compose. replace (fst ∘ shift k) with ((fun q => 32 * q + k + 1) ∘ @fst Z V) by done.
    rewrite list_fmap_compose. apply NoDup_fmap_2; [|by apply Hnd]. intros x y E. lia.
  - intros q Hq Hq'. apply list_elem_of_fmap in Hq as ([q1 v1] & -> & Hq).
    apply list_elem_of_fmap in Hq as ([q2 v2] & E2 & Hin2). injection E2 as -> ->.
    apply list_elem_of_fmap in Hq' as ([q3 v3] & E3 & Hin3). simpl in E3. subst q3.
    apply elem_block in Hin3 as (j & c' & q' & Hj & E & Hin3).
    apply (elem_items t h c _ _ Hc) in Hin2 as [? _].
    pose proof (Forall_lookup_1 _ _ _ _ Hf Hj) as Hc'.
    apply (elem_items t h c' _ _ Hc') in Hin3 as [? _]. apply lookup_lt_Some in Hj. lia.
  - apply IH; lia.
Qed.

Lemma NoDup_items t h c : wf t h c -> NoDup (items h c).*1.
Proof.
  revert c. induction h as [|h IH]; intros c Hw; simpl; rewrite fmap_app.
  - simpl in Hw. destruct (nd_nodes c); [done|]. rewrite app_nil_r. destruct (nd_data c); apply NoDup_singleton || apply NoDup_nil_2.
  - destruct (nd_nodes c) as [ns|] eqn:Hns.
    + pose proof (wf_blk _ _ _ _ Hw Hns) as Hb. pose proof Hb as (_ & _ & Hlen & Hf & _).
      assert (Hlt : (0 < length ns)%nat) by (destruct (nd_key c =? 32); lia).
      apply NoDup_app. split_and!.
      * destruct (nd_data c); apply NoDup_singleton || apply NoDup_nil_2.
      * intros q Hq Hq'. assert (q = 0) as ->.
        { destruct (nd_data c); simpl in Hq; [by apply list_elem_of_singleton in Hq|by apply not_elem_of_nil in Hq]. }
        apply list_elem_of_fmap in Hq' as ([q3 v3] & E3 & Hin3). simpl in E3. subst q3.
        apply elem_block in Hin3 as (j & c' & q' & Hj & E & Hin3).
        pose proof (Forall_lookup_1 _ _ _ _ Hf Hj) as Hc'.
        apply (elem_items t h c' _ _ Hc') in Hin3 as [? _].
        pose proof (first_index_range _ _ _ _ j Hb (lookup_lt_Some _ _ _ Hj)). lia.
      * apply (NoDup_block t); [done|by auto|..].
        -- pose proof (first_index_range _ _ _ _ 0 Hb Hlt). lia.
        -- pose proof (first_index_range _ _ _ _ (length ns - 1) Hb ltac:(lia)). lia.
    + rewrite app_nil_r. destruct (nd_data c); apply NoDup_singleton || apply NoDup_nil_2.
Qed.

End Items.

(** ** Whole maps *)

Definition IMAP_HEIGHT : nat := 13.
Definition id_ok (id : Z) : Prop := 0 <= id < 18446744073709551616.

Lemma IMAP_FUEL_S : IMAP_FUEL = S IMAP_HEIGHT.
Proof. done. Qed.

Lemma height_fuel : (IMAP_HEIGHT <= IMAP_FUEL)%nat.
Proof. unfold IMAP_HEIGHT, IMAP_FUEL. lia. Qed.

Lemma id_below id : id_ok id -> below IMAP_HEIGHT (id / 32).
Proof.
  intros [H1 H2]. split; [by apply Z.div_pos|]. apply Z.div_lt_upper_bound; [lia|].
  change (32 ^ Z.of_nat IMAP_HEIGHT) with 36893488147419103232. lia.
Qed.

#[global] Opaque IMAP_HEIGHT IMAP_FUEL.

Section Root.
Context {V : Type} `{EqDecision V}.
Notation node := (imap_node V).
Implicit Types (c : node) (m : imap V) (v : V) (id : Z).

(** [t] as in [wf]: no block is empty. *)
Definition imap_ok (t : bool) m : Prop :=
  length (im_nodes m) = 32%nat /\ Forall (wf t IMAP_HEIGHT) (im_nodes m) /\ im_n m = total (im_nodes m).

Definition root_items m : list (Z * V) :=
  (fun p => (p.1 - 1, p.2)) <$> block_items (items IMAP_HEIGHT) 0 (im_nodes m).

Definition to_map m : gmap Z V := list_to_map (root_items m).

Definition ilook m id : option V :=
  im_nodes m !! Z.to_nat (id mod 32) ≫= fun c => look IMAP_HEIGHT c (id / 32).

Lemma root_slot t m id : imap_ok t m -> exists c, im_nodes m !! Z.to_nat (id mod 32) = Some c /\
  wf t IMAP_HEIGHT c /\ 0 <= cnt c <= im_n m.
Proof.
  intros (Hlen & Hf & ->). pose proof (Z.mod_pos_bound id 32 eq_refl).
  destruct (lookup_lt_is_Some_2 (im_nodes m) (Z.to_nat (id mod 32))) as [c Hc]; [lia|].
  exists c. split; [done|]. split; [by eapply Forall_lookup_1|]. by eapply total_lookup.
Qed.

Lemma elem_root_items t m id v : imap_ok t m -> (id, v) ∈ root_items m <-> 0 <= id /\ ilook m id = Some v.
Proof.
  intros (Hlen & Hf & _). unfold root_items, ilook. rewrite list_elem_of_fmap. split.
  - intros ([q v'] & E & Hin). simpl in E. injection E as -> ->.
    apply elem_block in Hin as (j & c & q' & Hj & -> & Hin).
    pose proof (lookup_lt_Some _ _ _ Hj).
    apply (elem_items t) in Hin as [Hq Hl]; [|by eapply Forall_lookup_1].
    split; [lia|]. replace (32 * q' + (0 + Z.of_nat j) + 1 - 1) with (Z.of_nat j + q' * 32) by lia.
    rewrite Z.mod_add, Z.div_add, Z.mod_small, Z.div_small, Nat2Z.id by lia. by rewrite Hj.
  - intros [Hid Hl]. destruct (im_nodes m !! Z.to_nat (id mod 32)) as [c|] eqn:Hc; [|done]. cbn [mbind option_bind] in Hl.
    exists (id + 1, v). split; [simpl; f_equal; lia|]. apply elem_block.
    pose proof (Z.mod_pos_bound id 32 eq_refl). pose proof (Z.div_mod id 32 ltac:(lia)).
    exists (Z.to_nat (id mod 32)), c, (id / 32). split; [done|]. split; [lia|].
    apply (elem_items t); [by eapply Forall_lookup_1|]. split; [by apply Z.div_pos|done].
Qed.

Lemma NoDup_root_items t m : imap_ok t m -> NoDup (root_items m).*1.
Proof.
  intros (Hlen & Hf & _). unfold root_items. rewrite <- list_fmap_compose.
  replace (fst ∘ (fun p => (p.1 - 1, p.2))) with ((fun q => q - 1) ∘ @fst Z V) by done.
  rewrite list_fmap_compose. apply NoDup_fmap_2; [intros x y E; lia|].
  apply (NoDup_block t); [done|intros c; apply NoDup_items|lia|lia].
Qed.

Lemma to_map_lookup t m id : imap_ok t m -> to_map m !! id = if bool_decide (0 <= id) then ilook m id else None.
Proof.
  intros Hm. pose proof (NoDup_root_items t m Hm) as Hnd. apply option_eq. intros v.
  unfold to_map. rewrite <- elem_of_list_to_map by done. rewrite (elem_root_items t) by done.
  case_bool_decide; intuition congruence.
Qed.

Lemma to_map_ilook t m id : imap_ok t m -> 0 <= id -> to_map m !! id = ilook m id.
Proof. intros. by rewrite (to_map_lookup t), bool_decide_eq_true_2. Qed.

(** The counter of the map is its number of items. *)
Lemma length_root_items t m : imap_ok t m -> Z.of_nat (length (root_items m)) = im_n m.
Proof.
  intros (Hlen & Hf & ->). unfold root_items. rewrite length_fmap. apply length_block.
  intros c Hc. rewrite Forall_forall in Hf. apply (length_items t). by apply Hf.
Qed.

Lemma size_to_map t m : imap_ok t m -> Z.of_nat (size (to_map m)) = im_n m.
Proof.
  intros Hm. rewrite <- (length_root_items t m) by done. f_equal.
  rewrite <- length_map_to_list. unfold to_map. apply Permutation_length, map_to_list_to_map.
  by eapply NoDup_root_items.
Qed.

Lemma imap_ok_n t m : imap_ok t m -> 0 <= im_n m.
Proof. intros (_ & Hf & ->). by eapply total_nonneg. Qed.

Lemma imap_ok_mono m t : imap_ok t m -> imap_ok false m.
Proof.
  intros (? & Hf & ?). split; [done|]. split; [|done]. eapply Forall_impl; [done|].
  intros c. by apply wf_weaken.
Qed.

(** Replacing a root slot. *)
Lemma root_upd t t' m id c c' w b :
  imap_ok t m -> (t' = true -> t = true) -> 0 <= id -> im_nodes m !! Z.to_nat (id mod 32) = Some c ->
  upd t' IMAP_HEIGHT c (id / 32) c' w b ->
  let m' := Imap (im_n m + b) (<[Z.to_nat (id mod 32) := c']> (im_nodes m)) in
  imap_ok t' m' /\
  to_map m' = match w with
              | Some (Some v) => <[id := v]> (to_map m)
              | Some None => delete id (to_map m)
              | None => to_map m
              end.
Proof.
  intros Hm Ht Hid Hc (Hw & Hcnt & Hl) m'. pose proof Hm as (Hlen & Hf & Hn).
  assert (imap_ok t' m') as Hm'.
  { subst m'. split; [by simpl; rewrite length_insert|]. split; simpl.
    - apply Forall_insert; [|done]. eapply Forall_impl; [done|]. intros x Hx. by eapply wf_weaken.
    - rewrite (total_insert _ _ c) by done. lia. }
  split; [done|]. apply map_eq. intros i. rewrite (to_map_lookup t' m') by done.
  assert (to_map m !! i = if bool_decide (0 <= i) then ilook m i else None) as Hi by by apply (to_map_lookup t).
  case_bool_decide as Hi0.
  - assert (ilook m' i = match w with Some x => if i =? id then x else ilook m i | None => ilook m i end) as ->.
    { unfold ilook. subst m'. simpl.
      pose proof (Z.mod_pos_bound id 32 eq_refl). pose proof (Z.mod_pos_bound i 32 eq_refl).
      pose proof (Z.div_mod id 32 ltac:(lia)). pose proof (Z.div_mod i 32 ltac:(lia)).
      pose proof (Z.div_pos i 32 Hi0 eq_refl).
      destruct (decide (i mod 32 = id mod 32)) as [E|E].
      - rewrite E, list_lookup_insert_eq, Hc by (by eapply lookup_lt_Some). simpl. rewrite Hl by done.
        destruct w as [x|]; [|done]. destruct (Z.eqb_spec i id) as [->|]; [by rewrite Z.eqb_refl|].
        destruct (Z.eqb_spec (i / 32) (id / 32)); [lia|done].
      - rewrite list_lookup_insert_ne by lia. destruct w; [|done].
        destruct (Z.eqb_spec i id); [congruence|done]. }
    destruct w as [[v|]|].
    + destruct (Z.eqb_spec i id) as [->|]; [by rewrite lookup_insert_eq|]. by rewrite lookup_insert_ne.
    + destruct (Z.eqb_spec i id) as [->|]; [by rewrite lookup_delete_eq|]. by rewrite lookup_delete_ne.
    + done.
  - destruct w as [[v|]|]; [rewrite lookup_insert_ne by lia|rewrite lookup_delete_ne by lia|]; done.
Qed.

(** ** The operations *)

Lemma imap_create_spec (s : ist V) :
  match mem s with
  | O => imap_create s = Some (None, s)
  | S k => exists m, imap_create s = Some (Some m, IState k (evs s)) /\ imap_ok true m /\ to_map m = ∅
  end.
Proof.
  unfold imap_create, alloc, mbind, IM_bind, mret, IM_ret. destruct (mem s); [done|].
  eexists. split; [done|]. split; [|done].
  split; [done|]. split; [|done]. apply (Forall_replicate _ 32). apply wf_empty.
Qed.

Lemma imap_get_spec t m id : imap_ok t m -> id_ok id -> imap_get m id = Some (to_map m !! id).
Proof.
  intros Hm Hid. pose proof (proj1 Hid). rewrite (to_map_ilook t) by done. unfold imap_get, ilook.
  change IMAP_NODE_SZ with 32. destruct (root_slot t m id Hm) as (c & Hc & Hw & _).
  rewrite Hc. cbn [mbind option_bind]. rewrite IMAP_FUEL_S. by apply (imap__get_look t), id_below.
Qed.

Lemma imap_add_spec t m id v s :
  imap_ok t m -> id_ok id -> im_n m + 1 < 4294967296 ->
  exists rc m' s', imap_add m id v s = Some ((rc, m'), s') /\ evs s' = evs s /\
    match to_map m !! id with
    | Some _ => rc = IMAP_ERR_EXIST /\ imap_ok t m' /\ to_map m' = to_map m
    | None => rc = 0 /\ imap_ok t m' /\ to_map m' = <[id := v]> (to_map m) \/
              rc = IMAP_ERR_ALLOC /\ mem s' = O /\ imap_ok false m' /\ to_map m' = to_map m
    end.
Proof.
  intros Hm Hid Hn. destruct (root_slot t m id Hm) as (c & Hc & Hw & Hcn). pose proof (proj1 Hid) as Hid0.
  rewrite (to_map_ilook t) by done. unfold ilook. rewrite Hc. cbn [mbind option_bind].
  pose proof (cnt_nonneg _ _ _ Hw).
  destruct (add_slot_spec t IMAP_HEIGHT IMAP_FUEL c (id / 32) v s height_fuel Hw (id_below _ Hid) ltac:(lia))
    as (rc & c' & s' & Ha & Hev & Hadd).
  unfold imap_add. change IMAP_NODE_SZ with 32. rewrite Hc, IM_deref_Some.
  change (if id / 32 =? 0 then _ else _) with (add_slot IMAP_FUEL c (id / 32) v).
  rewrite (IM_bind_Some _ _ _ _ _ Ha). cbv beta iota. do 3 eexists. split; [done|]. split; [done|].
  destruct (look IMAP_HEIGHT c (id / 32)).
  - destruct Hadd as [-> Hu]. split; [done|]. cbn [Z.eqb IMAP_ERR_EXIST].
    apply (root_upd t t m id c c' None 0) in Hu; try done. by rewrite Z.add_0_r in Hu.
  - destruct Hadd as [[-> Hu]|(-> & Hm' & Hu)]; [left|right]; split; try done.
    + cbn [Z.eqb]. rewrite u64_small by lia. by apply (root_upd t t m id c c' (Some (Some v)) 1) in Hu.
    + split; [done|]. cbn [Z.eqb IMAP_ERR_ALLOC].
      apply (root_upd t false m id c c' None 0) in Hu; try done. by rewrite Z.add_0_r in Hu.
Qed.

Lemma imap_set_spec t m id v s :
  imap_ok t m -> id_ok id -> im_n m + 1 < 4294967296 -> to_map m !! id <> Some v ->
  exists ret m' s', imap_set m id v s = Some ((ret, m'), s') /\ evs s' = evs s /\
    match to_map m !! id with
    | Some d => ret = Some d /\ imap_ok t m' /\ to_map m' = <[id := v]> (to_map m)
    | None => ret = Some v /\ imap_ok t m' /\ to_map m' = <[id := v]> (to_map m) \/
              ret = None /\ mem s' = O /\ imap_ok false m' /\ to_map m' = to_map m
    end.
Proof.
  intros Hm Hid Hn. destruct (root_slot t m id Hm) as (c & Hc & Hw & Hcn). pose proof (proj1 Hid) as Hid0.
  rewrite (to_map_ilook t) by done. unfold ilook. rewrite Hc. cbn [mbind option_bind]. intros Hnv.
  pose proof (cnt_nonneg _ _ _ Hw).
  destruct (set_slot_spec t IMAP_HEIGHT IMAP_FUEL c (id / 32) v s height_fuel Hw (id_below _ Hid) ltac:(lia) Hnv)
    as (ret & c' & s' & Ha & Hev & Hadd).
  unfold imap_set. change IMAP_NODE_SZ with 32. rewrite Hc, IM_deref_Some.
  change (if id / 32 =? 0 then _ else _) with (set_slot IMAP_FUEL c (id / 32) v).
  rewrite (IM_bind_Some _ _ _ _ _ Ha). cbv beta iota. do 3 eexists. split; [done|]. split; [done|].
  assert (forall t' w b, (t' = true -> t = true) -> upd t' IMAP_HEIGHT c (id / 32) c' w (b2z b) -> b = bool_decide (ret = Some v) -> 
    let m' := Imap (u64 (im_n m + b2z (bool_decide (ret = Some v)))) (<[Z.to_nat (id mod 32):=c']> (im_nodes m)) in
    imap_ok t' m' /\ to_map m' = match w with Some (Some v) => <[id := v]> (to_map m)
                                 | Some None => delete id (to_map m) | None => to_map m end) as Hup.
  { intros t' w b Ht Hu <-. pose proof (imap_ok_n _ _ Hm). rewrite u64_small by (destruct b; simpl; lia).
    by apply (root_upd t t' m id c c' w). }
  destruct (look IMAP_HEIGHT c (id / 32)) as [d|].
  - destruct Hadd as [-> Hu]. split; [done|]. apply (Hup t (Some (Some v)) false) in Hu; try done.
    by rewrite bool_decide_eq_false_2.
  - destruct Hadd as [[-> Hu]|(-> & Hm' & Hu)]; [left|right]; split; try done.
    + apply (Hup t (Some (Some v)) true) in Hu; try done. by rewrite bool_decide_eq_true_2.
    + split; [done|]. apply (Hup false None false) in Hu; try done.
Qed.

Lemma imap_pop_spec t m id :
  imap_ok t m -> id_ok id -> im_n m < 4294967296 ->
  exists m', imap_pop m id = Some (to_map m !! id, m') /\ imap_ok t m' /\ to_map m' = delete id (to_map m).
Proof.
  intros Hm Hid Hn. destruct (root_slot t m id Hm) as (c & Hc & Hw & Hcn). pose proof (proj1 Hid) as Hid0.
  rewrite (to_map_ilook t) by done. unfold ilook. rewrite Hc. cbn [mbind option_bind].
  pose proof (cnt_nonneg _ _ _ Hw).
  destruct (pop_slot_spec t IMAP_HEIGHT IMAP_FUEL c (id / 32) height_fuel Hw (id_below _ Hid) ltac:(lia))
    as (c' & Ha & Hadd).
  unfold imap_pop. change IMAP_NODE_SZ with 32. rewrite Hc. cbn [mbind option_bind].
  change (if id / 32 =? 0 then _ else _) with (pop_slot IMAP_FUEL c (id / 32)). rewrite Ha. cbn [mbind option_bind].
  eexists. split; [done|]. unfold popped in Hadd. destruct (look IMAP_HEIGHT c (id / 32)) as [d|] eqn:Hl.
  - pose proof (look_pos _ _ _ _ _ Hw Hl). rewrite u64_small by lia.
    by apply (root_upd t t m id c c' (Some None) (-1)) in Hadd.
  - apply (root_upd t t m id c c' None 0) in Hadd; try done. rewrite Z.add_0_r in Hadd.
    destruct Hadd as [? ->]. split; [done|]. symmetry. apply delete_id.
    rewrite (to_map_ilook t) by done. unfold ilook. by rewrite Hc.
Qed.

End Root.
