(* ===== verification/ImapWalk.v ===== *)
(** * Walking, collecting, clearing and copying id maps

    Every loop over a whole map visits the items of [root_items], in this order
    and each exactly once. *)
From Stdlib Require Import ZArith Lia.
From stdpp Require Import base list option numbers sets gmap.
From S2P Require Import Prelude Mem Imap ImapProof ImapMap.

Section Walk.
Context {V : Type} `{EqDecision V}.
Notation node := (imap_node V).
Implicit Types (c n : node) (ns : list node) (v : V) (l : list V).

Definition vals (h : nat) c : list V := (items h c).*2.
Fixpoint block_vals (h : nat) ns : list V :=
  match ns with [] => [] | c :: ns => vals h c ++ block_vals h ns end.

Lemma block_vals_items h k ns : (block_items (items h) k ns).*2 = block_vals h ns.
Proof.
  revert k. induction ns as [|c ns IH]; intros k; simpl; [done|].
  rewrite fmap_app, IH, <- list_fmap_compose. done.
Qed.

Lemma root_items_vals (m : imap V) : (root_items m).*2 = block_vals IMAP_HEIGHT (im_nodes m).
Proof.
  unfold root_items. rewrite <- list_fmap_compose, <- (block_vals_items IMAP_HEIGHT 0). done.
Qed.

(** The data of a slot, then the items of its block. *)
Lemma vals_unfold t h c : wf t h c ->
  vals h c = option_list (nd_data c) ++
    match nd_nodes c with Some ns => match h with S h => block_vals h ns | O => [] end | None => [] end.
Proof.
  intros Hw. unfold vals. destruct h as [|h]; simpl in *; rewrite fmap_app;
    destruct (nd_data c); destruct (nd_nodes c); simpl; try done; by rewrite ?app_nil_r, ?block_vals_items.
Qed.

Lemma wf_no_block t c ns : wf t 0 c -> nd_nodes c = Some ns -> False.
Proof. simpl. intros Hw Hns. by rewrite Hns in Hw. Qed.

Lemma wf_block t h c ns : wf t (S h) c -> nd_nodes c = Some ns -> Forall (wf t h) ns.
Proof. intros Hw Hns. by destruct (wf_blk _ _ _ _ Hw Hns) as (_ & _ & _ & Hf & _). Qed.

(** ** [imap_vec] *)

Lemma vec_block t h f ns : (h < f)%nat -> Forall (wf t h) ns -> imap__vec f ns = Some (block_vals h ns).
Proof.
  revert f ns. induction h as [|h IH]; intros [|f] ns Hf Hw; try lia; cbn [imap__vec];
    induction Hw as [|c ns Hc Hw IHw]; try done; cbn [block_vals]; rewrite (vals_unfold t) by done.
  - destruct (nd_nodes c) as [ns'|] eqn:Hns; [by destruct (wf_no_block _ _ _ Hc Hns)|].
    cbn [mbind option_bind]. rewrite IHw. cbn [mbind option_bind]. by rewrite app_nil_r.
  - destruct (nd_nodes c) as [ns'|] eqn:Hns.
    + rewrite (IH f ns') by (lia || by eapply wf_block). cbn [mbind option_bind].
      rewrite IHw. cbn [mbind option_bind]. by rewrite app_assoc.
    + cbn [mbind option_bind]. rewrite IHw. cbn [mbind option_bind]. by rewrite app_nil_r.
Qed.

Lemma imap_vec_spec t m (s : ist V) :
  imap_ok t m ->
  imap_vec m s = match mem s with
                 | O => Some (None, s)
                 | S k => Some (Some (root_items m).*2, IState k (evs s))
                 end.
Proof.
  intros Hm. pose proof Hm as (Hlen & Hf & Hn). unfold imap_vec, alloc, mbind, IM_bind, mret, IM_ret.
  destruct (mem s) as [|k]; [done|]. simpl negb. cbn iota.
  pose proof (length_root_items t m Hm) as Hl. destruct (Z.eqb_spec (im_n m) 0) as [E|E].
  - destruct (root_items m); simpl in *; [done|lia].
  - unfold deref. rewrite (vec_block t IMAP_HEIGHT) by (done || rewrite IMAP_FUEL_S; lia).
    rewrite <- root_items_vals. unfold len. rewrite length_fmap, Hl, Z.ltb_irrefl. done.
Qed.

(** ** [imap_walk] *)

Lemma walk_block {A} t h f (cb : V -> A -> Z * A) ns arg :
  (h < f)%nat -> Forall (wf t h) ns -> imap__walk f cb ns arg = Some (walk_list cb (block_vals h ns) arg).
Proof.
  revert f ns arg. induction h as [|h IH]; intros [|f] ns arg Hf Hw; try lia; cbn [imap__walk];
    revert arg; induction Hw as [|c ns Hc Hw IHw]; intros arg; try done; cbn [block_vals];
    rewrite (vals_unfold t), <- app_assoc, !walk_list_app by done.
  - destruct (nd_nodes c) as [ns'|] eqn:Hns; [by destruct (wf_no_block _ _ _ Hc Hns)|].
    destruct (nd_data c) as [d|]; simpl; [|apply IHw].
    destruct (cb d arg) as [rc a]. destruct (Z.eqb_spec rc 0) as [->|E]; simpl; [apply IHw|].
    by rewrite (proj2 (Z.eqb_neq _ _) E).
  - assert (forall a, match nd_nodes c with Some ns' => imap__walk f cb ns' a | None => Some (0, a) end =
      Some (walk_list cb (match nd_nodes c with Some ns => block_vals h ns | None => [] end) a)) as Hb.
    { intros a. destruct (nd_nodes c) as [ns'|] eqn:Hns; [|done]. apply IH; [lia|by eapply wf_block]. }
    destruct (nd_data c) as [d|]; simpl option_list; cbn [walk_list].
    + destruct (cb d arg) as [rc a]. destruct (Z.eqb_spec rc 0) as [->|E]; cbn [negb Z.eqb].
      2: by rewrite (proj2 (Z.eqb_neq _ _) E).
      rewrite Hb, walk_list_app. cbn [mbind option_bind]. destruct (walk_list cb _ a) as [rc a'].
      destruct (negb (rc =? 0)); [done|apply IHw].
    + cbn [Z.eqb negb]. rewrite Hb, walk_list_app. cbn [mbind option_bind]. destruct (walk_list cb _ arg) as [rc a'].
      destruct (negb (rc =? 0)); [done|apply IHw].
Qed.

Lemma imap_walk_spec {A} t m (cb : V -> A -> Z * A) arg :
  imap_ok t m -> imap_walk m cb arg = Some (walk_list cb (root_items m).*2 arg).
Proof.
  intros Hm. pose proof Hm as (Hlen & Hf & Hn). unfold imap_walk.
  pose proof (length_root_items t m Hm) as Hl. destruct (Z.eqb_spec (im_n m) 0) as [E|E].
  - destruct (root_items m); simpl in *; [done|lia].
  - rewrite (walk_block t IMAP_HEIGHT) by (done || rewrite IMAP_FUEL_S; lia).
    by rewrite <- root_items_vals.
Qed.

(** ** [imap_walk_cp] *)

Lemma walk_cp_loop_stopped {A} (cb : V -> A -> Z * A) l rc (arg : A) s :
  rc <> 0 -> walk_cp_loop cb l rc arg s = Some ((rc, arg), IState (mem s) (rev (Callback <$> l) ++ evs s)).
Proof.
  intros E. revert s. induction l as [|v l IH]; intros [k es]; simpl; [done|].
  rewrite (proj2 (Z.eqb_neq _ _) E). unfold mbind, IM_bind, emit. simpl. rewrite IH. simpl.
  by rewrite <- app_assoc.
Qed.

Lemma walk_cp_loop_spec {A} (cb : V -> A -> Z * A) l (arg : A) s :
  walk_cp_loop cb l 0 arg s = Some (walk_list cb l arg, IState (mem s) (rev (Callback <$> l) ++ evs s)).
Proof.
  revert arg s. induction l as [|v l IH]; intros arg [k es]; simpl; [done|].
  destruct (cb v arg) as [rc a]. unfold mbind, IM_bind, emit. simpl.
  destruct (Z.eqb_spec rc 0) as [->|E]; simpl.
  - rewrite IH. simpl. by rewrite <- app_assoc.
  - rewrite walk_cp_loop_stopped by done. simpl. by rewrite <- app_assoc.
Qed.

(** The copy holds a reference of every item, all of which are released at the
    end, also when the callback stops the walk. *)
Lemma imap_walk_cp_spec {A} t m (cb : V -> A -> Z * A) (arg : A) s :
  imap_ok t m ->
  imap_walk_cp m cb arg s =
  match mem s with
  | O => Some ((-1, arg), s)
  | S k => let l := (root_items m).*2 in
           Some (walk_list cb l arg, IState k (rev (Callback <$> l) ++ rev (Incref <$> l) ++ evs s))
  end.
Proof.
  intros Hm. unfold imap_walk_cp, imap_vec_ref.
  pose proof (imap_vec_spec t m s Hm) as Hv. destruct (mem s) as [|k].
  - by rewrite (IM_bind_Some _ _ s None s) by (by rewrite (IM_bind_Some _ _ _ _ _ Hv)).
  - erewrite (IM_bind_Some _ _ s (Some (root_items m).*2)).
    2: { rewrite (IM_bind_Some _ _ _ _ _ Hv). unfold emit_all, mbind, IM_bind. done. }
    simpl. by rewrite walk_cp_loop_spec.
Qed.

(** ** Clearing *)

Lemma bind_ext {A B} (m1 m2 : IM V A) (k1 k2 : A -> IM V B) s :
  m1 s = m2 s -> (forall a s', k1 a s' = k2 a s') -> (m1 ≫= k1) s = (m2 ≫= k2) s.
Proof. intros E Hk. unfold mbind, IM_bind. rewrite E. destruct (m2 s) as [[a s']|]; [apply Hk|done]. Qed.

Lemma run_data (cb : V -> IM V unit) c s :
  (match nd_data c with Some d => cb d | None => mret tt end) s = run_all cb (option_list (nd_data c)) s.
Proof.
  destruct (nd_data c) as [d|]; simpl; [|done]. unfold mbind, IM_bind, mret, IM_ret.
  by destruct (cb d s) as [[[] s']|].
Qed.

Lemma destroy_node t h f (cb : V -> IM V unit) n ns s :
  (h < f)%nat -> wf t (S h) n -> nd_nodes n = Some ns ->
  imap__node_destroy_cb f cb n s = run_all cb (block_vals h ns) s.
Proof.
  revert f n ns s. induction h as [|h IH]; intros [|f] n ns s Hf Hw Hns; try lia;
    cbn [imap__node_destroy_cb]; rewrite Hns, IM_deref_Some;
    destruct (wf_blk _ _ _ _ Hw Hns) as (_ & _ & Hlen & Hfw & _);
    (replace (is_nil ns) with false by (by destruct ns, (nd_key n =? 32)));
    clear Hlen Hns Hw; revert s; induction Hfw as [|c ns Hc Hfw IHf]; intros s; try done;
    cbn [block_vals]; rewrite (vals_unfold t), <- app_assoc, !run_all_app by done;
    apply bind_ext; try (apply run_data); intros _u s'.
  - destruct (nd_nodes c) as [ns'|] eqn:Hns; [by destruct (wf_no_block _ _ _ Hc Hns)|]. apply IHf.
  - rewrite run_all_app. apply bind_ext; [|intros; apply IHf].
    destruct (nd_nodes c) as [ns'|] eqn:Hns; [|done]. apply IH; [lia|done|done].
Qed.

Lemma destroy_root_spec t (cb : V -> IM V unit) ns s :
  Forall (wf t IMAP_HEIGHT) ns -> destroy_root (Some cb) ns s = run_all cb (block_vals IMAP_HEIGHT ns) s.
Proof.
  intros Hf. revert s. induction Hf as [|c ns Hc Hf IH]; intros s; [done|].
  cbn [destroy_root block_vals]. rewrite (vals_unfold t), <- app_assoc, !run_all_app by done.
  apply bind_ext; [apply run_data|]. intros _u s'. rewrite run_all_app.
  apply bind_ext; [|intros; apply IH]. destruct (nd_nodes c) as [ns'|] eqn:Hns; [|done].
  pose proof IMAP_FUEL_S. destruct IMAP_HEIGHT as [|h]; [by destruct (wf_no_block _ _ _ Hc Hns)|].
  apply (destroy_node t); [lia|done|done].
Qed.

(** Clearing a map calls the callback once for each item, in walking order. *)
Lemma imap_clear_spec t m (cb : V -> IM V unit) s :
  imap_ok t m ->
  imap_clear (Some cb) m s = match run_all cb (root_items m).*2 s with
                             | Some (_, s') => Some (if im_n m =? 0 then m else Imap 0 (replicate 32 imap__empty_node), s')
                             | None => None
                             end.
Proof.
  intros Hm. pose proof Hm as (Hlen & Hf & Hn). unfold imap_clear.
  pose proof (length_root_items t m Hm) as Hl. destruct (Z.eqb_spec (im_n m) 0) as [E|E].
  - destruct (root_items m); simpl in *; [done|lia].
  - unfold mbind, IM_bind. rewrite (destroy_root_spec t), <- root_items_vals by done.
    by destruct (run_all cb _ s) as [[[] s']|].
Qed.

(** ** [imap_one] *)

Lemma vals_length t h c : wf t h c -> Z.of_nat (length (vals h c)) = cnt c.
Proof. intros Hw. unfold vals. rewrite length_fmap. by apply (length_items t). Qed.

Lemma block_vals_length t h ns : Forall (wf t h) ns -> Z.of_nat (length (block_vals h ns)) = total ns.
Proof.
  induction 1 as [|c ns Hc Hf IH]; simpl; [done|]. rewrite length_app, Nat2Z.inj_add, IH.
  by rewrite (vals_length t).
Qed.

Lemma head_app_ne {A} (l1 l2 : list A) : l1 <> [] -> head (l1 ++ l2) = head l1.
Proof. by destruct l1. Qed.

(** Without empty blocks, the first item in walking order. *)
Lemma one_block h f ns : (h < f)%nat -> Forall (wf true h) ns -> imap__one f ns = head (block_vals h ns).
Proof.
  revert f ns. induction h as [|h IH]; intros [|f] ns Hf Hw; try lia; cbn [imap__one];
    induction Hw as [|c ns Hc Hw IHw]; try done; cbn [block_vals]; rewrite (vals_unfold true) by done;
    (destruct (nd_data c) as [d|]; [done|]); simpl option_list; rewrite app_nil_l;
    destruct (nd_nodes c) as [ns'|] eqn:Hns; try done.
  - by destruct (wf_no_block _ _ _ Hc Hns).
  - pose proof (wf_block _ _ _ _ Hc Hns) as Hf'. rewrite (IH f) by (lia || done).
    rewrite head_app_ne; [done|]. intros E. pose proof (block_vals_length _ _ _ Hf') as Hl.
    rewrite E in Hl. simpl in Hc. rewrite Hns in Hc. destruct Hc as (_ & _ & _ & Hs & Hp).
    specialize (Hp eq_refl). simpl in Hl. lia.
Qed.

Lemma imap_one_spec (m : imap V) : imap_ok true m -> imap_one m = head (root_items m).*2.
Proof.
  intros Hm. pose proof Hm as (Hlen & Hf & Hn). unfold imap_one.
  pose proof (length_root_items true m Hm) as Hl. destruct (Z.eqb_spec (im_n m) 0) as [E|E].
  - destruct (root_items m); simpl in *; [done|lia].
  - rewrite (one_block IMAP_HEIGHT) by (done || rewrite IMAP_FUEL_S; lia). by rewrite root_items_vals.
Qed.

(** ** [imap_dup] *)

(** The number of blocks below a slot. *)
Fixpoint blocks (h : nat) c : nat :=
  match nd_nodes c, h with
  | Some ns, S h => S (sum_list (blocks h <$> ns))
  | _, _ => 0
  end.

(** The state after [k] allocations and a new reference of every item of [l]. *)
Definition took (k : nat) (incref : bool) l (s : ist V) : ist V :=
  IState (mem s - k) ((if incref then rev (Incref <$> l) else []) ++ evs s).

Lemma took_took k1 k2 b l1 l2 s : took k2 b l2 (took k1 b l1 s) = took (k1 + k2) b (l1 ++ l2) s.
Proof.
  unfold took. simpl. f_equal; [lia|]. destruct b; [|done].
  by rewrite fmap_app, rev_app_distr, app_assoc.
Qed.

Lemma took_0 b s : took 0 b [] s = s.
Proof. unfold took. destruct s, b; simpl; f_equal; lia. Qed.

Lemma take_ref b c s :
  (match nd_data c with Some v => if b : bool then emit (Incref v) else mret tt | None => mret tt end) s =
  Some (tt, took 0 b (option_list (nd_data c)) s).
Proof.
  unfold took, emit, mret, IM_ret. destruct s as [k es], (nd_data c), b; simpl; do 3 f_equal; lia.
Qed.

(** The loop of the copy, when the copies of the blocks succeed. *)
Lemma dup_loop_spec t h (rec : node -> IM V (option node)) f b ns don s :
  Forall (wf t h) ns ->
  (forall c ns' s, c ∈ ns -> nd_nodes c = Some ns' -> (blocks h c <= mem s)%nat ->
     rec c s = Some (Some c, took (blocks h c) b (match h with S h => block_vals h ns' | O => [] end) s)) ->
  (sum_list (blocks h <$> ns) <= mem s)%nat ->
  dup_loop rec f b don ns s =
  Some (Some (rev don ++ ns), took (sum_list (blocks h <$> ns)) b (block_vals h ns) s).
Proof.
  intros Hf. revert don s. induction Hf as [|c ns Hc Hf IH]; intros don s Hrec Hmem.
  - simpl. by rewrite app_nil_r, took_0.
  - cbn [dup_loop block_vals].
    change (sum_list (blocks h <$> c :: ns)) with (blocks h c + sum_list (blocks h <$> ns))%nat in *.
    rewrite (IM_bind_Some _ _ _ _ _ (take_ref b c s)).
    set (s1 := took 0 b (option_list (nd_data c)) s).
    assert ((match nd_nodes c with Some _ => rec c | None => mret (Some c) end) s1 =
      Some (Some c, took (blocks h c) b (vals h c) s)) as E.
    { rewrite (vals_unfold t) by done. change (blocks h c) with (0 + blocks h c)%nat at 1.
      rewrite <- took_took. fold s1.
      destruct (nd_nodes c) as [ns'|] eqn:Hns.
      - apply Hrec; [left|done|]. subst s1. simpl. lia.
      - replace (blocks h c) with 0%nat by (destruct h; simpl; by rewrite Hns). by rewrite took_0. }
    rewrite (IM_bind_Some _ _ _ _ _ E), IH.
    + rewrite took_took. simpl. by rewrite <- app_assoc.
    + intros c' ns' s' Hin. apply Hrec. by right.
    + simpl. lia.
Qed.

Lemma alloc_took b s : (1 <= mem s)%nat -> alloc s = Some (true, took 1 b [] s).
Proof. unfold alloc, took. destruct s as [[|k] es], b; simpl; intros; (lia || (do 3 f_equal; lia)). Qed.

Lemma dup_node_step t h f b n ns s :
  wf t (S h) n -> nd_nodes n = Some ns -> (blocks (S h) n <= mem s)%nat ->
  (forall c ns' s, c ∈ ns -> nd_nodes c = Some ns' -> (blocks h c <= mem s)%nat ->
     imap__node_dup_cb f b c s =
     Some (Some c, took (blocks h c) b (match h with S h => block_vals h ns' | O => [] end) s)) ->
  imap__node_dup_cb (S f) b n s = Some (Some n, took (blocks (S h) n) b (block_vals h ns) s).
Proof.
  intros Hw Hns Hmem Hrec. pose proof (wf_block _ _ _ _ Hw Hns) as Hfw.
  assert (blocks (S h) n = S (sum_list (blocks h <$> ns))) as Eb by (simpl; by rewrite Hns).
  rewrite Eb in *. cbn [imap__node_dup_cb]. rewrite Hns, IM_deref_Some.
  rewrite (IM_bind_Some _ _ _ _ _ (alloc_took b s ltac:(lia))). cbn [negb]. cbv iota beta.
  rewrite (IM_bind_Some _ _ _ _ _ (dup_loop_spec t h _ f b ns [] (took 1 b [] s) Hfw Hrec ltac:(simpl; lia))).
  rewrite took_took. unfold mret, IM_ret. cbn [rev app fmap option_fmap option_map].
  by replace (set_nodes (Some ns) n) with n by (by destruct n; simpl in *; subst).
Qed.

Lemma dup_node t h f b n ns s :
  (h < f)%nat -> wf t (S h) n -> nd_nodes n = Some ns -> (blocks (S h) n <= mem s)%nat ->
  imap__node_dup_cb f b n s = Some (Some n, took (blocks (S h) n) b (block_vals h ns) s).
Proof.
  revert f n ns s. induction h as [|h IH]; intros [|f] n ns s Hf Hw Hns Hmem; try lia;
    pose proof (wf_block _ _ _ _ Hw Hns) as Hfw; rewrite Forall_forall in Hfw;
    apply (dup_node_step t); try done.
  - intros c ns' s' Hc Hn'. by destruct (wf_no_block t c ns'); [apply Hfw|].
  - intros c ns' s' Hc Hn' Hm'. apply IH; [lia|by apply Hfw|done|done].
Qed.

(** With enough memory the copy is equal to the map, block by block, and every
    item has one more reference. *)
Lemma imap_dup_spec t (m : imap V) b s :
  imap_ok t m -> (S (sum_list (blocks IMAP_HEIGHT <$> im_nodes m)) <= mem s)%nat ->
  imap_dup m b s =
  Some (Some m, took (S (sum_list (blocks IMAP_HEIGHT <$> im_nodes m))) b (root_items m).*2 s).
Proof.
  intros (Hlen & Hf & Hn) Hmem. unfold imap_dup.
  rewrite (IM_bind_Some _ _ _ _ _ (alloc_took b s ltac:(lia))). cbn [negb]. cbv iota beta.
  erewrite IM_bind_Some.
  2: { apply (dup_loop_spec t IMAP_HEIGHT); [done| |simpl; lia].
       intros c ns' s' Hc Hns Hmem'. pose proof IMAP_FUEL_S. rewrite Forall_forall in Hf.
       specialize (Hf _ Hc). destruct IMAP_HEIGHT as [|h]; [by destruct (wf_no_block _ _ _ Hf Hns)|].
       apply (dup_node t); try done. lia. }
  rewrite took_took. simpl. rewrite root_items_vals. by destruct m.
Qed.

(** ** [imap_unused_id] *)

Lemma first_free_spec i ns :
  match first_free i ns with
  | Some r => exists j c, ns !! j = Some c /\ nd_data c = None /\ r = i + Z.of_nat j
  | None => True
  end.
Proof.
  revert i. induction ns as [|c ns IH]; intros i; simpl; [done|].
  destruct (nd_data c) eqn:Hd.
  - specialize (IH (i + 1)). destruct (first_free (i + 1) ns); [|done].
    destruct IH as (j & c' & Hj & Hc' & ->). exists (S j), c'. split_and!; [done|done|lia].
  - exists 0%nat, c. split_and!; [done|done|lia].
Qed.

(** What the code knows of an answer [r] of [imap__unused_id] for the limit [max]. *)
Definition free_below (h : nat) c (max r : Z) : Prop := 0 <= r /\ (r < max -> look h c (r + 1) = None).

Lemma look_none_nodes h c q : nd_nodes c = None -> q <> 0 -> look h c q = None.
Proof.
  intros Hn Hq. destruct h; simpl; rewrite (proj2 (Z.eqb_neq _ _) Hq), Hn; done.
Qed.

(** An id of a full block. *)
Lemma look_full t h n ns j c r :
  blk t h n ns -> nd_key n = 32 -> ns !! j = Some c -> 0 <= r ->
  look (S h) n (32 * r + Z.of_nat j + 1) = look h c r.
Proof.
  intros Hb Hk Hj Hr. pose proof Hb as (_ & _ & Hlen & _). rewrite Hk in Hlen. simpl in Hlen.
  pose proof (lookup_lt_Some _ _ _ Hj).
  apply (look_child t h n ns _ j); try done; [lia|]. unfold imap__get_node, IMAP_NODE_SZ. rewrite Hk. simpl.
  f_equal. lia.
Qed.

Lemma unused_loop_spec t h n ns (rec : node -> Z -> option Z) max k j low :
  blk t h n ns -> nd_key n = 32 -> 0 <= max <= 18446744073709551584 ->
  (forall c ns', c ∈ ns -> nd_nodes c = Some ns' ->
     exists r, rec c (max / 32) = Some r /\ free_below h c (max / 32) r) ->
  (j + k <= 32)%nat -> 32 + Z.of_nat (j + k) <= max \/ k = 0%nat -> free_below (S h) n max low ->
  exists r, unused_loop rec (max / 32) k (32 + Z.of_nat j) (drop j ns) low = Some r /\
    free_below (S h) n max r.
Proof.
  intros Hb Hk Hmax Hrec. pose proof Hb as (_ & _ & Hlen & Hf & _). rewrite Hk in Hlen. simpl in Hlen.
  pose proof (Z.div_mod max 32 ltac:(lia)). pose proof (Z.mod_pos_bound max 32 eq_refl).
  revert j low. induction k as [|k IH]; intros j low Hjk Hle Hlow; cbn [unused_loop]; [by exists low|].
  destruct (lookup_lt_is_Some_2 ns j) as [c Hc]; [lia|]. rewrite (drop_S _ _ _ Hc).
  assert (forall r, 0 <= r -> look h c (r + 1) = None -> free_below (S h) n max (32 * r + (32 + Z.of_nat j))) as Hfree.
  { intros r Hr Hl. split; [lia|]. intros _. rewrite <- Hl, <- (look_full t h n ns j c (r + 1)) by (done || lia).
    f_equal. lia. }
  assert (forall low, free_below (S h) n max low -> exists r,
    unused_loop rec (max / 32) k (32 + Z.of_nat j + 1) (drop (S j) ns) low = Some r /\
    free_below (S h) n max r) as IHj.
  { intros low' Hlow'. replace (32 + Z.of_nat j + 1) with (32 + Z.of_nat (S j)) by lia. apply IH; [lia|lia|done]. }
  destruct (nd_nodes c) as [ns'|] eqn:Hns.
  - destruct (Hrec c ns' (list_elem_of_lookup_2 _ _ _ Hc) Hns) as (r & -> & Hr0 & Hr). cbn [mbind option_bind].
    destruct (Z.ltb_spec r (max / 32)) as [Hlt|]; [|by apply IHj].
    specialize (Hfree r Hr0 (Hr Hlt)). unfold IMAP_NODE_SZ. destruct (Z.eqb_spec r 0) as [->|Hne].
    + eexists. split; [done|]. by rewrite Z.mul_0_r in Hfree.
    + rewrite u64_small by lia. replace (r * 32 + (32 + Z.of_nat j)) with (32 * r + (32 + Z.of_nat j)) by lia.
      apply IHj. by destruct (_ <? low).
  - eexists. split; [done|]. specialize (Hfree 0 ltac:(lia)). rewrite Z.mul_0_r in Hfree. apply Hfree.
    by apply look_none_nodes.
Qed.

Lemma free_single t h n ns max k :
  blk t h n ns -> nd_key n <> 32 -> 0 <= k < 32 -> nd_key n <> k -> free_below (S h) n max k.
Proof.
  intros (Hns & _) E Hk Hnk. split; [lia|]. intros _. rewrite look_S, Z.add_simpl_r, Z.mod_small by lia.
  rewrite (proj2 (Z.eqb_neq (k + 1) 0)) by lia. unfold kid, imap__get_node, IMAP_NODE_SZ. rewrite Hns. simpl.
  by rewrite (proj2 (Z.eqb_neq _ _) E), (proj2 (Z.eqb_neq _ _) Hnk).
Qed.

Lemma unused_node t h f n ns max :
  (h < f)%nat -> wf t (S h) n -> nd_nodes n = Some ns -> 0 <= max <= 18446744073709551584 ->
  exists r, imap__unused_id f n max = Some r /\ free_below (S h) n max r.
Proof.
  revert f n ns max. induction h as [|h IH]; intros [|f] n ns max Hf Hw Hns Hmax; try lia;
    pose proof (wf_blk _ _ _ _ Hw Hns) as Hb; pose proof Hb as (_ & Hkey & Hlen & Hfw & _);
    cbn [imap__unused_id]; unfold IMAP_NODE_SZ; destruct (Z.eqb_spec (nd_key n) 32) as [E|E]; cbn [negb].
  all: try (eexists; split; [done|]; rewrite Z.mod_small by lia;
    destruct (Z.eqb_spec (nd_key n) 0) as [E0|E0]; apply (free_single t _ _ ns); (done || lia)).
  all: rewrite Hns; cbn [mbind option_bind]; pose proof (first_free_spec 0 ns) as Hff.
  all: destruct (first_free 0 ns) as [i|];
    [destruct Hff as (j & c & Hj & Hd & ->); eexists; split; [done|]; split; [lia|]; intros _;
     pose proof (look_full t _ n ns j c 0 Hb E Hj ltac:(lia)) as Hl; rewrite look_0, Hd in Hl; exact Hl|].
  all: destruct (unused_loop_spec t _ n ns (imap__unused_id f) max
      (Z.to_nat ((if 64 <? max then 64 else max) - 32)) 0 max Hb E Hmax) as (r & Hr & Hfree);
    [|destruct (Z.ltb_spec 64 max); lia|destruct (Z.ltb_spec 64 max); lia|split; lia|by exists r].
  all: intros c ns' Hc Hn'; rewrite Forall_forall in Hfw; specialize (Hfw c Hc).
  - by destruct (wf_no_block _ _ _ Hfw Hn').
  - apply (IH f c ns'); [lia|done|done|].
    pose proof (Z.div_mod max 32 ltac:(lia)). pose proof (Z.mod_pos_bound max 32 eq_refl). lia.
Qed.

Lemma ilook_slot (m : imap V) j c r :
  length (im_nodes m) = 32%nat -> im_nodes m !! j = Some c -> 0 <= r ->
  ilook m (32 * r + Z.of_nat j) = look IMAP_HEIGHT c r.
Proof.
  intros Hlen Hj Hr. pose proof (lookup_lt_Some _ _ _ Hj). unfold ilook.
  replace (32 * r + Z.of_nat j) with (Z.of_nat j + r * 32) by lia.
  rewrite Z.mod_add, Z.div_add, Z.mod_small, Z.div_small, Nat2Z.id by lia. by rewrite Hj.
Qed.

Definition free_id (m : imap V) (max r : Z) : Prop := 0 <= r <= max /\ (r < max -> ilook m r = None).

Lemma unused_root_spec t (m : imap V) max k j :
  imap_ok t m -> 0 <= max <= 18446744073709551584 ->
  (j + k <= 32)%nat -> 32 + Z.of_nat (j + k) <= max \/ k = 0%nat ->
  exists r, unused_root max (max / 32) k (32 + Z.of_nat j) (drop j (im_nodes m)) = Some r /\ free_id m max r.
Proof.
  intros Hm Hmax. pose proof Hm as (Hlen & Hf & _).
  pose proof (Z.div_mod max 32 ltac:(lia)). pose proof (Z.mod_pos_bound max 32 eq_refl).
  revert j. induction k as [|k IH]; intros j Hjk Hle; cbn [unused_root].
  { eexists. split; [done|]. split; lia. }
  destruct (lookup_lt_is_Some_2 (im_nodes m) j) as [c Hc]; [lia|]. rewrite (drop_S _ _ _ Hc).
  pose proof (Forall_lookup_1 _ _ _ _ Hf Hc) as Hw.
  assert (forall r, 0 <= r -> look IMAP_HEIGHT c (r + 1) = None -> ilook m (32 * r + (32 + Z.of_nat j)) = None) as Hfree.
  { intros r Hr Hl. rewrite <- Hl, <- (ilook_slot m j c (r + 1)) by (done || lia). f_equal. lia. }
  destruct (nd_nodes c) as [ns'|] eqn:Hns.
  - assert (exists r, imap__unused_id IMAP_FUEL c (max / 32) = Some r /\ free_below IMAP_HEIGHT c (max / 32) r)
      as (r & -> & Hr0 & Hr).
    { pose proof IMAP_FUEL_S. destruct IMAP_HEIGHT as [|h]; [by destruct (wf_no_block _ _ _ Hw Hns)|].
      apply (unused_node t h _ c ns'); [lia|done|done|lia]. }
    cbn [mbind option_bind]. unfold IMAP_NODE_SZ.
    destruct (Z.ltb_spec r (max / 32)) as [Hlt|]; cbn [andb].
    + rewrite u64_small by lia. destruct (Z.ltb_spec (r * 32 + (32 + Z.of_nat j)) max).
      * eexists. split; [done|]. split; [lia|]. intros _.
        replace (r * 32 + (32 + Z.of_nat j)) with (32 * r + (32 + Z.of_nat j)) by lia.
        apply Hfree; [done|]. by apply Hr.
      * replace (32 + Z.of_nat j + 1) with (32 + Z.of_nat (S j)) by lia. apply IH; lia.
    + replace (32 + Z.of_nat j + 1) with (32 + Z.of_nat (S j)) by lia. apply IH; lia.
  - eexists. split; [done|]. split; [lia|]. intros _. specialize (Hfree 0 ltac:(lia)).
    rewrite Z.mul_0_r in Hfree. apply Hfree. by apply look_none_nodes.
Qed.

Lemma imap_unused_id_spec t (m : imap V) max :
  imap_ok t m -> 0 <= max <= 18446744073709551584 ->
  exists r, imap_unused_id m max = Some r /\ 0 <= r <= max /\ (r < max -> to_map m !! r = None).
Proof.
  intros Hm Hmax. pose proof Hm as (Hlen & Hf & _).
  assert (forall r, free_id m max r -> 0 <= r <= max /\ (r < max -> to_map m !! r = None)) as Hfree.
  { intros r [Hr Hl]. split; [done|]. intros. rewrite (to_map_ilook t) by (done || lia). auto. }
  unfold imap_unused_id. destruct (Z.eqb_spec (im_n m) 0) as [E|E].
  - eexists. split; [done|]. split; [lia|]. intros _.
    pose proof (length_root_items t m Hm) as Hl. unfold to_map.
    destruct (root_items m); [done|simpl in Hl; lia].
  - pose proof (first_free_spec 0 (im_nodes m)) as Hff. destruct (first_free 0 (im_nodes m)) as [i|].
    + destruct Hff as (j & c & Hj & Hd & ->). eexists. split; [done|]. apply Hfree.
      destruct (Z.ltb_spec max (0 + Z.of_nat j)); [split; lia|]. split; [lia|]. intros _.
      pose proof (ilook_slot m j c 0 Hlen Hj ltac:(lia)) as Hl. by rewrite look_0, Hd in Hl.
    + destruct (unused_root_spec t m max (Z.to_nat ((if 64 <? max then 64 else max) - 32)) 0 Hm Hmax)
        as (r & Hr & Hfr).
      1,2: destruct (Z.ltb_spec 64 max); lia.
      exists r. split; [done|]. by apply Hfree.
Qed.

End Walk.
