(* ===== verification/ImapSets.v ===== *)
(** * Set operations on id maps

    [imap_union_move], [imap_difference_inplace], [imap_intersection_inplace] and
    [imap_symmdiff_move] compute the pointwise combination of two maps, keep the
    sizes exact and account for every reference: a pointer that leaves the
    destination, or is not taken over from the other map, is released exactly
    once. *)
From Stdlib Require Import ZArith Lia.
From stdpp Require Import base list option numbers sets gmap.
From S2P Require Import Prelude Mem Imap ImapProof ImapMap ImapWalk.

Section Merge.
Context {V : Type} `{EqDecision V}.
Notation node := (imap_node V).
Implicit Types (c d e n : node) (ns es : list node) (v : V).

(** ** Weights

    The sum of a weight over the items of a tree, and over the events: a
    released pointer counts, a new reference counts negatively. *)
Definition ow (w : V -> Z) (o : option V) : Z := match o with Some v => w v | None => 0 end.

Fixpoint bw (wc : node -> Z) ns : Z := match ns with [] => 0 | c :: ns => wc c + bw wc ns end.

Fixpoint wt (w : V -> Z) (h : nat) c : Z :=
  ow w (nd_data c) + match nd_nodes c, h with Some ns, S h => bw (wt w h) ns | _, _ => 0 end.

Fixpoint evw (w : V -> Z) (l : list (ref_event V)) : Z :=
  match l with
  | [] => 0
  | Incref v :: l => evw w l - w v
  | Decref v :: l | Callback v :: l => evw w l + w v
  end.

Lemma evw_app w l1 l2 : evw w (l1 ++ l2) = evw w l1 + evw w l2.
Proof. induction l1 as [|[v|v|v] l1 IH]; simpl; try rewrite IH; lia. Qed.

(** A slot without its own data. *)
Definition bare c : node := set_data None c.

Lemma wt_bare w h c : wt w h c = ow w (nd_data c) + wt w h (bare c).
Proof. destruct h; simpl; destruct (nd_nodes c); lia. Qed.

Lemma look_bare h c q : look h (bare c) q = if q =? 0 then None else look h c q.
Proof. destruct h; simpl; by destruct (q =? 0). Qed.

Lemma cnt_bare c : cnt (bare c) = nd_sz c.
Proof. unfold cnt. simpl. lia. Qed.

Lemma wt_empty w h : wt w h (@imap__empty_node V) = 0.
Proof. by destruct h. Qed.

(** ** Merged slots

    [d'] is the combination of [d] and [e] by [f]; the run from [s] to [s'] has
    accounted for the items of [d] and, when [take], for those of [e]. *)
Definition merged (t : bool) (h : nat) (f : option V -> option V -> option V) (take : bool)
    d e d' (s s' : ist V) : Prop :=
  wf t h d' /\ cnt d' <= cnt d + cnt e /\
  (forall q, 0 <= q -> look h d' q = f (look h d q) (look h e q)) /\
  (forall w, wt w h d' + evw w (evs s') = wt w h d + (if take then wt w h e else 0) + evw w (evs s)).

(** The same for blocks of slots. *)
Definition merged_all (t : bool) (h : nat) (f : option V -> option V -> option V) (take : bool)
    ns es ns' (s s' : ist V) : Prop :=
  Forall3 (fun d e d' => wf t h d' /\ forall q, 0 <= q -> look h d' q = f (look h d q) (look h e q)) ns es ns' /\
  total ns' <= total ns + total es /\
  (forall w, bw (wt w h) ns' + evw w (evs s') =
     bw (wt w h) ns + (if take then bw (wt w h) es else 0) + evw w (evs s)).

Definition modular (u : Z -> Z) : Prop := forall a b, u (u a + b) = u (a + b).

Lemma u32_modular : modular u32.
Proof. intros a b. unfold u32. by rewrite Zplus_mod_idemp_l. Qed.

Lemma u64_modular : modular u64.
Proof. intros a b. unfold u64. by rewrite Zplus_mod_idemp_l. Qed.

(** A step on a slot: it merges [e] into [d] and adds the difference in the
    number of items to the size of the parent. *)
Definition slot_step (u : Z -> Z) t h f take (N : nat) d e (g : Z -> IM V (node * Z)) : Prop :=
  forall s sz, runs N (g sz) s (fun r s' =>
    merged t h f take d e r.1 s s' /\ u (r.2) = u (sz + (cnt r.1 - cnt d)) /\ (r.2 = sz \/ exists x, r.2 = u x)).

Lemma each_slot_spec u t h f take (need : node -> nat) (g : Z -> node -> Z -> IM V (node * Z)) i ns es :
  modular u ->
  Forall2 (fun d e => True) ns es ->
  (forall j d e, ns !! j = Some d -> es !! j = Some e ->
     slot_step u t h f take (need d) d e (g (i + Z.of_nat j) d)) ->
  forall s sz, runs (sum_list (need <$> ns)) (each_slot g i ns sz) s (fun r s' =>
    merged_all t h f take ns es r.1 s s' /\ u (r.2) = u (sz + (total r.1 - total ns)) /\ (r.2 = sz \/ exists x, r.2 = u x)).
Proof.
  intros Hu Hlen. revert i. induction Hlen as [|d e ns es _ Hlen IH]; intros i Hstep.
  - intros s sz. apply runs_ret. simpl. split; [|split; [f_equal; lia|by left]].
    split; [constructor|]. split; [simpl; lia|]. intros w. destruct take; simpl; lia.
  - pose proof (Hstep 0%nat d e eq_refl eq_refl) as H1. rewrite Z.add_0_r in H1.
    opose proof (IH (i + 1) _) as H2.
    { intros j d' e' Hd' He'. replace (i + 1 + Z.of_nat j) with (i + Z.of_nat (S j)) by lia. by apply Hstep. }
    intros s sz. cbn [each_slot].
    change (sum_list (need <$> d :: ns)) with (need d + sum_list (need <$> ns))%nat.
    rewrite <- (Nat.add_0_r (sum_list _)).
    apply runs_bind.
    eapply runs_mono; [reflexivity| |apply H1]. intros [d' sz1] s1 ((Hw & Hc & Hl & Hwt) & Hsz & Hor).
    apply runs_bind. eapply runs_mono; [reflexivity| |apply H2].
    intros [ns' sz2] s2 ((H3 & Ht & Hbw) & Hsz2 & Hor2). apply runs_ret. simpl in *. split; [|split].
    + split; [by constructor|]. split; [simpl; lia|]. intros w. specialize (Hwt w). specialize (Hbw w).
      simpl. destruct take; lia.
    + rewrite Hsz2, <- Hu, Hsz, Hu. f_equal. lia.
    + destruct Hor2 as [->|]; [|by right]. done.
Qed.

(** ** The operand's slots *)

Lemma ensure_spec t h n nsn k :
  blk t h n nsn -> 0 <= k < 32 ->
  exists e, imap__ensure_node n k = Some e /\ wf t h e /\ (forall q, look h e q = kid n k ≫= fun c => look h c q) /\
    (kid n k = Some e \/ kid n k = None /\ e = imap__empty_node).
Proof.
  intros Hb Hk. pose proof Hb as (Hns & Hkey & Hlen & Hf & _).
  unfold imap__ensure_node, kid. rewrite Hns. cbn [mbind option_bind].
  destruct (imap__get_node n k) as [i|] eqn:Hi; cbn [mbind option_bind].
  - destruct (lookup_lt_is_Some_2 nsn i) as [e He].
    { revert Hi Hlen. unfold imap__get_node, IMAP_NODE_SZ. destruct (nd_key n =? 32).
      - intros [= <-]. lia.
      - destruct (nd_key n =? k); [|done]. intros [= <-]. lia. }
    rewrite He. exists e. split; [done|]. split; [by eapply Forall_lookup_1|]. split; [done|]. by left.
  - eexists. split; [done|]. split; [apply wf_empty|]. split; [intros q; apply look_empty|]. by right.
Qed.

(** The slots of [n] that a loop over [len] indices from [i] compares with. *)
Definition slots n (i : Z) (len : nat) : list node :=
  (fun j => default imap__empty_node (imap__ensure_node n (i + Z.of_nat j))) <$> seq 0 len.

Lemma slots_length n i len : length (slots n i len) = len.
Proof. unfold slots. by rewrite length_fmap, length_seq. Qed.

Lemma slots_lookup n i len j :
  (j < len)%nat -> slots n i len !! j = Some (default imap__empty_node (imap__ensure_node n (i + Z.of_nat j))).
Proof. intros Hj. unfold slots. by rewrite list_lookup_fmap, lookup_seq_lt. Qed.

Lemma total_bw ns : total ns = bw cnt ns.
Proof. induction ns as [|c ns IH]; simpl; [done|]. by rewrite IH. Qed.

Lemma bw_replicate (wc : node -> Z) k : wc imap__empty_node = 0 -> bw wc (replicate k imap__empty_node) = 0.
Proof. intros E. induction k as [|k IH]; simpl; lia. Qed.

Lemma bw_insert (wc : node -> Z) ns i c c' :
  ns !! i = Some c -> bw wc (<[i := c']> ns) = bw wc ns - wc c + wc c'.
Proof.
  revert i. induction ns as [|c0 ns IH]; intros [|i] Hi; simplify_eq/=; [lia|]. rewrite (IH i) by done. lia.
Qed.

(** All slots of a full loop. *)
Lemma slots_full t h n nsn (wc : node -> Z) :
  blk t h n nsn -> wc imap__empty_node = 0 -> bw wc (slots n 0 32) = bw wc nsn.
Proof.
  intros Hb E0. pose proof Hb as (Hns & Hkey & Hlen & Hf & _).
  destruct (Z.eqb_spec (nd_key n) 32) as [E|E].
  - f_equal. apply list_eq_same_length with 32%nat; [done|apply slots_length|].
    intros j x y Hj Hx Hy. rewrite slots_lookup in Hx by done. injection Hx as <-.
    unfold imap__ensure_node, imap__get_node, IMAP_NODE_SZ. rewrite E, Hns, Z.add_0_l, Nat2Z.id.
    cbn. by rewrite Hy.
  - destruct nsn as [|c [|]]; try done.
    assert (slots n 0 32 = <[Z.to_nat (nd_key n) := c]> (replicate 32 imap__empty_node)) as ->.
    { apply list_eq_same_length with 32%nat; [by rewrite length_insert|apply slots_length|].
      intros j x y Hj Hx Hy. rewrite slots_lookup in Hx by done. injection Hx as <-.
      unfold imap__ensure_node, imap__get_node, IMAP_NODE_SZ.
      rewrite (proj2 (Z.eqb_neq _ _) E), Hns, Z.add_0_l.
      destruct (Z.eqb_spec (nd_key n) (Z.of_nat j)) as [Ej|Ej].
      - rewrite Ej, Nat2Z.id, list_lookup_insert_eq in Hy by done. by injection Hy.
      - rewrite list_lookup_insert_ne, lookup_replicate_2 in Hy by lia. by injection Hy. }
    rewrite (bw_insert _ _ _ imap__empty_node) by (apply lookup_replicate_2; lia).
    rewrite bw_replicate by done. simpl. lia.
Qed.

Lemma slots_le t h d ns n nsn :
  blk t h d ns -> blk t h n nsn -> total (slots n (first_index d) (length ns)) <= total nsn.
Proof.
  intros Hd Hn. pose proof Hd as (_ & Hkey & Hlen & _). pose proof Hn as (_ & _ & _ & Hfn & _).
  pose proof (first_index_range _ _ _ _ 0 Hd) as Hr. revert Hlen Hr. unfold first_index.
  destruct (Z.eqb_spec (nd_key d) 32) as [E|E]; intros Hlen Hr; rewrite Hlen in *.
  - rewrite E. change (Z.land 32 31) with 0. rewrite !total_bw, (slots_full t h n nsn) by done. lia.
  - destruct (ensure_spec t h n nsn (Z.land (nd_key d) 31) Hn ltac:(lia)) as (e & He & Hw & _ & Hk).
    unfold slots. cbn [seq fmap list_fmap Z.of_nat]. rewrite Z.add_0_r, He. simpl. pose proof (cnt_nonneg _ _ _ Hw).
    destruct Hk as [Hk|[_ ->]]; [|pose proof (total_nonneg _ _ _ Hfn); unfold cnt; simpl; lia].
    unfold kid in Hk. destruct (nd_nodes n) as [ns'|] eqn:Hns; [|done]. simpl in Hk.
    destruct Hn as (E' & _). assert (ns' = nsn) as -> by congruence.
    destruct (imap__get_node n _) as [i|]; [|done]. simpl in Hk.
    pose proof (total_lookup _ _ _ _ _ Hfn Hk). lia.
Qed.

(** The destination has a slot for every child of the operand. *)
Definition covers d n : Prop := nd_key d = 32 \/ nd_key n = nd_key d.

Lemma slots_covered t h d ns n nsn (wc : node -> Z) :
  blk t h d ns -> blk t h n nsn -> covers d n -> wc imap__empty_node = 0 ->
  bw wc (slots n (first_index d) (length ns)) = bw wc nsn.
Proof.
  intros Hd Hn Hcov E0. pose proof Hd as (_ & Hkey & Hlen & _). pose proof Hn as (Hns & Hkn & Hln & Hfn & _).
  pose proof (first_index_range _ _ _ _ 0 Hd) as Hr. revert Hlen Hr. unfold first_index.
  destruct (Z.eqb_spec (nd_key d) 32) as [E|E]; intros Hlen Hr; rewrite Hlen in *.
  - rewrite E. change (Z.land 32 31) with 0. by apply (slots_full t h).
  - destruct Hcov as [Hcov|Hcov]; [done|]. rewrite <- Hcov in *.
    replace (Z.land (nd_key n) 31) with (nd_key n) in *.
    2: { change 31 with (Z.ones 5). rewrite Z.land_ones, Z.mod_small; lia. }
    rewrite (proj2 (Z.eqb_neq _ _) E) in Hln. destruct nsn as [|c [|]]; try done.
    unfold slots, imap__ensure_node, imap__get_node, IMAP_NODE_SZ. cbn [seq fmap list_fmap Z.of_nat].
    rewrite (proj2 (Z.eqb_neq _ _) E), Z.add_0_r, Z.eqb_refl, Hns. done.
Qed.

Lemma covers_kid t h d ns n nsn k :
  blk t h d ns -> blk t h n nsn -> covers d n -> 0 <= k < 32 -> kid d k = None -> kid n k = None.
Proof.
  intros (Hns & Hkd & Hld & _) (Hnn & _) Hcov Hk. unfold kid, imap__get_node, IMAP_NODE_SZ. rewrite Hns, Hnn.
  cbn [mbind option_bind]. revert Hld. destruct (Z.eqb_spec (nd_key d) 32) as [E|E]; intros Hld; cbn [mbind option_bind].
  - intros Hl%lookup_ge_None. lia.
  - destruct Hcov as [Hcov|Hcov]; [done|]. rewrite Hcov.
    rewrite (proj2 (Z.eqb_neq _ _) E). destruct (nd_key d =? k); cbn [mbind option_bind]; [|done].
    intros Hl%lookup_ge_None. lia.
Qed.

(** ** Loops over a block *)

(** The block of [d'] is the combination of those of [d] and [e]. *)
Definition block_merged (h : nat) (f : option V -> option V -> option V) (take : bool)
    d e d' (s s' : ist V) : Prop :=
  nd_data d' = nd_data d /\ nd_sz d' <= nd_sz d + nd_sz e /\
  (forall q, 0 < q -> look h d' q = f (look h d q) (look h e q)) /\
  (forall w, wt w h (bare d') + evw w (evs s') =
     wt w h (bare d) + (if take then wt w h (bare e) else 0) + evw w (evs s)).

Lemma Forall3_lookup {A B C} (P : A -> B -> C -> Prop) l1 l2 l3 j x :
  Forall3 P l1 l2 l3 -> l1 !! j = Some x -> exists y z, l2 !! j = Some y /\ l3 !! j = Some z /\ P x y z.
Proof.
  intros H. revert j. induction H as [|a b c l1 l2 l3 Hp H IH]; intros [|j] Hj; simplify_eq/=; eauto.
Qed.

Lemma Forall3_len {A B C} (P : A -> B -> C -> Prop) l1 l2 l3 : Forall3 P l1 l2 l3 -> length l3 = length l1.
Proof. induction 1; simpl; congruence. Qed.

Lemma merged_all_wf t h f take ns es ns' s s' : merged_all t h f take ns es ns' s s' -> Forall (wf t h) ns'.
Proof. intros [H _]. induction H as [|????? ? [? ?]]; by constructor. Qed.

Lemma over_block_spec t h f take (need : node -> nat) (F : node -> node -> Z -> IM V (node * Z)) d ns n nsn :
  blk t h d ns -> blk t h n nsn -> f None None = None ->
  covers d n \/ take = false /\ (forall x, f None x = None) ->
  nd_sz d + nd_sz n < 4294967296 ->
  (forall c e, wf t h c -> wf t h e -> cnt c <= nd_sz d -> cnt e <= nd_sz n ->
     slot_step u32 t h f take (need c) c e (F e c)) ->
  forall s,
    runs (sum_list (need <$> ns)) (over_block (fun i c sz => e ← deref (imap__ensure_node n i); F e c sz) d) s (fun d' s' =>
      (exists ns', blk t h d' ns') /\ block_merged (S h) f take d n d' s s').
Proof.
  intros Hd Hn Hf0 Hcov Hsz HF. pose proof Hd as (Hns & Hkey & Hlen & Hfd & Htd).
  pose proof Hn as (Hnn & _ & _ & Hfn & Htn).
  set (es := slots n (first_index d) (length ns)).
  assert (forall j, (j < length ns)%nat -> exists e, imap__ensure_node n (first_index d + Z.of_nat j) = Some e /\
    es !! j = Some e /\ wf t h e /\ (forall q, look h e q = kid n (first_index d + Z.of_nat j) ≫= fun c => look h c q)) as Hes.
  { intros j Hj. destruct (ensure_spec t h n nsn _ Hn (first_index_range _ _ _ _ j Hd Hj)) as (e & He & Hw & Hl & _).
    exists e. split; [done|]. split; [|done]. subst es. rewrite slots_lookup, He by done. done. }
  pose proof (slots_le _ _ _ _ _ _ Hd Hn) as Htot. fold es in Htot.
  assert (Forall (wf t h) es) as Hwes.
  { apply Forall_lookup_2. intros j e He. destruct (Hes j) as (e' & _ & He' & Hw & _); [|congruence].
    apply lookup_lt_Some in He. subst es. by rewrite slots_length in He. }
  opose proof (each_slot_spec u32 t h f take need (fun i c sz => e ← deref (imap__ensure_node n i); F e c sz)
    (first_index d) ns es u32_modular _ _) as HN.
  { apply Forall2_same_length_lookup_2; [subst es; by rewrite slots_length|done]. }
  { intros j c e Hc He. destruct (Hes j (lookup_lt_Some _ _ _ Hc)) as (e' & Ee & He' & Hw & _).
    assert (e' = e) as -> by congruence.
    pose proof (Forall_lookup_1 _ _ _ _ Hfd Hc) as Hwc.
    opose proof (HF c e Hwc Hw _ _) as HN.
    - rewrite Htd. pose proof (total_lookup _ _ _ _ _ Hfd Hc). lia.
    - rewrite Htn. pose proof (total_lookup _ _ _ _ _ Hwes He). lia.
    - intros s sz. rewrite Ee. apply runs_deref, HN. }
  intros s. unfold over_block. rewrite Hns, <- (Nat.add_0_r (sum_list _)). apply runs_deref, runs_bind.
  eapply runs_mono; [reflexivity| |apply HN]. intros [ns' sz'] s' (Hm & Hu & Hor). apply runs_ret. simpl in *.
  pose proof (merged_all_wf _ _ _ _ _ _ _ _ _ Hm) as Hw'. destruct Hm as (H3 & Ht' & Hbw).
  pose proof (total_nonneg _ _ _ Hw'). pose proof (total_nonneg _ _ _ Hfd). pose proof (total_nonneg _ _ _ Hfn).
  assert (sz' = total ns') as ->.
  { rewrite Htd in *. replace (total ns + (total ns' - total ns)) with (total ns') in Hu by lia.
    rewrite (u32_small (total ns')) in Hu by lia. rewrite <- Hu. symmetry. apply u32_small.
    destruct Hor as [->|[x ->]]; [lia|apply u32_range]. }
  assert (forall sz, let d' := INode sz (nd_key d) (nd_data d) (Some ns') in
    forall k, kid d' k = (i ← imap__get_node d k; ns' !! i)) as Hkid by done.
  split; [exists ns'|split; [done|split; [simpl; lia|split]]].
  - unfold blk. simpl. rewrite (Forall3_len _ _ _ _ H3). done.
  - intros q Hq. rewrite !look_S, (proj2 (Z.eqb_neq q 0)) by lia.
    pose proof (Z.mod_pos_bound (q - 1) 32 eq_refl) as Hk. set (k := (q - 1) mod 32) in *.
    assert (0 <= (q - 1) / 32) as Hq1 by (apply Z.div_pos; lia). set (q1 := (q - 1) / 32) in *.
    destruct (kid d k) as [c|] eqn:Hkd.
    + pose proof Hkd as Hkd'. apply (kid_index _ _ _ _ _ Hd Hk) in Hkd' as (j & Hj & Ej).
      destruct (Forall3_lookup _ _ _ _ _ _ H3 Hj) as (e & c' & He & Hc' & _ & Hl).
      destruct (Hes j (lookup_lt_Some _ _ _ Hj)) as (e' & _ & He' & _ & Hle).
      assert (e' = e) as -> by congruence.
      assert (kid (INode (total ns') (nd_key d) (nd_data d) (Some ns')) k = Some c') as ->.
      { apply (kid_index t h _ ns'); [|done|by exists j]. unfold blk. simpl.
        rewrite (Forall3_len _ _ _ _ H3). done. }
      cbn [mbind option_bind]. rewrite Hl, Hle, <- Ej by done. done.
    + assert (kid (INode (total ns') (nd_key d) (nd_data d) (Some ns')) k = None) as ->.
      { unfold kid in Hkd |- *. rewrite Hns in Hkd. cbn [nd_nodes mbind option_bind] in *.
        change (imap__get_node (INode (total ns') (nd_key d) (nd_data d) (Some ns')) k) with (imap__get_node d k).
        destruct (imap__get_node d k) as [i|]; cbn [mbind option_bind] in *; [|done].
        apply lookup_ge_None. apply lookup_ge_None in Hkd. by rewrite (Forall3_len _ _ _ _ H3). }
      cbn [mbind option_bind]. destruct Hcov as [Hcov|[_ Hf]]; [|by rewrite Hf].
      by rewrite (covers_kid _ _ _ _ _ _ _ Hd Hn Hcov Hk Hkd).
  - intros w. specialize (Hbw w). unfold bare. cbn [wt nd_nodes nd_data set_data ow].
    rewrite Hns, Hnn. destruct take; [|lia]. destruct Hcov as [Hcov|[? _]]; [|done].
    rewrite <- (slots_covered _ _ _ _ _ _ (wt w h) Hd Hn Hcov (wt_empty w h)). fold es. lia.
Qed.

(** ** Steps on slots: first the data, then the blocks *)

Definition data_step (u : Z -> Z) (f : option V -> option V -> option V) (take : bool) d e
    (D : Z -> IM V (node * Z)) : Prop :=
  forall s sz, runs 0 (D sz) s (fun r s' =>
    r.1 = set_data (f (nd_data d) (nd_data e)) d /\
    (forall w, ow w (f (nd_data d) (nd_data e)) + evw w (evs s') =
       ow w (nd_data d) + (if take then ow w (nd_data e) else 0) + evw w (evs s)) /\
    u r.2 = u (sz + (cnt r.1 - cnt d)) /\ (r.2 = sz \/ exists x, r.2 = u x)).

Definition block_step (u : Z -> Z) t h f take (N : nat) d e (K : node -> Z -> IM V (node * Z)) : Prop :=
  let x := f (nd_data d) (nd_data e) in
  forall s sz, runs N (K (set_data x d) sz) s (fun r s' =>
    wf t h r.1 /\ block_merged h f take (set_data x d) e r.1 s s' /\
    u r.2 = u (sz + (nd_sz r.1 - nd_sz d)) /\ (r.2 = sz \/ exists x, r.2 = u x)).

Lemma look_set_data h c x q : 0 < q -> look h (set_data x c) q = look h c q.
Proof. intros Hq. destruct h; simpl; by destruct (Z.eqb_spec q 0); [lia|]. Qed.

Lemma merge_count (f : option V -> option V -> option V) x y :
  f None None = None -> (if f x y then 1 else 0) <= (if x then 1 else 0) + (if y then 1 else 0).
Proof.
  intros Hf. destruct x, y; rewrite ?Hf; try lia;
    match goal with |- context [f ?a ?b] => destruct (f a b) end; lia.
Qed.

Lemma slot_step_intro u t h f take N d e D K :
  modular u -> f None None = None -> data_step u f take d e D -> block_step u t h f take N d e K ->
  slot_step u t h f take N d e (fun sz => '(d, sz) ← D sz; K d sz).
Proof.
  intros Hu Hf0 HD HK s sz. apply (runs_bind 0 N).
  eapply runs_mono; [reflexivity| |apply HD]. intros [d1 sz1] s1 (E & Hw1 & Hs1 & Ho1). simpl in *. subst d1.
  eapply runs_mono; [reflexivity| |apply HK].
  intros [d' sz2] s2 (Hwf & (Hd & Hsz & Hl & Hw2) & Hs2 & Ho2). simpl in *.
  set (x := f (nd_data d) (nd_data e)) in *. split; [split; [done|split; [|split]]|split].
  - pose proof (merge_count f (nd_data d) (nd_data e) Hf0) as Hx. fold x in Hx.
    unfold cnt. rewrite Hd. lia.
  - intros q Hq. destruct (Z.eqb_spec q 0) as [->|]; [rewrite !look_0; done|].
    rewrite Hl, look_set_data by lia. done.
  - intros w. specialize (Hw1 w). specialize (Hw2 w).
    rewrite (wt_bare w h d'), (wt_bare w h d), (wt_bare w h e), Hd. simpl.
    replace (bare (set_data x d)) with (bare d) in Hw2 by done. destruct take; lia.
  - rewrite Hs2, <- Hu, Hs1, Hu. f_equal. unfold cnt. rewrite Hd. simpl. lia.
  - destruct Ho2 as [->|]; [done|by right].
Qed.

(** A slot whose blocks need no change. *)
Lemma block_step_same u t h f take N d e K :
  wf t h d -> 0 <= nd_sz e ->
  (forall q, 0 < q -> look h d q = f (look h d q) (look h e q)) ->
  (take = true -> nd_nodes e = None) ->
  (forall d sz, K d sz = mret (d, sz)) -> block_step u t h f take N d e K.
Proof.
  intros Hw He Hl Ht HK s sz. rewrite HK. apply (runs_mono 0 N _ _ _ _ (Nat.le_0_l N) (fun _ _ H => H)), runs_ret. simpl.
  split; [by apply wf_set_data|]. split; [split; [done|split; [simpl; lia|split]]|split; [f_equal; lia|by left]].
  - intros q Hq. rewrite look_set_data by done. by apply Hl.
  - intros w. destruct take; [|lia]. destruct h; simpl; rewrite Ht by done; lia.
Qed.

Lemma sum_insert (g : node -> nat) ns i c c' :
  ns !! i = Some c -> (sum_list (g <$> <[i := c']> ns) + g c = sum_list (g <$> ns) + g c')%nat.
Proof.
  assert (forall x l, sum_list (g <$> x :: l) = g x + sum_list (g <$> l))%nat as E by done.
  revert i. induction ns as [|c0 ns IH]; intros [|i] Hi; cbn in Hi; try done.
  - injection Hi as ->. change (<[0%nat := c']> (c :: ns)) with (c' :: ns). rewrite !E. lia.
  - specialize (IH i Hi). change (<[S i := c']> (c0 :: ns)) with (c0 :: <[i := c']> ns). rewrite !E. lia.
Qed.

Lemma sum_grown (g : node -> nat) i c :
  (i < 32)%nat -> g imap__empty_node = 0%nat ->
  sum_list (g <$> <[i := c]> (replicate 32 imap__empty_node)) = g c.
Proof.
  intros Hi Hg. pose proof (sum_insert g (replicate 32 imap__empty_node) i imap__empty_node c) as H.
  rewrite lookup_replicate_2 in H by done. specialize (H eq_refl).
  assert (forall k, sum_list (g <$> replicate k imap__empty_node) = 0%nat) as Hr.
  { induction k as [|k IH]; [done|]. cbn. unfold id. cbn in IH. unfold id in IH. lia. }
  rewrite Hr in H. lia.
Qed.

(** Room in the destination for the children of the operand. *)
Lemma wt_block w h n ns : nd_nodes n = Some ns -> wt w (S h) (bare n) = bw (wt w h) ns.
Proof. intros Hns. simpl. rewrite Hns. simpl. lia. Qed.

Lemma grow_for_spec t h d ns n nsn s :
  blk t h d ns -> blk t h n nsn ->
  runs 1 (grow_for d n) s (fun d1 s1 => evs s1 = evs s /\ nd_data d1 = nd_data d /\ nd_sz d1 = nd_sz d /\
    (exists ns1, blk t h d1 ns1 /\ sum_list (blocks h <$> ns1) = sum_list (blocks h <$> ns)) /\ covers d1 n /\ (forall q, look (S h) d1 q = look (S h) d q) /\
    forall w, wt w (S h) (bare d1) = wt w (S h) (bare d)).
Proof.
  intros Hd Hn HN. pose proof Hd as (Hns & Hkey & Hlen & Hfd & _).
  unfold grow_for, covers. change IMAP_NODE_SZ with 32.
  destruct (Z.eqb_spec (nd_key d) 32) as [E|E]; cbn [negb andb].
  { eexists _, s. split; [done|]. split; [lia|]. split_and!; try done; eauto 6. }
  destruct (Z.eqb_spec (nd_key n) (nd_key d)) as [E'|E']; cbn [negb].
  { eexists _, s. split; [done|]. split; [lia|]. split_and!; try done; eauto 6. }
  destruct ns as [|c [|]]; try (by destruct (nd_key d =? 32)).
  destruct (grown_block t h d [c] c Hd E eq_refl) as [Hb Hl].
  unfold imap__node_grow, alloc, mbind, IM_bind, mret, IM_ret, deref. destruct (mem s) as [|k] eqn:Em; [lia|].
  rewrite Hns. eexists _, _. split; [done|]. cbn [mem]. split; [lia|]. do 3 (split; [done|]).
  split; [eexists; split; [done|]; rewrite sum_grown by (lia || by destruct h); cbn; unfold id; lia|].
  split; [by left|]. split; [done|]. intros w.
  erewrite wt_block by done. rewrite (wt_block w h d [c]) by done.
  rewrite (bw_insert _ _ _ imap__empty_node) by (apply lookup_replicate_2; lia).
  rewrite bw_replicate, wt_empty by apply wt_empty. simpl. lia.
Qed.

(** ** Helpers for the operations *)

Lemma modular_idem u a : modular u -> u (u a) = u a.
Proof. intros Hu. specialize (Hu a 0). by rewrite !Z.add_0_r in Hu. Qed.

Lemma nonempty_look t h c : wf t h c -> 0 < cnt c -> exists q v, 0 <= q /\ look h c q = Some v.
Proof.
  intros Hw Hc. pose proof (length_items t h c Hw) as Hl.
  destruct (items h c) as [|[q v] l] eqn:E; [simpl in Hl; lia|]. exists q, v.
  apply (elem_items t); [done|]. rewrite E. left.
Qed.

Lemma block_nonempty t h c : wf t h c -> 0 < nd_sz c -> exists q v, 0 < q /\ look h c q = Some v.
Proof.
  intros Hw Hc. destruct (nonempty_look t h (bare c)) as (q & v & Hq & Hl); [by apply wf_set_data|by rewrite cnt_bare|].
  rewrite look_bare in Hl. destruct (Z.eqb_spec q 0); [done|]. exists q, v. split; [lia|done].
Qed.

Lemma block_pos t h c ns q v : blk t h c ns -> 0 < q -> look (S h) c q = Some v -> 0 < nd_sz c.
Proof.
  intros Hb Hq Hl. rewrite <- cnt_bare. apply (look_pos false (S h) _ q v).
  - apply wf_set_data. apply (blk_wf false h c ns); [|done]. destruct Hb as (? & ? & ? & Hf & ?).
    do 3 (split; [done|]). split; [|done]. eapply Forall_impl; [done|]. intros x Hx. by apply (wf_weaken t).
  - rewrite look_bare. destruct (Z.eqb_spec q 0); [lia|done].
Qed.

Lemma block_sz t h c ns : wf t h c -> nd_nodes c = Some ns -> exists h', h = S h' /\ blk t h' c ns.
Proof.
  intros Hw Hns. destruct h as [|h]; [by destruct (wf_no_block _ _ _ Hw Hns)|].
  exists h. split; [done|]. by apply wf_blk.
Qed.

Lemma nodes_none_sz t h c : wf t h c -> nd_nodes c = None -> nd_sz c = 0.
Proof. intros Hw Hn. destruct h; simpl in Hw; by rewrite Hn in Hw. Qed.

(** A slot without a block takes over the block of the operand. *)
Lemma block_step_moved u t h f N d e ens K :
  modular u -> wf t h d -> nd_nodes d = None -> wf t h e -> nd_nodes e = Some ens -> (forall x, f None x = x) ->
  (forall x sz, K (set_data x d) sz = mret (INode (nd_sz e) (nd_key e) x (Some ens), u (sz + nd_sz e))) ->
  block_step u t h f true N d e K.
Proof.
  intros Hu Hd Ed He Ee Hf HK. pose proof (nodes_none_sz _ _ _ Hd Ed) as Hd0.
  intros s sz. rewrite HK, <- Ee. apply (runs_mono 0 N _ _ _ _ (Nat.le_0_l N) (fun _ _ H => H)), runs_ret. cbn [fst snd]. set (x := f _ _).
  change (INode (nd_sz e) (nd_key e) x (nd_nodes e)) with (set_data x e).
  split; [by apply wf_set_data|]. split; [|split].
  - split; [done|]. split; [simpl; lia|]. split.
    + intros q Hq. rewrite !look_set_data, (look_none_nodes h d q), Hf by (done || lia). done.
    + intros w. replace (wt w h (bare (set_data x d))) with 0 by (destruct h; simpl; by rewrite Ed).
      change (bare (set_data x e)) with (bare e). lia.
  - simpl nd_sz. rewrite Hd0, Z.sub_0_r. by apply modular_idem.
  - right. by eexists.
Qed.

(** A slot whose blocks are combined by the recursive call [rec]. *)
Lemma block_step_rec u t h f take d e (rec : node -> node -> IM V node) (g : node -> node) (size : Z -> node -> Z) K N :
  modular u -> (forall sz d', size sz d' = sz + (nd_sz d' - nd_sz d)) ->
  (forall x s, runs N (rec (set_data x d) e) s (fun d' s' =>
     wf t h (g d') /\ block_merged h f take (set_data x d) e (g d') s s' /\ nd_sz (g d') = nd_sz d')) ->
  (forall x sz, K (set_data x d) sz =
     (d' ← rec (set_data x d) e; mret (g d', u (size sz d')))) ->
  block_step u t h f take N d e K.
Proof.
  intros Hu Hsize HN HK s sz. rewrite HK, <- (Nat.add_0_r N). apply runs_bind.
  eapply runs_mono; [reflexivity| |apply HN]. intros d' s' (Hw & Hm & Hs). apply runs_ret. cbn [fst snd].
  split; [done|]. split; [done|]. split; [rewrite Hs, Hsize; by apply modular_idem|right; by eexists].
Qed.

(** The weight of a slot is the weight of its items. *)
Fixpoint lw (w : V -> Z) (l : list V) : Z := match l with [] => 0 | v :: l => w v + lw w l end.

Lemma lw_app w l1 l2 : lw w (l1 ++ l2) = lw w l1 + lw w l2.
Proof. induction l1 as [|v l1 IH]; simpl; lia. Qed.

Lemma lw_vals w t h c : wf t h c -> lw w (vals h c) = wt w h c.
Proof.
  revert c. induction h as [|h IH]; intros c Hc; rewrite (vals_unfold t), lw_app by done; cbn [wt];
    (replace (lw w (option_list (nd_data c))) with (ow w (nd_data c)) by (destruct (nd_data c); simpl; lia));
    destruct (nd_nodes c) as [ns|] eqn:Hns; try done.
  f_equal. pose proof (wf_block _ _ _ _ Hc Hns) as Hf. clear Hc Hns.
  induction Hf as [|c' ns Hc' Hf IHf]; [done|]. cbn [block_vals bw]. rewrite lw_app, IHf, IH by done. done.
Qed.

Lemma lw_block w t h ns : Forall (wf t h) ns -> lw w (block_vals h ns) = bw (wt w h) ns.
Proof.
  induction 1 as [|c ns Hc Hf IH]; [done|]. cbn [block_vals bw]. by rewrite lw_app, IH, (lw_vals w t).
Qed.

Lemma wt_cnt0 w t h c : wf t h c -> cnt c = 0 -> wt w h c = 0.
Proof.
  intros Hw Hc. rewrite <- (lw_vals w t) by done. pose proof (vals_length t h c Hw).
  destruct (vals h c); [done|simpl in *; lia].
Qed.

Lemma evw_callbacks w l : evw w (rev (Callback <$> l)) = lw w l.
Proof. induction l as [|v l IH]; [done|]. cbn [fmap list_fmap rev lw]. rewrite evw_app. simpl. cbn in IH. lia. Qed.

(** A block that lost its last item is dropped. *)
Lemma blk_weaken t h c ns : blk t h c ns -> blk false h c ns.
Proof.
  intros (? & ? & ? & Hf & ?). do 3 (split; [done|]). split; [|done].
  eapply Forall_impl; [done|]. intros x Hx. by apply (wf_weaken t).
Qed.

Lemma prune_merged t h f take d e d' ns' s s' :
  blk t h d' ns' -> block_merged (S h) f take d e d' s s' ->
  wf t (S h) (prune d') /\ block_merged (S h) f take d e (prune d') s s' /\ nd_sz (prune d') = nd_sz d'.
Proof.
  intros Hb (Hd & Hs & Hl & Hw). unfold prune. destruct (Z.eqb_spec (nd_sz d') 0) as [E|E].
  - assert (wf false (S h) d') as Hwf by (eapply blk_wf; [by eapply blk_weaken|done]).
    split; [exact E|]. split; [|done]. split; [done|]. split; [done|]. split.
    + intros q Hq. rewrite <- (Hl q Hq).
      assert (q <> 0) as Hq0 by lia. rewrite (look_sz0 false (S h) d' q Hwf E Hq0).
      exact (look_none_nodes (S h) (set_nodes None d') q eq_refl Hq0).
    + intros w. rewrite <- Hw. f_equal. rewrite (wt_cnt0 w false (S h) (bare d')); [done| |by rewrite cnt_bare].
      by apply wf_set_data.
  - split; [|done]. eapply blk_wf; [done|]. intros _.
    destruct Hb as (_ & _ & _ & Hf & Ht). pose proof (total_nonneg _ _ _ Hf). lia.
Qed.

(** The data part of a step changes the size by a constant. *)
Lemma data_step_intro u f (take : bool) d e (D : Z -> IM V (node * Z)) (ev : list (ref_event V)) b :
  modular u ->
  (forall s sz, D sz s = Some ((set_data (f (nd_data d) (nd_data e)) d, if b =? 0 then sz else u (sz + b)),
                               IState (mem s) (ev ++ evs s))) ->
  b = ow (fun _ => 1) (f (nd_data d) (nd_data e)) - ow (fun _ => 1) (nd_data d) ->
  (forall w, ow w (f (nd_data d) (nd_data e)) + evw w ev = ow w (nd_data d) + (if take then ow w (nd_data e) else 0)) ->
  data_step u f take d e D.
Proof.
  intros Hu HD Hb Hw s sz HN. eexists _, _. rewrite HD. split; [done|]. simpl. split; [lia|].
  split; [done|]. split; [|split].
  - intros w. rewrite evw_app, Z.add_assoc, Hw. lia.
  - assert (cnt (set_data (f (nd_data d) (nd_data e)) d) - cnt d = b) as ->.
    { rewrite Hb. unfold cnt. simpl. destruct (f (nd_data d) (nd_data e)), (nd_data d); simpl; lia. }
    destruct (Z.eqb_spec b 0) as [->|]; [by rewrite Z.add_0_r|by apply modular_idem].
  - destruct (b =? 0); [by left|right; by eexists].
Qed.

End Merge.

(** ** Loops over the root *)

Section Roots.
Context {V : Type} `{EqDecision V}.
Notation node := (imap_node V).
Implicit Types (c d e : node) (m : imap V).

(** The sum of a weight over the items of a map. *)
Definition mw (w : V -> Z) m : Z := lw w (root_items m).*2.

Lemma mw_bw w t m : imap_ok t m -> mw w m = bw (wt w IMAP_HEIGHT) (im_nodes m).
Proof.
  intros (_ & Hf & _). unfold mw. rewrite root_items_vals.
  by apply (lw_block w t).
Qed.

Lemma over_root_spec t f take (need : node -> nat) (F : node -> node -> Z -> IM V (node * Z)) (dest other : imap V) :
  imap_ok t dest -> imap_ok t other -> f None None = None -> im_n dest + im_n other < 4294967296 ->
  (forall c e, wf t IMAP_HEIGHT c -> wf t IMAP_HEIGHT e -> cnt c + cnt e < 4294967296 ->
     slot_step u64 t IMAP_HEIGHT f take (need c) c e (F e c)) ->
  forall s, runs (sum_list (need <$> im_nodes dest)) (over_root F dest other) s (fun m' s' =>
    imap_ok t m' /\ to_map m' = merge f (to_map dest) (to_map other) /\
    forall w, mw w m' + evw w (evs s') = mw w dest + (if take then mw w other else 0) + evw w (evs s)).
Proof.
  intros Hd Ho Hf0 Hn HF s. pose proof Hd as (Hld & Hfd & Hnd). pose proof Ho as (Hlo & Hfo & Hno).
  opose proof (each_slot_spec u64 t IMAP_HEIGHT f take need
    (fun i d sz => e ← deref (im_nodes other !! Z.to_nat i); F e d sz) 0 (im_nodes dest) (im_nodes other)
    u64_modular _ _) as HN.
  { apply Forall2_same_length_lookup_2; [congruence|done]. }
  { intros j c e Hc He s1 sz. rewrite Z.add_0_l, Nat2Z.id, He. apply runs_deref, HF.
    - exact (Forall_lookup_1 _ _ _ _ Hfd Hc).
    - exact (Forall_lookup_1 _ _ _ _ Hfo He).
    - pose proof (total_lookup _ _ _ _ _ Hfd Hc). pose proof (total_lookup _ _ _ _ _ Hfo He). lia. }
  unfold over_root. rewrite <- (Nat.add_0_r (sum_list _)). apply runs_bind.
  eapply runs_mono; [reflexivity| |apply HN]. intros [ns' n'] s' (Hm & Hu & Hor). apply runs_ret. cbn [fst snd] in *.
  pose proof (merged_all_wf _ _ _ _ _ _ _ _ _ Hm) as Hw'. destruct Hm as (H3 & Ht' & Hbw).
  pose proof (total_nonneg _ _ _ Hw'). pose proof (total_nonneg _ _ _ Hfd). pose proof (total_nonneg _ _ _ Hfo).
  assert (n' = total ns') as ->.
  { rewrite Hnd in *. replace (total (im_nodes dest) + (total ns' - total (im_nodes dest))) with (total ns') in Hu by lia.
    rewrite (u64_small (total ns')) in Hu by lia. rewrite <- Hu. symmetry. apply u64_small.
    destruct Hor as [->|[x ->]]; [lia|apply u64_range]. }
  assert (imap_ok t (Imap (total ns') ns')) as Hok.
  { split; [simpl; by rewrite (Forall3_len _ _ _ _ H3)|]. done. }
  split; [done|]. split.
  - apply map_eq. intros id. rewrite lookup_merge, !(to_map_lookup t) by done.
    case_bool_decide as Hid; [|done]. unfold ilook. cbn [im_nodes].
    destruct (root_slot t dest id Hd) as (c & Hc & _). 
    destruct (Forall3_lookup _ _ _ _ _ _ H3 Hc) as (e & c' & He & Hc' & _ & Hl).
    rewrite Hc, He, Hc'. cbn [mbind option_bind]. rewrite Hl by (by apply Z.div_pos).
    unfold diag_None. by destruct (look _ c _), (look _ e _).
  - intros w. rewrite !(mw_bw w t) by done. apply Hbw.
Qed.

End Roots.

(** The data part when both slots' data are known: the events and the change of
    the size. *)
Ltac data_case d Ee Ed ev b :=
  apply (data_step_intro _ _ _ _ _ _ ev b); rewrite ?Ee, ?Ed;
  [ done | intros [? ?] ?; destruct d; simpl in *; subst; reflexivity
  | simpl; lia | intros w; simpl; lia ].

(** ** Union *)

Definition union_with {V} (x y : option V) : option V := match x with Some _ => x | None => y end.

Section Union.
Context {V : Type} `{EqDecision V}.
Notation node := (imap_node V).
Implicit Types (d e n : node).

Definition union_node_ok (t : bool) (h f : nat) : Prop := forall d e dns ens,
  blk t h d dns -> blk t h e ens -> (t = true -> 0 < nd_sz d) -> nd_sz d + nd_sz e < 4294967296 ->
  forall s, runs (blocks (S h) d) (imap__union_move f d e) s (fun d' s' =>
    wf t (S h) d' /\ block_merged (S h) union_with true d e d' s s').

Lemma union_slot_ok u t h f d e :
  modular u -> (forall h', h = S h' -> union_node_ok t h' f) ->
  wf t h d -> wf t h e -> nd_sz d + nd_sz e < 4294967296 ->
  slot_step u t h union_with true (blocks h d) d e (union_move_slot (imap__union_move f) u e d).
Proof.
  intros Hu Hrec Hd He Hsz. pose proof (wf_sz _ _ _ Hd). pose proof (wf_sz _ _ _ He).
  unfold union_move_slot. apply slot_step_intro; [done|done|..].
  - destruct (nd_data e) as [v|] eqn:Ee, (nd_data d) as [v'|] eqn:Ed.
    + data_case d Ee Ed [Decref v] 0.
    + data_case d Ee Ed (@nil (ref_event V)) 1.
    + data_case d Ee Ed (@nil (ref_event V)) 0.
    + data_case d Ee Ed (@nil (ref_event V)) 0.
  - destruct (nd_nodes e) as [ens|] eqn:Ee.
    + destruct (block_sz _ _ _ _ He Ee) as (h' & -> & Hbe). destruct (nd_nodes d) as [dns|] eqn:Ed.
      * pose proof (wf_blk _ _ _ _ Hd Ed) as Hbd.
        assert (t = true -> 0 < nd_sz d) as Hpos.
        { intros ->. simpl in Hd. rewrite Ed in Hd. by destruct Hd as (_ & _ & _ & _ & Hp); apply Hp. }
        apply (block_step_rec u t (S h') union_with true d e (imap__union_move f) id
                 (fun sz d' => sz + (nd_sz d' - nd_sz d))); [done|done| |].
        -- intros x s. eapply runs_mono; [reflexivity| |apply (Hrec h' eq_refl (set_data x d) e dns ens); done].
           intros d' s' [Hw Hm]. done.
        -- intros x sz. simpl nd_nodes. by rewrite Ed.
      * apply (block_step_moved u t (S h') union_with _ d e ens); try done.
        intros x sz. simpl nd_nodes. by rewrite Ed.
    + apply block_step_same; [done|done| |done|by intros d' sz; destruct (nd_nodes d')].
      intros q Hq. rewrite (look_none_nodes h e q) by (done || lia). by destruct (look h d q).
Qed.

Lemma union_node t h f : (h < f)%nat -> union_node_ok t h f.
Proof.
  revert f. induction h as [h IH] using lt_wf_ind. intros [|f] Hf d e dns ens Hd He Hpos Hsz s; [lia|].
  cbn [imap__union_move]. pose proof Hd as (Ed & _).
  replace (blocks (S h) d) with (1 + sum_list (blocks h <$> dns))%nat by (simpl; by rewrite Ed).
  apply runs_bind. eapply runs_mono; [reflexivity| |by apply (grow_for_spec t h d dns e ens)].
  intros d1 s1 (Hev & Hdata & Hsz1 & (ns1 & Hb1 & Hsum) & Hcov & Hl1 & Hw1). rewrite <- Hsum.
  eapply runs_mono; [reflexivity| |apply (over_block_spec t h union_with true (blocks h) _ d1 ns1 e ens)]; try done.
  - intros d' s' ((ns' & Hb') & Hd' & Hs' & Hl' & Hw').
    assert (forall q, 0 < q -> look (S h) d' q = union_with (look (S h) d q) (look (S h) e q)) as Hl.
    { intros q Hq. by rewrite Hl', Hl1. }
    split.
    + eapply blk_wf; [done|]. intros Ht. specialize (Hpos Ht). subst t.
      destruct (block_nonempty true (S h) d) as (q & v & Hq & Hlq); [by apply blk_wf with dns|done|].
      apply (block_pos _ _ _ _ q v Hb' Hq). by rewrite Hl, Hlq.
    + split; [congruence|]. split; [lia|]. split; [done|]. intros w. rewrite Hw', Hw1, Hev. done.
  - by left.
  - lia.
  - intros c e' Hc He' Hc1 He1. pose proof (cnt_nonneg _ _ _ Hc). pose proof (cnt_nonneg _ _ _ He').
    apply union_slot_ok; [apply u32_modular| |done|done|lia]. intros h' ->. apply IH; lia.
Qed.

End Union.

(** ** Difference *)

Definition diff_with {V} (x y : option V) : option V := match y with Some _ => None | None => x end.

Section Difference.
Context {V : Type} `{EqDecision V}.
Notation node := (imap_node V).
Implicit Types (d e n : node).

Definition difference_node_ok (t : bool) (h f : nat) : Prop := forall d e dns ens,
  blk t h d dns -> blk t h e ens -> nd_sz d + nd_sz e < 4294967296 ->
  forall s, runs 0 (imap__difference_inplace f d e) s (fun d' s' =>
    wf t (S h) (prune d') /\ block_merged (S h) diff_with false d e (prune d') s s' /\ nd_sz (prune d') = nd_sz d').

Lemma difference_slot_ok u t h f d e :
  modular u -> (forall h', h = S h' -> difference_node_ok t h' f) ->
  wf t h d -> wf t h e -> nd_sz d + nd_sz e < 4294967296 ->
  slot_step u t h diff_with false 0 d e (difference_slot (imap__difference_inplace f) u e d).
Proof.
  intros Hu Hrec Hd He Hsz. pose proof (wf_sz _ _ _ He).
  unfold difference_slot. apply slot_step_intro; [done|done|..].
  - destruct (nd_data e) as [v|] eqn:Ee, (nd_data d) as [v'|] eqn:Ed.
    + data_case d Ee Ed [Decref v'] (-1).
    + data_case d Ee Ed (@nil (ref_event V)) 0.
    + data_case d Ee Ed (@nil (ref_event V)) 0.
    + data_case d Ee Ed (@nil (ref_event V)) 0.
  - destruct (nd_nodes e) as [ens|] eqn:Ee; [destruct (nd_nodes d) as [dns|] eqn:Ed|].
    + destruct (block_sz _ _ _ _ He Ee) as (h' & -> & Hbe). pose proof (wf_blk _ _ _ _ Hd Ed) as Hbd.
      apply (block_step_rec u t (S h') diff_with false d e (imap__difference_inplace f) prune
               (fun sz d' => sz - (nd_sz d - nd_sz d'))); [done|intros; lia| |].
      * intros x s. by apply (Hrec h' eq_refl (set_data x d) e dns ens).
      * intros x sz. simpl nd_nodes. by rewrite Ed.
    + intros s sz. simpl nd_nodes. rewrite Ed.
      apply (block_step_same u t h diff_with false 0 d e (fun d sz => mret (d, sz))); try done.
      intros q Hq. rewrite (look_none_nodes h d q) by (done || lia). by destruct (look h e q).
    + apply block_step_same; [done|done| |done|done].
      intros q Hq. by rewrite (look_none_nodes h e q) by (done || lia).
Qed.

Lemma difference_node t h f : (h < f)%nat -> difference_node_ok t h f.
Proof.
  revert f. induction h as [h IH] using lt_wf_ind. intros [|f] Hf d e dns ens Hd He Hsz s; [lia|].
  cbn [imap__difference_inplace].
  assert (sum_list ((fun _ : node => 0%nat) <$> dns) = 0%nat) as <- by (clear; induction dns; [done|cbn in *; lia]).
  eapply runs_mono; [reflexivity| |apply (over_block_spec t h diff_with false (fun _ => 0%nat) _ d dns e ens)]; try done.
  - intros d' s' ((ns' & Hb') & Hm). by apply prune_merged with ns'.
  - right. split; [done|]. by intros [].
  - intros c e' Hc He' Hc1 He1. pose proof (cnt_nonneg _ _ _ Hc). pose proof (cnt_nonneg _ _ _ He').
    apply difference_slot_ok; [apply u32_modular| |done|done|lia]. intros h' ->. apply IH; lia.
Qed.

End Difference.

(** ** Intersection *)

Definition inter_with {V} (x y : option V) : option V := match y with Some _ => x | None => None end.

(** The callback that releases a pointer. *)
Section Intersection.
Context {V : Type} `{EqDecision V}.
Notation node := (imap_node V).
Implicit Types (d e n : node).

Definition intersection_node_ok (t : bool) (h f : nat) : Prop := forall d e dns ens,
  blk t h d dns -> blk t h e ens -> nd_sz d + nd_sz e < 4294967296 ->
  forall s, runs 0 (imap__intersection_inplace f release d e) s (fun d' s' =>
    wf t (S h) d' /\ block_merged (S h) inter_with false d e d' s s').

Lemma intersection_slot_ok u t h f d e :
  modular u -> (h <= f)%nat -> (forall h', h = S h' -> intersection_node_ok t h' f) ->
  wf t h d -> wf t h e -> nd_sz d + nd_sz e < 4294967296 ->
  slot_step u t h inter_with false 0 d e
    (intersection_slot (imap__intersection_inplace f release) f release u e d).
Proof.
  intros Hu Hf Hrec Hd He Hsz. pose proof (wf_sz _ _ _ He).
  unfold intersection_slot. apply slot_step_intro; [done|done|..].
  - destruct (nd_data e) as [v|] eqn:Ee, (nd_data d) as [v'|] eqn:Ed.
    + data_case d Ee Ed (@nil (ref_event V)) 0.
    + data_case d Ee Ed (@nil (ref_event V)) 0.
    + data_case d Ee Ed [Callback v'] (-1).
    + data_case d Ee Ed (@nil (ref_event V)) 0.
  - destruct (nd_nodes d) as [dns|] eqn:Ed; [destruct (nd_nodes e) as [ens|] eqn:Ee|].
    + destruct (block_sz _ _ _ _ He Ee) as (h' & -> & Hbe). pose proof (wf_blk _ _ _ _ Hd Ed) as Hbd.
      apply (block_step_rec u t (S h') inter_with false d e (imap__intersection_inplace f release) id
               (fun sz d' => sz - (nd_sz d - nd_sz d'))); [done|intros; lia| |].
      * intros x s. eapply runs_mono; [reflexivity| |by apply (Hrec h' eq_refl (set_data x d) e dns ens)].
        by intros d' s' [Hw Hm].
      * intros x sz. simpl nd_nodes. by rewrite Ed.
    + destruct (block_sz _ _ _ _ Hd Ed) as (h' & -> & Hbd). intros s sz. simpl nd_nodes. rewrite Ed. intros _.
      set (x := inter_with (nd_data d) (nd_data e)).
      assert (wf t (S h') (set_data x d)) as Hdx by by apply wf_set_data.
      pose proof (destroy_node t h' f release (set_data x d) dns s Hf Hdx Ed) as Hds.
      unfold release in Hds at 2. rewrite run_all_emit in Hds.
      eexists _, _. rewrite (IM_bind_Some _ _ _ _ _ Hds). split; [done|]. cbn [mem]. split; [lia|]. cbn [fst snd].
      split; [done|]. split; [|split].
      * split; [done|]. split; [simpl; pose proof (wf_sz _ _ _ Hd); lia|]. split.
        -- intros q Hq. rewrite (look_none_nodes (S h') e q) by (done || lia). apply look_none_nodes; [done|lia].
        -- intros w. cbn [evs]. rewrite evw_app, evw_callbacks, (lw_block w t) by (by destruct Hbd as (_ & _ & _ & ? & _)).
           rewrite (wt_block w h' (set_data x d) dns) by done. simpl. lia.
      * simpl nd_sz. rewrite modular_idem by done. f_equal.
      * right. by eexists.
    + intros s sz. simpl nd_nodes. rewrite Ed.
      apply (block_step_same u t h inter_with false 0 d e (fun d sz => mret (d, sz))); try done.
      intros q Hq. rewrite (look_none_nodes h d q) by (done || lia). by destruct (look h e q).
Qed.

Lemma intersection_node t h f : (h < f)%nat -> intersection_node_ok t h f.
Proof.
  revert f. induction h as [h IH] using lt_wf_ind. intros [|f] Hf d e dns ens Hd He Hsz s; [lia|].
  cbn [imap__intersection_inplace].
  assert (sum_list ((fun _ : node => 0%nat) <$> dns) + 0 = 0)%nat as <-
    by (clear; induction dns; [done|cbn in *; lia]).
  apply runs_bind.
  eapply runs_mono; [reflexivity| |apply (over_block_spec t h inter_with false (fun _ => 0%nat) _ d dns e ens)]; try done.
  - intros d' s' ((ns' & Hb') & Hm). apply runs_ret.
    by destruct (prune_merged _ _ _ _ _ _ _ _ _ _ Hb' Hm) as (? & ? & _).
  - right. split; [done|]. by intros [].
  - intros c e' Hc He' Hc1 He1. pose proof (cnt_nonneg _ _ _ Hc). pose proof (cnt_nonneg _ _ _ He').
    apply intersection_slot_ok; [apply u32_modular|lia| |done|done|lia]. intros h' ->. apply IH; lia.
Qed.

End Intersection.

(** ** Symmetric difference *)

Definition symm_with {V} (x y : option V) : option V :=
  match x, y with Some _, Some _ => None | Some _, None => x | None, _ => y end.

Section Symmdiff.
Context {V : Type} `{EqDecision V}.
Notation node := (imap_node V).
Implicit Types (d e n : node).

Definition symmdiff_node_ok (t : bool) (h f : nat) : Prop := forall d e dns ens,
  blk t h d dns -> blk t h e ens -> nd_sz d + nd_sz e < 4294967296 ->
  forall s, runs (blocks (S h) d) (imap__symmdiff_move f release d e) s (fun d' s' =>
    wf t (S h) d' /\ block_merged (S h) symm_with true d e d' s s').

Lemma symmdiff_slot_ok u t h f d e :
  modular u -> (forall h', h = S h' -> symmdiff_node_ok t h' f) ->
  wf t h d -> wf t h e -> nd_sz d + nd_sz e < 4294967296 ->
  slot_step u t h symm_with true (blocks h d) d e (symmdiff_slot (imap__symmdiff_move f release) release u e d).
Proof.
  intros Hu Hrec Hd He Hsz. pose proof (wf_sz _ _ _ He).
  unfold symmdiff_slot. apply slot_step_intro; [done|done|..].
  - destruct (nd_data e) as [v|] eqn:Ee, (nd_data d) as [v'|] eqn:Ed.
    + data_case d Ee Ed [Callback v; Decref v'] (-1).
    + data_case d Ee Ed (@nil (ref_event V)) 1.
    + data_case d Ee Ed (@nil (ref_event V)) 0.
    + data_case d Ee Ed (@nil (ref_event V)) 0.
  - destruct (nd_nodes e) as [ens|] eqn:Ee; [destruct (nd_nodes d) as [dns|] eqn:Ed|].
    + destruct (block_sz _ _ _ _ He Ee) as (h' & -> & Hbe). pose proof (wf_blk _ _ _ _ Hd Ed) as Hbd.
      apply (block_step_rec u t (S h') symm_with true d e (imap__symmdiff_move f release) id
               (fun sz d' => sz + (nd_sz d' - nd_sz d))); [done|done| |].
      * intros x s. eapply runs_mono; [reflexivity| |by apply (Hrec h' eq_refl (set_data x d) e dns ens)].
        by intros d' s' [Hw Hm].
      * intros x sz. simpl nd_nodes. by rewrite Ed.
    + apply (block_step_moved u t h symm_with _ d e ens); try done.
      intros x sz. simpl nd_nodes. by rewrite Ed.
    + apply block_step_same; [done|done| |done|by intros d' sz; destruct (nd_nodes d')].
      intros q Hq. rewrite (look_none_nodes h e q) by (done || lia). by destruct (look h d q).
Qed.

Lemma symmdiff_node t h f : (h < f)%nat -> symmdiff_node_ok t h f.
Proof.
  revert f. induction h as [h IH] using lt_wf_ind. intros [|f] Hf d e dns ens Hd He Hsz s; [lia|].
  cbn [imap__symmdiff_move]. pose proof Hd as (Ed & _).
  replace (blocks (S h) d) with (1 + (sum_list (blocks h <$> dns) + 0))%nat by (simpl; rewrite Ed; lia).
  apply runs_bind. eapply runs_mono; [reflexivity| |by apply (grow_for_spec t h d dns e ens)].
  intros d1 s1 (Hev & Hdata & Hsz1 & (ns1 & Hb1 & Hsum) & Hcov & Hl1 & Hw1). rewrite <- Hsum. apply runs_bind.
  eapply runs_mono; [reflexivity| |apply (over_block_spec t h symm_with true (blocks h) _ d1 ns1 e ens)]; try done.
  - intros d' s' ((ns' & Hb') & Hm). apply runs_ret.
    destruct (prune_merged _ _ _ _ _ _ _ _ _ _ Hb' Hm) as (Hwf & (Hd' & Hs' & Hl' & Hw') & _). split; [done|].
    split; [congruence|]. split; [lia|]. split.
    + intros q Hq. by rewrite Hl', Hl1.
    + intros w. rewrite Hw', Hw1, Hev. done.
  - by left.
  - lia.
  - intros c e' Hc He' Hc1 He1. pose proof (cnt_nonneg _ _ _ Hc). pose proof (cnt_nonneg _ _ _ He').
    apply symmdiff_slot_ok; [apply u32_modular| |done|done|lia]. intros h' ->. apply IH; lia.
Qed.

End Symmdiff.

(** ** Whole maps *)

Section Maps.
Context {V : Type} `{EqDecision V}.
Implicit Types (m dest other : imap V).

Definition root_blocks m : nat := sum_list (blocks IMAP_HEIGHT <$> im_nodes m).
Definition empty_imap : imap V := Imap 0 (replicate 32 imap__empty_node).

(** The outcome of a set operation. *)
Definition combined (t : bool) (f : option V -> option V -> option V) (take : bool) dest other dest'
    (s s' : ist V) : Prop :=
  imap_ok t dest' /\ to_map dest' = merge f (to_map dest) (to_map other) /\
  forall w, mw w dest' + evw w (evs s') = mw w dest + (if take then mw w other else 0) + evw w (evs s).

Lemma empty_items t m : imap_ok t m -> im_n m = 0 -> root_items m = [].
Proof. intros Hm E. pose proof (length_root_items t m Hm). destruct (root_items m); [done|simpl in *; lia]. Qed.

Lemma combined_same t f (take : bool) dest other s :
  imap_ok t dest -> imap_ok t other -> im_n other = 0 -> (forall x, f x None = x) -> combined t f take dest other dest s s.
Proof.
  intros Hd Ho E Hf. pose proof (empty_items t other Ho E) as Hi. split; [done|]. split.
  - apply map_eq. intros id. rewrite lookup_merge.
    replace (to_map other) with (∅ : gmap Z V) by (unfold to_map; by rewrite Hi).
    rewrite lookup_empty. unfold diag_None. destruct (to_map dest !! id); [by rewrite Hf|done].
  - intros w. unfold mw at 3. rewrite Hi. destruct take; simpl; lia.
Qed.

Lemma height_slot f (h : nat) : IMAP_FUEL = f -> IMAP_HEIGHT = S h -> (h < f)%nat.
Proof. pose proof IMAP_FUEL_S. lia. Qed.

Lemma imap_union_move_spec t dest other s :
  imap_ok t dest -> imap_ok t other -> im_n dest + im_n other < 4294967296 ->
  runs (root_blocks dest) (imap_union_move dest other) s (fun r s' =>
    r.2 = empty_imap /\ combined t union_with true dest other r.1 s s').
Proof.
  intros Hd Ho Hn. unfold imap_union_move. rewrite <- (Nat.add_0_r (root_blocks dest)). apply runs_bind.
  destruct (Z.eqb_spec (im_n other) 0) as [E|E].
  - apply (runs_mono 0 _ _ _ _ _ (Nat.le_0_l _) (fun _ _ H => H)), runs_ret, runs_ret.
    split; [done|]. apply combined_same; try done. by intros [].
  - eapply runs_mono; [reflexivity| |apply (over_root_spec t union_with true (blocks IMAP_HEIGHT))]; try done.
    + intros m' s' Hm. by apply runs_ret.
    + intros c e Hc He Hce. pose proof (cnt_nonneg _ _ _ Hc). pose proof (cnt_nonneg _ _ _ He).
      apply union_slot_ok; [apply u64_modular| |done|done|lia]. intros h' Eh. apply union_node. by apply height_slot.
Qed.

Lemma imap_difference_inplace_spec t dest other s :
  imap_ok t dest -> imap_ok t other -> im_n dest + im_n other < 4294967296 ->
  runs 0 (imap_difference_inplace dest other) s (fun m' s' => combined t diff_with false dest other m' s s').
Proof.
  intros Hd Ho Hn. unfold imap_difference_inplace. destruct (Z.eqb_spec (im_n other) 0) as [E|E].
  - apply runs_ret, combined_same; done.
  - eapply runs_mono; [| |apply (over_root_spec t diff_with false (fun _ => 0%nat)); try done]; [|done|].
    + generalize (im_nodes dest). intros l. induction l; cbn in *; lia.
    + intros c e Hc He Hce. pose proof (cnt_nonneg _ _ _ Hc). pose proof (cnt_nonneg _ _ _ He).
      apply difference_slot_ok; [apply u64_modular| |done|done|lia]. intros h' Eh. apply difference_node. by apply height_slot.
Qed.

Lemma imap_intersection_inplace_spec t dest other s :
  imap_ok t dest -> imap_ok t other -> im_n dest + im_n other < 4294967296 ->
  runs 0 (imap_intersection_inplace dest other release) s (fun m' s' => combined t inter_with false dest other m' s s').
Proof.
  intros Hd Ho Hn. unfold imap_intersection_inplace.
  eapply runs_mono; [| |apply (over_root_spec t inter_with false (fun _ => 0%nat)); try done]; [|done|].
  - generalize (im_nodes dest). intros l. induction l; cbn in *; lia.
  - intros c e Hc He Hce. pose proof (cnt_nonneg _ _ _ Hc). pose proof (cnt_nonneg _ _ _ He).
    apply intersection_slot_ok; [apply u64_modular|apply height_fuel| |done|done|lia].
    intros h' Eh. apply intersection_node. by apply height_slot.
Qed.

Lemma imap_symmdiff_move_spec t dest other s :
  imap_ok t dest -> imap_ok t other -> im_n dest + im_n other < 4294967296 ->
  runs (root_blocks dest) (imap_symmdiff_move dest other release) s (fun r s' =>
    r.2 = empty_imap /\ combined t symm_with true dest other r.1 s s').
Proof.
  intros Hd Ho Hn. unfold imap_symmdiff_move. rewrite <- (Nat.add_0_r (root_blocks dest)). apply runs_bind.
  destruct (Z.eqb_spec (im_n other) 0) as [E|E].
  - apply (runs_mono 0 _ _ _ _ _ (Nat.le_0_l _) (fun _ _ H => H)), runs_ret, runs_ret.
    split; [done|]. apply combined_same; try done. by intros [].
  - eapply runs_mono; [reflexivity| |apply (over_root_spec t symm_with true (blocks IMAP_HEIGHT))]; try done.
    + intros m' s' Hm. by apply runs_ret.
    + intros c e Hc He Hce. pose proof (cnt_nonneg _ _ _ Hc). pose proof (cnt_nonneg _ _ _ He).
      apply symmdiff_slot_ok; [apply u64_modular| |done|done|lia]. intros h' Eh. apply symmdiff_node. by apply height_slot.
Qed.

End Maps.
