(* ===== verification/ImapEq.v ===== *)
(** * Comparing id maps

    [imap__eq] compares two blocks; when the sizes of the blocks are equal the
    answer is right. [imap_eq] does not compare the sizes of the root's blocks:
    it never rejects equal maps, and accepts only equal ones when these sizes
    agree. *)
From Stdlib Require Import ZArith Lia.
From stdpp Require Import base list option numbers sets gmap.
From S2P Require Import Prelude Mem Imap ImapProof ImapMap ImapWalk ImapSets.

(** A defined answer that is sound for [S] and complete for [C]. *)
Definition judge (o : option bool) (S C : Prop) : Prop :=
  exists b, o = Some b /\ (b = true -> S) /\ (C -> b = true).

Lemma judge_mono o S C S' C' : (S -> S') -> (C' -> C) -> judge o S C -> judge o S' C'.
Proof. intros HS HC (b & E & Hb & Hc). exists b. split; [done|]. auto. Qed.

Section Eq.
Context {V : Type} `{EqDecision V}.
Notation node := (imap_node V).
Implicit Types (a b c x y n : node) (ns xs ys : list node) (m : imap V).

Definition same_look (h : nat) x y : Prop := forall q, 0 <= q -> look h x q = look h y q.

(** Slots with the same items have the same number of them. *)
Lemma same_cnt t h x y : wf t h x -> wf t h y -> same_look h x y -> cnt x = cnt y.
Proof.
  intros Hx Hy Hl. rewrite <- (length_items t h x), <- (length_items t h y) by done.
  f_equal. apply Permutation_length. pose proof (NoDup_items t h x Hx). pose proof (NoDup_items t h y Hy).
  apply NoDup_Permutation; [by eapply NoDup_fmap_1|by eapply NoDup_fmap_1|].
  intros [q v]. rewrite !(elem_items t) by done.
  split; intros [Hq E]; (split; [done|]); [rewrite <- Hl|rewrite Hl]; done.
Qed.

Lemma eq_slot_judge t h (rec : node -> node -> option bool) x y :
  wf t h x -> wf t h y ->
  (forall h' nsx nsy, h = S h' -> blk t h' x nsx -> blk t h' y nsy -> nd_sz x = nd_sz y ->
     judge (rec x y) (forall q, 0 < q -> look h x q = look h y q)
       (t = true /\ forall q, 0 < q -> look h x q = look h y q)) ->
  judge (eq_slot rec x y) (same_look h x y) (t = true /\ same_look h x y).
Proof.
  intros Hx Hy Hrec. unfold eq_slot.
  destruct (Z.eqb_spec (nd_sz x) (nd_sz y)) as [Es|Es]; cbn [negb orb].
  2: { exists false. split; [done|]. split; [done|]. intros [_ Hl]. exfalso. apply Es.
       pose proof (same_cnt t h x y Hx Hy Hl) as Hc. pose proof (Hl 0 ltac:(lia)) as H0.
       rewrite !look_0 in H0. unfold cnt in Hc. rewrite H0 in Hc. lia. }
  case_bool_decide as Ed; cbn [negb].
  2: { exists false. split; [done|]. split; [done|]. intros [_ Hl]. exfalso. apply Ed.
       pose proof (Hl 0 ltac:(lia)) as H0. by rewrite !look_0 in H0. }
  assert (forall q, q = 0 -> look h x q = look h y q) as H0 by (intros q ->; by rewrite !look_0).
  destruct (nd_nodes x) as [nsx|] eqn:Ex, (nd_nodes y) as [nsy|] eqn:Ey.
  - destruct (block_sz _ _ _ _ Hx Ex) as (h' & Eh & Hbx). subst h.
    eapply judge_mono; [| |by apply (Hrec h' nsx nsy eq_refl Hbx (wf_blk _ _ _ _ Hy Ey))].
    + intros Hl q Hq. destruct (Z.eq_dec q 0); [by apply H0|]. apply Hl. lia.
    + intros [Ht Hl]. split; [done|]. intros q Hq. apply Hl. lia.
  - exists false. split; [done|]. split; [done|]. intros [-> Hl]. exfalso.
    destruct (block_sz _ _ _ _ Hx Ex) as (h' & -> & Hbx). simpl in Hx. rewrite Ex in Hx.
    destruct Hx as (_ & _ & _ & _ & Hp). pose proof (nodes_none_sz _ _ _ Hy Ey). specialize (Hp eq_refl). lia.
  - exists false. split; [done|]. split; [done|]. intros [-> Hl]. exfalso.
    destruct (block_sz _ _ _ _ Hy Ey) as (h' & -> & Hby). simpl in Hy. rewrite Ey in Hy.
    destruct Hy as (_ & _ & _ & _ & Hp). pose proof (nodes_none_sz _ _ _ Hx Ex). specialize (Hp eq_refl). lia.
  - exists true. split; [done|]. split; [|done]. intros _ q Hq.
    destruct (Z.eq_dec q 0); [by apply H0|]. by rewrite !look_none_nodes.
Qed.

Lemma eq_loop_judge (test : node -> node -> option bool) (S C : node -> node -> Prop) xs ys :
  Forall2 (fun x y => judge (test x y) (S x y) (C x y)) xs ys ->
  judge (eq_loop test xs ys) (Forall2 S xs ys) (Forall2 C xs ys).
Proof.
  induction 1 as [|x y xs ys (b & E & Hs & Hc) Hf (b' & E' & Hs' & Hc')]; cbn [eq_loop].
  - exists true. done.
  - rewrite E. cbn [mbind option_bind]. destruct b.
    + exists b'. split; [done|]. split; [intros Hb; constructor; auto|].
      intros HC. inversion HC; subst. auto.
    + exists false. split; [done|]. split; [done|]. intros HC. inversion HC; subst. auto.
Qed.

(** The comparison of a full block with the single child [y] at [key]. *)
Lemma single_loop_judge (test : node -> node -> option bool) (S C : node -> Prop) key y i xs :
  (forall j x, xs !! j = Some x -> key = i + Z.of_nat j -> judge (test x y) (S x) (C x)) ->
  judge (single_loop test key y i xs)
    (forall j x, xs !! j = Some x -> if key =? i + Z.of_nat j then S x else nd_sz x = 0)
    (forall j x, xs !! j = Some x -> if key =? i + Z.of_nat j then C x else nd_sz x = 0).
Proof.
  revert i. induction xs as [|x xs IH]; intros i Htest; cbn [single_loop]; [by exists true|].
  destruct (IH (i + 1)) as (b' & E' & Hs' & Hc').
  { intros j x' Hj Ej. apply (Htest (Datatypes.S j)); [done|lia]. }
  assert (judge (if key =? i then test x y else Some (nd_sz x =? 0))
    (if key =? i then S x else nd_sz x = 0) (if key =? i then C x else nd_sz x = 0)) as (b & E & Hs & Hc).
  { destruct (Z.eqb_spec key i) as [->|].
    - apply (Htest 0%nat); [done|lia].
    - exists (nd_sz x =? 0). split; [done|]. split; [apply Z.eqb_eq|intros ->; done]. }
  rewrite E. cbn [mbind option_bind]. destruct b.
  - exists b'. split; [done|]. split.
    + intros Hb [|j] x' Hj; [injection Hj as <-; rewrite Z.add_0_r; by apply Hs|].
      replace (i + Z.of_nat (Datatypes.S j)) with (i + 1 + Z.of_nat j) by lia. by apply Hs'.
    + intros HC. apply Hc'. intros j x' Hj. specialize (HC (Datatypes.S j) x' Hj).
      by replace (i + 1 + Z.of_nat j) with (i + Z.of_nat (Datatypes.S j)) by lia.
  - exists false. split; [done|]. split; [done|]. intros HC. apply Hc.
    specialize (HC 0%nat x eq_refl). by rewrite Z.add_0_r in HC.
Qed.

Lemma total_single t h ns i x j x' :
  Forall (wf t h) ns -> ns !! i = Some x -> total ns = cnt x -> j <> i -> ns !! j = Some x' -> cnt x' = 0.
Proof.
  intros Hf Hi Ht Hj Hx'.
  assert (Forall (wf t h) (<[i := imap__empty_node]> ns)) as Hf' by (apply Forall_insert; [done|apply wf_empty]).
  pose proof (total_insert ns i x imap__empty_node Hi) as Ht'. rewrite cnt_empty in Ht'.
  assert (<[i := imap__empty_node]> ns !! j = Some x') as Hx by (by rewrite list_lookup_insert_ne).
  pose proof (total_lookup _ _ _ _ _ Hf' Hx). lia.
Qed.

Lemma none_cnt0 t h c : wf t h c -> (forall q, 0 <= q -> look h c q = None) -> cnt c = 0.
Proof.
  intros Hw Hl. pose proof (cnt_nonneg _ _ _ Hw). destruct (Z.eq_dec (cnt c) 0); [done|].
  destruct (nonempty_look t h c Hw) as (q & v & Hq & E); [lia|]. by rewrite Hl in E.
Qed.

Definition same_block (h : nat) a b : Prop := forall q, 0 < q -> look h a q = look h b q.

(** Single blocks. *)
Lemma look_single t h a y q :
  blk t h a [y] -> nd_key a <> 32 -> 0 < q ->
  look (S h) a q = if (q - 1) mod 32 =? nd_key a then look h y ((q - 1) / 32) else None.
Proof.
  intros (Hns & _) Hk Hq. rewrite look_S, (proj2 (Z.eqb_neq q 0)) by lia. unfold kid, imap__get_node, IMAP_NODE_SZ.
  rewrite Hns, (proj2 (Z.eqb_neq _ _) Hk), Z.eqb_sym. cbn [mbind option_bind].
  by destruct (_ =? nd_key a).
Qed.

Lemma look_full_mod t h n ns q :
  blk t h n ns -> nd_key n = 32 -> 0 < q ->
  exists c, ns !! Z.to_nat ((q - 1) mod 32) = Some c /\ look (S h) n q = look h c ((q - 1) / 32).
Proof.
  intros (Hns & _ & Hlen & _) Hk Hq. rewrite Hk in Hlen. pose proof (Z.mod_pos_bound (q - 1) 32 eq_refl).
  destruct (lookup_lt_is_Some_2 ns (Z.to_nat ((q - 1) mod 32))) as [c Hc]; [simpl in Hlen; lia|].
  exists c. split; [done|]. rewrite look_S, (proj2 (Z.eqb_neq q 0)) by lia.
  unfold kid, imap__get_node, IMAP_NODE_SZ. rewrite Hns, Hk. cbn. by rewrite Hc.
Qed.

Lemma single_full_judge t h (test : node -> node -> option bool) n nsn a y :
  blk t h n nsn -> nd_key n = 32 -> blk t h a [y] -> nd_key a <> 32 ->
  (forall x, x ∈ nsn -> judge (test x y) (same_look h x y) (t = true /\ same_look h x y)) ->
  judge (single_loop test (nd_key a) y 0 nsn)
    (nd_sz n = nd_sz a -> same_block (S h) n a) (t = true /\ same_block (S h) n a).
Proof.
  intros Hn Hkn Ha Hka Htest. pose proof Hn as (Hnn & _ & Hlen & Hfn & Htn). rewrite Hkn in Hlen. simpl in Hlen.
  pose proof Ha as (_ & Hkey & _ & Hfa & Hta). simpl in Hta. rewrite Z.add_0_r in Hta.
  assert (wf t h y) as Hy by (by inversion Hfa).
  eapply judge_mono; [| |apply (single_loop_judge test (fun x => same_look h x y)
    (fun x => t = true /\ same_look h x y))].
  - intros HS Hsz q Hq. rewrite (look_single t h a y) by done.
    destruct (look_full_mod t h n nsn q Hn Hkn Hq) as (c & Hc & ->).
    pose proof (Z.mod_pos_bound (q - 1) 32 eq_refl). assert (0 <= (q - 1) / 32) by (apply Z.div_pos; lia).
    pose proof (HS _ _ Hc) as Hs. rewrite Z.add_0_l, Z2Nat.id in Hs by lia.
    destruct (Z.eqb_spec ((q - 1) mod 32) (nd_key a)) as [E|E].
    + rewrite E, Z.eqb_refl in Hs. by apply Hs.
    + destruct (lookup_lt_is_Some_2 nsn (Z.to_nat (nd_key a))) as [x Hx]; [lia|].
      pose proof (HS _ _ Hx) as Hsx. rewrite Z.add_0_l, Z2Nat.id, Z.eqb_refl in Hsx by lia.
      pose proof (Forall_lookup_1 _ _ _ _ Hfn Hx) as Hwx. pose proof (same_cnt t h x y Hwx Hy Hsx).
      apply (look_cnt0 t); [exact (Forall_lookup_1 _ _ _ _ Hfn Hc)|].
      apply (total_single t h nsn (Z.to_nat (nd_key a)) x (Z.to_nat ((q - 1) mod 32))); try done; lia.
  - intros [Ht Hl] j x Hj. rewrite Z.add_0_l. pose proof (lookup_lt_Some _ _ _ Hj).
    assert (forall q, 0 <= q -> look h x q = if Z.of_nat j =? nd_key a then look h y q else None) as Hq.
    { intros q Hq. rewrite <- (look_full t h n nsn j x q), Hl by (done || lia).
      rewrite (look_single t h a y) by (done || lia).
      replace (32 * q + Z.of_nat j + 1 - 1) with (Z.of_nat j + q * 32) by lia.
      by rewrite Z.mod_add, Z.div_add, Z.mod_small, Z.div_small by lia. }
    rewrite Z.eqb_sym in Hq. destruct (nd_key a =? Z.of_nat j); [split; [done|exact Hq]|].
    pose proof (Forall_lookup_1 _ _ _ _ Hfn Hj) as Hwx. pose proof (none_cnt0 t h x Hwx Hq).
    pose proof (cnt_nonneg _ _ _ Hwx). lia.
  - intros j x Hj _. apply Htest. by eapply list_elem_of_lookup_2.
Qed.

(** Blocks with the same shape. *)
Lemma same_shape t h a b nsa nsb :
  blk t h a nsa -> blk t h b nsb -> nd_key a = nd_key b ->
  Forall2 (same_look h) nsa nsb <-> same_block (S h) a b.
Proof.
  intros Ha Hb Hk. pose proof Ha as (Hna & Hka & Hla & _). pose proof Hb as (Hnb & _ & Hlb & _).
  assert (length nsa = length nsb) as Hlen by (rewrite Hla, Hlb, Hk; done).
  assert (first_index a = first_index b) as Hfi by (unfold first_index; by rewrite Hk).
  split.
  - intros Hf q Hq. rewrite !look_S, (proj2 (Z.eqb_neq q 0)) by lia.
    pose proof (Z.mod_pos_bound (q - 1) 32 eq_refl) as Hm. assert (0 <= (q - 1) / 32) by (apply Z.div_pos; lia).
    unfold kid. rewrite Hna, Hnb. cbn [mbind option_bind].
    replace (imap__get_node b ((q - 1) mod 32)) with (imap__get_node a ((q - 1) mod 32))
      by (unfold imap__get_node; by rewrite Hk).
    destruct (imap__get_node a _) as [i|]; cbn [mbind option_bind]; [|done].
    destruct (nsa !! i) as [x|] eqn:Hx.
    + destruct (Forall2_lookup_l _ _ _ _ _ Hf Hx) as (y & -> & Hxy). cbn [mbind option_bind]. by apply Hxy.
    + apply lookup_ge_None in Hx. rewrite Hlen in Hx. by rewrite (lookup_ge_None_2 _ _ Hx).
  - intros Hl. apply Forall2_same_length_lookup_2; [done|]. intros j x y Hx Hy q Hq.
    pose proof (first_index_range _ _ _ _ j Ha (lookup_lt_Some _ _ _ Hx)) as Hr.
    specialize (Hl (32 * q + (first_index a + Z.of_nat j) + 1) ltac:(lia)).
    rewrite !look_S, (proj2 (Z.eqb_neq _ 0)) in Hl by lia.
    replace (32 * q + (first_index a + Z.of_nat j) + 1 - 1) with (first_index a + Z.of_nat j + q * 32) in Hl by lia.
    rewrite Z.mod_add, Z.div_add, Z.mod_small, Z.div_small in Hl by lia.
    rewrite (proj2 (kid_index _ _ _ _ _ Ha Hr x)) in Hl by eauto.
    rewrite (proj2 (kid_index _ _ _ _ _ Hb Hr y)) in Hl by (rewrite Hfi; eauto). exact Hl.
Qed.

Lemma same_block_sym h a b : same_block h a b -> same_block h b a.
Proof. intros Hl q Hq. symmetry. by apply Hl. Qed.

Lemma same_look_sym h a b : same_look h a b -> same_look h b a.
Proof. intros Hl q Hq. symmetry. by apply Hl. Qed.

Lemma single_list t h n ns : blk t h n ns -> nd_key n <> 32 -> exists y, ns = [y].
Proof.
  intros (_ & _ & Hlen & _) Hk. rewrite (proj2 (Z.eqb_neq _ _) Hk) in Hlen.
  destruct ns as [|y [|]]; try done. by exists y.
Qed.

Lemma wf_pos h c ns : wf true (S h) c -> nd_nodes c = Some ns -> 0 < nd_sz c.
Proof. simpl. intros Hw Hns. rewrite Hns in Hw. destruct Hw as (_ & _ & _ & _ & Hp). by apply Hp. Qed.

(** Single blocks for different children have no item in common. *)
Lemma different_singles h a y b z :
  blk true h a [y] -> blk true h b [z] -> nd_key a <> 32 -> nd_key b <> 32 -> nd_key a <> nd_key b ->
  0 < nd_sz a -> ~ same_block (S h) a b.
Proof.
  intros Ha Hb Hka Hkb Hab Hpos Hl.
  destruct (block_nonempty true (S h) a) as (q & v & Hq & Hlq); [by apply blk_wf with [y]|done|].
  pose proof Hlq as Hlq'. rewrite Hl in Hlq' by done.
  rewrite (look_single true h a y) in Hlq by done. rewrite (look_single true h b z) in Hlq' by done.
  destruct (Z.eqb_spec ((q - 1) mod 32) (nd_key a)), (Z.eqb_spec ((q - 1) mod 32) (nd_key b)); congruence.
Qed.

Lemma eq_node t h f a b nsa nsb :
  (h < f)%nat -> blk t h a nsa -> blk t h b nsb -> (t = true -> 0 < nd_sz a) ->
  judge (imap__eq f a b) (nd_sz a = nd_sz b -> same_block (S h) a b) (t = true /\ same_block (S h) a b).
Proof.
  revert f a b nsa nsb. induction h as [h IH] using lt_wf_ind. intros [|f] a b nsa nsb Hf Ha Hb Hpos; [lia|].
  pose proof Ha as (Hna & _ & _ & Hfa & _). pose proof Hb as (Hnb & _ & _ & Hfb & _).
  assert (forall x y, wf t h x -> wf t h y ->
    judge (eq_slot (imap__eq f) x y) (same_look h x y) (t = true /\ same_look h x y)) as Htest.
  { intros x y Hx Hy. apply eq_slot_judge; [done|done|]. intros h' nsx nsy -> Hbx Hby Hsz.
    eapply judge_mono; [|exact (fun H => H)|apply (IH h' ltac:(lia) f x y nsx nsy); [lia|done|done|]].
    - intros Hl. by apply Hl.
    - intros ->. destruct Hbx as (Ex & _). by eapply wf_pos. }
  rewrite Forall_forall in Hfa, Hfb. cbn [imap__eq]. rewrite Hna, Hnb. cbn [mbind option_bind].
  destruct (Z.eqb_spec (nd_key a) (nd_key b)) as [Ek|Ek].
  { eapply judge_mono; [| |apply (eq_loop_judge _ (same_look h) (fun x y => t = true /\ same_look h x y))].
    - intros Hl _. by apply (same_shape t h a b nsa nsb).
    - intros [Ht Hl%(same_shape t h a b nsa nsb)]; try done. eapply Forall2_impl; [done|]. done.
    - apply Forall2_same_length_lookup_2.
      + destruct Ha as (_ & _ & -> & _), Hb as (_ & _ & -> & _). by rewrite Ek.
      + intros j x y Hx Hy. apply Htest; [apply Hfa|apply Hfb]; by eapply list_elem_of_lookup_2. }
  change IMAP_NODE_SZ with 32. destruct (Z.eqb_spec (nd_key b) 32) as [Eb|Eb].
  { destruct (single_list _ _ _ _ Ha ltac:(congruence)) as [y ->]. cbn [lookup list_lookup mbind option_bind].
    eapply judge_mono; [| |apply (single_full_judge t h _ b nsb a y); try done; [congruence|]].
    - intros Hl Hsz. apply same_block_sym. by apply Hl.
    - intros [Ht Hl]. split; [done|]. by apply same_block_sym.
    - intros x Hx. apply Htest; [by apply Hfb|]. apply Hfa. left. }
  destruct (Z.eqb_spec (nd_key a) 32) as [Ea|Ea]; cbn [negb].
  { destruct (single_list _ _ _ _ Hb Eb) as [y ->]. cbn [lookup list_lookup mbind option_bind].
    apply (single_full_judge t h _ a nsa b y); try done.
    intros x Hx. apply Htest; [by apply Hfa|]. apply Hfb. left. }
  exists false. split; [done|]. split; [done|]. intros [-> Hl]. exfalso.
  destruct (single_list _ _ _ _ Ha Ea) as [y ->]. destruct (single_list _ _ _ _ Hb Eb) as [z ->].
  by apply (different_singles h a y b z Ha Hb Ea Eb Ek (Hpos eq_refl)).
Qed.

(** [differs] decides whether the blocks of two nodes differ. *)
Lemma differs_spec t h f x y nsx nsy :
  (h < f)%nat -> blk t h x nsx -> blk t h y nsy -> (t = true -> 0 < nd_sz x) ->
  exists r, differs f x y = Some r /\ (r = false -> same_block (S h) x y) /\
    (r = true -> t = true -> ~ same_block (S h) x y).
Proof.
  intros Hf Hx Hy Hpos. unfold differs. destruct (Z.eqb_spec (nd_sz x) (nd_sz y)) as [Es|Es]; cbn [negb].
  - destruct (eq_node t h f x y nsx nsy Hf Hx Hy Hpos) as (b & -> & Hs & Hc). exists (negb b). split; [done|].
    split; [intros ->%negb_false_iff; by apply Hs|]. intros Hb Ht Hl.
    rewrite Hc in Hb by done. done.
  - exists true. split; [done|]. split; [done|]. intros _ -> Hl. apply Es.
    rewrite <- !cnt_bare. apply (same_cnt true (S h)).
    + apply wf_set_data. by eapply blk_wf.
    + apply wf_set_data. apply blk_wf with nsy; [done|]. intros _.
      destruct (block_nonempty true (S h) x) as (q & v & Hq & Hlq); [by eapply blk_wf|by apply Hpos|].
      apply (block_pos true h y nsy q v); try done. by rewrite <- Hl.
    + intros q Hq. rewrite !look_bare. destruct (Z.eqb_spec q 0); [done|]. apply Hl. lia.
Qed.

(** ** Whole maps *)

Lemma eq_root_judge t x y :
  wf t IMAP_HEIGHT x -> wf t IMAP_HEIGHT y ->
  judge (eq_root x y) (nd_sz x = nd_sz y -> same_look IMAP_HEIGHT x y) (t = true /\ same_look IMAP_HEIGHT x y).
Proof.
  intros Hx Hy. destruct (eq_slot_judge t IMAP_HEIGHT (imap__eq IMAP_FUEL) x y Hx Hy) as (b & E & Hs & Hc).
  { intros h' nsx nsy Eh Hbx Hby Hsz. rewrite Eh in Hx |- *.
    eapply judge_mono; [|exact (fun H => H)|apply (eq_node t h' IMAP_FUEL x y nsx nsy); try done].
    - intros Hl. by apply Hl.
    - pose proof IMAP_FUEL_S. lia.
    - intros ->. destruct Hbx as (Ex & _). by eapply wf_pos. }
  unfold eq_slot in E. unfold eq_root.
  destruct (Z.eqb_spec (nd_sz x) (nd_sz y)) as [Es|Es]; cbn [negb orb] in E.
  - rewrite E. exists b. split; [done|]. split; [intros Hb _; by apply Hs|done].
  - assert (~ (t = true /\ same_look IMAP_HEIGHT x y)) as Hno.
    { intros HC. apply Hc in HC. subst b. done. }
    destruct (negb (bool_decide (nd_data x = nd_data y))).
    { exists false. split; [done|]. split; [done|]. intros HC. by destruct Hno. }
    destruct (nd_nodes x) as [nsx|] eqn:Ex, (nd_nodes y) as [nsy|] eqn:Ey.
    + destruct (block_sz _ _ _ _ Hx Ex) as (h' & Eh & Hbx). rewrite Eh in Hx, Hy.
      destruct (eq_node t h' IMAP_FUEL x y nsx nsy) as (b' & -> & _ & Hc').
      * pose proof IMAP_FUEL_S. lia.
      * done.
      * by apply wf_blk.
      * intros ->. by eapply wf_pos.
      * exists b'. split; [done|]. split; [done|]. intros HC. by destruct Hno.
    + exists false. split; [done|]. split; [done|]. intros HC. by destruct Hno.
    + exists false. split; [done|]. split; [done|]. intros HC. by destruct Hno.
    + exists true. split; [done|]. split; [done|]. done.
Qed.

Lemma same_nodes t m1 m2 :
  imap_ok t m1 -> imap_ok t m2 ->
  Forall2 (same_look IMAP_HEIGHT) (im_nodes m1) (im_nodes m2) <-> to_map m1 = to_map m2.
Proof.
  intros H1 H2. pose proof H1 as (Hl1 & _). pose proof H2 as (Hl2 & _). split.
  - intros Hf. apply map_eq. intros id. rewrite !(to_map_lookup t) by done.
    case_bool_decide as Hid; [|done]. unfold ilook. destruct (root_slot t m1 id H1) as (x & Hx & _).
    destruct (Forall2_lookup_l _ _ _ _ _ Hf Hx) as (y & Hy & Hxy). rewrite Hx, Hy.
    cbn [mbind option_bind]. apply Hxy. by apply Z.div_pos.
  - intros E. apply Forall2_same_length_lookup_2; [congruence|]. intros j x y Hx Hy q Hq.
    rewrite <- (ilook_slot m1 j x q), <- (ilook_slot m2 j y q) by done.
    rewrite <- (to_map_ilook t), <- (to_map_ilook t) by (done || lia). by rewrite E.
Qed.

Lemma imap_eq_judge t m1 m2 :
  imap_ok t m1 -> imap_ok t m2 ->
  judge (imap_eq false m1 m2)
    (Forall2 (fun x y => nd_sz x = nd_sz y) (im_nodes m1) (im_nodes m2) -> to_map m1 = to_map m2)
    (t = true /\ to_map m1 = to_map m2).
Proof.
  intros H1 H2. unfold imap_eq. destruct (Z.eqb_spec (im_n m1) (im_n m2)) as [En|En]; cbn [negb].
  2: { exists false. split; [done|]. split; [done|]. intros [_ E]. exfalso. apply En.
       by rewrite <- (size_to_map t m1), <- (size_to_map t m2), E. }
  destruct (Z.eqb_spec (im_n m1) 0) as [E0|E0].
  { exists true. split; [done|]. split; [|done]. intros _ _. unfold to_map.
    rewrite (empty_items t m1), (empty_items t m2) by (done || lia). done. }
  pose proof H1 as (Hl1 & Hf1 & _). pose proof H2 as (Hl2 & Hf2 & _). unfold imap__eq_.
  eapply judge_mono; [| |apply (eq_loop_judge _ (fun x y => nd_sz x = nd_sz y -> same_look IMAP_HEIGHT x y)
    (fun x y => t = true /\ same_look IMAP_HEIGHT x y))].
  - intros Hl Hsz. apply (same_nodes t); [done|done|]. rewrite Forall2_lookup in Hl, Hsz.
    apply Forall2_same_length_lookup_2; [congruence|]. intros j x y Hx Hy.
    specialize (Hl j). specialize (Hsz j). rewrite Hx, Hy in *. inversion Hl; inversion Hsz; subst. auto.
  - intros [Ht E]. apply (same_nodes t m1 m2) in E; [|done|done]. eapply Forall2_impl; [done|]. done.
  - apply Forall2_same_length_lookup_2; [congruence|]. intros j x y Hx Hy.
    apply eq_root_judge; [exact (Forall_lookup_1 _ _ _ _ Hf1 Hx)|exact (Forall_lookup_1 _ _ _ _ Hf2 Hy)].
Qed.

End Eq.
