(* ===== verification/ImapProps.v ===== *)
(** * Properties of the id map

    The map as a refinement of a finite map, its walks, its set operations and
    comparisons, with the inputs on which the code misbehaves. *)
From Stdlib Require Import ZArith Lia.
From stdpp Require Import base list option numbers sets gmap.
From S2P Require Import Prelude Mem Imap ImapProof ImapMap ImapWalk ImapSets ImapEq.

(** ** The abstract map *)

Inductive icall (V : Type) := CGet (id : Z) | CAdd (id : Z) (v : V) | CSet (id : Z) (v : V) | CPop (id : Z).
Arguments CGet {V}. Arguments CAdd {V}. Arguments CSet {V}. Arguments CPop {V}.

Inductive ireply (V : Type) := RData (o : option V) | RCode (rc : Z).
Arguments RData {V}. Arguments RCode {V}.

Section Refinement.
Context {V : Type} `{EqDecision V}.
Implicit Types (m : imap V) (G : gmap Z V) (c : icall V) (r : ireply V).

(** A call on the implementation. *)
Definition run_call c m : IM V (ireply V * imap V) :=
  match c with
  | CGet id => d ← deref (imap_get m id); mret (RData d, m)
  | CAdd id v => '(rc, m) ← imap_add m id v; mret (RCode rc, m)
  | CSet id v => '(d, m) ← imap_set m id v; mret (RData d, m)
  | CPop id => '(d, m) ← deref (imap_pop m id); mret (RData d, m)
  end.

Definition call_id c : Z := match c with CGet id | CAdd id _ | CSet id _ | CPop id => id end.

(** The map after a call with reply [r]. *)
Definition spec_next G c r : gmap Z V :=
  match c, r with
  | CAdd id v, RCode 0 => <[id := v]> G
  | CSet id v, RData (Some _) => <[id := v]> G
  | CPop id, _ => delete id G
  | _, _ => G
  end.

(** The replies the map allows; [left] is the memory left: an allocation error
    is allowed only when there is none. *)
Definition spec_reply G c (left : nat) r : Prop :=
  match c with
  | CGet id | CPop id => r = RData (G !! id)
  | CAdd id v => match G !! id with
                 | Some _ => r = RCode IMAP_ERR_EXIST
                 | None => r = RCode 0 \/ r = RCode IMAP_ERR_ALLOC /\ left = O
                 end
  | CSet id v => match G !! id with
                 | Some d => r = RData (Some d)
                 | None => r = RData (Some v) \/ r = RData None /\ left = O
                 end
  end.

(** What a caller has to respect: 64-bit ids, fewer than 2^32 - 1 items, and no
    overwriting of a pointer by itself. *)
Definition call_ok G c : Prop :=
  id_ok (call_id c) /\ Z.of_nat (size G) + 1 < 4294967296 /\
  match c with CSet id v => G !! id <> Some v | _ => True end.

Inductive reach : imap V -> gmap Z V -> Prop :=
  | reach_create s m s' : imap_create s = Some (Some m, s') -> reach m ∅
  | reach_call m G c s r m' s' :
      reach m G -> call_ok G c -> run_call c m s = Some ((r, m'), s') -> reach m' (spec_next G c r).

Lemma run_call_spec m c s :
  imap_ok false m -> call_ok (to_map m) c ->
  exists r m' s', run_call c m s = Some ((r, m'), s') /\ imap_ok false m' /\
    spec_reply (to_map m) c (mem s') r /\ to_map m' = spec_next (to_map m) c r /\ evs s' = evs s.
Proof.
  intros Hm (Hid & Hsz & Hset). rewrite (size_to_map false) in Hsz by done. destruct c as [id|id v|id v|id]; cbn in Hid.
  - cbn [run_call]. rewrite (imap_get_spec false) by done. rewrite IM_deref_Some. by do 3 eexists.
  - destruct (imap_add_spec false m id v s Hm Hid ltac:(lia)) as (rc & m' & s' & E & Hev & Hsp).
    cbn [run_call]. rewrite (IM_bind_Some _ _ _ _ _ E). do 3 eexists. split; [done|]. cbn [spec_reply spec_next].
    destruct (to_map m !! id); [by destruct Hsp as (-> & ? & ->)|].
    destruct Hsp as [(-> & ? & ->)|(-> & ? & ? & ->)]; split_and!; auto.
  - destruct (imap_set_spec false m id v s Hm Hid ltac:(lia) Hset) as (ret & m' & s' & E & Hev & Hsp).
    cbn [run_call]. rewrite (IM_bind_Some _ _ _ _ _ E). do 3 eexists. split; [done|]. cbn [spec_reply spec_next].
    destruct (to_map m !! id); [by destruct Hsp as (-> & ? & ->)|].
    destruct Hsp as [(-> & ? & ->)|(-> & ? & ? & ->)]; split_and!; auto.
  - destruct (imap_pop_spec false m id Hm Hid ltac:(lia)) as (m' & E & Hm' & Hmap).
    cbn [run_call]. rewrite E, IM_deref_Some. by do 3 eexists.
Qed.

Lemma reach_ok m G : reach m G -> imap_ok false m /\ to_map m = G.
Proof.
  induction 1 as [s m s' E|m G c s r m' s' Hr [Hm <-] Hc E].
  - pose proof (imap_create_spec s) as Hcr. destruct (mem s); [congruence|].
    destruct Hcr as (m0 & E0 & Hm & Hmap). assert (m0 = m) as -> by congruence.
    split; [|done]. by apply imap_ok_mono with true.
  - destruct (run_call_spec m c s Hm Hc) as (r1 & m1 & s1 & E1 & Hm1 & _ & Hmap & _).
    rewrite E in E1. injection E1 as -> -> ->. done.
Qed.


End Refinement.

(** ** Concrete maps *)

(** The map that holds each id of [l] under itself, and a checker of [imap_ok]. *)
Definition of_ids (l : list Z) : imap Z :=
  foldl (fun m id => match imap_add m id id (IState 100 []) with Some ((_, m'), _) => m' | None => m end)
    empty_imap l.

Fixpoint wfb (h : nat) (c : imap_node Z) : bool :=
  match nd_nodes c with
  | None => nd_sz c =? 0
  | Some ns =>
      match h with
      | O => false
      | S h => (0 <=? nd_key c) && (nd_key c <=? 32) &&
               (length ns =? (if (nd_key c =? 32)%Z then 32 else 1))%nat &&
               forallb (wfb h) ns && (nd_sz c =? total ns) && (0 <? nd_sz c)
      end
  end.

Lemma forallb_Forall_true {A} (p : A -> bool) l : forallb p l = true -> Forall (fun x => p x = true) l.
Proof. induction l as [|x l IH]; simpl; [by constructor|]. intros [H1 H2]%andb_true_iff. constructor; auto. Qed.

Lemma wfb_wf h c : wfb h c = true -> wf true h c.
Proof.
  revert c. induction h as [|h IH]; intros c; simpl; destruct (nd_nodes c) as [ns|]; try done; try lia.
  rewrite !andb_true_iff. intros (((((H1 & H2) & H3) & H4%forallb_Forall_true) & H5) & H6).
  split; [lia|]. split; [by apply Nat.eqb_eq|]. split; [|lia].
  by eapply Forall_impl.
Qed.

Definition imap_okb (m : imap Z) : bool :=
  (length (im_nodes m) =? 32)%nat && forallb (wfb IMAP_HEIGHT) (im_nodes m) && (im_n m =? total (im_nodes m)).

Lemma imap_okb_ok m : imap_okb m = true -> imap_ok true m.
Proof.
  unfold imap_okb. rewrite !andb_true_iff. intros [[H1 H2%forallb_Forall_true] H3].
  split; [by apply Nat.eqb_eq|]. split; [|lia].
  eapply Forall_impl; [done|]. intros x. apply wfb_wf.
Qed.

Lemma reach_two : reach (of_ids [5; 700]) (<[700 := 700]> (<[5 := 5]> ∅)).
Proof.
  assert (reach (of_ids [5]) (<[5 := 5]> ∅)) as H1.
  { apply (reach_call empty_imap ∅ (CAdd 5 5) (IState 100 []) (RCode 0) (of_ids [5]) (IState 100 [])).
    - apply (reach_create (IState 1 []) _ (IState 0 [])). reflexivity.
    - split; [unfold id_ok; simpl; lia|]. split; [vm_compute; reflexivity|exact I].
    - vm_compute. reflexivity. }
  apply (reach_call (of_ids [5]) (<[5 := 5]> ∅) (CAdd 700 700) (IState 100 []) (RCode 0) _ (IState 99 []) H1).
  - split; [unfold id_ok; simpl; lia|]. split; [vm_compute; reflexivity|exact I].
  - vm_compute. reflexivity.
Defined.


(** ** Walks *)

Section Walks.
Context {V : Type} `{EqDecision V}.

(** Every loop over a map visits each of its items exactly once, in the same
    order: [imap_walk] until the callback returns non-zero, [imap_vec] into a
    vector that is never overrun, [imap_walk_cp] over a copy whose references are
    all taken first and all released at the end, [imap_clear] with a callback,
    which leaves the map empty; [imap_one] returns the first of them. *)
Theorem imap_visits_every_item t (m : imap V) :
  imap_ok t m ->
  root_items m ≡ₚ map_to_list (to_map m) /\
  (forall A (cb : V -> A -> Z * A) arg, imap_walk m cb arg = Some (walk_list cb (root_items m).*2 arg)) /\
  (forall k es, imap_vec m (IState (S k) es) = Some (Some (root_items m).*2, IState k es)) /\
  (forall A (cb : V -> A -> Z * A) arg k es,
     imap_walk_cp m cb arg (IState (S k) es) =
     Some (walk_list cb (root_items m).*2 arg,
           IState k (rev (Callback <$> (root_items m).*2) ++ rev (Incref <$> (root_items m).*2) ++ es))) /\
  (forall s, exists m', imap_clear (Some release) m s =
     Some (m', IState (mem s) (rev (Callback <$> (root_items m).*2) ++ evs s)) /\ imap_ok t m' /\ to_map m' = ∅) /\
  (t = true -> imap_one m = head (root_items m).*2).
Proof.
  intros Hm. split_and!.
  - symmetry. apply map_to_list_to_map. by apply (NoDup_root_items t).
  - intros. by apply (imap_walk_spec t).
  - intros k es. by rewrite (imap_vec_spec t).
  - intros. by rewrite (imap_walk_cp_spec t).
  - intros s. rewrite (imap_clear_spec t) by done. unfold release. rewrite run_all_emit.
    eexists. split; [done|]. destruct (Z.eqb_spec (im_n m) 0) as [E|E].
    + split; [done|]. unfold to_map. by rewrite (empty_items t).
    + pose proof (imap_create_spec (IState 1 ([] : list (ref_event V)))) as (m0 & E0 & Hok & Hmap).
      injection E0 as <-. split; [|done]. destruct t; [done|by apply imap_ok_mono with true].
  - intros ->. by apply imap_one_spec.
Qed.

(** [imap_unused_id] returns an id of at most [max], and one that is not in
    the map when it is below [max]; it is defined for every limit that leaves
    room for one more block of ids. *)
Theorem imap_unused_id_free t (m : imap V) max :
  imap_ok t m -> 0 <= max <= 18446744073709551584 ->
  exists r, imap_unused_id m max = Some r /\ 0 <= r <= max /\ (r < max -> to_map m !! r = None).
Proof. apply imap_unused_id_spec. Qed.

(** With enough memory [imap_dup] returns a map equal to the original block by
    block, holding one new reference of every item when asked to. *)
Theorem imap_dup_copies t (m : imap V) b s :
  imap_ok t m -> (S (root_blocks m) <= mem s)%nat ->
  exists s', imap_dup m b s = Some (Some m, s') /\
    mem s = (S (root_blocks m) + mem s')%nat /\
    evs s' = (if b : bool then rev (Incref <$> (root_items m).*2) else []) ++ evs s.
Proof.
  intros Hm Hmem. rewrite (imap_dup_spec t) by done. eexists. split; [done|]. simpl. split; [|done].
  unfold root_blocks in *. lia.
Qed.

(** ** Set operations *)

(** C11. The four in-place set operations compute union, difference, intersection
    and symmetric difference of the maps, keep every size exact, and account for
    every pointer: for any weight of pointers, the items of the result and the
    pointers released add up to the items before (those of a moved map
    included). The moving operations leave the other map empty; they allocate
    at most one block for each block of the destination. *)
Theorem imap_set_operations t (dest other : imap V) s :
  imap_ok t dest -> imap_ok t other -> im_n dest + im_n other < 4294967296 ->
  (root_blocks dest <= mem s)%nat ->
  (exists d' s', imap_union_move dest other s = Some ((d', empty_imap), s') /\
     combined t union_with true dest other d' s s') /\
  (exists d' s', imap_symmdiff_move dest other release s = Some ((d', empty_imap), s') /\
     combined t symm_with true dest other d' s s') /\
  (exists d' s', imap_difference_inplace dest other s = Some (d', s') /\
     combined t diff_with false dest other d' s s') /\
  (exists d' s', imap_intersection_inplace dest other release s = Some (d', s') /\
     combined t inter_with false dest other d' s s').
Proof.
  intros Hd Ho Hn Hmem. split_and!.
  - destruct (imap_union_move_spec t dest other s Hd Ho Hn Hmem) as ([d' o'] & s' & E & _ & Ho' & Hc).
    simpl in *. subst o'. by do 2 eexists.
  - destruct (imap_symmdiff_move_spec t dest other s Hd Ho Hn Hmem) as ([d' o'] & s' & E & _ & Ho' & Hc).
    simpl in *. subst o'. by do 2 eexists.
  - destruct (imap_difference_inplace_spec t dest other s Hd Ho Hn (Nat.le_0_l _)) as (d' & s' & E & _ & Hc).
    by do 2 eexists.
  - destruct (imap_intersection_inplace_spec t dest other s Hd Ho Hn (Nat.le_0_l _)) as (d' & s' & E & _ & Hc).
    by do 2 eexists.
Qed.

(** ** Comparison *)

(** On maps without empty blocks [imap_eq] is defined and never rejects equal
    maps; it accepts only equal maps when the sizes of their root slots agree
    pairwise. *)
Theorem imap_eq_correct (a b : imap V) :
  imap_ok true a -> imap_ok true b ->
  exists r, imap_eq false a b = Some r /\ (to_map a = to_map b -> r = true) /\
    (r = true -> Forall2 (fun x y => nd_sz x = nd_sz y) (im_nodes a) (im_nodes b) -> to_map a = to_map b).
Proof.
  intros Ha Hb. destruct (imap_eq_judge true a b Ha Hb) as (r & E & Hs & Hc). exists r. auto.
Qed.

End Walks.

(** *** Inputs on which the comparison is wrong *)

(** [imap_eq] accepts two different sets of three ids, and [imap_le] accepts a
    set of two ids as a subset of one it is not a subset of: for a full block
    compared with a single child only the sizes of the other slots are looked
    at, not their data, and the root does not compare sizes. *)
Theorem imap_compare_wrong :
  let a := of_ids [128; 192; 129] in
  let b := of_ids [128; 129; 193] in
  let c := of_ids [128; 192] in
  let d := of_ids [128; 5] in
  imap_ok true a /\ imap_ok true b /\ imap_eq false a b = Some true /\
  to_map a !! 192 = Some 192 /\ to_map b !! 192 = None /\
  imap_ok true c /\ imap_ok true d /\ imap_le false c d = Some true /\
  to_map c !! 192 = Some 192 /\ to_map d !! 192 = None.
Proof.
  cbv zeta. split_and!; try (apply imap_okb_ok); vm_compute; reflexivity.
Qed.

(** [imap_walkn] does not stop when its counter is used up below a root slot:
    asked for one item of a map with four it calls the callback for all four and
    leaves the counter at -3 modulo 2^64. *)
Theorem imap_walkn_overruns :
  imap_ok true (of_ids [32; 1; 2; 3]) /\
  imap_walkn (of_ids [32; 1; 2; 3]) (fun _ n => (1, n + 1)) 0 1 = Some (4, 18446744073709551613).
Proof. split; [apply imap_okb_ok|]; vm_compute; reflexivity. Qed.

(** Setting an id to the pointer it already has counts it twice. *)
Theorem imap_set_same_miscounts :
  exists m s', imap_set (of_ids [7]) 7 7 (IState 0 []) = Some ((Some 7, m), s') /\
    im_n m = 2 /\ size (to_map m) = 1%nat.
Proof. eexists _, _. split; [vm_compute; reflexivity|]. split; vm_compute; reflexivity. Qed.

(** The clean-up of a failed [imap_dup] is undefined: it destroys the block of
    the first child instead of the block of the slot, and reads through NULL
    when that child has none. Clearing a map without a callback calls NULL for
    the items below the root. *)
Theorem imap_cleanup_undefined :
  imap_ok true (of_ids [32; 33; 34]) /\
  imap_dup (of_ids [32; 33; 34]) true (IState 2 []) = None /\
  imap_clear None (of_ids [32; 33; 34]) (IState 2 []) = None.
Proof. split_and!; [apply imap_okb_ok|..]; vm_compute; reflexivity. Qed.

(** *** Witnesses *)

Lemma imap_visits_every_item_witness :
  imap_vec (of_ids [40; 3; 1000]) (IState 1 []) = Some (Some [3; 40; 1000], IState 0 []).
Proof.
  assert (imap_ok true (of_ids [40; 3; 1000])) as Hm by (apply imap_okb_ok; vm_compute; reflexivity).
  destruct (imap_visits_every_item true _ Hm) as (_ & _ & Hv & _). rewrite Hv. vm_compute. reflexivity.
Defined.

Lemma imap_unused_id_free_witness :
  exists r, imap_unused_id (of_ids [0; 1; 2]) 65535 = Some r /\ 0 <= r <= 65535 /\ r <> 2.
Proof.
  assert (imap_ok true (of_ids [0; 1; 2])) as Hm by (apply imap_okb_ok; vm_compute; reflexivity).
  destruct (imap_unused_id_free true _ 65535 Hm ltac:(lia)) as (r & E & Hr & Hfree). exists r.
  split; [exact E|]. split; [exact Hr|]. intros ->. specialize (Hfree ltac:(lia)). vm_compute in Hfree. discriminate.
Defined.

Lemma imap_dup_copies_witness :
  exists s', imap_dup (of_ids [40; 3]) true (IState 10 []) = Some (Some (of_ids [40; 3]), s') /\
    evs s' = [Incref 40; Incref 3].
Proof.
  assert (imap_ok true (of_ids [40; 3])) as Hm by (apply imap_okb_ok; vm_compute; reflexivity).
  destruct (imap_dup_copies true _ true (IState 10 []) Hm) as (s' & E & _ & Hev); [vm_compute; lia|].
  exists s'. split; [exact E|]. rewrite Hev. vm_compute. reflexivity.
Defined.

Lemma imap_set_operations_witness :
  exists d' s', imap_difference_inplace (of_ids [40; 3; 1000]) (of_ids [40; 41]) (IState 10 []) = Some (d', s') /\
    to_map d' !! 40 = None /\ to_map d' !! 1000 = Some 1000 /\ evw (fun v => v) (evs s') = 40.
Proof.
  assert (imap_ok true (of_ids [40; 3; 1000])) as Hm by (apply imap_okb_ok; vm_compute; reflexivity).
  assert (imap_ok true (of_ids [40; 41])) as Ho by (apply imap_okb_ok; vm_compute; reflexivity).
  destruct (imap_set_operations true _ _ (IState 10 []) Hm Ho) as (_ & _ & (d' & s' & E & _ & Hmap & _) & _);
    [vm_compute; reflexivity|vm_compute; lia|].
  exists d', s'. rewrite E, Hmap, !lookup_merge. split; [reflexivity|]. split; [vm_compute; reflexivity|].
  split; [vm_compute; reflexivity|]. vm_compute in E. injection E as _ <-. reflexivity.
Defined.

Lemma imap_eq_correct_witness :
  imap_eq false (of_ids [40; 3; 1000]) (of_ids [1000; 40; 3]) = Some true /\
  to_map (of_ids [40; 3; 1000]) = to_map (of_ids [1000; 40; 3]).
Proof.
  assert (imap_ok true (of_ids [40; 3; 1000])) as Ha by (apply imap_okb_ok; vm_compute; reflexivity).
  assert (imap_ok true (of_ids [1000; 40; 3])) as Hb by (apply imap_okb_ok; vm_compute; reflexivity).
  destruct (imap_eq_correct _ _ Ha Hb) as (r & E & _ & Hs). split; [vm_compute; reflexivity|].
  apply Hs; [vm_compute in E; by injection E|]. vm_compute. repeat constructor.
Defined.
