(* ===== verification/Smap.v ===== *)
(** * util/smap: maps from byte strings to pointers

    [src/src/util/smap.c], [src/inc/util/smap.h]: a prefix tree. A node holds
    the part of the keys that all its entries share, the data of the key that
    ends there, and a block of children for the next byte. A block covers the
    bytes of [sz] groups of 32, starting with the group [offset]; groups are
    added in front or behind as they are needed.

    Bytes are integers of 0 to 255 and keys are lists of bytes; the length [n]
    of the key of a node is the length of the list. The functions come in two
    versions: one gets the length of the key, the other a string that ends with
    the byte zero. Where the two only differ in how they find the end of the key
    they are one definition with a flag [z], true for the zero-terminated
    version; reading behind the terminator is undefined.

    The functions that follow a key recurse on [fuel], for which the length of
    the key is enough: every level uses up at least one byte. *)
From Stdlib Require Import ZArith Lia.
From stdpp Require Import base list option numbers.
From S2P Require Import Prelude Mem.

Definition SMAP_SUCCESS : Z := 0.
Definition SMAP_ERR_ALLOC : Z := -1.
Definition SMAP_ERR_EXIST : Z := -2.
Definition SMAP_BSZ : Z := 32.
Definition SMAP_BSH : Z := 5.

(** ** Data *)

Record block (N : Type) := Block { b_offset : Z; b_sz : Z; b_nodes : option (list (option N)) }.
Arguments Block {N}. Arguments b_offset {N}. Arguments b_sz {N}. Arguments b_nodes {N}.

Inductive smap_node (V : Type) :=
  | SNode (b : block (smap_node V)) (size : Z) (key : list Z) (data : option V).
Arguments SNode {V}.

Definition sn_blk {V} (c : smap_node V) : block (smap_node V) := let 'SNode b _ _ _ := c in b.
Definition sn_size {V} (c : smap_node V) : Z := let 'SNode _ s _ _ := c in s.
Definition sn_key {V} (c : smap_node V) : list Z := let 'SNode _ _ k _ := c in k.
Definition sn_data {V} (c : smap_node V) : option V := let 'SNode _ _ _ d := c in d.

Record smap (V : Type) := Smap { sm_n : Z; sm_blk : block (smap_node V); sm_data : option V }.
Arguments Smap {V}. Arguments sm_n {V}. Arguments sm_blk {V}. Arguments sm_data {V}.

Section Smap.
Context {V : Type}.
Notation node := (smap_node V).
Notation M := (IM V).
Implicit Types (c : node) (b : block node) (key : list Z) (data : V).

Definition empty_block : block node := Block UINT8_MAX 0 None.

Definition smap_create : M (option (smap V)) :=
  ok ← alloc; mret (if ok : bool then Some (Smap 0 empty_block None) else None).

(** [k >> SMAP_BSH] and the test that a block has the byte [k]. *)
Definition pos_of (k : Z) : Z := Z.shiftr k SMAP_BSH.
Definition in_block b (k : Z) : bool :=
  negb ((pos_of k <? b_offset b) || (b_offset b + b_sz b <=? pos_of k)).

(** The child at index [k - (offset << SMAP_BSH)] of the block. *)
Definition slot_index b (k : Z) : nat := Z.to_nat (k - Z.shiftl (b_offset b) SMAP_BSH).
Definition child_at b (k : Z) : option (option node) := ns ← b_nodes b; ns !! slot_index b k.
Definition put_at b (k : Z) (c : option node) : option (block node) :=
  ns ← b_nodes b; _ ← ns !! slot_index b k;
  Some (Block (b_offset b) (b_sz b) (Some (<[slot_index b k := c]> ns))).

Definition smap__node_create key (data : option V) : M (option node) :=
  ok ← alloc;
  if negb ok then mret None else
  ok ← match key with [] => mret true | _ => alloc end;
  mret (if ok : bool then Some (SNode empty_block 0 key data) else None).

(** The boolean is false for [SMAP_ERR_ALLOC]. *)
Definition smap__node_resize b (pos : Z) : M (bool * block node) :=
  match b_nodes b with
  | None =>
      ok ← alloc;
      mret (if ok : bool then (true, Block pos 1 (Some (replicate 32 None))) else (false, b))
  | Some ns =>
      if pos <? b_offset b then
        let diff := u8 (b_offset b - pos) in
        ok ← alloc;
        mret (if ok : bool
              then (true, Block pos (u8 (b_sz b + diff)) (Some (replicate (Z.to_nat (32 * diff)) None ++ ns)))
              else (false, b))
      else if b_offset b + b_sz b <=? pos then
        let diff := u8 (pos - b_offset b - b_sz b + 1) in
        ok ← alloc;
        mret (if ok : bool
              then (true, Block (b_offset b) (u8 (b_sz b + diff)) (Some (ns ++ replicate (Z.to_nat (32 * diff)) None)))
              else (false, b))
      else mret (true, b)
  end.

(** ** Lookup *)

(** What is left of [key] behind the key [p] of a node: the inner [None] when
    they differ. [strncmp] stops at a zero byte that both have, and the code then
    reads behind the terminator. *)
Fixpoint strip (z : bool) (p key : list Z) : option (option (list Z)) :=
  match p, key with
  | [], _ => Some (Some key)
  | c :: p, [] => if z && (c =? 0) then None else Some None
  | c :: p, k :: key => if c =? k then strip z p key else Some None
  end.

(** The loops of [smap_getn] and [smap_getaddr], from the node [o]. *)
Fixpoint get_loop (z : bool) (fuel : nat) (o : option node) key : option (option V) :=
  match o with
  | None => Some None
  | Some c =>
      match fuel with
      | O => None
      | S fuel =>
          r ← strip z (sn_key c) key;
          match r with
          | None => Some None
          | Some [] => Some (sn_data c)
          | Some (k :: key) =>
              match b_nodes (sn_blk c) with
              | None => Some None
              | Some _ =>
                  if negb (in_block (sn_blk c) k) then Some None
                  else o ← child_at (sn_blk c) k; get_loop z fuel o key
              end
          end
      end
  end.

Definition get_root (z : bool) (m : smap V) (k : Z) key : option (option V) :=
  if negb (in_block (sm_blk m) k) then Some None
  else o ← child_at (sm_blk m) k; get_loop z (S (length key)) o key.

Definition smap_getn (m : smap V) key : option (option V) :=
  match key with [] => Some (sm_data m) | k :: key => get_root false m k key end.

(** [smap_getaddr] returns an address; for the empty key it returns the data
    itself, which [smap_get] then reads through. *)
Definition smap_get (m : smap V) key : option (option V) :=
  match key with
  | [] => match sm_data m with Some _ => None | None => Some None end
  | k :: key => get_root true m k key
  end.

(** ** Adding *)

(** The loop that compares the key of a node with a key: either all of it
    matches and [rest] is left, or [pre] matches, [pt] is the first byte of the
    node that does not and [post] are those behind it. *)
Inductive scan_result :=
  | ScanAll (rest : list Z)
  | ScanDiff (pre : list Z) (pt : Z) (post rest : list Z).

Fixpoint scan (z : bool) (pre p key : list Z) : option scan_result :=
  match p with
  | [] => Some (ScanAll key)
  | c :: p =>
      match key with
      | [] => if z && (c =? 0) then None else Some (ScanDiff pre c p [])
      | k :: key' => if k =? c then scan z (pre ++ [c]) p key' else Some (ScanDiff pre c p key)
      end
  end.

(** The re-allocation of a shortened key may fail without effect. *)
Definition shrink_key (pre : list Z) : M unit :=
  match pre with [] => mret tt | _ => ok ← alloc; mret tt end.

(** Split a node at the first byte that differs. *)
Definition split_node c (pre : list Z) (pt : Z) (post rest : list Z) data : M (Z * node) :=
  ok ← alloc;
  if negb ok then mret (SMAP_ERR_ALLOC, c) else
  o ← smap__node_create post (sn_data c);
  match o with
  | None => mret (SMAP_ERR_ALLOC, c)
  | Some _ =>
      let nd := SNode (sn_blk c) (sn_size c) post (sn_data c) in
      let b := Block (pos_of pt) 1
        (Some (<[Z.to_nat (pt mod SMAP_BSZ) := Some nd]> (replicate 32 None))) in
      match rest with
      | [] => shrink_key pre;; mret (0, SNode b 1 pre (Some data))
      | k :: rest =>
          '(ok, b) ← smap__node_resize b (pos_of k);
          if negb ok then mret (SMAP_ERR_ALLOC, SNode b (sn_size c) (sn_key c) (sn_data c)) else
          o ← smap__node_create rest (Some data);
          match o with
          | None => mret (SMAP_ERR_ALLOC, SNode b (sn_size c) (sn_key c) (sn_data c))
          | Some nd =>
              b ← deref (put_at b k (Some nd));
              shrink_key pre;; mret (0, SNode b 2 pre None)
          end
      end
  end.

Definition with_blk b c : node := SNode b (sn_size c) (sn_key c) (sn_data c).

(** A new child for the byte [k], [size] children with it. *)
Definition add_child c b (k : Z) (rest : list Z) data (size : Z) : M (Z * node) :=
  o ← smap__node_create rest (Some data);
  match o with
  | None => mret (SMAP_ERR_ALLOC, with_blk b c)
  | Some nd => b ← deref (put_at b k (Some nd)); mret (0, SNode b size (sn_key c) (sn_data c))
  end.

Fixpoint add_node (z : bool) (fuel : nat) c key data : M (Z * node) :=
  match fuel with
  | O => undef
  | S fuel =>
      r ← deref (scan z [] (sn_key c) key);
      match r with
      | ScanDiff pre pt post rest => split_node c pre pt post rest data
      | ScanAll [] =>
          match sn_data c with
          | Some _ => mret (SMAP_ERR_EXIST, c)
          | None => mret (0, SNode (sn_blk c) (sn_size c) (sn_key c) (Some data))
          end
      | ScanAll (k :: rest) =>
          let first := match b_nodes (sn_blk c) with None => true | Some _ => false end in
          '(ok, b) ← smap__node_resize (sn_blk c) (pos_of k);
          if negb ok then mret (SMAP_ERR_ALLOC, with_blk b c) else
          if first then add_child c b k rest data 1 else
          o ← deref (child_at b k);
          match o with
          | Some nd =>
              '(rc, nd) ← add_node z fuel nd rest data;
              b ← deref (put_at b k (Some nd));
              mret (rc, with_blk b c)
          | None => add_child c b k rest data (u8 (sn_size c + 1))
          end
      end
  end.

Definition smap__add (fuel : nat) := add_node true fuel.
Definition smap__addn (fuel : nat) := add_node false fuel.

Definition add_root (z : bool) (m : smap V) key data : M (Z * smap V) :=
  match key with
  | [] =>
      match sm_data m with
      | Some _ => mret (SMAP_ERR_EXIST, m)
      | None => mret (0, Smap (u32 (sm_n m + 1)) (sm_blk m) (Some data))
      end
  | k :: rest =>
      '(ok, b) ← smap__node_resize (sm_blk m) (pos_of k);
      if negb ok then mret (SMAP_ERR_ALLOC, Smap (sm_n m) b (sm_data m)) else
      o ← deref (child_at b k);
      '(rc, o) ← match o with
                 | Some nd => '(rc, nd) ← add_node z (S (length rest)) nd rest data; mret (rc, Some nd)
                 | None => o ← smap__node_create rest (Some data);
                           mret (match o with Some _ => 0 | None => SMAP_ERR_ALLOC end, o)
                 end;
      b ← deref (put_at b k o);
      mret (rc, Smap (if rc =? 0 then u32 (sm_n m + 1) else sm_n m) b (sm_data m))
  end.

Definition smap_add := add_root true.
Definition smap_addn := add_root false.

(** ** Popping *)

Fixpoint first_child (i : nat) (ns : list (option node)) : option (nat * node) :=
  match ns with
  | [] => None
  | Some c :: _ => Some (i, c)
  | None :: ns => first_child (S i) ns
  end.

(** The caller makes sure there is a child; the loop otherwise runs off the
    block. *)
Definition smap__merge_node c : M node :=
  ns ← deref (b_nodes (sn_blk c));
  '(i, child) ← deref (first_child 0 ns);
  ok ← alloc;
  mret (if ok : bool
        then SNode (sn_blk child) (sn_size child)
               (sn_key c ++ u8 (Z.of_nat i + Z.shiftl (b_offset (sn_blk c)) SMAP_BSH) :: sn_key child)
               (sn_data child)
        else c).

Definition smap__dec_node c : M node :=
  let size := u8 (sn_size c - 1) in
  if size =? 0 then
    mret (SNode (Block (b_offset (sn_blk c)) (b_sz (sn_blk c)) None) size (sn_key c) (sn_data c))
  else
    let c := SNode (sn_blk c) size (sn_key c) (sn_data c) in
    match sn_data c with
    | None => if size =? 1 then smap__merge_node c else mret c
    | Some _ => mret c
    end.

(** The data, what the slot [nd] points to afterwards, and whether the parent lost a child
    ([smap__dec_node(parent)] is called). *)
Fixpoint pop_node (z : bool) (fuel : nat) c key : M (option V * option node * bool) :=
  match fuel with
  | O => undef
  | S fuel =>
      r ← deref (strip z (sn_key c) key);
      match r with
      | None => mret (None, Some c, false)
      | Some [] =>
          if sn_size c =? 0 then mret (sn_data c, None, true)
          else
            let c' := SNode (sn_blk c) (sn_size c) (sn_key c) None in
            c' ← (if sn_size c =? 1 then smap__merge_node c' else mret c');
            mret (sn_data c, Some c', false)
      | Some (k :: key) =>
          match b_nodes (sn_blk c) with
          | None => mret (None, Some c, false)
          | Some _ =>
              if negb (in_block (sn_blk c) k) then mret (None, Some c, false) else
              o ← deref (child_at (sn_blk c) k);
              match o with
              | None => mret (None, Some c, false)
              | Some nd =>
                  '(data, o, dec) ← pop_node z fuel nd key;
                  b ← deref (put_at (sn_blk c) k o);
                  c' ← (if dec : bool then smap__dec_node (with_blk b c) else mret (with_blk b c));
                  mret (data, Some c', false)
              end
          end
      end
  end.

Definition smap__pop (fuel : nat) := pop_node true fuel.
Definition smap__popn (fuel : nat) := pop_node false fuel.

Definition pop_root (z : bool) (m : smap V) key : M (option V * smap V) :=
  match key with
  | [] =>
      mret (match sm_data m with
            | Some d => (Some d, Smap (u32 (sm_n m - 1)) (sm_blk m) None)
            | None => (None, m)
            end)
  | k :: key =>
      if negb (in_block (sm_blk m) k) then mret (None, m) else
      o ← deref (child_at (sm_blk m) k);
      match o with
      | None => mret (None, m)
      | Some nd =>
          '(data, o, _) ← pop_node z (S (length key)) nd key;
          b ← deref (put_at (sm_blk m) k o);
          mret (data,
            match data with
            | None => Smap (sm_n m) b (sm_data m)
            | Some _ =>
                let n := u32 (sm_n m - 1) in
                Smap n (if n =? 0 then Block (b_offset b) 0 None else b) (sm_data m)
            end)
      end
  end.

Definition smap_pop := pop_root true.
Definition smap_popn := pop_root false.

(** ** Walking *)

Fixpoint smap__longest_key_size c : Z :=
  match c with
  | SNode (Block _ _ ns) _ key _ =>
      match ns with
      | None => 0
      | Some ns =>
          (fix loop (ns : list (option node)) (m : Z) : Z :=
             match ns with
             | [] => m
             | None :: ns => loop ns m
             | Some c :: ns => let n := smap__longest_key_size c in loop ns (if m <? n then n else m)
             end) ns 0
      end + len key + 1
  end.

Fixpoint longest_loop (ns : list (option node)) (m : Z) : Z :=
  match ns with
  | [] => m
  | None :: ns => longest_loop ns m
  | Some c :: ns => let n := smap__longest_key_size c in longest_loop ns (if m <? n then n else m)
  end.

Definition smap_longest_key_size (m : smap V) : Z :=
  match b_nodes (sm_blk m) with Some ns => longest_loop ns 0 | None => 0 end.

(** [smap__items]: the buffer of [cap] bytes holds [pre] when the node is
    entered; writing behind it is undefined. A non-zero result of the callback
    stops the loop. *)
Fixpoint smap__items {A} (cb : list Z -> V -> A -> Z * A) (cap : Z) (pre : list Z) c (arg : A)
    : option (Z * A) :=
  match c with
  | SNode (Block offset _ ns) _ key data =>
      let pre := pre ++ key in
      if cap <? len pre then None else
      let '(rc, arg) := match data with Some d => cb pre d arg | None => (0, arg) end in
      if negb (rc =? 0) then Some (rc, arg) else
      match ns with
      | None => Some (0, arg)
      | Some ns =>
          (fix loop (i : Z) (ns : list (option node)) (arg : A) : option (Z * A) :=
             match ns with
             | [] => Some (0, arg)
             | None :: ns => loop (i + 1) ns arg
             | Some c :: ns =>
                 if cap <=? len pre then None else
                 '(rc, arg) ← smap__items cb cap (pre ++ [u8 (i + Z.shiftl offset SMAP_BSH)]) c arg;
                 if negb (rc =? 0) then Some (rc, arg) else loop (i + 1) ns arg
             end) 0 ns arg
      end
  end.

Fixpoint items_loop {A} (cb : list Z -> V -> A -> Z * A) (cap : Z) (offset i : Z)
    (ns : list (option node)) (arg : A) : option (Z * A) :=
  match ns with
  | [] => Some (0, arg)
  | None :: ns => items_loop cb cap offset (i + 1) ns arg
  | Some c :: ns =>
      if cap <=? 0 then None else
      '(rc, arg) ← smap__items cb cap [u8 (i + Z.shiftl offset SMAP_BSH)] c arg;
      if negb (rc =? 0) then Some (rc, arg) else items_loop cb cap offset (i + 1) ns arg
  end.

Definition smap_items {A} (m : smap V) (cap : Z) (cb : list Z -> V -> A -> Z * A) (arg : A) : option (Z * A) :=
  let '(rc, arg) := match sm_data m with Some d => cb [] d arg | None => (0, arg) end in
  if negb (rc =? 0) then Some (rc, arg) else
  match b_nodes (sm_blk m) with
  | None => Some (0, arg)
  | Some ns => items_loop cb cap (b_offset (sm_blk m)) 0 ns arg
  end.

Fixpoint smap__values {A} (cb : V -> A -> Z * A) c (arg : A) : Z * A :=
  match c with
  | SNode (Block _ _ ns) _ _ data =>
      let '(rc, arg) := match data with Some d => cb d arg | None => (0, arg) end in
      if negb (rc =? 0) then (rc, arg) else
      match ns with
      | None => (0, arg)
      | Some ns =>
          (fix loop (ns : list (option node)) (arg : A) : Z * A :=
             match ns with
             | [] => (0, arg)
             | None :: ns => loop ns arg
             | Some c :: ns =>
                 let '(rc, arg) := smap__values cb c arg in
                 if negb (rc =? 0) then (rc, arg) else loop ns arg
             end) ns arg
      end
  end.

Fixpoint values_loop {A} (cb : V -> A -> Z * A) (ns : list (option node)) (arg : A) : Z * A :=
  match ns with
  | [] => (0, arg)
  | None :: ns => values_loop cb ns arg
  | Some c :: ns =>
      let '(rc, arg) := smap__values cb c arg in
      if negb (rc =? 0) then (rc, arg) else values_loop cb ns arg
  end.

Definition smap_values {A} (m : smap V) (cb : V -> A -> Z * A) (arg : A) : Z * A :=
  let '(rc, arg) := match sm_data m with Some d => cb d arg | None => (0, arg) end in
  if negb (rc =? 0) then (rc, arg) else
  match b_nodes (sm_blk m) with
  | None => (0, arg)
  | Some ns => values_loop cb ns arg
  end.

(** The callbacks of [smap__destroy], children first; [None] is a NULL callback. *)
Definition call_opt (cb : option (V -> M unit)) (d : option V) : M unit :=
  match cb, d with Some cb, Some d => cb d | _, _ => mret tt end.

Fixpoint smap__destroy (cb : option (V -> M unit)) c : M unit :=
  match c with
  | SNode (Block _ _ ns) _ _ data =>
      match ns with
      | None => mret tt
      | Some ns =>
          (fix loop (ns : list (option node)) : M unit :=
             match ns with
             | [] => mret tt
             | None :: ns => loop ns
             | Some c :: ns => smap__destroy cb c;; loop ns
             end) ns
      end;;
      call_opt cb data
  end.

Fixpoint destroy_loop (cb : option (V -> M unit)) (ns : list (option node)) : M unit :=
  match ns with
  | [] => mret tt
  | None :: ns => destroy_loop cb ns
  | Some c :: ns => smap__destroy cb c;; destroy_loop cb ns
  end.

Definition smap_clear (m : smap V) (cb : option (V -> M unit)) : M (smap V) :=
  call_opt cb (sm_data m);;
  match b_nodes (sm_blk m) with Some ns => destroy_loop cb ns | None => mret tt end;;
  mret (Smap 0 empty_block None).

Definition smap_destroy (m : option (smap V)) (cb : option (V -> M unit)) : M unit :=
  match m with
  | None => mret tt
  | Some m => smap_clear m cb;; mret tt
  end.

End Smap.
