(* ===== verification/SmapProof.v ===== *)
(** * The prefix tree as a map

    Which key holds which pointer ([slook]), the invariant of a tree ([swf]:
    blocks have the size they claim, the number of children is counted right,
    no key has a zero byte), and the effect of resizing, splitting, merging,
    adding and popping on both. *)
From Stdlib Require Import ZArith Lia.
From stdpp Require Import base list option numbers sets gmap.
From S2P Require Import Prelude Mem Smap.

(** Bytes of a key, and keys that a zero-terminated string can hold. *)
Definition byte_ok (k : Z) : Prop := 0 < k < 256.
Definition key_ok (key : list Z) : Prop := Forall byte_ok key.

Section Tree.
Context {V : Type}.
Notation node := (smap_node V).
Implicit Types (c nd : node) (b : block node) (key p r : list Z) (k : Z) (v : V).

(** ** Keys *)

Lemma strip_app z p r : strip z p (p ++ r) = Some (Some r).
Proof. induction p as [|c p IH]; simpl; [by destruct r|]. by rewrite Z.eqb_refl. Qed.

Lemma strip_Some z p key r : strip z p key = Some (Some r) -> key = p ++ r.
Proof.
  revert key. induction p as [|c p IH]; intros key; [by destruct key; intros [= <-]|].
  destruct key as [|k key]; simpl; [by destruct (z && (c =? 0))|].
  destruct (Z.eqb_spec c k) as [->|]; [|done]. by intros ->%IH.
Qed.

Lemma strip_false p key : strip false p key <> None.
Proof.
  revert key. induction p as [|c p IH]; intros key; [by destruct key|]. destruct key as [|k key]; simpl; [done|].
  destruct (c =? k); [apply IH|done].
Qed.

Lemma strip_zero p key : key_ok p -> strip true p key = strip false p key.
Proof.
  intros Hp. revert key. induction Hp as [|c p Hc Hp IH]; intros key; [by destruct key|].
  destruct key as [|k key]; simpl; [|by destruct (c =? k)].
  unfold byte_ok in Hc. destruct (Z.eqb_spec c 0); [lia|done].
Qed.

(** Whether a key starts with the key of the node. *)
Lemma strip_view p key :
  (exists r, key = p ++ r /\ strip false p key = Some (Some r)) \/
  (strip false p key = Some None /\ forall r, key <> p ++ r).
Proof.
  destruct (strip false p key) as [[r|]|] eqn:E; [left|right|by apply strip_false in E].
  - exists r. split; [by eapply strip_Some|done].
  - split; [done|]. intros r ->. by rewrite strip_app in E.
Qed.

(** ** Blocks *)

(** The child for the byte [k]. *)
Definition kid b k : option node := if in_block b k then mjoin (child_at b k) else None.

Fixpoint count_some (ns : list (option node)) : Z :=
  match ns with [] => 0 | o :: ns => (if o then 1 else 0) + count_some ns end.

Definition count b : Z := match b_nodes b with None => 0 | Some ns => count_some ns end.

Definition bok b : Prop :=
  match b_nodes b with
  | None => True
  | Some ns => 0 <= b_offset b /\ 1 <= b_sz b /\ b_offset b + b_sz b <= 8 /\
               Z.of_nat (length ns) = 32 * b_sz b /\ kid b 0 = None
  end.

Lemma pos_div k : pos_of k = k / 32.
Proof. unfold pos_of, SMAP_BSH. by rewrite Z.shiftr_div_pow2. Qed.

Lemma shiftl_mul x : Z.shiftl x SMAP_BSH = 32 * x.
Proof. unfold SMAP_BSH. rewrite Z.shiftl_mul_pow2 by lia. lia. Qed.

(** The bytes of a block are those of an interval. *)
Lemma in_block_spec b k : in_block b k = true <-> 32 * b_offset b <= k < 32 * (b_offset b + b_sz b).
Proof.
  unfold in_block. rewrite pos_div. pose proof (Z.div_mod k 32 ltac:(lia)). pose proof (Z.mod_pos_bound k 32 eq_refl).
  rewrite negb_true_iff, orb_false_iff, Z.ltb_ge, Z.leb_gt. nia.
Qed.

Lemma slot_index_spec b k : in_block b k = true -> Z.of_nat (slot_index b k) = k - 32 * b_offset b.
Proof. intros Hk%in_block_spec. unfold slot_index. rewrite shiftl_mul. lia. Qed.

Lemma child_at_Some b ns k :
  bok b -> b_nodes b = Some ns -> in_block b k = true ->
  exists o, child_at b k = Some o /\ ns !! slot_index b k = Some o /\ kid b k = o.
Proof.
  intros Hb Hns Hk. unfold bok in Hb. rewrite Hns in Hb. destruct Hb as (H1 & H2 & H3 & H4 & _).
  pose proof (slot_index_spec b k Hk). apply in_block_spec in Hk as Hk'.
  destruct (lookup_lt_is_Some_2 ns (slot_index b k)) as [o Ho]; [lia|].
  exists o. unfold kid, child_at. rewrite Hk, Hns. simpl. rewrite Ho. by destruct o.
Qed.

Lemma kid_nodes b k : b_nodes b = None -> kid b k = None.
Proof. intros Hn. unfold kid, child_at. rewrite Hn. by destruct (in_block b k). Qed.

(** The slot with index [i] belongs to the byte [32 * offset + i]. *)
Lemma kid_lookup b ns i :
  bok b -> b_nodes b = Some ns -> (i < length ns)%nat ->
  kid b (32 * b_offset b + Z.of_nat i) = mjoin (ns !! i) /\ in_block b (32 * b_offset b + Z.of_nat i) = true.
Proof.
  intros Hb Hns Hi. pose proof Hb as Hb'. unfold bok in Hb'. rewrite Hns in Hb'. destruct Hb' as (H1 & H2 & H3 & H4 & _).
  assert (in_block b (32 * b_offset b + Z.of_nat i) = true) as Hk by (apply in_block_spec; lia).
  destruct (child_at_Some b ns _ Hb Hns Hk) as (o & _ & Ho & ->). split; [|done].
  pose proof (slot_index_spec b _ Hk). replace (slot_index b (32 * b_offset b + Z.of_nat i)) with i in Ho by lia.
  rewrite Ho. by destruct o.
Qed.

Lemma kid_inv b k c : bok b -> kid b k = Some c -> exists ns, b_nodes b = Some ns /\ in_block b k = true /\
  ns !! slot_index b k = Some (Some c) /\ 0 < k < 256.
Proof.
  intros Hb Hk. destruct (b_nodes b) as [ns|] eqn:Hns; [|by rewrite kid_nodes in Hk].
  exists ns. split; [done|]. destruct (in_block b k) eqn:Hin; [|unfold kid in Hk; by rewrite Hin in Hk].
  destruct (child_at_Some b ns k Hb Hns Hin) as (o & _ & Ho & E). rewrite Hk in E. subst o.
  split; [done|]. split; [done|]. apply in_block_spec in Hin. unfold bok in Hb. rewrite Hns in Hb.
  destruct Hb as (? & ? & ? & ? & H0). assert (k <> 0) by congruence. lia.
Qed.

Lemma count_insert (ns : list (option node)) i (o o' : option node) :
  ns !! i = Some o ->
  count_some (<[i := o']> ns) = count_some ns - (if o then 1 else 0) + (if o' then 1 else 0).
Proof.
  revert i. induction ns as [|x ns IH]; intros [|i] Hi; simplify_eq/=; [lia|]. rewrite (IH i Hi). lia.
Qed.

(** Replacing a child. *)
Lemma put_at_spec b k (o o' : option node) :
  bok b -> in_block b k = true -> b_nodes b <> None -> 0 < k < 256 -> kid b k = o ->
  exists b', put_at b k o' = Some b' /\ bok b' /\ b_nodes b' <> None /\
    count b' = count b - (if o then 1 else 0) + (if o' then 1 else 0) /\
    forall k', kid b' k' = if k' =? k then o' else kid b k'.
Proof.
  intros Hb Hk Hn Hk0 Ho. destruct (b_nodes b) as [ns|] eqn:Hns; [|done].
  destruct (child_at_Some b ns k Hb Hns Hk) as (o1 & _ & Hlk & Ekid). assert (o1 = o) as -> by congruence.
  unfold put_at. rewrite Hns. simpl. rewrite Hlk. simpl. eexists. split; [done|].
  set (b' := Block (b_offset b) (b_sz b) (Some (<[slot_index b k:=o']> ns))).
  assert (forall k', kid b' k' = if k' =? k then o' else kid b k') as Hkid.
  { intros k'. unfold kid. change (in_block b' k') with (in_block b k').
    destruct (in_block b k') eqn:Hk'.
    - unfold child_at. change (slot_index b' k') with (slot_index b k'). simpl. rewrite Hns. simpl.
      destruct (Z.eqb_spec k' k) as [->|Hne].
      + rewrite list_lookup_insert_eq by (by eapply lookup_lt_Some). by destruct o'.
      + rewrite list_lookup_insert_ne; [done|]. intros E. apply Hne.
        pose proof (slot_index_spec b k Hk). pose proof (slot_index_spec b k' Hk'). lia.
    - destruct (Z.eqb_spec k' k) as [->|]; [congruence|done]. }
  split; [|split; [done|split; [|done]]].
  - unfold bok in *. simpl. rewrite Hns in Hb. destruct Hb as (? & ? & ? & ? & ?).
    rewrite length_insert, Hkid. destruct (Z.eqb_spec 0 k); [lia|]. done.
  - unfold count. simpl. rewrite Hns. by apply count_insert.
Qed.

(** ** Resizing *)

Lemma kid_interval b ns k :
  b_nodes b = Some ns ->
  kid b k = if (32 * b_offset b <=? k) && (k <? 32 * (b_offset b + b_sz b))
            then mjoin (ns !! Z.to_nat (k - 32 * b_offset b)) else None.
Proof.
  intros Hns. unfold kid, child_at, slot_index. rewrite shiftl_mul, Hns. simpl.
  destruct (in_block b k) eqn:Hk.
  - apply in_block_spec in Hk. destruct (Z.leb_spec (32 * b_offset b) k), (Z.ltb_spec k (32 * (b_offset b + b_sz b))); try lia. done.
  - destruct (Z.leb_spec (32 * b_offset b) k), (Z.ltb_spec k (32 * (b_offset b + b_sz b))); try done.
    assert (in_block b k = true) by (apply in_block_spec; lia). congruence.
Qed.

Lemma count_app (l1 l2 : list (option node)) : count_some (l1 ++ l2) = count_some l1 + count_some l2.
Proof. induction l1 as [|o l1 IH]; simpl; lia. Qed.

Lemma count_none i : count_some (replicate i (@None node)) = 0.
Proof. induction i as [|i IH]; simpl; lia. Qed.

Lemma join_replicate i j : mjoin (replicate i (@None node) !! j) = None.
Proof.
  destruct (replicate i (@None node) !! j) as [o|] eqn:E; [|done].
  by apply lookup_replicate in E as [-> _].
Qed.

Definition grown b b' k : Prop :=
  bok b' /\ b_nodes b' <> None /\ in_block b' k = true /\ count b' = count b /\ forall k', kid b' k' = kid b k'.

Lemma grown_new b k : b_nodes b = None -> byte_ok k -> grown b (Block (pos_of k) 1 (Some (replicate 32 None))) k.
Proof.
  unfold byte_ok. intros Hn Hk. rewrite pos_div.
  pose proof (Z.div_mod k 32 ltac:(lia)). pose proof (Z.mod_pos_bound k 32 eq_refl).
  set (b' := Block (k / 32) 1 (Some (replicate 32 None))).
  assert (forall k', kid b' k' = None) as Hkid.
  { intros k'. rewrite (kid_interval b' (replicate 32 None)) by done. rewrite join_replicate. by destruct (_ && _). }
  split; [|split; [done|split; [|split]]].
  - unfold bok. simpl. split; [lia|]. split; [lia|]. split; [lia|]. split; [done|]. apply Hkid.
  - apply in_block_spec. simpl. lia.
  - unfold count. rewrite Hn. simpl. apply (count_none 32).
  - intros k'. by rewrite Hkid, kid_nodes.
Qed.

Lemma grown_front b ns k :
  bok b -> b_nodes b = Some ns -> byte_ok k -> pos_of k < b_offset b ->
  grown b (Block (pos_of k) (u8 (b_sz b + u8 (b_offset b - pos_of k)))
             (Some (replicate (Z.to_nat (32 * u8 (b_offset b - pos_of k))) None ++ ns))) k.
Proof.
  unfold byte_ok. intros Hb Hns Hk Hpos. pose proof Hb as Hb'. unfold bok in Hb'. rewrite Hns in Hb'.
  destruct Hb' as (H1 & H2 & H3 & H4 & H5). rewrite pos_div in *.
  pose proof (Z.div_mod k 32 ltac:(lia)). pose proof (Z.mod_pos_bound k 32 eq_refl).
  assert (u8 (b_offset b - k / 32) = b_offset b - k / 32) as -> by (apply Z.mod_small; lia).
  assert (u8 (b_sz b + (b_offset b - k / 32)) = b_sz b + (b_offset b - k / 32)) as -> by (apply Z.mod_small; lia).
  set (pre := replicate _ None). set (b' := Block _ _ _).
  assert (length pre = Z.to_nat (32 * (b_offset b - k / 32))) as Hlen by apply length_replicate.
  assert (forall k', kid b' k' = kid b k') as Hkid.
  { intros k'. rewrite (kid_interval b' (pre ++ ns)), (kid_interval b ns) by done. simpl.
    destruct (Z.leb_spec (32 * b_offset b) k').
    - rewrite (proj2 (Z.leb_le _ _)) by lia. simpl.
      replace (k / 32 + (b_sz b + (b_offset b - k / 32))) with (b_offset b + b_sz b) by lia.
      destruct (Z.ltb_spec k' (32 * (b_offset b + b_sz b))); [|done].
      rewrite lookup_app_r by lia. rewrite Hlen. do 2 f_equal. lia.
    - simpl. destruct (Z.leb_spec (32 * (k / 32)) k'), (Z.ltb_spec k' (32 * (k / 32 + (b_sz b + (b_offset b - k / 32))))); try done.
      simpl. rewrite lookup_app_l by lia. apply join_replicate. }
  split; [|split; [done|split; [|split; [|done]]]].
  - unfold bok. simpl. split; [lia|]. split; [lia|]. split; [lia|].
    split; [rewrite length_app; lia|]. by rewrite Hkid.
  - apply in_block_spec. simpl. lia.
  - unfold count. rewrite Hns. simpl. rewrite count_app. unfold pre. by rewrite count_none.
Qed.

Lemma grown_back b ns k :
  bok b -> b_nodes b = Some ns -> byte_ok k -> b_offset b + b_sz b <= pos_of k ->
  grown b (Block (b_offset b) (u8 (b_sz b + u8 (pos_of k - b_offset b - b_sz b + 1)))
             (Some (ns ++ replicate (Z.to_nat (32 * u8 (pos_of k - b_offset b - b_sz b + 1))) None))) k.
Proof.
  unfold byte_ok. intros Hb Hns Hk Hpos. pose proof Hb as Hb'. unfold bok in Hb'. rewrite Hns in Hb'.
  destruct Hb' as (H1 & H2 & H3 & H4 & H5). rewrite pos_div in *.
  pose proof (Z.div_mod k 32 ltac:(lia)). pose proof (Z.mod_pos_bound k 32 eq_refl).
  set (diff := k / 32 - b_offset b - b_sz b + 1).
  assert (u8 diff = diff) as -> by (apply Z.mod_small; lia).
  assert (u8 (b_sz b + diff) = b_sz b + diff) as -> by (apply Z.mod_small; lia).
  set (post := replicate _ None). set (b' := Block _ _ _).
  assert (length post = Z.to_nat (32 * diff)) as Hlen by apply length_replicate.
  assert (forall k', kid b' k' = kid b k') as Hkid.
  { intros k'. rewrite (kid_interval b' (ns ++ post)), (kid_interval b ns) by done. simpl.
    destruct (Z.leb_spec (32 * b_offset b) k'); [|done]. simpl.
    destruct (Z.ltb_spec k' (32 * (b_offset b + b_sz b))).
    - rewrite (proj2 (Z.ltb_lt _ _)) by lia. by rewrite lookup_app_l by lia.
    - destruct (k' <? 32 * (b_offset b + (b_sz b + diff))); [|done].
      rewrite lookup_app_r by lia. apply join_replicate. }
  split; [|split; [done|split; [|split; [|done]]]].
  - unfold bok. simpl. split; [lia|]. split; [lia|]. split; [lia|].
    split; [rewrite length_app; lia|]. by rewrite Hkid.
  - apply in_block_spec. simpl. lia.
  - unfold count. rewrite Hns. simpl. rewrite count_app. unfold post. rewrite count_none. lia.
Qed.

(** Resizing makes room for a byte and keeps every child; when the allocation
    fails nothing changes. *)
Lemma resize_spec b k s :
  bok b -> byte_ok k ->
  (in_block b k = true /\ b_nodes b <> None /\ smap__node_resize b (pos_of k) s = Some ((true, b), s)) \/
  kid b k = None /\
  match mem s with
  | O => smap__node_resize b (pos_of k) s = Some ((false, b), s)
  | S i => exists b', smap__node_resize b (pos_of k) s = Some ((true, b'), IState i (evs s)) /\ grown b b' k
  end.
Proof.
  intros Hb Hk. unfold smap__node_resize. destruct (b_nodes b) as [ns|] eqn:Hns.
  - destruct (Z.ltb_spec (pos_of k) (b_offset b)) as [Hp|Hp].
    + right. split; [unfold kid, in_block; by rewrite (proj2 (Z.ltb_lt _ _) Hp)|].
      unfold alloc, mbind, IM_bind, mret, IM_ret. destruct (mem s); [done|].
      eexists. split; [done|]. by apply grown_front.
    + destruct (Z.leb_spec (b_offset b + b_sz b) (pos_of k)) as [Hp'|Hp'].
      * right. split; [unfold kid, in_block; by rewrite (proj2 (Z.leb_le _ _) Hp'), orb_true_r|].
        unfold alloc, mbind, IM_bind, mret, IM_ret. destruct (mem s); [done|].
        eexists. split; [done|]. by apply grown_back.
      * left. split; [|done]. unfold in_block.
        by rewrite (proj2 (Z.ltb_ge _ _) Hp), (proj2 (Z.leb_gt _ _) Hp').
  - right. split; [by apply kid_nodes|]. unfold alloc, mbind, IM_bind, mret, IM_ret.
    destruct (mem s); [done|]. eexists. split; [done|]. by apply grown_new.
Qed.

Lemma grown_refl b k : bok b -> in_block b k = true -> b_nodes b <> None -> grown b b k.
Proof. intros ???. by split_and!. Qed.

(** ** Lookup in a tree *)

Fixpoint slook_f (f : nat) c key : option V :=
  match f with
  | O => None
  | S f =>
      match strip false (sn_key c) key with
      | Some (Some []) => sn_data c
      | Some (Some (k :: r)) => kid (sn_blk c) k ≫= fun c' => slook_f f c' r
      | _ => None
      end
  end.

Definition slook c key : option V := slook_f (S (length key)) c key.

Lemma slook_fuel f f' c key : (length key < f)%nat -> (length key < f')%nat -> slook_f f c key = slook_f f' c key.
Proof.
  revert f' c key. induction f as [|f IH]; intros [|f'] c key Hf Hf'; try lia. simpl.
  destruct (strip false (sn_key c) key) as [[[|k r]|]|] eqn:E; try done.
  apply strip_Some in E. subst key. rewrite length_app in *. simpl in *.
  destruct (kid (sn_blk c) k); [|done]. apply IH; lia.
Qed.

(** What a node holds under the keys that start with its own key. *)
Definition below_key b (data : option V) r : option V :=
  match r with [] => data | k :: r => kid b k ≫= fun c => slook c r end.

Lemma slook_app c r : slook c (sn_key c ++ r) = below_key (sn_blk c) (sn_data c) r.
Proof.
  unfold slook. cbn [slook_f]. rewrite strip_app. destruct r as [|k r]; [done|]. simpl.
  destruct (kid (sn_blk c) k); [|done]. apply slook_fuel; [rewrite length_app; simpl; lia|lia].
Qed.

Lemma slook_other c key : (forall r, key <> sn_key c ++ r) -> slook c key = None.
Proof.
  intros Hk. unfold slook. cbn [slook_f].
  destruct (strip_view (sn_key c) key) as [(r & -> & _)|[-> _]]; [by destruct (Hk r)|done].
Qed.

(** Two nodes agree on all keys when they agree behind a common prefix of theirs. *)
Lemma slook_split c p q :
  sn_key c = p ++ q -> forall key, slook c key <> None -> exists r, key = p ++ r.
Proof.
  intros E key Hk. destruct (strip_view (sn_key c) key) as [(r & -> & _)|[_ Hno]].
  - exists (q ++ r). by rewrite E, app_assoc.
  - by rewrite slook_other in Hk.
Qed.

(** ** Well-formed trees *)

Inductive swf : node -> Prop :=
  | swf_intro b size key data :
      key_ok key -> bok b -> size = count b -> (forall k c, kid b k = Some c -> swf c) ->
      swf (SNode b size key data).

Definition bwf b : Prop := bok b /\ forall k c, kid b k = Some c -> swf c.

Lemma swf_inv c : swf c -> key_ok (sn_key c) /\ bwf (sn_blk c) /\ sn_size c = count (sn_blk c).
Proof. destruct 1. by split_and!. Qed.

Lemma swf_make b size key data : key_ok key -> bwf b -> size = count b -> swf (SNode b size key data).
Proof. intros ? [? ?] ?. by constructor. Qed.

Lemma bwf_empty : bwf empty_block.
Proof. split; [done|]. intros k c Hk. by rewrite kid_nodes in Hk. Qed.

Lemma swf_leaf key data : key_ok key -> swf (SNode empty_block 0 key data).
Proof. intros. by apply swf_make; [|apply bwf_empty|]. Qed.

Lemma bwf_grown b b' k : bwf b -> grown b b' k -> bwf b'.
Proof. intros [_ Hc] (Hb & _ & _ & _ & Hk). split; [done|]. intros k' c. rewrite Hk. apply Hc. Qed.

Lemma bwf_put b k o o' :
  bwf b -> in_block b k = true -> b_nodes b <> None -> byte_ok k -> kid b k = o ->
  (forall c, o' = Some c -> swf c) ->
  exists b', put_at b k o' = Some b' /\ bwf b' /\ b_nodes b' <> None /\
    count b' = count b - (if o then 1 else 0) + (if o' then 1 else 0) /\
    forall k', kid b' k' = if k' =? k then o' else kid b k'.
Proof.
  intros [Hb Hc] Hin Hn Hk Ho Ho'. destruct (put_at_spec b k o o' Hb Hin Hn Hk Ho) as (b' & E & Hb' & Hn' & Hcnt & Hkid).
  exists b'. split_and!; try done. split; [done|]. intros k' c. rewrite Hkid.
  destruct (k' =? k); [apply Ho'|apply Hc].
Qed.

(** A block never has more than 255 children: no key has the byte zero. *)
Lemma count_le (ns : list (option node)) : 0 <= count_some ns <= Z.of_nat (length ns).
Proof. induction ns as [|o ns IH]; simpl; [lia|]. destruct o; lia. Qed.

Lemma count_255 b : bok b -> 0 <= count b <= 255.
Proof.
  intros Hb. unfold count. destruct (b_nodes b) as [ns|] eqn:Hns; [|lia]. pose proof (count_le ns).
  pose proof Hb as Hb'. unfold bok in Hb'. rewrite Hns in Hb'. destruct Hb' as (H1 & H2 & H3 & H4 & H5).
  destruct (Z.eq_dec (b_offset b) 0) as [E|E]; [|lia].
  destruct ns as [|o ns]; [simpl in *; lia|].
  destruct (kid_lookup b (o :: ns) 0 Hb Hns) as [Hk _]; [simpl; lia|].
  rewrite E in Hk. change (32 * 0 + Z.of_nat 0) with 0 in Hk. rewrite H5 in Hk. destruct o; [done|].
  simpl in *. pose proof (count_le ns). lia.
Qed.

(** A block without children. *)
Lemma count_0 (ns : list (option node)) i : count_some ns = 0 -> mjoin (ns !! i) = None.
Proof.
  revert i. induction ns as [|o ns IH]; intros i Hc; [done|]. simpl in Hc. pose proof (count_le ns).
  destruct o; [lia|]. destruct i as [|i]; [done|]. apply IH. lia.
Qed.

Lemma count_0_kid b k : count b = 0 -> kid b k = None.
Proof.
  intros Hc. destruct (b_nodes b) as [ns|] eqn:Hns; [|by apply kid_nodes].
  unfold count in Hc. rewrite Hns in Hc. rewrite (kid_interval b ns) by done.
  rewrite count_0 by done. by destruct (_ && _).
Qed.

(** The only child of a block. *)
Lemma first_child_spec (ns : list (option node)) i :
  match first_child i ns with
  | None => count_some ns = 0
  | Some (j, c) => exists l, j = (i + l)%nat /\ ns !! l = Some (Some c) /\
      (count_some ns = 1 -> forall l', l' <> l -> mjoin (ns !! l') = None)
  end.
Proof.
  revert i. induction ns as [|[c|] ns IH]; intros i; simpl; [done| |].
  - exists 0%nat. split; [lia|]. split; [done|]. intros Hc [|l'] Hl'; [done|]. simpl. apply count_0. lia.
  - specialize (IH (S i)). destruct (first_child (S i) ns) as [[j c]|]; [|lia].
    destruct IH as (l & -> & Hl & Hu). exists (S l). split; [lia|]. split; [done|].
    intros Hc [|l'] Hl'; [done|]. simpl. apply Hu; [lia|congruence].
Qed.

Lemma only_child b ns :
  bok b -> b_nodes b = Some ns -> count b = 1 ->
  exists i c, first_child 0 ns = Some (i, c) /\
    kid b (32 * b_offset b + Z.of_nat i) = Some c /\
    forall k, k <> 32 * b_offset b + Z.of_nat i -> kid b k = None.
Proof.
  intros Hb Hns Hc. unfold count in Hc. rewrite Hns in Hc. pose proof (first_child_spec ns 0) as Hf.
  destruct (first_child 0 ns) as [[i c]|]; [|lia]. destruct Hf as (l & -> & Hl & Hu). simpl in *.
  exists l, c. split; [done|]. destruct (kid_lookup b ns l Hb Hns (lookup_lt_Some _ _ _ Hl)) as [Hk _].
  split; [by rewrite Hk, Hl|]. intros k Hk'. rewrite (kid_interval b ns) by done.
  destruct (Z.leb_spec (32 * b_offset b) k); [|done]. simpl.
  destruct (k <? 32 * (b_offset b + b_sz b)); [|done]. apply Hu; [done|lia].
Qed.

(** ** Merging a node with its only child *)

Lemma slook_node b size key0 data r : slook (SNode b size key0 data) (key0 ++ r) = below_key b data r.
Proof. apply (slook_app (SNode b size key0 data)). Qed.

Lemma slook_node_other b size key0 data key :
  (forall r, key <> key0 ++ r) -> slook (SNode b size key0 data) key = None.
Proof. apply (slook_other (SNode b size key0 data)). Qed.

Lemma merged_look b size key0 k ch key :
  kid b k = Some ch -> (forall k', k' <> k -> kid b k' = None) ->
  slook (SNode (sn_blk ch) (sn_size ch) (key0 ++ k :: sn_key ch) (sn_data ch)) key =
  slook (SNode b size key0 None) key.
Proof.
  intros Hk Hu. destruct (strip_view key0 key) as [(r & -> & _)|[_ Hno]].
  - rewrite slook_node. destruct r as [|k' r]; simpl.
    + apply slook_node_other. intros r E%(f_equal length). rewrite !length_app in E. simpl in E. lia.
    + destruct (Z.eq_dec k' k) as [->|Hne].
      * rewrite Hk. simpl. destruct (strip_view (sn_key ch) r) as [(r' & -> & _)|[_ Hno]].
        -- change (key0 ++ k :: sn_key ch ++ r') with (key0 ++ ((k :: sn_key ch) ++ r')).
           rewrite app_assoc, slook_node. by rewrite slook_app.
        -- rewrite (slook_other ch) by done. apply slook_node_other. intros r' E.
           rewrite <- app_assoc in E. apply app_inv_head in E. simpl in E. injection E as E. by apply (Hno r').
      * rewrite Hu by done. apply slook_node_other. intros r' E. rewrite <- app_assoc in E.
        apply app_inv_head in E. simpl in E. congruence.
  - rewrite (slook_node_other b size) by done. apply slook_node_other. intros r ->.
    apply (Hno ((k :: sn_key ch) ++ r)). by rewrite app_assoc.
Qed.

Lemma merge_spec b key0 s :
  key_ok key0 -> bwf b -> count b = 1 ->
  exists c' s', smap__merge_node (SNode b 1 key0 None) s = Some (c', s') /\ evs s' = evs s /\ swf c' /\
    forall key, slook c' key = slook (SNode b 1 key0 None) key.
Proof.
  intros Hkey Hb Hc. pose proof Hb as [Hbok Hch].
  destruct (b_nodes b) as [ns|] eqn:Hns; [|unfold count in Hc; by rewrite Hns in Hc].
  destruct (only_child b ns Hbok Hns Hc) as (i & ch & Hf & Hk & Hu).
  unfold smap__merge_node. simpl sn_blk. rewrite Hns, IM_deref_Some, Hf, IM_deref_Some.
  unfold alloc, mbind, IM_bind, mret, IM_ret. destruct (mem s) as [|m].
  - eexists _, _. split; [done|]. split; [done|]. split; [by apply swf_make|done].
  - eexists _, _. split; [done|]. split; [done|]. cbn [sn_key sn_blk].
    destruct (kid_inv _ _ _ Hbok Hk) as (_ & _ & _ & _ & Hb0).
    assert (u8 (Z.of_nat i + Z.shiftl (b_offset b) SMAP_BSH) = 32 * b_offset b + Z.of_nat i) as ->.
    { rewrite shiftl_mul. unfold u8. rewrite Z.mod_small; lia. }
    pose proof (swf_inv _ (Hch _ _ Hk)) as (Hck & Hcb & Hcs). split.
    + apply swf_make; [|done|done]. apply Forall_app. split; [done|]. by constructor.
    + intros key. by apply merged_look.
Qed.

(** A parent that lost a child. *)
Lemma dec_spec b key0 data s :
  key_ok key0 -> bwf b ->
  exists c' s', smap__dec_node (SNode b (count b + 1) key0 data) s = Some (c', s') /\ evs s' = evs s /\ swf c' /\
    forall key, slook c' key = slook (SNode b (count b + 1) key0 data) key.
Proof.
  intros Hkey Hb. pose proof (count_255 b (proj1 Hb)). unfold smap__dec_node. cbn [sn_size sn_blk sn_key sn_data].
  replace (u8 (count b + 1 - 1)) with (count b) by (unfold u8; rewrite Z.mod_small; lia).
  assert (forall b' z z' key, (forall k, kid b' k = kid b k) ->
    slook (SNode b' z key0 data) key = slook (SNode b z' key0 data) key) as Hsame.
  { intros b' z z' key Hk. destruct (strip_view key0 key) as [(r & -> & _)|[_ Hno]].
    - rewrite !slook_node. destruct r as [|k r]; simpl; [done|]. by rewrite Hk.
    - by rewrite !slook_node_other. }
  destruct (Z.eqb_spec (count b) 0) as [E|E].
  - eexists _, _. split; [done|]. split; [done|]. split.
    + apply swf_make; [done| |done]. split; [done|]. intros k c Hk. by rewrite kid_nodes in Hk.
    + intros key. apply Hsame. intros k. rewrite (count_0_kid b) by done. by apply kid_nodes.
  - destruct data as [d|].
    + eexists _, _. split; [done|]. split; [done|]. split; [by apply swf_make|]. intros key. by apply Hsame.
    + destruct (Z.eqb_spec (count b) 1) as [E1|E1].
      * rewrite E1. destruct (merge_spec b key0 s Hkey Hb E1) as (c' & s' & Em & Hev & Hw & Hl).
        exists c', s'. split; [done|]. split; [done|]. split; [done|]. intros key. rewrite Hl. by apply Hsame.
      * eexists _, _. split; [done|]. split; [done|]. split; [by apply swf_make|]. intros key. by apply Hsame.
Qed.

(** ** Popping *)

Lemma below_put b b' data k o r :
  (forall k', kid b' k' = if k' =? k then o else kid b k') ->
  below_key b' data r = match r with
                        | k' :: r' => if k' =? k then o ≫= fun c => slook c r' else below_key b data r
                        | [] => data
                        end.
Proof. intros Hk. destruct r as [|k' r]; simpl; [done|]. rewrite Hk. by destruct (k' =? k). Qed.

(** [c'] instead of [c] after popping [key]. *)
Definition popped c key (o : option node) : Prop :=
  forall key', (o ≫= fun c' => slook c' key') = if decide (key' = key) then None else slook c key'.

Definition pop_post c key (d : option V) (o : option node) (dec : bool) : Prop :=
  d = slook c key /\ popped c key o /\
  match o with Some c' => dec = false /\ swf c' | None => dec = true end.

Lemma popped_nothing c key : slook c key = None -> popped c key (Some c).
Proof. intros Hl key'. simpl. by case_decide; subst. Qed.

Lemma pop_spec f c key s :
  (length key < f)%nat -> swf c ->
  exists d o dec s', pop_node false f c key s = Some ((d, o, dec), s') /\ evs s' = evs s /\ pop_post c key d o dec.
Proof.
  revert c key s. induction f as [|f IH]; intros c key s Hf Hw; [lia|]. cbn [pop_node].
  pose proof (swf_inv c Hw) as (Hkey & Hb & Hsize).
  assert (slook c key = None -> exists d o dec s', Some ((None, Some c, false), s) = Some ((d, o, dec), s') /\
    evs s' = evs s /\ pop_post c key d o dec) as Hnone.
  { intros Hl. do 4 eexists. split; [done|]. split; [done|]. split; [done|].
    split; [by apply popped_nothing|done]. }
  destruct (strip_view (sn_key c) key) as [(r & Ek & ->)|[-> Hno]]; rewrite IM_deref_Some.
  2: { apply Hnone. by apply slook_other. }
  destruct r as [|k r].
  - rewrite app_nil_r in Ek. subst key.
    assert (slook c (sn_key c) = sn_data c) as Hd.
    { rewrite <- (app_nil_r (sn_key c)) at 1. by rewrite slook_app. }
    destruct (Z.eqb_spec (sn_size c) 0) as [E|E].
    + do 4 eexists. split; [done|]. split; [done|]. split; [done|]. split; [|done].
      intros key'. simpl. case_decide as Hk'; [done|].
      destruct (strip_view (sn_key c) key') as [(r & -> & _)|[_ Hno]]; [|by rewrite slook_other].
      rewrite slook_app. destruct r as [|k r]; [by rewrite app_nil_r in Hk'|]. simpl.
      by rewrite count_0_kid by congruence.
    + assert (popped c (sn_key c) (Some (SNode (sn_blk c) (sn_size c) (sn_key c) None))) as Hpop.
      { intros key'. simpl. destruct (strip_view (sn_key c) key') as [(r & -> & _)|[_ Hno]].
        - rewrite slook_node, slook_app. destruct r as [|k r]; simpl.
          + rewrite app_nil_r. by rewrite decide_True.
          + rewrite decide_False; [done|]. intros E'%(f_equal length). rewrite length_app in E'. simpl in E'. lia.
        - rewrite slook_node_other, slook_other by done. by case_decide. }
      destruct (Z.eqb_spec (sn_size c) 1) as [E1|E1].
      * rewrite E1 in Hpop. rewrite E1.
        destruct (merge_spec (sn_blk c) (sn_key c) s Hkey Hb ltac:(congruence)) as (c' & s' & Em & Hev & Hw' & Hl).
        rewrite (IM_bind_Some _ _ _ _ _ Em). do 4 eexists. split; [done|]. split; [done|]. split; [done|].
        split; [|done]. intros key'. simpl. rewrite Hl. apply Hpop.
      * do 4 eexists. split; [done|]. split; [done|]. split; [done|]. split; [done|]. split; [done|].
        by apply swf_make.
  - destruct (b_nodes (sn_blk c)) as [ns|] eqn:Hns.
    2: { apply Hnone. subst key. rewrite slook_app. simpl. by rewrite kid_nodes. }
    destruct (in_block (sn_blk c) k) eqn:Hin; cbn [negb].
    2: { apply Hnone. subst key. rewrite slook_app. simpl. unfold kid. by rewrite Hin. }
    destruct (child_at_Some _ _ _ (proj1 Hb) Hns Hin) as (o & Eo & _ & Hkid). rewrite Eo, IM_deref_Some.
    destruct o as [nd|].
    2: { apply Hnone. subst key. rewrite slook_app. simpl. by rewrite Hkid. }
    assert (byte_ok k) as Hk by (destruct (kid_inv _ _ _ (proj1 Hb) Hkid) as (_ & _ & _ & _ & Hk); exact Hk).
    destruct (IH nd r s) as (d & o & dec & s1 & E1 & Hev & Hd & Hpop & Ho).
    { subst key. rewrite length_app in Hf. simpl in Hf. lia. }
    { by apply (proj2 Hb k). }
    rewrite (IM_bind_Some _ _ _ _ _ E1). cbv beta iota.
    destruct (bwf_put (sn_blk c) k (Some nd) o Hb Hin ltac:(congruence) Hk Hkid) as (b' & Eb & Hb' & Hn' & Hcnt & Hkid').
    { intros c' ->. by destruct Ho. }
    rewrite Eb, IM_deref_Some.
    assert (forall z, popped c key (Some (SNode b' z (sn_key c) (sn_data c)))) as Hpop'.
    { intros z key'. simpl. destruct (strip_view (sn_key c) key') as [(r' & -> & _)|[_ Hno]].
      - rewrite slook_node, slook_app, (below_put _ _ _ k o r' Hkid'). subst key. destruct r' as [|k' r']; simpl.
        + rewrite decide_False; [done|]. intros E'%app_inv_head. done.
        + destruct (Z.eqb_spec k' k) as [->|Hne].
          * rewrite Hpop, Hkid. simpl. destruct (decide (r' = r)) as [->|Hr]; [by rewrite decide_True|].
            rewrite decide_False; [done|]. intros E'%app_inv_head. congruence.
          * rewrite decide_False; [done|]. intros E'%app_inv_head. congruence.
      - rewrite slook_node_other, slook_other by done. by case_decide. }
    assert (d = slook c key) as Hd'.
    { subst key. rewrite slook_app. simpl. rewrite Hkid. done. }
    destruct dec.
    + destruct o as [?|]; [by destruct Ho|].
      destruct (dec_spec b' (sn_key c) (sn_data c) s1 Hkey Hb') as (c' & s' & Ed & Hev' & Hw' & Hl).
      assert (with_blk b' c = SNode b' (count b' + 1) (sn_key c) (sn_data c)) as ->.
      { unfold with_blk. f_equal. rewrite Hsize, Hcnt. lia. }
      rewrite (IM_bind_Some _ _ _ _ _ Ed). do 4 eexists. split; [done|]. split; [congruence|].
      split; [done|]. split; [|done]. intros key'. simpl. rewrite Hl. apply (Hpop' (count b' + 1)).
    + destruct o as [c'|]; [|done].
      do 4 eexists. split; [done|]. split; [congruence|]. split; [done|]. split; [apply Hpop'|]. split; [done|].
      apply swf_make; [done|done|]. rewrite Hsize, Hcnt. lia.
Qed.

End Tree.
