(* ===== verification/SmapAdd.v ===== *)
(** * Adding to the prefix tree, and the zero-terminated versions

    Following a key down to the node where it ends ([get_spec]), adding it
    there, below it or by splitting the node ([add_spec]), and that on keys
    without the byte zero the versions for zero-terminated strings do the same
    as those that get the length of the key. *)
From Stdlib Require Import ZArith Lia.
From stdpp Require Import base list option numbers sets gmap.
From S2P Require Import Prelude Mem Smap SmapProof.

Section Add.
Context {V : Type}.
Notation node := (smap_node V).
Implicit Types (c nd : node) (b : block node) (key p r : list Z) (k : Z) (v : V).

(** ** Lookup *)

Lemma get_spec f c key : (length key < f)%nat -> swf c -> get_loop false f (Some c) key = Some (slook c key).
Proof.
  revert c key. induction f as [|f IH]; intros c key Hf Hw; [lia|]. cbn [get_loop].
  pose proof (swf_inv c Hw) as (_ & Hb & _).
  destruct (strip_view (sn_key c) key) as [(r & -> & ->)|[-> Hno]]; cbn [mbind option_bind].
  2: { by rewrite slook_other. }
  rewrite slook_app. destruct r as [|k r]; [done|]. simpl below_key.
  destruct (b_nodes (sn_blk c)) as [ns|] eqn:Hns; [|by rewrite kid_nodes].
  destruct (in_block (sn_blk c) k) eqn:Hin; cbn [negb]; [|unfold kid; by rewrite Hin].
  destruct (child_at_Some _ _ _ (proj1 Hb) Hns Hin) as (o & -> & _ & Hkid). rewrite Hkid. simpl.
  destruct o as [nd|]; [|by destruct f]. apply IH; [|by apply (proj2 Hb k)].
  rewrite length_app in Hf. simpl in Hf. lia.
Qed.

(** ** Comparing a key with the key of a node *)

Lemma scan_view pre p key :
  (exists r, key = p ++ r /\ scan false pre p key = Some (ScanAll r)) \/
  (exists q pt post rest, p = q ++ pt :: post /\ key = q ++ rest /\ head rest <> Some pt /\
     scan false pre p key = Some (ScanDiff (pre ++ q) pt post rest)).
Proof.
  revert pre key. induction p as [|x p IH]; intros pre key; simpl; [left; by exists key|].
  destruct key as [|k key].
  - right. exists [], x, p, []. rewrite (app_nil_r pre). by split_and!.
  - destruct (Z.eqb_spec k x) as [->|Hne].
    + destruct (IH (pre ++ [x]) key) as [(r & -> & E)|(q & pt & post & rest & -> & -> & Hr & E)].
      * left. by exists r.
      * right. exists (x :: q), pt, post, rest. rewrite <- app_assoc in E. by split_and!.
    + right. exists [], x, p, (k :: key). rewrite (app_nil_r pre). split_and!; try done. simpl. congruence.
Qed.

Lemma scan_zero pre p key : key_ok p -> scan true pre p key = scan false pre p key.
Proof.
  intros Hp. revert pre key. induction Hp as [|x p Hx Hp IH]; intros pre key; [done|].
  destruct key as [|k key]; simpl; [|by destruct (k =? x)].
  unfold byte_ok in Hx. destruct (Z.eqb_spec x 0); [lia|done].
Qed.

(** ** New nodes *)

Lemma node_create_spec key (data : option V) s :
  runs 2 (smap__node_create key data) s
    (fun o s' => o = Some (SNode empty_block 0 key data) /\ evs s' = evs s).
Proof.
  intros Hm. unfold smap__node_create, alloc, mbind, IM_bind, mret, IM_ret. destruct s as [[|[|i]] ev]; simpl in *; try lia.
  destruct key; eexists _, _; (split; [done|]); simpl; split; try done; lia.
Qed.

Lemma shrink_key_spec p s : runs 1 (shrink_key (V:=V) p) s (fun _ s' => evs s' = evs s).
Proof.
  intros Hm. unfold shrink_key, alloc, mbind, IM_bind, mret, IM_ret. destruct s as [[|i] ev]; simpl in *; [lia|].
  destruct p; eexists _, _; (split; [done|]); simpl; split; try done; lia.
Qed.

(** ** The effect of adding *)

Definition added c key v c' : Prop :=
  forall key', slook c' key' = if decide (key' = key) then Some v else slook c key'.

Definition add_post c key v (x : Z * node) : Prop :=
  swf x.2 /\
  match slook c key with
  | Some _ => x.1 = SMAP_ERR_EXIST /\ forall key', slook x.2 key' = slook c key'
  | None => x.1 = 0 /\ added c key v x.2
  end.

(** It is enough to look at the keys behind the common key of the nodes. *)
Lemma added_below b size data b' size' data' key0 rest v :
  (forall r, below_key b' data' r = if decide (r = rest) then Some v else below_key b data r) ->
  added (SNode b size key0 data) (key0 ++ rest) v (SNode b' size' key0 data').
Proof.
  intros Hr key'. destruct (strip_view key0 key') as [(r & -> & _)|[_ Hno]].
  - rewrite !slook_node, Hr. destruct (decide (r = rest)) as [->|Hne]; [by rewrite decide_True|].
    rewrite decide_False; [done|]. by intros ?%app_inv_head.
  - rewrite !slook_node_other by done. rewrite decide_False; [done|]. apply Hno.
Qed.

Lemma same_below b size data b' size' data' key0 key :
  (forall r, below_key b' data' r = below_key b data r) ->
  slook (SNode b' size' key0 data') key = slook (SNode b size key0 data) key.
Proof.
  intros Hr. destruct (strip_view key0 key) as [(r & -> & _)|[_ Hno]]; [by rewrite !slook_node, Hr|].
  by rewrite !slook_node_other.
Qed.

Lemma leaf_look key (data : option V) r :
  slook (SNode empty_block 0 key data) r = if decide (r = key) then data else None.
Proof.
  destruct (strip_view key r) as [(r' & -> & _)|[_ Hno]].
  - rewrite slook_node. destruct r' as [|k r']; simpl.
    + by rewrite app_nil_r, decide_True.
    + rewrite kid_nodes by done. rewrite decide_False; [done|]. intros E%(f_equal length).
      rewrite length_app in E. simpl in E. lia.
  - rewrite slook_node_other by done. rewrite decide_False; [done|]. intros ->. apply (Hno []). by rewrite app_nil_r.
Qed.

(** Putting a leaf where no child was. *)
Lemma below_leaf b b' data k rest v r :
  kid b k = None ->
  (forall k', kid b' k' = if k' =? k then Some (SNode empty_block 0 rest (Some v)) else kid b k') ->
  below_key b' data r = if decide (r = k :: rest) then Some v else below_key b data r.
Proof.
  intros Hk Hkid. rewrite (below_put _ _ _ _ _ _ Hkid). destruct r as [|k' r']; [done|].
  destruct (Z.eqb_spec k' k) as [->|Hne]; [|rewrite decide_False; [done|congruence]].
  cbn [mbind option_bind]. rewrite leaf_look. simpl. rewrite Hk.
  destruct (decide (r' = rest)) as [->|Hr]; [by rewrite decide_True|]. rewrite decide_False; [done|congruence].
Qed.

Lemma add_child_spec c b k rest v size s :
  key_ok (sn_key c) -> bwf b -> in_block b k = true -> b_nodes b <> None -> byte_ok k -> key_ok rest ->
  kid b k = None -> (forall k', kid b k' = kid (sn_blk c) k') -> size = u8 (count b + 1) ->
  runs 2 (add_child c b k rest v size) s (fun x s' => add_post c (sn_key c ++ k :: rest) v x /\ evs s' = evs s).
Proof.
  intros Hkey Hb Hin Hn Hk Hrest Hno Hsame Hsize. unfold add_child.
  change 2%nat with (2 + 0)%nat. apply runs_bind.
  eapply (runs_mono 2); [lia| |apply node_create_spec]. intros o s1 [-> Hev]. cbv beta iota.
  destruct (bwf_put b k None (Some (SNode empty_block 0 rest (Some v))) Hb Hin Hn Hk Hno)
    as (b' & -> & Hb' & _ & Hcnt & Hkid); [intros ? [= <-]; by apply swf_leaf|].
  apply runs_deref, runs_ret. split; [|done]. split; simpl.
  { apply swf_make; [done|done|]. simpl in Hcnt. pose proof (count_255 b' (proj1 Hb')).
    pose proof (count_255 b (proj1 Hb)). rewrite Hsize, u8_small; lia. }
  rewrite slook_app. simpl. rewrite <- Hsame, Hno. simpl. split; [done|].
  destruct c as [bc z key0 data]. apply added_below. simpl in *. intros r.
  rewrite (below_leaf b b' data k rest v r) by done. case_decide; [done|]. destruct r; simpl; [done|]. by rewrite Hsame.
Qed.

(** ** Resizing with memory left *)

Lemma resize_runs b k s :
  bwf b -> byte_ok k ->
  runs (if kid b k then 0 else 1)%nat (smap__node_resize b (pos_of k)) s
    (fun x s' => x.1 = true /\ grown b x.2 k /\ evs s' = evs s).
Proof.
  intros Hb Hk Hm. destruct (resize_spec b k s (proj1 Hb) Hk) as [(Hin & Hn & E)|[Hno E]].
  - eexists _, _. split; [exact E|]. split; [lia|]. split; [done|]. split; [|done]. by apply grown_refl; [apply Hb| |].
  - rewrite Hno in *. destruct s as [[|i] ev]; simpl in *; [lia|]. destruct E as (b' & E & Hg).
    eexists _, _. split; [exact E|]. simpl. split; [lia|done].
Qed.

(** ** Splitting a node *)

Lemma split_block pt nd :
  byte_ok pt -> swf nd ->
  let b := Block (pos_of pt) 1 (Some (<[Z.to_nat (pt mod SMAP_BSZ) := Some nd]> (replicate 32 None))) in
  bwf b /\ in_block b pt = true /\ count b = 1 /\ forall k, kid b k = if k =? pt then Some nd else None.
Proof.
  intros Hpt Hnd. pose proof (grown_new (@empty_block V) pt eq_refl Hpt) as Hg.
  pose proof (bwf_grown _ _ _ bwf_empty Hg) as Hb0. destruct Hg as (_ & Hn & Hin & Hcnt & Hkid).
  set (b0 := Block (pos_of pt) 1 (Some (replicate 32 None))) in *.
  destruct (bwf_put b0 pt None (Some nd) Hb0 Hin Hn Hpt) as (b' & E & Hb' & _ & Hcnt' & Hkid').
  { rewrite Hkid. by apply kid_nodes. }
  { by intros ? [= <-]. }
  assert (slot_index b0 pt = Z.to_nat (pt mod SMAP_BSZ)) as Hi.
  { unfold slot_index. rewrite shiftl_mul. simpl b_offset. rewrite pos_div. unfold SMAP_BSZ.
    f_equal. pose proof (Z.div_mod pt 32 ltac:(lia)). lia. }
  unfold put_at in E. rewrite Hi in E. change (b_nodes b0) with (Some (replicate 32 (@None node))) in E. cbn [mbind option_bind] in E.
  rewrite lookup_replicate_2 in E.
  2: { unfold SMAP_BSZ. pose proof (Z.mod_pos_bound pt 32 eq_refl). lia. }
  intros b. assert (b' = b) as -> by (apply (inj Some); symmetry; exact E). clear E.
  split; [done|]. split; [exact Hin|]. split.
  - by rewrite Hcnt', Hcnt.
  - intros k. rewrite Hkid'. destruct (k =? pt); [done|]. rewrite Hkid. by apply kid_nodes.
Qed.

Lemma split_spec c pre pt post rest v s :
  swf c -> sn_key c = pre ++ pt :: post -> key_ok rest -> head rest <> Some pt ->
  runs 7 (split_node c pre pt post rest v) s (fun x s' => add_post c (pre ++ rest) v x /\ evs s' = evs s).
Proof.
  intros Hw Ekey Hrest Hhead. pose proof (swf_inv c Hw) as (Hkey & Hb & Hsize). rewrite Ekey in Hkey.
  apply Forall_app in Hkey as [Hpre [Hpt Hpost]%Forall_cons_1].
  unfold split_node. change 7%nat with (1 + (2 + 4))%nat. apply runs_bind.
  intros Hm. destruct s as [[|i] ev]; simpl in Hm; [lia|]. eexists true, (IState i ev). split; [done|].
  split; [simpl; lia|]. cbn [negb]. apply runs_bind.
  eapply (runs_mono 2); [lia| |apply node_create_spec]. intros o s1 [-> Hev]. simpl in Hev. cbv beta iota zeta.
  set (nd := SNode (sn_blk c) (sn_size c) post (sn_data c)).
  assert (swf nd) as Hnd by (by apply swf_make).
  destruct (split_block pt nd Hpt Hnd) as (Hb0 & Hin0 & Hc0 & Hk0).
  set (b0 := Block (pos_of pt) 1 _) in *.
  assert (forall key, slook c key = slook (SNode b0 1 pre None) key) as Hsame.
  { intros key. rewrite <- (merged_look b0 1 pre pt nd key); [|by rewrite Hk0, Z.eqb_refl|].
    - destruct c as [bc z key0 data]. simpl in Ekey. subst key0. done.
    - intros k' Hne. rewrite Hk0. by destruct (Z.eqb_spec k' pt). }
  assert (slook c (pre ++ rest) = None) as Hno.
  { rewrite Hsame, slook_node. destruct rest as [|k rest]; simpl; [done|]. rewrite Hk0.
    destruct (Z.eqb_spec k pt) as [->|]; [by destruct Hhead|done]. }
  assert (forall key v c', added (SNode b0 1 pre None) key v c' -> added c key v c') as Hadd.
  { intros key w c' Ha key'. by rewrite Ha, Hsame. }
  destruct rest as [|k rest].
  - change 4%nat with (4 + 0)%nat. apply runs_bind. eapply (runs_mono 1); [lia| |apply shrink_key_spec].
    intros [] s2 Hev2. apply runs_ret. split; [|simpl; congruence].
    split; [by apply swf_make|]. rewrite Hno. split; [done|]. apply Hadd, added_below. by intros [|k r].
  - apply Forall_cons_1 in Hrest as [Hk Hrest]. simpl in Hhead.
    assert (kid b0 k = None) as Hkid0 by (rewrite Hk0; destruct (Z.eqb_spec k pt); congruence).
    change 4%nat with (1 + (2 + 1))%nat. apply runs_bind.
    pose proof (resize_runs b0 k s1 Hb0 Hk) as Hres. rewrite Hkid0 in Hres.
    eapply (runs_mono 1); [lia| |exact Hres]. intros [ok b1] s2 (Hok & Hg & Hev2). simpl in Hok, Hg. subst ok.
    cbn [negb]. apply runs_bind. eapply (runs_mono 2); [lia| |apply node_create_spec].
    intros o s3 [-> Hev3]. cbv beta iota. pose proof (bwf_grown _ _ _ Hb0 Hg) as Hb1.
    destruct Hg as (_ & Hn1 & Hin1 & Hcnt1 & Hkid1).
    destruct (bwf_put b1 k None (Some (SNode empty_block 0 rest (Some v))) Hb1 Hin1 Hn1 Hk)
      as (b2 & -> & Hb2 & _ & Hcnt2 & Hkid2); [by rewrite Hkid1|intros ? [= <-]; by apply swf_leaf|].
    apply runs_deref. change 1%nat with (1 + 0)%nat. apply runs_bind.
    eapply (runs_mono 1); [lia| |apply shrink_key_spec]. intros [] s4 Hev4. apply runs_ret. split; [|simpl; congruence].
    split; simpl; [apply swf_make; [done|done|]; simpl in Hcnt2; lia|]. rewrite Hno. split; [done|].
    apply Hadd, added_below. intros r. rewrite <- (below_leaf b0 b2 None k rest v r); [done|done|].
    intros k'. by rewrite Hkid2, Hkid1.
Qed.

(** ** Adding *)

(** The child for [k] after [r] was added to it. *)
Lemma through_spec c b k nd r v rc nd' :
  swf c -> grown (sn_blk c) b k -> byte_ok k -> kid (sn_blk c) k = Some nd -> add_post nd r v (rc, nd') ->
  exists b', put_at b k (Some nd') = Some b' /\ add_post c (sn_key c ++ k :: r) v (rc, with_blk b' c).
Proof.
  intros Hw Hg Hk Hkid [Hw' Hpost]. simpl in Hw', Hpost. pose proof (swf_inv c Hw) as (Hkey & Hb & Hsize).
  pose proof (bwf_grown _ _ _ Hb Hg) as Hb1. destruct Hg as (_ & Hn1 & Hin1 & Hcnt1 & Hkid1).
  destruct (bwf_put b k (Some nd) (Some nd') Hb1 Hin1) as (b2 & -> & Hb2 & _ & Hcnt2 & Hkid2);
    [done|done|by rewrite Hkid1|by intros ? [= <-]|].
  exists b2. split; [done|]. split; simpl.
  { apply swf_make; [done|done|]. simpl in Hcnt2. lia. }
  rewrite slook_app. cbn [below_key]. rewrite Hkid. cbn [mbind option_bind].
  assert (forall r', below_key b2 (sn_data c) r' = match r' with
    | k' :: r'' => if k' =? k then slook nd' r'' else below_key (sn_blk c) (sn_data c) r'
    | [] => sn_data c end) as Hbelow.
  { intros r'. rewrite (below_put (sn_blk c) b2 _ k (Some nd')); [done|]. intros k'. by rewrite Hkid2, Hkid1. }
  destruct c as [bc z key0 data]. unfold with_blk. simpl in *. destruct (slook nd r); destruct Hpost as [-> Hl].
  - split; [done|]. intros key'. apply same_below. intros r'. rewrite Hbelow. destruct r' as [|k' r']; [done|].
    simpl. destruct (Z.eqb_spec k' k) as [->|]; [|done]. rewrite Hkid. apply Hl.
  - split; [done|]. apply added_below. intros r'. rewrite Hbelow. destruct r' as [|k' r']; [done|].
    simpl. destruct (Z.eqb_spec k' k) as [->|Hne]; [|rewrite decide_False; [done|congruence]].
    rewrite Hl, Hkid. simpl. destruct (decide (r' = r)) as [->|]; [by rewrite decide_True|].
    rewrite decide_False; [done|congruence].
Qed.

Lemma grown_child b b' k : grown b b' k -> child_at b' k = Some (kid b k) /\ b_nodes b' <> None.
Proof.
  intros (Hb & Hn & Hin & _ & Hkid). split; [|done]. destruct (b_nodes b') as [ns|] eqn:Hns; [|done].
  destruct (child_at_Some b' ns k Hb Hns Hin) as (o & -> & _ & <-). by rewrite Hkid.
Qed.

Lemma add_spec f c key v s :
  (length key < f)%nat -> swf c -> key_ok key ->
  runs 7 (add_node false f c key v) s (fun x s' => add_post c key v x /\ evs s' = evs s).
Proof.
  revert c key s. induction f as [|f IH]; intros c key s Hf Hw Hkeyok; [lia|]. cbn [add_node].
  pose proof (swf_inv c Hw) as (Hkey & Hb & Hsize).
  destruct (scan_view [] (sn_key c) key) as [(r & -> & ->)|(q & pt & post & rest & Eq & -> & Hr & ->)]; apply runs_deref.
  2: { apply Forall_app in Hkeyok as [_ Hrest]. by apply split_spec. }
  apply Forall_app in Hkeyok as [_ Hrok]. destruct r as [|k r].
  - assert (slook c (sn_key c ++ []) = sn_data c) as Hd by (by rewrite slook_app).
    eapply (runs_mono 0); [lia|intros ?? H; exact H|].
    destruct (sn_data c) as [d|] eqn:Ed; apply runs_ret; (split; [|done]); split; simpl.
    + done.
    + by rewrite Hd.
    + by apply swf_make.
    + rewrite Hd. split; [done|]. destruct c as [bc z key0 data]. simpl in *. subst data.
      apply added_below. by intros [|k r].
  - apply Forall_cons_1 in Hrok as [Hk Hr]. rewrite length_app in Hf. simpl in Hf.
    pose proof (resize_runs (sn_blk c) k s Hb Hk) as Hres.
    destruct (kid (sn_blk c) k) as [nd|] eqn:Hkid.
    + change 7%nat with (0 + 7)%nat. apply runs_bind. eapply (runs_mono 0); [lia| |exact Hres].
      intros [ok b] s1 (Hok & Hg & Hev). simpl in Hok, Hg. subst ok. cbn [negb].
      destruct (kid_inv _ _ _ (proj1 Hb) Hkid) as (ns & -> & _).
      rewrite (proj1 (grown_child _ _ _ Hg)), Hkid.
      apply runs_deref. change 7%nat with (7 + 0)%nat. apply runs_bind.
      eapply (runs_mono 7); [lia| |apply IH; [lia|by apply (proj2 Hb k)|done]].
      intros [rc nd'] s2 [Hpost Hev2].
      destruct (through_spec c b k nd r v rc nd' Hw Hg Hk Hkid Hpost) as (b' & -> & Hpost').
      apply runs_deref, runs_ret. split; [done|congruence].
    + change 7%nat with (1 + 6)%nat. apply runs_bind. eapply (runs_mono 1); [lia| |exact Hres].
      intros [ok b] s1 (Hok & Hg & Hev). simpl in Hok, Hg. subst ok. cbn [negb].
      apply (runs_mono 2 _ _ _ (fun x s' => add_post c (sn_key c ++ k :: r) v x /\ evs s' = evs s1));
        [lia|intros x s' [Hx ->]; by rewrite Hev|].
      pose proof (bwf_grown _ _ _ Hb Hg) as Hb1. pose proof (grown_child _ _ _ Hg) as [Hch _]. rewrite Hkid in Hch.
      destruct Hg as (_ & Hn1 & Hin1 & Hcnt1 & Hkid1).
      assert (kid b k = None) by (by rewrite Hkid1).
      destruct (b_nodes (sn_blk c)) as [ns|] eqn:Hns; [rewrite Hch; apply runs_deref|];
        apply add_child_spec; try done; rewrite Hcnt1; [by rewrite Hsize|unfold count; by rewrite Hns].
Qed.

(** ** Zero-terminated keys *)

Lemma resize_grown b k s b' s' :
  bwf b -> byte_ok k -> smap__node_resize b (pos_of k) s = Some ((true, b'), s') -> grown b b' k.
Proof.
  intros Hb Hk Hres. destruct (resize_spec b k s (proj1 Hb) Hk) as [(Hin & Hn & E)|[_ E]].
  - rewrite Hres in E. injection E as -> ->. by apply grown_refl; [apply Hb| |].
  - destruct (mem s); [congruence|]. destruct E as (b1 & E & Hg). congruence.
Qed.

Lemma child_swf b k nd : bwf b -> in_block b k = true -> child_at b k = Some (Some nd) -> swf nd.
Proof. intros [_ Hc] Hin Hch. apply (Hc k). unfold kid. by rewrite Hin, Hch. Qed.

Lemma get_loop_zero f o key : (forall c, o = Some c -> swf c) -> get_loop true f o key = get_loop false f o key.
Proof.
  revert o key. induction f as [|f IH]; intros o key Hw; [done|]. destruct o as [c|]; [|done]. cbn [get_loop].
  pose proof (swf_inv c (Hw c eq_refl)) as (Hkey & Hb & _). rewrite (strip_zero _ _ Hkey).
  destruct (strip false (sn_key c) key) as [[[|k r]|]|]; cbn [mbind option_bind]; try done.
  destruct (b_nodes (sn_blk c)); [|done]. destruct (in_block (sn_blk c) k) eqn:Hin; [|done]. cbn [negb].
  destruct (child_at (sn_blk c) k) as [o|] eqn:Hch; [|done]. cbn [mbind option_bind]. apply IH.
  intros c' ->. exact (child_swf _ _ _ Hb Hin Hch).
Qed.

Lemma pop_node_zero f c key s : swf c -> pop_node true f c key s = pop_node false f c key s.
Proof.
  revert c key s. induction f as [|f IH]; intros c key s Hw; [done|]. cbn [pop_node].
  pose proof (swf_inv c Hw) as (Hkey & Hb & _). rewrite (strip_zero _ _ Hkey).
  apply IM_bind_ext. intros [[|k r]|] s1 _; try done.
  destruct (b_nodes (sn_blk c)); [|done]. destruct (in_block (sn_blk c) k) eqn:Hin; [|done]. cbn [negb].
  apply IM_bind_ext. intros [nd|] s2 Hch; [|done]. apply IM_bind_cong, IH.
  destruct (child_at (sn_blk c) k) as [o|] eqn:E; [|done]. injection Hch as -> _.
  exact (child_swf _ _ _ Hb Hin E).
Qed.

Lemma add_node_zero f c key v s : swf c -> key_ok key -> add_node true f c key v s = add_node false f c key v s.
Proof.
  revert c key s. induction f as [|f IH]; intros c key s Hw Hkok; [done|]. cbn [add_node].
  pose proof (swf_inv c Hw) as (Hkey & Hb & _). rewrite (scan_zero _ _ _ Hkey).
  destruct (scan_view [] (sn_key c) key) as [(r & -> & ->)|(q & pt & post & rest & _ & _ & _ & ->)];
    rewrite !IM_deref_Some; [|done].
  destruct r as [|k r]; [done|]. apply Forall_app in Hkok as [_ [Hk Hr]%Forall_cons_1].
  apply IM_bind_ext. intros [[] b] s1 Hres; cbn [negb]; [|done].
  destruct (b_nodes (sn_blk c)) as [ns|] eqn:Hns; [|done].
  apply IM_bind_ext. intros [nd|] s2 Hch; [|done]. apply IM_bind_cong, IH; [|done].
  destruct (child_at b k) as [o|] eqn:E; [|done]. injection Hch as -> _.
  pose proof (resize_grown (sn_blk c) k s b s1 Hb Hk Hres) as Hg. pose proof (grown_child _ _ _ Hg) as [Hkid _]. apply (proj2 Hb k). congruence.
Qed.

End Add.
