(* ===== verification/SmapMap.v ===== *)
(** * The items of a prefix tree and the finite map of a [smap]

    [sitems] lists the keys and pointers of a tree in the order the loops of
    smap.c visit them; [to_smap] is the finite map they form. A [smap] is
    consistent ([smap_ok]) when its tree is well-formed and the counter is the
    size of that map. The operations on the root are proved against it. *)
From Stdlib Require Import ZArith Lia.
From stdpp Require Import base list option numbers sets gmap.
From S2P Require Import Prelude Mem Smap SmapProof SmapAdd.

Section Items.
Context {V : Type}.
Notation node := (smap_node V).
Implicit Types (c nd : node) (b : block node) (key p r : list Z) (k : Z) (v : V) (ns : list (option node)).

(** The byte of the slot [i]. *)
Definition slot_byte (offset i : Z) : Z := u8 (i + Z.shiftl offset SMAP_BSH).

Definition data_items (pre : list Z) (data : option V) : list (list Z * V) :=
  match data with Some d => [(pre, d)] | None => [] end.

Fixpoint sitems (pre : list Z) c : list (list Z * V) :=
  match c with
  | SNode (Block offset _ ns) _ key data =>
      data_items (pre ++ key) data ++
      match ns with
      | None => []
      | Some ns =>
          (fix loop (i : Z) (ns : list (option node)) : list (list Z * V) :=
             match ns with
             | [] => []
             | None :: ns => loop (i + 1) ns
             | Some c :: ns => sitems ((pre ++ key) ++ [slot_byte offset i]) c ++ loop (i + 1) ns
             end) 0 ns
      end
  end.

Fixpoint bitems (pre : list Z) (offset i : Z) ns : list (list Z * V) :=
  match ns with
  | [] => []
  | None :: ns => bitems pre offset (i + 1) ns
  | Some c :: ns => sitems (pre ++ [slot_byte offset i]) c ++ bitems pre offset (i + 1) ns
  end.

Definition block_list (pre : list Z) b : list (list Z * V) :=
  match b_nodes b with None => [] | Some ns => bitems pre (b_offset b) 0 ns end.

Lemma sitems_unfold pre c :
  sitems pre c = data_items (pre ++ sn_key c) (sn_data c) ++ block_list (pre ++ sn_key c) (sn_blk c).
Proof.
  destruct c as [[offset sz [ns|]] size key data]; simpl; [|done]. f_equal. unfold block_list. simpl.
  generalize 0. induction ns as [|[c|] ns IH]; intros i; simpl; [done| |apply IH]. by rewrite IH.
Qed.

(** ** The items are what lookups find *)

Lemma elem_data pre (data : option V) key v : (key, v) ∈ data_items pre data <-> key = pre /\ data = Some v.
Proof.
  destruct data as [d|]; simpl; [|set_solver]. rewrite list_elem_of_singleton. split; [by intros [= -> ->]|].
  by intros [-> [= ->]].
Qed.

Lemma elem_bitems pre offset i ns key v :
  (key, v) ∈ bitems pre offset i ns <->
  exists j c, ns !! j = Some (Some c) /\ (key, v) ∈ sitems (pre ++ [slot_byte offset (i + Z.of_nat j)]) c.
Proof.
  revert i. induction ns as [|o ns IH]; intros i.
  { simpl. split; [set_solver|]. by intros (j & c & ? & _). }
  assert ((key, v) ∈ bitems pre offset (i + 1) ns <-> exists j c, (o :: ns) !! S j = Some (Some c) /\
    (key, v) ∈ sitems (pre ++ [slot_byte offset (i + Z.of_nat (S j))]) c) as IH'.
  { rewrite IH. simpl. split; intros (j & c & Hj & Hin); exists j, c; (split; [done|]);
      [replace (i + Z.of_nat (S j)) with (i + 1 + Z.of_nat j) by lia
      |replace (i + 1 + Z.of_nat j) with (i + Z.of_nat (S j)) by lia]; done. }
  destruct o as [c0|]; simpl; rewrite ?elem_of_app, IH'.
  - split.
    + intros [Hin|(j & c & Hj & Hin)]; [|by exists (S j), c]. exists 0%nat, c0. by rewrite Z.add_0_r.
    + intros ([|j] & c & Hj & Hin); [left|right; eauto]. injection Hj as ->. by rewrite Z.add_0_r in Hin.
  - split; [intros (j & c & Hj & Hin); by exists (S j), c|]. intros ([|j] & c & Hj & Hin); [done|eauto].
Qed.

(** The slots of a block are the bytes it has children for. *)
Lemma slot_kid b ns j c :
  bok b -> b_nodes b = Some ns -> ns !! j = Some (Some c) ->
  kid b (slot_byte (b_offset b) (Z.of_nat j)) = Some c /\
  slot_byte (b_offset b) (Z.of_nat j) = 32 * b_offset b + Z.of_nat j.
Proof.
  intros Hb Hns Hj. destruct (kid_lookup b ns j Hb Hns (lookup_lt_Some _ _ _ Hj)) as [Hk Hin].
  rewrite Hj in Hk. simpl in Hk. destruct (kid_inv _ _ _ Hb Hk) as (_ & _ & _ & _ & Hr).
  assert (slot_byte (b_offset b) (Z.of_nat j) = 32 * b_offset b + Z.of_nat j) as E.
  { unfold slot_byte. rewrite shiftl_mul. rewrite u8_small; lia. }
  by rewrite E.
Qed.

Lemma kid_slot b k c :
  bok b -> kid b k = Some c ->
  exists ns j, b_nodes b = Some ns /\ ns !! j = Some (Some c) /\ slot_byte (b_offset b) (Z.of_nat j) = k.
Proof.
  intros Hb Hk. destruct (kid_inv _ _ _ Hb Hk) as (ns & Hns & Hin & Hj & Hr).
  exists ns, (slot_index b k). split; [done|]. split; [done|].
  destruct (slot_kid b ns _ c Hb Hns Hj) as [_ ->]. rewrite (slot_index_spec b k Hin). lia.
Qed.

Lemma elem_sblock pre b key v :
  bok b ->
  (forall k c, kid b k = Some c -> forall p, (key, v) ∈ sitems p c <-> exists r, key = p ++ r /\ slook c r = Some v) ->
  (key, v) ∈ block_list pre b <-> exists k r c, key = pre ++ k :: r /\ kid b k = Some c /\ slook c r = Some v.
Proof.
  intros Hb IH. unfold block_list. split.
  - destruct (b_nodes b) as [ns|] eqn:Hns; [|set_solver]. rewrite elem_bitems. intros (j & c & Hj & Hin).
    rewrite Z.add_0_l in Hin. destruct (slot_kid b ns j c Hb Hns Hj) as [Hk _].
    apply (IH _ _ Hk) in Hin as (r & -> & Hl). rewrite <- app_assoc. eauto 6.
  - intros (k & r & c & -> & Hk & Hl). destruct (kid_slot b k c Hb Hk) as (ns & j & -> & Hj & E).
    apply elem_bitems. exists j, c. split; [done|]. rewrite Z.add_0_l, E. apply (IH _ _ Hk). exists r.
    by rewrite <- app_assoc.
Qed.

Lemma elem_sitems c pre key v :
  swf c -> (key, v) ∈ sitems pre c <-> exists r, key = pre ++ r /\ slook c r = Some v.
Proof.
  intros Hw. revert pre. induction Hw as [b size key0 data Hk Hb Hs Hc IH]; intros pre.
  rewrite sitems_unfold, elem_of_app, elem_data, elem_sblock by (try done; intros; eauto). simpl. split.
  - intros [[-> ->]|(k & r & c & -> & Hkid & Hl)].
    + exists key0. split; [done|]. pose proof (slook_node b size key0 (Some v) []) as Hl. by rewrite app_nil_r in Hl.
    + exists (key0 ++ k :: r). rewrite slook_node, app_assoc. split; [done|]. simpl. by rewrite Hkid.
  - intros (r & -> & Hl). destruct (strip_view key0 r) as [(r' & -> & _)|[_ Hno]]; [|by rewrite slook_node_other in Hl].
    rewrite slook_node in Hl. destruct r' as [|k r']; simpl in Hl; [left; by rewrite app_nil_r|right].
    destruct (kid b k) as [c|] eqn:Hkid; [|done]. exists k, r', c. by rewrite <- app_assoc.
Qed.

(** ** No key is listed twice *)

Lemma sitems_prefix c pre key v : swf c -> (key, v) ∈ sitems pre c -> exists r, key = pre ++ r.
Proof. intros Hw (r & -> & _)%elem_sitems; [eauto|done]. Qed.

Lemma NoDup_bitems pre b ns :
  bok b -> b_nodes b = Some ns -> (forall k c, kid b k = Some c -> swf c) ->
  (forall k c, kid b k = Some c -> forall p, NoDup (sitems p c).*1) ->
  forall i ns', ns' = drop i ns -> NoDup (bitems pre (b_offset b) (Z.of_nat i) ns').*1.
Proof.
  intros Hb Hns Hc IH i ns'. revert i. induction ns' as [|o ns' IHl]; intros i Hd; simpl; [constructor|].
  assert (ns !! i = Some o /\ ns' = drop (S i) ns) as [Hi Hd'].
  { split; [by rewrite <- (Nat.add_0_r i), <- lookup_drop, <- Hd|].
    rewrite <- Nat.add_1_r, <- drop_drop, <- Hd. done. }
  replace (Z.of_nat i + 1) with (Z.of_nat (S i)) by lia. destruct o as [c|]; [|by apply IHl].
  destruct (slot_kid b ns i c Hb Hns Hi) as [Hk E]. rewrite fmap_app. apply NoDup_app.
  split; [by eapply IH|]. split; [|by apply IHl].
  intros key ([k1 v1] & -> & H1)%list_elem_of_fmap ([k2 v2] & Hkk & H2)%list_elem_of_fmap. simpl in *. subst k2.
  apply elem_bitems in H2 as (j & c2 & Hj & H2). rewrite Hd', lookup_drop in Hj.
  replace (Z.of_nat (S i) + Z.of_nat j) with (Z.of_nat (S i + j)) in H2 by lia.
  destruct (slot_kid b ns _ c2 Hb Hns Hj) as [Hk2 E2].
  rewrite E in H1. rewrite E2 in H2.
  apply sitems_prefix in H1 as (r1 & E1); [|by eapply Hc]. apply sitems_prefix in H2 as (r2 & E3); [|by eapply Hc].
  rewrite E1, <- !app_assoc in E3. apply app_inv_head in E3. cbn [app] in E3. injection E3 as E3 _. lia.
Qed.

Lemma NoDup_sblock pre b :
  bwf b -> (forall k c, kid b k = Some c -> forall p, NoDup (sitems p c).*1) -> NoDup (block_list pre b).*1.
Proof.
  intros [Hb Hc] IH. unfold block_list. destruct (b_nodes b) as [ns|] eqn:Hns; [|constructor].
  by apply (NoDup_bitems pre b ns Hb Hns Hc IH 0).
Qed.

(** The key of a node is shorter than those below it. *)
Lemma NoDup_data_block pre b (data : option V) :
  bwf b -> NoDup (block_list pre b).*1 -> NoDup (data_items pre data ++ block_list pre b).*1.
Proof.
  intros [Hb Hc] Hnd. destruct data as [d|]; [|done]. simpl. constructor; [|done].
  intros ([key v] & -> & Hin)%list_elem_of_fmap. simpl in Hin.
  apply elem_sblock in Hin as (k & r & c & E & _); [|done|].
  - apply (f_equal length) in E. rewrite length_app in E. simpl in E. lia.
  - intros k c Hk p. by apply elem_sitems, (Hc k).
Qed.

Lemma NoDup_sitems c pre : swf c -> NoDup (sitems pre c).*1.
Proof.
  intros Hw. revert pre. induction Hw as [b size key0 data Hk Hb Hs Hc IH]; intros pre.
  rewrite sitems_unfold. simpl. apply NoDup_data_block; [done|]. by apply NoDup_sblock.
Qed.

(** ** The finite map *)

Definition smap_list (m : smap V) : list (list Z * V) := data_items [] (sm_data m) ++ block_list [] (sm_blk m).
Definition to_smap (m : smap V) : gmap (list Z) V := list_to_map (smap_list m).

Lemma to_smap_lookup m key : bwf (sm_blk m) -> to_smap m !! key = below_key (sm_blk m) (sm_data m) key.
Proof.
  intros Hb. apply option_eq. intros v. unfold to_smap, smap_list.
  rewrite <- elem_of_list_to_map.
  2: { apply NoDup_data_block; [done|]. apply NoDup_sblock; [done|]. intros k c Hk p. by apply NoDup_sitems, (proj2 Hb k). }
  rewrite elem_of_app, elem_data, elem_sblock; [|apply Hb|intros k c Hk p; by apply elem_sitems, (proj2 Hb k)].
  destruct key as [|k r]; simpl.
  - split; [intros [[_ ?]|(? & ? & ? & ? & _)]; done|]. intros ->. by left.
  - split.
    + intros [[? _]|(k' & r' & c & [= -> ->] & -> & Hl)]; done.
    + intros Hl. right. destruct (kid (sm_blk m) k) as [c|] eqn:Hk; [|done]. by exists k, r, c.
Qed.

Definition smap_ok (m : smap V) : Prop :=
  bwf (sm_blk m) /\ (b_nodes (sm_blk m) = None -> b_sz (sm_blk m) = 0) /\ sm_n m = Z.of_nat (size (to_smap m)).

Lemma smap_list_items m : smap_ok m -> smap_list m ≡ₚ map_to_list (to_smap m).
Proof.
  intros (Hb & _). unfold to_smap. rewrite map_to_list_to_map; [done|].
  apply NoDup_data_block; [done|]. apply NoDup_sblock; [done|]. intros k c Hk p. by apply NoDup_sitems, (proj2 Hb k).
Qed.

Lemma smap_keys_ok m key v : smap_ok m -> to_smap m !! key = Some v -> key_ok key.
Proof.
  intros (Hb & _). rewrite to_smap_lookup by done. destruct key as [|k r]; [constructor|]. simpl.
  destruct (kid (sm_blk m) k) as [c|] eqn:Hk; [|done]. simpl. intros Hl.
  destruct (kid_inv _ _ _ (proj1 Hb) Hk) as (_ & _ & _ & _ & Hk0). constructor; [done|].
  apply (proj2 Hb) in Hk. clear - Hk Hl. revert r Hl. induction Hk as [b size key0 data Hk Hb Hs Hc IH]; intros r Hl.
  destruct (strip_view key0 r) as [(r' & -> & _)|[_ Hno]]; [|by rewrite slook_node_other in Hl].
  apply Forall_app. split; [done|]. rewrite slook_node in Hl. destruct r' as [|k' r']; [constructor|]. simpl in Hl.
  destruct (kid b k') as [c'|] eqn:Hk'; [|done]. destruct (kid_inv _ _ _ Hb Hk') as (_ & _ & _ & _ & Hk0).
  constructor; [done|]. by apply (IH _ _ Hk').
Qed.

End Items.

(** ** The operations on the root *)

Section Root.
Context {V : Type}.
Notation node := (smap_node V).
Implicit Types (c nd : node) (b : block node) (key r : list Z) (k : Z) (v : V) (m : smap V).

Lemma to_smap_eq m (G : gmap (list Z) V) :
  bwf (sm_blk m) -> (forall key, below_key (sm_blk m) (sm_data m) key = G !! key) -> to_smap m = G.
Proof. intros Hb HG. apply map_eq. intros key. by rewrite to_smap_lookup. Qed.

Lemma smap_ok_intro m (G : gmap (list Z) V) :
  bwf (sm_blk m) -> (b_nodes (sm_blk m) = None -> b_sz (sm_blk m) = 0) ->
  (forall key, below_key (sm_blk m) (sm_data m) key = G !! key) -> sm_n m = Z.of_nat (size G) ->
  smap_ok m /\ to_smap m = G.
Proof. intros Hb Hsz HG Hn. pose proof (to_smap_eq m G Hb HG) as E. split; [|done]. unfold smap_ok. by rewrite E. Qed.

Lemma smap_create_spec s :
  match mem s with
  | O => smap_create s = Some (None, s)
  | S i => exists m, smap_create s = Some (Some m, IState i (evs s)) /\ smap_ok m /\ to_smap m = (∅ : gmap (list Z) V)
  end.
Proof.
  unfold smap_create, alloc, mbind, IM_bind, mret, IM_ret. destruct (mem s) as [|i]; [done|].
  eexists. split; [done|]. apply smap_ok_intro; [apply bwf_empty|done| |done].
  intros [|k r]; [done|]. simpl. by rewrite kid_nodes.
Qed.

(** In a consistent map a byte of the block has a slot. *)
Lemma root_child m k :
  smap_ok m -> in_block (sm_blk m) k = true -> b_nodes (sm_blk m) <> None /\ child_at (sm_blk m) k = Some (kid (sm_blk m) k).
Proof.
  intros (Hb & Hsz & _) Hin. destruct (b_nodes (sm_blk m)) as [ns|] eqn:Hns.
  - split; [done|]. by destruct (child_at_Some _ _ _ (proj1 Hb) Hns Hin) as (o & -> & _ & ->).
  - apply in_block_spec in Hin. rewrite Hsz in Hin by done. lia.
Qed.

Lemma smap_getn_spec m key : smap_ok m -> smap_getn m key = Some (to_smap m !! key).
Proof.
  intros Hm. pose proof Hm as (Hb & _). rewrite to_smap_lookup by done. destruct key as [|k r]; [done|].
  unfold smap_getn, get_root. simpl below_key. destruct (in_block (sm_blk m) k) eqn:Hin; cbn [negb].
  - destruct (root_child m k Hm Hin) as [_ ->]. cbn [mbind option_bind].
    destruct (kid (sm_blk m) k) as [c|] eqn:Hk; [|done]. rewrite get_spec; [done|lia|by apply (proj2 Hb k)].
  - unfold kid. by rewrite Hin.
Qed.

Lemma smap_get_zero m key : smap_ok m -> key <> [] -> smap_get m key = smap_getn m key.
Proof.
  intros Hm Hne. destruct key as [|k r]; [done|]. unfold smap_get, smap_getn, get_root.
  destruct (in_block (sm_blk m) k) eqn:Hin; [|done]. cbn [negb].
  destruct (root_child m k Hm Hin) as [_ E]. rewrite E. cbn [mbind option_bind]. apply get_loop_zero.
  intros c Hc. pose proof Hm as (Hb & _). by apply (proj2 Hb k).
Qed.

(** The counter after an entry was added. *)
Lemma insert_count m (G : gmap (list Z) V) key v :
  sm_n m = Z.of_nat (size G) -> G !! key = None -> Z.of_nat (size G) < 4294967295 ->
  u32 (sm_n m + 1) = Z.of_nat (size (<[key := v]> G)).
Proof. intros -> Hno Hlt. rewrite map_size_insert_None by done. rewrite u32_small; lia. Qed.

(** What adding [key] must do to the map. *)
Definition addn_post m key v (x : Z * smap V) : Prop :=
  smap_ok x.2 /\
  match to_smap m !! key with
  | Some _ => x.1 = SMAP_ERR_EXIST /\ to_smap x.2 = to_smap m
  | None => x.1 = 0 /\ to_smap x.2 = <[key := v]> (to_smap m)
  end.

(** The root after the slot for [k] got the child [nd] with [r] added. *)
Lemma root_put m b k o r v rc nd :
  smap_ok m -> grown (sm_blk m) b k -> byte_ok k -> kid (sm_blk m) k = o -> Z.of_nat (size (to_smap m)) < 4294967295 ->
  swf nd ->
  match o ≫= fun c => slook c r with
  | Some _ => rc = SMAP_ERR_EXIST /\ forall r', slook nd r' = o ≫= fun c => slook c r'
  | None => rc = 0 /\ forall r', slook nd r' = if decide (r' = r) then Some v else o ≫= fun c => slook c r'
  end ->
  exists b', put_at b k (Some nd) = Some b' /\
    addn_post m (k :: r) v (rc, Smap (if rc =? 0 then u32 (sm_n m + 1) else sm_n m) b' (sm_data m)).
Proof.
  intros Hm Hg Hk Ho Hlt Hw Hpost. pose proof Hm as (Hb & _ & Hn). pose proof (bwf_grown _ _ _ Hb Hg) as Hb1.
  destruct Hg as (_ & Hn1 & Hin1 & _ & Hkid1).
  destruct (bwf_put b k o (Some nd) Hb1 Hin1 Hn1 Hk) as (b' & -> & Hb' & Hn' & _ & Hkid');
    [by rewrite Hkid1|by intros ? [= <-]|].
  exists b'. split; [done|]. unfold addn_post. cbn [fst snd].
  assert (to_smap m !! (k :: r) = o ≫= fun c => slook c r) as Elk by (rewrite to_smap_lookup by done; simpl; by rewrite Ho).
  rewrite Elk.
  assert (forall key, below_key b' (sm_data m) key = match key with
    | k' :: r' => if k' =? k then slook nd r' else to_smap m !! key | [] => to_smap m !! [] end) as Hbelow.
  { intros key. rewrite (below_put (sm_blk m) b' _ k (Some nd)); [|intros k'; by rewrite Hkid', Hkid1].
    destruct key as [|k' r']; rewrite to_smap_lookup by done; done. }
  destruct (o ≫= fun c => slook c r) as [d|]; destruct Hpost as [-> Hl].
  - assert (smap_ok (Smap (sm_n m) b' (sm_data m)) /\ to_smap (Smap (sm_n m) b' (sm_data m)) = to_smap m) as [H1 H2];
      [|by split; [exact H1|split; [done|exact H2]]].
    apply smap_ok_intro; [done|done| |done]. intros key. simpl. rewrite Hbelow. destruct key as [|k' r']; [done|].
    destruct (Z.eqb_spec k' k) as [->|]; [|done]. rewrite Hl, to_smap_lookup by done. simpl. by rewrite Ho.
  - assert (smap_ok (Smap (u32 (sm_n m + 1)) b' (sm_data m)) /\
            to_smap (Smap (u32 (sm_n m + 1)) b' (sm_data m)) = <[k :: r := v]> (to_smap m)) as [H1 H2];
      [|by split; [exact H1|split; [done|exact H2]]].
    apply smap_ok_intro; [done|done| |by apply insert_count]. intros key. simpl. rewrite Hbelow.
    destruct (decide (key = k :: r)) as [->|Hne].
    { rewrite lookup_insert_eq, Z.eqb_refl, Hl. by rewrite decide_True. }
    rewrite lookup_insert_ne by done. destruct key as [|k' r']; [done|].
    destruct (Z.eqb_spec k' k) as [->|]; [|done]. rewrite Hl, to_smap_lookup by done. simpl. rewrite Ho.
    rewrite decide_False; [done|congruence].
Qed.

Lemma smap_addn_spec m key v s :
  smap_ok m -> key_ok key -> Z.of_nat (size (to_smap m)) < 4294967295 ->
  runs 7 (smap_addn m key v) s (fun x s' => addn_post m key v x /\ evs s' = evs s).
Proof.
  intros Hm Hkey Hlt. pose proof Hm as (Hb & Hsz & Hn). destruct key as [|k r]; unfold smap_addn, add_root.
  - eapply (runs_mono 0); [lia|intros ?? H; exact H|].
    assert (to_smap m !! [] = sm_data m) as E by (by rewrite to_smap_lookup).
    destruct (sm_data m) as [d|] eqn:Ed; apply runs_ret; (split; [|done]); unfold addn_post; rewrite E; cbn [fst snd].
    + done.
    + assert (smap_ok (Smap (u32 (sm_n m + 1)) (sm_blk m) (Some v)) /\
              to_smap (Smap (u32 (sm_n m + 1)) (sm_blk m) (Some v)) = <[[] := v]> (to_smap m)) as [H1 H2];
        [|by split; [exact H1|split; [done|exact H2]]].
      apply smap_ok_intro; [done|done| |by apply insert_count]. intros [|k r]; simpl.
      * by rewrite lookup_insert_eq.
      * rewrite lookup_insert_ne by done. by rewrite to_smap_lookup.
  - apply Forall_cons_1 in Hkey as [Hk Hr]. pose proof (resize_runs (sm_blk m) k s Hb Hk) as Hres.
    destruct (kid (sm_blk m) k) as [nd|] eqn:Hkid.
    + change 7%nat with (0 + (7 + 0))%nat. apply runs_bind. eapply (runs_mono 0); [lia| |exact Hres].
      intros [ok b] s1 (Hok & Hg & Hev). simpl in Hok, Hg. subst ok. cbn [negb].
      rewrite (proj1 (grown_child _ _ _ Hg)), Hkid. apply runs_deref, runs_bind.
      apply (runs_bind 7 0). eapply (runs_mono 7); [lia| |apply add_spec; [lia|by apply (proj2 Hb k)|done]].
      intros [rc nd'] s2 [[Hw Hpost] Hev2]. apply runs_ret. cbv beta iota.
      destruct (root_put m b k (Some nd) r v rc nd') as (b' & -> & Hp); try done.
      apply runs_deref, runs_ret. split; [exact Hp|congruence].
    + change 7%nat with (1 + (6 + 0))%nat. apply runs_bind. eapply (runs_mono 1); [lia| |exact Hres].
      intros [ok b] s1 (Hok & Hg & Hev). simpl in Hok, Hg. subst ok. cbn [negb].
      rewrite (proj1 (grown_child _ _ _ Hg)), Hkid. apply runs_deref, runs_bind.
      apply (runs_bind 6 0). eapply (runs_mono 2); [lia| |apply node_create_spec].
      intros o s2 [-> Hev2]. apply runs_ret. cbv beta iota.
      destruct (root_put m b k None r v 0 (SNode empty_block 0 r (Some v))) as (b' & -> & Hp); try done.
      { by apply swf_leaf. }
      { simpl. split; [done|]. intros r'. apply leaf_look. }
      apply runs_deref, runs_ret. split; [exact Hp|congruence].
Qed.

Lemma smap_add_zero m key v s : smap_ok m -> key_ok key -> smap_add m key v s = smap_addn m key v s.
Proof.
  intros (Hb & _) Hkey. destruct key as [|k r]; [done|]. apply Forall_cons_1 in Hkey as [Hk Hr].
  unfold smap_add, smap_addn, add_root. apply IM_bind_ext. intros [[] b] s1 Hres; [|done]. cbn [negb].
  apply IM_bind_ext. intros [nd|] s2 Hch; [|done]. apply IM_bind_cong, IM_bind_cong, add_node_zero; [|done].
  apply (proj2 Hb k). pose proof (resize_grown (sm_blk m) k s b s1 Hb Hk Hres) as Hg.
  rewrite (proj1 (grown_child _ _ _ Hg)) in Hch. by injection Hch.
Qed.

Lemma smap_popn_spec m key s :
  smap_ok m -> Z.of_nat (size (to_smap m)) < 4294967296 ->
  exists m' s', smap_popn m key s = Some ((to_smap m !! key, m'), s') /\ evs s' = evs s /\
    smap_ok m' /\ to_smap m' = delete key (to_smap m).
Proof.
  intros Hm Hlt. pose proof Hm as (Hb & Hsz & Hn).
  assert (to_smap m !! key = None -> exists m' s', Some ((None, m), s) = Some ((to_smap m !! key, m'), s') /\
    evs s' = evs s /\ smap_ok m' /\ to_smap m' = delete key (to_smap m)) as Hnone.
  { intros E. exists m, s. rewrite E, delete_id by done. done. }
  assert (forall d, to_smap m !! key = Some d -> u32 (sm_n m - 1) = Z.of_nat (size (delete key (to_smap m)))) as Hcnt.
  { intros d E. pose proof (map_size_delete_Some key (to_smap m) (mk_is_Some _ _ E)) as Hd.
    pose proof (map_size_ne_0_lookup_2 (to_smap m) key (mk_is_Some _ _ E)). rewrite Hd, u32_small; lia. }
  destruct key as [|k r]; unfold smap_popn, pop_root.
  - assert (to_smap m !! [] = sm_data m) as E by (by rewrite to_smap_lookup).
    destruct (sm_data m) as [d|] eqn:Ed; [|by apply Hnone]. do 2 eexists. rewrite E. split; [done|]. split; [done|].
    apply smap_ok_intro; [done|done| |by eapply Hcnt]. intros [|k r]; simpl; [by rewrite lookup_delete_eq|].
    rewrite lookup_delete_ne by done. by rewrite to_smap_lookup.
  - destruct (in_block (sm_blk m) k) eqn:Hin; cbn [negb].
    2: { apply Hnone. rewrite to_smap_lookup by done. simpl. unfold kid. by rewrite Hin. }
    destruct (root_child m k Hm Hin) as [Hns ->]. rewrite IM_deref_Some.
    destruct (kid (sm_blk m) k) as [nd|] eqn:Hkid.
    2: { apply Hnone. rewrite to_smap_lookup by done. simpl. by rewrite Hkid. }
    destruct (kid_inv _ _ _ (proj1 Hb) Hkid) as (_ & _ & _ & _ & Hk).
    destruct (pop_spec (S (length r)) nd r s) as (d & o & dec & s1 & E1 & Hev & -> & Hpop & Ho);
      [lia|by apply (proj2 Hb k)|].
    rewrite (IM_bind_Some _ _ _ _ _ E1). cbv beta iota.
    destruct (bwf_put (sm_blk m) k (Some nd) o Hb Hin Hns Hk Hkid) as (b' & -> & Hb' & Hn' & _ & Hkid').
    { intros c' ->. by destruct Ho. }
    rewrite IM_deref_Some.
    assert (to_smap m !! (k :: r) = slook nd r) as Elk by (rewrite to_smap_lookup by done; simpl; by rewrite Hkid).
    assert (forall key, below_key b' (sm_data m) key = delete (k :: r) (to_smap m) !! key) as HG.
    { intros key. rewrite (below_put _ _ _ _ _ _ Hkid'). destruct key as [|k' r'].
      - rewrite lookup_delete_ne by done. by rewrite to_smap_lookup.
      - destruct (Z.eqb_spec k' k) as [->|Hne].
        + rewrite (Hpop r'). destruct (decide (r' = r)) as [->|Hr]; [by rewrite lookup_delete_eq|].
          rewrite lookup_delete_ne by congruence. rewrite to_smap_lookup by done. simpl. by rewrite Hkid.
        + rewrite lookup_delete_ne by congruence. by rewrite to_smap_lookup. }
    rewrite Elk. eexists _, s1. split; [done|]. split; [done|]. destruct (slook nd r) as [d|].
    + specialize (Hcnt d Elk). cbv zeta. destruct (Z.eqb_spec (u32 (sm_n m - 1)) 0) as [E0|E0].
      * assert (delete (k :: r) (to_smap m) = ∅) as Eempty by (apply map_size_empty_inv; lia).
        apply smap_ok_intro; [|done| |done].
        { split; [done|]. intros k' c Hc. by rewrite kid_nodes in Hc. }
        intros key. rewrite Eempty, lookup_empty. simpl. destruct key as [|k' r']; simpl; [|by rewrite kid_nodes].
        specialize (HG []). by rewrite Eempty, lookup_empty in HG.
      * by apply smap_ok_intro.
    + apply smap_ok_intro; [done|done|done|]. rewrite delete_id by done. done.
Qed.

Lemma smap_pop_zero m key s : smap_ok m -> smap_pop m key s = smap_popn m key s.
Proof.
  intros Hm. destruct key as [|k r]; [done|]. unfold smap_pop, smap_popn, pop_root.
  destruct (in_block (sm_blk m) k) eqn:Hin; [|done]. cbn [negb].
  apply IM_bind_ext. intros [nd|] s2 Hch; [|done]. apply IM_bind_cong, pop_node_zero.
  destruct (root_child m k Hm Hin) as [_ E]. rewrite E in Hch. injection Hch as Hk _.
  pose proof Hm as (Hb & _). by apply (proj2 Hb k).
Qed.

End Root.
