(* ===== verification/SmapWalk.v ===== *)
(** * Walking over a [smap]

    [smap_items] and [smap_values] visit [smap_list] in order; a buffer of
    [smap_longest_key_size] bytes is enough for every key on the way; destroying
    a map releases every pointer once; and adding all reported items to an empty
    map rebuilds the map. *)
From Stdlib Require Import ZArith Lia.
From stdpp Require Import base list option numbers sets gmap.
From S2P Require Import Prelude Mem Smap SmapProof SmapAdd SmapMap.

Section Walk.
Context {V : Type}.
Notation node := (smap_node V).
Implicit Types (c nd : node) (b : block node) (key pre : list Z) (k : Z) (v : V) (m : smap V)
  (ns : list (option node)).

(** Induction on trees: the children of the block may be used. *)
Definition node_forall (P : node -> Prop) (o : option node) : Prop := match o with Some c => P c | None => True end.

Lemma smap_node_induct (P : node -> Prop) :
  (forall offset sz size key data, P (SNode (Block offset sz None) size key data)) ->
  (forall offset sz ns size key data, Forall (node_forall P) ns -> P (SNode (Block offset sz (Some ns)) size key data)) ->
  forall c, P c.
Proof.
  intros H0 H1. fix IH 1. intros [[offset sz [ns|]] size key data]; [|apply H0]. apply H1.
  induction ns as [|[c|] ns IHns]; constructor; try exact IHns; [apply IH|exact I].
Qed.

(** ** The longest key *)

Lemma longest_unfold c :
  smap__longest_key_size c =
  (match b_nodes (sn_blk c) with Some ns => longest_loop ns 0 | None => 0 end) + len (sn_key c) + 1.
Proof.
  by destruct c as [[offset sz [ns|]] size key data].
Qed.

Lemma longest_loop_ge ns i : i <= longest_loop ns i.
Proof.
  revert i. induction ns as [|[c|] ns IH]; intros i; simpl; [lia| |apply IH].
  destruct (Z.ltb_spec i (smap__longest_key_size c)); [|apply IH]. specialize (IH (smap__longest_key_size c)). lia.
Qed.

Lemma longest_loop_elem ns i c : Some c ∈ ns -> smap__longest_key_size c <= longest_loop ns i.
Proof.
  intros Hin. apply list_elem_of_lookup in Hin as [j Hj]. revert i j Hj.
  induction ns as [|o ns IH]; intros i [|j] Hj; simplify_eq/=.
  - etrans; [|apply longest_loop_ge]. destruct (Z.ltb_spec i (smap__longest_key_size c)); lia.
  - destruct o; by eapply IH.
Qed.

Lemma longest_pos c : len (sn_key c) + 1 <= smap__longest_key_size c.
Proof.
  rewrite longest_unfold. destruct (b_nodes (sn_blk c)) as [ns|]; [pose proof (longest_loop_ge ns 0)|]; lia.
Qed.

(** ** Items *)

Section ItemsLoop.
Context {A : Type} (cb : list Z -> V -> A -> Z * A) (cap : Z).

(** The callback on a reported item. *)
Definition item_cb (x : list Z * V) (arg : A) : Z * A := cb x.1 x.2 arg.

(** The loop over the block of a node whose keys start with [pre]. *)
Fixpoint items_below pre (offset i : Z) ns (arg : A) : option (Z * A) :=
  match ns with
  | [] => Some (0, arg)
  | None :: ns => items_below pre offset (i + 1) ns arg
  | Some c :: ns =>
      if cap <=? len pre then None else
      '(rc, arg) ← smap__items cb cap (pre ++ [u8 (i + Z.shiftl offset SMAP_BSH)]) c arg;
      if negb (rc =? 0) then Some (rc, arg) else items_below pre offset (i + 1) ns arg
  end.

Lemma items_loop_below offset i ns arg : items_loop cb cap offset i ns arg = items_below [] offset i ns arg.
Proof.
  revert i arg. induction ns as [|[c|] ns IH]; intros i arg; simpl; [done| |apply IH].
  change (len []) with 0. destruct (cap <=? 0); [done|].
  destruct (smap__items cb cap [u8 (i + Z.shiftl offset SMAP_BSH)] c arg) as [[rc a]|]; simpl; [|done].
  by destruct (negb (rc =? 0)).
Qed.

Lemma items_unfold pre c arg :
  smap__items cb cap pre c arg =
  if cap <? len (pre ++ sn_key c) then None else
  let '(rc, arg) := match sn_data c with Some d => cb (pre ++ sn_key c) d arg | None => (0, arg) end in
  if negb (rc =? 0) then Some (rc, arg) else
  match b_nodes (sn_blk c) with
  | None => Some (0, arg)
  | Some ns => items_below (pre ++ sn_key c) (b_offset (sn_blk c)) 0 ns arg
  end.
Proof.
  destruct c as [[offset sz [ns|]] size key data]; [|reflexivity]. simpl.
  destruct (cap <? len (pre ++ key)); [done|]. destruct (match data with Some d => _ | None => _ end) as [rc a].
  destruct (negb (rc =? 0)); [done|].
  match goal with |- ?F 0 ns a = ?G 0 ns a => enough (forall i a', F i ns a' = G i ns a') by auto end.
  induction ns as [|[c|] ns IH]; intros i a'; simpl; [done| |apply IH].
  destruct (cap <=? len (pre ++ key)); [done|]. destruct (smap__items _ _ _ c a') as [[rc' a'']|]; simpl; [|done].
  destruct (negb (rc' =? 0)); [done|apply IH].
Qed.

Lemma items_below_spec pre offset i ns arg :
  len pre + longest_loop ns 0 <= cap ->
  Forall (node_forall (fun c => forall p a, len p + smap__longest_key_size c - 1 <= cap ->
    smap__items cb cap p c a = Some (walk_list item_cb (sitems p c) a))) ns ->
  items_below pre offset i ns arg = Some (walk_list item_cb (bitems pre offset i ns) arg).
Proof.
  intros Hcap Hns. assert (forall c, Some c ∈ ns -> len pre + smap__longest_key_size c <= cap) as Hc.
  { intros c Hin. pose proof (longest_loop_elem ns 0 c Hin). lia. }
  clear Hcap. revert i arg. induction Hns as [|o ns Ho Hns IH]; intros i arg; simpl; [done|].
  assert (forall j a, items_below pre offset j ns a = Some (walk_list item_cb (bitems pre offset j ns) a)) as IH'.
  { intros j a. apply IH. intros c Hin. apply Hc. by right. }
  destruct o as [c|]; [|apply IH']. specialize (Hc c ltac:(left)).
  pose proof (longest_pos c). pose proof (len_nonneg (sn_key c)).
  rewrite (proj2 (Z.leb_gt _ _)) by lia. simpl in Ho. rewrite Ho by (rewrite len_app; change (len [_]) with 1; lia).
  cbn [mbind option_bind]. rewrite walk_list_app.
  change (u8 (i + Z.shiftl offset SMAP_BSH)) with (slot_byte offset i).
  destruct (walk_list item_cb (sitems _ c) arg) as [rc a]. destruct (negb (rc =? 0)); [done|apply IH'].
Qed.

Lemma data_items_walk pre data arg :
  (match data with Some d => cb pre d arg | None => (0, arg) end) = walk_list item_cb (data_items pre data) arg.
Proof.
  destruct data as [d|]; simpl; [|done]. unfold item_cb. simpl. destruct (cb pre d arg) as [rc a].
  by destruct (Z.eqb_spec rc 0) as [->|].
Qed.

Lemma items_node_spec c pre arg :
  len pre + smap__longest_key_size c - 1 <= cap ->
  smap__items cb cap pre c arg = Some (walk_list item_cb (sitems pre c) arg).
Proof.
  revert pre arg. induction c as [offset sz size key data|offset sz ns size key data IH] using smap_node_induct;
    intros pre arg Hcap; rewrite items_unfold, sitems_unfold, walk_list_app, longest_unfold in *; cbn [sn_blk b_nodes sn_key sn_data b_offset] in *.
  - rewrite len_app in *. rewrite (proj2 (Z.ltb_ge _ _)) by lia. rewrite data_items_walk.
    destruct (walk_list item_cb _ arg) as [rc a]. by destruct (negb (rc =? 0)).
  - pose proof (longest_loop_ge ns 0). rewrite (proj2 (Z.ltb_ge _ _)) by (rewrite len_app; lia). rewrite data_items_walk.
    destruct (walk_list item_cb _ arg) as [rc a]. destruct (negb (rc =? 0)); [done|].
    unfold block_list. cbn [b_nodes b_offset]. apply items_below_spec; [rewrite len_app; lia|done].
Qed.

Lemma smap_items_spec m arg :
  smap_longest_key_size m <= cap -> smap_items m cap cb arg = Some (walk_list item_cb (smap_list m) arg).
Proof.
  intros Hcap. unfold smap_items, smap_list. rewrite walk_list_app, <- data_items_walk.
  destruct (match sm_data m with Some d => _ | None => _ end) as [rc a]. destruct (negb (rc =? 0)); [done|].
  unfold block_list, smap_longest_key_size in *. destruct (b_nodes (sm_blk m)) as [ns|]; [|done].
  rewrite items_loop_below. apply items_below_spec; [done|]. apply Forall_true. intros [c|]; [|done].
  simpl. intros p a'. apply items_node_spec.
Qed.

End ItemsLoop.

(** Every key fits into the buffer. *)
Lemma bitems_len pre offset i ns key v :
  Forall (node_forall (fun c => forall p, (key, v) ∈ sitems p c -> len key <= len p + smap__longest_key_size c - 1)) ns ->
  (key, v) ∈ bitems pre offset i ns -> len key <= len pre + longest_loop ns 0.
Proof.
  intros Hns (j & c & Hj & Hin)%elem_bitems. pose proof (Forall_lookup_1 _ _ _ _ Hns Hj _ Hin) as Hlen. cbv beta in Hlen.
  pose proof (longest_loop_elem ns 0 c (list_elem_of_lookup_2 _ _ _ Hj)). rewrite len_app in Hlen.
  change (len [_]) with 1 in Hlen. lia.
Qed.

Lemma sitems_len c pre key v : (key, v) ∈ sitems pre c -> len key <= len pre + smap__longest_key_size c - 1.
Proof.
  revert pre. induction c as [offset sz size key0 data|offset sz ns size key0 data IH] using smap_node_induct;
    intros pre; rewrite sitems_unfold, longest_unfold, elem_of_app, elem_data; unfold block_list; cbn [sn_blk b_nodes sn_key sn_data b_offset].
  - intros [[-> _]|Hin]; [|set_solver]. rewrite len_app. lia.
  - pose proof (longest_loop_ge ns 0). intros [[-> _]|Hin]; [rewrite len_app; lia|].
    apply bitems_len in Hin; [|done]. rewrite len_app in Hin. lia.
Qed.

Lemma smap_longest_bound m key v :
  smap_ok m -> to_smap m !! key = Some v -> len key <= smap_longest_key_size m.
Proof.
  intros Hm Hl. apply elem_of_map_to_list in Hl. rewrite <- (smap_list_items m Hm) in Hl.
  unfold smap_list in Hl. rewrite elem_of_app, elem_data in Hl. unfold smap_longest_key_size, block_list in *.
  destruct Hl as [[-> _]|Hin].
  - change (len []) with 0. destruct (b_nodes (sm_blk m)); [apply longest_loop_ge|lia].
  - destruct (b_nodes (sm_blk m)) as [ns|]; [|set_solver].
    apply bitems_len in Hin; [done|]. apply Forall_true. intros [c|]; [|done]. intros p. apply sitems_len.
Qed.

(** ** Values *)

Lemma data_values pre (data : option V) : (data_items pre data).*2 = option_list data.
Proof. by destruct data. Qed.

Section Values.
Context {A : Type} (cb : V -> A -> Z * A).

Lemma values_unfold c arg :
  smap__values cb c arg =
  let '(rc, arg) := match sn_data c with Some d => cb d arg | None => (0, arg) end in
  if negb (rc =? 0) then (rc, arg) else
  match b_nodes (sn_blk c) with None => (0, arg) | Some ns => values_loop cb ns arg end.
Proof.
  destruct c as [[offset sz [ns|]] size key data]; [|reflexivity]. simpl.
  destruct (match data with Some d => _ | None => _ end) as [rc a]. destruct (negb (rc =? 0)); [done|].
  revert a. induction ns as [|[c|] ns IH]; intros a; simpl; [done| |apply IH].
  destruct (smap__values cb c a) as [rc' a']. destruct (negb (rc' =? 0)); [done|apply IH].
Qed.

Lemma values_loop_spec pre offset i ns arg :
  Forall (node_forall (fun c => forall p a, smap__values cb c a = walk_list cb (sitems p c).*2 a)) ns ->
  values_loop cb ns arg = walk_list cb (bitems pre offset i ns).*2 arg.
Proof.
  intros Hns. revert i arg. induction Hns as [|[c|] ns Ho Hns IH]; intros i arg; simpl; [done| |apply IH].
  rewrite fmap_app, walk_list_app. simpl in Ho. rewrite (Ho (pre ++ [slot_byte offset i])).
  destruct (walk_list cb (sitems _ c).*2 arg) as [rc a]. destruct (negb (rc =? 0)); [done|apply IH].
Qed.

Lemma data_values_walk pre data arg :
  (match data with Some d => cb d arg | None => (0, arg) end) = walk_list cb (data_items pre data).*2 arg.
Proof.
  destruct data as [d|]; simpl; [|done]. destruct (cb d arg) as [rc a]. by destruct (Z.eqb_spec rc 0) as [->|].
Qed.

Lemma values_node_spec c pre arg : smap__values cb c arg = walk_list cb (sitems pre c).*2 arg.
Proof.
  revert pre arg. induction c as [offset sz size key data|offset sz ns size key data IH] using smap_node_induct;
    intros pre arg; rewrite values_unfold, sitems_unfold, fmap_app, walk_list_app, <- data_values_walk;
    cbn [sn_blk b_nodes sn_key sn_data]; destruct (match data with Some d => _ | None => _ end) as [rc a]; [done|].
  destruct (negb (rc =? 0)); [done|]. by apply values_loop_spec.
Qed.

Lemma smap_values_spec m arg : smap_values m cb arg = walk_list cb (smap_list m).*2 arg.
Proof.
  unfold smap_values, smap_list. rewrite fmap_app, walk_list_app, <- data_values_walk.
  destruct (match sm_data m with Some d => _ | None => _ end) as [rc a]. destruct (negb (rc =? 0)); [done|].
  unfold block_list. destruct (b_nodes (sm_blk m)) as [ns|]; [|done]. apply values_loop_spec.
  apply Forall_true. intros [c|]; [|done]. intros p a'. apply values_node_spec.
Qed.

End Values.

(** ** Destroying *)

(** A run that calls [release] on the pointers of [l], in some order. *)
Definition releases (m : IM V unit) (l : list V) : Prop :=
  exists l', l' ≡ₚ l /\ forall s, m s = Some (tt, IState (mem s) (rev (Callback <$> l') ++ evs s)).

Lemma releases_bind (m1 m2 : IM V unit) l1 l2 l :
  releases m1 l1 -> releases m2 l2 -> l ≡ₚ l1 ++ l2 -> releases (m1;; m2) l.
Proof.
  intros (l1' & Hp1 & H1) (l2' & Hp2 & H2) Hp. exists (l1' ++ l2'). split; [by rewrite Hp1, Hp2|].
  intros s. rewrite (IM_bind_Some _ _ _ _ _ (H1 s)), H2. simpl. by rewrite fmap_app, rev_app_distr, app_assoc.
Qed.

Lemma releases_nothing : releases (mret tt) [].
Proof. exists []. split; [done|]. by intros [i ev]. Qed.

Lemma releases_data (d : option V) : releases (call_opt (Some release) d) (option_list d).
Proof. destruct d as [d|]; [|apply releases_nothing]. exists [d]. by split. Qed.

Lemma destroy_unfold cb c :
  smap__destroy cb c =
  (match b_nodes (sn_blk c) with None => mret tt | Some ns => destroy_loop cb ns end;; call_opt cb (sn_data c)).
Proof.
  destruct c as [[offset sz [ns|]] size key data]; [|reflexivity]. simpl. f_equal.
  induction ns as [|[c|] ns IH]; simpl; [done| |apply IH]. by rewrite IH.
Qed.

Lemma destroy_loop_spec pre offset i ns :
  Forall (node_forall (fun c => forall p, releases (smap__destroy (Some release) c) (sitems p c).*2)) ns ->
  releases (destroy_loop (Some release) ns) (bitems pre offset i ns).*2.
Proof.
  intros Hns. revert i. induction Hns as [|[c|] ns Ho Hns IH]; intros i; simpl; [apply releases_nothing| |apply IH].
  simpl in Ho. eapply releases_bind; [apply (Ho (pre ++ [slot_byte offset i]))|apply (IH (i + 1))|]. by rewrite fmap_app.
Qed.

Lemma destroy_node_spec c pre : releases (smap__destroy (Some release) c) (sitems pre c).*2.
Proof.
  revert pre. induction c as [offset sz size key data|offset sz ns size key data IH] using smap_node_induct;
    intros pre; rewrite destroy_unfold, sitems_unfold, fmap_app, data_values; cbn [sn_blk b_nodes sn_key sn_data].
  - eapply releases_bind; [apply releases_nothing|apply releases_data|]. apply Permutation_app_comm.
  - eapply releases_bind; [|apply releases_data|apply Permutation_app_comm]. by apply destroy_loop_spec.
Qed.

Lemma smap_clear_spec m : exists l, l ≡ₚ (smap_list m).*2 /\ forall s,
  smap_clear m (Some release) s = Some (Smap 0 empty_block None, IState (mem s) (rev (Callback <$> l) ++ evs s)).
Proof.
  assert (releases (call_opt (Some release) (sm_data m);;
      match b_nodes (sm_blk m) with Some ns => destroy_loop (Some release) ns | None => mret tt end) (smap_list m).*2)
    as (l & Hl & Hrun).
  { eapply releases_bind; [apply releases_data| |unfold smap_list; rewrite fmap_app, data_values; done].
    unfold block_list. destruct (b_nodes (sm_blk m)) as [ns|]; [|apply releases_nothing].
    apply destroy_loop_spec, Forall_true. intros [c|]; [|done]. intros p. apply destroy_node_spec. }
  exists l. split; [done|]. intros s. specialize (Hrun s). unfold smap_clear.
  unfold mbind, IM_bind in *. destruct (call_opt (Some release) (sm_data m) s) as [[[] s1]|]; [|done].
  by rewrite Hrun.
Qed.

Lemma smap_destroy_spec m : exists l, l ≡ₚ (smap_list m).*2 /\ forall s,
  smap_destroy (Some m) (Some release) s = Some (tt, IState (mem s) (rev (Callback <$> l) ++ evs s)).
Proof.
  destruct (smap_clear_spec m) as (l & Hl & Hrun). exists l. split; [done|]. intros s.
  unfold smap_destroy. by rewrite (IM_bind_Some _ _ _ _ _ (Hrun s)).
Qed.

(** ** Rebuilding a map from its items *)

(** The callback that adds an item to another map. *)
Definition reload_cb key v (a : smap V * ist V) : Z * (smap V * ist V) :=
  match smap_addn a.1 key v a.2 with
  | Some ((rc, m), s) => (rc, (m, s))
  | None => (SMAP_ERR_ALLOC, a)
  end.

Lemma reload_list (l : list (list Z * V)) m s :
  smap_ok m -> NoDup l.*1 -> Forall (fun x => key_ok x.1 /\ to_smap m !! x.1 = None) l ->
  Z.of_nat (size (to_smap m)) + len l < 4294967296 -> (7 * length l <= mem s)%nat ->
  exists m' s', walk_list (item_cb reload_cb) l (m, s) = (0, (m', s')) /\ smap_ok m' /\
    to_smap m' = list_to_map l ∪ to_smap m.
Proof.
  revert m s. induction l as [|[key v] l IH]; intros m s Hm Hnd Hl Hsz Hmem.
  { exists m, s. simpl. rewrite (left_id_L ∅ (∪)). done. }
  apply NoDup_cons in Hnd as [Hnew Hnd]. apply Forall_cons_1 in Hl as [[Hkey Hno] Hl]. simpl in Hkey, Hno, Hmem.
  unfold len in Hsz. simpl length in Hsz.
  destruct (smap_addn_spec m key v s Hm Hkey ltac:(lia) ltac:(lia)) as ([rc m1] & s1 & E & Hs1 & [Hm1 Hpost] & _).
  rewrite Hno in Hpost. destruct Hpost as [Erc Hmap]. simpl in Erc, Hmap, Hm1. subst rc.
  cbn [walk_list]. unfold item_cb at 1, reload_cb at 1. cbn [fst snd]. rewrite E. cbn [Z.eqb negb].
  destruct (IH m1 s1 Hm1 Hnd) as (m' & s' & Ew & Hm' & Hmap').
  - rewrite Hmap. apply Forall_forall. intros [key' v'] Hin. rewrite Forall_forall in Hl.
    destruct (Hl _ Hin) as [Hk' Hno']. split; [done|]. simpl in *. rewrite lookup_insert_ne; [done|].
    intros <-. apply Hnew. apply list_elem_of_fmap. by exists (key, v').
  - rewrite Hmap, map_size_insert_None by done. unfold len. lia.
  - lia.
  - exists m', s'. split; [exact Ew|]. split; [done|]. rewrite Hmap', Hmap. simpl.
    rewrite <- insert_union_l, insert_union_r; [done|]. by apply not_elem_of_list_to_map.
Qed.

Lemma smap_reload_spec m cap s :
  smap_ok m -> smap_longest_key_size m <= cap -> sm_n m < 4294967296 -> 7 * sm_n m + 1 <= Z.of_nat (mem s) ->
  exists m0 s0 m' s', smap_create s = Some (Some m0, s0) /\
    smap_items m cap reload_cb (m0, s0) = Some (0, (m', s')) /\ smap_ok m' /\ to_smap m' = to_smap m.
Proof.
  intros Hm Hcap Hn Hmem. pose proof Hm as (_ & _ & Hnm). pose proof (smap_create_spec s) as Hcr.
  destruct s as [[|i] ev]; [simpl in Hmem; lia|].
  destruct Hcr as (m0 & E0 & Hm0 & Hmap0). simpl in E0. cbn [mem] in Hmem. exists m0, (IState i ev).
  pose proof (smap_list_items m Hm) as Hp.
  assert (length (smap_list m) = size (to_smap m)) as Hlen by (rewrite Hp; apply length_map_to_list).
  destruct (reload_list (smap_list m) m0 (IState i ev) Hm0) as (m' & s' & Ew & Hm' & Hmap').
  - rewrite Hp. apply NoDup_fst_map_to_list.
  - rewrite Hp, Hmap0. apply Forall_forall. intros [key v] Hin%elem_of_map_to_list.
    split; [exact (smap_keys_ok m key v Hm Hin)|apply lookup_empty].
  - rewrite Hmap0, map_size_empty. unfold len. lia.
  - simpl. lia.
  - exists m', s'. split; [done|]. rewrite smap_items_spec by done. rewrite Ew. split; [done|]. split; [done|].
    rewrite Hmap', Hmap0, (right_id_L ∅ (∪)). done.
Qed.

End Walk.
