(* ===== verification/SmapProps.v ===== *)
(** * Properties of the string map

    The prefix tree as a refinement of a finite map, the ranges of its machine
    integers, the two versions of its functions, its walks, the round trip
    through its items, and the inputs on which the code misbehaves. *)
From Stdlib Require Import ZArith Lia.
From stdpp Require Import base list option numbers sets gmap.
From S2P Require Import Prelude Mem Smap SmapProof SmapAdd SmapMap SmapWalk.

(** ** The abstract map *)

(** A call; [z] picks the version for zero-terminated keys. *)
Inductive scall (V : Type) :=
  | SGet (z : bool) (key : list Z)
  | SAdd (z : bool) (key : list Z) (v : V)
  | SPop (z : bool) (key : list Z).
Arguments SGet {V}. Arguments SAdd {V}. Arguments SPop {V}.

Inductive sreply (V : Type) := SData (o : option V) | SCode (rc : Z).
Arguments SData {V}. Arguments SCode {V}.

Section Refinement.
Context {V : Type}.
Implicit Types (m : smap V) (G : gmap (list Z) V) (c : scall V) (key : list Z).

Definition run_scall c m : IM V (sreply V * smap V) :=
  match c with
  | SGet z key => d ← deref (if z then smap_get m key else smap_getn m key); mret (SData d, m)
  | SAdd z key v => '(rc, m) ← (if z then smap_add m key v else smap_addn m key v); mret (SCode rc, m)
  | SPop z key => '(d, m) ← (if z then smap_pop m key else smap_popn m key); mret (SData d, m)
  end.

Definition sreply_of G c : sreply V :=
  match c with
  | SGet _ key | SPop _ key => SData (G !! key)
  | SAdd _ key _ => SCode (if G !! key then SMAP_ERR_EXIST else SMAP_SUCCESS)
  end.

Definition snext G c : gmap (list Z) V :=
  match c with
  | SGet _ _ => G
  | SAdd _ key v => if G !! key then G else <[key := v]> G
  | SPop _ key => delete key G
  end.

(** What a caller has to respect: added keys have no byte zero, fewer than
    2^32 - 1 keys, memory for an add, and no [smap_get] of the empty key. *)
Definition scall_ok G c (s : ist V) : Prop :=
  Z.of_nat (size G) < 4294967295 /\
  match c with
  | SGet z key => z = true -> key <> []
  | SAdd _ key _ => key_ok key /\ (7 <= mem s)%nat
  | SPop _ _ => True
  end.

Inductive sreach : smap V -> gmap (list Z) V -> Prop :=
  | sreach_create s m s' : smap_create s = Some (Some m, s') -> sreach m ∅
  | sreach_call m G c s r m' s' :
      sreach m G -> scall_ok G c s -> run_scall c m s = Some ((r, m'), s') -> sreach m' (snext G c).

Lemma run_scall_spec m c s :
  smap_ok m -> scall_ok (to_smap m) c s ->
  exists m' s', run_scall c m s = Some ((sreply_of (to_smap m) c, m'), s') /\ smap_ok m' /\
    to_smap m' = snext (to_smap m) c /\ evs s' = evs s.
Proof.
  intros Hm [Hsz Hc]. destruct c as [z key|z key v|z key]; cbn [run_scall sreply_of snext].
  - exists m, s. assert ((if z then smap_get m key else smap_getn m key) = Some (to_smap m !! key)) as ->; [|done].
    rewrite <- smap_getn_spec by done. destruct z; [|done]. apply smap_get_zero; auto.
  - destruct Hc as [Hkey Hmem].
    destruct (smap_addn_spec m key v s Hm Hkey Hsz Hmem) as ([rc m'] & s' & E & _ & [Hm' Hpost] & Hev).
    exists m', s'. assert ((if z then smap_add m key v else smap_addn m key v) s = Some ((rc, m'), s')) as E'.
    { destruct z; [by rewrite smap_add_zero|done]. }
    rewrite (IM_bind_Some _ _ _ _ _ E'). cbn [fst snd] in *.
    destruct (to_smap m !! key); destruct Hpost as [-> Hmap]; done.
  - destruct (smap_popn_spec m key s Hm ltac:(lia)) as (m' & s' & E & Hev & Hm' & Hmap). exists m', s'.
    assert ((if z then smap_pop m key else smap_popn m key) s = Some ((to_smap m !! key, m'), s')) as E'.
    { destruct z; [by rewrite smap_pop_zero|done]. }
    by rewrite (IM_bind_Some _ _ _ _ _ E').
Qed.

Lemma sreach_ok m G : sreach m G -> smap_ok m /\ to_smap m = G.
Proof.
  induction 1 as [s m s' E|m G c s r m' s' Hr [Hm <-] Hc E].
  - pose proof (smap_create_spec s) as Hcr. destruct (mem s); [congruence|].
    destruct Hcr as (m0 & E0 & Hm & Hmap). assert (m0 = m) as -> by congruence. done.
  - destruct (run_scall_spec m c s Hm Hc) as (m1 & s1 & E1 & Hm1 & Hmap & _).
    rewrite E in E1. injection E1 as -> -> ->. done.
Qed.


(** ** Ranges *)

(** The nodes of a tree. *)
Inductive snode_of : block (smap_node V) -> smap_node V -> Prop :=
  | snode_kid b k (nd : smap_node V) : kid b k = Some nd -> snode_of b nd
  | snode_below b k (nd nd' : smap_node V) : kid b k = Some nd -> snode_of (sn_blk nd) nd' -> snode_of b nd'.

Lemma snode_swf b (nd : smap_node V) : bwf b -> snode_of b nd -> swf nd.
Proof.
  intros Hb Hc. revert Hb. induction Hc as [b k c Hk|b k c c' Hk Hc IH]; intros [Hb Hs]; [by apply (Hs k)|].
  apply IH. by destruct (swf_inv c (Hs k c Hk)) as (_ & ? & _).
Qed.

(** In every map that is reached the fields of all nodes stay in the range of
    their types: a block covers [sz] of the eight groups of 32 bytes and has
    exactly [32 * sz] slots, [size] is the number of children and fits eight
    bits, every key consists of non-zero bytes, and a node without block has no
    children. *)
Theorem smap_fields_in_range m G (nd : smap_node V) :
  sreach m G -> snode_of (sm_blk m) nd ->
  key_ok (sn_key nd) /\ sn_size nd = count (sn_blk nd) /\ 0 <= sn_size nd <= 255 /\
  match b_nodes (sn_blk nd) with
  | None => sn_size nd = 0
  | Some ns => 0 <= b_offset (sn_blk nd) /\ 1 <= b_sz (sn_blk nd) /\ b_offset (sn_blk nd) + b_sz (sn_blk nd) <= 8 /\
               len ns = 32 * b_sz (sn_blk nd)
  end.
Proof.
  intros Hr Hc. destruct (sreach_ok m G Hr) as [(Hb & _) _].
  destruct (swf_inv nd (snode_swf _ _ Hb Hc)) as (Hkey & [Hbok _] & Hsize). split; [done|]. split; [done|].
  pose proof (count_255 _ Hbok). split; [lia|]. rewrite Hsize. unfold bok, count in *.
  destruct (b_nodes (sn_blk nd)); [|done]. destruct Hbok as (? & ? & ? & ? & _). done.
Qed.

(** ** The two versions *)

(** On a consistent map and a key without the byte zero the functions for
    zero-terminated strings do exactly what those with a length do, whatever
    memory is left, except [smap_get] for the empty key. *)
Theorem smap_versions_agree m key (v : V) s :
  smap_ok m -> key_ok key ->
  smap_add m key v s = smap_addn m key v s /\ smap_pop m key s = smap_popn m key s /\
  (key <> [] -> smap_get m key = smap_getn m key).
Proof.
  intros Hm Hkey. split; [by apply smap_add_zero|]. split; [by apply smap_pop_zero|]. intros Hne. by apply smap_get_zero.
Qed.

(** ** Walks *)

(** [smap_items] with a buffer of [smap_longest_key_size] bytes never writes
    behind it and visits every key with its pointer exactly once, until the
    callback returns non-zero; [smap_values] visits the pointers in the same
    order; no key is longer than the buffer; [smap_clear] with a callback
    releases every pointer exactly once and leaves an empty map. *)
Theorem smap_visits_every_item m :
  smap_ok m ->
  smap_list m ≡ₚ map_to_list (to_smap m) /\
  (forall A (cb : list Z -> V -> A -> Z * A) arg,
     smap_items m (smap_longest_key_size m) cb arg = Some (walk_list (fun x => cb x.1 x.2) (smap_list m) arg)) /\
  (forall A (cb : V -> A -> Z * A) arg, smap_values m cb arg = walk_list cb (smap_list m).*2 arg) /\
  (forall key, is_Some (to_smap m !! key) -> len key <= smap_longest_key_size m) /\
  exists l, l ≡ₚ (map_to_list (to_smap m)).*2 /\ forall s,
    smap_clear m (Some release) s = Some (Smap 0 empty_block None, IState (mem s) (rev (Callback <$> l) ++ evs s)).
Proof.
  intros Hm. split; [by apply smap_list_items|]. split; [intros; by apply smap_items_spec|].
  split; [intros; apply smap_values_spec|]. split.
  - intros key [v Hv]. by eapply smap_longest_bound.
  - destruct (smap_clear_spec m) as (l & Hl & Hrun). exists l. split; [|done]. by rewrite Hl, (smap_list_items m Hm).
Qed.

(** Adding every item that [smap_items] reports to a new map succeeds and
    gives a map with the same keys and pointers. *)
Theorem smap_items_round_trip m s :
  smap_ok m -> sm_n m < 4294967296 -> 7 * sm_n m + 1 <= Z.of_nat (mem s) ->
  exists m0 s0 m' s', smap_create s = Some (Some m0, s0) /\
    smap_items m (smap_longest_key_size m) reload_cb (m0, s0) = Some (0, (m', s')) /\
    sm_n m' = sm_n m /\ forall key, smap_getn m' key = smap_getn m key.
Proof.
  intros Hm Hn Hmem.
  destruct (smap_reload_spec m (smap_longest_key_size m) s Hm ltac:(lia) Hn Hmem)
    as (m0 & s0 & m' & s' & E0 & Ei & Hm' & Hmap).
  exists m0, s0, m', s'. split; [done|]. split; [done|].
  split; [destruct Hm as (_ & _ & ->), Hm' as (_ & _ & ->); by rewrite Hmap|].
  intros key. rewrite !smap_getn_spec by done. by rewrite Hmap.
Qed.

End Refinement.

(** ** Concrete maps *)

(** The map that holds each key of [l] with its length as pointer. *)
Definition of_keys (l : list (list Z)) : smap Z :=
  foldl (fun m key => match smap_addn m key (len key) (IState 100 []) with Some ((_, m'), _) => m' | None => m end)
    (Smap 0 empty_block None) l.

Lemma sreach_of_keys l :
  Forall key_ok l -> Z.of_nat (length l) < 4294967296 ->
  exists G, sreach (of_keys l) G /\ (size G <= length l)%nat.
Proof.
  induction l as [|key l IH] using rev_ind; intros Hl Hn.
  { exists ∅. split; [|done]. by apply (sreach_create (IState 1 []) _ (IState 0 [])). }
  apply Forall_app in Hl as [Hl [Hkey _]%Forall_cons_1]. rewrite length_app in *. simpl in *.
  destruct IH as (G & Hr & HG); [done|lia|]. destruct (sreach_ok _ _ Hr) as [Hm Hmap].
  assert (scall_ok G (SAdd false key (len key)) (IState 100 [])) as Hok by (split; [lia|]; split; [done|simpl; lia]).
  pose proof Hok as Hok'. rewrite <- Hmap in Hok'.
  destruct (run_scall_spec (of_keys l) _ _ Hm Hok') as (m' & s' & E & _).
  exists (snext G (SAdd false key (len key))). split.
  - assert (of_keys (l ++ [key]) = m') as ->.
    { unfold of_keys. rewrite foldl_app. cbn [foldl]. fold (of_keys l). cbn [run_scall] in E. unfold mbind, IM_bind in E.
      destruct (smap_addn (of_keys l) key (len key) (IState 100 [])) as [[[rc m1] s1]|]; [|done]. by injection E. }
    exact (sreach_call (of_keys l) G _ (IState 100 []) _ _ s' Hr Hok E).
  - simpl. destruct (G !! key) eqn:EG; [lia|]. rewrite map_size_insert_None by done. lia.
Qed.

(** "abc", "abcd", "ax", "" and "b". *)
Definition demo : list (list Z) := [[97; 98; 99]; [97; 98; 99; 100]; [97; 120]; []; [98]].

Lemma demo_reach : exists G, sreach (of_keys demo) G /\ (size G <= 5)%nat.
Proof. apply sreach_of_keys; [repeat constructor|done]. Qed.

Lemma demo_ok : smap_ok (of_keys demo).
Proof. destruct demo_reach as (G & Hr & _). by destruct (sreach_ok _ _ Hr). Qed.


Lemma smap_fields_in_range_witness :
  exists nd, snode_of (sm_blk (of_keys demo)) nd /\ 0 <= sn_size nd <= 255 /\ sn_size nd = 2.
Proof.
  destruct demo_reach as (G & Hr & _).
  assert (snode_of (sm_blk (of_keys demo)) (default (SNode empty_block 0 [] None) (kid (sm_blk (of_keys demo)) 97))) as Hnd.
  { apply (snode_kid _ 97). vm_compute. reflexivity. }
  destruct (smap_fields_in_range _ _ _ Hr Hnd) as (_ & _ & Hs & _).
  eexists. split; [exact Hnd|]. split; [exact Hs|]. vm_compute. reflexivity.
Defined.

Lemma smap_versions_agree_witness :
  smap_pop (of_keys demo) [97; 120] (IState 0 []) = smap_popn (of_keys demo) [97; 120] (IState 0 []) /\
  smap_get (of_keys demo) [97; 120] = Some (Some 2).
Proof.
  destruct (smap_versions_agree (of_keys demo) [97; 120] 7 (IState 0 []) demo_ok) as (_ & Hp & Hg); [repeat constructor|].
  split; [exact Hp|]. rewrite Hg by discriminate. vm_compute. reflexivity.
Defined.

Lemma smap_visits_every_item_witness :
  smap_longest_key_size (of_keys demo) = 4 /\
  smap_items (of_keys demo) 4 (fun key v l => (0, l ++ [(key, v)])) [] =
    Some (0, [([], 0); ([97; 98; 99], 3); ([97; 98; 99; 100], 4); ([97; 120], 2); ([98], 1)]).
Proof.
  assert (smap_longest_key_size (of_keys demo) = 4) as E by (vm_compute; reflexivity). split; [exact E|].
  destruct (smap_visits_every_item _ demo_ok) as (_ & Hi & _).
  specialize (Hi _ (fun key v l => (0, l ++ [(key, v)])) []). rewrite E in Hi. rewrite Hi. vm_compute. reflexivity.
Defined.

Lemma smap_items_round_trip_witness :
  exists m', smap_items (of_keys demo) 4 reload_cb (Smap 0 empty_block None, IState 99 []) = Some (0, m') /\
    smap_getn m'.1 [97; 98; 99] = Some (Some 3).
Proof.
  destruct (smap_items_round_trip (of_keys demo) (IState 100 []) demo_ok) as (m0 & s0 & m' & s' & E0 & Ei & _ & Hg);
    [vm_compute; reflexivity|vm_compute; discriminate|].
  vm_compute in E0. injection E0 as <- <-. exists (m', s').
  assert (smap_longest_key_size (of_keys demo) = 4) as E by (vm_compute; reflexivity). rewrite E in Ei.
  split; [exact Ei|]. cbn [fst]. rewrite Hg. vm_compute. reflexivity.
Defined.

(** ** Inputs on which the code misbehaves *)

(** [smap_get] reads through the pointer stored under the empty key. *)
Theorem smap_get_empty_undefined :
  smap_getn (of_keys demo) [] = Some (Some 0) /\ smap_get (of_keys demo) [] = None.
Proof. split; vm_compute; reflexivity. Qed.

(** When an allocation fails while a node is split, the keys below it are
    lost: with "abc" and "abcd" in the map, adding "ax" with three allocations
    left reports the error, and "abcd" is no longer found although nothing was
    removed. *)
Theorem smap_failed_split_loses_keys :
  smap_getn (of_keys [[97; 98; 99]; [97; 98; 99; 100]]) [97; 98; 99; 100] = Some (Some 4) /\
  exists m, smap_addn (of_keys [[97; 98; 99]; [97; 98; 99; 100]]) [97; 120] 2 (IState 3 []) =
      Some ((SMAP_ERR_ALLOC, m), IState 0 []) /\
    smap_getn m [97; 98; 99; 100] = Some None /\ sm_n m = 2.
Proof. split; [vm_compute; reflexivity|]. eexists. split; [vm_compute; reflexivity|]. split; vm_compute; reflexivity. Qed.

(** Keys with the byte zero, which the versions with a length accept, can give
    a node 256 children; its 8-bit counter then wraps to zero and popping the
    node's own key drops all its children, while the map still counts 256 keys. *)
Theorem smap_child_counter_wraps :
  let m := of_keys ([1] :: map (fun i => [1; Z.of_nat i]) (seq 0 256)) in
  sm_n m = 257 /\ smap_getn m [1; 200] = Some (Some 2) /\
  exists m', smap_popn m [1] (IState 0 []) = Some ((Some 1, m'), IState 0 []) /\
    sm_n m' = 256 /\ smap_getn m' [1; 200] = Some None.
Proof.
  cbv zeta. split; [vm_compute; reflexivity|]. split; [vm_compute; reflexivity|].
  eexists. split; [vm_compute; reflexivity|]. split; vm_compute; reflexivity.
Qed.
