(* ===== verification/Stream.v ===== *)
(** * ti/stream and ti/pkg: packages on the wire

    [ti_stream_alloc_buf] and [ti_stream_on_data] of [src/src/ti/stream.c],
    [src/inc/ti/pkg.t.h] and [ti_pkg_new] of [src/src/ti/pkg.c]. A package is a
    header of eight bytes, with the fields in the byte order of a little-endian
    machine, and its data. libuv asks for a buffer, writes the bytes that arrived
    behind those that wait there, and calls [ti_stream_on_data]; whole packages
    are handed to [stream->pkg_cb] and the rest is moved to the front.

    The buffer is a block of cells: reading a cell that was not written and
    moving cells outside the block are undefined ([None]). *)
From Stdlib Require Import ZArith Lia.
From stdpp Require Import base list option numbers.
From S2P Require Import Prelude.

Definition TI_PKG_MAX_SIZE : Z := 1073741824.

(** [sizeof(ti_pkg_t)] *)
Definition PKG_HEADER : Z := 8.

Record ti_pkg := Pkg {
  pkg_n : Z;            (* uint32_t *)
  pkg_id : Z;           (* uint16_t *)
  pkg_tp : Z;           (* uint8_t *)
  pkg_ntp : Z;          (* uint8_t *)
  pkg_data : list Z
}.

Definition ti_pkg_new (ok : bool) (id tp : Z) (data : list Z) : option ti_pkg :=
  if ok then Some (Pkg (u32 (len data)) id tp (Z.lxor tp 255) data) else None.

(** The package in memory, and on the wire. *)
Definition pkg_bytes (p : ti_pkg) : list Z :=
  [pkg_n p mod 256; pkg_n p / 256 mod 256; pkg_n p / 65536 mod 256; pkg_n p / 16777216 mod 256;
   pkg_id p mod 256; pkg_id p / 256 mod 256; pkg_tp p; pkg_ntp p] ++ pkg_data p.

(** The header and the data of the package at the start of a buffer. *)
Definition pkg_header (buf : list (option Z)) : option ti_pkg :=
  n0 ← rd buf 0; n1 ← rd buf 1; n2 ← rd buf 2; n3 ← rd buf 3;
  i0 ← rd buf 4; i1 ← rd buf 5; tp ← rd buf 6; ntp ← rd buf 7;
  Some (Pkg (n0 + 256 * n1 + 65536 * n2 + 16777216 * n3) (i0 + 256 * i1) tp ntp []).

Fixpoint cells {A} (l : list (option A)) : option (list A) :=
  match l with
  | [] => Some []
  | o :: l => x ← o; xs ← cells l; Some (x :: xs)
  end.

Definition pkg_with_data (h : ti_pkg) (buf : list (option Z)) : option ti_pkg :=
  if PKG_HEADER + pkg_n h <=? len buf then
    data ← cells (slice buf PKG_HEADER (pkg_n h));
    Some (Pkg (pkg_n h) (pkg_id h) (pkg_tp h) (pkg_ntp h) data)
  else None.

Definition ti_pkg_check (p : ti_pkg) : bool :=
  (pkg_tp p + pkg_ntp p =? 255) && (pkg_n p <=? TI_PKG_MAX_SIZE).

(** The fields of the stream that reading uses, and the packages handed over. *)
Record in_stream := InStream {
  in_buf : list (option Z);   (* the allocated block, empty when NULL *)
  in_sz : Z;                  (* uint32_t sz *)
  in_n : Z;                   (* uint32_t n *)
  in_closed : bool;           (* TI_STREAM_FLAG_CLOSED *)
  in_got : list ti_pkg
}.

Definition in_create : in_stream := InStream [] 0 0 false [].

(** [ti_stream_close]; the requests of the stream are modelled apart. *)
Definition in_close (s : in_stream) : in_stream :=
  if in_closed s then s else InStream (in_buf s) (in_sz s) 0 true (in_got s).

(** The place in the buffer and the length libuv may write there; the length 0
    stands for the NULL buffer of a failed allocation too. *)
Definition ti_stream_alloc_buf (ok : bool) (sugsz : Z) (s : in_stream) : Z * Z * in_stream :=
  if (in_n s =? 0) && negb (in_sz s =? sugsz) then
    if ok then (0, u32 sugsz, InStream (malloc sugsz) (u32 sugsz) 0 (in_closed s) (in_got s))
    else (0, 0, InStream [] (in_sz s) (in_n s) (in_closed s) (in_got s))
  else (in_n s, u32 (in_sz s - in_n s), s).

(** The bytes that arrive. *)
Definition in_fill (base : Z) (bytes : list Z) (s : in_stream) : option in_stream :=
  buf ← copy (in_buf s) base (Some <$> bytes) 0 (len bytes);
  Some (InStream buf (in_sz s) (in_n s) (in_closed s) (in_got s)).

Section OnData.
(** [pkg_cb] closes the stream or not; [ok]: [realloc] succeeds. *)
Context (pkg_cb : ti_pkg -> bool) (ok : bool).

Fixpoint on_data (fuel : nat) (n : Z) (s : in_stream) : option in_stream :=
  match fuel with
  | O => None
  | S fuel =>
      if in_closed s then Some s else
      if n <? 0 then Some (in_close s) else
      let s := InStream (in_buf s) (in_sz s) (u32 (in_n s + n)) (in_closed s) (in_got s) in
      if in_n s <? PKG_HEADER then Some s else
      h ← pkg_header (in_buf s);
      if negb (ti_pkg_check h) then Some (in_close s) else
      let total_sz := PKG_HEADER + pkg_n h in
      if in_n s <? total_sz then
        if in_sz s <? total_sz then
          if ok then Some (InStream (realloc (in_buf s) total_sz) (u32 total_sz) (in_n s) (in_closed s) (in_got s))
          else Some (in_close s)
        else Some s
      else
        p ← pkg_with_data h (in_buf s);
        let s := InStream (in_buf s) (in_sz s) (in_n s) (in_closed s) (in_got s ++ [p]) in
        let s := if pkg_cb p then in_close s else s in
        let s := InStream (in_buf s) (in_sz s) (u32 (in_n s - total_sz)) (in_closed s) (in_got s) in
        if 0 <? in_n s then
          buf ← memmove (in_buf s) 0 total_sz (in_n s);
          on_data fuel 0 (InStream buf (in_sz s) (in_n s) (in_closed s) (in_got s))
        else Some s
  end.

(** Every package takes at least one byte of those in the buffer. *)
Definition ti_stream_on_data (n : Z) (s : in_stream) : option in_stream :=
  on_data (S (Z.to_nat (u32 (in_n s + n)))) n s.

(** One read of at most [k] of the bytes [wire] that wait in the socket. *)
Definition in_read (sugsz : Z) (k : nat) (wire : list Z) (s : in_stream) : option (list Z * in_stream) :=
  let '(base, room, s) := ti_stream_alloc_buf ok sugsz s in
  let chunk := take (Nat.min k (Z.to_nat room)) wire in
  if room =? 0 then s ← ti_stream_on_data (-1) s; Some (wire, s) else
  s ← in_fill base chunk s;
  s ← ti_stream_on_data (len chunk) s;
  Some (drop (length chunk) wire, s).

Fixpoint in_reads (sugsz : Z) (ks : list nat) (wire : list Z) (s : in_stream) : option (list Z * in_stream) :=
  match ks with
  | [] => Some (wire, s)
  | k :: ks => '(wire, s) ← in_read sugsz k wire s; in_reads sugsz ks wire s
  end.

End OnData.

(** ** The header *)

Definition pkg_ok (p : ti_pkg) : Prop :=
  pkg_n p = len (pkg_data p) /\ pkg_n p <= TI_PKG_MAX_SIZE /\ 0 <= pkg_id p < 65536 /\
  0 <= pkg_tp p < 256 /\ pkg_ntp p = Z.lxor (pkg_tp p) 255.

Lemma ti_pkg_new_ok id tp data :
  0 <= id < 65536 -> 0 <= tp < 256 -> len data <= TI_PKG_MAX_SIZE ->
  exists p, ti_pkg_new true id tp data = Some p /\ pkg_ok p /\ pkg_id p = id /\ pkg_tp p = tp /\ pkg_data p = data.
Proof.
  intros Hid Htp Hn. pose proof (len_nonneg data). unfold TI_PKG_MAX_SIZE in *. eexists. split; [done|].
  split; [|done]. unfold pkg_ok, TI_PKG_MAX_SIZE; simpl. rewrite u32_small by lia. auto.
Qed.

Lemma bytes4 n : 0 <= n < 4294967296 ->
  n mod 256 + 256 * (n / 256 mod 256) + 65536 * (n / 65536 mod 256) + 16777216 * (n / 16777216 mod 256) = n.
Proof. intros Hn. Z.to_euclidean_division_equations. lia. Qed.

Lemma bytes2 n : 0 <= n < 65536 -> n mod 256 + 256 * (n / 256 mod 256) = n.
Proof. intros Hn. Z.to_euclidean_division_equations. lia. Qed.

(** [tp + ntp == 0xff] says the same as [tp == (ntp ^ 0xff)]. *)
Lemma complement_byte tp : 0 <= tp < 256 -> Z.lxor tp 255 = 255 - tp.
Proof.
  intros Htp. assert (0 <= Z.to_nat tp < 256)%nat as Hn by lia. rewrite <- (Z2Nat.id tp) by lia.
  revert Hn. generalize (Z.to_nat tp) as k. clear. intros k Hk.
  assert (forallb (fun k => Z.lxor (Z.of_nat k) 255 =? 255 - Z.of_nat k) (seq 0 256) = true) as Hall by (vm_compute; reflexivity).
  rewrite List.forallb_forall in Hall. apply Z.eqb_eq, Hall, List.in_seq. lia.
Qed.

Lemma pkg_check_ok p : pkg_ok p -> ti_pkg_check p = true.
Proof.
  intros (_ & Hn & _ & Htp & E). unfold ti_pkg_check. rewrite E, complement_byte by done.
  apply andb_true_iff. split; [apply Z.eqb_eq; lia|by apply Z.leb_le].
Qed.

Lemma len_pkg_bytes p : pkg_ok p -> len (pkg_bytes p) = PKG_HEADER + pkg_n p.
Proof. intros (Hn & _). unfold pkg_bytes, PKG_HEADER. rewrite len_app, Hn. unfold len. simpl. lia. Qed.

Definition no_data (p : ti_pkg) : ti_pkg := Pkg (pkg_n p) (pkg_id p) (pkg_tp p) (pkg_ntp p) [].

(** The header of a package of which at least that much is there. *)
Lemma pkg_header_ok p pend wire rest junk : pkg_ok p ->
  pend ++ wire = pkg_bytes p ++ rest -> PKG_HEADER <= len pend ->
  pkg_header ((Some <$> pend) ++ junk) = Some (no_data p).
Proof.
  intros (Hn & Hmax & Hid & _) E Hlen. pose proof (len_nonneg (pkg_data p)).
  unfold len, PKG_HEADER, TI_PKG_MAX_SIZE, pkg_bytes in *.
  destruct pend as [|b0 [|b1 [|b2 [|b3 [|b4 [|b5 [|b6 [|b7 pend]]]]]]]]; simpl in Hlen; try lia.
  simpl in E. injection E as -> -> -> -> -> -> -> -> E. unfold pkg_header. simpl.
  rewrite bytes4 by lia. rewrite bytes2 by lia. done.
Qed.

(** ** The buffer *)

(** The first cells of the buffer hold [pend]. *)
Definition holds (s : in_stream) (pend : list Z) : Prop :=
  exists junk, in_buf s = (Some <$> pend) ++ junk /\ in_sz s = len (in_buf s) /\ in_sz s < 2147483648.

Lemma len_some {A} (l : list A) : len (Some <$> l) = len l.
Proof. unfold len. by rewrite length_fmap. Qed.

Lemma holds_len s pend : holds s pend -> len pend <= in_sz s.
Proof. intros (junk & E & Hsz & _). rewrite Hsz, E, len_app, len_some. pose proof (len_nonneg junk). lia. Qed.

Lemma cells_some {A} (l : list A) : cells (Some <$> l) = Some l.
Proof. induction l as [|x l IH]; [done|]. rewrite fmap_cons. cbn [cells mbind option_bind]. by rewrite IH. Qed.

Lemma slice_app {A} (a b c : list A) : slice (a ++ b ++ c) (len a) (len b) = b.
Proof.
  unfold slice, len. rewrite !Nat2Z.id. rewrite drop_app_length. by rewrite take_app_length.
Qed.

Lemma copy_app {A} (a b c l : list A) : len l = len b -> copy (a ++ b ++ c) (len a) l 0 (len l) = Some (a ++ l ++ c).
Proof.
  intros Hl. unfold copy, len in *. rewrite !length_app. pose proof (Zle_0_nat (length a)).
  repeat (rewrite (proj2 (Z.leb_le _ _)) by lia). cbn [andb]. f_equal. unfold blit, slice. simpl.
  rewrite !Nat2Z.id, drop_0, (firstn_all l), take_app_length. f_equal. f_equal.
  rewrite drop_app_add. rewrite (drop_app_length' b) by lia. done.
Qed.

Lemma memmove_front {A} (a b c : list A) :
  exists junk, memmove (a ++ b ++ c) 0 (len a) (len b) = Some (b ++ junk) /\ length (b ++ junk) = length (a ++ b ++ c).
Proof.
  unfold memmove, copy. rewrite !len_app. pose proof (len_nonneg a). pose proof (len_nonneg b). pose proof (len_nonneg c).
  repeat (rewrite (proj2 (Z.leb_le _ _)) by lia). cbn [andb]. rewrite slice_app. unfold blit. simpl.
  eexists. split; [done|]. rewrite length_app, length_drop, !length_app. lia.
Qed.

Lemma pkg_with_data_ok p rest : pkg_ok p ->
  pkg_with_data (no_data p) ((Some <$> pkg_bytes p) ++ rest) = Some p.
Proof.
  intros Hp. pose proof Hp as (Hn & _). unfold pkg_with_data. cbn [no_data pkg_n pkg_id pkg_tp pkg_ntp].
  rewrite len_app, len_some, len_pkg_bytes by done. pose proof (len_nonneg rest).
  rewrite (proj2 (Z.leb_le _ _)) by lia. unfold pkg_bytes. rewrite fmap_app, <- app_assoc, Hn.
  replace (len (pkg_data p)) with (len (Some <$> pkg_data p)) by apply len_some.
  set (h := Some <$> [_; _; _; _; _; _; _; _]). change PKG_HEADER with (len h). rewrite slice_app, cells_some.
  rewrite len_some, <- Hn. cbn [mbind option_bind]. by destruct p.
Qed.

(** ** Reassembly *)

Definition wire_of (ps : list ti_pkg) : list Z := concat (pkg_bytes <$> ps).

(** No whole package waits, and there is room for a next byte. *)
Definition waiting (s : in_stream) (pend : list Z) (ps : list ti_pkg) : Prop :=
  holds s pend /\ in_n s = len pend /\ in_closed s = false /\
  match ps with
  | [] => pend = []
  | p :: _ => len pend < PKG_HEADER + pkg_n p /\ (PKG_HEADER <= in_sz s -> len pend < in_sz s)
  end.

(** What one call hands over of the packages [ps] that are still to come. *)
Definition handed (s : in_stream) (wire : list Z) (ps : list ti_pkg) (s' : in_stream) : Prop :=
  exists done_ left_ pend', ps = done_ ++ left_ /\ in_got s' = in_got s ++ done_ /\ pend' ++ wire = wire_of left_ /\
    waiting s' pend' left_ /\ in_sz s <= in_sz s'.

Lemma handed_none s wire ps s' pend :
  pend ++ wire = wire_of ps -> in_got s' = in_got s -> waiting s' pend ps -> in_sz s <= in_sz s' -> handed s wire ps s'.
Proof. intros Hw Hg Hwait Hsz. exists [], ps, pend. by rewrite Hg, app_nil_r. Qed.

Lemma handed_cons s wire p ps s1 s' :
  in_got s1 = in_got s ++ [p] -> in_sz s <= in_sz s1 -> handed s1 wire ps s' -> handed s wire (p :: ps) s'.
Proof.
  intros Hg Hsz (d & l & pend & -> & Hd & Hw & Hwait & Hsz'). exists (p :: d), l, pend.
  rewrite Hd, Hg, <- app_assoc. split; [done|]. split; [done|]. split; [done|]. split; [done|lia].
Qed.

Lemma holds_realloc s pend n m c g : holds s pend -> in_sz s <= n < 2147483648 ->
  holds (InStream (realloc (in_buf s) n) n m c g) pend.
Proof.
  intros (junk & Hbuf & Hsz & Hmax) Hn. exists (junk ++ replicate (Z.to_nat n - length (in_buf s)) None). simpl.
  assert (realloc (in_buf s) n = in_buf s ++ replicate (Z.to_nat n - length (in_buf s)) None) as E.
  { unfold realloc. rewrite take_ge; [done|]. unfold len in Hsz. lia. }
  split; [rewrite E, Hbuf; by rewrite app_assoc|]. split; [|lia]. unfold len. rewrite length_realloc by (pose proof (len_nonneg (in_buf s)); lia).
  pose proof (len_nonneg (in_buf s)). lia.
Qed.

(** A whole package at the front is handed over and the rest moves up. *)
Lemma holds_shift s (a b : list Z) junk : in_buf s = (Some <$> (a ++ b)) ++ junk -> in_sz s = len (in_buf s) -> in_sz s < 2147483648 ->
  exists buf, memmove (in_buf s) 0 (len a) (len b) = Some buf /\
    forall n c g, holds (InStream buf (in_sz s) n c g) b.
Proof.
  intros Hbuf Hsz Hmax. rewrite Hbuf, fmap_app, <- app_assoc.
  destruct (memmove_front (Some <$> a) (Some <$> b) junk) as (junk' & E & Hl). rewrite !len_some in E. rewrite E.
  eexists. split; [done|]. intros n c g. exists junk'. simpl. split; [done|]. split; [|done].
  rewrite Hsz, Hbuf, fmap_app, <- app_assoc. unfold len. by rewrite Hl.
Qed.

Lemma waiting_nil s ps : Forall pkg_ok ps -> in_sz s = len (in_buf s) -> in_sz s < 2147483648 -> in_n s = 0 ->
  in_closed s = false -> waiting s [] ps.
Proof.
  intros Hps Hsz Hmax Hn Hcl. split; [by exists (in_buf s)|]. split; [done|]. split; [done|].
  destruct ps as [|p ps]; [done|]. apply Forall_cons_1 in Hps as [(Hp & _) _]. pose proof (len_nonneg (pkg_data p)).
  unfold PKG_HEADER. change (len (@nil Z)) with 0. lia.
Qed.

Lemma on_data_hands ps : forall fuel n s pend wire,
  Forall pkg_ok ps -> holds s pend -> 0 <= n -> in_n s + n = len pend -> in_closed s = false ->
  pend ++ wire = wire_of ps -> (length pend < fuel)%nat ->
  exists s', on_data (fun _ => false) true fuel n s = Some s' /\ handed s wire ps s'.
Proof.
  induction ps as [|p ps IH]; intros fuel n s pend wire Hps Hs Hn Hlen Hcl Hw Hf.
  all: destruct fuel as [|fuel]; [lia|]; pose proof (holds_len _ _ Hs) as Hle; pose proof Hs as (junk & Hbuf & Hsz & Hmax).
  all: pose proof (len_nonneg pend) as Hpos; cbn [on_data]; rewrite Hcl, (proj2 (Z.ltb_ge n 0)) by lia.
  all: cbn [in_n in_buf in_sz in_closed in_got]; rewrite Hlen, u32_small by lia.
  { destruct pend; [|done]. eexists. split; [done|]. by apply (handed_none _ _ _ _ []). }
  apply Forall_cons_1 in Hps as [Hp Hps]. pose proof (len_pkg_bytes p Hp) as Hlp. pose proof Hp as (Hpn & Hpmax & _).
  pose proof (len_nonneg (pkg_data p)). unfold TI_PKG_MAX_SIZE, PKG_HEADER in *.
  change (wire_of (p :: ps)) with (pkg_bytes p ++ wire_of ps) in Hw.
  destruct (Z.ltb_spec (len pend) 8).
  { eexists. split; [done|]. apply (handed_none _ _ _ _ pend); [done|done| |simpl; lia].
    split; [exact Hs|]. split; [done|]. split; [done|]. unfold PKG_HEADER. simpl. lia. }
  rewrite Hbuf, (pkg_header_ok p pend wire _ _ Hp Hw) by done. cbn [mbind option_bind]. rewrite <- Hbuf.
  replace (ti_pkg_check (no_data p)) with (ti_pkg_check p) by done. rewrite pkg_check_ok by done. cbn [negb no_data pkg_n].
  destruct (Z.ltb_spec (len pend) (8 + pkg_n p)) as [Hpart|Hwhole].
  - destruct (Z.ltb_spec (in_sz s) (8 + pkg_n p)); eexists; (split; [done|]); rewrite ?u32_small by lia;
      (apply (handed_none _ _ _ _ pend); [done|done| |simpl; lia]).
    + split; [apply (holds_realloc s pend); [done|lia]|]. unfold PKG_HEADER. simpl. split_and!; try done; lia.
    + split; [exact Hs|]. unfold PKG_HEADER. simpl. split_and!; try done; lia.
  - assert (exists k, pend = pkg_bytes p ++ k /\ k ++ wire = wire_of ps) as (k & -> & Hk).
    { apply app_eq_inv in Hw as [(k & -> & E)|(k & E1 & E2)]; [by exists k|].
      rewrite E1, len_app in Hlp. pose proof (len_nonneg k). destruct k as [|x k]; [|unfold len in *; simpl in *; lia].
      exists []. simpl in E2. rewrite app_nil_r in E1. by rewrite E1, app_nil_r. }
    rewrite Hbuf, fmap_app, <- app_assoc, pkg_with_data_ok by done. cbn [mbind option_bind]. rewrite len_app in *.
    cbv zeta. cbn [in_buf in_sz in_n in_closed in_got]. pose proof (len_nonneg k).
    replace (8 + pkg_n p) with (len (pkg_bytes p)) by lia. replace (len (pkg_bytes p) + len k - len (pkg_bytes p)) with (len k) by lia.
    rewrite u32_small by lia. destruct (holds_shift s (pkg_bytes p) k junk) as (buf & Emv & Hbuf'); [done|done|done|].
    rewrite Hbuf, fmap_app, <- app_assoc in Emv. destruct (Z.ltb_spec 0 (len k)).
    + rewrite Emv. cbn [mbind option_bind].
      destruct (IH fuel 0 (InStream buf (in_sz s) (len k) false (in_got s ++ [p])) k wire) as (s' & -> & Hh); try done.
      { simpl. lia. }
      { rewrite length_app in Hf. unfold len in *. lia. }
      eexists. split; [done|]. by eapply handed_cons; [| |exact Hh].
    + eexists. split; [done|].
      assert (k = []) as -> by (destruct k; [done|unfold len in *; simpl in *; lia]).
      eapply handed_cons; [| |apply (handed_none _ _ _ _ []); [exact Hk|done| |simpl; lia]]; try done.
      apply waiting_nil; try done. cbn [in_buf in_sz]. by rewrite fmap_app, <- app_assoc in Hbuf; rewrite <- Hbuf.
Qed.

(** The state between two reads, when the packages [ps] and the bytes [wire] are
    still to come. *)
Definition between (s : in_stream) (wire : list Z) (ps : list ti_pkg) : Prop :=
  exists pend, waiting s pend ps /\ pend ++ wire = wire_of ps /\ (pend = [] \/ PKG_HEADER <= in_sz s).

(** libuv always gets room for at least one byte behind those that wait. *)
Lemma alloc_buf_room sugsz s pend ps :
  PKG_HEADER <= sugsz < 2147483648 -> Forall pkg_ok ps -> waiting s pend ps -> (pend = [] \/ PKG_HEADER <= in_sz s) ->
  exists room s1, ti_stream_alloc_buf true sugsz s = (len pend, room, s1) /\ 0 < room /\ len pend + room = in_sz s1 /\
    PKG_HEADER <= in_sz s1 /\ waiting s1 pend ps /\ in_got s1 = in_got s.
Proof.
  intros Hsug Hps Hwait Hroom. pose proof Hwait as (Hs & Hn & Hcl & Hps'). pose proof (len_nonneg pend). pose proof (holds_len _ _ Hs).
  destruct Hs as (junk & Hbuf & Hsz & Hmax). unfold ti_stream_alloc_buf, PKG_HEADER in *. rewrite Hn.
  destruct (Z.eqb_spec (len pend) 0) as [E|E]; [destruct (Z.eqb_spec (in_sz s) sugsz) as [E'|E']|]; cbn [andb negb].
  - assert (pend = []) as -> by (destruct pend; [done|unfold len in *; simpl in *; lia]).
    eexists _, s. split; [done|]. rewrite u32_small by lia. split_and!; try done; lia.
  - assert (pend = []) as -> by (destruct pend; [done|unfold len in *; simpl in *; lia]). rewrite u32_small by lia.
    eexists _, _. split; [done|]. cbn [in_sz in_got]. split; [lia|]. split; [simpl; lia|]. split; [lia|]. split; [|done].
    apply waiting_nil; cbn [in_sz in_buf in_n in_closed]; try done; [|lia]. unfold len, malloc. rewrite length_replicate. lia.
  - assert (len pend < in_sz s) as Hlt.
    { destruct Hroom as [->|Hroom]; [done|]. destruct ps as [|p ps]; [by subst pend|]. by apply Hps'. }
    eexists _, s. split; [done|]. rewrite u32_small by lia.
    destruct Hroom as [->|Hroom]; [done|]. split_and!; try done; lia.
Qed.

Lemma in_fill_holds s pend bytes : holds s pend -> len pend + len bytes <= in_sz s ->
  exists s1, in_fill (len pend) bytes s = Some s1 /\ holds s1 (pend ++ bytes) /\
    in_n s1 = in_n s /\ in_closed s1 = in_closed s /\ in_got s1 = in_got s /\ in_sz s1 = in_sz s.
Proof.
  intros (junk & Hbuf & Hsz & Hmax) Hle. unfold in_fill.
  assert (exists x y, junk = x ++ y /\ length x = length bytes) as (x & y & -> & Hx).
  { exists (take (length bytes) junk), (drop (length bytes) junk). rewrite take_drop. split; [done|].
    rewrite length_take. rewrite Hsz, Hbuf, len_app, len_some in Hle. unfold len in Hle. lia. }
  rewrite Hbuf. rewrite <- (len_some pend), <- (len_some bytes). rewrite copy_app by (rewrite len_some; unfold len; lia).
  cbn [mbind option_bind]. eexists. split; [done|]. split; [|done]. exists y. cbn [in_buf in_sz].
  rewrite fmap_app, <- app_assoc. split; [done|]. split; [|done].
  rewrite Hsz, Hbuf, !len_app, !len_some. unfold len. lia.
Qed.

Lemma in_read_hands sugsz k wire s ps :
  PKG_HEADER <= sugsz < 2147483648 -> Forall pkg_ok ps -> between s wire ps ->
  exists chunk wire' done_ left_ s', in_read (fun _ => false) true sugsz k wire s = Some (wire', s') /\
    wire = chunk ++ wire' /\ ((0 < k)%nat -> wire <> [] -> chunk <> []) /\
    ps = done_ ++ left_ /\ in_got s' = in_got s ++ done_ /\ between s' wire' left_.
Proof.
  intros Hsug Hps (pend & Hwait & Hw & Hroom). unfold in_read.
  destruct (alloc_buf_room sugsz s pend ps Hsug Hps Hwait Hroom) as (room & s1 & -> & Hr & Hsz & H8 & (Hs1 & Hn1 & Hcl1 & _) & Hg1).
  rewrite (proj2 (Z.eqb_neq _ _)) by lia. set (m := Nat.min k (Z.to_nat room)). set (chunk := take m wire).
  assert (len chunk <= room) as Hch by (subst chunk m; unfold len; rewrite length_take; lia).
  destruct (in_fill_holds s1 pend chunk Hs1) as (s2 & -> & Hs2 & En & Ec & Eg & Esz); [lia|]. cbn [mbind option_bind].
  assert (wire = chunk ++ drop (length chunk) wire) as Hsplit.
  { subst chunk. rewrite length_take. destruct (decide (m <= length wire)%nat); [rewrite Nat.min_l by lia; by rewrite take_drop|].
    rewrite Nat.min_r, take_ge, drop_ge by lia. by rewrite app_nil_r. }
  pose proof (len_nonneg chunk). pose proof (len_nonneg pend). pose proof (holds_len _ _ Hs2) as Hle. rewrite len_app in Hle.
  destruct Hs2 as (junk & Hb2 & Hz2 & Hm2).
  destruct (on_data_hands ps (S (Z.to_nat (u32 (in_n s2 + len chunk)))) (len chunk) s2 (pend ++ chunk) (drop (length chunk) wire))
    as (s' & E & d & l & pend' & -> & Hd & Hw' & Hwait' & Hsz'); try done.
  { by exists junk. }
  { rewrite len_app. lia. }
  { congruence. }
  { rewrite <- app_assoc. by rewrite <- Hsplit. }
  { rewrite u32_small by lia. rewrite En, Hn1, length_app. unfold len. lia. }
  unfold ti_stream_on_data. rewrite E. cbn [mbind option_bind]. exists chunk, (drop (length chunk) wire), d, l, s'.
  split; [done|]. split; [done|]. split.
  { intros Hk Hne. subst chunk m. destruct wire; [done|]. destruct (Nat.min k (Z.to_nat room)) eqn:Em; [lia|done]. }
  split; [done|]. split; [by rewrite Hd, Eg, Hg1|]. exists pend'. split; [done|]. split; [done|]. right. lia.
Qed.

Lemma in_reads_hands sugsz ks : forall wire s ps,
  PKG_HEADER <= sugsz < 2147483648 -> Forall pkg_ok ps -> between s wire ps ->
  exists wire' done_ left_ s', in_reads (fun _ => false) true sugsz ks wire s = Some (wire', s') /\
    ps = done_ ++ left_ /\ in_got s' = in_got s ++ done_ /\ between s' wire' left_ /\
    (Forall (fun k => 0 < k)%nat ks -> (length wire' <= length wire - length ks)%nat).
Proof.
  induction ks as [|k ks IH]; intros wire s ps Hsug Hps Hb; cbn [in_reads].
  { exists wire, [], ps, s. rewrite app_nil_r. split_and!; try done. simpl. lia. }
  destruct (in_read_hands sugsz k wire s ps Hsug Hps Hb) as (chunk & w1 & d & l & s1 & -> & Hw & Hk & -> & Hg & Hb1).
  apply Forall_app in Hps as [Hd Hl]. cbn [mbind option_bind].
  destruct (IH w1 s1 l Hsug Hl Hb1) as (w2 & d2 & l2 & s2 & -> & -> & Hg2 & Hb2 & Hlen).
  exists w2, (d ++ d2), l2, s2. split; [done|]. rewrite <- app_assoc. split; [done|]. split; [by rewrite Hg2, Hg, app_assoc|].
  split; [done|]. intros Hks. apply Forall_cons_1 in Hks as [Hk0 Hks]. specialize (Hlen Hks). rewrite Hw, length_app in *.
  cbn [length] in *. destruct chunk as [|x chunk]; [|simpl in *; lia]. simpl in *. subst w1.
  destruct wire; [simpl in *; lia|]. by destruct (Hk Hk0).
Qed.

Lemma between_end s ps : Forall pkg_ok ps -> between s [] ps -> ps = [] /\ in_n s = 0 /\ in_closed s = false.
Proof.
  intros Hps (pend & (_ & Hn & Hcl & Hm) & Hw & _). rewrite app_nil_r in Hw. destruct ps as [|p ps].
  - subst pend. by rewrite Hn.
  - apply Forall_cons_1 in Hps as [Hp _]. change (wire_of (p :: ps)) with (pkg_bytes p ++ wire_of ps) in Hw.
    rewrite Hw, len_app, len_pkg_bytes in Hm by done. pose proof (len_nonneg (wire_of ps)). lia.
Qed.

Lemma between_start ps : Forall pkg_ok ps -> between in_create (wire_of ps) ps.
Proof. intros Hps. exists []. split; [by apply waiting_nil|]. split; [done|by left]. Qed.

(** ** Properties *)

(** A package that [ti_pkg_new] made. *)
Definition made (p : ti_pkg) : Prop :=
  exists id tp data, 0 <= id < 65536 /\ 0 <= tp < 256 /\ len data <= TI_PKG_MAX_SIZE /\ ti_pkg_new true id tp data = Some p.

Lemma made_ok p : made p -> pkg_ok p.
Proof.
  intros (id & tp & data & Hid & Htp & Hd & E). destruct (ti_pkg_new_ok id tp data Hid Htp Hd) as (p' & E' & Hp & _). congruence.
Qed.

(** C13. Packages survive the wire. Whatever the sizes in which the bytes of a
    sequence of packages arrive, reading is defined and never closes the stream;
    the packages handed to the callback are at all times the first of those that were
    sent, unchanged and in order; when all bytes have arrived all packages were
    handed over and the buffer is empty; and every read that brings a byte makes
    progress, so that as many reads as there are bytes are enough. *)
Theorem stream_reassembles (sugsz : Z) (ks : list nat) (ps : list ti_pkg) :
  PKG_HEADER <= sugsz < 2147483648 -> Forall made ps ->
  exists rest s, in_reads (fun _ => false) true sugsz ks (wire_of ps) in_create = Some (rest, s) /\
    in_closed s = false /\ in_got s `prefix_of` ps /\
    (rest = [] -> in_got s = ps /\ in_n s = 0) /\
    (Forall (fun k => 0 < k)%nat ks -> (length (wire_of ps) <= length ks)%nat -> rest = []).
Proof.
  intros Hsug Hmade. assert (Forall pkg_ok ps) as Hps by (eapply Forall_impl; [apply made_ok|exact Hmade]).
  destruct (in_reads_hands sugsz ks (wire_of ps) in_create ps Hsug Hps (between_start ps Hps))
    as (rest & d & l & s & E & -> & Hg & Hb & Hlen). exists rest, s. simpl in Hg. subst d. split; [done|].
  apply Forall_app in Hps as [_ Hl]. split; [by destruct Hb as (pend & (_ & _ & Hcl & _) & _)|]. split; [by exists l|]. split.
  - intros ->. destruct (between_end s l Hl Hb) as (-> & Hn & _). by rewrite app_nil_r.
  - intros Hks Hle. specialize (Hlen Hks). destruct rest; [done|]. simpl in Hlen. lia.
Qed.

Definition small_pkgs : list ti_pkg :=
  [Pkg 3 7 5 (Z.lxor 5 255) [1; 2; 3]; Pkg 0 8 5 (Z.lxor 5 255) []; Pkg 20 9 6 (Z.lxor 6 255) (replicate 20 4)].

(** Three packages, the last larger than the buffer, in chunks of at most five
    bytes. *)
Lemma stream_reassembles_witness :
  exists rest s, in_reads (fun _ => false) true 16 (replicate 47 5%nat) (wire_of small_pkgs) in_create = Some (rest, s) /\
    in_closed s = false /\ in_got s `prefix_of` small_pkgs /\
    (rest = [] -> in_got s = small_pkgs /\ in_n s = 0) /\
    (Forall (fun k => 0 < k)%nat (replicate 47 5%nat) -> (length (wire_of small_pkgs) <= length (replicate 47 5%nat))%nat -> rest = []).
Proof.
  apply (stream_reassembles 16 (replicate 47 5%nat) small_pkgs); [unfold PKG_HEADER; lia|].
  repeat constructor; [exists 7, 5, [1; 2; 3]|exists 8, 5, []|exists 9, 6, (replicate 20 4)];
    unfold TI_PKG_MAX_SIZE, len; simpl; (split; [lia|]); (split; [lia|]); (split; [lia|]); reflexivity.
Defined.

(** A callback that closes the stream makes the reading function undefined:
    [ti_stream_close] sets the number of waiting bytes to 0, from which the size of the
    package is then subtracted on 32 bits, and the memmove that follows reaches
    4 GB beyond the buffer. The answer to a connection request that is not the
    expected one closes the stream in that way. *)
Theorem stream_closed_in_callback (pkg_cb : ti_pkg -> bool) (p : ti_pkg) (n : Z) (s : in_stream) (junk : list (option Z)) :
  made p -> pkg_cb p = true -> in_closed s = false -> 0 <= n -> 0 <= in_n s ->
  in_buf s = (Some <$> pkg_bytes p) ++ junk -> len (in_buf s) < 2147483648 -> in_n s + n = len (pkg_bytes p) ->
  ti_stream_on_data pkg_cb true n s = None.
Proof.
  intros Hp%made_ok Hcb Hcl Hn Hn0 Hbuf Hmax Hlen. pose proof (len_pkg_bytes p Hp) as Hlp. pose proof Hp as (Hpn & Hpmax & _).
  pose proof (len_nonneg (pkg_data p)). unfold TI_PKG_MAX_SIZE, PKG_HEADER in *.
  unfold ti_stream_on_data. cbn [on_data]. rewrite Hcl, (proj2 (Z.ltb_ge n 0)) by lia.
  cbn [in_n in_buf in_sz in_closed in_got]. rewrite Hlen, u32_small by lia. unfold PKG_HEADER. rewrite (proj2 (Z.ltb_ge _ 8)) by lia.
  rewrite Hbuf, (pkg_header_ok p (pkg_bytes p) [] [] junk Hp) by (done || unfold PKG_HEADER; lia). cbn [mbind option_bind].
  replace (ti_pkg_check (no_data p)) with (ti_pkg_check p) by done. rewrite pkg_check_ok by done. cbn [negb no_data pkg_n].
  rewrite (proj2 (Z.ltb_ge _ (8 + _))) by lia. rewrite pkg_with_data_ok by done. cbn [mbind option_bind]. cbv zeta. rewrite Hcb.
  unfold in_close. cbn [in_n in_buf in_sz in_closed in_got].
  replace (u32 (0 - (8 + pkg_n p))) with (4294967296 - (8 + pkg_n p)).
  2:{ unfold u32. apply (Z.mod_unique_pos _ _ (-1)); lia. }
  rewrite (proj2 (Z.ltb_lt 0 _)) by lia. unfold memmove, copy. rewrite <- Hbuf.
  rewrite (proj2 (Z.leb_gt (8 + pkg_n p + _) _)) by lia. by rewrite andb_false_r.
Qed.

(** A package without data in a buffer of 64 kB. *)
Lemma stream_closed_in_callback_witness :
  ti_stream_on_data (fun _ => true) true 8
    (InStream ((Some <$> pkg_bytes (Pkg 0 1 96 159 [])) ++ replicate 65528 None) 65536 0 false []) = None.
Proof.
  apply (stream_closed_in_callback _ (Pkg 0 1 96 159 []) 8 _ (replicate 65528 None)); try done.
  exists 1, 96, []. unfold TI_PKG_MAX_SIZE, len. simpl. split; [lia|]. split; [lia|]. split; [lia|reflexivity].
Defined.
