(* ===== verification/Omap.v ===== *)
(** * util/omap: ordered chains of ids and pointers

    [src/src/util/omap.c], [src/inc/util/omap.h]. The chain of cells behind the
    head is the list of their ids and pointers, in increasing order of the ids;
    [om_n] is the counter the head keeps. Only [omap_add] and [omap_set]
    allocate. *)
From Stdlib Require Import ZArith Lia Sorted.
From stdpp Require Import base list option numbers sets gmap sorting.
From S2P Require Import Prelude Mem.

Definition OMAP_ERR_EXIST : Z := -2.
Definition OMAP_ERR_ALLOC : Z := -1.
Definition OMAP_SUCCESS : Z := 0.

Record omap (V : Type) := Omap { om_next : list (Z * V); om_n : Z (* size_t n *) }.
Arguments Omap {V}. Arguments om_next {V}. Arguments om_n {V}.

Section Operations.
Context {V : Type}.
Notation M := (IM V).
Implicit Types (m : omap V) (l : list (Z * V)) (id : Z) (data : V).

Definition omap_create : M (option (omap V)) :=
  ok ← alloc; mret (if ok : bool then Some (Omap [] 0) else None).

(** The cells before the first one whose id is not below [id], and the others. *)
Fixpoint omap__seek id l : list (Z * V) * list (Z * V) :=
  match l with
  | [] => ([], [])
  | (i, d) :: l' =>
      if i <? id then let '(a, b) := omap__seek id l' in ((i, d) :: a, b) else ([], l)
  end.

(** [omap__new] in front of [next]; [None] when the allocation fails. *)
Definition omap__new id data (next : list (Z * V)) : M (option (list (Z * V))) :=
  ok ← alloc; mret (if ok : bool then Some ((id, data) :: next) else None).

(** Link a new cell; the boolean is false when there is no memory. *)
Definition omap__link m id data (pre next : list (Z * V)) : M (bool * omap V) :=
  tmp ← omap__new id data next;
  mret (match tmp with
        | None => (false, m)
        | Some l => (true, Omap (pre ++ l) (u64 (om_n m + 1)))
        end).

Definition omap_add m id data : M (Z * omap V) :=
  let '(pre, next) := omap__seek id (om_next m) in
  let link := '(ok, m) ← omap__link m id data pre next;
              mret (if ok : bool then OMAP_SUCCESS else OMAP_ERR_ALLOC, m) in
  match next with
  | (i, _) :: _ => if i =? id then mret (OMAP_ERR_EXIST, m) else link
  | [] => link
  end.

Definition omap_set m id data : M (option V * omap V) :=
  let '(pre, next) := omap__seek id (om_next m) in
  let link := '(ok, m) ← omap__link m id data pre next;
              mret (if ok : bool then Some data else None, m) in
  match next with
  | (i, prev) :: next' =>
      if i =? id then mret (Some prev, Omap (pre ++ (i, data) :: next') (om_n m)) else link
  | [] => link
  end.

Definition omap_get m id : option V :=
  match snd (omap__seek id (om_next m)) with
  | (i, d) :: _ => if i =? id then Some d else None
  | [] => None
  end.

Definition omap_rm m id : option V * omap V :=
  let '(pre, cur) := omap__seek id (om_next m) in
  match cur with
  | (i, d) :: next => if i =? id then (Some d, Omap (pre ++ next) (u64 (om_n m - 1))) else (None, m)
  | [] => (None, m)
  end.

(** The calls of the callback along the chain; [None] is a NULL callback. *)
Fixpoint omap__each (cb : option (V -> M unit)) l : M unit :=
  match l with
  | [] => mret tt
  | (_, d) :: l => match cb with Some f => f d | None => mret tt end;; omap__each cb l
  end.

Definition omap_destroy (m : option (omap V)) (cb : option (V -> M unit)) : M unit :=
  match m with None => mret tt | Some m => omap__each cb (om_next m) end.

Definition omap_clear m (cb : option (V -> M unit)) : M (omap V) :=
  omap__each cb (om_next m);; mret (Omap [] 0).

(** ** The chain as a finite map *)

Definition ids l : list Z := l.*1.
Definition to_omap m : gmap Z V := list_to_map (om_next m).

Definition om_wf m : Prop :=
  StronglySorted Z.lt (ids (om_next m)) /\ om_n m = len (om_next m).

Lemma seek_app id l : let '(a, b) := omap__seek id l in l = a ++ b.
Proof.
  induction l as [|[i d] l IH]; simpl; [done|]. destruct (i <? id); [|done].
  destruct (omap__seek id l) as [a b]. by rewrite IH.
Qed.

(** Where the walk stops: everything before is smaller, everything from there on
    is not. *)
Lemma seek_spec id l a b :
  StronglySorted Z.lt (ids l) -> omap__seek id l = (a, b) ->
  l = a ++ b /\ Forall (fun x => x.1 < id) a /\ Forall (fun x => id <= x.1) b.
Proof.
  intros Hs. revert a b. induction l as [|[i d] l IH]; intros a b E; simpl in *.
  { injection E as <- <-. auto. }
  apply StronglySorted_inv in Hs as [Hs Hi]. destruct (Z.ltb_spec i id).
  - destruct (omap__seek id l) as [a' b']. injection E as <- <-.
    destruct (IH Hs a' b' eq_refl) as (-> & Ha & Hb). split; [done|]. by split; [constructor|].
  - injection E as <- <-. split; [done|]. split; [done|]. constructor; [done|].
    unfold ids in Hi. rewrite Forall_fmap in Hi. eapply Forall_impl; [done|]. simpl. intros x ?. lia.
Qed.

Lemma sorted_NoDup l : StronglySorted Z.lt (ids l) -> NoDup (ids l).
Proof.
  induction l as [|[i d] l IH]; simpl; intros Hs; [constructor|]. apply StronglySorted_inv in Hs as [Hs Hi].
  constructor; [|by apply IH]. intros Hin. rewrite Forall_forall in Hi. specialize (Hi _ Hin). lia.
Qed.

Lemma to_omap_lookup m id d : om_wf m -> to_omap m !! id = Some d <-> (id, d) ∈ om_next m.
Proof. intros [Hs _]. unfold to_omap. symmetry. apply elem_of_list_to_map. by apply sorted_NoDup. Qed.

Lemma size_to_omap m : om_wf m -> om_n m = Z.of_nat (size (to_omap m)).
Proof.
  intros [Hs ->]. unfold len, to_omap. f_equal. rewrite <- (length_map_to_list (list_to_map _)).
  by rewrite map_to_list_to_map by (by apply sorted_NoDup).
Qed.

(** The seek decides whether the id is there. *)
Lemma seek_lookup m id a b :
  om_wf m -> omap__seek id (om_next m) = (a, b) ->
  to_omap m !! id = match b with (i, d) :: _ => if i =? id then Some d else None | [] => None end.
Proof.
  intros Hm E. pose proof Hm as [Hs _]. destruct (seek_spec _ _ _ _ Hs E) as (El & Ha & Hb).
  apply option_eq. intros d. rewrite to_omap_lookup, El by done. rewrite elem_of_app.
  rewrite Forall_forall in Ha. rewrite Forall_forall in Hb.
  assert ((id, d) ∉ a) as Hna by (intros Hin; specialize (Ha _ Hin); simpl in Ha; lia).
  rewrite El in Hs. unfold ids in Hs. rewrite fmap_app in Hs.
  assert (StronglySorted Z.lt b.*1) as Hsb by (by apply StronglySorted_app in Hs as (_ & _ & ?)).
  destruct b as [|[i e] b]; [set_solver|]. simpl in Hsb. apply StronglySorted_inv in Hsb as [_ Hi].
  rewrite Forall_forall in Hi. rewrite elem_of_cons. destruct (Z.eqb_spec i id) as [->|Hne].
  - split; [intros [?|[[= ->]|Hin]]; [done|done|]|intros [= ->]; auto].
    assert (id ∈ b.*1) as Hin' by (apply list_elem_of_fmap; by exists (id, d)). specialize (Hi _ Hin'). lia.
  - split; [|done]. intros [?|[[= ->]|Hin]]; [done|done|].
    assert (id ∈ b.*1) as Hin' by (apply list_elem_of_fmap; by exists (id, d)). specialize (Hi _ Hin').
    specialize (Hb (i, e) ltac:(left)). simpl in Hb. lia.
Qed.

(** ** The operations *)

(** The chain with a cell for [id] between [a] and [b]. *)
Lemma link_wf m id data a b n :
  om_wf m -> om_next m = a ++ b -> Forall (fun x => x.1 < id) a -> Forall (fun x => id < x.1) b ->
  n = len (om_next m) + 1 ->
  om_wf (Omap (a ++ (id, data) :: b) n) /\ to_omap (Omap (a ++ (id, data) :: b) n) = <[id := data]> (to_omap m).
Proof.
  intros Hm El Ha Hb ->. pose proof Hm as [Hs _]. rewrite El in Hs. unfold ids in Hs. rewrite fmap_app in Hs.
  apply StronglySorted_app in Hs as (Hab & Hsa & Hsb). rewrite Forall_forall in Ha. rewrite Forall_forall in Hb.
  assert (om_wf (Omap (a ++ (id, data) :: b) (len (om_next m) + 1))) as Hw.
  { split; simpl; [|rewrite El; unfold len; rewrite !length_app; simpl; lia]. unfold ids. rewrite fmap_app. simpl.
    apply StronglySorted_app. split; [|split; [done|]].
    - intros x y ([i d] & -> & Hx)%list_elem_of_fmap Hy. apply elem_of_cons in Hy as [->|Hy]; [by apply (Ha _ Hx)|].
      apply Hab; [|done]. apply list_elem_of_fmap. by exists (i, d).
    - apply StronglySorted_cons. split; [|done]. apply Forall_forall. intros y ([i d] & -> & Hy)%list_elem_of_fmap.
      by apply (Hb _ Hy). }
  split; [done|]. apply map_eq. intros i. apply option_eq. intros d. rewrite to_omap_lookup by done. simpl.
  rewrite elem_of_app, elem_of_cons. destruct (decide (i = id)) as [->|Hne].
  - rewrite lookup_insert_eq. split; [|intros [= ->]; auto]. intros [Hin|[[= ->]|Hin]]; [|done|].
    + specialize (Ha _ Hin). simpl in Ha. lia.
    + specialize (Hb _ Hin). simpl in Hb. lia.
  - rewrite lookup_insert_ne, to_omap_lookup, El, elem_of_app by done. split; [|tauto]. intros [?|[[= ]|?]]; by auto.
Qed.

(** Behind a cell with a greater id, or at the end, all ids are greater. *)
Lemma seek_gap m id a b :
  om_wf m -> omap__seek id (om_next m) = (a, b) -> to_omap m !! id = None -> Forall (fun x => id < x.1) b.
Proof.
  intros Hm E Hno. pose proof Hm as [Hs _]. destruct (seek_spec _ _ _ _ Hs E) as (El & _ & Hb).
  rewrite Forall_forall in Hb |- *. intros [i d] Hin. specialize (Hb _ Hin). simpl in *.
  assert (i <> id); [|lia]. intros ->. assert (to_omap m !! id = Some d); [|congruence].
  apply to_omap_lookup; [done|]. rewrite El. set_solver.
Qed.

Lemma link_spec m id data a b s :
  om_wf m -> om_n m < UINT64_MAX -> omap__seek id (om_next m) = (a, b) -> to_omap m !! id = None ->
  match mem s with
  | O => omap__link m id data a b s = Some ((false, m), s)
  | S k => exists m', omap__link m id data a b s = Some ((true, m'), IState k (evs s)) /\
             om_wf m' /\ to_omap m' = <[id := data]> (to_omap m)
  end.
Proof.
  intros Hm Hn E Hno. pose proof Hm as [Hs Hlen]. destruct (seek_spec _ _ _ _ Hs E) as (El & Ha & _).
  pose proof (len_nonneg (om_next m)). unfold omap__link, omap__new, alloc, mbind, IM_bind, mret, IM_ret.
  destruct (mem s) as [|k]; [done|]. eexists. split; [done|].
  apply link_wf; [done|done|done|by eapply seek_gap|]. unfold UINT64_MAX in Hn. rewrite u64_small; lia.
Qed.

Lemma omap_get_spec m id : om_wf m -> omap_get m id = to_omap m !! id.
Proof.
  intros Hm. unfold omap_get. destruct (omap__seek id (om_next m)) as [a b] eqn:E. by rewrite (seek_lookup m id a b).
Qed.

Lemma omap_add_spec m id data s :
  om_wf m -> om_n m < UINT64_MAX ->
  match to_omap m !! id with
  | Some _ => omap_add m id data s = Some ((OMAP_ERR_EXIST, m), s)
  | None =>
      match mem s with
      | O => omap_add m id data s = Some ((OMAP_ERR_ALLOC, m), s)
      | S k => exists m', omap_add m id data s = Some ((OMAP_SUCCESS, m'), IState k (evs s)) /\
                 om_wf m' /\ to_omap m' = <[id := data]> (to_omap m)
      end
  end.
Proof.
  intros Hm Hn. unfold omap_add. destruct (omap__seek id (om_next m)) as [a b] eqn:E.
  pose proof (seek_lookup m id a b Hm E) as Hlk. pose proof (link_spec m id data a b s Hm Hn E) as Hlink.
  rewrite Hlk in *. destruct b as [|[i d] b]; [specialize (Hlink eq_refl)|destruct (i =? id); [done|specialize (Hlink eq_refl)]];
    (destruct (mem s) as [|k]; [by rewrite (IM_bind_Some _ _ _ _ _ Hlink)|]);
    destruct Hlink as (m' & El & Hw & Hmap); rewrite (IM_bind_Some _ _ _ _ _ El); by exists m'.
Qed.

Lemma omap_set_spec m id data s :
  om_wf m -> om_n m < UINT64_MAX ->
  match to_omap m !! id with
  | Some prev => exists m', omap_set m id data s = Some ((Some prev, m'), s) /\
                   om_wf m' /\ to_omap m' = <[id := data]> (to_omap m)
  | None =>
      match mem s with
      | O => omap_set m id data s = Some ((None, m), s)
      | S k => exists m', omap_set m id data s = Some ((Some data, m'), IState k (evs s)) /\
                 om_wf m' /\ to_omap m' = <[id := data]> (to_omap m)
      end
  end.
Proof.
  intros Hm Hn. unfold omap_set. destruct (omap__seek id (om_next m)) as [a b] eqn:E.
  pose proof (seek_lookup m id a b Hm E) as Hlk. pose proof (link_spec m id data a b s Hm Hn E) as Hlink.
  rewrite Hlk in *. destruct b as [|[i d] b]; [specialize (Hlink eq_refl)|destruct (Z.eqb_spec i id) as [->|Hne]; [|specialize (Hlink eq_refl)]].
  1,3: (destruct (mem s) as [|k]; [by rewrite (IM_bind_Some _ _ _ _ _ Hlink)|];
    destruct Hlink as (m' & El & Hw & Hmap); rewrite (IM_bind_Some _ _ _ _ _ El); by exists m').
  eexists. split; [done|]. pose proof Hm as [Hs Hlen]. destruct (seek_spec _ _ _ _ Hs E) as (El & Ha & Hb).
  assert (om_wf (Omap (a ++ (id, data) :: b) (om_n m))) as Hw.
  { split; simpl; [|rewrite Hlen, El; unfold len; by rewrite !length_app].
    rewrite El in Hs. unfold ids in *. rewrite fmap_app in *. done. }
  split; [done|]. apply map_eq. intros i. apply option_eq. intros e. rewrite to_omap_lookup by done. simpl.
  rewrite elem_of_app, elem_of_cons. rewrite Forall_forall in Ha. rewrite El in Hs. unfold ids in Hs.
  rewrite fmap_app in Hs. apply StronglySorted_app in Hs as (_ & _ & [Hi _]%StronglySorted_cons). rewrite Forall_forall in Hi.
  destruct (decide (i = id)) as [->|Hne].
  - rewrite lookup_insert_eq. split; [|intros [= ->]; auto]. intros [Hin|[[= ->]|Hin]]; [|done|].
    + specialize (Ha _ Hin). simpl in Ha. lia.
    + specialize (Hi id ltac:(apply list_elem_of_fmap; by exists (id, e))). simpl in Hi. lia.
  - rewrite lookup_insert_ne, to_omap_lookup, El, elem_of_app, elem_of_cons by done.
    split; (intros [?|[[= ]|?]]; by auto).
Qed.

Lemma omap_rm_spec m id :
  om_wf m -> om_n m <= UINT64_MAX ->
  exists m', omap_rm m id = (to_omap m !! id, m') /\ om_wf m' /\ to_omap m' = delete id (to_omap m).
Proof.
  intros Hm Hn. unfold omap_rm. destruct (omap__seek id (om_next m)) as [a b] eqn:E.
  pose proof (seek_lookup m id a b Hm E) as Hlk. rewrite Hlk.
  assert (to_omap m !! id = None -> exists m', (@None V, m) = (None, m') /\ om_wf m' /\ to_omap m' = delete id (to_omap m)) as Hno.
  { intros H. exists m. by rewrite delete_id. }
  destruct b as [|[i d] b]; [by apply Hno|]. destruct (Z.eqb_spec i id) as [->|Hne]; [|by apply Hno]. clear Hno.
  eexists. split; [done|]. pose proof Hm as [Hs Hlen]. destruct (seek_spec _ _ _ _ Hs E) as (El & Ha & Hb).
  rewrite El in Hs. unfold ids in Hs. rewrite fmap_app in Hs. apply StronglySorted_app in Hs as (Hab & Hsa & [Hi Hsb]%StronglySorted_cons).
  assert (om_wf (Omap (a ++ b) (u64 (om_n m - 1)))) as Hw.
  { split; simpl.
    - unfold ids. rewrite fmap_app. apply StronglySorted_app. split; [|done]. intros x y Hx Hy. apply Hab; [done|]. by right.
    - rewrite El in Hlen. unfold len, UINT64_MAX in *. rewrite length_app in *. cbn [length] in *. rewrite u64_small; lia. }
  split; [done|]. apply map_eq. intros j. apply option_eq. intros e. rewrite to_omap_lookup by done. simpl.
  rewrite elem_of_app. rewrite Forall_forall in Ha. rewrite Forall_forall in Hi. destruct (decide (j = id)) as [->|Hj].
  - rewrite lookup_delete_eq. split; [|done]. intros [Hin|Hin].
    + specialize (Ha _ Hin). simpl in Ha. lia.
    + specialize (Hi id ltac:(apply list_elem_of_fmap; by exists (id, e))). simpl in Hi. lia.
  - rewrite lookup_delete_ne, to_omap_lookup, El, elem_of_app, elem_of_cons by done.
    split; [tauto|]. intros [?|[[= ]|?]]; by auto.
Qed.

Lemma omap_each_spec l s :
  omap__each (Some release) l s = Some (tt, IState (mem s) (rev (Callback <$> l.*2) ++ evs s)).
Proof.
  revert s. induction l as [|[i d] l IH]; intros [k ev]; simpl; [done|].
  unfold mbind, IM_bind, release, emit. simpl. rewrite IH. simpl. by rewrite <- app_assoc.
Qed.

End Operations.
