(* ===== verification/Req.v ===== *)
(** * ti/req: requests to another node and their answers

    [src/src/ti/req.c], [src/src/ti/write.c] and the part of
    [src/src/ti/stream.c] that opens and closes a connection. The state is one
    stream to another node with everything that refers to it: the map of open
    requests ([reqmap], an [omap]), the requests, their timers and the writes
    that libuv has not finished. Addresses are numbers that are never used
    twice, so that a read of a freed request, write or map is undefined.

    The timers and sockets are libuv's: a timer that was started fires at most
    once and not after it was stopped, a write calls back exactly once, and its
    buffer (the package of the request) has to stay allocated until then. A
    close callback of the stream runs after [uv_close].

    The callback of a request belongs to the caller. It ends the request with
    [ti_req_destroy]; [again] are the requests it sends on the same stream,
    each with the first step of [ti_req_create] that fails. *)
From Stdlib Require Import ZArith Lia Sorted.
From stdpp Require Import base list option numbers sets gmap.
From S2P Require Import Prelude Mem Omap.

Definition u16 (x : Z) : Z := x mod 65536.

(** The steps of [ti_req_create] that can fail, and none of them. *)
Inductive fail_at := FReq | FTimer | FMap | FInit | FStart | FWrite | FNone.

Inductive ex_enum := EX_SUCCESS | EX_REQUEST_CANCEL | EX_REQUEST_TIMEOUT | EX_WRITE_UV.

#[export] Instance fail_at_eq_dec : EqDecision fail_at.
Proof. solve_decision. Defined.
#[export] Instance ex_enum_eq_dec : EqDecision ex_enum.
Proof. solve_decision. Defined.

(** [stream->reqmap]: allocated, freed by [omap_destroy], or NULL. *)
Inductive reqmap := RLive (m : omap nat) | RFreed | RNull.

(** The stream: in use, waiting for its close callback, or freed. *)
Inductive life := Open | Closing | Freed.

#[export] Instance life_eq_dec : EqDecision life.
Proof. solve_decision. Defined.

(** [ti_req_t]: the package id, the caller's data and whether [timer] is set. *)
Record ti_req (D : Type) := Req { rq_id : Z; rq_data : D; rq_timer : bool }.
Arguments Req {D}. Arguments rq_id {D}. Arguments rq_data {D}. Arguments rq_timer {D}.

Inductive revent := Created (r : nat) | Done (r : nat) (status : ex_enum).

Record rstate (D : Type) := RState {
  st_ref : Z;                        (* uint32_t ref *)
  st_next_pkg_id : Z;                (* uint16_t next_pkg_id *)
  st_closed : bool;                  (* TI_STREAM_FLAG_CLOSED *)
  st_reqmap : reqmap;
  st_life : life;
  reqs : gmap nat (ti_req D);        (* allocated requests *)
  timers : gset nat;                 (* requests whose timer is started *)
  writes : gmap nat (option nat);    (* unfinished writes, with their request *)
  next_loc : nat;                    (* the next address *)
  rlog : list revent                 (* most recent first *)
}.
Arguments RState {D}. Arguments st_ref {D}. Arguments st_next_pkg_id {D}. Arguments st_closed {D}.
Arguments st_reqmap {D}. Arguments st_life {D}. Arguments reqs {D}. Arguments timers {D}.
Arguments writes {D}. Arguments next_loc {D}. Arguments rlog {D}.

Definition RM (D A : Type) := rstate D -> option (A * rstate D).
#[export] Instance RM_ret D : MRet (RM D) := fun A a s => Some (a, s).
#[export] Instance RM_bind D : MBind (RM D) := fun A B k m s =>
  match m s with Some (a, s') => k a s' | None => None end.

Section Operations.
Context {D : Type}.
Notation M := (RM D).
Notation state := (rstate D).
Implicit Types (s : state) (r w : nat) (id : Z) (d : D).

Definition rundef {A} : M A := fun _ => None.
Definition rget : M state := fun s => Some (s, s).
Definition guard (P : Prop) `{Decision P} : M unit := fun s => if decide P then Some (tt, s) else None.

Definition set_ref (x : Z) : M unit := fun s => Some (tt, RState x (st_next_pkg_id s) (st_closed s) (st_reqmap s) (st_life s) (reqs s) (timers s) (writes s) (next_loc s) (rlog s)).
Definition set_pkg_id (x : Z) : M unit := fun s => Some (tt, RState (st_ref s) x (st_closed s) (st_reqmap s) (st_life s) (reqs s) (timers s) (writes s) (next_loc s) (rlog s)).
Definition set_closed : M unit := fun s => Some (tt, RState (st_ref s) (st_next_pkg_id s) true (st_reqmap s) (st_life s) (reqs s) (timers s) (writes s) (next_loc s) (rlog s)).
Definition set_reqmap (x : reqmap) : M unit := fun s => Some (tt, RState (st_ref s) (st_next_pkg_id s) (st_closed s) x (st_life s) (reqs s) (timers s) (writes s) (next_loc s) (rlog s)).
Definition set_life (x : life) : M unit := fun s => Some (tt, RState (st_ref s) (st_next_pkg_id s) (st_closed s) (st_reqmap s) x (reqs s) (timers s) (writes s) (next_loc s) (rlog s)).
Definition set_reqs (x : gmap nat (ti_req D)) : M unit := fun s => Some (tt, RState (st_ref s) (st_next_pkg_id s) (st_closed s) (st_reqmap s) (st_life s) x (timers s) (writes s) (next_loc s) (rlog s)).
Definition set_timers (x : gset nat) : M unit := fun s => Some (tt, RState (st_ref s) (st_next_pkg_id s) (st_closed s) (st_reqmap s) (st_life s) (reqs s) x (writes s) (next_loc s) (rlog s)).
Definition set_writes (x : gmap nat (option nat)) : M unit := fun s => Some (tt, RState (st_ref s) (st_next_pkg_id s) (st_closed s) (st_reqmap s) (st_life s) (reqs s) (timers s) x (next_loc s) (rlog s)).
Definition fresh : M nat := fun s => Some (next_loc s, RState (st_ref s) (st_next_pkg_id s) (st_closed s) (st_reqmap s) (st_life s) (reqs s) (timers s) (writes s) (S (next_loc s)) (rlog s)).
Definition record (e : revent) : M unit := fun s => Some (tt, RState (st_ref s) (st_next_pkg_id s) (st_closed s) (st_reqmap s) (st_life s) (reqs s) (timers s) (writes s) (next_loc s) (e :: rlog s)).

(** ** The stream *)

(** The fields of the stream are read: it is not freed. *)
Definition touch : M unit := s ← rget; guard (st_life s <> Freed).

Definition ti_incref : M unit := touch;; s ← rget; set_ref (u32 (st_ref s + 1)).

(** The last reference closes the handle; the stream is closed by then. *)
Definition ti_stream_drop : M unit :=
  touch;; s ← rget;
  let ref := u32 (st_ref s - 1) in
  set_ref ref;;
  if ref =? 0 then guard (st_closed s = true);; set_life Closing else mret tt.

(** The calls on [stream->reqmap]. *)
Definition map_live : M (omap nat) :=
  touch;; s ← rget; match st_reqmap s with RLive m => mret m | _ => rundef end.

Definition map_set (ok : bool) id r : M (option nat) :=
  m ← map_live;
  match omap_set m id r (IState (if ok then 1 else 0)%nat []) with
  | Some ((prev, m), _) => set_reqmap (RLive m);; mret prev
  | None => rundef
  end.

Definition map_rm id : M (option nat) :=
  m ← map_live;
  let '(o, m) := omap_rm m id in
  set_reqmap (RLive m);; mret o.

(** ** Requests *)

Definition load_req r : M (ti_req D) :=
  s ← rget; match reqs s !! r with Some q => mret q | None => rundef end.

(** [uv_timer_stop] and [uv_close] of the timer, which frees it, and
    [req->timer = NULL]; a timer that is NULL cannot be stopped. *)
Definition stop_timer r : M unit :=
  q ← load_req r;
  guard (rq_timer q = true);;
  s ← rget;
  set_timers (timers s ∖ {[r]});;
  set_reqs (<[r := Req (rq_id q) (rq_data q) false]> (reqs s)).

(** Whether libuv still uses the package of the request. *)
Definition write_pending s r : Prop := Exists (fun x => x.2 = Some r) (map_to_list (writes s)).
#[export] Instance write_pending_dec s r : Decision (write_pending s r).
Proof. unfold write_pending. apply _. Defined.

(** The package is freed with the request. *)
Definition ti_req_destroy r : M unit :=
  q ← load_req r;
  guard (rq_timer q = false);;
  ti_stream_drop;;
  s ← rget;
  guard (~ write_pending s r);;
  set_reqs (delete r (reqs s)).

(** The labels [fail2] and [fail3] of [ti_req_create], and what it does once the
    request is in the map. *)
Definition req_undo r : M Z :=
  ti_stream_drop;; s ← rget; set_reqs (delete r (reqs s));; mret (-1).

Definition req_unmap id r : M Z := map_rm id;; req_undo r.

Definition req_start id r (fail : fail_at) : M Z :=
  if decide (fail = FInit) then req_unmap id r else
  if decide (fail = FStart) then req_unmap id r else
  s ← rget; set_timers (timers s ∪ {[r]});;
  if decide (fail = FWrite) then s ← rget; set_timers (timers s ∖ {[r]});; req_unmap id r else
  ti_incref;;
  w ← fresh;
  s ← rget; set_writes (<[w := Some r]> (writes s));;
  record (Created r);; mret 0.

Section Callbacks.
(** [req->cb_] *)
Context (cb : nat -> ex_enum -> M unit).

Definition ti_req_cancel r : M unit := stop_timer r;; cb r EX_REQUEST_CANCEL.

Definition ti_req_result r : M unit := stop_timer r;; cb r EX_SUCCESS.

(** The caller keeps the package when the result is -1. *)
Definition ti_req_create (d : D) (fail : fail_at) : M Z :=
  if decide (fail = FReq) then mret (-1) else
  if decide (fail = FTimer) then mret (-1) else
  touch;; s ← rget;
  let id := u16 (st_next_pkg_id s + 1) in
  set_pkg_id id;;
  ti_incref;;
  r ← fresh;
  s ← rget; set_reqs (<[r := Req id d true]> (reqs s));;
  prev ← map_set (bool_decide (fail <> FMap)) id r;
  match prev with
  | None => req_undo r
  | Some p => (if decide (p = r) then mret tt else ti_req_cancel p);; req_start id r fail
  end.

Definition ti__req_timeout r : M unit :=
  q ← load_req r;
  map_rm (rq_id q);;
  stop_timer r;;
  cb r EX_REQUEST_TIMEOUT.

(** A write that libuv has finished, with its error or not. *)
Definition ti__req_write_cb r (error : bool) : M unit :=
  if error then
    q ← load_req r;
    map_rm (rq_id q);;
    stop_timer r;;
    cb r EX_WRITE_UV
  else mret tt.

Definition ti__write_cb w (error : bool) : M unit :=
  s ← rget;
  match writes s !! w with
  | None => rundef
  | Some o =>
      set_writes (delete w (writes s));;
      match o with Some r => ti__req_write_cb r error | None => mret tt end;;
      ti_stream_drop
  end.

Definition ti_stream_write_pkg (ok : bool) : M Z :=
  if negb ok then mret (-1) else
  ti_incref;; w ← fresh; s ← rget; set_writes (<[w := None]> (writes s));; mret 0.

Definition ti_stream_on_response id : M unit :=
  o ← map_rm id;
  match o with Some r => ti_req_result r | None => mret tt end.

Fixpoint cancel_all (l : list (Z * nat)) : M unit :=
  match l with
  | [] => mret tt
  | (_, r) :: l => ti_req_cancel r;; cancel_all l
  end.

(** The cells behind the one with the id [i]. *)
Fixpoint cells_after (i : Z) (l : list (Z * nat)) : list (Z * nat) :=
  match l with
  | [] => []
  | (j, _) :: l => if j =? i then l else cells_after i l
  end.

(** [omap_destroy(stream->reqmap, ti_req_cancel)]: the head of the map is freed
    after the first callback, while [stream->reqmap] still points to it. *)
Definition reqmap_destroy : M unit :=
  s ← rget;
  match st_reqmap s with
  | RNull => mret tt
  | RFreed => rundef
  | RLive m =>
      match om_next m with
      | [] => set_reqmap RFreed
      | (i, r) :: _ =>
          ti_req_cancel r;;
          m ← map_live;
          set_reqmap RFreed;;
          cancel_all (cells_after i (om_next m))
      end
  end.

Definition ti_stream_close : M unit :=
  touch;; s ← rget;
  if st_closed s then mret tt else
  set_closed;;
  reqmap_destroy;;
  set_reqmap RNull;;
  ti_stream_drop.

End Callbacks.

(** [stream__close_cb], after the handle was closed. *)
Definition stream__close_cb : M unit :=
  s ← rget;
  guard (st_life s = Closing);; guard (st_closed s = true);;
  match st_reqmap s with RNull => set_life Freed | _ => rundef end.

(** ** The callers *)

Fixpoint create_all (create : D -> fail_at -> M Z) (l : list (D * fail_at)) : M unit :=
  match l with
  | [] => mret tt
  | (d, fail) :: l => create d fail;; create_all create l
  end.

(** The callback of a request, to a depth of [fuel] callbacks that cancel a
    request in a callback. *)
Fixpoint req_cb (again : D -> ex_enum -> list (D * fail_at)) (fuel : nat) r (status : ex_enum) : M unit :=
  match fuel with
  | O => rundef
  | S fuel =>
      record (Done r status);;
      q ← load_req r;
      ti_req_destroy r;;
      create_all (ti_req_create (req_cb again fuel)) (again (rq_data q) status)
  end.

(** What happens on the stream. *)
Inductive raction :=
  | ACreate (d : D) (fail : fail_at)
  | AWritePkg (ok : bool)
  | AResponse (id : Z)
  | ATimeout (r : nat)
  | AWritten (w : nat) (error : bool)
  | AClose
  | AClosed.

(** A timer fires only when it is started. *)
Definition raction_run (again : D -> ex_enum -> list (D * fail_at)) (fuel : nat) (a : raction) : M unit :=
  let cb := req_cb again fuel in
  match a with
  | ACreate d fail => ti_req_create cb d fail;; mret tt
  | AWritePkg ok => ti_stream_write_pkg ok;; mret tt
  | AResponse id => ti_stream_on_response cb id
  | ATimeout r => s ← rget; if decide (r ∈ timers s) then ti__req_timeout cb r else mret tt
  | AWritten w error => s ← rget; if writes s !! w then ti__write_cb cb w error else mret tt
  | AClose => ti_stream_close cb
  | AClosed => s ← rget; if decide (st_life s = Closing) then stream__close_cb else mret tt
  end.

Fixpoint raction_runs (again : D -> ex_enum -> list (D * fail_at)) (fuel : nat) (l : list raction) : M unit :=
  match l with
  | [] => mret tt
  | a :: l => raction_run again fuel a;; raction_runs again fuel l
  end.

(** A stream to another node as [ti_stream_create] makes it. *)
Definition ti_stream_create : state := RState 1 0 false (RLive (Omap [] 0)) Open ∅ ∅ ∅ 1 [].

End Operations.
