(* ===== verification/ReqProof.v ===== *)
(** * The life of requests

    The invariant of a stream with its open requests ([rinv]), that every
    action keeps it when a request ends only after its package was written, and
    what it says about the callbacks. *)
From Stdlib Require Import ZArith Lia Sorted.
From stdpp Require Import base list option numbers sets gmap.
From S2P Require Import Prelude Mem Omap Req.

(** ** Defined runs *)

Definition rwp {D A} (m : RM D A) (s : rstate D) (Q : A -> rstate D -> Prop) : Prop :=
  exists a s', m s = Some (a, s') /\ Q a s'.

Section Wp.
Context {D : Type}.

Lemma rwp_ret {A} (a : A) (s : rstate D) (Q : A -> rstate D -> Prop) : Q a s -> rwp (mret a) s Q.
Proof. intros HQ. by exists a, s. Qed.

Lemma rwp_bind {A B} (m : RM D A) (k : A -> RM D B) s (Q : B -> rstate D -> Prop) :
  rwp m s (fun a s' => rwp (k a) s' Q) -> rwp (m ≫= k) s Q.
Proof.
  intros (a & s1 & E & b & s2 & E2 & HQ). exists b, s2. unfold mbind, RM_bind. by rewrite E, E2.
Qed.

Lemma rwp_mono {A} (m : RM D A) s (Q Q' : A -> rstate D -> Prop) :
  rwp m s Q -> (forall a s', Q a s' -> Q' a s') -> rwp m s Q'.
Proof. intros (a & s' & E & HQ) H. exists a, s'. auto. Qed.

Lemma rwp_get s (Q : rstate D -> rstate D -> Prop) : Q s s -> rwp rget s Q.
Proof. intros HQ. by exists s, s. Qed.

Lemma rwp_guard (P : Prop) `{Decision P} s (Q : unit -> rstate D -> Prop) : P -> Q tt s -> rwp (guard P) s Q.
Proof. intros HP HQ. exists tt, s. unfold guard. by rewrite decide_True. Qed.

End Wp.

(** The setters and reads run as they are written. *)
Ltac rstep :=
  match goal with
  | |- rwp (mret _) _ _ => apply rwp_ret
  | |- rwp (mbind _ _) _ _ => apply rwp_bind
  | |- rwp rget _ _ => apply rwp_get
  | |- rwp (guard _) _ _ => apply rwp_guard; [try done; try congruence|]
  | |- rwp (set_ref _) _ _ => eexists _, _; split; [reflexivity|]
  | |- rwp (set_pkg_id _) _ _ => eexists _, _; split; [reflexivity|]
  | |- rwp set_closed _ _ => eexists _, _; split; [reflexivity|]
  | |- rwp (set_reqmap _) _ _ => eexists _, _; split; [reflexivity|]
  | |- rwp (set_life _) _ _ => eexists _, _; split; [reflexivity|]
  | |- rwp (set_reqs _) _ _ => eexists _, _; split; [reflexivity|]
  | |- rwp (set_timers _) _ _ => eexists _, _; split; [reflexivity|]
  | |- rwp (set_writes _) _ _ => eexists _, _; split; [reflexivity|]
  | |- rwp fresh _ _ => eexists _, _; split; [reflexivity|]
  | |- rwp (record _) _ _ => eexists _, _; split; [reflexivity|]
  end; cbv beta zeta; cbn [st_ref st_next_pkg_id st_closed st_reqmap st_life reqs timers writes next_loc rlog].

(** ** The invariant *)

Definition none {D} : D -> ex_enum -> list (D * fail_at) := fun _ _ => [].

Fixpoint created (l : list revent) : list nat :=
  match l with [] => [] | Created r :: l => r :: created l | Done _ _ :: l => created l end.
Fixpoint finished (l : list revent) : list nat :=
  match l with [] => [] | Done r _ :: l => r :: finished l | Created _ :: l => finished l end.

Section Invariant.
Context {D : Type}.
Implicit Types (s : rstate D) (r w : nat) (id : Z) (d : D) (G : gmap Z nat).

(** Addresses below this keep the 32-bit reference counter exact. *)
Definition LIMIT : Z := 2147483000.

(** [G] are the requests the map refers to, by their package ids; the running
    code holds [e] references of the stream. *)
Record hinv (e : Z) G s : Prop := {
  h_map id r : G !! id = Some r <-> exists q, reqs s !! r = Some q /\ rq_id q = id;
  h_req r q : reqs s !! r = Some q -> rq_timer q = true /\ 0 <= rq_id q < 65536;
  h_timers : timers s = dom (reqs s);
  h_writes w r : writes s !! w = Some (Some r) -> is_Some (reqs s !! r);
  h_one w w' r : writes s !! w = Some (Some r) -> writes s !! w' = Some (Some r) -> w = w';
  h_ref : st_ref s = 1 + e + Z.of_nat (size (reqs s)) + Z.of_nat (size (writes s));
  h_req_loc r : is_Some (reqs s !! r) -> (r < next_loc s)%nat;
  h_write_loc w : is_Some (writes s !! w) -> (w < next_loc s)%nat;
  h_log_loc r : r ∈ created (rlog s) -> (r < next_loc s)%nat;
  h_life : st_life s = Open;
  h_created r : r ∈ created (rlog s) <-> r ∈ finished (rlog s) \/ is_Some (reqs s !! r);
  h_once r : r ∈ finished (rlog s) -> reqs s !! r = None;
  h_NoDup : NoDup (finished (rlog s))
}.

(** An open stream. *)
Definition rinv s : Prop :=
  st_closed s = false /\ exists m, st_reqmap s = RLive m /\ om_wf m /\ hinv 0 (to_omap m) s.

(** A closed stream: only writes without a request may be left. *)
Record cinv s : Prop := {
  c_closed : st_closed s = true;
  c_map : st_reqmap s = RNull;
  c_reqs : reqs s = ∅;
  c_timers : timers s = ∅;
  c_writes w r : writes s !! w <> Some (Some r);
  c_ref : st_ref s = Z.of_nat (size (writes s));
  c_write_loc w : is_Some (writes s !! w) -> (w < next_loc s)%nat;
  c_life : if decide (writes s = ∅) then st_life s <> Open else st_life s = Open;
  c_created r : r ∈ created (rlog s) <-> r ∈ finished (rlog s);
  c_NoDup : NoDup (finished (rlog s))
}.

(** *** Sizes *)

Lemma size_bound {A} (m : gmap nat A) (n : nat) : (forall k, is_Some (m !! k) -> (k < n)%nat) -> (size m <= n)%nat.
Proof.
  intros H. rewrite <- size_dom. assert (dom m ⊆ (set_seq 0 n : gset nat)) as Hs.
  { intros k Hk%elem_of_dom. apply elem_of_set_seq. specialize (H k Hk). lia. }
  apply subseteq_size in Hs. by rewrite size_set_seq in Hs.
Qed.

Lemma hinv_ref e G s :
  hinv e G s -> 0 <= e <= 2 -> Z.of_nat (next_loc s) <= LIMIT ->
  1 + e <= st_ref s < 4294967290 /\ (forall r, is_Some (reqs s !! r) -> 2 + e <= st_ref s).
Proof.
  intros Hh He Hn. pose proof (h_ref _ _ _ Hh) as Href. pose proof (size_bound _ _ (h_req_loc _ _ _ Hh)).
  pose proof (size_bound _ _ (h_write_loc _ _ _ Hh)). unfold LIMIT in Hn. split; [lia|].
  intros r Hr. pose proof (map_size_ne_0_lookup_2 _ _ Hr). lia.
Qed.

(** Fewer than 2^16 + 1 requests are open: their ids have 16 bits. *)
Lemma sorted_range (l : list Z) a b : StronglySorted Z.lt l -> Forall (fun x => a <= x < b) l -> a <= b -> len l <= b - a.
Proof.
  revert a. induction l as [|x l IH]; intros a Hs Hf Hab; [unfold len; simpl; lia|].
  apply StronglySorted_inv in Hs as [Hs Hx]. apply Forall_cons_1 in Hf as [Hxa Hf].
  assert (len l <= b - (x + 1)).
  { apply IH; [done| |lia]. rewrite Forall_forall in *. intros y Hy. specialize (Hx y Hy). specialize (Hf y Hy). lia. }
  unfold len in *. cbn [length]. lia.
Qed.

Lemma reqmap_range (m : omap nat) :
  om_wf m -> (forall i, i ∈ dom (to_omap m) -> 0 <= i < 65536) -> om_n m <= 65536.
Proof.
  intros Hm Hr. pose proof Hm as [Hs ->].
  replace (len (om_next m)) with (len (ids (om_next m))) by (unfold len, ids; by rewrite length_fmap).
  opose proof (sorted_range (ids (om_next m)) 0 65536 Hs _ _) as Hlen; [|lia|lia].
  apply Forall_forall. intros id ([i r] & -> & Hin)%list_elem_of_fmap. simpl.
  apply (to_omap_lookup m i r Hm) in Hin. apply Hr, elem_of_dom. by eexists.
Qed.

Lemma reqmap_small e s m : om_wf m -> hinv e (to_omap m) s -> om_n m <= 65536.
Proof.
  intros Hm Hh. apply reqmap_range; [done|]. intros i [r (q & Hq & <-)%(h_map _ _ _ Hh)]%elem_of_dom.
  by apply (h_req _ _ _ Hh r).
Qed.

(** *** Ending a request *)

Lemma rwp_drop s (Q : unit -> rstate D -> Prop) :
  st_life s <> Freed -> 2 <= st_ref s < 4294967296 ->
  Q tt (RState (st_ref s - 1) (st_next_pkg_id s) (st_closed s) (st_reqmap s) (st_life s) (reqs s) (timers s) (writes s) (next_loc s) (rlog s)) ->
  rwp ti_stream_drop s Q.
Proof.
  intros Hl Hr HQ. unfold ti_stream_drop, touch. repeat rstep. rewrite u32_small by lia.
  rewrite (proj2 (Z.eqb_neq _ _)) by lia. by rstep.
Qed.

Lemma hinv_done e G s r q st :
  hinv e G s -> reqs s !! r = Some q -> ~ write_pending s r -> forall x,
  hinv e (delete (rq_id q) G)
    (RState (st_ref s - 1) (st_next_pkg_id s) (st_closed s) x Open (delete r (reqs s)) (timers s ∖ {[r]})
       (writes s) (next_loc s) (Done r st :: rlog s)).
Proof.
  intros Hh Hq Hw x. split; cbn [st_ref st_next_pkg_id st_closed st_reqmap st_life reqs timers writes next_loc rlog created finished].
  - intros id r'. rewrite lookup_delete_Some, (h_map _ _ _ Hh). split.
    + intros (Hne & q' & Hq' & <-). exists q'. split; [|done]. rewrite lookup_delete_ne; [done|]. intros <-. congruence.
    + intros (q' & Hq' & <-). rewrite lookup_delete_Some in Hq'. destruct Hq' as [Hr' Hq']. split; [|by exists q'].
      intros E. assert (G !! rq_id q = Some r) as H1 by (apply (h_map _ _ _ Hh); by exists q).
      assert (G !! rq_id q = Some r') as H2 by (apply (h_map _ _ _ Hh); exists q'; by split). congruence.
  - intros r' q' [_ Hq']%lookup_delete_Some. by apply (h_req _ _ _ Hh r').
  - rewrite (h_timers _ _ _ Hh). by rewrite dom_delete_L.
  - intros w r' Hw'. pose proof (h_writes _ _ _ Hh _ _ Hw') as Hr'. rewrite lookup_delete_ne; [done|]. intros <-. apply Hw.
    apply Exists_exists. exists (w, Some r). split; [by apply elem_of_map_to_list|done].
  - apply (h_one _ _ _ Hh).
  - rewrite (h_ref _ _ _ Hh). rewrite map_size_delete_Some by (by eexists).
    pose proof (map_size_ne_0_lookup_2 (reqs s) r (mk_is_Some _ _ Hq)). lia.
  - intros r' [q' [_ Hq']%lookup_delete_Some]. apply (h_req_loc _ _ _ Hh). by eexists.
  - apply (h_write_loc _ _ _ Hh).
  - apply (h_log_loc _ _ _ Hh).
  - done.
  - intros r'. rewrite (h_created _ _ _ Hh), elem_of_cons. destruct (decide (r' = r)) as [->|Hne].
    + split; [tauto|]. intros _. right. by eexists.
    + rewrite lookup_delete_ne by done. tauto.
  - intros r' [->|Hr']%elem_of_cons; [apply lookup_delete_eq|]. apply lookup_delete_None. right. by apply (h_once _ _ _ Hh).
  - constructor; [|apply (h_NoDup _ _ _ Hh)]. intros Hin. apply (h_once _ _ _ Hh) in Hin. congruence.
Qed.

(** [stop_timer] and the callback, whatever the map is by then. *)
Lemma rwp_finish_raw s r q st (Q : unit -> rstate D -> Prop) :
  reqs s !! r = Some q -> rq_timer q = true -> ~ write_pending s r -> st_life s <> Freed -> 2 <= st_ref s < 4294967296 ->
  Q tt (RState (st_ref s - 1) (st_next_pkg_id s) (st_closed s) (st_reqmap s) (st_life s) (delete r (reqs s))
          (timers s ∖ {[r]}) (writes s) (next_loc s) (Done r st :: rlog s)) ->
  rwp (stop_timer r;; req_cb none 1 r st) s Q.
Proof.
  intros Hq Ht Hw Hlife Href HQ. unfold stop_timer, load_req. repeat rstep. rewrite Hq. repeat rstep.
  cbn [req_cb]. unfold load_req. repeat rstep. rewrite lookup_insert_eq. rstep.
  unfold ti_req_destroy, load_req. repeat rstep. rewrite lookup_insert_eq. repeat rstep.
  apply rwp_drop; [done|done|]. cbn [st_ref st_next_pkg_id st_closed st_reqmap st_life reqs timers writes next_loc rlog].
  repeat rstep. change (none _ _) with (@nil (D * fail_at)). cbn [create_all]. rstep. by rewrite delete_insert_eq.
Qed.

Lemma rwp_finish e G s r q st (Q : unit -> rstate D -> Prop) :
  hinv e G s -> 0 <= e <= 2 -> Z.of_nat (next_loc s) <= LIMIT -> reqs s !! r = Some q -> ~ write_pending s r ->
  (forall s', hinv e (delete (rq_id q) G) s' -> st_closed s' = st_closed s -> st_reqmap s' = st_reqmap s ->
    reqs s' = delete r (reqs s) -> writes s' = writes s -> next_loc s' = next_loc s -> Q tt s') ->
  rwp (stop_timer r;; req_cb none 1 r st) s Q.
Proof.
  intros Hh He Hn Hq Hw HQ. destruct (h_req _ _ _ Hh r q Hq) as [Ht _]. pose proof (h_life _ _ _ Hh) as Hlife.
  destruct (hinv_ref e G s Hh He Hn) as [Hr1 Hr2]. specialize (Hr2 r ltac:(by eexists)).
  apply (rwp_finish_raw s r q); [done|done|done|congruence|lia|]. apply HQ; try done.
  rewrite Hlife. by apply hinv_done.
Qed.

(** *** The map *)

Definition with_map s x : rstate D :=
  RState (st_ref s) (st_next_pkg_id s) (st_closed s) x (st_life s) (reqs s) (timers s) (writes s) (next_loc s) (rlog s).

Lemma hinv_map e G s x : hinv e G s -> hinv e G (with_map s x).
Proof. intros []. by constructor. Qed.

Lemma rwp_map_rm s m id (Q : option nat -> rstate D -> Prop) :
  st_life s <> Freed -> st_reqmap s = RLive m -> om_wf m -> om_n m <= 65536 ->
  (forall m', om_wf m' -> to_omap m' = delete id (to_omap m) -> Q (to_omap m !! id) (with_map s (RLive m'))) ->
  rwp (map_rm id) s Q.
Proof.
  intros Hl Hmap Hm Hn HQ. unfold map_rm, map_live, touch. repeat rstep. rewrite Hmap. rstep.
  destruct (omap_rm_spec m id Hm) as (m' & -> & Hm' & Ed); [unfold UINT64_MAX; lia|]. repeat rstep. by apply HQ.
Qed.

(** A request leaves the map and is finished. *)
Lemma rwp_end e s m r q st (Q : unit -> rstate D -> Prop) :
  st_closed s = false -> st_reqmap s = RLive m -> om_wf m -> hinv e (to_omap m) s -> 0 <= e <= 2 ->
  Z.of_nat (next_loc s) <= LIMIT -> reqs s !! r = Some q -> ~ write_pending s r ->
  (forall s' m', st_closed s' = false -> st_reqmap s' = RLive m' -> om_wf m' -> hinv e (to_omap m') s' ->
     next_loc s' = next_loc s -> Q tt s') ->
  rwp (map_rm (rq_id q);; stop_timer r;; req_cb none 1 r st) s Q.
Proof.
  intros Hc Hmap Hm Hh He Hn Hq Hw HQ. rstep. pose proof (h_life _ _ _ Hh) as Hlife.
  apply (rwp_map_rm s m); [congruence|done|done|by eapply reqmap_small|]. intros m' Hm' Ed.
  apply (rwp_finish e (to_omap m) (with_map s (RLive m')) r q st); [by apply hinv_map|done|done|done|done|].
  intros s' Hh' Hc' Hmap' _ _ Hn'. rewrite <- Ed in Hh'. by apply (HQ s' m'); [rewrite Hc'|rewrite Hmap'| | |].
Qed.

(** *** Writes *)

Lemma write_pending_iff s r : write_pending s r <-> exists w, writes s !! w = Some (Some r).
Proof.
  unfold write_pending. rewrite Exists_exists. split.
  - intros ([w o] & Hin%elem_of_map_to_list & Ho). simpl in Ho. subst o. eauto.
  - intros (w & Hw). exists (w, Some r). split; [by apply elem_of_map_to_list|done].
Qed.

Definition with_writes s x : rstate D :=
  RState (st_ref s) (st_next_pkg_id s) (st_closed s) (st_reqmap s) (st_life s) (reqs s) (timers s) x (next_loc s) (rlog s).

(** A finished write; its reference of the stream is still held. *)
Lemma hinv_written G s w o :
  hinv 0 G s -> writes s !! w = Some o -> hinv 1 G (with_writes s (delete w (writes s))).
Proof.
  intros Hh Hw. split; cbn [with_writes st_ref st_next_pkg_id st_closed st_reqmap st_life reqs timers writes next_loc rlog].
  - apply (h_map _ _ _ Hh).
  - apply (h_req _ _ _ Hh).
  - apply (h_timers _ _ _ Hh).
  - intros w' r [_ Hw']%lookup_delete_Some. by eapply (h_writes _ _ _ Hh).
  - intros w1 w2 r [_ H1]%lookup_delete_Some [_ H2]%lookup_delete_Some. by eapply (h_one _ _ _ Hh).
  - rewrite (h_ref _ _ _ Hh), map_size_delete_Some by (by eexists).
    pose proof (map_size_ne_0_lookup_2 (writes s) w (mk_is_Some _ _ Hw)). lia.
  - apply (h_req_loc _ _ _ Hh).
  - intros w' [o' [_ Hw']%lookup_delete_Some]. apply (h_write_loc _ _ _ Hh). by eexists.
  - apply (h_log_loc _ _ _ Hh).
  - apply (h_life _ _ _ Hh).
  - apply (h_created _ _ _ Hh).
  - apply (h_once _ _ _ Hh).
  - apply (h_NoDup _ _ _ Hh).
Qed.

Definition with_ref s x : rstate D :=
  RState x (st_next_pkg_id s) (st_closed s) (st_reqmap s) (st_life s) (reqs s) (timers s) (writes s) (next_loc s) (rlog s).

Lemma hinv_drop e G s : hinv (e + 1) G s -> hinv e G (with_ref s (st_ref s - 1)).
Proof. intros Hh. pose proof (h_ref _ _ _ Hh). destruct Hh. constructor; try done. cbn [with_ref st_ref reqs writes]. lia. Qed.

(** The invariant of a stream, and that an action keeps it. *)
Definition ainv s : Prop := rinv s \/ cinv s.
Definition apost s : unit -> rstate D -> Prop := fun _ s' => ainv s' /\ (next_loc s' <= next_loc s + 2)%nat.

Lemma rwp_drop_open s0 s m :
  st_closed s = false -> st_reqmap s = RLive m -> om_wf m -> hinv 1 (to_omap m) s ->
  Z.of_nat (next_loc s) <= LIMIT -> (next_loc s <= next_loc s0 + 2)%nat -> rwp ti_stream_drop s (apost s0).
Proof.
  intros Hc Hmap Hm Hh Hn Hle. destruct (hinv_ref 1 _ s Hh ltac:(lia) Hn) as [Hr _].
  apply rwp_drop; [rewrite (h_life _ _ _ Hh); done|lia|]. split; [|done]. left. split; [done|]. exists m.
  split; [done|]. split; [done|]. by apply (hinv_drop 0).
Qed.

Lemma act_written s w error :
  ainv s -> Z.of_nat (next_loc s) <= LIMIT ->
  rwp (raction_run none 1 (AWritten w error)) s (apost s).
Proof.
  intros Hi Hn. cbn [raction_run]. rstep. rstep. destruct (writes s !! w) as [o|] eqn:Hw.
  2: { rstep. split; [done|lia]. }
  unfold ti__write_cb. rstep. rstep. rewrite Hw. rstep. rstep. destruct Hi as [(Hc & m & Hmap & Hm & Hh)|Hi].
  - pose proof (hinv_written _ _ _ _ Hh Hw) as Hh1. rstep.
    assert (rwp ti_stream_drop (with_writes s (delete w (writes s))) (apost s)) as Hdrop.
    { apply (rwp_drop_open s (with_writes s (delete w (writes s))) m); try done. cbn. lia. }
    destruct o as [r|]; [|by rstep]. unfold ti__req_write_cb. destruct error; [|by rstep].
    destruct (h_writes _ _ _ Hh _ _ Hw) as [q Hq]. unfold load_req. repeat rstep.
    change (reqs _ !! r) with (reqs s !! r). rewrite Hq. rstep.
    apply (rwp_end 1 (with_writes s (delete w (writes s))) m r q EX_WRITE_UV); try done.
    + rewrite write_pending_iff. intros (w' & Hw'). cbn [with_writes writes] in Hw'.
      apply lookup_delete_Some in Hw' as [Hne Hw']. apply Hne.
      by apply (h_one _ _ _ Hh w w' r).
    + intros s' m' Hc' Hmap' Hm' Hh' Hn'. eapply rwp_drop_open; try done; rewrite Hn'; [done|cbn; lia].
  - destruct o as [r|]; [by destruct (c_writes _ Hi w r)|]. repeat rstep.
    pose proof (c_ref _ Hi) as Href. pose proof (c_life _ Hi) as Hl.
    pose proof (map_size_ne_0_lookup_2 (writes s) w (mk_is_Some _ _ Hw)) as Hsz.
    pose proof (map_size_delete_Some w (writes s) (mk_is_Some _ _ Hw)) as Hdel.
    pose proof (size_bound _ _ (c_write_loc _ Hi)). unfold LIMIT in Hn.
    rewrite decide_False in Hl by (intros E; rewrite E, map_size_empty in Hsz; done).
    unfold ti_stream_drop, touch. repeat rstep. rewrite u32_small by lia.
    assert (forall w' r, delete w (writes s) !! w' <> Some (Some r)) as Hw'.
    { intros w' r [_ Hx]%lookup_delete_Some. by apply (c_writes _ Hi w' r). }
    assert (forall w', is_Some (delete w (writes s) !! w') -> (w' < next_loc s)%nat) as Hloc.
    { intros w' [o [_ Hx]%lookup_delete_Some]. apply (c_write_loc _ Hi). by eexists. }
    destruct (Z.eqb_spec (st_ref s - 1) 0) as [E|E].
    + repeat rstep; [apply (c_closed _ Hi)|]. split; [|cbn; lia]. right.
      assert (delete w (writes s) = ∅) as Ee by (apply map_size_empty_inv; lia).
      destruct Hi. constructor; cbn; try done; [lia|]. by rewrite decide_True.
    + rstep. split; [|cbn; lia]. right. destruct Hi. constructor; cbn; try done; [lia|].
      rewrite decide_False; [done|]. intros Ee. rewrite Ee, map_size_empty in Hdel. lia.
Qed.

Lemma act_timeout s r :
  ainv s -> Z.of_nat (next_loc s) <= LIMIT -> ~ write_pending s r -> rwp (raction_run none 1 (ATimeout r)) s (apost s).
Proof.
  intros Hi Hn Hw. cbn [raction_run]. rstep. rstep. destruct (decide (r ∈ timers s)) as [Hr|Hr].
  2: { rstep. split; [done|lia]. }
  destruct Hi as [(Hc & m & Hmap & Hm & Hh)|Hi]; [|rewrite (c_timers _ Hi) in Hr; set_solver].
  rewrite (h_timers _ _ _ Hh) in Hr. apply elem_of_dom in Hr as [q Hq]. unfold ti__req_timeout, load_req.
  repeat rstep. rewrite Hq. rstep. apply (rwp_end 0 s m r q EX_REQUEST_TIMEOUT); try done.
  intros s' m' Hc' Hmap' Hm' Hh' Hn'. split; [|lia]. left. split; [done|]. by exists m'.
Qed.

Lemma act_response s m id :
  rinv s -> st_reqmap s = RLive m -> Z.of_nat (next_loc s) <= LIMIT ->
  (forall r, omap_get m id = Some r -> ~ write_pending s r) -> rwp (raction_run none 1 (AResponse id)) s (apost s).
Proof.
  intros (Hc & m0 & Hmap & Hm & Hh) Hmap0 Hn Hw. assert (m0 = m) as -> by congruence.
  rewrite omap_get_spec in Hw by done. cbn [raction_run]. unfold ti_stream_on_response.
  pose proof (h_life _ _ _ Hh) as Hlife. pose proof (reqmap_small _ _ _ Hm Hh) as Hsm.
  destruct (to_omap m !! id) as [r|] eqn:E.
  - pose proof E as (q & Hq & Eid)%(h_map _ _ _ Hh).
    destruct (rwp_end 0 s m r q EX_SUCCESS (apost s) Hc Hmap Hm Hh ltac:(lia) Hn Hq (Hw r eq_refl))
      as (a & s' & Erun & Hpost).
    { intros s' m' Hc' Hmap' Hm' Hh' Hn'. split; [|lia]. left. split; [done|]. by exists m'. }
    exists a, s'. split; [|done]. rewrite Eid in Erun. unfold ti_req_result. unfold mbind, RM_bind in *.
    destruct (map_rm id s) as [[o s1]|] eqn:Erm; [|done].
    assert (o = Some r) as ->; [|done].
    opose proof (rwp_map_rm s m id (fun o' _ => o' = Some r) _ Hmap Hm Hsm _) as (o' & s2 & E2 & Ho');
      [congruence|by intros|]. congruence.
  - rstep. apply (rwp_map_rm s m); [congruence|done|done|done|]. intros m' Hm' Ed. rewrite E. rstep.
    split; [|cbn; lia]. left. split; [done|]. exists m'. split; [done|]. split; [done|].
    rewrite Ed, delete_id by done. by apply hinv_map.
Qed.

(** *** Closing *)

Lemma hinv_empty e G s : hinv e G s -> (forall id, G !! id = None) -> reqs s = ∅.
Proof.
  intros Hh HG. apply map_eq. intros r. rewrite lookup_empty. destruct (reqs s !! r) as [q|] eqn:Hq; [|done].
  assert (G !! rq_id q = Some r) as H by (apply (h_map _ _ _ Hh); by exists q). by rewrite HG in H.
Qed.

Lemma foldr_delete_comm G i (ks : list Z) : foldr delete (delete i G) ks = delete i (foldr delete G ks).
Proof. induction ks as [|k ks IH]; simpl; [done|]. by rewrite IH, delete_delete. Qed.

Lemma rwp_cancel_all (l : list (Z * nat)) G s (Q : unit -> rstate D -> Prop) :
  hinv 0 G s -> Z.of_nat (next_loc s) <= LIMIT -> (forall r, ~ write_pending s r) ->
  NoDup l.*1 -> Forall (fun x => G !! x.1 = Some x.2) l ->
  (forall s', hinv 0 (foldr delete G l.*1) s' -> st_closed s' = st_closed s -> st_reqmap s' = st_reqmap s ->
     writes s' = writes s -> next_loc s' = next_loc s -> Q tt s') ->
  rwp (cancel_all (req_cb none 1) l) s Q.
Proof.
  revert G s. induction l as [|[i r] l IH]; intros G s Hh Hn Hw Hnd Hl HQ; cbn [cancel_all].
  { rstep. by apply HQ. }
  apply NoDup_cons in Hnd as [Hi Hnd]. apply Forall_cons_1 in Hl as [Hr Hl]. simpl in Hr.
  pose proof Hr as (q & Hq & Eid)%(h_map _ _ _ Hh). rstep. unfold ti_req_cancel.
  apply (rwp_finish 0 G s r q); [done|lia|done|done|apply Hw|]. intros s' Hh' Hc' Hmap' _ Hw' Hn'.
  apply (IH (delete (rq_id q) G)); [done|by rewrite Hn'| |done| |].
  - intros r'. rewrite write_pending_iff, Hw', <- write_pending_iff. apply Hw.
  - rewrite Forall_forall in Hl |- *. intros [j r'] Hin. simpl. rewrite lookup_delete_ne; [by apply (Hl _ Hin)|].
    intros E. apply Hi. apply list_elem_of_fmap. exists (j, r'). split; [simpl; congruence|done].
  - intros s2 Hh2 Hc2 Hmap2 Hw2 Hn2. apply HQ; [|congruence..]. simpl. rewrite <- foldr_delete_comm, <- Eid. exact Hh2.
Qed.

Lemma foldr_delete_all G (l : list (Z * nat)) :
  (forall id r, G !! id = Some r -> (id, r) ∈ l) -> forall id, foldr delete G l.*1 !! id = None.
Proof.
  intros HG id. destruct (decide (id ∈ l.*1)) as [Hin|Hin]; [by apply lookup_foldr_delete|].
  rewrite lookup_foldr_delete_not_elem_of by done. destruct (G !! id) as [r|] eqn:E; [|done].
  destruct Hin. apply list_elem_of_fmap. exists (id, r). split; [done|]. by apply HG.
Qed.

Lemma rwp_reqmap_destroy s m (Q : unit -> rstate D -> Prop) :
  st_reqmap s = RLive m -> om_wf m -> hinv 0 (to_omap m) s -> Z.of_nat (next_loc s) <= LIMIT ->
  (forall r, ~ write_pending s r) ->
  (forall s' G, hinv 0 G s' -> reqs s' = ∅ -> st_closed s' = st_closed s -> writes s' = writes s -> next_loc s' = next_loc s -> Q tt s') ->
  rwp (reqmap_destroy (req_cb none 1)) s Q.
Proof.
  intros Hmap Hm Hh Hn Hw HQ. unfold reqmap_destroy. rstep. rstep. rewrite Hmap.
  assert (forall id r, to_omap m !! id = Some r -> (id, r) ∈ om_next m) as Hin by (intros; by apply to_omap_lookup).
  destruct (om_next m) as [|[i r] l] eqn:El.
  { rstep. apply (HQ _ (to_omap m)); try done; [by apply hinv_map|]. apply (hinv_empty _ _ _ Hh). intros id.
    destruct (to_omap m !! id) as [r|] eqn:E; [|done]. by apply Hin, elem_of_nil in E. }
  pose proof Hm as [Hsort _]. rewrite El in Hsort. pose proof (sorted_NoDup _ Hsort) as Hnd.
  assert (Forall (fun x => to_omap m !! x.1 = Some x.2) ((i, r) :: l)) as Hall.
  { apply Forall_forall. intros [j r'] Hj. apply to_omap_lookup; [done|]. by rewrite El. }
  apply NoDup_cons in Hnd as [Hi Hnd]. apply Forall_cons_1 in Hall as [Hr Hall]. simpl in Hr.
  pose proof Hr as (q & Hq & Eid)%(h_map _ _ _ Hh). rstep. unfold ti_req_cancel.
  apply (rwp_finish 0 (to_omap m) s r q); [done|lia|done|done|apply Hw|]. intros s1 Hh1 Hc1 Hmap1 _ Hw1 Hn1.
  unfold map_live, touch. repeat rstep; [rewrite (h_life _ _ _ Hh1); done|]. rewrite Hmap1, Hmap. repeat rstep.
  rewrite El. cbn [cells_after]. rewrite Z.eqb_refl.
  apply (rwp_cancel_all l (delete (rq_id q) (to_omap m)) (with_map s1 RFreed)); [by apply hinv_map|by rewrite <- Hn1 in Hn| |done| |].
  - intros r'. rewrite write_pending_iff. cbn [with_map writes]. rewrite Hw1, <- write_pending_iff. apply Hw.
  - rewrite Forall_forall in Hall |- *. intros [j r'] Hj. simpl. rewrite lookup_delete_ne; [by apply (Hall _ Hj)|].
    intros E. apply Hi. apply list_elem_of_fmap. exists (j, r'). split; [simpl; congruence|done].
  - intros s2 Hh2 Hc2 _ Hw2 Hn2. eapply HQ; [exact Hh2| |by rewrite Hc2|by rewrite Hw2|by rewrite Hn2].
    apply (hinv_empty _ _ _ Hh2). rewrite foldr_delete_comm.
    intros id. destruct (decide (id = rq_id q)) as [->|Hne]; [apply lookup_delete_eq|]. rewrite lookup_delete_ne by done.
    pose proof (foldr_delete_all (to_omap m) ((i, r) :: l) Hin id) as Hall'. simpl in Hall'.
    rewrite lookup_delete_ne in Hall' by congruence. done.
Qed.

Lemma act_close s :
  ainv s -> Z.of_nat (next_loc s) <= LIMIT -> st_life s <> Freed -> (forall r, ~ write_pending s r) ->
  rwp (raction_run none 1 AClose) s (fun u s' => apost s u s' /\ cinv s').
Proof.
  intros Hi Hn Hl Hw. cbn [raction_run]. unfold ti_stream_close, touch. repeat rstep.
  destruct Hi as [(Hc & m & Hmap & Hm & Hh)|Hi]; [|rewrite (c_closed _ Hi); rstep; split; [split; [by right|lia]|done]].
  rewrite Hc. repeat rstep. set (s1 := RState _ _ true _ _ _ _ _ _ _).
  assert (hinv 0 (to_omap m) s1) as Hh1 by (by destruct Hh; constructor).
  apply (rwp_reqmap_destroy s1 m); try done. intros s2 G Hh2 Hr2 Hc2 Hw2 Hn2. repeat rstep.
  pose proof (h_ref _ _ _ Hh2) as Href. rewrite Hr2, map_size_empty in Href. pose proof (h_life _ _ _ Hh2) as Hlife.
  destruct (hinv_ref 0 _ s2 Hh2 ltac:(lia)) as [Hr _]; [by rewrite Hn2|].
  assert (forall w r, writes s2 !! w <> Some (Some r)) as Hnw.
  { intros w r Hx. apply (Hw r). apply write_pending_iff. exists w. by rewrite Hw2 in Hx. }
  assert (timers s2 = ∅) as Ht by (rewrite (h_timers _ _ _ Hh2), Hr2; apply dom_empty_L).
  assert (forall r, r ∈ created (rlog s2) <-> r ∈ finished (rlog s2)) as Hcr.
  { intros r. rewrite (h_created _ _ _ Hh2), Hr2, lookup_empty. split; [intros [?|[? ?]]; done|tauto]. }
  pose proof (h_NoDup _ _ _ Hh2) as Hnd. pose proof (h_write_loc _ _ _ Hh2) as Hloc.
  unfold ti_stream_drop, touch. repeat rstep. rewrite u32_small by lia.
  destruct (Z.eqb_spec (st_ref s2 - 1) 0) as [E|E].
  - assert (writes s2 = ∅) as Ee by (apply map_size_empty_inv; lia).
    repeat rstep. assert (cinv (RState (st_ref s2 - 1) (st_next_pkg_id s2) (st_closed s2) RNull Closing
      (reqs s2) (timers s2) (writes s2) (next_loc s2) (rlog s2))); [|split; [split; [by right|rewrite Hn2; cbn; lia]|done]].
    constructor; cbn; try done; [lia|]. by rewrite decide_True.
  - rstep. assert (cinv (RState (st_ref s2 - 1) (st_next_pkg_id s2) (st_closed s2) RNull (st_life s2)
      (reqs s2) (timers s2) (writes s2) (next_loc s2) (rlog s2))); [|split; [split; [by right|rewrite Hn2; cbn; lia]|done]].
    constructor; cbn; try done; [lia|]. rewrite decide_False; [done|].
    intros Ee. rewrite Ee, map_size_empty in Href. lia.
Qed.

Lemma act_closed s : ainv s -> rwp (raction_run none 1 AClosed) s (apost s).
Proof.
  intros Hi. cbn [raction_run]. rstep. rstep. destruct (decide (st_life s = Closing)) as [Hl|Hl]; [|rstep; by split; [|lia]].
  destruct Hi as [(Hc & m & Hmap & Hm & Hh)|Hi]; [pose proof (h_life _ _ _ Hh); congruence|].
  unfold stream__close_cb. repeat rstep; [apply (c_closed _ Hi)|]. rewrite (c_map _ Hi). rstep. split; [|cbn; lia]. right.
  destruct Hi. constructor; cbn; try done. rewrite decide_True; [done|]. destruct (decide (writes s = ∅)); [done|congruence].
Qed.

(** *** Creating *)

Lemma hinv_skip e G s i x n :
  hinv e G s -> (next_loc s <= n)%nat ->
  hinv e G (RState (st_ref s) i (st_closed s) x (st_life s) (reqs s) (timers s) (writes s) n (rlog s)).
Proof.
  intros Hh Hn. pose proof (h_req_loc _ _ _ Hh). pose proof (h_write_loc _ _ _ Hh). pose proof (h_log_loc _ _ _ Hh).
  destruct Hh. constructor; cbn; try done; intros k Hk; (eapply Nat.lt_le_trans; [eauto|done]).
Qed.

Lemma hinv_create G s id d x :
  hinv 0 G s -> G !! id = None -> 0 <= id < 65536 ->
  let r := next_loc s in
  hinv 0 (<[id := r]> G)
    (RState (st_ref s + 2) id (st_closed s) x (st_life s) (<[r := Req id d true]> (reqs s)) (timers s ∪ {[r]})
       (<[S r := Some r]> (writes s)) (S (S r)) (Created r :: rlog s)).
Proof.
  intros Hh Hno Hid r.
  assert (reqs s !! r = None) as Hr by (apply eq_None_not_Some; intros H%(h_req_loc _ _ _ Hh); subst r; lia).
  assert (writes s !! S r = None) as Hw by (apply eq_None_not_Some; intros H%(h_write_loc _ _ _ Hh); subst r; lia).
  assert (r ∉ created (rlog s)) as Hnc by (intros H%(h_log_loc _ _ _ Hh); subst r; lia).
  assert (r ∉ finished (rlog s)) as Hnf by (intros H; apply Hnc, (h_created _ _ _ Hh); by left).
  assert (forall w r', writes s !! w = Some (Some r') -> r' <> r) as Hwr.
  { intros w r' [q Hq]%(h_writes _ _ _ Hh) ->. congruence. }
  split; cbn [st_ref st_next_pkg_id st_closed st_reqmap st_life reqs timers writes next_loc rlog created finished].
  - intros i r'. rewrite lookup_insert_Some, (h_map _ _ _ Hh). split.
    + intros [[<- <-]|(Hne & q & Hq & Hi)]; [exists (Req id d true); by rewrite lookup_insert_eq|].
      exists q. rewrite lookup_insert_ne; [done|]. intros <-. congruence.
    + intros (q & [[<- <-]|[Hne Hq]]%lookup_insert_Some & Hi); [by left|]. right. split; [|by exists q].
      intros <-. assert (G !! id = Some r') as H by (apply (h_map _ _ _ Hh); by exists q). congruence.
  - intros r' q [[<- <-]|[Hne Hq]]%lookup_insert_Some; [done|]. by apply (h_req _ _ _ Hh r').
  - rewrite (h_timers _ _ _ Hh), dom_insert_L. set_solver.
  - intros w r' [[<- [= <-]]|[Hne Hx]]%lookup_insert_Some; [rewrite lookup_insert_eq; by eexists|].
    rewrite lookup_insert_ne; [by eapply (h_writes _ _ _ Hh)|]. intros E. by apply (Hwr _ _ Hx).
  - intros w1 w2 r' [[<- [= <-]]|[? H1]]%lookup_insert_Some [[<- E]|[? H2]]%lookup_insert_Some; [done|..].
    + by destruct (Hwr _ _ H2).
    + injection E as <-. by destruct (Hwr _ _ H1).
    + by eapply (h_one _ _ _ Hh).
  - rewrite (h_ref _ _ _ Hh), !map_size_insert_None by done. lia.
  - intros r' [q [[<- _]|[_ Hq]]%lookup_insert_Some]; [lia|]. pose proof (h_req_loc _ _ _ Hh r' ltac:(by eexists)). subst r. lia.
  - intros w [o [[<- _]|[_ Hx]]%lookup_insert_Some]; [lia|]. pose proof (h_write_loc _ _ _ Hh w ltac:(by eexists)). subst r. lia.
  - intros r' [->|Hin]%elem_of_cons; [lia|]. pose proof (h_log_loc _ _ _ Hh r' Hin). subst r. lia.
  - apply (h_life _ _ _ Hh).
  - intros r'. rewrite elem_of_cons, (h_created _ _ _ Hh). destruct (decide (r' = r)) as [->|Hne].
    + rewrite lookup_insert_eq. split; [intros _; right; by eexists|by left].
    + rewrite lookup_insert_ne by done. tauto.
  - intros r' Hin. rewrite lookup_insert_ne; [by apply (h_once _ _ _ Hh)|]. by intros <-.
  - apply (h_NoDup _ _ _ Hh).
Qed.

Lemma rwp_incref s (Q : unit -> rstate D -> Prop) :
  st_life s <> Freed -> 0 <= st_ref s < 4294967295 -> Q tt (with_ref s (st_ref s + 1)) -> rwp ti_incref s Q.
Proof. intros Hl Hr HQ. unfold ti_incref, touch. repeat rstep. rewrite u32_small by lia. exact HQ. Qed.

Lemma rwp_map_set s m ok id r (Q : option nat -> rstate D -> Prop) :
  st_life s <> Freed -> st_reqmap s = RLive m -> om_wf m -> om_n m <= 65536 ->
  match to_omap m !! id with
  | Some p => forall m', om_wf m' -> to_omap m' = <[id := r]> (to_omap m) -> Q (Some p) (with_map s (RLive m'))
  | None => if ok : bool
            then forall m', om_wf m' -> to_omap m' = <[id := r]> (to_omap m) -> Q (Some r) (with_map s (RLive m'))
            else Q None (with_map s (RLive m))
  end ->
  rwp (map_set ok id r) s Q.
Proof.
  intros Hl Hmap Hm Hn HQ. unfold map_set, map_live, touch. repeat rstep. rewrite Hmap. rstep.
  opose proof (omap_set_spec m id r (IState (if ok then 1 else 0)%nat []) Hm _) as Hset; [unfold UINT64_MAX; lia|].
  destruct (to_omap m !! id) as [p|].
  - destruct Hset as (m' & -> & Hm' & Ed). repeat rstep. by apply HQ.
  - destruct ok; cbn [mem] in Hset.
    + destruct Hset as (m' & -> & Hm' & Ed). repeat rstep. by apply HQ.
    + rewrite Hset. repeat rstep. exact HQ.
Qed.

(** The state in which [ti_req_create] has put its request [r] into the map, from
    the state [b] without it. *)
Definition mapped b id d m : rstate D :=
  RState (st_ref b + 1) id (st_closed b) (RLive m) (st_life b) (<[next_loc b := Req id d true]> (reqs b))
    (timers b) (writes b) (S (next_loc b)) (rlog b).

Lemma undo_spec b id d m s0 :
  st_closed b = false -> om_wf m -> hinv 0 (to_omap m) b -> Z.of_nat (next_loc b) <= LIMIT ->
  next_loc b = next_loc s0 ->
  rwp (req_undo (next_loc b)) (mapped b id d m) (fun _ s' => apost s0 tt s').
Proof.
  intros Hc Hm Hh Hn Hloc. destruct (hinv_ref 0 _ b Hh ltac:(lia) Hn) as [Hr _]. unfold req_undo. rstep.
  apply rwp_drop; [cbn; rewrite (h_life _ _ _ Hh); done|cbn; lia|]. repeat rstep. split; [|cbn; lia]. left.
  assert (reqs b !! next_loc b = None) as Hnew by (apply eq_None_not_Some; intros H%(h_req_loc _ _ _ Hh); lia).
  cbn. rewrite delete_insert_id by done. split; [done|]. exists m. split; [done|]. split; [done|].
  replace (st_ref b + 1 - 1) with (st_ref b) by lia. apply (hinv_skip 0 _ b); [done|lia].
Qed.

Lemma unmap_spec b id d m G s0 :
  st_closed b = false -> om_wf m -> to_omap m = <[id := next_loc b]> G -> G !! id = None -> hinv 0 G b ->
  om_n m <= 65536 -> Z.of_nat (next_loc b) <= LIMIT -> next_loc b = next_loc s0 ->
  rwp (req_unmap id (next_loc b)) (mapped b id d m) (fun _ s' => apost s0 tt s').
Proof.
  intros Hc Hm Em Hno Hh Hsm Hn Hloc. unfold req_unmap. rstep.
  apply (rwp_map_rm _ m); [cbn; rewrite (h_life _ _ _ Hh); done|done|done|done|]. intros m' Hm' Ed.
  change (with_map (mapped b id d m) (RLive m')) with (mapped b id d m'). apply undo_spec; try done.
  rewrite Ed, Em, delete_insert_id by done. done.
Qed.

Lemma start_spec b id d m G fail s0 :
  st_closed b = false -> om_wf m -> to_omap m = <[id := next_loc b]> G -> G !! id = None -> 0 <= id < 65536 ->
  hinv 0 G b -> om_n m <= 65536 -> Z.of_nat (next_loc b) <= LIMIT -> next_loc b = next_loc s0 ->
  rwp (req_start id (next_loc b) fail) (mapped b id d m) (fun _ s' => apost s0 tt s').
Proof.
  intros Hc Hm Em Hno Hid Hh Hsm Hn Hloc. unfold req_start.
  assert (rwp (req_unmap id (next_loc b)) (mapped b id d m) (fun _ s' => apost s0 tt s')) as Hun by (by eapply unmap_spec).
  destruct (decide (fail = FInit)); [done|]. destruct (decide (fail = FStart)); [done|]. repeat rstep.
  destruct (decide (fail = FWrite)).
  - repeat rstep. cbn. assert (next_loc b ∉ timers b) as Hnt.
    { rewrite (h_timers _ _ _ Hh), elem_of_dom. intros H%(h_req_loc _ _ _ Hh). lia. }
    replace ((timers b ∪ {[next_loc b]}) ∖ {[next_loc b]}) with (timers b) by set_solver. exact Hun.
  - rstep. destruct (hinv_ref 0 _ b Hh ltac:(lia) Hn) as [Hr _].
    apply rwp_incref; [cbn; rewrite (h_life _ _ _ Hh); done|cbn; lia|]. repeat rstep. split; [|cbn; lia]. left.
    cbn. split; [done|]. exists m. split; [done|]. split; [done|]. rewrite Em.
    replace (st_ref b + 1 + 1) with (st_ref b + 2) by lia. by apply hinv_create.
Qed.

Lemma act_create s m d fail :
  rinv s -> st_reqmap s = RLive m -> Z.of_nat (next_loc s) <= LIMIT ->
  (forall r, omap_get m (u16 (st_next_pkg_id s + 1)) = Some r -> ~ write_pending s r) ->
  rwp (raction_run none 1 (ACreate d fail)) s (apost s).
Proof.
  intros (Hc & m0 & Hmap & Hm & Hh) Hmap0 Hn Hw. assert (m0 = m) as -> by congruence.
  rewrite omap_get_spec in Hw by done. pose proof (h_life _ _ _ Hh) as Hlife. pose proof (reqmap_small _ _ _ Hm Hh) as Hsm.
  cbn [raction_run]. rstep. apply (rwp_mono _ _ (fun _ s' => apost s tt s')); [|intros _ s' Hp; by rstep].
  assert (apost s tt s) as Hsame by (split; [left; split; [done|]; by exists m|lia]).
  unfold ti_req_create. destruct (decide (fail = FReq)); [by rstep|]. destruct (decide (fail = FTimer)); [by rstep|].
  unfold touch. repeat rstep. set (id := u16 (st_next_pkg_id s + 1)) in *.
  assert (0 <= id < 65536) as Hid by (subst id; unfold u16; apply Z.mod_pos_bound; lia).
  destruct (hinv_ref 0 _ s Hh ltac:(lia) Hn) as [Hr Hr2].
  apply rwp_incref; [cbn; congruence|cbn; lia|]. repeat rstep. cbn [with_ref st_ref st_next_pkg_id st_closed st_reqmap st_life reqs timers writes next_loc rlog].
  assert (forall m' : omap nat, om_wf m' -> dom (to_omap m') ⊆ dom (to_omap m) ∪ {[id]} -> om_n m' <= 65536) as Hsm'.
  { intros m' Hm' Hdom. apply (reqmap_range m' Hm'). intros i Hi. apply Hdom, elem_of_union in Hi as [Hi|Hi]; [|set_solver].
    apply elem_of_dom in Hi as [r (q & Hq & <-)%(h_map _ _ _ Hh)]. by apply (h_req _ _ _ Hh r). }
  apply (rwp_map_set _ m); [cbn; congruence|done|done|done|]. destruct (to_omap m !! id) as [p|] eqn:Ep.
  - intros m' Hm' Em. pose proof Ep as (q & Hq & Eid)%(h_map _ _ _ Hh). specialize (Hw p eq_refl).
    assert (p <> next_loc s) as Hp by (pose proof (h_req_loc _ _ _ Hh p ltac:(by eexists)); lia).
    rewrite decide_False by done. rstep. destruct (h_req _ _ _ Hh p q Hq) as [Ht _]. specialize (Hr2 p ltac:(by eexists)).
    unfold ti_req_cancel. apply (rwp_finish_raw _ p q); try (cbn; congruence || lia).
    { cbn. by rewrite lookup_insert_ne by done. }
    { exact Hw. }
    cbn [with_map with_ref st_ref st_next_pkg_id st_closed st_reqmap st_life reqs timers writes next_loc rlog].
    rewrite delete_insert_ne by done.
    pose proof (hinv_done 0 _ s p q EX_REQUEST_CANCEL Hh Hq Hw (st_reqmap s)) as Hb. rewrite Eid in Hb.
    set (b := RState _ _ _ _ Open _ _ _ _ _) in Hb.
    replace (st_ref s + 1 - 1) with (st_ref b + 1) by (cbn; lia). rewrite Hlife.
    apply (start_spec b id d m' (delete id (to_omap m)) fail s); try done.
    + rewrite Em. cbn. by rewrite insert_delete_eq.
    + apply lookup_delete_eq.
    + apply Hsm'; [done|]. rewrite Em, dom_insert_L. set_solver.
  - assert (rwp (req_undo (next_loc s)) (mapped s id d m) (fun _ s' => apost s tt s')) as Hundo by (by apply undo_spec).
    destruct (bool_decide (fail <> FMap)).
    + intros m' Hm' Em. rewrite decide_True by done. rstep. rstep.
      apply (start_spec s id d m' (to_omap m) fail s); try done. apply Hsm'; [done|]. rewrite Em, dom_insert_L. set_solver.
    + unfold with_map, mapped in *. cbn in *. exact Hundo.
Qed.

Lemma act_write_pkg s ok : rinv s -> Z.of_nat (next_loc s) <= LIMIT -> rwp (raction_run none 1 (AWritePkg ok)) s (apost s).
Proof.
  intros (Hc & m & Hmap & Hm & Hh) Hn. cbn [raction_run]. unfold ti_stream_write_pkg. rstep.
  destruct ok; cbn [negb]; [|rstep; rstep; split; [left; split; [done|]; by exists m|lia]].
  destruct (hinv_ref 0 _ s Hh ltac:(lia) Hn) as [Hr _]. rstep.
  apply rwp_incref; [rewrite (h_life _ _ _ Hh); done|lia|]. repeat rstep. split; [|cbn; lia]. left.
  split; [done|]. exists m. split; [done|]. split; [done|]. cbn.
  assert (writes s !! next_loc s = None) as Hw by (apply eq_None_not_Some; intros H%(h_write_loc _ _ _ Hh); lia).
  pose proof (hinv_skip 0 _ s (st_next_pkg_id s) (st_reqmap s) (S (next_loc s)) Hh ltac:(lia)) as Hs.
  destruct Hs as [H1 H2 H3 H4 H5 H6 H7 H8 H9 H10 H11 H12 H13]. cbn in *. constructor; cbn; try done.
  - intros w r [[_ ?]|[_ Hx]]%lookup_insert_Some; [done|]. by eapply H4.
  - intros w w' r [[_ ?]|[_ Hx]]%lookup_insert_Some [[_ ?]|[_ Hy]]%lookup_insert_Some; try done. by eapply H5.
  - rewrite H6, map_size_insert_None by done. lia.
  - intros w [o [[<- _]|[_ Hx]]%lookup_insert_Some]; [lia|]. apply H8. by eexists.
Qed.

End Invariant.
