(* ===== verification/ReqProps.v ===== *)
(** * Properties of the requests to other nodes

    Every request that was sent is answered exactly once, whatever responses,
    timeouts, write errors and the end of the connection come in between, when
    a request ends only after its package was written; and three ways to leave
    these conditions that the code does not guard against. The map of open
    requests refines a finite map. *)
From Stdlib Require Import ZArith Lia.
From stdpp Require Import base list option numbers sets gmap.
From S2P Require Import Prelude Mem Omap Req ReqProof.

(** ** The map of open requests *)

(** [omap_add], [omap_set], [omap_get] and [omap_rm] on a sorted chain do what
    they say on the finite map it represents, keep it sorted and counted, and
    change nothing when the allocation fails; clearing releases every pointer
    once, in the order of the ids, and leaves an empty chain. *)
Theorem omap_refines_map {V} (m : omap V) id (v : V) s :
  om_wf m -> om_n m < UINT64_MAX ->
  omap_get m id = to_omap m !! id /\
  (exists rc m' s', omap_add m id v s = Some ((rc, m'), s') /\ om_wf m' /\
     match to_omap m !! id with
     | Some _ => rc = OMAP_ERR_EXIST /\ m' = m /\ s' = s
     | None => if decide (mem s = O) then rc = OMAP_ERR_ALLOC /\ m' = m /\ s' = s
               else rc = OMAP_SUCCESS /\ to_omap m' = <[id := v]> (to_omap m)
     end) /\
  (exists o m' s', omap_set m id v s = Some ((o, m'), s') /\ om_wf m' /\
     match to_omap m !! id with
     | Some prev => o = Some prev /\ to_omap m' = <[id := v]> (to_omap m) /\ s' = s
     | None => if decide (mem s = O) then o = None /\ m' = m /\ s' = s
               else o = Some v /\ to_omap m' = <[id := v]> (to_omap m)
     end) /\
  (exists m', omap_rm m id = (to_omap m !! id, m') /\ om_wf m' /\ to_omap m' = delete id (to_omap m)) /\
  omap_clear m (Some release) s = Some (Omap [] 0, IState (mem s) (rev (Callback <$> (om_next m).*2) ++ evs s)).
Proof.
  intros Hm Hn. pose proof (omap_add_spec m id v s Hm Hn) as Hadd. pose proof (omap_set_spec m id v s Hm Hn) as Hset.
  split; [by apply omap_get_spec|]. split; [|split; [|split]].
  - destruct (to_omap m !! id); [by eauto 8|]. destruct (mem s) eqn:Em.
    + exists OMAP_ERR_ALLOC, m, s. by rewrite decide_True.
    + destruct Hadd as (m' & E & Hw & Hmap). do 3 eexists. split; [exact E|]. by rewrite decide_False.
  - destruct (to_omap m !! id) as [prev|]; [destruct Hset as (m' & E & Hw & Hmap); by eauto 8|].
    destruct (mem s) eqn:Em.
    + exists None, m, s. by rewrite decide_True.
    + destruct Hset as (m' & E & Hw & Hmap). do 3 eexists. split; [exact E|]. by rewrite decide_False.
  - apply omap_rm_spec; [done|lia].
  - unfold omap_clear. by rewrite (IM_bind_Some _ _ _ _ _ (omap_each_spec (om_next m) s)).
Qed.

Lemma omap_refines_map_witness :
  om_wf (Omap [(3, 30); (7, 70)] 2) /\
  exists m' s', omap_set (Omap [(3, 30); (7, 70)] 2) 5 50 (IState 1 []) = Some ((Some 50, m'), s') /\
    to_omap m' !! 5 = Some 50 /\ to_omap m' !! 7 = Some 70.
Proof.
  assert (om_wf (Omap [(3, 30); (7, 70)] 2)) as Hm by (split; [repeat constructor|reflexivity]). split; [exact Hm|].
  destruct (omap_refines_map _ 5 50 (IState 1 []) Hm) as (_ & _ & (o & m' & s' & E & _ & Hpost) & _); [reflexivity|].
  vm_compute in Hpost. exists m', s'. rewrite E. destruct Hpost as [-> Hmap]. split; [reflexivity|].
  vm_compute in E. injection E as <- <-. split; vm_compute; reflexivity.
Defined.

(** ** Requests *)

Section Requests.
Context {D : Type}.
Implicit Types (s : rstate D) (a : raction (D := D)) (l : list (raction (D := D))).

(** The conditions under which the code is safe: requests are sent on an open
    stream, a request ends only after its package was written, and a freed
    stream is not closed again. *)
Definition aok s a : Prop :=
  match a with
  | ACreate _ _ =>
      st_closed s = false /\
      forall m r, st_reqmap s = RLive m -> omap_get m (u16 (st_next_pkg_id s + 1)) = Some r -> ~ write_pending s r
  | AWritePkg _ => st_closed s = false
  | AResponse id =>
      st_closed s = false /\ forall m r, st_reqmap s = RLive m -> omap_get m id = Some r -> ~ write_pending s r
  | ATimeout r => ~ write_pending s r
  | AClose => st_life s <> Freed /\ forall r, ~ write_pending s r
  | AWritten _ _ | AClosed => True
  end.

Fixpoint aoks l s : Prop :=
  match l with
  | [] => True
  | a :: l => aok s a /\ forall s', raction_run none 1 a s = Some (tt, s') -> aoks l s'
  end.

Lemma rinv_open s : ainv s -> st_closed s = false -> rinv s.
Proof. intros [Hi|Hi] Hc; [done|]. pose proof (c_closed _ Hi). congruence. Qed.

Lemma action_spec s a : ainv s -> aok s a -> Z.of_nat (next_loc s) <= LIMIT -> rwp (raction_run none 1 a) s (apost s).
Proof.
  intros Hi Hok Hn. destruct a as [d fail|ok|id|r|w error| |]; cbn [aok] in Hok.
  - destruct Hok as [Hc Hok]. pose proof (rinv_open s Hi Hc) as Hr. pose proof Hr as (_ & m & Hmap & _).
    apply (act_create s m); [done|done|done|]. intros r. by apply Hok.
  - apply act_write_pkg; [by apply rinv_open|done].
  - destruct Hok as [Hc Hok]. pose proof (rinv_open s Hi Hc) as Hr. pose proof Hr as (_ & m & Hmap & _).
    apply (act_response s m); [done|done|done|]. intros r. by apply Hok.
  - by apply act_timeout.
  - by apply act_written.
  - destruct Hok as [Hl Hok]. eapply rwp_mono; [by apply act_close|]. by intros u s' [? _].
  - by apply act_closed.
Qed.

Lemma actions_spec l s :
  ainv s -> aoks l s -> Z.of_nat (next_loc s) + 2 * len l <= LIMIT ->
  exists s', raction_runs none 1 l s = Some (tt, s') /\ ainv s'.
Proof.
  revert s. induction l as [|a l IH]; intros s Hi Hok Hn; [by exists s|]. destruct Hok as [Ha Hok].
  unfold len in Hn. cbn [length] in Hn.
  destruct (action_spec s a Hi Ha ltac:(lia)) as ([] & s1 & E & Hi1 & Hn1).
  destruct (IH s1 Hi1 (Hok s1 E)) as (s2 & E2 & Hi2); [unfold len; lia|].
  exists s2. split; [|done]. cbn [raction_runs]. unfold mbind, RM_bind. by rewrite E.
Qed.

Lemma start_inv : rinv (ti_stream_create (D := D)).
Proof.
  split; [done|]. exists (Omap [] 0). split; [done|]. split; [split; [constructor|done]|].
  constructor; cbn [ti_stream_create st_ref st_life reqs timers writes next_loc rlog created finished].
  - intros id r. split; [done|]. by intros (q & Hq & _).
  - intros r q Hq. done.
  - by rewrite dom_empty_L.
  - intros w r Hw. done.
  - intros w w' r Hw. done.
  - done.
  - intros r [q Hq]. done.
  - intros w [o Ho]. done.
  - intros r ?%elem_of_nil. done.
  - done.
  - intros r. split; [by intros ?%elem_of_nil|]. intros [?%elem_of_nil|[q Hq]]; done.
  - intros r ?%elem_of_nil. done.
  - constructor.
Qed.

(** C30. Under these conditions every sequence of requests, responses, timeouts,
    write results and the end of the connection runs without undefined
    behaviour; the callback of a request is called at most once, a request that
    was sent and not called back is still allocated with a running timer and
    under its id in the map, and once the stream is closed every request that
    was sent has been called back. *)
Theorem requests_answered_once l :
  aoks l ti_stream_create -> len l <= 1000000000 ->
  exists s, raction_runs none 1 l ti_stream_create = Some (tt, s) /\
    NoDup (finished (rlog s)) /\
    (forall r, r ∈ created (rlog s) <-> r ∈ finished (rlog s) \/ is_Some (reqs s !! r)) /\
    (forall r, r ∈ finished (rlog s) -> reqs s !! r = None) /\
    timers s = dom (reqs s) /\
    (st_closed s = false -> exists m, st_reqmap s = RLive m /\
       forall id r, omap_get m id = Some r <-> exists q, reqs s !! r = Some q /\ rq_id q = id) /\
    (st_closed s = true -> reqs s = ∅ /\ forall r, r ∈ created (rlog s) -> r ∈ finished (rlog s)).
Proof.
  intros Hok Hlen. destruct (actions_spec l _ (or_introl start_inv) Hok) as (s & E & Hi).
  { unfold LIMIT. cbn [ti_stream_create next_loc]. lia. }
  exists s. split; [done|]. destruct Hi as [(Hc & m & Hmap & Hm & Hh)|Hi].
  - split; [apply (h_NoDup _ _ _ Hh)|]. split; [apply (h_created _ _ _ Hh)|]. split; [apply (h_once _ _ _ Hh)|].
    split; [apply (h_timers _ _ _ Hh)|]. split; [|by rewrite Hc]. intros _. exists m. split; [done|].
    intros id r. rewrite omap_get_spec by done. apply (h_map _ _ _ Hh).
  - pose proof (c_reqs _ Hi) as Hr. pose proof (c_created _ Hi) as Hcr. split; [apply (c_NoDup _ Hi)|].
    split; [intros r; rewrite Hcr, Hr, lookup_empty; split; [tauto|]; intros [?|[? ?]]; done|].
    split; [intros r _; by rewrite Hr, lookup_empty|]. split; [by rewrite (c_timers _ Hi), Hr, dom_empty_L|].
    split; [rewrite (c_closed _ Hi); done|]. intros _. split; [done|]. intros r. by rewrite Hcr.
Qed.

End Requests.

(** A session with a response, a timeout, a write error and the end of the
    connection: the four requests get one callback each. *)
Definition session : list (raction (D := Z)) :=
  [ACreate 10 FNone; ACreate 11 FNone; AWritten 2 false; AResponse 1; AWritten 4 false; ACreate 12 FMap;
   ACreate 13 FNone; ATimeout 3; ACreate 14 FNone; AWritten 7 true; AWritten 9 false; AClose; AClosed].

(** A checker of the conditions, for concrete sessions. *)
Definition pendingb (s : rstate Z) (r : nat) : bool := bool_decide (write_pending s r).
Definition no_pendingb (s : rstate Z) (o : option nat) : bool :=
  match o with Some r => negb (pendingb s r) | None => true end.
Definition aokb (s : rstate Z) (a : raction (D := Z)) : bool :=
  match a with
  | ACreate _ _ =>
      negb (st_closed s) &&
      match st_reqmap s with RLive m => no_pendingb s (omap_get m (u16 (st_next_pkg_id s + 1))) | _ => true end
  | AWritePkg _ => negb (st_closed s)
  | AResponse id =>
      negb (st_closed s) && match st_reqmap s with RLive m => no_pendingb s (omap_get m id) | _ => true end
  | ATimeout r => negb (pendingb s r)
  | AClose => bool_decide (st_life s <> Freed) && forallb (fun x => if x.2 : option nat then false else true) (map_to_list (writes s))
  | AWritten _ _ | AClosed => true
  end.
Fixpoint aoksb (l : list (raction (D := Z))) (s : rstate Z) : bool :=
  match l with
  | [] => true
  | a :: l => aokb s a && match raction_run none 1 a s with Some (_, s') => aoksb l s' | None => true end
  end.

Lemma no_pendingb_ok s r (o : option nat) : no_pendingb s o = true -> o = Some r -> ~ write_pending s r.
Proof. intros H -> Hp. simpl in H. unfold pendingb in H. by rewrite bool_decide_eq_true_2 in H. Qed.

Lemma aokb_ok s a : aokb s a = true -> aok s a.
Proof.
  destruct a as [d fail|ok|id|r|w error| |]; cbn [aokb aok]; try done; rewrite ?andb_true_iff, ?negb_true_iff.
  - intros [Hc Hm]. split; [done|]. intros m r Hmap Hr. rewrite Hmap in Hm. by apply (no_pendingb_ok s r _ Hm Hr).
  - done.
  - intros [Hc Hm]. split; [done|]. intros m r Hmap Hr. rewrite Hmap in Hm. by apply (no_pendingb_ok s r _ Hm Hr).
  - unfold pendingb. by intros ?%bool_decide_eq_false.
  - intros [Hl%bool_decide_eq_true Hf]. split; [done|]. intros r (w & Hw)%write_pending_iff.
    rewrite forallb_forall in Hf. specialize (Hf (w, Some r)). simpl in Hf.
    assert (false = true); [|done]. apply Hf. apply list_elem_of_In. by apply elem_of_map_to_list.
Qed.

Lemma aoksb_ok l s : aoksb l s = true -> aoks l s.
Proof.
  revert s. induction l as [|a l IH]; intros s; cbn [aoksb aoks]; [done|]. rewrite andb_true_iff. intros [Ha Hl].
  split; [by apply aokb_ok|]. intros s' E. rewrite E in Hl. by apply IH.
Qed.

Lemma requests_answered_once_witness :
  exists s, raction_runs none 1 session ti_stream_create = Some (tt, s) /\
    NoDup (finished (rlog s)) /\ created (rlog s) = [8; 6; 3; 1]%nat /\ finished (rlog s) = [8; 6; 3; 1]%nat.
Proof.
  assert (aoks session ti_stream_create) as Hok by (apply aoksb_ok; vm_compute; reflexivity).
  destruct (requests_answered_once session Hok) as (s & E & Hnd & _); [vm_compute; discriminate|].
  exists s. split; [exact E|]. split; [exact Hnd|]. vm_compute in E. injection E as <-. split; reflexivity.
Defined.

(** ** Where the conditions are not guarded *)

(** The callback of the request 7 sends a new request, as a quorum callback that
    asks for another change id does. *)
Definition retry7 (d : Z) (status : ex_enum) : list (Z * fail_at) :=
  if d =? 7 then [(8, FNone)] else [].

(** Two uses of the request map after a stream was closed: between
    [ti_stream_close] and the close callback of the handle the node still has
    the stream and its status, and a request sent in between reads the map
    through NULL; and [omap_destroy] frees the head of the map while
    [ti_req_cancel] calls back, so that a callback of any but the first open
    request that sends a new request on the stream reads a freed map. *)
Theorem closed_stream_uses_freed_map :
  (exists s, raction_runs none 1 [AClose] (ti_stream_create (D := Z)) = Some (tt, s) /\ st_life s = Closing /\
     raction_run none 1 (ACreate 1 FNone) s = None) /\
  (exists s, raction_runs retry7 3 [ACreate 5 FNone; ACreate 7 FNone; AWritten 2 false; AWritten 4 false]
       ti_stream_create = Some (tt, s) /\
     raction_run retry7 3 AClose s = None /\ raction_run none 3 AClose s <> None).
Proof.
  split; eexists; (split; [vm_compute; reflexivity|]); [split; vm_compute; reflexivity|].
  split; [vm_compute; reflexivity|]. vm_compute. discriminate.
Qed.

(** A request that times out, or is cancelled, while its package is still
    being written frees the package that libuv reads. *)
Theorem ended_request_frees_unwritten_package :
  exists s, raction_runs none 1 [ACreate 5 FNone] (ti_stream_create (D := Z)) = Some (tt, s) /\
    raction_run none 1 (ATimeout 1) s = None /\ raction_run none 1 AClose s = None.
Proof. eexists. split; [vm_compute; reflexivity|]. split; vm_compute; reflexivity. Qed.
