(* ===== verification/Away.v ===== *)
(** * ti/away: agreement on away mode

    [src/src/ti/away.c], [src/inc/ti/away.h], [nodes__on_req_away] of
    [src/src/ti/nodes.c] and the signal handler of [src/src/ti/signals.c]. A
    node that wants to store its changes, make a backup or help another node to
    synchronise asks the others by a quorum whether it may go away; nodes that
    accepted one node block for a while.

    The state is the away record, this node's view of the cluster and the libuv
    objects the module uses: one timer [away__uv_waiter] for three purposes in
    turn, the trigger timer, the queued work and the open quorums. An
    initialisation of a handle that is in use, a failing assertion and an access
    after [ti_away_stop] are undefined. Files, archives, modules and the queue
    of changes are arguments: what they answer when a handler asks them. *)
From Stdlib Require Import ZArith Lia.
From stdpp Require Import base list option numbers sets.
From S2P Require Import Prelude Nodes Quorum.

Definition AWAY__SKIP_COUNT : Z := 25.
Definition AWAY__WAIT_FUTURES : Z := 60.
Definition AWAY__BLOCK_TIME : Z := 15000.

Inductive away__status :=
  | AWAY__STATUS_INIT | AWAY__STATUS_IDLE
  | AWAY__STATUS_ACCEPTED_INIT | AWAY__STATUS_ACCEPTED_IDLE
  | AWAY__STATUS_REQ_AWAY | AWAY__STATUS_WAITING | AWAY__STATUS_WORKING | AWAY__STATUS_SYNCING.

Inductive away__severity := AWAY__SEVERITY_NONE | AWAY__SEVERITY_MINOR | AWAY__SEVERITY_MAJOR.

#[export] Instance away__status_eq_dec : EqDecision away__status.
Proof. solve_decision. Defined.
#[export] Instance away__severity_eq_dec : EqDecision away__severity.
Proof. solve_decision. Defined.

(** A syncer: its stream, NULL when the stream is gone, and the first change. *)
Record ti_syncer := Syncer { sy_stream : option nat; sy_first : Z }.

Record ti_away := Away {
  aw_syncers : list ti_syncer;
  aw_status : away__status;
  aw_skip_count : Z;          (* uint8_t *)
  aw_wait_futures : Z;        (* uint8_t *)
  aw_node_id : Z;             (* uint32_t away_node_id *)
  aw_sleep : Z                (* uint32_t *)
}.

(** The callbacks of [away__uv_waiter] and of closing it. *)
Inductive waiter_cb := CbAccept | CbPre | CbAfter.
Inductive waiter := WNone | WInit | WTimer (cb : waiter_cb) | WClosing (cb : option waiter_cb).

#[export] Instance waiter_cb_eq_dec : EqDecision waiter_cb.
Proof. solve_decision. Defined.
#[export] Instance waiter_eq_dec : EqDecision waiter.
Proof. solve_decision. Defined.

Record away_world := World {
  w_away : option ti_away;    (* [away], NULL after [ti_away_stop] *)
  w_waiter : waiter;
  w_trigger : bool;           (* [away__uv_trigger] is started *)
  w_repeat : Z;               (* its repeat time *)
  w_work : bool;              (* [away__work] is queued *)
  w_quorums : list ti_quorum; (* requests that still wait for answers *)
  w_vec : list ti_node;       (* [ti.nodes->vec] *)
  w_me : nat;                 (* the index of [ti.node] *)
  w_signal : bool;            (* TI_FLAG_SIGNAL *)
  w_shutdown : bool           (* [ti_shutdown] was called *)
}.

Definition AM (A : Type) := away_world -> option (A * away_world).
#[export] Instance AM_ret : MRet AM := fun A a s => Some (a, s).
#[export] Instance AM_bind : MBind AM := fun A B k m s =>
  match m s with Some (a, s') => k a s' | None => None end.

Definition aundef {A} : AM A := fun _ => None.
Definition aget : AM away_world := fun s => Some (s, s).
Definition aassert (P : Prop) `{Decision P} : AM unit := fun s => if decide P then Some (tt, s) else None.

Definition set_away (x : option ti_away) : AM unit := fun s => Some (tt, World x (w_waiter s) (w_trigger s) (w_repeat s) (w_work s) (w_quorums s) (w_vec s) (w_me s) (w_signal s) (w_shutdown s)).
Definition set_waiter (x : waiter) : AM unit := fun s => Some (tt, World (w_away s) x (w_trigger s) (w_repeat s) (w_work s) (w_quorums s) (w_vec s) (w_me s) (w_signal s) (w_shutdown s)).
Definition set_trigger (x : bool) (r : Z) : AM unit := fun s => Some (tt, World (w_away s) (w_waiter s) x r (w_work s) (w_quorums s) (w_vec s) (w_me s) (w_signal s) (w_shutdown s)).
Definition set_work (x : bool) : AM unit := fun s => Some (tt, World (w_away s) (w_waiter s) (w_trigger s) (w_repeat s) x (w_quorums s) (w_vec s) (w_me s) (w_signal s) (w_shutdown s)).
Definition set_quorums (x : list ti_quorum) : AM unit := fun s => Some (tt, World (w_away s) (w_waiter s) (w_trigger s) (w_repeat s) (w_work s) x (w_vec s) (w_me s) (w_signal s) (w_shutdown s)).
Definition set_vec (x : list ti_node) : AM unit := fun s => Some (tt, World (w_away s) (w_waiter s) (w_trigger s) (w_repeat s) (w_work s) (w_quorums s) x (w_me s) (w_signal s) (w_shutdown s)).
Definition set_flags (sig shut : bool) : AM unit := fun s => Some (tt, World (w_away s) (w_waiter s) (w_trigger s) (w_repeat s) (w_work s) (w_quorums s) (w_vec s) (w_me s) sig shut).

(** [away->...]: the record is read and written through the pointer. *)
Definition away_ : AM ti_away := s ← aget; match w_away s with Some a => mret a | None => aundef end.
Definition set_status (st : away__status) : AM unit :=
  a ← away_; set_away (Some (Away (aw_syncers a) st (aw_skip_count a) (aw_wait_futures a) (aw_node_id a) (aw_sleep a))).
Definition set_counts (skip wait : Z) : AM unit :=
  a ← away_; set_away (Some (Away (aw_syncers a) (aw_status a) skip wait (aw_node_id a) (aw_sleep a))).
Definition set_sleep (id sleep : Z) : AM unit :=
  a ← away_; set_away (Some (Away (aw_syncers a) (aw_status a) (aw_skip_count a) (aw_wait_futures a) id sleep)).
Definition set_syncers (l : list ti_syncer) : AM unit :=
  a ← away_; set_away (Some (Away l (aw_status a) (aw_skip_count a) (aw_wait_futures a) (aw_node_id a) (aw_sleep a))).

Definition this_node : AM ti_node := s ← aget; match w_vec s !! w_me s with Some n => mret n | None => aundef end.

Definition with_status (st : Z) (n : ti_node) : ti_node :=
  Node (node_id n) (node_port n) (node_syntax_ver n) st (node_zone n) (node_retry_counter n)
    (node_ccid n) (node_scid n) (node_addr n).

(** [ti_set_and_broadcast_node_status]; the broadcast is not modelled. *)
Definition ti_set_node_status (st : Z) : AM unit :=
  n ← this_node; s ← aget; set_vec (<[w_me s := with_status st n]> (w_vec s)).

Definition ti_shutdown : AM unit :=
  ti_set_node_status TI_NODE_STAT_SHUTTING_DOWN;;
  s ← aget; aassert (w_shutdown s = false);;
  set_flags (w_signal s) true.

(** ** When to try *)

(** The last node with the id, the first node when there is none. *)
Fixpoint index_of_id (vec : list ti_node) (id : Z) (i found : nat) : nat :=
  match vec with
  | [] => found
  | n :: vec => index_of_id vec id (S i) (if node_id n =? id then i else found)
  end.

(** The next ready node after [c], or this node. *)
Fixpoint next_ready (fuel : nat) (vec : list ti_node) (me c : nat) : option nat :=
  match fuel with
  | O => None
  | S fuel =>
      let c := ((c + 1) mod length vec)%nat in
      if (c =? me)%nat then Some c else
      n ← vec !! c;
      if node_status n =? TI_NODE_STAT_READY then Some c else next_ready fuel vec me c
  end.

Definition away_sleep (vec : list ti_node) (me : nat) (away_id : Z) : option Z :=
  c ← next_ready (length vec) vec me (index_of_id vec away_id 0 0);
  let my := if (me <? c)%nat then (me + length vec)%nat else me in
  Some (u32 (2500 + Z.of_nat (my - c) * 17000)).

Definition away__update_sleep : AM unit :=
  a ← away_; s ← aget;
  match away_sleep (w_vec s) (w_me s) (aw_node_id a) with
  | Some sleep => set_sleep (aw_node_id a) sleep
  | None => aundef
  end.

Definition ti_away_set_away_node_id (node_id : Z) : AM unit :=
  a ← away_;
  if node_id =? aw_node_id a then mret tt else
  set_sleep node_id (aw_sleep a);;
  away__update_sleep;;
  a ← away_; s ← aget; set_trigger (w_trigger s) (aw_sleep a).

Definition ti_away_reschedule : AM unit :=
  a ← away_;
  away__update_sleep;;
  a' ← away_; s ← aget;
  if aw_sleep a =? aw_sleep a' then mret tt else set_trigger (w_trigger s) (aw_sleep a').

Definition away__reset_sleep : AM unit :=
  s ← aget; a ← away_;
  match w_vec s with
  | n :: _ => set_sleep (node_id n) (aw_sleep a);; away__update_sleep
  | [] => aundef
  end.

(** ** The waiter *)

(** [uv_timer_init], [uv_timer_start] and [uv_close] of [away__uv_waiter]; a
    handle may only be initialised when it is not in use. *)
Definition waiter_init (ok : bool) : AM bool :=
  s ← aget; aassert (w_waiter s = WNone \/ w_waiter s = WInit);;
  (if ok then set_waiter WInit else mret tt);; mret ok.

Definition waiter_start (cb : waiter_cb) (ok : bool) : AM bool :=
  (if ok then set_waiter (WTimer cb) else mret tt);; mret ok.

Definition waiter_close (cb : option waiter_cb) : AM unit :=
  s ← aget;
  match w_waiter s with WInit | WTimer _ => set_waiter (WClosing cb) | _ => aundef end.

(** The outcomes of [uv_timer_init] and [uv_timer_start]. *)
Record uv_rc := UvRc { init_ok : bool; start_ok : bool }.

(** ** Accepting another node *)

(** [away->status += 2] and [away->status -= 2] with their assertions. *)
Definition accept_status (st : away__status) : option away__status :=
  match st with
  | AWAY__STATUS_INIT => Some AWAY__STATUS_ACCEPTED_INIT
  | AWAY__STATUS_IDLE => Some AWAY__STATUS_ACCEPTED_IDLE
  | _ => None
  end.
Definition release_status (st : away__status) : option away__status :=
  match st with
  | AWAY__STATUS_ACCEPTED_INIT => Some AWAY__STATUS_INIT
  | AWAY__STATUS_ACCEPTED_IDLE => Some AWAY__STATUS_IDLE
  | _ => None
  end.

Definition away__accept_node_id (uv : uv_rc) (node_id : Z) : AM unit :=
  a ← away_;
  match accept_status (aw_status a) with
  | None => aundef
  | Some st =>
      set_status st;;
      ti_away_set_away_node_id node_id;;
      ok ← waiter_init (init_ok uv);
      if negb ok then mret tt else waiter_start CbAccept (start_ok uv);; mret tt
  end.

Definition ti_away_accept (uv : uv_rc) (node_id : Z) : AM bool :=
  a ← away_; s ← aget;
  match aw_status a with
  | AWAY__STATUS_INIT | AWAY__STATUS_IDLE => away__accept_node_id uv node_id;; mret true
  | st =>
      me ← this_node;
      let node := match st with
                  | AWAY__STATUS_ACCEPTED_INIT | AWAY__STATUS_ACCEPTED_IDLE =>
                      snd <$> ti_nodes_get_away_or_soon (w_vec s)
                  | _ => Some me
                  end in
      match node with Some n => ti_away_set_away_node_id (Nodes.node_id n) | None => mret tt end;;
      a ← away_;
      mret (aw_node_id a =? node_id)
  end.

(** The answer to a request of the node [node_id]. *)
Definition nodes__on_req_away (uv : uv_rc) (node_id : Z) : AM answer :=
  me ← this_node;
  if node_status me <? TI_NODE_STAT_SHUTTING_DOWN then mret AnsError else
  b ← ti_away_accept uv node_id;
  mret (if b : bool then AnsAccept else AnsReject).

Definition away__accept_close_cb : AM unit :=
  a ← away_;
  match release_status (aw_status a) with Some st => set_status st | None => aundef end.

Definition away__accept_cb : AM unit := waiter_close (Some CbAccept).

(** ** Going away *)

Definition away__done : AM unit :=
  s ← aget; if w_signal s then ti_shutdown else ti_set_node_status TI_NODE_STAT_READY.

Definition away__waiter_after_close_cb : AM unit := set_status AWAY__STATUS_IDLE;; away__done.

(** The number of nodes that still synchronise; starting the transfers is left
    out. *)
Fixpoint away__syncers (l : list ti_syncer) : Z :=
  match l with
  | [] => 0
  | y :: l => (if sy_stream y then 1 else 0) + away__syncers l
  end.

(** [changes]: changes left in the queue. *)
Definition away__waiter_after_cb (changes : Z) : AM unit :=
  a ← away_; aassert (aw_status a = AWAY__STATUS_SYNCING);;
  if negb (changes =? 0) then mret tt else
  if negb (away__syncers (aw_syncers a) =? 0) then mret tt else waiter_close (Some CbAfter).

Definition away__work_finish (uv : uv_rc) : AM unit :=
  set_status AWAY__STATUS_SYNCING;;
  a ← away_; set_counts AWAY__SKIP_COUNT (aw_wait_futures a);;
  let fail1 : AM unit := set_status AWAY__STATUS_IDLE;; away__done in
  ok ← waiter_init (init_ok uv);
  if negb ok then fail1 else
  ok ← waiter_start CbAfter (start_ok uv);
  if negb ok then waiter_close None;; fail1 else mret tt.

Definition away__waiter_pre_close_cb (queued : bool) : AM unit :=
  set_status AWAY__STATUS_WORKING;;
  if negb queued then
    set_status AWAY__STATUS_IDLE;; ti_set_node_status TI_NODE_STAT_READY
  else set_work true;; ti_set_node_status TI_NODE_STAT_AWAY.

(** [futures]: [ti.futures_count]. *)
Definition away__waiter_pre_cb (changes futures : Z) : AM unit :=
  a ← away_; s ← aget;
  if negb (futures =? 0) then
    let k := u8 (aw_wait_futures a - 1) in
    set_counts (aw_skip_count a) (if k =? 0 then AWAY__WAIT_FUTURES else k)
  else if negb (changes =? 0) then mret tt
  else
    set_counts (aw_skip_count a) AWAY__WAIT_FUTURES;;
    if w_signal s then mret tt else waiter_close (Some CbPre).

Definition away__on_req_away_id (uv : uv_rc) (accepted : bool) : AM unit :=
  let fail0 : AM unit := set_status AWAY__STATUS_IDLE in
  if negb accepted then fail0 else
  ok ← waiter_init (init_ok uv);
  if negb ok then fail0 else
  ok ← waiter_start CbPre (start_ok uv);
  if negb ok then waiter_close None;; fail0 else
  me ← this_node;
  ti_away_set_away_node_id (node_id me);;
  ti_set_node_status TI_NODE_STAT_AWAY_SOON;;
  set_status AWAY__STATUS_WAITING.

(** The callbacks [ti_quorum_go] makes. *)
Fixpoint quorum_callbacks (uv : uv_rc) (cs : list bool) : AM unit :=
  match cs with [] => mret tt | b :: cs => away__on_req_away_id uv b;; quorum_callbacks uv cs end.

(** The other nodes to which no request could be sent; [sent] is the outcome of
    [ti_req_create]. *)
Fixpoint unsent (sent : nat -> bool) (me i : nat) (vec : list ti_node) : nat :=
  match vec with
  | [] => O
  | n :: vec =>
      ((if (i =? me)%nat then 0
        else if (node_status n <=? TI_NODE_STAT_SHUTTING_DOWN)%Z || negb (sent i) then 1 else 0)
       + unsent sent me (S i) vec)%nat
  end.

(** [memory]: the quorum and the package were allocated. *)
Definition away__req_away_id (uv : uv_rc) (memory : bool) (sent : nat -> bool) : AM unit :=
  if negb memory then set_status AWAY__STATUS_IDLE else
  s ← aget;
  let '(cs, o) := ti_quorum_go (quorum_shrink (unsent sent (w_me s) 0 (w_vec s)) (ti_quorum_new (w_vec s))) in
  quorum_callbacks uv cs;;
  s ← aget; set_quorums (w_quorums s ++ option_list o).

(** An answer for the quorum [i]. *)
Definition away_answer (uv : uv_rc) (i : nat) (ans : answer) : AM unit :=
  s ← aget;
  match w_quorums s !! i with
  | None => mret tt
  | Some q =>
      me ← this_node;
      let '(cs, o) := ti_quorum_req_cb (node_id me) ans q in
      set_quorums (match o with Some q => <[i := q]> (w_quorums s) | None => delete i (w_quorums s) end);;
      quorum_callbacks uv cs
  end.

(** What the trigger asks the rest of the program. *)
Record trigger_env := TriggerEnv {
  te_archive : Z;         (* ti.archive->queue->n *)
  te_backups : bool;      (* ti_backups_require_away() *)
  te_qcache : bool;       (* ti_qcache_require_away() *)
  te_in_queue : bool;     (* ti_changes_in_queue() *)
  te_uv : uv_rc;
  te_memory : bool;
  te_sent : nat -> bool
}.

Definition away__has_major_severity (vec : list ti_node) (e : trigger_env) : bool :=
  ti_nodes_require_sync vec || te_backups e || te_qcache e.

Definition away__get_minor_severity_first (vec : list ti_node) (e : trigger_env) : away__severity :=
  if negb (te_archive e =? 0) then AWAY__SEVERITY_MINOR
  else if away__has_major_severity vec e then AWAY__SEVERITY_MAJOR else AWAY__SEVERITY_NONE.

(** With a single node the work is done in place, which does not change the state
    of this module. *)
Definition away__trigger_cb (e : trigger_env) : AM unit :=
  s ← aget;
  if len (w_vec s) =? 1 then mret tt else
  a ← away_;
  if decide (aw_status a <> AWAY__STATUS_IDLE) then mret tt else
  me ← this_node;
  if negb (node_status me =? TI_NODE_STAT_READY) then mret tt else
  let sev := away__get_minor_severity_first (w_vec s) e in
  if decide (sev = AWAY__SEVERITY_NONE) then mret tt else
  match ti_nodes_get_away_or_soon (w_vec s) with
  | Some (_, n) => ti_away_set_away_node_id (node_id n)
  | None =>
      if negb (ti_nodes_has_quorum (w_vec s)) then mret tt else
      if te_in_queue e && bool_decide (sev = AWAY__SEVERITY_MINOR) && negb (aw_skip_count a =? 0)
         && negb (away__has_major_severity (w_vec s) e)
      then set_counts (u8 (aw_skip_count a - 1)) (aw_wait_futures a)
      else
        set_status AWAY__STATUS_REQ_AWAY;;
        away__req_away_id (te_uv e) (te_memory e) (te_sent e)
  end.

(** ** Starting and stopping *)

Definition ti_away_create : ti_away := Away [] AWAY__STATUS_INIT AWAY__SKIP_COUNT AWAY__WAIT_FUTURES 0 0.

Definition ti_away_start (uv : uv_rc) : AM Z :=
  a ← away_; aassert (aw_status a = AWAY__STATUS_INIT);;
  away__reset_sleep;;
  if negb (init_ok uv) then mret (-1) else
  if negb (start_ok uv) then set_away None;; mret (-1) else
  a ← away_; set_trigger true (aw_sleep a);;
  set_status AWAY__STATUS_IDLE;; mret 0.

Definition ti_away_stop : AM unit :=
  s ← aget;
  match w_away s with
  | None => mret tt
  | Some a =>
      match aw_status a with
      | AWAY__STATUS_ACCEPTED_INIT | AWAY__STATUS_ACCEPTED_IDLE | AWAY__STATUS_WAITING | AWAY__STATUS_SYNCING =>
          match w_waiter s with WClosing _ => mret tt | _ => waiter_close None end
      | _ => mret tt
      end;;
      (if decide (aw_status a = AWAY__STATUS_INIT) then mret tt else set_trigger false (w_repeat s));;
      set_away None
  end.

Definition ti_away_is_working (a : ti_away) : bool := bool_decide (aw_status a = AWAY__STATUS_WORKING).
Definition ti_away_is_busy (a : ti_away) : bool :=
  bool_decide (aw_status a = AWAY__STATUS_WORKING) || bool_decide (aw_status a = AWAY__STATUS_SYNCING).

(** [signals__handler] for a stop signal. *)
Definition signals__handler : AM unit :=
  s ← aget;
  if w_signal s then mret tt else
  set_flags true (w_shutdown s);;
  me ← this_node;
  if negb (node_status me =? TI_NODE_STAT_AWAY) then ti_shutdown else mret tt.

(** The status of another node as its package says ([ti_node_status_from_unp]). *)
Definition node_status_update (i : nat) (st : Z) : AM unit :=
  s ← aget;
  match w_vec s !! i with
  | None => mret tt
  | Some n =>
      set_vec (<[i := with_status st n]> (w_vec s));;
      (if st =? TI_NODE_STAT_AWAY then ti_away_set_away_node_id (node_id n) else mret tt);;
      if st =? TI_NODE_STAT_SHUTTING_DOWN then ti_away_reschedule else mret tt
  end.

(** ** Nodes that synchronise with this one *)

Fixpoint syncer_find (l : list ti_syncer) (stream : nat) (i : nat) (empty : option nat) : (nat + option nat) :=
  match l with
  | [] => inr empty
  | y :: l =>
      if decide (sy_stream y = Some stream) then inl i
      else syncer_find l stream (S i) (match sy_stream y with None => Some i | Some _ => empty end)
  end.

(** [memory]: the outcomes of [ti_syncer_create], [vec_push] and
    [vec_push_create] on the listeners of the stream. *)
Definition ti_away_syncer (create_ok push_ok listen_ok : bool) (stream : nat) (first : Z) (l : list ti_syncer)
    : Z * list ti_syncer :=
  match syncer_find l stream 0 None with
  | inl i => (0, <[i := Syncer (Some stream) first]> l)
  | inr (Some i) => if listen_ok then (0, <[i := Syncer (Some stream) first]> l) else (-1, <[i := Syncer None first]> l)
  | inr None =>
      if negb create_ok then (-1, l) else
      if negb push_ok then (-1, l) else
      if listen_ok then (0, l ++ [Syncer (Some stream) first]) else (-1, l ++ [Syncer None first])
  end.

(** [vec_swap_remove]: the last item takes the place of the removed one. *)
Definition syncer_swap_remove (i : nat) (l : list ti_syncer) : list ti_syncer :=
  match list.last l with
  | None => l
  | Some y => take (pred (length l)) (<[i := y]> l)
  end.

Definition ti_away_syncer_done (stream : nat) (l : list ti_syncer) : list ti_syncer :=
  match syncer_find l stream 0 None with
  | inl i => syncer_swap_remove i l
  | inr _ => l
  end.

(** A stream that is closed clears its syncer. *)
Definition syncer_gone (stream : nat) (l : list ti_syncer) : list ti_syncer :=
  (fun y => if decide (sy_stream y = Some stream) then Syncer None (sy_first y) else y) <$> l.

(** ** What happens to the module

    Timers fire only when they are started, a close callback runs once after the
    handle was closed, and finished work was queued. *)
Inductive aevent :=
  | EvTrigger (e : trigger_env)
  | EvAnswer (uv : uv_rc) (i : nat) (ans : answer)
  | EvWaiter (changes futures : Z)
  | EvWaiterClosed (queued : bool)
  | EvWorkDone (uv : uv_rc)
  | EvRequest (uv : uv_rc) (id : Z)
  | EvNode (i : nat) (st : Z)
  | EvOwn (st : Z)
  | EvSignal
  | EvSyncer (create_ok push_ok listen_ok : bool) (stream : nat) (first : Z)
  | EvSyncerDone (stream : nat)
  | EvStreamGone (stream : nat)
  | EvStart (uv : uv_rc)
  | EvStop.

Definition away_event (ev : aevent) : AM unit :=
  s ← aget;
  match ev with
  | EvTrigger e => if w_trigger s then away__trigger_cb e else mret tt
  | EvAnswer uv i ans => away_answer uv i ans
  | EvWaiter changes futures =>
      match w_waiter s with
      | WTimer CbAccept => away__accept_cb
      | WTimer CbPre => away__waiter_pre_cb changes futures
      | WTimer CbAfter => away__waiter_after_cb changes
      | _ => mret tt
      end
  | EvWaiterClosed queued =>
      match w_waiter s with
      | WClosing cb =>
          set_waiter WNone;;
          match cb with
          | Some CbAccept => away__accept_close_cb
          | Some CbPre => away__waiter_pre_close_cb queued
          | Some CbAfter => away__waiter_after_close_cb
          | None => mret tt
          end
      | _ => mret tt
      end
  | EvWorkDone uv => if w_work s then set_work false;; away__work_finish uv else mret tt
  | EvRequest uv id => nodes__on_req_away uv id;; mret tt
  | EvNode i st => node_status_update i st
  | EvOwn st => ti_set_node_status st
  | EvSignal => signals__handler
  | EvSyncer c p l stream first =>
      a ← away_; set_syncers (snd (ti_away_syncer c p l stream first (aw_syncers a)))
  | EvSyncerDone stream => a ← away_; set_syncers (ti_away_syncer_done stream (aw_syncers a))
  | EvStreamGone stream => a ← away_; set_syncers (syncer_gone stream (aw_syncers a))
  | EvStart uv => ti_away_start uv;; mret tt
  | EvStop => ti_away_stop
  end.

Fixpoint away_events (l : list aevent) : AM unit :=
  match l with [] => mret tt | ev :: l => away_event ev;; away_events l end.
