(* ===== verification/AwayProof.v ===== *)
(** * The away state machine

    The schedule of the nodes ([away_sleep]), the invariant that ties the
    status to the libuv objects ([away_ok]), and that every handler keeps it. *)
From Stdlib Require Import ZArith Lia.
From stdpp Require Import base list option numbers sets.
From S2P Require Import Prelude Nodes Quorum Away.

(** ** The schedule *)

Lemma index_of_id_lt vec id : forall i found, (found <= i)%nat -> (index_of_id vec id i found < i + length vec)%nat \/
  index_of_id vec id i found = found.
Proof.
  induction vec as [|n vec IH]; intros i found Hf; simpl; [by right|].
  destruct (IH (S i) (if node_id n =? id then i else found)) as [H|H]; [destruct (node_id n =? id); lia|left; lia|].
  rewrite H. destruct (node_id n =? id); [left; lia|by right].
Qed.

Lemma index_of_id_range vec id : vec <> [] -> (index_of_id vec id 0 0 < length vec)%nat.
Proof.
  intros Hv. destruct (index_of_id_lt vec id 0 0) as [H|H]; [lia|lia|]. rewrite H. destruct vec; [done|simpl; lia].
Qed.

(** Steps from [c] to [me] around the ring. *)
Definition steps (n c me : nat) : nat := if (c <? me)%nat then me - c else me + n - c.

Lemma steps_le n c me : (me < n)%nat -> (steps n c me <= n)%nat.
Proof. intros Hme. unfold steps. destruct (Nat.ltb_spec c me); lia. Qed.

Lemma next_ready_Some f vec me c :
  (me < length vec)%nat -> (c < length vec)%nat -> (steps (length vec) c me <= f)%nat ->
  exists c', next_ready f vec me c = Some c' /\ (c' < length vec)%nat.
Proof.
  revert c. induction f as [|f IH]; intros c Hme Hc Hf.
  { unfold steps in Hf. destruct (Nat.ltb_spec c me); lia. }
  cbn [next_ready]. set (d := ((c + 1) mod length vec)%nat).
  assert (d < length vec)%nat as Hd by (apply Nat.mod_upper_bound; lia).
  assert (d = if (c + 1 =? length vec)%nat then 0%nat else (c + 1)%nat) as Ed.
  { subst d. destruct (Nat.eqb_spec (c + 1) (length vec)) as [E|E]; [rewrite E; apply Nat.Div0.mod_same|].
    apply Nat.mod_small. lia. }
  destruct (Nat.eqb_spec d me) as [->|Hne]; [eauto|].
  destruct (lookup_lt_is_Some_2 vec d Hd) as [n Hn]. rewrite Hn. cbn [mbind option_bind].
  destruct (node_status n =? TI_NODE_STAT_READY); [eauto|]. apply IH; [done|done|].
  clearbody d. unfold steps in *. destruct (Nat.eqb_spec (c + 1) (length vec)), (Nat.ltb_spec c me), (Nat.ltb_spec d me); lia.
Qed.

Lemma away_sleep_Some vec me id : (me < length vec)%nat -> exists sl, away_sleep vec me id = Some sl.
Proof.
  intros Hme. pose proof (index_of_id_range vec id ltac:(by destruct vec; [simpl in Hme; lia|])) as Hc.
  destruct (next_ready_Some (length vec) vec me _ Hme Hc) as (c & E & _).
  { by apply steps_le. }
  unfold away_sleep. rewrite E. cbn [mbind option_bind]. eauto.
Qed.

(** For ready nodes the search does not depend on which of them searches. *)
Fixpoint first_ready (fuel : nat) (vec : list ti_node) (c : nat) : option nat :=
  match fuel with
  | O => None
  | S fuel =>
      let c := ((c + 1) mod length vec)%nat in
      n ← vec !! c;
      if node_status n =? TI_NODE_STAT_READY then Some c else first_ready fuel vec c
  end.

Definition is_ready (vec : list ti_node) (me : nat) : Prop :=
  exists n, vec !! me = Some n /\ node_status n = TI_NODE_STAT_READY.

Lemma next_ready_first f vec me c : is_ready vec me -> next_ready f vec me c = first_ready f vec c.
Proof.
  intros (n & Hn & Hst). revert c. induction f as [|f IH]; intros c; [done|]. cbn [next_ready first_ready].
  destruct (Nat.eqb_spec ((c + 1) mod length vec) me) as [->|Hne].
  - by rewrite Hn; cbn [mbind option_bind]; rewrite Hst, Z.eqb_refl.
  - destruct (vec !! ((c + 1) mod length vec)%nat) as [x|]; [|done]. cbn [mbind option_bind].
    destruct (node_status x =? TI_NODE_STAT_READY); [done|]. apply IH.
Qed.

(** The places of the ready nodes behind the node that is away. *)
Lemma away_sleep_ready vec me id :
  len vec <= NODES__MAX -> is_ready vec me ->
  exists c, first_ready (length vec) vec (index_of_id vec id 0 0) = Some c /\ (c < length vec)%nat /\
    away_sleep vec me id = Some (2500 + 17000 * Z.of_nat (if (me <? c)%nat then me + length vec - c else me - c)).
Proof.
  intros Hlen Hr. pose proof Hr as (n & Hn & _). pose proof (lookup_lt_Some _ _ _ Hn) as Hme.
  pose proof (index_of_id_range vec id ltac:(by destruct vec; [simpl in Hme; lia|])) as Hc0.
  destruct (next_ready_Some (length vec) vec me _ Hme Hc0) as (c & E & Hc).
  { by apply steps_le. }
  exists c. rewrite <- (next_ready_first _ _ me) by done. split; [done|]. split; [done|].
  unfold away_sleep. rewrite E. cbn [mbind option_bind]. f_equal. unfold len, NODES__MAX in Hlen.
  destruct (Nat.ltb_spec me c); rewrite u32_small; lia.
Qed.

(** ** Defined runs *)

Definition awp {A} (m : AM A) (s : away_world) (Q : A -> away_world -> Prop) : Prop :=
  exists a s', m s = Some (a, s') /\ Q a s'.

Lemma awp_ret {A} (a : A) s (Q : A -> away_world -> Prop) : Q a s -> awp (mret a) s Q.
Proof. intros HQ. by exists a, s. Qed.

Lemma awp_bind {A B} (m : AM A) (k : A -> AM B) s (Q : B -> away_world -> Prop) :
  awp m s (fun a s' => awp (k a) s' Q) -> awp (m ≫= k) s Q.
Proof. intros (a & s1 & E & b & s2 & E2 & HQ). exists b, s2. unfold mbind, AM_bind. by rewrite E, E2. Qed.

Lemma awp_mono {A} (m : AM A) s (Q Q' : A -> away_world -> Prop) :
  awp m s Q -> (forall a s', Q a s' -> Q' a s') -> awp m s Q'.
Proof. intros (a & s' & E & HQ) H. exists a, s'. auto. Qed.

Lemma awp_get s (Q : away_world -> away_world -> Prop) : Q s s -> awp aget s Q.
Proof. intros HQ. by exists s, s. Qed.

Lemma awp_assert (P : Prop) `{Decision P} s (Q : unit -> away_world -> Prop) : P -> Q tt s -> awp (aassert P) s Q.
Proof. intros HP HQ. exists tt, s. unfold aassert. by rewrite decide_True. Qed.

Lemma awp_away s a (Q : ti_away -> away_world -> Prop) : w_away s = Some a -> Q a s -> awp away_ s Q.
Proof. intros Ha HQ. unfold away_. apply awp_bind, awp_get. rewrite Ha. by apply awp_ret. Qed.

Lemma awp_this s n (Q : ti_node -> away_world -> Prop) : w_vec s !! w_me s = Some n -> Q n s -> awp this_node s Q.
Proof. intros Hn HQ. unfold this_node. apply awp_bind, awp_get. rewrite Hn. by apply awp_ret. Qed.

Ltac astep :=
  match goal with
  | |- awp (mret _) _ _ => apply awp_ret
  | |- awp (mbind _ _) _ _ => apply awp_bind
  | |- awp aget _ _ => apply awp_get
  | |- awp away_ _ _ => eapply awp_away; [first [eassumption|reflexivity]|]
  | |- awp this_node _ _ => eapply awp_this; [eassumption|]
  | |- awp (set_away _) _ _ => eexists _, _; split; [reflexivity|]
  | |- awp (set_waiter _) _ _ => eexists _, _; split; [reflexivity|]
  | |- awp (set_trigger _ _) _ _ => eexists _, _; split; [reflexivity|]
  | |- awp (set_work _) _ _ => eexists _, _; split; [reflexivity|]
  | |- awp (set_quorums _) _ _ => eexists _, _; split; [reflexivity|]
  | |- awp (set_vec _) _ _ => eexists _, _; split; [reflexivity|]
  | |- awp (set_flags _ _) _ _ => eexists _, _; split; [reflexivity|]
  | |- awp (set_status _) _ _ => unfold set_status
  | |- awp (set_counts _ _) _ _ => unfold set_counts
  | |- awp (set_sleep _ _) _ _ => unfold set_sleep
  | |- awp (set_syncers _) _ _ => unfold set_syncers
  end; cbv beta zeta; cbn [w_away w_waiter w_trigger w_repeat w_work w_quorums w_vec w_me w_signal w_shutdown
    aw_syncers aw_status aw_skip_count aw_wait_futures aw_node_id aw_sleep].

(** ** The invariant *)

Definition no_cb (l : list ti_quorum) : Prop := Forall (fun q => cb_ q = false) l.
Definition one_cb (l : list ti_quorum) : Prop :=
  exists i q, l !! i = Some q /\ cb_ q = true /\ forall j q', l !! j = Some q' -> j <> i -> cb_ q' = false.

(** The libuv objects that belong to a status. *)
Definition objects_ok (st : away__status) (w : waiter) (work : bool) (qs : list ti_quorum) : Prop :=
  match st with
  | AWAY__STATUS_INIT | AWAY__STATUS_IDLE => w = WNone /\ work = false /\ no_cb qs
  | AWAY__STATUS_ACCEPTED_INIT | AWAY__STATUS_ACCEPTED_IDLE =>
      (w = WNone \/ w = WTimer CbAccept \/ w = WClosing (Some CbAccept)) /\ work = false /\ no_cb qs
  | AWAY__STATUS_REQ_AWAY => w = WNone /\ work = false /\ one_cb qs
  | AWAY__STATUS_WAITING => (w = WTimer CbPre \/ w = WClosing (Some CbPre)) /\ work = false /\ no_cb qs
  | AWAY__STATUS_WORKING => w = WNone /\ work = true /\ no_cb qs
  | AWAY__STATUS_SYNCING => (w = WTimer CbAfter \/ w = WClosing (Some CbAfter)) /\ work = false /\ no_cb qs
  end.

Definition is_away (st : away__status) : Prop := st = AWAY__STATUS_WORKING \/ st = AWAY__STATUS_SYNCING.

(** The status this node shows to the others, as long as it is not stopping. *)
Definition shown_ok (st : away__status) (own : Z) : Prop :=
  match st with
  | AWAY__STATUS_WAITING => own = TI_NODE_STAT_AWAY_SOON
  | AWAY__STATUS_WORKING | AWAY__STATUS_SYNCING => own = TI_NODE_STAT_AWAY
  | _ => own <> TI_NODE_STAT_AWAY /\ own <> TI_NODE_STAT_AWAY_SOON
  end.

Definition streams (l : list ti_syncer) : list nat := omap sy_stream l.

Record away_ok_at (a : ti_away) (own : Z) (s : away_world) : Prop := {
  ao_objects : objects_ok (aw_status a) (w_waiter s) (w_work s) (w_quorums s);
  ao_shown : w_signal s = false -> shown_ok (aw_status a) own;
  ao_signal : w_signal s = true -> w_waiter s <> WClosing (Some CbPre);
  ao_shutdown : w_shutdown s = true -> w_signal s = true /\ ~ is_away (aw_status a);
  ao_counts : 0 <= aw_skip_count a <= AWAY__SKIP_COUNT /\ 1 <= aw_wait_futures a <= AWAY__WAIT_FUTURES;
  ao_streams : NoDup (streams (aw_syncers a))
}.

Definition away_ok (s : away_world) : Prop :=
  exists a me, w_away s = Some a /\ w_vec s !! w_me s = Some me /\ away_ok_at a (node_status me) s.

(** *** Quorums *)

Lemma quorum_count_cb this ans q : cb_ (quorum_count this ans q) = cb_ q.
Proof.
  destruct ans as [| |n from|]; simpl; try done.
  - by destruct n as [n|]; [destruct (negb (n =? requests q))|].
  - unfold ti_quorum_shrink_one. by destruct (negb (requests q =? 0)).
Qed.

Lemma quorum_shrink_cb k q : cb_ (quorum_shrink k q) = cb_ q.
Proof.
  revert q. induction k as [|k IH]; intros q; simpl; [done|]. rewrite IH. unfold ti_quorum_shrink_one.
  by destruct (negb (requests q =? 0)).
Qed.

Lemma quorum_new_cb vec : cb_ (ti_quorum_new vec) = true.
Proof. unfold ti_quorum_new, ti_quorum_shrink_one. by destruct (negb _). Qed.

(** The callback is called when it is cleared, and not again. *)
Lemma quorum_go_cb q :
  match ti_quorum_go q with
  | (cs, o) =>
      if cb_ q then (cs = [] /\ exists q', o = Some q' /\ cb_ q' = true) \/
                    (exists b, cs = [b] /\ forall q', o = Some q' -> cb_ q' = false)
      else cs = [] /\ forall q', o = Some q' -> cb_ q' = false
  end.
Proof.
  unfold ti_quorum_go. destruct (cb_ q) eqn:Hcb.
  - destruct (quorum_early q) as [b|].
    + destruct (_ <? _); right; exists b; simpl; split; try done. by intros q' [= <-].
    + destruct (_ <? _); [left; split; [done|]; by exists q|]. rewrite Hcb. right. by exists (quorum_final q).
  - destruct (_ <? _); [split; [done|]; by intros q' [= <-]|]. by rewrite Hcb.
Qed.

Lemma no_cb_app l o : no_cb l -> (forall q, o = Some q -> cb_ q = false) -> no_cb (l ++ option_list o).
Proof. intros Hl Ho. apply Forall_app. split; [done|]. destruct o as [q|]; simpl; [constructor; [by apply Ho|done]|done]. Qed.

Lemma one_cb_snoc l q : no_cb l -> cb_ q = true -> one_cb (l ++ [q]).
Proof.
  intros Hl Hq. exists (length l), q. split; [by rewrite lookup_app_r, Nat.sub_diag by lia|]. split; [done|].
  intros j q' Hj Hne. apply lookup_app_Some in Hj as [Hj|[Hlen Hj]]; [exact (Forall_lookup_1 _ _ _ _ Hl Hj)|].
  destruct (j - length l)%nat eqn:E; [lia|done].
Qed.

Definition update_at (i : nat) (o : option ti_quorum) (l : list ti_quorum) : list ti_quorum :=
  match o with Some q => <[i := q]> l | None => delete i l end.

Lemma update_no_cb l i o :
  (forall j q, l !! j = Some q -> j <> i -> cb_ q = false) -> (forall q, o = Some q -> cb_ q = false) -> no_cb (update_at i o l).
Proof.
  intros Hl Ho. apply Forall_lookup_2. intros j q Hj. destruct o as [q0|]; simpl in Hj.
  - apply list_lookup_insert_Some in Hj as [(-> & -> & _)|[Hne Hj]]; [by apply Ho|by apply (Hl j)].
  - destruct (decide (j < i)%nat).
    + rewrite list_lookup_delete_lt in Hj by done. apply (Hl j); [done|lia].
    + rewrite list_lookup_delete_ge in Hj by lia. apply (Hl (S j)); [done|lia].
Qed.

Lemma update_one_cb l i q q' :
  l !! i = Some q -> cb_ q' = true -> (forall j q0, l !! j = Some q0 -> j <> i -> cb_ q0 = false) -> one_cb (<[i := q']> l).
Proof.
  intros Hi Hq Hl. exists i, q'. split; [apply list_lookup_insert_eq; by eapply lookup_lt_Some|]. split; [done|].
  intros j q0 Hj Hne. rewrite list_lookup_insert_ne in Hj by done. by apply (Hl j).
Qed.

Lemma update_same_cb (st : away__status) (w : waiter) (work : bool) l i q q' :
  l !! i = Some q -> cb_ q = false -> (forall q0, q' = Some q0 -> cb_ q0 = false) ->
  objects_ok st w work l -> objects_ok st w work (update_at i q' l).
Proof.
  intros Hi Hq Hq'. assert (no_cb l -> no_cb (update_at i q' l)) as Hno.
  { intros Hl. apply update_no_cb; [|done]. intros j q0 Hj _. exact (Forall_lookup_1 _ _ _ _ Hl Hj). }
  assert (one_cb l -> one_cb (update_at i q' l)) as Hone.
  { intros (k & qk & Hk & Hcb & Hl). assert (k <> i) as Hki by congruence. destruct q' as [q0|]; simpl.
    - exists k, qk. rewrite list_lookup_insert_ne by done. split; [done|]. split; [done|]. intros j q1 Hj Hne.
      apply list_lookup_insert_Some in Hj as [(-> & -> & _)|[_ Hj]]; [by apply Hq'|by apply (Hl j)].
    - assert (delete i l !! (if decide (k < i)%nat then k else pred k) = Some qk) as Hk'.
      { destruct (decide (k < i)%nat); [by rewrite list_lookup_delete_lt|]. rewrite list_lookup_delete_ge by lia.
        by replace (S (pred k)) with k by lia. }
      eexists _, qk. split; [exact Hk'|]. split; [done|]. intros j q1 Hj Hne.
      destruct (decide (j < i)%nat).
      + rewrite list_lookup_delete_lt in Hj by done. apply (Hl j); [done|]. intros ->. apply Hne. by rewrite decide_True.
      + rewrite list_lookup_delete_ge in Hj by lia. apply (Hl (S j)); [done|]. intros <-. apply Hne.
        rewrite decide_False by lia. done. }
  unfold objects_ok. destruct st; naive_solver.
Qed.

(** ** Handlers *)

Lemma awp_set_away_node_id s a n id (Q : unit -> away_world -> Prop) :
  w_away s = Some a -> w_vec s !! w_me s = Some n ->
  (forall sl rep, Q tt (World (Some (Away (aw_syncers a) (aw_status a) (aw_skip_count a) (aw_wait_futures a) id sl))
    (w_waiter s) (w_trigger s) rep (w_work s) (w_quorums s) (w_vec s) (w_me s) (w_signal s) (w_shutdown s))) ->
  awp (ti_away_set_away_node_id id) s Q.
Proof.
  intros Ha Hn HQ. unfold ti_away_set_away_node_id. repeat astep. destruct (Z.eqb_spec id (aw_node_id a)) as [->|_].
  - astep. specialize (HQ (aw_sleep a) (w_repeat s)). destruct s, a; simpl in *. by simplify_eq.
  - repeat astep. unfold away__update_sleep. repeat astep.
    destruct (away_sleep_Some (w_vec s) (w_me s) id (lookup_lt_Some _ _ _ Hn)) as [sl E]. cbn [aw_node_id]. rewrite E.
    repeat astep. apply HQ.
Qed.

Lemma awp_reschedule s a n (Q : unit -> away_world -> Prop) :
  w_away s = Some a -> w_vec s !! w_me s = Some n ->
  (forall sl rep, Q tt (World (Some (Away (aw_syncers a) (aw_status a) (aw_skip_count a) (aw_wait_futures a) (aw_node_id a) sl))
    (w_waiter s) (w_trigger s) rep (w_work s) (w_quorums s) (w_vec s) (w_me s) (w_signal s) (w_shutdown s))) ->
  awp ti_away_reschedule s Q.
Proof.
  intros Ha Hn HQ. unfold ti_away_reschedule. repeat astep. unfold away__update_sleep. repeat astep.
  destruct (away_sleep_Some (w_vec s) (w_me s) (aw_node_id a) (lookup_lt_Some _ _ _ Hn)) as [sl E]. rewrite E.
  repeat astep. destruct (_ =? _); astep; apply HQ.
Qed.

Lemma awp_set_node_status s n st (Q : unit -> away_world -> Prop) :
  w_vec s !! w_me s = Some n ->
  Q tt (World (w_away s) (w_waiter s) (w_trigger s) (w_repeat s) (w_work s) (w_quorums s)
    (<[w_me s := with_status st n]> (w_vec s)) (w_me s) (w_signal s) (w_shutdown s)) ->
  awp (ti_set_node_status st) s Q.
Proof. intros Hn HQ. unfold ti_set_node_status. repeat astep. done. Qed.

Lemma awp_shutdown s n (Q : unit -> away_world -> Prop) :
  w_vec s !! w_me s = Some n -> w_shutdown s = false ->
  Q tt (World (w_away s) (w_waiter s) (w_trigger s) (w_repeat s) (w_work s) (w_quorums s)
    (<[w_me s := with_status TI_NODE_STAT_SHUTTING_DOWN n]> (w_vec s)) (w_me s) (w_signal s) true) ->
  awp ti_shutdown s Q.
Proof.
  intros Hn Hsh HQ. unfold ti_shutdown. astep. apply (awp_set_node_status _ n); [done|].
  astep. astep. astep. apply awp_assert; [done|]. astep. done.
Qed.

Lemma awp_waiter_init ok s (Q : bool -> away_world -> Prop) :
  w_waiter s = WNone ->
  Q ok (World (w_away s) (if ok then WInit else WNone) (w_trigger s) (w_repeat s) (w_work s) (w_quorums s) (w_vec s)
    (w_me s) (w_signal s) (w_shutdown s)) ->
  awp (waiter_init ok) s Q.
Proof.
  intros Hw HQ. unfold waiter_init. repeat astep. apply awp_assert; [by left|]. astep. destruct ok; astep; astep; [done|].
  rewrite <- Hw in HQ. by destruct s.
Qed.

Lemma awp_waiter_start cb s (Q : bool -> away_world -> Prop) :
  Q true (World (w_away s) (WTimer cb) (w_trigger s) (w_repeat s) (w_work s) (w_quorums s) (w_vec s)
    (w_me s) (w_signal s) (w_shutdown s)) ->
  awp (waiter_start cb true) s Q.
Proof. intros HQ. unfold waiter_start. repeat astep. done. Qed.

Lemma awp_waiter_close t cb s (Q : unit -> away_world -> Prop) :
  w_waiter s = WTimer t ->
  Q tt (World (w_away s) (WClosing cb) (w_trigger s) (w_repeat s) (w_work s) (w_quorums s) (w_vec s)
    (w_me s) (w_signal s) (w_shutdown s)) ->
  awp (waiter_close cb) s Q.
Proof. intros Hw HQ. unfold waiter_close. repeat astep. rewrite Hw. by astep. Qed.

Lemma own_set (vec : list ti_node) (me : nat) (n : ti_node) (st : Z) :
  vec !! me = Some n -> <[me := with_status st n]> vec !! me = Some (with_status st n).
Proof. intros Hn. apply list_lookup_insert_eq. by eapply lookup_lt_Some. Qed.

Lemma away_ok_intro a n s : w_away s = Some a -> w_vec s !! w_me s = Some n -> away_ok_at a (node_status n) s -> away_ok s.
Proof. intros Ha Hn Hok. by exists a, n. Qed.

(** Open the invariant; close it at a state that was reached. *)
Ltac open_ok H := destruct H as (a & me & Ha & Hme & [Hobj Hshown Hsig Hshut Hcnt Hstr]).
Ltac close_ok :=
  eapply away_ok_intro; [reflexivity|cbn [w_vec w_me]; first [eassumption|apply own_set; eassumption]|];
  constructor; cbn [w_away w_waiter w_trigger w_repeat w_work w_quorums w_vec w_me w_signal w_shutdown
    aw_syncers aw_status aw_skip_count aw_wait_futures aw_node_id aw_sleep with_status node_status].

Definition at_status (st : away__status) (a : ti_away) : ti_away :=
  Away (aw_syncers a) st (aw_skip_count a) (aw_wait_futures a) (aw_node_id a) (aw_sleep a).

(** The state in which the answer of a quorum is handled: the request is made and
    its callback is being called. *)
Definition deciding (s : away_world) : Prop :=
  exists a me, w_away s = Some a /\ w_vec s !! w_me s = Some me /\ aw_status a = AWAY__STATUS_REQ_AWAY /\
    away_ok_at (at_status AWAY__STATUS_IDLE a) (node_status me) s.

Lemma away_sent_ok s qs : away_ok s -> no_cb (w_quorums s) -> no_cb qs ->
  away_ok (World (w_away s) (w_waiter s) (w_trigger s) (w_repeat s) (w_work s) qs (w_vec s) (w_me s) (w_signal s) (w_shutdown s)).
Proof.
  intros Hok Hno Hqs. open_ok Hok. eapply away_ok_intro; [done|done|]. constructor; simpl; try done.
  destruct (aw_status a); cbn [objects_ok] in *; try by destruct Hobj as (? & ? & _).
  destruct Hobj as (_ & _ & i & q & Hi & Hq & _). pose proof (Forall_lookup_1 _ _ _ _ Hno Hi) as Hq'. simpl in Hq'. congruence.
Qed.

Lemma on_req_away_id_ok uv b s : start_ok uv = true -> deciding s ->
  awp (away__on_req_away_id uv b) s (fun _ s' => away_ok s' /\ w_quorums s' = w_quorums s).
Proof.
  intros Huv (a & me & Ha & Hme & Hst & [(Hw & Hwk & Hno) Hshown Hsig Hshut Hcnt Hstr]).
  assert (forall s', s' = World (Some (at_status AWAY__STATUS_IDLE a)) (w_waiter s) (w_trigger s) (w_repeat s) (w_work s)
    (w_quorums s) (w_vec s) (w_me s) (w_signal s) (w_shutdown s) -> away_ok s') as Hfail.
  { intros s' ->. by close_ok. }
  unfold away__on_req_away_id. destruct b; cbn [negb]; [|repeat astep; split; [by apply Hfail|done]].
  astep. apply awp_waiter_init; [done|]. destruct (init_ok uv); cbn [negb].
  2:{ repeat astep. split; [apply Hfail; by rewrite Hw|done]. }
  rewrite Huv. astep. apply awp_waiter_start. cbn [negb]. repeat astep.
  apply (awp_set_away_node_id _ a me); [done|done|]. intros sl rep. astep.
  apply (awp_set_node_status _ me); [done|]. repeat astep. split; [|done].
  close_ok; try done; [by split; [left|]|]. intros Hsh. split; [by apply Hshut|]. by intros [?|?].
Qed.

Lemma deciding_fail s : deciding s -> awp (set_status AWAY__STATUS_IDLE) s (fun _ s' => away_ok s').
Proof.
  intros (a & me & Ha & Hme & Hst & [(Hw & Hwk & Hno) Hshown Hsig Hshut Hcnt Hstr]). repeat astep. by close_ok.
Qed.

(** A quorum without an answer yet keeps this node waiting for it. *)
Lemma deciding_waits s qs : deciding s -> one_cb qs ->
  away_ok (World (w_away s) (w_waiter s) (w_trigger s) (w_repeat s) (w_work s) qs (w_vec s) (w_me s) (w_signal s) (w_shutdown s)).
Proof.
  intros (a & me & Ha & Hme & Hst & [(Hw & Hwk & Hno) Hshown Hsig Hshut Hcnt Hstr]) Hone.
  eapply away_ok_intro; [done|done|]. constructor; cbn [w_waiter w_work w_quorums w_signal w_shutdown]; try done; rewrite Hst; try done.
  intros H. split; [by apply Hshut|]. by intros [?|?].
Qed.

Lemma req_away_id_ok uv memory sent s : start_ok uv = true -> deciding s ->
  awp (away__req_away_id uv memory sent) s (fun _ s' => away_ok s').
Proof.
  intros Huv Hs. unfold away__req_away_id. destruct memory; cbn [negb]; [|by apply deciding_fail]. repeat astep.
  set (q := quorum_shrink _ _). pose proof (quorum_go_cb q) as Hgo. replace (cb_ q) with true in Hgo by (subst q; by rewrite quorum_shrink_cb, quorum_new_cb).
  destruct (ti_quorum_go q) as [cs o]. pose proof Hs as (a & me & Ha & Hme & Hst & Hok).
  destruct Hok as [(_ & _ & Hno) _ _ _ _ _]. destruct Hgo as [[-> (q' & -> & Hcb)]|(b & -> & Ho)]; cbn [quorum_callbacks].
  - repeat astep. apply deciding_waits; [done|]. by apply one_cb_snoc.
  - astep. astep. eapply awp_mono; [by apply on_req_away_id_ok|]. intros _ s' [Hok' Hqs]. repeat astep.
    apply away_sent_ok; [done|by rewrite Hqs|]. rewrite Hqs. by apply no_cb_app.
Qed.

Lemma objects_cb st w wk qs i q : objects_ok st w wk qs -> qs !! i = Some q -> cb_ q = true ->
  st = AWAY__STATUS_REQ_AWAY /\ w = WNone /\ wk = false /\ forall j q', qs !! j = Some q' -> j <> i -> cb_ q' = false.
Proof.
  intros Hobj Hi Hq. assert (~ no_cb qs) as Hn.
  { intros Hno. pose proof (Forall_lookup_1 _ _ _ _ Hno Hi) as Hq'. simpl in Hq'. congruence. }
  destruct st; cbn [objects_ok] in Hobj; try by destruct Hobj as (_ & _ & ?).
  destruct Hobj as (Hw & Hwk & k & qk & Hk & Hcb & Hothers). split; [done|]. split; [done|]. split; [done|].
  assert (k = i) as ->; [|done]. destruct (decide (k = i)) as [->|Hne]; [done|].
  rewrite (Hothers i q) in Hq; [done|done|done].
Qed.

Lemma answer_ok uv i ans s : start_ok uv = true -> away_ok s -> awp (away_answer uv i ans) s (fun _ s' => away_ok s').
Proof.
  intros Huv Hok. pose proof Hok as Hok'. open_ok Hok'. unfold away_answer. repeat astep.
  destruct (w_quorums s !! i) as [q|] eqn:Hq; [|by astep]. repeat astep.
  unfold ti_quorum_req_cb. set (q1 := quorum_count _ _ _). pose proof (quorum_go_cb q1) as Hgo.
  replace (cb_ q1) with (cb_ q) in Hgo by (subst q1; by rewrite quorum_count_cb).
  destruct (ti_quorum_go q1) as [cs o]. fold (update_at i o (w_quorums s)). repeat astep. destruct (cb_ q) eqn:Hcb.
  - destruct (objects_cb _ _ _ _ _ _ Hobj Hq Hcb) as (Hst & Hw & Hwk & Hothers). rewrite Hst in Hshown, Hshut.
    assert (forall qs, no_cb qs -> deciding (World (w_away s) (w_waiter s) (w_trigger s) (w_repeat s) (w_work s) qs (w_vec s)
      (w_me s) (w_signal s) (w_shutdown s))) as Hdec.
    { intros qs Hno. exists a, me. split; [done|]. split; [done|]. split; [done|]. constructor; cbn; try done.
      intros H. split; [by apply Hshut|]. by intros [?|?]. }
    destruct Hgo as [[-> (q' & -> & Hcb')]|(b & -> & Ho)]; cbn [quorum_callbacks]; repeat astep.
    + apply (deciding_waits _ _ (Hdec [] (List.Forall_nil _))). by eapply update_one_cb.
    + eapply awp_mono; [apply on_req_away_id_ok; [done|]; apply Hdec; by apply update_no_cb|].
      intros _ s' [Hok' _]. by astep.
  - destruct Hgo as [-> Ho]. cbn [quorum_callbacks]. astep. eapply away_ok_intro; [done|done|].
    constructor; cbn [w_waiter w_work w_quorums w_signal w_shutdown]; try done. by eapply update_same_cb.
Qed.

(** A state in which only the schedule differs keeps the invariant. *)
Lemma away_resched_ok s b id sl tr rep : away_ok s -> w_away s = Some b ->
  away_ok (World (Some (Away (aw_syncers b) (aw_status b) (aw_skip_count b) (aw_wait_futures b) id sl))
    (w_waiter s) tr rep (w_work s) (w_quorums s) (w_vec s) (w_me s) (w_signal s) (w_shutdown s)).
Proof. intros Hok Hb. open_ok Hok. rewrite Ha in Hb. injection Hb as <-. by close_ok. Qed.

Lemma set_away_node_id_ok id s : away_ok s -> awp (ti_away_set_away_node_id id) s (fun _ s' => away_ok s').
Proof.
  intros Hok. pose proof Hok as (a & me & Ha & Hme & _). apply (awp_set_away_node_id _ a me); [done|done|].
  intros sl rep. by apply away_resched_ok.
Qed.

Lemma reschedule_ok s : away_ok s -> awp ti_away_reschedule s (fun _ s' => away_ok s').
Proof.
  intros Hok. pose proof Hok as (a & me & Ha & Hme & _). apply (awp_reschedule _ a me); [done|done|].
  intros sl rep. by apply away_resched_ok.
Qed.

Lemma trigger_ok e s : start_ok (te_uv e) = true -> away_ok s -> awp (away__trigger_cb e) s (fun _ s' => away_ok s').
Proof.
  intros Huv Hok. unfold away__trigger_cb. repeat astep. destruct (len (w_vec s) =? 1); [by astep|].
  pose proof Hok as Hok'. open_ok Hok'. repeat astep. destruct (decide (aw_status a <> AWAY__STATUS_IDLE)) as [|Hst]; [by astep|].
  apply dec_stable in Hst. repeat astep. destruct (negb (node_status me =? TI_NODE_STAT_READY)); [by astep|].
  destruct (decide (_ = AWAY__SEVERITY_NONE)) as [_|_]; [by astep|].
  destruct (ti_nodes_get_away_or_soon (w_vec s)) as [[k n]|]; [by apply set_away_node_id_ok|].
  destruct (negb (ti_nodes_has_quorum (w_vec s))); [by astep|].
  destruct (_ && negb (away__has_major_severity (w_vec s) e)) eqn:Hskip.
  - repeat astep. close_ok; try done. destruct Hcnt as [Hsk Hwf]. split; [|done].
    apply andb_prop in Hskip as [Hskip _]. apply andb_prop in Hskip as [_ Hskip]. apply negb_true_iff, Z.eqb_neq in Hskip.
    unfold AWAY__SKIP_COUNT in *. rewrite u8_small; lia.
  - repeat astep. apply req_away_id_ok; [done|]. rewrite Hst in *. destruct Hobj as (Hw & Hwk & Hno).
    exists (at_status AWAY__STATUS_REQ_AWAY a), me. split; [done|]. split; [done|]. split; [done|]. by constructor.
Qed.

(** What the waiter is used for determines the status. *)
Definition cb_status (cb : waiter_cb) (st : away__status) : Prop :=
  match cb with
  | CbAccept => exists st', release_status st = Some st'
  | CbPre => st = AWAY__STATUS_WAITING
  | CbAfter => st = AWAY__STATUS_SYNCING
  end.

Lemma objects_waiter st cb w wk qs : w = WTimer cb \/ w = WClosing (Some cb) -> objects_ok st w wk qs ->
  cb_status cb st /\ wk = false /\ no_cb qs.
Proof. intros [-> | ->]; destruct st, cb; cbn; generalize (no_cb qs) (one_cb qs); intuition (eauto || congruence). Qed.

Lemma objects_close st cb wk qs : objects_ok st (WTimer cb) wk qs -> objects_ok st (WClosing (Some cb)) wk qs.
Proof. destruct st, cb; cbn; generalize (no_cb qs) (one_cb qs); intuition congruence. Qed.

Lemma waiter_closes_ok cb s : away_ok s -> w_waiter s = WTimer cb -> (cb = CbPre -> w_signal s = false) ->
  awp (waiter_close (Some cb)) s (fun _ s' => away_ok s').
Proof.
  intros Hok Hw Hpre. open_ok Hok. apply (awp_waiter_close cb); [done|]. eapply away_ok_intro; [done|done|].
  constructor; cbn [w_waiter w_work w_quorums w_signal w_shutdown]; try done.
  - apply objects_close. by rewrite <- Hw.
  - intros Hs [= ->]. by rewrite Hpre in Hs.
Qed.

Lemma set_counts_ok skip wait s : away_ok s -> 0 <= skip <= AWAY__SKIP_COUNT -> 1 <= wait <= AWAY__WAIT_FUTURES ->
  awp (set_counts skip wait) s (fun _ s' => away_ok s' /\ w_waiter s' = w_waiter s /\ w_signal s' = w_signal s).
Proof. intros Hok Hs Hw. open_ok Hok. repeat astep. split; [by close_ok|done]. Qed.

Lemma waiter_fires_ok changes futures s : away_ok s -> awp (away_event (EvWaiter changes futures)) s (fun _ s' => away_ok s').
Proof.
  intros Hok. unfold away_event. repeat astep. pose proof Hok as Hok'. open_ok Hok'. destruct Hcnt as [Hsk Hwf].
  destruct (w_waiter s) as [| |[]|] eqn:Hw; try by astep.
  - by apply waiter_closes_ok.
  - unfold away__waiter_pre_cb. repeat astep. destruct (negb (futures =? 0)).
    + eapply awp_mono; [apply set_counts_ok; [done|done|]|by intros _ s' (? & _)].
      unfold AWAY__WAIT_FUTURES in *. rewrite u8_small by lia. destruct (Z.eqb_spec (aw_wait_futures a - 1) 0); lia.
    + destruct (negb (changes =? 0)); [by astep|]. astep.
      eapply awp_mono; [by apply set_counts_ok|]. intros _ s' (Hok' & Hw' & Hs').
      destruct (w_signal s) eqn:Hs; [by astep|]. apply waiter_closes_ok; [done|by rewrite Hw'|done].
  - unfold away__waiter_after_cb. repeat astep.
    destruct (objects_waiter _ CbAfter _ _ _ (or_introl eq_refl) Hobj) as [Hst _].
    apply awp_assert; [done|]. repeat astep. destruct (negb (changes =? 0)); [by astep|].
    destruct (negb (away__syncers (aw_syncers a) =? 0)); [by astep|]. by apply waiter_closes_ok.
Qed.

(** The end of away mode. *)
Lemma done_ok a me s : w_away s = Some a -> w_vec s !! w_me s = Some me ->
  aw_status a = AWAY__STATUS_IDLE -> w_waiter s = WNone -> w_work s = false -> no_cb (w_quorums s) -> w_shutdown s = false ->
  (0 <= aw_skip_count a <= AWAY__SKIP_COUNT /\ 1 <= aw_wait_futures a <= AWAY__WAIT_FUTURES) -> NoDup (streams (aw_syncers a)) ->
  awp away__done s (fun _ s' => away_ok s').
Proof.
  intros Ha Hme Hst Hw Hwk Hno Hsh Hcnt Hstr. unfold away__done. repeat astep.
  assert (forall st sh, (w_signal s = false -> shown_ok AWAY__STATUS_IDLE st) -> (sh = true -> w_signal s = true) ->
    away_ok (World (w_away s) (w_waiter s) (w_trigger s) (w_repeat s) (w_work s) (w_quorums s)
      (<[w_me s := with_status st me]> (w_vec s)) (w_me s) (w_signal s) sh)) as Hok.
  { intros st sh Hshown Hsig. eapply away_ok_intro; [done|by apply own_set|]. constructor; cbn; rewrite ?Hst, ?Hw; try done.
    intros ->. split; [by apply Hsig|]. by intros [?|?]. }
  destruct (w_signal s) eqn:Hs; [apply (awp_shutdown _ me)|apply (awp_set_node_status _ me)]; try done; rewrite Hs; apply Hok; try done.
  by rewrite Hsh.
Qed.

Lemma waiter_closed_ok queued s : away_ok s -> awp (away_event (EvWaiterClosed queued)) s (fun _ s' => away_ok s').
Proof.
  intros Hok. unfold away_event. repeat astep. pose proof Hok as Hok'. open_ok Hok'.
  destruct (w_waiter s) as [| | |[cb|]] eqn:Hw; try by astep.
  2:{ exfalso. destruct (aw_status a); cbn in Hobj; naive_solver. }
  destruct (objects_waiter _ cb _ _ _ (or_intror eq_refl) Hobj) as (Hst & Hwk & Hno). repeat astep.
  destruct cb; cbn [cb_status] in Hst.
  - destruct Hst as [st' Hst]. unfold away__accept_close_cb. repeat astep. rewrite Hst. repeat astep.
    destruct (aw_status a) eqn:Ea; try discriminate Hst; injection Hst as <-; (close_ok; [done|done|done| |done|done]);
      intros H; (split; [by apply Hshut|by intros [?|?]]).
  - rewrite Hst in Hshown, Hshut. assert (w_signal s = false) as Hsg by (destruct (w_signal s); [by destruct Hsig|done]).
    unfold away__waiter_pre_close_cb. repeat astep.
    destruct queued; cbn [negb]; repeat astep; (apply (awp_set_node_status _ me); [done|]); close_ok; try done.
    + intros Hsh. destruct (Hshut Hsh). congruence.
    + intros Hsh. destruct (Hshut Hsh). congruence.
  - rewrite Hst in Hshown, Hshut. unfold away__waiter_after_close_cb. repeat astep.
    apply (done_ok (at_status AWAY__STATUS_IDLE a) me); try done. destruct (w_shutdown s); [|done].
    destruct Hshut as [_ []]; [done|]. by right.
Qed.

Lemma work_done_ok uv s : start_ok uv = true -> away_ok s -> awp (away_event (EvWorkDone uv)) s (fun _ s' => away_ok s').
Proof.
  intros Huv Hok. unfold away_event. repeat astep. pose proof Hok as Hok'. open_ok Hok'.
  destruct (w_work s) eqn:Hwk; [|by astep].
  assert (aw_status a = AWAY__STATUS_WORKING /\ w_waiter s = WNone /\ no_cb (w_quorums s)) as (Hst & Hw & Hno).
  { destruct (aw_status a); cbn in Hobj; destruct Hobj as (? & ? & ?); try congruence. done. }
  rewrite Hst in Hshown, Hshut. destruct Hcnt as [Hsk Hwf].
  assert (w_shutdown s = false) as Hsh by (destruct (w_shutdown s); [destruct Hshut as [_ []]; [done|by left]|done]).
  unfold away__work_finish. repeat astep. apply awp_waiter_init; [done|]. destruct (init_ok uv); cbn [negb].
  - rewrite Huv. astep. apply awp_waiter_start. cbn [negb]. repeat astep. close_ok; try done.
    + by split; [left|].
    + by rewrite Hsh.
  - repeat astep. by eapply done_ok.
Qed.

Lemma accept_node_id_ok uv id s a : start_ok uv = true -> away_ok s -> w_away s = Some a ->
  aw_status a = AWAY__STATUS_INIT \/ aw_status a = AWAY__STATUS_IDLE ->
  awp (away__accept_node_id uv id) s (fun _ s' => away_ok s').
Proof.
  intros Huv (b & me & Hb & Hme & [Hobj Hshown Hsig Hshut Hcnt Hstr]) Ha Hst. rewrite Ha in Hb. injection Hb as <-.
  assert (w_waiter s = WNone /\ w_work s = false /\ no_cb (w_quorums s)) as (Hw & Hwk & Hno) by (by destruct Hst as [E|E]; rewrite E in Hobj).
  assert (forall st w sl rep, accept_status (aw_status a) = Some st -> w = WNone \/ w = WTimer CbAccept ->
    away_ok (World (Some (Away (aw_syncers a) st (aw_skip_count a) (aw_wait_futures a) id sl)) w (w_trigger s) rep (w_work s)
      (w_quorums s) (w_vec s) (w_me s) (w_signal s) (w_shutdown s))) as Hok.
  { intros st w sl rep E Hw'. destruct Hst as [Est|Est]; rewrite Est in *; injection E as <-; close_ok; try done.
    all: try (intros Hsh; split; [by apply Hshut|by intros [?|?]]).
    all: try (by destruct Hw' as [-> | ->]).
    all: split; [destruct Hw'; [by left|by right; left]|done]. }
  unfold away__accept_node_id. repeat astep. destruct (accept_status (aw_status a)) as [st|] eqn:E.
  2:{ by destruct Hst as [Est|Est]; rewrite Est in E. }
  repeat astep. eapply awp_set_away_node_id; [done|done|]. intros sl rep. astep. apply awp_waiter_init; [done|].
  destruct (init_ok uv); cbn [negb]; rewrite ?Huv; repeat astep; [apply awp_waiter_start; repeat astep|]; apply Hok; auto.
Qed.

Lemma request_ok uv id s : start_ok uv = true -> away_ok s -> awp (nodes__on_req_away uv id) s (fun _ s' => away_ok s').
Proof.
  intros Huv Hok. pose proof Hok as (a & me & Ha & Hme & _). unfold nodes__on_req_away. repeat astep.
  destruct (node_status me <? TI_NODE_STAT_SHUTTING_DOWN); [by astep|]. astep. unfold ti_away_accept. repeat astep.
  assert (forall o, awp (match o with Some n => ti_away_set_away_node_id (node_id n) | None => mret tt end) s
    (fun _ s' => away_ok s')) as Hset.
  { intros [n|]; [by apply set_away_node_id_ok|by astep]. }
  destruct (aw_status a) eqn:Hst; astep.
  1,2: eapply awp_mono; [eapply (accept_node_id_ok uv id s a); auto|intros [] s' ?; by repeat astep].
  all: repeat astep; eapply awp_mono; [first [apply Hset|by apply set_away_node_id_ok]|]; intros [] s' Hs'; pose proof Hs' as (a' & me' & Ha' & _); by repeat astep.
Qed.

Lemma node_update_ok i st s : i <> w_me s -> away_ok s -> awp (node_status_update i st) s (fun _ s' => away_ok s').
Proof.
  intros Hi Hok. unfold node_status_update. repeat astep. destruct (w_vec s !! i) as [n|] eqn:Hn; [|by astep]. repeat astep.
  match goal with |- awp _ ?s0 _ => assert (away_ok s0) as Hok0 end.
  { open_ok Hok. eapply away_ok_intro; [exact Ha|cbn; rewrite list_lookup_insert_ne by done; exact Hme|by constructor]. }
  match goal with |- awp ?m ?s0 _ => assert (awp m s0 (fun _ s' => away_ok s')) as Hfst end.
  { destruct (st =? TI_NODE_STAT_AWAY); [by apply set_away_node_id_ok|by astep]. }
  eapply awp_mono; [exact Hfst|]. intros [] s' Hs'. destruct (st =? TI_NODE_STAT_SHUTTING_DOWN); [by apply reschedule_ok|by astep].
Qed.

Lemma signal_ok s : w_waiter s <> WClosing (Some CbPre) -> away_ok s -> awp signals__handler s (fun _ s' => away_ok s').
Proof.
  intros Hw Hok. unfold signals__handler. repeat astep. destruct (w_signal s) eqn:Hs; [by astep|]. open_ok Hok.
  rewrite Hs in *. assert (w_shutdown s = false) as Hsh by (destruct (w_shutdown s); [by destruct Hshut|done]).
  repeat astep. destruct (Z.eqb_spec (node_status me) TI_NODE_STAT_AWAY) as [E|E]; cbn [negb].
  - astep. eapply away_ok_intro; [exact Ha|exact Hme|]. constructor; cbn; try done. by rewrite Hsh.
  - apply (awp_shutdown _ me); [done|done|]. eapply away_ok_intro; [exact Ha|by apply own_set|].
    constructor; cbn; try done. intros _. split; [done|]. specialize (Hshown eq_refl). by intros [H|H]; rewrite H in Hshown.
Qed.

(** *** Syncers *)

Lemma syncer_find_spec l stream : forall i empty,
  match syncer_find l stream i empty with
  | inl j => exists k y, j = (i + k)%nat /\ l !! k = Some y /\ sy_stream y = Some stream
  | inr o => stream ∉ streams l /\ forall j, o = Some j -> empty = Some j \/ exists k y, j = (i + k)%nat /\ l !! k = Some y /\ sy_stream y = None
  end.
Proof.
  induction l as [|y l IH]; intros i empty; cbn [syncer_find].
  { split; [by apply not_elem_of_nil|]. intros j ->. by left. }
  destruct (decide (sy_stream y = Some stream)) as [E|E].
  { exists 0%nat, y. split; [lia|done]. }
  specialize (IH (S i) (match sy_stream y with None => Some i | Some _ => empty end)).
  destruct (syncer_find l stream (S i) _) as [j|o].
  - destruct IH as (k & y' & -> & Hk & Hy). exists (S k), y'. split; [lia|done].
  - destruct IH as [Hnot Ho]. split.
    + unfold streams. cbn [omap list_omap]. destruct (sy_stream y) as [st|] eqn:Ey; [|done]. apply not_elem_of_cons. split; [congruence|done].
    + intros j Hj. destruct (Ho j Hj) as [He|(k & y' & -> & Hk & Hy)]; [|right; exists (S k), y'; split; [lia|done]].
      destruct (sy_stream y) eqn:Ey; [by left|]. right. exists 0%nat, y. injection He as <-. split; [lia|done].
Qed.

Lemma streams_app l1 l2 : streams (l1 ++ l2) = streams l1 ++ streams l2.
Proof. apply omap_app. Qed.

Lemma streams_middle l i y : l !! i = Some y ->
  streams l = streams (take i l) ++ option_list (sy_stream y) ++ streams (drop (S i) l).
Proof.
  intros Hi. rewrite <- (take_drop_middle l i y Hi) at 1. rewrite streams_app. f_equal. unfold streams.
  cbn [omap list_omap]. by destruct (sy_stream y).
Qed.

Lemma streams_insert l i y y' : l !! i = Some y ->
  streams (<[i := y']> l) = streams (take i l) ++ option_list (sy_stream y') ++ streams (drop (S i) l).
Proof.
  intros Hi. pose proof (lookup_lt_Some _ _ _ Hi) as Hlt. rewrite (streams_middle _ i y') by (by apply list_lookup_insert_eq).
  rewrite take_insert_ge by lia. by rewrite drop_insert_lt by lia.
Qed.

(** A stream that asks to synchronise is listed once. *)
Lemma ti_away_syncer_streams c p ls stream first l rc l' :
  ti_away_syncer c p ls stream first l = (rc, l') ->
  (rc = 0 /\ (stream ∈ streams l /\ streams l' = streams l \/ stream ∉ streams l /\ streams l' ≡ₚ stream :: streams l))
  \/ (rc = -1 /\ stream ∉ streams l /\ streams l' = streams l).
Proof.
  unfold ti_away_syncer. pose proof (syncer_find_spec l stream 0 None) as Hf. destruct (syncer_find l stream 0 None) as [i|[i|]].
  - intros [= <- <-]. destruct Hf as (k & y & -> & Hk & Hy). left. split; [done|]. left. simpl.
    rewrite (streams_insert _ _ _ _ Hk), (streams_middle _ _ _ Hk), Hy. split; [|done]. simpl. set_solver.
  - destruct Hf as [Hnot Ho]. destruct (Ho i eq_refl) as [[=]|(k & y & -> & Hk & Hy)]. simpl.
    destruct ls; intros [= <- <-]; rewrite (streams_insert _ _ _ _ Hk); rewrite (streams_middle _ _ _ Hk), Hy in *; simpl in *.
    + left. split; [done|]. right. split; [done|]. by rewrite Permutation_middle.
    + by right.
  - destruct Hf as [Hnot _]. destruct c; cbn [negb]; [|intros [= <- <-]; by right]. destruct p; cbn [negb]; [|intros [= <- <-]; by right].
    destruct ls; intros [= <- <-]; rewrite streams_app; simpl.
    + left. split; [done|]. right. split; [done|]. by rewrite Permutation_app_comm.
    + right. by rewrite app_nil_r.
Qed.

Lemma syncer_swap_remove_delete i l : (i < length l)%nat -> syncer_swap_remove i l ≡ₚ delete i l.
Proof.
  intros Hi. destruct (list.last l) as [y|] eqn:Hl; unfold syncer_swap_remove; rewrite Hl; [|by apply last_None in Hl as ->].
  apply last_Some in Hl as [l' ->]. rewrite length_app in *. simpl in *. replace (pred (length l' + 1)) with (length l') by lia.
  destruct (decide (i = length l')) as [->|Hne].
  - rewrite insert_app_r_alt, Nat.sub_diag by lia. simpl. rewrite take_app_length. rewrite delete_take_drop.
    rewrite take_app_length, drop_ge by (rewrite length_app; simpl; lia). by rewrite app_nil_r.
  - rewrite insert_app_l by lia. rewrite take_app_le, take_ge by (rewrite length_insert; lia).
    destruct (lookup_lt_is_Some_2 l' i ltac:(lia)) as [x Hx].
    rewrite delete_take_drop, take_app_le, drop_app_le by lia. rewrite (insert_take_drop l' i y) by lia.
    transitivity (y :: take i l' ++ drop (S i) l'); [symmetry; apply Permutation_middle|].
    rewrite app_assoc. apply (Permutation_app_comm [y]).
Qed.

Lemma filter_not_in (x : nat) (l : list nat) : x ∉ l -> filter (fun y => y <> x) l = l.
Proof.
  induction l as [|y l IH]; [done|]. intros Hn. apply not_elem_of_cons in Hn as [Hy Hn].
  rewrite filter_cons_True by congruence. by rewrite IH.
Qed.

(** A stream that is done leaves, and no other one. *)
Lemma ti_away_syncer_done_streams stream l : NoDup (streams l) ->
  streams (ti_away_syncer_done stream l) ≡ₚ filter (fun st => st <> stream) (streams l).
Proof.
  intros Hnd. unfold ti_away_syncer_done. pose proof (syncer_find_spec l stream 0 None) as Hf. destruct (syncer_find l stream 0 None) as [i|o].
  - destruct Hf as (k & y & -> & Hk & Hy). simpl. unfold streams at 1.
    rewrite (omap_Permutation _ _ _ (syncer_swap_remove_delete k l (lookup_lt_Some _ _ _ Hk))).
    fold (streams (delete k l)). rewrite delete_take_drop, streams_app. rewrite (streams_middle _ _ _ Hk), Hy in *. simpl in *.
    apply NoDup_app in Hnd as (_ & H1 & H2). apply NoDup_cons in H2 as [H2 _].
    rewrite filter_app, filter_cons_False by (by intros []).
    rewrite !filter_not_in; [done|done|set_solver].
  - destruct Hf as [Hnot _]. by rewrite filter_not_in.
Qed.

Lemma syncer_gone_streams stream l : streams (syncer_gone stream l) = filter (fun st => st <> stream) (streams l).
Proof.
  induction l as [|[[st|] first] l IH]; [done| |exact IH]. unfold syncer_gone, streams in *.
  cbn [fmap list_fmap omap list_omap sy_stream]. destruct (decide (Some st = Some stream)) as [[= ->]|E].
  - rewrite filter_cons_False by (by intros []). exact IH.
  - rewrite filter_cons_True by congruence. cbn [sy_stream]. by f_equal.
Qed.

(** ** Events *)

(** What the environment keeps to: starting a timer that was just initialised
    does not fail; other nodes do not report the status of this one; the rest of
    the program changes the status of this node only while the module is idle;
    [ti_away_start] is called once, and no stop signal is handled between the
    closing of the waiter before the work and its callback. *)
Definition event_ok (ev : aevent) (s : away_world) : Prop :=
  match ev with
  | EvTrigger e => start_ok (te_uv e) = true
  | EvAnswer uv _ _ | EvWorkDone uv | EvRequest uv _ => start_ok uv = true
  | EvStart uv => start_ok uv = true /\ exists a, w_away s = Some a /\ aw_status a = AWAY__STATUS_INIT
  | EvNode i _ => i <> w_me s
  | EvOwn st =>
      w_signal s = true \/
      exists a, w_away s = Some a /\ shown_ok (aw_status a) st
  | EvSignal => w_waiter s <> WClosing (Some CbPre)
  | EvStop => False
  | EvWaiter _ _ | EvWaiterClosed _ | EvSyncer _ _ _ _ _ | EvSyncerDone _ | EvStreamGone _ => True
  end.

Lemma set_syncers_ok l s b : away_ok s -> w_away s = Some b -> NoDup (streams l) ->
  away_ok (World (Some (Away l (aw_status b) (aw_skip_count b) (aw_wait_futures b) (aw_node_id b) (aw_sleep b)))
    (w_waiter s) (w_trigger s) (w_repeat s) (w_work s) (w_quorums s) (w_vec s) (w_me s) (w_signal s) (w_shutdown s)).
Proof. intros Hok Hb Hnd. open_ok Hok. rewrite Ha in Hb. injection Hb as <-. by close_ok. Qed.

Lemma start_away_ok uv s : event_ok (EvStart uv) s -> away_ok s -> awp (ti_away_start uv) s (fun _ s' => away_ok s').
Proof.
  intros [Huv (b & Hb & Hst)] Hok. open_ok Hok. rewrite Ha in Hb. injection Hb as <-. unfold ti_away_start. repeat astep.
  apply awp_assert; [done|]. unfold away__reset_sleep. repeat astep.
  destruct (w_vec s) as [|n vec] eqn:Hvec; [done|]. repeat astep. unfold away__update_sleep. repeat astep. rewrite Hvec.
  destruct (away_sleep_Some (n :: vec) (w_me s) (node_id n) (lookup_lt_Some _ _ _ Hme)) as [sl E]. rewrite E. repeat astep.
  rewrite Hst in *. destruct (init_ok uv); cbn [negb]; rewrite ?Huv; cbn [negb]; repeat astep; close_ok; try done; rewrite ?Hvec; try done.
  all: intros Hsh; split; [by apply Hshut|by intros [?|?]].
Qed.

Lemma own_ok st s : event_ok (EvOwn st) s -> away_ok s -> awp (ti_set_node_status st) s (fun _ s' => away_ok s').
Proof.
  intros Hev Hok. open_ok Hok. apply (awp_set_node_status _ me); [done|]. eapply away_ok_intro; [exact Ha|by apply own_set|].
  constructor; cbn; try done. intros Hs. destruct Hev as [Hev|(b & Hb & Hev)]; [congruence|].
  rewrite Ha in Hb. by injection Hb as <-.
Qed.

Lemma event_keeps_ok ev s : event_ok ev s -> away_ok s -> awp (away_event ev) s (fun _ s' => away_ok s').
Proof.
  intros Hev Hok. pose proof Hok as Hok'. open_ok Hok'. destruct ev.
  3: by apply waiter_fires_ok. 3: by apply waiter_closed_ok. 3: by apply work_done_ok.
  all: unfold away_event; repeat astep.
  - destruct (w_trigger s); [by apply trigger_ok|by astep].
  - by apply answer_ok.
  - eapply awp_mono; [by apply request_ok|]. intros ? s' ?. by astep.
  - by apply node_update_ok.
  - by apply own_ok.
  - by apply signal_ok.
  - apply set_syncers_ok; [done|done|]. destruct (ti_away_syncer _ _ _ _ _ _) as [rc l'] eqn:E.
    apply ti_away_syncer_streams in E as [[_ [[_ E]|[Hn E]]]|(_ & _ & E)]; simpl; rewrite E; [done| |done].
    by apply NoDup_cons.
  - apply set_syncers_ok; [done|done|]. rewrite ti_away_syncer_done_streams by done. by apply NoDup_filter.
  - apply set_syncers_ok; [done|done|]. rewrite syncer_gone_streams. by apply NoDup_filter.
  - eapply awp_mono; [by apply start_away_ok|]. intros ? s' ?. by astep.
  - done.
Qed.
