(* ===== verification/AwayProps.v ===== *)
(** * Properties of the away module *)
From Stdlib Require Import ZArith Lia.
From stdpp Require Import base list option numbers sets.
From S2P Require Import Prelude Nodes Quorum Away AwayProof.

(** ** Every sequence of events *)

(** The module as [ti_away_create] leaves it. *)
Definition away_fresh (vec : list ti_node) (me : nat) : away_world :=
  World (Some ti_away_create) WNone false 0 false [] vec me false false.

(** The events keep to [event_ok] in the states they meet. *)
Fixpoint events_ok (l : list aevent) (s : away_world) : Prop :=
  match l with
  | [] => True
  | ev :: l => event_ok ev s /\ forall s', away_event ev s = Some (tt, s') -> events_ok l s'
  end.

Lemma events_keep_ok l s : away_ok s -> events_ok l s -> awp (away_events l) s (fun _ s' => away_ok s').
Proof.
  revert s. induction l as [|ev l IH]; intros s Hok Hl; cbn [away_events]; [by astep|]. destruct Hl as [Hev Hl]. astep.
  destruct (event_keeps_ok ev s Hev Hok) as ([] & s' & E & Hok'). exists tt, s'. split; [done|]. apply IH; [done|by apply Hl].
Qed.

Lemma away_fresh_ok vec me n : vec !! me = Some n ->
  node_status n <> TI_NODE_STAT_AWAY -> node_status n <> TI_NODE_STAT_AWAY_SOON -> away_ok (away_fresh vec me).
Proof.
  intros Hn H1 H2. apply (away_ok_intro ti_away_create n); [done|done|]. constructor; cbn; try done.
  - split; [done|]. split; [done|]. by apply List.Forall_nil.
  - by apply NoDup_nil.
Qed.

(** ** Answers to two requests *)

Definition requesting (id : Z) (s : away_world) : Prop :=
  exists a me, w_away s = Some a /\ w_vec s !! w_me s = Some me /\ node_id me = id /\ aw_status a = AWAY__STATUS_REQ_AWAY.

Definition busy (st : away__status) : Prop :=
  st = AWAY__STATUS_REQ_AWAY \/ st = AWAY__STATUS_WAITING \/ st = AWAY__STATUS_WORKING \/ st = AWAY__STATUS_SYNCING.
Definition accepted_one (st : away__status) : Prop := st = AWAY__STATUS_ACCEPTED_INIT \/ st = AWAY__STATUS_ACCEPTED_IDLE.

(** The node stands by the node [id]. *)
Definition stands_by (id : Z) (s : away_world) : Prop :=
  exists a me, w_away s = Some a /\ w_vec s !! w_me s = Some me /\
    ((accepted_one (aw_status a) /\ ti_nodes_get_away_or_soon (w_vec s) = None /\ aw_node_id a = id) \/
     (busy (aw_status a) /\ node_id me = id)).

Lemma request_stands_by uv id r s : stands_by r s -> r <> id ->
  awp (nodes__on_req_away uv id) s (fun ans _ => ans = AnsReject \/ ans = AnsError).
Proof.
  intros (a & me & Ha & Hme & Hcase) Hne. unfold nodes__on_req_away. repeat astep.
  destruct (node_status me <? TI_NODE_STAT_SHUTTING_DOWN); [astep; by right|]. astep. unfold ti_away_accept. repeat astep.
  destruct Hcase as [(Hst & Hno & Hid)|[Hst Hid]].
  - assert (forall b, b = (aw_node_id a =? id) -> (if b then AnsAccept else AnsReject) = AnsReject) as Hans.
    { intros b ->. by rewrite (proj2 (Z.eqb_neq _ _)) by congruence. }
    destruct Hst as [-> | ->]; repeat astep; rewrite Hno; cbn [fmap option_fmap option_map]; repeat astep;
      left; by apply Hans.
  - destruct Hst as [-> |[-> |[-> | ->]]]; repeat astep; (eapply awp_set_away_node_id; [done|done|]); intros sl rep; repeat astep;
      left; by rewrite (proj2 (Z.eqb_neq _ _)) by congruence.
Qed.

Lemma request_accepts uv id s : start_ok uv = true -> away_ok s -> ti_nodes_get_away_or_soon (w_vec s) = None ->
  awp (nodes__on_req_away uv id) s (fun ans s' => ans = AnsAccept -> stands_by id s').
Proof.
  intros Huv Hok Hno. pose proof Hok as (a & me & Ha & Hme & Hat). unfold nodes__on_req_away. repeat astep.
  destruct (node_status me <? TI_NODE_STAT_SHUTTING_DOWN); [by astep|]. astep. unfold ti_away_accept. repeat astep.
  assert (forall st, aw_status a = st -> accept_status st <> None -> w_waiter s = WNone) as Hw.
  { intros st <- Hacc. destruct Hat as [Hobj _ _ _ _ _]. by destruct (aw_status a); destruct Hobj. }
  destruct (aw_status a) eqn:Hst.
  1,2: unfold away__accept_node_id; repeat astep; rewrite Hst; cbn [accept_status]; repeat astep;
    (eapply awp_set_away_node_id; [done|done|]); intros sl rep; astep; (apply awp_waiter_init; [by apply (Hw _ eq_refl)|]);
    destruct (init_ok uv); cbn [negb]; rewrite ?Huv; repeat astep; [apply awp_waiter_start; repeat astep|];
    intros _; eexists _, me; (split; [done|]); (split; [done|]); left; (split; [by constructor|done]).
  1,2: rewrite Hno; cbn [fmap option_fmap option_map]; repeat astep; destruct (Z.eqb_spec (aw_node_id a) id) as [E|]; [|done];
    intros _; exists a, me; (split; [done|]); (split; [done|]); left; (split; [rewrite Hst; by constructor|done]).
  all: repeat astep; (eapply awp_set_away_node_id; [done|done|]); intros sl rep; repeat astep;
    destruct (Z.eqb_spec (node_id me) id) as [E|]; [|done];
    intros _; eexists _, me; (split; [done|]); (split; [done|]); right; cbn [aw_status]; rewrite Hst; unfold busy; auto.
Qed.

Lemma request_answer uv id s ans s' : nodes__on_req_away uv id s = Some (ans, s') ->
  ans = AnsAccept \/ ans = AnsReject \/ ans = AnsError.
Proof.
  unfold nodes__on_req_away, mbind, AM_bind, mret, AM_ret. destruct (this_node s) as [[me s1]|]; [|done].
  destruct (node_status me <? TI_NODE_STAT_SHUTTING_DOWN); [intros [= <- _]; auto|].
  destruct (ti_away_accept uv id s1) as [[b s2]|]; [|done]. intros [= <- _]. destruct b; auto.
Qed.

(** The answer to one request, and to the requests of [r] and [s]; the request of
    [r] comes first when the flag is set. *)
Definition reply (uv : uv_rc) (id : Z) (w : away_world) : answer :=
  match nodes__on_req_away uv id w with Some (ans, _) => ans | None => AnsError end.

Definition two_replies (uv : uv_rc) (r s : Z) (v : away_world * bool) : answer * answer :=
  let '(x, y) := if snd v then (r, s) else (s, r) in
  match nodes__on_req_away uv x (fst v) with
  | None => (AnsError, AnsError)
  | Some (ans, w') => if snd v then (ans, reply uv y w') else (reply uv y w', ans)
  end.

Lemma reply_not_both uv x y w : start_ok uv = true -> away_ok w -> ti_nodes_get_away_or_soon (w_vec w) = None -> x <> y ->
  exists ans w', nodes__on_req_away uv x w = Some (ans, w') /\
    (ans = AnsAccept -> reply uv y w' = AnsReject \/ reply uv y w' = AnsError) /\
    (reply uv y w' = AnsAccept -> ans = AnsReject \/ ans = AnsError).
Proof.
  intros Huv Hok Hno Hxy. destruct (request_accepts uv x w Huv Hok Hno) as (ans & w' & E & Hst). exists ans, w'.
  assert (ans = AnsAccept -> reply uv y w' = AnsReject \/ reply uv y w' = AnsError) as H1.
  { intros Ha. destruct (request_stands_by uv y x w' (Hst Ha) Hxy) as (ans' & w'' & E' & H). unfold reply. by rewrite E'. }
  split; [done|]. split; [done|]. intros Hy.
  destruct (request_answer _ _ _ _ _ E) as [Ha|[?|?]]; [destruct (H1 Ha); congruence|auto|auto].
Qed.

Lemma two_replies_exclusive uv r s v :
  start_ok uv = true -> away_ok (fst v) -> ti_nodes_get_away_or_soon (w_vec (fst v)) = None -> r <> s ->
  let '(ar, as_) := two_replies uv r s v in
  (ar = AnsAccept -> as_ = AnsReject \/ as_ = AnsError) /\ (as_ = AnsAccept -> ar = AnsReject \/ ar = AnsError).
Proof.
  intros Huv Hok Hno Hrs. destruct v as [w [|]]; unfold two_replies; simpl in *.
  - destruct (reply_not_both uv r s w) as (ans & w' & -> & H1 & H2); auto.
  - destruct (reply_not_both uv s r w) as (ans & w' & -> & H1 & H2); auto.
Qed.

(** ** Properties *)


Definition uv_fine : uv_rc := UvRc true true.
Definition work_to_do : trigger_env := TriggerEnv 3 false false false uv_fine true (fun _ => true).

(** Node 0 of three goes away: it asks the others, waits, works while node 2 asks
    to synchronise, and comes back after that. *)
Definition away_cycle : list aevent :=
  [EvStart uv_fine; EvTrigger work_to_do; EvAnswer uv_fine 0 AnsAccept; EvAnswer uv_fine 0 AnsReject;
   EvWaiter 0 2; EvWaiter 0 0; EvWaiterClosed true; EvSyncer true true true 7 100; EvWorkDone uv_fine;
   EvWaiter 0 0; EvSyncerDone 7; EvWaiter 0 0; EvWaiterClosed true].


(** With the same view of the cluster, ready nodes try to go away at different
    times: the sleeps of two of them lie at least the time a node blocks after accepting
    plus two seconds apart, and no sleep exceeds 2.5 seconds plus 17 for each other node. *)
Theorem away_sleep_staggered (vec : list ti_node) (id : Z) (i j : nat) :
  len vec <= NODES__MAX -> i <> j -> is_ready vec i -> is_ready vec j ->
  exists si sj, away_sleep vec i id = Some si /\ away_sleep vec j id = Some sj /\
    AWAY__BLOCK_TIME + 2000 <= Z.abs (si - sj) /\
    2500 <= si <= 2500 + 17000 * (len vec - 1) /\ 2500 <= sj <= 2500 + 17000 * (len vec - 1).
Proof.
  intros Hlen Hij Hi Hj. destruct (away_sleep_ready vec i id Hlen Hi) as (c & Ec & Hc & Esi).
  destruct (away_sleep_ready vec j id Hlen Hj) as (c' & Ec' & _ & Esj). rewrite Ec in Ec'. injection Ec' as <-.
  destruct Hi as (ni & Hi & _), Hj as (nj & Hj & _). apply lookup_lt_Some in Hi, Hj.
  eexists _, _. split; [exact Esi|]. split; [exact Esj|]. unfold AWAY__BLOCK_TIME, len.
  destruct (Nat.ltb_spec i c), (Nat.ltb_spec j c); lia.
Qed.

Lemma away_sleep_staggered_witness :
  exists si sj, away_sleep (ready_cluster 3) 0 1 = Some si /\ away_sleep (ready_cluster 3) 1 1 = Some sj /\
    AWAY__BLOCK_TIME + 2000 <= Z.abs (si - sj) /\
    2500 <= si <= 2500 + 17000 * (len (ready_cluster 3) - 1) /\ 2500 <= sj <= 2500 + 17000 * (len (ready_cluster 3) - 1).
Proof.
  apply away_sleep_staggered; [vm_compute; discriminate|done|by eexists|by eexists].
Defined.

(** At most one node goes away. Two nodes of a cluster ask at the same time;
    every other node handles the two requests one after the other, in either order, in
    whatever state its away module is, with no node known to be away; the two
    answer each other while they are asking. When no request is lost, the two
    quorums are never both accepted. *)
Theorem away_unique_winner (uv : uv_rc) (vec : list ti_node) (r s : Z) (wr ws : away_world)
    (vs : list (away_world * bool)) (lr ls : list answer) :
  start_ok uv = true -> 0 < len vec <= NODES__MAX -> len vec = len vs + 2 -> r <> s ->
  requesting r wr -> requesting s ws ->
  Forall (fun v => away_ok (fst v) /\ ti_nodes_get_away_or_soon (w_vec (fst v)) = None) vs ->
  lr ≡ₚ reply uv r ws :: ((fun v => fst (two_replies uv r s v)) <$> vs) ->
  ls ≡ₚ reply uv s wr :: ((fun v => snd (two_replies uv r s v)) <$> vs) ->
  AnsError ∉ lr -> AnsError ∉ ls ->
  quorum_request r vec 0 lr = Some ([true], None) ->
  quorum_request s vec 0 ls = Some ([true], None) -> False.
Proof.
  intros Huv Hv Hn Hrs Hwr Hws Hvs Pr Ps Er Es.
  assert (forall x y w, requesting y w -> x <> y -> reply uv x w = AnsReject \/ reply uv x w = AnsError) as Hown.
  { intros x y w (a & n & Ha & Hme & Hid & Hst) Hxy. unfold reply.
    destruct (request_stands_by uv x y w) as (ans & w' & -> & H); [|congruence|done].
    exists a, n. split; [done|]. split; [done|]. right. split; [by left|done]. }
  assert (forall v, v ∈ vs -> fst (two_replies uv r s v) <> AnsError /\ snd (two_replies uv r s v) <> AnsError) as Hne.
  { intros v Hin. split; intros E; [apply Er; rewrite Pr|apply Es; rewrite Ps]; apply elem_of_cons; right;
      apply list_elem_of_fmap; exists v; done. }
  assert (forall v, v ∈ vs -> let '(ar, as_) := two_replies uv r s v in
    (ar = AnsAccept -> as_ = AnsReject \/ as_ = AnsError) /\ (as_ = AnsAccept -> ar = AnsReject \/ ar = AnsError)) as Hex.
  { intros v Hin. rewrite Forall_forall in Hvs. destruct (Hvs v Hin). by apply two_replies_exclusive. }
  apply (no_two_winners vec r s vs (reply uv r ws) (reply uv s wr) (fun v => fst (two_replies uv r s v))
    (fun v => snd (two_replies uv r s v)) lr ls); try done.
  - left. destruct (Hown r s ws Hws Hrs) as [?|E]; [done|]. destruct Er. rewrite Pr, E. apply elem_of_cons. by left.
  - left. destruct (Hown s r wr Hwr ltac:(congruence)) as [?|E]; [done|]. destruct Es. rewrite Ps, E. apply elem_of_cons. by left.
  - intros v Hin Ha. specialize (Hex v Hin). destruct (Hne v Hin) as [_ H]. destruct (two_replies uv r s v). simpl in *. by destruct (proj1 Hex Ha).
  - intros v Hin Ha. specialize (Hex v Hin). destruct (Hne v Hin) as [H _]. destruct (two_replies uv r s v). simpl in *. by destruct (proj2 Hex Ha).
Qed.

(** An idle node and one that asks. *)
Definition idle_node (i : nat) : away_world :=
  World (Some (Away [] AWAY__STATUS_IDLE 25 60 1 2500)) WNone true 2500 false [] (ready_cluster 4) i false false.
Definition asking_node (i : nat) : away_world :=
  World (Some (Away [] AWAY__STATUS_REQ_AWAY 25 60 1 2500)) WNone true 2500 false [] (ready_cluster 4) i false false.

Lemma idle_node_ok i n : ready_cluster 4 !! i = Some n -> node_status n = TI_NODE_STAT_READY -> away_ok (idle_node i).
Proof.
  intros Hn Hst. eapply away_ok_intro; [reflexivity|exact Hn|]. rewrite Hst.
  constructor; cbn; try done; [split; [done|split; [done|by apply List.Forall_nil]]|by apply NoDup_nil].
Qed.

(** Nodes 0 and 1 of four ask; nodes 2 and 3 hear node 0 first. *)
Lemma away_unique_winner_witness :
  quorum_request 0 (ready_cluster 4) 0 [AnsReject; AnsAccept; AnsAccept] = Some ([true], None) /\
  quorum_request 1 (ready_cluster 4) 0 [AnsReject; AnsReject; AnsReject] <> Some ([true], None).
Proof.
  split; [reflexivity|]. intros E2.
  apply (away_unique_winner uv_fine (ready_cluster 4) 0 1 (asking_node 0) (asking_node 1)
    [(idle_node 2, true); (idle_node 3, true)] [AnsReject; AnsAccept; AnsAccept] [AnsReject; AnsReject; AnsReject]).
  - reflexivity.
  - vm_compute. split; [reflexivity|discriminate].
  - reflexivity.
  - discriminate.
  - eexists _, _. split_and!; reflexivity.
  - eexists _, _. split_and!; reflexivity.
  - constructor; [split; [exact (idle_node_ok 2 _ eq_refl eq_refl)|done]|].
    constructor; [split; [exact (idle_node_ok 3 _ eq_refl eq_refl)|done]|by constructor].
  - reflexivity.
  - reflexivity.
  - set_solver.
  - set_solver.
  - reflexivity.
  - exact E2.
Defined.

(** [ti_away_stop] leaves callbacks behind that use the freed record: the close
    callback of the waiter when the waiter was already closing, and the callback
    of a quorum whose requests are cancelled later. And a stop signal that arrives
    while the waiter closes before the work makes the module call [ti_shutdown] a
    second time, at the end of the work. *)
Theorem away_stop_leaves_callbacks :
  let run l := away_events l (away_fresh (ready_cluster 3) 0) in
  let blocked := [EvStart uv_fine; EvRequest uv_fine 1; EvWaiter 0 0; EvStop] in
  let asked := [EvStart uv_fine; EvTrigger work_to_do; EvSignal; EvStop; EvAnswer uv_fine 0 AnsError] in
  let away := [EvStart uv_fine; EvTrigger work_to_do; EvAnswer uv_fine 0 AnsAccept; EvAnswer uv_fine 0 AnsReject;
    EvWaiter 0 0; EvSignal; EvWaiterClosed true; EvWorkDone uv_fine; EvWaiter 0 0] in
  (is_Some (run blocked) /\ run (blocked ++ [EvWaiterClosed true]) = None) /\
  (is_Some (run asked) /\ run (asked ++ [EvAnswer uv_fine 0 AnsError]) = None) /\
  (is_Some (run away) /\ run (away ++ [EvWaiterClosed true]) = None).
Proof. cbv zeta. split_and!; first [reflexivity|vm_compute; by eexists]. Qed.
