(* ===== verification/Opr.v ===== *)
(** * ti/opr and ti/preopr: operators on numbers, booleans and strings

    The operators of the query language: [src/inc/ti/opr/*.h] with
    [ti_opr_a_to_b] of [src/src/ti/opr.c], and the signs in front of a value,
    [src/src/ti/preopr.c]. A value is an integer of 64 bits, a double, a boolean,
    a time stamp, a name, a string or bytes, or one of the other types, of which
    only the truth value matters here; sets and enumeration members are left out.

    Doubles are a parameter. An operation of C on integers that is undefined is
    [None]: signed overflow, division by zero, the quotient of the smallest
    integer and -1, a shift by a negative amount or by the width. A left shift of
    signed integers drops the high bits, as the compilers in use define it. *)
From Stdlib Require Import ZArith Lia.
From stdpp Require Import base list option numbers.
From S2P Require Import Prelude.

Definition LLONG_MAX : Z := 9223372036854775807.
Definition LLONG_MIN : Z := -9223372036854775808.

Definition in_i64 (x : Z) : bool := (LLONG_MIN <=? x) && (x <=? LLONG_MAX).
Definition i64 (x : Z) : Z := (x + 9223372036854775808) mod 18446744073709551616 - 9223372036854775808.
Definition i32 (x : Z) : Z := (x + 2147483648) mod 4294967296 - 2147483648.

(** Arithmetic of C on [int64_t]. *)
Definition exact (x : Z) : option Z := if in_i64 x then Some x else None.
Definition cdiv (x y : Z) : option Z := if y =? 0 then None else exact (Z.quot x y).
Definition cmod (x y : Z) : option Z := if (y =? 0) || negb (in_i64 (Z.quot x y)) then None else Some (Z.rem x y).
Definition shl64 (x n : Z) : option Z := if (0 <=? n) && (n <? 64) then Some (i64 (Z.shiftl x n)) else None.
Definition shr64 (x n : Z) : option Z := if (0 <=? n) && (n <? 64) then Some (Z.shiftr x n) else None.
Definition shl32 (x n : Z) : option Z := if (0 <=? n) && (n <? 32) then Some (i32 (Z.shiftl x n)) else None.
Definition shr32 (x n : Z) : option Z := if (0 <=? n) && (n <? 32) then Some (Z.shiftr x n) else None.

(** [||] and [&&] of conditions that may be undefined. *)
Definition oor (x y : option bool) : option bool := b ← x; if b : bool then Some true else y.
Definition oand (x y : option bool) : option bool := b ← x; if b : bool then y else Some false.
Definition ogt (x : Z) (y : option Z) : option bool := y ← y; Some (y <? x).
Definition olt (x : Z) (y : option Z) : option bool := y ← y; Some (x <? y).

(** What the operators use of doubles. *)
Record float_ops (F : Type) := FloatOps {
  f_of : Z -> F;               (* conversion of an integer *)
  f_add : F -> F -> F; f_sub : F -> F -> F; f_mul : F -> F -> F; f_div : F -> F -> F;
  f_neg : F -> F;
  f_is_zero : F -> bool;
  f_lt : F -> F -> bool; f_le : F -> F -> bool;
  f_fits : F -> bool;          (* not [ti_val_overflow_cast] *)
  f_trunc : F -> Z             (* conversion to an integer, when it fits *)
}.
Arguments f_of {F}. Arguments f_add {F}. Arguments f_sub {F}. Arguments f_mul {F}. Arguments f_div {F}.
Arguments f_neg {F}. Arguments f_is_zero {F}. Arguments f_lt {F}. Arguments f_le {F}. Arguments f_fits {F}. Arguments f_trunc {F}.

Inductive ex := EX_TYPE_ERROR | EX_OVERFLOW | EX_ZERO_DIV | EX_MEMORY.

Section Operators.
Context {F : Type} (fo : float_ops F).

Inductive val :=
  | VNil
  | VInt (i : Z)
  | VFloat (f : F)
  | VBool (b : bool)
  | VDatetime (ts : Z)
  | VName (s : list Z)
  | VStr (s : list Z)
  | VBytes (s : list Z)
  | VOther (truth : bool).

(** A result is an error or a value. *)
Definition result := option (ex + val).
Definition err (x : ex) : result := Some (inl x).

(** [ti_val_make_int], [ti_val_make_float]; [mem]: the allocation succeeds.
    Integers of eight bits are not allocated. *)
Definition make_int (mem : bool) (i : Z) : result :=
  if ((-128 <=? i) && (i <? 128)) || mem then Some (inr (VInt i)) else err EX_MEMORY.
Definition make_float (mem : bool) (f : F) : result := if mem then Some (inr (VFloat f)) else err EX_MEMORY.

Definition raw_of (v : val) : option (list Z) :=
  match v with VName s | VStr s | VBytes s => Some s | _ => None end.

(** The length of the new string is a sum of 32 bits, but both are copied: when
    the sum wraps, outside the new block. *)
Definition ti_raw_cat (x y : list Z) : option (list Z) :=
  if len x + len y <=? u32 (len x + len y) then Some (x ++ y) else None.

Definition opr__add (mem : bool) (a b : val) : result :=
  match a, b with
  | VInt x, VInt y =>
      o ← oor (oand (Some (0 <? y)) (ogt x (exact (LLONG_MAX - y)))) (oand (Some (y <? 0)) (olt x (exact (LLONG_MIN - y))));
      if o : bool then err EX_OVERFLOW else i ← exact (x + y); make_int mem i
  | VInt x, VFloat y => make_float mem (f_add fo (f_of fo x) y)
  | VInt x, VBool y =>
      if (x =? LLONG_MAX) && y then err EX_OVERFLOW else i ← exact (x + b2z y); make_int mem i
  | VFloat x, VInt y => make_float mem (f_add fo x (f_of fo y))
  | VFloat x, VFloat y => make_float mem (f_add fo x y)
  | VFloat x, VBool y => make_float mem (f_add fo x (f_of fo (b2z y)))
  | VBool x, VInt y =>
      if x && (y =? LLONG_MAX) then err EX_OVERFLOW else i ← exact (b2z x + y); make_int mem i
  | VBool x, VFloat y => make_float mem (f_add fo (f_of fo (b2z x)) y)
  | VBool x, VBool y => make_int mem (b2z x + b2z y)
  | VName _, (VName _ | VStr _ | VBytes _) | VStr _, (VName _ | VStr _ | VBytes _) | VBytes _, (VName _ | VStr _ | VBytes _) =>
      x ← raw_of a; y ← raw_of b;
      if negb mem then err EX_MEMORY else
      r ← ti_raw_cat x y;
      Some (inr (match a, b with VBytes _, _ | _, VBytes _ => VBytes r | _, _ => VStr r end))
  | _, _ => err EX_TYPE_ERROR
  end.

Definition opr__sub (mem : bool) (a b : val) : result :=
  match a, b with
  | VInt x, VInt y =>
      o ← oor (oand (Some (y <? 0)) (ogt x (exact (LLONG_MAX + y)))) (oand (Some (0 <? y)) (olt x (exact (LLONG_MIN + y))));
      if o : bool then err EX_OVERFLOW else i ← exact (x - y); make_int mem i
  | VInt x, VFloat y => make_float mem (f_sub fo (f_of fo x) y)
  | VInt x, VBool y =>
      if (x =? LLONG_MIN) && y then err EX_OVERFLOW else i ← exact (x - b2z y); make_int mem i
  | VFloat x, VInt y => make_float mem (f_sub fo x (f_of fo y))
  | VFloat x, VFloat y => make_float mem (f_sub fo x y)
  | VFloat x, VBool y => make_float mem (f_sub fo x (f_of fo (b2z y)))
  | VBool x, VInt y =>
      if (y =? LLONG_MIN) || (x && (y =? - LLONG_MAX)) then err EX_OVERFLOW else i ← exact (b2z x - y); make_int mem i
  | VBool x, VFloat y => make_float mem (f_sub fo (f_of fo (b2z x)) y)
  | VBool x, VBool y => make_int mem (b2z x - b2z y)
  | _, _ => err EX_TYPE_ERROR
  end.

Definition opr__mul (mem : bool) (a b : val) : result :=
  match a, b with
  | VInt x, VInt y =>
      o ← oand (Some (negb (y =? 0)))
            (oor (ogt x (cdiv LLONG_MAX y))
            (oor (olt x (cdiv LLONG_MIN y))
            (oor (Some ((x =? -1) && (y =? LLONG_MIN)))
                 (Some ((y =? -1) && (x =? LLONG_MIN))))));
      if o : bool then err EX_OVERFLOW else i ← exact (x * y); make_int mem i
  | VInt x, VFloat y => make_float mem (f_mul fo (f_of fo x) y)
  | VInt x, VBool y => i ← exact (x * b2z y); make_int mem i
  | VFloat x, VInt y => make_float mem (f_mul fo x (f_of fo y))
  | VFloat x, VFloat y => make_float mem (f_mul fo x y)
  | VFloat x, VBool y => make_float mem (f_mul fo x (f_of fo (b2z y)))
  | VBool x, VInt y => i ← exact (b2z x * y); make_int mem i
  | VBool x, VFloat y => make_float mem (f_mul fo (f_of fo (b2z x)) y)
  | VBool x, VBool y => make_int mem (b2z x * b2z y)
  | _, _ => err EX_TYPE_ERROR
  end.

Definition opr__div (mem : bool) (a b : val) : result :=
  match a, b with
  | VInt x, VInt y =>
      if y =? 0 then err EX_ZERO_DIV else
      if (x =? LLONG_MAX) && (y =? -1) then err EX_OVERFLOW else
      i ← cdiv x y; make_int mem i
  | VInt x, VFloat y => if f_is_zero fo y then err EX_ZERO_DIV else make_float mem (f_div fo (f_of fo x) y)
  | VInt x, VBool y => if negb y then err EX_ZERO_DIV else i ← cdiv x (b2z y); make_int mem i
  | VFloat x, VInt y => if y =? 0 then err EX_ZERO_DIV else make_float mem (f_div fo x (f_of fo y))
  | VFloat x, VFloat y => if f_is_zero fo y then err EX_ZERO_DIV else make_float mem (f_div fo x y)
  | VFloat x, VBool y => if negb y then err EX_ZERO_DIV else make_float mem (f_div fo x (f_of fo (b2z y)))
  | VBool x, VInt y => if y =? 0 then err EX_ZERO_DIV else i ← cdiv (b2z x) y; make_int mem i
  | VBool x, VFloat y => if f_is_zero fo y then err EX_ZERO_DIV else make_float mem (f_div fo (f_of fo (b2z x)) y)
  | VBool x, VBool y => if negb y then err EX_ZERO_DIV else i ← cdiv (b2z x) (b2z y); make_int mem i
  | _, _ => err EX_TYPE_ERROR
  end.

Definition opr__mod (mem : bool) (a b : val) : result :=
  match a, b with
  | VInt x, VInt y => if y =? 0 then err EX_ZERO_DIV else i ← cmod x y; make_int mem i
  | VInt x, VFloat y =>
      if negb (f_fits fo y) then err EX_OVERFLOW else
      let t := f_trunc fo y in
      if t =? 0 then err EX_ZERO_DIV else i ← cmod x t; make_int mem i
  | VInt x, VBool y => if negb y then err EX_ZERO_DIV else i ← cmod x (b2z y); make_int mem i
  | VFloat x, VInt y =>
      if negb (f_fits fo x) then err EX_OVERFLOW else
      if y =? 0 then err EX_ZERO_DIV else i ← cmod (f_trunc fo x) y; make_int mem i
  | VFloat x, VFloat y =>
      if negb (f_fits fo x) || negb (f_fits fo y) then err EX_OVERFLOW else
      let t := f_trunc fo y in
      if t =? 0 then err EX_ZERO_DIV else i ← cmod (f_trunc fo x) t; make_int mem i
  | VFloat x, VBool y =>
      if negb (f_fits fo x) then err EX_OVERFLOW else
      if negb y then err EX_ZERO_DIV else i ← cmod (f_trunc fo x) (b2z y); make_int mem i
  | VBool x, VInt y => if y =? 0 then err EX_ZERO_DIV else i ← cmod (b2z x) y; make_int mem i
  | VBool x, VFloat y =>
      if negb (f_fits fo y) then err EX_OVERFLOW else
      let t := f_trunc fo y in
      if t =? 0 then err EX_ZERO_DIV else i ← cmod (b2z x) t; make_int mem i
  | VBool x, VBool y => if negb y then err EX_ZERO_DIV else i ← cmod (b2z x) (b2z y); make_int mem i
  | _, _ => err EX_TYPE_ERROR
  end.

Definition opr__and (mem : bool) (a b : val) : result :=
  match a, b with
  | VInt x, VInt y => make_int mem (Z.land x y)
  | VInt x, VBool y => make_int mem (Z.land x (b2z y))
  | VBool x, VInt y => make_int mem (Z.land (b2z x) y)
  | VBool x, VBool y => make_int mem (Z.land (b2z x) (b2z y))
  | _, _ => err EX_TYPE_ERROR
  end.

Definition opr__or (mem : bool) (a b : val) : result :=
  match a, b with
  | VInt x, VInt y => make_int mem (Z.lor x y)
  | VInt x, VBool y => make_int mem (Z.lor x (b2z y))
  | VBool x, VInt y => make_int mem (Z.lor (b2z x) y)
  | VBool x, VBool y => make_int mem (Z.lor (b2z x) (b2z y))
  | _, _ => err EX_TYPE_ERROR
  end.

Definition opr__xor (mem : bool) (a b : val) : result :=
  match a, b with
  | VInt x, VInt y => make_int mem (Z.lxor x y)
  | VInt x, VBool y => make_int mem (Z.lxor x (b2z y))
  | VBool x, VInt y => make_int mem (Z.lxor (b2z x) y)
  | VBool x, VBool y => make_int mem (Z.lxor (b2z x) (b2z y))
  | _, _ => err EX_TYPE_ERROR
  end.

(** A boolean has the width of an [int]. *)
Definition opr__sl (mem : bool) (a b : val) : result :=
  match a, b with
  | VInt x, VInt y => i ← shl64 x y; make_int mem i
  | VInt x, VBool y => i ← shl64 x (b2z y); make_int mem i
  | VBool x, VInt y => i ← shl32 (b2z x) y; make_int mem i
  | VBool x, VBool y => i ← shl32 (b2z x) (b2z y); make_int mem i
  | _, _ => err EX_TYPE_ERROR
  end.

Definition opr__sr (mem : bool) (a b : val) : result :=
  match a, b with
  | VInt x, VInt y => i ← shr64 x y; make_int mem i
  | VInt x, VBool y => i ← shr64 x (b2z y); make_int mem i
  | VBool x, VInt y => i ← shr32 (b2z x) y; make_int mem i
  | VBool x, VBool y => i ← shr32 (b2z x) (b2z y); make_int mem i
  | _, _ => err EX_TYPE_ERROR
  end.

(** The operator of a node of the parse tree. *)
Inductive opr := OprMod | OprAnd | OprMul | OprAdd | OprSub | OprDiv | OprXor | OprOr.

Definition ti_opr_a_to_b (o : opr) (mem : bool) (a b : val) : result :=
  match o with
  | OprMod => opr__mod mem a b
  | OprAnd => opr__and mem a b
  | OprMul => opr__mul mem a b
  | OprAdd => opr__add mem a b
  | OprSub => opr__sub mem a b
  | OprDiv => opr__div mem a b
  | OprXor => opr__xor mem a b
  | OprOr => opr__or mem a b
  end.

(** ** Comparing *)

(** [memcmp]: the sign of the first difference. *)
Fixpoint memcmp (n : nat) (s t : list Z) : Z :=
  match n, s, t with
  | S n, x :: s, y :: t => if x =? y then memcmp n s t else if x <? y then -1 else 1
  | _, _, _ => 0
  end.

Definition ti_raw_cmp (s t : list Z) : Z :=
  let rc := memcmp (Nat.min (length s) (length t)) s t in
  if negb (rc =? 0) || (length s =? length t)%nat then rc
  else if (length t <? length s)%nat then default 0 (s !! length t)
  else - default 0 (t !! length s).

Definition ti_raw_eq (s t : list Z) : bool :=
  (length s =? length t)%nat && (memcmp (length s) s t =? 0).

(** One of [opr__lt], [opr__le], [opr__gt] and [opr__ge]: [ci] compares integers,
    [cf] doubles. A string and a time stamp are compared as if both were
    strings. *)
Definition opr_compare (ci : Z -> Z -> bool) (cf : F -> F -> bool) (a b : val) : result :=
  let bool_ x : result := Some (inr (VBool x)) in
  match a, b with
  | VInt x, VInt y => bool_ (ci x y)
  | VInt x, VFloat y => bool_ (cf (f_of fo x) y)
  | VInt x, VBool y => bool_ (ci x (b2z y))
  | VFloat x, VInt y => bool_ (cf x (f_of fo y))
  | VFloat x, VFloat y => bool_ (cf x y)
  | VFloat x, VBool y => bool_ (cf x (f_of fo (b2z y)))
  | VBool x, VInt y => bool_ (ci (b2z x) y)
  | VBool x, VFloat y => bool_ (cf (f_of fo (b2z x)) y)
  | VBool x, VBool y => bool_ (ci (b2z x) (b2z y))
  | VDatetime x, VDatetime y => bool_ (ci x y)
  | VName _, (VName _ | VStr _ | VBytes _) | VStr _, (VName _ | VStr _ | VBytes _) | VBytes _, (VName _ | VStr _ | VBytes _)
  | VStr _, VDatetime _ =>
      x ← raw_of a; y ← raw_of b; bool_ (ci (ti_raw_cmp x y) 0)
  | _, _ => err EX_TYPE_ERROR
  end.

Definition opr__lt : val -> val -> result := opr_compare Z.ltb (f_lt fo).
Definition opr__le : val -> val -> result := opr_compare Z.leb (f_le fo).
Definition opr__gt : val -> val -> result := opr_compare Z.gtb (fun x y => f_lt fo y x).
Definition opr__ge : val -> val -> result := opr_compare Z.geb (fun x y => f_le fo y x).

Definition ti_val_as_bool (v : val) : bool :=
  match v with
  | VNil => false
  | VInt i => negb (i =? 0)
  | VFloat f => negb (f_is_zero fo f)
  | VBool b => b
  | VDatetime _ => true
  | VName s | VStr s | VBytes s => negb (len s =? 0)
  | VOther truth => truth
  end.

(** ** Signs in front of a value *)

Inductive sign := Minus | Plus | Not | Tilde | Space.

Definition PO__FLAG_FALSE : Z := Z.shiftl 1 0.
Definition PO__FLAG_BOOL : Z := Z.shiftl 1 1.
Definition PO__FLAG_NEGATIVE : Z := Z.shiftl 1 2.
Definition PO__FLAG_AS_NUM : Z := Z.shiftl 1 3.
Definition PO__FLAG_CHK_NUM : Z := Z.shiftl 1 4.
Definition PO__FLAG_BIT_INV : Z := Z.shiftl 1 5.
Definition PO__FLAG_BITWISE : Z := Z.shiftl 1 6.

(** The loop over the signs behind the first one: [negative], [nots] and
    [inverts]. *)
Fixpoint preopr_loop (s : list sign) (negative nots inverts : Z) : Z * Z * Z :=
  match s with
  | [] => (negative, nots, inverts)
  | Minus :: s => preopr_loop s (negative + b2z (nots =? 0)) nots inverts
  | Not :: s => preopr_loop s negative (nots + 1) inverts
  | Tilde :: s => preopr_loop s negative nots (inverts + 1)
  | _ :: s => preopr_loop s negative nots inverts
  end.

(** The first and the last character are no white space. *)
Definition ti_preopr_bind (s : list sign) : option Z :=
  match s with
  | [] => Some 0
  | Space :: _ => None
  | c :: rest =>
      let '(preopr, negative, nots, inverts) :=
        match c with
        | Minus => (PO__FLAG_AS_NUM, 1, 0, 0)
        | Plus => (PO__FLAG_AS_NUM, 0, 0, 0)
        | Not => (0, 0, 1, 0)
        | Tilde => (Z.lor PO__FLAG_AS_NUM PO__FLAG_BITWISE, 0, 0, 1)
        | Space => (0, 0, 0, 0)
        end in
      let '(negative, nots, inverts) := preopr_loop rest negative nots inverts in
      match list.last s with
      | Some Space | None => None
      | Some l =>
          Some (Z.lor preopr
            (Z.lor (Z.shiftl (Z.land nots 1) 0)
            (Z.lor (Z.shiftl (b2z (negb (nots =? 0))) 1)
            (Z.lor (Z.shiftl (Z.land negative 1) 2)
            (Z.lor (Z.shiftl (b2z (match l with Not => false | _ => true end)) 4)
                   (Z.shiftl (Z.land inverts 1) 5))))))
      end
  end.

Definition is_num (v : val) : bool := match v with VInt _ | VFloat _ | VBool _ => true | _ => false end.

Definition flag (preopr f : Z) : bool := negb (Z.land preopr f =? 0).

Definition ti_preopr_calc (mem : bool) (preopr : Z) (v : val) : result :=
  if flag preopr PO__FLAG_CHK_NUM && negb (is_num v) then err EX_TYPE_ERROR else
  if flag preopr PO__FLAG_BOOL then
    let b := b2z (xorb (flag preopr PO__FLAG_FALSE) (ti_val_as_bool v)) in
    if flag preopr PO__FLAG_BIT_INV
    then make_int mem (if flag preopr PO__FLAG_NEGATIVE then Z.lnot (- b) else Z.lnot b)
    else if flag preopr PO__FLAG_AS_NUM
    then make_int mem (if flag preopr PO__FLAG_NEGATIVE then - b else b)
    else Some (inr (VBool (negb (b =? 0))))
  else
  let rest : result :=
    match v with
    | VInt i =>
        if flag preopr PO__FLAG_NEGATIVE then
          if i =? LLONG_MIN then err EX_OVERFLOW else make_int mem (- i)
        else Some (inr v)
    | VFloat d => if flag preopr PO__FLAG_NEGATIVE then make_float mem (f_neg fo d) else Some (inr v)
    | VBool b => make_int mem (if flag preopr PO__FLAG_NEGATIVE then - b2z b else b2z b)
    | _ => Some (inr v)
    end in
  if flag preopr PO__FLAG_BITWISE then
    match v with
    | VInt i =>
        if flag preopr PO__FLAG_BIT_INV then
          if flag preopr PO__FLAG_NEGATIVE then
            if i =? LLONG_MIN then err EX_OVERFLOW else make_int mem (Z.lnot (- i))
          else make_int mem (Z.lnot i)
        else rest
    | VFloat _ => err EX_TYPE_ERROR
    | VBool b =>
        (* [b = -b] on a [_Bool] leaves it as it is *)
        if flag preopr PO__FLAG_BIT_INV then make_int mem (Z.lnot (b2z b)) else rest
    | _ => rest
    end
  else rest.

(** The meaning of the signs, one by one from the right, on unbounded integers. *)
Definition sign_ref (c : sign) (v : val) : ex + val :=
  match c, v with
  | Space, _ => inr v
  | Not, _ => inr (VBool (negb (ti_val_as_bool v)))
  | Minus, VInt i => inr (VInt (- i))
  | Minus, VFloat d => inr (VFloat (f_neg fo d))
  | Minus, VBool b => inr (VInt (- b2z b))
  | Plus, VInt i => inr (VInt i)
  | Plus, VFloat d => inr (VFloat d)
  | Plus, VBool b => inr (VInt (b2z b))
  | Tilde, VInt i => inr (VInt (Z.lnot i))
  | Tilde, VBool b => inr (VInt (Z.lnot (b2z b)))
  | _, _ => inl EX_TYPE_ERROR
  end.

Fixpoint signs_ref (s : list sign) (v : val) : ex + val :=
  match s with
  | [] => inr v
  | c :: s => match signs_ref s v with inr w => sign_ref c w | inl e => inl e end
  end.

Definition fit (r : ex + val) : ex + val :=
  match r with
  | inr (VInt i) => if in_i64 i then r else inl EX_OVERFLOW
  | _ => r
  end.

End Operators.
