(* ===== verification/OprProps.v ===== *)
(** * Properties of the operators *)
From Stdlib Require Import ZArith Lia.
From stdpp Require Import base list option numbers.
From S2P Require Import Prelude Opr.

(** ** Integers *)

Lemma in_i64_spec x : in_i64 x = true <-> LLONG_MIN <= x <= LLONG_MAX.
Proof. unfold in_i64. rewrite andb_true_iff, !Z.leb_le. done. Qed.

Lemma exact_in x : LLONG_MIN <= x <= LLONG_MAX -> exact x = Some x.
Proof. intros Hx. unfold exact. by rewrite (proj2 (in_i64_spec x) Hx). Qed.

Lemma in_i64_false x : ~ LLONG_MIN <= x <= LLONG_MAX -> in_i64 x = false.
Proof. intros Hx. destruct (in_i64 x) eqn:E; [|done]. by apply in_i64_spec in E. Qed.

(** The integer a number or a boolean stands for. *)
Definition int_of {F} (v : val (F := F)) : option Z :=
  match v with VInt i => Some i | VBool b => Some (b2z b) | _ => None end.

Definition val_ok {F} (v : val (F := F)) : Prop :=
  match v with VInt i => LLONG_MIN <= i <= LLONG_MAX | _ => True end.

(** The exact result when it fits, an overflow error otherwise. *)
Definition checked {F} (x : Z) : result (F := F) := if in_i64 x then Some (inr (VInt x)) else err EX_OVERFLOW.

Lemma checked_in {F} x : LLONG_MIN <= x <= LLONG_MAX -> checked (F := F) x = Some (inr (VInt x)).
Proof. intros Hx. unfold checked. by rewrite (proj2 (in_i64_spec x) Hx). Qed.

Lemma checked_out {F} x : ~ LLONG_MIN <= x <= LLONG_MAX -> checked (F := F) x = err EX_OVERFLOW.
Proof. intros Hx. unfold checked. by rewrite in_i64_false. Qed.

Lemma make_int_mem {F} i : make_int (F := F) true i = Some (inr (VInt i)).
Proof. unfold make_int. by rewrite orb_true_r. Qed.

Lemma ogt_Some x y : ogt x (Some y) = Some (y <? x).
Proof. done. Qed.
Lemma olt_Some x y : olt x (Some y) = Some (x <? y).
Proof. done. Qed.

(** Decide whether a result fits, and run the operation. *)
Ltac fits :=
  first [rewrite checked_in by (unfold LLONG_MIN, LLONG_MAX in *; lia)
        |rewrite checked_out by (unfold LLONG_MIN, LLONG_MAX in *; lia)];
  rewrite ?exact_in by (unfold LLONG_MIN, LLONG_MAX in *; lia); cbn [mbind option_bind]; rewrite ?make_int_mem; try reflexivity.

(** The guards of the code are exact. *)
Lemma add_guard x y : LLONG_MIN <= x <= LLONG_MAX -> LLONG_MIN <= y <= LLONG_MAX ->
  oor (oand (Some (0 <? y)) (ogt x (exact (LLONG_MAX - y)))) (oand (Some (y <? 0)) (olt x (exact (LLONG_MIN - y)))) =
  Some (negb (in_i64 (x + y))).
Proof.
  intros Hx Hy. unfold oor, oand, ogt, olt, in_i64. destruct (Z.ltb_spec 0 y); cbn [mbind option_bind].
  - rewrite (exact_in (LLONG_MAX - y)) by (unfold LLONG_MIN, LLONG_MAX in *; lia). rewrite (proj2 (Z.ltb_ge y 0)) by lia. cbn [mbind option_bind].
    unfold LLONG_MIN, LLONG_MAX in *. zbool; cbn [andb negb mbind option_bind]; done || lia.
  - destruct (Z.ltb_spec y 0); cbn [mbind option_bind].
    + rewrite (exact_in (LLONG_MIN - y)) by (unfold LLONG_MIN, LLONG_MAX in *; lia). cbn [mbind option_bind].
      unfold LLONG_MIN, LLONG_MAX in *. zbool; cbn [andb negb]; done || lia.
    + unfold LLONG_MIN, LLONG_MAX in *. zbool; cbn [andb negb]; done || lia.
Qed.

Lemma sub_guard x y : LLONG_MIN <= x <= LLONG_MAX -> LLONG_MIN <= y <= LLONG_MAX ->
  oor (oand (Some (y <? 0)) (ogt x (exact (LLONG_MAX + y)))) (oand (Some (0 <? y)) (olt x (exact (LLONG_MIN + y)))) =
  Some (negb (in_i64 (x - y))).
Proof.
  intros Hx Hy. unfold oor, oand, ogt, olt, in_i64. destruct (Z.ltb_spec y 0); cbn [mbind option_bind].
  - rewrite (exact_in (LLONG_MAX + y)) by (unfold LLONG_MIN, LLONG_MAX in *; lia). rewrite (proj2 (Z.ltb_ge 0 y)) by lia. cbn [mbind option_bind].
    unfold LLONG_MIN, LLONG_MAX in *. zbool; cbn [andb negb mbind option_bind]; done || lia.
  - destruct (Z.ltb_spec 0 y); cbn [mbind option_bind].
    + rewrite (exact_in (LLONG_MIN + y)) by (unfold LLONG_MIN, LLONG_MAX in *; lia). cbn [mbind option_bind].
      unfold LLONG_MIN, LLONG_MAX in *. zbool; cbn [andb negb]; done || lia.
    + unfold LLONG_MIN, LLONG_MAX in *. zbool; cbn [andb negb]; done || lia.
Qed.

(** A guard that is exact makes the operation exact. *)
Lemma guarded_exact {F} x :
  (if negb (in_i64 x) then err EX_OVERFLOW else mbind (M := option) (fun i => make_int (F := F) true i) (exact x)) = checked x.
Proof. unfold checked, exact. destruct (in_i64 x); [|done]. cbn [negb mbind option_bind]. apply make_int_mem. Qed.

Lemma add_exact {F} (fo : float_ops F) a b x y :
  val_ok a -> val_ok b -> int_of a = Some x -> int_of b = Some y -> opr__add fo true a b = checked (x + y).
Proof.
  destruct a as [|i| |p| | | | |], b as [|j| |q| | | | |]; try done; intros Ha Hb [= <-] [= <-]; cbn [val_ok] in *; unfold opr__add.
  - rewrite add_guard by done. cbn [mbind option_bind]. apply guarded_exact.
  - destruct (Z.eqb_spec i LLONG_MAX), q; cbn [andb b2z]; fits.
  - destruct (Z.eqb_spec j LLONG_MAX), p; cbn [andb b2z]; fits.
  - destruct p, q; reflexivity.
Qed.

Lemma sub_exact {F} (fo : float_ops F) a b x y :
  val_ok a -> val_ok b -> int_of a = Some x -> int_of b = Some y -> opr__sub fo true a b = checked (x - y).
Proof.
  destruct a as [|i| |p| | | | |], b as [|j| |q| | | | |]; try done; intros Ha Hb [= <-] [= <-]; cbn [val_ok] in *; unfold opr__sub.
  - rewrite sub_guard by done. cbn [mbind option_bind]. apply guarded_exact.
  - destruct (Z.eqb_spec i LLONG_MIN), q; cbn [andb b2z]; fits.
  - destruct (Z.eqb_spec j LLONG_MIN), (Z.eqb_spec j (- LLONG_MAX)), p; cbn [andb orb b2z]; fits.
    all: unfold LLONG_MIN, LLONG_MAX in *; lia.
  - destruct p, q; reflexivity.
Qed.

(** Quotients as the guards of [opr__mul] use them. *)
Lemma quot_max x y : 0 < y -> (Z.quot LLONG_MAX y <? x) = (LLONG_MAX <? x * y).
Proof.
  intros Hy. rewrite Z.quot_div_nonneg by (unfold LLONG_MAX; lia). pose proof (Z.div_mod LLONG_MAX y ltac:(lia)).
  pose proof (Z.mod_pos_bound LLONG_MAX y Hy). zbool; try done; nia.
Qed.

Lemma quot_min x y : 0 < y -> (x <? Z.quot LLONG_MIN y) = (x * y <? LLONG_MIN).
Proof.
  intros Hy. replace LLONG_MIN with (- (9223372036854775808)) by done. rewrite Z.quot_opp_l by lia.
  rewrite Z.quot_div_nonneg by lia. pose proof (Z.div_mod 9223372036854775808 y ltac:(lia)).
  pose proof (Z.mod_pos_bound 9223372036854775808 y Hy). zbool; try done; nia.
Qed.

Lemma quot_range x y : LLONG_MIN <= x <= LLONG_MAX -> y <> 0 -> (x <> LLONG_MIN \/ y <> -1) ->
  LLONG_MIN <= Z.quot x y <= LLONG_MAX.
Proof.
  intros Hx Hy Hxy. pose proof (Z.quot_rem x y Hy) as E. pose proof (Z.rem_bound_abs x y Hy) as Hr.
  destruct (decide (y = -1)) as [->|Hy1]; [|destruct (decide (y = 1)) as [->|Hy2]].
  - change (-1) with (- (1)). rewrite Z.quot_opp_r, Z.quot_1_r by lia. unfold LLONG_MIN, LLONG_MAX in *. lia.
  - by rewrite Z.quot_1_r.
  - assert (2 <= Z.abs y) by lia. assert (2 * Z.abs (Z.quot x y) <= Z.abs x) as Hq.
    { pose proof (Z.quot_abs x y Hy). pose proof (Z.mul_quot_le (Z.abs x) (Z.abs y) ltac:(lia) ltac:(lia)). nia. }
    unfold LLONG_MIN, LLONG_MAX in *. lia.
Qed.

Lemma mul_exact {F} (fo : float_ops F) x y :
  LLONG_MIN <= x <= LLONG_MAX -> 0 <= y <= LLONG_MAX -> opr__mul fo true (VInt x) (VInt y) = checked (x * y).
Proof.
  intros Hx Hy. unfold opr__mul. destruct (Z.eqb_spec y 0) as [->|Hy0]; cbn [negb].
  - cbn [oand mbind option_bind]. rewrite Z.mul_0_r. done.
  - assert (cdiv LLONG_MAX y = Some (Z.quot LLONG_MAX y)) as E1.
    { unfold cdiv. rewrite (proj2 (Z.eqb_neq y 0)) by lia. apply exact_in, quot_range; unfold LLONG_MIN, LLONG_MAX; lia. }
    assert (cdiv LLONG_MIN y = Some (Z.quot LLONG_MIN y)) as E2.
    { unfold cdiv. rewrite (proj2 (Z.eqb_neq y 0)) by lia. apply exact_in, quot_range; unfold LLONG_MIN, LLONG_MAX; lia. }
    rewrite E1, E2. unfold oor, oand, ogt, olt. cbn [mbind option_bind]. rewrite quot_max, quot_min by lia.
    rewrite (proj2 (Z.eqb_neq y LLONG_MIN)), (proj2 (Z.eqb_neq y (-1))) by (unfold LLONG_MIN; lia). rewrite andb_false_r. cbn [andb].
    rewrite <- guarded_exact. unfold in_i64. zbool; cbn [andb negb mbind option_bind]; try done; unfold LLONG_MIN, LLONG_MAX in *; lia.
Qed.

(** With a negative right operand the guards hold for all [x]. *)
Lemma mul_negative {F} (fo : float_ops F) mem x y :
  LLONG_MIN <= x <= LLONG_MAX -> LLONG_MIN <= y < 0 ->
  opr__mul fo mem (VInt x) (VInt y) = if (y =? -1) && (x <=? - LLONG_MAX) then None else err EX_OVERFLOW.
Proof.
  intros Hx Hy. unfold opr__mul. rewrite (proj2 (Z.eqb_neq y 0)) by lia. cbn [negb].
  assert (cdiv LLONG_MAX y = Some (Z.quot LLONG_MAX y)) as E1.
  { unfold cdiv. rewrite (proj2 (Z.eqb_neq y 0)) by lia. apply exact_in, quot_range; unfold LLONG_MIN, LLONG_MAX in *; lia. }
  rewrite E1. unfold oor, oand, ogt, olt. cbn [mbind option_bind].
  destruct (Z.eqb_spec y (-1)) as [->|Hy1]; cbn [andb].
  - change (Z.quot LLONG_MAX (-1)) with (- LLONG_MAX). change (cdiv LLONG_MIN (-1)) with (@None Z).
    destruct (Z.ltb_spec (- LLONG_MAX) x), (Z.leb_spec x (- LLONG_MAX)); try lia; done.
  - destruct (Z.ltb_spec (Z.quot LLONG_MAX y) x) as [|Hle]; [done|].
    assert (cdiv LLONG_MIN y = Some (Z.quot LLONG_MIN y)) as E2.
    { unfold cdiv. rewrite (proj2 (Z.eqb_neq y 0)) by lia. apply exact_in, quot_range; unfold LLONG_MIN, LLONG_MAX in *; lia. }
    rewrite E2. cbn [mbind option_bind].
    assert (Z.quot LLONG_MAX y <= 0) as Hn by (replace y with (- (- y)) by lia; rewrite Z.quot_opp_r by lia; pose proof (Z.quot_pos LLONG_MAX (- y) ltac:(done) ltac:(lia)); lia).
    assert (0 < Z.quot LLONG_MIN y) as Hp.
    { replace y with (- (- y)) by lia. replace LLONG_MIN with (- (9223372036854775808)) by done. rewrite Z.quot_opp_opp by lia.
      apply Z.quot_str_pos. unfold LLONG_MIN in *. lia. }
    by rewrite (proj2 (Z.ltb_lt x _)) by lia.
Qed.

Lemma div_exact {F} (fo : float_ops F) x y :
  LLONG_MIN <= x <= LLONG_MAX -> LLONG_MIN <= y <= LLONG_MAX ->
  opr__div fo true (VInt x) (VInt y) =
    if y =? 0 then err EX_ZERO_DIV else
    if (x =? LLONG_MAX) && (y =? -1) then err EX_OVERFLOW else
    if (x =? LLONG_MIN) && (y =? -1) then None else Some (inr (VInt (Z.quot x y))).
Proof.
  intros Hx Hy. unfold opr__div, cdiv. destruct (Z.eqb_spec y 0); [done|]. destruct ((x =? LLONG_MAX) && (y =? -1)); [done|].
  assert (~ (x = LLONG_MIN /\ y = -1) -> exact (Z.quot x y) = Some (Z.quot x y)) as Hq by (intros H; apply exact_in, quot_range; [done|done|lia]).
  destruct (Z.eqb_spec x LLONG_MIN), (Z.eqb_spec y (-1)); cbn [andb].
  { by subst. }
  all: rewrite Hq by (by intros []); cbn [mbind option_bind]; apply make_int_mem.
Qed.

Lemma mod_exact {F} (fo : float_ops F) x y :
  LLONG_MIN <= x <= LLONG_MAX -> LLONG_MIN <= y <= LLONG_MAX ->
  opr__mod fo true (VInt x) (VInt y) =
    if y =? 0 then err EX_ZERO_DIV else
    if (x =? LLONG_MIN) && (y =? -1) then None else Some (inr (VInt (Z.rem x y))).
Proof.
  intros Hx Hy. unfold opr__mod, cmod. destruct (Z.eqb_spec y 0); [done|].
  assert (~ (x = LLONG_MIN /\ y = -1) -> in_i64 (Z.quot x y) = true) as Hq by (intros H; apply in_i64_spec, quot_range; [done|done|lia]).
  destruct (Z.eqb_spec x LLONG_MIN), (Z.eqb_spec y (-1)); cbn [andb orb].
  { by subst. }
  all: rewrite Hq by (by intros []); cbn [negb mbind option_bind]; apply make_int_mem.
Qed.

(** ** Signs *)

Section Signs.
Context {F : Type} (fo : float_ops F).
Context (neg_neg : forall d, f_neg fo (f_neg fo d) = d).
Context (neg_zero : forall d, f_is_zero fo (f_neg fo d) = f_is_zero fo d).
Notation val := (val (F := F)).
Implicit Types (s r : list sign) (v : val).

(** The counters of the code, from the left. *)
Fixpoint nots s : Z := match s with [] => 0 | Not :: s => 1 + nots s | _ :: s => nots s end.
Fixpoint negs s : Z :=
  match s with [] => 0 | Minus :: s => 1 + negs s | Not :: _ => 0 | _ :: s => negs s end.
Fixpoint tildes s : Z := match s with [] => 0 | Tilde :: s => 1 + tildes s | _ :: s => tildes s end.

Lemma nots_nonneg s : 0 <= nots s.
Proof. induction s as [|[] s IH]; simpl; lia. Qed.

Lemma triple_eq (x y z x' y' z' : Z) : x = x' -> y = y' -> z = z' -> (x, y, z) = (x', y', z').
Proof. by intros -> -> ->. Qed.

Lemma preopr_loop_spec s : forall n m k, 0 <= m ->
  preopr_loop s n m k = (n + (if m =? 0 then negs s else 0), m + nots s, k + tildes s).
Proof.
  induction s as [|c s IH]; intros n m k Hm; cbn [preopr_loop nots negs tildes].
  { destruct (m =? 0); apply triple_eq; lia. }
  destruct c; rewrite IH by lia; destruct (Z.eqb_spec m 0) as [->|]; cbn [b2z]; rewrite ?(proj2 (Z.eqb_neq (m + 1) 0)) by lia;
    rewrite ?(proj2 (Z.eqb_neq (0 + 1) 0)) by lia; apply triple_eq; simpl; lia.
Qed.

(** The flags of [ti_preopr_bind]. *)
Definition flags (fa bo ne nu ch iv bw : bool) : Z :=
  Z.lor (Z.lor (Z.shiftl (b2z nu) 3) (Z.shiftl (b2z bw) 6))
    (Z.lor (Z.shiftl (b2z fa) 0) (Z.lor (Z.shiftl (b2z bo) 1) (Z.lor (Z.shiftl (b2z ne) 2)
      (Z.lor (Z.shiftl (b2z ch) 4) (Z.shiftl (b2z iv) 5))))).

Lemma flags_get fa bo ne nu ch iv bw :
  let p := flags fa bo ne nu ch iv bw in
  flag p PO__FLAG_FALSE = fa /\ flag p PO__FLAG_BOOL = bo /\ flag p PO__FLAG_NEGATIVE = ne /\ flag p PO__FLAG_AS_NUM = nu /\
  flag p PO__FLAG_CHK_NUM = ch /\ flag p PO__FLAG_BIT_INV = iv /\ flag p PO__FLAG_BITWISE = bw.
Proof. destruct fa, bo, ne, nu, ch, iv, bw; repeat split. Qed.

Definition last_is_not s : bool := match list.last s with Some Not => true | _ => false end.
Definition first_num s : bool := match s with (Minus | Plus | Tilde) :: _ => true | _ => false end.
Definition first_tilde s : bool := match s with Tilde :: _ => true | _ => false end.

(** No white space at the ends. *)
Definition trimmed s : Prop := s <> [] /\ head s <> Some Space /\ list.last s <> Some Space.

Lemma land_odd x : Z.land x 1 = b2z (Z.odd x).
Proof. change 1 with (Z.ones 1) at 1. rewrite Z.land_ones by lia. change (2 ^ 1) with 2. rewrite Zmod_odd. by destruct (Z.odd x). Qed.

Lemma preopr_bind_spec s : trimmed s ->
  ti_preopr_bind s = Some (flags (Z.odd (nots s)) (negb (nots s =? 0)) (Z.odd (negs s)) (first_num s)
    (negb (last_is_not s)) (Z.odd (tildes s)) (first_tilde s)).
Proof.
  intros (Hne & Hh & Hl). destruct s as [|c s]; [done|]. unfold ti_preopr_bind, last_is_not.
  assert (exists l, list.last (c :: s) = Some l) as [l El] by (destruct (list.last (c :: s)) eqn:E; [by eexists|by apply last_None in E]).
  rewrite El in *. destruct c; try done; rewrite preopr_loop_spec by lia; cbn [nots negs tildes first_num first_tilde Z.eqb];
    rewrite !land_odd, ?Z.add_0_l; destruct l; try done; unfold flags; cbn [b2z negb Z.shiftl]; rewrite ?Z.lor_0_l; done.
Qed.

(** *** The meaning from the right *)

(** A plus or minus stands behind the last [!]; the first sign is one. *)
Fixpoint tail_sign s : bool :=
  match s with
  | [] => false
  | (Minus | Plus) :: s => if nots s =? 0 then true else tail_sign s
  | _ :: s => tail_sign s
  end.
Fixpoint lead s : bool :=
  match s with [] => false | (Minus | Plus) :: _ => true | Not :: _ => false | _ :: s => lead s end.

Definition sgn (n i : Z) : Z := if Z.odd n then - i else i.
Definition num v (n : Z) : val :=
  match v with
  | VInt i => VInt (sgn n i)
  | VFloat d => VFloat (if Z.odd n then f_neg fo d else d)
  | VBool b => VInt (sgn n (b2z b))
  | _ => v
  end.
Definition truth r v : bool := xorb (Z.odd (nots r)) (ti_val_as_bool fo v).

Lemma lead_negs r : lead r = false -> negs r = 0.
Proof. induction r as [|[] r IH]; simpl; auto; done. Qed.

Lemma tail_negs r : nots r = 0 -> tail_sign r = false -> negs r = 0.
Proof.
  induction r as [|c r IH]; [done|]. pose proof (nots_nonneg r). destruct c; cbn [nots negs tail_sign]; intros E Et.
  - by rewrite E in Et.
  - by rewrite E in Et.
  - lia.
  - by apply IH.
  - by apply IH.
Qed.

Lemma odd_succ n : Z.odd (1 + n) = negb (Z.odd n).
Proof. by rewrite Z.add_1_l, Z.odd_succ, <- Z.negb_odd. Qed.

Lemma as_bool_num v n : is_num v = true -> ti_val_as_bool fo (num v n) = ti_val_as_bool fo v.
Proof.
  destruct v as [|i|d|b| | | | |]; try done; intros _; unfold num, sgn; cbn [ti_val_as_bool]; destruct (Z.odd n).
  - destruct (Z.eqb_spec (- i) 0), (Z.eqb_spec i 0); done || lia.
  - done.
  - by rewrite neg_zero.
  - done.
  - by destruct b.
  - by destruct b.
Qed.

Lemma signs_ref_spec r v : Forall (fun c => c <> Tilde) r ->
  signs_ref fo r v =
    if tail_sign r && negb (is_num v) then inl EX_TYPE_ERROR
    else if nots r =? 0 then inr (if tail_sign r then num v (negs r) else v)
    else inr (if lead r then VInt (sgn (negs r) (b2z (truth r v))) else VBool (truth r v)).
Proof.
  induction r as [|c r IH]; intros Hr; [done|]. apply Forall_cons_1 in Hr as [Hc Hr]. cbn [signs_ref]. rewrite (IH Hr). clear IH.
  pose proof (nots_nonneg r) as Hn. pose proof (tail_negs r) as Ht. pose proof (lead_negs r) as Hl.
  destruct c; try done; cbn [nots negs tail_sign lead]; unfold truth; cbn [nots].
  - destruct (Z.eqb_spec (nots r) 0) as [E|E].
    + destruct (is_num v) eqn:Ev, (tail_sign r) eqn:Et; cbn [andb negb]; try done.
      * destruct v as [|i|d|b| | | | |]; try done; cbn [num sign_ref]; unfold sgn; rewrite odd_succ; destruct (Z.odd (negs r)); cbn [negb];
          rewrite ?Z.opp_involutive, ?neg_neg; done.
      * rewrite (Ht E eq_refl). by destruct v.
      * by destruct v.
    + destruct (tail_sign r && negb (is_num v)); [done|]. destruct (lead r) eqn:El; cbn [sign_ref]; unfold sgn; rewrite odd_succ.
      * destruct (Z.odd (negs r)); cbn [negb]; by rewrite ?Z.opp_involutive.
      * by rewrite (Hl eq_refl).
  - destruct (Z.eqb_spec (nots r) 0) as [E|E].
    + destruct (is_num v) eqn:Ev, (tail_sign r) eqn:Et; cbn [andb negb]; try done.
      * by destruct v.
      * rewrite (Ht E eq_refl). by destruct v.
      * by destruct v.
    + destruct (tail_sign r && negb (is_num v)); [done|]. destruct (lead r) eqn:El; cbn [sign_ref]; [done|].
      by rewrite (Hl eq_refl).
  - rewrite odd_succ. rewrite (proj2 (Z.eqb_neq (1 + nots r) 0)) by lia. destruct (Z.eqb_spec (nots r) 0) as [E|E].
    + rewrite E. cbn [Z.odd negb xorb]. destruct (is_num v) eqn:Ev, (tail_sign r) eqn:Et; cbn [andb negb sign_ref]; try done.
      by rewrite as_bool_num.
    + destruct (tail_sign r && negb (is_num v)); [done|]. destruct (lead r) eqn:El; cbn [sign_ref ti_val_as_bool].
      * unfold sgn. do 2 f_equal. by destruct (Z.odd (nots r)), (ti_val_as_bool fo v), (Z.odd (negs r)).
      * by rewrite negb_xorb_l.
  - destruct (tail_sign r && negb (is_num v)), (nots r =? 0); done.
Qed.

(** The tildes in front. *)
Definition inverted (k : Z) (x : ex + val) : ex + val :=
  if k =? 0 then x else
  match x with
  | inr (VInt i) => inr (VInt (if Z.odd k then Z.lnot i else i))
  | inr (VBool b) => inr (VInt (if Z.odd k then Z.lnot (b2z b) else b2z b))
  | inr _ => inl EX_TYPE_ERROR
  | inl e => inl e
  end.

Lemma tildes_nonneg s : 0 <= tildes s.
Proof. induction s as [|[] s IH]; simpl; lia. Qed.

Lemma tildes_ref t r v : Forall (fun c => c = Tilde \/ c = Space) t ->
  signs_ref fo (t ++ r) v = inverted (tildes t) (signs_ref fo r v).
Proof.
  induction t as [|c t IH]; intros Ht; [done|]. apply Forall_cons_1 in Ht as [Hc Ht]. cbn [app signs_ref]. rewrite (IH Ht). clear IH.
  pose proof (tildes_nonneg t). unfold inverted. destruct Hc as [-> | ->]; cbn [tildes].
  - rewrite (proj2 (Z.eqb_neq (1 + tildes t) 0)) by lia. rewrite odd_succ.
    destruct (Z.eqb_spec (tildes t) 0) as [->|]; cbn [Z.odd negb]; destruct (signs_ref fo r v) as [|[]]; cbn [sign_ref]; try done;
      destruct (Z.odd (tildes t)); cbn [negb]; by rewrite ?Z.lnot_involutive.
  - destruct (tildes t =? 0), (signs_ref fo r v) as [|[]]; done.
Qed.

(** *** The two agree *)

Lemma prefix_counts t r : Forall (fun c => c = Tilde \/ c = Space) t -> Forall (fun c => c <> Tilde) r ->
  nots (t ++ r) = nots r /\ negs (t ++ r) = negs r /\ tildes (t ++ r) = tildes t.
Proof.
  intros Ht Hr. induction t as [|c t IH]; cbn [app].
  - split; [done|]. split; [done|]. induction r as [|c r IH]; [done|]. apply Forall_cons_1 in Hr as [Hc Hr].
    destruct c; cbn [tildes]; auto; done.
  - apply Forall_cons_1 in Ht as [Hc Ht]. destruct (IH Ht) as (E1 & E2 & E3). destruct Hc as [-> | ->]; cbn [nots negs tildes]; rewrite E1, E2, E3; done.
Qed.

Lemma tail_sign_last r c : c <> Tilde -> c <> Space -> tail_sign (r ++ [c]) = negb (match c with Not => true | _ => false end).
Proof.
  intros H1 H2. induction r as [|x r IH]; cbn [app]; [by destruct c|].
  assert (nots (r ++ [c]) = 0 -> c <> Not) as Hn.
  { clear. induction r as [|x r IH]; cbn [app nots]; [by destruct c|]. pose proof (nots_nonneg (r ++ [c])). destruct x; auto; lia. }
  destruct x; cbn [tail_sign]; rewrite ?IH; auto; destruct (Z.eqb_spec (nots (r ++ [c])) 0) as [E|]; try done;
    specialize (Hn E); by destruct c.
Qed.

(** [ti_preopr_calc] on the flags. *)
Lemma calc_flags fa bo ne nu ch iv bw v :
  ti_preopr_calc fo true (flags fa bo ne nu ch iv bw) v =
  if ch && negb (is_num v) then err EX_TYPE_ERROR else
  if bo then
    let b := b2z (xorb fa (ti_val_as_bool fo v)) in
    Some (inr (if iv then VInt (if ne then Z.lnot (- b) else Z.lnot b)
               else if nu then VInt (if ne then - b else b) else VBool (xorb fa (ti_val_as_bool fo v))))
  else
  let rest : result (F := F) :=
    match v with
    | VInt i => if ne then if i =? LLONG_MIN then err EX_OVERFLOW else Some (inr (VInt (- i))) else Some (inr v)
    | VFloat d => Some (inr (VFloat (if ne then f_neg fo d else d)))
    | VBool b => Some (inr (VInt (if ne then - b2z b else b2z b)))
    | _ => Some (inr v)
    end in
  if bw then
    match v with
    | VInt i =>
        if iv then if ne then if i =? LLONG_MIN then err EX_OVERFLOW else Some (inr (VInt (Z.lnot (- i)))) else Some (inr (VInt (Z.lnot i)))
        else rest
    | VFloat _ => err EX_TYPE_ERROR
    | VBool b => if iv then Some (inr (VInt (Z.lnot (b2z b)))) else rest
    | _ => rest
    end
  else rest.
Proof.
  destruct (flags_get fa bo ne nu ch iv bw) as (E1 & E2 & E3 & E4 & E5 & E6 & E7). unfold ti_preopr_calc.
  rewrite E1, E2, E3, E4, E5, E6, E7. cbv zeta. rewrite !make_int_mem.
  destruct (ch && negb (is_num v)); [done|]. destruct bo.
  - destruct iv; [by destruct ne|]. destruct nu; [by destruct ne|]. by destruct (xorb fa _).
  - destruct v as [|i|d|b| | | | |], bw, iv, ne; rewrite ?make_int_mem; try done; by destruct b.
Qed.

Lemma nots_snoc r : 0 < nots (r ++ [Not]).
Proof. induction r as [|c r IH]; cbn [app nots]; [lia|]. destruct c; lia. Qed.

Lemma trimmed_first t r : Forall (fun c => c = Tilde \/ c = Space) t -> Forall (fun c => c <> Tilde) r -> trimmed (t ++ r) ->
  (t = [] /\ first_tilde (t ++ r) = false /\ first_num (t ++ r) = lead r /\ tildes t = 0) \/
  (first_tilde (t ++ r) = true /\ first_num (t ++ r) = true /\ 0 < tildes t).
Proof.
  intros Ht Hr (Hne & Hh & _). destruct t as [|c t].
  - left. destruct r as [|c r]; [done|]. apply Forall_cons_1 in Hr as [Hc _]. by destruct c.
  - right. apply Forall_cons_1 in Ht as [[-> | ->] Ht]; [|done]. pose proof (tildes_nonneg t). simpl. split_and!; try done. lia.
Qed.

Lemma trimmed_last t r : Forall (fun c => c = Tilde \/ c = Space) t -> Forall (fun c => c <> Tilde) r -> trimmed (t ++ r) ->
  (r = [] /\ last_is_not (t ++ r) = false) \/
  (last_is_not (t ++ r) = negb (tail_sign r) /\ (nots r = 0 -> tail_sign r = true)).
Proof.
  intros Ht Hr (Hne & _ & Hl). unfold last_is_not. destruct r as [|c r _] using rev_ind.
  - left. split; [done|]. rewrite app_nil_r in *. destruct t as [|c t _] using rev_ind; [done|]. rewrite last_snoc in *.
    apply Forall_app in Ht as [_ Ht]. apply Forall_cons_1 in Ht as [[-> | ->] _]; done.
  - right. rewrite app_assoc, last_snoc in *. apply Forall_app in Hr as [_ Hr]. apply Forall_cons_1 in Hr as [Hc _].
    rewrite tail_sign_last by congruence. rewrite negb_involutive. split; [by destruct c|].
    intros E. destruct c; try done. pose proof (nots_snoc r). lia.
Qed.

Lemma fit_in i : LLONG_MIN <= i <= LLONG_MAX -> fit (F := F) (inr (VInt i)) = inr (VInt i).
Proof. intros Hi. unfold fit. by rewrite (proj2 (in_i64_spec i) Hi). Qed.

Lemma fit_out i : ~ LLONG_MIN <= i <= LLONG_MAX -> fit (F := F) (inr (VInt i)) = inl EX_OVERFLOW.
Proof. intros Hi. unfold fit. by rewrite in_i64_false. Qed.

(** The one case in which they do not agree: [_Bool b = -b] is [b]. *)
Definition negated_true s v : Prop :=
  v = VBool true /\ nots s = 0 /\ Z.odd (tildes s) = true /\ Z.odd (negs s) = true.

Lemma preopr_agrees t r v :
  Forall (fun c => c = Tilde \/ c = Space) t -> Forall (fun c => c <> Tilde) r -> trimmed (t ++ r) -> val_ok v ->
  ~ negated_true (t ++ r) v ->
  exists p, ti_preopr_bind (t ++ r) = Some p /\ ti_preopr_calc fo true p v = Some (fit (signs_ref fo (t ++ r) v)).
Proof.
  intros Ht Hr Htr Hv Hbad. eexists. split; [by apply preopr_bind_spec|]. rewrite calc_flags, tildes_ref, signs_ref_spec by done.
  destruct (prefix_counts t r Ht Hr) as (E1 & E2 & E3). unfold negated_true in Hbad. rewrite E1, E2, E3 in *.
  assert (forall b : bool, LLONG_MIN <= - b2z b <= LLONG_MAX /\ LLONG_MIN <= b2z b <= LLONG_MAX /\
    LLONG_MIN <= Z.lnot (- b2z b) <= LLONG_MAX /\ LLONG_MIN <= Z.lnot (b2z b) <= LLONG_MAX) as Hb by (intros []; done).
  assert (Hi : forall i, LLONG_MIN <= i <= LLONG_MAX -> LLONG_MIN <= Z.lnot i <= LLONG_MAX) by (unfold Z.lnot, LLONG_MIN, LLONG_MAX; lia).
  destruct (trimmed_last t r Ht Hr Htr) as [[-> ->]|[-> HT]].
  - (* only tildes *)
    rewrite app_nil_r in *. destruct (trimmed_first t [] Ht (List.Forall_nil _)) as [(-> & _)|(Ef & En & Hk)]; [by rewrite app_nil_r|by destruct Htr|].
    rewrite app_nil_r in *. rewrite Ef, En. cbn [nots negs tail_sign negb Z.eqb Z.odd andb]. unfold inverted.
    rewrite (proj2 (Z.eqb_neq (tildes t) 0)) by lia.
    destruct v as [|i|d|b| | | | |]; cbn [is_num negb]; try done; destruct (Z.odd (tildes t)); rewrite fit_in; try done; [by apply Hi|by apply Hb|by apply Hb].
  - rewrite negb_involutive. destruct (tail_sign r && negb (is_num v)) eqn:ETn.
    { unfold inverted. by destruct (tildes t =? 0). }
    destruct (Z.eqb_spec (nots r) 0) as [EN|EN]; cbn [negb].
    + (* no exclamation mark: a number *)
      rewrite (HT EN) in *. cbn [andb] in ETn. apply negb_false_iff in ETn. cbv zeta.
      assert (forall i, LLONG_MIN <= i <= LLONG_MAX ->
        Some (fit (inr (VInt (sgn (negs r) i)))) = if Z.odd (negs r) then if i =? LLONG_MIN then err EX_OVERFLOW else Some (inr (VInt (- i)))
          else Some (inr (VInt (F := F) i))) as Hsgn.
      { intros i Hr'. unfold sgn. destruct (Z.odd (negs r)); [|by rewrite fit_in]. destruct (Z.eqb_spec i LLONG_MIN) as [->|];
          [by rewrite fit_out by (unfold LLONG_MIN, LLONG_MAX; lia)|by rewrite fit_in by (unfold LLONG_MIN, LLONG_MAX in *; lia)]. }
      destruct (trimmed_first t r Ht Hr Htr) as [(_ & -> & _ & ->)|(-> & _ & Hk)]; unfold inverted.
      * destruct v as [|i|d|b| | | | |]; try done; cbn [num Z.eqb]; [by rewrite Hsgn|].
        unfold sgn. destruct (Z.odd (negs r)); rewrite fit_in; try done; apply Hb.
      * rewrite (proj2 (Z.eqb_neq (tildes t) 0)) by lia. destruct v as [|i|d|b| | | | |]; try done; cbn [num].
        -- destruct (Z.odd (tildes t)); [|by rewrite Hsgn]. unfold sgn. destruct (Z.odd (negs r)); [|by rewrite fit_in by (by apply Hi)].
           destruct (Z.eqb_spec i LLONG_MIN) as [->|]; [by rewrite fit_out by (unfold Z.lnot, LLONG_MIN, LLONG_MAX; lia)|].
           by rewrite fit_in by (apply Hi; cbn [val_ok] in Hv; unfold LLONG_MIN, LLONG_MAX in *; lia).
        -- unfold sgn. destruct (Z.odd (tildes t)) eqn:Eo, (Z.odd (negs r)) eqn:En; rewrite fit_in; try done; try apply Hb.
           destruct b; [destruct Hbad; by split_and!|done].
    + (* an exclamation mark: a truth value *)
      cbv zeta. fold (truth r v). destruct (Hb (truth r v)) as (H1 & H2 & H3 & H4).
      destruct (trimmed_first t r Ht Hr Htr) as [(_ & _ & -> & ->)|(_ & -> & Hk)]; unfold inverted; cbn [Z.eqb Z.odd].
      * destruct (lead r); [|done]. unfold sgn. destruct (Z.odd (negs r)); by rewrite fit_in.
      * rewrite (proj2 (Z.eqb_neq (tildes t) 0)) by lia. destruct (lead r) eqn:El; unfold sgn.
        -- destruct (Z.odd (tildes t)), (Z.odd (negs r)); by rewrite fit_in.
        -- rewrite (lead_negs r El). cbn [Z.odd]. destruct (Z.odd (tildes t)); by rewrite fit_in.
Qed.

End Signs.

(** ** Properties *)

(** Whole numbers in place of doubles, for concrete runs. *)
Definition whole : float_ops Z :=
  FloatOps Z (fun x => x) Z.add Z.sub Z.mul Z.quot Z.opp (fun x => x =? 0) Z.ltb Z.leb in_i64 (fun x => x).

(** C14. Arithmetic on integers (and on booleans, as 0 and 1, for sums and
    differences) is exact: the result is the mathematical one when it fits in 64
    bits and an overflow error otherwise, for sums, differences and products with
    a right operand that is not negative; a quotient truncates towards zero and a
    remainder has the sign of the dividend, division by zero is an error. The
    exceptions are the quotient of the largest integer and -1, which is reported as an
    overflow, and the quotient and the remainder of the smallest integer and -1, which
    are undefined. *)
Theorem opr_integers_exact {F} (fo : float_ops F) (x y : Z) :
  LLONG_MIN <= x <= LLONG_MAX -> LLONG_MIN <= y <= LLONG_MAX ->
  (forall a b : val, val_ok a -> val_ok b -> int_of a = Some x -> int_of b = Some y ->
    ti_opr_a_to_b fo OprAdd true a b = checked (x + y) /\ ti_opr_a_to_b fo OprSub true a b = checked (x - y)) /\
  (0 <= y -> ti_opr_a_to_b fo OprMul true (VInt x) (VInt y) = checked (x * y)) /\
  ti_opr_a_to_b fo OprDiv true (VInt x) (VInt y) =
    (if y =? 0 then err EX_ZERO_DIV else
     if (x =? LLONG_MAX) && (y =? -1) then err EX_OVERFLOW else
     if (x =? LLONG_MIN) && (y =? -1) then None else Some (inr (VInt (Z.quot x y)))) /\
  ti_opr_a_to_b fo OprMod true (VInt x) (VInt y) =
    (if y =? 0 then err EX_ZERO_DIV else
     if (x =? LLONG_MIN) && (y =? -1) then None else Some (inr (VInt (Z.rem x y)))).
Proof.
  intros Hx Hy. split; [intros a b Ha Hb Ea Eb; split; [by apply add_exact|by apply sub_exact]|].
  split; [intros H; apply mul_exact; [done|lia]|]. split; [by apply div_exact|by apply mod_exact].
Qed.

Lemma opr_integers_exact_witness :
  ti_opr_a_to_b whole OprAdd true (VInt 3) (VBool true) = Some (inr (VInt 4)) /\
  ti_opr_a_to_b whole OprMul true (VInt LLONG_MIN) (VInt 1) = Some (inr (VInt LLONG_MIN)) /\
  ti_opr_a_to_b whole OprMod true (VInt (-7)) (VInt 4) = Some (inr (VInt (-3))).
Proof.
  split; [|split].
  - destruct (opr_integers_exact whole 3 1) as [H _]; [unfold LLONG_MIN, LLONG_MAX; lia|unfold LLONG_MIN, LLONG_MAX; lia|].
    apply (H (VInt 3) (VBool true)); [unfold val_ok, LLONG_MIN, LLONG_MAX; lia|done|done|done].
  - reflexivity.
  - reflexivity.
Defined.

(** No integer can be multiplied by a negative one: with a negative right
    operand the guards against overflow hold for every left operand, so that the
    result is an overflow error; for the right operand -1 and the two smallest left
    operands the guard itself divides the smallest integer by -1, which is
    undefined. *)
Theorem opr_mul_negative_fails {F} (fo : float_ops F) (mem : bool) (x y : Z) :
  LLONG_MIN <= x <= LLONG_MAX -> LLONG_MIN <= y < 0 ->
  ti_opr_a_to_b fo OprMul mem (VInt x) (VInt y) = if (y =? -1) && (x <=? - LLONG_MAX) then None else err EX_OVERFLOW.
Proof. apply mul_negative. Qed.

Lemma opr_mul_negative_fails_witness :
  ti_opr_a_to_b whole OprMul true (VInt 2) (VInt (-3)) = err EX_OVERFLOW /\
  ti_opr_a_to_b whole OprMul true (VInt LLONG_MIN) (VInt (-1)) = None.
Proof.
  split; [apply (opr_mul_negative_fails whole true 2 (-3)); unfold LLONG_MIN, LLONG_MAX; lia|reflexivity].
Defined.

(** The signs in front of a value are applied one after the other from the
    right, on unbounded integers, with an overflow error when the final integer does not
    fit: the flags that [ti_preopr_bind] keeps of them and the single computation
    of [ti_preopr_calc] give the same value or the same error, for every sequence
    of tildes followed by exclamation, minus and plus signs with white space
    between them. The exception is an odd number of tildes and of minus signs
    in front of [true]. *)
Theorem preopr_matches_reference {F} (fo : float_ops F) (t r : list sign) (v : val) :
  (forall d, f_neg fo (f_neg fo d) = d) -> (forall d, f_is_zero fo (f_neg fo d) = f_is_zero fo d) ->
  Forall (fun c => c = Tilde \/ c = Space) t -> Forall (fun c => c <> Tilde) r -> trimmed (t ++ r) -> val_ok v ->
  ~ negated_true (t ++ r) v ->
  exists p, ti_preopr_bind (t ++ r) = Some p /\ ti_preopr_calc fo true p v = Some (fit (signs_ref fo (t ++ r) v)).
Proof. intros H1 H2. by apply preopr_agrees. Qed.

(** [~ ~-+!- 5] *)
Lemma preopr_matches_reference_witness :
  exists p, ti_preopr_bind ([Tilde; Space; Tilde] ++ [Minus; Plus; Not; Minus]) = Some p /\
    ti_preopr_calc whole true p (VInt 5) = Some (inr (VInt 0)).
Proof.
  apply (preopr_matches_reference whole [Tilde; Space; Tilde] [Minus; Plus; Not; Minus] (VInt 5)).
  - intros d. apply Z.opp_involutive.
  - intros d. simpl. destruct (Z.eqb_spec (- d) 0), (Z.eqb_spec d 0); reflexivity || lia.
  - repeat (apply List.Forall_cons; [auto|]). apply List.Forall_nil.
  - repeat (apply List.Forall_cons; [discriminate|]). apply List.Forall_nil.
  - split; [discriminate|split; discriminate].
  - unfold val_ok, LLONG_MIN, LLONG_MAX. lia.
  - intros [H _]. discriminate H.
Defined.

(** [~-true] is [~1]. *)
Theorem preopr_negated_true :
  exists p, ti_preopr_bind [Tilde; Minus] = Some p /\ ti_preopr_calc whole true p (VBool true) = Some (inr (VInt (-2))) /\
    signs_ref whole [Tilde; Minus] (VBool true) = inr (VInt 0).
Proof. eexists. split; [reflexivity|]. split; reflexivity. Qed.

(** Shifts by the width or more, and by negative amounts, are undefined; a boolean
    has 32 bits. *)
Theorem opr_shift_undefined :
  opr__sl true (VInt 1) (VInt 64) = (None : result (F := Z)) /\ opr__sr true (VInt 1) (VInt (-1)) = (None : result (F := Z)) /\
  opr__sl true (VBool true) (VInt 32) = (None : result (F := Z)).
Proof. split; [|split]; reflexivity. Qed.

(** ** Comparing strings *)

Fixpoint lex (s t : list Z) : Z :=
  match s, t with
  | [], [] => 0
  | [], _ => -1
  | _, [] => 1
  | x :: s, y :: t => if x =? y then lex s t else if x <? y then -1 else 1
  end.

Lemma raw_cmp_cons x s t : ti_raw_cmp (x :: s) (x :: t) = ti_raw_cmp s t.
Proof. unfold ti_raw_cmp. cbn [length Nat.min memcmp]. by rewrite Z.eqb_refl. Qed.

(** Without the byte zero strings are ordered as in a dictionary. *)
Theorem raw_cmp_lexicographic (s t : list Z) :
  Forall (fun x => 0 < x) s -> Forall (fun x => 0 < x) t -> Z.sgn (ti_raw_cmp s t) = lex s t.
Proof.
  revert t. induction s as [|x s IH]; intros t Hs Ht.
  - destruct t as [|y t]; [done|]. apply Forall_cons_1 in Ht as [Hy _]. unfold ti_raw_cmp. simpl. lia.
  - apply Forall_cons_1 in Hs as [Hx Hs]. destruct t as [|y t]; [unfold ti_raw_cmp; simpl; lia|].
    apply Forall_cons_1 in Ht as [_ Ht]. cbn [lex]. destruct (Z.eqb_spec x y) as [->|Hne]; [rewrite raw_cmp_cons; by apply IH|].
    unfold ti_raw_cmp. cbn [length Nat.min memcmp]. rewrite (proj2 (Z.eqb_neq x y)) by done. by destruct (x <? y).
Qed.

(** With it, two different strings compare as equal; and a string that is compared
    with a time stamp is compared with the memory of the time stamp. *)
Theorem compare_faults :
  ti_raw_cmp [97; 0] [97] = 0 /\ ti_raw_eq [97; 0] [97] = false /\
  opr__lt whole (VStr [97]) (VDatetime 5) = None.
Proof. split; [|split]; reflexivity. Qed.
