(* ===== verification/Utf8.v ===== *)
(** * lib/simdutf8check: validation of UTF-8

    [src/inc/lib/simdutf8check.h] has two functions of the name
    [validate_utf8_fast]: one that looks at a byte at a time, for Apple and ARM
    ([validate_utf8_scalar] here), and one with vectors of sixteen bytes, for all
    other targets ([validate_utf8_sse]). A byte is a [Z] from 0 to 255 and a
    vector is a list of sixteen of them. The reference is the definition of UTF-8:
    the concatenation of the encodings of Unicode scalar values. *)
From Stdlib Require Import ZArith Lia.
From stdpp Require Import base list option numbers.
From S2P Require Import Prelude.

Definition byte (b : Z) : Prop := 0 <= b < 256.
Definition in_rng (lo b hi : Z) : bool := (lo <=? b) && (b <=? hi).

(** ** The reference *)

(** A code point that is not a surrogate. *)
Definition scalar_value (c : Z) : Prop := 0 <= c < 55296 \/ 57344 <= c < 1114112.

(** The bits of a code point in one to four bytes. *)
Definition encode_utf8 (c : Z) : list Z :=
  if c <? 128 then [c]
  else if c <? 2048 then [192 + c / 64; 128 + c mod 64]
  else if c <? 65536 then [224 + c / 4096; 128 + (c / 64) mod 64; 128 + c mod 64]
  else [240 + c / 262144; 128 + (c / 4096) mod 64; 128 + (c / 64) mod 64; 128 + c mod 64].

(** [s] is the encoding of some text. *)
Definition is_utf8 (s : list Z) : Prop :=
  exists cs, Forall scalar_value cs /\ s = concat (map encode_utf8 cs).

(** ** One byte at a time *)

(** The tests of one round of the loop: how far [bytes] moves, or [None] for
    [return false]. [s] holds the bytes from [bytes] to [end]. *)
Definition scalar_advance (s : list Z) : option nat :=
  match s with
  | [] => None
  | b0 :: r =>
    let b i := nth (i - 1) r 0 in
    let left := len s in
    if (b0 =? 0x09) || (b0 =? 0x0A) || (b0 =? 0x0D) || in_rng 0x20 b0 0x7E then Some 1%nat
    else if (1 <? left) && (in_rng 0xC2 b0 0xDF && in_rng 0x80 (b 1%nat) 0xBF) then Some 2%nat
    else if (2 <? left) &&
      (((b0 =? 0xE0) && in_rng 0xA0 (b 1%nat) 0xBF && in_rng 0x80 (b 2%nat) 0xBF)
       || ((in_rng 0xE1 b0 0xEC || (b0 =? 0xEE) || (b0 =? 0xEF)) && in_rng 0x80 (b 1%nat) 0xBF && in_rng 0x80 (b 2%nat) 0xBF)
       || ((b0 =? 0xED) && in_rng 0x80 (b 1%nat) 0x9F && in_rng 0x80 (b 2%nat) 0xBF)) then Some 3%nat
    else if (3 <? left) &&
      (((b0 =? 0xF0) && in_rng 0x90 (b 1%nat) 0xBF && in_rng 0x80 (b 2%nat) 0xBF && in_rng 0x80 (b 3%nat) 0xBF)
       || (in_rng 0xF1 b0 0xF3 && in_rng 0x80 (b 1%nat) 0xBF && in_rng 0x80 (b 2%nat) 0xBF && in_rng 0x80 (b 3%nat) 0xBF)
       || ((b0 =? 0xF4) && in_rng 0x80 (b 1%nat) 0x8F && in_rng 0x80 (b 2%nat) 0xBF && in_rng 0x80 (b 3%nat) 0xBF)) then Some 4%nat
    else None
  end.

(** The loop; [None] when the fuel runs out. *)
Fixpoint scalar_loop (fuel : nat) (s : list Z) : option bool :=
  match s, fuel with
  | [], _ => Some true
  | _, O => None
  | _, S fuel => match scalar_advance s with None => Some false | Some n => scalar_loop fuel (drop n s) end
  end.

Definition validate_utf8_scalar (s : list Z) : option bool := scalar_loop (length s) s.

(** ** Sixteen bytes at a time *)

(** The instructions the code uses, lane by lane; [x86intrin.h]. *)
Definition vec128 := list Z.
Definition set1_epi8 (x : Z) : vec128 := replicate 16 (u8 x).
Definition setr_epi8 (l : list Z) : vec128 := map u8 l.
Definition setzero_si128 : vec128 := replicate 16 0.
Definition or_si128 (x y : vec128) : vec128 := zip_with Z.lor x y.
Definition and_si128 (x y : vec128) : vec128 := zip_with Z.land x y.
Definition add_epi8 (x y : vec128) : vec128 := zip_with (fun a b => u8 (a + b)) x y.
(** Unsigned subtraction that stops at zero. *)
Definition subs_epu8 (x y : vec128) : vec128 := zip_with (fun a b => Z.max 0 (a - b)) x y.
(** Comparisons of signed bytes give a lane of ones or of zeros. *)
Definition mask (b : bool) : Z := if b then 255 else 0.
Definition cmpgt_epi8 (x y : vec128) : vec128 := zip_with (fun a b => mask (i8 b <? i8 a)) x y.
Definition cmpeq_epi8 (x y : vec128) : vec128 := zip_with (fun a b => mask (a =? b)) x y.
(** Sixteen lanes of [y] followed by [x], from lane [n] on. *)
Definition alignr_epi8 (x y : vec128) (n : nat) : vec128 := take 16 (drop n (y ++ x)).
(** A table look-up; an index with its high bit set gives zero. *)
Definition shuffle_epi8 (t idx : vec128) : vec128 :=
  map (fun i => if Z.testbit i 7 then 0 else nth (Z.to_nat (Z.land i 15)) t 0) idx.
(** A shift of lanes of sixteen bits, two bytes each, the low one first. *)
Fixpoint srli_epi16 (x : vec128) (n : Z) : vec128 :=
  match x with
  | lo :: hi :: r =>
    let w := Z.shiftr (lo + 256 * hi) n in
    w mod 256 :: w / 256 :: srli_epi16 r n
  | r => r
  end.
Definition testz_si128 (x y : vec128) : bool := forallb (fun b => b =? 0) (and_si128 x y).

Definition checkSmallerThan0xF4 (current_bytes has_error : vec128) : vec128 :=
  or_si128 has_error (subs_epu8 current_bytes (set1_epi8 0xF4)).

Definition continuationLengths (high_nibbles : vec128) : vec128 :=
  shuffle_epi8 (setr_epi8 [1; 1; 1; 1; 1; 1; 1; 1; 0; 0; 0; 0; 2; 2; 3; 4]) high_nibbles.

Definition carryContinuations (initial_lengths previous_carries : vec128) : vec128 :=
  let right1 := subs_epu8 (alignr_epi8 initial_lengths previous_carries (16 - 1)) (set1_epi8 1) in
  let sum := add_epi8 initial_lengths right1 in
  let right2 := subs_epu8 (alignr_epi8 sum previous_carries (16 - 2)) (set1_epi8 2) in
  add_epi8 sum right2.

Definition checkContinuations (initial_lengths carries has_error : vec128) : vec128 :=
  let overunder := cmpeq_epi8 (cmpgt_epi8 carries initial_lengths) (cmpgt_epi8 initial_lengths setzero_si128) in
  or_si128 has_error overunder.

Definition checkFirstContinuationMax (current_bytes off1_current_bytes has_error : vec128) : vec128 :=
  let maskED := cmpeq_epi8 off1_current_bytes (set1_epi8 0xED) in
  let maskF4 := cmpeq_epi8 off1_current_bytes (set1_epi8 0xF4) in
  let badfollowED := and_si128 (cmpgt_epi8 current_bytes (set1_epi8 0x9F)) maskED in
  let badfollowF4 := and_si128 (cmpgt_epi8 current_bytes (set1_epi8 0x8F)) maskF4 in
  or_si128 has_error (or_si128 badfollowED badfollowF4).

Definition checkOverlong (current_bytes off1_current_bytes hibits previous_hibits has_error : vec128) : vec128 :=
  let off1_hibits := alignr_epi8 hibits previous_hibits (16 - 1) in
  let initial_mins := shuffle_epi8
    (setr_epi8 [-128; -128; -128; -128; -128; -128; -128; -128; -128; -128; -128; -128; 0xC2; -128; 0xE1; 0xF1])
    off1_hibits in
  let initial_under := cmpgt_epi8 initial_mins off1_current_bytes in
  let second_mins := shuffle_epi8
    (setr_epi8 [-128; -128; -128; -128; -128; -128; -128; -128; -128; -128; -128; -128; 127; 127; 0xA0; 0x90])
    off1_hibits in
  let second_under := cmpgt_epi8 second_mins current_bytes in
  or_si128 has_error (and_si128 initial_under second_under).

Record processed_utf_bytes := {
  rawbytes : vec128;
  high_nibbles : vec128;
  carried_continuations : vec128
}.

(** [count_nibbles]: the high nibbles of the bytes. *)
Definition count_nibbles (bytes : vec128) : vec128 := and_si128 (srli_epi16 bytes 4) (set1_epi8 0x0F).

Definition checkUTF8Bytes (current_bytes : vec128) (previous : processed_utf_bytes) (has_error : vec128) :
    processed_utf_bytes * vec128 :=
  let hn := count_nibbles current_bytes in
  let has_error := checkSmallerThan0xF4 current_bytes has_error in
  let initial_lengths := continuationLengths hn in
  let carries := carryContinuations initial_lengths (carried_continuations previous) in
  let has_error := checkContinuations initial_lengths carries has_error in
  let off1_current_bytes := alignr_epi8 current_bytes (rawbytes previous) (16 - 1) in
  let has_error := checkFirstContinuationMax current_bytes off1_current_bytes has_error in
  let has_error := checkOverlong current_bytes off1_current_bytes hn (high_nibbles previous) has_error in
  ({| rawbytes := current_bytes; high_nibbles := hn; carried_continuations := carries |}, has_error).

(** The loop over whole vectors and the last part: [s] holds the bytes from
    [src + i] on. *)
Fixpoint sse_loop (fuel : nat) (s : list Z) (previous : processed_utf_bytes) (has_error : vec128) : option bool :=
  match fuel with
  | O => None
  | S fuel =>
    if 16 <=? len s then
      let '(previous, has_error) := checkUTF8Bytes (take 16 s) previous has_error in
      sse_loop fuel (drop 16 s) previous has_error
    else
      let has_error :=
        if 0 <? len s then
          let buffer := s ++ replicate (16 - length s) 0 in
          (checkUTF8Bytes buffer previous has_error).2
        else
          or_si128 (cmpgt_epi8 (carried_continuations previous)
            (setr_epi8 [9; 9; 9; 9; 9; 9; 9; 9; 9; 9; 9; 9; 9; 9; 9; 1])) has_error in
      Some (testz_si128 has_error has_error)
  end.

Definition validate_utf8_sse (s : list Z) : option bool :=
  sse_loop (S (length s))
    s {| rawbytes := setzero_si128; high_nibbles := setzero_si128; carried_continuations := setzero_si128 |}
    setzero_si128.

Example scalar_euro : validate_utf8_scalar [0xE2; 0x82; 0xAC; 0x31] = Some true. Proof. reflexivity. Qed.
Example sse_euro : validate_utf8_sse (replicate 14 0x41 ++ [0xE2; 0x82; 0xAC; 0x31]) = Some true. Proof. vm_compute. reflexivity. Qed.
Example sse_overlong : validate_utf8_sse [0xC0; 0x80] = Some false. Proof. vm_compute. reflexivity. Qed.
Example sse_cut : validate_utf8_sse (replicate 14 0x41 ++ [0xE2; 0x82]) = Some false. Proof. vm_compute. reflexivity. Qed.
