(* ===== verification/Utf8Proof.v ===== *)
(** * The vector code as an automaton

    Every lane of [checkUTF8Bytes] looks at its byte and at what the two lanes
    before it pass on. [lane] is this step for one byte, the code of a vector is
    sixteen of them ([checkUTF8Bytes_lanes]), and after a vector the step goes on
    from the carries of its last two lanes ([next_vector]). The invariant
    [tracks] relates what is passed on to the number of continuation bytes that
    are still missing. *)
From Stdlib Require Import ZArith Lia.
From stdpp Require Import base list option numbers.
From S2P Require Import Prelude Utf8.

(** Arithmetic with divisions by constants. *)
Ltac dlia := Z.div_mod_to_equations; lia.

(** ** One lane *)

Record lane_state := LaneState {
  l_byte : Z;        (* the byte before *)
  l_nibble : Z;      (* its high nibble *)
  l_right1 : Z;      (* what [right1] is computed from *)
  l_sum : Z; l_sum2 : Z;     (* what [right2] is computed from, one and two bytes before *)
  l_carry : Z; l_carry2 : Z  (* the carries of the last two bytes *)
}.

Definition LENGTHS : list Z := [1; 1; 1; 1; 1; 1; 1; 1; 0; 0; 0; 0; 2; 2; 3; 4].
Definition INITIAL_MINS : list Z := [128; 128; 128; 128; 128; 128; 128; 128; 128; 128; 128; 128; 0xC2; 128; 0xE1; 0xF1].
Definition SECOND_MINS : list Z := [128; 128; 128; 128; 128; 128; 128; 128; 128; 128; 128; 128; 127; 127; 0xA0; 0x90].
Definition look (t : list Z) (i : Z) : Z := if Z.testbit i 7 then 0 else nth (Z.to_nat (Z.land i 15)) t 0.

Definition lane_next (st : lane_state) (b h : Z) : lane_state :=
  let l := look LENGTHS h in
  let sum := u8 (l + Z.max 0 (l_right1 st - 1)) in
  let c := u8 (sum + Z.max 0 (l_sum2 st - 2)) in
  LaneState b h l sum (l_sum st) c (l_carry st).

Definition lane_error (e : Z) (st : lane_state) (b h : Z) : Z :=
  let l := look LENGTHS h in
  let c := l_carry (lane_next st b h) in
  let e := Z.lor e (Z.max 0 (b - 0xF4)) in
  let e := Z.lor e (mask (mask (i8 l <? i8 c) =? mask (i8 0 <? i8 l))) in
  let e := Z.lor e (Z.lor (Z.land (mask (i8 0x9F <? i8 b)) (mask (l_byte st =? 0xED)))
                          (Z.land (mask (i8 0x8F <? i8 b)) (mask (l_byte st =? 0xF4)))) in
  Z.lor e (Z.land (mask (i8 (l_byte st) <? i8 (look INITIAL_MINS (l_nibble st))))
                  (mask (i8 b <? i8 (look SECOND_MINS (l_nibble st))))).

Fixpoint lanes (st : lane_state) (bs hs es : list Z) : list Z * list Z * lane_state :=
  match bs, hs, es with
  | b :: bs, h :: hs, e :: es =>
    let '(cs, es', st') := lanes (lane_next st b h) bs hs es in
    (l_carry (lane_next st b h) :: cs, lane_error e st b h :: es', st')
  | _, _, _ => ([], [], st)
  end.

(** What a vector passes on to the first lane of the next one. *)
Definition next_vector (p : processed_utf_bytes) : lane_state :=
  let c14 := nth 14 (carried_continuations p) 0 in
  let c15 := nth 15 (carried_continuations p) 0 in
  LaneState (nth 15 (rawbytes p) 0) (nth 15 (high_nibbles p) 0) c15 c15 c14 c15 c14.

Lemma list16 {A} (l : list A) : length l = 16%nat ->
  exists a0 a1 a2 a3 a4 a5 a6 a7 a8 a9 a10 a11 a12 a13 a14 a15,
    l = [a0; a1; a2; a3; a4; a5; a6; a7; a8; a9; a10; a11; a12; a13; a14; a15].
Proof.
  intros H. do 16 (destruct l as [|? l]; [done|]). destruct l; [|done].
  by repeat eexists.
Qed.

Ltac split16 l H :=
  let H' := fresh in pose proof (list16 l H) as H';
  destruct H' as (? & ? & ? & ? & ? & ? & ? & ? & ? & ? & ? & ? & ? & ? & ? & ? & ->); clear H.

(** The vector code is sixteen steps. *)
Lemma checkUTF8Bytes_lanes cur p er :
  length cur = 16%nat -> length (count_nibbles cur) = 16%nat -> length er = 16%nat ->
  length (rawbytes p) = 16%nat -> length (high_nibbles p) = 16%nat -> length (carried_continuations p) = 16%nat ->
  let r := lanes (next_vector p) cur (count_nibbles cur) er in
  checkUTF8Bytes cur p er =
    ({| rawbytes := cur; high_nibbles := count_nibbles cur; carried_continuations := r.1.1 |}, r.1.2).
Proof.
  unfold checkUTF8Bytes. generalize (count_nibbles cur) as hs. destruct p as [pr ph pc].
  cbn [rawbytes high_nibbles carried_continuations].
  intros hs H1 H2 H3 H4 H5 H6.
  split16 cur H1. split16 hs H2. split16 er H3. split16 pr H4. split16 ph H5. split16 pc H6.
  cbv zeta. f_equal.
Qed.

(** ** The high nibbles *)

Lemma nibble_low lo hi : byte lo -> byte hi -> Z.land ((Z.shiftr (lo + 256 * hi) 4) mod 256) 15 = lo / 16.
Proof.
  unfold byte. intros ??. change 15 with (Z.ones 4). rewrite Z.land_ones by lia.
  rewrite Z.shiftr_div_pow2 by lia. change (2 ^ 4) with 16. dlia.
Qed.

Lemma nibble_high lo hi : byte lo -> byte hi -> Z.land (Z.shiftr (lo + 256 * hi) 4 / 256) 15 = hi / 16.
Proof.
  unfold byte. intros ??. change 15 with (Z.ones 4). rewrite Z.land_ones by lia.
  rewrite Z.shiftr_div_pow2 by lia. change (2 ^ 4) with 16. dlia.
Qed.

Lemma nibbles_pairs n bs : length bs = (2 * n)%nat -> Forall byte bs ->
  zip_with Z.land (srli_epi16 bs 4) (replicate (2 * n) 15) = map (fun b => b / 16) bs.
Proof.
  revert bs. induction n as [|n IH]; intros bs Hlen Hb.
  { by destruct bs. }
  destruct bs as [|lo [|hi bs]]; [simpl in Hlen; lia..|].
  apply Forall_cons_1 in Hb as [Hlo Hb]. apply Forall_cons_1 in Hb as [Hhi Hb].
  replace (2 * S n)%nat with (S (S (2 * n))) by lia.
  cbn [srli_epi16 replicate zip_with map]. cbv zeta.
  rewrite nibble_low, nibble_high by done. do 2 f_equal.
  apply IH; [simpl in Hlen; lia|done].
Qed.

Lemma count_nibbles_map bs : length bs = 16%nat -> Forall byte bs -> count_nibbles bs = map (fun b => b / 16) bs.
Proof. intros ??. by apply (nibbles_pairs 8). Qed.

(** ** The automaton *)

(** How many continuation bytes are missing and in which range the next one
    is. The bytes 0xC0 and 0xC1 leave an empty range. *)
Definition dfa := (Z * Z * Z)%type.
Definition dfa_start : dfa := (0, 0x80, 0xBF).

Definition dfa_step (d : dfa) (b : Z) : option dfa :=
  let '(k, lo, hi) := d in
  if k =? 0 then
    if b <? 0x80 then Some dfa_start
    else if b <? 0xC0 then None
    else if b <? 0xC2 then Some (1, 1, 0)
    else if b <? 0xE0 then Some (1, 0x80, 0xBF)
    else if b =? 0xE0 then Some (2, 0xA0, 0xBF)
    else if b =? 0xED then Some (2, 0x80, 0x9F)
    else if b <? 0xF0 then Some (2, 0x80, 0xBF)
    else if b =? 0xF0 then Some (3, 0x90, 0xBF)
    else if b <? 0xF4 then Some (3, 0x80, 0xBF)
    else if b =? 0xF4 then Some (3, 0x80, 0x8F)
    else None
  else if in_rng lo b hi then Some (k - 1, 0x80, 0xBF) else None.

Fixpoint dfa_run (d : dfa) (s : list Z) : option dfa :=
  match s with [] => Some d | b :: s => d ← dfa_step d b; dfa_run d s end.

(** The range after a byte, when one more is missing. *)
Definition bounds (b : Z) : Z * Z :=
  if b <? 0xC0 then (0x80, 0xBF)
  else if b <? 0xC2 then (1, 0)
  else if b =? 0xE0 then (0xA0, 0xBF)
  else if b =? 0xED then (0x80, 0x9F)
  else if b =? 0xF0 then (0x90, 0xBF)
  else if b =? 0xF4 then (0x80, 0x8F)
  else (0x80, 0xBF).

(** ** The invariant *)

Definition tracks (n : nat) (st : lane_state) (d : dfa) : Prop :=
  let '(k, lo, hi) := d in
  let r1 := Z.max 0 (l_right1 st - 1) in
  let r2 := Z.max 0 (l_sum2 st - 2) in
  0 <= k <= 3 /\ byte (l_byte st) /\ l_nibble st = l_byte st / 16 /\
  (k = 0 -> l_byte st < 0xC0) /\ (0 < k -> (lo, hi) = bounds (l_byte st)) /\
  (0 <= l_right1 st <= 4 /\ 0 <= l_sum st <= 4 /\ 0 <= l_sum2 st <= 4) /\
  (0 < r1 + r2 <-> 0 < k) /\ Z.max 0 (l_sum st - 2) = Z.max 0 (k - 1) /\ Z.max 0 (r1 - 2) = Z.max 0 (k - 2) /\
  ((1 <= n)%nat -> r1 + r2 = k) /\ ((2 <= n)%nat -> l_carry st = k + 1) /\
  ((3 <= n)%nat -> 0 <= l_carry2 st <= 4 /\ (3 <= l_carry2 st -> 0 < k)).

Definition lead_length (b : Z) : Z :=
  if b <? 0x80 then 1 else if b <? 0xC0 then 0 else if b <? 0xE0 then 2 else if b <? 0xF0 then 3 else 4.

Lemma nibble_cases (P : Z -> Z -> Prop) :
  (forall b h, 0 <= h < 16 -> 16 * h <= b < 16 * h + 16 -> P b h) -> forall b, byte b -> P b (b / 16).
Proof. unfold byte. intros H b Hb. apply H; dlia. Qed.

Lemma look_nibble (P : list Z -> Z -> Z -> Prop) t :
  (forall h, 0 <= h < 16 -> P t h (nth (Z.to_nat h) t 0)) -> forall b, byte b -> P t (b / 16) (look t (b / 16)).
Proof.
  intros H b Hb. assert (Hh : 0 <= b / 16 < 16) by (unfold byte in Hb; dlia).
  unfold look. replace (Z.testbit (b / 16) 7) with false.
  - change 15 with (Z.ones 4). rewrite Z.land_ones, Z.mod_small by lia. by apply H.
  - symmetry. apply Z.bits_above_log2; [lia|].
    destruct (decide (b / 16 = 0)) as [->|]; [done|]. apply Z.log2_lt_pow2; lia.
Qed.

Ltac nibbles := let h := fresh "h" in let H := fresh "H" in intros h H;
  assert (h = 0 \/ h = 1 \/ h = 2 \/ h = 3 \/ h = 4 \/ h = 5 \/ h = 6 \/ h = 7 \/ h = 8 \/ h = 9 \/ h = 10 \/
          h = 11 \/ h = 12 \/ h = 13 \/ h = 14 \/ h = 15) as Hc by lia; clear H;
  repeat (destruct Hc as [->|Hc]); try subst h;
  lazy [nth Z.to_nat Pos.to_nat Pos.iter_op Nat.add LENGTHS INITIAL_MINS SECOND_MINS].

Lemma look_lengths b : byte b -> look LENGTHS (b / 16) = lead_length b.
Proof.
  intros Hb. refine (look_nibble (fun _ h x => forall b, byte b -> b / 16 = h -> x = lead_length b) LENGTHS _ b Hb b Hb eq_refl).
  unfold lead_length, byte. nibbles; intros c Hc1 Hc2; zbool; dlia.
Qed.

(** The two minimums for the byte after [b], as signed bytes. *)
Definition mins (b : Z) : Z * Z :=
  if b <? 0xC0 then (-128, -128) else if b <? 0xD0 then (-62, 127)
  else if b <? 0xE0 then (-128, 127) else if b <? 0xF0 then (-31, -96) else (-15, -112).

Lemma look_mins b : byte b -> i8 (look INITIAL_MINS (b / 16)) = (mins b).1 /\ i8 (look SECOND_MINS (b / 16)) = (mins b).2.
Proof.
  intros Hb. split.
  - refine (look_nibble (fun _ h x => forall b, byte b -> b / 16 = h -> i8 x = (mins b).1) INITIAL_MINS _ b Hb b Hb eq_refl).
    unfold mins, byte. nibbles; intros c Hc1 Hc2; zbool; cbn [fst]; try reflexivity; exfalso; dlia.
  - refine (look_nibble (fun _ h x => forall b, byte b -> b / 16 = h -> i8 x = (mins b).2) SECOND_MINS _ b Hb b Hb eq_refl).
    unfold mins, byte. nibbles; intros c Hc1 Hc2; zbool; cbn [snd]; try reflexivity; exfalso; dlia.
Qed.

Lemma i8_byte x : byte x -> i8 x = if x <? 128 then x else x - 256.
Proof. unfold byte, i8. intros Hx. zbool; dlia. Qed.

Lemma mask_0 b : mask b = 0 <-> b = false.
Proof. by destruct b. Qed.

Lemma mask_eqb x y : (mask x =? mask y) = eqb x y.
Proof. by destruct x, y. Qed.

Lemma mask_land x y : Z.land (mask x) (mask y) = mask (x && y).
Proof. by destruct x, y. Qed.

(** What the error of a lane says. *)
Lemma lane_error_0 e st b h :
  lane_error e st b h = 0 <->
    e = 0 /\ Z.max 0 (b - 0xF4) = 0 /\
    eqb (i8 (look LENGTHS h) <? i8 (l_carry (lane_next st b h))) (i8 0 <? i8 (look LENGTHS h)) = false /\
    (i8 0x9F <? i8 b) && (l_byte st =? 0xED) = false /\
    (i8 0x8F <? i8 b) && (l_byte st =? 0xF4) = false /\
    (i8 (l_byte st) <? i8 (look INITIAL_MINS (l_nibble st))) && (i8 b <? i8 (look SECOND_MINS (l_nibble st))) = false.
Proof.
  unfold lane_error. cbv zeta. rewrite !Z.lor_eq_0_iff, !mask_land, mask_eqb, !mask_0. tauto.
Qed.

Lemma lead_length_range b : 0 <= lead_length b <= 4.
Proof. unfold lead_length. zbool; lia. Qed.

(** The fields after a step, without wrap-around. *)
Lemma lane_next_small st b :
  0 <= l_right1 st <= 4 -> 0 <= l_sum2 st <= 4 -> byte b ->
  let r1 := Z.max 0 (l_right1 st - 1) in
  let r2 := Z.max 0 (l_sum2 st - 2) in
  lane_next st b (b / 16) =
    LaneState b (b / 16) (lead_length b) (lead_length b + r1) (l_sum st) (lead_length b + r1 + r2) (l_carry st).
Proof.
  intros H1 H2 Hb r1 r2. pose proof (lead_length_range b). unfold lane_next. cbv zeta.
  rewrite look_lengths by done. fold r1 r2. rewrite (u8_small (lead_length b + r1)) by lia.
  by rewrite u8_small by lia.
Qed.

(** The two checks of the byte after the first one. *)
Lemma first_max_0 m x b1 b : byte m -> 128 <= m -> byte b ->
  (i8 m <? i8 b) && (b1 =? x) = false <-> (b1 = x -> 0x80 <= b <= m).
Proof.
  intros Hm ? Hb. rewrite (i8_byte m), (i8_byte b) by done. unfold byte in *.
  destruct (Z.eqb_spec b1 x); rewrite ?andb_true_r, ?andb_false_r; [|by intuition].
  destruct (Z.ltb_spec m 128), (Z.ltb_spec b 128); zbool; intuition lia.
Qed.

Lemma overlong_0 b1 b : byte b1 -> byte b ->
  (i8 b1 <? i8 (look INITIAL_MINS (b1 / 16))) && (i8 b <? i8 (look SECOND_MINS (b1 / 16))) = false <->
    (0xC0 <= b1 < 0xC2 -> b = 0x7F) /\ (b1 = 0xE0 -> 0xA0 <= b \/ b < 0x80) /\ (b1 = 0xF0 -> 0x90 <= b \/ b < 0x80).
Proof.
  intros Hb1 Hb. destruct (look_mins b1 Hb1) as [-> ->]. rewrite (i8_byte b1), (i8_byte b) by done.
  unfold byte, mins in *.
  destruct (Z.ltb_spec b1 128), (Z.ltb_spec b 128), (Z.ltb_spec b1 0xC0), (Z.ltb_spec b1 0xD0), (Z.ltb_spec b1 0xE0),
    (Z.ltb_spec b1 0xF0); try (exfalso; lia); cbn [fst snd]; zbool; cbn [andb]; intuition lia.
Qed.

(** Once the carries are known, the error of a lane is about bytes only. *)
Lemma lane_error_bytes n st k lo hi b : tracks n st (k, lo, hi) -> byte b ->
  lane_error 0 st b (b / 16) = 0 <->
    b <= 0xF4 /\ (if 0 <? k then lead_length b = 0 else 0 < lead_length b) /\
    (l_byte st = 0xED -> 0x80 <= b <= 0x9F) /\ (l_byte st = 0xF4 -> 0x80 <= b <= 0x8F) /\
    (0xC0 <= l_byte st < 0xC2 -> b = 0x7F) /\
    (l_byte st = 0xE0 -> 0xA0 <= b \/ b < 0x80) /\ (l_byte st = 0xF0 -> 0x90 <= b \/ b < 0x80).
Proof.
  intros (Hk & Hb1 & Hn & _ & _ & (Hx & Hs & Hs2) & HW & _) Hb.
  rewrite lane_error_0, Hn, look_lengths, overlong_0 by done.
  rewrite lane_next_small by done. cbn [l_carry]. pose proof (lead_length_range b).
  set (r1 := Z.max 0 (l_right1 st - 1)) in *. set (r2 := Z.max 0 (l_sum2 st - 2)) in *.
  rewrite (i8_small (lead_length b)), (i8_small (lead_length b + r1 + r2)) by lia.
  rewrite !first_max_0 by (unfold byte; lia || done). change (i8 0) with 0.
  assert (Hover : eqb (lead_length b <? lead_length b + r1 + r2) (0 <? lead_length b) = false <->
     (if 0 <? k then lead_length b = 0 else 0 < lead_length b)) by (zbool; cbn [eqb]; lia).
  rewrite Hover. clear Hover. intuition lia.
Qed.

Lemma lead_length_0 b : byte b -> lead_length b = 0 <-> 0x80 <= b < 0xC0.
Proof. unfold byte, lead_length. intros. zbool; lia. Qed.

Lemma bounds_range b1 b : byte b1 -> byte b ->
  in_rng (bounds b1).1 b (bounds b1).2 = true <->
    lead_length b = 0 /\
    (b1 = 0xED -> 0x80 <= b <= 0x9F) /\ (b1 = 0xF4 -> 0x80 <= b <= 0x8F) /\ (0xC0 <= b1 < 0xC2 -> b = 0x7F) /\
    (b1 = 0xE0 -> 0xA0 <= b \/ b < 0x80) /\ (b1 = 0xF0 -> 0x90 <= b \/ b < 0x80).
Proof.
  intros Hb1 Hb. rewrite lead_length_0 by done. unfold byte, bounds, in_rng in *.
  destruct (Z.ltb_spec b1 0xC0), (Z.ltb_spec b1 0xC2), (Z.eqb_spec b1 0xE0), (Z.eqb_spec b1 0xED), (Z.eqb_spec b1 0xF0),
    (Z.eqb_spec b1 0xF4); try (exfalso; lia); cbn [fst snd]; rewrite andb_true_iff, !Z.leb_le; lia.
Qed.

(** The first byte of a character. *)
Lemma dfa_step_lead b lo hi : byte b ->
  match dfa_step (0, lo, hi) b with
  | Some (k, lo', hi') =>
    0 < lead_length b /\ b <= 0xF4 /\ k = lead_length b - 1 /\ (0 < k -> (lo', hi') = bounds b) /\ (k = 0 -> b < 0xC0)
  | None => lead_length b = 0 \/ 0xF4 < b
  end.
Proof.
  unfold dfa_step, byte, lead_length, bounds, dfa_start. cbn [Z.eqb]. intros Hb.
  destruct (Z.ltb_spec b 0x80); [rewrite (proj2 (Z.ltb_lt b 0xC0)) by lia; lia|].
  destruct (Z.ltb_spec b 0xC0); [lia|].
  destruct (Z.ltb_spec b 0xC2); [rewrite (proj2 (Z.ltb_lt b 0xE0)) by lia; split_and!; intros; (reflexivity || lia)|].
  destruct (Z.ltb_spec b 0xE0).
  { rewrite (proj2 (Z.eqb_neq b 0xE0)), (proj2 (Z.eqb_neq b 0xED)), (proj2 (Z.eqb_neq b 0xF0)), (proj2 (Z.eqb_neq b 0xF4)) by lia.
    split_and!; intros; (reflexivity || lia). }
  destruct (Z.eqb_spec b 0xE0) as [->|]; [split_and!; intros; (reflexivity || lia)|].
  destruct (Z.eqb_spec b 0xED) as [->|]; [split_and!; intros; (reflexivity || lia)|].
  destruct (Z.ltb_spec b 0xF0).
  { rewrite (proj2 (Z.eqb_neq b 0xF0)), (proj2 (Z.eqb_neq b 0xF4)) by lia. split_and!; intros; (reflexivity || lia). }
  destruct (Z.eqb_spec b 0xF0) as [->|]; [split_and!; intros; (reflexivity || lia)|].
  destruct (Z.ltb_spec b 0xF4).
  { rewrite (proj2 (Z.eqb_neq b 0xF4)) by lia. split_and!; intros; (reflexivity || lia). }
  destruct (Z.eqb_spec b 0xF4) as [->|]; [split_and!; intros; (reflexivity || lia)|]. lia.
Qed.

(** One byte: the lane reports an error exactly when the automaton stops. *)
Lemma lane_step n st d b : tracks n st d -> byte b ->
  match dfa_step d b with
  | Some d' => lane_error 0 st b (b / 16) = 0 /\ tracks (S n) (lane_next st b (b / 16)) d'
  | None => lane_error 0 st b (b / 16) <> 0
  end.
Proof.
  destruct d as [[k lo] hi]. intros Ht Hb. pose proof (lane_error_bytes _ _ _ _ _ _ Ht Hb) as Herr.
  pose proof (lead_length_range b) as Hrange.
  destruct Ht as (Hk & Hb1 & Hn & Hlead & Hbd & (Hx & Hs & Hs2) & HW1 & HW2 & HW3 & HE & HC & HC2).
  rewrite lane_next_small by done. unfold tracks. cbn [l_byte l_nibble l_right1 l_sum l_sum2 l_carry l_carry2].
  destruct (Z.eqb_spec k 0) as [->|Hk0].
  - pose proof (dfa_step_lead b lo hi Hb) as Hstep. specialize (Hlead eq_refl). cbn [Z.ltb Z.compare] in Herr.
    destruct (dfa_step (0, lo, hi) b) as [[[k' lo'] hi']|].
    + destruct Hstep as (Hl & Hmax & -> & Hbd' & Hlt). rewrite Herr. split; [clear Herr Hbd Hbd'; split_and!; lia|].
      split_and!; try done; clear Herr Hbd Hbd'; lia.
    + rewrite Herr. clear Herr Hbd. lia.
  - specialize (Hbd ltac:(lia)). pose proof (bounds_range (l_byte st) b Hb1 Hb) as Hin.
    rewrite <- Hbd in Hin. cbn [fst snd] in Hin. cbn [dfa_step]. rewrite (proj2 (Z.eqb_neq k 0)) by done.
    rewrite (proj2 (Z.ltb_lt 0 k)) in Herr by lia.
    destruct (in_rng lo b hi).
    + destruct (proj1 Hin eq_refl) as (Hl & Hrest). rewrite Herr, Hl.
      pose proof (proj1 (lead_length_0 b Hb) Hl). split; [split; [lia|]; split; [done|exact Hrest]|].
      clear Herr Hrest Hin Hbd. unfold bounds. rewrite (proj2 (Z.ltb_lt b 0xC0)) by lia. split_and!; try done; lia.
    + rewrite Herr. intros (_ & Hl & Hrest). discriminate (proj2 Hin (conj Hl Hrest)).
Qed.

(** ** A vector, and all of them *)

Definition zeros (es : list Z) : Prop := Forall (fun e => e = 0) es.

Lemma lane_error_split e st b h : lane_error e st b h = 0 <-> e = 0 /\ lane_error 0 st b h = 0.
Proof. rewrite (lane_error_0 e), (lane_error_0 0). tauto. Qed.

Lemma lane_carry_small n st d b : tracks n st d -> byte b -> lane_error 0 st b (b / 16) = 0 ->
  0 <= l_carry (lane_next st b (b / 16)) <= 9.
Proof.
  destruct d as [[k lo] hi]. intros Ht Hb Herr. apply (lane_error_bytes _ _ _ _ _ _ Ht Hb) in Herr as (_ & Hl & _).
  destruct Ht as (Hk & _ & _ & _ & _ & (Hx & Hs & Hs2) & HW1 & _). pose proof (lead_length_range b).
  rewrite lane_next_small by done. cbn [l_carry]. destruct (Z.ltb_spec 0 k); lia.
Qed.

Lemma lanes_run bs : forall es n st d, tracks n st d -> Forall byte bs -> length es = length bs ->
  let r := lanes st bs (map (fun b => b / 16) bs) es in
  match dfa_run d bs with
  | Some d' => (zeros r.1.2 <-> zeros es) /\ tracks (n + length bs) r.2 d' /\ Forall (fun c => 0 <= c <= 9) r.1.1
  | None => ~ zeros r.1.2
  end.
Proof.
  induction bs as [|b bs IH]; intros es n st d Ht Hbs Hes; cbv zeta.
  { destruct es; [|done]. cbn. rewrite Nat.add_0_r. by split_and!. }
  destruct es as [|e es]; [done|]. apply Forall_cons_1 in Hbs as [Hb Hbs]. injection Hes as Hes.
  pose proof (lane_step n st d b Ht Hb) as Hstep. cbn [map lanes dfa_run].
  destruct (dfa_step d b) as [d1|] eqn:Hd; cbn [mbind option_bind].
  - destruct Hstep as [He Ht1]. pose proof (lane_carry_small _ _ _ _ Ht Hb He) as Hc.
    specialize (IH es _ _ _ Ht1 Hbs Hes). cbv zeta in IH.
    destruct (lanes (lane_next st b (b / 16)) bs (map (fun b => b / 16) bs) es) as [[cs es'] st']. cbn [fst snd] in *.
    destruct (dfa_run d1 bs) as [d'|].
    + destruct IH as (IH1 & IH2 & IH3). unfold zeros in *. rewrite !Forall_cons_iff, lane_error_split, IH1.
      replace (n + length (b :: bs))%nat with (S n + length bs)%nat by (simpl; lia). split_and!; try done; try tauto; lia.
    + unfold zeros in *. rewrite Forall_cons_iff. tauto.
  - destruct (lanes _ bs _ es) as [[cs es'] st']. cbn [fst snd]. unfold zeros.
    rewrite Forall_cons_iff, lane_error_split. tauto.
Qed.

(** The lists of sixteen lanes end where the last step is. *)
Lemma lanes16_last st bs hs es : length bs = 16%nat -> length hs = 16%nat -> length es = 16%nat ->
  let r := lanes st bs hs es in
  length r.1.1 = 16%nat /\ length r.1.2 = 16%nat /\
  next_vector {| rawbytes := bs; high_nibbles := hs; carried_continuations := r.1.1 |} =
    LaneState (l_byte r.2) (l_nibble r.2) (l_carry r.2) (l_carry r.2) (l_carry2 r.2) (l_carry r.2) (l_carry2 r.2).
Proof. intros H1 H2 H3. split16 bs H1. split16 hs H2. split16 es H3. by split_and!. Qed.

(** From the last lane of a vector to the first one of the next. *)
Lemma tracks_next st d : tracks 3 st d ->
  tracks 0 (LaneState (l_byte st) (l_nibble st) (l_carry st) (l_carry st) (l_carry2 st) (l_carry st) (l_carry2 st)) d.
Proof.
  destruct d as [[k lo] hi].
  intros (Hk & Hb1 & Hn & Hlead & Hbd & (Hx & Hs & Hs2) & HW1 & HW2 & HW3 & HE & HC & HC2).
  specialize (HC ltac:(lia)). specialize (HC2 ltac:(lia)). unfold tracks.
  cbn [l_byte l_nibble l_right1 l_sum l_sum2 l_carry l_carry2]. split_and!; try done; lia.
Qed.

(** What holds between two vectors; [er] are the errors so far. *)
Definition between (p : processed_utf_bytes) (d : dfa) : Prop :=
  length (rawbytes p) = 16%nat /\ length (high_nibbles p) = 16%nat /\ length (carried_continuations p) = 16%nat /\
  tracks 0 (next_vector p) d /\ Forall (fun c => 0 <= c <= 9) (carried_continuations p) /\
  (nth 15 (carried_continuations p) 0 <= 1 <-> d.1.1 = 0).

Lemma check_vector cur p er d : length cur = 16%nat -> Forall byte cur -> length er = 16%nat ->
  length (rawbytes p) = 16%nat -> length (high_nibbles p) = 16%nat -> length (carried_continuations p) = 16%nat ->
  tracks 0 (next_vector p) d ->
  let r := checkUTF8Bytes cur p er in
  length r.2 = 16%nat /\
  match dfa_run d cur with
  | Some d' => (zeros r.2 <-> zeros er) /\ between r.1 d'
  | None => ~ zeros r.2
  end.
Proof.
  intros Hlen Hb He H1 H2 H3 Ht. pose proof (count_nibbles_map cur Hlen Hb) as Hn.
  assert (length (count_nibbles cur) = 16%nat) as Hl by (by rewrite Hn, length_map).
  rewrite checkUTF8Bytes_lanes by done. cbv zeta. cbn [fst snd].
  pose proof (lanes16_last (next_vector p) cur (count_nibbles cur) er Hlen Hl He) as (Hc & Hs & Hnext).
  pose proof (lanes_run cur er 0 _ d Ht Hb ltac:(by rewrite Hlen)) as Hrun. rewrite <- Hn in Hrun. cbv zeta in Hrun.
  split; [done|]. destruct (dfa_run d cur) as [d'|]; [|done]. destruct Hrun as (Hz & Ht' & Hsmall).
  split; [done|]. rewrite Hlen in Ht'. split_and!; try done.
  - rewrite Hnext. apply tracks_next. destruct d' as [[k lo] hi]. unfold tracks in *. naive_solver lia.
  - assert (Hcar : nth 15 (lanes (next_vector p) cur (count_nibbles cur) er).1.1 0
        = l_carry (lanes (next_vector p) cur (count_nibbles cur) er).2) by (apply (f_equal l_carry) in Hnext; exact Hnext).
    cbn [carried_continuations]. rewrite Hcar. destruct d' as [[k lo] hi]. unfold tracks in Ht'. cbn [fst].
    destruct Ht' as (Hk & _ & _ & _ & _ & _ & _ & _ & _ & _ & Hca & _). rewrite Hca by lia. lia.
Qed.

(** Errors stay. *)
Lemma lanes_errors bs : forall st hs es, length hs = length bs -> length es = length bs ->
  zeros (lanes st bs hs es).1.2 -> zeros es.
Proof.
  induction bs as [|b bs IH]; intros st hs es Hh He; [by destruct es|].
  destruct hs as [|h hs]; [done|]. destruct es as [|e es]; [done|]. cbn [lanes].
  specialize (IH (lane_next st b h) hs es ltac:(simpl in *; lia) ltac:(simpl in *; lia)).
  destruct (lanes (lane_next st b h) bs hs es) as [[cs es'] st']. cbn [fst snd] in *. unfold zeros in *.
  rewrite !Forall_cons_iff, lane_error_split. tauto.
Qed.

Definition lengths16 (p : processed_utf_bytes) : Prop :=
  length (rawbytes p) = 16%nat /\ length (high_nibbles p) = 16%nat /\ length (carried_continuations p) = 16%nat.

Lemma check_errors cur p er : length cur = 16%nat -> Forall byte cur -> length er = 16%nat -> lengths16 p ->
  let r := checkUTF8Bytes cur p er in
  length r.2 = 16%nat /\ lengths16 r.1 /\ (zeros r.2 -> zeros er).
Proof.
  intros Hlen Hb He (H1 & H2 & H3). pose proof (count_nibbles_map cur Hlen Hb) as Hn.
  assert (length (count_nibbles cur) = 16%nat) as Hl by (by rewrite Hn, length_map).
  rewrite checkUTF8Bytes_lanes by done. cbv zeta. cbn [fst snd].
  pose proof (lanes16_last (next_vector p) cur (count_nibbles cur) er Hlen Hl He) as (Hc & Hs & _).
  split_and!; [done..|]. apply lanes_errors; congruence.
Qed.

Lemma testz_zeros es : testz_si128 es es = true <-> zeros es.
Proof.
  unfold testz_si128, and_si128, zeros. rewrite forallb_forall. induction es as [|e es IH]; cbn [zip_with].
  - by split; [constructor|intros _ ?].
  - rewrite Forall_cons_iff, <- IH, Z.land_diag. split.
    + intros H. split; [apply Z.eqb_eq, H; by left|]. intros x Hx. apply H. by right.
    + intros [-> H] x [<-|Hx]; [done|]. by apply H.
Qed.

Lemma final_carries cs er : length cs = 16%nat -> length er = 16%nat -> Forall (fun c => 0 <= c <= 9) cs ->
  zeros (or_si128 (cmpgt_epi8 cs (setr_epi8 [9; 9; 9; 9; 9; 9; 9; 9; 9; 9; 9; 9; 9; 9; 9; 1])) er) <->
    zeros er /\ nth 15 cs 0 <= 1.
Proof.
  intros Hc He Hs. split16 cs Hc. split16 er He. unfold zeros, or_si128, cmpgt_epi8.
  rewrite !Forall_cons_iff in Hs. destruct_and! Hs.
  cbn [setr_epi8 map zip_with nth]. rewrite !Forall_cons_iff, !Z.lor_eq_0_iff, !mask_0.
  change (i8 (u8 9)) with 9. change (i8 (u8 1)) with 1. rewrite !i8_small by lia. rewrite !Z.ltb_ge. intuition lia.
Qed.

Lemma or_length (x y : vec128) : length x = 16%nat -> length y = 16%nat -> length (or_si128 x y) = 16%nat.
Proof. intros. unfold or_si128. rewrite length_zip_with. lia. Qed.

Lemma pad_vector s : len s < 16 -> Forall byte s ->
  length (s ++ replicate (16 - length s) 0) = 16%nat /\ Forall byte (s ++ replicate (16 - length s) 0).
Proof.
  unfold len. intros H Hs. rewrite length_app, length_replicate. split; [lia|].
  apply Forall_app. split; [done|]. apply Forall_replicate. unfold byte. lia.
Qed.

(** An error is never forgotten. *)
Lemma sse_loop_error fuel : forall s p er, (length s < fuel)%nat -> Forall byte s -> length er = 16%nat -> lengths16 p ->
  ~ zeros er -> sse_loop fuel s p er = Some false.
Proof.
  induction fuel as [|fuel IH]; intros s p er Hf Hb He Hp Hz; [lia|]. cbn [sse_loop].
  destruct (Z.leb_spec 16 (len s)) as [Hl|Hl].
  - assert (length (take 16 s) = 16%nat) as Hlen by (rewrite length_take; unfold len in Hl; lia).
    pose proof (check_errors (take 16 s) p er Hlen (Forall_take _ _ _ Hb) He Hp) as (H1 & H2 & H3).
    destruct (checkUTF8Bytes (take 16 s) p er) as [p' er']. cbn [fst snd] in *.
    apply IH; [rewrite length_drop; unfold len in Hl; lia|by apply Forall_drop|done..|tauto].
  - f_equal. apply not_true_is_false. rewrite testz_zeros.
    destruct (Z.ltb_spec 0 (len s)).
    + destruct (pad_vector s Hl Hb) as [Hl' Hb'].
      pose proof (check_errors _ p er Hl' Hb' He Hp) as (_ & _ & H3). tauto.
    + intros Hor. apply Hz. unfold zeros, or_si128, cmpgt_epi8 in *. destruct Hp as (_ & _ & Hp).
      generalize dependent (carried_continuations p). intros cs Hc Hor. split16 cs Hc. split16 er He.
      cbn [setr_epi8 map zip_with] in Hor. rewrite !Forall_cons_iff, !Z.lor_eq_0_iff in *. tauto.
Qed.

(** ** The loop and the automaton *)

Definition accepts (d : dfa) (s : list Z) : bool :=
  match dfa_run d s with Some (k, _, _) => k =? 0 | None => false end.

Lemma dfa_run_app d s t : dfa_run d (s ++ t) = d' ← dfa_run d s; dfa_run d' t.
Proof. revert d. induction s as [|b s IH]; intros d; [done|]. cbn. destruct (dfa_step d b); cbn; auto. Qed.

(** A missing byte is never the zero of the padding. *)
Definition dfa_wf (d : dfa) : Prop := 0 <= d.1.1 /\ 0 < d.1.2.

Lemma dfa_step_wf d b d' : dfa_wf d -> dfa_step d b = Some d' -> dfa_wf d'.
Proof.
  destruct d as [[k lo] hi]. unfold dfa_wf, dfa_step, dfa_start, in_rng. cbn [fst snd].
  intros Hw H. repeat case_match; simplify_eq; cbn [fst snd]; lia.
Qed.

Lemma dfa_run_wf s : forall d d', dfa_wf d -> dfa_run d s = Some d' -> dfa_wf d'.
Proof.
  induction s as [|b s IH]; intros d d' Hw H; cbn in H; [by simplify_eq|].
  destruct (dfa_step d b) as [d1|] eqn:E; [|done]. eapply IH; [|exact H]. by eapply dfa_step_wf.
Qed.

Lemma dfa_run_zeros n : forall lo hi, is_Some (dfa_run (0, lo, hi) (replicate n 0)).
Proof. induction n as [|n IH]; intros; [by eexists|]. cbn. apply IH. Qed.

Lemma dfa_pad d s n : dfa_wf d -> is_Some (dfa_run d (s ++ replicate (S n) 0)) <-> accepts d s = true.
Proof.
  intros Hw. rewrite dfa_run_app. unfold accepts.
  destruct (dfa_run d s) as [[[k lo] hi]|] eqn:E; cbn [mbind option_bind]; [|by split; [intros [??]|]].
  pose proof (dfa_run_wf _ _ _ Hw E) as [Hk Hlo]. cbn [fst snd] in *. destruct (Z.eqb_spec k 0) as [->|Hk0].
  - split; [done|]. intros _. apply (dfa_run_zeros (S n)).
  - cbn [replicate dfa_run dfa_step]. rewrite (proj2 (Z.eqb_neq k 0)) by done. unfold in_rng.
    rewrite (proj2 (Z.leb_gt lo 0)) by lia. cbn. by split; [intros [??]|].
Qed.

(** The vector code decides what the automaton decides. *)
Lemma sse_loop_accepts fuel : forall s p er d, (length s < fuel)%nat -> Forall byte s -> length er = 16%nat ->
  between p d -> dfa_wf d -> zeros er -> sse_loop fuel s p er = Some (accepts d s).
Proof.
  induction fuel as [|fuel IH]; intros s p er d Hf Hb He Hp Hw Hz; [lia|]. cbn [sse_loop].
  destruct Hp as (H1 & H2 & H3 & Ht & Hsm & Hk).
  destruct (Z.leb_spec 16 (len s)) as [Hl|Hl].
  - assert (length (take 16 s) = 16%nat) as Hlen by (rewrite length_take; unfold len in Hl; lia).
    assert (length (drop 16 s) < fuel)%nat as Hf' by (rewrite length_drop; unfold len in Hl; lia).
    pose proof (check_vector (take 16 s) p er d Hlen (Forall_take _ _ _ Hb) He H1 H2 H3 Ht) as [He' Hd].
    pose proof (check_errors (take 16 s) p er Hlen (Forall_take _ _ _ Hb) He (conj H1 (conj H2 H3))) as (_ & Hl16 & _).
    destruct (checkUTF8Bytes (take 16 s) p er) as [p' er']. cbn [fst snd] in *.
    assert (Hacc : accepts d s = match dfa_run d (take 16 s) with Some d' => accepts d' (drop 16 s) | None => false end).
    { unfold accepts. rewrite <- (take_drop 16 s) at 1. rewrite dfa_run_app. by destruct (dfa_run d (take 16 s)). }
    rewrite Hacc. destruct (dfa_run d (take 16 s)) as [d'|] eqn:E.
    + destruct Hd as [Hz' Hbt]. apply IH; try done; [by apply Forall_drop|by eapply dfa_run_wf|tauto].
    + apply sse_loop_error; try done. by apply Forall_drop.
  - f_equal. apply eq_true_iff_eq. rewrite testz_zeros. destruct (Z.ltb_spec 0 (len s)) as [H0|H0].
    + destruct (pad_vector s Hl Hb) as [Hl' Hb'].
      pose proof (check_vector _ p er d Hl' Hb' He H1 H2 H3 Ht) as [_ Hd].
      unfold len in Hl. replace (16 - length s)%nat with (S (15 - length s)) in * by lia.
      rewrite <- (dfa_pad d s (15 - length s) Hw).
      destruct (dfa_run d (s ++ replicate (S (15 - length s)) 0)) as [d'|].
      * split; [by eexists|]. intros _. tauto.
      * split; [done|by intros [??]].
    + assert (s = []) as -> by (destruct s; [done|unfold len in H0; simpl in H0; lia]).
      rewrite final_carries by done. unfold accepts. destruct d as [[k lo] hi]. cbn in *. rewrite Z.eqb_eq. tauto.
Qed.

Lemma sse_accepts s : Forall byte s -> validate_utf8_sse s = Some (accepts dfa_start s).
Proof.
  intros Hb. apply sse_loop_accepts; try done.
  - lia.
  - split_and!; try done; [|repeat constructor; lia]. unfold tracks, dfa_start, next_vector, byte. cbn. split_and!; try done; lia.
  - by repeat constructor.
Qed.
