(* ===== verification/Utf8Props.v ===== *)
(** * What the two validators decide

    The automaton of [Utf8Proof] accepts exactly the encodings of texts
    ([accepts_utf8]); the vector code decides the same, the code for one byte at a
    time also turns down control characters. *)
From Stdlib Require Import ZArith Lia.
From stdpp Require Import base list option numbers.
From S2P Require Import Prelude Utf8 Utf8Proof.

(** ** The automaton and the encoding *)

Lemma dfa_step_next k lo hi b : 0 < k -> lo <= b <= hi -> dfa_step (k, lo, hi) b = Some (k - 1, 0x80, 0xBF).
Proof.
  intros Hk Hb. unfold dfa_step. rewrite (proj2 (Z.eqb_neq k 0)) by lia. unfold in_rng.
  by rewrite (proj2 (Z.leb_le lo b)), (proj2 (Z.leb_le b hi)) by lia.
Qed.

Lemma dfa_step_first lo hi b : dfa_step (0, lo, hi) b = dfa_step dfa_start b.
Proof. done. Qed.

Definition conts (s : list Z) : Prop := Forall (fun b => 0x80 <= b <= 0xBF) s.

Lemma dfa_conts s : forall k, len s = k -> conts s -> dfa_run (k, 0x80, 0xBF) s = Some dfa_start.
Proof.
  induction s as [|b s IH]; intros k Hk Hs; unfold len in Hk; simpl in Hk; [by subst|].
  apply Forall_cons_1 in Hs as [Hb Hs]. cbn [dfa_run]. rewrite dfa_step_next by lia.
  cbn [mbind option_bind]. apply IH; [unfold len; lia|done].
Qed.

Lemma dfa_char b c s k lo hi lo0 hi0 :
  dfa_step dfa_start b = Some (k, lo, hi) -> lo <= c <= hi -> len s = k - 1 -> conts s ->
  dfa_run (0, lo0, hi0) (b :: c :: s) = Some dfa_start.
Proof.
  intros Hb Hc Hk Hs. cbn [dfa_run]. rewrite dfa_step_first, Hb. cbn [mbind option_bind].
  pose proof (len_nonneg s). rewrite dfa_step_next by lia. cbn [mbind option_bind]. by apply dfa_conts.
Qed.

Lemma dfa_encode c lo hi : scalar_value c -> dfa_run (0, lo, hi) (encode_utf8 c) = Some dfa_start.
Proof.
  unfold scalar_value, encode_utf8. intros Hc.
  destruct (Z.ltb_spec c 128); [|destruct (Z.ltb_spec c 2048); [|destruct (Z.ltb_spec c 65536)]].
  - cbn [dfa_run dfa_step Z.eqb]. by rewrite (proj2 (Z.ltb_lt c 0x80)) by lia.
  - apply (dfa_char _ _ _ 1 0x80 0xBF); [|dlia|done|by constructor]. unfold dfa_step, dfa_start. cbn [Z.eqb].
    by rewrite (proj2 (Z.ltb_ge _ 0x80)), (proj2 (Z.ltb_ge _ 0xC0)), (proj2 (Z.ltb_ge _ 0xC2)), (proj2 (Z.ltb_lt _ 0xE0)) by dlia.
  - set (b := 224 + c / 4096).
    apply (dfa_char _ _ _ 2 (if b =? 0xE0 then 0xA0 else 0x80) (if b =? 0xED then 0x9F else 0xBF)); subst b.
    + unfold dfa_step, dfa_start. cbn [Z.eqb].
      rewrite (proj2 (Z.ltb_ge _ 0x80)), (proj2 (Z.ltb_ge _ 0xC0)), (proj2 (Z.ltb_ge _ 0xC2)), (proj2 (Z.ltb_ge _ 0xE0)),
        (proj2 (Z.ltb_lt _ 0xF0)) by dlia. destruct (Z.eqb_spec (224 + c / 4096) 0xE0) as [->|], (Z.eqb_spec (224 + c / 4096) 0xED); done || lia.
    + zbool; dlia.
    + done.
    + repeat constructor; dlia.
  - set (b := 240 + c / 262144).
    apply (dfa_char _ _ _ 3 (if b =? 0xF0 then 0x90 else 0x80) (if b =? 0xF4 then 0x8F else 0xBF)); subst b.
    + unfold dfa_step, dfa_start. cbn [Z.eqb].
      rewrite (proj2 (Z.ltb_ge _ 0x80)), (proj2 (Z.ltb_ge _ 0xC0)), (proj2 (Z.ltb_ge _ 0xC2)), (proj2 (Z.ltb_ge _ 0xE0)),
        (proj2 (Z.ltb_ge _ 0xF0)), (proj2 (Z.eqb_neq _ 0xE0)), (proj2 (Z.eqb_neq _ 0xED)) by dlia.
      destruct (Z.eqb_spec (240 + c / 262144) 0xF0) as [->|]; [done|].
      destruct (Z.ltb_spec (240 + c / 262144) 0xF4); [by rewrite (proj2 (Z.eqb_neq _ 0xF4)) by lia|].
      by rewrite (proj2 (Z.eqb_eq (240 + c / 262144) 0xF4)) by dlia.
    + zbool; dlia.
    + done.
    + repeat constructor; dlia.
Qed.

Lemma accepts_cons d b s : accepts d (b :: s) = true ->
  exists d', dfa_step d b = Some d' /\ accepts d' s = true.
Proof. unfold accepts. cbn. destruct (dfa_step d b) as [d'|]; cbn; [|done]. by exists d'. Qed.

Lemma accepts_0 lo hi s : accepts (0, lo, hi) s = accepts dfa_start s.
Proof. by destruct s. Qed.

Lemma accepts_conts n : forall s, accepts (Z.of_nat n, 0x80, 0xBF) s = true ->
  exists t r, s = t ++ r /\ length t = n /\ conts t /\ accepts dfa_start r = true.
Proof.
  induction n as [|n IH]; intros s H.
  { exists [], s. by split_and!; [..|apply Forall_nil|exact H]. }
  destruct s as [|b s]; [apply Z.eqb_eq in H; lia|]. apply accepts_cons in H as (d' & Hs & H).
  cbn [dfa_step] in Hs. rewrite (proj2 (Z.eqb_neq _ 0)) in Hs by lia.
  destruct (in_rng 0x80 b 0xBF) eqn:Hb; [|done]. simplify_eq. unfold in_rng in Hb.
  replace (Z.of_nat (S n) - 1) with (Z.of_nat n) in H by lia.
  destruct (IH s H) as (t & r & -> & Hl & Ht & Hr). exists (b :: t), r. split_and!; try done; [simpl; lia|].
  constructor; [lia|done].
Qed.

Lemma dfa_step_lead_cases b k lo hi : byte b -> dfa_step dfa_start b = Some (k, lo, hi) ->
  (k = 0 /\ b < 128) \/ (k = 1 /\ hi < lo) \/ (k = 1 /\ 0xC2 <= b < 0xE0 /\ lo = 0x80 /\ hi = 0xBF) \/
  (k = 2 /\ 0xE0 <= b < 0xF0 /\ 0x80 <= lo /\ hi <= 0xBF /\ (b = 0xE0 -> lo = 0xA0) /\ (b = 0xED -> hi = 0x9F)) \/
  (k = 3 /\ 0xF0 <= b <= 0xF4 /\ 0x80 <= lo /\ hi <= 0xBF /\ (b = 0xF0 -> lo = 0x90) /\ (b = 0xF4 -> hi = 0x8F)).
Proof.
  unfold dfa_step, dfa_start, byte. cbn [Z.eqb]. intros Hb H.
  repeat match type of H with
  | (if ?x <? ?y then _ else _) = _ => destruct (Z.ltb_spec x y)
  | (if ?x =? ?y then _ else _) = _ => destruct (Z.eqb_spec x y)
  end; simplify_eq; lia.
Qed.

Lemma accepts_lead k lo hi s : 0 < k -> accepts (k, lo, hi) s = true ->
  exists c t r, s = c :: t ++ r /\ lo <= c <= hi /\ len t = k - 1 /\ conts t /\ accepts dfa_start r = true.
Proof.
  intros Hk H. destruct s as [|c s]; [apply Z.eqb_eq in H; lia|]. apply accepts_cons in H as (d' & Hs & H).
  cbn [dfa_step] in Hs. rewrite (proj2 (Z.eqb_neq _ 0)) in Hs by lia.
  destruct (in_rng lo c hi) eqn:Hb; [|done]. simplify_eq. unfold in_rng in Hb.
  rewrite <- (Z2Nat.id (k - 1)) in H by lia. apply accepts_conts in H as (t & r & -> & Hl & Ht & Hr).
  exists c, t, r. unfold len. split_and!; try done; lia.
Qed.

(** The first character of what the automaton accepts. *)
Lemma accepts_char b s : byte b -> accepts dfa_start (b :: s) = true ->
  exists c r, scalar_value c /\ b :: s = encode_utf8 c ++ r /\ accepts dfa_start r = true.
Proof.
  intros Hb H. apply accepts_cons in H as ([[k lo] hi] & Hs & H).
  apply dfa_step_lead_cases in Hs; [|done]. unfold byte in Hb.
  destruct Hs as [[-> ?]|Hs].
  { exists b, s. split_and!; [left; lia| |by rewrite accepts_0 in H]. unfold encode_utf8. by rewrite (proj2 (Z.ltb_lt b 128)) by lia. }
  apply accepts_lead in H as (c & t & r & -> & Hc & Hl & Ht & Hr); [|lia]. unfold len in Hl.
  destruct Hs as [Hs|[(-> & Hs)|[(-> & Hs)|(-> & Hs)]]]; [lia|..].
  - destruct t; [|simpl in Hl; lia]. exists ((b - 192) * 64 + (c - 128)), r. split_and!; [left; lia| |done].
    unfold encode_utf8. rewrite (proj2 (Z.ltb_ge _ 128)), (proj2 (Z.ltb_lt _ 2048)) by lia.
    cbn. do 2 f_equal; [dlia|]. f_equal. dlia.
  - destruct t as [|c2 [|? t]]; [simpl in Hl; lia| |simpl in Hl; lia]. apply Forall_cons_1 in Ht as [Hc2 _].
    exists ((b - 224) * 4096 + (c - 128) * 64 + (c2 - 128)), r.
    split_and!; [unfold scalar_value; lia| |done].
    unfold encode_utf8. rewrite (proj2 (Z.ltb_ge _ 128)), (proj2 (Z.ltb_ge _ 2048)), (proj2 (Z.ltb_lt _ 65536)) by lia.
    cbn. f_equal; [dlia|]. f_equal; [dlia|]. f_equal. dlia.
  - destruct t as [|c2 [|c3 [|? t]]]; [simpl in Hl; lia|simpl in Hl; lia| |simpl in Hl; lia].
    apply Forall_cons_1 in Ht as [Hc2 Ht]. apply Forall_cons_1 in Ht as [Hc3 _].
    exists ((b - 240) * 262144 + (c - 128) * 4096 + (c2 - 128) * 64 + (c3 - 128)), r.
    split_and!; [unfold scalar_value; lia| |done].
    unfold encode_utf8. rewrite (proj2 (Z.ltb_ge _ 128)), (proj2 (Z.ltb_ge _ 2048)), (proj2 (Z.ltb_ge _ 65536)) by lia.
    cbn. f_equal; [dlia|]. f_equal; [dlia|]. f_equal; [dlia|]. f_equal. dlia.
Qed.

Lemma encode_nonempty c : encode_utf8 c <> [].
Proof. unfold encode_utf8. by repeat case_match. Qed.

(** The automaton accepts the encodings of texts. *)
Lemma accepts_utf8 s : Forall byte s -> accepts dfa_start s = true <-> is_utf8 s.
Proof.
  intros Hb. split.
  - remember (length s) as n eqn:Hn. revert s Hb Hn. induction (lt_wf n) as [n _ IH]. intros s Hb -> H.
    destruct s as [|b s]; [by exists []|].
    destruct (accepts_char b s (Forall_inv Hb) H) as (c & r & Hc & Hs & Hr). rewrite Hs in Hb |- *.
    destruct (IH (length r)) with (s := r) as (cs & Hcs & ->); try done.
    + rewrite Hs, length_app. pose proof (encode_nonempty c). destruct (encode_utf8 c); [done|simpl; lia].
    + by apply Forall_app in Hb as [_ ?].
    + exists (c :: cs). by split; [constructor|].
  - intros (cs & Hcs & ->). clear Hb. unfold accepts.
    enough (dfa_run dfa_start (concat (map encode_utf8 cs)) = Some dfa_start) as -> by done.
    induction Hcs as [|c cs Hc _ IH]; [done|]. cbn [map concat]. rewrite dfa_run_app. unfold dfa_start at 1.
    by rewrite dfa_encode.
Qed.

(** ** One byte at a time *)

(** The control characters the code for one byte at a time turns down. *)
Definition control (b : Z) : Prop := (b < 0x20 \/ b = 0x7F) /\ b <> 0x09 /\ b <> 0x0A /\ b <> 0x0D.

(** A round that goes on moves over one character. *)
Lemma scalar_advance_char s n : Forall byte s -> scalar_advance s = Some n ->
  exists c r, scalar_value c /\ s = encode_utf8 c ++ r /\ length (encode_utf8 c) = n /\ Forall (fun b => ~ control b) (encode_utf8 c).
Proof.
  destruct s as [|b s]; [done|]. intros Hb. apply Forall_cons_1 in Hb as [Hb Hs]. unfold scalar_advance, byte, in_rng, len, control in *.
  cbv zeta.
  match goal with |- (if ?x then _ else _) = _ -> _ => destruct x eqn:E1 end.
  { intros [= <-]. exists b, s. split; [unfold scalar_value; lia|].
    unfold encode_utf8. rewrite (proj2 (Z.ltb_lt b 128)) by lia. split_and!; try done. constructor; [lia|done]. }
  match goal with |- (if ?x then _ else _) = _ -> _ => destruct x eqn:E2 end.
  { intros [= <-]. destruct s as [|c s]; [simpl in E2; lia|]. cbn [nth Nat.sub] in E2.
    assert (0xC2 <= b <= 0xDF /\ 0x80 <= c <= 0xBF) as E by (clear E1; lia). clear E1 E2 Hs.
    exists ((b - 192) * 64 + (c - 128)), s. split; [unfold scalar_value; lia|].
    unfold encode_utf8. rewrite (proj2 (Z.ltb_ge _ 128)), (proj2 (Z.ltb_lt _ 2048)) by lia.
    split_and!; [|done|repeat constructor; dlia]. cbn. f_equal; [dlia|]. f_equal. dlia. }
  match goal with |- (if ?x then _ else _) = _ -> _ => destruct x eqn:E3 end.
  { intros [= <-]. destruct s as [|c [|c2 s]]; [simpl in E3; lia..|]. cbn [nth Nat.sub] in E3.
    assert (0xE0 <= b <= 0xEF /\ 0x80 <= c <= 0xBF /\ (b = 0xE0 -> 0xA0 <= c) /\ (b = 0xED -> c <= 0x9F) /\ 0x80 <= c2 <= 0xBF)
      as E by (clear E1 E2 Hs; lia). clear E1 E2 E3 Hs.
    exists ((b - 224) * 4096 + (c - 128) * 64 + (c2 - 128)), s. split; [unfold scalar_value; lia|].
    unfold encode_utf8. rewrite (proj2 (Z.ltb_ge _ 128)), (proj2 (Z.ltb_ge _ 2048)), (proj2 (Z.ltb_lt _ 65536)) by lia.
    split_and!; [|done|repeat constructor; dlia]. cbn. f_equal; [dlia|]. f_equal; [dlia|]. f_equal. dlia. }
  match goal with |- (if ?x then _ else _) = _ -> _ => destruct x eqn:E4 end; [|done].
  intros [= <-]. destruct s as [|c [|c2 [|c3 s]]]; [simpl in E4; lia..|]. cbn [nth Nat.sub] in E4.
  assert (0xF0 <= b <= 0xF4 /\ 0x80 <= c <= 0xBF /\ (b = 0xF0 -> 0x90 <= c) /\ (b = 0xF4 -> c <= 0x8F) /\
    0x80 <= c2 <= 0xBF /\ 0x80 <= c3 <= 0xBF) as E by (clear E1 E2 E3 Hs; lia). clear E1 E2 E3 E4 Hs.
  exists ((b - 240) * 262144 + (c - 128) * 4096 + (c2 - 128) * 64 + (c3 - 128)), s. split; [unfold scalar_value; lia|].
  unfold encode_utf8. rewrite (proj2 (Z.ltb_ge _ 128)), (proj2 (Z.ltb_ge _ 2048)), (proj2 (Z.ltb_ge _ 65536)) by lia.
  split_and!; [|done|repeat constructor; dlia]. cbn. f_equal; [dlia|]. f_equal; [dlia|]. f_equal; [dlia|]. f_equal. dlia.
Qed.

Ltac branch v := match goal with |- (if ?x then _ else _) = _ => replace x with v by lia end.

Lemma len_ge {A} (l : list A) : 0 <= Z.of_nat (length l).
Proof. lia. Qed.

(** A round moves over a character that is there. *)
Lemma scalar_advance_2 b c r : 0xC2 <= b <= 0xDF -> 0x80 <= c <= 0xBF -> scalar_advance (b :: c :: r) = Some 2%nat.
Proof.
  intros. unfold scalar_advance, in_rng, len. cbv beta zeta. cbn [nth Nat.sub length]. pose proof (len_ge r). rewrite !Nat2Z.inj_succ, <- !Z.add_1_r.
  branch false. by branch true.
Qed.

Lemma scalar_advance_3 b c c2 r : 0xE0 <= b <= 0xEF -> 0x80 <= c <= 0xBF -> (b = 0xE0 -> 0xA0 <= c) -> (b = 0xED -> c <= 0x9F) ->
  0x80 <= c2 <= 0xBF -> scalar_advance (b :: c :: c2 :: r) = Some 3%nat.
Proof.
  intros. unfold scalar_advance, in_rng, len. cbv beta zeta. cbn [nth Nat.sub length]. pose proof (len_ge r). rewrite !Nat2Z.inj_succ, <- !Z.add_1_r.
  branch false. branch false. by branch true.
Qed.

Lemma scalar_advance_4 b c c2 c3 r : 0xF0 <= b <= 0xF4 -> 0x80 <= c <= 0xBF -> (b = 0xF0 -> 0x90 <= c) -> (b = 0xF4 -> c <= 0x8F) ->
  0x80 <= c2 <= 0xBF -> 0x80 <= c3 <= 0xBF -> scalar_advance (b :: c :: c2 :: c3 :: r) = Some 4%nat.
Proof.
  intros. unfold scalar_advance, in_rng, len. cbv beta zeta. cbn [nth Nat.sub length]. pose proof (len_ge r). rewrite !Nat2Z.inj_succ, <- !Z.add_1_r.
  branch false. branch false. branch false. by branch true.
Qed.

Lemma scalar_advance_encode c r : scalar_value c -> Forall (fun b => ~ control b) (encode_utf8 c) ->
  scalar_advance (encode_utf8 c ++ r) = Some (length (encode_utf8 c)).
Proof.
  unfold scalar_value, encode_utf8. intros Hc Hctl.
  destruct (Z.ltb_spec c 128); [|destruct (Z.ltb_spec c 2048); [|destruct (Z.ltb_spec c 65536)]]; cbn [app length].
  - apply Forall_inv in Hctl. unfold control in Hctl. unfold scalar_advance, in_rng. cbv zeta. by branch true.
  - apply scalar_advance_2; dlia.
  - apply scalar_advance_3; dlia.
  - apply scalar_advance_4; dlia.
Qed.

Lemma accepts_encode c r : scalar_value c -> accepts dfa_start (encode_utf8 c ++ r) = accepts dfa_start r.
Proof. intros Hc. unfold accepts. rewrite dfa_run_app. unfold dfa_start at 1. by rewrite dfa_encode. Qed.

Lemma scalar_loop_utf8 fuel : forall s, (length s <= fuel)%nat -> Forall byte s ->
  exists ok, scalar_loop fuel s = Some ok /\ (ok = true <-> is_utf8 s /\ Forall (fun b => ~ control b) s).
Proof.
  induction fuel as [|fuel IH]; intros s Hf Hb.
  { destruct s; [|simpl in Hf; lia]. exists true. repeat split; [|constructor]. by exists []. }
  destruct s as [|b s]; [exists true; repeat split; [by exists []|constructor]|].
  cbn [scalar_loop]. destruct (scalar_advance (b :: s)) as [n|] eqn:E.
  - destruct (scalar_advance_char _ _ Hb E) as (c & r & Hc & Hs & Hn & Hctl). rewrite Hs in Hb, Hf |- *.
    pose proof (encode_nonempty c). rewrite <- Hn, drop_app_length. rewrite length_app in Hf.
    assert (Hb' := Hb). apply Forall_app in Hb' as [_ Hb']. destruct (IH r) as (ok & Hok & Hiff); [destruct (encode_utf8 c); [done|simpl in *; lia]|done|].
    exists ok. split; [done|]. rewrite Hiff, Forall_app.
    rewrite <- !accepts_utf8, accepts_encode by (done || by apply Forall_app). tauto.
  - exists false. split; [done|]. split; [done|]. intros [(cs & Hcs & Heq) Hctl]. exfalso.
    destruct Hcs as [|c cs Hc Hcs]; [done|]. cbn [map concat] in Heq. rewrite Heq in *.
    apply Forall_app in Hctl as [Hctl _]. by rewrite scalar_advance_encode in E.
Qed.

(** ** The property *)

(** C32. For every string of bytes, the vector code decides whether the string is
    the UTF-8 encoding of a text, and the code for one byte at a time decides
    whether it is the encoding of a text without control characters other than
    tab, line feed and carriage return. Both terminate on every string. *)
Theorem validate_utf8_decides s : Forall byte s ->
  (exists ok, validate_utf8_sse s = Some ok /\ (ok = true <-> is_utf8 s)) /\
  (exists ok, validate_utf8_scalar s = Some ok /\ (ok = true <-> is_utf8 s /\ Forall (fun b => ~ control b) s)).
Proof.
  intros Hb. split.
  - exists (accepts dfa_start s). split; [by apply sse_accepts|by apply accepts_utf8].
  - by apply scalar_loop_utf8.
Qed.

Lemma validate_utf8_decides_witness :
  (exists ok, validate_utf8_sse [0x41; 0x7F; 0xE2; 0x82; 0xAC] = Some ok /\ (ok = true <-> is_utf8 [0x41; 0x7F; 0xE2; 0x82; 0xAC])) /\
  (exists ok, validate_utf8_scalar [0x41; 0x7F; 0xE2; 0x82; 0xAC] = Some ok /\
    (ok = true <-> is_utf8 [0x41; 0x7F; 0xE2; 0x82; 0xAC] /\ Forall (fun b => ~ control b) [0x41; 0x7F; 0xE2; 0x82; 0xAC])).
Proof. apply (validate_utf8_decides [0x41; 0x7F; 0xE2; 0x82; 0xAC]). repeat constructor; unfold byte; lia. Defined.

(** The two functions disagree on a string with a control character, so what a
    node accepts as [utf8] depends on the machine it was built for. *)
Lemma validators_disagree : validate_utf8_sse [0x41; 0x1B] = Some true /\ validate_utf8_scalar [0x41; 0x1B] = Some false.
Proof. by split; vm_compute. Qed.
