(* ===== verification/Strx.v ===== *)
(** * util/strx: string routines and conversions

    [src/src/util/strx.c]. A string in memory is the list of the bytes from the
    pointer on; a C string ends with the byte 0 ([cstr]). Reading past the end of
    the list is undefined ([None]). A pointer into a string is the list of the
    bytes from there on. The character classes are those of the C locale and
    [char] is signed, as on x86. Conversions of doubles are those of the C
    library: a parameter of [strx_to_double]. *)
From Stdlib Require Import ZArith Lia.
From stdpp Require Import base list option numbers.
From S2P Require Import Prelude Utf8 Opr.

Definition cstr (s : list Z) : list Z := s ++ [0].

(** ** Character classes of [ctype.h] *)

Definition isspace (c : Z) : bool := (c =? 32) || in_rng 9 c 13.
Definition isdigit (c : Z) : bool := in_rng 48 c 57.
Definition isgraph (c : Z) : bool := in_rng 33 c 126.
Definition isprint (c : Z) : bool := in_rng 32 c 126.
Definition tolower (c : Z) : Z := if in_rng 65 c 90 then c + 32 else c.
Definition toupper (c : Z) : Z := if in_rng 97 c 122 then c - 32 else c.

(** ** Routines on the contents of a C string *)

(** [for (; *str; str++)]: the loops stop at the terminator, so they see the
    contents. *)
Definition strx_lower_case (s : list Z) : list Z := map tolower s.
Definition strx_upper_case (s : list Z) : list Z := map toupper s.
Definition strx_replace_char (s : list Z) (find replace : Z) : list Z :=
  map (fun c => if c =? find then replace else c) s.

(** [join] is -1 before the first character that is kept, 1 when a separator
    was skipped after one, and 0 otherwise. *)
Fixpoint split_join_loop (s : list Z) (split_chr join_chr : Z) (join : Z) : list Z :=
  match s with
  | [] => []
  | c :: s =>
    if negb (c =? split_chr) then
      (if 0 <? join then [join_chr] else []) ++ c :: split_join_loop s split_chr join_chr 0
    else split_join_loop s split_chr join_chr (if join =? 0 then 1 else join)
  end.
Definition strx_split_join (s : list Z) (split_chr join_chr : Z) : list Z := split_join_loop s split_chr join_chr (-1).

Definition trim_chr (chr c : Z) : bool := if chr =? 0 then isspace c else c =? chr.

(** The loop over the leading characters moves the pointer. *)
Fixpoint trim_lead (chr : Z) (s : list Z) : list Z :=
  match s with [] => [] | c :: r => if trim_chr chr c then trim_lead chr r else s end.

(** The loop over the trailing characters stops at the first character. *)
Fixpoint trim_trail (chr : Z) (r : list Z) : list Z :=
  match r with
  | c :: t => match t with [] => r | _ => if trim_chr chr c then trim_trail chr t else r end
  | [] => []
  end.

Definition strx_trim (s : list Z) (chr : Z) : list Z :=
  match trim_lead chr s with
  | [] => []
  | t => rev (trim_trail chr (rev t))
  end.

Definition strx_is_empty (s : list Z) : bool := forallb isspace s.

(** A leading sign. *)
Definition is_sign (c : Z) : bool := (c =? 45) || (c =? 43).
Definition skip_sign (s : list Z) : list Z :=
  match s with c :: r => if is_sign c then r else s | [] => [] end.

Definition strx_is_int (s : list Z) : bool :=
  match skip_sign s with [] => false | t => forallb isdigit t end.

Fixpoint is_float_loop (s : list Z) (dots : Z) : bool :=
  match s with
  | [] => dots =? 1
  | c :: s => if c =? 46 then is_float_loop s (dots + 1) else if isdigit c then is_float_loop s dots else false
  end.
Definition strx_is_float (s : list Z) : bool :=
  match skip_sign s with [] => false | t => is_float_loop t 0 end.

Definition strx_is_graph (s : list Z) : bool := forallb isgraph s.
Definition strx_is_printable (s : list Z) : bool := forallb isprint s.

(** The routines with a length read [n] bytes from [str]. *)
Definition strx_is_graphn (str : list Z) (n : nat) : bool := forallb isgraph (take n str).
Definition strx_is_printablen (str : list Z) (n : nat) : bool := forallb isprint (take n str).
Definition strx_is_asciin (str : list Z) (n : nat) : bool := forallb (fun c => negb (i8 c <=? 0)) (take n str).
(** The vector code of [Utf8] on x86. *)
Definition strx_is_utf8n (str : list Z) (n : nat) : bool := default false (validate_utf8_sse (take n str)).

Definition strx_cat (mem : bool) (s1 s2 : list Z) : option (list Z) := if mem then Some (s1 ++ s2) else None.

(** ** Replacing a string *)

(** [strstr]: the first occurrence, as the characters before it and the rest
    from it on. *)
Fixpoint is_prefix (o s : list Z) : bool :=
  match o, s with
  | [], _ => true
  | a :: o, b :: s => (a =? b) && is_prefix o s
  | _, _ => false
  end.
Fixpoint strstr (s o : list Z) : option (list Z * list Z) :=
  if is_prefix o s then Some ([], s)
  else match s with [] => None | c :: s => match strstr s o with Some (p, q) => Some (c :: p, q) | None => None end end.

(** The loop: the contents of [buffer] and whether [s] moved. The outer
    [None]: no end in sight; the inner one: [return -1]. *)
Fixpoint replace_loop (fuel : nat) (s o r : list Z) (n : Z) (buffer : list Z) (moved : bool) :
    option (option (list Z * bool)) :=
  match fuel with
  | O => None
  | S fuel =>
    match strstr s o with
    | None => Some (Some (buffer, moved))
    | Some (p, q) =>
      if n <=? len buffer + len p + len r then Some None
      else replace_loop fuel (drop (length o) q) o r n (buffer ++ p ++ r) (moved || negb (len p + len o =? 0))
    end
  end.

(** The return value and the string afterwards. *)
Definition strx_replace_str (s o r : list Z) (n : Z) : option (Z * list Z) :=
  x ← replace_loop (S (length s + Z.to_nat n)) s o r n [] false;
  Some match x with
  | None => (-1, s)
  | Some (buffer, moved) => (0, if moved : bool then buffer else s)
  end.

(** ** Integers *)

Definition digit_val (c : Z) : option Z :=
  if in_rng 48 c 57 then Some (c - 48)
  else if in_rng 97 c 122 then Some (c - 87)
  else if in_rng 65 c 90 then Some (c - 55)
  else None.

Definition base_digit (base c : Z) : option Z :=
  match digit_val c with Some d => if d <? base then Some d else None | None => None end.

(** The digits of a number and what follows them; [any] tells whether there was one. *)
Fixpoint strto_digits (base : Z) (s : list Z) (acc : Z) (any : bool) : option (Z * bool * list Z) :=
  match s with
  | [] => None
  | c :: r =>
    match base_digit base c with
    | Some d => strto_digits base r (acc * base + d) true
    | None => Some (acc, any, s)
    end
  end.

Fixpoint skip_space (s : list Z) : list Z :=
  match s with c :: r => if isspace c then skip_space r else s | [] => [] end.

(** The optional prefix of [strtoll] in base 16. *)
Definition skip_0x (base : Z) (s : list Z) : option (list Z) :=
  match s with
  | z :: x :: r =>
    if (z =? 48) && (base =? 16) && ((x =? 120) || (x =? 88)) then
      match r with
      | [] => None
      | h :: _ => match base_digit 16 h with Some _ => Some r | None => Some s end
      end
    else Some s
  | _ => Some s
  end.

Record strto := Strto { st_val : Z; st_end : list Z; st_erange : bool }.

(** [strtoll] of the C library. *)
Definition strtoll (s : list Z) (base : Z) : option strto :=
  let t := skip_space s in
  match t with
  | [] => None
  | c :: r =>
    let neg := c =? 45 in
    t ← skip_0x base (if is_sign c then r else t);
    '(v, any, e) ← strto_digits base t 0 false;
    if negb any then Some (Strto 0 s false)
    else
      let v := if neg then - v else v in
      if LLONG_MAX <? v then Some (Strto LLONG_MAX e true)
      else if v <? LLONG_MIN then Some (Strto LLONG_MIN e true)
      else Some (Strto v e false)
  end.

(** The value, where [endptr] points (unset when the function leaves it alone)
    and whether [errno] is [ERANGE] afterwards. *)
Record int64_result := Int64Result { iv : Z; iend : option (list Z); ierange : bool }.

Definition strx_to_int64 (str : list Z) (erange : bool) : option int64_result :=
  match str with
  | [] => None
  | c :: r =>
    let negative := c =? 45 in
    let str := if is_sign c then r else str in
    let finish str base :=
      s ← strtoll str base;
      v ← (if negative : bool then exact (- st_val s) else Some (st_val s));
      Some (Int64Result v (Some (st_end s)) (st_erange s)) in
    match str with
    | [] => None
    | z :: rest =>
      if z =? 48 then
        match rest with
        | [] => None
        | x :: rest' =>
          if x =? 98 then finish rest' 2
          else if x =? 111 then finish rest' 8
          else if x =? 120 then finish rest' 16
          else if x =? 0 then Some (Int64Result 0 None erange)
          else finish rest 10
        end
      else finish str 10
    end
  end.

(** [PRId64]: the decimal digits of an integer. *)
Fixpoint digits_of (fuel : nat) (x : Z) (acc : list Z) : list Z :=
  match fuel with
  | O => acc
  | S fuel => let acc := (48 + x mod 10) :: acc in if x <? 10 then acc else digits_of fuel (x / 10) acc
  end.
Definition print_int64 (x : Z) : list Z :=
  if x <? 0 then 45 :: digits_of 20 (- x) [] else digits_of 20 x [].

Definition STRX__MAX_CONV_SZ : Z := 50.

(** The characters in the buffer and [*n]; [snprintf] returns the length it
    would have written. *)
Definition strx_from_int64 (i : Z) : list Z * Z :=
  let p := print_int64 i in
  (take (Z.to_nat (STRX__MAX_CONV_SZ - 1)) p, if STRX__MAX_CONV_SZ <=? len p then 0 else len p).

(** ** Doubles *)

(** The two letters after the first one: [endptr], where [None] is [NULL]. *)
Definition letters (a b : Z) (str : list Z) : option (option (list Z)) :=
  match str with
  | [] => None
  | c :: str =>
    if c =? a then match str with [] => None | d :: str => Some (if d =? b then Some str else None) end
    else Some None
  end.

Section ToDouble.
Context {F : Type} (strtod : list Z -> option (F * list Z * bool)).  (* the value, the end, ERANGE *)
Context (inf nan : F) (neg : F -> F) (huge : F -> option bool).      (* [HUGE_VAL], [-HUGE_VAL] or neither *)

(** The value and [endptr]; a failing assertion is undefined. *)
Definition strx_to_double (str : list Z) : option (F * option (list Z)) :=
  match str with
  | [] => None
  | c :: r =>
    let negative := c =? 45 in
    let str := if is_sign c then r else str in
    match str with
    | [] => None
    | 105 :: r => e ← letters 110 102 r; Some (if negative then neg inf else inf, e)
    | 110 :: r => e ← letters 97 110 r; Some (nan, e)
    | _ =>
      '(d, e, erange) ← strtod str;
      d ← (if erange : bool then match huge d with Some h => Some (if h : bool then inf else neg inf) | None => None end
           else Some d);
      Some (if negative then neg d else d, Some e)
    end
  end.
End ToDouble.

(** ** A printable copy *)

(** The static buffer afterwards; [None]: a write past its end. [s] has at
    least [n] bytes. *)
Definition NON_PRINTABLE : list Z :=
  [60; 110; 111; 110; 45; 112; 114; 105; 110; 116; 97; 98; 108; 101; 32; 115; 116; 105; 110; 103; 62].
Definition DOTS : list Z := [46; 46; 46].

Definition strx_printable (s : list Z) (n : nat) : option (list Z) :=
  let m := (Z.to_nat STRX__MAX_CONV_SZ - 4)%nat in
  let nn := if (n <=? m)%nat then n else m in
  if negb (strx_is_printablen s nn) then Some NON_PRINTABLE
  else if STRX__MAX_CONV_SZ <? Z.of_nat n then None                 (* memcpy *)
  else if (n <? nn)%nat then
    if STRX__MAX_CONV_SZ <? Z.of_nat n + 4 then None else Some (take n s ++ DOTS)
  else if STRX__MAX_CONV_SZ <=? Z.of_nat n then None                (* the terminator *)
  else Some (take n s).
