(* ===== verification/StrxProps.v ===== *)
(** * Integers as text

    What [strx_to_int64] makes of a literal ([to_int64_literal]), that it reads
    back what [strx_from_int64] writes, and the literal it misreads. *)
From Stdlib Require Import ZArith Lia.
From stdpp Require Import base list option numbers.
From S2P Require Import Prelude Utf8 Opr Strx.

Lemma isspace_spec c : isspace c = true <-> c = 32 \/ 9 <= c <= 13.
Proof. unfold isspace, in_rng. lia. Qed.
Lemma is_sign_spec c : is_sign c = true <-> c = 45 \/ c = 43.
Proof. unfold is_sign. lia. Qed.

Lemma digit_range c d : digit_val c = Some d -> 48 <= c <= 122 /\ 0 <= d < 36.
Proof. unfold digit_val, in_rng. intros. repeat case_match; simplify_eq; lia. Qed.

Lemma base_digit_digit base c d : base_digit base c = Some d -> digit_val c = Some d /\ 0 <= d < base.
Proof.
  unfold base_digit. destruct (digit_val c) as [x|] eqn:E; [|done]. apply digit_range in E as ?.
  destruct (Z.ltb_spec x base); intros; simplify_eq. split; [done|lia].
Qed.

Lemma base_digit_plain base c d : base_digit base c = Some d -> isspace c = false /\ is_sign c = false /\ c <> 0.
Proof.
  intros H. apply base_digit_digit in H as [H _]. apply digit_range in H. unfold isspace, is_sign, in_rng. lia.
Qed.

(** The value of digits. *)
Definition num_from (base acc : Z) (ds : list Z) : Z := foldl (fun a c => a * base + default 0 (base_digit base c)) acc ds.
Definition num (base : Z) (ds : list Z) : Z := num_from base 0 ds.
Definition digits (base : Z) (ds : list Z) : Prop := Forall (fun c => is_Some (base_digit base c)) ds.

Lemma num_from_nonneg base ds : forall acc, 0 < base -> 0 <= acc -> digits base ds -> 0 <= num_from base acc ds.
Proof.
  induction ds as [|c ds IH]; intros acc Hb Ha Hd; [done|]. apply Forall_cons_1 in Hd as [[d Hc] Hd].
  cbn. rewrite Hc. apply base_digit_digit in Hc. apply IH; [done|cbn; nia|done].
Qed.

Lemma strto_digits_all base ds c t : forall acc any, digits base ds -> base_digit base c = None ->
  strto_digits base (ds ++ c :: t) acc any = Some (num_from base acc ds, any || negb (len ds =? 0), c :: t).
Proof.
  induction ds as [|x ds IH]; intros acc any Hd Hc.
  { cbn [app strto_digits]. rewrite Hc. by rewrite orb_false_r. }
  apply Forall_cons_1 in Hd as [[d Hx] Hd]. cbn [app strto_digits]. rewrite Hx, IH by done.
  cbn [num_from foldl]. rewrite Hx. do 3 f_equal. rewrite (proj2 (Z.eqb_neq (len (x :: ds)) 0)) by (unfold len; simpl; lia).
  by destruct any.
Qed.

Definition clamp (v : Z) : Z := Z.min v LLONG_MAX.

(** [strtoll] on digits, with a sign of its own. *)
Definition sign_of (sg : option bool) : list Z := match sg with None => [] | Some false => [43] | Some true => [45] end.
Definition is_neg (sg : option bool) : bool := match sg with Some true => true | _ => false end.

Lemma digit_val_none c : digit_val c = None -> c <> 48 /\ c <> 98 /\ c <> 111 /\ c <> 120 /\ c <> 88.
Proof. intros H. split_and!; intros ->; discriminate H. Qed.

Lemma skip_0x_digits base ds c t : digits base ds -> digit_val c = None -> skip_0x base (ds ++ c :: t) = Some (ds ++ c :: t).
Proof.
  intros Hd Hc. apply digit_val_none in Hc. unfold skip_0x.
  destruct ds as [|d1 [|d2 ds]]; cbn [app].
  - destruct t; [done|]. by rewrite (proj2 (Z.eqb_neq c 48)) by lia.
  - rewrite (proj2 (Z.eqb_neq c 120)), (proj2 (Z.eqb_neq c 88)) by lia. by rewrite andb_false_r.
  - apply Forall_cons_1 in Hd as [_ Hd]. apply Forall_cons_1 in Hd as [[d Hd] _].
    destruct (Z.eqb_spec base 16) as [->|]; [|by rewrite andb_false_r].
    assert (d2 <> 120 /\ d2 <> 88) as [??] by (split; intros ->; discriminate Hd).
    by rewrite (proj2 (Z.eqb_neq d2 120)), (proj2 (Z.eqb_neq d2 88)), andb_false_r by done.
Qed.

Lemma strtoll_digits base sg ds c t : 0 < base -> ds <> [] -> digits base ds -> digit_val c = None ->
  exists v, (if is_neg sg then v = Z.max (- num base ds) LLONG_MIN else v = clamp (num base ds)) /\
  strtoll (sign_of sg ++ ds ++ c :: t) base =
    Some (Strto v (c :: t) (if is_neg sg then - num base ds <? LLONG_MIN else LLONG_MAX <? num base ds)).
Proof.
  intros Hbase Hne Hd Hc. assert (base_digit base c = None) as Hc' by (unfold base_digit; by rewrite Hc).
  pose proof (num_from_nonneg base ds 0 Hbase ltac:(lia) Hd) as Hpos. fold (num base ds) in Hpos.
  assert (Hsk : forall s, s = sign_of sg ++ ds ++ c :: t -> skip_space s = s /\ exists a r, s = a :: r /\
      (if is_sign a then r else s) = ds ++ c :: t /\ (a =? 45) = is_neg sg).
  { intros s ->. destruct sg as [[]|]; cbn [sign_of app is_neg]; [split; [done|by eexists _, _]..|].
    destruct ds as [|d ds]; [done|]. apply Forall_cons_1 in Hd as [[x Hx] _].
    apply base_digit_plain in Hx as (Hs & Hsg & _). cbn. rewrite Hs. split; [done|]. eexists _, _. split; [done|].
    rewrite Hsg. split; [done|]. unfold is_sign in Hsg. apply orb_false_iff in Hsg. tauto. }
  destruct (Hsk _ eq_refl) as [Hsp (a & r & Ha & Hrest & Hneg)]. unfold strtoll. cbv zeta. rewrite Hsp, Ha.
  rewrite Ha in Hrest. rewrite Hrest. rewrite skip_0x_digits by done. cbn [mbind option_bind].
  rewrite strto_digits_all by done. cbn [mbind option_bind].
  rewrite (proj2 (Z.eqb_neq (len ds) 0)) by (destruct ds; [done|unfold len; simpl; lia]). cbn [negb orb].
  fold (num base ds). rewrite Hneg. unfold clamp, LLONG_MAX, LLONG_MIN in *.
  destruct (is_neg sg); eexists; (split; [reflexivity|]).
  - rewrite (proj2 (Z.ltb_ge _ (- num base ds))) by lia. destruct (Z.ltb_spec (- num base ds) (-9223372036854775808));
      do 2 f_equal; lia.
  - destruct (Z.ltb_spec 9223372036854775807 (num base ds)); [do 2 f_equal; lia|].
    rewrite (proj2 (Z.ltb_ge (num base ds) _)) by lia. do 2 f_equal. lia.
Qed.

(** The prefixes of the language. *)
Definition lit_prefix (base : Z) : list Z :=
  if base =? 2 then [48; 98] else if base =? 8 then [48; 111] else if base =? 16 then [48; 120] else [].
Definition lit_base (base : Z) : Prop := base = 2 \/ base = 8 \/ base = 10 \/ base = 16.

Definition lit_result (sg : option bool) (v : Z) (rest : list Z) : option int64_result :=
  Some (Int64Result (if is_neg sg then - clamp v else clamp v) (Some rest) (LLONG_MAX <? v)).

(** Everything behind the sign. *)
Lemma to_int64_unsigned sg str a r : str = a :: r -> is_sign a = false ->
  strx_to_int64 (sign_of sg ++ str) = fun erange =>
    let finish str base :=
      s ← strtoll str base;
      v ← (if is_neg sg then exact (- st_val s) else Some (st_val s));
      Some (Int64Result v (Some (st_end s)) (st_erange s)) in
    if a =? 48 then
      match r with
      | [] => None
      | x :: rest' =>
        if x =? 98 then finish rest' 2
        else if x =? 111 then finish rest' 8
        else if x =? 120 then finish rest' 16
        else if x =? 0 then Some (Int64Result 0 None erange)
        else finish r 10
      end
    else finish str 10.
Proof.
  intros -> Ha. destruct sg as [[]|]; cbn [sign_of app is_neg]; unfold strx_to_int64; cbv zeta.
  - reflexivity.
  - reflexivity.
  - rewrite Ha. unfold is_sign in Ha. apply orb_false_iff in Ha as [Ha _]. by rewrite Ha.
Qed.

Lemma finish_digits sg base ds c t : 0 < base -> ds <> [] -> digits base ds -> digit_val c = None ->
  (s ← strtoll (ds ++ c :: t) base;
   v ← (if is_neg sg then exact (- st_val s) else Some (st_val s));
   Some (Int64Result v (Some (st_end s)) (st_erange s))) = lit_result sg (num base ds) (c :: t).
Proof.
  intros Hb Hne Hd Hc. destruct (strtoll_digits base None ds c t Hb Hne Hd Hc) as (v & Hv & E).
  cbn [is_neg sign_of app] in *. rewrite E. cbn [mbind option_bind st_val st_end st_erange]. subst v.
  pose proof (num_from_nonneg base ds 0 Hb ltac:(lia) Hd) as Hpos. fold (num base ds) in Hpos.
  unfold lit_result. destruct (is_neg sg); [|done].
  unfold exact, in_i64. rewrite (proj2 (andb_true_iff _ _)); [done|]. unfold clamp, LLONG_MAX, LLONG_MIN. lia.
Qed.

Lemma strtoll_none c t base : isspace c = false -> is_sign c = false -> digit_val c = None ->
  strtoll (c :: t) base = Some (Strto 0 (c :: t) false).
Proof.
  intros Hs Hsg Hc. unfold strtoll. cbn [skip_space]. rewrite Hs. cbv zeta. rewrite Hsg.
  pose proof (skip_0x_digits base [] c t (Forall_nil_2 _) Hc) as E. cbn [app] in E. rewrite E. cbn [mbind option_bind strto_digits]. unfold base_digit. by rewrite Hc.
Qed.

Lemma digits_10_plain x : is_Some (base_digit 10 x) -> (x =? 98) = false /\ (x =? 111) = false /\ (x =? 120) = false /\ (x =? 0) = false.
Proof.
  intros [d Hd]. apply base_digit_plain in Hd as Hp. split_and!; apply Z.eqb_neq; [intros ->; discriminate Hd..|tauto].
Qed.

(** A literal of the language is read as its value: an optional sign, one of the
    prefixes [0b], [0o] and [0x] or none, and digits. The pointer moves behind
    the last digit; a value above the largest integer of 64 bits is cut to it,
    with [ERANGE]. A single zero must not be followed by white space, a sign or
    the end of the string. *)
Theorem to_int64_literal sg base ds c t erange :
  lit_base base -> ds <> [] -> digits base ds -> digit_val c = None ->
  (base = 10 -> ds = [48] -> isspace c = false /\ is_sign c = false /\ c <> 0) ->
  strx_to_int64 (sign_of sg ++ lit_prefix base ++ ds ++ c :: t) erange = lit_result sg (num base ds) (c :: t).
Proof.
  intros [->|[->|[->| ->]]] Hne Hd Hc Hz.
  - rewrite (to_int64_unsigned sg _ 48 (98 :: ds ++ c :: t)) by done. by apply finish_digits.
  - rewrite (to_int64_unsigned sg _ 48 (111 :: ds ++ c :: t)) by done. by apply finish_digits.
  - destruct ds as [|d ds]; [done|]. apply Forall_cons_1 in Hd as Hd2. destruct Hd2 as [[x Hx] Hds].
    pose proof (base_digit_plain _ _ _ Hx) as (_ & Hsg & _). cbn [lit_prefix Z.eqb app Pos.eqb].
    rewrite (to_int64_unsigned sg _ d (ds ++ c :: t)) by done. cbv zeta.
    destruct (Z.eqb_spec d 48) as [->|]; [|apply (finish_digits sg 10 (d :: ds)); done || lia].
    destruct ds as [|d2 ds]; cbn [app].
    + destruct (Hz eq_refl eq_refl) as (H1 & H2 & H3). pose proof (digit_val_none c Hc).
      rewrite !(proj2 (Z.eqb_neq c _)) by lia. rewrite strtoll_none by done. cbn. by destruct sg as [[]|].
    + apply Forall_cons_1 in Hds as Hd2. destruct Hd2 as [Hd2 _]. apply digits_10_plain in Hd2 as (-> & -> & -> & ->).
      apply (finish_digits sg 10 (d2 :: ds)); done || lia.
  - rewrite (to_int64_unsigned sg _ 48 (120 :: ds ++ c :: t)) by done. by apply finish_digits.
Qed.

Lemma to_int64_literal_witness :
  strx_to_int64 (sign_of (Some true) ++ lit_prefix 16 ++ [49; 102] ++ [58; 62]) false = lit_result (Some true) 31 [58; 62] /\
  strx_to_int64 (sign_of None ++ lit_prefix 10 ++ [48] ++ [58; 62]) false = lit_result None 0 [58; 62].
Proof.
  split; apply to_int64_literal; try done; try (repeat constructor; by eexists); by right; right; (left + right).
Defined.

Lemma signed_small (sg : bool) n v : 0 <= n <= LLONG_MAX ->
  (if sg then v = Z.max (- n) LLONG_MIN else v = clamp n) -> v = if sg then - n else n.
Proof. unfold clamp, LLONG_MAX, LLONG_MIN. intros. destruct sg; lia. Qed.

Lemma signed_small_range (sg : bool) n : 0 <= n <= LLONG_MAX -> (if sg then - n <? LLONG_MIN else LLONG_MAX <? n) = false.
Proof. unfold LLONG_MAX, LLONG_MIN. intros. destruct sg; lia. Qed.

(** White space in front of a number. *)
Lemma skip_space_app sp s : Forall (fun c => isspace c = true) sp -> skip_space (sp ++ s) = skip_space s.
Proof. induction 1 as [|c sp Hc _ IH]; [done|]. cbn [app skip_space]. by rewrite Hc. Qed.

Lemma strtoll_spaces sp s base r : Forall (fun c => isspace c = true) sp -> strtoll s base = Some r -> st_end r <> s ->
  strtoll (sp ++ s) base = Some r.
Proof.
  intros Hsp. unfold strtoll. rewrite skip_space_app by done. cbv zeta.
  destruct (skip_space s) as [|c r']; [done|]. destruct (skip_0x base _) as [u|]; cbn; [|done].
  destruct (strto_digits base u 0 false) as [[[v any] e]|]; cbn; [|done].
  destruct any; cbn; [by intros -> |]. intros [= <-]. done.
Qed.

(** The digit 0 of the literal [0] is skipped before [strtoll] is called, which then
    accepts white space and a sign: a zero that is followed by white space or by
    nothing, then by a sign and digits, is read as the signed number behind it.
    The literal [0] of the text [0-5] has the value -5. *)
Theorem zero_literal_reads_on sp (sg : bool) ds c t erange :
  Forall (fun c => isspace c = true) sp -> ds <> [] -> digits 10 ds -> digit_val c = None -> num 10 ds <= LLONG_MAX ->
  strx_to_int64 (48 :: sp ++ (if sg then 45 else 43) :: ds ++ c :: t) erange =
    Some (Int64Result (if sg then - num 10 ds else num 10 ds) (Some (c :: t)) false).
Proof.
  intros Hsp Hne Hd Hc Hmax. pose proof (num_from_nonneg 10 ds 0 ltac:(lia) ltac:(lia) Hd) as Hpos. fold (num 10 ds) in Hpos.
  destruct (strtoll_digits 10 (Some sg) ds c t ltac:(lia) Hne Hd Hc) as (v & Hv & E).
  replace (is_neg (Some sg)) with sg in * by by destruct sg.
  apply signed_small in Hv; [|done]. rewrite signed_small_range in E by done. subst v.
  assert (Hs : sign_of (Some sg) ++ ds ++ c :: t = (if sg then 45 else 43) :: ds ++ c :: t) by by destruct sg.
  rewrite Hs in E. apply (strtoll_spaces sp) in E; [|done|].
  2:{ cbn [st_end]. intros Heq. apply (f_equal length) in Heq. simpl in Heq. rewrite length_app in Heq. simpl in Heq. lia. }
  assert (Hhd : exists x r, sp ++ (if sg then 45 else 43) :: ds ++ c :: t = x :: r /\
     (x =? 98) = false /\ (x =? 111) = false /\ (x =? 120) = false /\ (x =? 0) = false).
  { destruct sp as [|x sp]; [by destruct sg; eexists _, _|]. apply Forall_inv, isspace_spec in Hsp.
    eexists _, _. split; [done|]. lia. }
  destruct Hhd as (x & r & Hx & E1 & E2 & E3 & E4). rewrite Hx in *.
  pose proof (to_int64_unsigned None (48 :: x :: r) 48 (x :: r) eq_refl eq_refl) as Hun. cbn [sign_of app] in Hun.
  rewrite Hun. cbv beta zeta. rewrite E1, E2, E3, E4, E. cbn [mbind option_bind st_val st_end st_erange is_neg Z.eqb Pos.eqb].
  done.
Qed.

Lemma zero_literal_reads_on_witness :
  strx_to_int64 [48; 45; 53; 0] false = Some (Int64Result (-5) (Some [0]) false) /\
  strx_to_int64 [48; 32; 43; 53; 0] false = Some (Int64Result 5 (Some [0]) false).
Proof.
  split; [apply (zero_literal_reads_on [] true [53] 0 [] false)|apply (zero_literal_reads_on [32] false [53] 0 [] false)];
    try done; repeat constructor; by eexists.
Defined.

(** ** Printing and reading *)

Lemma base_digit_char d : 0 <= d < 10 -> base_digit 10 (48 + d) = Some d.
Proof.
  intros H. unfold base_digit, digit_val, in_rng. rewrite (proj2 (andb_true_iff _ _)) by lia.
  replace (48 + d - 48) with d by lia. by rewrite (proj2 (Z.ltb_lt d 10)) by lia.
Qed.

Lemma num_from_app base ds ds' acc : num_from base acc (ds ++ ds') = num_from base (num_from base acc ds) ds'.
Proof. unfold num_from. by rewrite foldl_app. Qed.

Lemma digits_of_acc fuel : forall x acc, digits_of fuel x acc = digits_of fuel x [] ++ acc.
Proof.
  induction fuel as [|fuel IH]; intros x acc; [done|]. cbn [digits_of]. destruct (x <? 10); [done|].
  rewrite (IH _ (_ :: acc)), (IH _ [_]), <- app_assoc. done.
Qed.

Lemma digits_of_num fuel : forall x, 0 <= x < 10 ^ Z.of_nat fuel ->
  (0 < fuel)%nat -> num 10 (digits_of fuel x []) = x /\ digits 10 (digits_of fuel x []) /\ digits_of fuel x [] <> [].
Proof.
  induction fuel as [|fuel IH]; intros x Hx Hf; [lia|]. cbn [digits_of].
  assert (Hd : base_digit 10 (48 + x mod 10) = Some (x mod 10)) by (apply base_digit_char; Z.div_mod_to_equations; lia).
  destruct (Z.ltb_spec x 10).
  - rewrite Z.mod_small in * by lia. split_and!; [|by constructor; [eexists|constructor]|done].
    unfold num, num_from. cbn [foldl]. by rewrite Hd.
  - rewrite Nat2Z.inj_succ, Z.pow_succ_r in Hx by lia.
    assert (0 < fuel)%nat by (destruct fuel; [cbn in Hx; lia|lia]).
    destruct (IH (x / 10)) as (Hn & Hds & Hne); [Z.div_mod_to_equations; lia|done|].
    rewrite digits_of_acc. split_and!.
    + unfold num in *. rewrite num_from_app, Hn. unfold num_from. cbn [foldl]. rewrite Hd. cbn [default].
      unfold default, id. rewrite (Z.div_mod x 10) at 3 by lia. lia.
    + apply Forall_app. split; [done|]. by constructor; [eexists|constructor].
    + by destruct (digits_of fuel (x / 10) []).
Qed.


Lemma lit_result_signed sg v rest : 0 <= v <= LLONG_MAX ->
  lit_result sg v rest = Some (Int64Result (if is_neg sg then - v else v) (Some rest) false).
Proof.
  intros Hv. unfold lit_result, clamp. rewrite Z.min_l by lia. by rewrite (proj2 (Z.ltb_ge _ _)) by lia.
Qed.

Lemma digits_of_length fuel : forall x acc, (length (digits_of fuel x acc) <= fuel + length acc)%nat.
Proof.
  induction fuel as [|fuel IH]; intros x acc; [done|]. cbn [digits_of]. destruct (x <? 10); [simpl; lia|].
  etrans; [apply IH|]. simpl. lia.
Qed.

Lemma print_length i : len (print_int64 i) <= 21.
Proof.
  unfold print_int64, len. pose proof (digits_of_length 20 (- i) []). pose proof (digits_of_length 20 i []).
  destruct (i <? 0); cbn [length] in *; lia.
Qed.

Lemma from_int64_print i : strx_from_int64 i = (print_int64 i, len (print_int64 i)).
Proof.
  pose proof (print_length i). unfold strx_from_int64, STRX__MAX_CONV_SZ. cbv zeta.
  rewrite take_ge by (unfold len in *; lia). by rewrite (proj2 (Z.leb_gt 50 _)) by lia.
Qed.

(** An integer is printed within the buffer and read back from the text, with
    whatever follows the terminator left alone. For 0 the end pointer and
    [errno] stay as they were; the smallest integer is not read back: it comes
    out one larger, with [ERANGE]. *)
Theorem int64_text_round_trip i t erange : in_i64 i = true ->
  let '(s, n) := strx_from_int64 i in
  n = len s /\
  strx_to_int64 (s ++ 0 :: t) erange = Some (
    if i =? 0 then Int64Result 0 None erange
    else if i =? LLONG_MIN then Int64Result (LLONG_MIN + 1) (Some (0 :: t)) true
    else Int64Result i (Some (0 :: t)) false).
Proof.
  intros Hi. unfold in_i64, LLONG_MIN, LLONG_MAX in Hi.
  assert (Hi' : 0 <= Z.abs i < 10 ^ Z.of_nat 20) by (change (10 ^ Z.of_nat 20) with 100000000000000000000; lia).
  destruct (digits_of_num 20 (Z.abs i) Hi' ltac:(lia)) as (Hn & Hd & Hne).
  set (sg := if i <? 0 then Some true else None).
  assert (Hp : print_int64 i = sign_of sg ++ digits_of 20 (Z.abs i) []).
  { unfold print_int64, sg. destruct (Z.ltb_spec i 0); cbn [sign_of app].
    - by replace (- i) with (Z.abs i) by lia.
    - by replace i with (Z.abs i) at 1 by lia. }
  rewrite from_int64_print. split; [done|]. destruct (Z.eqb_spec i 0) as [->|Hi0]; [done|].
  rewrite Hp, <- app_assoc.
  pose proof (to_int64_literal sg 10 (digits_of 20 (Z.abs i) []) 0 t erange ltac:(right; right; by left) Hne Hd eq_refl) as Hlit.
  cbn [lit_prefix Z.eqb Pos.eqb app] in Hlit. rewrite Hlit, Hn.
  2:{ intros _ Heq. rewrite Heq in Hn. exfalso. apply Hi0. change (num 10 [48]) with 0 in Hn. lia. }
  destruct (Z.eqb_spec i LLONG_MIN) as [->|Hmin]; [done|]. unfold LLONG_MIN in Hmin.
  rewrite lit_result_signed by (unfold LLONG_MAX; lia). do 2 f_equal. unfold sg.
  destruct (Z.ltb_spec i 0); cbn [is_neg]; lia.
Qed.

Lemma int64_text_round_trip_witness :
  in_i64 (-1234) = true /\ strx_to_int64 ((strx_from_int64 (-1234)).1 ++ [0]) true = Some (Int64Result (-1234) (Some [0]) false).
Proof. split; [done|]. exact (proj2 (int64_text_round_trip (-1234) [] true eq_refl)). Defined.

(** ** Splitting and joining *)

(** The fields of [s] between the separators, and the ones that are not empty
    with [j] between them. *)
Fixpoint fields (c : Z) (s : list Z) : list Z * list (list Z) :=
  match s with
  | [] => ([], [])
  | x :: s => let '(f, fs) := fields c s in if x =? c then ([], f :: fs) else (x :: f, fs)
  end.
Definition nonempty (w : list Z) : bool := match w with [] => false | _ => true end.
Definition words (c : Z) (s : list Z) : list (list Z) := List.filter nonempty ((fields c s).1 :: (fields c s).2).
Fixpoint join_words (j : Z) (ws : list (list Z)) : list Z :=
  match ws with [] => [] | [w] => w | w :: ws => w ++ j :: join_words j ws end.
Definition then_words (j : Z) (ws : list (list Z)) : list Z := match ws with [] => [] | _ => j :: join_words j ws end.

Lemma join_words_cons j w ws : join_words j (w :: ws) = w ++ then_words j ws.
Proof. destruct ws; cbn; [by rewrite app_nil_r|done]. Qed.

Lemma split_join_words c j s :
  split_join_loop s c j (-1) = join_words j (words c s) /\
  split_join_loop s c j 1 = then_words j (words c s) /\
  split_join_loop s c j 0 = (fields c s).1 ++ then_words j (List.filter nonempty (fields c s).2).
Proof.
  unfold words. induction s as [|x s (IH1 & IH2 & IH3)]; [done|]. cbn [split_join_loop fields].
  destruct (fields c s) as [f fs]. cbn [fst snd] in *. destruct (x =? c); cbn [negb fst snd List.filter nonempty Z.eqb app].
  - rewrite IH1, IH2. done.
  - rewrite IH3. cbn [Z.ltb Z.compare app]. rewrite join_words_cons. split_and!; [done| |done].
    cbn [then_words]. by rewrite join_words_cons.
Qed.

(** [strx_split_join] joins the words of a string. *)
Lemma split_join_correct s c j : strx_split_join s c j = join_words j (words c s).
Proof. apply split_join_words. Qed.

(** ** Trimming *)

Lemma trim_trail_spec chr r : exists p, r = p ++ trim_trail chr r /\ Forall (fun c => trim_chr chr c = true) p /\
  (r <> [] -> exists c t, trim_trail chr r = c :: t /\ (trim_chr chr c = false \/ t = [])).
Proof.
  induction r as [|c r (p & Hp & Hall & Hh)]; [by exists []|]. cbn [trim_trail]. destruct r as [|d r].
  { exists []. split_and!; [done|constructor|]. intros _. exists c, []. by split; [|right]. }
  destruct (trim_chr chr c) eqn:E.
  - exists (c :: p). split_and!; [cbn [app]; f_equal; exact Hp|by constructor|]. intros _. by apply Hh.
  - exists []. split_and!; [done|constructor|]. intros _. exists c, (d :: r). by split; [|left].
Qed.

Lemma trim_lead_spec chr s : exists p, s = p ++ trim_lead chr s /\ Forall (fun c => trim_chr chr c = true) p /\
  match trim_lead chr s with [] => True | c :: _ => trim_chr chr c = false end.
Proof.
  induction s as [|c s (p & Hp & Hall & Hh)]; [by exists []|]. cbn [trim_lead]. destruct (trim_chr chr c) eqn:E.
  - exists (c :: p). split_and!; [cbn [app]; f_equal; exact Hp|by constructor|done].
  - exists []. by split_and!; [|constructor|].
Qed.

(** [strx_trim] takes characters of the kind off both ends, and all of them. *)
Lemma trim_correct s chr : exists p q, s = p ++ strx_trim s chr ++ q /\
  Forall (fun c => trim_chr chr c = true) (p ++ q) /\
  match strx_trim s chr with
  | [] => True
  | c :: _ => trim_chr chr c = false /\ trim_chr chr (List.last (strx_trim s chr) 0) = false
  end.
Proof.
  unfold strx_trim. destruct (trim_lead_spec chr s) as (p & Hp & Hall & Hh).
  destruct (trim_lead chr s) as [|c t]; [exists p, []; by rewrite !app_nil_r in *|].
  destruct (trim_trail_spec chr (rev (c :: t))) as (q & Hq & Hqall & Hqh).
  destruct Hqh as (d & u & Hd & Hlast); [intros Hnil; apply (f_equal length) in Hnil; rewrite length_rev in Hnil; done|].
  exists p, (rev q). apply (f_equal (@rev Z)) in Hq. rewrite rev_involutive, rev_app_distr in Hq.
  split_and!; [rewrite Hp; f_equal; exact Hq|apply Forall_app; split; [done|by apply Forall_rev]|].
  rewrite Hd in Hq |- *. cbn [rev] in Hq |- *.
  assert (Hl : List.last (rev u ++ [d]) 0 = d) by apply last_last.
  destruct (rev u ++ [d]) as [|x xs] eqn:Hx; [by destruct (rev u)|]. rewrite Hl.
  cbn [app] in Hq. injection Hq as -> _. split; [done|]. destruct Hlast as [?| ->]; [done|]. cbn in Hx. injection Hx as -> _. done.
Qed.

(** ** Two routines that do not do what they say *)

(** Replacing loses what follows the last occurrence: in [xay], the [a] by [b]. *)
Lemma replace_str_loses_tail : strx_replace_str [120; 97; 121] [97] [98] 100 = Some (0, [120; 98]).
Proof. done. Qed.

(** A long string is copied past the end of the static buffer: [n] is copied
    where [nn] is meant. *)
Lemma printable_overflows s n : forallb isprint (take 46 s) = true -> 50 <= Z.of_nat n -> strx_printable s n = None.
Proof.
  intros Hp Hn. unfold strx_printable, strx_is_printablen. cbv zeta.
  change (Z.to_nat STRX__MAX_CONV_SZ - 4)%nat with 46%nat.
  destruct (Nat.leb_spec n 46); [lia|]. rewrite Hp. cbn [negb]. unfold STRX__MAX_CONV_SZ.
  destruct (Z.ltb_spec 50 (Z.of_nat n)); [done|]. destruct (Nat.ltb_spec n 46); [lia|].
  by rewrite (proj2 (Z.leb_le 50 (Z.of_nat n))) by lia.
Qed.
