(* ===== verification/Spec.v ===== *)
(** * ti/spec: the specifications of properties

    [src/src/ti/spec.c] with [src/inc/ti/spec.t.h], [src/inc/ti/spec.inline.h] and
    the part of [src/inc/ti/val.inline.h] that tells the types of values apart. A
    specification is a number of 16 bits: an id of a type, one of the constants
    below or an enumeration's id with a flag, and a bit for nil.

    Values carry what the checks look at. A list and a set know the specification
    their parent gives them ([ti_varr_spec], [ti_vset_spec]), a thing that is no
    instance its restriction. Doubles are those of [SpecFloat]. Regular
    expressions are matched by PCRE, a parameter. *)
From Stdlib Require Import ZArith Lia Floats.SpecFloat.
From stdpp Require Import base list option numbers.
From S2P Require Import Prelude Utf8 Opr Strx.

(** ** Specifications *)

Definition TI_SPEC_NILLABLE : Z := 0x8000.
Definition TI_SPEC_MASK_NILLABLE : Z := 0x7fff.

Definition TI_SPEC_ANY : Z := 0x4000.
Definition TI_SPEC_OBJECT : Z := 0x4001.
Definition TI_SPEC_RAW : Z := 0x4002.
Definition TI_SPEC_STR : Z := 0x4003.
Definition TI_SPEC_UTF8 : Z := 0x4004.
Definition TI_SPEC_BYTES : Z := 0x4005.
Definition TI_SPEC_INT : Z := 0x4006.
Definition TI_SPEC_UINT : Z := 0x4007.
Definition TI_SPEC_PINT : Z := 0x4008.
Definition TI_SPEC_NINT : Z := 0x4009.
Definition TI_SPEC_FLOAT : Z := 0x400a.
Definition TI_SPEC_NUMBER : Z := 0x400b.
Definition TI_SPEC_BOOL : Z := 0x400c.
Definition TI_SPEC_ARR : Z := 0x400d.
Definition TI_SPEC_SET : Z := 0x400e.
Definition TI_SPEC_DATETIME : Z := 0x400f.
Definition TI_SPEC_TIMEVAL : Z := 0x4010.
Definition TI_SPEC_REGEX : Z := 0x4011.
Definition TI_SPEC_CLOSURE : Z := 0x4012.
Definition TI_SPEC_ERROR : Z := 0x4013.
Definition TI_SPEC_ROOM : Z := 0x4014.
Definition TI_SPEC_TASK : Z := 0x4015.
Definition TI_SPEC_EMAIL : Z := 0x4016.
Definition TI_SPEC_URL : Z := 0x4017.
Definition TI_SPEC_TEL : Z := 0x4018.
Definition TI_SPEC_ENUM : Z := 0x4019.
Definition TI_SPEC_REMATCH : Z := 0x5000.
Definition TI_SPEC_INT_RANGE : Z := 0x5001.
Definition TI_SPEC_FLOAT_RANGE : Z := 0x5002.
Definition TI_SPEC_STR_RANGE : Z := 0x5003.
Definition TI_SPEC_UTF8_RANGE : Z := 0x5004.
Definition TI_SPEC_TYPE : Z := 0x5005.
Definition TI_SPEC_ARR_TYPE : Z := 0x5006.

Definition TI_ENUM_ID_FLAG : Z := 0x6000.
Definition TI_ENUM_ID_MASK : Z := 0x1fff.

(** The [switch] over [ti_spec_enum_t]: the constant a specification without
    the bit for nil is, if any. *)
Inductive spec_enum :=
  | SAny | SObject | SRaw | SStr | SUtf8 | SBytes | SInt | SUint | SPint | SNint | SFloat | SNumber | SBool
  | SArr | SSet | SDatetime | STimeval | SRegex | SClosure | SError | SRoom | STask | SEmail | SUrl | STel | SEnum
  | SRematch | SIntRange | SFloatRange | SStrRange | SUtf8Range | SType | SArrType.

Definition SPECS1 : list spec_enum :=
  [SAny; SObject; SRaw; SStr; SUtf8; SBytes; SInt; SUint; SPint; SNint; SFloat; SNumber; SBool;
   SArr; SSet; SDatetime; STimeval; SRegex; SClosure; SError; SRoom; STask; SEmail; SUrl; STel; SEnum].
Definition SPECS2 : list spec_enum := [SRematch; SIntRange; SFloatRange; SStrRange; SUtf8Range; SType; SArrType].

Definition spec_enum_of (spec : Z) : option spec_enum :=
  if (TI_SPEC_ANY <=? spec) && (spec <=? TI_SPEC_ENUM) then SPECS1 !! Z.to_nat (spec - TI_SPEC_ANY)
  else if (TI_SPEC_REMATCH <=? spec) && (spec <=? TI_SPEC_ARR_TYPE) then SPECS2 !! Z.to_nat (spec - TI_SPEC_REMATCH)
  else None.

(** [spec & TI_SPEC_NILLABLE] and [spec & TI_SPEC_MASK_NILLABLE]. *)
Definition nillable (spec : Z) : bool := negb (Z.land spec TI_SPEC_NILLABLE =? 0).
Definition unmask (spec : Z) : Z := Z.land spec TI_SPEC_MASK_NILLABLE.

Definition ti_spec_is_enum (spec : Z) : bool := 0x6000 <=? unmask spec.
Definition ti_spec_is_arr_or_set (spec : Z) : bool := (unmask spec =? TI_SPEC_ARR) || (unmask spec =? TI_SPEC_SET).
Definition ti_spec_is_set (spec : Z) : bool := unmask spec =? TI_SPEC_SET.

(** ** Values *)

Definition double := spec_float.

Inductive val :=
  | VNil
  | VInt (i : Z)
  | VFloat (f : double)
  | VBool (b : bool)
  | VDatetime (timeval : bool)
  | VName (s : list Z)
  | VStr (s : list Z)
  | VBytes (s : list Z)
  | VRegex
  | VThing (type_id via_spec : Z) (dict : bool) (items : list val)
  | VWrap (n : Z)
  | VRoom (id : Z)
  | VTask (run_at : Z)
  | VArr (spec : Z) (tuple : bool) (vec : list val)
  | VSet (spec : Z) (things : list Z)         (* the types of its things *)
  | VError
  | VMember (enum_id : Z) (name : list Z) (v : val)
  | VMpdata (s : list Z)
  | VClosure (c : Z)
  | VAno
  | VWano (n : Z)
  | VFuture
  | VModule
  | VTemplate.

Definition ti_val_is_nil (v : val) : bool := match v with VNil => true | _ => false end.
Definition ti_val_is_int (v : val) : bool := match v with VInt _ => true | _ => false end.
Definition ti_val_is_float (v : val) : bool := match v with VFloat _ => true | _ => false end.
Definition ti_val_is_number (v : val) : bool := match v with VInt _ | VFloat _ => true | _ => false end.
Definition ti_val_is_bool (v : val) : bool := match v with VBool _ => true | _ => false end.
Definition ti_val_is_datetime_strict (v : val) : bool := match v with VDatetime t => negb t | _ => false end.
Definition ti_val_is_timeval (v : val) : bool := match v with VDatetime t => t | _ => false end.
Definition ti_val_is_str (v : val) : bool := match v with VStr _ | VName _ => true | _ => false end.
Definition ti_val_is_bytes (v : val) : bool := match v with VBytes _ => true | _ => false end.
Definition ti_val_is_raw (v : val) : bool := match v with VStr _ | VName _ | VBytes _ | VMpdata _ => true | _ => false end.
Definition ti_val_is_regex (v : val) : bool := match v with VRegex => true | _ => false end.
Definition ti_val_is_thing (v : val) : bool := match v with VThing _ _ _ _ => true | _ => false end.
Definition ti_val_is_room (v : val) : bool := match v with VRoom _ => true | _ => false end.
Definition ti_val_is_task (v : val) : bool := match v with VTask _ => true | _ => false end.
Definition ti_val_is_array (v : val) : bool := match v with VArr _ _ _ => true | _ => false end.
Definition ti_val_is_set (v : val) : bool := match v with VSet _ _ => true | _ => false end.
Definition ti_val_is_error (v : val) : bool := match v with VError => true | _ => false end.
Definition ti_val_is_member (v : val) : bool := match v with VMember _ _ _ => true | _ => false end.
Definition ti_val_is_closure (v : val) : bool := match v with VClosure _ => true | _ => false end.

(** The fields of the structures behind the casts. *)
Definition VINT (v : val) : Z := match v with VInt i => i | _ => 0 end.
Definition raw_data (v : val) : list Z := match v with VName s | VStr s | VBytes s | VMpdata s => s | _ => [] end.
Definition raw_n (v : val) : Z := len (raw_data v).
Definition thing_type_id (v : val) : Z := match v with VThing t _ _ _ => t | _ => 0 end.

Definition raw_is_utf8 (v : val) : bool := strx_is_utf8n (raw_data v) (length (raw_data v)).

Definition ti_val_is_uint (v : val) : bool := ti_val_is_int v && (0 <=? VINT v).
Definition ti_val_is_pint (v : val) : bool := ti_val_is_int v && (0 <? VINT v).
Definition ti_val_is_nint (v : val) : bool := ti_val_is_int v && (VINT v <? 0).
Definition ti_val_is_utf8 (v : val) : bool := ti_val_is_str v && raw_is_utf8 v.

Definition sf_zero (f : double) : bool := match f with S754_zero _ => true | _ => false end.

Fixpoint ti_val_as_bool (v : val) : bool :=
  match v with
  | VNil | VError => false
  | VInt i => negb (i =? 0)
  | VFloat f => negb (sf_zero f)
  | VBool b => b
  | VName s | VStr s | VBytes s | VMpdata s => negb (len s =? 0)
  | VThing _ _ _ items => negb (len items =? 0)
  | VWrap n | VWano n => negb (n =? 0)
  | VRoom id => negb (id =? 0)
  | VTask run_at => negb (run_at =? 0)
  | VArr _ _ vec => negb (len vec =? 0)
  | VSet _ things => negb (len things =? 0)
  | VMember _ _ v => ti_val_as_bool v
  | _ => true
  end.

Definition ti_spec_enum_eq_to_val (spec : Z) (v : val) : bool :=
  match v with VMember enum_id _ _ => enum_id =? Z.land spec TI_ENUM_ID_MASK | _ => false end.

(** ** Conditions of a field *)

(** [ti_condition_via_t]; reading the member that was not written is undefined. *)
Inductive condition :=
  | CNone
  | CDval (dval : val)                       (* the default of an enumeration *)
  | CRe (dval : val) (pattern : list Z)
  | CSrange (dval : val) (mi ma : Z)
  | CIrange (dval : val) (mi ma : Z)
  | CDrange (dval : val) (mi ma : double)
  | CRel
  | CType.

Definition irange (c : condition) : option (Z * Z) := match c with CIrange _ mi ma => Some (mi, ma) | _ => None end.
Definition srange (c : condition) : option (Z * Z) := match c with CSrange _ mi ma => Some (mi, ma) | _ => None end.
Definition drange (c : condition) : option (double * double) := match c with CDrange _ mi ma => Some (mi, ma) | _ => None end.
Definition re (c : condition) : option (list Z) := match c with CRe _ p => Some p | _ => None end.

(** Results of the checks. *)
Inductive ti_spec_rval := RVAL_SUCCESS | RVAL_TYPE_ERROR | RVAL_UTF8_ERROR | RVAL_UINT_ERROR | RVAL_PINT_ERROR | RVAL_NINT_ERROR
  | RVAL_EMAIL_ERROR | RVAL_URL_ERROR | RVAL_TEL_ERROR.
Inductive ti_spec_mod := MOD_SUCCESS | MOD_ERR | MOD_NILLABLE_ERR | MOD_NESTED.

Definition rval (ok : bool) (err : ti_spec_rval) : ti_spec_rval := if ok then RVAL_SUCCESS else err.
Definition mod_res (ok : bool) : ti_spec_mod := if ok then MOD_SUCCESS else MOD_ERR.

(** Comparisons of doubles: false when one of them is not a number. *)
Definition dge (x y : double) : bool := SFleb y x.
Definition dle (x y : double) : bool := SFleb x y.

(** [x == a || x == b || ...] *)
Definition any_of (x : Z) (l : list Z) : bool := existsb (Z.eqb x) l.

(** May a property with the specification [ospec] get the one of [nspec]? *)
Definition ti_spec_check_mod (ospec nspec : Z) (oc nc : condition) : option ti_spec_mod :=
  if nspec =? TI_SPEC_ANY then Some MOD_SUCCESS
  else if nillable ospec && negb (nillable nspec) then Some MOD_NILLABLE_ERR
  else
    let ospec := unmask ospec in
    let nspec := unmask nspec in
    let any l := Some (mod_res (any_of ospec l)) in
    let same := Some (mod_res (ospec =? nspec)) in
    match spec_enum_of nspec with
    | Some SAny => Some MOD_SUCCESS
    | Some SObject => Some (if (ospec <? TI_SPEC_ANY) || (ospec =? TI_SPEC_OBJECT) then MOD_NESTED else MOD_ERR)
    | Some SRaw => any [TI_SPEC_RAW; TI_SPEC_STR; TI_SPEC_UTF8; TI_SPEC_BYTES; TI_SPEC_EMAIL; TI_SPEC_URL; TI_SPEC_TEL;
                        TI_SPEC_REMATCH; TI_SPEC_STR_RANGE; TI_SPEC_UTF8_RANGE]
    | Some SStr => any [TI_SPEC_STR; TI_SPEC_UTF8; TI_SPEC_EMAIL; TI_SPEC_URL; TI_SPEC_TEL; TI_SPEC_REMATCH;
                        TI_SPEC_STR_RANGE; TI_SPEC_UTF8_RANGE]
    | Some SUtf8 => any [TI_SPEC_UTF8; TI_SPEC_UTF8_RANGE]
    | Some SBytes => same
    | Some SInt => any [TI_SPEC_INT; TI_SPEC_UINT; TI_SPEC_PINT; TI_SPEC_NINT; TI_SPEC_INT_RANGE]
    | Some SUint =>
      if any_of ospec [TI_SPEC_UINT; TI_SPEC_PINT] then Some MOD_SUCCESS
      else if ospec =? TI_SPEC_INT_RANGE then '(mi, _) ← irange oc; Some (mod_res (0 <=? mi)) else Some MOD_ERR
    | Some SPint =>
      if ospec =? TI_SPEC_PINT then Some MOD_SUCCESS
      else if ospec =? TI_SPEC_INT_RANGE then '(mi, _) ← irange oc; Some (mod_res (0 <? mi)) else Some MOD_ERR
    | Some SNint =>
      if ospec =? TI_SPEC_NINT then Some MOD_SUCCESS
      else if ospec =? TI_SPEC_INT_RANGE then '(_, ma) ← irange oc; Some (mod_res (ma <? 0)) else Some MOD_ERR
    | Some SFloat => any [TI_SPEC_FLOAT; TI_SPEC_FLOAT_RANGE]
    | Some SNumber => any [TI_SPEC_NUMBER; TI_SPEC_FLOAT; TI_SPEC_INT; TI_SPEC_UINT; TI_SPEC_PINT; TI_SPEC_NINT;
                           TI_SPEC_INT_RANGE; TI_SPEC_FLOAT_RANGE]
    | Some SBool => same
    | Some SArr | Some SSet => Some (if ospec =? nspec then MOD_NESTED else MOD_ERR)
    | Some SDatetime | Some STimeval | Some SRegex | Some SClosure | Some SError | Some SRoom | Some STask
    | Some SEmail | Some SUrl | Some STel => same
    | Some SEnum => Some (mod_res ((ospec =? TI_SPEC_ENUM) || ti_spec_is_enum ospec))
    | Some SRematch => Some MOD_ERR
    | Some SIntRange =>
      if ospec =? TI_SPEC_INT_RANGE then
        '(omi, oma) ← irange oc; '(nmi, nma) ← irange nc; Some (mod_res ((nmi <=? omi) && (oma <=? nma)))
      else Some MOD_ERR
    | Some SFloatRange =>
      if ospec =? TI_SPEC_FLOAT_RANGE then
        '(omi, oma) ← drange oc; '(nmi, nma) ← drange nc; Some (mod_res (dge omi nmi && dle oma nma))
      else Some MOD_ERR
    | Some SStrRange =>
      if (ospec =? TI_SPEC_STR_RANGE) || (ospec =? TI_SPEC_UTF8_RANGE) then
        '(omi, oma) ← srange oc; '(nmi, nma) ← srange nc; Some (mod_res ((nmi <=? omi) && (oma <=? nma)))
      else Some MOD_ERR
    | Some SUtf8Range =>
      if ospec =? TI_SPEC_UTF8_RANGE then
        '(omi, oma) ← srange oc; '(nmi, nma) ← srange nc; Some (mod_res ((nmi <=? omi) && (oma <=? nma)))
      else Some MOD_ERR
    | Some SType | Some SArrType => None                      (* assert *)
    | None => same
    end.

Section Checks.
(** [pcre2_match] with a compiled pattern, and the patterns of [ti_val_borrow_re_*]. *)
Context (pcre_match : list Z -> list Z -> bool) (re_email re_url re_tel : list Z).

Definition ti_regex_test (p : list Z) (v : val) : bool := pcre_match p (raw_data v).
Definition ti_regex_test_or_empty (p : list Z) (v : val) : bool := (raw_n v =? 0) || pcre_match p (raw_data v).

(** [spec] has no bit for nil. *)
Definition ti__spec_check_nested_val (spec : Z) (v : val) : option ti_spec_rval :=
  let test b := Some (rval b RVAL_TYPE_ERROR) in
  let int_test b e := Some (if negb (ti_val_is_int v) then RVAL_TYPE_ERROR else rval b e) in
  let str_test b e := Some (if negb (ti_val_is_str v) then RVAL_TYPE_ERROR else rval b e) in
  match spec_enum_of spec with
  | Some SAny => None                                         (* assert *)
  | Some SObject => test (ti_val_is_thing v)
  | Some SRaw => test (ti_val_is_raw v)
  | Some SStr => test (ti_val_is_str v)
  | Some SUtf8 => str_test (raw_is_utf8 v) RVAL_UTF8_ERROR
  | Some SBytes => test (ti_val_is_bytes v)
  | Some SInt => test (ti_val_is_int v)
  | Some SUint => int_test (negb (VINT v <? 0)) RVAL_UINT_ERROR
  | Some SPint => int_test (negb (VINT v <=? 0)) RVAL_PINT_ERROR
  | Some SNint => int_test (negb (0 <=? VINT v)) RVAL_NINT_ERROR
  | Some SFloat => test (ti_val_is_float v)
  | Some SNumber => test (ti_val_is_number v)
  | Some SBool => test (ti_val_is_bool v)
  | Some SArr => test (ti_val_is_array v)
  | Some SSet => test (ti_val_is_set v)
  | Some SDatetime => test (ti_val_is_datetime_strict v)
  | Some STimeval => test (ti_val_is_timeval v)
  | Some SRegex => test (ti_val_is_regex v)
  | Some SClosure => test (ti_val_is_closure v)
  | Some SError => test (ti_val_is_error v)
  | Some SRoom => test (ti_val_is_room v)
  | Some STask => test (ti_val_is_task v)
  | Some SEmail => str_test (ti_regex_test_or_empty re_email v) RVAL_EMAIL_ERROR
  | Some SUrl => str_test (ti_regex_test_or_empty re_url v) RVAL_URL_ERROR
  | Some STel => str_test (ti_regex_test_or_empty re_tel v) RVAL_TEL_ERROR
  | Some SEnum => test (ti_val_is_member v || ti_val_is_nil v)
  | Some SRematch | Some SIntRange | Some SFloatRange | Some SStrRange | Some SUtf8Range | Some SType | Some SArrType =>
    None                                                      (* assert *)
  | None =>
    if TI_ENUM_ID_FLAG <=? spec then test (ti_spec_enum_eq_to_val spec v)
    else if negb (spec <? TI_SPEC_ANY) then None              (* assert *)
    else test (ti_val_is_thing v && (thing_type_id v =? spec))
  end.

Definition ti_spec_check_nested_val (spec : Z) (v : val) : option ti_spec_rval :=
  if (spec =? TI_SPEC_ANY) || (nillable spec && ti_val_is_nil v) then Some RVAL_SUCCESS
  else ti__spec_check_nested_val (unmask spec) v.

(** [ti_val_spec_map] and [ti_val_is_spec]: the check when an item is added to
    a list or set on a restricted thing. *)
Definition ti_val_is_re (p : list Z) (v : val) : bool :=
  match v with VStr _ => ti_regex_test_or_empty p v | _ => false end.

Definition ti_val_spec_map : list (val -> bool) :=
  [ti_val_is_thing; ti_val_is_raw; ti_val_is_str; ti_val_is_utf8; ti_val_is_bytes; ti_val_is_int; ti_val_is_uint;
   ti_val_is_pint; ti_val_is_nint; ti_val_is_float; ti_val_is_number; ti_val_is_bool; ti_val_is_array; ti_val_is_set;
   ti_val_is_datetime_strict; ti_val_is_timeval; ti_val_is_regex; ti_val_is_closure; ti_val_is_error; ti_val_is_room;
   ti_val_is_task; ti_val_is_re re_email; ti_val_is_re re_url; ti_val_is_re re_tel; ti_val_is_member].

Definition ti_val_is_spec (v : val) (spec : Z) : option bool :=
  if (spec =? TI_SPEC_ANY) || (nillable spec && ti_val_is_nil v) then Some true
  else if TI_ENUM_ID_FLAG <=? spec then Some (ti_spec_enum_eq_to_val spec v)
  else if TI_SPEC_ANY <? spec then f ← ti_val_spec_map !! Z.to_nat (spec - TI_SPEC_OBJECT); Some (f v)
  else Some (ti_val_is_thing v && (thing_type_id v =? spec)).
End Checks.
