(* ===== verification/Keywords.v ===== *)
(** * ti/spec and ti/field: the names of specifications

    The two perfect hash tables made with [gperf]: the reserved names of
    [src/src/ti/spec.c] and the names of specifications of
    [src/src/ti/field.c]. A string is its bytes. *)
From Stdlib Require Import ZArith Lia Ascii String.
From stdpp Require Import base list option numbers.
From S2P Require Import Prelude Utf8 Strx Spec.

(** The bytes of a literal. *)
Fixpoint str (s : string) : list Z :=
  match s with EmptyString => [] | String c s => Z.of_N (N_of_ascii c) :: str s end.

(** ** Reserved names *)

Definition TOTAL_KEYWORDS : Z := 53.
Definition MIN_WORD_LENGTH : Z := 2.
Definition MAX_WORD_LENGTH : Z := 9.
Definition MAX_HASH_VALUE : Z := 67.

Definition spec_asso_values : list Z :=
  [68; 68; 68; 68; 68; 68; 68; 68; 68; 68; 68; 68; 68; 68; 68; 68; 68; 68; 68; 68; 68; 68; 68; 68;
   68; 68; 68; 68; 68; 68; 68; 68; 68; 68; 68; 68; 68; 68; 68; 68; 68; 68; 68; 68; 68; 68; 68; 68;
   68; 68; 68; 68; 68; 68; 68; 68; 14; 68; 68; 68; 68; 68; 68; 68; 68; 68; 68; 68; 68; 68; 68; 68;
   68; 68; 68; 68; 68; 68; 68; 68; 68; 68; 68; 68; 68; 68; 68; 68; 68; 68; 68; 68; 68; 68; 68; 68;
   68; 5; 11; 11; 3; 3; 10; 35; 3; 0; 68; 16; 3; 22; 1; 8; 22; 68; 0; 15; 4; 0; 7; 12;
   4; 20; 68; 68; 68; 68; 68; 68; 68; 68; 68; 68; 68; 68; 68; 68; 68; 68; 68; 68; 68; 68; 68; 68;
   68; 68; 68; 68; 68; 68; 68; 68; 68; 68; 68; 68; 68; 68; 68; 68; 68; 68; 68; 68; 68; 68; 68; 68;
   68; 68; 68; 68; 68; 68; 68; 68; 68; 68; 68; 68; 68; 68; 68; 68; 68; 68; 68; 68; 68; 68; 68; 68;
   68; 68; 68; 68; 68; 68; 68; 68; 68; 68; 68; 68; 68; 68; 68; 68; 68; 68; 68; 68; 68; 68; 68; 68;
   68; 68; 68; 68; 68; 68; 68; 68; 68; 68; 68; 68; 68; 68; 68; 68; 68; 68; 68; 68; 68; 68; 68; 68;
   68; 68; 68; 68; 68; 68; 68; 68; 68; 68; 68; 68; 68; 68; 68; 68].

(** The cases of the [switch] fall through: the value of every byte up to the
    ninth (the eighth for fields) is added. A length of 0 ends in the default,
    which reads a byte that need not be there. *)
Definition asso (t : list Z) (c : Z) : Z := nth (Z.to_nat c) t 0.
Definition hash (t : list Z) (m : nat) (s : list Z) : option Z :=
  match s with [] => None | _ => Some (foldl (fun h c => h + asso t c) (len s) (rev (take m s))) end.
Definition spec__hash (s : list Z) : option Z := hash spec_asso_values 9 s.

Definition wordlist : list (list Z) :=
  map str [""; ""; ""; "in"; ""; ""; "url"; "nil"; "int"; "uint";
   "nint"; "true"; "if"; "tel"; "return"; "union"; "error"; "ano"; "trait"; "date";
   "raw"; "for"; "str"; "future"; "final"; "set"; "list"; "try"; "else"; "any";
   "enum"; "pint"; "utf8"; "time"; "bool"; "float"; "continue"; "tuple"; "email"; "catch";
   "break"; "false"; "room"; "number"; "task"; "module"; "interface"; "closure"; "thing"; "big";
   "regex"; "timeval"; "datetime"; "type"; ""; ""; "timedelta"; "typed"; "bytes"; "";
   ""; ""; ""; ""; ""; ""; ""; "mpdata"]%string.

Definition ti_spec_is_reserved (s : list Z) : option bool :=
  if (len s <=? MAX_WORD_LENGTH) && (MIN_WORD_LENGTH <=? len s) then
    key ← spec__hash s;
    if key <=? MAX_HASH_VALUE then
      ws ← wordlist !! Z.to_nat key;
      Some ((len ws =? len s) && bool_decide (s = ws))
    else Some false
  else Some false.

(** The list in the comment above the table. *)
Definition reserved_words : list (list Z) :=
  map str ["ano"; "any"; "big"; "bool"; "break"; "bytes"; "catch"; "closure"; "continue"; "date";
   "datetime"; "else"; "email"; "enum"; "error"; "false"; "final"; "float"; "for"; "future";
   "if"; "in"; "int"; "interface"; "list"; "module"; "mpdata"; "nil"; "nint"; "number";
   "pint"; "raw"; "regex"; "return"; "room"; "set"; "str"; "task"; "tel"; "thing";
   "time"; "timedelta"; "timeval"; "trait"; "true"; "try"; "tuple"; "type"; "typed"; "uint";
   "union"; "url"; "utf8"]%string.

(** ** Names of specifications *)

Definition FIELD_TOTAL_KEYWORDS : Z := 26.
Definition FIELD_MAX_HASH_VALUE : Z := 27.

Definition field_asso_values : list Z :=
  [28; 28; 28; 28; 28; 28; 28; 28; 28; 28; 28; 28; 28; 28; 28; 28; 28; 28; 28; 28; 28; 28; 28; 28;
   28; 28; 28; 28; 28; 28; 28; 28; 28; 28; 28; 28; 28; 28; 28; 28; 28; 28; 28; 28; 28; 28; 28; 28;
   28; 28; 28; 28; 28; 28; 28; 28; 14; 28; 28; 28; 28; 28; 28; 28; 28; 28; 28; 28; 28; 28; 28; 28;
   28; 28; 28; 28; 28; 28; 28; 28; 28; 28; 28; 28; 28; 28; 28; 28; 28; 28; 28; 11; 28; 11; 28; 28;
   28; 8; 1; 6; 0; 1; 8; 6; 4; 3; 28; 0; 0; 6; 1; 0; 9; 28; 0; 8; 0; 0; 0; 3;
   5; 1; 28; 0; 28; 0; 28; 28; 28; 28; 28; 28; 28; 28; 28; 28; 28; 28; 28; 28; 28; 28; 28; 28;
   28; 28; 28; 28; 28; 28; 28; 28; 28; 28; 28; 28; 28; 28; 28; 28; 28; 28; 28; 28; 28; 28; 28; 28;
   28; 28; 28; 28; 28; 28; 28; 28; 28; 28; 28; 28; 28; 28; 28; 28; 28; 28; 28; 28; 28; 28; 28; 28;
   28; 28; 28; 28; 28; 28; 28; 28; 28; 28; 28; 28; 28; 28; 28; 28; 28; 28; 28; 28; 28; 28; 28; 28;
   28; 28; 28; 28; 28; 28; 28; 28; 28; 28; 28; 28; 28; 28; 28; 28; 28; 28; 28; 28; 28; 28; 28; 28;
   28; 28; 28; 28; 28; 28; 28; 28; 28; 28; 28; 28; 28; 28; 28; 28].
Definition field__hash (s : list Z) : option Z := hash field_asso_values 8 s.

(** The functions that make a default value. *)
Inductive dval_cb :=
  | dval_arr | dval_bin | dval_bool | dval_closure | dval_datetime | dval_error | dval_float | dval_int | dval_nil | dval_nint | dval_pint | dval_regex | dval_room | dval_set | dval_str | dval_task | dval_thing | dval_timeval | dval_restricted | dval_type | dval_enum
  | condition_dval | condition_dval_true | condition_dval_false.

Record ti_field_map := FieldMap { fm_name : list Z; fm_spec : Z; fm_dval : dval_cb }.

Definition field__mapping : list ti_field_map :=
  [FieldMap (str "any") TI_SPEC_ANY dval_nil;
   FieldMap (str "thing") TI_SPEC_OBJECT dval_thing;
   FieldMap (str "raw") TI_SPEC_RAW dval_str;
   FieldMap (str "str") TI_SPEC_STR dval_str;
   FieldMap (str "utf8") TI_SPEC_UTF8 dval_str;
   FieldMap (str "bytes") TI_SPEC_BYTES dval_bin;
   FieldMap (str "int") TI_SPEC_INT dval_int;
   FieldMap (str "uint") TI_SPEC_UINT dval_int;
   FieldMap (str "pint") TI_SPEC_PINT dval_pint;
   FieldMap (str "nint") TI_SPEC_NINT dval_nint;
   FieldMap (str "float") TI_SPEC_FLOAT dval_float;
   FieldMap (str "number") TI_SPEC_NUMBER dval_int;
   FieldMap (str "bool") TI_SPEC_BOOL dval_bool;
   FieldMap (str "[]") TI_SPEC_ARR dval_arr;
   FieldMap (str "{}") TI_SPEC_SET dval_set;
   FieldMap (str "datetime") TI_SPEC_DATETIME dval_datetime;
   FieldMap (str "timeval") TI_SPEC_TIMEVAL dval_timeval;
   FieldMap (str "regex") TI_SPEC_REGEX dval_regex;
   FieldMap (str "closure") TI_SPEC_CLOSURE dval_closure;
   FieldMap (str "error") TI_SPEC_ERROR dval_error;
   FieldMap (str "room") TI_SPEC_ROOM dval_room;
   FieldMap (str "task") TI_SPEC_TASK dval_task;
   FieldMap (str "email") TI_SPEC_EMAIL dval_str;
   FieldMap (str "url") TI_SPEC_URL dval_str;
   FieldMap (str "tel") TI_SPEC_TEL dval_str;
   FieldMap (str "enum") TI_SPEC_ENUM dval_nil]%string.

(** [ti_field_init]: the table by hash; [None]: a failing assertion. *)
Definition ti_field_init : option (list (option ti_field_map)) :=
  foldl (fun t m =>
    t ← t; key ← field__hash (fm_name m);
    match t !! Z.to_nat key with
    | Some None => Some (<[Z.to_nat key := Some m]> t)
    | _ => None
    end) (Some (replicate 28 None)) field__mapping.

(** The array of a name has nine bytes. *)
Definition name_array (m : ti_field_map) : list Z := fm_name m ++ replicate (9 - length (fm_name m)) 0.

(** [memcmp (s, name, n) == 0] for [n] bytes of [s]: the bytes are read up to the first
    difference. *)
Fixpoint memcmp_eq (s name : list Z) : option bool :=
  match s, name with
  | [], _ => Some true
  | c :: s, d :: name => if c =? d then memcmp_eq s name else Some false
  | _ :: _, [] => None
  end.

Definition ti_field_map_by_strn (s : list Z) : option (option ti_field_map) :=
  field__map ← ti_field_init;
  key ← field__hash s;
  match (if key <=? FIELD_MAX_HASH_VALUE then field__map !! Z.to_nat key else None) with
  | Some (Some fmap) => eq ← memcmp_eq s (name_array fmap); Some (if eq : bool then Some fmap else None)
  | _ => Some None
  end.

Definition ti_field_map_by_spec (spec : Z) : option ti_field_map :=
  if (spec <? TI_SPEC_ANY) || (TI_SPEC_ANY + FIELD_TOTAL_KEYWORDS <=? spec) then None
  else field__mapping !! Z.to_nat (spec - TI_SPEC_ANY).

(** [ti_spec_approx_type_str]. *)
Definition spec_enum_name (s : spec_enum) : option (list Z) :=
  match s with
  | SAny => Some (str "any") | SObject => Some (str "thing") | SRaw => Some (str "raw")
  | SRematch | SStrRange | SStr => Some (str "str") | SUtf8Range | SUtf8 => Some (str "utf8")
  | SBytes => Some (str "bytes") | SIntRange | SInt => Some (str "int") | SUint => Some (str "uint")
  | SPint => Some (str "pint") | SNint => Some (str "nint") | SFloatRange | SFloat => Some (str "float")
  | SNumber => Some (str "number") | SBool => Some (str "bool") | SArr => Some (str "list") | SSet => Some (str "set")
  | SDatetime => Some (str "datetime") | STimeval => Some (str "timeval") | SRegex => Some (str "regex")
  | SClosure => Some (str "closure") | SError => Some (str "error") | SRoom => Some (str "room")
  | STask => Some (str "task") | SEmail => Some (str "email") | SUrl => Some (str "url") | STel => Some (str "tel")
  | SEnum => Some (str "enum") | SType | SArrType => None     (* assert *)
  end%string.

Definition ti_spec_approx_type_str (spec : Z) : option (list Z) :=
  match spec_enum_of (unmask spec) with
  | Some s => spec_enum_name s
  | None => Some (if unmask spec <? TI_SPEC_ANY then str "thing"%string else str "enum"%string)
  end.
