(* ===== verification/KeywordsProps.v ===== *)
(** * The tables find exactly their words *)
From Stdlib Require Import ZArith Lia Ascii String.
From stdpp Require Import base list option numbers.
From S2P Require Import Prelude Utf8 Strx Spec Keywords.

(** Membership in a list of words. *)
Definition word_in (s : list Z) (l : list (list Z)) : bool := existsb (fun w => bool_decide (s = w)) l.

Lemma word_in_spec s l : word_in s l = true <-> s ∈ l.
Proof.
  unfold word_in. rewrite existsb_exists. split.
  - intros (w & Hw & E). apply bool_decide_eq_true in E as ->. by apply list_elem_of_In.
  - intros H. exists s. split; [by apply list_elem_of_In|]. by apply bool_decide_eq_true.
Qed.

(** A property of all the words of a list that a computation decides. *)
Lemma words_all (P : list Z -> bool) l s : forallb P l = true -> s ∈ l -> P s = true.
Proof. rewrite forallb_forall. intros H Hs. apply H. by apply list_elem_of_In. Qed.

(** C20. A name is refused as the name of a type or an enumeration exactly when it is
    one of the 53 reserved words, and the hash is computed from bytes of the name. *)
Theorem is_reserved_exact s : ti_spec_is_reserved s = Some (word_in s reserved_words).
Proof.
  destruct (word_in s reserved_words) eqn:Hin.
  - apply word_in_spec in Hin.
    pose proof (words_all (fun s => bool_decide (ti_spec_is_reserved s = Some true)) reserved_words s) as H.
    eapply bool_decide_eq_true_1. apply H; [by vm_compute|done].
  - unfold ti_spec_is_reserved. destruct ((len s <=? MAX_WORD_LENGTH) && (MIN_WORD_LENGTH <=? len s)) eqn:Hlen; [|done].
    unfold spec__hash, hash. destruct s as [|c s]; [done|]. cbn [mbind option_bind].
    set (key := foldl _ _ _). unfold MAX_HASH_VALUE. destruct (Z.leb_spec key 67); [|done].
    destruct (wordlist !! Z.to_nat key) as [ws|] eqn:Hws; cbn [mbind option_bind].
    + destruct ((len ws =? len (c :: s)) && bool_decide (c :: s = ws)) eqn:E; [|done]. exfalso.
      apply andb_true_iff in E as [_ E]. apply bool_decide_eq_true in E as <-.
      apply list_elem_of_lookup_2 in Hws. apply not_true_iff_false in Hin. apply Hin.
      pose proof (words_all (fun w => (len w =? 0) || word_in w reserved_words) wordlist (c :: s)) as H1.
      apply orb_true_iff in H1 as [H1|H1]; [unfold len in H1; simpl in H1; lia|done|by vm_compute|done].
    + apply lookup_ge_None in Hws. change (length wordlist) with 68%nat in Hws. lia.
Qed.

(** ** Names of specifications *)

#[export] Instance dval_cb_eq_dec : EqDecision dval_cb.
Proof. solve_decision. Defined.
#[export] Instance ti_field_map_eq_dec : EqDecision ti_field_map.
Proof. solve_decision. Defined.

Definition field_table : list (option ti_field_map) := Eval vm_compute in default [] ti_field_init.

Lemma field_init_table : ti_field_init = Some field_table.
Proof. by vm_compute. Qed.

(** Where an entry is in the table. *)
Lemma field_table_slot k m : field_table !! k = Some (Some m) -> m ∈ field__mapping /\ field__hash (fm_name m) = Some (Z.of_nat k).
Proof.
  intros H.
  assert (Hall : forallb (fun k => match field_table !! k with
      | Some (Some m) => bool_decide (m ∈ field__mapping) && bool_decide (field__hash (fm_name m) = Some (Z.of_nat k))
      | _ => true end) (seq 0 28) = true) by by vm_compute.
  rewrite forallb_forall in Hall. specialize (Hall k). rewrite H in Hall.
  assert (k < 28)%nat as Hk by (apply lookup_lt_Some in H; exact H).
  specialize (Hall ltac:(apply in_seq; lia)). apply andb_true_iff in Hall as [H1 H2].
  by split; [apply bool_decide_eq_true in H1|apply bool_decide_eq_true in H2].
Qed.

Lemma foldl_asso t l : forall a, foldl (fun h c => h + asso t c) a l = a + foldl (fun h c => h + asso t c) 0 l.
Proof. induction l as [|c l IH]; intros a; cbn [foldl]; [lia|]. rewrite IH, (IH (0 + asso t c)). lia. Qed.

Lemma asso_nonneg c : 0 <= asso field_asso_values c.
Proof.
  unfold asso. destruct (nth_in_or_default (Z.to_nat c) field_asso_values 0) as [Hin| ->]; [|done].
  assert (H : forallb (fun x => 0 <=? x) field_asso_values = true) by by vm_compute.
  rewrite forallb_forall in H. by apply Z.leb_le, H.
Qed.

Lemma foldl_asso_nonneg l : 0 <= foldl (fun h c => h + asso field_asso_values c) 0 l.
Proof.
  induction l as [|c l IH]; [done|]. cbn [foldl]. rewrite foldl_asso. pose proof (asso_nonneg c). lia.
Qed.

Lemma memcmp_prefix s : forall name, memcmp_eq s name <> Some false -> take (length name) s = take (length s) name.
Proof.
  induction s as [|c s IH]; intros [|d name] H; cbn [memcmp_eq length take] in *; try done.
  destruct (Z.eqb_spec c d) as [->|]; [|done]. f_equal. by apply IH.
Qed.

Lemma length_name_array m : m ∈ field__mapping -> length (name_array m) = 9%nat.
Proof.
  intros Hm. assert (H : forallb (fun m => (length (name_array m) =? 9)%nat) field__mapping = true) by by vm_compute.
  rewrite forallb_forall in H. apply Nat.eqb_eq, H. by apply list_elem_of_In.
Qed.

(** What is left to check of the 26 names: a shorter prefix or a longer string
    has another hash. *)
Definition name_check (m : ti_field_map) : bool :=
  match field__hash (fm_name m) with
  | Some k =>
    forallb (fun n => (n =? length (fm_name m))%nat || negb (bool_decide (field__hash (take n (name_array m)) = Some k))) (seq 1 9)
    && (k <? 10 + foldl (fun h c => h + asso field_asso_values c) 0 (rev (take 8 (name_array m))))
  | None => false
  end.

Lemma names_checked : forallb name_check field__mapping = true.
Proof. by vm_compute. Qed.

Lemma field_hash_eq s m : s <> [] -> m ∈ field__mapping -> field__hash s = field__hash (fm_name m) ->
  memcmp_eq s (name_array m) <> Some false -> s = fm_name m.
Proof.
  intros Hs Hm Hh Hcmp. pose proof (length_name_array m Hm) as Hlen. apply memcmp_prefix in Hcmp. rewrite Hlen in Hcmp.
  pose proof names_checked as Hall. rewrite forallb_forall in Hall.
  specialize (Hall m ltac:(by apply list_elem_of_In)). unfold name_check in Hall.
  destruct (field__hash (fm_name m)) as [k|] eqn:Hk; [|done]. apply andb_true_iff in Hall as [H1 H2].
  destruct (Nat.leb_spec (length s) 9) as [Hle|Hgt].
  - rewrite take_ge in Hcmp by done. rewrite forallb_forall in H1.
    assert (length s <> 0)%nat by (by destruct s). specialize (H1 (length s) ltac:(apply in_seq; lia)).
    rewrite <- Hcmp, Hh, bool_decide_true in H1 by done. rewrite orb_false_r in H1. apply Nat.eqb_eq in H1.
    rewrite Hcmp, H1. unfold name_array. by rewrite take_app_length.
  - exfalso. rewrite (take_ge (name_array m)) in Hcmp by lia.
    assert (H8 : take 8 s = take 8 (name_array m)) by (rewrite <- Hcmp, take_take; done).
    unfold field__hash, hash in Hh. destruct s as [|c s]; [done|]. rewrite H8, foldl_asso in Hh.
    injection Hh as Hh. apply Z.ltb_lt in H2. unfold len in Hh. lia.
Qed.

(** A name is found in the table of specifications exactly when it is one of its
    26 names, although the comparison has no check of the lengths; no comparison
    reads behind a name. *)
Theorem field_map_exact s : s <> [] ->
  ti_field_map_by_strn s = Some (List.find (fun m => bool_decide (s = fm_name m)) field__mapping).
Proof.
  intros Hs. destruct (List.find _ field__mapping) as [m|] eqn:Hf.
  - apply find_some in Hf as [Hm E]. apply bool_decide_eq_true in E as ->.
    assert (Hall : forallb (fun m => bool_decide (ti_field_map_by_strn (fm_name m) = Some (Some m))) field__mapping = true)
      by by vm_compute.
    rewrite forallb_forall in Hall. eapply bool_decide_eq_true_1, Hall. done.
  - unfold ti_field_map_by_strn. rewrite field_init_table. cbn [mbind option_bind].
    destruct (field__hash s) as [key|] eqn:Hh; [|unfold field__hash, hash in Hh; by destruct s]. cbn [mbind option_bind].
    unfold FIELD_MAX_HASH_VALUE. destruct (Z.leb_spec key 27); [|done].
    destruct (field_table !! Z.to_nat key) as [[m|]|] eqn:Hm; [|done..].
    apply field_table_slot in Hm as [Hm Hmh].
    destruct (decide (memcmp_eq s (name_array m) = Some false)) as [->|Hne]; [done|]. exfalso.
    assert (0 <= key).
    { unfold field__hash, hash in Hh. destruct s as [|c s]; [done|]. rewrite foldl_asso in Hh. injection Hh as <-.
      apply Z.add_nonneg_nonneg; [apply len_nonneg|apply foldl_asso_nonneg]. }
    rewrite Z2Nat.id in Hmh by done. apply field_hash_eq in Hne; [|done..|by rewrite Hh].
    apply list_elem_of_In in Hm. apply (find_none _ _ Hf) in Hm. by rewrite bool_decide_true in Hm.
Qed.

Lemma field_map_exact_witness :
  ti_field_map_by_strn (str "int"%string) = Some (List.find (fun m => bool_decide (str "int"%string = fm_name m)) field__mapping).
Proof. by apply (field_map_exact (str "int"%string)). Defined.
