(* ===== verification/Field.v ===== *)
(** * ti/field: values for a field, and fields for a field

    The checks of [src/src/ti/field.c]: whether a value can be assigned to a field
    ([ti_field_make_assignable]), whether a value or a field can be shown as a
    field of another type ([ti_field_maps_to_val], [ti_field_maps_to_field]), and
    whether a field may get another specification while values exist
    ([ti_field_mod]). The work on both sides of a relation is not part of this
    file: a field here has no relation, or no parent. *)
From Stdlib Require Import ZArith Lia Floats.SpecFloat.
From stdpp Require Import base list option numbers.
From S2P Require Import Prelude Utf8 Opr Strx Spec Keywords.

Definition TI_FIELD_FLAG_SAME_DEEP : Z := 1.
Definition TI_FIELD_FLAG_MIN_DEEP : Z := 2.
Definition TI_FIELD_FLAG_MAX_DEEP : Z := 4.
Definition TI_FIELD_FLAG_DEEP : Z := 8.
Definition TI_FIELD_FLAG_ENAME : Z := 16.
Definition TI_FIELD_FLAG_NO_IDS : Z := 32.
Definition TI_FIELD_FLAG_SKIP_NIL : Z := 64.
Definition TI_FIELD_FLAG_SKIP_FALSE : Z := 128.

Record field := Field {
  f_spec : Z;
  f_nested : Z;
  f_flags : Z;
  f_dval : option dval_cb;
  f_cond : condition
}.

Definition has_flag (f : field) (flag : Z) : bool := negb (Z.land (f_flags f) flag =? 0).

(** The errors of an assignment, by the labels of the code. *)
Inductive aerr := type_error | future_module_error | utf8_error | uint_error | pint_error | nint_error | email_error
  | url_error | tel_error | re_error | irange_error | drange_error | nan_error | srange_error | restriction_error
  | memory_error | closure_error.

(** The error a nested check stands for. *)
Definition rval_err (r : ti_spec_rval) : option aerr :=
  match r with
  | RVAL_SUCCESS => None
  | RVAL_TYPE_ERROR => Some type_error
  | RVAL_UTF8_ERROR => Some utf8_error
  | RVAL_UINT_ERROR => Some uint_error
  | RVAL_PINT_ERROR => Some pint_error
  | RVAL_NINT_ERROR => Some nint_error
  | RVAL_EMAIL_ERROR => Some email_error
  | RVAL_URL_ERROR => Some url_error
  | RVAL_TEL_ERROR => Some tel_error
  end.

Section Fields.
Context (pcre_match : list Z -> list Z -> bool) (re_email re_url re_tel : list Z).
(** [ti_closure_unbound]: whether the closure can be parsed on its own. *)
Context (closure_unbound : Z -> bool).
(** [ti_enum_spec] of the enumeration with an id. *)
Context (enum_spec : Z -> option Z).

Local Notation check_nested := (ti_spec_check_nested_val pcre_match re_email re_url re_tel).

(** The loop over the items: the first error, if any. *)
Fixpoint check_items (spec : Z) (l : list val) : option (option aerr) :=
  match l with
  | [] => Some None
  | v :: l => r ← check_nested spec v; match rval_err r with Some e => Some (Some e) | None => check_items spec l end
  end.

(** The result of an assignment: an error, or the value that is assigned. *)
Definition assigned := option (aerr + val).

(** The specification a list or set gets from its new parent. *)
Definition from_parent (parent : bool) (f : field) : Z := if parent then f_nested f else TI_SPEC_ANY.

Definition field__varr_assign (mem parent : bool) (f : field) (spec : Z) (vec : list val) : assigned :=
  r ← (if (f_nested f =? TI_SPEC_ANY) || (f_nested f =? spec) || (len vec =? 0) then Some None
       else check_items (f_nested f) vec);
  Some match r with
  | Some e => inl e
  | None => if mem then inr (VArr (from_parent parent f) false vec) else inl memory_error
  end.

(** [field__walk_assign]: a thing of another type. *)
Definition field__walk_assign (f : field) (type_id : Z) : bool := negb (type_id =? f_nested f).

Definition field__vset_assign (mem parent : bool) (f : field) (spec : Z) (things : list Z) : assigned :=
  if negb ((f_nested f =? TI_SPEC_ANY) || (f_nested f =? spec) || (len things =? 0)) && existsb (field__walk_assign f) things
  then Some (inl type_error)
  else Some (if mem then inr (VSet (from_parent parent f) things) else inl memory_error).

Definition field__thing_assign (f : field) (type_id via_spec : Z) (dict : bool) (items : list val) : assigned :=
  let restricted := VThing type_id (f_nested f) dict items in
  if negb (type_id =? TI_SPEC_OBJECT) then Some (inl type_error)
  else if via_spec =? f_nested f then Some (inr (VThing type_id via_spec dict items))
  else if negb (via_spec =? TI_SPEC_ANY) then Some (inl restriction_error)
  else if len items =? 0 then Some (inr restricted)
  else r ← check_items (f_nested f) items; Some match r with Some e => inl e | None => inr restricted end.

Definition ti_field_make_assignable (mem parent : bool) (f : field) (v : val) : assigned :=
  let spec := unmask (f_spec f) in
  let ok : assigned := Some (inr v) in
  let err e : assigned := Some (inl e) in
  let test b := if b : bool then ok else err type_error in
  let int_test bad e := if negb (ti_val_is_int v) then err type_error else if bad : bool then err e else ok in
  let str_test good e := if negb (ti_val_is_str v) then err type_error else if good : bool then ok else err e in
  let unbound c := if closure_unbound c then ok else err closure_error in
  if spec <? TI_SPEC_ANY then
    test ((nillable (f_spec f) && ti_val_is_nil v) || (ti_val_is_thing v && (thing_type_id v =? spec)))
  else if nillable (f_spec f) && ti_val_is_nil v then ok
  else
    match spec_enum_of spec with
    | Some SAny =>
      match v with
      | VArr spec _ vec => field__varr_assign mem parent f spec vec
      | VSet spec things => field__vset_assign mem parent f spec things
      | VClosure c => unbound c
      | VFuture | VModule => err future_module_error
      | _ => ok
      end
    | Some SObject =>
      match v with
      | VThing type_id via_spec dict items =>
        if f_nested f =? TI_SPEC_ANY then ok else field__thing_assign f type_id via_spec dict items
      | _ => err type_error
      end
    | Some SRaw => test (ti_val_is_raw v)
    | Some SStr => test (ti_val_is_str v)
    | Some SUtf8 => str_test (raw_is_utf8 v) utf8_error
    | Some SBytes => test (ti_val_is_bytes v)
    | Some SInt => test (ti_val_is_int v)
    | Some SUint => int_test (VINT v <? 0) uint_error
    | Some SPint => int_test (VINT v <=? 0) pint_error
    | Some SNint => int_test (0 <=? VINT v) nint_error
    | Some SFloat => test (ti_val_is_float v)
    | Some SNumber => test (ti_val_is_number v)
    | Some SBool => test (ti_val_is_bool v)
    | Some SDatetime => test (ti_val_is_datetime_strict v)
    | Some STimeval => test (ti_val_is_timeval v)
    | Some SRegex => test (ti_val_is_regex v)
    | Some SClosure => match v with VClosure c => unbound c | _ => err type_error end
    | Some SError => test (ti_val_is_error v)
    | Some SRoom => test (ti_val_is_room v)
    | Some STask => test (ti_val_is_task v)
    | Some SEmail => str_test (ti_regex_test_or_empty pcre_match re_email v) email_error
    | Some SUrl => str_test (ti_regex_test_or_empty pcre_match re_url v) url_error
    | Some STel => str_test (ti_regex_test_or_empty pcre_match re_tel v) tel_error
    | Some SEnum => test (ti_val_is_member v || ti_val_is_nil v)
    | Some SArr => match v with VArr spec _ vec => field__varr_assign mem parent f spec vec | _ => err type_error end
    | Some SSet => match v with VSet spec things => field__vset_assign mem parent f spec things | _ => err type_error end
    | Some SRematch =>
      if negb (ti_val_is_str v) then err type_error
      else p ← re (f_cond f); if ti_regex_test pcre_match p v then ok else err re_error
    | Some SIntRange =>
      if negb (ti_val_is_int v) then err type_error
      else '(mi, ma) ← irange (f_cond f); if (VINT v <? mi) || (ma <? VINT v) then err irange_error else ok
    | Some SFloatRange =>
      match v with
      | VFloat d =>
        '(mi, ma) ← drange (f_cond f);
        if SFltb d mi || SFltb ma d then err drange_error
        else if match d with S754_nan => true | _ => false end then err nan_error else ok
      | _ => err type_error
      end
    | Some SStrRange =>
      if negb (ti_val_is_str v) then err type_error
      else '(mi, ma) ← srange (f_cond f); if (raw_n v <? mi) || (ma <? raw_n v) then err srange_error else ok
    | Some SUtf8Range =>
      if negb (ti_val_is_str v) then err type_error
      else if negb (raw_is_utf8 v) then err utf8_error
      else '(mi, ma) ← srange (f_cond f); if (raw_n v <? mi) || (ma <? raw_n v) then err srange_error else ok
    | Some SType | Some SArrType => None                      (* assert *)
    | None =>
      if negb (TI_ENUM_ID_FLAG <=? spec) then None            (* assert *)
      else test (ti_spec_enum_eq_to_val spec v)
    end.

(** ** A value as a field of another type *)

(** What a member of an enumeration is shown as. *)
Definition member_val (f : field) (v : val) : val :=
  match v with VMember _ name w => if has_flag f TI_FIELD_FLAG_ENAME then VName name else w | _ => v end.

(** The [switch] for a value that is no member. *)
Definition maps_to_nested_switch (spec : Z) (v : val) : option bool :=
  match spec_enum_of spec with
  | Some SAny => None                                       (* assert *)
  | Some SObject => Some (ti_val_is_thing v)
  | Some SRaw => Some (ti_val_is_raw v)
  | Some SStr => Some (ti_val_is_str v)
  | Some SUtf8 => Some (ti_val_is_str v && raw_is_utf8 v)
  | Some SBytes => Some (ti_val_is_bytes v)
  | Some SInt => Some (ti_val_is_int v)
  | Some SUint => Some (ti_val_is_int v && (0 <=? VINT v))
  | Some SPint => Some (ti_val_is_int v && (0 <? VINT v))
  | Some SNint => Some (ti_val_is_int v && (VINT v <? 0))
  | Some SFloat => Some (ti_val_is_float v)
  | Some SNumber => Some (ti_val_is_number v)
  | Some SBool => Some (ti_val_is_bool v)
  | Some SArr => Some (ti_val_is_array v || ti_val_is_set v)
  | Some SSet => Some (ti_val_is_set v)
  | Some SDatetime => Some (ti_val_is_datetime_strict v)
  | Some STimeval => Some (ti_val_is_timeval v)
  | Some SRegex => Some (ti_val_is_regex v)
  | Some SClosure => Some (ti_val_is_closure v)
  | Some SError => Some (ti_val_is_error v)
  | Some SRoom => Some (ti_val_is_room v)
  | Some STask => Some (ti_val_is_task v)
  | Some SEmail => Some (ti_val_is_str v && ti_regex_test_or_empty pcre_match re_email v)
  | Some SUrl => Some (ti_val_is_str v && ti_regex_test_or_empty pcre_match re_url v)
  | Some STel => Some (ti_val_is_str v && ti_regex_test_or_empty pcre_match re_tel v)
  | Some SEnum => Some (ti_val_is_member v || ti_val_is_nil v)
  | Some SRematch | Some SIntRange | Some SFloatRange | Some SStrRange | Some SUtf8Range | Some SType | Some SArrType =>
    None                                                    (* assert *)
  | None => Some (ti_val_is_thing v)
  end.

Definition ti__spec_maps_to_nested_val (f : field) (v : val) : option bool :=
  let spec := unmask (f_nested f) in
  if TI_ENUM_ID_FLAG <=? spec then Some (ti_spec_enum_eq_to_val spec v)
  else if ti_val_is_member v && (spec =? TI_SPEC_ENUM) then Some true
  else maps_to_nested_switch spec (member_val f v).

Definition ti_spec_maps_to_nested_val (f : field) (v : val) : option bool :=
  if (f_nested f =? TI_SPEC_ANY) || (nillable (f_nested f) && ti_val_is_nil v) then Some true
  else ti__spec_maps_to_nested_val f v.

Fixpoint maps_items (f : field) (l : list val) : option bool :=
  match l with
  | [] => Some true
  | v :: l => b ← ti_spec_maps_to_nested_val f v; if b : bool then maps_items f l else Some false
  end.

Definition field__maps_arr_to_arr (f : field) (spec : Z) (vec : list val) : option bool :=
  if (f_nested f =? TI_SPEC_ANY) || (len vec =? 0) || (f_nested f =? spec) then Some true
  else maps_items f vec.

Definition field__maps_arr_to_type (vec : list val) : bool := forallb ti_val_is_thing vec.

Definition field__maps_restricted (f : field) (type_id via_spec : Z) (items : list val) : option bool :=
  if f_nested f =? TI_SPEC_ANY then Some true
  else if negb (type_id =? TI_SPEC_OBJECT) then Some false
  else if via_spec =? f_nested f then Some true
  else maps_items f items.

Definition field__maps_set_to_arr (f : field) : bool := unmask (f_nested f) <=? TI_SPEC_OBJECT.

(** The [switch] for a value that is no member. *)
Definition maps_to_val_switch (f : field) (v : val) : option bool :=
  match spec_enum_of (unmask (f_spec f)) with
  | Some SAny => Some true
  | Some SObject =>
    match v with VThing type_id via_spec _ items => field__maps_restricted f type_id via_spec items | _ => Some false end
  | Some SRaw => Some (ti_val_is_raw v)
  | Some SStr => Some (ti_val_is_str v)
  | Some SUtf8 => Some (ti_val_is_str v && raw_is_utf8 v)
  | Some SBytes => Some (ti_val_is_bytes v)
  | Some SInt => Some (ti_val_is_int v)
  | Some SUint => Some (ti_val_is_int v && (0 <=? VINT v))
  | Some SPint => Some (ti_val_is_int v && (0 <? VINT v))
  | Some SNint => Some (ti_val_is_int v && (VINT v <? 0))
  | Some SFloat => Some (ti_val_is_float v)
  | Some SNumber => Some (ti_val_is_number v)
  | Some SBool => Some (ti_val_is_bool v)
  | Some SDatetime => Some (ti_val_is_datetime_strict v)
  | Some STimeval => Some (ti_val_is_timeval v)
  | Some SRegex => Some (ti_val_is_regex v)
  | Some SClosure => Some (ti_val_is_closure v)
  | Some SError => Some (ti_val_is_error v)
  | Some SRoom => Some (ti_val_is_room v)
  | Some STask => Some (ti_val_is_task v)
  | Some SEmail => Some (ti_val_is_str v && ti_regex_test_or_empty pcre_match re_email v)
  | Some SUrl => Some (ti_val_is_str v && ti_regex_test_or_empty pcre_match re_url v)
  | Some STel => Some (ti_val_is_str v && ti_regex_test_or_empty pcre_match re_tel v)
  | Some SEnum => Some (ti_val_is_member v || ti_val_is_nil v)
  | Some SArr =>
    match v with
    | VArr spec _ vec => field__maps_arr_to_arr f spec vec
    | VSet _ _ => Some (field__maps_set_to_arr f)
    | _ => Some false
    end
  | Some SSet => Some (ti_val_is_set v)
  | Some SRematch => if ti_val_is_str v then p ← re (f_cond f); Some (ti_regex_test pcre_match p v) else Some false
  | Some SIntRange =>
    if ti_val_is_int v then '(mi, ma) ← irange (f_cond f); Some ((mi <=? VINT v) && (VINT v <=? ma)) else Some false
  | Some SFloatRange =>
    match v with
    | VFloat d =>
      '(mi, ma) ← drange (f_cond f);
      Some (dge d mi && dle d ma && negb match d with S754_nan => true | _ => false end)
    | _ => Some false
    end
  | Some SStrRange =>
    if ti_val_is_str v then '(mi, ma) ← srange (f_cond f); Some ((mi <=? raw_n v) && (raw_n v <=? ma)) else Some false
  | Some SUtf8Range =>
    if ti_val_is_str v && raw_is_utf8 v then
      '(mi, ma) ← srange (f_cond f); Some ((mi <=? raw_n v) && (raw_n v <=? ma))
    else Some false
  | Some SType => Some (ti_val_is_thing v)
  | Some SArrType =>
    match v with
    | VArr _ _ vec => Some (field__maps_arr_to_type vec)
    | VSet _ _ => Some true
    | _ => Some false
    end
  | None => Some (ti_val_is_thing v)
  end.

Definition ti_field_maps_to_val (f : field) (v : val) : option bool :=
  if has_flag f TI_FIELD_FLAG_SKIP_FALSE && negb (ti_val_as_bool v) then Some false
  else if ti_val_is_nil v && has_flag f TI_FIELD_FLAG_SKIP_NIL then Some false
  else if ti_val_is_nil v && nillable (f_spec f) then Some true
  else
    let spec := unmask (f_spec f) in
    if TI_ENUM_ID_FLAG <=? spec then Some (ti_spec_enum_eq_to_val spec v)
    else if ti_val_is_member v && (spec =? TI_SPEC_ENUM) then Some true
    else maps_to_val_switch f (member_val f v).

(** ** A field as a field of another type *)

(** The specification a field with an enumeration is compared with. *)
Definition enum_as (t : field) (f_spec : Z) : option Z :=
  if has_flag t TI_FIELD_FLAG_ENAME then Some TI_SPEC_STR else enum_spec (Z.land f_spec TI_ENUM_ID_MASK).

(** The rest of [field__maps_to_nested], with what the field is compared with. *)
Definition maps_to_nested_field_switch (f : field) (t_spec f_nspec : Z) : option bool :=
  let set_or b := Some (b || ti_spec_is_set (f_spec f)) in
  if t_spec =? f_nspec then Some true
  else
    match spec_enum_of t_spec with
    | Some SAny => Some true
    | Some SObject => set_or (f_nspec <? TI_SPEC_ANY)
    | Some SRaw =>
      Some (any_of f_nspec [TI_SPEC_STR; TI_SPEC_UTF8; TI_SPEC_BYTES; TI_SPEC_EMAIL; TI_SPEC_URL; TI_SPEC_TEL])
    | Some SInt => Some (any_of f_nspec [TI_SPEC_UINT; TI_SPEC_PINT; TI_SPEC_NINT])
    | Some SUint => Some (f_nspec =? TI_SPEC_PINT)
    | Some SNumber => Some (any_of f_nspec [TI_SPEC_INT; TI_SPEC_UINT; TI_SPEC_PINT; TI_SPEC_NINT; TI_SPEC_FLOAT])
    | Some SStr => Some (any_of f_nspec [TI_SPEC_UTF8; TI_SPEC_EMAIL; TI_SPEC_URL; TI_SPEC_TEL])
    | Some _ => Some false
    | None =>
      if negb (t_spec <? TI_SPEC_ANY) then None           (* assert *)
      else set_or ((f_nspec <? TI_SPEC_ANY) || (f_nspec =? TI_SPEC_OBJECT))
    end.

Definition field__maps_to_nested (t f : field) : option bool :=
  if negb (ti_spec_is_arr_or_set (f_spec f) && ti_spec_is_arr_or_set (f_spec t)) then None   (* assert *)
  else if f_nested t =? TI_SPEC_ANY then Some true
  else if negb (nillable (f_nested t)) && nillable (f_nested f) then Some false
  else
    let t_spec := unmask (f_nested t) in
    let f_nspec := unmask (f_nested f) in
    if TI_ENUM_ID_FLAG <=? t_spec then Some (t_spec =? f_nspec)
    else if (TI_ENUM_ID_FLAG <=? f_nspec) && (t_spec =? TI_SPEC_ENUM) then Some true
    else
      f_nspec ← (if TI_ENUM_ID_FLAG <=? f_nspec then enum_as t f_nspec else Some f_nspec);
      maps_to_nested_field_switch f t_spec f_nspec.

(** The [switch] of [ti_field_maps_to_field]. *)
Definition maps_to_field_switch (t f : field) (t_spec fs : Z) : option bool :=
  let any l := Some (any_of fs l) in
  match spec_enum_of t_spec with
  | Some SAny => Some true
  | Some SObject => Some ((fs =? TI_SPEC_OBJECT) || (fs <? TI_SPEC_ANY))
  | Some SRaw => any [TI_SPEC_RAW; TI_SPEC_STR; TI_SPEC_UTF8; TI_SPEC_BYTES; TI_SPEC_EMAIL; TI_SPEC_URL; TI_SPEC_TEL;
                      TI_SPEC_REMATCH; TI_SPEC_STR_RANGE; TI_SPEC_UTF8_RANGE]
  | Some SStr => any [TI_SPEC_STR; TI_SPEC_UTF8; TI_SPEC_EMAIL; TI_SPEC_URL; TI_SPEC_TEL; TI_SPEC_REMATCH;
                      TI_SPEC_STR_RANGE; TI_SPEC_UTF8_RANGE]
  | Some SUtf8 => any [TI_SPEC_UTF8; TI_SPEC_UTF8_RANGE]
  | Some SBytes => Some (fs =? t_spec)
  | Some SInt => any [TI_SPEC_INT; TI_SPEC_UINT; TI_SPEC_PINT; TI_SPEC_NINT; TI_SPEC_INT_RANGE]
  | Some SUint =>
    if any_of fs [TI_SPEC_UINT; TI_SPEC_PINT] then Some true
    else if fs =? TI_SPEC_INT_RANGE then '(mi, _) ← irange (f_cond f); Some (0 <=? mi) else Some false
  | Some SPint =>
    if fs =? TI_SPEC_PINT then Some true
    else if fs =? TI_SPEC_INT_RANGE then '(mi, _) ← irange (f_cond f); Some (0 <? mi) else Some false
  | Some SNint =>
    if fs =? TI_SPEC_NINT then Some true
    else if fs =? TI_SPEC_INT_RANGE then '(_, ma) ← irange (f_cond f); Some (ma <? 0) else Some false
  | Some SFloat => any [TI_SPEC_FLOAT; TI_SPEC_FLOAT_RANGE]
  | Some SNumber => any [TI_SPEC_NUMBER; TI_SPEC_FLOAT; TI_SPEC_INT; TI_SPEC_UINT; TI_SPEC_PINT; TI_SPEC_NINT;
                         TI_SPEC_INT_RANGE; TI_SPEC_FLOAT_RANGE]
  | Some SBool | Some SDatetime | Some STimeval | Some SRegex | Some SClosure | Some SError | Some SRoom | Some STask
  | Some SEmail | Some SUrl | Some STel | Some SEnum => Some (fs =? t_spec)
  | Some SArr => if any_of fs [TI_SPEC_ARR; TI_SPEC_SET] then field__maps_to_nested t f else Some false
  | Some SSet => Some (fs =? TI_SPEC_SET)
  | Some SRematch =>
    if fs =? TI_SPEC_REMATCH then tp ← re (f_cond t); fp ← re (f_cond f); Some (bool_decide (tp = fp)) else Some false
  | Some SIntRange =>
    if fs =? TI_SPEC_INT_RANGE then
      '(fmi, fma) ← irange (f_cond f); '(tmi, tma) ← irange (f_cond t); Some ((tmi <=? fmi) && (fma <=? tma))
    else Some false
  | Some SFloatRange =>
    if fs =? TI_SPEC_FLOAT_RANGE then
      '(fmi, fma) ← drange (f_cond f); '(tmi, tma) ← drange (f_cond t); Some (dge fmi tmi && dle fma tma)
    else Some false
  | Some SStrRange =>
    if any_of fs [TI_SPEC_STR_RANGE; TI_SPEC_UTF8_RANGE] then
      '(fmi, fma) ← srange (f_cond f); '(tmi, tma) ← srange (f_cond t); Some ((tmi <=? fmi) && (fma <=? tma))
    else Some false
  | Some SUtf8Range =>
    if fs =? TI_SPEC_UTF8_RANGE then
      '(fmi, fma) ← srange (f_cond f); '(tmi, tma) ← srange (f_cond t); Some ((tmi <=? fmi) && (fma <=? tma))
    else Some false
  | Some SType => Some ((fs <? TI_SPEC_ANY) || (fs =? TI_SPEC_OBJECT))
  | Some SArrType =>
    Some ((fs =? TI_SPEC_SET) ||
          ((fs =? TI_SPEC_ARR) && ((f_nested f <? TI_SPEC_ANY) || (f_nested f =? TI_SPEC_OBJECT))))
  | None =>
    if negb (t_spec <? TI_SPEC_ANY) then None             (* assert *)
    else Some ((fs <? TI_SPEC_ANY) || (fs =? TI_SPEC_OBJECT))
  end.

Definition ti_field_maps_to_field (t f : field) : option bool :=
  if f_spec t =? TI_SPEC_ANY then Some true
  else if negb (nillable (f_spec t)) && nillable (f_spec f) then Some false
  else
    let t_spec := unmask (f_spec t) in
    let f_spec0 := unmask (f_spec f) in
    if TI_ENUM_ID_FLAG <=? t_spec then Some (t_spec =? f_spec0)
    else if (TI_ENUM_ID_FLAG <=? f_spec0) && (t_spec =? TI_SPEC_ENUM) then Some true
    else
      fs ← (if TI_ENUM_ID_FLAG <=? f_spec0 then enum_as t f_spec0 else Some f_spec0);
      maps_to_field_switch t f t_spec fs.
End Fields.

(** ** Another specification for a field *)

(** The decision of [ti_field_mod] for a type that is not wrap-only. *)
Inductive field_mod_res := MOD_done | MOD_incompatible | MOD_nillable.

Definition ti_field_mod_check (prev new : field) : option field_mod_res :=
  r ← ti_spec_check_mod (f_spec prev) (f_spec new) (f_cond prev) (f_cond new);
  match r with
  | MOD_SUCCESS => Some MOD_done
  | MOD_ERR => Some MOD_incompatible
  | MOD_NILLABLE_ERR => Some MOD_nillable
  | MOD_NESTED =>
    r ← ti_spec_check_mod (f_nested prev) (f_nested new) (f_cond prev) (f_cond new);
    Some match r with
    | MOD_SUCCESS => MOD_done
    | MOD_ERR => MOD_incompatible
    | MOD_NILLABLE_ERR => MOD_nillable
    | MOD_NESTED => MOD_incompatible
    end
  end.
