(* ===== verification/Wrap.v ===== *)
(** * ti/wrap: a thing shown as a type

    [wrap__field_thing] of [src/src/ti/wrap.c] decides which properties of a thing
    are packed for a client when the thing is wrapped by a type. For a thing of
    another type the fields of both types are compared once, by [ti_type_map] of
    [src/src/ti/type.c]; for a thing without a type the values are compared. The
    cache of the comparisons, methods and the packing of the values themselves are
    not part of this file. *)
From Stdlib Require Import ZArith Lia.
From stdpp Require Import base list option numbers.
From S2P Require Import Prelude Utf8 Opr Strx Spec Keywords Field.

(** Names are interned: two names are equal when their characters are. *)
Definition pname := list Z.

(** The fields of a type, by name and in order. *)
Definition fields := list (pname * field).

(** [ti_field_by_name]: the field and its place. *)
Fixpoint field_by_name (l : fields) (name : pname) (idx : nat) : option (nat * field) :=
  match l with
  | [] => None
  | (n, f) :: l => if bool_decide (n = name) then Some (idx, f) else field_by_name l name (S idx)
  end.
Definition ti_field_by_name (l : fields) (name : pname) : option (nat * field) := field_by_name l name 0.

Record ti_mapping := Mapping { t_name : pname; t_field : field; f_idx : nat }.
Record ti_map := Map { mappings : list ti_mapping; can_skip : bool }.

Definition can_skip_field (m : ti_mapping) : bool :=
  negb (Z.land (f_flags (t_field m)) (Z.lor TI_FIELD_FLAG_SKIP_NIL TI_FIELD_FLAG_SKIP_FALSE) =? 0).

Definition ti_map_new (l : list ti_mapping) : ti_map := Map l (existsb can_skip_field l).

(** A property that is not packed because of the flags of the field. *)
Definition wrap_skips (t : field) (v : val) : bool :=
  (has_flag t TI_FIELD_FLAG_SKIP_FALSE && negb (ti_val_as_bool v)) || (has_flag t TI_FIELD_FLAG_SKIP_NIL && ti_val_is_nil v).

(** What is packed for a property: its name, the field it is shown as, the value. *)
Definition shown := (pname * field * val)%type.

Section Wrap.
Context (pcre_match : list Z -> list Z -> bool) (re_email re_url re_tel : list Z) (enum_spec : Z -> option Z).

Fixpoint type_mappings (t_fields f_fields : fields) : option (list ti_mapping) :=
  match t_fields with
  | [] => Some []
  | (name, t) :: rest =>
    match ti_field_by_name f_fields name with
    | None => type_mappings rest f_fields
    | Some (idx, f) =>
      b ← ti_field_maps_to_field enum_spec t f;
      l ← type_mappings rest f_fields;
      Some (if b : bool then Mapping name t idx :: l else l)
    end
  end.

Definition ti_type_map (t_fields f_fields : fields) : option ti_map :=
  l ← type_mappings t_fields f_fields; Some (ti_map_new l).

(** The properties of a thing with a type: the number in the header of the map,
    and the pairs that follow. *)
Fixpoint wrap_mappings (skip : bool) (l : list ti_mapping) (items : list val) : option (list shown) :=
  match l with
  | [] => Some []
  | m :: l =>
    v ← items !! f_idx m;
    rest ← wrap_mappings skip l items;
    Some (if skip && wrap_skips (t_field m) v then rest else (t_name m, t_field m, v) :: rest)
  end.

Fixpoint wrap_count (l : list ti_mapping) (items : list val) : option Z :=
  match l with
  | [] => Some 0
  | m :: l => v ← items !! f_idx m; n ← wrap_count l items; Some (n + if wrap_skips (t_field m) v then 1 else 0)
  end.

Definition wrap_typed (t_fields f_fields : fields) (items : list val) : option (Z * list shown) :=
  map ← ti_type_map t_fields f_fields;
  if can_skip map then
    skip ← wrap_count (mappings map) items;
    l ← wrap_mappings true (mappings map) items;
    Some (len (mappings map) - skip, l)
  else
    l ← wrap_mappings false (mappings map) items;
    Some (len (mappings map), l).

(** [ti_thing_o_prop_weak_get] *)
Fixpoint prop_weak_get (props : list (pname * val)) (name : pname) : option val :=
  match props with
  | [] => None
  | (n, v) :: props => if bool_decide (n = name) then Some v else prop_weak_get props name
  end.

Fixpoint gather (t_fields : fields) (props : list (pname * val)) : option (list shown) :=
  match t_fields with
  | [] => Some []
  | (name, t) :: rest =>
    match prop_weak_get props name with
    | None => gather rest props
    | Some v =>
      b ← ti_field_maps_to_val pcre_match re_email re_url re_tel t v;
      l ← gather rest props;
      Some (if b : bool then (name, t, v) :: l else l)
    end
  end.

(** The properties of a thing without a type; [map_props] has room for the smaller
    number of fields and properties, writing past it is undefined. *)
Definition wrap_object (t_fields : fields) (props : list (pname * val)) : option (Z * list shown) :=
  l ← gather t_fields props;
  if len l <=? Z.min (len t_fields) (len props) then Some (len l, l) else None.
End Wrap.
