(* ===== verification/FieldProof.v ===== *)
(** * What the checks of a field decide

    [nested_ok] and [field_ok] say which values belong to a specification and to
    a field. The checks of the code are compared with them: the check of a nested
    value, the assignment, and the two ways to show a value as a field of another
    type. *)
From Stdlib Require Import ZArith Lia Floats.SpecFloat.
From stdpp Require Import base list option numbers.
From S2P Require Import Prelude Utf8 Opr Strx Spec Keywords Field.

(** ** Bits of a specification *)

(** Arithmetic on the constants. *)
Ltac slia := unfold TI_SPEC_ANY, TI_SPEC_OBJECT, TI_SPEC_RAW, TI_SPEC_STR, TI_SPEC_UTF8, TI_SPEC_BYTES, TI_SPEC_INT, TI_SPEC_UINT,
  TI_SPEC_PINT, TI_SPEC_NINT, TI_SPEC_FLOAT, TI_SPEC_NUMBER, TI_SPEC_BOOL, TI_SPEC_ARR, TI_SPEC_SET, TI_SPEC_DATETIME,
  TI_SPEC_TIMEVAL, TI_SPEC_REGEX, TI_SPEC_CLOSURE, TI_SPEC_ERROR, TI_SPEC_ROOM, TI_SPEC_TASK, TI_SPEC_EMAIL, TI_SPEC_URL,
  TI_SPEC_TEL, TI_SPEC_ENUM, TI_SPEC_REMATCH, TI_SPEC_INT_RANGE, TI_SPEC_FLOAT_RANGE, TI_SPEC_STR_RANGE, TI_SPEC_UTF8_RANGE,
  TI_SPEC_TYPE, TI_SPEC_ARR_TYPE, TI_ENUM_ID_FLAG, TI_SPEC_NILLABLE in *; lia.

Definition spec16 (s : Z) : Prop := 0 <= s < 65536.

Lemma unmask_mod s : unmask s = s mod 32768.
Proof. unfold unmask, TI_SPEC_MASK_NILLABLE. change 0x7fff with (Z.ones 15). by rewrite Z.land_ones by lia. Qed.

Lemma unmask_range s : 0 <= unmask s < 32768.
Proof. rewrite unmask_mod. apply Z.mod_pos_bound. lia. Qed.

Lemma nillable_spec s : spec16 s -> nillable s = (32768 <=? s).
Proof.
  intros Hs. unfold nillable, TI_SPEC_NILLABLE, spec16 in *.
  assert (Hb : Z.land s 0x8000 = if Z.testbit s 15 then 0x8000 else 0).
  { apply Z.bits_inj'. intros n Hn. rewrite Z.land_spec. change 0x8000 with (2 ^ 15).
    rewrite Z.pow2_bits_eqb by lia. destruct (Z.eqb_spec 15 n) as [<-|Hne].
    - rewrite andb_true_r. destruct (Z.testbit s 15); [by rewrite Z.pow2_bits_true|by rewrite Z.bits_0].
    - rewrite andb_false_r. destruct (Z.testbit s 15); [by rewrite Z.pow2_bits_false by lia|by rewrite Z.bits_0]. }
  rewrite Hb, Z.testbit_odd, Z.shiftr_div_pow2 by lia. change (2 ^ 15) with 32768.
  destruct (Z.leb_spec 32768 s) as [Hle|Hlt].
  - by rewrite <- (Z.div_unique s 32768 1 (s - 32768)) by lia.
  - by rewrite Z.div_small by lia.
Qed.

(** The specifications of nested values: [any], a type, one of the constants up
    to [enum], or an enumeration. *)
Definition simple_spec (s : Z) : Prop :=
  spec16 s /\ (s = TI_SPEC_ANY \/ unmask s < TI_SPEC_ANY \/ TI_SPEC_ANY < unmask s <= TI_SPEC_ENUM \/ TI_ENUM_ID_FLAG <= unmask s).

(** The constant of a number below and between the constants. *)
Lemma spec_enum_type s : s < TI_SPEC_ANY -> spec_enum_of s = None.
Proof. unfold spec_enum_of, TI_SPEC_ANY, TI_SPEC_REMATCH. intros. by rewrite !(proj2 (Z.leb_gt _ s)) by lia. Qed.

Lemma spec_enum_enum s : TI_ENUM_ID_FLAG <= s -> spec_enum_of s = None.
Proof.
  unfold spec_enum_of, TI_ENUM_ID_FLAG, TI_SPEC_ENUM, TI_SPEC_ARR_TYPE. intros.
  by rewrite !(proj2 (Z.leb_gt s _)), !andb_false_r by lia.
Qed.

Lemma spec_enum_simple s : TI_SPEC_ANY <= s <= TI_SPEC_ENUM -> exists e, spec_enum_of s = Some e /\ e ∈ SPECS1.
Proof.
  intros Hs. unfold spec_enum_of. rewrite !(proj2 (Z.leb_le _ _)) by lia. cbn [andb].
  destruct (SPECS1 !! Z.to_nat (s - TI_SPEC_ANY)) as [e|] eqn:E; [exists e; split; [done|by eapply list_elem_of_lookup_2]|].
  apply lookup_ge_None in E. change (length SPECS1) with 26%nat in E. unfold TI_SPEC_ANY, TI_SPEC_ENUM in *. lia.
Qed.

(** The number of a constant. *)
Definition spec_of_enum (e : spec_enum) : Z :=
  match e with
  | SAny => TI_SPEC_ANY | SObject => TI_SPEC_OBJECT | SRaw => TI_SPEC_RAW | SStr => TI_SPEC_STR | SUtf8 => TI_SPEC_UTF8
  | SBytes => TI_SPEC_BYTES | SInt => TI_SPEC_INT | SUint => TI_SPEC_UINT | SPint => TI_SPEC_PINT | SNint => TI_SPEC_NINT
  | SFloat => TI_SPEC_FLOAT | SNumber => TI_SPEC_NUMBER | SBool => TI_SPEC_BOOL | SArr => TI_SPEC_ARR | SSet => TI_SPEC_SET
  | SDatetime => TI_SPEC_DATETIME | STimeval => TI_SPEC_TIMEVAL | SRegex => TI_SPEC_REGEX | SClosure => TI_SPEC_CLOSURE
  | SError => TI_SPEC_ERROR | SRoom => TI_SPEC_ROOM | STask => TI_SPEC_TASK | SEmail => TI_SPEC_EMAIL | SUrl => TI_SPEC_URL
  | STel => TI_SPEC_TEL | SEnum => TI_SPEC_ENUM | SRematch => TI_SPEC_REMATCH | SIntRange => TI_SPEC_INT_RANGE
  | SFloatRange => TI_SPEC_FLOAT_RANGE | SStrRange => TI_SPEC_STR_RANGE | SUtf8Range => TI_SPEC_UTF8_RANGE
  | SType => TI_SPEC_TYPE | SArrType => TI_SPEC_ARR_TYPE
  end.

Lemma spec_of_enum_of s e : spec_enum_of s = Some e -> s = spec_of_enum e.
Proof.
  unfold spec_enum_of. intros H.
  destruct ((TI_SPEC_ANY <=? s) && (s <=? TI_SPEC_ENUM)) eqn:E1; [|destruct ((TI_SPEC_REMATCH <=? s) && (s <=? TI_SPEC_ARR_TYPE)) eqn:E2; [|done]].
  - assert (Hall : forall n e, SPECS1 !! n = Some e -> Z.of_nat n + TI_SPEC_ANY = spec_of_enum e).
    { intros n e'. do 26 (destruct n as [|n]; [by intros [= <-]|]). done. }
    apply Hall in H. unfold TI_SPEC_ANY, TI_SPEC_ENUM in *. lia.
  - assert (Hall : forall n e, SPECS2 !! n = Some e -> Z.of_nat n + TI_SPEC_REMATCH = spec_of_enum e).
    { intros n e'. do 7 (destruct n as [|n]; [by intros [= <-]|]). done. }
    apply Hall in H. unfold TI_SPEC_REMATCH, TI_SPEC_ARR_TYPE in *. lia.
Qed.

Lemma enum_of_spec_of e : spec_enum_of (spec_of_enum e) = Some e.
Proof. by destruct e. Qed.

(** ** The order of doubles *)

Definition is_nan (d : double) : bool := match d with S754_nan => true | _ => false end.

(** Doubles that are numbers are ordered like these triples. *)
Definition rank (d : double) : Z * Z * Z :=
  match d with
  | S754_zero _ | S754_nan => (0, 0, 0)
  | S754_infinity s => ((if s then -2 else 2), 0, 0)
  | S754_finite s m e => ((if s then -1 else 1), (if s then - e else e), (if s then - Zpos m else Zpos m))
  end.
Definition lex_le (x y : Z * Z * Z) : Prop :=
  x.1.1 < y.1.1 \/ x.1.1 = y.1.1 /\ (x.1.2 < y.1.2 \/ x.1.2 = y.1.2 /\ x.2 <= y.2).

Lemma dle_rank x y : is_nan x = false -> is_nan y = false -> SFleb x y = true <-> lex_le (rank x) (rank y).
Proof.
  unfold SFleb, lex_le, rank. destruct x as [sx|sx| |sx mx ex], y as [sy|sy| |sy my ey]; try discriminate; intros _ _;
    try destruct sx; try destruct sy; cbn [SFcompare fst snd]; try (split; [intros; lia|done]); try (split; [done|lia]).
  - destruct (Z.compare_spec ex ey); try (split; [intros; lia|done]); try (split; [done|lia]).
    rewrite <- Pos.compare_antisym. change (Pos.compare my mx) with (Z.pos my ?= Z.pos mx).
    destruct (Z.compare_spec (Z.pos my) (Z.pos mx)); (split; [intros; lia|done]) || (split; [done|lia]).
  - destruct (Z.compare_spec ex ey); try (split; [intros; lia|done]); try (split; [done|lia]).
    change (Pos.compare_cont Eq mx my) with (Z.pos mx ?= Z.pos my).
    destruct (Z.compare_spec (Z.pos mx) (Z.pos my)); (split; [intros; lia|done]) || (split; [done|lia]).
Qed.

Lemma dlt_dle x y : is_nan x = false -> is_nan y = false -> SFltb x y = negb (SFleb y x).
Proof.
  unfold SFltb, SFleb. destruct x as [sx|sx| |sx mx ex], y as [sy|sy| |sy my ey]; try discriminate; intros _ _;
    try destruct sx; try destruct sy; cbn [SFcompare]; try done.
  - rewrite (Z.compare_antisym ex ey). destruct (ex ?= ey); try done. cbn [CompOpp].
    change (PosDef.Pos.compare_cont Eq mx my) with (mx ?= my)%positive.
    change (PosDef.Pos.compare_cont Eq my mx) with (my ?= mx)%positive.
    rewrite (Pos.compare_antisym mx my). by destruct (mx ?= my)%positive.
  - rewrite (Z.compare_antisym ex ey). destruct (ex ?= ey); try done. cbn [CompOpp].
    change (PosDef.Pos.compare_cont Eq mx my) with (mx ?= my)%positive.
    change (PosDef.Pos.compare_cont Eq my mx) with (my ?= mx)%positive.
    rewrite (Pos.compare_antisym mx my). by destruct (mx ?= my)%positive.
Qed.

Lemma dle_trans x y z : is_nan x = false -> is_nan y = false -> is_nan z = false ->
  SFleb x y = true -> SFleb y z = true -> SFleb x z = true.
Proof.
  intros Hx Hy Hz. rewrite !dle_rank by done. unfold lex_le.
  destruct (rank x) as [[? ?] ?], (rank y) as [[? ?] ?], (rank z) as [[? ?] ?]. cbn [fst snd]. lia.
Qed.

Lemma dle_nan x y : SFleb x y = true -> is_nan x = false /\ is_nan y = false.
Proof. destruct x, y; cbn; try done. Qed.

Section Membership.
Context (pcre_match : list Z -> list Z -> bool) (re_email re_url re_tel : list Z) (closure_unbound : Z -> bool)
  (enum_spec : Z -> option Z).

Local Notation matches := (ti_regex_test_or_empty pcre_match).

(** ** Which values belong to a specification *)

Definition const_ok (e : spec_enum) (v : val) : bool :=
  match e with
  | SAny => true
  | SObject => ti_val_is_thing v
  | SRaw => ti_val_is_raw v
  | SStr => ti_val_is_str v
  | SUtf8 => ti_val_is_str v && raw_is_utf8 v
  | SBytes => ti_val_is_bytes v
  | SInt => ti_val_is_int v
  | SUint => ti_val_is_int v && (0 <=? VINT v)
  | SPint => ti_val_is_int v && (0 <? VINT v)
  | SNint => ti_val_is_int v && (VINT v <? 0)
  | SFloat => ti_val_is_float v
  | SNumber => ti_val_is_number v
  | SBool => ti_val_is_bool v
  | SArr => ti_val_is_array v
  | SSet => ti_val_is_set v
  | SDatetime => ti_val_is_datetime_strict v
  | STimeval => ti_val_is_timeval v
  | SRegex => ti_val_is_regex v
  | SClosure => ti_val_is_closure v
  | SError => ti_val_is_error v
  | SRoom => ti_val_is_room v
  | STask => ti_val_is_task v
  | SEmail => ti_val_is_str v && matches re_email v
  | SUrl => ti_val_is_str v && matches re_url v
  | STel => ti_val_is_str v && matches re_tel v
  | SEnum => ti_val_is_member v || ti_val_is_nil v
  | _ => false
  end.

(** A type or an enumeration. *)
Definition id_ok (s : Z) (v : val) : bool :=
  if TI_ENUM_ID_FLAG <=? s then ti_spec_enum_eq_to_val s v else ti_val_is_thing v && (thing_type_id v =? s).

Definition nil_ok (s : Z) (v : val) : bool := nillable s && ti_val_is_nil v.

Definition nested_ok (s : Z) (v : val) : bool :=
  nil_ok s v || match spec_enum_of (unmask s) with Some e => const_ok e v | None => id_ok (unmask s) v end.

(** The types of the things of a set. *)
Definition set_ok (nested : Z) (things : list Z) : bool := (nested =? TI_SPEC_ANY) || forallb (Z.eqb nested) things.

(** A field without the bit for nil. *)
Definition plain_ok (f : field) (v : val) : bool :=
  match spec_enum_of (unmask (f_spec f)) with
  | Some SAny => match v with VFuture | VModule => false | _ => true end
  | Some SObject =>
    match v with
    | VThing type_id _ _ items =>
      (f_nested f =? TI_SPEC_ANY) || ((type_id =? TI_SPEC_OBJECT) && forallb (nested_ok (f_nested f)) items)
    | _ => false
    end
  | Some SArr => match v with VArr _ _ vec => forallb (nested_ok (f_nested f)) vec | _ => false end
  | Some SSet => match v with VSet _ things => set_ok (f_nested f) things | _ => false end
  | Some SRematch =>
    match f_cond f with CRe _ p => ti_val_is_str v && ti_regex_test pcre_match p v | _ => false end
  | Some SIntRange =>
    match f_cond f with CIrange _ mi ma => ti_val_is_int v && (mi <=? VINT v) && (VINT v <=? ma) | _ => false end
  | Some SFloatRange =>
    match f_cond f, v with CDrange _ mi ma, VFloat d => dge d mi && dle d ma | _, _ => false end
  | Some SStrRange =>
    match f_cond f with CSrange _ mi ma => ti_val_is_str v && (mi <=? raw_n v) && (raw_n v <=? ma) | _ => false end
  | Some SUtf8Range =>
    match f_cond f with
    | CSrange _ mi ma => ti_val_is_str v && raw_is_utf8 v && (mi <=? raw_n v) && (raw_n v <=? ma)
    | _ => false
    end
  | Some e => const_ok e v
  | None => id_ok (unmask (f_spec f)) v
  end.

Definition field_ok (f : field) (v : val) : bool := nil_ok (f_spec f) v || plain_ok f v.

(** ** Well-formed fields and values *)

(** The condition that goes with a specification. *)
Definition cond_wf (e : spec_enum) (c : condition) : Prop :=
  match e with
  | SRematch => exists d p, c = CRe d p
  | SIntRange => exists d mi ma, c = CIrange d mi ma
  | SFloatRange => exists d mi ma, c = CDrange d mi ma /\ is_nan mi = false /\ is_nan ma = false
  | SStrRange | SUtf8Range => exists d mi ma, c = CSrange d mi ma
  | SType | SArrType => False
  | _ => True
  end.

(** The constants of fields with a specification for their items. *)
Definition holds_items (s : option spec_enum) : bool :=
  match s with Some SObject | Some SArr | Some SSet => true | _ => false end.

Definition field_wf (f : field) : Prop :=
  spec16 (f_spec f) /\ simple_spec (f_nested f) /\
  (holds_items (spec_enum_of (unmask (f_spec f))) = false -> f_nested f = TI_SPEC_ANY) /\
  match spec_enum_of (unmask (f_spec f)) with
  | Some SAny => f_spec f = TI_SPEC_ANY
  | Some SSet => f_nested f <= TI_SPEC_ANY
  | Some e => cond_wf e (f_cond f)
  | None => unmask (f_spec f) < TI_SPEC_ANY \/ TI_ENUM_ID_FLAG <= unmask (f_spec f)
  end.

(** A list, a set and a restricted thing hold what their specification says. *)
Definition val_wf (v : val) : Prop :=
  match v with
  | VArr s _ vec => forallb (nested_ok s) vec = true
  | VSet s things => set_ok s things = true
  | VThing type_id via _ items => type_id = TI_SPEC_OBJECT -> forallb (nested_ok via) items = true
  | _ => True
  end.

(** ** The check of a nested value *)

Lemma nested_ok_any v : nested_ok TI_SPEC_ANY v = true.
Proof. unfold nested_ok. cbn. by rewrite orb_true_r. Qed.

Definition rval_ok (r : ti_spec_rval) : bool := match rval_err r with None => true | Some _ => false end.

Lemma rval_ok_test b : rval_ok (rval b RVAL_TYPE_ERROR) = b.
Proof. by destruct b. Qed.

Lemma rval_ok_guard g b e : e <> RVAL_SUCCESS -> rval_ok (if negb g then RVAL_TYPE_ERROR else rval b e) = g && b.
Proof. by destruct g, b, e. Qed.

Lemma check_nested_ok s v : simple_spec s ->
  exists r, ti_spec_check_nested_val pcre_match re_email re_url re_tel s v = Some r /\
    rval_ok r = nested_ok s v.
Proof.
  intros [Hs Hc]. unfold ti_spec_check_nested_val.
  destruct (Z.eqb_spec s TI_SPEC_ANY) as [->|Hany].
  { exists RVAL_SUCCESS. by rewrite nested_ok_any. }
  cbn [orb]. unfold nested_ok. destruct (nil_ok s v) eqn:Hnil; unfold nil_ok in Hnil; rewrite Hnil; [by exists RVAL_SUCCESS|]. cbn [orb].
  unfold ti__spec_check_nested_val. destruct Hc as [Hc|[Hc|[Hc|Hc]]]; [done|..].
  - rewrite spec_enum_type by done. unfold id_ok, TI_ENUM_ID_FLAG, TI_SPEC_ANY in *.
    rewrite (proj2 (Z.leb_gt 0x6000 _)), (proj2 (Z.ltb_lt _ 0x4000)) by lia. cbn [negb]. eexists. split; [done|apply rval_ok_test].
  - destruct (spec_enum_simple (unmask s)) as (e & He & Hin); [lia|]. rewrite He.
    pose proof (spec_of_enum_of _ _ He) as Hval.
    destruct e; cbn in Hval; try (exfalso; slia);
      try (eexists; split; [reflexivity|]; cbn [const_ok]; rewrite ?rval_ok_guard, ?rval_ok_test by done;
           rewrite ?(Z.leb_antisym (VINT v) 0), ?(Z.ltb_antisym (VINT v) 0), ?(Z.leb_antisym 0 (VINT v)), ?(Z.ltb_antisym 0 (VINT v)),
             ?negb_involutive; done).
  - rewrite spec_enum_enum by done. unfold id_ok. rewrite (proj2 (Z.leb_le TI_ENUM_ID_FLAG _)) by lia.
    eexists. split; [done|apply rval_ok_test].
Qed.

(** ** Assignment *)

Local Notation assign := (ti_field_make_assignable pcre_match re_email re_url re_tel closure_unbound).

Lemma check_items_ok s l : simple_spec s ->
  exists r, check_items pcre_match re_email re_url re_tel s l = Some r /\
    (r = None <-> forallb (nested_ok s) l = true) /\ r <> Some memory_error /\ r <> Some closure_error /\ r <> Some restriction_error.
Proof.
  intros Hs. induction l as [|v l IH]; [by exists None|]. cbn [check_items forallb].
  destruct (check_nested_ok s v Hs) as (r & -> & Hr). cbn [mbind option_bind]. unfold rval_ok in Hr.
  destruct (rval_err r) as [e|] eqn:He.
  - exists (Some e). rewrite <- Hr. cbn [andb]. split; [done|]. split; [done|]. destruct r; cbn in He; simplify_eq; split_and!; congruence.
  - rewrite <- Hr. cbn [andb]. exact IH.
Qed.

Lemma eqb_any_refl a l : forallb (Z.eqb a) l = true -> existsb (fun x => negb (x =? a)) l = false.
Proof. induction l as [|x l IH]; cbn; [done|]. rewrite (Z.eqb_sym a x). destruct (x =? a); cbn; auto. Qed.

Lemma eqb_any_inv a l : existsb (fun x => negb (x =? a)) l = false -> forallb (Z.eqb a) l = true.
Proof. induction l as [|x l IH]; cbn; [done|]. rewrite (Z.eqb_sym a x). destruct (x =? a); cbn; auto. Qed.

(** The errors that are not about the value: no memory, a closure that cannot be
    parsed on its own, a thing with another restriction. *)
Definition other_error (mem : bool) (f : field) (v : val) (e : aerr) : Prop :=
  match e with
  | memory_error => mem = false
  | closure_error => exists c, v = VClosure c /\ closure_unbound c = false
  | restriction_error => exists via dict items, v = VThing TI_SPEC_OBJECT via dict items /\ via <> TI_SPEC_ANY /\ via <> f_nested f
  | _ => False
  end.

Definition assign_spec (mem : bool) (f : field) (v : val) (r : aerr + val) : Prop :=
  match r with
  | inr v' => field_ok f v = true /\ field_ok f v' = true /\ val_wf v'
  | inl e => field_ok f v = false \/ other_error mem f v e
  end.

Lemma forallb_any l : forallb (nested_ok TI_SPEC_ANY) l = true.
Proof. apply forallb_forall. intros x _. apply nested_ok_any. Qed.

Lemma from_parent_ok parent f vec : forallb (nested_ok (f_nested f)) vec = true ->
  forallb (nested_ok (from_parent parent f)) vec = true.
Proof. destruct parent; [done|]. intros _. apply forallb_any. Qed.

Lemma set_ok_any things : set_ok TI_SPEC_ANY things = true.
Proof. done. Qed.

Lemma varr_assign_spec mem parent f s tup vec :
  simple_spec (f_nested f) -> forallb (nested_ok s) vec = true ->
  exists r, field__varr_assign pcre_match re_email re_url re_tel mem parent f s vec = Some r /\
    match r with
    | inr v' => forallb (nested_ok (f_nested f)) vec = true /\ v' = VArr (from_parent parent f) false vec
    | inl e => forallb (nested_ok (f_nested f)) vec = false \/ other_error mem f (VArr s tup vec) e
    end.
Proof.
  intros Hn Hv. unfold field__varr_assign.
  destruct ((f_nested f =? TI_SPEC_ANY) || (f_nested f =? s) || (len vec =? 0)) eqn:E.
  - assert (forallb (nested_ok (f_nested f)) vec = true) as Hok.
    { apply orb_true_iff in E as [E|E]; [apply orb_true_iff in E as [E|E]; apply Z.eqb_eq in E; rewrite E|].
      - apply forallb_any.
      - done.
      - by destruct vec. }
    cbn [mbind option_bind]. destruct mem; eexists; (split; [reflexivity|]); [by split|right; done].
  - destruct (check_items_ok (f_nested f) vec Hn) as (r & -> & Hr & H1 & H2 & H3). cbn [mbind option_bind].
    destruct r as [e|].
    + eexists. split; [reflexivity|]. left. apply not_true_iff_false. by rewrite <- Hr.
    + destruct mem; eexists; (split; [reflexivity|]); [|by right]. split; [by apply Hr|done].
Qed.

Lemma vset_assign_spec mem parent f s things : set_ok s things = true ->
  exists r, field__vset_assign mem parent f s things = Some r /\
    match r with
    | inr v' => set_ok (f_nested f) things = true /\ v' = VSet (from_parent parent f) things
    | inl e => set_ok (f_nested f) things = false \/ other_error mem f (VSet s things) e
    end.
Proof.
  intros Hs. unfold field__vset_assign, field__walk_assign.
  destruct (negb _ && existsb _ _) eqn:E.
  - eexists. split; [done|]. left. apply andb_true_iff in E as [E1 E2]. unfold set_ok.
    apply negb_true_iff in E1. apply orb_false_iff in E1 as [E1 _]. apply orb_false_iff in E1 as [-> _]. cbn [orb].
    apply not_true_iff_false. intros H. apply eqb_any_refl in H. congruence.
  - assert (set_ok (f_nested f) things = true) as Hok.
    { apply andb_false_iff in E as [E|E].
      - apply negb_false_iff in E. apply orb_true_iff in E as [E|E]; [apply orb_true_iff in E as [E|E]|].
        + unfold set_ok. by rewrite E.
        + apply Z.eqb_eq in E. by rewrite E.
        + destruct things; [unfold set_ok; by rewrite orb_true_r|unfold len in E; simpl in E; lia].
      - unfold set_ok. by rewrite (eqb_any_inv _ _ E), orb_true_r. }
    destruct mem; eexists; (split; [reflexivity|]); [by split|by right].
Qed.

(** A value that stays as it is, or an error. *)
Lemma assign_if mem f v (b : bool) e : val_wf v -> field_ok f v = b ->
  exists r : aerr + val, (if b then Some (inr v) else Some (inl e)) = Some r /\ assign_spec mem f v r.
Proof. intros Hv Hb. destruct b; eexists; (split; [reflexivity|]); cbn; auto. Qed.

Lemma assign_guard mem f v (g bad : bool) e e' : val_wf v -> field_ok f v = g && negb bad ->
  exists r : aerr + val, (if negb g then Some (inl e) else if bad then Some (inl e') else Some (inr v)) = Some r /\ assign_spec mem f v r.
Proof. intros Hv Hb. destruct g, bad; eexists; (split; [reflexivity|]); cbn; auto. Qed.

Lemma assign_guard' mem f v (g good : bool) e e' : val_wf v -> field_ok f v = g && good ->
  exists r : aerr + val, (if negb g then Some (inl e) else if good then Some (inr v) else Some (inl e')) = Some r /\ assign_spec mem f v r.
Proof. intros Hv Hb. destruct g, good; eexists; (split; [reflexivity|]); cbn; auto. Qed.

Lemma assign_closure mem f c : field_ok f (VClosure c) = true ->
  exists r : aerr + val, (if closure_unbound c then Some (inr (VClosure c)) else Some (inl closure_error)) = Some r /\
    assign_spec mem f (VClosure c) r.
Proof.
  intros Hb. destruct (closure_unbound c) eqn:E; eexists; (split; [reflexivity|]); cbn; [by split_and!|right; by eexists].
Qed.

Lemma assign_varr mem parent f s tup vec : simple_spec (f_nested f) -> val_wf (VArr s tup vec) ->
  (forall s' t', field_ok f (VArr s' t' vec) = forallb (nested_ok (f_nested f)) vec) ->
  exists r, field__varr_assign pcre_match re_email re_url re_tel mem parent f s vec = Some r /\ assign_spec mem f (VArr s tup vec) r.
Proof.
  intros Hn Hv Hf. destruct (varr_assign_spec mem parent f s tup vec Hn Hv) as (r & -> & Hr). exists r. split; [done|].
  destruct r as [e|v']; cbn.
  - rewrite Hf. exact Hr.
  - destruct Hr as [Hr ->]. rewrite !Hf. split_and!; [done..|]. by apply from_parent_ok.
Qed.

Lemma assign_vset mem parent f s things : val_wf (VSet s things) ->
  (forall s', field_ok f (VSet s' things) = set_ok (f_nested f) things) ->
  exists r, field__vset_assign mem parent f s things = Some r /\ assign_spec mem f (VSet s things) r.
Proof.
  intros Hv Hf. destruct (vset_assign_spec mem parent f s things Hv) as (r & -> & Hr). exists r. split; [done|].
  destruct r as [e|v']; cbn.
  - rewrite Hf. exact Hr.
  - destruct Hr as [Hr ->]. rewrite !Hf. split_and!; [done..|]. cbn. by destruct parent.
Qed.

Lemma assign_thing mem f t via dict items : simple_spec (f_nested f) -> val_wf (VThing t via dict items) ->
  (forall via', field_ok f (VThing t via' dict items) = (t =? TI_SPEC_OBJECT) && forallb (nested_ok (f_nested f)) items) ->
  exists r, field__thing_assign pcre_match re_email re_url re_tel f t via dict items = Some r /\
    assign_spec mem f (VThing t via dict items) r.
Proof.
  intros Hn Hv Hf. unfold field__thing_assign. cbv zeta.
  destruct (Z.eqb_spec t TI_SPEC_OBJECT) as [->|Ht]; cbn [negb].
  2:{ eexists. split; [reflexivity|]. left. by rewrite Hf. }
  cbn [andb] in Hf. cbn [val_wf] in Hv. specialize (Hv eq_refl).
  destruct (Z.eqb_spec via (f_nested f)) as [->|Hvia].
  { eexists. split; [reflexivity|]. cbn. rewrite Hf. by split_and!. }
  destruct (Z.eqb_spec via TI_SPEC_ANY) as [->|Hany]; cbn [negb].
  2:{ eexists. split; [reflexivity|]. right. by eexists _, _, _. }
  destruct (Z.eqb_spec (len items) 0) as [Hl|Hl].
  { assert (items = []) as -> by (destruct items; [done|unfold len in Hl; simpl in Hl; lia]).
    eexists. split; [reflexivity|]. cbn. rewrite !Hf. by split_and!. }
  destruct (check_items_ok (f_nested f) items Hn) as (r & -> & Hr & _). cbn [mbind option_bind].
  destruct r as [e|]; eexists; (split; [reflexivity|]); cbn.
  - left. rewrite Hf. apply not_true_iff_false. by rewrite <- Hr.
  - rewrite !Hf. assert (forallb (nested_ok (f_nested f)) items = true) by by apply Hr. by split_and!.
Qed.

Lemma field_ok_plain f v e : nil_ok (f_spec f) v = false -> spec_enum_of (unmask (f_spec f)) = Some e ->
  field_ok f v = plain_ok f v.
Proof. intros Hn _. unfold field_ok. by rewrite Hn. Qed.

(** Every constant and every id: the assignment decides [field_ok]. *)
Lemma assign_ok mem parent f v : field_wf f -> val_wf v ->
  exists r, assign mem parent f v = Some r /\ assign_spec mem f v r.
Proof.
  intros (Hs & Hn & Hany & Hf) Hv. unfold ti_field_make_assignable. cbv zeta.
  fold (nil_ok (f_spec f) v).
  destruct (Z.ltb_spec (unmask (f_spec f)) TI_SPEC_ANY) as [Hlt|Hge].
  { apply assign_if; [done|]. unfold field_ok, plain_ok. rewrite spec_enum_type by done.
    unfold id_ok. by rewrite (proj2 (Z.leb_gt TI_ENUM_ID_FLAG _)) by slia. }
  destruct (nil_ok (f_spec f) v) eqn:Hnil.
  { eexists. split; [reflexivity|]. cbn. unfold field_ok. by rewrite Hnil. }
  assert (Hok : field_ok f v = plain_ok f v) by (unfold field_ok; by rewrite Hnil).
  assert (Hoks : forall w, ti_val_is_nil w = false -> field_ok f w = plain_ok f w).
  { intros w Hw. unfold field_ok, nil_ok. by rewrite Hw, andb_false_r. }
  destruct (spec_enum_of (unmask (f_spec f))) as [e|] eqn:He.
  2:{ destruct Hf as [Hf|Hf]; [slia|]. rewrite (proj2 (Z.leb_le _ _)) by done. cbn [negb]. apply assign_if; [done|].
      rewrite Hok. unfold plain_ok, id_ok. by rewrite He, (proj2 (Z.leb_le _ _)) by done. }
  unfold plain_ok in Hok, Hoks. rewrite He in Hok, Hoks.
  destruct e; try (apply assign_if; done);
    try (apply assign_guard; [done|]; rewrite Hok; unfold const_ok; f_equal; (apply Z.leb_antisym || apply Z.ltb_antisym));
    try (apply assign_guard'; done).
  - (* any *) clear Hf. specialize (Hany eq_refl). rename Hany into Hf.
    destruct v; try (eexists; split; [reflexivity|]; cbn; rewrite ?Hok; by auto).
    + apply assign_varr; [done..|]. intros. by rewrite Hoks, Hf, forallb_any.
    + apply assign_vset; [done|]. intros. by rewrite Hoks, Hf.
    + by apply assign_closure.
  - (* thing *) destruct v; try (eexists; split; [reflexivity|]; by left).
    destruct (Z.eqb_spec (f_nested f) TI_SPEC_ANY) as [Ha|Ha].
    { eexists. split; [reflexivity|]. by cbn. }
    apply assign_thing; [done..|]. intros. by rewrite Hoks.
  - (* list *) destruct v; try (eexists; split; [reflexivity|]; by left).
    apply assign_varr; [done..|]. intros. by rewrite Hoks.
  - (* set *) destruct v; try (eexists; split; [reflexivity|]; by left).
    apply assign_vset; [done|]. intros. by rewrite Hoks.
  - (* closure *) destruct v; try (eexists; split; [reflexivity|]; by left). by apply assign_closure.
  - (* pattern *) destruct Hf as (d & p & Hc). rewrite Hc in *. cbn [re mbind option_bind]. by apply assign_guard'.
  - (* int range *) destruct Hf as (d & mi & ma & Hc). rewrite Hc in *. cbn [irange mbind option_bind].
    apply assign_guard; [done|]. rewrite Hok, negb_orb, <- !Z.leb_antisym. by rewrite andb_assoc.
  - (* float range *) destruct Hf as (d & mi & ma & Hc & Hmi & Hma). rewrite Hc in *.
    destruct v; try (eexists; split; [reflexivity|]; by left). cbn [drange mbind option_bind].
    destruct (is_nan f0) eqn:Hnan.
    { destruct f0; try discriminate. destruct mi, ma; try discriminate; (eexists; split; [reflexivity|]; by left). }
    rewrite (dlt_dle f0 mi), (dlt_dle ma f0) by done. unfold dge, dle in Hok.
    destruct (SFleb mi f0) eqn:E1, (SFleb f0 ma) eqn:E2; cbn [negb orb];
      try (eexists; split; [reflexivity|]; left; by rewrite Hok).
    destruct f0; try discriminate; eexists; (split; [reflexivity|]); cbn; by rewrite Hok.
  - (* str range *) destruct Hf as (d & mi & ma & Hc). rewrite Hc in *. cbn [srange mbind option_bind].
    apply assign_guard; [done|]. rewrite Hok, negb_orb, <- !Z.leb_antisym. by rewrite andb_assoc.
  - (* utf8 range *) destruct Hf as (d & mi & ma & Hc). rewrite Hc in *. cbn [srange mbind option_bind].
    destruct (ti_val_is_str v); cbn [negb andb] in *; [|eexists; split; [reflexivity|]; by left].
    apply assign_guard; [done|]. rewrite Hok, negb_orb, <- !Z.leb_antisym. by rewrite andb_assoc.
  - by destruct Hf.
  - by destruct Hf.
Qed.
End Membership.
