(* ===== verification/FieldMod.v ===== *)
(** * Another specification for a field with values

    [ti_field_mod] lets a field get another specification without looking at the
    values when [ti_spec_check_mod] agrees: every value of the old specification
    is one of the new. *)
From Stdlib Require Import ZArith Lia Floats.SpecFloat.
From stdpp Require Import base list option numbers.
From S2P Require Import Prelude Utf8 Opr Strx Spec Keywords Field FieldProof.

#[local] Arguments raw_is_utf8 : simpl never.
#[local] Arguments ti_regex_test : simpl never.
#[local] Arguments ti_regex_test_or_empty : simpl never.

Lemma any_of_in x l : any_of x l = true -> List.In x l.
Proof. unfold any_of. intros H. apply existsb_exists in H as (y & Hy & E). by apply Z.eqb_eq in E as ->. Qed.

Lemma mod_res_success b : Some (mod_res b) = Some MOD_SUCCESS -> b = true.
Proof. by destruct b. Qed.

Lemma mod_res_nested b : Some (mod_res b) <> Some MOD_NESTED.
Proof. by destruct b. Qed.

(** The constant of a specification that is equal to one of some constants. *)
Ltac enum_of_eq H :=
  match type of H with
  | ?x = ?c => let e := eval vm_compute in (spec_enum_of c) in
               let E := fresh "E" in
               assert (spec_enum_of x = e) as E by (rewrite H; reflexivity); try rewrite E in *
  end.

Ltac const_cases H :=
  lazymatch type of H with Some (mod_res _) = _ => apply mod_res_success in H | _ => idtac end;
  lazymatch type of H with
  | any_of _ _ = true => apply any_of_in in H; cbn [List.In] in H
  | (_ =? _) = true => apply Z.eqb_eq in H; symmetry in H
  end;
  repeat match type of H with _ \/ _ => destruct H as [H|H] end;
  try (destruct H; fail); symmetry in H; enum_of_eq H.

(** A condition that a value of the old specification meets. *)
Ltac cond_case :=
  repeat match goal with
  | K : context [match f_cond ?c with _ => _ end] |- _ => destruct (f_cond c); try discriminate K
  end.

Ltac split_ands := rewrite ?andb_true_iff in *; destruct_and?.

Section Mod.
Context (pcre_match : list Z -> list Z -> bool) (re_email re_url re_tel : list Z).
Local Notation field_ok := (field_ok pcre_match re_email re_url re_tel).
Local Notation plain_ok := (plain_ok pcre_match re_email re_url re_tel).
Local Notation nested_ok := (nested_ok pcre_match re_email re_url re_tel).

(** Futures and modules are in no field. *)
Lemma field_not_future f v : field_wf f -> field_ok f v = true -> v <> VFuture /\ v <> VModule.
Proof.
  intros (_ & _ & _ & Hf) H. unfold FieldProof.field_ok, FieldProof.plain_ok, nil_ok, id_ok in H.
  split; intros ->; rewrite andb_false_r in H; cbn [orb] in H;
    (destruct (spec_enum_of _) as [e|]; [destruct e; try discriminate H|]; repeat case_match; discriminate H).
Qed.

Lemma str_is_raw v : ti_val_is_str v = true -> ti_val_is_raw v = true.
Proof. by destruct v. Qed.
Lemma bytes_is_raw v : ti_val_is_bytes v = true -> ti_val_is_raw v = true.
Proof. by destruct v. Qed.
Lemma int_is_number v : ti_val_is_int v = true -> ti_val_is_number v = true.
Proof. by destruct v. Qed.
Lemma float_is_number v : ti_val_is_float v = true -> ti_val_is_number v = true.
Proof. by destruct v. Qed.

Lemma unmask_idem s : unmask (unmask s) = unmask s.
Proof. rewrite !unmask_mod. apply Z.mod_mod. lia. Qed.

Lemma id_ok_member s v : TI_ENUM_ID_FLAG <= s -> id_ok s v = true -> ti_val_is_member v = true.
Proof. intros Hs. unfold id_ok. rewrite (proj2 (Z.leb_le _ _)) by done. by destruct v. Qed.

Lemma plain_mod p n v : field_wf p -> field_wf n -> f_spec n <> TI_SPEC_ANY ->
  (nillable (f_spec p) && negb (nillable (f_spec n))) = false ->
  ti_spec_check_mod (f_spec p) (f_spec n) (f_cond p) (f_cond n) = Some MOD_SUCCESS ->
  plain_ok p v = true -> plain_ok n v = true.
Proof.
  intros (_ & _ & _ & Hp) (_ & _ & _ & Hn) Hany Hnil H Hv.
  unfold ti_spec_check_mod in H. rewrite (proj2 (Z.eqb_neq _ _) Hany), Hnil in H. cbv zeta in H.
  unfold FieldProof.plain_ok. destruct (spec_enum_of (unmask (f_spec n))) as [e|] eqn:En.
  2:{ apply mod_res_success in H. apply Z.eqb_eq in H. unfold FieldProof.plain_ok in Hv.
      rewrite H, En in Hv. exact Hv. }
  unfold FieldProof.plain_ok in Hv.
  destruct e; try discriminate H; cbn [const_ok]; [congruence|..].
  all: try (apply mod_res_success, Z.eqb_eq in H; rewrite H, En in Hv; exact Hv).
  all: try (const_cases H; cbn [const_ok] in Hv; cond_case; split_ands;
            auto using str_is_raw, bytes_is_raw, int_is_number, float_is_number; fail).
  - (* thing *) destruct (_ || _); discriminate H.
  - (* uint *) destruct (any_of _ _) eqn:E in H; [const_cases E; cbn [const_ok] in Hv; split_ands; split; (done || lia)|].
    destruct (_ =? TI_SPEC_INT_RANGE) eqn:E' in H; [|done]. const_cases E'. destruct Hp as (d & mi & ma & Hc).
    rewrite Hc in *. apply mod_res_success in H. split_ands. split; [done|lia].
  - (* pint *) destruct (_ =? TI_SPEC_PINT) eqn:E in H; [const_cases E; exact Hv|].
    destruct (_ =? TI_SPEC_INT_RANGE) eqn:E' in H; [|done]. const_cases E'. destruct Hp as (d & mi & ma & Hc).
    rewrite Hc in *. apply mod_res_success in H. split_ands. split; [done|lia].
  - (* nint *) destruct (_ =? TI_SPEC_NINT) eqn:E in H; [const_cases E; exact Hv|].
    destruct (_ =? TI_SPEC_INT_RANGE) eqn:E' in H; [|done]. const_cases E'. destruct Hp as (d & mi & ma & Hc).
    rewrite Hc in *. apply mod_res_success in H. split_ands. split; [done|lia].
  - (* float *) const_cases H; [exact Hv|]. cond_case. by destruct v.
  - (* number *) const_cases H; cbn [const_ok] in Hv; cond_case; split_ands; auto using int_is_number, float_is_number. by destruct v.
  - destruct (_ =? _); discriminate H.
  - destruct (_ =? _); discriminate H.
  - (* enum *) apply mod_res_success, orb_true_iff in H as [H|H]; [const_cases H; exact Hv|].
    unfold ti_spec_is_enum in H. rewrite unmask_idem in H. apply Z.leb_le in H.
    rewrite spec_enum_enum in Hv by done. by rewrite (id_ok_member _ _ H Hv).
  - (* int range *) destruct (_ =? TI_SPEC_INT_RANGE) eqn:E in H; [|done]. const_cases E.
    destruct Hp as (d & mi & ma & Hc), Hn as (d' & mi' & ma' & Hc'). rewrite Hc, Hc' in *.
    apply mod_res_success in H. split_ands. split_and!; (done || lia).
  - (* float range *) destruct (_ =? TI_SPEC_FLOAT_RANGE) eqn:E in H; [|done]. const_cases E.
    destruct Hp as (d & mi & ma & Hc & Hmi & Hma), Hn as (d' & mi' & ma' & Hc' & Hmi' & Hma'). rewrite Hc, Hc' in *.
    apply mod_res_success in H. destruct v; try done. unfold dge, dle in *. split_ands.
    assert (is_nan f = false) by by eapply dle_nan.
    split; eapply dle_trans; [..|done|done| | | |done|done]; done.
  - (* str range *) destruct (_ || _) eqn:E in H; [|done].
    destruct Hn as (d' & mi' & ma' & Hc'). rewrite Hc' in *.
    apply orb_true_iff in E as [E|E]; const_cases E; destruct Hp as (d & mi & ma & Hc); rewrite Hc in *;
      apply mod_res_success in H; split_ands; split_and!; (done || lia).
  - (* utf8 range *) destruct (_ =? TI_SPEC_UTF8_RANGE) eqn:E in H; [|done]. const_cases E.
    destruct Hp as (d & mi & ma & Hc), Hn as (d' & mi' & ma' & Hc'). rewrite Hc, Hc' in *.
    apply mod_res_success in H. split_ands. split_and!; (done || lia).
Qed.

Lemma nil_mod p n v : (nillable (f_spec p) && negb (nillable (f_spec n))) = false ->
  nil_ok (f_spec p) v = true -> nil_ok (f_spec n) v = true.
Proof. unfold nil_ok. destruct (nillable _), (nillable _), (ti_val_is_nil v); done. Qed.

Lemma mod_success p n v : field_wf p -> field_wf n ->
  ti_spec_check_mod (f_spec p) (f_spec n) (f_cond p) (f_cond n) = Some MOD_SUCCESS ->
  field_ok p v = true -> field_ok n v = true.
Proof.
  intros Hp Hn H Hv. destruct (decide (f_spec n = TI_SPEC_ANY)) as [Ha|Ha].
  { apply (field_not_future p) in Hv as [H1 H2]; [|done].
    unfold FieldProof.field_ok, FieldProof.plain_ok. rewrite Ha. by destruct v. }
  destruct (nillable (f_spec p) && negb (nillable (f_spec n))) eqn:Hnil.
  { unfold ti_spec_check_mod in H. rewrite Hnil, (proj2 (Z.eqb_neq _ _) Ha) in H. done. }
  unfold FieldProof.field_ok in *. apply orb_true_iff in Hv as [Hv|Hv]; apply orb_true_iff.
  - left. by eapply nil_mod.
  - right. by eapply (plain_mod p n v).
Qed.

(** A nested specification checks like a field without one. *)
Definition nested_field (s : Z) (c : condition) : field := Field s TI_SPEC_ANY 0 None c.

Lemma nested_field_wf s c : simple_spec s -> field_wf (nested_field s c).
Proof.
  intros [Hs Hc]. unfold nested_field. split_and!; cbn [f_spec f_nested f_cond]; [done|by split; [|left]|done|].
  destruct Hc as [->|[Hc|[Hc|Hc]]]; [done| | |].
  - rewrite spec_enum_type by done. by left.
  - destruct (spec_enum_simple (unmask s)) as (e & He & _); [lia|]. rewrite He. apply spec_of_enum_of in He.
    destruct e; cbn in He |- *; done || (exfalso; slia).
  - rewrite spec_enum_enum by done. by right.
Qed.

Lemma nested_field_ok s c v : simple_spec s -> s <> TI_SPEC_ANY -> field_ok (nested_field s c) v = nested_ok s v.
Proof.
  intros [Hs Hc] Ha. unfold FieldProof.field_ok, FieldProof.nested_ok, FieldProof.plain_ok. unfold nested_field. cbn [f_spec f_nested f_cond].
  f_equal. destruct Hc as [->|[Hc|[Hc|Hc]]]; [done|by rewrite spec_enum_type|..|by rewrite spec_enum_enum].
  destruct (spec_enum_simple (unmask s)) as (e & He & _); [lia|]. rewrite He. apply spec_of_enum_of in He.
  destruct e; cbn in He; try done; try (exfalso; slia); cbn [const_ok].
  destruct v; try done. apply forallb_any.
Qed.

Lemma simple_any n : simple_spec n -> unmask n = TI_SPEC_ANY -> n = TI_SPEC_ANY.
Proof. intros [_ [H|[H|[H|H]]]] E; [done|slia..]. Qed.

(** What may be anything does not become something else. *)
Lemma any_mod n oc nc : simple_spec n -> n <> TI_SPEC_ANY -> ti_spec_check_mod TI_SPEC_ANY n oc nc <> Some MOD_SUCCESS.
Proof.
  intros Hn Ha H. unfold ti_spec_check_mod in H. rewrite (proj2 (Z.eqb_neq _ _) Ha) in H.
  change (nillable TI_SPEC_ANY) with false in H. change (unmask TI_SPEC_ANY) with TI_SPEC_ANY in H. cbn [andb] in H. cbv zeta in H.
  destruct (spec_enum_of (unmask n)) as [e|] eqn:E.
  - apply spec_of_enum_of in E. rewrite E in H. destruct e; try (vm_compute in H; discriminate H). by apply Ha, simple_any.
  - apply mod_res_success, Z.eqb_eq in H. by rewrite <- H in E.
Qed.

Lemma nested_mod p n po no v : simple_spec p -> simple_spec n -> n <> TI_SPEC_ANY ->
  ti_spec_check_mod p n po no = Some MOD_SUCCESS -> nested_ok p v = true -> nested_ok n v = true.
Proof.
  intros Hp Hn Ha H Hv. rewrite <- (nested_field_ok n no) by done.
  destruct (decide (p = TI_SPEC_ANY)) as [->|Hpa]; [by apply any_mod in H|].
  apply (mod_success (nested_field p po) (nested_field n no)); [by apply nested_field_wf..|done|].
  by rewrite nested_field_ok.
Qed.

(** Lists, sets and restricted things: the specification of their items. *)
Lemma check_mod_nested p n oc nc : ti_spec_check_mod p n oc nc = Some MOD_NESTED ->
  match spec_enum_of (unmask n) with
  | Some SObject => unmask p < TI_SPEC_ANY \/ unmask p = TI_SPEC_OBJECT
  | Some SArr | Some SSet => unmask p = unmask n
  | _ => False
  end.
Proof.
  unfold ti_spec_check_mod. intros H. destruct (n =? TI_SPEC_ANY); [done|]. destruct (_ && _); [done|]. cbv zeta in H.
  destruct (spec_enum_of (unmask n)) as [e|]; [destruct e|]; try discriminate H; try (by apply mod_res_nested in H).
  all: repeat match type of H with
    | context [if ?b then _ else _] => destruct b eqn:?; try discriminate H
    | _ ≫= _ = _ => apply bind_Some in H as ([] & _ & H)
    end; try (by apply mod_res_nested in H); lia.
Qed.

Lemma small_unmask s : 0 <= s < 32768 -> unmask s = s.
Proof. intros. rewrite unmask_mod. by apply Z.mod_small. Qed.

Lemma set_mod p n oc nc things : simple_spec p -> simple_spec n -> p <= TI_SPEC_ANY -> n <= TI_SPEC_ANY ->
  ti_spec_check_mod p n oc nc = Some MOD_SUCCESS -> set_ok p things = true -> set_ok n things = true.
Proof.
  intros Hp Hn Hpa Hna H Hv. destruct (decide (n = TI_SPEC_ANY)) as [->|Ha]; [done|].
  assert (n < TI_SPEC_ANY /\ 0 <= n) as [Hlt H0] by (destruct Hn as [[? ?] _]; lia).
  assert (0 <= p) by (destruct Hp as [[? ?] _]; lia).
  unfold ti_spec_check_mod in H. rewrite (proj2 (Z.eqb_neq _ _) Ha) in H.
  destruct (_ && _); [done|]. cbv zeta in H. rewrite !small_unmask in H by slia.
  rewrite spec_enum_type in H by done. apply mod_res_success, Z.eqb_eq in H. by rewrite <- H.
Qed.

Lemma mod_nested p n v : field_wf p -> field_wf n ->
  ti_spec_check_mod (f_spec p) (f_spec n) (f_cond p) (f_cond n) = Some MOD_NESTED ->
  ti_spec_check_mod (f_nested p) (f_nested n) (f_cond p) (f_cond n) = Some MOD_SUCCESS ->
  field_ok p v = true -> field_ok n v = true.
Proof.
  intros Hp Hn H H' Hv. pose proof Hp as (_ & Hps & Hpa & Hpf). pose proof Hn as (_ & Hns & Hna & Hnf).
  destruct (nillable (f_spec p) && negb (nillable (f_spec n))) eqn:Hnil.
  { unfold ti_spec_check_mod in H. rewrite Hnil in H. by destruct (_ =? _) in H. }
  unfold FieldProof.field_ok in *. apply orb_true_iff in Hv as [Hv|Hv]; apply orb_true_iff; [left; by eapply nil_mod|right].
  assert (Hitems : forall l, forallb (nested_ok (f_nested p)) l = true -> forallb (nested_ok (f_nested n)) l = true).
  { intros l. rewrite !forallb_forall. intros Hl x Hx. destruct (decide (f_nested n = TI_SPEC_ANY)) as [->|Hany].
    - apply nested_ok_any.
    - by eapply nested_mod, Hl. }
  apply check_mod_nested in H. unfold FieldProof.plain_ok in *.
  destruct (spec_enum_of (unmask (f_spec n))) as [e|] eqn:En; [destruct e; try done|done].
  - assert (Hnp : f_nested p = TI_SPEC_ANY -> f_nested n = TI_SPEC_ANY).
    { intros E. destruct (decide (f_nested n = TI_SPEC_ANY)) as [|Hany]; [done|]. rewrite E in H'. by apply any_mod in H'. }
    destruct H as [H|H].
    + rewrite spec_enum_type in Hv, Hpa by done. unfold id_ok in Hv.
      rewrite (proj2 (Z.leb_gt TI_ENUM_ID_FLAG _)) in Hv by slia.
      rewrite Hnp by by apply Hpa. by destruct v.
    + rewrite H in Hv. cbn in Hv. destruct v; try done. apply orb_true_iff in Hv as [Hv|Hv].
      * rewrite Hnp by lia. done.
      * apply orb_true_iff. right. split_ands. auto.
  - rewrite H, En in Hv. destruct v; try done. auto.
  - rewrite H, En in Hv, Hpf. destruct v; try done.
    by apply (set_mod (f_nested p) (f_nested n) (f_cond p) (f_cond n)).
Qed.

(** The conditions that are read are there. *)
Lemma irange_wf f : field_wf f -> unmask (f_spec f) = TI_SPEC_INT_RANGE -> exists r, irange (f_cond f) = Some r.
Proof. intros (_ & _ & _ & Hf) H. rewrite H in Hf. destruct Hf as (d & mi & ma & ->). by eexists. Qed.

Lemma drange_wf f : field_wf f -> unmask (f_spec f) = TI_SPEC_FLOAT_RANGE -> exists r, drange (f_cond f) = Some r.
Proof. intros (_ & _ & _ & Hf) H. rewrite H in Hf. destruct Hf as (d & mi & ma & -> & _). by eexists. Qed.

Lemma srange_wf f : field_wf f -> unmask (f_spec f) = TI_SPEC_STR_RANGE \/ unmask (f_spec f) = TI_SPEC_UTF8_RANGE ->
  exists r, srange (f_cond f) = Some r.
Proof. intros (_ & _ & _ & Hf) [H|H]; rewrite H in Hf; destruct Hf as (d & mi & ma & ->); by eexists. Qed.

Lemma re_wf f : field_wf f -> unmask (f_spec f) = TI_SPEC_REMATCH -> exists r, re (f_cond f) = Some r.
Proof. intros (_ & _ & _ & Hf) H. rewrite H in Hf. destruct Hf as (d & p & ->). by eexists. Qed.

Lemma check_mod_total p n : field_wf p -> field_wf n ->
  exists r, ti_spec_check_mod (f_spec p) (f_spec n) (f_cond p) (f_cond n) = Some r.
Proof.
  intros Hp Hn. unfold ti_spec_check_mod. destruct (_ =? _); [by eexists|]. destruct (_ && _); [by eexists|]. cbv zeta.
  destruct (spec_enum_of (unmask (f_spec n))) as [e|] eqn:En; [|by eexists].
  pose proof (spec_of_enum_of _ _ En) as Hs. destruct e; cbn [spec_of_enum] in Hs; try (by eexists).
  all: try (exfalso; destruct Hn as (_ & _ & _ & Hn); rewrite En in Hn; exact Hn).
  all: repeat match goal with
    | |- context [if ?b then _ else _] => destruct b eqn:?; try (by eexists)
    end.
  all: repeat match goal with
    | K : (_ || _) = true |- _ => apply orb_true_iff in K; rewrite !Z.eqb_eq in K
    | K : (_ =? _) = true |- _ => apply Z.eqb_eq in K
    end.
  all: repeat match goal with
    | |- context [irange (f_cond ?f)] => destruct (irange_wf f) as ([] & ->); [done|done|]
    | |- context [drange (f_cond ?f)] => destruct (drange_wf f) as ([] & ->); [done|done|]
    | |- context [srange (f_cond ?f)] => destruct (srange_wf f) as ([] & ->); [done|auto|]
    end; by eexists.
Qed.

Lemma field_mod_total p n : field_wf p -> field_wf n -> exists r, ti_field_mod_check p n = Some r.
Proof.
  intros Hp Hn. unfold ti_field_mod_check. destruct (check_mod_total p n Hp Hn) as (r & ->). cbn [mbind option_bind].
  destruct r; try (by eexists). destruct Hp as (_ & Hp & _), Hn as (_ & Hn & _).
  destruct (check_mod_total (nested_field (f_nested p) (f_cond p)) (nested_field (f_nested n) (f_cond n))) as (r & Hr);
    [by apply nested_field_wf..|]. unfold nested_field in Hr. cbn [f_spec f_cond] in Hr. rewrite Hr. by eexists.
Qed.

Lemma field_mod_sound p n v : field_wf p -> field_wf n -> ti_field_mod_check p n = Some MOD_done ->
  field_ok p v = true -> field_ok n v = true.
Proof.
  intros Hp Hn H. unfold ti_field_mod_check in H. apply bind_Some in H as (r & Hr & H).
  destruct r; try discriminate H; [by apply mod_success|].
  apply bind_Some in H as (r & Hr' & H). destruct r; try discriminate H. by apply mod_nested.
Qed.
End Mod.
