(* ===== verification/FieldMaps.v ===== *)
(** * What a field shows as a field of another type

    [ti_type_map] compares fields once per pair of types with
    [ti_field_maps_to_field]; the values of a thing without a type are compared
    one by one with [ti_field_maps_to_val]. Here: what the first agrees with, the
    second agrees with for every value of the field. *)
From Stdlib Require Import ZArith Lia Floats.SpecFloat.
From stdpp Require Import base list option numbers.
From S2P Require Import Prelude Utf8 Opr Strx Spec Keywords Field Wrap FieldProof FieldMod.

#[local] Arguments raw_is_utf8 : simpl never.
#[local] Arguments ti_regex_test : simpl never.
#[local] Arguments ti_regex_test_or_empty : simpl never.

Section Maps.
Context (pcre_match : list Z -> list Z -> bool) (re_email re_url re_tel : list Z) (enum_spec : Z -> option Z).
Local Notation field_ok := (field_ok pcre_match re_email re_url re_tel).
Local Notation plain_ok := (plain_ok pcre_match re_email re_url re_tel).
Local Notation nested_ok := (nested_ok pcre_match re_email re_url re_tel).
Local Notation const_ok := (const_ok pcre_match re_email re_url re_tel).
Local Notation val_switch := (maps_to_val_switch pcre_match re_email re_url re_tel).
Local Notation nested_switch := (maps_to_nested_switch pcre_match re_email re_url re_tel).

(** The specifications of [ti_enum_spec_map]. *)
Definition enum_specs : list Z := [TI_SPEC_INT; TI_SPEC_FLOAT; TI_SPEC_STR; TI_SPEC_BYTES; TI_SPEC_OBJECT].

(** A member of an enumeration holds a value of the enumeration's kind. *)
Definition member_ok (v : val) : bool :=
  match v with
  | VMember id _ w => match enum_spec id with Some s => any_of s enum_specs && nested_ok s w | None => false end
  | _ => true
  end.
Definition members_ok (v : val) : bool :=
  match v with VArr _ _ vec => forallb member_ok vec | _ => member_ok v end.

(** A field to show values as: also a nested type of a wrap-only type. *)
Definition target_wf (t : field) : Prop :=
  field_wf t \/ spec16 (f_spec t) /\ (unmask (f_spec t) = TI_SPEC_TYPE \/ unmask (f_spec t) = TI_SPEC_ARR_TYPE).

(** Without a restriction on the items of things. *)
Definition unrestricted (t : field) : Prop := unmask (f_spec t) = TI_SPEC_OBJECT -> f_nested t = TI_SPEC_ANY.

(** The constants that are checked without a look at items or types. *)
Definition flat (e : spec_enum) : bool :=
  match e with SAny | SObject | SArr | SSet | SType | SArrType => false | _ => true end.

Lemma val_switch_flat t v e : field_wf t -> spec_enum_of (unmask (f_spec t)) = Some e -> flat e = true ->
  plain_ok t v = true -> val_switch t v = Some true.
Proof.
  intros (_ & _ & _ & Ht) He Hf. unfold maps_to_val_switch, FieldProof.plain_ok. rewrite He in *.
  destruct e; try discriminate Hf; cbn [FieldProof.const_ok]; intros Hv.
  all: try (f_equal; exact Hv).
  - destruct Ht as (d & p & Hc). rewrite Hc in *. apply andb_true_iff in Hv as [-> Hv]. cbn. by rewrite Hv.
  - destruct Ht as (d & mi & ma & Hc). rewrite Hc in *. rewrite <- andb_assoc in Hv.
    apply andb_true_iff in Hv as [-> Hv]. cbn. by rewrite Hv.
  - destruct Ht as (d & mi & ma & Hc & Hmi & Hma). rewrite Hc in *. destruct v; try done. cbn. rewrite Hv. f_equal.
    apply andb_true_iff in Hv as [Hv _]. apply dle_nan in Hv as [_ Hv]. by destruct f.
  - destruct Ht as (d & mi & ma & Hc). rewrite Hc in *. rewrite <- andb_assoc in Hv.
    apply andb_true_iff in Hv as [-> Hv]. cbn. by rewrite Hv.
  - destruct Ht as (d & mi & ma & Hc). rewrite Hc in *. rewrite <- !andb_assoc in Hv. rewrite andb_assoc in Hv.
    apply andb_true_iff in Hv as [-> Hv]. cbn. by rewrite Hv.
Qed.

Lemma some_true (b : bool) : Some b = Some true -> b = true.
Proof. by intros [= ->]. Qed.

(** A field that is shown as a flat one could get that specification. *)
Lemma flat_sound t f v e : field_wf t -> field_wf f -> f_spec t <> TI_SPEC_ANY ->
  (negb (nillable (f_spec t)) && nillable (f_spec f)) = false ->
  spec_enum_of (unmask (f_spec t)) = Some e -> flat e = true ->
  maps_to_field_switch enum_spec t f (unmask (f_spec t)) (unmask (f_spec f)) = Some true ->
  plain_ok f v = true -> plain_ok t v = true.
Proof.
  intros Ht Hf Ha Hnil He Hfl H Hv. rewrite andb_comm in Hnil.
  destruct e; try discriminate Hfl;
    try (apply (plain_mod _ _ _ _ f t v); try done;
         unfold ti_spec_check_mod, maps_to_field_switch in *; rewrite (proj2 (Z.eqb_neq _ _) Ha), Hnil, He in *; cbv zeta in *;
         try (apply some_true in H; rewrite H; reflexivity);
         repeat match type of H with
         | context [if ?b then _ else _] => destruct b; try discriminate H; try reflexivity
         | _ ≫= _ = _ => apply bind_Some in H as ([] & -> & H)
         end; apply some_true in H; cbn; by rewrite H).
  - (* enum *) unfold maps_to_field_switch in H. rewrite He in H. apply some_true, Z.eqb_eq in H.
    unfold FieldProof.plain_ok in *. rewrite H, He in Hv. by rewrite He.
  - (* pattern *) unfold maps_to_field_switch in H. rewrite He in H. cbv zeta in H.
    destruct (_ =? _) eqn:E in H; [|discriminate H]. apply Z.eqb_eq in E.
    apply bind_Some in H as (tp & Htp & H). apply bind_Some in H as (fp & Hfp & H).
    apply some_true, bool_decide_eq_true in H as ->. unfold FieldProof.plain_ok in *. rewrite E in Hv. rewrite He.
    cbn in Hv. destruct (f_cond t), (f_cond f); simplify_eq/=; done.
  - (* str range *) apply (plain_mod _ _ _ _ f t v); try done.
    unfold ti_spec_check_mod, maps_to_field_switch in *. rewrite (proj2 (Z.eqb_neq _ _) Ha), Hnil, He in *. cbv zeta in *.
    unfold any_of in H. cbn [existsb] in H. rewrite orb_false_r in H. destruct (_ || _); [|discriminate H].
    apply bind_Some in H as ([] & -> & H). apply bind_Some in H as ([] & -> & H). apply some_true in H. cbn. by rewrite H.
Qed.

(** ** The items of a list *)

(** The part of [nested_ok] after the bit for nil. *)
Definition base_ok (s : Z) (v : val) : bool :=
  match spec_enum_of s with Some e => const_ok e v | None => id_ok s v end.

Lemma thing_type s v : s < TI_SPEC_ANY -> base_ok s v = true -> ti_val_is_thing v = true.
Proof.
  intros Hs. unfold base_ok, id_ok. rewrite spec_enum_type by done. rewrite (proj2 (Z.leb_gt _ _)) by slia.
  intros H. by apply andb_true_iff in H as [H _].
Qed.

Lemma nested_switch_same s v : 0 <= s <= TI_SPEC_ENUM -> s <> TI_SPEC_ANY -> base_ok s v = true -> nested_switch s v = Some true.
Proof.
  intros Hs Ha Hv. unfold maps_to_nested_switch. destruct (spec_enum_of s) as [e|] eqn:E.
  - unfold base_ok in Hv. rewrite E in Hv. apply spec_of_enum_of in E.
    destruct e; try (f_equal; exact Hv); cbn in E; try (exfalso; slia). cbn in Hv. by rewrite Hv.
  - f_equal. apply (thing_type s); [|done]. destruct (Z.lt_ge_cases s TI_SPEC_ANY) as [|Hge]; [done|].
    destruct (spec_enum_simple s) as (e & He & _); [lia|]. congruence.
Qed.

Lemma nested_switch_sound f s fs v : ti_spec_is_set (f_spec f) = false ->
  0 <= s <= TI_SPEC_ENUM -> s <> TI_SPEC_ANY ->
  maps_to_nested_field_switch f s fs = Some true -> base_ok fs v = true -> nested_switch s v = Some true.
Proof.
  intros Hset Hs Ha H Hv. unfold maps_to_nested_field_switch in H. rewrite Hset in H.
  destruct (Z.eqb_spec s fs) as [->|Hne]; [by apply nested_switch_same|]. cbv zeta in H.
  unfold maps_to_nested_switch. destruct (spec_enum_of s) as [e|] eqn:E.
  - destruct e; try discriminate H; apply some_true in H; rewrite ?orb_false_r in H.
    1: { apply spec_of_enum_of in E. cbn in E. slia. }
    1: { f_equal. apply (thing_type fs); [lia|done]. }
    all: const_cases H; unfold base_ok in Hv; rewrite ?E0 in Hv; cbn [FieldProof.const_ok] in Hv; split_ands; f_equal;
      auto using str_is_raw, bytes_is_raw, int_is_number, float_is_number.
    all: try (apply andb_true_iff; split; [done|lia]).
  - destruct (negb _); [done|]. apply some_true in H. rewrite orb_false_r in H. f_equal.
    apply orb_true_iff in H as [H|H]; [apply (thing_type fs); [lia|done]|].
    apply Z.eqb_eq in H. by rewrite H in Hv.
Qed.

Lemma nested_split s v : nested_ok s v = nil_ok s v || base_ok (unmask s) v.
Proof. done. Qed.

(** The numbers of the kinds of enumerations. *)
Ltac enum_spec_cases Hin := apply any_of_in in Hin; destruct Hin as [<-|[<-|[<-|[<-|[<-|[]]]]]].

Lemma enum_spec_facts s : any_of s enum_specs = true ->
  0 <= s <= TI_SPEC_ENUM /\ unmask s = s /\ nillable s = false /\ simple_spec s.
Proof. intros H. enum_spec_cases H; (split_and!; [done..|]; split; [done|]; right; right; left; done). Qed.

(** What is shown of a member of the enumeration of a field. *)
Lemma member_shown t s v fs : TI_ENUM_ID_FLAG <= s -> member_ok v = true -> id_ok s v = true ->
  enum_as enum_spec t s = Some fs -> base_ok fs (member_val t v) = true /\ any_of fs enum_specs = true.
Proof.
  intros Hs Hm Hv H. unfold id_ok in Hv. rewrite (proj2 (Z.leb_le _ _)) in Hv by done.
  destruct v as [ | | | | | | | | | | | | | | | |id name w| | | | | | | ]; try discriminate Hv.
  cbn [ti_spec_enum_eq_to_val] in Hv. apply Z.eqb_eq in Hv as ->. cbn [member_ok] in Hm.
  unfold enum_as in H. cbn [member_val]. destruct (has_flag t TI_FIELD_FLAG_ENAME); [by injection H as <-|].
  rewrite H in Hm. apply andb_true_iff in Hm as [Hin Hm]. destruct (enum_spec_facts fs Hin) as (Hr & Hu & Hn & _).
  rewrite nested_split in Hm. unfold nil_ok in Hm. by rewrite Hn, Hu in Hm.
Qed.

Lemma member_val_id t v : ti_val_is_member v = false -> member_val t v = v.
Proof. by destruct v. Qed.

Lemma base_member s v : 0 <= s < TI_ENUM_ID_FLAG -> base_ok s v = true -> ti_val_is_member v = true ->
  s = TI_SPEC_ANY \/ s = TI_SPEC_ENUM.
Proof.
  intros Hs Hv Hm. unfold base_ok in Hv. destruct (spec_enum_of s) as [e|] eqn:E.
  - apply spec_of_enum_of in E. destruct v; try discriminate Hm. destruct e; try discriminate Hv; auto.
  - unfold id_ok in Hv. rewrite (proj2 (Z.leb_gt _ _)) in Hv by lia. by destruct v.
Qed.

Lemma item_sound t f v : field_wf f -> simple_spec (f_nested t) -> ti_spec_is_set (f_spec f) = false ->
  f_nested t <> TI_SPEC_ANY -> member_ok v = true ->
  field__maps_to_nested enum_spec t f = Some true -> nested_ok (f_nested f) v = true ->
  ti_spec_maps_to_nested_val pcre_match re_email re_url re_tel t v = Some true.
Proof.
  intros (_ & Hfs & _) Hts Hset Ha Hm H Hv. unfold field__maps_to_nested in H.
  destruct (negb (_ && _)); [done|]. rewrite (proj2 (Z.eqb_neq _ _) Ha) in H.
  destruct (negb _ && _) eqn:Hnil; [done|]. cbv zeta in H. rewrite nested_split in Hv.
  unfold ti_spec_maps_to_nested_val. rewrite (proj2 (Z.eqb_neq _ _) Ha). cbn [orb].
  destruct (nillable (f_nested t) && ti_val_is_nil v) eqn:E; [done|].
  assert (Hb : base_ok (unmask (f_nested f)) v = true).
  { unfold nil_ok in Hv. destruct (nillable (f_nested t)), (nillable (f_nested f)), (ti_val_is_nil v); try done; by destruct v. }
  clear Hv E. unfold ti__spec_maps_to_nested_val. cbv zeta. set (s := unmask (f_nested t)) in *. set (g := unmask (f_nested f)) in *.
  pose proof (unmask_range (f_nested t)) as Hst. pose proof (unmask_range (f_nested f)) as Hsf.
  destruct (Z.leb_spec TI_ENUM_ID_FLAG s) as [Hse|Hse].
  { apply some_true, Z.eqb_eq in H. rewrite <- H in Hb. unfold base_ok in Hb. rewrite spec_enum_enum in Hb by done.
    unfold id_ok in Hb. by rewrite (proj2 (Z.leb_le _ _)) in Hb; [rewrite Hb|]. }
  assert (Hs : 0 <= s <= TI_SPEC_ENUM).
  { destruct Hts as [_ Hts]. unfold s in *. destruct Hts as [Hts|[Hts|[Hts|Hts]]]; [done|slia..]. }
  assert (Hsa : s <> TI_SPEC_ANY) by (intros Hsa; by apply Ha, simple_any).
  destruct (Z.leb_spec TI_ENUM_ID_FLAG g) as [Hge|Hge].
  - unfold base_ok in Hb. rewrite spec_enum_enum in Hb by done. cbn [andb] in H.
    rewrite (id_ok_member g v) by done. cbn [andb]. destruct (s =? TI_SPEC_ENUM); [done|].
    apply bind_Some in H as (fs & Hfs' & H). destruct (member_shown t g v fs) as (Hb' & _); [done..|].
    by eapply nested_switch_sound.
  - cbn [andb mbind option_bind] in H. destruct (ti_val_is_member v) eqn:Emem.
    + destruct (base_member g v) as [Hga|Hga]; [unfold g in *; lia|done|done|..].
      * exfalso. rewrite Hga in H. unfold maps_to_nested_field_switch in H. rewrite Hset, (proj2 (Z.eqb_neq _ _) Hsa) in H.
        destruct (spec_enum_of s) as [e|] eqn:Ee; [destruct e; try discriminate H|].
        -- apply spec_of_enum_of in Ee. by cbn in Ee.
        -- destruct (s <? TI_SPEC_ANY); discriminate H.
      * rewrite Hga in H. unfold maps_to_nested_field_switch in H. rewrite Hset in H.
        destruct (Z.eqb_spec s TI_SPEC_ENUM) as [|Hne]; [done|exfalso].
        destruct (spec_enum_of s) as [e|] eqn:Ee; [destruct e; try discriminate H|].
        -- apply spec_of_enum_of in Ee. by cbn in Ee.
        -- destruct (s <? TI_SPEC_ANY); discriminate H.
    + cbn [andb]. rewrite member_val_id by done. by eapply nested_switch_sound.
Qed.

Lemma items_sound t f l : field_wf f -> simple_spec (f_nested t) -> ti_spec_is_set (f_spec f) = false ->
  f_nested t <> TI_SPEC_ANY -> forallb member_ok l = true ->
  field__maps_to_nested enum_spec t f = Some true -> forallb (nested_ok (f_nested f)) l = true ->
  maps_items pcre_match re_email re_url re_tel t l = Some true.
Proof.
  intros Hf Ht Hset Ha Hm H Hv. induction l as [|v l IH]; [done|]. cbn [forallb maps_items] in *.
  apply andb_true_iff in Hm as [Hm1 Hm2]. apply andb_true_iff in Hv as [Hv1 Hv2].
  rewrite (item_sound t f v) by done. cbn. auto.
Qed.

(** ** The items of a set *)
Lemma set_sound t f : simple_spec (f_nested t) -> simple_spec (f_nested f) -> f_nested f <= TI_SPEC_ANY ->
  field__maps_to_nested enum_spec t f = Some true -> field__maps_set_to_arr t = true.
Proof.
  intros Ht Hf Hle H. unfold field__maps_set_to_arr. unfold field__maps_to_nested in H.
  destruct (negb (_ && _)); [done|]. destruct (Z.eqb_spec (f_nested t) TI_SPEC_ANY) as [->|Ha]; [done|].
  destruct (negb _ && _); [done|]. cbv zeta in H.
  assert (unmask (f_nested f) <= TI_SPEC_ANY) as Hle'.
  { rewrite small_unmask; [done|]. destruct Hf as [[? ?] _]. slia. }
  set (s := unmask (f_nested t)) in *. set (g := unmask (f_nested f)) in *. apply Z.leb_le.
  assert (s <> TI_SPEC_ANY) as Hsa by (intros Hsa; by apply Ha, simple_any).
  rewrite (proj2 (Z.leb_gt TI_ENUM_ID_FLAG g)) in H by slia. cbn [andb mbind option_bind] in H.
  destruct (Z.leb_spec TI_ENUM_ID_FLAG s) as [Hse|Hse]; [apply some_true in H; slia|].
  unfold maps_to_nested_field_switch in H. destruct (Z.eqb_spec s g) as [->|Hne]; [slia|]. cbv zeta in H.
  destruct (spec_enum_of s) as [e|] eqn:E.
  - apply spec_of_enum_of in E. destruct e; try discriminate H; cbn in E; try slia;
      exfalso; apply some_true in H; try (apply any_of_in in H; cbn [List.In] in H; destruct_or?); slia.
  - destruct (Z.ltb_spec s TI_SPEC_ANY); [slia|discriminate H].
Qed.

(** ** The whole field *)

Lemma plain_thing f v : unmask (f_spec f) < TI_SPEC_ANY \/ unmask (f_spec f) = TI_SPEC_OBJECT ->
  plain_ok f v = true -> ti_val_is_thing v = true.
Proof.
  unfold FieldProof.plain_ok. intros [H|H].
  - rewrite spec_enum_type by done. unfold id_ok. rewrite (proj2 (Z.leb_gt _ _)) by slia.
    intros Hv. by apply andb_true_iff in Hv as [Hv _].
  - rewrite H. cbn. by destruct v.
Qed.

Lemma plain_set f v : unmask (f_spec f) = TI_SPEC_SET -> plain_ok f v = true -> exists s l, v = VSet s l.
Proof. unfold FieldProof.plain_ok. intros ->. cbn. destruct v; try done. by eexists _, _. Qed.

Lemma plain_arr f v : unmask (f_spec f) = TI_SPEC_ARR -> plain_ok f v = true ->
  exists s b l, v = VArr s b l /\ forallb (nested_ok (f_nested f)) l = true.
Proof. unfold FieldProof.plain_ok. intros ->. cbn. destruct v; try done. intros H. by eexists _, _, _. Qed.

Lemma arr_sound t f v : field_wf t -> field_wf f -> spec_enum_of (unmask (f_spec t)) = Some SArr ->
  any_of (unmask (f_spec f)) [TI_SPEC_ARR; TI_SPEC_SET] = true -> members_ok v = true ->
  field__maps_to_nested enum_spec t f = Some true -> plain_ok f v = true -> val_switch t v = Some true.
Proof.
  intros (_ & Hts & _) Hf He Hin Hm H Hv. unfold maps_to_val_switch. rewrite He.
  apply any_of_in in Hin. destruct Hin as [E|[E|[]]]; symmetry in E.
  - destruct (plain_arr f v E Hv) as (s & b & l & -> & Hl). unfold field__maps_arr_to_arr.
    destruct (Z.eqb_spec (f_nested t) TI_SPEC_ANY) as [|Ha]; [done|]. destruct (_ || _); [done|]. cbn [members_ok] in Hm.
    eapply items_sound; try done. unfold ti_spec_is_set. by rewrite E.
  - destruct (plain_set f v E Hv) as (s & l & ->). f_equal. destruct Hf as (_ & Hfs & _ & Hf). rewrite E in Hf. cbn in Hf.
    by eapply set_sound.
Qed.

Lemma things_of s l : s < TI_SPEC_ANY \/ s = TI_SPEC_OBJECT -> simple_spec s -> forallb (nested_ok s) l = true ->
  forallb ti_val_is_thing l = true.
Proof.
  intros Hs Hsimple. rewrite !forallb_forall. intros H v Hv. specialize (H v Hv). rewrite nested_split in H.
  assert (0 <= s < 32768) as Hr by (destruct Hsimple as [[? ?] _]; destruct Hs; slia).
  unfold nil_ok in H. rewrite nillable_spec, (proj2 (Z.leb_gt _ _)), small_unmask in H by (destruct Hsimple; (done || lia)).
  cbn [andb orb] in H. destruct Hs as [Hs| ->]; [by apply (thing_type s)|done].
Qed.

Lemma switch_sound t f v : target_wf t -> field_wf f -> unrestricted t -> f_spec t <> TI_SPEC_ANY ->
  (negb (nillable (f_spec t)) && nillable (f_spec f)) = false ->
  unmask (f_spec t) < TI_ENUM_ID_FLAG -> members_ok v = true ->
  maps_to_field_switch enum_spec t f (unmask (f_spec t)) (unmask (f_spec f)) = Some true ->
  plain_ok f v = true -> val_switch t v = Some true.
Proof.
  intros Ht Hf Hu Ha Hnil Hte Hm H Hv. destruct (spec_enum_of (unmask (f_spec t))) as [e|] eqn:He.
  2:{ unfold maps_to_field_switch in H. rewrite He in H. unfold maps_to_val_switch. rewrite He.
      destruct (unmask (f_spec t) <? TI_SPEC_ANY); cbn [negb] in H; [|discriminate H].
      apply some_true in H. f_equal. apply (plain_thing f); [lia|done]. }
  destruct (flat e) eqn:Hfl.
  { assert (field_wf t) as Ht'.
    { destruct Ht as [Ht|(_ & [E|E])]; [done|rewrite E in He; injection He as <-; done..]. }
    eapply (val_switch_flat t v e); [done..|]. by eapply (flat_sound t f v e). }
  unfold maps_to_field_switch in H. rewrite He in H. cbv zeta in H.
  destruct e; try discriminate Hfl.
  - (* any *) unfold maps_to_val_switch. by rewrite He.
  - (* thing *) apply some_true in H. assert (ti_val_is_thing v = true) as Hth by (apply (plain_thing f); [lia|done]).
    unfold maps_to_val_switch. rewrite He. destruct v; try done. unfold field__maps_restricted.
    apply spec_of_enum_of in He. by rewrite Hu.
  - (* list *) destruct (any_of _ _) eqn:E; [|done]. destruct Ht as [Ht|(_ & [E'|E'])]; [|by rewrite E' in He..].
    by apply (arr_sound t f).
  - (* set *) apply some_true, Z.eqb_eq in H. destruct (plain_set f v H Hv) as (s & l & ->).
    unfold maps_to_val_switch. by rewrite He.
  - (* type *) apply some_true in H. unfold maps_to_val_switch. rewrite He. f_equal. apply (plain_thing f); [lia|done].
  - (* list of type *) apply some_true, orb_true_iff in H. unfold maps_to_val_switch. rewrite He. destruct H as [H|H].
    + apply Z.eqb_eq in H. by destruct (plain_set f v H Hv) as (s & l & ->).
    + apply andb_true_iff in H as [H1 H2]. apply Z.eqb_eq in H1. destruct (plain_arr f v H1 Hv) as (s & b & l & -> & Hl).
      f_equal. destruct Hf as (_ & Hfs & _). apply (things_of (f_nested f)); [lia|done|done].
Qed.

Lemma member_members v : members_ok v = true -> ti_val_is_array v = false -> member_ok v = true.
Proof. by destruct v. Qed.

Lemma base_arr s v : base_ok s v = true -> any_of s enum_specs = true -> members_ok v = true.
Proof. intros H Hin. apply any_of_in in Hin. destruct Hin as [<-|[<-|[<-|[<-|[<-|[]]]]]]; by destruct v. Qed.

(** A field with an enumeration shows what its members stand for. *)
Lemma enum_sound t f v : target_wf t -> unrestricted t -> f_spec t <> TI_SPEC_ANY ->
  unmask (f_spec t) < TI_ENUM_ID_FLAG -> TI_ENUM_ID_FLAG <= unmask (f_spec f) -> member_ok v = true ->
  enum_as enum_spec t (unmask (f_spec f)) ≫= maps_to_field_switch enum_spec t f (unmask (f_spec t)) = Some true ->
  id_ok (unmask (f_spec f)) v = true -> val_switch t (member_val t v) = Some true.
Proof.
  intros Ht Hu Ha Hte Hfe Hm H Hv. apply bind_Some in H as (fs & Hfs & H).
  destruct (member_shown t (unmask (f_spec f)) v fs) as (Hb & Hin); [done..|].
  destruct (enum_spec_facts fs Hin) as (_ & Hun & Hnil & Hs).
  apply (switch_sound t (nested_field fs (f_cond f))); [done|by apply nested_field_wf|done|done| |done|by apply (base_arr fs)| |].
  - cbn [nested_field f_spec]. by rewrite Hnil, andb_false_r.
  - cbn [nested_field f_spec]. rewrite Hun. unfold maps_to_field_switch in *.
    enum_spec_cases Hin; (destruct (spec_enum_of (unmask (f_spec t))) as [e|]; [destruct e|]; exact H).
  - assert (fs <> TI_SPEC_ANY) as Hfa by (enum_spec_cases Hin; done).
    pose proof (nested_field_ok pcre_match re_email re_url re_tel fs (f_cond f) (member_val t v) Hs Hfa) as E.
    rewrite nested_split in E. unfold FieldProof.field_ok, nil_ok in E. cbn [nested_field f_spec] in E. rewrite Hnil, Hun in E.
    cbn [andb orb] in E. by rewrite E.
Qed.

Lemma plain_member f v : field_wf f -> plain_ok f v = true -> ti_val_is_member v = true ->
  f_spec f = TI_SPEC_ANY \/ unmask (f_spec f) = TI_SPEC_ENUM \/ TI_ENUM_ID_FLAG <= unmask (f_spec f).
Proof.
  intros (_ & _ & _ & Hf) Hv Hm. unfold FieldProof.plain_ok in Hv. destruct (spec_enum_of _) as [e|] eqn:E.
  - apply spec_of_enum_of in E. destruct v; try discriminate Hm. destruct e; try discriminate Hv; auto;
      destruct (f_cond f); discriminate Hv.
  - destruct Hf as [Hf|Hf]; [|auto]. unfold id_ok in Hv. rewrite (proj2 (Z.leb_gt _ _)) in Hv by slia. by destruct v.
Qed.

Lemma plain_enum_id f v : TI_ENUM_ID_FLAG <= unmask (f_spec f) -> plain_ok f v = id_ok (unmask (f_spec f)) v.
Proof. intros H. unfold FieldProof.plain_ok. by rewrite spec_enum_enum. Qed.

(** [any] and [enum] are shown as nothing else. *)
Lemma switch_any_enum t f s : s = TI_SPEC_ANY \/ s = TI_SPEC_ENUM -> unmask (f_spec t) <> TI_SPEC_ENUM ->
  unmask (f_spec t) <> TI_SPEC_ANY -> maps_to_field_switch enum_spec t f (unmask (f_spec t)) s <> Some true.
Proof.
  intros Hs H1 H2 H. unfold maps_to_field_switch in H. destruct (spec_enum_of (unmask (f_spec t))) as [e|] eqn:E.
  - apply spec_of_enum_of in E. rewrite E in *. destruct e; try (by cbn in H1, H2); destruct Hs as [-> | ->]; try discriminate H.
  - destruct (unmask (f_spec t) <? TI_SPEC_ANY); destruct Hs as [-> | ->]; discriminate H.
Qed.

Lemma target_any t : target_wf t -> unmask (f_spec t) = TI_SPEC_ANY -> f_spec t = TI_SPEC_ANY.
Proof.
  intros [(_ & _ & _ & Ht)|[_ Ht]] E; [by rewrite E in Ht|]. rewrite E in Ht. by destruct Ht.
Qed.

Lemma maps_sound t f v : target_wf t -> field_wf f -> unrestricted t -> members_ok v = true ->
  ti_field_maps_to_field enum_spec t f = Some true -> field_ok f v = true ->
  ti_field_maps_to_val pcre_match re_email re_url re_tel t v = Some (negb (wrap_skips t v)).
Proof.
  intros Ht Hf Hu Hm H Hv. unfold ti_field_maps_to_val, wrap_skips.
  destruct (_ && negb (ti_val_as_bool v)); [done|]. rewrite (andb_comm (ti_val_is_nil v)).
  destruct (has_flag t TI_FIELD_FLAG_SKIP_NIL && ti_val_is_nil v); [done|]. cbn [orb negb]. unfold ti_field_maps_to_field in H.
  destruct (Z.eqb_spec (f_spec t) TI_SPEC_ANY) as [Ha|Ha].
  { rewrite Ha. change (unmask TI_SPEC_ANY) with TI_SPEC_ANY. destruct (_ && _); [done|]. cbn [Z.leb].
    change (TI_SPEC_ANY =? TI_SPEC_ENUM) with false. rewrite andb_false_r. unfold maps_to_val_switch. by rewrite Ha. }
  destruct (negb _ && _) eqn:Hnil; [done|]. cbv zeta in *.
  destruct (ti_val_is_nil v && nillable (f_spec t)) eqn:E; [done|].
  assert (Hp : plain_ok f v = true).
  { unfold FieldProof.field_ok, nil_ok in Hv. destruct (nillable (f_spec t)), (nillable (f_spec f)), (ti_val_is_nil v); done. }
  destruct (Z.leb_spec TI_ENUM_ID_FLAG (unmask (f_spec t))) as [Hte|Hte].
  { apply some_true, Z.eqb_eq in H. rewrite plain_enum_id in Hp by lia. unfold id_ok in Hp. rewrite <- H in Hp.
    rewrite (proj2 (Z.leb_le _ _)) in Hp by done. by rewrite Hp. }
  destruct (Z.leb_spec TI_ENUM_ID_FLAG (unmask (f_spec f))) as [Hfe|Hfe].
  - rewrite plain_enum_id in Hp by done. rewrite (id_ok_member _ v Hfe Hp). cbn [andb] in *.
    destruct (_ =? TI_SPEC_ENUM); [done|]. apply (enum_sound t f v); try done. by destruct v.
  - cbn [andb mbind option_bind] in H. destruct (ti_val_is_member v && _) eqn:Emem; [done|].
    rewrite member_val_id; [by apply (switch_sound t f)|].
    apply not_true_iff_false. intros Hmem. rewrite Hmem in Emem. cbn [andb] in Emem. apply Z.eqb_neq in Emem.
    destruct (plain_member f v) as [E'|[E'|E']]; [done..| | |lia].
    + rewrite E' in H. apply switch_any_enum in H; auto. intros Hta. by apply Ha, target_any.
    + rewrite E' in H. apply switch_any_enum in H; auto. intros Hta. by apply Ha, target_any.
Qed.

(** ** The comparisons are defined *)

Lemma nested_val_total t v : simple_spec (f_nested t) ->
  exists b, ti_spec_maps_to_nested_val pcre_match re_email re_url re_tel t v = Some b.
Proof.
  intros Ht. unfold ti_spec_maps_to_nested_val. destruct (Z.eqb_spec (f_nested t) TI_SPEC_ANY) as [|Ha]; [by eexists|].
  destruct (_ || _); [by eexists|]. unfold ti__spec_maps_to_nested_val. cbv zeta.
  destruct (Z.leb_spec TI_ENUM_ID_FLAG (unmask (f_nested t))); [by eexists|]. destruct (_ && _); [by eexists|].
  unfold maps_to_nested_switch. destruct (spec_enum_of (unmask (f_nested t))) as [e|] eqn:E; [|by eexists].
  apply spec_of_enum_of in E. destruct e; try (by eexists); exfalso; [by apply Ha, simple_any|..];
    cbn in E; destruct Ht as [_ [Ht|[Ht|[Ht|Ht]]]]; congruence || slia.
Qed.

Lemma items_total t l : simple_spec (f_nested t) -> exists b, maps_items pcre_match re_email re_url re_tel t l = Some b.
Proof.
  intros Ht. induction l as [|v l IH]; [by eexists|]. cbn [maps_items]. destruct (nested_val_total t v Ht) as ([] & ->); [done|by eexists].
Qed.

Lemma maps_to_val_total t v : target_wf t -> exists b, ti_field_maps_to_val pcre_match re_email re_url re_tel t v = Some b.
Proof.
  intros Ht. unfold ti_field_maps_to_val. destruct (_ && _); [by eexists|]. destruct (_ && _); [by eexists|].
  destruct (_ && _); [by eexists|]. cbv zeta. destruct (_ <=? _); [by eexists|]. destruct (_ && _); [by eexists|].
  unfold maps_to_val_switch. generalize (member_val t v) as w. intros w.
  destruct Ht as [(_ & Hts & _ & Ht)|(_ & [E|E])]; [|rewrite E; by eexists|rewrite E; cbn; destruct w; by eexists].
  destruct (spec_enum_of (unmask (f_spec t))) as [e|] eqn:E; [|by eexists]. destruct e; try done; try (by eexists); cbn in Ht.
  - destruct w; try (by eexists). unfold field__maps_restricted. destruct (_ =? _); [by eexists|]. destruct (negb _); [by eexists|].
    destruct (_ =? _); [by eexists|]. by apply items_total.
  - destruct w; try (by eexists). unfold field__maps_arr_to_arr. destruct (_ || _); [by eexists|]. by apply items_total.
  - destruct (ti_val_is_str w); [|by eexists]. destruct Ht as (d & p & ->). by eexists.
  - destruct (ti_val_is_int w); [|by eexists]. destruct Ht as (d & mi & ma & ->). by eexists.
  - destruct w; try (by eexists). destruct Ht as (d & mi & ma & -> & _). by eexists.
  - destruct (ti_val_is_str w); [|by eexists]. destruct Ht as (d & mi & ma & ->). by eexists.
  - destruct (_ && _); [|by eexists]. destruct Ht as (d & mi & ma & ->). by eexists.
Qed.

(** The enumerations of a field exist. *)
Definition enums_known (f : field) : Prop :=
  forall s, s = unmask (f_spec f) \/ s = unmask (f_nested f) -> TI_ENUM_ID_FLAG <= s ->
    exists k, enum_spec (Z.land s TI_ENUM_ID_MASK) = Some k /\ any_of k enum_specs = true.

Lemma enum_as_total t f s : enums_known f -> s = unmask (f_spec f) \/ s = unmask (f_nested f) ->
  exists fs, (if TI_ENUM_ID_FLAG <=? s then enum_as enum_spec t s else Some s) = Some fs /\
    (s = fs \/ any_of fs enum_specs = true).
Proof.
  intros Hk Hs. destruct (Z.leb_spec TI_ENUM_ID_FLAG s) as [Hle|]; [|eexists; split; [done|auto]].
  unfold enum_as. destruct (has_flag _ _); [eexists; split; [done|by right]|].
  destruct (Hk s Hs Hle) as (k & -> & Hin). eexists. split; [done|auto].
Qed.

Lemma nested_field_total t f : field_wf f -> enums_known f -> simple_spec (f_nested t) ->
  ti_spec_is_arr_or_set (f_spec f) = true -> ti_spec_is_arr_or_set (f_spec t) = true ->
  exists b, field__maps_to_nested enum_spec t f = Some b.
Proof.
  intros Hf Hk Ht H1 H2. unfold field__maps_to_nested. rewrite H1, H2. cbn [andb negb].
  destruct (Z.eqb_spec (f_nested t) TI_SPEC_ANY) as [|Ha]; [by eexists|]. destruct (_ && _); [by eexists|]. cbv zeta.
  destruct (Z.leb_spec TI_ENUM_ID_FLAG (unmask (f_nested t))); [by eexists|]. destruct (_ && _); [by eexists|].
  destruct (enum_as_total t f (unmask (f_nested f)) Hk) as (fs & -> & _); [by right|]. cbn [mbind option_bind].
  unfold maps_to_nested_field_switch. destruct (_ =? _); [by eexists|]. cbv zeta.
  destruct (spec_enum_of (unmask (f_nested t))) as [e|] eqn:E; [destruct e; by eexists|].
  destruct (Z.ltb_spec (unmask (f_nested t)) TI_SPEC_ANY); [by eexists|exfalso].
  destruct (Z.le_gt_cases (unmask (f_nested t)) TI_SPEC_ENUM).
  - destruct (spec_enum_simple (unmask (f_nested t))) as (e & He & _); [lia|congruence].
  - destruct Ht as [_ [Ht|[Ht|[Ht|Ht]]]]; congruence || lia.
Qed.

Lemma switch_total t f fs : target_wf t -> field_wf f -> enums_known f -> unmask (f_spec t) < TI_ENUM_ID_FLAG ->
  unmask (f_spec f) = fs \/ any_of fs enum_specs = true ->
  exists b, maps_to_field_switch enum_spec t f (unmask (f_spec t)) fs = Some b.
Proof.
  intros Ht Hf Hk Hlt Hfs. unfold maps_to_field_switch. cbv zeta.
  assert (Hr : forall c, any_of c enum_specs = false -> fs = c -> unmask (f_spec f) = c) by (intros c Hc ->; destruct Hfs; congruence).
  destruct (spec_enum_of (unmask (f_spec t))) as [e|] eqn:En.
  2:{ destruct (unmask (f_spec t) <? TI_SPEC_ANY) eqn:El; [by eexists|exfalso].
      destruct Ht as [(_ & _ & _ & Ht)|[_ [E|E]]]; [rewrite En in Ht; lia|by rewrite E in En..]. }
  destruct e; try (by eexists).
  all: repeat match goal with |- context [if ?b then _ else _] => 
    first [ destruct b eqn:?; [|by eexists] | destruct b eqn:?; [by eexists|] ] end.
  all: repeat match goal with K : (_ =? _) = true |- _ => apply Z.eqb_eq in K; apply Hr in K; [|reflexivity] end.
  all: try (pose proof (spec_of_enum_of _ _ En) as Es; cbn [spec_of_enum] in Es;
    assert (Ht' : field_wf t) by (destruct Ht as [Ht|(_ & [E|E])]; [done|by rewrite E in En..])).
  all: repeat match goal with
    | |- context [irange (f_cond ?f)] => destruct (irange_wf f) as ([] & ->); [done|done|]
    | |- context [drange (f_cond ?f)] => destruct (drange_wf f) as ([] & ->); [done|done|]
    | |- context [re (f_cond ?f)] => destruct (re_wf f) as (? & ->); [done|done|]
    end; try (by eexists).
  - (* list *) apply nested_field_total; [done|done|apply Ht'|..].
    + unfold ti_spec_is_arr_or_set. apply any_of_in in Heqb. destruct Heqb as [E|[E|[]]]; symmetry in E; (apply Hr in E; [by rewrite E|done]).
    + unfold ti_spec_is_arr_or_set. by rewrite Es.
  - (* str range *) destruct (srange_wf f) as ([] & ->); [done| |].
    { apply any_of_in in Heqb. destruct Heqb as [E|[E|[]]]; symmetry in E; apply Hr in E; auto. }
    destruct (srange_wf t) as ([] & ->); [done|by left|by eexists].
  - (* utf8 range *) destruct (srange_wf f) as ([] & ->); [done|by right|].
    destruct (srange_wf t) as ([] & ->); [done|by right|by eexists].
Qed.

Lemma maps_to_field_total t f : target_wf t -> field_wf f -> enums_known f -> exists b, ti_field_maps_to_field enum_spec t f = Some b.
Proof.
  intros Ht Hf Hk. unfold ti_field_maps_to_field. destruct (_ =? _); [by eexists|]. destruct (_ && _); [by eexists|]. cbv zeta.
  destruct (Z.leb_spec TI_ENUM_ID_FLAG (unmask (f_spec t))); [by eexists|]. destruct (_ && _); [by eexists|].
  destruct (enum_as_total t f (unmask (f_spec f)) Hk) as (fs & -> & Hfs); [by left|]. cbn [mbind option_bind].
  by apply switch_total.
Qed.
End Maps.
