(* ===== verification/WrapProps.v ===== *)
(** * What a wrapped thing shows

    A thing of a type and the thing without a type that has the same properties
    are compared: the fields that are compared once show nothing that the values
    would not show, the header counts the pairs that follow, and the room for the
    pairs is enough. *)
From Stdlib Require Import ZArith Lia Floats.SpecFloat.
From stdpp Require Import base list option numbers.
From S2P Require Import Prelude Utf8 Opr Strx Spec Keywords Field Wrap FieldProof FieldMod FieldMaps.

#[local] Arguments Z.land : simpl never.

Section Props.
Context (pcre_match : list Z -> list Z -> bool) (re_email re_url re_tel : list Z) (enum_spec : Z -> option Z).
Local Notation field_ok := (field_ok pcre_match re_email re_url re_tel).
Local Notation members_ok := (members_ok pcre_match re_email re_url re_tel enum_spec).
Local Notation maps_to_val := (ti_field_maps_to_val pcre_match re_email re_url re_tel).
Local Notation gather := (gather pcre_match re_email re_url re_tel).

Lemma skip_flags m v : can_skip_field m = false -> wrap_skips (t_field m) v = false.
Proof.
  unfold can_skip_field, wrap_skips, has_flag. intros H. apply negb_false_iff, Z.eqb_eq in H.
  rewrite Z.land_lor_distr_r in H. apply Z.lor_eq_0_iff in H as [-> ->]. done.
Qed.

(** The field with a name and the property with that name. *)
Lemma by_name_prop l vs name k : length l = length vs ->
  match field_by_name l name k with
  | Some (i, f) => exists j v, i = (k + j)%nat /\ l !! j = Some (name, f) /\ vs !! j = Some v /\ prop_weak_get (zip l.*1 vs) name = Some v
  | None => prop_weak_get (zip l.*1 vs) name = None
  end.
Proof.
  revert vs k. induction l as [|[n f] l IH]; intros [|v vs] k Hl; try discriminate Hl; [done|].
  cbn [field_by_name fmap list_fmap fst zip zip_with prop_weak_get]. case_bool_decide as E.
  - exists 0%nat, v. rewrite Nat.add_0_r, E. done.
  - specialize (IH vs (S k)). destruct (field_by_name l name (S k)) as [[i g]|]; [|apply IH; simpl in Hl; lia].
    destruct IH as (j & w & -> & H1 & H2 & H3); [simpl in Hl; lia|]. exists (S j), w. split_and!; [lia|done..].
Qed.

Definition target_ok (nt : pname * field) : Prop := target_wf nt.2 /\ unrestricted nt.2.
Definition source_ok (nf : pname * field) : Prop := field_wf nf.2 /\ enums_known enum_spec nf.2.
Definition stored (nf : pname * field) (v : val) : Prop := field_ok nf.2 v = true /\ members_ok v = true.

(** The mappings and the properties that are gathered from the same thing. *)
Lemma mappings_gather ts fs vs : Forall target_ok ts -> Forall source_ok fs -> Forall2 stored fs vs ->
  exists ms c ps qs, type_mappings enum_spec ts fs = Some ms /\ wrap_count ms vs = Some c /\
    wrap_mappings true ms vs = Some ps /\ gather ts (zip fs.*1 vs) = Some qs /\
    ps `sublist_of` qs /\ len ms - c = len ps.
Proof.
  intros Ht Hf Hv. induction Ht as [|[name t] ts [Htw Htu] Ht (ms & c & ps & qs & H1 & H2 & H3 & H4 & H5 & H6)].
  { by exists [], 0, [], []. }
  pose proof (by_name_prop fs vs name 0 (Forall2_length Hv)) as Hn. cbn [type_mappings Wrap.gather]. unfold ti_field_by_name.
  destruct (field_by_name fs name 0) as [[i f]|].
  2:{ rewrite Hn. by exists ms, c, ps, qs. }
  destruct Hn as (j & v & -> & Hj & Hjv & ->). cbn [Nat.add].
  destruct (Forall_lookup_1 _ _ _ _ Hf Hj) as [Hfw Hfk]. destruct (Forall2_lookup_lr _ _ _ _ _ _ Hv Hj Hjv) as [Hvf Hvm].
  destruct (maps_to_field_total enum_spec t f) as (b & Hb); [done..|].
  destruct (maps_to_val_total pcre_match re_email re_url re_tel t v) as (b' & Hb'); [done|].
  cbn [snd] in *. rewrite Hb, Hb', H1, H4. cbn [mbind option_bind].
  destruct b.
  2:{ exists ms, c, ps. eexists. split_and!; [done..| |done]. destruct b'; [by apply sublist_cons|done]. }
  rewrite (maps_sound pcre_match re_email re_url re_tel enum_spec t f v) in Hb' by done. injection Hb' as <-.
  eexists _, _, _, _. split_and!; [reflexivity|cbn; rewrite Hjv; cbn; rewrite H2; reflexivity
    |cbn; rewrite Hjv; cbn; rewrite H3; reflexivity|reflexivity|..];
    destruct (wrap_skips t v); cbn [negb]; try done; try (by constructor); unfold len in *; cbn [length]; lia.
Qed.

(** Without flags the pairs are all packed. *)
Lemma mappings_no_skip ms vs ps c : existsb can_skip_field ms = false -> wrap_mappings true ms vs = Some ps ->
  wrap_count ms vs = Some c -> wrap_mappings false ms vs = Some ps /\ c = 0.
Proof.
  revert ps c. induction ms as [|m ms IH]; intros ps c Hs H Hc; [cbn in *; split; congruence|].
  cbn [existsb wrap_mappings wrap_count] in *. apply orb_false_iff in Hs as [Hm Hs].
  apply bind_Some in H as (v & Hv & H). rewrite Hv in *. cbn [mbind option_bind] in *.
  apply bind_Some in H as (ps' & Hps & H). apply bind_Some in Hc as (c' & Hc' & Hc).
  destruct (IH ps' c') as [-> ->]; [done..|]. cbn [mbind option_bind]. rewrite (skip_flags m v Hm) in *. injection Hc as <-. by split; [|lia].
Qed.

(** ** Room for the gathered properties *)

Lemma prop_weak_get_in props name v : prop_weak_get props name = Some v -> name ∈ props.*1.
Proof.
  induction props as [|[n w] props IH]; [done|]. cbn [prop_weak_get]. case_bool_decide as E.
  - intros _. rewrite <- E. by left.
  - intros H. right. auto.
Qed.

Lemma gather_names ts props qs : gather ts props = Some qs ->
  (map (fun q => q.1.1) qs) `sublist_of` ts.*1 /\
  Forall (fun q => q.1.1 ∈ props.*1 /\ maps_to_val q.1.2 q.2 = Some true) qs.
Proof.
  revert qs. induction ts as [|[name t] ts IH]; intros qs H; [injection H as <-; split; constructor|].
  cbn [Wrap.gather] in H. cbn [fmap list_fmap fst]. destruct (prop_weak_get props name) as [v|] eqn:E.
  - apply bind_Some in H as (b & Hb & H). apply bind_Some in H as (l & Hl & H). destruct (IH l Hl) as [H1 H2].
    injection H as <-. destruct b; [|by split; [apply sublist_cons|]]. split; [by constructor|].
    constructor; [by split; [eapply prop_weak_get_in|]|done].
  - destruct (IH qs H) as [H1 H2]. by split; [apply sublist_cons|].
Qed.

Lemma gather_room ts props qs : NoDup ts.*1 -> gather ts props = Some qs -> len qs <= Z.min (len ts) (len props).
Proof.
  intros Hnd H. destruct (gather_names ts props qs H) as [H1 H2]. unfold len.
  pose proof (sublist_length _ _ H1) as L1. rewrite length_map, length_fmap in L1.
  assert (length qs <= length props)%nat as L2; [|unfold shown in *; lia]. unfold shown in *.
  rewrite <- (length_map (fun q => q.1.1) qs), <- (length_fmap fst props).
  apply submseteq_length, NoDup_submseteq; [by eapply sublist_NoDup|].
  intros x Hx. apply list_elem_of_In, in_map_iff in Hx as (q & <- & Hq).
  by destruct (proj1 (Forall_forall _ _) H2 q Hq).
Qed.

Lemma wrap_agrees ts fs vs : Forall target_ok ts -> Forall source_ok fs -> Forall2 stored fs vs -> NoDup ts.*1 ->
  exists ps qs, wrap_typed enum_spec ts fs vs = Some (len ps, ps) /\
    wrap_object pcre_match re_email re_url re_tel ts (zip fs.*1 vs) = Some (len qs, qs) /\ ps `sublist_of` qs /\
    Forall (fun p : shown => maps_to_val p.1.2 p.2 = Some true) qs.
Proof.
  intros Ht Hf Hv Hnd. destruct (mappings_gather ts fs vs) as (ms & c & ps & qs & H1 & H2 & H3 & H4 & H5 & H6); [done..|].
  exists ps, qs. split_and!; [| |done|].
  - unfold wrap_typed, ti_type_map. rewrite H1. cbn [mbind option_bind ti_map_new can_skip mappings].
    destruct (existsb can_skip_field ms) eqn:E.
    + rewrite H2, H3. cbn. by rewrite H6.
    + destruct (mappings_no_skip ms vs ps c) as [-> ->]; [done..|]. cbn. by rewrite <- H6, Z.sub_0_r.
  - unfold wrap_object. rewrite H4. cbn [mbind option_bind]. by rewrite (proj2 (Z.leb_le _ _)) by by apply gather_room.
  - destruct (gather_names _ _ _ H4) as [_ H]. revert H. apply Forall_impl. by intros q [_ Hq].
Qed.
End Props.

(** ** Properties *)

(** C19. A thing of a type that is wrapped by another type shows only properties
    that the thing would show if it had no type: whatever [ti_type_map] matches by
    the fields alone, every value of the field passes the check of
    [ti_field_maps_to_val], for all fields that are not a restricted thing
    ([thing<...>]). In both ways the header counts the pairs that follow, the
    flags that leave out nil or false count the same, no assertion fails, and the
    room for the pairs of a thing without a type is enough. *)
Theorem wrap_typed_shows_matching_values (pcre_match : list Z -> list Z -> bool) (re_email re_url re_tel : list Z)
    (enum_spec : Z -> option Z) (ts fs : fields) (vs : list val) :
  Forall target_ok ts -> Forall (source_ok enum_spec) fs ->
  Forall2 (stored pcre_match re_email re_url re_tel enum_spec) fs vs -> NoDup ts.*1 ->
  exists ps qs, wrap_typed enum_spec ts fs vs = Some (len ps, ps) /\
    wrap_object pcre_match re_email re_url re_tel ts (zip fs.*1 vs) = Some (len qs, qs) /\
    ps `sublist_of` qs /\
    Forall (fun p : shown => ti_field_maps_to_val pcre_match re_email re_url re_tel p.1.2 p.2 = Some true) qs.
Proof. apply wrap_agrees. Qed.

(** A type with an enumeration, an int range and a set, wrapped by a type that
    shows the names of the members, leaves out nil and takes a list. *)
Definition wf_ts : fields :=
  [([1], Field (Z.lor TI_SPEC_STR TI_SPEC_NILLABLE) TI_SPEC_ANY (TI_FIELD_FLAG_ENAME + TI_FIELD_FLAG_SKIP_NIL) None CNone);
   ([2], Field TI_SPEC_UINT TI_SPEC_ANY 0 None CNone); ([3], Field TI_SPEC_ARR 7 0 None CNone)].
Definition wf_fs : fields :=
  [([3], Field TI_SPEC_SET TI_SPEC_ANY 0 None CNone); ([2], Field TI_SPEC_INT_RANGE TI_SPEC_ANY 0 None (CIrange VNil 1 9));
   ([1], Field (TI_ENUM_ID_FLAG + 4) TI_SPEC_ANY 0 None CNone); ([8], Field TI_SPEC_ANY TI_SPEC_ANY 0 None CNone)].
Definition wf_vs : list val := [VSet TI_SPEC_ANY [5; 7]; VInt 3; VMember 4 [65] (VInt 1); VNil].
Definition wf_enum (id : Z) : option Z := if id =? 4 then Some TI_SPEC_INT else None.

Example wrap_example : wrap_typed wf_enum wf_ts wf_fs wf_vs =
  Some (3, [([1], Field (Z.lor TI_SPEC_STR TI_SPEC_NILLABLE) TI_SPEC_ANY (TI_FIELD_FLAG_ENAME + TI_FIELD_FLAG_SKIP_NIL) None CNone,
             VMember 4 [65] (VInt 1));
            ([2], Field TI_SPEC_UINT TI_SPEC_ANY 0 None CNone, VInt 3); ([3], Field TI_SPEC_ARR 7 0 None CNone, VSet TI_SPEC_ANY [5; 7])]).
Proof. vm_compute. reflexivity. Qed.

(** Well-formedness of a field that is written out. *)
Ltac field_wf_tac :=
  split; [by vm_compute|split; [split; [by vm_compute|first [by left | by right; left | by right; right; left | by right; right; right]]
    |split; [by vm_compute|]]].

Lemma wrap_typed_shows_matching_values_witness :
  exists ps qs, wrap_typed wf_enum wf_ts wf_fs wf_vs = Some (len ps, ps) /\
    wrap_object (fun _ _ => true) [] [] [] wf_ts (zip wf_fs.*1 wf_vs) = Some (len qs, qs) /\
    ps `sublist_of` qs /\
    Forall (fun p : shown => ti_field_maps_to_val (fun _ _ => true) [] [] [] p.1.2 p.2 = Some true) qs.
Proof.
  apply wrap_typed_shows_matching_values.
  - repeat apply List.Forall_cons; try apply List.Forall_nil; (split; [left; field_wf_tac; by vm_compute|done]).
  - repeat apply List.Forall_cons; try apply List.Forall_nil; (split; [field_wf_tac|]).
    all: try (intros s [-> | ->] Hs; vm_compute in Hs; (congruence || (by eexists))).
    + done.
    + by eexists _, _, _.
    + by right.
    + done.
  - repeat apply List.Forall2_cons; try apply List.Forall2_nil; by vm_compute.
  - by apply (bool_decide_unpack _); vm_compute.
Defined.
