(* ===== verification/FieldProps.v ===== *)
(** * Properties of fields *)
From Stdlib Require Import ZArith Lia Floats.SpecFloat.
From stdpp Require Import base list option numbers.
From S2P Require Import Prelude Utf8 Opr Strx Spec Keywords Field Wrap FieldProof FieldMod FieldMaps WrapProps.


Definition pints : field := Field TI_SPEC_ARR TI_SPEC_PINT 0 None CNone.


(** C16. When [ti_field_mod] gives a field of a type with things another
    specification without looking at them, every value of the old specification is
    one of the new: no stored value is left that the field would refuse. The
    decision is made for every pair of specifications. *)
Theorem field_mod_keeps_values (pcre_match : list Z -> list Z -> bool) (re_email re_url re_tel : list Z) (prev new : field) :
  field_wf prev -> field_wf new ->
  exists r, ti_field_mod_check prev new = Some r /\
    (r = MOD_done -> forall v, field_ok pcre_match re_email re_url re_tel prev v = true ->
       field_ok pcre_match re_email re_url re_tel new v = true).
Proof.
  intros Hp Hn. destruct (field_mod_total prev new Hp Hn) as (r & Hr). exists r. split; [done|].
  intros -> v. by apply field_mod_sound.
Qed.

Definition numbers_ : field := Field (Z.lor TI_SPEC_ARR TI_SPEC_NILLABLE) TI_SPEC_NUMBER 0 None CNone.

Example mod_example : ti_field_mod_check pints numbers_ = Some MOD_done.
Proof. vm_compute. reflexivity. Qed.

Lemma field_mod_keeps_values_witness : exists r, ti_field_mod_check pints numbers_ = Some r /\
  (r = MOD_done -> forall v, field_ok (fun _ _ => true) [] [] [] pints v = true -> field_ok (fun _ _ => true) [] [] [] numbers_ v = true).
Proof. apply field_mod_keeps_values; (field_wf_tac; exact I). Defined.

(** A list of things keeps its items and is still refused. *)
Example mod_nested_thing_refused :
  ti_field_mod_check (Field TI_SPEC_ARR TI_SPEC_OBJECT 0 None CNone) (Field (Z.lor TI_SPEC_ARR TI_SPEC_NILLABLE) TI_SPEC_OBJECT 0 None CNone) =
  Some MOD_incompatible.
Proof. vm_compute. reflexivity. Qed.

(** A thing of integers is shown as a thing of strings when the things have types. *)
Example maps_ignores_restriction :
  ti_field_maps_to_field (fun _ => None) (Field TI_SPEC_OBJECT TI_SPEC_STR 0 None CNone) (Field TI_SPEC_OBJECT TI_SPEC_INT 0 None CNone) = Some true /\
  ti_field_maps_to_val (fun _ _ => true) [] [] [] (Field TI_SPEC_OBJECT TI_SPEC_STR 0 None CNone)
    (VThing TI_SPEC_OBJECT TI_SPEC_INT false [VInt 1]) = Some false.
Proof. split; vm_compute; reflexivity. Qed.
