(* ===== verification/Update.v ===== *)
(** * ti/do: compound assignment to a property of a thing with a type

    [do__t_upd_prop] and [do__upd_prop] of [src/src/ti/do.c] (and the same with an
    index in [src/src/ti/index.c]): [t.x += v] evaluates the operator on the value
    of the field and stores the result. The operators are those of [Opr.v]; a value
    of another kind has none here. *)
From Stdlib Require Import ZArith Lia Floats.SpecFloat.
From stdpp Require Import base list option numbers.
From S2P Require Import Prelude Utf8 Opr Strx Spec Keywords Field Wrap FieldProof FieldMod FieldMaps WrapProps OprProps.

(** Values with operators, and back. *)
Definition opr_val (v : val) : option (Opr.val (F:=double)) :=
  match v with
  | VInt i => Some (Opr.VInt i)
  | VFloat f => Some (Opr.VFloat f)
  | VBool b => Some (Opr.VBool b)
  | VName s => Some (Opr.VName s)
  | VStr s => Some (Opr.VStr s)
  | VBytes s => Some (Opr.VBytes s)
  | _ => None
  end.
Definition val_opr (v : Opr.val (F:=double)) : option val :=
  match v with
  | Opr.VInt i => Some (VInt i)
  | Opr.VFloat f => Some (VFloat f)
  | Opr.VBool b => Some (VBool b)
  | Opr.VName s => Some (VName s)
  | Opr.VStr s => Some (VStr s)
  | Opr.VBytes s => Some (VBytes s)
  | _ => None
  end.

Inductive uerr := U_not_found | U_opr (e : ex).

Section Update.
Context (fo : float_ops double).

Definition do__t_upd_prop (f_fields : fields) (items : list val) (name : pname) (o : opr) (mem : bool) (rval : val)
    : option (uerr + (nat * val)) :=
  match ti_field_by_name f_fields name with
  | None => Some (inl U_not_found)
  | Some (idx, _) =>
    a ← items !! idx; x ← opr_val a; y ← opr_val rval;
    r ← ti_opr_a_to_b fo o mem x y;
    match r with
    | inl e => Some (inl (U_opr e))
    | inr r => v ← val_opr r; Some (inr (idx, v))
    end
  end.

Definition do__upd_prop (f_fields : fields) (items : list val) (name : pname) (o : opr) (mem : bool) (rval : val)
    : option (uerr + list val) :=
  r ← do__t_upd_prop f_fields items name o mem rval;
  Some match r with inl e => inl e | inr (idx, v) => inr (<[idx := v]> items) end.
End Update.

(** ** Properties *)

(** A compound assignment to a property of a thing with a type stores what the
    operator gives, without the check of the field: with [uint] and [-=] a negative
    value is stored that the field refuses for [=]. *)
Theorem compound_assignment_unchecked (fo : float_ops double) (pcre_match : list Z -> list Z -> bool) (re_email re_url re_tel : list Z)
    (closure_unbound : Z -> bool) (mem parent : bool) (name : pname) (a b : Z) :
  let f := Field TI_SPEC_UINT TI_SPEC_ANY 0 None CNone in
  0 <= a < b -> b <= LLONG_MAX -> mem = true ->
  field_ok pcre_match re_email re_url re_tel f (VInt a) = true /\
  do__upd_prop fo [(name, f)] [VInt a] name OprSub mem (VInt b) = Some (inr [VInt (a - b)]) /\
  field_ok pcre_match re_email re_url re_tel f (VInt (a - b)) = false /\
  ti_field_make_assignable pcre_match re_email re_url re_tel closure_unbound mem parent f (VInt (a - b)) = Some (inl uint_error).
Proof.
  intros f Ha Hb ->. assert (Hneg : a - b < 0) by lia.
  assert (Hsub : opr__sub fo true (Opr.VInt a) (Opr.VInt b) = Some (inr (Opr.VInt (a - b)))).
  { assert (LLONG_MIN <= LLONG_MIN + b <= LLONG_MAX /\ LLONG_MIN <= a - b <= LLONG_MAX) as [H1 H2] by (unfold LLONG_MAX, LLONG_MIN in *; lia).
    unfold opr__sub. rewrite (exact_in _ H1), (exact_in _ H2), (proj2 (Z.ltb_ge b 0)), (proj2 (Z.ltb_lt 0 b)) by lia.
    cbn [oor oand olt mbind option_bind]. rewrite (proj2 (Z.ltb_ge a (LLONG_MIN + b))) by (unfold LLONG_MAX, LLONG_MIN in *; lia).
    cbn [mbind option_bind]. unfold make_int. by rewrite orb_true_r. }
  split_and!.
  - change ((0 <=? a) = true). lia.
  - unfold do__upd_prop, do__t_upd_prop, ti_field_by_name. cbn [field_by_name]. rewrite bool_decide_true by done.
    cbn [lookup list_lookup mbind option_bind opr_val ti_opr_a_to_b]. by rewrite Hsub.
  - change ((0 <=? a - b) = false). lia.
  - change ((if a - b <? 0 then Some (inl uint_error) else Some (inr (VInt (a - b)))) = Some (inl uint_error) :> option (aerr + val)).
    by rewrite (proj2 (Z.ltb_lt (a - b) 0)) by lia.
Qed.

Definition no_floats : float_ops double := FloatOps double (fun _ => S754_nan) (fun x _ => x) (fun x _ => x) (fun x _ => x)
  (fun x _ => x) (fun x => x) (fun _ => false) (fun _ _ => false) (fun _ _ => false) (fun _ => false) (fun _ => 0).

Lemma compound_assignment_unchecked_witness :
  let f := Field TI_SPEC_UINT TI_SPEC_ANY 0 None CNone in
  field_ok (fun _ _ => true) [] [] [] f (VInt 3) = true /\
  do__upd_prop no_floats [([120], f)] [VInt 3] [120] OprSub true (VInt 5) = Some (inr [VInt (3 - 5)]) /\
  field_ok (fun _ _ => true) [] [] [] f (VInt (3 - 5)) = false /\
  ti_field_make_assignable (fun _ _ => true) [] [] [] (fun _ => true) true true f (VInt (3 - 5)) = Some (inl uint_error).
Proof. apply compound_assignment_unchecked; [lia|vm_compute; discriminate|reflexivity]. Defined.
