(* ===== verification/Varr.v ===== *)
(** * ti/varr: lists with flags for what they may hold

    Lists and tuples of [src/src/ti/varr.c] with the callbacks [to_arr_cb] and the
    functions [ti_val_varr_*] of [src/inc/ti/val.inline.h]. A list keeps two flags,
    may-have-things and may-have-rooms; the walk that gives new things an id
    ([ti_val_gen_ids] of [src/src/ti/val.c]) and the mark phase of the garbage
    collector ([src/src/ti/collection.c]) skip lists without them.

    A value in a list is an item: a list inside a list carries its own flags. The
    number of references only decides whether [ti_varr_to_tuple] and
    [ti_varr_to_list] copy, so here it is part of the memory that may fail. *)
From Stdlib Require Import ZArith Lia.
From stdpp Require Import base list option numbers.
From S2P Require Import Prelude Utf8 Opr Strx Spec Field.

Inductive item :=
  | ILeaf (v : val)                                       (* no list and no set *)
  | IArr (tuple mht mhr : bool) (l : list item)
  | ISet (things : list item).

Record varr := Varr { va_spec : Z; va_mht : bool; va_mhr : bool; va_vec : list item }.

(** The value as the checks of a specification see it. *)
Definition as_val (i : item) : val :=
  match i with ILeaf v => v | IArr t _ _ _ => VArr TI_SPEC_ANY t [] | ISet _ => VSet TI_SPEC_ANY [] end.

Inductive verr := E_memory | E_spec (r : ti_spec_rval) | E_closure.

Definition ti_varr_create (spec : Z) : varr := Varr spec false false [].

Definition ti_varr_may_have_things (v : varr) : bool := va_mht v.
Definition ti_varr_may_gen_ids (v : varr) : bool := va_mht v || va_mhr v.

Definition with_flags (mht mhr : bool) (v : varr) : varr := Varr (va_spec v) (va_mht v || mht) (va_mhr v || mhr) (va_vec v).
Definition with_vec (l : list item) (v : varr) : varr := Varr (va_spec v) (va_mht v) (va_mhr v) l.

(** Is the value of a member a thing? *)
Definition member_thing (v : val) : bool := match v with VMember _ _ w => ti_val_is_thing w | _ => false end.

Section Arrays.
Context (pcre_match : list Z -> list Z -> bool) (re_email re_url re_tel : list Z) (closure_unbound : Z -> bool).

(** The callbacks [to_arr_cb], by the type of the value: the flags of the list
    are set, a list or set becomes a tuple, a future or module nil. *)
Definition to_arr (mem : bool) (i : item) (to : varr) : verr + (item * varr) :=
  match i with
  | ILeaf v =>
    match v with
    | VThing _ _ _ _ | VWrap _ | VWano _ => inr (i, with_flags true false to)
    | VRoom _ => inr (i, with_flags false true to)
    | VMember _ _ w => inr (i, with_flags (ti_val_is_thing w) false to)
    | VClosure c => if closure_unbound c then inr (i, to) else inl E_closure
    | VFuture | VModule => inr (ILeaf VNil, to)
    | _ => inr (i, to)
    end
  | IArr tuple mht mhr l =>
    if negb tuple && negb mem then inl E_memory                (* ti_varr_to_tuple *)
    else inr (IArr true mht mhr l, with_flags mht mhr to)
  | ISet things =>
    if negb mem then inl E_memory                              (* ti_vset_to_tuple *)
    else
      let mht := negb (len things =? 0) in
      inr (IArr true mht false things, with_flags mht false to)
  end.

(** [None]: the check of a specification fails an assertion. *)
Definition ti_val_varr_prepare (mem : bool) (i : item) (to : varr) : option (verr + (item * varr)) :=
  b ← ti_val_is_spec pcre_match re_email re_url re_tel (as_val i) (va_spec to);
  if negb b then
    (* ti_varr_nested_spec_err *)
    r ← ti_spec_check_nested_val pcre_match re_email re_url re_tel (va_spec to) (as_val i);
    Some match r with RVAL_SUCCESS => inr (i, to) | r => inl (E_spec r) end
  else Some (to_arr mem i to).

Definition varr_op (f : list item -> item -> list item) (mem : bool) (i : item) (to : varr) : option (verr + varr) :=
  r ← ti_val_varr_prepare mem i to;
  Some match r with inl e => inl e | inr (i, to) => inr (with_vec (f (va_vec to) i) to) end.

(** [idx] is in range for its callers. *)
Definition ti_val_varr_set (mem : bool) (idx : nat) (i : item) (to : varr) : option (verr + varr) :=
  varr_op (fun l i => <[idx := i]> l) mem i to.
Definition ti_val_varr_fill (mem : bool) (i : item) (to : varr) : option (verr + varr) :=
  varr_op (fun l i => map (fun _ => i) l) mem i to.
Definition ti_val_varr_append (reserve mem : bool) (i : item) (to : varr) : option (verr + varr) :=
  if negb reserve then Some (inl E_memory) else varr_op (fun l i => l ++ [i]) mem i to.
Definition ti_val_varr_insert (reserve mem : bool) (idx : nat) (i : item) (to : varr) : option (verr + varr) :=
  if negb reserve then Some (inl E_memory) else varr_op (fun l i => take idx l ++ i :: drop idx l) mem i to.

(** The loop of [ti_varr_from_vec]. *)
Fixpoint from_vec_loop (mem : bool) (l : list item) (to : varr) : verr + (list item * varr) :=
  match l with
  | [] => inr ([], to)
  | i :: l =>
    match to_arr mem i to with
    | inl e => inl e
    | inr (i, to) => match from_vec_loop mem l to with inl e => inl e | inr (l, to) => inr (i :: l, to) end
    end
  end.
Definition ti_varr_from_vec (mem : bool) (l : list item) : verr + varr :=
  if negb mem then inl E_memory
  else match from_vec_loop mem l (ti_varr_create TI_SPEC_ANY) with inl e => inl e | inr (l, to) => inr (with_vec l to) end.
End Arrays.

(** [ti_tuple_from_vec_unsafe] and [ti_varr_from_vec_unsafe]: the flags do not look at the values. *)
Definition ti_varr_from_vec_unsafe (l : list item) : varr :=
  let f := negb (len l =? 0) in Varr TI_SPEC_ANY f f l.

(** [ti_varr_cp], and [ti_varr_to_list] when the list is shared. *)
Definition ti_varr_cp (v : varr) : varr := Varr TI_SPEC_ANY (va_mht v) (va_mhr v) (va_vec v).

(** [stop - start] divided by [step], and one more when there is a rest. *)
Definition slice_count (start stop step : Z) : Z :=
  let n := stop - start in Z.quot n step + (if Z.rem n step =? 0 then 0 else 1).

(** [VEC_get] with a signed index. *)
Definition vec_at {A} (l : list A) (n : Z) : option A := if 0 <=? n then l !! Z.to_nat n else None.

Fixpoint slice_loop {A} (l : list A) (n step : Z) (sz : nat) : option (list A) :=
  match sz with
  | O => Some []
  | S sz => x ← vec_at l n; r ← slice_loop l (n + step) step sz; Some (x :: r)
  end.

Definition ti_varr_from_slice (source : varr) (start stop step : Z) : option varr :=
  let n := slice_count start stop step in
  let sz := (if n <? 0 then 0 else n) mod 2 ^ 32 in
  l ← slice_loop (va_vec source) start step (Z.to_nat sz); Some (Varr TI_SPEC_ANY false false l).

(** [ti_str_from_slice] and [ti_bytes_from_slice]: the characters of the result. *)
Definition raw_from_slice (data : list Z) (start stop step : Z) : option (list Z) :=
  let n := slice_count start stop step in
  if n <=? 0 then Some [] else slice_loop data start step (Z.to_nat n).

(** ** The walks that use the flags *)

(** [ti_val_gen_ids]: the things and rooms that get an id when they have none. *)
Fixpoint ti_val_gen_ids (i : item) : list val :=
  match i with
  | ILeaf v =>
    match v with
    | VThing _ _ _ _ | VWrap _ | VRoom _ | VWano _ => [v]
    | _ => []
    end
  | IArr _ mht mhr l => if mht || mhr then concat (map ti_val_gen_ids l) else []
  | ISet things => map as_val things
  end.

(** [collection__gc_mark_varr] on an item: the things that are marked. *)
Fixpoint gc_mark (i : item) : list val :=
  match i with
  | ILeaf v => match v with VThing _ _ _ _ | VWrap _ => [v] | _ => [] end
  | IArr _ mht _ l => if mht then concat (map gc_mark l) else []
  | ISet _ => []
  end.
Definition collection__gc_mark_varr (l : list item) : list val := concat (map gc_mark l).

(** [collection__gc_val]: the value of a property. *)
Definition collection__gc_val (i : item) : list val :=
  match i with
  | ISet things => map as_val things
  | _ => gc_mark i
  end.
