(* ===== verification/VarrProps.v ===== *)
(** * The flags of lists

    A list has the flag may-have-things when something in it holds a thing, and
    may-have-rooms when something in it is a room; then the walks that skip lists
    without the flags visit everything. The operations keep that, except for a
    list whose items may be nil and for a slice. *)
From Stdlib Require Import ZArith Lia.
From stdpp Require Import base list option numbers.
From S2P Require Import Prelude Utf8 Opr Strx Spec Field FieldProof FieldMod Varr.

#[local] Arguments raw_is_utf8 : simpl never.
#[local] Arguments ti_regex_test_or_empty : simpl never.

(** Induction on items. *)
Fixpoint item_ind' (P : item -> Prop) (Hl : forall v, P (ILeaf v)) (Ha : forall t m r l, Forall P l -> P (IArr t m r l))
    (Hs : forall l, Forall P l -> P (ISet l)) (i : item) : P i :=
  let all := fix all (l : list item) : Forall P l :=
    match l with [] => List.Forall_nil _ | i :: l => List.Forall_cons _ _ _ (item_ind' P Hl Ha Hs i) (all l) end in
  match i with ILeaf v => Hl v | IArr t m r l => Ha t m r l (all l) | ISet l => Hs l (all l) end.

Definition leaf_thing (v : val) : bool :=
  match v with VThing _ _ _ _ | VWrap _ | VWano _ => true | _ => member_thing v end.
Definition leaf_room (v : val) : bool := match v with VRoom _ => true | _ => false end.

Fixpoint has_thing (i : item) : bool :=
  match i with ILeaf v => leaf_thing v | IArr _ _ _ l => existsb has_thing l | ISet l => negb (len l =? 0) end.
Fixpoint has_room (i : item) : bool :=
  match i with ILeaf v => leaf_room v | IArr _ _ _ l => existsb has_room l | ISet _ => false end.

(** In a list, a list or set is a tuple and a future or module is nil. *)
Definition in_arr (i : item) : bool :=
  match i with ILeaf VFuture | ILeaf VModule => false | ILeaf _ => true | IArr t _ _ _ => t | ISet _ => false end.

Definition is_thing_item (i : item) : bool := match i with ILeaf v => ti_val_is_thing v | _ => false end.

Fixpoint item_ok (i : item) : bool :=
  match i with
  | ILeaf v => negb (ti_val_is_array v || ti_val_is_set v)
  | IArr _ m r l => implb (existsb has_thing l) m && implb (existsb has_room l) r && forallb (fun j => in_arr j && item_ok j) l
  | ISet l => forallb is_thing_item l
  end.

Definition list_item (v : varr) : item := IArr false (va_mht v) (va_mhr v) (va_vec v).
Definition varr_ok (v : varr) : bool := item_ok (list_item v).

(** ** The walks, without the flags *)

Fixpoint ids_ref (i : item) : list val :=
  match i with
  | ILeaf v => match v with VThing _ _ _ _ | VWrap _ | VRoom _ | VWano _ => [v] | _ => [] end
  | IArr _ _ _ l => concat (map ids_ref l)
  | ISet things => map as_val things
  end.
Fixpoint marks_ref (i : item) : list val :=
  match i with
  | ILeaf v => match v with VThing _ _ _ _ | VWrap _ => [v] | _ => [] end
  | IArr _ _ _ l => concat (map marks_ref l)
  | ISet _ => []
  end.

Lemma concat_map_ext {A} (f g : item -> list A) l : Forall (fun i => f i = g i) l -> concat (map f l) = concat (map g l).
Proof. induction 1 as [|i l Hi Hl IH]; [done|]. cbn. by rewrite Hi, IH. Qed.

Lemma concat_map_nil {A} (f : item -> list A) l : Forall (fun i => f i = []) l -> concat (map f l) = [].
Proof. induction 1 as [|i l Hi Hl IH]; [done|]. cbn. by rewrite Hi. Qed.

Lemma no_thing_ids i : has_thing i = false -> has_room i = false -> ids_ref i = [].
Proof.
  induction i as [v|t m r l IH|l IH] using item_ind'; cbn; intros H1 H2.
  - by destruct v.
  - apply concat_map_nil, List.Forall_forall. intros j Hj. eapply List.Forall_forall in IH; [|done]. apply IH.
    + apply not_true_iff_false. intros E. assert (existsb has_thing l = true) by (apply existsb_exists; eauto). congruence.
    + apply not_true_iff_false. intros E. assert (existsb has_room l = true) by (apply existsb_exists; eauto). congruence.
  - apply negb_false_iff, Z.eqb_eq in H1. destruct l; [done|]. unfold len in H1. simpl in H1. lia.
Qed.

Lemma no_thing_marks i : has_thing i = false -> marks_ref i = [].
Proof.
  induction i as [v|t m r l IH|l IH] using item_ind'; cbn; intros H1; [by destruct v| |done].
  apply concat_map_nil, List.Forall_forall. intros j Hj. eapply List.Forall_forall in IH; [|done]. apply IH.
  apply not_true_iff_false. intros E. assert (existsb has_thing l = true) by (apply existsb_exists; eauto). congruence.
Qed.

Lemma item_ok_arr t m r l : item_ok (IArr t m r l) = true ->
  (m = false -> existsb has_thing l = false) /\ (r = false -> existsb has_room l = false) /\
  Forall (fun j => in_arr j = true /\ item_ok j = true) l.
Proof.
  cbn. intros H. apply andb_true_iff in H as [H Hl]. apply andb_true_iff in H as [Hm Hr]. split_and!.
  - intros ->. by destruct (existsb has_thing l).
  - intros ->. by destruct (existsb has_room l).
  - apply List.Forall_forall. intros j Hj. rewrite forallb_forall in Hl. by apply Hl, andb_true_iff in Hj.
Qed.

(** The walks with the flags visit the same. *)
Lemma gen_ids_exact i : item_ok i = true -> ti_val_gen_ids i = ids_ref i.
Proof.
  induction i as [v|t m r l IH|l IH] using item_ind'; [by destruct v| |done]. intros H.
  apply item_ok_arr in H as (Hm & Hr & Hl). cbn [ti_val_gen_ids ids_ref]. destruct (m || r) eqn:E.
  - apply concat_map_ext, List.Forall_forall. intros j Hj. eapply List.Forall_forall in IH; [|done].
    eapply List.Forall_forall in Hl as [_ Hl]; [|done]. auto.
  - apply orb_false_iff in E as [-> ->]. symmetry. apply (no_thing_ids (IArr t false false l)); cbn; auto.
Qed.

Lemma varr_mark_exact i : item_ok i = true -> gc_mark i = marks_ref i.
Proof.
  induction i as [v|t m r l IH|l IH] using item_ind'; [by destruct v| |done]. intros H.
  apply item_ok_arr in H as (Hm & Hr & Hl). cbn [gc_mark marks_ref]. destruct m.
  - apply concat_map_ext, List.Forall_forall. intros j Hj. eapply List.Forall_forall in IH; [|done].
    eapply List.Forall_forall in Hl as [_ Hl]; [|done]. auto.
  - symmetry. apply (no_thing_marks (IArr t false r l)). cbn. auto.
Qed.

Section Ops.
Context (pcre_match : list Z -> list Z -> bool) (re_email re_url re_tel : list Z) (closure_unbound : Z -> bool).
Local Notation nested_ok := (nested_ok pcre_match re_email re_url re_tel).
Local Notation is_spec := (ti_val_is_spec pcre_match re_email re_url re_tel).
Local Notation to_arr := (to_arr closure_unbound).
Local Notation prepare := (ti_val_varr_prepare pcre_match re_email re_url re_tel closure_unbound).

Lemma is_re_exact p v : (ti_val_is_re pcre_match p v = true -> ti_val_is_str v && ti_regex_test_or_empty pcre_match p v = true) /\
  (ti_val_is_str v && ti_regex_test_or_empty pcre_match p v = true ->
   ti_val_is_re pcre_match p v = true \/ v = VNil \/ exists n, v = VName n).
Proof. destruct v; cbn; auto. split; [done|eauto]. Qed.

(** For items that may not be nil the fast check decides the specification, but
    for nil in an enumeration and for a name as an address. *)
Lemma is_spec_exact s v : simple_spec s -> nillable s = false ->
  exists b, is_spec v s = Some b /\ (b = true -> nested_ok s v = true) /\
    (nested_ok s v = true -> b = true \/ v = VNil \/ exists n, v = VName n).
Proof.
  intros [Hs Hc] Hn. unfold ti_val_is_spec, FieldProof.nested_ok, nil_ok. rewrite Hn. cbn [andb orb]. rewrite orb_false_r.
  assert (Hu : unmask s = s) by (rewrite nillable_spec in Hn by done; apply small_unmask; unfold spec16 in Hs; lia).
  rewrite Hu in *. destruct (Z.eqb_spec s TI_SPEC_ANY) as [->|Ha]; [exists true; auto|].
  destruct Hc as [Hc|[Hc|[Hc|Hc]]]; [done|..].
  - rewrite (proj2 (Z.leb_gt _ _)), (proj2 (Z.ltb_ge _ _)), spec_enum_type by slia. unfold id_ok.
    rewrite (proj2 (Z.leb_gt _ _)) by slia. eexists. split; [done|auto].
  - rewrite (proj2 (Z.leb_gt _ _)), (proj2 (Z.ltb_lt _ _)) by slia.
    destruct (spec_enum_simple s) as (e & He & _); [lia|]. rewrite He. apply spec_of_enum_of in He.
    destruct e; cbn in He; try (exfalso; slia); subst s; eexists; (split; [reflexivity|]); cbn [const_ok];
      try (split; [done|by left]); try (by destruct v; split; auto).
    all: apply is_re_exact.
  - rewrite (proj2 (Z.leb_le _ _)), spec_enum_enum by done. unfold id_ok. rewrite (proj2 (Z.leb_le _ _)) by done.
    eexists. split; [done|auto].
Qed.

(** A list that gets flags for a new item. *)
Definition flagged (i : item) (to to' : varr) : Prop :=
  va_spec to' = va_spec to /\ va_vec to' = va_vec to /\
  (has_thing i = true -> va_mht to' = true) /\ (has_room i = true -> va_mhr to' = true) /\
  (va_mht to = true -> va_mht to' = true) /\ (va_mhr to = true -> va_mhr to' = true).

Lemma flagged_with i to m r : (has_thing i = true -> m = true) -> (has_room i = true -> r = true) ->
  flagged i to (with_flags m r to).
Proof.
  intros Hm Hr. split_and!; cbn; [done..| | | |]; intros H.
  - by rewrite (Hm H), orb_true_r.
  - by rewrite (Hr H), orb_true_r.
  - by rewrite H.
  - by rewrite H.
Qed.

Lemma flagged_same i to : has_thing i = false -> has_room i = false -> flagged i to to.
Proof. intros H1 H2. split_and!; congruence. Qed.

Lemma thing_item_no_room l : forallb is_thing_item l = true -> existsb has_room l = false.
Proof.
  intros H. apply not_true_iff_false. intros E. apply existsb_exists in E as (i & Hi & E). rewrite forallb_forall in H.
  specialize (H i Hi). destruct i as [v| |]; try done. by destruct v.
Qed.

Lemma thing_items_ok l : forallb is_thing_item l = true -> forallb (fun j => in_arr j && item_ok j) l = true.
Proof. rewrite !forallb_forall. intros H i Hi. specialize (H i Hi). destruct i as [v| |]; try done. by destruct v. Qed.

Lemma to_arr_ok mem i to i' to' : item_ok i = true -> to_arr mem i to = inr (i', to') ->
  item_ok i' = true /\ in_arr i' = true /\ flagged i' to to'.
Proof.
  intros Hi H. destruct i as [v|t m r l|l]; cbn [Varr.to_arr] in H.
  - destruct v; cbn in Hi; try discriminate Hi;
      try (injection H as <- <-; split_and!; [done..|]; first [by apply flagged_same | by apply flagged_with]).
    destruct (closure_unbound c); [|done]. injection H as <- <-. split_and!; [done..|]. by apply flagged_same.
  - destruct (negb t && negb mem); [done|]. injection H as <- <-. pose proof (item_ok_arr _ _ _ _ Hi) as (Hm & Hr & _).
    split_and!; [done..|]. apply flagged_with; cbn; intros E.
    + destruct m; [done|]. rewrite Hm in E; done.
    + destruct r; [done|]. rewrite Hr in E; done.
  - destruct (negb mem); [done|]. injection H as <- <-. cbn [item_ok] in Hi.
    assert (Hr : existsb has_room l = false) by by apply thing_item_no_room.
    split_and!; [|done|].
    + cbn [item_ok]. rewrite Hr, thing_items_ok by done. rewrite !andb_true_r. destruct l; [done|]. cbn. by rewrite implb_true_r.
    + apply flagged_with; cbn; intros E; [|congruence]. by destruct l.
Qed.

Lemma prepare_ok mem i to i' to' : item_ok i = true -> simple_spec (va_spec to) -> nillable (va_spec to) = false ->
  prepare mem i to = Some (inr (i', to')) -> item_ok i' = true /\ in_arr i' = true /\ flagged i' to to'.
Proof.
  intros Hi Hs Hn H. unfold ti_val_varr_prepare in H. destruct (is_spec_exact (va_spec to) (as_val i) Hs Hn) as (b & Hb & _ & Hc).
  rewrite Hb in H. cbn [mbind option_bind] in H. destruct b; cbn [negb] in H.
  - injection H as H. by eapply to_arr_ok.
  - destruct (check_nested_ok pcre_match re_email re_url re_tel (va_spec to) (as_val i) Hs) as (r & Hr & Hok).
    rewrite Hr in H. cbn [mbind option_bind] in H. destruct r; try discriminate H. injection H as <- <-.
    destruct (Hc (eq_sym Hok)) as [E|[E|[n E]]]; [done| |].
    + destruct i as [v| |]; cbn in E; try discriminate E. subst v. split_and!; [done..|by apply flagged_same].
    + destruct i as [v| |]; cbn in E; try discriminate E. subst v. split_and!; [done..|by apply flagged_same].
Qed.

(** ** The operations keep the flags *)

Lemma varr_ok_iff v : varr_ok v = true <->
  (existsb has_thing (va_vec v) = true -> va_mht v = true) /\ (existsb has_room (va_vec v) = true -> va_mhr v = true) /\
  Forall (fun j => in_arr j = true /\ item_ok j = true) (va_vec v).
Proof.
  unfold varr_ok, list_item. split.
  - intros H. apply item_ok_arr in H as (Hm & Hr & Hl). split_and!; [intros E|intros E|done].
    + destruct (va_mht v); [done|]. by rewrite Hm in E.
    + destruct (va_mhr v); [done|]. by rewrite Hr in E.
  - intros (Hm & Hr & Hl). cbn [item_ok]. apply andb_true_iff. split; [apply andb_true_iff; split|].
    + destruct (existsb has_thing _); [by rewrite Hm|done].
    + destruct (existsb has_room _); [by rewrite Hr|done].
    + apply forallb_forall. intros j Hj. eapply List.Forall_forall in Hl; [|done]. by apply andb_true_iff.
Qed.

(** A change of the list that adds nothing but the new item. *)
Lemma varr_op_ok f mem i to to' : item_ok i = true -> simple_spec (va_spec to) -> nillable (va_spec to) = false ->
  (forall l j x, List.In x (f l j) -> List.In x l \/ x = j) ->
  varr_ok to = true -> varr_op pcre_match re_email re_url re_tel closure_unbound f mem i to = Some (inr to') -> varr_ok to' = true.
Proof.
  intros Hi Hs Hn Hf Hok H. unfold varr_op in H. apply bind_Some in H as (r & Hr & H).
  destruct r as [e|[i' to1]]; [done|]. injection H as <-.
  destruct (prepare_ok mem i to i' to1 Hi Hs Hn Hr) as (Hi' & Hin & _ & Hv & Hm & Hrm & Hm' & Hrm').
  apply varr_ok_iff in Hok as (O1 & O2 & O3). apply varr_ok_iff. cbn [with_vec va_vec va_mht va_mhr]. rewrite Hv. split_and!.
  - intros E. apply existsb_exists in E as (x & Hx & E). destruct (Hf _ _ _ Hx) as [Hx'| ->]; [|auto].
    apply Hm', O1, existsb_exists. eauto.
  - intros E. apply existsb_exists in E as (x & Hx & E). destruct (Hf _ _ _ Hx) as [Hx'| ->]; [|auto].
    apply Hrm', O2, existsb_exists. eauto.
  - apply List.Forall_forall. intros x Hx. destruct (Hf _ _ _ Hx) as [Hx'| ->]; [|done].
    by eapply List.Forall_forall in O3.
Qed.

(** The operations on a list; one that fails leaves the list as it was. *)
Inductive arr_op :=
  | OAppend (reserve mem : bool) (i : item)
  | OInsert (reserve mem : bool) (idx : nat) (i : item)
  | OSet (mem : bool) (idx : nat) (i : item)
  | OFill (mem : bool) (i : item).

Definition op_item (o : arr_op) : item := match o with OAppend _ _ i | OInsert _ _ _ i | OSet _ _ i | OFill _ i => i end.

Definition arr_apply (o : arr_op) (v : varr) : option (verr + varr) :=
  match o with
  | OAppend r m i => ti_val_varr_append pcre_match re_email re_url re_tel closure_unbound r m i v
  | OInsert r m idx i => ti_val_varr_insert pcre_match re_email re_url re_tel closure_unbound r m idx i v
  | OSet m idx i => ti_val_varr_set pcre_match re_email re_url re_tel closure_unbound m idx i v
  | OFill m i => ti_val_varr_fill pcre_match re_email re_url re_tel closure_unbound m i v
  end.

Fixpoint arr_run (ops : list arr_op) (v : varr) : option varr :=
  match ops with
  | [] => Some v
  | o :: ops => r ← arr_apply o v; arr_run ops (match r with inl _ => v | inr v => v end)
  end.

Lemma prepare_total mem i to : simple_spec (va_spec to) -> nillable (va_spec to) = false -> exists r, prepare mem i to = Some r.
Proof.
  intros Hs Hn. unfold ti_val_varr_prepare. destruct (is_spec_exact (va_spec to) (as_val i) Hs Hn) as (b & -> & _).
  cbn [mbind option_bind]. destruct b; [by eexists|]. cbn [negb].
  destruct (check_nested_ok pcre_match re_email re_url re_tel (va_spec to) (as_val i) Hs) as (r & -> & _). by eexists.
Qed.

Lemma varr_op_total f mem i to : simple_spec (va_spec to) -> nillable (va_spec to) = false ->
  exists r, varr_op pcre_match re_email re_url re_tel closure_unbound f mem i to = Some r.
Proof. intros Hs Hn. unfold varr_op. destruct (prepare_total mem i to Hs Hn) as (r & ->). by eexists. Qed.

Lemma prepare_spec mem i to i' to' : prepare mem i to = Some (inr (i', to')) -> va_spec to' = va_spec to.
Proof.
  unfold ti_val_varr_prepare. intros H. apply bind_Some in H as (b & _ & H). destruct b; cbn [negb] in H.
  - injection H as H. destruct i as [v|t m r l|l]; cbn [Varr.to_arr] in H.
    + destruct v; try (injection H as <- <-; done). by destruct (closure_unbound c); [injection H as <- <-|].
    + destruct (_ && _); [done|]. by injection H as <- <-.
    + destruct (negb mem); [done|]. by injection H as <- <-.
  - apply bind_Some in H as (r & _ & H). destruct r; try discriminate H. by injection H as <- <-.
Qed.

Lemma varr_op_spec f mem i to to' : varr_op pcre_match re_email re_url re_tel closure_unbound f mem i to = Some (inr to') ->
  va_spec to' = va_spec to.
Proof.
  unfold varr_op. intros H. apply bind_Some in H as ([e|[i' t]] & Hr & H); [done|]. injection H as <-. exact (prepare_spec _ _ _ _ _ Hr).
Qed.

Lemma arr_apply_ok o v : simple_spec (va_spec v) -> nillable (va_spec v) = false -> item_ok (op_item o) = true -> varr_ok v = true ->
  exists r, arr_apply o v = Some r /\ match r with inl _ => True | inr v' => va_spec v' = va_spec v /\ varr_ok v' = true end.
Proof.
  intros Hs Hn Hi Hv.
  assert (Hop : forall f mem, (forall l j x, List.In x (f l j) -> List.In x l \/ x = j) ->
    exists r, varr_op pcre_match re_email re_url re_tel closure_unbound f mem (op_item o) v = Some r /\
      match r with inl _ => True | inr v' => va_spec v' = va_spec v /\ varr_ok v' = true end).
  { intros f mem Hf. destruct (varr_op_total f mem (op_item o) v Hs Hn) as (r & Hr). exists r. split; [done|].
    destruct r as [e|v']; [done|]. split; [exact (varr_op_spec _ _ _ _ _ Hr)|exact (varr_op_ok _ _ _ _ _ Hi Hs Hn Hf Hv Hr)]. }
  destruct o as [re m i|re m idx i|m idx i|m i]; cbn [arr_apply op_item] in *.
  - unfold ti_val_varr_append. destruct re; cbn [negb]; [|by eexists]. apply Hop.
    intros l j x Hx. apply in_app_or in Hx as [|[]]; auto. done.
  - unfold ti_val_varr_insert. destruct re; cbn [negb]; [|by eexists]. apply Hop.
    intros l j x Hx. apply in_app_or in Hx as [Hx|[Hx|Hx]]; auto; left; rewrite <- (take_drop idx l); apply in_or_app; auto.
  - apply Hop. intros l j x Hx. apply list_elem_of_In, list_elem_of_lookup_1 in Hx as (k & Hk).
    apply list_lookup_insert_Some in Hk as [(_ & -> & _)|(_ & Hk)]; [by right|]. left. apply list_elem_of_In. by eapply list_elem_of_lookup_2.
  - apply Hop. intros l j x Hx. apply in_map_iff in Hx as (y & <- & _). by right.
Qed.

Lemma arr_run_ok ops v : simple_spec (va_spec v) -> nillable (va_spec v) = false ->
  Forall (fun o => item_ok (op_item o) = true) ops -> varr_ok v = true ->
  exists v', arr_run ops v = Some v' /\ varr_ok v' = true.
Proof.
  intros Hs Hn Hops. revert v Hs Hn. induction Hops as [|o ops Ho Hops IH]; intros v Hs Hn Hv; [by exists v|].
  cbn [arr_run]. destruct (arr_apply_ok o v Hs Hn Ho Hv) as (r & -> & Hr). cbn [mbind option_bind].
  destruct r as [e|v']; [by apply IH|]. destruct Hr as [Hs' Hv']. apply IH; [by rewrite Hs'|by rewrite Hs'|done].
Qed.
End Ops.

Lemma lor_nillable s : 0 <= s < 32768 -> Z.lor s TI_SPEC_NILLABLE = s + 32768.
Proof.
  intros Hs. assert (Z.land s TI_SPEC_NILLABLE = 0) as E.
  { pose proof (nillable_spec s) as H. unfold nillable in H. rewrite (proj2 (Z.leb_gt _ _)) in H by lia.
    apply Z.eqb_eq, negb_false_iff, H. unfold spec16. lia. }
  by rewrite <- Z.lxor_lor, <- Z.add_nocarry_lxor.
Qed.

(** ** Properties *)



(** A list in a field whose items may be nil accepts a thing of the right type
    without the flag: [ti_val_is_spec] takes the bit for nil as part of an
    enumeration, refuses the thing, and the second check that reports the error
    finds none, so the thing is added and [to_arr_cb] is left out. The thing gets
    no id and the garbage collector does not mark it. *)
Theorem nillable_list_hides_things (pcre_match : list Z -> list Z -> bool) (re_email re_url re_tel : list Z)
    (closure_unbound : Z -> bool) (mem dict : bool) (type_id via : Z) (items : list val) :
  0 <= type_id < TI_SPEC_ANY ->
  exists v, ti_val_varr_append pcre_match re_email re_url re_tel closure_unbound true mem
      (ILeaf (VThing type_id via dict items)) (ti_varr_create (Z.lor type_id TI_SPEC_NILLABLE)) = Some (inr v) /\
    va_vec v = [ILeaf (VThing type_id via dict items)] /\
    ids_ref (list_item v) = [VThing type_id via dict items] /\ ti_val_gen_ids (list_item v) = [] /\ collection__gc_val (list_item v) = [].
Proof.
  intros Ht. assert (Hs : Z.lor type_id TI_SPEC_NILLABLE = type_id + 32768) by (apply lor_nillable; slia).
  assert (Hsp : spec16 (type_id + 32768)) by (unfold spec16; slia).
  assert (Hn : nillable (type_id + 32768) = true) by (rewrite nillable_spec by done; lia).
  assert (Hu : unmask (type_id + 32768) = type_id) by (rewrite unmask_mod; symmetry; apply (Z.mod_unique_pos _ _ 1); slia).
  rewrite Hs. exists (Varr (type_id + 32768) false false [ILeaf (VThing type_id via dict items)]). split_and!; [|done..].
  unfold ti_val_varr_append, varr_op, ti_val_varr_prepare, ti_val_is_spec, ti_spec_check_nested_val, ti__spec_check_nested_val.
  cbn [negb ti_varr_create va_spec as_val ti_val_is_nil]. rewrite andb_false_r, orb_false_r, Hu.
  rewrite (proj2 (Z.eqb_neq (type_id + 32768) TI_SPEC_ANY)), (proj2 (Z.leb_le TI_ENUM_ID_FLAG (type_id + 32768))) by slia.
  cbn [mbind option_bind ti_spec_enum_eq_to_val negb]. rewrite spec_enum_type by slia.
  rewrite (proj2 (Z.leb_gt TI_ENUM_ID_FLAG type_id)), (proj2 (Z.ltb_lt type_id TI_SPEC_ANY)) by slia.
  cbn. by rewrite Z.eqb_refl.
Qed.

Lemma nillable_list_hides_things_witness : exists v,
  ti_val_varr_append (fun _ _ => true) [] [] [] (fun _ => true) true true
      (ILeaf (VThing 3 TI_SPEC_ANY false [])) (ti_varr_create (Z.lor 3 TI_SPEC_NILLABLE)) = Some (inr v) /\
    va_vec v = [ILeaf (VThing 3 TI_SPEC_ANY false [])] /\
    ids_ref (list_item v) = [VThing 3 TI_SPEC_ANY false []] /\ ti_val_gen_ids (list_item v) = [] /\ collection__gc_val (list_item v) = [].
Proof. apply nillable_list_hides_things. by vm_compute. Defined.
