(* ===== verification/Index.v ===== *)
(** * ti/index: indices and slices

    Reading and writing lists, strings and bytes by an index or a slice,
    [src/src/ti/index.c]. The value of a statement between the brackets is an
    argument: absent, a value, or an error of its own. A read outside a list and a
    copy between overlapping ranges are undefined ([None]). *)
From Stdlib Require Import ZArith Lia.
From stdpp Require Import base list option numbers.
From S2P Require Import Prelude Utf8 Opr Strx Spec Field Varr.

Inductive arg := ANone | AVal (v : val) | AFail.

Inductive ierr := I_statement | I_slice_type | I_step_zero | I_index_type | I_range | I_memory | I_operand | I_step | I_array_type
  | I_arr (e : verr) | I_opr.

(** The index of a slice, if it is an integer. *)
Definition slice_index (a : arg) : ierr + option Z :=
  match a with
  | ANone | AVal VNil => inr None
  | AVal (VInt i) => inr (Some i)
  | AVal _ => inl I_slice_type
  | AFail => inl I_statement
  end.

(** [index__read_slice_indices] with [start = 0], [stop = n] and [step = 1]. *)
Definition index__read_slice_indices (n : Z) (a b c : arg) : ierr + (Z * Z * Z) :=
  if n =? 0 then inr (0, n, 1)
  else
    match slice_index a with
    | inl e => inl e
    | inr start_ =>
      let start :=
        match start_ with
        | Some i => if 0 <? i then (if n <? i then n else i) else if (i <? 0) && (0 <? n + i) then n + i else 0
        | None => 0
        end in
      match slice_index b with
      | inl e => inl e
      | inr stop_ =>
        let stop :=
          match stop_ with
          | Some i => if i <? n then (if i <? 0 then (if n + i <? 0 then 0 else n + i) else i) else n
          | None => n
          end in
        match slice_index c with
        | inl e => inl e
        | inr None => inr (start, stop, 1)
        | inr (Some i) =>
          if i =? 0 then inl I_step_zero
          else if i <? 0 then
            inr (match start_ with Some _ => start | None => n - 1 end, match stop_ with Some _ => stop | None => -1 end, i)
          else inr (start, stop, i)
        end
      end
    end.

Definition index__slice_arr (source : varr) (a b c : arg) : option (ierr + varr) :=
  match index__read_slice_indices (len (va_vec source)) a b c with
  | inl e => Some (inl e)
  | inr (start, stop, step) => v ← ti_varr_from_slice source start stop step; Some (inr v)
  end.

(** [index__slice_str] and [index__slice_bin]: the characters of the result. *)
Definition index__slice_raw (data : list Z) (a b c : arg) : option (ierr + list Z) :=
  match index__read_slice_indices (len data) a b c with
  | inl e => Some (inl e)
  | inr (start, stop, step) => r ← raw_from_slice data start stop step; Some (inr r)
  end.

Definition index__numeric (n : Z) (a : arg) : ierr + Z :=
  match a with
  | AVal (VInt i) => let i := if i <? 0 then i + n else i in if (i <? 0) || (n <=? i) then inl I_range else inr i
  | AVal _ => inl I_index_type
  | ANone | AFail => inl I_statement
  end.

Definition index__index_arr (source : varr) (a : arg) : option (ierr + item) :=
  match index__numeric (len (va_vec source)) a with
  | inl e => Some (inl e)
  | inr i => x ← vec_at (va_vec source) i; Some (inr x)
  end.

Definition index__index_raw (data : list Z) (a : arg) : option (ierr + Z) :=
  match index__numeric (len data) a with
  | inl e => Some (inl e)
  | inr i => x ← vec_at data i; Some (inr x)
  end.

(** ** Assignment to a slice *)

(** Cells of [vec->data]; a write outside is undefined. *)
Definition cells := list (option item).

Definition write_cells (buf : cells) (dst : Z) (src : cells) : option cells :=
  if (0 <=? dst) && (dst + len src <=? len buf)
  then Some (take (Z.to_nat dst) buf ++ src ++ drop (Z.to_nat dst + length src) buf) else None.

Definition read_cells (buf : cells) (src n : Z) : option cells :=
  if (0 <=? src) && (0 <=? n) && (src + n <=? len buf) then Some (take (Z.to_nat n) (drop (Z.to_nat src) buf)) else None.

Definition memmove (buf : cells) (dst src n : Z) : option cells := s ← read_cells buf src n; write_cells buf dst s.

(** Copying [n] cells from the start of the same buffer. *)
Definition memcpy_self (buf : cells) (dst n : Z) : option cells :=
  if (dst <? n) && (0 <? n) then None else s ← read_cells buf 0 n; write_cells buf dst s.

(** What is assigned: the same list, or another one. *)
Inductive assigned_arr := ASame | AOther (evarr : list item) | ANoArr.

Definition index__slice_ass (resize : bool) (ass_len : Z) (varr : varr) (a b c : arg) (e : ierr + assigned_arr)
    : option (ierr + cells) :=
  if ass_len =? 2 then Some (inl I_operand)
  else
    let current_n := len (va_vec varr) in
    match index__read_slice_indices current_n a b c with
    | inl e => Some (inl e)
    | inr (start, stop, step) =>
      if negb (step =? 1) then Some (inl I_step)
      else
        match e with
        | inl e => Some (inl e)
        | inr ANoArr => Some (inl I_array_type)
        | inr e =>
          let c := if start <? stop then stop - start else 0 in
          let n := match e with AOther l => len l | _ => current_n end in
          let new_n := (current_n + n - c) mod 2 ^ 32 in
          if (current_n <? new_n) && negb resize then Some (inl I_memory)
          else
            let buf := map Some (va_vec varr) ++ replicate (Z.to_nat (new_n - current_n)) None in
            buf ← memmove buf (start + n) (start + c) (current_n - start - c);
            buf ← match e with AOther l => write_cells buf start (map Some l) | _ => memcpy_self buf start n end;
            Some (inr (take (Z.to_nat new_n) buf))
        end
    end.

Section Assign.
Context (pcre_match : list Z -> list Z -> bool) (re_email re_url re_tel : list Z) (closure_unbound : Z -> bool).
(** [ti_opr_a_to_b]: the operator of a compound assignment. *)
Context (opr : item -> item -> option item).

Definition index__array_ass (mem : bool) (ass_len : Z) (varr : varr) (a : arg) (e : ierr + item) : option (ierr + Varr.varr) :=
  match index__numeric (len (va_vec varr)) a with
  | inl e => Some (inl e)
  | inr i =>
    match e with
    | inl e => Some (inl e)
    | inr b =>
      if ass_len =? 2 then
        x ← vec_at (va_vec varr) i;
        Some (match opr x b with None => inl I_opr | Some r => inr (with_vec (<[Z.to_nat i := r]> (va_vec varr)) varr) end)
      else
        r ← ti_val_varr_set pcre_match re_email re_url re_tel closure_unbound mem (Z.to_nat i) b varr;
        Some (match r with inl e => inl (I_arr e) | inr v => inr v end)
    end
  end.
End Assign.
