(* ===== verification/IndexProps.v ===== *)
(** * What a slice reads and writes

    The tests of the program take the slices of Python as the reference: the
    elements at [start], [start + step], ... up to and without [stop]. *)
From Stdlib Require Import ZArith Lia.
From stdpp Require Import base list option numbers.
From S2P Require Import Prelude Utf8 Opr Strx Spec Field FieldProof FieldMod Varr VarrProps Index.

(** ** The reference *)

Inductive sliced {A} (l : list A) (stop step : Z) : Z -> list A -> Prop :=
  | sliced_end i : (0 < step -> stop <= i) -> (step < 0 -> i <= stop) -> sliced l stop step i []
  | sliced_next i x r : (0 < step -> i < stop) -> (step < 0 -> stop < i) -> vec_at l i = Some x ->
      sliced l stop step (i + step) r -> sliced l stop step i (x :: r).

Lemma vec_at_some {A} (l : list A) i : 0 <= i < len l -> exists x, vec_at l i = Some x.
Proof.
  intros Hi. unfold vec_at. rewrite (proj2 (Z.leb_le _ _)) by lia. apply lookup_lt_is_Some_2. unfold len in Hi. lia.
Qed.

Lemma vec_at_none {A} (l : list A) i : i < 0 \/ len l <= i -> vec_at l i = None.
Proof.
  intros Hi. unfold vec_at. destruct (Z.leb_spec 0 i); [|done]. apply lookup_ge_None_2. unfold len in Hi. lia.
Qed.

(** The number of elements: [count] steps reach [stop] and no fewer do. *)
Lemma slice_loop_sliced {A} (l : list A) stop step k i : step <> 0 ->
  (0 < step -> (Z.of_nat k - 1) * step < stop - i <= Z.of_nat k * step /\ 0 <= i /\ stop <= len l) ->
  (step < 0 -> (Z.of_nat k - 1) * - step < i - stop <= Z.of_nat k * - step /\ i < len l /\ -1 <= stop) ->
  exists r, slice_loop l i step k = Some r /\ sliced l stop step i r.
Proof.
  intros H0. revert i. induction k as [|k IH]; intros i Hp Hn.
  - exists []. split; [done|]. constructor; intros H; [specialize (Hp H)|specialize (Hn H)]; lia.
  - cbn [slice_loop]. rewrite Nat2Z.inj_succ in Hp, Hn.
    assert (0 < step \/ step < 0) as [H|H] by lia.
    + clear Hn. specialize (Hp H). destruct Hp as ([Hp1 Hp2] & Hp3 & Hp4).
      assert (0 <= Z.of_nat k * step) by (apply Z.mul_nonneg_nonneg; lia).
      destruct (vec_at_some l i) as (x & Hx); [lia|]. rewrite Hx.
      destruct (IH (i + step)) as (r & Hr & Hs); [lia|lia|]. exists (x :: r). cbn. rewrite Hr. split; [done|].
      apply sliced_next; [lia|lia|done|done].
    + clear Hp. specialize (Hn H). destruct Hn as ([Hn1 Hn2] & Hn3 & Hn4).
      assert (0 <= Z.of_nat k * - step) by (apply Z.mul_nonneg_nonneg; lia).
      destruct (vec_at_some l i) as (x & Hx); [lia|]. rewrite Hx.
      destruct (IH (i + step)) as (r & Hr & Hs); [lia|lia|]. exists (x :: r). cbn. rewrite Hr. split; [done|].
      apply sliced_next; [lia|lia|done|done].
Qed.

(** ** The count of the code *)

Lemma count_pos d s : 0 < s -> 0 <= d ->
  let k := Z.quot d s + (if Z.rem d s =? 0 then 0 else 1) in (k - 1) * s < d <= k * s /\ 0 <= k <= d.
Proof.
  intros Hs Hd. rewrite Z.quot_div_nonneg, Z.rem_mod_nonneg by lia. cbv zeta.
  pose proof (Z.div_mod d s ltac:(lia)) as E. pose proof (Z.mod_pos_bound d s Hs) as B.
  pose proof (Z.div_pos d s Hd Hs). destruct (Z.eqb_spec (d mod s) 0) as [E0|E0]; nia.
Qed.

Lemma count_neg d s : 0 < s -> d < 0 ->
  let k := Z.quot d s + (if Z.rem d s =? 0 then 0 else 1) in k = 1 /\ - d < s \/ k <= 0 /\ s <= - d.
Proof.
  intros Hs Hd. replace d with (- - d) by lia. rewrite Z.quot_opp_l, Z.rem_opp_l by lia.
  rewrite Z.quot_div_nonneg, Z.rem_mod_nonneg by lia. cbv zeta. set (e := - d). assert (0 < e) by (unfold e; lia).
  pose proof (Z.div_mod e s ltac:(lia)) as E. pose proof (Z.mod_pos_bound e s Hs) as B.
  rewrite Z.opp_involutive. destruct (Z.lt_ge_cases e s) as [Hlt|Hge].
  - left. rewrite Z.div_small, Z.mod_small by lia. destruct (Z.eqb_spec (- e) 0); lia.
  - right. assert (1 <= e / s) by (apply Z.div_le_lower_bound; lia). destruct (_ =? 0); lia.
Qed.

Lemma slice_count_opp start stop step : step < 0 -> slice_count start stop step = slice_count stop start (- step).
Proof.
  intros H. unfold slice_count. cbv zeta. replace (stop - start) with (- (start - stop)) by lia.
  replace step with (- - step) at 1 2 by lia. rewrite Z.quot_opp_opp, Z.rem_opp_opp by lia.
  f_equal. generalize (Z.rem (start - stop) (- step)) as r. intros r. destruct (Z.eqb_spec r 0), (Z.eqb_spec (- r) 0); done || lia.
Qed.

(** What the count is: right, one too many, or none. *)
Lemma slice_count_cases start stop step : step <> 0 ->
  (if 0 <? step then start <= stop else stop <= start) /\
    (if 0 <? step then (slice_count start stop step - 1) * step < stop - start <= slice_count start stop step * step
     else (slice_count start stop step - 1) * - step < start - stop <= slice_count start stop step * - step) /\
    0 <= slice_count start stop step <= Z.abs (stop - start)
  \/ (if 0 <? step then stop < start else start < stop) /\
    (slice_count start stop step = 1 /\ Z.abs (stop - start) < Z.abs step \/
     slice_count start stop step <= 0 /\ Z.abs step <= Z.abs (stop - start)).
Proof.
  intros H0. destruct (Z.ltb_spec 0 step) as [H|H].
  - destruct (Z.le_gt_cases start stop) as [Hle|Hgt].
    + left. pose proof (count_pos (stop - start) step H ltac:(lia)) as C. fold (slice_count start stop step) in C.
      cbv zeta in C. lia.
    + right. pose proof (count_neg (stop - start) step H ltac:(lia)) as C. fold (slice_count start stop step) in C.
      cbv zeta in C. lia.
  - rewrite slice_count_opp by lia. destruct (Z.le_gt_cases stop start) as [Hle|Hgt].
    + left. pose proof (count_pos (start - stop) (- step) ltac:(lia) ltac:(lia)) as C.
      fold (slice_count stop start (- step)) in C. cbv zeta in C. lia.
    + right. pose proof (count_neg (start - stop) (- step) ltac:(lia) ltac:(lia)) as C.
      fold (slice_count stop start (- step)) in C. cbv zeta in C. lia.
Qed.

(** ** The slice of a list *)

(** What [index__read_slice_indices] gives. *)
Definition indices_ok (n start stop step : Z) : Prop :=
  0 <= start <= n /\ -1 <= stop <= n /\ step <> 0 /\ (stop = -1 -> step < 0).

Lemma read_indices_ok n a b c start stop step : 0 <= n ->
  index__read_slice_indices n a b c = inr (start, stop, step) -> indices_ok n start stop step.
Proof.
  intros Hn H. unfold index__read_slice_indices in H. destruct (Z.eqb_spec n 0) as [->|Hn0].
  { injection H as <- <- <-. unfold indices_ok. lia. }
  destruct (slice_index a) as [e|sa]; [done|]. destruct (slice_index b) as [e|sb]; [done|]. cbv zeta in H.
  assert (Hs : 0 <= match sa with Some i => if 0 <? i then (if n <? i then n else i) else if (i <? 0) && (0 <? n + i) then n + i else 0
    | None => 0 end <= n).
  { destruct sa as [i|]; [|lia]. repeat case_match; lia. }
  assert (Ht : 0 <= match sb with Some i => if i <? n then (if i <? 0 then (if n + i <? 0 then 0 else n + i) else i) else n
    | None => n end <= n).
  { destruct sb as [i|]; [|lia]. repeat case_match; lia. }
  destruct (slice_index c) as [e|sc]; [done|]. destruct sc as [i|].
  - destruct (Z.eqb_spec i 0); [done|]. destruct (Z.ltb_spec i 0); injection H as <- <- <-; unfold indices_ok; (split; [|split; [|split]]);
      destruct sa, sb; lia.
  - injection H as <- <- <-. unfold indices_ok. lia.
Qed.

(** The reads that leave the list. *)
Definition reads_outside (n start stop step : Z) : Prop := start = n /\ stop < n /\ (step < 0 \/ n - stop < step).

(** One element where there should be none. *)
Definition stray (start stop step : Z) : Prop :=
  (0 < step /\ stop < start \/ step < 0 /\ start < stop) /\ Z.abs (stop - start) < Z.abs step.

Lemma slice_loop_one {A} (l : list A) i step : slice_loop l i step 1 = (x ← vec_at l i; Some [x]).
Proof. cbn. by destruct (vec_at l i). Qed.

Lemma slice_loop_outside {A} (l : list A) i step k : len l <= i -> (0 < k)%nat -> slice_loop l i step k = None.
Proof. intros Hi Hk. destruct k; [lia|]. cbn. by rewrite vec_at_none by auto. Qed.

Definition slice_size (start stop step : Z) : Z :=
  let n := slice_count start stop step in (if n <? 0 then 0 else n) mod 2 ^ 32.

Lemma slice_size_eq n start stop step : indices_ok n start stop step -> n < 2 ^ 32 - 1 ->
  slice_size start stop step = Z.max 0 (slice_count start stop step).
Proof.
  intros (H1 & H2 & H3 & _) Hn. unfold slice_size. cbv zeta. pose proof (slice_count_cases start stop step H3) as C.
  assert (slice_count start stop step <= n + 1) by lia. destruct (Z.ltb_spec (slice_count start stop step) 0).
  - rewrite Z.mod_0_l; lia.
  - rewrite Z.mod_small; lia.
Qed.

Lemma slice_loop_cases {A} (l : list A) start stop step : indices_ok (len l) start stop step -> len l < 2 ^ 32 - 1 ->
  reads_outside (len l) start stop step /\ slice_loop l start step (Z.to_nat (slice_size start stop step)) = None \/
  ~ reads_outside (len l) start stop step /\
    exists r, slice_loop l start step (Z.to_nat (slice_size start stop step)) = Some r /\
      (stray start stop step -> exists x, vec_at l start = Some x /\ r = [x]) /\ (~ stray start stop step -> sliced l stop step start r).
Proof.
  intros Hok Hn. rewrite (slice_size_eq (len l)) by done. destruct Hok as (H1 & H2 & H3 & H4).
  pose proof (slice_count_cases start stop step H3) as C. unfold reads_outside, stray.
  set (k := slice_count start stop step) in *. destruct C as [(Hd & Hk & Hk')|(Hd & Hk)].
  - rewrite Z.max_r by lia. destruct (decide (step < 0 /\ start = len l /\ stop < len l)) as [(E1 & E2 & E3)|E].
    + left. split; [lia|]. apply slice_loop_outside; [lia|]. rewrite (proj2 (Z.ltb_ge _ _)) in Hk by lia.
      destruct (Z.eq_dec k 0) as [E|]; [rewrite E in Hk; lia|lia].
    + right. split; [intros H; destruct (Z.ltb_spec 0 step); lia|].
      destruct (decide (k = 0)) as [E0|E0].
      { exists []. rewrite E0. split; [done|]. split; [intros; exfalso; destruct (Z.ltb_spec 0 step); lia|].
        intros _. rewrite E0 in Hk. constructor; destruct (Z.ltb_spec 0 step); lia. }
      destruct (slice_loop_sliced l stop step (Z.to_nat k) start) as (r & Hr & Hs); [done|..].
      * intros Hp. rewrite (proj2 (Z.ltb_lt _ _)) in Hk by done. rewrite Z2Nat.id by lia. lia.
      * intros Hp. rewrite (proj2 (Z.ltb_ge _ _)) in Hk, Hd by lia. rewrite Z2Nat.id by lia.
        assert (start <> stop) by (intros ->; nia). lia.
      * exists r. split; [done|]. split; [intros; exfalso; destruct (Z.ltb_spec 0 step); lia|done].
  - destruct Hk as [[Hk Hlt]|[Hk Hge]].
    + rewrite Hk. change (Z.to_nat (Z.max 0 1)) with 1%nat. rewrite slice_loop_one.
      destruct (decide (start = len l)) as [E|E].
      * left. split; [destruct (Z.ltb_spec 0 step); lia|]. by rewrite vec_at_none by lia.
      * right. split; [destruct (Z.ltb_spec 0 step); lia|]. destruct (vec_at_some l start) as (x & Hx); [lia|]. rewrite Hx.
        exists [x]. split; [done|]. split; [intros _; by exists x|]. intros Hns. exfalso. apply Hns. destruct (Z.ltb_spec 0 step); lia.
    + rewrite Z.max_l by lia. right. split; [destruct (Z.ltb_spec 0 step); lia|]. exists []. split; [done|].
      split; [intros; exfalso; lia|]. intros _. constructor; destruct (Z.ltb_spec 0 step); lia.
Qed.

Lemma raw_slice_loop data start stop step : indices_ok (len data) start stop step -> len data < 2 ^ 32 - 1 ->
  raw_from_slice data start stop step = slice_loop data start step (Z.to_nat (slice_size start stop step)).
Proof.
  intros Hok Hn. rewrite (slice_size_eq (len data)) by done. unfold raw_from_slice. cbv zeta.
  destruct (Z.leb_spec (slice_count start stop step) 0); [by rewrite Z.max_l|by rewrite Z.max_r by lia].
Qed.

(** A list of the language has fewer than [2 ^ 32 - 1] elements. *)
Definition fits {A} (l : list A) : Prop := len l < 2 ^ 32 - 1.

(** The slices whose direction is the one of the step. *)
Definition forward (n start stop step : Z) : Prop :=
  step = 1 \/ 0 < step /\ start <= stop \/ step < 0 /\ stop <= start /\ start < n.

Lemma forward_good n start stop step : forward n start stop step -> ~ reads_outside n start stop step /\ ~ stray start stop step.
Proof. unfold forward, reads_outside, stray. lia. Qed.

(** ** Properties *)


Definition five : varr := Varr TI_SPEC_ANY false false (map (fun i => ILeaf (VInt i)) [0; 1; 2; 3; 4]).

Example slice_example : index__slice_arr five (AVal (VInt (-2))) ANone (AVal (VInt (-2))) =
  Some (inr (Varr TI_SPEC_ANY false false [ILeaf (VInt 3); ILeaf (VInt 1)])).
Proof. vm_compute. reflexivity. Qed.


(** Some slices read outside the list: when the first index is not smaller
    than the length (it is cut to the length, not to the last element) and the step
    goes down, or goes up by more than the distance back to the second index, the
    element after the last one is read; in no other case does a slice read outside
    the list. *)
Theorem slice_reads_outside_iff (source : varr) (a b c : arg) (start stop step : Z) :
  fits (va_vec source) -> index__read_slice_indices (len (va_vec source)) a b c = inr (start, stop, step) ->
  index__slice_arr source a b c = None <->
  start = len (va_vec source) /\ stop < len (va_vec source) /\ (step < 0 \/ len (va_vec source) - stop < step).
Proof.
  intros Hf H. pose proof (read_indices_ok _ _ _ _ _ _ _ (Nat2Z.is_nonneg _) H) as Hok.
  unfold index__slice_arr. rewrite H. unfold ti_varr_from_slice. cbv zeta. fold (slice_size start stop step).
  fold (reads_outside (len (va_vec source)) start stop step).
  destruct (slice_loop_cases (va_vec source) start stop step Hok Hf) as [[Hc Hr]|(Hc & r & Hr & _)]; rewrite Hr; [done|].
  by split; [|intros].
Qed.

Lemma slice_reads_outside_iff_witness : index__slice_arr five (AVal (VInt 5)) ANone (AVal (VInt (-1))) = None <->
  5 = len (va_vec five) /\ -1 < len (va_vec five) /\ (-1 < 0 \/ len (va_vec five) - -1 < -1).
Proof. apply (slice_reads_outside_iff five (AVal (VInt 5)) ANone (AVal (VInt (-1))) 5 (-1) (-1)); reflexivity. Defined.

(** The slice of a list with things: the flags are not copied. *)
Lemma slice_hides_things source a b c v : index__slice_arr source a b c = Some (inr v) ->
  ti_val_gen_ids (list_item v) = [] /\ collection__gc_val (list_item v) = [].
Proof.
  unfold index__slice_arr, ti_varr_from_slice. intros H. destruct (index__read_slice_indices _ _ _ _) as [|[[s t] p]]; [done|].
  apply bind_Some in H as (v' & Hv & H). injection H as ->. apply bind_Some in Hv as (l & _ & Hv). by injection Hv as <-.
Qed.

(** One element where the reference has none. *)
Example slice_stray : index__slice_arr five (AVal (VInt 3)) (AVal (VInt 2)) (AVal (VInt 2)) =
  Some (inr (Varr TI_SPEC_ANY false false [ILeaf (VInt 3)])) /\ sliced (va_vec five) 2 2 3 [].
Proof. split; [by vm_compute|]. constructor; lia. Qed.

Lemma numeric_correct n a i : 0 <= n ->
  index__numeric n a = inr i <-> exists k, a = AVal (VInt k) /\ - n <= k < n /\ i = k mod n.
Proof.
  intros Hn. unfold index__numeric. split.
  - intros H. destruct a as [|v|]; try done. destruct v; try done. cbv zeta in H. exists i0. split; [done|].
    destruct (Z.ltb_spec i0 0); destruct (_ || _) eqn:E; try discriminate H; injection H as <-.
    + split; [lia|]. apply (Z.mod_unique_pos _ _ (-1)); lia.
    + split; [lia|]. symmetry. apply Z.mod_small. lia.
  - intros (k & -> & Hk & ->). cbv zeta. destruct (Z.ltb_spec k 0).
    + rewrite <- (Z.mod_unique_pos k n (-1) (k + n)) by lia. by rewrite (proj2 (Z.ltb_ge _ _)), (proj2 (Z.leb_gt _ _)) by lia.
    + rewrite Z.mod_small by lia. by rewrite (proj2 (Z.ltb_ge _ _)), (proj2 (Z.leb_gt _ _)) by lia.
Qed.

(** ** Assignment to a slice *)

Lemma read_cells_eq (buf : cells) (s n : nat) : (s + n <= length buf)%nat ->
  read_cells buf (Z.of_nat s) (Z.of_nat n) = Some (take n (drop s buf)).
Proof.
  intros H. unfold read_cells, len. rewrite !(proj2 (Z.leb_le _ _)) by lia. cbn [andb]. by rewrite !Nat2Z.id.
Qed.

Lemma write_cells_eq (buf src : cells) (d : nat) : (d + length src <= length buf)%nat ->
  write_cells buf (Z.of_nat d) src = Some (take d buf ++ src ++ drop (d + length src) buf).
Proof.
  intros H. unfold write_cells, len. rewrite !(proj2 (Z.leb_le _ _)) by lia. cbn [andb]. by rewrite !Nat2Z.id.
Qed.

(** The move and the copy put [e] for the [c] elements at [s]. *)
Lemma splice_cells (L e : list item) (pad : cells) (s c : nat) : (s + c <= length L)%nat ->
  (length L + length e - c <= length L + length pad)%nat ->
  (buf ← memmove (map Some L ++ pad) (Z.of_nat (s + length e)) (Z.of_nat (s + c)) (Z.of_nat (length L - s - c));
   buf ← write_cells buf (Z.of_nat s) (map Some e);
   Some (take (length L + length e - c) buf)) = Some (map Some (take s L ++ e ++ drop (s + c) L)).
Proof.
  intros Hs Hp. unfold memmove. rewrite read_cells_eq by (rewrite length_app, length_map; lia). cbn [mbind option_bind].
  assert (HX : take (length L - s - c) (drop (s + c) (map Some L ++ pad)) = map Some (drop (s + c) L)).
  { rewrite drop_app_le by (rewrite length_map; lia). rewrite take_app_le by (rewrite length_drop, length_map; lia).
    rewrite take_ge by (rewrite length_drop, length_map; lia). by rewrite <- skipn_map. }
  rewrite HX. assert (HlX : length (map Some (drop (s + c) L)) = (length L - s - c)%nat) by (rewrite length_map, length_drop; lia).
  rewrite write_cells_eq by (rewrite length_app, !length_map, length_drop; lia). cbn [mbind option_bind].
  rewrite write_cells_eq.
  2:{ rewrite !length_app, length_take, length_app, length_drop, length_app, !length_map, length_drop. lia. }
  cbn [mbind option_bind]. f_equal. rewrite !length_map.
  rewrite (take_app_le (take (s + length e) _)) by (rewrite length_take, length_app, length_map; lia).
  rewrite take_take, Nat.min_l by lia. rewrite (take_app_le (map Some L) pad s) by (rewrite length_map; lia).
  rewrite (drop_app_le (take (s + length e) _)) by (rewrite length_take, length_app, length_map; lia).
  rewrite (drop_ge (take (s + length e) _)) by (rewrite length_take; lia). cbn [app].
  rewrite !map_app, <- (firstn_map _ s L).
  rewrite !app_assoc. rewrite take_app_le.
  2:{ rewrite !length_app, !length_map, length_take, length_drop, length_map. lia. }
  rewrite take_ge; [done|]. rewrite !length_app, !length_map, length_take, length_drop, length_map. lia.
Qed.

(** C23. Assigning a list to a slice replaces the elements of the slice by those
    of the list, moves the ones after it, and keeps the rest; a slice whose second
    index is not after the first one inserts. The moves stay inside the memory of
    the list. *)
Theorem slice_assign_splices (v : varr) (a b c : arg) (e : list item) (start stop : Z) :
  index__read_slice_indices (len (va_vec v)) a b c = inr (start, stop, 1) -> len (va_vec v) + len e < 2 ^ 32 ->
  index__slice_ass true 1 v a b c (inr (AOther e)) =
    Some (inr (map Some (take (Z.to_nat start) (va_vec v) ++ e ++ drop (Z.to_nat (Z.max start stop)) (va_vec v)))).
Proof.
  intros H Hn. pose proof (read_indices_ok _ _ _ _ _ _ _ (Nat2Z.is_nonneg _) H) as (H1 & H2 & _ & H4).
  unfold index__slice_ass. change (1 =? 2) with false. cbv iota zeta. rewrite H. change (1 =? 1) with true. cbn [negb].
  set (L := va_vec v) in *. unfold len in *. set (s := Z.to_nat start). set (d := Z.to_nat (Z.max start stop - start)).
  assert (E0 : start = Z.of_nat s) by lia. assert (Ec : (if start <? stop then stop - start else 0) = Z.of_nat d) by (destruct (Z.ltb_spec start stop); lia).
  rewrite Ec, andb_false_r. rewrite Z.mod_small by lia.
  replace (Z.of_nat (length L) + Z.of_nat (length e) - Z.of_nat d) with (Z.of_nat (length L + length e - d)) by lia.
  rewrite Nat2Z.id. pose proof (splice_cells L e (replicate (Z.to_nat (Z.of_nat (length L + length e - d) - Z.of_nat (length L))) None) s d) as Hsp.
  rewrite length_replicate in Hsp. specialize (Hsp ltac:(lia) ltac:(lia)).
  replace (start + Z.of_nat (length e)) with (Z.of_nat (s + length e)) by lia.
  replace (start + Z.of_nat d) with (Z.of_nat (s + d)) by lia.
  replace (Z.of_nat (length L) - start - Z.of_nat d) with (Z.of_nat (length L - s - d)) by lia.
  replace (Z.to_nat (Z.max start stop)) with (s + d)%nat by lia. clearbody s d. subst start.
  destruct (memmove _ _ _ _) as [buf|]; [|discriminate Hsp]. cbn [mbind option_bind] in *.
  destruct (write_cells _ _ _) as [buf'|]; [|discriminate Hsp]. cbn [mbind option_bind] in *.
  injection Hsp as Hsp. by rewrite Hsp.
Qed.

Lemma slice_assign_splices_witness :
  index__slice_ass true 1 five (AVal (VInt 1)) (AVal (VInt 3)) ANone (inr (AOther [ILeaf VNil; ILeaf VNil; ILeaf VNil])) =
    Some (inr (map Some (take 1 (va_vec five) ++ [ILeaf VNil; ILeaf VNil; ILeaf VNil] ++ drop 3 (va_vec five)))).
Proof. apply (slice_assign_splices five (AVal (VInt 1)) (AVal (VInt 3)) ANone [ILeaf VNil; ILeaf VNil; ILeaf VNil] 1 3); reflexivity. Defined.

(** Assigning a list to a slice of itself copies between overlapping ranges,
    unless the slice is at the end. *)
Example slice_assign_self : index__slice_ass true 1 five (AVal (VInt 1)) (AVal (VInt 1)) ANone (inr ASame) = None.
Proof. vm_compute. reflexivity. Qed.

(** Neither a slice nor a compound assignment looks at the specification of the list. *)
Example slice_assign_unchecked :
  index__slice_ass true 1 (Varr TI_SPEC_INT false false [ILeaf (VInt 1)]) (AVal (VInt 0)) (AVal (VInt 1)) ANone
    (inr (AOther [ILeaf (VStr [97])])) = Some (inr [Some (ILeaf (VStr [97]))]) /\
  nested_ok (fun _ _ => true) [] [] [] TI_SPEC_INT (VStr [97]) = false.
Proof. split; by vm_compute. Qed.
