(* ===== verification/Gc.v ===== *)
(** * ti/collection: the garbage collector of a collection

    Mark and sweep of [src/src/ti/collection.c] over the things of a collection.
    Every thing carries the flag [TI_THING_FLAG_SWEEP], cleared while it is marked.
    A thing that is not reached is moved to a queue with the change id of the node,
    and destroyed by a later run, when that change is stored everywhere; a thing in
    the queue can be looked up by its id and is put back then.

    Things are a heap by id; following an id that is not in the heap is undefined
    ([None]). Counts of references are left out: the step [step_free] below may
    remove a thing nothing refers to. *)
From Stdlib Require Import ZArith Lia.
From stdpp Require Import base gmap sets fin_map_dom list option numbers.
From S2P Require Import Prelude.

(** Values, as far as they hold things. *)
Inductive gval :=
  | GThing (id : Z)
  | GWrap (id : Z)
  | GWano (id : Z)                         (* wrapped by an anonymous type *)
  | GArr (mht : bool) (l : list gval)      (* with the flag may-have-things *)
  | GSet (l : list Z)
  | GOther.

Record thing := Thing { t_vals : list gval; t_sweep : bool }.
Notation heap := (gmap Z thing).

Record collection := Collection {
  c_heap : heap;
  c_things : gset Z;                       (* collection->things *)
  c_root : Z;
  c_vtasks : list (list gval);             (* the arguments of the tasks *)
  c_enums : list Z;                        (* the things that are members of enumerations *)
  c_gc : list (Z * Z)                      (* change id and thing *)
}.

(** ** Mark *)

(** [collection__gc_mark_varr] on one value. *)
Fixpoint gc_mark_val (v : gval) : list Z :=
  match v with
  | GThing id | GWrap id => [id]
  | GArr mht l => if mht then concat (map gc_mark_val l) else []
  | _ => []
  end.

(** [collection__gc_val] *)
Definition gc_val (v : gval) : list Z := match v with GSet l => l | _ => gc_mark_val v end.

(** The things that [collection__gc_mark_thing] visits after clearing the flag. *)
Definition gc_refs (vals : list gval) : list Z := concat (map gc_val vals).

Definition set_sweep (b : bool) (t : thing) : thing := Thing (t_vals t) b.

(** [if (thing->flags & TI_THING_FLAG_SWEEP) collection__gc_mark_thing(thing)] for
    every id of a list, with the function that marks a thing. *)
Fixpoint mark_list (mark : heap -> Z -> option heap) (h : heap) (ids : list Z) : option heap :=
  match ids with
  | [] => Some h
  | id :: ids => t ← h !! id; h ← (if t_sweep t then mark h id else Some h); mark_list mark h ids
  end.

(** Every call inside clears a flag: the number of things is enough fuel. *)
Fixpoint collection__gc_mark_thing (fuel : nat) (h : heap) (id : Z) : option heap :=
  match fuel with
  | O => None
  | S fuel => t ← h !! id; mark_list (collection__gc_mark_thing fuel) (<[id := set_sweep false t]> h) (gc_refs (t_vals t))
  end.

Definition mark_fuel (h : heap) : nat := S (size h).

Definition gc_mark (c : collection) : option heap :=
  let f := mark_fuel (c_heap c) in
  let mark := collection__gc_mark_thing f in
  h ← mark_list mark (c_heap c) (gc_refs (concat (c_vtasks c)));
  h ← mark_list mark h (c_enums c);
  mark h (c_root c).

(** ** Sweep *)

(** The loop over the queue: the number of things from changes that are stored. *)
Fixpoint gc_clear (scid : Z) (h : heap) (gc : list (Z * Z)) : option (heap * nat) :=
  match gc with
  | [] => Some (h, O)
  | (change_id, id) :: gc =>
    t ← h !! id;
    if scid <? change_id then gc_clear scid (<[id := set_sweep true t]> h) gc
    else
      let h := if t_sweep t then <[id := Thing [] true]> h else h in
      '(h, m) ← gc_clear scid h gc; Some (h, S m)
  end.

(** The first [m] things of the queue are destroyed or put back. *)
Fixpoint gc_shift (m : nat) (h : heap) (things : gset Z) (gc : list (Z * Z)) : option (heap * gset Z * list (Z * Z)) :=
  match m with
  | O => Some (h, things, gc)
  | S m =>
    match gc with
    | [] => None
    | (_, id) :: gc =>
      t ← h !! id;
      if t_sweep t then gc_shift m (delete id h) things gc
      else if bool_decide (id ∈ things) then None              (* ti_panic *)
      else gc_shift m h ({[id]} ∪ things) gc
    end
  end.

(** [collection__gc_thing] over the things; [push id]: there is memory for the queue. *)
Fixpoint gc_collect (ccid : Z) (push : Z -> bool) (h : heap) (ids : list Z) : option (heap * list (Z * Z)) :=
  match ids with
  | [] => Some (h, [])
  | id :: ids =>
    t ← h !! id;
    if t_sweep t && push id then '(h, gc) ← gc_collect ccid push h ids; Some (h, (ccid, id) :: gc)
    else gc_collect ccid push (<[id := set_sweep true t]> h) ids
  end.

Definition ti_collection_gc (do_mark_things : bool) (ccid scid : Z) (push : Z -> bool) (c : collection) : option collection :=
  h ← (if do_mark_things then gc_mark c else Some (c_heap c));
  '(h, m) ← gc_clear scid h (c_gc c);
  '(h, things, gc) ← gc_shift m h (c_things c) (c_gc c);
  '(h, new) ← gc_collect ccid push h (elements things);
  Some (Collection h (things ∖ list_to_set (map snd new)) (c_root c) (c_vtasks c) (c_enums c) (gc ++ new)).

(** ** A thing from the queue *)

Fixpoint queue_remove_id (id : Z) (gc : list (Z * Z)) : option (list (Z * Z)) :=
  match gc with
  | [] => None
  | (ch, x) :: gc => if x =? id then Some gc else gc ← queue_remove_id id gc; Some ((ch, x) :: gc)
  end.

Definition ti_collection_thing_restore_gc (id : Z) (c : collection) : option collection :=
  match queue_remove_id id (c_gc c) with
  | None => Some c
  | Some gc =>
    if bool_decide (id ∈ c_things c) then None                 (* ti_panic *)
    else Some (Collection (c_heap c) ({[id]} ∪ c_things c) (c_root c) (c_vtasks c) (c_enums c) gc)
  end.
