(* ===== verification/GcProof.v ===== *)
(** * Mark and sweep: lemmas *)
From Stdlib Require Import ZArith Lia.
From stdpp Require Import base gmap sets fin_map_dom list option numbers.
From S2P Require Import Prelude Gc.

(** ** Things that are not marked *)

Definition white (h : heap) : gset Z := dom (filter (fun p : Z * thing => t_sweep p.2 = true) h).

Lemma elem_of_white h id : id ∈ white h <-> exists t, h !! id = Some t /\ t_sweep t = true.
Proof. unfold white. rewrite elem_of_dom. split; [intros [t Ht]|intros (t & H1 & H2)].
  - apply map_lookup_filter_Some in Ht as [H1 H2]. by exists t.
  - exists t. by apply map_lookup_filter_Some.
Qed.

(** Heaps with the same things and values. *)
Definition same (h h' : heap) : Prop := forall id, t_vals <$> h !! id = t_vals <$> h' !! id.

Lemma same_refl h : same h h.
Proof. done. Qed.
Lemma same_trans h1 h2 h3 : same h1 h2 -> same h2 h3 -> same h1 h3.
Proof. intros H1 H2 id. by rewrite H1. Qed.
Lemma same_sym h1 h2 : same h1 h2 -> same h2 h1.
Proof. intros H id. by rewrite H. Qed.
#[export] Hint Resolve same_refl same_sym : core.

Lemma same_lookup h h' id t : same h h' -> h !! id = Some t -> exists t', h' !! id = Some t' /\ t_vals t' = t_vals t.
Proof. intros H Ht. specialize (H id). rewrite Ht in H. destruct (h' !! id) as [t'|]; [|done]. exists t'. split; [done|]. by injection H. Qed.

Lemma same_dom h h' : same h h' -> dom h = dom h'.
Proof.
  intros H. apply set_eq. intros id. rewrite !elem_of_dom. split; intros [t Ht].
  - destruct (same_lookup h h' id t H Ht) as (t' & Ht' & _). by exists t'.
  - destruct (same_lookup h' h id t (same_sym _ _ H) Ht) as (t' & Ht' & _). by exists t'.
Qed.

Lemma same_set_sweep h id t b : h !! id = Some t -> same h (<[id := set_sweep b t]> h).
Proof. intros H x. destruct (decide (x = id)) as [->|Hne]; [by rewrite lookup_insert_eq, H|by rewrite lookup_insert_ne]. Qed.

(** The values that are followed are in the heap. *)
Definition closed (h : heap) : Prop := forall id t x, h !! id = Some t -> x ∈ gc_refs (t_vals t) -> x ∈ dom h.

Lemma closed_same h h' : same h h' -> closed h -> closed h'.
Proof.
  intros Hs Hc id t x Ht Hx. destruct (same_lookup h' h id t (same_sym _ _ Hs) Ht) as (t' & Ht' & Hv).
  rewrite <- (same_dom h h' Hs). eapply Hc; [done|]. by rewrite Hv.
Qed.

(** Reachable along the values that are followed. *)
Inductive reach (h : heap) (a : Z) : Z -> Prop :=
  | reach_here : reach h a a
  | reach_step b t c : reach h a b -> h !! b = Some t -> c ∈ gc_refs (t_vals t) -> reach h a c.

Lemma reach_trans h a b c : reach h a b -> reach h b c -> reach h a c.
Proof. intros H1. induction 1; [done|]. by eapply reach_step. Qed.

Lemma reach_same h h' a b : same h h' -> reach h a b -> reach h' a b.
Proof.
  intros Hs. induction 1 as [|b t c Hr IH Ht Hc]; [constructor|].
  destruct (same_lookup h h' b t Hs Ht) as (t' & Ht' & Hv). eapply reach_step; [done|done|]. by rewrite Hv.
Qed.

Lemma white_set_sweep h id t : h !! id = Some t -> white (<[id := set_sweep false t]> h) = white h ∖ {[id]}.
Proof.
  intros Ht. apply set_eq. intros x. rewrite elem_of_difference, !elem_of_white, elem_of_singleton.
  destruct (decide (x = id)) as [->|Hne].
  - rewrite lookup_insert_eq. split; [intros (t' & [= <-] & H); done|tauto].
  - rewrite lookup_insert_ne by done. tauto.
Qed.

(** What a marking does: [from] are the things it starts with. *)
Definition marks (h h' : heap) (from : Z -> Prop) : Prop :=
  same h h' /\ white h' ⊆ white h /\
  (forall y t z, y ∈ white h -> y ∉ white h' -> h !! y = Some t -> z ∈ gc_refs (t_vals t) -> z ∉ white h') /\
  (forall y, y ∈ white h -> y ∉ white h' -> exists x, from x /\ reach h x y).

Lemma marks_refl h from : marks h h from.
Proof. split_and!; [done|done|tauto|tauto]. Qed.

Lemma marks_trans h1 h2 h3 f1 f2 : marks h1 h2 f1 -> marks h2 h3 f2 -> marks h1 h3 (fun x => f1 x \/ f2 x).
Proof.
  intros (S1 & W1 & C1 & R1) (S2 & W2 & C2 & R2). split_and!; [by eapply same_trans|set_solver| |].
  - intros y t z Hy Hy' Ht Hz. destruct (decide (y ∈ white h2)) as [Hy2|Hy2].
    + destruct (same_lookup h1 h2 y t S1 Ht) as (t' & Ht' & Hv). eapply C2; [done|done|done|]. by rewrite Hv.
    + pose proof (C1 y t z Hy Hy2 Ht Hz). set_solver.
  - intros y Hy Hy'. destruct (decide (y ∈ white h2)) as [Hy2|Hy2].
    + destruct (R2 y Hy2 Hy') as (x & Hx & Hr). exists x. split; [by right|]. exact (reach_same h2 h1 _ _ (same_sym _ _ S1) Hr).
    + destruct (R1 y Hy Hy2) as (x & Hx & Hr). exists x. by split; [left|].
Qed.

Lemma marks_weaken h h' (f g : Z -> Prop) : (forall x, f x -> g x) -> marks h h' f -> marks h h' g.
Proof. intros Hfg (S & W & C & R). split_and!; [done..|]. intros y H1 H2. destruct (R y H1 H2) as (x & Hx & Hr). eauto. Qed.

(** The contract of a function that marks one thing. *)
Definition mark_ok (n : nat) (mark : heap -> Z -> option heap) : Prop :=
  forall h id, closed h -> id ∈ dom h -> (size (white h ∖ {[id]}) < n)%nat ->
    exists h', mark h id = Some h' /\ marks h h' (eq id) /\ id ∉ white h' /\
      (forall t z, h !! id = Some t -> z ∈ gc_refs (t_vals t) -> z ∉ white h').

Lemma mark_list_ok n mark h ids : mark_ok n mark -> closed h -> (forall x, x ∈ ids -> x ∈ dom h) -> (size (white h) <= n)%nat ->
  exists h', mark_list mark h ids = Some h' /\ marks h h' (fun x => x ∈ ids) /\ (forall x, x ∈ ids -> x ∉ white h').
Proof.
  intros Hm. revert h. induction ids as [|id ids IH]; intros h Hc Hd Hn.
  { exists h. split_and!; [done|apply marks_refl|set_solver]. }
  cbn [mark_list]. assert (Hid : id ∈ dom h) by set_solver. destruct (proj1 (elem_of_dom h id) Hid) as [t Ht]. rewrite Ht. cbn [mbind option_bind].
  assert (exists h1, (if t_sweep t then mark h id else Some h) = Some h1 /\ marks h h1 (eq id) /\ id ∉ white h1) as (h1 & -> & Hm1 & Hw1).
  { destruct (t_sweep t) eqn:E.
    - destruct (Hm h id Hc Hid) as (h1 & -> & Hm1 & Hw & _); [|by exists h1].
      assert (id ∈ white h) by (apply elem_of_white; by exists t).
      assert (size (white h ∖ {[id]}) < size (white h))%nat; [|lia]. apply subset_size. set_solver.
    - exists h. split_and!; [done|apply marks_refl|]. rewrite elem_of_white. intros (t' & Ht' & Hs). congruence. }
  cbn [mbind option_bind]. pose proof Hm1 as (S1 & W1 & _).
  destruct (IH h1) as (h' & Hh' & Hm2 & Hw2).
  - by eapply closed_same.
  - intros x Hx. rewrite <- (same_dom h h1 S1). set_solver.
  - assert (size (white h1) <= size (white h))%nat by by apply subseteq_size. lia.
  - exists h'. split_and!; [done| |].
    + eapply marks_weaken; [|exact (marks_trans _ _ _ _ _ Hm1 Hm2)]. cbn. intros x [->|Hx]; set_solver.
    + intros x Hx. apply elem_of_cons in Hx as [->|Hx]; [|by apply Hw2]. destruct Hm2 as (_ & W2 & _). set_solver.
Qed.

Lemma mark_thing_ok n : mark_ok n (collection__gc_mark_thing n).
Proof.
  induction n as [|n IH]; intros h id Hc Hid Hn; [lia|]. cbn [collection__gc_mark_thing].
  destruct (proj1 (elem_of_dom h id) Hid) as [t Ht]. rewrite Ht. cbn [mbind option_bind].
  set (h1 := <[id := set_sweep false t]> h). assert (S1 : same h h1) by by apply same_set_sweep.
  assert (W1 : white h1 = white h ∖ {[id]}) by by apply white_set_sweep.
  destruct (mark_list_ok n _ h1 (gc_refs (t_vals t)) IH) as (h' & Hh' & (S2 & W2 & C2 & R2) & Hw).
  - by eapply closed_same.
  - intros x Hx. rewrite <- (same_dom h h1 S1). by eapply Hc.
  - rewrite W1. lia.
  - exists h'. split; [done|]. rewrite W1 in *. split_and!.
    + split_and!; [by eapply same_trans|set_solver| |].
      * intros y t' z Hy Hy' Ht' Hz. destruct (decide (y = id)) as [->|Hne].
        { assert (t' = t) as -> by congruence. by apply Hw. }
        destruct (same_lookup h h1 y t' S1 Ht') as (t2 & Ht2 & Hv). eapply C2; [|done|done|by rewrite Hv]. set_solver.
      * intros y Hy Hy'. exists id. split; [done|]. destruct (decide (y = id)) as [->|Hne]; [constructor|].
        destruct (R2 y) as (x & Hx & Hr); [set_solver|done|]. apply (reach_same h1 h) in Hr; [|auto].
        eapply reach_trans; [|done]. eapply reach_step; [constructor|done|done].
    + set_solver.
    + intros t' z Ht' Hz. assert (t' = t) as -> by congruence. by apply Hw.
Qed.

(** ** The whole mark phase *)

Definition roots (c : collection) : list Z := gc_refs (concat (c_vtasks c)) ++ c_enums c ++ [c_root c].

Definition live (c : collection) (x : Z) : Prop := exists r, r ∈ roots c /\ reach (c_heap c) r x.

(** Between two runs every thing has the flag and nothing is missing. *)
Definition ready (c : collection) : Prop :=
  closed (c_heap c) /\ white (c_heap c) = dom (c_heap c) /\ forall r, r ∈ roots c -> r ∈ dom (c_heap c).

Lemma gc_mark_exact c : ready c ->
  exists h, gc_mark c = Some h /\ same (c_heap c) h /\ (forall x, x ∈ dom (c_heap c) -> x ∉ white h <-> live c x).
Proof.
  intros (Hc & Hw & Hr). unfold gc_mark. cbv zeta. set (h := c_heap c) in *. set (n := mark_fuel h).
  assert (Hsz : (size (white h) < n)%nat) by (rewrite Hw, size_dom; unfold n, mark_fuel; lia).
  assert (Hin : forall x, x ∈ gc_refs (concat (c_vtasks c)) \/ x ∈ c_enums c \/ x = c_root c -> x ∈ dom h).
  { intros x Hx. apply Hr. unfold roots. rewrite !elem_of_app, list_elem_of_singleton. tauto. }
  destruct (mark_list_ok n _ h (gc_refs (concat (c_vtasks c))) (mark_thing_ok n)) as (h1 & -> & M1 & B1); [done|auto|lia|].
  cbn [mbind option_bind]. pose proof M1 as (S1 & W1 & _).
  assert (Hc1 : closed h1) by by eapply closed_same.
  assert (size (white h1) <= size (white h))%nat by by apply subseteq_size.
  destruct (mark_list_ok n _ h1 (c_enums c) (mark_thing_ok n)) as (h2 & -> & M2 & B2); [done| |lia|].
  { intros x Hx. rewrite <- (same_dom h h1 S1). auto. }
  cbn [mbind option_bind]. pose proof M2 as (S2 & W2 & _).
  assert (Hc2 : closed h2) by by eapply closed_same. assert (S12 : same h h2) by by eapply same_trans.
  destruct (mark_thing_ok n h2 (c_root c)) as (h3 & -> & M3 & B3 & _); [done| | |].
  { rewrite <- (same_dom h h2 S12). auto. }
  { assert (size (white h2 ∖ {[c_root c]}) <= size (white h))%nat by (apply subseteq_size; set_solver). lia. }
  pose proof M3 as (S3 & W3 & _). exists h3. pose proof (marks_trans _ _ _ _ _ (marks_trans _ _ _ _ _ M1 M2) M3) as (S & W & C & R).
  split; [done|]. split; [done|]. intros x Hx. split.
  - intros Hnw. destruct (R x) as (r & Hr' & Hreach); [by rewrite Hw|done|]. exists r. split; [|done].
    unfold roots. rewrite !elem_of_app, list_elem_of_singleton. destruct Hr' as [[?|?]|<-]; auto.
  - intros (r & Hr' & Hreach). induction Hreach as [|b t z Hb IH Ht Hz].
    + unfold roots in Hr'. rewrite !elem_of_app, list_elem_of_singleton in Hr'. destruct Hr' as [Hr'|[Hr'|Hr']].
      * assert (r ∉ white h1) by by apply B1. set_solver.
      * assert (r ∉ white h2) by by apply B2. set_solver.
      * by rewrite Hr'.
    + assert (b ∈ dom h) by by eapply elem_of_dom_2. apply (C b t z); [by rewrite Hw|by apply IH|done|done].
Qed.

(** ** The sweep phase *)

Lemma set_sweep_id b t : t_sweep t = b -> set_sweep b t = t.
Proof. intros <-. by destruct t. Qed.

Definition cleared (scid ch : Z) (t : thing) : thing :=
  if scid <? ch then set_sweep true t else if t_sweep t then Thing [] true else t.

Definition stored_count (scid : Z) (gc : list (Z * Z)) : nat := length (filter (fun p => p.1 <= scid) gc).

Lemma gc_clear_spec scid h gc : (forall p, p ∈ gc -> p.2 ∈ dom h) -> NoDup (map snd gc) ->
  exists h', gc_clear scid h gc = Some (h', stored_count scid gc) /\
    (forall x, x ∉ map snd gc -> h' !! x = h !! x) /\
    (forall ch x t, (ch, x) ∈ gc -> h !! x = Some t -> h' !! x = Some (cleared scid ch t)).
Proof.
  revert h. induction gc as [|[ch id] gc IH]; intros h Hd Hnd.
  { exists h. split_and!; [done|done|]. intros ch x t Hx. by apply elem_of_nil in Hx. }
  cbn [map snd] in *. pose proof (NoDup_cons_1_1 _ _ Hnd) as Hni. apply NoDup_cons_1_2 in Hnd. cbn [gc_clear].
  destruct (proj1 (elem_of_dom h id)) as [t Ht]; [apply (Hd (ch, id)); by left|]. rewrite Ht. cbn [mbind option_bind].
  assert (Hstep : exists t', cleared scid ch t = t' /\
    (if scid <? ch then gc_clear scid (<[id := set_sweep true t]> h) gc
     else '(h0, m) ← gc_clear scid (if t_sweep t then <[id := Thing [] true]> h else h) gc; Some (h0, S m)) =
    '(h0, m) ← gc_clear scid (<[id := t']> h) gc; Some (h0, if scid <? ch then m else S m)).
  { unfold cleared. destruct (scid <? ch).
    - eexists. split; [done|]. by destruct (gc_clear _ _ _) as [[]|].
    - eexists. split; [done|]. destruct (t_sweep t); [done|]. by rewrite insert_id. }
  destruct Hstep as (t' & Et & ->). destruct (IH (<[id := t']> h)) as (h' & -> & H1 & H2); [|done|].
  { intros p Hp. rewrite dom_insert. apply elem_of_union. right. apply Hd. by right. }
  exists h'. cbn [mbind option_bind]. split_and!.
  - unfold stored_count. rewrite filter_cons. destruct (Z.ltb_spec scid ch); (destruct (decide _) as [D|D]; cbn in D; [|]); done || lia.
  - intros x Hx. rewrite H1 by set_solver. rewrite lookup_insert_ne; set_solver.
  - intros ch' x tx Hx Htx. apply elem_of_cons in Hx as [[= -> ->]|Hx].
    + rewrite H1 by done. rewrite lookup_insert_eq. congruence.
    + apply (H2 _ _ tx Hx). rewrite lookup_insert_ne; [done|]. intros ->. apply Hni, list_elem_of_In, in_map_iff.
      exists (ch', x). split; [done|]. by apply list_elem_of_In.
Qed.

(** The old part of the queue: destroyed or put back. *)
Lemma gc_shift_spec h things old young : (forall p, p ∈ old -> p.2 ∈ dom h) -> NoDup (map snd old) ->
  (forall p, p ∈ old -> p.2 ∉ things) ->
  exists h' things', gc_shift (length old) h things (old ++ young) = Some (h', things', young) /\
    (forall x, h' !! x = if bool_decide (x ∈ map snd old /\ x ∈ white h) then None else h !! x) /\
    (forall x, x ∈ things' <-> x ∈ things \/ x ∈ map snd old /\ x ∉ white h).
Proof.
  revert h things. induction old as [|[ch id] old IH]; intros h things Hd Hnd Ht.
  { exists h, things. split_and!; [done| |set_solver]. intros x. rewrite bool_decide_false; [done|]. set_solver. }
  cbn [map snd length app gc_shift] in *. pose proof (NoDup_cons_1_1 _ _ Hnd) as Hni. apply NoDup_cons_1_2 in Hnd.
  destruct (proj1 (elem_of_dom h id)) as [t Hti]; [apply (Hd (ch, id)); by left|]. rewrite Hti. cbn [mbind option_bind].
  assert (Hnot : forall p, p ∈ old -> p.2 <> id).
  { intros p Hp E. apply Hni. rewrite <- E. apply list_elem_of_In, in_map. by apply list_elem_of_In. }
  destruct (t_sweep t) eqn:E.
  - assert (Hw : id ∈ white h) by (apply elem_of_white; by exists t).
    destruct (IH (delete id h) things) as (h' & things' & -> & H1 & H2).
    + intros p Hp. rewrite dom_delete. apply elem_of_difference. split; [apply Hd; by right|]. rewrite elem_of_singleton. auto.
    + done.
    + intros p Hp. apply Ht. by right.
    + assert (Hwd : forall x, x ∈ white (delete id h) <-> x ∈ white h /\ x <> id).
      { intros x. rewrite !elem_of_white. split.
        - intros (t' & Ht' & Hs). apply lookup_delete_Some in Ht' as [Hne Ht']. split; [by exists t'|done].
        - intros [(t' & Ht' & Hs) Hne]. exists t'. by rewrite lookup_delete_ne by done. }
      exists h', things'. split_and!; [done| |].
      * intros x. rewrite H1. destruct (decide (x = id)) as [->|Hne].
        -- rewrite (bool_decide_true (id ∈ id :: _ /\ _)) by set_solver. rewrite bool_decide_false by set_solver. by rewrite lookup_delete_eq.
        -- rewrite lookup_delete_ne by done. repeat case_bool_decide; try done; exfalso; set_solver.
      * intros x. rewrite H2, Hwd. destruct (decide (x = id)) as [->|Hne]; set_solver.
  - assert (Hw : id ∉ white h) by (rewrite elem_of_white; intros (t' & Ht' & Hs); congruence).
    rewrite bool_decide_false by (apply (Ht (ch, id)); by left).
    destruct (IH h ({[id]} ∪ things)) as (h' & things' & -> & H1 & H2).
    + intros p Hp. apply Hd. by right.
    + done.
    + intros p Hp. pose proof (Hnot p Hp). assert (p.2 ∉ things) by (apply Ht; by right). set_solver.
    + exists h', things'. split_and!; [done| |].
      * intros x. rewrite H1. repeat case_bool_decide; try done; exfalso; set_solver.
      * intros x. rewrite H2. set_solver.
Qed.

Lemma filter_ext_in {A} (P Q : A -> Prop) `{!forall x, Decision (P x), !forall x, Decision (Q x)} (l : list A) :
  (forall x, x ∈ l -> P x <-> Q x) -> filter P l = filter Q l.
Proof.
  induction l as [|x l IH]; intros HPQ; [done|]. rewrite !filter_cons, IH by (intros; apply HPQ; by right).
  assert (P x <-> Q x) by (apply HPQ; by left). destruct (decide (P x)), (decide (Q x)); tauto.
Qed.

(** The walk over the things: what is not marked goes to the queue. *)
Lemma gc_collect_spec ccid h ids : (forall x, x ∈ ids -> x ∈ dom h) -> NoDup ids ->
  exists h' new, gc_collect ccid (fun _ => true) h ids = Some (h', new) /\ same h h' /\
    (forall x, x ∉ ids -> h' !! x = h !! x) /\ (forall x t, x ∈ ids -> h !! x = Some t -> h' !! x = Some (set_sweep true t)) /\
    new = map (fun x => (ccid, x)) (filter (fun x => x ∈ white h) ids).
Proof.
  revert h. induction ids as [|id ids IH]; intros h Hd Hnd.
  { exists h, []. split_and!; [done|done|done| |done]. intros x t Hx. by apply elem_of_nil in Hx. }
  pose proof (NoDup_cons_1_1 _ _ Hnd) as Hni. apply NoDup_cons_1_2 in Hnd. cbn [gc_collect].
  destruct (proj1 (elem_of_dom h id)) as [t Ht]; [apply Hd; by left|]. rewrite Ht. cbn [mbind option_bind]. rewrite andb_true_r.
  destruct (t_sweep t) eqn:E.
  - assert (Hw : id ∈ white h) by (apply elem_of_white; by exists t).
    destruct (IH h) as (h' & new & -> & H1 & H2 & H3 & ->); [set_solver|done|]. cbn [mbind option_bind].
    eexists _, _. split_and!; [reflexivity|done|set_solver| |].
    + intros x tx Hx Htx. apply elem_of_cons in Hx as [->|Hx]; [|by apply H3]. rewrite H2 by done. rewrite Ht. f_equal.
      assert (tx = t) as -> by congruence. by rewrite set_sweep_id.
    + by rewrite filter_cons_True by done.
  - assert (Hw : id ∉ white h) by (rewrite elem_of_white; intros (t' & Ht' & Hs); congruence).
    destruct (IH (<[id := set_sweep true t]> h)) as (h' & new & -> & H1 & H2 & H3 & ->); [|done|].
    { intros x Hx. rewrite dom_insert. set_solver. }
    eexists _, _. split_and!; [reflexivity| | | |].
    + eapply same_trans; [by apply same_set_sweep|done].
    + intros x Hx. rewrite H2 by set_solver. rewrite lookup_insert_ne; set_solver.
    + intros x tx Hx Htx. apply elem_of_cons in Hx as [->|Hx].
      * rewrite H2 by done. rewrite lookup_insert_eq. congruence.
      * apply H3; [done|]. rewrite lookup_insert_ne; [done|]. intros ->. done.
    + rewrite filter_cons_False by done. f_equal. apply filter_ext_in. intros x Hx.
      assert (x <> id) by (intros ->; done). rewrite !elem_of_white. by rewrite lookup_insert_ne by done.
Qed.

(** ** One run *)

(** The queue is in the order of its change ids. *)
Fixpoint ordered (gc : list (Z * Z)) : Prop :=
  match gc with [] => True | p :: gc => Forall (fun q => p.1 <= q.1) gc /\ ordered gc end.

Lemma stored_none scid gc : Forall (fun p => scid < p.1) gc -> stored_count scid gc = 0%nat.
Proof.
  unfold stored_count. induction 1 as [|p gc Hp Hgc IH]; [done|]. rewrite filter_cons_False by lia. done.
Qed.

Lemma ordered_split scid gc : ordered gc -> exists old young, gc = old ++ young /\
  Forall (fun p => p.1 <= scid) old /\ Forall (fun p => scid < p.1) young /\ stored_count scid gc = length old.
Proof.
  induction gc as [|p gc IH]; [by exists [], []|]. intros [Hp Ho]. unfold stored_count. rewrite filter_cons.
  destruct (decide (p.1 <= scid)) as [D|D].
  - destruct (IH Ho) as (old & young & -> & H1 & H2 & H3). exists (p :: old), young. split_and!; [done|by constructor|done|].
    cbn [length]. unfold stored_count in H3. by rewrite H3.
  - exists [], (p :: gc). assert (Forall (fun q : Z * Z => scid < q.1) gc) as Hall.
    { eapply List.Forall_impl; [|exact Hp]. cbn. lia. }
    split_and!; [done|done|constructor; [lia|done]|].
    exact (stored_none scid gc Hall).
Qed.

Definition gc_ids (c : collection) : list Z := map snd (c_gc c).

Definition queue_ok (c : collection) : Prop :=
  NoDup (gc_ids c) /\ ordered (c_gc c) /\
  (forall x, x ∈ gc_ids c -> x ∉ c_things c) /\ (forall x, x ∈ dom (c_heap c) <-> x ∈ c_things c \/ x ∈ gc_ids c).

(** The queue after the mark phase: things of stored changes are destroyed or put back. *)
Lemma in_snd {A B} (p : A * B) (l : list (A * B)) : p ∈ l -> p.2 ∈ map snd l.
Proof. intros H. apply list_elem_of_In, in_map. by apply list_elem_of_In. Qed.

Lemma snd_in {A B} (x : B) (l : list (A * B)) : x ∈ map snd l -> exists a, (a, x) ∈ l.
Proof. intros H. apply list_elem_of_In, in_map_iff in H as ([a y] & <- & H). exists a. by apply list_elem_of_In. Qed.

Lemma gc_sweep scid h things gc : ordered gc -> NoDup (map snd gc) -> (forall x, x ∈ map snd gc -> x ∈ dom h) ->
  (forall x, x ∈ map snd gc -> x ∉ things) ->
  exists old young h' things', gc = old ++ young /\ Forall (fun p => p.1 <= scid) old /\ Forall (fun p => scid < p.1) young /\
    ('(h, m) ← gc_clear scid h gc; gc_shift m h things gc) = Some (h', things', young) /\
    (forall x, x ∈ things' <-> x ∈ things \/ x ∈ map snd old /\ x ∉ white h) /\
    (forall x, h' !! x =
       if bool_decide (x ∈ map snd young) then set_sweep true <$> h !! x
       else if bool_decide (x ∈ map snd old /\ x ∈ white h) then None else h !! x).
Proof.
  intros Hord Hnd Hdom Hdis. destruct (ordered_split scid gc Hord) as (old & young & -> & Ho & Hy & Hcount).
  rewrite map_app in *. apply list.NoDup_app in Hnd as (Hndo & Hdj & Hndy).
  destruct (gc_clear_spec scid h (old ++ young)) as (h2 & -> & C1 & C2).
  { intros p Hp. apply Hdom. rewrite <- map_app. by apply in_snd. }
  { rewrite map_app. by apply list.NoDup_app. }
  rewrite map_app in C1. cbn [mbind option_bind]. rewrite Hcount.
  assert (Hold : forall x, x ∈ map snd old -> exists t, h !! x = Some t /\ h2 !! x = Some (if t_sweep t then Thing [] true else t)).
  { intros x Hx. destruct (proj1 (elem_of_dom h x)) as [t Ht]; [apply Hdom; set_solver|]. exists t. split; [done|].
    destruct (snd_in x old Hx) as (ch & Hch). rewrite (C2 ch x t) by (done || set_solver). unfold cleared.
    rewrite List.Forall_forall in Ho. apply list_elem_of_In, Ho in Hch. cbn in Hch. by rewrite (proj2 (Z.ltb_ge scid ch)). }
  assert (Hyoung : forall x, x ∈ map snd young -> h2 !! x = set_sweep true <$> h !! x).
  { intros x Hx. destruct (proj1 (elem_of_dom h x)) as [t Ht]; [apply Hdom; set_solver|]. rewrite Ht.
    destruct (snd_in x young Hx) as (ch & Hch). rewrite (C2 ch x t) by (done || set_solver). unfold cleared.
    rewrite List.Forall_forall in Hy. apply list_elem_of_In, Hy in Hch. cbn in Hch. by rewrite (proj2 (Z.ltb_lt scid ch)). }
  assert (Hw : forall x, x ∈ map snd old -> x ∈ white h2 <-> x ∈ white h).
  { intros x Hx. destruct (Hold x Hx) as (t & H1 & H2). rewrite !elem_of_white, H1, H2.
    destruct (t_sweep t) eqn:E; split; intros (t' & [= <-] & Ht'); eauto; congruence. }
  destruct (gc_shift_spec h2 things old young) as (h3 & things' & Hsh & D1 & D2); [|done| |].
  { intros p Hp. destruct (Hold p.2 (in_snd _ _ Hp)) as (t & _ & H2). by eapply elem_of_dom_2. }
  { intros p Hp. apply Hdis. apply in_snd in Hp. set_solver. }
  exists old, young, h3, things'. split_and!; [done..| |].
  - intros x. rewrite D2. split; intros [H|[H1 H2]]; auto; right; (split; [done|]); by rewrite (Hw x H1) in *.
  - intros x. rewrite D1. destruct (decide (x ∈ map snd old)) as [Hx|Hx].
    + rewrite (bool_decide_false (x ∈ map snd young)) by by apply Hdj. destruct (Hold x Hx) as (t & H1 & H2). rewrite H1, H2.
      rewrite (bool_decide_ext _ (x ∈ map snd old /\ x ∈ white h)) by (rewrite (Hw x Hx); done).
      case_bool_decide as Hb; [done|]. destruct (t_sweep t) eqn:E; [|done]. exfalso. apply Hb. split; [done|].
      apply elem_of_white. by exists t.
    + rewrite !(bool_decide_false (_ /\ _)) by tauto. case_bool_decide as Hb; [by apply Hyoung|]. apply C1. set_solver.
Qed.

Lemma gc_run ccid scid c : ready c -> queue_ok c ->
  exists c' (W : gset Z) old young l, ti_collection_gc true ccid scid (fun _ => true) c = Some c' /\
    (forall x, x ∈ dom (c_heap c) -> x ∉ W <-> live c x) /\
    c_gc c = old ++ young /\ Forall (fun p => p.1 <= scid) old /\ Forall (fun p => scid < p.1) young /\
    (forall x, c_heap c' !! x = if bool_decide (x ∈ map snd old /\ x ∈ W) then None else c_heap c !! x) /\
    (forall x, x ∈ c_things c' <-> x ∉ W /\ (x ∈ c_things c \/ x ∈ map snd old)) /\
    c_gc c' = young ++ map (fun x => (ccid, x)) l /\ NoDup l /\ (forall x, x ∈ l <-> x ∈ c_things c /\ x ∈ W) /\
    c_root c' = c_root c /\ c_vtasks c' = c_vtasks c /\ c_enums c' = c_enums c.
Proof.
  intros Hready (Hnd & Hord & Hdis & Hdom). pose proof Hready as (_ & Hwhite & _).
  destruct (gc_mark_exact c Hready) as (h1 & Hm & S1 & Hlive). set (W := white h1) in *.
  destruct (gc_sweep scid h1 (c_things c) (c_gc c)) as (old & young & h3 & things' & Hgc & Ho & Hy & Hsw & Hth & Hh3); [done|done| |done|].
  { intros x Hx. rewrite <- (same_dom _ _ S1). apply Hdom. by right. }
  fold W in Hth, Hh3. apply bind_Some in Hsw as ([h2 m] & Hcl & Hsh).
  assert (Hids : gc_ids c = map snd old ++ map snd young) by (unfold gc_ids; by rewrite Hgc, map_app).
  assert (Hdj : forall x, x ∈ map snd old -> x ∉ map snd young) by (rewrite Hids in Hnd; by apply list.NoDup_app in Hnd as (_ & Hnd & _)).
  assert (Horig : forall x, set_sweep true <$> h1 !! x = c_heap c !! x).
  { intros x. destruct (c_heap c !! x) as [t0|] eqn:E0.
    - destruct (same_lookup _ _ x t0 S1 E0) as (t1 & -> & Hv).
      assert (x ∈ white (c_heap c)) as Hx by (rewrite Hwhite; by eapply elem_of_dom_2).
      apply elem_of_white in Hx as (t & Ht & Hs). assert (t = t0) as -> by congruence. cbn. unfold set_sweep. rewrite Hv. by destruct t0; cbn in *; subst.
    - apply not_elem_of_dom in E0. rewrite (same_dom _ _ S1) in E0. apply not_elem_of_dom in E0. by rewrite E0. }
  assert (Hin : forall x, x ∈ things' -> x ∈ dom (c_heap c)).
  { intros x Hx. apply Hdom. rewrite Hids, elem_of_app. apply Hth in Hx. tauto. }
  assert (Hout : forall x, x ∈ c_things c -> x ∉ map snd old /\ x ∉ map snd young).
  { intros x Hx. rewrite <- not_elem_of_app, <- Hids. intros H. by apply (Hdis x). }
  assert (Hthings : forall x, x ∈ things' -> h3 !! x = h1 !! x).
  { intros x Hx. rewrite Hh3. apply Hth in Hx as [Hx|[Hx Hw]].
    - destruct (Hout x Hx) as [N1 N2]. rewrite bool_decide_false by done. by rewrite bool_decide_false by tauto.
    - rewrite bool_decide_false by by apply Hdj. by rewrite bool_decide_false by tauto. }
  destruct (gc_collect_spec ccid h3 (elements things')) as (h4 & new & Hco & S4 & E1 & E2 & Hnew).
  { intros x Hx. apply elem_of_elements in Hx. apply elem_of_dom. rewrite (Hthings x Hx). apply elem_of_dom. rewrite <- (same_dom _ _ S1). auto. }
  { apply NoDup_elements. }
  unfold ti_collection_gc. rewrite Hm. cbn [mbind option_bind]. rewrite Hcl. cbn [mbind option_bind]. rewrite Hsh. cbn [mbind option_bind].
  rewrite Hco. cbn [mbind option_bind]. set (l := filter (fun x => x ∈ white h3) (elements things')) in *.
  assert (Hl : forall x, x ∈ l <-> x ∈ c_things c /\ x ∈ W).
  { intros x. unfold l, W. rewrite list_elem_of_filter, elem_of_elements, !elem_of_white. split.
    - intros [Hw Hx]. rewrite (Hthings x Hx) in Hw. split; [|done]. apply Hth in Hx as [Hx|[_ Hx]]; [done|].
      unfold W in Hx. rewrite elem_of_white in Hx. tauto.
    - intros [Hx Hw]. assert (x ∈ things') as Hx' by (apply Hth; by left). by rewrite (Hthings x Hx'). }
  eexists _, W, old, young, l. split; [reflexivity|]. cbn [c_heap c_things c_gc c_root c_vtasks c_enums]. split_and!; try done.
  - intros x. rewrite <- (Horig x). destruct (decide (x ∈ things')) as [Hx|Hx].
    + pose proof (Hthings x Hx) as Hx3. rewrite bool_decide_false by (apply Hth in Hx as [Hx|[_ Hx]]; [|tauto]; destruct (Hout x Hx); tauto).
      destruct (h1 !! x) as [t1|] eqn:Et; [by apply E2; [apply elem_of_elements|]|].
      exfalso. pose proof (Hin x Hx) as Hd. rewrite (same_dom _ _ S1) in Hd. apply elem_of_dom in Hd as [? ?]. congruence.
    + rewrite E1 by by rewrite elem_of_elements. rewrite Hh3. rewrite Hth in Hx. case_bool_decide as Hb1.
      { rewrite bool_decide_false; [done|]. intros [H _]. by apply (Hdj x). }
      case_bool_decide as Hb2; [done|]. assert (h1 !! x = None) as ->; [|done]. apply not_elem_of_dom. rewrite <- (same_dom _ _ S1), Hdom, Hids, elem_of_app. tauto.
  - intros x. rewrite elem_of_difference, elem_of_list_to_set, Hth. rewrite Hnew, map_map, map_id. rewrite Hl. tauto.
  - by rewrite Hnew.
  - unfold l. apply list.NoDup_filter, NoDup_elements.
Qed.
