(* ===== verification/GcProps.v ===== *)
(** * Safety of the garbage collector

    Runs of the collector between changes of the collection: nothing that can be
    reached is destroyed, and no thing is left that refers to a destroyed one. *)
From Stdlib Require Import ZArith Lia.
From stdpp Require Import base gmap sets fin_map_dom list option numbers relations.
From S2P Require Import Prelude Gc GcProof.

(** ** References *)

(** All things a value refers to. *)
Fixpoint refs_val (v : gval) : list Z :=
  match v with
  | GThing id | GWrap id | GWano id => [id]
  | GArr _ l => concat (map refs_val l)
  | GSet l => l
  | GOther => []
  end.
Definition refs (vals : list gval) : list Z := concat (map refs_val vals).

(** The mark phase follows all of them: lists with things have their flag, and
    there is no value of an anonymous type. *)
Definition covered (vals : list gval) : Prop := forall x, x ∈ refs vals -> x ∈ gc_refs vals.

Definition root_refs (c : collection) : list Z := refs (concat (c_vtasks c)) ++ c_enums c ++ [c_root c].

(** Reachable along all references. *)
Inductive reaches (c : collection) : Z -> Prop :=
  | reaches_root x : x ∈ root_refs c -> reaches c x
  | reaches_step x t y : reaches c x -> c_heap c !! x = Some t -> y ∈ refs (t_vals t) -> reaches c y.

(** What holds between runs. *)
Record safe (c : collection) : Prop := Safe {
  s_white : white (c_heap c) = dom (c_heap c);
  s_queue : queue_ok c;
  s_root : forall x, x ∈ root_refs c -> x ∈ c_things c;
  s_heap : forall x t y, c_heap c !! x = Some t -> y ∈ refs (t_vals t) -> y ∈ dom (c_heap c);
  s_age : forall x t y ch, c_heap c !! x = Some t -> y ∈ refs (t_vals t) -> (ch, y) ∈ c_gc c -> exists ch', (ch', x) ∈ c_gc c /\ ch' <= ch;
  s_cover : forall x t, c_heap c !! x = Some t -> covered (t_vals t);
  s_tasks : covered (concat (c_vtasks c))
}.

(** ** Steps between runs *)

Definition with_thing (c : collection) (id : Z) (t : thing) (things : gset Z) : collection :=
  Collection (<[id := t]> (c_heap c)) things (c_root c) (c_vtasks c) (c_enums c) (c_gc c).

Inductive gc_step : collection -> collection -> Prop :=
  | step_assign c id t vals :                               (* new values for a thing *)
      id ∈ c_things c -> c_heap c !! id = Some t -> covered vals -> (forall x, x ∈ refs vals -> x ∈ c_things c) ->
      gc_step c (with_thing c id (Thing vals (t_sweep t)) (c_things c))
  | step_create c id vals :                                 (* a new thing *)
      id ∉ dom (c_heap c) -> covered vals -> (forall x, x ∈ refs vals -> x = id \/ x ∈ c_things c) ->
      gc_step c (with_thing c id (Thing vals true) ({[id]} ∪ c_things c))
  | step_roots c vtasks enums :                             (* tasks and enumerations *)
      covered (concat vtasks) -> (forall x, x ∈ refs (concat vtasks) ++ enums -> x ∈ c_things c) ->
      gc_step c (Collection (c_heap c) (c_things c) (c_root c) vtasks enums (c_gc c))
  | step_free c id :                                        (* the last reference is gone *)
      id ∈ c_things c -> id ∉ root_refs c -> (forall x t, c_heap c !! x = Some t -> id ∉ refs (t_vals t)) ->
      gc_step c (Collection (delete id (c_heap c)) (c_things c ∖ {[id]}) (c_root c) (c_vtasks c) (c_enums c) (c_gc c))
  | step_gc c c' ccid scid :
      Forall (fun p => p.1 <= ccid) (c_gc c) -> ti_collection_gc true ccid scid (fun _ => true) c = Some c' -> gc_step c c'.

(** What is followed is a reference. *)
Lemma mark_val_refs v x : x ∈ gc_mark_val v -> x ∈ refs_val v.
Proof.
  revert v x. fix IH 1. intros v x. destruct v as [id|id|id|mht l|l|]; cbn; try set_solver.
  destruct mht; [|set_solver]. induction l as [|v l IHl]; cbn; [done|]. rewrite !elem_of_app. intros [H|H]; [left; by apply IH|right; by apply IHl].
Qed.

Lemma gc_refs_refs vals x : x ∈ gc_refs vals -> x ∈ refs vals.
Proof.
  unfold gc_refs, refs. induction vals as [|v vals IH]; cbn; [done|]. rewrite !elem_of_app. intros [H|H]; [left|right; auto].
  destruct v; try (by apply mark_val_refs). exact H.
Qed.

Lemma safe_ready c : safe c -> ready c.
Proof.
  intros H. split_and!.
  - intros id t x Ht Hx. eapply (s_heap c H); [done|]. by apply gc_refs_refs.
  - apply (s_white c H).
  - intros r Hr. destruct (s_queue c H) as (_ & _ & _ & Hd). apply Hd. left. apply (s_root c H). unfold roots, root_refs in *.
    rewrite !elem_of_app in *. destruct Hr as [Hr|Hr]; [left; by apply gc_refs_refs|by right].
Qed.

Lemma live_reaches c x : safe c -> live c x <-> reaches c x.
Proof.
  intros H. split.
  - intros (r & Hr & Hx). induction Hx as [|b t z Hb IH Ht Hz].
    + apply reaches_root. unfold roots, root_refs in *. rewrite !elem_of_app in *.
      destruct Hr as [Hr|Hr]; [left; by apply gc_refs_refs|by right].
    + eapply reaches_step; [done|done|]. by apply gc_refs_refs.
  - induction 1 as [x Hx|x t y Hx (r & Hr & IH) Ht Hy].
    + exists x. split; [|constructor]. unfold roots, root_refs in *. rewrite !elem_of_app in *.
      destruct Hx as [Hx|Hx]; [left; by apply (s_tasks c H)|by right].
    + exists r. split; [done|]. eapply reach_step; [done|done|]. by apply (s_cover c H x).
Qed.

(** Everything that is reached is outside the queue. *)
Lemma reaches_things c x : safe c -> reaches c x -> x ∈ c_things c.
Proof.
  intros H. induction 1 as [x Hx|x t y Hx IH Ht Hy]; [by apply (s_root c H)|].
  destruct (s_queue c H) as (_ & _ & Hdis & Hd). destruct (proj1 (Hd y)) as [|Hq]; [by eapply (s_heap c H)|done|].
  destruct (snd_in y (c_gc c) Hq) as (ch & Hch). destruct (s_age c H x t y ch Ht Hy Hch) as (ch' & Hch' & _).
  exfalso. apply (Hdis x); [|done]. exact (in_snd _ _ Hch').
Qed.

(** ** A run keeps the collection safe *)

Lemma ordered_app l k : ordered (l ++ k) <-> ordered l /\ ordered k /\ forall p q, p ∈ l -> q ∈ k -> p.1 <= q.1.
Proof.
  induction l as [|p l IH]; cbn.
  - split; [intros H; split_and!; [done|done|]; intros p q Hp; by apply elem_of_nil in Hp|tauto].
  - rewrite IH, !List.Forall_forall. setoid_rewrite <- list_elem_of_In. split.
    + intros (H1 & H2 & H3 & H4). split_and!; try done.
      * intros x Hx. apply H1, elem_of_app. by left.
      * intros a b Ha Hb. apply elem_of_cons in Ha as [->|Ha]; [|by apply H4]. apply H1, elem_of_app. by right.
    + intros ((H1 & H2) & H3 & H4). split_and!; try done.
      * intros x Hx. apply elem_of_app in Hx as [Hx|Hx]; [by apply H1|]. apply H4; [by left|done].
      * intros a b Ha Hb. apply H4; [by right|done].
Qed.

Lemma ordered_const ch l : ordered (map (fun x => (ch, x)) l).
Proof.
  induction l as [|x l IH]; cbn; [done|]. split; [|done]. apply List.Forall_forall. intros q Hq.
  apply in_map_iff in Hq as (y & <- & _). cbn. lia.
Qed.

(** A run in terms of what is reached. *)
Definition swept (ccid scid : Z) (c c' : collection) : Prop :=
  exists (W : gset Z) old young l,
    (forall x, x ∈ dom (c_heap c) -> x ∉ W <-> reaches c x) /\
    c_gc c = old ++ young /\ Forall (fun p => p.1 <= scid) old /\ Forall (fun p => scid < p.1) young /\
    (forall x, c_heap c' !! x = if bool_decide (x ∈ map snd old) then None else c_heap c !! x) /\
    (forall x, x ∈ c_things c' <-> x ∈ c_things c /\ x ∉ W) /\
    c_gc c' = young ++ map (fun x => (ccid, x)) l /\ NoDup l /\ (forall x, x ∈ l <-> x ∈ c_things c /\ x ∈ W) /\
    c_root c' = c_root c /\ c_vtasks c' = c_vtasks c /\ c_enums c' = c_enums c.

Lemma gc_swept ccid scid c : safe c -> exists c', ti_collection_gc true ccid scid (fun _ => true) c = Some c' /\ swept ccid scid c c'.
Proof.
  intros H. destruct (gc_run ccid scid c (safe_ready c H) (s_queue c H))
    as (c' & W & old & young & l & Hrun & HW & Hgc & Ho & Hy & Hh & Ht & Hq & Hnd & Hl & R1 & R2 & R3).
  destruct (s_queue c H) as (_ & _ & Hdis & Hd).
  assert (Hold : forall x, x ∈ map snd old -> x ∈ W).
  { intros x Hx. assert (x ∈ gc_ids c) as Hg by (unfold gc_ids; rewrite Hgc, map_app, elem_of_app; by left).
    destruct (decide (x ∈ W)) as [|Hn]; [done|exfalso]. apply (Hdis x Hg), reaches_things; [done|]. apply (live_reaches c x H), HW; [|done].
    apply Hd. by right. }
  exists c'. split; [done|]. exists W, old, young, l. split_and!; try done.
  - intros x Hx. by rewrite HW, live_reaches.
  - intros x. rewrite Hh. rewrite (bool_decide_ext _ (x ∈ map snd old)); [done|]. split; [tauto|]. auto.
  - intros x. rewrite Ht. split; [intros [Hw [Hx|Hx]]; [done|by apply Hold in Hx]|tauto].
Qed.

Section Swept.
Context (ccid scid : Z) (c c' : collection) (Hsafe : safe c) (Hcc : Forall (fun p => p.1 <= ccid) (c_gc c)) (Hs : swept ccid scid c c').

Lemma swept_queue : queue_ok c'.
Proof.
  destruct Hs as (W & old & young & l & HW & Hgc & Ho & Hy & Hh & Ht & Hq & Hnd & Hl & _).
  destruct (s_queue c Hsafe) as (Hn & Hord & Hdis & Hd). unfold queue_ok, gc_ids in *. rewrite Hgc, map_app in *.
  rewrite Hq, map_app, map_map, map_id. cbn [snd]. apply list.NoDup_app in Hn as (Hno & Hdj & Hny). split_and!.
  - apply list.NoDup_app. split_and!; [done| |done]. intros x Hx Hxl. apply Hl in Hxl as [Hxt _]. apply (Hdis x); [|done]. apply elem_of_app. by right.
  - apply ordered_app in Hord as (_ & Hoy & _). apply ordered_app. split_and!; [done|apply ordered_const|].
    intros p q Hp Hq'. apply list_elem_of_In, in_map_iff in Hq' as (y & <- & _). cbn. rewrite List.Forall_forall in Hcc. apply Hcc, list_elem_of_In.
    apply elem_of_app. by right.
  - intros x Hx. rewrite Ht. intros [Hxt Hxw]. apply elem_of_app in Hx as [Hx|Hx]; [|by apply Hl in Hx as [_ Hx]].
    apply (Hdis x); [|done]. apply elem_of_app. by right.
  - intros x. rewrite Ht, elem_of_app, Hl, elem_of_dom, Hh. case_bool_decide as Hb.
    + split; [intros [? ?]; done|]. intros [[Hx _]|[Hx|[Hx _]]]; exfalso; [|by apply (Hdj x)|];
        (apply (Hdis x); [|done]; apply elem_of_app; by left).
    + rewrite <- elem_of_dom, Hd, elem_of_app. destruct (decide (x ∈ W)); tauto.
Qed.

(** A reference between things that stay. *)
Lemma swept_refs x t y : c_heap c' !! x = Some t -> y ∈ refs (t_vals t) ->
  y ∈ dom (c_heap c') /\ forall ch, (ch, y) ∈ c_gc c' -> exists ch', (ch', x) ∈ c_gc c' /\ ch' <= ch.
Proof.
  destruct Hs as (W & old & young & l & HW & Hgc & Ho & Hy & Hh & Ht & Hq & Hnd & Hl & _).
  destruct (s_queue c Hsafe) as (Hn & Hord & Hdis & Hd). intros Hx Hyr. rewrite Hh in Hx. case_bool_decide as Hb; [done|].
  assert (Hkeep : forall ch, (ch, x) ∈ c_gc c -> (ch, x) ∈ young).
  { intros ch Hch. rewrite Hgc, elem_of_app in Hch. destruct Hch as [Hch|]; [|done]. exfalso. apply Hb. exact (in_snd _ _ Hch). }
  split.
  - apply elem_of_dom. rewrite Hh. case_bool_decide as Hby; [exfalso|by apply elem_of_dom, (s_heap c Hsafe x t)].
    destruct (snd_in y old Hby) as (ch & Hch). destruct (s_age c Hsafe x t y ch Hx Hyr) as (ch' & Hch' & Hle); [rewrite Hgc; apply elem_of_app; by left|].
    apply Hkeep in Hch'. rewrite List.Forall_forall in Ho, Hy. apply list_elem_of_In, Ho in Hch. apply list_elem_of_In, Hy in Hch'. cbn in *. lia.
  - intros ch Hch. rewrite Hq, elem_of_app in Hch. setoid_rewrite Hq. destruct Hch as [Hch|Hch].
    + destruct (s_age c Hsafe x t y ch Hx Hyr) as (ch' & Hch' & Hle); [rewrite Hgc; apply elem_of_app; by right|].
      exists ch'. split; [apply elem_of_app; left; by apply Hkeep|done].
    + apply list_elem_of_In, in_map_iff in Hch as (y' & [= <- ->] & Hyl). apply list_elem_of_In, Hl in Hyl as [Hyt Hyw].
      assert (Hxd : x ∈ dom (c_heap c)) by by eapply elem_of_dom_2. apply Hd in Hxd as Hx'. destruct Hx' as [Hxt|Hxq].
      * exists ccid. split; [|lia]. apply elem_of_app. right. apply list_elem_of_In, in_map_iff. exists x. split; [done|]. apply list_elem_of_In, Hl.
        split; [done|]. destruct (decide (x ∈ W)) as [|Hxw]; [done|exfalso]. apply HW in Hxw; [|done].
        assert (y ∉ W); [|done]. apply HW; [by eapply (s_heap c Hsafe)|]. by eapply reaches_step.
      * destruct (snd_in x (c_gc c) Hxq) as (ch' & Hch'). exists ch'. split; [apply elem_of_app; left; by apply Hkeep|].
        rewrite List.Forall_forall in Hcc. apply list_elem_of_In, Hcc in Hch'. exact Hch'.
Qed.

Lemma swept_safe : safe c'.
Proof.
  pose proof swept_queue as Hqueue. pose proof swept_refs as Hrefs.
  destruct Hs as (W & old & young & l & HW & Hgc & Ho & Hy & Hh & Ht & Hq & Hnd & Hl & R1 & R2 & R3).
  destruct (s_queue c Hsafe) as (Hn & Hord & Hdis & Hd).
  assert (Hsub : forall x t, c_heap c' !! x = Some t -> c_heap c !! x = Some t).
  { intros x t Hx. rewrite Hh in Hx. by case_bool_decide. }
  constructor.
  - apply set_eq. intros x. rewrite elem_of_white, elem_of_dom. split; [intros (t & H1 & _); by exists t|]. intros [t Hx]. exists t. split; [done|].
    assert (x ∈ white (c_heap c)) as Hw by (rewrite (s_white c Hsafe); eapply elem_of_dom_2; by apply Hsub).
    apply elem_of_white in Hw as (t' & Ht' & Hs'). apply Hsub in Hx. congruence.
  - done.
  - intros x Hx. unfold root_refs in Hx. rewrite R1, R2, R3 in Hx. fold (root_refs c) in Hx. apply Ht.
    assert (x ∈ c_things c) by by apply (s_root c Hsafe). split; [done|]. apply HW; [apply Hd; by left|by apply reaches_root].
  - intros x t y Hx Hyr. by apply (Hrefs x t y Hx Hyr).
  - intros x t y ch Hx Hyr Hch. by apply (Hrefs x t y Hx Hyr).
  - intros x t Hx. apply (s_cover c Hsafe x). by apply Hsub.
  - rewrite R2. apply (s_tasks c Hsafe).
Qed.
End Swept.

(** ** The other steps *)

Lemma white_insert h id t : t_sweep t = true -> white h = dom h -> white (<[id := t]> h) = dom (<[id := t]> h).
Proof.
  intros Ht Hw. apply set_eq. intros x. rewrite elem_of_white, elem_of_dom. split; [intros (t' & H & _); by exists t'|].
  intros [t' Hx]. exists t'. split; [done|]. destruct (decide (x = id)) as [->|Hne]; [rewrite lookup_insert_eq in Hx; congruence|].
  rewrite lookup_insert_ne in Hx by done. assert (x ∈ white h) as Hxw by (rewrite Hw; by eapply elem_of_dom_2).
  apply elem_of_white in Hxw as (t2 & H2 & H3). congruence.
Qed.

(** A thing with new values: its references are outside the queue. *)
Lemma put_safe c id vals things : safe c -> (forall x, x ∈ things <-> x = id \/ x ∈ c_things c) -> id ∉ gc_ids c -> covered vals ->
  (forall x, x ∈ refs vals -> x ∈ things) -> safe (with_thing c id (Thing vals true) things).
Proof.
  intros H Hth Hid Hcov Href. destruct (s_queue c H) as (Hn & Hord & Hdis & Hd). unfold with_thing.
  assert (Hlook : forall x t, <[id := Thing vals true]> (c_heap c) !! x = Some t -> x = id /\ t = Thing vals true \/ x <> id /\ c_heap c !! x = Some t).
  { intros x t Hx. destruct (decide (x = id)) as [->|Hne]; [rewrite lookup_insert_eq in Hx; left; split; congruence|].
    rewrite lookup_insert_ne in Hx by done. by right. }
  assert (Hdis' : forall x, x ∈ gc_ids c -> x ∉ things).
  { intros x Hx. rewrite Hth. intros [->|Hxt]; [done|]. by apply (Hdis x). }
  constructor; cbn [c_heap c_things c_root c_vtasks c_enums c_gc].
  - by apply white_insert, (s_white c H).
  - split_and!; [done|done|done|]. intros x. cbn [c_heap]. rewrite dom_insert, elem_of_union, elem_of_singleton, Hd, Hth. tauto.
  - intros x Hx. apply Hth. right. by apply (s_root c H).
  - intros x t y Hx Hy. rewrite dom_insert, elem_of_union, elem_of_singleton. apply Hlook in Hx as [[-> ->]|[_ Hx]].
    + apply Href, Hth in Hy as [->|Hy]; [by left|]. right. apply Hd. by left.
    + right. by eapply (s_heap c H).
  - intros x t y ch Hx Hy Hch. apply Hlook in Hx as [[-> ->]|[_ Hx]]; [|by eapply (s_age c H)].
    exfalso. apply (Hdis' y); [exact (in_snd _ _ Hch)|by apply Href].
  - intros x t Hx. apply Hlook in Hx as [[-> ->]|[_ Hx]]; [done|by eapply (s_cover c H)].
  - apply (s_tasks c H).
Qed.

Lemma step_safe c c' : gc_step c c' -> safe c -> safe c'.
Proof.
  intros Hst H. destruct (s_queue c H) as (Hn & Hord & Hdis & Hd).
  destruct Hst as [c id t vals Hid Ht Hcov Href|c id vals Hid Hcov Href|c vtasks enums Hcov Href|c id Hid Hr Hno|c c' ccid scid Hcc Hgc].
  - assert (t_sweep t = true) as ->.
    { assert (id ∈ white (c_heap c)) as Hw by (rewrite (s_white c H); by eapply elem_of_dom_2).
      apply elem_of_white in Hw as (t' & ? & ?). congruence. }
    apply put_safe; try done; [|by intros Hq; apply (Hdis id)]. intros x. split; [by right|intros [->|]; done].
  - apply put_safe; try done.
    + intros x. rewrite elem_of_union, elem_of_singleton. done.
    + intros Hq. apply Hid, Hd. by right.
    + intros x Hx. apply Href in Hx. set_solver.
  - constructor; cbn [c_heap c_things c_root c_vtasks c_enums c_gc]; try apply H; [|done].
    intros x Hx. unfold root_refs in Hx. cbn in Hx. rewrite app_assoc, elem_of_app, list_elem_of_singleton in Hx. destruct Hx as [Hx| ->]; [auto|].
    apply (s_root c H). unfold root_refs. rewrite !elem_of_app, list_elem_of_singleton. auto.
  - assert (Hlook : forall x t, delete id (c_heap c) !! x = Some t -> x <> id /\ c_heap c !! x = Some t).
    { intros x t Hx. apply lookup_delete_Some in Hx as [? ?]. auto. }
    constructor; cbn [c_heap c_things c_root c_vtasks c_enums c_gc].
    + apply set_eq. intros x. rewrite elem_of_white, elem_of_dom. split; [intros (t & Ht & _); by exists t|]. intros [t Hx]. exists t. split; [done|].
      apply Hlook in Hx as [_ Hx]. assert (x ∈ white (c_heap c)) as Hw by (rewrite (s_white c H); by eapply elem_of_dom_2).
      apply elem_of_white in Hw as (t' & ? & ?). congruence.
    + split_and!; [done|done|intros x Hx; cbn [c_things]; rewrite elem_of_difference; intros [Hxt _]; by apply (Hdis x)|].
      intros x. cbn [c_heap c_things]. unfold gc_ids. cbn [c_gc]. rewrite dom_delete, !elem_of_difference, Hd, elem_of_singleton.
      split; [tauto|]. intros [[? ?]|Hq]; [tauto|]. split; [by right|]. intros ->. by apply (Hdis id).
    + intros x Hx. apply elem_of_difference. split; [by apply (s_root c H)|]. rewrite elem_of_singleton. intros ->. done.
    + intros x t y Hx Hy. apply Hlook in Hx as [_ Hx]. rewrite dom_delete, elem_of_difference, elem_of_singleton.
      split; [by eapply (s_heap c H)|]. intros ->. by apply (Hno x t).
    + intros x t y ch Hx. apply Hlook in Hx as [_ Hx]. by apply (s_age c H).
    + intros x t Hx. apply Hlook in Hx as [_ Hx]. by eapply (s_cover c H).
    + apply (s_tasks c H).
  - destruct (gc_swept ccid scid c H) as (c2 & Hgc2 & Hsw). assert (c2 = c') as -> by congruence. by eapply swept_safe.
Qed.

(** ** Properties *)

(** A collection with only its root. *)
Definition empty_collection (root : Z) : collection := Collection {[root := Thing [] true]} {[root]} root [] [] [].

Lemma empty_safe root : safe (empty_collection root).
Proof.
  assert (Hl : forall x t, c_heap (empty_collection root) !! x = Some t -> x = root /\ t = Thing [] true).
  { intros x t Hx. cbn in Hx. apply lookup_singleton_Some in Hx as [-> <-]. done. }
  constructor.
  - apply set_eq. intros x. rewrite elem_of_white. split; [intros (t & Ht & _); by eapply elem_of_dom_2|].
    intros Hx. apply elem_of_dom in Hx as [t Ht]. exists t. split; [done|]. by apply Hl in Ht as [_ ->].
  - split_and!; [constructor|done|intros x Hx; by apply elem_of_nil in Hx|]. intros x. cbn. rewrite dom_singleton. set_solver.
  - intros x Hx. cbn in *. set_solver.
  - intros x t y Hx Hy. apply Hl in Hx as [-> ->]. by apply elem_of_nil in Hy.
  - intros x t y ch Hx Hy. apply Hl in Hx as [-> ->]. by apply elem_of_nil in Hy.
  - intros x t Hx. apply Hl in Hx as [-> ->]. by intros y Hy.
  - by intros y Hy.
Qed.



(** ** Witnesses *)

(** Two things that refer to each other, one of them in a list of the root. *)
Definition c1 : collection := with_thing (empty_collection 1) 2 (Thing [GSet [2]] true) {[2; 1]}.
Definition c2 : collection := with_thing c1 3 (Thing [GThing 2; GThing 3] true) ({[3]} ∪ c_things c1).
Definition c3 : collection := with_thing c2 1 (Thing [GArr true [GThing 2]] true) (c_things c2).

Lemma c3_steps : rtc gc_step (empty_collection 1) c3.
Proof.
  eapply rtc_l; [|eapply rtc_l; [|eapply rtc_once]].
  - apply (step_create (empty_collection 1) 2 [GSet [2]]).
    + eapply bool_decide_unpack. by vm_compute.
    + intros x Hx. exact Hx.
    + intros x Hx. left. by apply list_elem_of_singleton in Hx.
  - apply (step_create c1 3 [GThing 2; GThing 3]).
    + eapply bool_decide_unpack. by vm_compute.
    + intros x Hx. exact Hx.
    + intros x Hx. change (x ∈ [2; 3]) in Hx. apply elem_of_cons in Hx as [->|Hx].
      * right. eapply bool_decide_unpack. by vm_compute.
      * left. by apply list_elem_of_singleton in Hx.
  - apply (step_assign c2 1 (Thing [] true) [GArr true [GThing 2]]).
    + eapply bool_decide_unpack. by vm_compute.
    + by vm_compute.
    + intros x Hx. exact Hx.
    + intros x Hx. change (x ∈ [2]) in Hx. apply list_elem_of_singleton in Hx as ->. eapply bool_decide_unpack. by vm_compute.
Qed.



(** ** What the conditions exclude *)

(** A thing that is still referred to, and not there. *)
Definition dangles (c : collection) : bool :=
  existsb (fun p => existsb (fun y => negb (bool_decide (y ∈ dom (c_heap c)))) (refs (t_vals p.2))) (map_to_list (c_heap c)).

Definition collection_of (h : list (Z * list gval)) : collection :=
  let m := map (fun p => (p.1, Thing p.2 true)) h in
  Collection (list_to_map m) (list_to_set (map fst h)) 1 [] [] [].

(** Two runs, one when the thing is out of reach and one when that is stored. *)
Definition two_runs (between : collection -> option collection) (c : collection) : option collection :=
  c ← ti_collection_gc true 5 4 (fun _ => true) c; c ← between c; ti_collection_gc true 6 5 (fun _ => true) c.

(** A thing that is looked up by its id comes back without what it refers to: thing
    3 is destroyed in the queue while thing 2, put back, still refers to it. *)
Theorem gc_restored_thing_dangles :
  dangles <$> two_runs (ti_collection_thing_restore_gc 2) (collection_of [(1, []); (2, [GThing 2; GThing 3]); (3, [])]) = Some true.
Proof. by vm_compute. Qed.

(** The mark phase passes over a value of an anonymous type and over a list without
    its flag: the thing in it is destroyed although the root refers to it. *)
Theorem gc_hidden_thing_dangles : forall v, v = GWano 2 \/ v = GArr false [GThing 2] ->
  dangles <$> two_runs Some (collection_of [(1, [v]); (2, [])]) = Some true.
Proof. intros v [->| ->]; by vm_compute. Qed.
