(* ===== verification/FieldInit.v ===== *)
(** * ti/field, ti/condition: reading the declaration of a field

    [field__init] of [src/src/ti/field.c] with [ti_condition_field_info_init] and
    [ti_condition_field_re_init] of [src/src/ti/condition.c]: from the text of a
    declaration, such as [&\[Type?\]] or [int<0:10:5>?], to the specification of a
    field, its condition, the function for its default value and its flags. A
    declaration that is not a text (an anonymous type) is not part of this file.

    A declaration is a list of bytes, a pointer into it is the rest of the list;
    [None] is undefined behaviour. [mem]: allocations succeed. The dependency that
    is counted on another type or enumeration is returned next to the result, also
    when the declaration is refused. *)
From Stdlib Require Import ZArith Lia Ascii String Floats.SpecFloat.
From stdpp Require Import base list option numbers.
From S2P Require Import Prelude Utf8 Opr Strx Spec Keywords Field.

(** The types and enumerations of a collection, as far as declarations use them. *)
Record dep_type := DepType {
  dt_id : Z;
  dt_name : list Z;
  dt_wrap_only : bool;
  dt_lock : bool;
  dt_fields : list field
}.
Record dep_enum := DepEnum {
  de_id : Z;
  de_name : list Z;
  de_lock : bool;
  de_members : list (list Z * val)         (* the names and values of its members *)
}.
Record scope := Scope { sc_types : list dep_type; sc_enums : list dep_enum }.

Definition ti_types_by_id (sc : scope) (id : Z) : option dep_type := List.find (fun t => dt_id t =? id) (sc_types sc).
Definition ti_types_by_strn (sc : scope) (s : list Z) : option dep_type := List.find (fun t => bool_decide (dt_name t = s)) (sc_types sc).
Definition ti_enums_by_strn (sc : scope) (s : list Z) : option dep_enum := List.find (fun t => bool_decide (de_name t = s)) (sc_enums sc).
Definition ti_enum_member_by_strn (e : dep_enum) (s : list Z) : option val :=
  p ← List.find (fun p => bool_decide (p.1 = s)) (de_members e); Some (VMember (de_id e) p.1 p.2).

Inductive decl_err := D_empty | D_duplicate_flag | D_no_declaration | D_conflicting_flags | D_invalid | D_not_ascii
  | D_nested_pattern | D_nested_range | D_nested_array | D_nested_set | D_in_use | D_enum_in_list | D_enum_in_set | D_enum_in_thing
  | D_no_member_name | D_unknown_member | D_unknown_type | D_circular | D_self_references | D_wrap_only
  | D_set_nillable | D_set_type | D_skip_nil | D_memory
  | D_info | D_expect_lt | D_bool | D_default | D_overflow | D_negative | D_missing_colon | D_smaller_max | D_expect_end | D_nan
  | D_pattern_syntax | D_pattern | D_pattern_default.

(** What [field__init] counts. *)
Inductive dependency := NoDep | OnType (id : Z) | OnEnum (id : Z) | OnSelf.

(** ** Dependencies *)

(** Is the type reached from [dep] along fields that are not nillable? The code has
    no bound on the depth. *)
Fixpoint field__dep_check (sc : scope) (fuel : nat) (dep : dep_type) (type_id : Z) : option bool :=
  match fuel with
  | O => None
  | S fuel =>
    (fix check (l : list field) : option bool :=
       match l with
       | [] => Some false
       | f :: l =>
         if f_spec f =? type_id then Some true
         else if f_spec f <? TI_SPEC_ANY then
           d ← ti_types_by_id sc (f_spec f); r ← field__dep_check sc fuel d type_id;
           if r : bool then Some true else check l
         else check l
       end) (dt_fields dep)
  end.

(** [field__remove_dep] and [field__add_dep]: the dependency of a field. *)
Definition field__dep (me : dep_type) (f : field) : dependency :=
  let dep spec := if spec =? dt_id me then OnSelf else OnType spec in
  let spec := unmask (f_spec f) in
  if spec <? TI_SPEC_ANY then dep spec
  else if TI_ENUM_ID_FLAG <=? spec then OnEnum (Z.land spec TI_ENUM_ID_MASK)
  else
    let spec := unmask (f_nested f) in
    if spec <? TI_SPEC_ANY then dep spec
    else if TI_ENUM_ID_FLAG <=? spec then OnEnum (Z.land spec TI_ENUM_ID_MASK)
    else NoDep.

(** ** Parts of a text *)

Definition starts_with (p s : list Z) : bool := bool_decide (take (length p) s = p).
Definition ends_in (c : Z) (s : list Z) : bool := bool_decide (list.last s = Some c).

(** The text before and after the first opening brace. *)
Fixpoint split_brace (s : list Z) : option (list Z * list Z) :=
  match s with
  | [] => None
  | c :: s => if c =? 123 then Some ([], s) else '(a, b) ← split_brace s; Some (c :: a, b)
  end.

(** The text before and after the last [<] of a text that is read backwards. *)
Fixpoint split_lt (r : list Z) (acc : list Z) : option (list Z * list Z) :=
  match r with
  | [] => None
  | c :: r => if c =? 60 then Some (rev r, acc) else split_lt r (c :: acc)
  end.

Definition flag_of (c : Z) : option Z :=
  if c =? 38 then Some TI_FIELD_FLAG_SAME_DEEP
  else if c =? 45 then Some TI_FIELD_FLAG_MIN_DEEP
  else if c =? 43 then Some TI_FIELD_FLAG_MAX_DEEP
  else if c =? 94 then Some TI_FIELD_FLAG_NO_IDS
  else if c =? 42 then Some TI_FIELD_FLAG_ENAME
  else if c =? 63 then Some TI_FIELD_FLAG_SKIP_NIL
  else if c =? 33 then Some TI_FIELD_FLAG_SKIP_FALSE
  else None.

(** The flags in front of a declaration, and the rest. *)
Fixpoint flags_loop (s : list Z) (flags : Z) : decl_err + (list Z * Z) :=
  match s with
  | [] => inl D_no_declaration
  | c :: r =>
    match flag_of c with
    | Some fl => if Z.land flags fl =? 0 then flags_loop r (Z.lor flags fl) else inl D_duplicate_flag
    | None => inr (s, flags)
    end
  end.

Definition TI_FIELD_MIN_MAX : Z := 6.

Definition with_spec (f : field) (spec : Z) : field := Field spec (f_nested f) (f_flags f) (f_dval f) (f_cond f).
Definition with_nested (f : field) (nested : Z) : field := Field (f_spec f) nested (f_flags f) (f_dval f) (f_cond f).
Definition with_cond (f : field) (c : condition) : field := Field (f_spec f) (f_nested f) (f_flags f) (f_dval f) c.
Definition with_dval (f : field) (cb : dval_cb) : field := Field (f_spec f) (f_nested f) (f_flags f) (Some cb) (f_cond f).
Definition field__set_cb (f : field) (cb : dval_cb) : field := match f_dval f with None => with_dval f cb | Some _ => f end.

(** [field->spec |= spec] *)
Definition or_spec (f : field) (spec : Z) : field := with_spec f (Z.lor (f_spec f) spec).

Section Declarations.
Context (pcre_match : list Z -> list Z -> bool) (re_email re_url re_tel : list Z).
(** [ti_regex_from_strn]: the compiled pattern, if it is one. *)
Context (regex_from_strn : list Z -> option (list Z)).
Context (strtod : list Z -> option (double * list Z * bool)).
Context (mem : bool).

(** ** Conditions *)

(** The kind of a declaration with [<...>], the pattern if it has one, and the rest
    of the text behind the name. *)
Inductive info_kind := KBool | KStr | KUtf8 | KInt | KFloat | KRe (pattern : list Z).

Definition info_kind_of (s : list Z) : option (info_kind * list Z) :=
  let n := length s in
  let try name k := if starts_with (str name) s then Some (k, drop (length (str name)) s) else None in
  let when (k : nat) (o : option (info_kind * list Z)) := if (k <? n)%nat then o else None in
  match s with
  | 98 :: _ => when 4%nat (try "bool"%string KBool)
  | 115 :: _ => when 3%nat (try "str"%string KStr)
  | 105 :: _ => when 3%nat (try "int"%string KInt)
  | 102 :: _ => when 5%nat (try "float"%string KFloat)
  | 101 :: _ => when 5%nat (try "email"%string (KRe re_email))
  | 117 :: _ =>
    match when 3%nat (try "url"%string (KRe re_url)) with
    | Some r => Some r
    | None => when 4%nat (try "utf8"%string KUtf8)
    end
  | 116 :: _ => when 3%nat (try "tel"%string (KRe re_tel))
  | _ => None
  end.

Definition TI_SPEC_OF (k : info_kind) : Z :=
  match k with
  | KBool => TI_SPEC_BOOL | KStr => TI_SPEC_STR_RANGE | KUtf8 => TI_SPEC_UTF8_RANGE
  | KInt => TI_SPEC_INT_RANGE | KFloat => TI_SPEC_FLOAT_RANGE | KRe _ => TI_SPEC_REMATCH
  end.

(** A number of a range and the rest of the text; a pointer that was not written is
    undefined. *)
Definition range_int (s : list Z) : option (decl_err + (Z * list Z)) :=
  r ← strx_to_int64 s false; tmp ← iend r;
  Some (if ierange r then inl D_overflow else inr (iv r, tmp)).

Definition dnan (d : double) : bool := match d with S754_nan => true | _ => false end.
Definition huge (d : double) : option bool := match d with S754_infinity s => Some (negb s) | _ => None end.

Definition range_double (s : list Z) : option (double * list Z) :=
  '(d, tmp) ← strx_to_double strtod (S754_infinity false) S754_nan SFopp huge s; tmp ← tmp; Some (d, tmp).

(** [ti_str_dval_n]: the length of a string is kept in 32 bits. *)
Definition ti_str_dval_n (n : Z) : val := VStr (replicate (Z.to_nat (u32 n)) 45).

(** The end of the text, and the condition of the field. *)
Definition range_end (f : field) (spec : Z) (s : list Z) (c : condition) : decl_err + field :=
  if negb (length s =? 1)%nat then inl D_expect_end
  else if negb mem then inl D_memory
  else inr (or_spec (with_cond f c) spec).

Definition str_range (f : field) (spec : Z) (s : list Z) : option (decl_err + field) :=
  a ← range_int s;
  match a with
  | inl e => Some (inl e)
  | inr (mi, s) =>
    if mi <? 0 then Some (inl D_negative)
    else
      c ← head s;
      if negb (c =? 58) then Some (inl D_missing_colon)
      else
        let s := tail s in
        b ← strx_to_int64 s false; tmp ← iend b;
        let ma := if (length tmp =? length s)%nat then LLONG_MAX else iv b in
        if ierange b then Some (inl D_overflow)
        else if ma <? mi then Some (inl D_smaller_max)
        else
          let s := tmp in
          c ← head s;
          if c =? 58 then
            if (length s <=? 1)%nat then None                           (* assert *)
            else
              let d := tail s in
              let n := Z.of_nat (length d) - 1 in
              if (n <? mi) || (ma <? n) then Some (inl D_default)
              else if negb mem then Some (inl D_memory)
              else Some (range_end f spec (drop (Z.to_nat n) d) (CSrange (VStr (take (Z.to_nat n) d)) mi ma))
          else
            let dval := if nillable (f_spec f) then VNil else if mi =? 0 then VStr [] else ti_str_dval_n mi in
            if negb mem && negb (nillable (f_spec f)) && negb (mi =? 0) then Some (inl D_memory)
            else Some (range_end f spec s (CSrange dval mi ma))
  end.

Definition int_range (f : field) (s : list Z) : option (decl_err + field) :=
  a ← range_int s;
  match a with
  | inl e => Some (inl e)
  | inr (mi, s) =>
    c ← head s;
    if negb (c =? 58) then Some (inl D_missing_colon)
    else
      let s := tail s in
      b ← strx_to_int64 s false; tmp ← iend b;
      let ma := if (length tmp =? length s)%nat then LLONG_MAX else iv b in
      if ierange b then Some (inl D_overflow)
      else if ma <? mi then Some (inl D_smaller_max)
      else
        let s := tmp in
        c ← head s;
        if c =? 58 then
          if (length s <=? 1)%nat then None                             (* assert *)
          else
            d ← range_int (tail s);
            match d with
            | inl e => Some (inl e)
            | inr (dv, s) =>
              if (dv <? mi) || (ma <? dv) then Some (inl D_default)
              else if negb mem then Some (inl D_memory)
              else Some (range_end f TI_SPEC_INT_RANGE s (CIrange (VInt dv) mi ma))
            end
        else if nillable (f_spec f) then Some (range_end f TI_SPEC_INT_RANGE s (CIrange VNil mi ma))
        else
          let dv := if (mi <? 0) && (ma <? 0) then ma else if (0 <? mi) && (0 <? ma) then mi else 0 in
          if negb mem then Some (inl D_memory)
          else Some (range_end f TI_SPEC_INT_RANGE s (CIrange (VInt dv) mi ma))
  end.

Definition dzero : double := S754_zero false.

Definition float_range (f : field) (s : list Z) : option (decl_err + field) :=
  '(mi, s) ← range_double s;
  if dnan mi then Some (inl D_nan)
  else
    c ← head s;
    if negb (c =? 58) then Some (inl D_missing_colon)
    else
      let s := tail s in
      '(ma, tmp) ← range_double s;
      let ma := if (length tmp =? length s)%nat then S754_infinity false else ma in
      if dnan ma then Some (inl D_nan)
      else if SFltb ma mi then Some (inl D_smaller_max)
      else
        let s := tmp in
        c ← head s;
        if c =? 58 then
          if (length s <=? 1)%nat then None                             (* assert *)
          else
            '(dv, s) ← range_double (tail s);
            if dnan dv then Some (inl D_nan)
            else if SFltb dv mi || SFltb ma dv then Some (inl D_default)
            else if negb mem then Some (inl D_memory)
            else Some (range_end f TI_SPEC_FLOAT_RANGE s (CDrange (VFloat dv) mi ma))
        else if nillable (f_spec f) then Some (range_end f TI_SPEC_FLOAT_RANGE s (CDrange VNil mi ma))
        else
          let dv := if SFltb mi dzero && SFltb ma dzero then ma else if SFltb dzero mi && SFltb dzero ma then mi else dzero in
          if negb mem then Some (inl D_memory)
          else Some (range_end f TI_SPEC_FLOAT_RANGE s (CDrange (VFloat dv) mi ma)).

Definition ti_condition_field_info_init (f : field) (s : list Z) : option (decl_err + field) :=
  let f := with_dval f condition_dval in
  if negb (ends_in 62 s) then None                                      (* assert *)
  else
    match info_kind_of s with
    | None => Some (inl D_info)
    | Some (k, rest) =>
      c ← head rest;
      if negb (c =? 60) then Some (inl D_expect_lt)
      else
        let s' := tail rest in
        match k with
        | KBool =>
          Some (if (length s =? 10)%nat && starts_with (str "true>") s'
                then inr (or_spec (with_dval f condition_dval_true) TI_SPEC_BOOL)
                else if (length s =? 11)%nat && starts_with (str "false>") s'
                then inr (or_spec (with_dval f condition_dval_false) TI_SPEC_BOOL)
                else inl D_bool)
        | KRe p =>
          let dval := VStr (removelast s') in
          Some (if negb mem then inl D_memory
                else if negb (ti_regex_test pcre_match p dval) then inl D_default
                else inr (or_spec (with_cond f (CRe dval p)) TI_SPEC_REMATCH))
        | KStr | KUtf8 => str_range f (TI_SPEC_OF k) s'
        | KInt => int_range f s'
        | KFloat => float_range f s'
        end
    end.

Definition ti_condition_field_re_init (f : field) (s : list Z) : option (decl_err + field) :=
  let f := with_dval f condition_dval in
  if negb (bool_decide (head s = Some 47)) then None                     (* assert *)
  else
    let parts := if ends_in 62 s then '(p, d) ← split_lt (rev (removelast s)) []; Some (p, Some d) else Some (s, None) in
    match parts with
    | None => Some (inl D_pattern_syntax)
    | Some (p, d) =>
      if negb mem && (match d with Some (_ :: _) => true | _ => false end) then Some (inl D_memory)
      else
        let dval := match d with Some d => VStr d | None => if nillable (f_spec f) then VNil else VStr [] end in
        let q := if ends_in 105 p then removelast p else p in
        if negb (ends_in 47 q) then Some (inl D_pattern_syntax)
        else
          match regex_from_strn p with
          | None => Some (inl D_pattern)
          | Some re =>
            Some (if ti_val_is_str dval && negb (ti_regex_test pcre_match re dval) then inl D_pattern_default
                  else if negb mem then inl D_memory
                  else inr (or_spec (with_cond f (CRe dval re)) TI_SPEC_REMATCH))
          end
    end.

(** ** Declarations *)

(** The end of [field__init]; the last error that is set counts. *)
Definition done (f : field) (err : option decl_err) : decl_err + field :=
  if has_flag f TI_FIELD_FLAG_SKIP_NIL && negb (nillable (f_spec f) || (f_spec f =? TI_SPEC_ANY)) then inl D_skip_nil
  else match err with Some e => inl e | None => inr f end.

Definition found (f : field) : decl_err + field :=
  if unmask (f_spec f) =? TI_SPEC_SET then
    if nillable (f_nested f) then done f (Some D_set_nillable)
    else if TI_SPEC_OBJECT <? f_nested f then done f (Some D_set_type)
    else if f_nested f =? TI_SPEC_OBJECT then done (with_nested f TI_SPEC_ANY) None
    else done f None
  else done f None.

Definition ascii_or (s : list Z) (e : decl_err) : decl_err := if strx_is_asciin s (length s) then e else D_not_ascii.

Context (sc : scope) (fuel : nat) (me : dep_type) (selfref : Z).

Definition decl_result := option ((decl_err + field) * dependency).

(** [*spec |= x], where [spec] points to one of the two specifications. *)
Definition or_target (nested : bool) (f : field) (x : Z) : field :=
  if nested then with_nested f (Z.lor (f_nested f) x) else or_spec f x.

(** An enumeration with a default. *)
Definition enum_default (nested : bool) (f : field) (s : list Z) : decl_result :=
  let refuse e : decl_result := Some (inl e, NoDep) in
  let unknown m : decl_result :=
    if strx_is_asciin m (length m) then refuse D_unknown_type else Some (done f (Some D_not_ascii), NoDep) in
  match split_brace s with
  | None => unknown s
  | Some (m, rest) =>
    match ti_enums_by_strn sc m with
    | None => unknown m
    | Some en =>
      if de_lock en then refuse D_in_use
      else if unmask (f_spec f) =? TI_SPEC_ARR then refuse D_enum_in_list
      else if unmask (f_spec f) =? TI_SPEC_SET then refuse D_enum_in_set
      else if unmask (f_spec f) =? TI_SPEC_OBJECT then refuse D_enum_in_thing
      else if (length rest =? 1)%nat then refuse D_no_member_name
      else
        match ti_enum_member_by_strn en (removelast rest) with
        | None => refuse (ascii_or s D_unknown_member)
        | Some v =>
          if negb mem then refuse D_memory
          else
            let f := or_target nested (with_dval (with_cond f (CDval v)) condition_dval) (Z.lor (de_id en) TI_ENUM_ID_FLAG) in
            Some (found f, OnEnum (de_id en))
        end
    end
  end.

(** The name of a type or an enumeration. *)
Definition by_name (nested : bool) (f : field) (s : list Z) : decl_result :=
  let refuse e : decl_result := Some (inl e, NoDep) in
  if bool_decide (s = dt_name me) then
    if dt_id me =? TI_SPEC_TYPE then Some (found f, NoDep)
    else
      let f := or_target nested f (dt_id me) in
      if negb nested && negb (nillable (f_spec f)) && negb (dt_wrap_only me) then refuse D_circular
      else if selfref =? UINT8_MAX then refuse D_self_references
      else Some (found f, OnSelf)
  else
    match ti_types_by_strn sc s with
    | Some dep =>
      if dt_lock dep then refuse D_in_use
      else
        let f := field__set_cb (or_target nested f (dt_id dep)) dval_type in
        let push : decl_result := if negb mem then refuse D_memory else Some (found f, OnType (dt_id dep)) in
        if negb nested && negb (nillable (f_spec f)) then
          circular ← field__dep_check sc fuel dep (dt_id me);
          if circular : bool then refuse D_circular
          else if negb (dt_wrap_only me) && dt_wrap_only dep then refuse D_wrap_only
          else push
        else push
    | None =>
      match ti_enums_by_strn sc s with
      | None => refuse (ascii_or s D_unknown_type)
      | Some en =>
        if de_lock en then refuse D_in_use
        else if unmask (f_spec f) =? TI_SPEC_SET then refuse D_enum_in_set
        else if negb mem then refuse D_memory
        else
          let f := field__set_cb (or_target nested f (Z.lor (de_id en) TI_ENUM_ID_FLAG)) dval_enum in
          Some (found f, OnEnum (de_id en))
      end
    end.

(** From the label [skip_nesting] on; [s] is not empty. *)
Definition declare (nested : bool) (f : field) (s : list Z) : decl_result :=
  let refuse e : decl_result := Some (inl e, NoDep) in
  let no_dep (r : option (decl_err + field)) : decl_result := r ← r; Some (r, NoDep) in
  c ← head s;
  if c =? 91 then refuse D_nested_array
  else if c =? 123 then refuse D_nested_set
  else if c =? 47 then no_dep (ti_condition_field_re_init f s)
  else if ends_in 62 s then no_dep (ti_condition_field_info_init f s)
  else
    fmap ← ti_field_map_by_strn s;
    match fmap with
    | Some m =>
      let f := if fm_spec m =? TI_SPEC_ANY then (if nested then with_nested f TI_SPEC_ANY else with_spec f TI_SPEC_ANY)
               else or_target nested f (fm_spec m) in
      Some (found (field__set_cb f (fm_dval m)), NoDep)
    | None => if ends_in 125 s then enum_default nested f s else by_name nested f s
    end.

(** What is between the brackets, and the specification in front of them. *)
Definition brackets (s : list Z) : option (decl_err + (Z * dval_cb * list Z)) :=
  c ← head s;
  if c =? 91 then
    Some (if ends_in 93 s then inr (TI_SPEC_ARR, dval_arr, removelast (tail s)) else inl D_invalid)
  else if c =? 123 then
    Some (if ends_in 125 s then inr (TI_SPEC_SET, dval_set, removelast (tail s)) else inl D_invalid)
  else if (7 <=? length s)%nat && starts_with (str "thing<") s then
    Some (if ends_in 62 s then inr (TI_SPEC_OBJECT, dval_restricted, removelast (drop 6 s)) else inl D_invalid)
  else None.

Definition field__init (raw : list Z) : decl_result :=
  let refuse e : decl_result := Some (inl e, NoDep) in
  let invalid : decl_result := refuse (ascii_or raw D_invalid) in
  if (length raw =? 0)%nat then refuse D_empty
  else
    match flags_loop raw 0 with
    | inl e => refuse e
    | inr (s, flags) =>
      if Z.land flags TI_FIELD_MIN_MAX =? TI_FIELD_MIN_MAX then refuse D_conflicting_flags
      else
        let flags := if Z.land flags TI_FIELD_MIN_MAX =? 0 then Z.lor flags TI_FIELD_FLAG_DEEP else flags in
        let nil := ends_in 63 s in
        let f := if nil then Field TI_SPEC_NILLABLE 0 flags (Some dval_nil) CNone else Field 0 0 flags None CNone in
        let s := if nil then removelast s else s in
        if (length s =? 0)%nat then invalid
        else
          match brackets s with
          | None => declare false (with_nested f TI_SPEC_ANY) s
          | Some (inl e) => refuse (ascii_or raw e)
          | Some (inr (spec, cb, s)) =>
            let f := field__set_cb (or_spec f spec) cb in
            if (length s =? 0)%nat then Some (inr (with_nested f TI_SPEC_ANY), NoDep)
            else
              let nil := ends_in 63 s in
              let f := if nil then with_nested f TI_SPEC_NILLABLE else f in
              let s := if nil then removelast s else s in
              if (length s =? 0)%nat then invalid
              else if bool_decide (head s = Some 47) then refuse D_nested_pattern
              else if ends_in 62 s then refuse D_nested_range
              else declare true f s
          end
    end.
End Declarations.

(** ** Default values *)

Definition cond_dval (c : condition) : option val :=
  match c with
  | CDval d | CRe d _ | CSrange d _ _ | CIrange d _ _ | CDrange d _ _ => Some d
  | CNone | CRel | CType => None
  end.

(** [field->dval_cb(field)], with the default of a type and of an enumeration. *)
Definition field_dval (type_dval enum_dval : Z -> option val) (f : field) : option val :=
  cb ← f_dval f;
  match cb with
  | dval_arr => Some (VArr TI_SPEC_ANY false [])
  | dval_bin => Some (VBytes [])
  | dval_bool | condition_dval_false => Some (VBool false)
  | condition_dval_true => Some (VBool true)
  | dval_closure => Some (VClosure 0)
  | dval_datetime => Some (VDatetime false)
  | dval_timeval => Some (VDatetime true)
  | dval_error => Some VError
  | dval_float => Some (VFloat dzero)
  | dval_int => Some (VInt 0)
  | dval_pint => Some (VInt 1)
  | dval_nint => Some (VInt (-1))
  | dval_nil => Some VNil
  | dval_regex => Some VRegex
  | dval_room => Some (VRoom 0)
  | dval_task => Some (VTask 0)
  | dval_str => Some (VStr [])
  | dval_set => Some (VSet TI_SPEC_ANY [])
  | dval_thing => Some (VThing TI_SPEC_OBJECT TI_SPEC_ANY false [])
  | dval_restricted => Some (VThing TI_SPEC_OBJECT (f_nested f) false [])
  | dval_type => type_dval (f_spec f)
  | dval_enum => enum_dval (Z.land (f_spec f) TI_ENUM_ID_MASK)
  | condition_dval => cond_dval (f_cond f)
  end.

Definition ti_enum_dval (sc : scope) (id : Z) : option val :=
  e ← List.find (fun e => de_id e =? id) (sc_enums sc); '(name, v) ← head (de_members e); Some (VMember id name v).

(** [ti_type_dval]: a thing with the defaults of its fields, which may be of types
    that have to be made first. The code has no bound on the depth. *)
Fixpoint ti_type_dval (sc : scope) (fuel : nat) (id : Z) : option val :=
  match fuel with
  | O => None
  | S fuel =>
    t ← ti_types_by_id sc id;
    if dt_wrap_only t then None                                         (* assert *)
    else items ← mapM (field_dval (ti_type_dval sc fuel) (ti_enum_dval sc)) (dt_fields t); Some (VThing id 0 false items)
  end.
