(* ===== verification/FieldInitProof.v ===== *)
(** * What a declaration gives

    Every declaration that is accepted gives a well-formed field, and its default
    value belongs to the field. *)
From Stdlib Require Import ZArith Lia Ascii String Floats.SpecFloat.
From stdpp Require Import base list option numbers.
From S2P Require Import Prelude Utf8 Utf8Proof Utf8Props Opr Strx Spec Keywords KeywordsProps Field FieldProof FieldInit.

(** ** Default values *)

(** Two defaults that do not fit: a string of more than 32 bits, and one for [utf8]
    that is not UTF-8. *)
Definition odd_default (f : field) : Prop :=
  exists d mi ma, f_cond f = CSrange d mi ma /\
    (2 ^ 32 <= mi \/ unmask (f_spec f) = TI_SPEC_UTF8_RANGE /\ raw_is_utf8 d = false).

(** ** Bits *)

Definition base (b : Z) (cb : option dval_cb) : Prop := b = 0 /\ cb = None \/ b = TI_SPEC_NILLABLE /\ cb = Some dval_nil.

Lemma lor_base b cb x : base b cb -> 0 <= x < 32768 ->
  unmask (Z.lor b x) = x /\ nillable (Z.lor b x) = nillable b /\ spec16 (Z.lor b x).
Proof.
  intros [[-> _]|[-> _]] Hx.
  - rewrite Z.lor_0_l, unmask_mod, Z.mod_small, nillable_spec by (unfold spec16; lia).
    split_and!; [done| |unfold spec16; lia]. by rewrite (proj2 (Z.leb_gt _ _)) by lia.
  - assert (Z.land x TI_SPEC_NILLABLE = 0) as E.
    { pose proof (nillable_spec x) as H. unfold nillable in H. rewrite (proj2 (Z.leb_gt _ _)) in H by lia.
      apply Z.eqb_eq, negb_false_iff, H. unfold spec16. lia. }
    rewrite Z.lor_comm, <- Z.lxor_lor, <- Z.add_nocarry_lxor by done. change TI_SPEC_NILLABLE with 32768 in *.
    rewrite unmask_mod, nillable_spec by (unfold spec16; lia). split_and!; [|by rewrite (proj2 (Z.leb_le _ _)) by lia|unfold spec16; lia].
    symmetry. apply (Z.mod_unique_pos _ _ 1); lia.
Qed.

Lemma lor_enum id : 0 <= id <= TI_ENUM_ID_MASK -> Z.lor id TI_ENUM_ID_FLAG = id + TI_ENUM_ID_FLAG /\
  Z.land (id + TI_ENUM_ID_FLAG) TI_ENUM_ID_MASK = id.
Proof.
  change TI_ENUM_ID_MASK with (Z.ones 13). rewrite Z.ones_equiv. intros Hid.
  assert (Z.land id TI_ENUM_ID_FLAG = 0) as E.
  { apply Z.bits_inj'. intros n Hn. rewrite Z.land_spec, Z.bits_0. destruct (Z.ltb_spec n 13) as [Hlt|Hge].
    - replace (Z.testbit TI_ENUM_ID_FLAG n) with false; [by rewrite andb_false_r|]. change TI_ENUM_ID_FLAG with (3 * 2 ^ 13).
      symmetry. by rewrite Z.mul_pow2_bits_low.
    - rewrite (Z.bits_above_log2 id n); [done|lia|]. destruct (Z.eq_dec id 0) as [->|Hne]; [cbn; lia|].
      apply Z.log2_lt_pow2; [lia|]. apply Z.lt_le_trans with (2 ^ 13); [lia|]. apply Z.pow_le_mono_r; lia. }
  split; [by rewrite <- Z.lxor_lor, <- Z.add_nocarry_lxor|].
  rewrite <- Z.ones_equiv, Z.land_ones by lia. change TI_ENUM_ID_FLAG with (3 * 2 ^ 13). rewrite Z.mod_add by lia. apply Z.mod_small. lia.
Qed.

(** ** What the parts of a declaration give *)

Ltac spec16_tac := vm_compute; split; [discriminate|reflexivity].

Definition scope_ok (sc : scope) (me : dep_type) : Prop :=
  (forall t, t ∈ me :: sc_types sc -> 0 <= dt_id t < TI_SPEC_ANY) /\ (forall e, e ∈ sc_enums sc -> 0 <= de_id e <= TI_ENUM_ID_MASK).

Section Good.
Context (pcre_match : list Z -> list Z -> bool) (re_email re_url re_tel : list Z).
Context (type_dval enum_dval : Z -> option val).
Context (Htype : forall id v, type_dval id = Some v -> exists via dict items, v = VThing id via dict items).
Context (Henum : forall id v, enum_dval id = Some v -> exists name w, v = VMember id name w).
Context (sc : scope) (me : dep_type) (fuel : nat).

Local Notation field_ok := (field_ok pcre_match re_email re_url re_tel).

(** The default value can be made, up to the default of another type. *)
Definition has_dval (f : field) : Prop :=
  match f_dval f with
  | None => False
  | Some condition_dval => is_Some (cond_dval (f_cond f))
  | Some dval_type => exists t, t ∈ sc_types sc /\ dt_id t = f_spec f
  | Some dval_enum => exists e, e ∈ sc_enums sc /\ de_id e = Z.land (f_spec f) TI_ENUM_ID_MASK
  | _ => True
  end.

Definition default_ok (f : field) : Prop :=
  has_dval f /\ forall v, field_dval type_dval enum_dval f = Some v -> field_ok f v = true \/ odd_default f.

(** A type that is used directly is another one and does not lead back, or the field is one
    of a type that only wraps things. *)
Definition direct_ok (f : field) : Prop :=
  f_spec f < TI_SPEC_ANY ->
  (exists t, t ∈ sc_types sc /\ dt_id t = f_spec f /\ dt_id t <> dt_id me /\ field__dep_check sc fuel t (dt_id me) = Some false) \/
  f_spec f = dt_id me /\ dt_wrap_only me = true.

Definition good (f : field) : Prop := field_wf f /\ direct_ok f /\ (dt_wrap_only me = false -> default_ok f).

Lemma good_intro f v : field_wf f -> TI_SPEC_ANY <= f_spec f -> has_dval f -> field_dval type_dval enum_dval f = Some v ->
  field_ok f v = true \/ odd_default f -> good f.
Proof.
  intros Hwf Hs Hh Hd Hok. split; [done|]. split; [intros ?; lia|]. intros _. split; [done|]. intros w Hw.
  assert (w = v) as -> by congruence. done.
Qed.

(** With brackets. *)
Lemma good_nested b cb k cbk nb fl : base b cb ->
  k = TI_SPEC_ARR /\ cbk = dval_arr \/ k = TI_SPEC_SET /\ cbk = dval_set /\ nb <= TI_SPEC_ANY \/ k = TI_SPEC_OBJECT /\ cbk = dval_restricted ->
  simple_spec nb -> good (field__set_cb (Field (Z.lor b k) nb fl cb CNone) cbk).
Proof.
  intros Hb Hk Hn.
  destruct Hb as [[-> ->]|[-> ->]], Hk as [[-> ->]|[(-> & -> & Hle)|[-> ->]]];
    (eapply good_intro; [|vm_compute; discriminate|done|reflexivity|left; first [reflexivity|transitivity ((nb =? TI_SPEC_ANY) || true); [reflexivity|apply orb_true_r]]]);
    (split; [spec16_tac|]; split; [exact Hn|]; split; [discriminate|]; cbn; done).
Qed.

(** A name of the table. *)
Lemma field_map_in s m : ti_field_map_by_strn s = Some (Some m) -> m ∈ field__mapping.
Proof.
  unfold ti_field_map_by_strn. rewrite field_init_table. cbn [mbind option_bind].
  destruct (field__hash s) as [key|]; [|done]. cbn [mbind option_bind].
  destruct (key <=? FIELD_MAX_HASH_VALUE); [|done].
  destruct (field_table !! Z.to_nat key) as [[m'|]|] eqn:Hm; [|done..]. apply field_table_slot in Hm as [Hm _].
  destruct (memcmp_eq s (name_array m')) as [[]|]; try done. intros H. by injection H as <-.
Qed.

Lemma mapping_forall (P : ti_field_map -> Prop) : Forall P field__mapping -> forall m, m ∈ field__mapping -> P m.
Proof. intros H m Hm. rewrite List.Forall_forall in H. by apply H, list_elem_of_In. Qed.

Lemma good_named b cb m fl : base b cb -> m ∈ field__mapping ->
  good (field__set_cb (Field (if fm_spec m =? TI_SPEC_ANY then TI_SPEC_ANY else Z.lor b (fm_spec m)) TI_SPEC_ANY fl cb CNone) (fm_dval m)).
Proof.
  intros Hb. revert m. apply mapping_forall.
  destruct Hb as [[-> ->]|[-> ->]]; unfold field__mapping;
    repeat (apply List.Forall_cons; [
      eapply good_intro; [|vm_compute; discriminate|done|reflexivity|left; reflexivity];
      (split; [spec16_tac|]; split; [split; [spec16_tac|by left]|]; split; [done|]; cbn; done)|]);
    apply List.Forall_nil.
Qed.

Lemma mapping_spec m : m ∈ field__mapping -> TI_SPEC_ANY <= fm_spec m <= TI_SPEC_ENUM.
Proof. revert m. apply mapping_forall. unfold field__mapping. repeat (apply List.Forall_cons; [cbn; slia|]). apply List.Forall_nil. Qed.

(** The name of a type, without brackets. *)
Lemma good_type b cb t fl : scope_ok sc me -> base b cb ->
  t ∈ sc_types sc -> dt_id t <> dt_id me -> (nillable b = false -> field__dep_check sc fuel t (dt_id me) = Some false) -> good (field__set_cb (Field (Z.lor b (dt_id t)) TI_SPEC_ANY fl cb CNone) dval_type).
Proof.
  intros [Ht _] Hb Hin Hself Hchk. assert (Hr : 0 <= dt_id t < TI_SPEC_ANY) by (apply Ht; by right).
  destruct (lor_base b cb (dt_id t) Hb) as (Hu & Hn & H16); [slia|].
  destruct Hb as [[-> ->]|[-> ->]]; unfold field__set_cb, with_dval; cbn [f_dval f_spec f_nested f_flags f_cond]; (split; [|split]);
    try (unfold field_wf; cbn [f_spec f_nested f_cond]; rewrite Hu, spec_enum_type by lia;
         split; [done|]; split; [split; [spec16_tac|by left]|]; split; [done|]; left; lia).
  - intros _. left. cbn [f_spec]. rewrite Z.lor_0_l. exists t. split_and!; [done|done|done|by apply Hchk].
  - intros _. split; [exists t; cbn [f_spec]; by rewrite Z.lor_0_l|]. intros v Hv. cbn in Hv. apply Htype in Hv as (via & dict & items & ->).
    left. unfold FieldProof.field_ok, plain_ok. cbn [f_spec]. rewrite Hu, spec_enum_type by lia. unfold id_ok.
    rewrite (proj2 (Z.leb_gt TI_ENUM_ID_FLAG _)) by slia. cbn. by rewrite Z.eqb_refl, orb_true_r.
  - intros Hlt. exfalso. cbn [f_spec] in Hlt. rewrite nillable_spec in Hn by done. apply Z.leb_le in Hn. slia.
  - intros _. split; [done|]. intros v [= <-]. left. unfold FieldProof.field_ok, nil_ok. cbn [f_spec]. by rewrite Hn.
Qed.

(** The type itself: it must be nillable, or only used to wrap things. *)
Lemma good_self b cb fl : scope_ok sc me -> base b cb -> nillable b = true \/ dt_wrap_only me = true ->
  good (Field (Z.lor b (dt_id me)) TI_SPEC_ANY fl cb CNone).
Proof.
  intros [Ht _] Hb Hnil. assert (Hr : 0 <= dt_id me < TI_SPEC_ANY) by (apply Ht; by left).
  destruct (lor_base b cb (dt_id me) Hb) as (Hu & Hn & H16); [slia|].
  split; [|split].
  - unfold field_wf; cbn [f_spec f_nested f_cond]; rewrite Hu, spec_enum_type by lia.
    split; [done|]; split; [split; [spec16_tac|by left]|]; split; [done|]. left; lia.
  - intros Hlt. right. cbn [f_spec] in *. destruct Hb as [[-> _]|[-> _]].
    { rewrite Z.lor_0_l. destruct Hnil as [?|?]; done. }
    exfalso. rewrite nillable_spec in Hn by done. apply Z.leb_le in Hn. slia.
  - intros Hw. destruct Hnil as [Hnil|Hnil]; [|congruence]. destruct Hb as [[-> _]|[-> ->]]; [done|].
    split; [done|]. intros v [= <-]. left. unfold FieldProof.field_ok, nil_ok. cbn [f_spec]. by rewrite Hn.
Qed.

(** An enumeration without brackets: with its own default, or one of its members. *)
Lemma enum_wf b cb id fl dv c : base b cb -> 0 <= id <= TI_ENUM_ID_MASK ->
  let f := Field (Z.lor b (Z.lor id TI_ENUM_ID_FLAG)) TI_SPEC_ANY fl dv c in
  field_wf f /\ direct_ok f /\ Z.land (f_spec f) TI_ENUM_ID_MASK = id /\
  (forall name w, field_ok f (VMember id name w) = true) /\ (nillable b = true -> field_ok f VNil = true).
Proof.
  intros Hb Hid f. destruct (lor_enum id Hid) as [Hor Hland]. unfold f. clear f. rewrite Hor.
  change TI_ENUM_ID_MASK with 8191 in Hid.
  destruct (lor_base b cb (id + TI_ENUM_ID_FLAG) Hb) as (Hu & Hn & H16); [slia|].
  assert (Hm : Z.land (Z.lor b (id + TI_ENUM_ID_FLAG)) TI_ENUM_ID_MASK = id).
  { rewrite Z.land_lor_distr_l, Hland. destruct Hb as [[-> _]|[-> _]]; by rewrite ?Z.lor_0_l. }
  split_and!; cbn [f_spec].
  - unfold field_wf; cbn [f_spec f_nested f_cond]; rewrite Hu, spec_enum_enum by slia.
    split; [done|]; split; [split; [spec16_tac|by left]|]; split; [done|]. right. slia.
  - intros Hlt. exfalso. cbn [f_spec] in Hlt. pose proof (Z.mod_le (Z.lor b (id + TI_ENUM_ID_FLAG)) 32768) as Hle. rewrite <- unmask_mod, Hu in Hle.
    unfold spec16 in H16. slia.
  - done.
  - intros name w. unfold FieldProof.field_ok, plain_ok. cbn [f_spec]. rewrite Hu, spec_enum_enum by slia. unfold id_ok.
    rewrite (proj2 (Z.leb_le TI_ENUM_ID_FLAG _)) by slia. cbn [ti_spec_enum_eq_to_val]. by rewrite Hland, Z.eqb_refl, orb_true_r.
  - intros Hnil. unfold FieldProof.field_ok, nil_ok. cbn [f_spec]. by rewrite Hn, Hnil.
Qed.

Lemma good_enum b cb e fl : scope_ok sc me -> base b cb -> e ∈ sc_enums sc ->
  good (field__set_cb (Field (Z.lor b (Z.lor (de_id e) TI_ENUM_ID_FLAG)) TI_SPEC_ANY fl cb CNone) dval_enum).
Proof.
  intros [_ He] Hb Hin. destruct (enum_wf b cb (de_id e) fl (f_dval (field__set_cb (Field 0 0 0 cb CNone) dval_enum)) CNone Hb (He e Hin))
    as (Hwf & Hd & Hm & Hv & Hnil).
  destruct Hb as [[-> ->]|[-> ->]]; (split; [exact Hwf|split; [exact Hd|]]); intros _.
  - split; [by exists e|]. intros v H. cbn in H. cbn [f_spec] in Hm. rewrite Hm in H. apply Henum in H as (name & w & ->). left. apply Hv.
  - split; [done|]. intros v [= <-]. left. by apply Hnil.
Qed.

Lemma good_enum_member b cb e fl name w : scope_ok sc me -> base b cb -> e ∈ sc_enums sc ->
  good (Field (Z.lor b (Z.lor (de_id e) TI_ENUM_ID_FLAG)) TI_SPEC_ANY fl (Some condition_dval) (CDval (VMember (de_id e) name w))).
Proof.
  intros [_ He] Hb Hin. destruct (enum_wf b cb (de_id e) fl (Some condition_dval) (CDval (VMember (de_id e) name w)) Hb (He e Hin))
    as (Hwf & Hd & Hm & Hv & Hnil).
  split; [exact Hwf|split; [exact Hd|]]. intros _. split; [by eexists|]. intros v [= <-]. left. apply Hv.
Qed.

(** A condition without brackets. *)
Definition no_dep (f : field) : Prop := TI_SPEC_ANY <= unmask (f_spec f) < TI_ENUM_ID_FLAG /\ f_nested f = TI_SPEC_ANY.
Definition plain_good (f : field) : Prop := good f /\ no_dep f.

Definition cond_spec (e : spec_enum) : bool :=
  match e with SRematch | SIntRange | SFloatRange | SStrRange | SUtf8Range => true | _ => false end.

Lemma good_cond b cb e fl c d : base b cb -> cond_spec e = true -> cond_wf e c -> cond_dval c = Some d ->
  nillable b = true /\ d = VNil \/
  plain_ok pcre_match re_email re_url re_tel (Field (spec_of_enum e) TI_SPEC_ANY fl (Some condition_dval) c) d = true \/
  odd_default (Field (spec_of_enum e) TI_SPEC_ANY fl (Some condition_dval) c) ->
  plain_good (or_spec (with_cond (with_dval (Field b TI_SPEC_ANY fl cb CNone) condition_dval) c) (spec_of_enum e)).
Proof.
  intros Hb He Hc Hd Hok. destruct (lor_base b cb (spec_of_enum e) Hb) as (Hu & Hn & H16); [destruct e; done|].
  assert (Hsp : spec_enum_of (unmask (Z.lor b (spec_of_enum e))) = Some e) by by rewrite Hu, enum_of_spec_of.
  unfold or_spec, with_spec, with_cond, with_dval. cbn [f_spec f_nested f_flags f_dval f_cond].
  split; [|split; [cbn [f_spec]; rewrite Hu; destruct e; try discriminate He; cbn [spec_of_enum]; slia|done]].
  eapply (good_intro _ d); [| |cbn; by eexists|done|].
  - unfold field_wf. cbn [f_spec f_nested f_cond]. rewrite Hsp.
    split; [done|]; split; [split; [spec16_tac|by left]|]; split; [done|]. by destruct e.
  - cbn [f_spec]. pose proof (Z.mod_le (Z.lor b (spec_of_enum e)) 32768) as Hle. rewrite <- unmask_mod, Hu in Hle. unfold spec16 in H16.
    destruct e; try discriminate He; unfold spec_of_enum in *; slia.
  - assert (Hu2 : unmask (spec_of_enum e) = spec_of_enum e) by (destruct e; done).
    destruct Hok as [[Hnil ->]|[Hok|Hodd]]; [left|left|right].
    + unfold FieldProof.field_ok, nil_ok. cbn [f_spec]. by rewrite Hn, Hnil.
    + unfold FieldProof.field_ok. revert Hok. unfold plain_ok. cbn [f_spec f_cond f_nested]. rewrite Hsp, Hu2, enum_of_spec_of. intros ->. by rewrite orb_true_r.
    + destruct Hodd as (d' & mi & ma & H1 & H2). exists d', mi, ma. cbn [f_spec f_cond] in *. rewrite Hu. by rewrite Hu2 in H2.
Qed.

(** ** Conditions *)

Context (regex_from_strn : list Z -> option (list Z)) (strtod : list Z -> option (double * list Z * bool)) (mem : bool).

Lemma range_end_inr f spec s c f' : range_end mem f spec s c = inr f' -> f' = or_spec (with_cond f c) spec.
Proof. unfold range_end. destruct (negb _); [done|]. destruct (negb mem); [done|]. by intros [= <-]. Qed.

Lemma dashes_utf8 n : raw_is_utf8 (VStr (replicate n 45)) = true.
Proof.
  unfold raw_is_utf8, strx_is_utf8n. cbn [raw_data]. rewrite take_ge by done.
  rewrite sse_accepts by (apply Forall_replicate; unfold byte; lia). cbn [default].
  induction n as [|n IH]; [done|]. change (replicate (S n) 45) with (encode_utf8 45 ++ replicate n 45).
  rewrite accepts_encode; [done|]. left. lia.
Qed.

Lemma raw_n_str l : raw_n (VStr l) = Z.of_nat (length l).
Proof. done. Qed.

(** A default between the bounds belongs to the field. *)
Lemma str_plain e fl mi ma d : e = SStrRange \/ e = SUtf8Range -> 0 <= mi <= ma ->
  ti_val_is_str d = true -> mi <= raw_n d <= ma -> e = SStrRange \/ raw_is_utf8 d = true ->
  plain_ok pcre_match re_email re_url re_tel (Field (spec_of_enum e) TI_SPEC_ANY fl (Some condition_dval) (CSrange d mi ma)) d = true.
Proof.
  intros He Hm Hd Hr Hu. unfold plain_ok. cbn [f_spec f_cond].
  destruct He as [->| ->]; change (spec_enum_of (unmask (spec_of_enum ?e))) with (Some e); cbv iota; rewrite Hd.
  - rewrite !(proj2 (Z.leb_le _ _)) by lia. done.
  - destruct Hu as [Hu|Hu]; [done|]. rewrite Hu, !(proj2 (Z.leb_le _ _)) by lia. done.
Qed.

Ltac mstep H :=
  match type of H with
  | (mbind _ ?o = _) => let E := fresh "E" in destruct o eqn:E; [cbn [mbind option_bind] in H|discriminate H]
  | ((if ?b then _ else _) = _) => let E := fresh "E" in destruct b eqn:E; try discriminate H
  end.

Lemma str_range_good b cb fl e s f' : base b cb -> e = SStrRange \/ e = SUtf8Range ->
  str_range mem (with_dval (Field b TI_SPEC_ANY fl cb CNone) condition_dval) (spec_of_enum e) s = Some (inr f') -> plain_good f'.
Proof.
  intros Hb He H. unfold str_range in H. mstep H. destruct s0 as [|[mi s1]]; [done|]. mstep H. apply Z.ltb_ge in E0.
  mstep H. mstep H. cbv zeta in H. mstep H. mstep H. mstep H. mstep H.
  set (ma := if (length l =? length (tail s1))%nat then LLONG_MAX else iv i) in *. apply Z.ltb_ge in E6.
  mstep H. mstep H.
  - mstep H. mstep H. mstep H. injection H as H. apply range_end_inr in H as ->. apply orb_false_iff in E10 as [Ea Eb].
    apply Z.ltb_ge in Ea, Eb. apply Nat.leb_gt in E9. destruct l as [|c l]; [done|]. cbn [tail length] in *.
    set (n := Z.of_nat (length l) - 1) in *. assert (Hlen : raw_n (VStr (take (Z.to_nat n) l)) = n) by (rewrite raw_n_str, length_take; lia).
    eapply good_cond; [done|by destruct He as [->| ->]|destruct He as [->| ->]; by eexists _, _, _|reflexivity|].
    destruct He as [->| ->]; [right; left; apply str_plain; try lia; auto|]. destruct (raw_is_utf8 (VStr (take (Z.to_nat n) l))) eqn:Hu.
    + right. left. apply str_plain; try lia; auto.
    + right. right. eexists _, _, _. split; [reflexivity|]. right. split; [done|exact Hu].
  - mstep H. injection H as H. apply range_end_inr in H as ->. cbn [with_dval f_spec].
    eapply good_cond; [done|by destruct He as [->| ->]|destruct He as [->| ->]; by eexists _, _, _|reflexivity|].
    destruct (nillable b) eqn:Hnil; [by left|]. right. destruct (Z.eqb_spec mi 0) as [->|Hmi].
    { left. apply str_plain; try done; try (cbn; lia); auto. }
    destruct (Z.lt_ge_cases mi (2 ^ 32)) as [Hlt|Hge]; [left|right; eexists _, _, _; split; [reflexivity|by left]].
    assert (Hr : raw_n (ti_str_dval_n mi) = mi).
    { unfold ti_str_dval_n. rewrite raw_n_str, length_replicate, u32_small by lia. lia. }
    apply str_plain; try done; try lia. right. apply dashes_utf8.
Qed.

Lemma int_plain fl mi ma d : mi <= d <= ma ->
  plain_ok pcre_match re_email re_url re_tel (Field TI_SPEC_INT_RANGE TI_SPEC_ANY fl (Some condition_dval) (CIrange (VInt d) mi ma)) (VInt d) = true.
Proof. intros Hd. change ((mi <=? d) && (d <=? ma) = true). by rewrite !(proj2 (Z.leb_le _ _)) by lia. Qed.

Lemma int_range_good b cb fl s f' : base b cb ->
  int_range mem (with_dval (Field b TI_SPEC_ANY fl cb CNone) condition_dval) s = Some (inr f') -> plain_good f'.
Proof.
  intros Hb H. unfold int_range in H. mstep H. destruct s0 as [|[mi s1]]; [done|]. mstep H. mstep H. cbv zeta in H.
  mstep H. mstep H. mstep H. mstep H.
  set (ma := if (length l =? length (tail s1))%nat then LLONG_MAX else iv i) in *. apply Z.ltb_ge in E5.
  assert (Hint : forall d, nillable b = true /\ d = VNil \/ (exists x, d = VInt x /\ mi <= x <= ma) ->
    plain_good (or_spec (with_cond (with_dval (Field b TI_SPEC_ANY fl cb CNone) condition_dval) (CIrange d mi ma)) TI_SPEC_INT_RANGE)).
  { intros d Hd. eapply (good_cond b cb SIntRange); [done|done|by eexists _, _, _|reflexivity|].
    destruct Hd as [Hd|(x & -> & Hx)]; [by left|]. right. left. by apply int_plain. }
  mstep H. mstep H.
  - mstep H. mstep H. destruct s0 as [|[dv s2]]; [done|]. mstep H. mstep H. injection H as H. apply range_end_inr in H as ->.
    apply orb_false_iff in E10 as [Ea Eb]. apply Z.ltb_ge in Ea, Eb. apply Hint. right. by exists dv.
  - cbn [with_dval f_spec] in H. mstep H.
    + injection H as H. apply range_end_inr in H as ->. apply Hint. by left.
    + mstep H. injection H as H. apply range_end_inr in H as ->. apply Hint. right. eexists. split; [reflexivity|].
      destruct (Z.ltb_spec mi 0), (Z.ltb_spec ma 0), (Z.ltb_spec 0 mi), (Z.ltb_spec 0 ma); cbn [andb]; lia.
Qed.

(** Between the bounds of a range of doubles. *)
Lemma float_plain fl mi ma d : is_nan mi = false -> is_nan ma = false -> is_nan d = false -> SFltb d mi = false -> SFltb ma d = false ->
  plain_ok pcre_match re_email re_url re_tel (Field TI_SPEC_FLOAT_RANGE TI_SPEC_ANY fl (Some condition_dval) (CDrange (VFloat d) mi ma)) (VFloat d) = true.
Proof.
  intros H1 H2 H3 Ha Hb. rewrite dlt_dle in Ha, Hb by done. apply negb_false_iff in Ha, Hb.
  change (SFleb mi d && SFleb d ma = true). by rewrite Ha, Hb.
Qed.

Lemma dlt_rank x y : is_nan x = false -> is_nan y = false -> SFltb x y = false <-> lex_le (rank y) (rank x).
Proof. intros Hx Hy. rewrite dlt_dle, negb_false_iff by done. by apply dle_rank. Qed.

(** The default without a default: the bound that is closest to zero. *)
Definition middle (mi ma : double) : double :=
  if SFltb mi dzero && SFltb ma dzero then ma else if SFltb dzero mi && SFltb dzero ma then mi else dzero.

Lemma middle_between mi ma : dnan mi = false -> dnan ma = false -> SFltb ma mi = false ->
  dnan (middle mi ma) = false /\ SFltb (middle mi ma) mi = false /\ SFltb ma (middle mi ma) = false.
Proof.
  intros Hmi Hma H. unfold middle.
  assert (Hlt : forall x y, dnan x = false -> dnan y = false -> SFltb x y = true -> ~ lex_le (rank y) (rank x)).
  { intros x y Hx Hy Hxy Hr. apply dlt_rank in Hr; [|done..]. congruence. }
  pose proof (Hlt mi dzero Hmi eq_refl) as L1. pose proof (Hlt ma dzero Hma eq_refl) as L2.
  pose proof (Hlt dzero mi eq_refl Hmi) as L3. pose proof (Hlt dzero ma eq_refl Hma) as L4. clear Hlt.
  apply dlt_rank in H; [|done..].
  destruct (SFltb mi dzero) eqn:M1, (SFltb ma dzero) eqn:M2, (SFltb dzero mi) eqn:M3, (SFltb dzero ma) eqn:M4; cbn [andb];
    (split; [done|]); rewrite ?dlt_rank by done; repeat match goal with M : SFltb _ _ = false |- _ => apply dlt_rank in M; [|done..] end;
    repeat match goal with L : true = true -> _ |- _ => specialize (L eq_refl) | L : false = true -> _ |- _ => clear L end;
    unfold lex_le in *; destruct (rank mi) as [[? ?] ?], (rank ma) as [[? ?] ?]; cbn [fst snd rank dzero] in *; lia.
Qed.

Lemma float_range_good b cb fl s f' : base b cb ->
  float_range strtod mem (with_dval (Field b TI_SPEC_ANY fl cb CNone) condition_dval) s = Some (inr f') -> plain_good f'.
Proof.
  intros Hb H. unfold float_range in H. mstep H. destruct p as [mi s1]. mstep H. mstep H. mstep H. cbv zeta in H.
  mstep H. destruct p as [ma0 tmp]. cbv zeta in H.
  set (ma := if (length tmp =? length (tail s1))%nat then S754_infinity false else ma0) in *.
  mstep H. mstep H.
  assert (Hf : forall d, nillable b = true /\ d = VNil \/ (exists x, d = VFloat x /\ dnan x = false /\ SFltb x mi = false /\ SFltb ma x = false) ->
    plain_good (or_spec (with_cond (with_dval (Field b TI_SPEC_ANY fl cb CNone) condition_dval) (CDrange d mi ma)) TI_SPEC_FLOAT_RANGE)).
  { intros d Hd. eapply (good_cond b cb SFloatRange); [done|done|by eexists _, _, _|reflexivity|].
    destruct Hd as [Hd|(x & -> & Hx & Hx1 & Hx2)]; [by left|]. right. left. by apply float_plain. }
  mstep H. mstep H.
  - mstep H. mstep H. destruct p as [dv s2]. mstep H. mstep H. mstep H. injection H as H. apply range_end_inr in H as ->.
    apply orb_false_iff in E11 as [Ea Eb]. apply Hf. right. by exists dv.
  - cbn [with_dval f_spec] in H. mstep H.
    + injection H as H. apply range_end_inr in H as ->. apply Hf. by left.
    + mstep H. injection H as H. apply range_end_inr in H as ->. apply Hf. right. eexists. split; [reflexivity|].
      by apply middle_between.
Qed.

(** A pattern. *)
Lemma re_good b cb fl d re : base b cb -> nillable b = true /\ d = VNil \/ ti_val_is_str d = true /\ ti_regex_test pcre_match re d = true ->
  plain_good (or_spec (with_cond (with_dval (Field b TI_SPEC_ANY fl cb CNone) condition_dval) (CRe d re)) TI_SPEC_REMATCH).
Proof.
  intros Hb Hd. eapply (good_cond b cb SRematch); [done|done|by eexists _, _|reflexivity|]. destruct Hd as [Hd|[H1 H2]]; [by left|].
  right. left. change (ti_val_is_str d && ti_regex_test pcre_match re d = true). by rewrite H1, H2.
Qed.

Lemma re_init_good b cb fl s f' : base b cb ->
  ti_condition_field_re_init pcre_match regex_from_strn mem (Field b TI_SPEC_ANY fl cb CNone) s = Some (inr f') -> plain_good f'.
Proof.
  intros Hb H. unfold ti_condition_field_re_init in H. cbv zeta in H. mstep H.
  set (parts := if ends_in 62 s then _ else _) in H. destruct parts as [[p d]|]; [|done]. mstep H. mstep H.
  destruct (regex_from_strn p) as [re|]; [|done]. injection H as H. mstep H. mstep H. injection H as <-. apply re_good; [done|].
  apply andb_false_iff in E2. destruct d as [d|]; [right; split; [done|]|].
  { destruct E2 as [E2|E2]; [done|]. by apply negb_false_iff in E2. }
  cbn [with_dval f_spec] in *. destruct (nillable b) eqn:Hn; [by left|right]. split; [done|].
  destruct E2 as [E2|E2]; [done|]. by apply negb_false_iff in E2.
Qed.

Lemma bool_good b cb fl (v : bool) : base b cb ->
  plain_good (or_spec (with_dval (with_dval (Field b TI_SPEC_ANY fl cb CNone) condition_dval) (if v then condition_dval_true else condition_dval_false)) TI_SPEC_BOOL).
Proof.
  intros [[-> ->]|[-> ->]]; destruct v; (split; [|split; [vm_compute; split; [discriminate|reflexivity]|reflexivity]]);
    (eapply good_intro; [|vm_compute; discriminate|done|reflexivity|left; reflexivity]);
    (split; [spec16_tac|]; split; [split; [spec16_tac|by left]|]; split; [done|]; cbn; done).
Qed.

Lemma info_init_good b cb fl s f' : base b cb ->
  ti_condition_field_info_init pcre_match re_email re_url re_tel strtod mem (Field b TI_SPEC_ANY fl cb CNone) s = Some (inr f') -> plain_good f'.
Proof.
  intros Hb H. unfold ti_condition_field_info_init in H. cbv zeta in H. mstep H.
  destruct (info_kind_of re_email re_url re_tel s) as [[k rest]|]; [|done]. mstep H. mstep H. destruct k as [| | | | |p]; cbn [TI_SPEC_OF] in H.
  - injection H as H. mstep H; [injection H as <-; by apply (bool_good b cb fl true)|]. mstep H. injection H as <-. by apply (bool_good b cb fl false).
  - eapply (str_range_good b cb fl SStrRange); eauto.
  - eapply (str_range_good b cb fl SUtf8Range); eauto.
  - by eapply int_range_good.
  - by eapply float_range_good.
  - injection H as H. mstep H. mstep H. injection H as <-. apply re_good; [done|]. right. split; [done|]. by apply negb_false_iff in E3.
Qed.

(** ** Declarations *)

(** Another type has another id. *)
Context (Hscope : scope_ok sc me) (Huniq : forall t, t ∈ sc_types sc -> dt_id t = dt_id me -> dt_name t = dt_name me).

Definition declared (f : field) (dep : dependency) : Prop := good f /\ dep = field__dep me f.

Lemma no_dep_dep f : no_dep f -> field__dep me f = NoDep.
Proof.
  intros [Hs Hn]. unfold field__dep. rewrite (proj2 (Z.ltb_ge _ _)), (proj2 (Z.leb_gt _ _)), Hn by lia. done.
Qed.

Lemma plain_declared f : plain_good f -> declared f NoDep.
Proof. intros [Hg Hn]. split; [done|]. by rewrite no_dep_dep. Qed.

Lemma done_inr f f' e : done f e = inr f' -> f' = f /\ e = None.
Proof. unfold done. destruct (_ && _); [done|]. destruct e; [done|]. by intros [= <-]. Qed.

Lemma found_inr f f' : found f = inr f' ->
  unmask (f_spec f) <> TI_SPEC_SET /\ f' = f \/
  unmask (f_spec f) = TI_SPEC_SET /\ nillable (f_nested f) = false /\ f_nested f <= TI_SPEC_OBJECT /\
    f' = with_nested f (if f_nested f =? TI_SPEC_OBJECT then TI_SPEC_ANY else f_nested f).
Proof.
  unfold found. destruct (Z.eqb_spec (unmask (f_spec f)) TI_SPEC_SET) as [He|He].
  - destruct (nillable (f_nested f)) eqn:Hn; [intros H; by apply done_inr in H as [_ H]|].
    destruct (Z.ltb_spec TI_SPEC_OBJECT (f_nested f)); [intros Hd; by apply done_inr in Hd as [_ Hd]|].
    destruct (Z.eqb_spec (f_nested f) TI_SPEC_OBJECT); intros Hd; apply done_inr in Hd as [-> _]; right; split_and!; try done.
    by destruct f.
  - intros H. apply done_inr in H as [-> _]. by left.
Qed.

(** What can stand between the brackets. *)
Definition item_code (x : Z) : Prop := 0 <= x < TI_SPEC_ANY \/ TI_SPEC_ANY < x <= TI_SPEC_ENUM \/ TI_ENUM_ID_FLAG <= x < 32768.

Lemma simple_code nb cb x : base nb cb -> item_code x -> simple_spec (Z.lor nb x) /\ unmask (Z.lor nb x) = x.
Proof.
  intros Hb Hx. destruct (lor_base nb cb x Hb) as (Hu & _ & H16); [destruct Hx as [?|[?|?]]; slia|]. split; [|done].
  split; [done|]. rewrite Hu. destruct Hx as [?|[?|?]]; [right; left; lia|right; right; left; lia|right; right; right; lia].
Qed.

Definition bracket (k : Z) (cbk : dval_cb) : Prop :=
  k = TI_SPEC_ARR /\ cbk = dval_arr \/ k = TI_SPEC_SET /\ cbk = dval_set \/ k = TI_SPEC_OBJECT /\ cbk = dval_restricted.

Lemma bracket_spec b cb k cbk : base b cb -> bracket k cbk -> unmask (Z.lor b k) = k /\ TI_SPEC_ANY < k < TI_ENUM_ID_FLAG.
Proof. intros Hb Hk. destruct (lor_base b cb k Hb) as (Hu & _ & _); [destruct Hk as [[-> _]|[[-> _]|[-> _]]]; slia|]. split; [done|]. destruct Hk as [[-> _]|[[-> _]|[-> _]]]; slia. Qed.

(** The field with [y] between its brackets. *)
Definition listed (b k y fl : Z) (cb : option dval_cb) (cbk : dval_cb) : field := field__set_cb (Field (Z.lor b k) y fl cb CNone) cbk.

Lemma listed_nested b k y z fl cb cbk : with_nested (listed b k y fl cb cbk) z = listed b k z fl cb cbk.
Proof. unfold listed, field__set_cb. by destruct cb. Qed.

Lemma listed_spec b k y fl cb cbk : f_spec (listed b k y fl cb cbk) = Z.lor b k /\ f_nested (listed b k y fl cb cbk) = y.
Proof. unfold listed, field__set_cb. by destruct cb. Qed.

Lemma listed_set_cb b k y fl cb cbk c : field__set_cb (listed b k y fl cb cbk) c = listed b k y fl cb cbk.
Proof. unfold listed, field__set_cb. by destruct cb. Qed.

Lemma listed_found b k y fl cb cbk f' : base b cb -> bracket k cbk -> simple_spec y -> found (listed b k y fl cb cbk) = inr f' ->
  good f' /\ (field__dep me f' = field__dep me (Field TI_SPEC_ARR y 0 None CNone)).
Proof.
  intros Hb Hk Hy H. destruct (bracket_spec b cb k cbk Hb Hk) as [Hu Hr]. destruct (listed_spec b k y fl cb cbk) as [Hs Hn].
  apply found_inr in H. rewrite Hs, Hn, Hu, listed_nested in H.
  assert (Hdep : forall z, field__dep me (listed b k z fl cb cbk) = field__dep me (Field TI_SPEC_ARR z 0 None CNone)).
  { intros z. unfold field__dep. destruct (listed_spec b k z fl cb cbk) as [-> ->]. rewrite Hu. cbn [f_spec f_nested].
    rewrite (proj2 (Z.ltb_ge k _)), (proj2 (Z.leb_gt _ k)) by lia. done. }
  destruct H as [[Hne ->]|(-> & Hnil & Hle & ->)]; [split; [|apply Hdep]|].
  - apply good_nested; [done|destruct Hk as [[-> ->]|[[-> ->]|[-> ->]]]; auto; done|done].
  - assert (Hcb : cbk = dval_set) by (by destruct Hk as [[? ?]|[[? ?]|[? ?]]]). subst cbk. rewrite Hdep. split.
    + apply good_nested; [done| |by destruct (y =? _); [split; [spec16_tac|by left]|]]. right. left. split; [done|]. split; [done|].
      destruct (Z.eqb_spec y TI_SPEC_OBJECT); slia.
    + destruct (Z.eqb_spec y TI_SPEC_OBJECT) as [->|]; done.
Qed.

(** The dependency of a type or enumeration between brackets. *)
Lemma listed_dep nb cb x : base nb cb -> item_code x ->
  field__dep me (Field TI_SPEC_ARR (Z.lor nb x) 0 None CNone) =
    (if x <? TI_SPEC_ANY then if x =? dt_id me then OnSelf else OnType x
     else if TI_ENUM_ID_FLAG <=? x then OnEnum (Z.land x TI_ENUM_ID_MASK) else NoDep).
Proof. intros Hb Hx. unfold field__dep. cbn [f_spec f_nested]. by rewrite (proj2 (simple_code nb cb x Hb Hx)). Qed.

Lemma types_by_strn_in s t : ti_types_by_strn sc s = Some t -> t ∈ sc_types sc /\ dt_name t = s.
Proof. intros H. apply find_some in H as [H1 H2]. split; [by apply list_elem_of_In|]. by apply bool_decide_eq_true in H2. Qed.

Lemma enums_by_strn_in s e : ti_enums_by_strn sc s = Some e -> e ∈ sc_enums sc.
Proof. intros H. apply find_some in H as [H1 H2]. by apply list_elem_of_In. Qed.

Lemma enum_code e : e ∈ sc_enums sc -> item_code (Z.lor (de_id e) TI_ENUM_ID_FLAG) /\
  Z.land (Z.lor (de_id e) TI_ENUM_ID_FLAG) TI_ENUM_ID_MASK = de_id e /\ TI_ENUM_ID_FLAG <= Z.lor (de_id e) TI_ENUM_ID_FLAG.
Proof.
  intros He. pose proof (proj2 Hscope e He) as Hr. destruct (lor_enum _ Hr) as [-> ->]. change TI_ENUM_ID_MASK with 8191 in Hr.
  split; [right; right; slia|]. split; [done|slia].
Qed.

Lemma type_code t : t ∈ me :: sc_types sc -> item_code (dt_id t).
Proof. intros Ht. left. by apply (proj1 Hscope). Qed.

Lemma type_dep t s : t ∈ sc_types sc -> dt_name t = s -> s <> dt_name me -> (dt_id t =? dt_id me) = false.
Proof. intros Ht Hs Hne. apply Z.eqb_neq. intros He. apply Hne. rewrite <- Hs. by apply Huniq. Qed.

(** The dependency of a field without brackets. *)
Lemma plain_dep b cb x fl dv c : base b cb -> item_code x ->
  field__dep me (Field (Z.lor b x) TI_SPEC_ANY fl dv c) =
    (if x <? TI_SPEC_ANY then if x =? dt_id me then OnSelf else OnType x
     else if TI_ENUM_ID_FLAG <=? x then OnEnum (Z.land x TI_ENUM_ID_MASK) else NoDep).
Proof. intros Hb Hx. unfold field__dep. cbn [f_spec f_nested]. rewrite (proj2 (simple_code b cb x Hb Hx)). done. Qed.

Lemma set_cb_plain b x fl cb c : field__set_cb (Field (Z.lor b x) TI_SPEC_ANY fl cb CNone) c =
  Field (Z.lor b x) TI_SPEC_ANY fl (f_dval (field__set_cb (Field (Z.lor b x) TI_SPEC_ANY fl cb CNone) c)) CNone.
Proof. by destruct cb. Qed.

(** Nothing but a set is changed at the end. *)
Lemma found_plain f f' : unmask (f_spec f) <> TI_SPEC_SET -> found f = inr f' -> f' = f.
Proof. intros Hne H. apply found_inr in H as [[_ H]|[H _]]; [done|congruence]. Qed.

Lemma code_not_set x b cb : base b cb -> 0 <= x < TI_SPEC_ANY \/ TI_ENUM_ID_FLAG <= x < 32768 -> unmask (Z.lor b x) <> TI_SPEC_SET.
Proof. intros Hb Hx. rewrite (proj1 (lor_base b cb x Hb ltac:(slia))). slia. Qed.

Lemma by_name_plain selfref b cb fl s f' dep : base b cb ->
  by_name mem sc fuel me selfref false (Field b TI_SPEC_ANY fl cb CNone) s = Some (inr f', dep) -> declared f' dep.
Proof.
  intros Hb H. unfold by_name in H. cbv zeta in H. destruct (bool_decide (s = dt_name me)) eqn:Hme.
  { assert (Hid : 0 <= dt_id me < TI_SPEC_ANY) by (apply (proj1 Hscope); by left).
    rewrite (proj2 (Z.eqb_neq (dt_id me) TI_SPEC_TYPE)) in H by slia. mstep H. mstep H. injection H as H <-. cbn [or_target] in *.
    apply found_plain in H as ->; [|cbn [or_spec with_spec f_spec]; eapply code_not_set; [done|by left]].
    unfold or_spec, with_spec in *. cbn [f_spec f_nested f_flags f_dval f_cond negb andb] in *.
    rewrite (proj1 (proj2 (lor_base b cb (dt_id me) Hb ltac:(slia)))) in E. split.
    - apply (good_self b cb); [done|done|]. destruct (nillable b), (dt_wrap_only me); auto.
    - rewrite (plain_dep b cb) by (done || by left). by rewrite (proj2 (Z.ltb_lt _ _)), Z.eqb_refl by lia. }
  apply bool_decide_eq_false in Hme. destruct (ti_types_by_strn sc s) as [t|] eqn:Ht.
  - apply types_by_strn_in in Ht as [Ht Hname]. mstep H. cbn [negb andb or_target] in H.
    unfold or_spec, with_spec in H. cbn [f_spec f_nested f_flags f_dval f_cond] in H.
    assert (Hid : 0 <= dt_id t < TI_SPEC_ANY) by (apply (proj1 Hscope); by right).
    assert (Hpush : (nillable b = false -> field__dep_check sc fuel t (dt_id me) = Some false) ->
      found (field__set_cb (Field (Z.lor b (dt_id t)) TI_SPEC_ANY fl cb CNone) dval_type) = inr f' -> OnType (dt_id t) = dep ->
      declared f' dep).
    { intros Hchk Hf <-. apply found_plain in Hf as ->; [|rewrite set_cb_plain; cbn [f_spec]; eapply code_not_set; [done|by left]].
      split; [apply good_type; [done..|apply Z.eqb_neq; by eapply type_dep|done]|]. rewrite set_cb_plain, (plain_dep b cb) by (done || by left).
      by rewrite (proj2 (Z.ltb_lt _ _)), (type_dep t s) by (done || lia). }
    assert (Hnil : nillable (f_spec (field__set_cb (Field (Z.lor b (dt_id t)) TI_SPEC_ANY fl cb CNone) dval_type)) = nillable b).
    { rewrite set_cb_plain. cbn [f_spec]. apply (lor_base b cb (dt_id t) Hb). slia. }
    rewrite Hnil in H. destruct (nillable b); cbn [negb] in H.
    + mstep H. injection H as H1 H2. by apply Hpush.
    + mstep H. destruct b0; [done|]. mstep H. mstep H. injection H as H1 H2. by apply Hpush.
  - destruct (ti_enums_by_strn sc s) as [e|] eqn:He; [|done]. apply enums_by_strn_in in He. mstep H. mstep H. mstep H.
    injection H as H <-. cbn [or_target] in H. unfold or_spec, with_spec in H. cbn [f_spec f_nested f_flags f_dval f_cond] in H.
    destruct (enum_code e He) as (Hc & Hl & Hge).
    apply found_plain in H as ->; [|rewrite set_cb_plain; cbn [f_spec]; eapply code_not_set; [done|right; destruct Hc as [?|[?|?]]; slia]].
    split; [by apply good_enum|]. rewrite set_cb_plain, (plain_dep b cb) by done.
    by rewrite (proj2 (Z.ltb_ge _ _)), (proj2 (Z.leb_le _ _)), Hl by slia.
Qed.

Lemma enum_default_plain b cb fl s f' dep : base b cb ->
  enum_default mem sc false (Field b TI_SPEC_ANY fl cb CNone) s = Some (inr f', dep) -> declared f' dep.
Proof.
  intros Hb H. unfold enum_default in H. cbv zeta in H. destruct (split_brace s) as [[m rest]|].
  2:{ mstep H. injection H as H _. by apply done_inr in H as [_ ?]. }
  destruct (ti_enums_by_strn sc m) as [e|] eqn:He; [|mstep H; injection H as H _; by apply done_inr in H as [_ ?]].
  apply enums_by_strn_in in He. do 5 mstep H. unfold ti_enum_member_by_strn in H.
  destruct (List.find _ (de_members e)) as [[name w]|]; cbn [mbind option_bind] in H; [|done]. mstep H. injection H as H <-.
  cbn [or_target fst snd] in H. unfold or_spec, with_spec, with_dval, with_cond in H. cbn [f_spec f_nested f_flags f_dval f_cond] in H.
  destruct (enum_code e He) as (Hc & Hl & Hge).
  apply found_plain in H as ->; [|cbn [f_spec]; eapply code_not_set; [done|right; destruct Hc as [?|[?|?]]; slia]].
  split; [by eapply good_enum_member|]. rewrite (plain_dep b cb) by done.
  by rewrite (proj2 (Z.ltb_ge _ _)), (proj2 (Z.leb_le _ _)), Hl by slia.
Qed.

Lemma by_name_nested selfref b cb k cbk nb cbn fl s f' dep : base b cb -> bracket k cbk -> base nb cbn ->
  by_name mem sc fuel me selfref true (listed b k nb fl cb cbk) s = Some (inr f', dep) -> declared f' dep.
Proof.
  intros Hb Hk Hnb H. unfold by_name in H. cbv zeta in H. cbn [or_target negb andb] in H.
  destruct (listed_spec b k nb fl cb cbk) as [Hs Hn]. rewrite Hn in H.
  assert (Hend : forall x c, item_code x ->
    found (field__set_cb (with_nested (listed b k nb fl cb cbk) (Z.lor nb x)) c) = inr f' ->
    good f' /\ field__dep me f' = (if x <? TI_SPEC_ANY then if x =? dt_id me then OnSelf else OnType x
     else if TI_ENUM_ID_FLAG <=? x then OnEnum (Z.land x TI_ENUM_ID_MASK) else NoDep)).
  { intros x c Hx Hf. rewrite listed_nested, listed_set_cb in Hf.
    apply listed_found in Hf as [Hg Hd]; [|done|done|by eapply simple_code]. split; [done|]. by rewrite Hd, (listed_dep nb cbn). }
  destruct (bool_decide (s = dt_name me)) eqn:Hme.
  { assert (Hid : 0 <= dt_id me < TI_SPEC_ANY) by (apply (proj1 Hscope); by left).
    rewrite (proj2 (Z.eqb_neq (dt_id me) TI_SPEC_TYPE)) in H by slia. mstep H. injection H as H <-.
    destruct (Hend (dt_id me) cbk) as [Hg Hd]; [by left|by rewrite listed_nested, listed_set_cb, <- (listed_nested b k nb)|].
    split; [done|]. by rewrite Hd, (proj2 (Z.ltb_lt _ _)), Z.eqb_refl by lia. }
  apply bool_decide_eq_false in Hme. destruct (ti_types_by_strn sc s) as [t|] eqn:Ht.
  - apply types_by_strn_in in Ht as [Ht Hname]. mstep H. mstep H. injection H as H <-.
    assert (Hid : 0 <= dt_id t < TI_SPEC_ANY) by (apply (proj1 Hscope); by right).
    destruct (Hend (dt_id t) dval_type) as [Hg Hd]; [by left|done|]. split; [done|].
    by rewrite Hd, (proj2 (Z.ltb_lt _ _)), (type_dep t s) by (done || lia).
  - destruct (ti_enums_by_strn sc s) as [e|] eqn:He; [|done]. apply enums_by_strn_in in He. mstep H. mstep H. mstep H.
    injection H as H <-. destruct (enum_code e He) as (Hc & Hl & Hge).
    destruct (Hend (Z.lor (de_id e) TI_ENUM_ID_FLAG) dval_enum) as [Hg Hd]; [done|done|]. split; [done|].
    by rewrite Hd, (proj2 (Z.ltb_ge _ _)), (proj2 (Z.leb_le _ _)), Hl by slia.
Qed.

Lemma enum_default_nested b cb k cbk nb fl s f' dep : base b cb -> bracket k cbk ->
  enum_default mem sc true (listed b k nb fl cb cbk) s = Some (inr f', dep) -> declared f' dep.
Proof.
  intros Hb Hk H. unfold enum_default in H. cbv zeta in H. destruct (split_brace s) as [[m rest]|].
  2:{ mstep H. injection H as H _. by apply done_inr in H as [_ ?]. }
  destruct (ti_enums_by_strn sc m) as [e|] eqn:He; [|mstep H; injection H as H _; by apply done_inr in H as [_ ?]].
  exfalso. rewrite (proj1 (listed_spec b k nb fl cb cbk)), (proj1 (bracket_spec b cb k cbk Hb Hk)) in H.
  mstep H. destruct Hk as [[-> _]|[[-> _]|[-> _]]]; done.
Qed.

Lemma declare_plain selfref b cb fl s f' dep : base b cb ->
  declare pcre_match re_email re_url re_tel regex_from_strn strtod mem sc fuel me selfref false (Field b TI_SPEC_ANY fl cb CNone) s
    = Some (inr f', dep) -> declared f' dep.
Proof.
  intros Hb H. unfold declare in H. cbv zeta in H. mstep H. mstep H. mstep H. mstep H.
  { mstep H. injection H as -> <-. apply plain_declared. by eapply re_init_good. }
  mstep H. { mstep H. injection H as -> <-. apply plain_declared. by eapply info_init_good. }
  mstep H. destruct o as [m|].
  - apply field_map_in in E4. cbn [or_target] in H. unfold or_spec, with_spec in H. cbn [f_spec f_nested f_flags f_dval f_cond] in H.
    injection H as H <-. pose proof (good_named b cb m fl Hb E4) as Hg. pose proof (mapping_spec m E4) as Hr.
    replace (if fm_spec m =? TI_SPEC_ANY then {| f_spec := TI_SPEC_ANY; f_nested := TI_SPEC_ANY; f_flags := fl; f_dval := cb; f_cond := CNone |}
             else {| f_spec := Z.lor b (fm_spec m); f_nested := TI_SPEC_ANY; f_flags := fl; f_dval := cb; f_cond := CNone |})
      with (Field (if fm_spec m =? TI_SPEC_ANY then TI_SPEC_ANY else Z.lor b (fm_spec m)) TI_SPEC_ANY fl cb CNone) in H by (destruct (fm_spec m =? TI_SPEC_ANY); reflexivity).
    set (f := field__set_cb _ _) in *. assert (Hn : f_nested f = TI_SPEC_ANY) by (unfold f, field__set_cb; by destruct cb).
    assert (Hs : f_spec f = if fm_spec m =? TI_SPEC_ANY then TI_SPEC_ANY else Z.lor b (fm_spec m)) by (unfold f, field__set_cb; by destruct cb).
    assert (f' = f) as ->.
    { apply found_inr in H as [[_ H]|(_ & _ & _ & H)]; [done|]. rewrite Hn in H. rewrite H. by destruct f; cbn in Hn; subst. }
    apply plain_declared. split; [done|]. split; [|done]. rewrite Hs. destruct (Z.eqb_spec (fm_spec m) TI_SPEC_ANY) as [He|He]; [vm_compute; split; done|].
    rewrite (proj1 (lor_base b cb (fm_spec m) Hb ltac:(slia))). slia.
  - mstep H; [by eapply enum_default_plain|by eapply by_name_plain].
Qed.

Lemma declare_nested selfref b cb k cbk nb cbn fl s f' dep : base b cb -> bracket k cbk -> base nb cbn ->
  bool_decide (list.head s = Some 47) = false -> ends_in 62 s = false ->
  declare pcre_match re_email re_url re_tel regex_from_strn strtod mem sc fuel me selfref true (listed b k nb fl cb cbk) s
    = Some (inr f', dep) -> declared f' dep.
Proof.
  intros Hb Hk Hnb Hre Hgt H. unfold declare in H. cbv zeta in H. mstep H. mstep H. mstep H. mstep H.
  { exfalso. apply Z.eqb_eq in E2 as ->. by apply bool_decide_eq_false in Hre. }
  rewrite Hgt in H. mstep H. destruct o as [m|].
  - apply field_map_in in E3. cbn [or_target] in H. injection H as H <-. rewrite !listed_nested, (proj2 (listed_spec b k nb fl cb cbk)) in H.
    pose proof (mapping_spec m E3) as Hr.
    assert (Hy : exists y, simple_spec y /\ found (listed b k y fl cb cbk) = inr f' /\ field__dep me (Field TI_SPEC_ARR y 0 None CNone) = NoDep).
    { destruct (Z.eqb_spec (fm_spec m) TI_SPEC_ANY) as [He|He].
      - exists TI_SPEC_ANY. rewrite listed_set_cb in H. split; [split; [spec16_tac|by left]|]. done.
      - assert (Hc : item_code (fm_spec m)) by (right; left; slia). exists (Z.lor nb (fm_spec m)). rewrite listed_set_cb in H.
        split; [by eapply simple_code|]. split; [done|]. rewrite (listed_dep nb cbn) by done.
        by rewrite (proj2 (Z.ltb_ge _ _)), (proj2 (Z.leb_gt _ _)) by slia. }
    destruct Hy as (y & Hy & Hf & Hd). apply listed_found in Hf as [Hg Hd']; [|done..]. split; [done|]. by rewrite Hd', Hd.
  - mstep H; [eapply enum_default_nested; [exact Hb|exact Hk|exact H]|eapply by_name_nested; [exact Hb|exact Hk|exact Hnb|exact H]].
Qed.

Lemma field_init_declared selfref raw f dep :
  field__init pcre_match re_email re_url re_tel regex_from_strn strtod mem sc fuel me selfref raw = Some (inr f, dep) -> declared f dep.
Proof.
  intros H. unfold field__init in H. cbv zeta in H. mstep H. destruct (flags_loop raw 0) as [|[s fl]]; [done|]. mstep H.
  set (flags := if Z.land fl TI_FIELD_MIN_MAX =? 0 then _ else _) in H.
  assert (Hbase : forall q : bool, exists b cb, base b cb /\
    (if q then Field TI_SPEC_NILLABLE 0 flags (Some dval_nil) CNone else Field 0 0 flags None CNone) = Field b 0 flags cb CNone).
  { intros []; [exists TI_SPEC_NILLABLE, (Some dval_nil)|exists 0, None]; (split; [|done]); [by right|by left]. }
  destruct (Hbase (ends_in 63 s)) as (b & cb & Hb & Heq). rewrite Heq in H. clear Hbase Heq. mstep H.
  set (s1 := if ends_in 63 s then removelast s else s) in *. destruct (brackets s1) as [[e|[[k cbk] s2]]|] eqn:Hbr; [done| |].
  - assert (Hk : bracket k cbk).
    { unfold brackets in Hbr. mstep Hbr. mstep Hbr; [injection Hbr as Hbr; mstep Hbr; injection Hbr as <- <- _; by left|].
      mstep Hbr; [injection Hbr as Hbr; mstep Hbr; injection Hbr as <- <- _; by right; left|].
      mstep Hbr. injection Hbr as Hbr. mstep Hbr. injection Hbr as <- <- _. by right; right. }
    change (field__set_cb (or_spec (Field b 0 flags cb CNone) k) cbk) with (listed b k 0 flags cb cbk) in H. rewrite listed_nested in H.
    mstep H.
    { injection H as <- <-. destruct (bracket_spec b cb k cbk Hb Hk) as [Hu Hr]. destruct (listed_spec b k TI_SPEC_ANY flags cb cbk) as [Hs Hn]. split.
      - apply good_nested; [done|destruct Hk as [[-> ->]|[[-> ->]|[-> ->]]]; auto; right; left; done|split; [spec16_tac|by left]].
      - symmetry. apply no_dep_dep. split; [rewrite Hs, Hu; lia|done]. }
    assert (Hnb : forall q : bool, exists nb cbn, base nb cbn /\
      (if q then listed b k TI_SPEC_NILLABLE flags cb cbk else listed b k 0 flags cb cbk) = listed b k nb flags cb cbk).
    { intros []; [exists TI_SPEC_NILLABLE, (Some dval_nil)|exists 0, None]; (split; [|done]); [by right|by left]. }
    rewrite listed_nested in H. destruct (Hnb (ends_in 63 s2)) as (nb & cbn & Hbn & Heq). rewrite Heq in H. mstep H. mstep H. mstep H.
    eapply declare_nested; [exact Hb|exact Hk|exact Hbn|done|done|exact H].
  - by eapply declare_plain.
Qed.
End Good.
