(* ===== verification/TypeDeps.v ===== *)
(** * Types that use each other

    Types get, change and lose fields by declarations. Between types the fields that
    cannot be nil have no cycle, since [field__dep_check] refuses a declaration that
    would close one; so the search itself ends, and so does making the default of a
    type, which makes the defaults of the types of its fields. *)
From Stdlib Require Import ZArith Lia Floats.SpecFloat.
From stdpp Require Import base list option numbers relations.
From S2P Require Import Prelude Utf8 Opr Strx Spec Keywords Field FieldProof FieldInit FieldInitProof.

Section Deps.
Context (enums : list dep_enum).

(** [x] has a field of type [y] that cannot be nil. *)
Definition uses (types : list dep_type) (x y : Z) : Prop :=
  exists t f, t ∈ types /\ dt_id t = x /\ f ∈ dt_fields t /\ f_spec f = y /\ y < TI_SPEC_ANY.

(** [y] comes before [x]. *)
Definition before (ord : list Z) (y x : Z) : Prop := exists l1 l2, ord = l1 ++ x :: l2 /\ y ∈ l1.

(** An order in which every type comes after the types it uses. *)
Definition ordered_by (types : list dep_type) (ord : list Z) : Prop :=
  ord ≡ₚ map dt_id types /\ NoDup (map dt_id types) /\ forall x y, uses types x y -> before ord y x.

Lemma ids_unique types t u : NoDup (map dt_id types) -> t ∈ types -> u ∈ types -> dt_id t = dt_id u -> t = u.
Proof.
  intros Hnd Ht Hu He. apply list_elem_of_lookup_1 in Ht as [i Hi], Hu as [j Hj].
  assert (i = j) as ->; [|congruence]. eapply NoDup_lookup; [exact Hnd| |]; [rewrite list_lookup_fmap, Hi; reflexivity|].
  rewrite list_lookup_fmap, Hj. cbn. by rewrite He.
Qed.

Lemma in_ids types x : x ∈ map dt_id types <-> exists t, t ∈ types /\ dt_id t = x.
Proof. rewrite list_elem_of_In, in_map_iff. setoid_rewrite <- list_elem_of_In. split; intros (t & ? & ?); by exists t. Qed.

Lemma types_by_id_in types t : NoDup (map dt_id types) -> t ∈ types -> ti_types_by_id (Scope types enums) (dt_id t) = Some t.
Proof.
  intros Hu Ht. unfold ti_types_by_id. cbn [sc_types]. destruct (List.find _ types) as [u|] eqn:E.
  - apply find_some in E as [Hu1 Hu2]. apply list_elem_of_In in Hu1. apply Z.eqb_eq in Hu2. f_equal. by eapply ids_unique.
  - exfalso. apply list_elem_of_In in Ht. pose proof (find_none _ _ E t Ht) as H. cbn in H. by rewrite Z.eqb_refl in H.
Qed.

Section Check.
Context (types : list dep_type) (ord : list Z) (Hord : ordered_by types ord).

Lemma ord_nodup : NoDup ord.
Proof. destruct Hord as (Hp & Hnd & _). by rewrite Hp. Qed.

Lemma uses_ord x y : uses types x y -> forall j, ord !! j = Some x -> exists i, (i < j)%nat /\ ord !! i = Some y.
Proof.
  intros Hu j Hj. pose proof ord_nodup as Hnd. destruct Hord as (_ & _ & He). destruct (He x y Hu) as (l1 & l2 & -> & Hy).
  assert (j = length l1) as ->. { eapply NoDup_lookup; [exact Hnd|exact Hj|]. by apply list_lookup_middle. }
  apply list_elem_of_lookup_1 in Hy as [i Hi]. exists i. split; [by eapply lookup_lt_Some|]. by apply lookup_app_l_Some.
Qed.

Lemma reach_ord x y : tc (uses types) x y -> forall j, ord !! j = Some x -> exists i, (i < j)%nat /\ ord !! i = Some y.
Proof.
  induction 1 as [x y H|x y z H _ IH]; intros j Hj; destruct (uses_ord _ _ H j Hj) as (i & Hlt & Hi); [by exists i|].
  destruct (IH i Hi) as (k & Hk & Hz). exists k. split; [lia|done].
Qed.

(** The search ends, and decides whether the type is reached. *)
Lemma dep_check_exact x : x < TI_SPEC_ANY -> forall fuel i t, t ∈ types -> ord !! i = Some (dt_id t) -> (i < fuel)%nat ->
  exists b, field__dep_check (Scope types enums) fuel t x = Some b /\ (b = true <-> tc (uses types) (dt_id t) x).
Proof.
  intros Hx. induction fuel as [|fuel IH]; intros i t Ht Hi Hlt; [lia|]. cbn [field__dep_check].
  assert (Hsub : forall f, f ∈ dt_fields t -> f ∈ dt_fields t) by done.
  assert (Hgoal : forall l, (forall f, f ∈ l -> f ∈ dt_fields t) ->
    exists b, (fix check (l : list field) : option bool :=
       match l with
       | [] => Some false
       | f :: l =>
         if f_spec f =? x then Some true
         else if f_spec f <? TI_SPEC_ANY then
           d ← ti_types_by_id (Scope types enums) (f_spec f); r ← field__dep_check (Scope types enums) fuel d x;
           if r : bool then Some true else check l
         else check l
       end) l = Some b /\
      (b = true <-> exists f, f ∈ l /\ f_spec f < TI_SPEC_ANY /\ (f_spec f = x \/ tc (uses types) (f_spec f) x))).
  { induction l as [|f l IHl]; intros Hl.
    { exists false. split; [done|]. split; [done|]. intros (f & Hf & _). by apply elem_of_nil in Hf. }
    destruct IHl as (b & Hb & Hiff); [intros g Hg; apply Hl; by right|].
    assert (Huse : f_spec f < TI_SPEC_ANY -> uses types (dt_id t) (f_spec f)) by (intros Hs; exists t, f; split_and!; auto; apply Hl; by left).
    destruct (Z.eqb_spec (f_spec f) x) as [He|He].
    { exists true. split; [done|]. split; [intros _|done]. exists f. split; [by left|]. split; [lia|by left]. }
    destruct (Z.ltb_spec (f_spec f) TI_SPEC_ANY) as [Hs|Hs].
    - destruct (uses_ord _ _ (Huse Hs) i Hi) as (j & Hj & Hordj). destruct Hord as (Hp & Hnd & _).
      destruct (proj1 (in_ids types (f_spec f))) as (d & Hd & Hid); [rewrite <- Hp; by eapply list_elem_of_lookup_2|].
      rewrite <- Hid, types_by_id_in by done. cbn [mbind option_bind].
      destruct (IH j d Hd) as (r & Hr & Hriff); [by rewrite Hid|lia|]. rewrite Hr. cbn [mbind option_bind]. destruct r.
      + exists true. split; [done|]. split; [intros _|done]. exists f. split; [by left|]. split; [done|]. right. rewrite <- Hid. by apply Hriff.
      + exists b. split; [done|]. rewrite Hiff. split.
        * intros (g & Hg & Hgs). exists g. split; [by right|done].
        * intros (g & Hg & Hgs & Hgr). apply elem_of_cons in Hg as [->|Hg]; [|by exists g].
          exfalso. destruct Hgr as [?|Hgr]; [done|]. rewrite <- Hid in Hgr. by apply Hriff in Hgr.
    - exists b. split; [done|]. rewrite Hiff. split.
      * intros (g & Hg & Hgs). exists g. split; [by right|done].
      * intros (g & Hg & Hgs & Hgr). apply elem_of_cons in Hg as [->|Hg]; [lia|by exists g]. }
  destruct (Hgoal (dt_fields t) Hsub) as (b & Hb & Hiff). exists b. split; [exact Hb|]. rewrite Hiff. split.
  - intros (f & Hf & Hs & [<-|Hr]); [apply tc_once|eapply tc_l; [|done]]; exists t, f; auto.
  - destruct Hord as (_ & Hnd & _). intros Hr. inversion Hr as [? ? Hu|? y ? Hu Hr']; subst.
    + destruct Hu as (t' & f & Ht' & Hid & Hf & Hfs & Hlt'). assert (t' = t) as -> by by eapply ids_unique. exists f. split_and!; [done|lia|by left].
    + destruct Hu as (t' & f & Ht' & Hid & Hf & Hfs & Hlt'). assert (t' = t) as -> by by eapply ids_unique. exists f.
      split; [done|]. split; [lia|]. right. by rewrite Hfs.
Qed.
End Check.

(** ** One more field *)

Lemma before_filter (p : Z -> bool) ord x y : p x = true -> p y = true -> before ord y x -> before (List.filter p ord) y x.
Proof.
  intros Hx Hy (l1 & l2 & -> & Hin). exists (List.filter p l1), (List.filter p l2). rewrite List.filter_app. cbn [List.filter]. rewrite Hx.
  split; [done|]. apply list_elem_of_In, filter_In. split; [by apply list_elem_of_In|done].
Qed.

Lemma before_app_l l k x y : before l y x -> before (l ++ k) y x.
Proof. intros (l1 & l2 & -> & Hy). exists l1, (l2 ++ k). by rewrite <- app_assoc. Qed.

Lemma before_app_r l k x y : before k y x -> before (l ++ k) y x.
Proof. intros (l1 & l2 & -> & Hy). exists (l ++ l1), l2. rewrite <- app_assoc. split; [done|]. apply elem_of_app. by right. Qed.

Lemma before_across l k x y : y ∈ l -> x ∈ k -> before (l ++ k) y x.
Proof.
  intros Hy Hx. apply list_elem_of_split in Hx as (l1 & l2 & ->). exists (l ++ l1), l2. rewrite <- app_assoc.
  split; [done|]. apply elem_of_app. by left.
Qed.

Lemma filter_split_perm (p : Z -> bool) l : List.filter p l ++ List.filter (fun x => negb (p x)) l ≡ₚ l.
Proof.
  induction l as [|x l IH]; [done|]. cbn [List.filter]. destruct (p x); cbn [negb app]; [by rewrite IH|].
  rewrite <- Permutation_middle. by rewrite IH.
Qed.

(** The types that are reached from [d] go to the front: the new edge from [m] to [d]
    then goes backwards, like the others. *)
Lemma reorder types types' ord d m (p : Z -> bool) : ordered_by types ord -> map dt_id types' = map dt_id types ->
  d ∈ ord -> m ∈ ord -> (forall x, p x = true <-> x = d \/ tc (uses types) d x) -> p m = false ->
  (forall x y, uses types' x y -> uses types x y \/ x = m /\ y = d) -> exists ord', ordered_by types' ord'.
Proof.
  intros (Hp & Hnd & He) Hids Hd Hm Hpr Hpm Hu. exists (List.filter p ord ++ List.filter (fun x => negb (p x)) ord).
  assert (Hin : forall x y, before ord y x -> x ∈ ord /\ y ∈ ord).
  { intros x y (l1 & l2 & -> & Hy). split; apply elem_of_app; [right; by left|by left]. }
  assert (Hf : forall q x, x ∈ ord -> q x = true -> x ∈ List.filter q ord).
  { intros q x Hx Hq. apply list_elem_of_In, filter_In. split; [by apply list_elem_of_In|done]. }
  split; [by rewrite Hids, filter_split_perm|]. split; [by rewrite Hids|]. intros x y Hxy. apply Hu in Hxy as [Hxy|[-> ->]].
  - pose proof (He x y Hxy) as Hb. destruct (Hin x y Hb) as [Hx Hy].
    destruct (p x) eqn:Px.
    + apply before_app_l, before_filter; [done| |done]. apply Hpr. apply Hpr in Px as [->|Px]; right; [by apply tc_once|by eapply tc_r].
    + destruct (p y) eqn:Py; [apply before_across; apply Hf; by rewrite ?Px|].
      apply before_app_r, (before_filter (fun z => negb (p z))); [by rewrite Px|by rewrite Py|done].
  - apply before_across; apply Hf; try done; [by apply Hpr; left|by rewrite Hpm].
Qed.

(** Fewer fields, and types that nothing uses, do not matter. *)
Lemma fewer_uses types types' ord : ordered_by types ord -> map dt_id types' = map dt_id types ->
  (forall x y, uses types' x y -> uses types x y) -> ordered_by types' ord.
Proof. intros (Hp & Hnd & He) Hids Hu. split_and!; [by rewrite Hids|by rewrite Hids|]. intros x y Hxy. by apply He, Hu. Qed.

Lemma before_ne (ord : list Z) x y : NoDup ord -> before ord y x -> y <> x.
Proof.
  intros Hnd (l1 & l2 & -> & Hy) ->. apply list.NoDup_app in Hnd as (_ & Hdis & _). apply (Hdis x Hy). by left.
Qed.

Lemma drop_unused types types' ord m : ordered_by types ord -> map dt_id types ≡ₚ m :: map dt_id types' ->
  (forall x y, uses types' x y -> uses types x y /\ x <> m /\ y <> m) -> exists ord', ordered_by types' ord'.
Proof.
  intros (Hp & Hnd & He) Hids Hu. set (p := fun x => negb (x =? m)). exists (List.filter p ord).
  assert (Hn : NoDup (m :: map dt_id types')) by by rewrite <- Hids.
  assert (Hall : forall l : list Z, m ∉ l -> List.filter p l = l).
  { intros l Hm. apply forallb_filter_id, forallb_forall. intros x Hx. apply negb_true_iff, Z.eqb_neq. intros ->. by apply Hm, list_elem_of_In. }
  assert (Hperm : forall l k : list Z, l ≡ₚ k -> List.filter p l ≡ₚ List.filter p k).
  { induction 1; cbn [List.filter]; repeat destruct (p _); try done; [by f_equiv|by constructor|by etrans]. }
  split_and!.
  - rewrite (Hperm _ _ Hp), (Hperm _ _ Hids). cbn [List.filter]. unfold p at 1. rewrite Z.eqb_refl. cbn [negb].
    rewrite Hall; [done|]. by apply NoDup_cons_1_1 in Hn.
  - by apply NoDup_cons_1_2 in Hn.
  - intros x y Hxy. apply Hu in Hxy as (Hxy & Hx & Hy). apply before_filter; [by apply negb_true_iff, Z.eqb_neq..|]. by apply He.
Qed.
End Deps.
