(* ===== verification/TypeProps.v ===== *)
(** * Types from declarations: properties

    What a declaration gives, and what holds of all types of a collection after any
    sequence of new types and of fields that are added, changed and removed. *)
From Stdlib Require Import ZArith Lia Ascii String Floats.SpecFloat.
From stdpp Require Import base list option numbers relations.
From S2P Require Import Prelude Utf8 Opr Strx Spec Keywords Field FieldProof FieldInit FieldInitProof TypeDeps.

Section Types.
Context (pcre_match : list Z -> list Z -> bool) (re_email re_url re_tel : list Z) (regex_from_strn : list Z -> option (list Z))
  (strtod : list Z -> option (double * list Z * bool)).
Context (enums : list dep_enum).

Local Notation field_ok := (field_ok pcre_match re_email re_url re_tel).
Local Notation init := (field__init pcre_match re_email re_url re_tel regex_from_strn strtod).

(** Enumerations have members and different ids of 13 bits. *)
Definition enums_ok : Prop := forall e, e ∈ enums -> 0 <= de_id e <= TI_ENUM_ID_MASK /\ de_members e <> [].

Definition with_fields (t : dep_type) (l : list field) : dep_type := DepType (dt_id t) (dt_name t) (dt_wrap_only t) (dt_lock t) l.

(** The bound on the search for a cycle. *)
Definition dep_fuel (types : list dep_type) : nat := length types.

Inductive type_step : list dep_type -> list dep_type -> Prop :=
  | step_new types t :                                      (* ti_type_create *)
      dt_fields t = [] -> dt_wrap_only t = false -> 0 <= dt_id t < TI_SPEC_ANY ->
      dt_id t ∉ map dt_id types -> dt_name t ∉ map dt_name types -> type_step types (types ++ [t])
  | step_lock pre me post lock :                            (* while a field is migrated *)
      type_step (pre ++ me :: post) (pre ++ DepType (dt_id me) (dt_name me) (dt_wrap_only me) lock (dt_fields me) :: post)
  | step_add pre me post mem selfref raw f dep :            (* ti_field_create *)
      init mem (Scope (pre ++ me :: post) enums) (dep_fuel (pre ++ me :: post)) me selfref raw = Some (inr f, dep) ->
      type_step (pre ++ me :: post) (pre ++ with_fields me (dt_fields me ++ [f]) :: post)
  | step_mod pre me post l1 g l2 mem selfref raw f dep :    (* ti_field_mod_force, ti_field_replace *)
      dt_fields me = l1 ++ g :: l2 ->
      init mem (Scope (pre ++ me :: post) enums) (dep_fuel (pre ++ me :: post)) me selfref raw = Some (inr f, dep) ->
      type_step (pre ++ me :: post) (pre ++ with_fields me (l1 ++ f :: l2) :: post)
  | step_del pre me post l1 g l2 l :                        (* ti_field_remove *)
      dt_fields me = l1 ++ g :: l2 -> l ≡ₚ l1 ++ l2 -> type_step (pre ++ me :: post) (pre ++ with_fields me l :: post)
  | step_drop pre me post :                                 (* ti_type_del, without references *)
      (forall t f, t ∈ pre ++ post -> f ∈ dt_fields t -> f_spec f <> dt_id me) -> type_step (pre ++ me :: post) (pre ++ post).

(** ** What holds between steps *)

(** The defaults fit, whatever the defaults of other types and of enumerations are. *)
Definition fits (f : field) : Prop := forall td ed : Z -> option val,
  (forall id v, td id = Some v -> exists via dict items, v = VThing id via dict items) ->
  (forall id v, ed id = Some v -> exists name w, v = VMember id name w) ->
  forall v, field_dval td ed f = Some v -> field_ok f v = true \/ odd_default f.

Record types_ok (types : list dep_type) : Prop := TypesOk {
  to_types : forall t, t ∈ types -> 0 <= dt_id t < TI_SPEC_ANY /\ dt_wrap_only t = false;
  to_names : NoDup (map dt_name types);
  to_order : exists ord, ordered_by types ord;
  to_fields : forall t f, t ∈ types -> f ∈ dt_fields t -> field_wf f /\ has_dval (Scope types enums) f /\ fits f
}.

Lemma has_dval_types types types' f : (forall x, x ∈ map dt_id types -> x ∈ map dt_id types') ->
  has_dval (Scope types enums) f -> has_dval (Scope types' enums) f.
Proof.
  intros Hids. unfold has_dval. destruct (f_dval f) as [[]|]; try done. cbn [sc_types].
  intros H. apply in_ids, Hids, in_ids in H. done.
Qed.

Lemma names_unique types t u : NoDup (map dt_name types) -> t ∈ types -> u ∈ types -> dt_name t = dt_name u -> t = u.
Proof.
  intros Hnd Ht Hu He. apply list_elem_of_lookup_1 in Ht as [i Hi], Hu as [j Hj].
  assert (i = j) as ->; [|congruence]. eapply NoDup_lookup; [exact Hnd| |]; [rewrite list_lookup_fmap, Hi; reflexivity|].
  rewrite list_lookup_fmap, Hj. cbn. by rewrite He.
Qed.

Lemma elem_mid {A} (pre post : list A) x y : y ∈ pre ++ x :: post <-> y = x \/ y ∈ pre ++ post.
Proof. rewrite !elem_of_app, elem_of_cons. tauto. Qed.

(** A declaration of a type of the collection. *)
Lemma init_ok types me mem selfref raw f dep : enums_ok -> types_ok types -> me ∈ types ->
  init mem (Scope types enums) (dep_fuel types) me selfref raw = Some (inr f, dep) ->
  field_wf f /\ has_dval (Scope types enums) f /\ fits f /\ direct_ok (Scope types enums) me (dep_fuel types) f.
Proof.
  intros Hen Hok Hme H. destruct (to_types types Hok me Hme) as [_ Hwo].
  assert (Hsc : scope_ok (Scope types enums) me).
  { split; [|intros e He; by apply Hen]. intros t Ht. apply elem_of_cons in Ht as [->|Ht]; by apply (to_types types Hok). }
  assert (Huniq : forall t, t ∈ sc_types (Scope types enums) -> dt_id t = dt_id me -> dt_name t = dt_name me).
  { intros t Ht He. destruct (to_order types Hok) as (ord & _ & Hnd & _). f_equal. by eapply ids_unique. }
  assert (Hg : forall td ed : Z -> option val,
    (forall id v, td id = Some v -> exists via dict items, v = VThing id via dict items) ->
    (forall id v, ed id = Some v -> exists name w, v = VMember id name w) ->
    good pcre_match re_email re_url re_tel td ed (Scope types enums) me (dep_fuel types) f).
  { intros td ed Htd Hed. by eapply field_init_declared in H as [H _]. }
  destruct (Hg (fun _ => None) (fun _ => None)) as (Hwf & Hdir & Hdef); [done..|]. destruct (Hdef Hwo) as [Hhas _].
  split_and!; [done|done| |done]. intros td ed Htd Hed v Hv. destruct (Hg td ed Htd Hed) as (_ & _ & Hd). by apply (Hd Hwo).
Qed.

(** The place of a type in the order is below the bound. *)
Lemma order_position types ord t : ordered_by types ord -> t ∈ types -> exists i, ord !! i = Some (dt_id t) /\ (i < dep_fuel types)%nat.
Proof.
  intros (Hp & _) Ht. assert (dt_id t ∈ ord) as Hin by (rewrite Hp; apply in_ids; by exists t). apply list_elem_of_lookup_1 in Hin as [i Hi].
  exists i. split; [done|]. apply lookup_lt_Some in Hi. by rewrite Hp, length_map in Hi.
Qed.

(** The order after a type got new fields, one of them declared. *)
Lemma order_new pre me post l f : let types := pre ++ me :: post in enums_ok -> types_ok types ->
  (forall g, g ∈ l -> g = f \/ g ∈ dt_fields me) -> direct_ok (Scope types enums) me (dep_fuel types) f ->
  exists ord, ordered_by (pre ++ with_fields me l :: post) ord.
Proof.
  intros types Hen Hok Hl Hdir. destruct (to_order types Hok) as (ord & Hord). assert (Hme : me ∈ types) by (apply elem_mid; by left).
  destruct (to_types types Hok me Hme) as [Hid Hwo].
  assert (Hids : map dt_id (pre ++ with_fields me l :: post) = map dt_id types) by (unfold types; by rewrite !map_app).
  assert (Hu : forall x y, uses (pre ++ with_fields me l :: post) x y -> uses types x y \/ x = dt_id me /\ y = f_spec f /\ f_spec f < TI_SPEC_ANY).
  { intros x y (t & g & Ht & Hx & Hg & Hy & Hlt). apply elem_mid in Ht as [->|Ht].
    - cbn in Hx, Hg. apply Hl in Hg as [->|Hg]; [right; split_and!; [done|done|lia]|]. left. exists me, g. auto.
    - left. exists t, g. split_and!; try done. apply elem_mid. by right. }
  destruct (Z.lt_ge_cases (f_spec f) TI_SPEC_ANY) as [Hlt|Hge].
  2:{ exists ord. eapply fewer_uses; [done|done|]. intros x y Hxy. apply Hu in Hxy as [?|(_ & _ & ?)]; [done|lia]. }
  destruct (Hdir Hlt) as [(d & Hd & Hdid & Hself & Hchk)|[_ ?]]; [|congruence]. cbn [sc_types] in Hd.
  pose proof Hord as (Hp & Hnd & _).
  destruct (order_position types ord d Hord Hd) as (i & Hi & Hif).
  set (p := fun x => (x =? dt_id d) || match field__dep_check (Scope types enums) (dep_fuel types) d x with Some b => b && (x <? TI_SPEC_ANY) | None => false end).
  assert (Hpx : forall x, p x = true <-> x = dt_id d \/ tc (uses types) (dt_id d) x).
  { intros x. unfold p. rewrite orb_true_iff, Z.eqb_eq. destruct (Z.ltb_spec x TI_SPEC_ANY) as [Hx|Hx].
    - destruct (dep_check_exact enums types ord Hord x Hx (dep_fuel types) i d Hd Hi Hif) as (b & -> & Hb). by rewrite andb_true_r, Hb.
    - destruct (field__dep_check _ _ d x) as [b|]; rewrite ?andb_false_r; (split; [intros [?|?]; [by left|done]|]);
        (intros [?|Htc]; [by left|exfalso]); (assert (x < TI_SPEC_ANY); [|lia]);
        (apply tc_r_inv || idtac); clear -Htc; induction Htc as [? ? (? & ? & _ & _ & _ & _ & ?)|]; done. }
  assert (Hpm : p (dt_id me) = false).
  { destruct (p (dt_id me)) eqn:E; [|done]. exfalso. unfold p in E. rewrite Hchk, orb_false_r in E. apply Z.eqb_eq in E.
    congruence. }
  eapply (reorder types _ ord (dt_id d) (dt_id me) p); [done|done| | |done|done|].
  - rewrite Hp. apply in_ids. by exists d.
  - rewrite Hp. apply in_ids. by exists me.
  - intros x y Hxy. apply Hu in Hxy as [?|(-> & -> & _)]; [by left|by right].
Qed.
Lemma change_ok pre me post l ord : let types := pre ++ me :: post in let types' := pre ++ with_fields me l :: post in
  types_ok types -> ordered_by types' ord ->
  (forall g, g ∈ l -> g ∈ dt_fields me \/ field_wf g /\ has_dval (Scope types enums) g /\ fits g) -> types_ok types'.
Proof.
  intros types types' Hok Hord Hl. assert (Hids : map dt_id types' = map dt_id types) by (unfold types, types'; by rewrite !map_app).
  assert (Hme : me ∈ types) by (apply elem_mid; by left).
  split.
  - intros t Ht. apply elem_mid in Ht as [->|Ht]; [exact (to_types types Hok me Hme)|]. apply (to_types types Hok), elem_mid. by right.
  - replace (map dt_name types') with (map dt_name types) by (unfold types, types'; by rewrite !map_app). apply (to_names types Hok).
  - by exists ord.
  - assert (Hx : forall t f, t ∈ types -> f ∈ dt_fields t -> field_wf f /\ has_dval (Scope types' enums) f /\ fits f).
    { intros t f Ht Hf. destruct (to_fields types Hok t f Ht Hf) as (Hwf & Hh & Hd). split_and!; [done| |done].
      eapply has_dval_types; [|exact Hh]. by rewrite Hids. }
    intros t f Ht Hf. apply elem_mid in Ht as [->|Ht]; [|apply (Hx t); [apply elem_mid; by right|done]].
    cbn in Hf. apply Hl in Hf as [Hf|(Hwf & Hh & Hd)]; [by apply (Hx me)|]. split_and!; [done| |done].
    eapply has_dval_types; [|exact Hh]. by rewrite Hids.
Qed.

Lemma declared_ok pre me post l f mem selfref raw dep : let types := pre ++ me :: post in enums_ok -> types_ok types ->
  init mem (Scope types enums) (dep_fuel types) me selfref raw = Some (inr f, dep) ->
  (forall g, g ∈ l -> g = f \/ g ∈ dt_fields me) -> types_ok (pre ++ with_fields me l :: post).
Proof.
  intros types Hen Hok Hi Hl. assert (Hme : me ∈ types) by (apply elem_mid; by left).
  destruct (init_ok types me mem selfref raw f dep Hen Hok Hme Hi) as (Hwf & Hh & Hd & Hdir).
  destruct (order_new pre me post l f Hen Hok Hl Hdir) as [ord Hord]. eapply change_ok; [done|exact Hord|].
  intros g Hg. apply Hl in Hg as [->|Hg]; [right; done|by left].
Qed.

(** A type that no field needs. *)
Lemma drop_ok pre me post : let types := pre ++ me :: post in types_ok types ->
  (forall t f, t ∈ pre ++ post -> f ∈ dt_fields t -> f_spec f <> dt_id me) -> types_ok (pre ++ post).
Proof.
  intros types Hok Hfree. destruct (to_order types Hok) as [ord Hord].
  assert (Hids : map dt_id types ≡ₚ dt_id me :: map dt_id (pre ++ post)).
  { unfold types. rewrite !map_app. cbn [map]. by rewrite Permutation_middle. }
  assert (Hsub : forall t, t ∈ pre ++ post -> t ∈ types) by (intros t Ht; apply elem_mid; by right).
  assert (Hnd : NoDup (dt_id me :: map dt_id (pre ++ post))) by (rewrite <- Hids; apply Hord).
  assert (Hne : forall t, t ∈ pre ++ post -> dt_id t <> dt_id me).
  { intros t Ht He. apply NoDup_cons_1_1 in Hnd. apply Hnd. apply in_ids. by exists t. }
  split.
  - intros t Ht. by apply (to_types types Hok), Hsub.
  - pose proof (to_names types Hok) as Hn. unfold types in Hn. rewrite map_app in *. cbn [map] in Hn.
    rewrite <- Permutation_middle in Hn. by apply NoDup_cons_1_2 in Hn.
  - eapply drop_unused; [exact Hord|exact Hids|]. intros x y (t & f & Ht & <- & Hf & <- & Hlt). split_and!; [|by apply Hne|by eapply Hfree].
    exists t, f. split_and!; try done. by apply Hsub.
  - intros t f Ht Hf. destruct (to_fields types Hok t f (Hsub t Ht) Hf) as (Hwf & Hh & Hd). split_and!; [done| |done].
    revert Hh. unfold has_dval. destruct (f_dval f) as [[]|]; try done. cbn [sc_types]. intros (u & Hu & He).
    exists u. split; [|done]. apply elem_mid in Hu as [->|Hu]; [|done]. exfalso. by eapply Hfree.
Qed.

Lemma new_ok types t : types_ok types -> dt_fields t = [] -> dt_wrap_only t = false -> 0 <= dt_id t < TI_SPEC_ANY ->
  dt_id t ∉ map dt_id types -> dt_name t ∉ map dt_name types -> types_ok (types ++ [t]).
Proof.
  intros Hok Hf Hw Hid Hni Hnn. destruct (to_order types Hok) as (ord & Hp & Hnd & He).
  assert (Hone : forall (l : list Z) x, NoDup l -> x ∉ l -> NoDup (l ++ [x])).
  { intros l x Hl Hx. apply list.NoDup_app. split_and!; [done| |apply NoDup_singleton]. intros y Hy ->%list_elem_of_singleton. done. }
  split.
  - intros u Hu. apply elem_of_app in Hu as [Hu| ->%list_elem_of_singleton]; [by apply (to_types types Hok)|done].
  - rewrite map_app. cbn [map]. apply list.NoDup_app. split_and!; [apply (to_names types Hok)| |apply NoDup_singleton].
    intros y Hy ->%list_elem_of_singleton. done.
  - exists (ord ++ [dt_id t]). split_and!; [by rewrite map_app, Hp|rewrite map_app; by apply Hone|].
    intros x y (u & f & Hu & <- & Hfu & <- & Hlt). apply before_app_l, He.
    apply elem_of_app in Hu as [Hu| ->%list_elem_of_singleton]; [by exists u, f|]. rewrite Hf in Hfu. by apply elem_of_nil in Hfu.
  - intros u f Hu Hfu. apply elem_of_app in Hu as [Hu| ->%list_elem_of_singleton]; [|rewrite Hf in Hfu; by apply elem_of_nil in Hfu].
    destruct (to_fields types Hok u f Hu Hfu) as (Hwf & Hh & Hd). split_and!; [done| |done]. eapply has_dval_types; [|exact Hh].
    intros x Hx. rewrite map_app. apply elem_of_app. by left.
Qed.

Lemma lock_ok pre me post lock : types_ok (pre ++ me :: post) ->
  types_ok (pre ++ DepType (dt_id me) (dt_name me) (dt_wrap_only me) lock (dt_fields me) :: post).
Proof.
  intros Hok. set (types := pre ++ me :: post) in *. set (me' := DepType _ _ _ _ _).
  assert (Hids : map dt_id (pre ++ me' :: post) = map dt_id types) by (unfold types; by rewrite !map_app).
  assert (Hback : forall t, t ∈ pre ++ me' :: post -> exists u, u ∈ types /\ dt_id u = dt_id t /\ dt_wrap_only u = dt_wrap_only t /\ dt_fields u = dt_fields t).
  { intros t Ht. apply elem_mid in Ht as [->|Ht]; [exists me|exists t]; (split; [apply elem_mid; auto|done]). }
  split.
  - intros t Ht. destruct (Hback t Ht) as (u & Hu & <- & <- & _). by apply (to_types types Hok).
  - replace (map dt_name (pre ++ me' :: post)) with (map dt_name types) by (unfold types; by rewrite !map_app). apply (to_names types Hok).
  - destruct (to_order types Hok) as [ord Hord]. exists ord. eapply fewer_uses; [exact Hord|done|].
    intros x y (t & f & Ht & <- & Hf & <- & Hlt). destruct (Hback t Ht) as (u & Hu & He & _ & Hfu). exists u, f. by rewrite Hfu.
  - intros t f Ht Hf. destruct (Hback t Ht) as (u & Hu & _ & _ & Hfu). rewrite <- Hfu in Hf.
    destruct (to_fields types Hok u f Hu Hf) as (Hwf & Hh & Hd). split_and!; [done| |done]. eapply has_dval_types; [|exact Hh]. by rewrite Hids.
Qed.

Lemma step_ok types types' : enums_ok -> type_step types types' -> types_ok types -> types_ok types'.
Proof.
  intros Hen Hs Hok. destruct Hs as [types t Hf Hw Hid Hni Hnn|pre me post lock|pre me post mem selfref raw f dep Hi
    |pre me post l1 g l2 mem selfref raw f dep Hfs Hi|pre me post l1 g l2 l Hfs Hp|pre me post Hfree].
  - by apply new_ok.
  - by apply lock_ok.
  - eapply declared_ok; [done|done|exact Hi|]. intros h Hh. apply elem_of_app in Hh as [Hh| ->%list_elem_of_singleton]; auto.
  - eapply declared_ok; [done|done|exact Hi|]. intros h Hh. rewrite Hfs. apply elem_mid in Hh as [->|Hh]; [by left|]. right. apply elem_mid. by right.
  - assert (Hl : forall h, h ∈ l -> h ∈ dt_fields me) by (intros h Hh; rewrite Hp in Hh; rewrite Hfs; apply elem_mid; by right).
    destruct (to_order _ Hok) as [ord Hord]. eapply (change_ok _ _ _ l ord); [done| |intros h Hh; left; by apply Hl].
    eapply fewer_uses; [exact Hord|by rewrite !map_app|]. intros x y (t & f & Ht & <- & Hf & <- & Hlt).
    apply elem_mid in Ht as [->|Ht]; [exists me, f|exists t, f]; (split; [apply elem_mid; auto|]); [|done].
    split_and!; [done|by apply Hl|done|done].
  - by eapply drop_ok.
Qed.

Lemma steps_ok types : enums_ok -> rtc type_step [] types -> types_ok types.
Proof.
  intros Hen H. assert (Hnil : types_ok []).
  { split; [intros t Ht; by apply elem_of_nil in Ht|apply NoDup_nil_2| |intros t f Ht; by apply elem_of_nil in Ht].
    exists []. split; [done|]. split; [apply NoDup_nil_2|]. intros x y (t & f & Ht & _). by apply elem_of_nil in Ht. }
  revert Hnil. induction H as [|types t1 t2 Hs _ IH]; [done|]. intros Hok. apply IH. by eapply step_ok.
Qed.

(** ** The defaults *)

Lemma enum_dval_made types e : enums_ok -> e ∈ enums -> exists v, ti_enum_dval (Scope types enums) (de_id e) = Some v.
Proof.
  intros Hen He. unfold ti_enum_dval. cbn [sc_enums]. destruct (List.find _ enums) as [e'|] eqn:E.
  - apply find_some in E as [Hin _]. apply list_elem_of_In, Hen in Hin as [_ Hne].
    cbn [mbind option_bind]. destruct (de_members e') as [|[n v] l]; [done|]. cbn. eauto.
  - exfalso. apply list_elem_of_In in He. pose proof (find_none _ _ E e He) as H. cbn in H. by rewrite Z.eqb_refl in H.
Qed.

Lemma type_dval_thing sc fuel id v : ti_type_dval sc fuel id = Some v -> exists via dict items, v = VThing id via dict items.
Proof.
  destruct fuel as [|fuel]; [done|]. cbn [ti_type_dval]. destruct (ti_types_by_id sc id) as [t|]; [|done]. cbn [mbind option_bind].
  destruct (dt_wrap_only t); [done|]. destruct (mapM _ _); [|done]. intros [= <-]. eauto.
Qed.

Lemma enum_dval_member sc id v : ti_enum_dval sc id = Some v -> exists name w, v = VMember id name w.
Proof.
  unfold ti_enum_dval. destruct (List.find _ _) as [e|]; [|done]. cbn [mbind option_bind].
  destruct (list.head (de_members e)) as [[n w]|]; [|done]. intros [= <-]. eauto.
Qed.

Lemma type_dval_made types ord : enums_ok -> types_ok types -> ordered_by types ord -> forall fuel i t, t ∈ types ->
  ord !! i = Some (dt_id t) -> (i < fuel)%nat -> exists items, ti_type_dval (Scope types enums) fuel (dt_id t) = Some (VThing (dt_id t) 0 false items) /\
    Forall2 (fun f v => field_ok f v = true \/ odd_default f) (dt_fields t) items.
Proof.
  intros Hen Hok Hord. induction fuel as [|fuel IH]; intros i t Ht Hi Hlt; [lia|]. cbn [ti_type_dval].
  rewrite types_by_id_in by (done || apply Hord). cbn [mbind option_bind]. destruct (to_types types Hok t Ht) as [_ ->].
  assert (Hmake : forall f, f ∈ dt_fields t -> exists v, field_dval (ti_type_dval (Scope types enums) fuel) (ti_enum_dval (Scope types enums)) f = Some v).
  { intros f Hf. destruct (to_fields types Hok t f Ht Hf) as (_ & Hh & _). unfold has_dval in Hh. unfold field_dval.
    destruct (f_dval f) as [cb|]; [|done]. destruct cb; try (by eexists); cbn [mbind option_bind] in *; try exact Hh; [|destruct Hh as (e & He & <-); by apply enum_dval_made].
    destruct Hh as (u & Hu & He). cbn [sc_types] in Hu. destruct (uses_ord types ord Hord (dt_id t) (dt_id u)) with i as (j & Hj & Hoj); [|done|].
    - exists t, f. split_and!; try done. by apply (to_types types Hok).
    - rewrite <- He. destruct (IH j u Hu Hoj ltac:(lia)) as (items & Hitems & _). by exists (VThing (dt_id u) 0 false items). }
  assert (Hfit : forall f v, f ∈ dt_fields t -> field_dval (ti_type_dval (Scope types enums) fuel) (ti_enum_dval (Scope types enums)) f = Some v ->
    field_ok f v = true \/ odd_default f).
  { intros f v Hf Hv. destruct (to_fields types Hok t f Ht Hf) as (_ & _ & Hd). eapply Hd; [| |exact Hv]; [apply type_dval_thing|apply enum_dval_member]. }
  assert (Hall : forall l, (forall f, f ∈ l -> f ∈ dt_fields t) -> exists items,
    mapM (field_dval (ti_type_dval (Scope types enums) fuel) (ti_enum_dval (Scope types enums))) l = Some items /\
    Forall2 (fun f v => field_ok f v = true \/ odd_default f) l items).
  { induction l as [|f l IHl]; intros Hl; [by exists []|]. destruct IHl as (items & Hm & H2); [intros g Hg; apply Hl; by right|].
    destruct (Hmake f) as [v Hv]; [apply Hl; by left|]. exists (v :: items). cbn [mapM]. rewrite Hv. cbn [mbind option_bind]. rewrite Hm.
    split; [done|]. constructor; [|done]. apply Hfit; [apply Hl; by left|done]. }
  destruct (Hall (dt_fields t)) as (items & -> & H2); [done|]. by exists items.
Qed.
End Types.

(** ** Properties *)

(** C17. A declaration that is accepted for a type of a collection gives a field that is
    well formed; the dependency that is counted is the one that is taken back when the
    field is removed; and the default value is one the field accepts, but for a string of
    2^32 bytes or more and a default of [utf8] that is not UTF-8. *)
Theorem declared_field_wf pcre_match re_email re_url re_tel regex_from_strn strtod enums types me mem selfref raw f dep :
  enums_ok enums -> rtc (type_step pcre_match re_email re_url re_tel regex_from_strn strtod enums) [] types -> me ∈ types ->
  field__init pcre_match re_email re_url re_tel regex_from_strn strtod mem (Scope types enums) (dep_fuel types) me selfref raw
    = Some (inr f, dep) ->
  field_wf f /\ dep = field__dep me f /\
  forall fuel v, field_dval (ti_type_dval (Scope types enums) fuel) (ti_enum_dval (Scope types enums)) f = Some v ->
    field_ok pcre_match re_email re_url re_tel f v = true \/ odd_default f.
Proof.
  intros Hen Hs Hme Hi. pose proof (steps_ok _ _ _ _ _ _ _ _ Hen Hs) as Hok. pose proof Hi as Hi2.
  eapply init_ok in Hi as (Hwf & _ & Hd & _); [|done..]. split; [done|]. split.
  - destruct (to_order _ _ _ _ _ _ Hok) as (ord & _ & Hnd & _).
    eapply (field_init_declared pcre_match re_email re_url re_tel (fun _ => None) (fun _ => None)) in Hi2 as [_ Hdep]; [exact Hdep|done|done| |].
    + split; [|intros e He; by apply Hen]. intros t Ht. apply elem_of_cons in Ht as [->|Ht]; by apply (to_types _ _ _ _ _ _ Hok).
    + intros t Ht He. f_equal. by eapply ids_unique.
  - intros fuel v Hv. eapply Hd; [| |exact Hv]; [apply type_dval_thing|apply enum_dval_member].
Qed.


(** ** Examples *)

Definition ex_match (p s : list Z) : bool := false.
Definition ex_regex (s : list Z) : option (list Z) := None.
Definition ex_strtod (s : list Z) : option (double * list Z * bool) := None.
Definition ex_enums : list dep_enum := [DepEnum 3 (str "Color") false [(str "RED", VInt 1)]].
Definition ex_decl (types : list dep_type) (me : dep_type) (raw : list Z) : decl_result :=
  field__init ex_match [] [] [] ex_regex ex_strtod true (Scope types ex_enums) (dep_fuel types) me 0 raw.
Definition ex_steps : list dep_type -> list dep_type -> Prop := rtc (type_step ex_match [] [] [] ex_regex ex_strtod ex_enums).

Definition exA : dep_type := DepType 0 (str "A") false false [].
Definition exB : dep_type := DepType 1 (str "B") false false [].
Definition exA' : dep_type := with_fields exA [Field TI_SPEC_STR_RANGE TI_SPEC_ANY 8 (Some condition_dval) (CSrange (VStr [45]) 1 5)].
Definition exB' : dep_type := with_fields exB [Field 0 TI_SPEC_ANY 8 (Some dval_type) CNone].

(** [A] has a field [str<1:5>] and [B] has a field [A]. *)
Lemma ex_reached : ex_steps [] [exA'; exB'].
Proof.
  eapply rtc_l; [apply (step_new _ _ _ _ _ _ _ [] exA); [done|done|vm_compute; split; [discriminate|reflexivity]|apply not_elem_of_nil..]|].
  eapply rtc_l; [apply (step_new _ _ _ _ _ _ _ [exA] exB); [done|done|vm_compute; split; [discriminate|reflexivity]|..];
    vm_compute; intros H; apply list_elem_of_singleton in H; discriminate H|].
  eapply rtc_l; [eapply (step_add _ _ _ _ _ _ _ [] exA [exB] true 0 (str "str<1:5>") _ NoDep); vm_compute; reflexivity|].
  eapply rtc_l; [eapply (step_add _ _ _ _ _ _ _ [exA'] exB [] true 0 (str "A") _ (OnType 0)); vm_compute; reflexivity|]. apply rtc_refl.
Qed.

Lemma ex_enums_ok : enums_ok ex_enums.
Proof. intros e He. apply list_elem_of_singleton in He as ->. vm_compute. split; [split|]; discriminate. Qed.

Lemma declared_field_wf_witness :
  let f := Field (TI_ENUM_ID_FLAG + 3) TI_SPEC_ANY 8 (Some condition_dval) (CDval (VMember 3 (str "RED") (VInt 1))) in
  ex_decl [exA'; exB'] exB' (str "Color{RED}") = Some (inr f, OnEnum 3) /\ field_wf f /\ OnEnum 3 = field__dep exB' f /\
  (field_ok ex_match [] [] [] f (VMember 3 (str "RED") (VInt 1)) = true \/ odd_default f).
Proof.
  cbv zeta. assert (E : ex_decl [exA'; exB'] exB' (str "Color{RED}") =
    Some (inr (Field (TI_ENUM_ID_FLAG + 3) TI_SPEC_ANY 8 (Some condition_dval) (CDval (VMember 3 (str "RED") (VInt 1)))), OnEnum 3)) by (vm_compute; reflexivity).
  destruct (declared_field_wf ex_match [] [] [] ex_regex ex_strtod ex_enums [exA'; exB'] exB' true 0 (str "Color{RED}") _ _
    ex_enums_ok ex_reached (list_elem_of_further _ _ _ (list_elem_of_here _ _)) E) as (Hwf & Hdep & Hok).
  split; [exact E|]. split; [exact Hwf|]. split; [exact Hdep|]. apply (Hok 2%nat). reflexivity.
Defined.


(** Declarations for which the code reads a pointer that was never written ([float<i>],
    a NUL in a range) or overflows a signed integer. *)
Example undefined_declarations :
  ex_decl [exA] exA (str "float<i>") = None /\ ex_decl [exA] exA (str "int<0" ++ [0] ++ str ">") = None /\
  ex_decl [exA] exA (str "int<--9223372036854775808:>") = None.
Proof. vm_compute. done. Qed.

(** A set of nillable things is refused, after a dependency on its type is counted. *)
Example refused_keeps_dependency : ex_decl [exA; exB] exB (str "{A?}") = Some (inl D_set_nillable, OnType 0).
Proof. vm_compute. done. Qed.

(** The flag that skips nil is refused for a field that cannot be nil, but for an array
    without a type and for a condition. *)
Example skip_nil_unchecked : ex_decl [exA] exA (str "?[int]") = Some (inl D_skip_nil, NoDep) /\
  (exists f, ex_decl [exA] exA (str "?[]") = Some (inr f, NoDep) /\ has_flag f TI_FIELD_FLAG_SKIP_NIL = true /\ nillable (f_spec f) = false) /\
  exists f, ex_decl [exA] exA (str "?int<1:2>") = Some (inr f, NoDep) /\ has_flag f TI_FIELD_FLAG_SKIP_NIL = true /\ nillable (f_spec f) = false.
Proof. split; [vm_compute; done|]. split; eexists; (split; [vm_compute; reflexivity|done]). Qed.

(** Both odd defaults exist: the field does not accept its own default. *)
Example default_refused :
  (exists f d, ex_decl [exA] exA (str "utf8<0:5:" ++ [255] ++ str ">") = Some (inr f, NoDep) /\ cond_dval (f_cond f) = Some d /\
     field_ok ex_match [] [] [] f d = false) /\
  exists f d, ex_decl [exA] exA (str "str<4294967297:>") = Some (inr f, NoDep) /\ cond_dval (f_cond f) = Some d /\
     field_ok ex_match [] [] [] f d = false.
Proof. split; do 2 eexists; (split; [vm_compute; reflexivity|]); (split; [vm_compute; reflexivity|vm_compute; reflexivity]). Qed.

(** A type that only wraps things may have a field of its own type; a search that comes
    across it does not end. *)
Example wrap_only_search : let w := DepType 5 (str "W") true false [] in
  exists f, ex_decl [w] w (str "W") = Some (inr f, OnSelf) /\ let w' := with_fields w [f] in
  forall fuel, field__dep_check (Scope [w'; exA] []) fuel w' (dt_id exA) = None.
Proof.
  cbv zeta. eexists. split; [vm_compute; reflexivity|]. set (w' := with_fields _ _). induction fuel as [|fuel IH]; [done|].
  transitivity (r ← field__dep_check (Scope [w'; exA] []) fuel w' (dt_id exA); if r : bool then Some true else Some false);
    [reflexivity|by rewrite IH].
Qed.
