(* ===== verification/Cryptx.v ===== *)
(** * util/cryptx: the encryption of passwords

    [src/src/util/cryptx.c]. A C string is the list of its bytes before the
    terminator, which are not 0; a buffer is a list of cells. Reading or writing
    outside a buffer is undefined ([None]). *)
From Stdlib Require Import ZArith Lia Ascii String.
From stdpp Require Import base list option numbers.
From S2P Require Import Prelude Utf8 Opr Strx Spec Keywords.

Definition CRYPTX_SZ : nat := 64.
Definition CRYPTX_SALT_SZ : nat := 10.
Definition END : nat := 63.

Definition VCHARS : list Z := str "./0123456789abcdefghijklmnopqrstuvwxyzABCDEFGHIJKLMNOPQRSTUVWXYZ".

Definition P : list Z := [
  281; 283; 293; 307; 311; 313; 317; 331; 337; 347; 349; 353; 359; 367;
  373; 379; 383; 389; 397; 401; 409; 419; 421; 431; 433; 439; 443; 449;
  457; 461; 463; 467; 479; 487; 491; 499; 503; 509; 521; 523; 541; 547;
  557; 563; 569; 571; 577; 587; 593; 599; 601; 607; 613; 617; 619; 631;
  641; 643; 647; 653; 659; 661; 673; 677; 683; 691; 701; 709; 719; 727;
  733; 739; 743; 751; 757; 761; 769; 773; 787; 797; 809; 811; 821; 823;
  827; 829; 839; 853; 857; 859; 863; 877; 881; 883; 887; 907; 911; 919;
  929; 937; 941; 947; 953; 967; 971; 977; 983; 991; 997].

(** [CRYPTSET(x)] *)
Definition cryptset (k : Z) (x : nat) (encrypted : list Z) : option (list Z) :=
  e ← encrypted !! x;
  v ← VCHARS !! Z.to_nat (u64 (e + k) mod 64);
  Some (<[x := v]> encrypted).

(** The inner loop over the salt; [b] is [*p + *w + i]. *)
Fixpoint salt_sum (salt : list Z) (n : nat) (b k : Z) : option Z :=
  match n with
  | O => Some k
  | S n =>
    s ← list.head salt;
    q ← P !! Z.to_nat (u64 (u32 (s + b) + k) mod 109);
    salt_sum (tail salt) n b (u64 (k + q))
  end.

(** The loop over the password. *)
Fixpoint pass_sum (p salt : list Z) (b k : Z) : option Z :=
  match p with
  | [] => Some k
  | c :: p => k ← salt_sum salt CRYPTX_SALT_SZ (c + b) k; pass_sum p salt b k
  end.

(** [for (; j < END; j += c)]; [c] is at least one. *)
Fixpoint cryptset_loop (fuel : nat) (j c : nat) (k : Z) (encrypted : list Z) : option (list Z) :=
  match fuel with
  | O => None
  | S fuel =>
    if (j <? END)%nat then encrypted ← cryptset k j encrypted; cryptset_loop fuel (j + c) c k encrypted
    else Some encrypted
  end.

(** The outer loop: [n] turns from [i] on, [w] is the rest of the password with its
    terminator. *)
Fixpoint crypt_loop (password salt : list Z) (n i : nat) (w encrypted : list Z) : option (list Z) :=
  match n with
  | O => Some encrypted
  | S n =>
    c ← list.head w;
    let w := if c =? 0 then cstr password else w in
    c ← list.head w;
    k ← pass_sum password salt (c + Z.of_nat i) 0;
    encrypted ← cryptset k i encrypted;
    encrypted ← cryptset_loop CRYPTX_SZ (Z.to_nat (k mod 3) + CRYPTX_SALT_SZ) (Z.to_nat (k mod 5) + 1) k encrypted;
    crypt_loop password salt n (S i) (tail w) encrypted
  end.

Definition cryptx (password salt : list Z) : option (list Z) :=
  if (length salt <? CRYPTX_SALT_SZ)%nat then None
  else
    let encrypted := take CRYPTX_SALT_SZ salt ++ replicate (CRYPTX_SZ - CRYPTX_SALT_SZ) 0 in
    crypt_loop password salt (END - CRYPTX_SALT_SZ) CRYPTX_SALT_SZ (cstr password) encrypted.

(** [rands] are the results of [rand]. *)
Definition cryptx_gen_salt (rands : list Z) : option (list Z) :=
  l ← mapM (fun r => VCHARS !! Z.to_nat (r mod 64)) (take (CRYPTX_SALT_SZ - 2) rands);
  if (length l =? CRYPTX_SALT_SZ - 2)%nat then Some (l ++ str "$1") else None.

(** ** Proofs *)

(** A buffer during the loop: the salt, then characters of the table or zero. *)
Definition shape (salt : list Z) (done : nat) (e : list Z) : Prop :=
  length e = CRYPTX_SZ /\ take CRYPTX_SALT_SZ e = take CRYPTX_SALT_SZ salt /\ e !! END = Some 0 /\
  forall x, (CRYPTX_SALT_SZ <= x < done)%nat -> exists v, e !! x = Some v /\ v ∈ VCHARS.

Lemma vchars_len : length VCHARS = 64%nat.
Proof. reflexivity. Qed.

Lemma table_lookup {A} (l : list A) (m : Z) n : Z.of_nat (length l) = m -> 0 < m -> is_Some (l !! Z.to_nat (n mod m)).
Proof. intros <- Hm. apply lookup_lt_is_Some_2. pose proof (Z.mod_pos_bound n (Z.of_nat (length l))). lia. Qed.

Lemma cryptset_shape salt d k x e : shape salt d e -> (CRYPTX_SALT_SZ <= x < END)%nat ->
  exists e', cryptset k x e = Some e' /\ shape salt (if (x =? d)%nat then S d else d) e'.
Proof.
  intros (Hl & Ht & H0 & Hv) Hx. unfold cryptset.
  destruct (lookup_lt_is_Some_2 e x) as [c Hc]; [rewrite Hl; unfold CRYPTX_SZ, CRYPTX_SALT_SZ, END in *; lia|]. rewrite Hc. cbn [mbind option_bind].
  destruct (table_lookup VCHARS 64 (u64 (c + k)) eq_refl ltac:(lia)) as [v Hv2]. rewrite Hv2. cbn [mbind option_bind].
  eexists. split; [reflexivity|]. split_and!; [by rewrite length_insert|rewrite take_insert_ge; [done|lia]|rewrite list_lookup_insert_ne; [done|lia]|].
  intros y Hy. destruct (decide (y = x)) as [->|Hne].
  - exists v. split; [apply list_lookup_insert_eq; rewrite Hl; unfold CRYPTX_SZ, CRYPTX_SALT_SZ, END in *; lia|]. by eapply list_elem_of_lookup_2.
  - rewrite list_lookup_insert_ne by done. apply Hv. destruct (Nat.eqb_spec x d); lia.
Qed.

Lemma shape_le salt d d' e : (d' <= d)%nat -> shape salt d e -> shape salt d' e.
Proof. intros Hd (Hl & Ht & H0 & Hv). split_and!; [done..|]. intros x Hx. apply Hv. lia. Qed.

Lemma cryptset_loop_shape salt d k c : (0 < c)%nat -> forall fuel j e, shape salt d e -> (CRYPTX_SALT_SZ <= j)%nat -> (END < j + fuel)%nat ->
  (0 < fuel)%nat -> exists e', cryptset_loop fuel j c k e = Some e' /\ shape salt d e'.
Proof.
  intros Hc. induction fuel as [|fuel IH]; intros j e He Hj Hf H0; [lia|]. cbn [cryptset_loop].
  destruct (Nat.ltb_spec j END) as [Hlt|Hge]; [|by exists e].
  destruct (cryptset_shape salt d k j e He) as (e1 & -> & H1); [lia|]. cbn [mbind option_bind].
  assert (H2 : shape salt d e1) by (eapply shape_le; [|exact H1]; destruct (j =? d)%nat; lia).
  apply IH; [done|lia|lia|lia].
Qed.

Lemma salt_sum_some : forall n salt b k, (n <= length salt)%nat -> exists k', salt_sum salt n b k = Some k'.
Proof.
  induction n as [|n IH]; intros salt b k Hn; [by exists k|]. destruct salt as [|s salt]; [cbn in Hn; lia|]. cbn [salt_sum list.head tail mbind option_bind].
  destruct (table_lookup P 109 (u64 (u32 (s + b) + k)) eq_refl ltac:(lia)) as [q Hq]. rewrite Hq. cbn [mbind option_bind].
  apply IH. cbn in Hn. lia.
Qed.

Lemma salt_sum_take : forall n salt salt' b k, take n salt = take n salt' -> salt_sum salt n b k = salt_sum salt' n b k.
Proof.
  induction n as [|n IH]; intros salt salt' b k Ht; [done|].
  destruct salt as [|s salt], salt' as [|s' salt']; cbn [take] in Ht; [done|discriminate Ht|discriminate Ht|].
  injection Ht as -> Ht. cbn [salt_sum list.head tail mbind option_bind]. destruct (P !! _) as [q|]; [|done]. cbn [mbind option_bind]. by apply IH.
Qed.

Lemma pass_sum_some p salt b : (CRYPTX_SALT_SZ <= length salt)%nat -> forall k, exists k', pass_sum p salt b k = Some k'.
Proof.
  intros Hs. induction p as [|c p IH]; intros k; [by exists k|]. cbn [pass_sum].
  destruct (salt_sum_some CRYPTX_SALT_SZ salt (c + b) k Hs) as [k1 ->]. apply IH.
Qed.

Lemma pass_sum_take p salt salt' b : take CRYPTX_SALT_SZ salt = take CRYPTX_SALT_SZ salt' -> forall k, pass_sum p salt b k = pass_sum p salt' b k.
Proof.
  intros Ht. induction p as [|c p IH]; intros k; [done|]. cbn [pass_sum]. rewrite (salt_sum_take _ salt salt') by done.
  destruct (salt_sum salt' CRYPTX_SALT_SZ (c + b) k) as [k'|]; [|done]. apply IH.
Qed.

Lemma crypt_loop_take password salt salt' : take CRYPTX_SALT_SZ salt = take CRYPTX_SALT_SZ salt' ->
  forall n i w e, crypt_loop password salt n i w e = crypt_loop password salt' n i w e.
Proof.
  intros Ht. induction n as [|n IH]; intros i w e; [done|]. cbn [crypt_loop]. destruct w as [|c w]; [done|]. cbn [list.head mbind option_bind].
  destruct (list.head (if c =? 0 then cstr password else c :: w)) as [c'|]; [|done]. cbn [mbind option_bind]. rewrite (pass_sum_take _ salt salt') by done.
  destruct (pass_sum _ _ _ _) as [k|]; [|done]. cbn [mbind option_bind]. destruct (cryptset _ _ _); [|done]. cbn [mbind option_bind].
  destruct (cryptset_loop _ _ _ _ _); [|done]. apply IH.
Qed.

(** [w] points into the password: some characters and its terminator. *)
Definition into (password w : list Z) : Prop := exists l, cstr password = l ++ w /\ w <> [].

Lemma into_tail password w c : into password (c :: w) -> c <> 0 -> into password w.
Proof.
  intros (l & Hl & _) Hc. exists (l ++ [c]). rewrite <- app_assoc. split; [done|]. intros ->.
  unfold cstr in Hl. apply app_inj_tail in Hl as [_ H]. by rewrite <- H in Hc.
Qed.

Lemma crypt_loop_shape password salt : password <> [] -> Forall (fun c => c <> 0) password -> (CRYPTX_SALT_SZ <= length salt)%nat ->
  forall n i w e, shape salt i e -> into password w -> (i + n = END)%nat -> (CRYPTX_SALT_SZ <= i)%nat ->
  exists e', crypt_loop password salt n i w e = Some e' /\ shape salt END e'.
Proof.
  intros Hne Hp Hs. assert (Hfull : exists c w, cstr password = c :: w /\ c <> 0).
  { destruct password as [|c p]; [done|]. exists c, (cstr p). split; [done|]. by apply List.Forall_inv in Hp. }
  induction n as [|n IH]; intros i w e He Hw Hi Hge; [exists e; split; [done|]; by replace END with i by lia|].
  destruct w as [|c w]; [by destruct Hw as (l & _ & ?)|]. cbn [crypt_loop list.head mbind option_bind].
  assert (Hin : exists c' w', (if c =? 0 then cstr password else c :: w) = c' :: w' /\ into password w').
  { destruct (Z.eqb_spec c 0) as [->|Hc]; [|exists c, w; split; [done|]; by eapply into_tail].
    destruct Hfull as (c1 & w1 & Hf & Hc1). exists c1, w1. split; [done|]. apply (into_tail _ _ c1); [|done].
    exists []. by rewrite Hf. }
  destruct Hin as (c' & w' & -> & Hw'). cbn [list.head mbind option_bind tail].
  destruct (pass_sum_some password salt (c' + Z.of_nat i) Hs 0) as [k ->]. cbn [mbind option_bind].
  destruct (cryptset_shape salt i k i e He) as (e1 & -> & H1); [lia|]. cbn [mbind option_bind]. rewrite Nat.eqb_refl in H1.
  destruct (cryptset_loop_shape salt (S i) k (Z.to_nat (k mod 5) + 1) ltac:(lia) CRYPTX_SZ (Z.to_nat (k mod 3) + CRYPTX_SALT_SZ) e1) as (e2 & -> & H2);
    [done|lia|unfold CRYPTX_SZ, CRYPTX_SALT_SZ, END in *; lia..|]. cbn [mbind option_bind]. apply IH; [done|done|lia|lia].
Qed.

(** The result is the salt and 53 characters of the table, with a terminator. *)
Lemma cryptx_shape password salt : password <> [] -> Forall (fun c => c <> 0) password -> (CRYPTX_SALT_SZ <= length salt)%nat ->
  exists e, cryptx password salt = Some e /\ shape salt END e.
Proof.
  intros Hne Hp Hs. unfold cryptx. rewrite (proj2 (Nat.ltb_ge _ _)) by done.
  apply crypt_loop_shape; [done|done|done| |exists []; by destruct password|done|done].
  assert (Hl : length (take CRYPTX_SALT_SZ salt) = CRYPTX_SALT_SZ) by (apply length_take_le; done).
  split_and!.
  - by rewrite length_app, Hl, length_replicate.
  - by rewrite take_app_length' by done.
  - rewrite lookup_app_r by (rewrite Hl; cbv; lia). rewrite Hl. reflexivity.
  - intros x Hx. lia.
Qed.

Lemma cryptx_take password salt salt' : take CRYPTX_SALT_SZ salt = take CRYPTX_SALT_SZ salt' ->
  (length salt <? CRYPTX_SALT_SZ)%nat = (length salt' <? CRYPTX_SALT_SZ)%nat -> cryptx password salt = cryptx password salt'.
Proof. intros Ht Hl. unfold cryptx. rewrite Hl, Ht. cbv zeta. destruct (length salt' <? CRYPTX_SALT_SZ)%nat; [reflexivity|]. exact (crypt_loop_take password salt salt' Ht _ _ _ _). Qed.
