(* ===== verification/Users.v ===== *)
(** * ti/user, ti/users, ti/access, ti/auth, ti/token, ti/whitelist: users and their privileges

    [src/src/ti/user.c], [users.c], [access.c], [auth.c], [token.c], [whitelist.c], with
    [ti_tasks_del_user] of [tasks.c], [ti_vtask_del] of [vtask.c], storing access of
    [store/storeaccess.c] and the functions of the language that change users
    ([src/inc/ti/fn/fngrant.h] and others).

    Users are shared by reference: a pointer is a number, [heap] maps the pointers that
    are allocated to users with their count of references. The vector of users, the
    entries of access lists, tasks and others ([held]: streams, queries) hold pointers.
    [None] is undefined behaviour, such as reading a user that was freed. *)
From Stdlib Require Import ZArith Lia Ascii String.
From stdpp Require Import base list option numbers gmap.
From S2P Require Import Prelude Utf8 Opr Strx Spec Keywords Req Cryptx.

Definition ptr := Z.

Record ti_token_t := Token { tk_key : list Z; tk_expire_ts : Z; tk_created_at : Z; tk_description : list Z }.

(** The values in a whitelist: names, which are compared by pointer, and patterns. *)
Inductive wl_val := WName (s : list Z) | WRegex (pattern : list Z).

Record ti_user_t := User {
  u_ref : Z;
  u_id : Z;
  u_created_at : Z;
  u_name : list Z;
  u_encpass : option (list Z);
  u_tokens : list ti_token_t;
  u_whitelists : option (list wl_val) * option (list wl_val)      (* rooms, procedures *)
}.

Record ti_auth_t := Auth { au_user : ptr; au_mask : Z }.
Record ti_vtask_t := Vtask { vt_id : Z; vt_user : ptr }.
Record ti_collection_t := Collection { co_id : Z; co_access : list ti_auth_t; co_vtasks : list ti_vtask_t }.

Record db := Db {
  heap : gmap ptr ti_user_t;
  users : list ptr;
  access_node : list ti_auth_t;
  access_thingsdb : list ti_auth_t;
  vtasks : list ti_vtask_t;
  collections : list ti_collection_t;
  next_free_id : Z;
  held : list ptr
}.

Definition with_heap (d : db) (h : gmap ptr ti_user_t) : db :=
  Db h (users d) (access_node d) (access_thingsdb d) (vtasks d) (collections d) (next_free_id d) (held d).
Definition with_users (d : db) (l : list ptr) : db :=
  Db (heap d) l (access_node d) (access_thingsdb d) (vtasks d) (collections d) (next_free_id d) (held d).
Definition with_next (d : db) (n : Z) : db :=
  Db (heap d) (users d) (access_node d) (access_thingsdb d) (vtasks d) (collections d) n (held d).

(** ** Privileges *)

Definition TI_AUTH_QUERY : Z := 1.
Definition TI_AUTH_CHANGE : Z := 2.
Definition TI_AUTH_GRANT : Z := 4.
Definition TI_AUTH_JOIN : Z := 8.
Definition TI_AUTH_RUN : Z := 16.
Definition TI_AUTH_MASK_USER : Z := 27.
Definition TI_AUTH_MASK_FULL : Z := 31.

Definition ti__auth_map : list (list Z * Z) :=
  [(str "FULL", TI_AUTH_MASK_FULL); (str "USER", TI_AUTH_MASK_USER); (str "QUERY", TI_AUTH_QUERY); (str "CHANGE", TI_AUTH_CHANGE);
   (str "GRANT", TI_AUTH_GRANT); (str "JOIN", TI_AUTH_JOIN); (str "RUN", TI_AUTH_RUN)].

(** The names that are printed; [mask -= repr->mask] in 16 bits. *)
Fixpoint mask_names (map : list (list Z * Z)) (mask : Z) : list (list Z) :=
  match map with
  | [] => []
  | (name, m) :: map =>
    if mask =? 0 then []
    else if Z.land mask m =? m then name :: mask_names map (u16 (mask - m)) else mask_names map mask
  end.

Fixpoint join_names (names : list (list Z)) : list Z :=
  match names with
  | [] => []
  | [n] => n
  | n :: names => n ++ [124] ++ join_names names
  end.

Definition ti_auth_mask_to_str (mask : Z) : list Z :=
  match mask_names ti__auth_map mask with [] => str "NO_ACCESS" | names => join_names names end.

(** ** References *)

Definition ti_grab (h : gmap ptr ti_user_t) (p : ptr) : option (gmap ptr ti_user_t) :=
  u ← h !! p;
  Some (<[p := User (u32 (u_ref u + 1)) (u_id u) (u_created_at u) (u_name u) (u_encpass u) (u_tokens u) (u_whitelists u)]> h).

Definition ti_user_drop (h : gmap ptr ti_user_t) (p : ptr) : option (gmap ptr ti_user_t) :=
  u ← h !! p;
  let ref := u32 (u_ref u - 1) in
  if ref =? 0 then Some (delete p h)
  else Some (<[p := User ref (u_id u) (u_created_at u) (u_name u) (u_encpass u) (u_tokens u) (u_whitelists u)]> h).

(** ** Access lists *)

(** [vec_swap_remove]: the last element takes the place of the removed one. *)
Definition swap_remove {A} (l : list A) (i : nat) : list A :=
  match list.last l with Some y => take (length l - 1) (<[i := y]> l) | None => l end.

(** The first entry of a user and its index. *)
Fixpoint auth_find (access : list ti_auth_t) (p : ptr) : option (nat * Z) :=
  match access with
  | [] => None
  | a :: access => if au_user a =? p then Some (O, au_mask a) else '(i, m) ← auth_find access p; Some (S i, m)
  end.

(** The result is false when memory runs out; the entry is then destroyed again. *)
Definition ti_access_grant (mem : bool) (h : gmap ptr ti_user_t) (access : list ti_auth_t) (p : ptr) (mask : Z)
  : option (bool * gmap ptr ti_user_t * list ti_auth_t) :=
  match auth_find access p with
  | Some (i, m) => Some (true, h, <[i := Auth p (u16 (Z.lor m mask))]> access)
  | None =>
    if mem then h ← ti_grab h p; Some (true, h, access ++ [Auth p (u16 mask)])
    else Some (false, h, access)
  end.

Definition ti_access_revoke (h : gmap ptr ti_user_t) (access : list ti_auth_t) (p : ptr) (mask : Z)
  : option (gmap ptr ti_user_t * list ti_auth_t) :=
  match auth_find access p with
  | Some (i, m) =>
    let m := u16 (Z.land m (Z.lnot mask)) in
    if m =? 0 then h ← ti_user_drop h p; Some (h, swap_remove access i)
    else Some (h, <[i := Auth p m]> access)
  | None => Some (h, access)
  end.

Definition ti_access_check (access : list ti_auth_t) (p : ptr) (mask : Z) : bool :=
  match auth_find access p with Some (_, m) => Z.land m mask =? mask | None => false end.

Definition ti_access_check_or (access : list ti_auth_t) (p : ptr) (mask : Z) : bool :=
  match auth_find access p with Some (_, m) => negb (Z.land m mask =? 0) | None => false end.

(** The masks of two users; the last entry counts. *)
Fixpoint two_masks (access : list ti_auth_t) (o n : ptr) (om nm : Z) : Z * Z :=
  match access with
  | [] => (om, nm)
  | a :: access =>
    if au_user a =? o then two_masks access o n (au_mask a) nm
    else if au_user a =? n then two_masks access o n om (au_mask a)
    else two_masks access o n om nm
  end.

(** Does [n] have privileges that [o] does not have? *)
Definition ti_access_more_check (access : list ti_auth_t) (o n : ptr) : bool :=
  let '(om, nm) := two_masks access o n 0 0 in negb (u16 (nm - Z.land om nm) =? 0).

(** The scopes and their access lists. *)
Inductive ti_scope := TI_SCOPE_THINGSDB | TI_SCOPE_NODE | TI_SCOPE_COLLECTION (id : Z).

Definition ti_val_get_access (d : db) (s : ti_scope) : option (list ti_auth_t) :=
  match s with
  | TI_SCOPE_THINGSDB => Some (access_thingsdb d)
  | TI_SCOPE_NODE => Some (access_node d)
  | TI_SCOPE_COLLECTION id => c ← List.find (fun c => co_id c =? id) (collections d); Some (co_access c)
  end.

Fixpoint coll_access (l : list ti_collection_t) (id : Z) (a : list ti_auth_t) : list ti_collection_t :=
  match l with
  | [] => []
  | c :: l => if co_id c =? id then Collection id a (co_vtasks c) :: l else c :: coll_access l id a
  end.

Definition set_access (d : db) (s : ti_scope) (h : gmap ptr ti_user_t) (a : list ti_auth_t) : db :=
  match s with
  | TI_SCOPE_THINGSDB => Db h (users d) (access_node d) a (vtasks d) (collections d) (next_free_id d) (held d)
  | TI_SCOPE_NODE => Db h (users d) a (access_thingsdb d) (vtasks d) (collections d) (next_free_id d) (held d)
  | TI_SCOPE_COLLECTION id =>
    Db h (users d) (access_node d) (access_thingsdb d) (vtasks d) (coll_access (collections d) id a) (next_free_id d) (held d)
  end.

(** ** Tasks of a user *)

(** A vector while it is walked: its cells, of which the first [n] belong to it. *)
Fixpoint vtask_index (cells : list ti_vtask_t) (n : nat) (id : Z) : option nat :=
  match n, cells with
  | S n, t :: cells => if vt_id t =? id then Some O else i ← vtask_index cells n id; Some (S i)
  | _, _ => None
  end.

(** [ti_vtask_del]: the task is destroyed or cleared, either way it lets go of its user. *)
Definition ti_vtask_del (h : gmap ptr ti_user_t) (cells : list ti_vtask_t) (n : nat) (id : Z)
  : option (gmap ptr ti_user_t * list ti_vtask_t * nat) :=
  match vtask_index cells n id with
  | Some i =>
    t ← cells !! i; y ← cells !! (n - 1)%nat; h ← ti_user_drop h (vt_user t);
    Some (h, <[i := y]> cells, (n - 1)%nat)
  | None => Some (h, cells, n)
  end.

(** The walk over the cells [ks]; the cells that no longer belong to the vector are read
    as well, and a task that was deleted ([gone]) must not be. *)
Fixpoint tasks_walk (ks : list nat) (gone : list Z) (h : gmap ptr ti_user_t) (cells : list ti_vtask_t) (n : nat) (p : ptr)
  : option (gmap ptr ti_user_t * list ti_vtask_t) :=
  match ks with
  | [] => Some (h, take n cells)
  | k :: ks =>
    t ← cells !! k;
    if bool_decide (vt_id t ∈ gone) then None
    else if vt_user t =? p then
      '(h, cells, n) ← ti_vtask_del h cells n (vt_id t); tasks_walk ks (vt_id t :: gone) h cells n p
    else tasks_walk ks gone h cells n p
  end.

Fixpoint coll_tasks (h : gmap ptr ti_user_t) (l : list ti_collection_t) (p : ptr) : option (gmap ptr ti_user_t * list ti_collection_t) :=
  match l with
  | [] => Some (h, [])
  | c :: l =>
    let v := co_vtasks c in
    '(h, v) ← tasks_walk (seq 0 (length v)) [] h v (length v) p;                     (* vec_each *)
    '(h, l) ← coll_tasks h l p;
    Some (h, Collection (co_id c) (co_access c) v :: l)
  end.

Definition ti_tasks_del_user (d : db) (p : ptr) : option db :=
  let v := vtasks d in
  '(h, v) ← tasks_walk (rev (seq 0 (length v))) [] (heap d) v (length v) p;          (* vec_each_rev *)
  '(h, l) ← coll_tasks h (collections d) p;
  Some (Db h (users d) (access_node d) (access_thingsdb d) v l (next_free_id d) (held d)).

(** ** Users *)

Definition ti_max_name : nat := 128.
Definition ti_max_pass : nat := 128.

Definition ti_users_get (d : db) (f : ti_user_t -> bool) : option (option ptr) :=
  (fix go (l : list ptr) : option (option ptr) :=
     match l with
     | [] => Some None
     | p :: l => u ← heap d !! p; if f u then Some (Some p) else go l
     end) (users d).

Definition ti_users_get_by_id (d : db) (id : Z) : option (option ptr) := ti_users_get d (fun u => u_id u =? id).
Definition ti_users_get_by_namestrn (d : db) (name : list Z) : option (option ptr) := ti_users_get d (fun u => bool_decide (u_name u = name)).

Inductive ex := EX_VALUE_ERROR | EX_LOOKUP_ERROR | EX_TYPE_ERROR | EX_FORBIDDEN | EX_OPERATION | EX_MAX_QUOTA | EX_MEMORY | EX_AUTH_ERROR.

(** The error, if there is one. *)
Definition ti_user_name_check (d : db) (name : list Z) : option (option ex) :=
  if (length name <? 1)%nat || (ti_max_name <=? length name)%nat then Some (Some EX_VALUE_ERROR)
  else if negb (strx_is_graphn name (length name)) then Some (Some EX_VALUE_ERROR)
  else o ← ti_users_get_by_namestrn d name; Some (match o with Some _ => Some EX_LOOKUP_ERROR | None => None end).

Definition ti_user_pass_check (pass : list Z) : option ex :=
  if (length pass <? 1)%nat then Some EX_VALUE_ERROR
  else if (ti_max_pass <=? length pass)%nat then Some EX_VALUE_ERROR
  else if negb (strx_is_printable pass) then Some EX_VALUE_ERROR
  else None.

(** The contents of the C string in a buffer. *)
Fixpoint until0 (l : list Z) : list Z := match l with [] => [] | c :: l => if c =? 0 then [] else c :: until0 l end.

(** [ti_user_set_pass]; [rands] are the random numbers for the salt. *)
Definition user_set_pass (mem : bool) (rands : list Z) (u : ti_user_t) (pass : option (list Z)) : option (bool * ti_user_t) :=
  let with_pass e := User (u_ref u) (u_id u) (u_created_at u) (u_name u) e (u_tokens u) (u_whitelists u) in
  match pass with
  | None => Some (true, with_pass None)
  | Some pass =>
    salt ← cryptx_gen_salt rands;
    encrypted ← cryptx pass salt;
    if mem then Some (true, with_pass (Some (until0 encrypted))) else Some (false, u)
  end.

Definition ti_user_set_pass (mem : bool) (rands : list Z) (d : db) (p : ptr) (pass : option (list Z)) : option (bool * db) :=
  u ← heap d !! p;
  '(ok, u) ← user_set_pass mem rands u pass;
  Some (ok, with_heap d (<[p := u]> (heap d))).

Definition ti_user_rename (d : db) (p : ptr) (name : list Z) : option (option ex * db) :=
  e ← ti_user_name_check d name;
  match e with
  | Some e => Some (Some e, d)
  | None =>
    u ← heap d !! p;
    Some (None, with_heap d (<[p := User (u_ref u) (u_id u) (u_created_at u) name (u_encpass u) (u_tokens u) (u_whitelists u)]> (heap d)))
  end.

Definition ti_user_create (id : Z) (name : list Z) (encpass : option (list Z)) (created_at : Z) : ti_user_t :=
  User 1 id created_at name encpass [] (None, None).

(** [p] is the address of the new user; the id is used up also when memory runs out. *)
Definition ti_users_new_user (mem : bool) (rands : list Z) (d : db) (p : ptr) (name : list Z) (pass : option (list Z)) (created_at : Z)
  : option ((ex + ptr) * db) :=
  e ← ti_user_name_check d name;
  match e with
  | Some e => Some (inl e, d)
  | None =>
    match pass ≫= ti_user_pass_check with
    | Some e => Some (inl e, d)
    | None =>
      let id := next_free_id d in
      let d := with_next d (u64 (id + 1)) in
      if negb mem then Some (inl EX_MEMORY, d)
      else
        '(_, u) ← user_set_pass true rands (ti_user_create id name None created_at) pass;
        Some (inr p, with_users (with_heap d (<[p := u]> (heap d))) (users d ++ [p]))
    end
  end.

Definition ti_users_load_user (mem : bool) (d : db) (p : ptr) (id : Z) (name : list Z) (encrypted : option (list Z)) (created_at : Z)
  : option ((ex + ptr) * db) :=
  e ← ti_user_name_check d name;
  match e with
  | Some e => Some (inl e, d)
  | None =>
    o ← ti_users_get_by_id d id;
    match o with
    | Some _ => Some (inl EX_LOOKUP_ERROR, d)
    | None =>
      let d := if next_free_id d <=? id then with_next d (u64 (id + 1)) else d in
      if negb mem then Some (inl EX_MEMORY, d)
      else Some (inr p, with_users (with_heap d (<[p := ti_user_create id name encrypted created_at]> (heap d))) (users d ++ [p]))
    end
  end.

Fixpoint index_of (l : list ptr) (p : ptr) : option nat :=
  match l with [] => None | q :: l => if q =? p then Some O else i ← index_of l p; Some (S i) end.

Fixpoint coll_revoke (h : gmap ptr ti_user_t) (l : list ti_collection_t) (p : ptr) (mask : Z) : option (gmap ptr ti_user_t * list ti_collection_t) :=
  match l with
  | [] => Some (h, [])
  | c :: l =>
    '(h, a) ← ti_access_revoke h (co_access c) p mask;
    '(h, l) ← coll_revoke h l p mask;
    Some (h, Collection (co_id c) a (co_vtasks c) :: l)
  end.

Definition ti_users_del_user (d : db) (p : ptr) : option db :=
  '(h, a) ← ti_access_revoke (heap d) (access_node d) p TI_AUTH_MASK_FULL;
  let d := set_access d TI_SCOPE_NODE h a in
  '(h, a) ← ti_access_revoke (heap d) (access_thingsdb d) p TI_AUTH_MASK_FULL;
  let d := set_access d TI_SCOPE_THINGSDB h a in
  d ← ti_tasks_del_user d p;
  '(h, l) ← coll_revoke (heap d) (collections d) p TI_AUTH_MASK_FULL;
  let d := Db h (users d) (access_node d) (access_thingsdb d) (vtasks d) l (next_free_id d) (held d) in
  match index_of (users d) p with
  | Some i => h ← ti_user_drop (heap d) p; Some (with_users (with_heap d h) (swap_remove (users d) i))
  | None => Some d
  end.

(** The users of a copy of the vector are deleted one after the other. *)
Definition ti_users_clear (mem : bool) (d : db) : option (bool * db) :=
  if negb mem then Some (false, d)
  else
    d ← (fix go (l : list ptr) (d : db) : option db :=
           match l with [] => Some d | p :: l => d ← ti_users_del_user d p; go l d end) (users d) d;
    Some (true, d).

(** ** Authentication *)

(** The password is copied to a buffer; what follows a zero byte does not count. *)
Definition ti_users_auth (d : db) (name pass : list Z) : option (ex + ptr) :=
  if (length name <? 1)%nat || (ti_max_name <=? length name)%nat then Some (inl EX_AUTH_ERROR)
  else if (length pass <? 1)%nat || (ti_max_pass <=? length pass)%nat then Some (inl EX_AUTH_ERROR)
  else
    (fix go (l : list ptr) : option (ex + ptr) :=
       match l with
       | [] => Some (inl EX_AUTH_ERROR)
       | p :: l =>
         u ← heap d !! p;
         if bool_decide (u_name u = name) then
           match u_encpass u with
           | None => Some (inl EX_AUTH_ERROR)
           | Some enc =>
             pw ← cryptx (until0 pass) enc;
             Some (if bool_decide (until0 pw = enc) then inr p else inl EX_AUTH_ERROR)
           end
         else go l
       end) (users d).

Definition token_key_sz : nat := 22.

Definition token_expired (now : Z) (t : ti_token_t) : bool := negb (tk_expire_ts t =? 0) && (tk_expire_ts t <? now).

Definition token_find (key : list Z) (l : list ti_token_t) : option ti_token_t := List.find (fun t => bool_decide (tk_key t = key)) l.

Definition ti_users_auth_by_token (now : Z) (d : db) (key : list Z) : option (ex + ptr) :=
  if negb (length key =? token_key_sz)%nat then Some (inl EX_AUTH_ERROR)
  else
    (fix go (l : list ptr) : option (ex + ptr) :=
       match l with
       | [] => Some (inl EX_AUTH_ERROR)
       | p :: l =>
         u ← heap d !! p;
         match token_find key (u_tokens u) with
         | Some t => Some (if token_expired now t then inl EX_AUTH_ERROR else inr p)
         | None => go l
         end
       end) (users d).

(** The bytes before and after the first colon. *)
Fixpoint split_colon (l : list Z) : option (list Z * list Z) :=
  match l with
  | [] => None
  | c :: l => if c =? 58 then Some ([], l) else '(a, b) ← split_colon l; Some (c :: a, b)
  end.

(** [decoded] is the result of [ti_bytes_from_base64]. *)
Definition ti_users_auth_by_basic (d : db) (decoded : option (list Z)) : option (ex + ptr) :=
  match decoded with
  | None => Some (inl EX_MEMORY)
  | Some auth =>
    match split_colon auth with
    | Some (name, pass) => ti_users_auth d name pass
    | None => Some (inl EX_AUTH_ERROR)
    end
  end.

(** ** Tokens *)

Definition with_tokens (u : ti_user_t) (l : list ti_token_t) : ti_user_t :=
  User (u_ref u) (u_id u) (u_created_at u) (u_name u) (u_encpass u) l (u_whitelists u).

(** [n] and [m] of the code: the index and the number of tokens. *)
Fixpoint del_expired_loop (fuel n : nat) (after_ts : Z) (l : list ti_token_t) : option (list ti_token_t) :=
  if (n <? length l)%nat then
    match fuel with
    | O => None
    | S fuel =>
      t ← l !! n;
      if token_expired after_ts t then del_expired_loop fuel n after_ts (swap_remove l n) else del_expired_loop fuel (S n) after_ts l
    end
  else Some l.

Definition ti_user_del_expired (after_ts : Z) (u : ti_user_t) : option ti_user_t :=
  l ← del_expired_loop (length (u_tokens u)) 0 after_ts (u_tokens u); Some (with_tokens u l).

Definition each_user (f : ti_user_t -> option ti_user_t) : list ptr -> db -> option db :=
  fix go (l : list ptr) (d : db) :=
    match l with
    | [] => Some d
    | p :: l => u ← heap d !! p; u ← f u; go l (with_heap d (<[p := u]> (heap d)))
    end.

Definition ti_users_del_expired (d : db) (after_ts : Z) : option db := each_user (ti_user_del_expired after_ts) (users d) d.

Fixpoint token_index (key : list Z) (l : list ti_token_t) : option nat :=
  match l with [] => None | t :: l => if bool_decide (tk_key t = key) then Some O else i ← token_index key l; Some (S i) end.

Definition ti_user_pop_token_by_key (d : db) (p : ptr) (key : list Z) : option (bool * db) :=
  u ← heap d !! p;
  match token_index key (u_tokens u) with
  | Some i => Some (true, with_heap d (<[p := with_tokens u (swap_remove (u_tokens u) i)]> (heap d)))
  | None => Some (false, d)
  end.

Definition ti_users_pop_token_by_key (d : db) (key : list Z) : option (bool * db) :=
  (fix go (l : list ptr) : option (bool * db) :=
     match l with
     | [] => Some (false, d)
     | p :: l => '(ok, d') ← ti_user_pop_token_by_key d p key; if ok : bool then Some (true, d') else go l
     end) (users d).

Definition ti_users_has_token (d : db) (key : list Z) : option bool :=
  o ← ti_users_get d (fun u => match token_find key (u_tokens u) with Some _ => true | None => false end);
  Some (match o with Some _ => true | None => false end).

Definition ti_user_add_token (mem : bool) (d : db) (p : ptr) (t : ti_token_t) : option (bool * db) :=
  u ← heap d !! p;
  Some (if mem then (true, with_heap d (<[p := with_tokens u (u_tokens u ++ [t])]> (heap d))) else (false, d)).

(** ** Whitelists *)

(** The argument of the functions for whitelists. *)
Inductive wl_arg := AStr (s : list Z) | AName (s : list Z) | ARegex (pattern : list Z) | AOther.

Definition TI_NAME_MAX : nat := 255.
Definition isalpha (c : Z) : bool := in_rng 65 c 90 || in_rng 97 c 122.
Definition ti_name_is_valid_strn (s : list Z) : bool :=
  match s with
  | [] => false
  | c :: s' =>
    negb (TI_NAME_MAX <? length s)%nat && (isalpha c || (c =? 95)) &&
    forallb (fun c => isalpha c || isdigit c || (c =? 95)) s'
  end.

Definition whitelist__val (mem : bool) (v : wl_arg) : ex + wl_val :=
  match v with
  | AStr s => if negb (ti_name_is_valid_strn s) then inl EX_VALUE_ERROR else if mem then inr (WName s) else inl EX_MEMORY
  | AName s => inr (WName s)
  | ARegex p => inr (WRegex p)
  | AOther => inl EX_TYPE_ERROR
  end.

#[export] Instance wl_val_eq_dec : EqDecision wl_val.
Proof. solve_decision. Defined.

Definition ti_whitelist_add (mem : bool) (wl : option (list wl_val)) (v : option wl_arg) : option ex * option (list wl_val) :=
  match v with
  | None => match wl with Some _ => (Some EX_LOOKUP_ERROR, wl) | None => if mem then (None, Some []) else (Some EX_MEMORY, None) end
  | Some v =>
    match whitelist__val mem v with
    | inl e => (Some e, wl)
    | inr w =>
      if bool_decide (w ∈ default [] wl) then (Some EX_LOOKUP_ERROR, wl)
      else if mem then (None, Some (default [] wl ++ [w])) else (Some EX_MEMORY, wl)
    end
  end.

Fixpoint wl_index (w : wl_val) (l : list wl_val) : option nat :=
  match l with [] => None | v :: l => if bool_decide (w = v) then Some O else i ← wl_index w l; Some (S i) end.

Definition ti_whitelist_del (mem : bool) (wl : option (list wl_val)) (v : option wl_arg) : option ex * option (list wl_val) :=
  match v with
  | None => match wl with Some _ => (None, None) | None => (Some EX_LOOKUP_ERROR, None) end
  | Some v =>
    match whitelist__val mem v with
    | inl e => (Some e, wl)
    | inr w =>
      match wl ≫= wl_index w with
      | Some i => (None, Some (swap_remove (default [] wl) i))
      | None => (Some EX_LOOKUP_ERROR, wl)
      end
    end
  end.

Definition wl_match (regex_test : list Z -> list Z -> bool) (name : list Z) (v : wl_val) : bool :=
  match v with WName s => bool_decide (s = name) | WRegex p => regex_test p name end.

(** [ti_whitelist_test]: everything is allowed without a list. *)
Definition ti_whitelist_test (regex_test : list Z -> list Z -> bool) (wl : option (list wl_val)) (name : list Z) : bool :=
  match wl with None => true | Some l => existsb (wl_match regex_test name) l end.

Definition ti_whitelist_check (regex_test : list Z -> list Z -> bool) (wl : option (list wl_val)) (name : option (list Z)) : bool :=
  match wl, name with
  | None, _ => true
  | Some _, None => false
  | Some l, Some name => existsb (wl_match regex_test name) l
  end.

(** ** Functions of the language *)

(** [q] is the user of the query. [later] evaluates the arguments behind the one that
    gives the user; these are statements, which may change users. *)
Definition fn_result := option ((ex + unit) * db).
Definition no_effect (d : db) : option db := Some d.

Definition by_user (d : db) (name : list Z) (f : ptr -> fn_result) : fn_result :=
  o ← ti_users_get_by_namestrn d name;
  match o with Some p => f p | None => Some (inl EX_LOOKUP_ERROR, d) end.

Definition allowed (d : db) (s : ti_scope) (q : ptr) (mask : Z) : option ex :=
  match ti_val_get_access d s with
  | None => Some EX_LOOKUP_ERROR
  | Some a => if ti_access_check a q mask then None else Some EX_FORBIDDEN
  end.

Definition grant_mask (mask : Z) : Z :=
  let mask := u64 mask in if Z.land mask TI_AUTH_GRANT =? 0 then mask else Z.lor mask TI_AUTH_CHANGE.

Definition revoke_mask (mask : Z) : Z :=
  let mask := u64 mask in if Z.land mask TI_AUTH_CHANGE =? 0 then mask else Z.lor mask TI_AUTH_GRANT.

Definition do__f_grant (mem : bool) (q : ptr) (s : ti_scope) (name : list Z) (mask : Z) (later : db -> option db) (d : db) : fn_result :=
  match allowed d s q TI_AUTH_GRANT with
  | Some e => Some (inl e, d)
  | None =>
    by_user d name (fun p =>
      d ← later d;
      a ← ti_val_get_access d s;
      '(ok, h, a) ← ti_access_grant mem (heap d) a p (grant_mask mask);
      Some (if ok : bool then inr tt else inl EX_MEMORY, set_access d s h a))
  end.

Definition do__f_revoke (q : ptr) (s : ti_scope) (name : list Z) (mask : Z) (later : db -> option db) (d : db) : fn_result :=
  match allowed d s q TI_AUTH_GRANT with
  | Some e => Some (inl e, d)
  | None =>
    by_user d name (fun p =>
      d ← later d;
      let mask := revoke_mask mask in
      if (q =? p) && negb (Z.land mask (Z.lor TI_AUTH_GRANT TI_AUTH_QUERY) =? 0) then Some (inl EX_OPERATION, d)
      else
        a ← ti_val_get_access d s;
        '(h, a) ← ti_access_revoke (heap d) a p mask;
        Some (inr tt, set_access d s h a))
  end.

Definition do__f_new_user (mem : bool) (q p : ptr) (name : list Z) (now : Z) (d : db) : fn_result :=
  match allowed d TI_SCOPE_THINGSDB q TI_AUTH_GRANT with
  | Some e => Some (inl e, d)
  | None => '(r, d) ← ti_users_new_user mem [] d p name None now; Some (match r with inl e => inl e | inr _ => inr tt end, d)
  end.

Definition do__f_del_user (mem : bool) (q : ptr) (name : list Z) (d : db) : fn_result :=
  match allowed d TI_SCOPE_THINGSDB q TI_AUTH_GRANT with
  | Some e => Some (inl e, d)
  | None =>
    by_user d name (fun p =>
      if q =? p then Some (inl EX_OPERATION, d)
      else if negb mem then Some (inl EX_MEMORY, d)
      else d ← ti_users_del_user d p; Some (inr tt, d))
  end.

Definition do__f_rename_user (q : ptr) (name new : list Z) (later : db -> option db) (d : db) : fn_result :=
  match allowed d TI_SCOPE_THINGSDB q TI_AUTH_GRANT with
  | Some e => Some (inl e, d)
  | None =>
    by_user d name (fun p =>
      d ← later d;
      '(e, d) ← ti_user_rename d p new; Some (match e with Some e => inl e | None => inr tt end, d))
  end.

Definition do__f_set_password (mem : bool) (rands : list Z) (q : ptr) (name : list Z) (pass : option (list Z)) (later : db -> option db) (d : db)
  : fn_result :=
  by_user d name (fun p =>
    match if p =? q then None else allowed d TI_SCOPE_THINGSDB q TI_AUTH_GRANT with
    | Some e => Some (inl e, d)
    | None =>
      d ← later d;
      let pass := until0 <$> pass in
      match pass ≫= ti_user_pass_check with
      | Some e => Some (inl e, d)
      | None => '(ok, d) ← ti_user_set_pass mem rands d p pass; Some (if ok : bool then inr tt else inl EX_MEMORY, d)
      end
    end).

Definition MAX_USER_TOKENS : nat := 128.
Definition TI_MAX_EXPIRATION_LONG : Z := 4294967295.

(** [expire] is a time, [key] the random key. *)
Definition do__f_new_token (mem : bool) (q : ptr) (name : list Z) (expire : option Z) (description key : list Z) (now : Z)
    (later : db -> option db) (d : db) : fn_result :=
  by_user d name (fun p =>
    match if p =? q then None else allowed d TI_SCOPE_THINGSDB q TI_AUTH_GRANT with
    | Some e => Some (inl e, d)
    | None =>
      u ← heap d !! p;
      if (MAX_USER_TOKENS <? length (u_tokens u))%nat then Some (inl EX_MAX_QUOTA, d)
      else
        d ← later d;
        match expire with
        | Some ts => if (ts <? now) || (TI_MAX_EXPIRATION_LONG <? ts) then Some (inl EX_VALUE_ERROR, d)
                     else '(ok, d) ← ti_user_add_token mem d p (Token key ts now (until0 description)); Some (if ok : bool then inr tt else inl EX_MEMORY, d)
        | None => '(ok, d) ← ti_user_add_token mem d p (Token key 0 now (until0 description)); Some (if ok : bool then inr tt else inl EX_MEMORY, d)
        end
    end).

Definition do__f_del_token (q : ptr) (key : list Z) (d : db) : fn_result :=
  if negb (length key =? token_key_sz)%nat || negb (strx_is_asciin key (length key)) then Some (inl EX_VALUE_ERROR, d)
  else
    '(ok, d) ← (if ti_access_check (access_thingsdb d) q TI_AUTH_GRANT then ti_users_pop_token_by_key d key else ti_user_pop_token_by_key d q key);
    Some (if ok : bool then inr tt else inl EX_LOOKUP_ERROR, d).

Definition do__f_del_expired (q : ptr) (now : Z) (d : db) : fn_result :=
  match allowed d TI_SCOPE_THINGSDB q TI_AUTH_GRANT with
  | Some e => Some (inl e, d)
  | None => d ← ti_users_del_expired d now; Some (inr tt, d)
  end.

(** ** Storing access *)

Definition ti_store_access_store (d : db) (a : list ti_auth_t) : option (list (Z * Z)) :=
  mapM (fun a => u ← heap d !! au_user a; Some (u_id u, au_mask a)) a.

Fixpoint ti_store_access_restore (d : db) (h : gmap ptr ti_user_t) (l : list (Z * Z)) (a : list ti_auth_t)
  : option (option (gmap ptr ti_user_t * list ti_auth_t)) :=
  match l with
  | [] => Some (Some (h, a))
  | (id, mask) :: l =>
    o ← ti_users_get_by_id d id;
    match o with
    | None => Some None
    | Some p => '(ok, h, a) ← ti_access_grant true h a p mask; ti_store_access_restore d h l a
    end
  end.
