(* ===== verification/UsersProof.v ===== *)
(** * Users: counts of references

    The count of every user is the number of pointers to it, so no pointer dangles. *)
From Stdlib Require Import ZArith Lia.
From stdpp Require Import base list option numbers gmap.
From S2P Require Import Prelude Utf8 Opr Strx Spec Keywords Req Cryptx Users.

Notation heap_t := (gmap ptr ti_user_t).

(** ** Counting *)

Definition refs (p : ptr) (H : list ptr) : Z := Z.of_nat (count_occ Z.eq_dec H p).

Lemma refs_cons p q H : refs p (q :: H) = refs p H + (if decide (q = p) then 1 else 0).
Proof. unfold refs. cbn [count_occ]. destruct (Z.eq_dec q p), (decide (q = p)); try done; lia. Qed.

Lemma refs_perm p H H' : H ≡ₚ H' -> refs p H = refs p H'.
Proof. intros Hp. unfold refs. f_equal. by apply (Permutation_count_occ Z.eq_dec). Qed.

Lemma refs_pos p H : 0 < refs p H <-> p ∈ H.
Proof. unfold refs. rewrite list_elem_of_In, (count_occ_In Z.eq_dec). lia. Qed.

Lemma refs_le p H : refs p H <= Z.of_nat (length H).
Proof. unfold refs. induction H as [|q H IH]; cbn [count_occ length]; [lia|]. destruct (Z.eq_dec q p); lia. Qed.

(** The counts of the heap are exact for the pointers [H]. *)
Record exact (h : heap_t) (H : list ptr) : Prop := Exact {
  ex_refs : forall p u, h !! p = Some u -> u_ref u = refs p H /\ p ∈ H;
  ex_live : forall p, p ∈ H -> is_Some (h !! p);
  ex_few : Z.of_nat (length H) < 2 ^ 32
}.

Lemma exact_perm h H H' : H ≡ₚ H' -> exact h H -> exact h H'.
Proof.
  intros Hp [Hr Hl Hf]. split.
  - intros p u Hu. rewrite <- (refs_perm p H H' Hp), <- Hp. by apply Hr.
  - intros p Hin. apply Hl. by rewrite Hp.
  - by rewrite <- Hp.
Qed.

#[export] Instance exact_proper h : Proper ((≡ₚ) ==> iff) (exact h).
Proof. intros H H' Hp. split; apply exact_perm; [done|by symmetry]. Qed.

(** A user without its count. *)
Definition erase (u : ti_user_t) : ti_user_t := User 0 (u_id u) (u_created_at u) (u_name u) (u_encpass u) (u_tokens u) (u_whitelists u).

(** The users [H] are the same but for their counts. *)
Definition same (H : list ptr) (h h' : heap_t) : Prop := forall p, p ∈ H -> erase <$> h' !! p = erase <$> h !! p.

Lemma same_users_refl H h : same H h h.
Proof. done. Qed.
Lemma same_users_trans H h1 h2 h3 : same H h1 h2 -> same H h2 h3 -> same H h1 h3.
Proof. intros H1 H2 p Hp. by rewrite (H2 p Hp), (H1 p Hp). Qed.
Lemma same_sub H H' h h' : (forall p, p ∈ H' -> p ∈ H) -> same H h h' -> same H' h h'.
Proof. intros Hs H1 p Hp. by apply H1, Hs. Qed.

Lemma grab_exact h H p : exact h H -> p ∈ H -> Z.of_nat (length H) + 1 < 2 ^ 32 ->
  exists h', ti_grab h p = Some h' /\ exact h' (p :: H) /\ same H h h'.
Proof.
  intros [Hr Hl Hf] Hp Hlen. destruct (Hl p Hp) as [u Hu]. unfold ti_grab. rewrite Hu. cbn [mbind option_bind]. eexists. split; [done|]. split.
  - assert (E : u32 (u_ref u + 1) = u_ref u + 1).
    { destruct (Hr p u Hu) as [-> _]. pose proof (refs_le p H). unfold u32. apply Z.mod_small. unfold refs in *. lia. }
    split.
    + intros q v Hq. rewrite refs_cons. destruct (decide (p = q)) as [->|Hne].
      * rewrite lookup_insert_eq in Hq. injection Hq as <-. cbn [u_ref]. rewrite E. destruct (Hr q u Hu) as [-> _]. split; [done|by left].
      * rewrite lookup_insert_ne in Hq by done. destruct (Hr q v Hq) as [-> Hin]. split; [lia|by right].
    + intros q Hq. destruct (decide (p = q)) as [->|Hne]; [rewrite lookup_insert_eq; by eexists|]. rewrite lookup_insert_ne by done. apply Hl.
      by apply elem_of_cons in Hq as [->|Hq].
    + cbn [length]. lia.
  - intros q Hq. destruct (decide (p = q)) as [->|Hne]; [by rewrite lookup_insert_eq, Hu|by rewrite lookup_insert_ne].
Qed.

Lemma drop_exact h H p : exact h (p :: H) -> exists h', ti_user_drop h p = Some h' /\ exact h' H /\ same H h h'.
Proof.
  intros [Hr Hl Hf]. destruct (Hl p) as [u Hu]; [by left|]. unfold ti_user_drop. rewrite Hu. cbn [mbind option_bind].
  destruct (Hr p u Hu) as [Eu _]. rewrite refs_cons, decide_True in Eu by done. cbn [length] in Hf.
  assert (E : u32 (u_ref u - 1) = refs p H) by (rewrite Eu; pose proof (refs_le p H); unfold u32; rewrite Z.mod_small; unfold refs in *; lia).
  rewrite E. destruct (Z.eqb_spec (refs p H) 0) as [E0|E0].
  - assert (Hnot : p ∉ H) by (intros Hin; apply refs_pos in Hin; lia).
    eexists. split; [done|]. split; [split|].
    + intros q v Hq. apply lookup_delete_Some in Hq as [Hne Hq]. destruct (Hr q v Hq) as [-> Hin]. rewrite refs_cons, decide_False by done.
      split; [lia|]. by apply elem_of_cons in Hin as [->|Hin].
    + intros q Hq. rewrite lookup_delete_ne by (intros ->; done). apply Hl. by right.
    + lia.
    + intros q Hq. by rewrite lookup_delete_ne by (intros ->; done).
  - assert (Hin : p ∈ H) by (apply refs_pos; unfold refs in *; lia).
    eexists. split; [done|]. split; [split|].
    + intros q v Hq. destruct (decide (p = q)) as [->|Hne].
      * rewrite lookup_insert_eq in Hq. by injection Hq as <-.
      * rewrite lookup_insert_ne in Hq by done. destruct (Hr q v Hq) as [-> Hq2]. rewrite refs_cons, decide_False by done.
        split; [lia|]. by apply elem_of_cons in Hq2 as [->|Hq2].
    + intros q Hq. destruct (decide (p = q)) as [->|Hne]; [rewrite lookup_insert_eq; by eexists|]. rewrite lookup_insert_ne by done.
      apply Hl. by right.
    + lia.
    + intros q Hq. destruct (decide (p = q)) as [->|Hne]; [by rewrite lookup_insert_eq, Hu|by rewrite lookup_insert_ne].
Qed.

(** A user that is changed but for its count. *)
Lemma update_exact h H p u u' : exact h H -> h !! p = Some u -> u_ref u' = u_ref u -> exact (<[p := u']> h) H.
Proof.
  intros [Hr Hl Hf] Hu He. split; [| |done].
  - intros q v Hq. destruct (decide (p = q)) as [->|Hne]; [|rewrite lookup_insert_ne in Hq by done; by apply Hr].
    rewrite lookup_insert_eq in Hq. injection Hq as <-. rewrite He. by apply Hr.
  - intros q Hq. destruct (decide (p = q)) as [->|Hne]; [rewrite lookup_insert_eq; by eexists|]. rewrite lookup_insert_ne by done. by apply Hl.
Qed.

(** A new user. *)
Lemma new_exact h H p u : exact h H -> h !! p = None -> u_ref u = 1 -> Z.of_nat (length H) + 1 < 2 ^ 32 -> exact (<[p := u]> h) (p :: H).
Proof.
  intros [Hr Hl Hf] Hp Hu Hlen. assert (Hnot : p ∉ H) by (intros Hin; destruct (Hl p Hin); congruence).
  assert (E0 : refs p H = 0) by (destruct (Z.le_gt_cases (refs p H) 0); [unfold refs in *; lia|exfalso; by apply Hnot, refs_pos]).
  split; [| |cbn [length]; lia].
  - intros q v Hq. rewrite refs_cons. destruct (decide (p = q)) as [->|Hne].
    + rewrite lookup_insert_eq in Hq. injection Hq as <-. split; [lia|by left].
    + rewrite lookup_insert_ne in Hq by done. destruct (Hr q v Hq) as [-> Hin]. split; [lia|by right].
  - intros q Hq. destruct (decide (p = q)) as [->|Hne]; [rewrite lookup_insert_eq; by eexists|]. rewrite lookup_insert_ne by done.
    apply Hl. by apply elem_of_cons in Hq as [->|Hq].
Qed.

(** ** Lists *)

Lemma swap_remove_perm {A} (l : list A) i x : l !! i = Some x -> l ≡ₚ x :: swap_remove l i.
Proof.
  intros Hi. unfold swap_remove. destruct (list.last l) as [y|] eqn:Hl.
  2:{ apply last_None in Hl as ->. done. }
  apply last_Some in Hl as [l' ->]. rewrite length_app. cbn [length]. replace (length l' + 1 - 1)%nat with (length l') by lia.
  destruct (decide (i < length l')%nat) as [Hlt|Hge].
  - rewrite lookup_app_l in Hi by done. rewrite insert_app_l by done. rewrite take_app_length' by (by rewrite length_insert).
    rewrite <- (take_drop_middle l' i x Hi) at 1. rewrite (insert_take_drop l' i y) by done.
    rewrite <- app_assoc. cbn [app]. rewrite <- Permutation_middle. do 2 f_equiv. by rewrite <- Permutation_cons_append.
  - rewrite lookup_app_r in Hi by lia. assert (i = length l') as ->.
    { apply lookup_lt_Some in Hi. cbn in Hi. lia. }
    rewrite Nat.sub_diag in Hi. injection Hi as <-. rewrite insert_app_r_alt, Nat.sub_diag by lia. cbn [insert list_insert].
    rewrite take_app_length. by rewrite Permutation_app_comm.
Qed.

(** ** Access lists *)

Notation owners := (map au_user).

Definition mask_of (a : list ti_auth_t) (p : ptr) : Z := match auth_find a p with Some (_, m) => m | None => 0 end.

Lemma auth_find_some a p i m : auth_find a p = Some (i, m) -> a !! i = Some (Auth p m).
Proof.
  revert i. induction a as [|x a IH]; intros i; [done|]. cbn [auth_find]. destruct (Z.eqb_spec (au_user x) p) as [E|E].
  - intros [= <- <-]. destruct x. cbn in *. by subst.
  - destruct (auth_find a p) as [[j m']|]; [|done]. cbn [mbind option_bind]. intros [= <- <-]. by apply IH.
Qed.

Lemma auth_find_none a p : auth_find a p = None <-> p ∉ owners a.
Proof.
  induction a as [|x a IH]; [split; [intros _; apply not_elem_of_nil|done]|]. cbn [auth_find map]. rewrite not_elem_of_cons, <- IH.
  destruct (Z.eqb_spec (au_user x) p) as [E|E]; [split; [done|]; intros [? _]; congruence|].
  destruct (auth_find a p) as [[j m]|]; cbn [mbind option_bind]; (split; [try done|try done]). intros [_ H]; done.
Qed.

Lemma elem_owner a p m : Auth p m ∈ a -> p ∈ owners a.
Proof. intros H. apply list_elem_of_In, in_map_iff. exists (Auth p m). split; [done|]. by apply list_elem_of_In. Qed.

(** With one entry per user the order of the list does not matter. *)
Lemma mask_of_elem a p m : NoDup (owners a) -> Auth p m ∈ a -> mask_of a p = m.
Proof.
  intros Hnd Hin. unfold mask_of. destruct (auth_find a p) as [[i m']|] eqn:E; [|by apply auth_find_none in E; apply elem_owner in Hin].
  apply auth_find_some in E. apply list_elem_of_lookup_1 in Hin as [j Hj].
  assert (i = j) as ->; [|congruence]. eapply NoDup_lookup; [exact Hnd| |]; rewrite list_lookup_fmap, ?E, ?Hj; done.
Qed.

Lemma mask_of_none a p : p ∉ owners a -> mask_of a p = 0.
Proof. intros H. apply auth_find_none in H. unfold mask_of. by rewrite H. Qed.

Lemma mask_of_perm a a' p : NoDup (owners a) -> a ≡ₚ a' -> mask_of a' p = mask_of a p.
Proof.
  intros Hnd Hp. assert (Hnd' : NoDup (owners a')) by by rewrite <- Hp.
  destruct (auth_find a p) as [[i m]|] eqn:E.
  - apply auth_find_some, list_elem_of_lookup_2 in E. rewrite (mask_of_elem a p m) by done. apply mask_of_elem; [done|]. by rewrite <- Hp.
  - apply auth_find_none in E. rewrite !mask_of_none; [done|done|]. by rewrite <- Hp.
Qed.

Lemma mask_of_cons a p m q : mask_of (Auth p m :: a) q = if q =? p then m else mask_of a q.
Proof.
  unfold mask_of. cbn [auth_find au_user au_mask]. rewrite Z.eqb_sym. destruct (Z.eqb_spec q p) as [->|E]; [done|].
  destruct (auth_find a q) as [[i m']|]; done.
Qed.

Lemma owners_insert a i p m m' : a !! i = Some (Auth p m) -> owners (<[i := Auth p m']> a) = owners a.
Proof.
  intros Hi. change (map au_user) with (fmap au_user : list ti_auth_t -> list ptr). rewrite list_fmap_insert. cbn [au_user].
  apply list_insert_id. by rewrite list_lookup_fmap, Hi.
Qed.

Lemma insert_perm {A} (l : list A) i x y : l !! i = Some x -> exists r, l ≡ₚ x :: r /\ <[i := y]> l ≡ₚ y :: r.
Proof.
  intros Hi. exists (take i l ++ drop (S i) l). pose proof (lookup_lt_Some _ _ _ Hi). split.
  - rewrite <- (take_drop_middle l i x Hi) at 1. by rewrite <- Permutation_middle.
  - rewrite (insert_take_drop l i y) by done. by rewrite <- Permutation_middle.
Qed.

(** The mask of a user after an entry was replaced. *)
Lemma mask_insert a i p m m' q : NoDup (owners a) -> a !! i = Some (Auth p m) ->
  mask_of (<[i := Auth p m']> a) q = if q =? p then m' else mask_of a q.
Proof.
  intros Hnd Hi. destruct (insert_perm a i (Auth p m) (Auth p m') Hi) as (r & H1 & H2).
  assert (Hnd' : NoDup (owners (<[i := Auth p m']> a))) by by rewrite (owners_insert a i p m).
  rewrite <- (mask_of_perm _ _ q Hnd' H2), <- (mask_of_perm _ _ q Hnd H1), !mask_of_cons. by destruct (q =? p).
Qed.

Definition granted (m mask : Z) : Z := u16 (Z.lor m mask).
Definition revoked (m mask : Z) : Z := u16 (Z.land m (Z.lnot mask)).

Lemma grant_exact h a H p mask : exact h (owners a ++ H) -> p ∈ owners a ++ H -> Z.of_nat (length (owners a ++ H)) + 1 < 2 ^ 32 ->
  NoDup (owners a) -> exists h' a', ti_access_grant true h a p mask = Some (true, h', a') /\ exact h' (owners a' ++ H) /\
    same (owners a ++ H) h h' /\ NoDup (owners a') /\ (forall q, mask_of a' q = if q =? p then granted (mask_of a p) mask else mask_of a q) /\
    (forall q, q ∈ owners a' <-> q = p \/ q ∈ owners a).
Proof.
  intros Hex Hp Hlen Hnd. unfold ti_access_grant. destruct (auth_find a p) as [[i m]|] eqn:E.
  - apply auth_find_some in E as Hi. eexists _, _. split; [done|]. rewrite (owners_insert a i p m) by done. split_and!; [done|done|done| |].
    + intros q. rewrite (mask_insert a i p m) by done. by rewrite (mask_of_elem a p m) by (done || by eapply list_elem_of_lookup_2).
    + intros q. split; [by right|]. intros [->|?]; [|done]. apply elem_owner with m. by eapply list_elem_of_lookup_2.
  - apply auth_find_none in E as Hn. destruct (grab_exact h (owners a ++ H) p Hex Hp Hlen) as (h' & -> & Hex' & Hs). cbn [mbind option_bind].
    assert (Hperm : a ++ [Auth p (u16 mask)] ≡ₚ Auth p (u16 mask) :: a) by by rewrite <- Permutation_cons_append.
    assert (Hnd' : NoDup (owners (a ++ [Auth p (u16 mask)]))) by (rewrite Hperm; by apply NoDup_cons_2).
    eexists _, _. split; [done|]. split_and!; [by rewrite Hperm|done|done| |].
    + intros q. rewrite <- (mask_of_perm _ _ q Hnd' Hperm), mask_of_cons, (mask_of_none a p) by done. done.
    + intros q. rewrite Hperm. cbn [map au_user]. apply elem_of_cons.
Qed.

Lemma revoke_exact h a H p mask : exact h (owners a ++ H) -> NoDup (owners a) ->
  exists h' a', ti_access_revoke h a p mask = Some (h', a') /\ exact h' (owners a' ++ H) /\ same (owners a' ++ H) h h' /\ NoDup (owners a') /\
    (forall q, mask_of a' q = if q =? p then revoked (mask_of a p) mask else mask_of a q) /\
    (forall q, q ∈ owners a' -> q ∈ owners a) /\ (revoked (mask_of a p) mask = 0 -> p ∉ owners a').
Proof.
  intros Hex Hnd. unfold ti_access_revoke. destruct (auth_find a p) as [[i m]|] eqn:E.
  - apply auth_find_some in E as Hi. rewrite (mask_of_elem a p m) by (done || by eapply list_elem_of_lookup_2).
    change (u16 (Z.land m (Z.lnot mask))) with (revoked m mask). cbv zeta. destruct (Z.eqb_spec (revoked m mask) 0) as [E0|E0].
    + pose proof (swap_remove_perm a i _ Hi) as Hperm. rewrite Hperm in Hex. cbn [map au_user app] in Hex.
      destruct (drop_exact h _ p Hex) as (h' & -> & Hex' & Hs). cbn [mbind option_bind]. eexists _, _. split; [done|].
      assert (Hnd2 : NoDup (p :: owners (swap_remove a i))) by (change (p :: owners (swap_remove a i)) with (owners (Auth p m :: swap_remove a i)); by rewrite <- Hperm).
      split_and!; [done|done|by apply NoDup_cons_1_2 in Hnd2| | |intros _; by apply NoDup_cons_1_1 in Hnd2].
      * intros q. rewrite <- (mask_of_perm _ _ q Hnd Hperm), mask_of_cons. destruct (Z.eqb_spec q p) as [->|Hne]; [|done].
        rewrite E0. apply mask_of_none. by apply NoDup_cons_1_1 in Hnd2.
      * intros q Hq. rewrite Hperm. cbn [map au_user]. by right.
    + eexists _, _. split; [done|]. rewrite (owners_insert a i p m) by done. split_and!; [done|done|done| |done|done].
      intros q. by rewrite (mask_insert a i p m) by done.
  - eexists _, _. split; [done|]. apply auth_find_none in E. split_and!; [done|done|done| |done|done].
    intros q. rewrite (mask_of_none a p) by done. destruct (Z.eqb_spec q p) as [->|]; [|done]. by rewrite mask_of_none.
Qed.

(** ** Tasks *)

Notation owned := (map vt_user).
Definition mine (p : ptr) (t : ti_vtask_t) : bool := vt_user t =? p.
Definition others (p : ptr) (l : list ti_vtask_t) : list ti_vtask_t := List.filter (fun t => negb (mine p t)) l.

Lemma others_app p l k : others p (l ++ k) = others p l ++ others p k.
Proof. apply List.filter_app. Qed.

#[export] Instance others_proper p : Proper ((≡ₚ) ==> (≡ₚ)) (others p).
Proof.
  induction 1; unfold others in *; cbn [List.filter]; repeat destruct (negb (mine p _)); try done; [by f_equiv|by constructor|by etrans].
Qed.

Lemma others_elem p t l : t ∈ others p l <-> t ∈ l /\ mine p t = false.
Proof. unfold others. rewrite !list_elem_of_In, filter_In, negb_true_iff. done. Qed.

Lemma owned_others p l q : q ∈ owned (others p l) <-> q ∈ owned l /\ q <> p.
Proof.
  rewrite !list_elem_of_In, !in_map_iff. setoid_rewrite <- list_elem_of_In. setoid_rewrite others_elem. unfold mine. split.
  - intros (t & <- & Ht & Hm). split; [by exists t|]. by apply Z.eqb_neq in Hm.
  - intros [(t & <- & Ht) Hne]. exists t. split_and!; [done|done|]. by apply Z.eqb_neq.
Qed.

Lemma tids_unique (l : list ti_vtask_t) t u : NoDup (map vt_id l) -> t ∈ l -> u ∈ l -> vt_id t = vt_id u -> t = u.
Proof.
  intros Hnd Ht Hu He. apply list_elem_of_lookup_1 in Ht as [i Hi], Hu as [j Hj].
  assert (i = j) as ->; [|congruence]. eapply NoDup_lookup; [exact Hnd| |]; [rewrite list_lookup_fmap, Hi; reflexivity|].
  rewrite list_lookup_fmap, Hj. cbn. by rewrite He.
Qed.

Lemma vtask_index_some cells n t i : NoDup (map vt_id (take n cells)) -> cells !! i = Some t -> (i < n)%nat ->
  vtask_index cells n (vt_id t) = Some i.
Proof.
  revert n i. induction cells as [|x cells IH]; intros n i Hnd Hi Hlt; [done|]. destruct n as [|n]; [lia|]. cbn [vtask_index take map] in *.
  destruct i as [|i]; [injection Hi as ->; by rewrite Z.eqb_refl|]. cbn in Hi.
  rewrite (proj2 (Z.eqb_neq _ _)).
  - rewrite (IH n i); [done| |done|lia]. by apply NoDup_cons_1_2 in Hnd.
  - intros He. apply NoDup_cons_1_1 in Hnd. apply Hnd. rewrite He. apply list_elem_of_In, in_map, list_elem_of_In.
    apply list_elem_of_lookup_2 with i. by rewrite lookup_take_lt by lia.
Qed.

(** One deletion: the last cell of the vector goes to the place of the task. *)
Lemma vtask_del_step h cells n t i H : NoDup (map vt_id (take n cells)) -> cells !! i = Some t -> (i < n <= length cells)%nat ->
  exact h (owned (take n cells) ++ H) ->
  exists h' y, ti_vtask_del h cells n (vt_id t) = Some (h', <[i := y]> cells, (n - 1)%nat) /\
    exact h' (owned (take (n - 1) (<[i := y]> cells)) ++ H) /\ same (owned (take (n - 1) (<[i := y]> cells)) ++ H) h h' /\
    take n cells ≡ₚ t :: take (n - 1) (<[i := y]> cells).
Proof.
  intros Hnd Hi Hlt Hex. unfold ti_vtask_del. rewrite (vtask_index_some cells n t i) by (done || lia). rewrite Hi. cbn [mbind option_bind].
  destruct (lookup_lt_is_Some_2 cells (n - 1)) as [y Hy]; [lia|]. rewrite Hy. cbn [mbind option_bind].
  assert (Hperm : take n cells ≡ₚ t :: take (n - 1) (<[i := y]> cells)).
  { pose proof (swap_remove_perm (take n cells) i t) as Hsw. rewrite lookup_take_lt in Hsw by lia. specialize (Hsw Hi).
    unfold swap_remove in Hsw. rewrite last_lookup, length_take_le in Hsw by lia. rewrite lookup_take_lt in Hsw by lia.
    replace (Nat.pred n) with (n - 1)%nat in Hsw by lia. rewrite Hy in Hsw. rewrite Hsw at 1. f_equiv.
    rewrite <- take_insert_lt by lia. rewrite take_take. by replace ((n - 1) `min` n)%nat with (n - 1)%nat by lia. }
  rewrite Hperm in Hex. cbn [map app] in Hex. destruct (drop_exact h _ (vt_user t) Hex) as (h' & -> & Hex' & Hs). cbn [mbind option_bind].
  exists h', y. split_and!; done.
Qed.

(** What holds in the middle of a walk: [todo] are the tasks still to come, [past] those
    that were seen; the cells of [todo] are as they were. *)
Record walking (p : ptr) (todo past gone : list ti_vtask_t) (cells : list ti_vtask_t) (n : nat) : Prop := Walking {
  wk_perm : take n cells ≡ₚ todo ++ others p past;
  wk_len : (n <= length cells)%nat;
  wk_ids : NoDup (map vt_id (todo ++ past));
  wk_gone : forall t, t ∈ gone -> t ∈ past /\ mine p t = true
}.

Lemma others_sub p l : others p l `sublist_of` l.
Proof.
  induction l as [|t l IH]; [done|]. unfold others in *. cbn [List.filter]. destruct (negb (mine p t)); [by apply sublist_skip|by apply sublist_cons].
Qed.

Lemma walk_ids p todo past gone cells n : walking p todo past gone cells n -> NoDup (map vt_id (take n cells)).
Proof.
  intros Hw. rewrite (wk_perm _ _ _ _ _ _ Hw). pose proof (wk_ids _ _ _ _ _ _ Hw) as Hnd.
  eapply sublist_NoDup; [exact Hnd|].
  change (map vt_id) with (fmap vt_id : list ti_vtask_t -> list Z). apply fmap_sublist, sublist_app; [done|apply others_sub].
Qed.

Lemma others_cons p t l : others p (t :: l) = if mine p t then others p l else t :: others p l.
Proof. unfold others. cbn [List.filter]. by destruct (mine p t). Qed.

Lemma walk_keep p t todo past gone cells n : walking p (t :: todo) past gone cells n -> mine p t = false ->
  walking p todo (t :: past) gone cells n.
Proof.
  intros [Hp Hl Hi Hg] Hm. split; [|done| |].
  - rewrite others_cons, Hm, <- Permutation_middle. by rewrite Hp.
  - rewrite <- Permutation_middle. done.
  - intros u Hu. destruct (Hg u Hu). split; [by right|done].
Qed.

Lemma walk_fresh p t todo past gone cells n : walking p (t :: todo) past gone cells n -> vt_id t ∉ map vt_id gone.
Proof.
  intros [Hp Hl Hi Hg] Hin. apply list_elem_of_In, in_map_iff in Hin as (u & Hu & Hin). apply list_elem_of_In, Hg in Hin as [Hin _].
  cbn [app map] in Hi. apply NoDup_cons_1_1 in Hi. apply Hi. rewrite <- Hu. apply list_elem_of_In, in_map, list_elem_of_In, elem_of_app. by right.
Qed.

Lemma walk_delete p H t todo past gone cells n k h : walking p (t :: todo) past gone cells n -> mine p t = true -> cells !! k = Some t ->
  exact h (owned (take n cells) ++ H) ->
  exists h' i y, ti_vtask_del h cells n (vt_id t) = Some (h', <[i := y]> cells, (n - 1)%nat) /\ (i < n)%nat /\ ((k < n)%nat -> i = k) /\
    walking p todo (t :: past) (t :: gone) (<[i := y]> cells) (n - 1) /\
    exact h' (owned (take (n - 1) (<[i := y]> cells)) ++ H) /\ same (owned (take (n - 1) (<[i := y]> cells)) ++ H) h h'.
Proof.
  intros Hw Hm Hk Hex. pose proof (walk_ids _ _ _ _ _ _ Hw) as Hnd. pose proof Hw as [Hp Hl Hi Hg].
  assert (Hin : t ∈ take n cells) by (rewrite Hp; by left).
  assert (exists i, cells !! i = Some t /\ (i < n)%nat /\ ((k < n)%nat -> i = k)) as (i & Hci & Hin2 & Hik).
  { destruct (decide (k < n)%nat) as [Hlt|Hge]; [by exists k|]. apply list_elem_of_lookup_1 in Hin as [i Hi2]. exists i.
    apply lookup_take_Some in Hi2 as [Hi2 Hlt]. split_and!; [done|done|lia]. }
  destruct (vtask_del_step h cells n t i H Hnd Hci ltac:(lia) Hex) as (h' & y & E & Hex' & Hs & Hperm).
  exists h', i, y. split_and!; [done|done|done| |done|done]. split.
  - rewrite others_cons, Hm. apply (Permutation_cons_inv (a := t)). rewrite <- Hperm. done.
  - rewrite length_insert. lia.
  - rewrite <- Permutation_middle. done.
  - intros u Hu. apply elem_of_cons in Hu as [->|Hu]; [split; [by left|done]|]. destruct (Hg u Hu). split; [by right|done].
Qed.

Lemma walk_rest p todo past gone cells n v q : walking p todo past gone cells n -> v ≡ₚ others p (todo ++ past) ->
  q ∈ owned v -> q ∈ owned (take n cells).
Proof.
  intros Hw Hv Hq. rewrite Hv in Hq. rewrite (wk_perm _ _ _ _ _ _ Hw). rewrite others_app, map_app, elem_of_app in *.
  destruct Hq as [Hq|Hq]; [left|by right]. by apply owned_others in Hq as [? _].
Qed.

(** Forwards, also behind the end of the vector that gets shorter. *)
Lemma walk_forward p H : forall todo k past gone cells n h, walking p todo past gone cells n -> exact h (owned (take n cells) ++ H) ->
  drop k cells = todo ->
  exists h' v, tasks_walk (seq k (length todo)) (map vt_id gone) h cells n p = Some (h', v) /\ exact h' (owned v ++ H) /\
    same (owned v ++ H) h h' /\ v ≡ₚ others p (todo ++ past).
Proof.
  induction todo as [|t todo IH]; intros k past gone cells n h Hw Hex Hd; cbn [length seq tasks_walk].
  { eexists _, _. split; [done|]. split_and!; [done|done|]. by rewrite (wk_perm _ _ _ _ _ _ Hw). }
  assert (Hk : cells !! k = Some t) by (rewrite <- (Nat.add_0_r k), <- lookup_drop, Hd; done).
  assert (Hd' : drop (S k) cells = todo) by (rewrite <- (Nat.add_1_r k), <- drop_drop, Hd; done).
  rewrite Hk. cbn [mbind option_bind]. rewrite bool_decide_eq_false_2 by (by eapply walk_fresh).
  assert (Hperm : (t :: todo) ++ past ≡ₚ todo ++ t :: past) by by rewrite <- Permutation_middle.
  setoid_rewrite Hperm.
  destruct (vt_user t =? p) eqn:Hm; [|by apply (IH (S k)); [apply walk_keep|done|done]].
  destruct (walk_delete p H t todo past gone cells n k h Hw Hm Hk Hex) as (h1 & i & y & -> & Hin & Hik & Hw' & Hex' & Hs). cbn [mbind option_bind].
  destruct (IH (S k) (t :: past) (t :: gone) (<[i := y]> cells) (n - 1)%nat h1 Hw' Hex') as (h2 & v & E & Hex2 & Hs2 & Hv).
  { rewrite drop_insert_lt; [done|]. destruct (decide (k < n)%nat); [rewrite Hik by done|]; lia. }
  exists h2, v. split_and!; [done|done| |done]. eapply same_users_trans; [|exact Hs2]. eapply same_sub; [|exact Hs].
  intros q Hq. rewrite elem_of_app in *. destruct Hq as [Hq|Hq]; [left|by right].
  by eapply walk_rest.
Qed.

(** Backwards. *)
Lemma walk_backward p H : forall todo past gone cells n h, walking p todo past gone cells n -> exact h (owned (take n cells) ++ H) ->
  rev (take (length todo) cells) = todo ->
  exists h' v, tasks_walk (rev (seq 0 (length todo))) (map vt_id gone) h cells n p = Some (h', v) /\ exact h' (owned v ++ H) /\
    same (owned v ++ H) h h' /\ v ≡ₚ others p (todo ++ past).
Proof.
  induction todo as [|t todo IH]; intros past gone cells n h Hw Hex Hd.
  { cbn [length seq rev tasks_walk]. eexists _, _. split; [done|]. split_and!; [done|done|]. by rewrite (wk_perm _ _ _ _ _ _ Hw). }
  cbn [length]. rewrite seq_S, rev_app_distr. cbn [rev app tasks_walk plus].
  set (k := length todo) in *. assert (Hn : (S k <= n)%nat).
  { pose proof (Permutation_length (wk_perm _ _ _ _ _ _ Hw)) as Hlen. rewrite length_app, length_take in Hlen. cbn [length] in Hlen. unfold k. lia. }
  pose proof (wk_len _ _ _ _ _ _ Hw) as Hl.
  destruct (lookup_lt_is_Some_2 cells k) as [t' Hk]; [lia|]. cbn [length] in Hd. fold k in Hd.
  rewrite (take_S_r cells k t' Hk), rev_app_distr in Hd. cbn [rev app] in Hd. injection Hd as -> Hd.
  rewrite Hk. cbn [mbind option_bind]. rewrite bool_decide_eq_false_2 by (by eapply walk_fresh).
  assert (Hperm : (t :: todo) ++ past ≡ₚ todo ++ t :: past) by by rewrite <- Permutation_middle.
  setoid_rewrite Hperm.
  destruct (vt_user t =? p) eqn:Hm; [|by apply IH; [apply walk_keep|done|done]].
  destruct (walk_delete p H t todo past gone cells n k h Hw Hm Hk Hex) as (h1 & i & y & -> & Hin & Hik & Hw' & Hex' & Hs). cbn [mbind option_bind].
  rewrite Hik in * by lia.
  destruct (IH (t :: past) (t :: gone) (<[k := y]> cells) (n - 1)%nat h1 Hw' Hex') as (h2 & v & E & Hex2 & Hs2 & Hv).
  { fold k. by rewrite take_insert_ge by lia. }
  exists h2, v. split_and!; [done|done| |done]. eapply same_users_trans; [|exact Hs2]. eapply same_sub; [|exact Hs].
  intros q Hq. rewrite elem_of_app in *. destruct Hq as [Hq|Hq]; [left|by right]. by eapply walk_rest.
Qed.

Lemma walk_start p v : NoDup (map vt_id v) -> walking p v [] [] v (length v).
Proof.
  intros Hnd. split; [by rewrite firstn_all, app_nil_r|done|by rewrite app_nil_r|]. intros t Ht. by apply elem_of_nil in Ht.
Qed.

Lemma tasks_forward p H h v : NoDup (map vt_id v) -> exact h (owned v ++ H) ->
  exists h' v', tasks_walk (seq 0 (length v)) [] h v (length v) p = Some (h', v') /\ exact h' (owned v' ++ H) /\
    same (owned v' ++ H) h h' /\ v' ≡ₚ others p v.
Proof.
  intros Hnd Hex. destruct (walk_forward p H v 0 [] [] v (length v) h) as (h' & v' & E & H1 & H2 & H3);
    [by apply walk_start|by rewrite firstn_all|done|]. rewrite app_nil_r in H3. by exists h', v'.
Qed.

Lemma tasks_backward p H h v : NoDup (map vt_id v) -> exact h (owned v ++ H) ->
  exists h' v', tasks_walk (rev (seq 0 (length v))) [] h v (length v) p = Some (h', v') /\ exact h' (owned v' ++ H) /\
    same (owned v' ++ H) h h' /\ v' ≡ₚ others p v.
Proof.
  intros Hnd Hex. assert (Hr : exists h' v', tasks_walk (rev (seq 0 (length (rev v)))) (map vt_id []) h v (length v) p = Some (h', v') /\
    exact h' (owned v' ++ H) /\ same (owned v' ++ H) h h' /\ v' ≡ₚ others p (rev v ++ [])).
  { apply walk_backward; [|by rewrite firstn_all|by rewrite length_rev, firstn_all].
    destruct (walk_start p v Hnd) as [H1 H2 H3 H4]. split; [|done| |done].
    - rewrite H1. f_equiv. apply Permutation_rev.
    - rewrite app_nil_r in *. rewrite <- Permutation_rev. done. }
  destruct Hr as (h' & v' & E & H1 & H2 & H3). rewrite length_rev in E. exists h', v'. split_and!; [done|done|done|].
  by rewrite H3, app_nil_r, <- Permutation_rev.
Qed.

(** ** The whole state *)

Definition coll_refs (c : ti_collection_t) : list ptr := owners (co_access c) ++ owned (co_vtasks c).
Definition crefs (l : list ti_collection_t) : list ptr := concat (map coll_refs l).

Definition holders_of (us : list ptr) (n t : list ti_auth_t) (v : list ti_vtask_t) (cs : list ti_collection_t) (hd : list ptr) : list ptr :=
  us ++ owners n ++ owners t ++ owned v ++ crefs cs ++ hd.
Definition holders (d : db) : list ptr := holders_of (users d) (access_node d) (access_thingsdb d) (vtasks d) (collections d) (held d).

(** What an access list and the tasks of a collection satisfy. *)
Definition coll_wf (c : ti_collection_t) : Prop := NoDup (owners (co_access c)) /\ NoDup (map vt_id (co_vtasks c)).

Record ok (d : db) : Prop := Ok {
  ok_exact : exact (heap d) (holders d);
  ok_users : NoDup (users d);
  ok_names : forall p q u v, p ∈ users d -> q ∈ users d -> heap d !! p = Some u -> heap d !! q = Some v -> u_name u = u_name v -> p = q;
  ok_ids : forall p q u v, p ∈ users d -> q ∈ users d -> heap d !! p = Some u -> heap d !! q = Some v -> u_id u = u_id v -> p = q;
  ok_next : forall p u, p ∈ users d -> heap d !! p = Some u -> u_id u < next_free_id d;
  ok_node : NoDup (owners (access_node d));
  ok_thingsdb : NoDup (owners (access_thingsdb d));
  ok_tasks : NoDup (map vt_id (vtasks d));
  ok_colls : Forall coll_wf (collections d);
  ok_cids : NoDup (map co_id (collections d))
}.

Section Front.
Context (us : list ptr) (n t : list ti_auth_t) (v : list ti_vtask_t) (cs : list ti_collection_t) (hd : list ptr).
Lemma front_node : holders_of us n t v cs hd ≡ₚ owners n ++ us ++ owners t ++ owned v ++ crefs cs ++ hd.
Proof. unfold holders_of. apply Permutation_app_swap_app. Qed.
Lemma front_thingsdb : holders_of us n t v cs hd ≡ₚ owners t ++ us ++ owners n ++ owned v ++ crefs cs ++ hd.
Proof. unfold holders_of. rewrite (Permutation_app_swap_app (owners n) (owners t)). apply Permutation_app_swap_app. Qed.
Lemma front_tasks : holders_of us n t v cs hd ≡ₚ owned v ++ us ++ owners n ++ owners t ++ crefs cs ++ hd.
Proof.
  unfold holders_of. rewrite (Permutation_app_swap_app (owners t) (owned v)), (Permutation_app_swap_app (owners n) (owned v)).
  apply Permutation_app_swap_app.
Qed.
Lemma front_colls : holders_of us n t v cs hd ≡ₚ crefs cs ++ us ++ owners n ++ owners t ++ owned v ++ hd.
Proof.
  unfold holders_of. rewrite (Permutation_app_swap_app (owned v) (crefs cs)), (Permutation_app_swap_app (owners t) (crefs cs)),
    (Permutation_app_swap_app (owners n) (crefs cs)). apply Permutation_app_swap_app.
Qed.
Lemma front_held : holders_of us n t v cs hd ≡ₚ hd ++ us ++ owners n ++ owners t ++ owned v ++ crefs cs.
Proof. unfold holders_of. rewrite (Permutation_app_comm hd). by rewrite <- !app_assoc. Qed.
End Front.

(** ** Removing a user *)

Definition lost_tasks (p : ptr) (c c' : ti_collection_t) : Prop :=
  co_id c' = co_id c /\ co_access c' = co_access c /\ co_vtasks c' ≡ₚ others p (co_vtasks c).

Lemma others_ids p l l' : NoDup (map vt_id l) -> l' ≡ₚ others p l -> NoDup (map vt_id l').
Proof.
  intros Hnd ->. eapply sublist_NoDup; [exact Hnd|]. change (map vt_id) with (fmap vt_id : list ti_vtask_t -> list Z).
  apply fmap_sublist, others_sub.
Qed.

Lemma lost_tasks_refs p l l' q : Forall2 (lost_tasks p) l l' -> q ∈ crefs l' -> q ∈ crefs l.
Proof.
  intros Hl. induction Hl as [|c c' l l' (H1 & H2 & H3) _ IH]; [done|]. intros Hq. unfold crefs in *. cbn [map concat] in *.
  unfold coll_refs in Hq at 1. rewrite H2, H3 in Hq. unfold coll_refs at 1. rewrite !elem_of_app in *.
  destruct Hq as [[Hq|Hq]|Hq]; [by left; left|left; right; by apply owned_others in Hq as [? _]|right; by apply IH].
Qed.

Lemma coll_tasks_exact p : forall l h H, Forall coll_wf l -> exact h (crefs l ++ H) ->
  exists h' l', coll_tasks h l p = Some (h', l') /\ exact h' (crefs l' ++ H) /\ same (crefs l' ++ H) h h' /\ Forall2 (lost_tasks p) l l'.
Proof.
  induction l as [|c l IH]; intros h H Hwf Hex; [by eexists _, _|]. apply List.Forall_cons_iff in Hwf as [[_ Hc] Hwf]. cbn [coll_tasks].
  assert (Hp : crefs (c :: l) ++ H ≡ₚ owned (co_vtasks c) ++ owners (co_access c) ++ crefs l ++ H).
  { unfold crefs. cbn [map concat]. unfold coll_refs at 1. rewrite <- !app_assoc. apply Permutation_app_swap_app. }
  rewrite Hp in Hex. destruct (tasks_forward p _ h (co_vtasks c) Hc Hex) as (h1 & v & -> & Hex1 & Hs1 & Hv). cbn [mbind option_bind].
  assert (Hp2 : owned v ++ owners (co_access c) ++ crefs l ++ H ≡ₚ crefs l ++ owned v ++ owners (co_access c) ++ H).
  { rewrite (Permutation_app_swap_app (owners (co_access c)) (crefs l)). apply Permutation_app_swap_app. }
  rewrite Hp2 in Hex1. destruct (IH h1 _ Hwf Hex1) as (h2 & l' & -> & Hex2 & Hs2 & Hl). cbn [mbind option_bind].
  assert (Hp3 : crefs (Collection (co_id c) (co_access c) v :: l') ++ H ≡ₚ crefs l' ++ owned v ++ owners (co_access c) ++ H).
  { unfold crefs. cbn [map concat coll_refs co_access co_vtasks]. unfold coll_refs. cbn [co_access co_vtasks]. rewrite <- !app_assoc.
    rewrite (Permutation_app_swap_app (owners (co_access c)) (owned v)). rewrite (Permutation_app_swap_app (owners (co_access c))).
    apply Permutation_app_swap_app. }
  exists h2, (Collection (co_id c) (co_access c) v :: l'). split; [done|]. split; [by rewrite Hp3|]. split; [|by constructor].
  assert (Hsub : forall q, q ∈ crefs l' -> q ∈ crefs l) by (intros q; by eapply lost_tasks_refs).
  apply (same_sub (crefs l' ++ owned v ++ owners (co_access c) ++ H)); [intros q; by rewrite Hp3|].
  eapply same_users_trans; [|exact Hs2]. eapply same_sub; [|exact Hs1]. intros q Hq. rewrite Hp2. rewrite elem_of_app in *. destruct Hq as [Hq|Hq]; [left; by apply Hsub|by right].
Qed.

Definition access_after (p : ptr) (a a' : list ti_auth_t) : Prop :=
  NoDup (owners a') /\ (forall q, mask_of a' q = if q =? p then revoked (mask_of a p) TI_AUTH_MASK_FULL else mask_of a q) /\
  (forall q, q ∈ owners a' -> q ∈ owners a) /\ (revoked (mask_of a p) TI_AUTH_MASK_FULL = 0 -> p ∉ owners a').

Definition lost_access (p : ptr) (c c' : ti_collection_t) : Prop :=
  co_id c' = co_id c /\ co_vtasks c' = co_vtasks c /\ access_after p (co_access c) (co_access c').

Lemma lost_access_refs p l l' q : Forall2 (lost_access p) l l' -> q ∈ crefs l' -> q ∈ crefs l.
Proof.
  intros Hl. induction Hl as [|c c' l l' (H1 & H2 & _ & _ & H3 & _) _ IH]; [done|]. intros Hq. unfold crefs in *. cbn [map concat] in *.
  unfold coll_refs in Hq at 1. rewrite H2 in Hq. unfold coll_refs at 1. rewrite !elem_of_app in *.
  destruct Hq as [[Hq|Hq]|Hq]; [left; left; by apply H3|by left; right|right; by apply IH].
Qed.

Lemma coll_revoke_exact p : forall l h H, Forall coll_wf l -> exact h (crefs l ++ H) ->
  exists h' l', coll_revoke h l p TI_AUTH_MASK_FULL = Some (h', l') /\ exact h' (crefs l' ++ H) /\ same (crefs l' ++ H) h h' /\
    Forall2 (lost_access p) l l'.
Proof.
  induction l as [|c l IH]; intros h H Hwf Hex; [by eexists _, _|]. apply List.Forall_cons_iff in Hwf as [[Hc _] Hwf]. cbn [coll_revoke].
  unfold crefs in Hex. cbn [map concat] in Hex. unfold coll_refs in Hex at 1. rewrite <- !app_assoc in Hex. fold (crefs l) in Hex.
  destruct (revoke_exact h (co_access c) _ p TI_AUTH_MASK_FULL Hex Hc) as (h1 & a & -> & Hex1 & Hs1 & Hafter). cbn [mbind option_bind].
  assert (Hp2 : owners a ++ owned (co_vtasks c) ++ crefs l ++ H ≡ₚ crefs l ++ owners a ++ owned (co_vtasks c) ++ H).
  { rewrite (Permutation_app_swap_app (owned (co_vtasks c)) (crefs l)). apply Permutation_app_swap_app. }
  rewrite Hp2 in Hex1. destruct (IH h1 _ Hwf Hex1) as (h2 & l' & -> & Hex2 & Hs2 & Hl). cbn [mbind option_bind].
  assert (Hp3 : crefs (Collection (co_id c) a (co_vtasks c) :: l') ++ H ≡ₚ crefs l' ++ owners a ++ owned (co_vtasks c) ++ H).
  { unfold crefs. cbn [map concat]. unfold coll_refs at 1. cbn [co_access co_vtasks]. rewrite <- !app_assoc.
    rewrite (Permutation_app_swap_app (owned (co_vtasks c))). apply Permutation_app_swap_app. }
  exists h2, (Collection (co_id c) a (co_vtasks c) :: l'). split; [done|]. split; [by rewrite Hp3|]. split; [|by constructor].
  assert (Hsub : forall q, q ∈ crefs l' -> q ∈ crefs l) by (intros q; by eapply lost_access_refs).
  apply (same_sub (crefs l' ++ owners a ++ owned (co_vtasks c) ++ H)); [intros q; by rewrite Hp3|].
  eapply same_users_trans; [|exact Hs2]. eapply same_sub; [|exact Hs1]. intros q Hq. rewrite Hp2. rewrite elem_of_app in *. destruct Hq as [Hq|Hq]; [left; by apply Hsub|by right].
Qed.

Lemma index_of_some l p : p ∈ l -> exists i, index_of l p = Some i /\ l !! i = Some p.
Proof.
  induction l as [|q l IH]; intros Hp; [by apply elem_of_nil in Hp|]. cbn [index_of]. destruct (Z.eqb_spec q p) as [->|Hne]; [by exists O|].
  apply elem_of_cons in Hp as [->|Hp]; [done|]. destruct (IH Hp) as (i & -> & Hi). by exists (S i).
Qed.

(** The collections after a user was removed. *)
Definition coll_after (p : ptr) (c c' : ti_collection_t) : Prop :=
  co_id c' = co_id c /\ co_vtasks c' ≡ₚ others p (co_vtasks c) /\ access_after p (co_access c) (co_access c').

Record deleted (p : ptr) (d d' : db) : Prop := Deleted {
  de_users : users d ≡ₚ p :: users d';
  de_node : access_after p (access_node d) (access_node d');
  de_thingsdb : access_after p (access_thingsdb d) (access_thingsdb d');
  de_tasks : vtasks d' ≡ₚ others p (vtasks d);
  de_colls : Forall2 (coll_after p) (collections d) (collections d');
  de_next : next_free_id d' = next_free_id d;
  de_held : held d' = held d;
  de_same : same (holders d') (heap d) (heap d')
}.

Lemma colls_compose p l l1 l2 : Forall2 (lost_tasks p) l l1 -> Forall2 (lost_access p) l1 l2 -> Forall2 (coll_after p) l l2.
Proof.
  intros H. revert l2. induction H as [|c c1 l l1 (E1 & E2 & E3) _ IH]; intros l2 H2; [by inversion H2|].
  inversion H2 as [|? c2 ? l2' (F1 & F2 & F3) H3]; subst. constructor; [|by apply IH]. rewrite E2 in F3. split_and!; [congruence|by rewrite F2|done].
Qed.

Lemma coll_after_wf p l l' : Forall coll_wf l -> Forall2 (coll_after p) l l' -> Forall coll_wf l'.
Proof.
  intros Hwf H. induction H as [|c c' l l' (E1 & E2 & Hnd & _) _ IH]; [done|]. apply List.Forall_cons_iff in Hwf as [[_ Hc] Hwf].
  constructor; [|by apply IH]. split; [done|]. by eapply others_ids.
Qed.

Lemma forall2_ids (R : ti_collection_t -> ti_collection_t -> Prop) l l' : (forall c c', R c c' -> co_id c' = co_id c) -> Forall2 R l l' -> map co_id l' = map co_id l.
Proof. intros HR. induction 1 as [|c c' l l' Hc _ IH]; [done|]. cbn [map]. by rewrite IH, (HR c c'). Qed.

Lemma lost_tasks_wf p l l' : Forall coll_wf l -> Forall2 (lost_tasks p) l l' -> Forall coll_wf l'.
Proof.
  intros Hwf H. induction H as [|c c' l l' (E1 & E2 & E3) _ IH]; [done|]. apply List.Forall_cons_iff in Hwf as [[Ha Hc] Hwf].
  constructor; [|by apply IH]. split; [by rewrite E2|]. by eapply others_ids.
Qed.

(** Removing a user ends well: no freed user is read, and the counts stay exact. *)
Lemma del_user_exact d p : ok d -> p ∈ users d -> exists d', ti_users_del_user d p = Some d' /\ exact (heap d') (holders d') /\ deleted p d d'.
Proof.
  intros Hok Hp. unfold ti_users_del_user. pose proof (ok_exact d Hok) as Hex. unfold holders in Hex.
  rewrite front_node in Hex. destruct (revoke_exact _ _ _ p TI_AUTH_MASK_FULL Hex (ok_node d Hok)) as (h1 & n & -> & Hex1 & Hs1 & Hn).
  cbn [mbind option_bind set_access heap access_thingsdb]. rewrite <- front_node, front_thingsdb in Hex1.
  destruct (revoke_exact _ _ _ p TI_AUTH_MASK_FULL Hex1 (ok_thingsdb d Hok)) as (h2 & t & -> & Hex2 & Hs2 & Ht).
  cbn [mbind option_bind set_access]. unfold ti_tasks_del_user. cbn [vtasks heap collections users access_node access_thingsdb next_free_id held].
  rewrite <- front_thingsdb, front_tasks in Hex2.
  destruct (tasks_backward p _ h2 (vtasks d) (ok_tasks d Hok) Hex2) as (h3 & v & -> & Hex3 & Hs3 & Hv). cbn [mbind option_bind].
  rewrite <- front_tasks, front_colls in Hex3.
  destruct (coll_tasks_exact p _ h3 _ (ok_colls d Hok) Hex3) as (h4 & l1 & -> & Hex4 & Hs4 & Hl1).
  cbn [mbind option_bind vtasks heap collections users access_node access_thingsdb next_free_id held].
  destruct (coll_revoke_exact p _ h4 _ (lost_tasks_wf p _ _ (ok_colls d Hok) Hl1) Hex4) as (h5 & l2 & -> & Hex5 & Hs5 & Hl2).
  cbn [mbind option_bind vtasks heap collections users access_node access_thingsdb next_free_id held].
  destruct (index_of_some (users d) p Hp) as (i & -> & Hi). pose proof (swap_remove_perm _ i _ Hi) as Hus.
  rewrite <- front_colls in Hex5. assert (Hp6 : holders_of (users d) n t v l2 (held d) ≡ₚ p :: holders_of (swap_remove (users d) i) n t v l2 (held d)).
  { unfold holders_of. by rewrite Hus at 1. }
  rewrite Hp6 in Hex5. destruct (drop_exact h5 _ p Hex5) as (h6 & -> & Hex6 & Hs6). cbn [mbind option_bind with_users with_heap].
  eexists. split; [reflexivity|]. split; [exact Hex6|]. pose proof (colls_compose p _ _ _ Hl1 Hl2) as Hl.
  split; try done. unfold holders. cbn [users access_node access_thingsdb vtasks collections held heap with_users with_heap].
  assert (Husin : forall q, q ∈ swap_remove (users d) i -> q ∈ users d) by (intros q Hq; rewrite Hus; by right).
  assert (Hcin : forall q, q ∈ crefs l2 -> q ∈ crefs l1) by (intros q; by eapply lost_access_refs).
  assert (Hcin2 : forall q, q ∈ crefs l1 -> q ∈ crefs (collections d)) by (intros q; by eapply lost_tasks_refs).
  assert (Hvin : forall q, q ∈ owned v -> q ∈ owned (vtasks d)) by (intros q Hq; rewrite Hv in Hq; by apply owned_others in Hq as [? _]).
  destruct Ht as (_ & _ & Htin & _).
  intros q Hq. rewrite (Hs6 q Hq). unfold holders_of in Hq. rewrite !elem_of_app in Hq.
  rewrite (Hs5 q) by (rewrite !elem_of_app; naive_solver). rewrite (Hs4 q) by (rewrite !elem_of_app; naive_solver).
  rewrite (Hs3 q) by (rewrite !elem_of_app; naive_solver). rewrite (Hs2 q) by (rewrite !elem_of_app; naive_solver).
  apply Hs1. rewrite !elem_of_app; naive_solver.
Qed.
