(* ===== verification/UsersSteps.v ===== *)
(** * Users: every call of the language

    Whatever is called, nothing that was freed is used, the counts of references stay
    exact and names and ids stay unique. *)
From Stdlib Require Import ZArith Lia.
From stdpp Require Import base list option numbers gmap.
From S2P Require Import Prelude Utf8 Opr Strx Spec Keywords Req Cryptx Users UsersProof.

(** ** Calls *)

Inductive ucall :=
  | CGrant (mem : bool) (q : ptr) (s : ti_scope) (name : list Z) (mask : Z)
  | CRevoke (q : ptr) (s : ti_scope) (name : list Z) (mask : Z)
  | CNewUser (mem : bool) (q p : ptr) (name : list Z) (now : Z)
  | CDelUser (mem : bool) (q : ptr) (name : list Z)
  | CRename (q : ptr) (name new : list Z)
  | CSetPassword (mem : bool) (rands : list Z) (q : ptr) (name : list Z) (pass : option (list Z))
  | CNewToken (mem : bool) (q : ptr) (name : list Z) (expire : option Z) (description key : list Z) (now : Z)
  | CDelToken (q : ptr) (key : list Z)
  | CDelExpired (q : ptr) (now : Z)
  | CLoad (mem : bool) (p : ptr) (id : Z) (name : list Z) (encrypted : option (list Z)) (created_at : Z)    (* a change of another node *)
  | CHold (p : ptr)                                                (* a stream or a query takes a reference *)
  | CRelease (p : ptr)
  | CTask (q : ptr) (id : Z).                                      (* a task with the user of the query as owner *)

Definition with_held (d : db) (h : heap_t) (l : list ptr) : db :=
  Db h (users d) (access_node d) (access_thingsdb d) (vtasks d) (collections d) (next_free_id d) l.

Fixpoint remove_one (p : ptr) (l : list ptr) : list ptr := match l with [] => [] | q :: l => if q =? p then l else q :: remove_one p l end.

Definition run_call (c : ucall) (d : db) : fn_result :=
  match c with
  | CGrant mem q s name mask => do__f_grant mem q s name mask no_effect d
  | CRevoke q s name mask => do__f_revoke q s name mask no_effect d
  | CNewUser mem q p name now => do__f_new_user mem q p name now d
  | CDelUser mem q name => do__f_del_user mem q name d
  | CRename q name new => do__f_rename_user q name new no_effect d
  | CSetPassword mem rands q name pass => do__f_set_password mem rands q name pass no_effect d
  | CNewToken mem q name expire description key now => do__f_new_token mem q name expire description key now no_effect d
  | CDelToken q key => do__f_del_token q key d
  | CDelExpired q now => do__f_del_expired q now d
  | CLoad mem p id name enc created => '(r, d) ← ti_users_load_user mem d p id name enc created; Some (match r with inl e => inl e | inr _ => inr tt end, d)
  | CHold p => h ← ti_grab (heap d) p; Some (inr tt, with_held d h (p :: held d))
  | CRelease p => h ← ti_user_drop (heap d) p; Some (inr tt, with_held d h (remove_one p (held d)))
  | CTask q id => h ← ti_grab (heap d) q;
      Some (inr tt, Db h (users d) (access_node d) (access_thingsdb d) (vtasks d ++ [Vtask id q]) (collections d) (next_free_id d) (held d))
  end.

(** What the callers ensure: the user of a query is held, new memory is new, and no
    count or id overflows. *)
Definition call_ok (d : db) (c : ucall) : Prop :=
  Z.of_nat (length (holders d)) + 1 < 2 ^ 32 /\ 0 <= next_free_id d < 2 ^ 64 - 1 /\
  match c with
  | CNewUser _ _ p _ _ => heap d !! p = None
  | CLoad _ p id _ _ _ => heap d !! p = None /\ 0 <= id < 2 ^ 64 - 1
  | CSetPassword _ rands _ _ _ => (8 <= length rands)%nat
  | CDelToken q _ => q ∈ held d
  | CHold p => p ∈ users d
  | CRelease p => p ∈ held d
  | CTask q id => q ∈ held d /\ id ∉ map vt_id (vtasks d)
  | _ => True
  end.

(** ** Looking up users *)

Lemma users_live d p : ok d -> p ∈ users d -> exists u, heap d !! p = Some u.
Proof. intros Hok Hp. apply (ex_live _ _ (ok_exact d Hok)). unfold holders, holders_of. apply elem_of_app. by left. Qed.

Lemma users_get d f : ok d -> exists o, ti_users_get d f = Some o /\
  match o with
  | Some p => p ∈ users d /\ exists u, heap d !! p = Some u /\ f u = true
  | None => forall p u, p ∈ users d -> heap d !! p = Some u -> f u = false
  end.
Proof.
  intros Hok. unfold ti_users_get. assert (Hl : forall p, p ∈ users d -> exists u, heap d !! p = Some u) by (intros p; by apply users_live).
  induction (users d) as [|p l IH].
  { exists None. split; [done|]. intros p u Hp. by apply elem_of_nil in Hp. }
  destruct (Hl p) as [u Hu]; [by left|]. rewrite Hu. cbn [mbind option_bind]. destruct (f u) eqn:Hf.
  { exists (Some p). split; [done|]. split; [by left|]. by exists u. }
  destruct IH as (o & -> & Ho); [intros q Hq; apply Hl; by right|]. exists o. split; [done|]. destruct o as [q|].
  - destruct Ho as (Hq & Ho). split; [by right|done].
  - intros q v Hq Hv. apply elem_of_cons in Hq as [->|Hq]; [|by eapply Ho]. rewrite Hu in Hv. by injection Hv as <-.
Qed.

(** ** Parts of the invariant *)

(** The users that remain keep their names and ids. *)
Lemma ok_intro d d' : ok d -> exact (heap d') (holders d') -> NoDup (users d') ->
  (forall p, p ∈ users d' -> p ∈ users d) -> same (users d') (heap d) (heap d') -> next_free_id d' = next_free_id d ->
  NoDup (owners (access_node d')) -> NoDup (owners (access_thingsdb d')) -> NoDup (map vt_id (vtasks d')) ->
  Forall coll_wf (collections d') -> NoDup (map co_id (collections d')) -> ok d'.
Proof.
  intros Hok Hex Hnd Hsub Hs Hn H1 H2 H3 H4 H5.
  assert (Hback : forall p u, p ∈ users d' -> heap d' !! p = Some u -> exists v, p ∈ users d /\ heap d !! p = Some v /\ u_name v = u_name u /\ u_id v = u_id u).
  { intros p u Hp Hu. specialize (Hs p Hp). rewrite Hu in Hs. destruct (heap d !! p) as [v|] eqn:Hv; [|done].
    exists v. cbn in Hs. injection Hs as E1 _ E2 _ _ _. split_and!; [by apply Hsub|done|by symmetry|by symmetry]. }
  split; try done.
  - intros p q u v Hp Hq Hu Hv He. destruct (Hback p u Hp Hu) as (u' & Hp' & Hu' & En & _), (Hback q v Hq Hv) as (v' & Hq' & Hv' & Fn & _).
    eapply (ok_names d Hok p q u' v'); [done|done|done|done|congruence].
  - intros p q u v Hp Hq Hu Hv He. destruct (Hback p u Hp Hu) as (u' & Hp' & Hu' & _ & En), (Hback q v Hq Hv) as (v' & Hq' & Hv' & _ & Fn).
    eapply (ok_ids d Hok p q u' v'); [done|done|done|done|congruence].
  - intros p u Hp Hu. destruct (Hback p u Hp Hu) as (u' & Hp' & Hu' & _ & En). rewrite Hn, <- En. by apply (ok_next d Hok p).
Qed.

(** A user whose name and id are kept, or whose new name is new. *)
Lemma ok_update d p u u' : ok d -> p ∈ users d -> heap d !! p = Some u -> u_ref u' = u_ref u -> u_id u' = u_id u ->
  u_name u' = u_name u \/ (forall q v, q ∈ users d -> heap d !! q = Some v -> u_name v <> u_name u') ->
  ok (with_heap d (<[p := u']> (heap d))).
Proof.
  intros Hok Hp Hu Hr Hi Hname. assert (Hlook : forall q v, <[p := u']> (heap d) !! q = Some v -> q = p /\ v = u' \/ q <> p /\ heap d !! q = Some v).
  { intros q v Hq. destruct (decide (q = p)) as [->|Hne]; [rewrite lookup_insert_eq in Hq; left; split; [done|congruence]|].
    rewrite lookup_insert_ne in Hq by done. by right. }
  destruct Hok as [Hex Hnd Hnames Hids Hnext H1 H2 H3 H4 H5]. split; cbn [heap users access_node access_thingsdb vtasks collections next_free_id held with_heap]; try done.
  - unfold holders. cbn. by eapply update_exact.
  - intros q r a b Hq Hr2 Ha Hb He. apply Hlook in Ha as [[-> ->]|[Hq2 Ha]], Hb as [[-> ->]|[Hr3 Hb]]; [done| | |by eapply Hnames].
    + destruct Hname as [E|Hname]; [eapply Hnames; [done|done|exact Hu|exact Hb|congruence]|]. exfalso. by apply (Hname r b).
    + destruct Hname as [E|Hname]; [eapply Hnames; [done|done|exact Ha|exact Hu|congruence]|]. exfalso. by apply (Hname q a).
  - intros q r a b Hq Hr2 Ha Hb He. apply Hlook in Ha as [[-> ->]|[Hq2 Ha]], Hb as [[-> ->]|[Hr3 Hb]]; [done| | |by eapply Hids].
    + eapply Hids; [done|done|exact Hu|exact Hb|congruence].
    + eapply Hids; [done|done|exact Ha|exact Hu|congruence].
  - intros q a Hq Ha. apply Hlook in Ha as [[-> ->]|[Hq2 Ha]]; [rewrite Hi|]; by eapply Hnext.
Qed.

Lemma ok_deleted d d' p : ok d -> p ∈ users d -> exact (heap d') (holders d') -> deleted p d d' -> ok d'.
Proof.
  intros Hok Hp Hex [Hu (Hn & _) (Ht & _) Hv Hc Hnext Hheld Hs]. pose proof (ok_users d Hok) as Hnd. rewrite Hu in Hnd.
  eapply ok_intro; [exact Hok|done|by apply NoDup_cons_1_2 in Hnd|intros q Hq; rewrite Hu; by right| |done|done|done| | |].
  - eapply same_sub; [|exact Hs]. intros q Hq. unfold holders, holders_of. apply elem_of_app. by left.
  - eapply others_ids; [apply (ok_tasks d Hok)|exact Hv].
  - eapply coll_after_wf; [apply (ok_colls d Hok)|exact Hc].
  - rewrite (forall2_ids (coll_after p) (collections d)); [apply (ok_cids d Hok)|by intros c c' [? _]|done].
Qed.

(** ** One access list of the state *)

Lemma crefs_split l id c : List.find (fun c => co_id c =? id) l = Some c ->
  exists R, crefs l ≡ₚ owners (co_access c) ++ R /\ forall a, crefs (coll_access l id a) ≡ₚ owners a ++ R.
Proof.
  induction l as [|x l IH]; [done|]. cbn [List.find coll_access]. unfold crefs in *. cbn [map concat]. destruct (co_id x =? id).
  - intros [= <-]. exists (owned (co_vtasks x) ++ concat (map coll_refs l)). unfold coll_refs at 1. split; [by rewrite <- app_assoc|].
    intros a. cbn [map concat]. unfold coll_refs at 1. cbn [co_access co_vtasks]. by rewrite <- app_assoc.
  - intros Hf. destruct (IH Hf) as (R & H1 & H2). exists (coll_refs x ++ R). split; [rewrite H1; apply Permutation_app_swap_app|].
    intros a. cbn [map concat]. rewrite H2. apply Permutation_app_swap_app.
Qed.

Lemma access_split d s a : ti_val_get_access d s = Some a ->
  exists R, holders d ≡ₚ owners a ++ R /\ forall h' a', holders (set_access d s h' a') ≡ₚ owners a' ++ R.
Proof.
  unfold holders. destruct s as [| |id]; cbn [ti_val_get_access set_access users access_node access_thingsdb vtasks collections held].
  - intros [= <-]. eexists. split; [apply front_thingsdb|intros; apply front_thingsdb].
  - intros [= <-]. eexists. split; [apply front_node|intros; apply front_node].
  - destruct (List.find _ _) as [c|] eqn:Hf; [|done]. cbn [mbind option_bind]. intros [= <-].
    destruct (crefs_split _ _ _ Hf) as (R & H1 & H2). eexists. split; [rewrite front_colls, H1, <- app_assoc; reflexivity|].
    intros h' a'. by rewrite front_colls, H2, <- app_assoc.
Qed.

Lemma coll_access_wf l id a : Forall coll_wf l -> NoDup (owners a) -> Forall coll_wf (coll_access l id a) /\ map co_id (coll_access l id a) = map co_id l.
Proof.
  intros Hwf Ha. induction l as [|c l IH]; [done|]. apply List.Forall_cons_iff in Hwf as [Hc Hwf]. destruct (IH Hwf) as [H1 H2]. cbn [coll_access].
  destruct (Z.eqb_spec (co_id c) id) as [<-|Hne]; cbn [map]; [|by rewrite H2; split; [by constructor|]].
  split; [|done]. constructor; [|done]. split; [done|]. apply Hc.
Qed.

Lemma get_access_wf d s a : ok d -> ti_val_get_access d s = Some a -> NoDup (owners a).
Proof.
  intros Hok. destruct s as [| |id]; cbn [ti_val_get_access]; [intros [= <-]; apply (ok_thingsdb d Hok)|intros [= <-]; apply (ok_node d Hok)|].
  destruct (List.find _ _) as [c|] eqn:Hf; [|done]. cbn [mbind option_bind]. intros [= <-]. apply find_some in Hf as [Hin _].
  pose proof (ok_colls d Hok) as Hc. rewrite List.Forall_forall in Hc. by apply (Hc c Hin).
Qed.

Lemma set_access_ok d s a h' a' : ok d -> ti_val_get_access d s = Some a -> exact h' (holders (set_access d s h' a')) ->
  NoDup (owners a') -> same (users d) (heap d) h' -> ok (set_access d s h' a').
Proof.
  intros Hok Ha Hex Hnd Hs. destruct (coll_access_wf (collections d) (match s with TI_SCOPE_COLLECTION id => id | _ => 0 end) a' (ok_colls d Hok) Hnd) as [Hc1 Hc2].
  eapply ok_intro; [exact Hok|by destruct s|..]; destruct s; cbn in *; rewrite ?Hc2; try done; by destruct Hok.
Qed.

(** ** Granting and revoking *)

Lemma grant_call d s a p mask : ok d -> ti_val_get_access d s = Some a -> p ∈ users d -> Z.of_nat (length (holders d)) + 1 < 2 ^ 32 ->
  exists h' a', ti_access_grant true (heap d) a p mask = Some (true, h', a') /\ ok (set_access d s h' a') /\
    (forall q, mask_of a' q = if q =? p then granted (mask_of a p) mask else mask_of a q).
Proof.
  intros Hok Ha Hp Hlen. destruct (access_split d s a Ha) as (R & H1 & H2). pose proof (ok_exact d Hok) as Hex. rewrite H1 in Hex, Hlen.
  assert (Hin : p ∈ owners a ++ R) by (rewrite <- H1; unfold holders, holders_of; apply elem_of_app; by left).
  destruct (grant_exact (heap d) a R p mask Hex Hin Hlen (get_access_wf d s a Hok Ha)) as (h' & a' & E & Hex' & Hs & Hnd & Hm & _).
  exists h', a'. split; [done|]. split; [|done]. eapply set_access_ok; [done|done|by rewrite H2|done|]. eapply same_sub; [|exact Hs].
  intros q Hq. rewrite <- H1. unfold holders, holders_of. apply elem_of_app. by left.
Qed.

Lemma revoke_call d s a p mask : ok d -> ti_val_get_access d s = Some a ->
  exists h' a', ti_access_revoke (heap d) a p mask = Some (h', a') /\ ok (set_access d s h' a') /\
    (forall q, mask_of a' q = if q =? p then revoked (mask_of a p) mask else mask_of a q).
Proof.
  intros Hok Ha. destruct (access_split d s a Ha) as (R & H1 & H2). pose proof (ok_exact d Hok) as Hex. rewrite H1 in Hex.
  destruct (revoke_exact (heap d) a R p mask Hex (get_access_wf d s a Hok Ha)) as (h' & a' & E & Hex' & Hs & Hnd & Hm & _).
  exists h', a'. split; [done|]. split; [|done]. eapply set_access_ok; [done|done|by rewrite H2|done|]. eapply same_sub; [|exact Hs].
  intros q Hq. rewrite <- (H2 h' a'). unfold holders, holders_of. apply elem_of_app. left. by destruct s.
Qed.

(** ** The other calls *)

Definition runs (r : fn_result) : Prop := exists x d', r = Some (x, d') /\ ok d'.

Lemma runs_same d e : ok d -> runs (Some (inl e, d)).
Proof. intros Hok. by eexists _, _. Qed.
#[local] Hint Resolve runs_same : core.

Lemma by_user_runs d name f : ok d -> (forall p u, p ∈ users d -> heap d !! p = Some u -> u_name u = name -> runs (f p)) -> runs (by_user d name f).
Proof.
  intros Hok Hf. unfold by_user, ti_users_get_by_namestrn.
  destruct (users_get d (fun u => bool_decide (u_name u = name)) Hok) as ([p|] & -> & Ho); cbn [mbind option_bind]; [|by apply runs_same].
  destruct Ho as (Hp & u & Hu & He). apply bool_decide_eq_true in He. by eapply Hf.
Qed.

Lemma name_check d name : ok d -> exists e, ti_user_name_check d name = Some e /\
  (e = None -> forall q v, q ∈ users d -> heap d !! q = Some v -> u_name v <> name).
Proof.
  intros Hok. unfold ti_user_name_check. destruct (_ || _); [by eexists|]. destruct (negb _); [by eexists|]. unfold ti_users_get_by_namestrn.
  destruct (users_get d (fun u => bool_decide (u_name u = name)) Hok) as (o & -> & Ho). cbn [mbind option_bind]. eexists. split; [done|].
  destruct o; [done|]. intros _ q v Hq Hv He. specialize (Ho q v Hq Hv). cbn in Ho. by apply bool_decide_eq_false in Ho.
Qed.

Lemma ok_with_next d n : ok d -> next_free_id d <= n -> ok (with_next d n).
Proof. intros [H1 H2 H3 H4 H5 H6 H7 H8 H9 H10] Hn. split; try done. intros p u Hp Hu. specialize (H5 p u Hp Hu). cbn. lia. Qed.

Lemma ok_add_user d p u : ok d -> heap d !! p = None -> u_ref u = 1 -> Z.of_nat (length (holders d)) + 1 < 2 ^ 32 ->
  (forall q v, q ∈ users d -> heap d !! q = Some v -> u_name v <> u_name u) -> (forall q v, q ∈ users d -> heap d !! q = Some v -> u_id v <> u_id u) ->
  u_id u < next_free_id d -> ok (with_users (with_heap d (<[p := u]> (heap d))) (users d ++ [p])).
Proof.
  intros Hok Hp Hr Hlen Hname Hid Hnext. assert (Hnot : p ∉ users d) by (intros Hin; destruct (users_live d p Hok Hin); congruence).
  assert (Hlook : forall q v, q ∈ users d ++ [p] -> <[p := u]> (heap d) !! q = Some v -> q = p /\ v = u \/ q <> p /\ q ∈ users d /\ heap d !! q = Some v).
  { intros q v Hq Hv. destruct (decide (q = p)) as [->|Hne]; [rewrite lookup_insert_eq in Hv; left; split; [done|congruence]|].
    rewrite lookup_insert_ne in Hv by done. apply elem_of_app in Hq as [Hq| ->%list_elem_of_singleton]; [by right|done]. }
  destruct Hok as [Hex Hnd Hnames Hids Hn H1 H2 H3 H4 H5]. split; cbn [heap users access_node access_thingsdb vtasks collections next_free_id held with_heap with_users]; try done.
  - unfold holders. cbn. assert (Hperm : holders_of (users d ++ [p]) (access_node d) (access_thingsdb d) (vtasks d) (collections d) (held d) ≡ₚ p :: holders d).
    { unfold holders, holders_of. rewrite <- app_assoc. cbn [app]. by rewrite <- Permutation_middle. }
    rewrite Hperm. by apply new_exact.
  - apply list.NoDup_app. split_and!; [done| |apply NoDup_singleton]. intros q Hq ->%list_elem_of_singleton. done.
  - intros q r a b Hq Hr2 Ha Hb He. destruct (Hlook q a Hq Ha) as [[-> ->]|(Hq2 & Hq3 & Ha')], (Hlook r b Hr2 Hb) as [[-> ->]|(Hr3 & Hr4 & Hb')]; [done| | |by eapply Hnames];
      exfalso; [by apply (Hname r b)|by apply (Hname q a)].
  - intros q r a b Hq Hr2 Ha Hb He. destruct (Hlook q a Hq Ha) as [[-> ->]|(Hq2 & Hq3 & Ha')], (Hlook r b Hr2 Hb) as [[-> ->]|(Hr3 & Hr4 & Hb')]; [done| | |by eapply Hids];
      exfalso; [by apply (Hid r b)|by apply (Hid q a)].
  - intros q a Hq Ha. apply (Hlook q a Hq) in Ha as [[-> ->]|(Hq2 & Hq3 & Ha)]; [done|by eapply Hn].
Qed.

Lemma allowed_cases d s q mask : (exists e, allowed d s q mask = Some e) \/
  allowed d s q mask = None /\ exists a, ti_val_get_access d s = Some a /\ ti_access_check a q mask = true.
Proof.
  unfold allowed. destruct (ti_val_get_access d s) as [a|]; [|left; by eexists]. destruct (ti_access_check a q mask) eqn:E; [right|left; by eexists].
  split; [done|]. by exists a.
Qed.

Lemma set_same d s a : ti_val_get_access d s = Some a -> ok d -> ok (set_access d s (heap d) a).
Proof.
  intros Ha Hok. destruct (access_split d s a Ha) as (R & H1 & H2). eapply set_access_ok; [done|done|rewrite H2, <- H1; apply (ok_exact d Hok)|by eapply get_access_wf|done].
Qed.

Lemma grant_runs d mem q s name mask : ok d -> Z.of_nat (length (holders d)) + 1 < 2 ^ 32 -> runs (do__f_grant mem q s name mask no_effect d).
Proof.
  intros Hok Hlen. unfold do__f_grant, no_effect. destruct (allowed_cases d s q TI_AUTH_GRANT) as [[e ->]|(-> & a & Ha & _)]; [by apply runs_same|].
  apply by_user_runs; [done|]. intros p u Hp Hu _. cbn [mbind option_bind]. rewrite Ha. cbn [mbind option_bind].
  destruct (grant_call d s a p (grant_mask mask) Hok Ha Hp Hlen) as (h' & a' & E & Hok' & _). destruct mem; [rewrite E; cbn [mbind option_bind]; by eexists _, _|].
  unfold ti_access_grant in *. destruct (auth_find a p) as [[i m]|]; cbn [mbind option_bind].
  - injection E as <- <-. by eexists _, _.
  - eexists _, _. split; [done|]. by apply set_same.
Qed.

Lemma revoke_runs d q s name mask : ok d -> runs (do__f_revoke q s name mask no_effect d).
Proof.
  intros Hok. unfold do__f_revoke, no_effect. destruct (allowed_cases d s q TI_AUTH_GRANT) as [[e ->]|(-> & a & Ha & _)]; [by apply runs_same|].
  apply by_user_runs; [done|]. intros p u Hp Hu _. cbn [mbind option_bind]. destruct (_ && _); [by apply runs_same|]. rewrite Ha. cbn [mbind option_bind].
  destruct (revoke_call d s a p (revoke_mask mask) Hok Ha) as (h' & a' & -> & Hok' & _). cbn [mbind option_bind]. by eexists _, _.
Qed.

Lemma new_user_runs d mem q p name now : ok d -> Z.of_nat (length (holders d)) + 1 < 2 ^ 32 -> 0 <= next_free_id d < 2 ^ 64 - 1 -> heap d !! p = None ->
  runs (do__f_new_user mem q p name now d).
Proof.
  intros Hok Hlen Hn Hp. unfold do__f_new_user. destruct (allowed_cases d TI_SCOPE_THINGSDB q TI_AUTH_GRANT) as [[e ->]|(-> & _)]; [by apply runs_same|].
  unfold ti_users_new_user. destruct (name_check d name Hok) as (e & -> & He). cbn [mbind option_bind]. destruct e as [e|]; cbn [mbind option_bind]; [by apply runs_same|].
  assert (Hu64 : u64 (next_free_id d + 1) = next_free_id d + 1) by (unfold u64; apply Z.mod_small; lia). rewrite Hu64.
  assert (Hok1 : ok (with_next d (next_free_id d + 1))) by (apply ok_with_next; [done|lia]).
  destruct mem; cbn [negb mbind option_bind user_set_pass]; [|by apply runs_same]. eexists _, _. split; [done|]. apply ok_add_user; try done.
  - cbn. by apply He.
  - intros r v Hr Hv. cbn. pose proof (ok_next d Hok r v Hr Hv). lia.
  - cbn. lia.
Qed.

Lemma load_runs d mem p id name enc created : ok d -> Z.of_nat (length (holders d)) + 1 < 2 ^ 32 -> heap d !! p = None -> 0 <= id < 2 ^ 64 - 1 ->
  runs (run_call (CLoad mem p id name enc created) d).
Proof.
  intros Hok Hlen Hp Hid. cbn [run_call]. unfold ti_users_load_user. destruct (name_check d name Hok) as (e & -> & He). cbn [mbind option_bind].
  destruct e as [e|]; cbn [mbind option_bind]; [by apply runs_same|]. unfold ti_users_get_by_id.
  destruct (users_get d (fun u => u_id u =? id) Hok) as (o & -> & Ho). cbn [mbind option_bind]. destruct o as [r|]; cbn [mbind option_bind]; [by apply runs_same|].
  assert (Hu64 : u64 (id + 1) = id + 1) by (unfold u64; apply Z.mod_small; lia). rewrite Hu64.
  set (d1 := if next_free_id d <=? id then with_next d (id + 1) else d).
  assert (Hok1 : ok d1 /\ heap d1 = heap d /\ users d1 = users d /\ holders d1 = holders d /\ id < next_free_id d1).
  { unfold d1. destruct (Z.leb_spec (next_free_id d) id); [|by split_and!]. split_and!; try done; [apply ok_with_next; [done|lia]|cbn; lia]. }
  destruct Hok1 as (Hok1 & Eh & Eu & Ehd & Hlt). destruct mem; cbn [negb mbind option_bind]; [|by apply runs_same].
  eexists _, _. split; [done|]. rewrite <- Ehd in Hlen. rewrite <- Eh in Hp. apply ok_add_user; try done.
  - rewrite Eh, Eu. cbn. by apply He.
  - intros r v. rewrite Eh, Eu. intros Hr Hv. cbn. specialize (Ho r v Hr Hv). by apply Z.eqb_neq in Ho.
Qed.

Lemma del_user_runs d mem q name : ok d -> runs (do__f_del_user mem q name d).
Proof.
  intros Hok. unfold do__f_del_user. destruct (allowed_cases d TI_SCOPE_THINGSDB q TI_AUTH_GRANT) as [[e ->]|(-> & _)]; [by apply runs_same|].
  apply by_user_runs; [done|]. intros p u Hp Hu _. destruct (q =? p); [by apply runs_same|]. destruct mem; cbn [negb]; [|by apply runs_same].
  destruct (del_user_exact d p Hok Hp) as (d' & -> & Hex & Hd). cbn [mbind option_bind]. eexists _, _. split; [done|]. by eapply ok_deleted.
Qed.

Lemma rename_runs d q name new : ok d -> runs (do__f_rename_user q name new no_effect d).
Proof.
  intros Hok. unfold do__f_rename_user, no_effect. destruct (allowed_cases d TI_SCOPE_THINGSDB q TI_AUTH_GRANT) as [[e ->]|(-> & _)]; [by apply runs_same|].
  apply by_user_runs; [done|]. intros p u Hp Hu _. cbn [mbind option_bind]. unfold ti_user_rename.
  destruct (name_check d new Hok) as (e & -> & He). cbn [mbind option_bind]. destruct e as [e|]; cbn [mbind option_bind]; [by apply runs_same|].
  rewrite Hu. cbn [mbind option_bind]. eexists _, _. split; [done|]. eapply ok_update; try done. right. by apply He.
Qed.

Lemma until0_nonzero l : Forall (fun c => c <> 0) (until0 l).
Proof.
  induction l as [|c l IH]; cbn [until0]; [constructor|]. destruct (Z.eqb_spec c 0); [constructor|]. by constructor.
Qed.

Lemma salt_made rands : (8 <= length rands)%nat -> exists salt, cryptx_gen_salt rands = Some salt /\ length salt = CRYPTX_SALT_SZ /\
  Forall (fun c => c ∈ VCHARS \/ c ∈ [36; 49]) salt.
Proof.
  intros Hl. unfold cryptx_gen_salt. assert (Hm : forall l, exists k, mapM (fun r => VCHARS !! Z.to_nat (r mod 64)) l = Some k /\ length k = length l /\ Forall (fun c => c ∈ VCHARS) k).
  { induction l as [|r l (k & Hk & Hlen & Hv)]; [by exists []|]. destruct (table_lookup VCHARS 64 r eq_refl ltac:(lia)) as [v Hv2].
    exists (v :: k). cbn [mapM]. rewrite Hv2. cbn [mbind option_bind]. rewrite Hk. split; [done|]. split; [cbn; lia|].
    constructor; [by eapply list_elem_of_lookup_2|done]. }
  destruct (Hm (take (CRYPTX_SALT_SZ - 2) rands)) as (k & -> & Hlen & Hv). cbn [mbind option_bind].
  rewrite length_take_le in Hlen by done. rewrite Hlen, Nat.eqb_refl. eexists. split; [done|]. split; [rewrite length_app, Hlen; reflexivity|].
  apply List.Forall_app. split; [eapply List.Forall_impl; [|exact Hv]; by left|]. change (str _) with [36; 49].
  apply List.Forall_forall. intros c Hc. right. by apply list_elem_of_In.
Qed.

(** A password that passed the check is encrypted. *)
Lemma set_pass_made rands u pass : (8 <= length rands)%nat -> Forall (fun c => c <> 0) pass -> ti_user_pass_check pass = None ->
  exists salt e, cryptx_gen_salt rands = Some salt /\ cryptx pass salt = Some e /\ shape salt END e /\ length salt = CRYPTX_SALT_SZ /\
    Forall (fun c => c ∈ VCHARS \/ c ∈ [36; 49]) salt /\
    user_set_pass true rands u (Some pass) = Some (true, User (u_ref u) (u_id u) (u_created_at u) (u_name u) (Some (until0 e)) (u_tokens u) (u_whitelists u)).
Proof.
  intros Hr H0 Hc. destruct (salt_made rands Hr) as (salt & Hs & Hlen & Hv). destruct (cryptx_shape pass salt) as (e & He & Hsh); [|done|lia|].
  - intros ->. discriminate Hc.
  - exists salt, e. split_and!; try done. unfold user_set_pass. rewrite Hs. cbn [mbind option_bind]. by rewrite He.
Qed.

Lemma set_password_runs d mem rands q name pass : ok d -> (8 <= length rands)%nat -> runs (do__f_set_password mem rands q name pass no_effect d).
Proof.
  intros Hok Hr. unfold do__f_set_password, no_effect. apply by_user_runs; [done|]. intros p u Hp Hu _.
  destruct (if p =? q then None else _) as [e|]; [by apply runs_same|]. cbn [mbind option_bind].
  assert (Hset : forall e, ok (with_heap d (<[p := User (u_ref u) (u_id u) (u_created_at u) (u_name u) e (u_tokens u) (u_whitelists u)]> (heap d)))).
  { intros e. eapply ok_update; try done. by left. }
  destruct pass as [pass|]; cbn [fmap option_fmap option_map mbind option_bind].
  - destruct (ti_user_pass_check (until0 pass)) as [e|] eqn:Hc; [by apply runs_same|].
    destruct (set_pass_made rands u (until0 pass) Hr (until0_nonzero pass) Hc) as (salt & e & Hs & He & _ & _ & _ & Hset2).
    unfold ti_user_set_pass. rewrite Hu. cbn [mbind option_bind]. destruct mem; [rewrite Hset2; cbn [mbind option_bind]; by eexists _, _|].
    unfold user_set_pass. rewrite Hs. cbn [mbind option_bind]. rewrite He. cbn [mbind option_bind]. eexists _, _. split; [done|]. eapply ok_update; try done. by left.
  - unfold ti_user_set_pass. rewrite Hu. cbn [mbind option_bind user_set_pass]. by eexists _, _.
Qed.

Lemma ok_tokens d p u l : ok d -> p ∈ users d -> heap d !! p = Some u -> ok (with_heap d (<[p := with_tokens u l]> (heap d))).
Proof. intros Hok Hp Hu. eapply ok_update; try done. by left. Qed.

Lemma new_token_runs d mem q name expire description key now : ok d -> runs (do__f_new_token mem q name expire description key now no_effect d).
Proof.
  intros Hok. unfold do__f_new_token, no_effect. apply by_user_runs; [done|]. intros p u Hp Hu _.
  destruct (if p =? q then None else _) as [e|]; [by apply runs_same|]. rewrite Hu. cbn [mbind option_bind]. destruct (_ <? _)%nat; [by apply runs_same|].
  assert (Hadd : forall t, runs ('(ok0, d0) ← ti_user_add_token mem d p t; Some (if ok0 : bool then inr tt else inl EX_MEMORY, d0))).
  { intros t. unfold ti_user_add_token. rewrite Hu. cbn [mbind option_bind]. destruct mem; cbn [mbind option_bind]; [|by apply runs_same].
    eexists _, _. split; [done|]. by apply ok_tokens. }
  destruct expire as [ts|]; [destruct (_ || _); [by apply runs_same|]|]; apply Hadd.
Qed.

(** The users in [held] may have been deleted. *)
Lemma ok_tokens_held d p u l : ok d -> heap d !! p = Some u -> ok (with_heap d (<[p := with_tokens u l]> (heap d))).
Proof.
  intros Hok Hu. destruct (decide (p ∈ users d)) as [Hp|Hp]; [by apply ok_tokens|]. eapply ok_intro; [exact Hok| | | | | | | | | |]; try by destruct Hok.
  - unfold holders. cbn. eapply update_exact; [apply (ok_exact d Hok)|exact Hu|done].
  - intros q Hq. cbn. by rewrite lookup_insert_ne by (intros ->; done).
Qed.

Lemma pop_token_runs d p key : ok d -> is_Some (heap d !! p) -> exists b d', ti_user_pop_token_by_key d p key = Some (b, d') /\ ok d'.
Proof.
  intros Hok [u Hu]. unfold ti_user_pop_token_by_key. rewrite Hu. cbn [mbind option_bind]. destruct (token_index key (u_tokens u)); [|by eexists _, _].
  eexists _, _. split; [done|]. by apply ok_tokens_held.
Qed.

Lemma del_token_runs d q key : ok d -> q ∈ held d -> runs (do__f_del_token q key d).
Proof.
  intros Hok Hq. unfold do__f_del_token. destruct (_ || _); [by apply runs_same|].
  assert (Hpop : exists b d', (if ti_access_check (access_thingsdb d) q TI_AUTH_GRANT then ti_users_pop_token_by_key d key else ti_user_pop_token_by_key d q key) = Some (b, d') /\ ok d').
  { destruct (ti_access_check _ _ _).
    - unfold ti_users_pop_token_by_key. assert (Hl : forall p, p ∈ users d -> is_Some (heap d !! p)) by (intros p Hp; by apply users_live).
      induction (users d) as [|p l IH]; [by eexists _, _|]. destruct (pop_token_runs d p key Hok) as (b & d' & -> & Hok'); [apply Hl; by left|].
      cbn [mbind option_bind]. destruct b; [by eexists _, _|]. apply IH. intros r Hr. apply Hl. by right.
    - apply pop_token_runs; [done|]. apply (ex_live _ _ (ok_exact d Hok)). unfold holders. rewrite front_held. apply elem_of_app. by left. }
  destruct Hpop as (b & d' & -> & Hok'). cbn [mbind option_bind]. by eexists _, _.
Qed.

Lemma length_swap_remove {A} (l : list A) i : (i < length l)%nat -> length (swap_remove l i) = (length l - 1)%nat.
Proof.
  intros Hi. unfold swap_remove. destruct (list.last l) as [y|] eqn:E; [rewrite length_take_le; [done|rewrite length_insert; lia]|].
  apply last_None in E as ->. cbn in Hi. lia.
Qed.

(** Expired tokens are removed, all others remain. *)
Lemma del_expired_made ts : forall fuel n l, (length l - n <= fuel)%nat -> exists l', del_expired_loop fuel n ts l = Some l' /\
  l' ≡ₚ take n l ++ List.filter (fun t => negb (token_expired ts t)) (drop n l).
Proof.
  induction fuel as [|fuel IH]; intros n l Hf; cbn [del_expired_loop]; destruct (Nat.ltb_spec n (length l)) as [Hlt|Hge]; try lia.
  1,3: exists l; split; [done|]; rewrite take_ge, drop_ge by lia; by rewrite app_nil_r.
  destruct (lookup_lt_is_Some_2 l n Hlt) as [t Ht]. rewrite Ht. cbn [mbind option_bind].
  pose proof (drop_S l t n Ht) as Hd. destruct (token_expired ts t) eqn:He.
  - destruct (IH n (swap_remove l n)) as (l' & -> & Hl'); [rewrite length_swap_remove by done; lia|]. exists l'. split; [done|]. rewrite Hl', Hd.
    cbn [List.filter]. rewrite He. cbn [negb]. pose proof (swap_remove_perm l n t Ht) as Hp.
    assert (Htake : take n (swap_remove l n) = take n l).
    { unfold swap_remove. destruct (list.last l) as [y|] eqn:E; [|done]. rewrite take_take. replace (n `min` (length l - 1))%nat with n by lia.
      by rewrite take_insert_ge. }
    rewrite Htake. f_equiv. assert (Hdrop : drop n (swap_remove l n) ≡ₚ drop (S n) l).
    { apply (Permutation_app_inv_l (take n l)). apply (Permutation_cons_inv (a := t)). rewrite <- Htake at 1. rewrite take_drop, <- Hp.
      rewrite Permutation_middle, <- Hd. by rewrite take_drop. }
    revert Hdrop. generalize (drop n (swap_remove l n)) as a, (drop (S n) l) as b. clear. intros a b Hab.
    induction Hab as [|x a b _ IH|x y a|a b c _ IH1 _ IH2]; cbn [List.filter]; repeat destruct (negb _); try done; [by f_equiv|by constructor|by etrans].
  - destruct (IH (S n) l) as (l' & -> & Hl'); [lia|]. exists l'. split; [done|]. rewrite Hl', (take_S_r l n t Ht), Hd. cbn [List.filter]. rewrite He. cbn [negb].
    by rewrite <- app_assoc.
Qed.

Lemma del_expired_runs d q now : ok d -> runs (do__f_del_expired q now d).
Proof.
  intros Hok. unfold do__f_del_expired. destruct (allowed_cases d TI_SCOPE_THINGSDB q TI_AUTH_GRANT) as [[e ->]|(-> & _)]; [by apply runs_same|].
  unfold ti_users_del_expired. assert (Hgo : forall l d, ok d -> (forall p, p ∈ l -> p ∈ users d) -> exists d', each_user (ti_user_del_expired now) l d = Some d' /\ ok d').
  { clear d Hok. induction l as [|p l IH]; intros d Hok Hl; [by exists d|]. cbn [each_user]. assert (Hp : p ∈ users d) by (apply Hl; by left).
    destruct (users_live d p Hok Hp) as [u Hu]. rewrite Hu. cbn [mbind option_bind].
    destruct (del_expired_made now (length (u_tokens u)) 0 (u_tokens u)) as (l' & E & _); [lia|].
    assert (Eu : ti_user_del_expired now u = Some (with_tokens u l')) by (unfold ti_user_del_expired; by rewrite E). rewrite Eu. cbn [mbind option_bind].
    apply IH; [by apply ok_tokens|]. intros r Hr. apply Hl. by right. }
  destruct (Hgo (users d) d Hok) as (d' & -> & Hok'); [done|]. cbn [mbind option_bind]. by eexists _, _.
Qed.

Lemma remove_one_perm p l : p ∈ l -> l ≡ₚ p :: remove_one p l.
Proof.
  induction l as [|q l IH]; intros Hp; [by apply elem_of_nil in Hp|]. cbn [remove_one]. destruct (Z.eqb_spec q p) as [->|Hne]; [done|].
  apply elem_of_cons in Hp as [->|Hp]; [done|]. rewrite (IH Hp) at 1. apply perm_swap.
Qed.

Lemma ok_heap d h us n t v cs nx hd : ok d -> us = users d -> n = access_node d -> t = access_thingsdb d -> cs = collections d -> nx = next_free_id d ->
  NoDup (map vt_id v) -> exact h (holders_of us n t v cs hd) -> same (users d) (heap d) h -> ok (Db h us n t v cs nx hd).
Proof. intros Hok -> -> -> -> -> Hv Hex Hs. eapply ok_intro; [exact Hok|done|..]; cbn; try done; by destruct Hok. Qed.

Lemma in_users d p : p ∈ users d -> p ∈ holders d.
Proof. intros Hp. unfold holders, holders_of. apply elem_of_app. by left. Qed.
Lemma in_held d p : p ∈ held d -> p ∈ holders d.
Proof. intros Hp. unfold holders. rewrite front_held. apply elem_of_app. by left. Qed.

(** Every call is defined, and keeps the invariant. *)
Lemma call_runs d c : ok d -> call_ok d c -> runs (run_call c d).
Proof.
  intros Hok (Hlen & Hn & Hc). destruct c; cbn [run_call].
  - by apply grant_runs.
  - by apply revoke_runs.
  - by apply new_user_runs.
  - by apply del_user_runs.
  - by apply rename_runs.
  - by apply set_password_runs.
  - by apply new_token_runs.
  - by apply del_token_runs.
  - by apply del_expired_runs.
  - destruct Hc. by apply load_runs.
  - destruct (grab_exact _ _ p (ok_exact d Hok) (in_users d p Hc) Hlen) as (h & -> & Hex & Hs). cbn [mbind option_bind]. eexists _, _. split; [done|].
    apply (ok_heap d); try done; [apply (ok_tasks d Hok)| |eapply same_sub; [|exact Hs]; apply in_users].
    rewrite front_held. cbn [app]. unfold holders in Hex. by rewrite front_held in Hex.
  - pose proof (ok_exact d Hok) as Hex. unfold holders in Hex. rewrite front_held in Hex. rewrite (remove_one_perm p _ Hc) in Hex. cbn [app] in Hex.
    destruct (drop_exact _ _ p Hex) as (h & -> & Hex' & Hs). cbn [mbind option_bind]. eexists _, _. split; [done|].
    apply (ok_heap d); try done; [apply (ok_tasks d Hok)|by rewrite front_held|eapply same_sub; [|exact Hs]].
    intros q Hq. rewrite !elem_of_app. right. by left.
  - destruct Hc as [Hq Hid]. destruct (grab_exact _ _ q (ok_exact d Hok) (in_held d q Hq) Hlen) as (h & -> & Hex & Hs). cbn [mbind option_bind]. eexists _, _. split; [done|].
    apply (ok_heap d); try done; [|..|eapply same_sub; [|exact Hs]; apply in_users].
    + rewrite map_app. apply list.NoDup_app. split_and!; [apply (ok_tasks d Hok)| |apply NoDup_singleton]. intros x Hx ->%list_elem_of_singleton. done.
    + rewrite front_tasks. rewrite map_app. cbn [map vt_user]. unfold holders in Hex. rewrite front_tasks in Hex.
      rewrite <- (Permutation_cons_append (owned (vtasks d)) q). done.
Qed.
