(* ===== verification/UsersPriv.v ===== *)
(** * Users: the privileges as a map

    What every call does to the privileges of users on scopes. *)
From Stdlib Require Import ZArith Lia.
From stdpp Require Import base list option numbers gmap.
From S2P Require Import Prelude Utf8 Opr Strx Spec Keywords Req Cryptx Users UsersProof UsersSteps.

#[export] Instance ti_scope_eq_dec : EqDecision ti_scope.
Proof. solve_decision. Defined.

(** The privileges of a user on a scope. *)
Definition priv (d : db) (s : ti_scope) (p : ptr) : Z := match ti_val_get_access d s with Some a => mask_of a p | None => 0 end.

Definition has (m bits : Z) : Prop := Z.land m bits = bits.

Definition named (d : db) (name : list Z) (p : ptr) : Prop := p ∈ users d /\ exists u, heap d !! p = Some u /\ u_name u = name.

(** The privileges after a call. *)
Definition priv_spec (c : ucall) (r : ex + unit) (d : db) (f f' : ti_scope -> ptr -> Z) : Prop :=
  match c, r with
  | CGrant _ q s name mask, inr _ =>
    has (f s q) TI_AUTH_GRANT /\ exists p, named d name p /\
    forall s' p', f' s' p' = if decide (s' = s /\ p' = p) then granted (f s p) (grant_mask mask) else f s' p'
  | CRevoke q s name mask, inr _ =>
    has (f s q) TI_AUTH_GRANT /\ exists p, named d name p /\ (p = q -> Z.land (revoke_mask mask) 5 = 0) /\
    forall s' p', f' s' p' = if decide (s' = s /\ p' = p) then revoked (f s p) (revoke_mask mask) else f s' p'
  | CDelUser _ q name, inr _ =>
    has (f TI_SCOPE_THINGSDB q) TI_AUTH_GRANT /\ exists p, named d name p /\ p <> q /\
    forall s' p', f' s' p' = if p' =? p then revoked (f s' p) TI_AUTH_MASK_FULL else f s' p'
  | _, _ => forall s p, f' s p = f s p
  end.

Lemma check_has a q mask : mask <> 0 -> ti_access_check a q mask = true <-> has (mask_of a q) mask.
Proof.
  intros Hm. unfold ti_access_check, has, mask_of. destruct (auth_find a q) as [[i m]|]; [by rewrite Z.eqb_eq|]. rewrite Z.land_0_l. split; [done|congruence].
Qed.

Lemma priv_some d s a p : ti_val_get_access d s = Some a -> priv d s p = mask_of a p.
Proof. intros Ha. unfold priv. by rewrite Ha. Qed.

Lemma find_coll_access l id id' a c : List.find (fun c => co_id c =? id) l = Some c ->
  List.find (fun c => co_id c =? id') (coll_access l id a) =
    if id' =? id then Some (Collection id a (co_vtasks c)) else List.find (fun c => co_id c =? id') l.
Proof.
  induction l as [|x l IH]; [done|]. cbn [List.find coll_access]. destruct (Z.eqb_spec (co_id x) id) as [E|E].
  - intros [= <-]. cbn [List.find co_id]. rewrite (Z.eqb_sym id id'). destruct (Z.eqb_spec id' id) as [->|Hne]; [done|].
    by rewrite (proj2 (Z.eqb_neq (co_id x) id')) by congruence.
  - intros Hf. cbn [List.find]. rewrite (IH Hf). destruct (Z.eqb_spec id' id) as [->|Hne]; [|done]. by rewrite (proj2 (Z.eqb_neq _ _)).
Qed.

Lemma priv_set d s a h' a' s' p : ti_val_get_access d s = Some a -> priv (set_access d s h' a') s' p = if decide (s' = s) then mask_of a' p else priv d s' p.
Proof.
  intros Ha. unfold priv. destruct (decide (s' = s)) as [->|Hne].
  - destruct s as [| |id]; cbn [ti_val_get_access set_access access_node access_thingsdb collections] in *; [done|done|].
    destruct (List.find _ _) as [c|] eqn:Hf; [|done]. rewrite (find_coll_access _ _ _ _ c Hf), Z.eqb_refl. done.
  - destruct s as [| |id], s' as [| |id']; cbn [ti_val_get_access set_access access_node access_thingsdb collections] in *; try done.
    destruct (List.find _ _) as [c|] eqn:Hf; [|done]. rewrite (find_coll_access _ _ _ _ c Hf). rewrite (proj2 (Z.eqb_neq id' id)) by congruence. done.
Qed.

Lemma find_after p l l' id : Forall2 (coll_after p) l l' ->
  match List.find (fun c => co_id c =? id) l, List.find (fun c => co_id c =? id) l' with
  | Some c, Some c' => coll_after p c c'
  | None, None => True
  | _, _ => False
  end.
Proof.
  induction 1 as [|c c' l l' Hc _ IH]; [done|]. cbn [List.find]. pose proof Hc as (-> & _). by destruct (co_id c =? id).
Qed.

Lemma priv_deleted d d' p s q : deleted p d d' -> priv d' s q = if q =? p then revoked (priv d s p) TI_AUTH_MASK_FULL else priv d s q.
Proof.
  intros Hd. unfold priv. destruct s as [| |id]; cbn [ti_val_get_access]; [apply (de_thingsdb _ _ _ Hd)|apply (de_node _ _ _ Hd)|].
  pose proof (find_after p _ _ id (de_colls _ _ _ Hd)) as Hf. destruct (List.find _ (collections d)) as [c|], (List.find _ (collections d')) as [c'|]; try done.
  - destruct Hf as (_ & _ & _ & Hm & _). apply Hm.
  - by destruct (q =? p).
Qed.

Lemma by_user_inv d name f x d' : ok d -> by_user d name f = Some (x, d') ->
  (exists p, named d name p /\ f p = Some (x, d')) \/ x = inl EX_LOOKUP_ERROR /\ d' = d.
Proof.
  intros Hok. unfold by_user, ti_users_get_by_namestrn.
  destruct (users_get d (fun u => bool_decide (u_name u = name)) Hok) as ([p|] & -> & Ho); cbn [mbind option_bind]; [|intros [= <- <-]; by right].
  destruct Ho as (Hp & u & Hu & He). apply bool_decide_eq_true in He. intros H. left. exists p. split; [|done]. split; [done|]. by exists u.
Qed.

Lemma same_priv d h us v nx hd s p : priv (Db h us (access_node d) (access_thingsdb d) v (collections d) nx hd) s p = priv d s p.
Proof. by destruct s. Qed.

(** The other calls leave access alone and remove no user. *)
Definition unchanged (d d' : db) : Prop :=
  access_node d' = access_node d /\ access_thingsdb d' = access_thingsdb d /\ collections d' = collections d /\ (forall p, p ∈ users d -> p ∈ users d').

Lemma unchanged_refl d : unchanged d d.
Proof. done. Qed.

Lemma unchanged_priv d d' : unchanged d d' -> forall s p, priv d' s p = priv d s p.
Proof. intros (H1 & H2 & H3 & _) s p. unfold priv. destruct s; cbn [ti_val_get_access]; by rewrite ?H1, ?H2, ?H3. Qed.

Lemma bind_some {A B} (x : option A) (f : A -> option B) y : x ≫= f = Some y -> exists a, x = Some a /\ f a = Some y.
Proof. destruct x as [a|]; [|done]. intros H. by exists a. Qed.

(** Splits a call that returned into its parts. *)
Ltac split_call H :=
  repeat match type of H with
  | (_ ≫= _) = Some _ => let a := fresh "a" in let E := fresh "E" in apply bind_some in H as (a & E & H); try (destruct a as [? ?])
  | (let '(_, _) := ?x in _) = Some _ => destruct x
  | (match ?x with _ => _ end) = Some _ => let E := fresh "E" in destruct x eqn:E; try discriminate H
  end.

Lemma rename_unchanged d p name e d' : ti_user_rename d p name = Some (e, d') -> unchanged d d'.
Proof. intros H. unfold ti_user_rename in H. split_call H; by injection H as <- <-. Qed.

Lemma set_pass_unchanged mem rands d p pass b d' : ti_user_set_pass mem rands d p pass = Some (b, d') -> unchanged d d'.
Proof. intros H. unfold ti_user_set_pass in H. split_call H; by injection H as <- <-. Qed.

Lemma add_token_unchanged mem d p t b d' : ti_user_add_token mem d p t = Some (b, d') -> unchanged d d'.
Proof. intros H. unfold ti_user_add_token in H. apply bind_some in H as (u & _ & H). destruct mem; by injection H as <- <-. Qed.

Lemma pop_token_unchanged d p key b d' : ti_user_pop_token_by_key d p key = Some (b, d') -> unchanged d d'.
Proof. intros H. unfold ti_user_pop_token_by_key in H. split_call H; by injection H as <- <-. Qed.

Lemma pop_tokens_unchanged d key b d' : ti_users_pop_token_by_key d key = Some (b, d') -> unchanged d d'.
Proof.
  unfold ti_users_pop_token_by_key. generalize (users d) as l. induction l as [|p l IH]; [intros [= <- <-]; done|]. intros H.
  apply bind_some in H as ([b1 d1] & E & H). destruct b1; [injection H as <- <-; by eapply pop_token_unchanged|by apply IH].
Qed.

Lemma each_user_unchanged f : forall l d d', each_user f l d = Some d' -> unchanged d d'.
Proof.
  induction l as [|p l IH]; intros d d' H; cbn [each_user] in H; [by injection H as <-|]. apply bind_some in H as (u & _ & H). apply bind_some in H as (u' & _ & H).
  apply IH in H. done.
Qed.

Lemma new_user_unchanged mem rands d p name pass now r d' : ti_users_new_user mem rands d p name pass now = Some (r, d') -> unchanged d d'.
Proof. intros H. unfold ti_users_new_user in H. split_call H; injection H as <- <-; split_and!; try done. intros x Hx. cbn. apply elem_of_app. by left. Qed.

Lemma load_user_unchanged mem d p id name enc now r d' : ti_users_load_user mem d p id name enc now = Some (r, d') -> unchanged d d'.
Proof. intros H. unfold ti_users_load_user in H. split_call H; injection H as <- <-; destruct (next_free_id d <=? id); split_and!; try done; intros x Hx; cbn; apply elem_of_app; by left. Qed.

Lemma grant_spec d mem q s name mask r d' : ok d -> Z.of_nat (length (holders d)) + 1 < 2 ^ 32 ->
  do__f_grant mem q s name mask no_effect d = Some (r, d') -> priv_spec (CGrant mem q s name mask) r d (priv d) (priv d').
Proof.
  intros Hok Hlen H. unfold do__f_grant, no_effect in H. destruct (allowed_cases d s q TI_AUTH_GRANT) as [[e E]|(E & a & Ha & Hchk)]; rewrite E in H; [by injection H as <- <-|].
  apply by_user_inv in H as [(p & Hp & H)|[-> ->]]; [|done|done]. cbn [mbind option_bind] in H. rewrite Ha in H. cbn [mbind option_bind] in H.
  apply check_has in Hchk; [|done]. rewrite <- (priv_some d s a) in Hchk by done.
  assert (Hgood : forall h' a', ti_access_grant true (heap d) a p (grant_mask mask) = Some (true, h', a') -> priv_spec (CGrant mem q s name mask) (inr tt) d (priv d) (priv (set_access d s h' a'))).
  { intros h' a' Eg. destruct (grant_call d s a p (grant_mask mask) Hok Ha (proj1 Hp) Hlen) as (h2 & a2 & Eg2 & _ & Hm). rewrite Eg in Eg2. injection Eg2 as <- <-.
    split; [done|]. exists p. split; [done|]. intros s' p'. rewrite (priv_set d s a) by done. destruct (decide (s' = s)) as [->|Hne].
    - rewrite Hm, !(priv_some d s a) by done. destruct (Z.eqb_spec p' p) as [->|Hne]; [by rewrite decide_True|by rewrite decide_False by (intros [_ ?]; done)].
    - by rewrite decide_False by (intros [? _]; done). }
  apply bind_some in H as ([[b h'] a'] & Eg & H). destruct mem; [unfold ti_access_grant in Eg|].
  - assert (b = true) as -> by (destruct (auth_find a p) as [[i m]|]; [by injection Eg|]; apply bind_some in Eg as (h2 & _ & Eg); by injection Eg).
    injection H as <- <-. by apply Hgood.
  - unfold ti_access_grant in Eg. destruct (auth_find a p) as [[i m]|] eqn:Ef.
    + injection Eg as <- <- <-. injection H as <- <-. apply Hgood. unfold ti_access_grant. by rewrite Ef.
    + injection Eg as <- <- <-. injection H as <- <-. intros s' p'. rewrite (priv_set d s a) by done. destruct (decide (s' = s)) as [->|]; [|done].
      by rewrite (priv_some d s a).
Qed.

Lemma revoke_spec d q s name mask r d' : ok d -> do__f_revoke q s name mask no_effect d = Some (r, d') ->
  priv_spec (CRevoke q s name mask) r d (priv d) (priv d').
Proof.
  intros Hok H. unfold do__f_revoke, no_effect in H. destruct (allowed_cases d s q TI_AUTH_GRANT) as [[e E]|(E & a & Ha & Hchk)]; rewrite E in H; [by injection H as <- <-|].
  apply by_user_inv in H as [(p & Hp & H)|[-> ->]]; [|done|done]. cbn [mbind option_bind] in H.
  destruct ((q =? p) && _) eqn:Eself; [by injection H as <- <-|]. rewrite Ha in H. cbn [mbind option_bind] in H.
  destruct (revoke_call d s a p (revoke_mask mask) Hok Ha) as (h' & a' & Er & _ & Hm). rewrite Er in H. cbn [mbind option_bind] in H. injection H as <- <-.
  apply check_has in Hchk; [|done]. rewrite <- (priv_some d s a) in Hchk by done. split; [done|]. exists p. split; [done|]. split.
  - intros ->. rewrite Z.eqb_refl in Eself. apply negb_false_iff, Z.eqb_eq in Eself. exact Eself.
  - intros s' p'. rewrite (priv_set d s a) by done. destruct (decide (s' = s)) as [->|Hne].
    + rewrite Hm, !(priv_some d s a) by done. destruct (Z.eqb_spec p' p) as [->|Hne]; [by rewrite decide_True|by rewrite decide_False by (intros [_ ?]; done)].
    + by rewrite decide_False by (intros [? _]; done).
Qed.

Lemma del_user_spec d mem q name r d' : ok d -> do__f_del_user mem q name d = Some (r, d') ->
  priv_spec (CDelUser mem q name) r d (priv d) (priv d') /\ (r = inr tt -> exists p, named d name p /\ p <> q /\ deleted p d d').
Proof.
  intros Hok H. unfold do__f_del_user in H. destruct (allowed_cases d TI_SCOPE_THINGSDB q TI_AUTH_GRANT) as [[e E]|(E & a & Ha & Hchk)]; rewrite E in H; [by injection H as <- <-|].
  apply by_user_inv in H as [(p & Hp & H)|[-> ->]]; [|done|done]. destruct (Z.eqb_spec q p) as [->|Hne]; [by injection H as <- <-|].
  destruct mem; cbn [negb] in H; [|by injection H as <- <-]. destruct (del_user_exact d p Hok (proj1 Hp)) as (d1 & Ed & _ & Hd). rewrite Ed in H. cbn [mbind option_bind] in H.
  injection H as <- <-. apply check_has in Hchk; [|done]. rewrite <- (priv_some d TI_SCOPE_THINGSDB a) in Hchk by done. split.
  - split; [done|]. exists p. split; [done|]. split; [congruence|]. intros s' p'. by apply priv_deleted.
  - intros _. exists p. split_and!; [done|congruence|done].
Qed.

Definition changes_access (c : ucall) : bool := match c with CGrant _ _ _ _ _ | CRevoke _ _ _ _ | CDelUser _ _ _ => true | _ => false end.

Lemma call_unchanged d c r d' : ok d -> run_call c d = Some (r, d') -> changes_access c = false -> unchanged d d'.
Proof.
  intros Hok H Hc. destruct c; try discriminate Hc; cbn [run_call] in H.
  - unfold do__f_new_user in H. destruct (allowed d _ _ _); [by injection H as <- <-|]. apply bind_some in H as ([x d1] & E & H). injection H as _ <-. by eapply new_user_unchanged.
  - unfold do__f_rename_user, no_effect in H. destruct (allowed d _ _ _); [by injection H as <- <-|]. apply by_user_inv in H as [(p & Hp & H)|[_ ->]]; [|done|done].
    cbn [mbind option_bind] in H. apply bind_some in H as ([x d1] & E & H). injection H as _ <-. by eapply rename_unchanged.
  - unfold do__f_set_password, no_effect in H. apply by_user_inv in H as [(p & Hp & H)|[_ ->]]; [|done|done]. destruct (if p =? q then None else _); [by injection H as <- <-|].
    cbn [mbind option_bind] in H. destruct ((until0 <$> pass) ≫= _); [by injection H as <- <-|]. apply bind_some in H as ([x d1] & E & H). injection H as _ <-.
    by eapply set_pass_unchanged.
  - unfold do__f_new_token, no_effect in H. apply by_user_inv in H as [(p & Hp & H)|[_ ->]]; [|done|done]. destruct (if p =? q then None else _); [by injection H as <- <-|].
    apply bind_some in H as (u & _ & H). destruct (_ <? _)%nat; [by injection H as <- <-|]. cbn [mbind option_bind] in H.
    destruct expire as [ts|]; [destruct (_ || _); [by injection H as <- <-|]|]; apply bind_some in H as ([x d1] & E & H); injection H as _ <-; by eapply add_token_unchanged.
  - unfold do__f_del_token in H. destruct (_ || _); [by injection H as <- <-|]. apply bind_some in H as ([x d1] & E & H). injection H as _ <-.
    destruct (ti_access_check _ _ _); [by eapply pop_tokens_unchanged|by eapply pop_token_unchanged].
  - unfold do__f_del_expired in H. destruct (allowed d _ _ _); [by injection H as <- <-|]. apply bind_some in H as (d1 & E & H). injection H as _ <-. by eapply each_user_unchanged.
  - apply bind_some in H as ([x d1] & E & H). injection H as _ <-. by eapply load_user_unchanged.
  - apply bind_some in H as (h & _ & H). by injection H as _ <-.
  - apply bind_some in H as (h & _ & H). by injection H as _ <-.
  - apply bind_some in H as (h & _ & H). by injection H as _ <-.
Qed.

Lemma call_spec d c r d' : ok d -> call_ok d c -> run_call c d = Some (r, d') -> priv_spec c r d (priv d) (priv d').
Proof.
  intros Hok (Hlen & _ & _) H. destruct (changes_access c) eqn:Hc.
  - destruct c; try discriminate Hc; cbn [run_call] in H; [by eapply grant_spec|by eapply revoke_spec|by eapply del_user_spec].
  - pose proof (unchanged_priv d d' (call_unchanged d c r d' Hok H Hc)) as Hp. by destruct c.
Qed.

(** The users after a call. *)
Lemma grant_users d mem q s name mask r d' : do__f_grant mem q s name mask no_effect d = Some (r, d') -> users d' = users d.
Proof.
  intros H. unfold do__f_grant, by_user, no_effect in H. destruct (allowed d s q TI_AUTH_GRANT); [by injection H as <- <-|].
  apply bind_some in H as (o & _ & H). destruct o; [|by injection H as <- <-]. cbn [mbind option_bind] in H. apply bind_some in H as (a & _ & H).
  apply bind_some in H as ([[b h] a'] & _ & H). injection H as _ <-. by destruct s.
Qed.

Lemma revoke_users d q s name mask r d' : do__f_revoke q s name mask no_effect d = Some (r, d') -> users d' = users d.
Proof.
  intros H. unfold do__f_revoke, by_user, no_effect in H. destruct (allowed d s q TI_AUTH_GRANT); [by injection H as <- <-|].
  apply bind_some in H as (o & _ & H). destruct o; [|by injection H as <- <-]. cbn [mbind option_bind] in H. destruct (_ && _); [by injection H as <- <-|].
  apply bind_some in H as (a & _ & H). apply bind_some in H as ([h a'] & _ & H). injection H as _ <-. by destruct s.
Qed.

(** ** Bits of a mask *)

Lemma has_bit m i : 0 <= i -> has m (2 ^ i) <-> Z.testbit m i = true.
Proof.
  intros Hi. unfold has. split.
  - intros H. apply (f_equal (fun x => Z.testbit x i)) in H. rewrite Z.land_spec, Z.pow2_bits_true, andb_true_r in H by lia. done.
  - intros H. apply Z.bits_inj'. intros n Hn. rewrite Z.land_spec, Z.pow2_bits_eqb by lia. destruct (Z.eqb_spec i n) as [->|]; [by rewrite H|apply andb_false_r].
Qed.

Lemma granted_bit m k i : 0 <= i < 16 -> Z.testbit (granted m k) i = Z.testbit m i || Z.testbit k i.
Proof. intros Hi. unfold granted, u16. change 65536 with (2 ^ 16). by rewrite Z.mod_pow2_bits_low, Z.lor_spec by lia. Qed.

Lemma revoked_bit m k i : 0 <= i < 16 -> Z.testbit (revoked m k) i = Z.testbit m i && negb (Z.testbit k i).
Proof. intros Hi. unfold revoked, u16. change 65536 with (2 ^ 16). by rewrite Z.mod_pow2_bits_low, Z.land_spec, Z.lnot_spec by lia. Qed.

Lemma zero_bit m i : 0 <= i -> Z.land m (2 ^ i) =? 0 = negb (Z.testbit m i).
Proof.
  intros Hi. destruct (Z.testbit m i) eqn:E; cbn [negb].
  - apply Z.eqb_neq. rewrite (proj2 (has_bit m i Hi) E). pose proof (Z.pow_pos_nonneg 2 i). lia.
  - apply Z.eqb_eq, Z.bits_inj'. intros n Hn. rewrite Z.land_spec, Z.pow2_bits_eqb, Z.bits_0 by lia. destruct (Z.eqb_spec i n) as [->|]; [by rewrite E|apply andb_false_r].
Qed.

Lemma grant_mask_bits mask : Z.testbit (grant_mask mask) 2 = true -> Z.testbit (grant_mask mask) 1 = true.
Proof.
  unfold grant_mask. cbv zeta. change TI_AUTH_GRANT with (2 ^ 2). rewrite zero_bit by lia. destruct (Z.testbit (u64 mask) 2) eqn:E; cbn [negb]; [|congruence].
  intros _. by rewrite Z.lor_spec, orb_true_r.
Qed.

Lemma revoke_mask_bits mask : Z.testbit (revoke_mask mask) 1 = true -> Z.testbit (revoke_mask mask) 2 = true.
Proof.
  unfold revoke_mask. cbv zeta. change TI_AUTH_CHANGE with (2 ^ 1). rewrite zero_bit by lia. destruct (Z.testbit (u64 mask) 1) eqn:E; cbn [negb]; [|congruence].
  intros _. by rewrite Z.lor_spec, orb_true_r.
Qed.
