(* ===== verification/UsersProps.v ===== *)
(** * Users: properties *)
From Stdlib Require Import ZArith Lia Ascii String.
From stdpp Require Import base list option numbers gmap.
From S2P Require Import Prelude Utf8 Opr Strx Spec Keywords Req Cryptx Users UsersProof UsersSteps UsersPriv.

(** A new database: one user with all privileges on all scopes. *)
Definition init_db (name : list Z) (cids : list Z) : db :=
  let full := [Auth 1 TI_AUTH_MASK_FULL] in
  Db {[ 1 := User (3 + Z.of_nat (length cids)) 1 0 name None [] (None, None) ]} [1] full full [] (map (fun id => Collection id full []) cids) 2 [].

Inductive reach (name : list Z) (cids : list Z) : db -> Prop :=
  | reach_init : reach name cids (init_db name cids)
  | reach_call d c r d' : reach name cids d -> call_ok d c -> run_call c d = Some (r, d') -> reach name cids d'.

Lemma crefs_init cids : crefs (map (fun id => Collection id [Auth 1 TI_AUTH_MASK_FULL] []) cids) = replicate (length cids) 1.
Proof. induction cids as [|id cids IH]; [done|]. unfold crefs in *. cbn [map concat length replicate]. by rewrite IH. Qed.

Lemma refs_replicate n : refs 1 (replicate n 1) = Z.of_nat n.
Proof. induction n as [|n IH]; [done|]. cbn [replicate]. rewrite refs_cons, IH, decide_True by done. lia. Qed.

Lemma users_init_ok name cids : NoDup cids -> Z.of_nat (length cids) + 3 < 2 ^ 32 -> ok (init_db name cids).
Proof.
  intros Hc Hlen. assert (Hh : holders (init_db name cids) = replicate (3 + length cids) 1).
  { unfold holders, holders_of, init_db. cbn [users access_node access_thingsdb vtasks collections held map au_user app]. rewrite crefs_init. by rewrite app_nil_r. }
  assert (Hone : forall p u, heap (init_db name cids) !! p = Some u -> p = 1 /\ u = User (3 + Z.of_nat (length cids)) 1 0 name None [] (None, None)).
  { intros p u Hu. cbn in Hu. by apply lookup_singleton_Some in Hu as [<- <-]. }
  split.
  - rewrite Hh. split.
    + intros p u Hu. apply Hone in Hu as [-> ->]. split; [|by left]. cbn [u_ref]. rewrite refs_replicate. lia.
    + intros p Hp. apply elem_of_replicate in Hp as [-> _]. by eexists.
    + rewrite length_replicate. lia.
  - apply NoDup_singleton.
  - intros p q u v Hp Hq _ _ _. apply list_elem_of_singleton in Hp as ->, Hq as ->. done.
  - intros p q u v Hp Hq _ _ _. apply list_elem_of_singleton in Hp as ->, Hq as ->. done.
  - intros p u Hp Hu. apply Hone in Hu as [-> ->]. cbn. lia.
  - apply NoDup_singleton.
  - apply NoDup_singleton.
  - apply NoDup_nil_2.
  - apply List.Forall_forall. intros c Hin. cbn in Hin. apply in_map_iff in Hin as (id & <- & _). split; [apply NoDup_singleton|apply NoDup_nil_2].
  - cbn. rewrite map_map. cbn. by rewrite map_id.
Qed.

Lemma users_reach_ok name cids d : NoDup cids -> Z.of_nat (length cids) + 3 < 2 ^ 32 -> reach name cids d -> ok d.
Proof.
  intros Hc Hlen. induction 1 as [|d c r d' _ IH Hcall H]; [by apply users_init_ok|]. destruct (call_runs d c IH Hcall) as (x & d1 & E & Hok).
  rewrite E in H. by injection H as _ <-.
Qed.

(** ** Who may grant *)

Definition bit (m i : Z) : bool := Z.testbit m i.

Record owned_db (d : db) : Prop := OwnedDb {
  od_change : forall s p, bit (priv d s p) 2 = true -> bit (priv d s p) 1 = true;
  od_users : forall s p i, 0 <= i < 5 -> bit (priv d s p) i = true -> p ∈ users d;
  od_owner : exists p, p ∈ users d /\ bit (priv d TI_SCOPE_THINGSDB p) 2 = true
}.

Lemma full_bit i : 0 <= i < 5 -> Z.testbit TI_AUTH_MASK_FULL i = true.
Proof. intros Hi. assert (i = 0 \/ i = 1 \/ i = 2 \/ i = 3 \/ i = 4) as H by lia. by decompose [or] H; subst. Qed.

Lemma has_grant m : has m TI_AUTH_GRANT -> bit m 2 = true.
Proof. change TI_AUTH_GRANT with (2 ^ 2). apply has_bit. lia. Qed.

Lemma owned_unchanged d d' : owned_db d -> (forall s p, priv d' s p = priv d s p) -> (forall p, p ∈ users d -> p ∈ users d') -> owned_db d'.
Proof.
  intros [H1 H2 (p & Hp & Hb)] Hpr Hu. split; [intros s q; rewrite Hpr; apply H1|intros s q i Hi; rewrite Hpr; intros Hq; by eapply Hu, H2|].
  exists p. split; [by apply Hu|by rewrite Hpr].
Qed.

Lemma owned_grant d d' mem q s name mask r : owned_db d -> priv_spec (CGrant mem q s name mask) r d (priv d) (priv d') -> users d' = users d -> owned_db d'.
Proof.
  intros Hod Hs Hu. destruct r as [e|[]]; [apply (owned_unchanged d); [done|exact Hs|by rewrite Hu]|]. destruct Hod as [H1 H2 (p0 & Hp0 & Hb0)].
  destruct Hs as (_ & p & [Hp _] & Hpr). unfold bit in *. split.
  - intros s' p'. rewrite Hpr. destruct (decide _) as [[-> ->]|_]; [|apply H1]. rewrite !granted_bit by lia.
    intros [Hb|Hb]%orb_true_iff; [rewrite (H1 s p Hb); done|]. by rewrite (grant_mask_bits mask Hb), orb_true_r.
  - intros s' p' i Hi. rewrite Hu, Hpr. destruct (decide _) as [[-> ->]|_]; [done|by apply H2].
  - exists p0. rewrite Hu, Hpr. split; [done|]. destruct (decide _) as [[<- ->]|_]; [|done]. by rewrite granted_bit, Hb0 by lia.
Qed.

Lemma owned_revoke d d' q s name mask r : owned_db d -> priv_spec (CRevoke q s name mask) r d (priv d) (priv d') -> users d' = users d -> owned_db d'.
Proof.
  intros Hod Hs Hu. destruct r as [e|[]]; [apply (owned_unchanged d); [done|exact Hs|by rewrite Hu]|]. destruct Hod as [H1 H2 (p0 & Hp0 & Hb0)].
  destruct Hs as (Hq%has_grant & p & [Hp _] & Hself & Hpr). unfold bit in *. split.
  - intros s' p'. rewrite Hpr. destruct (decide _) as [[-> ->]|_]; [|apply H1]. rewrite !revoked_bit by lia.
    intros [Hb Hn]%andb_true_iff. rewrite (H1 s p Hb). cbn [andb]. destruct (Z.testbit (revoke_mask mask) 1) eqn:E; [|done]. by rewrite (revoke_mask_bits mask E) in Hn.
  - intros s' p' i Hi. rewrite Hu, Hpr. destruct (decide _) as [[-> ->]|_]; [done|by apply H2].
  - rewrite Hu. destruct (decide (s = TI_SCOPE_THINGSDB)) as [->|Hne].
    + exists q. split; [by apply (H2 TI_SCOPE_THINGSDB q 2)|]. rewrite Hpr. destruct (decide _) as [[_ <-]|_]; [|done].
      rewrite revoked_bit, Hq by lia. cbn [andb]. specialize (Hself eq_refl). apply (f_equal (fun x => Z.testbit x 2)) in Hself.
      rewrite Z.land_spec, Z.bits_0 in Hself. change (Z.testbit 5 2) with true in Hself. rewrite andb_true_r in Hself. by rewrite Hself.
    + exists p0. split; [done|]. rewrite Hpr. destruct (decide _) as [[? _]|_]; [congruence|done].
Qed.

Lemma owned_deleted d d' p q : owned_db d -> bit (priv d TI_SCOPE_THINGSDB q) 2 = true -> p <> q -> deleted p d d' -> owned_db d'.
Proof.
  intros [H1 H2 _] Hq Hne Hd. unfold bit in *. assert (Hu : forall r, r ∈ users d -> r <> p -> r ∈ users d').
  { intros r Hr Hrp. rewrite (de_users _ _ _ Hd) in Hr. by apply elem_of_cons in Hr as [->|Hr]. }
  split.
  - intros s r. rewrite (priv_deleted d d' p) by done. destruct (Z.eqb_spec r p) as [->|Hr]; [|apply H1].
    rewrite !revoked_bit, full_bit by lia. by rewrite andb_false_r.
  - intros s r i Hi. rewrite (priv_deleted d d' p) by done. destruct (Z.eqb_spec r p) as [->|Hr].
    + rewrite revoked_bit, full_bit by lia. by rewrite andb_false_r.
    + intros Hb. apply Hu; [by apply (H2 s r i)|done].
  - exists q. split; [apply Hu; [by apply (H2 TI_SCOPE_THINGSDB q 2)|congruence]|]. rewrite (priv_deleted d d' p) by done.
    by rewrite (proj2 (Z.eqb_neq q p)) by congruence.
Qed.

Lemma owned_call d c r d' : ok d -> call_ok d c -> run_call c d = Some (r, d') -> owned_db d -> owned_db d'.
Proof.
  intros Hok Hc H Hod. pose proof (call_spec d c r d' Hok Hc H) as Hs. destruct (changes_access c) eqn:Hch.
  2:{ pose proof (call_unchanged d c r d' Hok H Hch) as Hun. eapply owned_unchanged; [done|by apply unchanged_priv|apply Hun]. }
  destruct c; try discriminate Hch; cbn [run_call] in H.
  - eapply owned_grant; [done|exact Hs|by eapply grant_users].
  - eapply owned_revoke; [done|exact Hs|by eapply revoke_users].
  - destruct (del_user_spec d mem q name r d' Hok H) as [_ Hdel]. destruct r as [e|[]].
    + unfold do__f_del_user in H. destruct (allowed d _ _ _); [by injection H as <- <-|]. apply by_user_inv in H as [(p & Hp & H)|[_ ->]]; [|done|done].
      destruct (q =? p); [by injection H as <- <-|]. destruct mem; [|by injection H as <- <-]. cbn [negb] in H. by apply bind_some in H as (d1 & _ & H).
    + destruct (Hdel eq_refl) as (p & Hp & Hne & Hd). destruct Hs as (Hq & _). eapply owned_deleted; [done|by apply has_grant|exact Hne|done].
Qed.

Lemma init_owned name cids : owned_db (init_db name cids).
Proof.
  assert (Hpr : forall s p, priv (init_db name cids) s p = 0 \/ p = 1 /\ priv (init_db name cids) s p = TI_AUTH_MASK_FULL).
  { intros s p. assert (Hm : mask_of [Auth 1 TI_AUTH_MASK_FULL] p = 0 \/ p = 1 /\ mask_of [Auth 1 TI_AUTH_MASK_FULL] p = TI_AUTH_MASK_FULL).
    { unfold mask_of. cbn [auth_find au_user au_mask]. destruct (Z.eqb_spec 1 p) as [<-|]; [by right|by left]. }
    unfold priv. destruct s as [| |id]; cbn [ti_val_get_access init_db access_thingsdb access_node collections]; [exact Hm..|].
    destruct (List.find _ _) as [c|] eqn:Hf; [|by left]. cbn [mbind option_bind]. apply find_some in Hf as [Hin _]. apply in_map_iff in Hin as (x & <- & _). exact Hm. }
  unfold bit. split.
  - intros s p. destruct (Hpr s p) as [->|[_ ->]]; [by rewrite Z.bits_0|done].
  - intros s p i Hi. destruct (Hpr s p) as [->|[-> _]]; [by rewrite Z.bits_0|]. intros _. by left.
  - exists 1. split; [by left|done].
Qed.

Lemma reach_owned name cids d : NoDup cids -> Z.of_nat (length cids) + 3 < 2 ^ 32 -> reach name cids d -> owned_db d.
Proof.
  intros Hc Hlen. induction 1 as [|d c r d' Hr IH Hcall H]; [apply init_owned|]. eapply owned_call; [by eapply users_reach_ok|done|done|done].
Qed.

(** ** Passwords *)

Lemma until0_app a b : Forall (fun c => c <> 0) a -> until0 (a ++ b) = a ++ until0 b.
Proof.
  induction a as [|c a IH]; intros Ha; [done|]. apply List.Forall_cons_iff in Ha as [Hc Ha]. cbn [app until0]. rewrite (proj2 (Z.eqb_neq c 0)) by done.
  by rewrite IH.
Qed.

Lemma until0_id a : Forall (fun c => c <> 0) a -> until0 a = a.
Proof. intros Ha. rewrite <- (app_nil_r a) at 1. rewrite until0_app by done. apply app_nil_r. Qed.

Lemma salt_nonzero salt : Forall (fun c => c ∈ VCHARS \/ c ∈ [36; 49]) salt -> Forall (fun c => c <> 0) salt.
Proof.
  apply List.Forall_impl. intros c Hc ->. destruct Hc as [Hc|Hc]; [|by apply elem_of_cons in Hc as [?|?%list_elem_of_singleton]].
  assert (Hb : bool_decide (0 ∈ VCHARS) = true) by by apply bool_decide_eq_true. vm_compute in Hb. discriminate Hb.
Qed.

(** The encrypted password is encrypted to itself. *)
Lemma encrypted_again pass salt e : cryptx pass salt = Some e -> shape salt END e -> length salt = CRYPTX_SALT_SZ -> Forall (fun c => c <> 0) salt ->
  cryptx pass (until0 e) = Some e.
Proof.
  intros He (_ & Ht & _) Hl Hnz. rewrite <- (take_drop CRYPTX_SALT_SZ e). rewrite Ht, (take_ge salt) by lia. rewrite until0_app by done.
  assert (Hlen : length (salt ++ until0 (drop CRYPTX_SALT_SZ e)) = (CRYPTX_SALT_SZ + length (until0 (drop CRYPTX_SALT_SZ e)))%nat) by (rewrite length_app; lia).
  rewrite (cryptx_take pass _ salt).
  - rewrite He. by rewrite <- (take_drop CRYPTX_SALT_SZ e) at 1; rewrite Ht, (take_ge salt) by lia.
  - rewrite take_app_length' by done. by rewrite take_ge by lia.
  - rewrite Hlen, Hl. rewrite !(proj2 (Nat.ltb_ge _ _)) by lia. done.
Qed.

Lemma auth_named d name pass p u enc : ok d -> (1 <= length name < ti_max_name)%nat -> (1 <= length pass < ti_max_pass)%nat ->
  p ∈ users d -> heap d !! p = Some u -> u_name u = name -> u_encpass u = Some enc ->
  ti_users_auth d name pass = (pw ← cryptx (until0 pass) enc; Some (if bool_decide (until0 pw = enc) then inr p else inl EX_AUTH_ERROR)).
Proof.
  intros Hok Hn Hpw Hp Hu Hname Henc. unfold ti_users_auth. rewrite (proj2 (Nat.ltb_ge (length name) 1)), (proj2 (Nat.leb_gt _ (length name))) by lia.
  rewrite (proj2 (Nat.ltb_ge (length pass) 1)), (proj2 (Nat.leb_gt _ (length pass))) by lia. cbn [orb].
  assert (Hl : forall q, q ∈ users d -> exists v, heap d !! q = Some v) by (intros q; by apply users_live).
  assert (Huniq : forall q v, q ∈ users d -> heap d !! q = Some v -> u_name v = name -> q = p).
  { intros q v Hq Hv He. eapply (ok_names d Hok q p v u); [done..|congruence]. }
  revert Hp Hl Huniq. induction (users d) as [|q l IH]; intros Hp Hl Huniq; [by apply elem_of_nil in Hp|].
  destruct (Hl q) as [v Hv]; [by left|]. rewrite Hv. cbn [mbind option_bind]. destruct (bool_decide_reflect (u_name v = name)) as [He|He].
  - assert (q = p) as -> by (eapply Huniq; [by left|done|done]). assert (v = u) as -> by congruence. by rewrite Henc.
  - apply IH; [apply elem_of_cons in Hp as [->|Hp]; [congruence|done]|intros r Hr; apply Hl; by right|intros r w Hr; apply Huniq; by right].
Qed.

(** Nobody with this name: no password is accepted. *)
Lemma auth_none d name pass : ok d -> (forall q v, q ∈ users d -> heap d !! q = Some v -> u_name v <> name) -> ti_users_auth d name pass = Some (inl EX_AUTH_ERROR).
Proof.
  intros Hok Hnone. unfold ti_users_auth. destruct (_ || _); [done|]. destruct (_ || _); [done|].
  assert (Hl : forall q, q ∈ users d -> exists v, heap d !! q = Some v) by (intros q; by apply users_live). revert Hl Hnone.
  induction (users d) as [|q l IH]; intros Hl Hnone; [done|]. destruct (Hl q) as [v Hv]; [by left|]. rewrite Hv. cbn [mbind option_bind].
  rewrite bool_decide_eq_false_2 by (eapply Hnone; [by left|done]). apply IH; [intros r Hr; apply Hl; by right|intros r w Hr; apply Hnone; by right].
Qed.

(** ** Collections of a removed user *)

Lemma find_unique l c : NoDup (map co_id l) -> c ∈ l -> List.find (fun x => co_id x =? co_id c) l = Some c.
Proof.
  induction l as [|x l IH]; intros Hnd Hin; [by apply elem_of_nil in Hin|]. cbn [List.find map] in *. apply elem_of_cons in Hin as [->|Hin]; [by rewrite Z.eqb_refl|].
  rewrite (proj2 (Z.eqb_neq _ _)); [apply IH; [by apply NoDup_cons_1_2 in Hnd|done]|]. intros He. apply NoDup_cons_1_1 in Hnd. apply Hnd. rewrite He.
  apply list_elem_of_In, in_map. by apply list_elem_of_In.
Qed.

Lemma colls_after_gone p l l' : Forall2 (coll_after p) l l' ->
  (forall c, c ∈ l -> revoked (mask_of (co_access c) p) TI_AUTH_MASK_FULL = 0) -> p ∉ crefs l'.
Proof.
  intros Hl Hm. induction Hl as [|c c' l l' (_ & Hv & _ & _ & _ & Hgone) _ IH]; [apply not_elem_of_nil|]. unfold crefs in *. cbn [map concat]. unfold coll_refs at 1.
  rewrite !not_elem_of_app. split; [split; [apply Hgone, Hm; by left|]|apply IH; intros x Hx; apply Hm; by right].
  rewrite Hv. intros Hq. by apply owned_others in Hq as [_ ?].
Qed.

(** ** Properties *)


(** C25. The access lists implement a map from scopes and users to privileges: a check
    looks the privileges up, granting adds to them and revoking takes from them for the
    one user on the one scope, both only by a user who may grant there; removing a user
    revokes the five privileges on every scope, and no other call changes any of them. *)
Theorem access_refines_map name cids d c r d' :
  NoDup cids -> Z.of_nat (length cids) + 3 < 2 ^ 32 -> reach name cids d -> call_ok d c -> run_call c d = Some (r, d') ->
  priv_spec c r d (priv d) (priv d') /\
  forall s a q mask, ti_val_get_access d s = Some a -> mask <> 0 -> ti_access_check a q mask = true <-> has (priv d s q) mask.
Proof.
  intros Hc Hlen Hr Hcall H. pose proof (users_reach_ok name cids d Hc Hlen Hr) as Hok. split; [by apply call_spec|].
  intros s a q mask Ha Hm. rewrite (priv_some d s a) by done. by apply check_has.
Qed.

(** C26. The database cannot be locked: there is always a user who may grant and change on
    the scope of ThingsDB, whatever is granted, revoked and removed. Who may grant on a
    scope may also change there. *)
Theorem thingsdb_keeps_an_owner name cids d : NoDup cids -> Z.of_nat (length cids) + 3 < 2 ^ 32 -> reach name cids d ->
  (exists p, p ∈ users d /\ ti_access_check (access_thingsdb d) p (TI_AUTH_GRANT + TI_AUTH_CHANGE) = true) /\
  forall s p, has (priv d s p) TI_AUTH_GRANT -> has (priv d s p) TI_AUTH_CHANGE.
Proof.
  intros Hc Hlen Hr. destruct (reach_owned name cids d Hc Hlen Hr) as [H1 _ (p & Hp & Hb)]. split.
  - exists p. split; [done|]. apply check_has; [done|]. rewrite <- (priv_some d TI_SCOPE_THINGSDB) by done. pose proof (H1 _ _ Hb) as Hb1. unfold bit in *.
    change TI_AUTH_GRANT with (2 ^ 2). apply has_bit in Hb, Hb1; [|lia|lia]. unfold has in *. change (2 ^ 2 + TI_AUTH_CHANGE) with (Z.lor (2 ^ 2) (2 ^ 1)).
    by rewrite Z.land_lor_distr_r, Hb, Hb1.
  - intros s q Hq. change TI_AUTH_CHANGE with (2 ^ 1). apply has_bit; [lia|]. apply H1. by apply has_grant.
Qed.


(** C28. A password that was set is the password to log in with. *)
Theorem password_round_trip name cids d rands q uname pass d' : NoDup cids -> Z.of_nat (length cids) + 3 < 2 ^ 32 -> reach name cids d ->
  (8 <= length rands)%nat -> (1 <= length uname < ti_max_name)%nat -> Forall (fun c => c <> 0) pass ->
  do__f_set_password true rands q uname (Some pass) no_effect d = Some (inr tt, d') ->
  exists p, named d uname p /\ ti_users_auth d' uname pass = Some (inr p).
Proof.
  intros Hc Hlen Hr Hrands Hn Hpw H. pose proof (users_reach_ok name cids d Hc Hlen Hr) as Hok.
  assert (Hok' : ok d') by (destruct (set_password_runs d true rands q uname (Some pass) Hok Hrands) as (x & d1 & E & Ho); rewrite H in E; by injection E as _ <-).
  unfold do__f_set_password, no_effect in H. apply by_user_inv in H as [(p & Hp & H)|[? _]]; [|done|done]. exists p. split; [done|].
  destruct (if p =? q then None else _); [done|]. cbn [mbind option_bind fmap option_fmap option_map] in H. rewrite until0_id in H by done.
  destruct (ti_user_pass_check pass) as [e|] eqn:Hchk; [done|]. destruct Hp as [Hp (u & Hu & Hname)].
  destruct (set_pass_made rands u pass Hrands Hpw Hchk) as (salt & e & Hs & He & Hsh & Hsl & Hsv & Hset).
  unfold ti_user_set_pass in H. rewrite Hu in H. cbn [mbind option_bind] in H. rewrite Hset in H. cbn [mbind option_bind] in H. injection H as <-.
  assert (Hplen : (1 <= length pass < ti_max_pass)%nat).
  { unfold ti_user_pass_check in Hchk. destruct (Nat.ltb_spec (length pass) 1); [done|]. destruct (Nat.leb_spec ti_max_pass (length pass)); [done|]. lia. }
  erewrite (auth_named _ uname pass p); [|done|done|done|done|cbn; by rewrite lookup_insert_eq|done|done].
  rewrite (until0_id pass) by done. rewrite (encrypted_again pass salt e) by (done || by apply salt_nonzero). cbn [mbind option_bind]. by rewrite bool_decide_eq_true_2.
Qed.

(** ** Examples *)

Definition next (c : ucall) (d : db) : db := match run_call c d with Some (_, d') => d' | None => d end.

Lemma reach_next name cids c d : reach name cids d -> call_ok d c -> is_Some (run_call c d) -> reach name cids (next c d).
Proof. intros Hr Hc [[r d'] H]. eapply reach_call; [exact Hr|exact Hc|]. unfold next. by rewrite H. Qed.

(** A query of the user admin, who adds the user bob and lets bob query a collection. *)
Definition ex0 : db := init_db (str "admin") [10].
Definition ex1 : db := next (CHold 1) ex0.
Definition ex2 : db := next (CNewUser true 1 2 (str "bob") 7) ex1.
Definition ex3 : db := next (CGrant true 1 (TI_SCOPE_COLLECTION 10) (str "bob") TI_AUTH_QUERY) ex2.
Definition ex_rands : list Z := [1; 2; 3; 4; 5; 6; 7; 8].

Ltac call_ok_tac := split; [reflexivity|split; [vm_compute; split; [discriminate|reflexivity]|]].

Lemma ex_ids : NoDup [10] /\ Z.of_nat (length [10]) + 3 < 2 ^ 32.
Proof. split; [apply NoDup_singleton|reflexivity]. Qed.

Lemma ex_reach : reach (str "admin") [10] ex3.
Proof.
  apply reach_next; [|call_ok_tac; exact I|vm_compute; by eexists]. apply reach_next; [|call_ok_tac; reflexivity|vm_compute; by eexists].
  apply reach_next; [apply reach_init|call_ok_tac; by left|vm_compute; by eexists].
Qed.


Lemma access_refines_map_witness :
  run_call (CRevoke 1 (TI_SCOPE_COLLECTION 10) (str "bob") TI_AUTH_QUERY) ex3 = Some (inr tt, next (CRevoke 1 (TI_SCOPE_COLLECTION 10) (str "bob") TI_AUTH_QUERY) ex3) /\
  priv_spec (CRevoke 1 (TI_SCOPE_COLLECTION 10) (str "bob") TI_AUTH_QUERY) (inr tt) ex3 (priv ex3) (priv (next (CRevoke 1 (TI_SCOPE_COLLECTION 10) (str "bob") TI_AUTH_QUERY) ex3)).
Proof.
  assert (E : run_call (CRevoke 1 (TI_SCOPE_COLLECTION 10) (str "bob") TI_AUTH_QUERY) ex3 =
    Some (inr tt, next (CRevoke 1 (TI_SCOPE_COLLECTION 10) (str "bob") TI_AUTH_QUERY) ex3)) by (vm_compute; reflexivity).
  split; [exact E|]. apply (access_refines_map (str "admin") [10] ex3 _ _ _ (proj1 ex_ids) (proj2 ex_ids) ex_reach); [call_ok_tac; exact I|exact E].
Defined.

Lemma thingsdb_keeps_an_owner_witness : exists p, p ∈ users ex3 /\ ti_access_check (access_thingsdb ex3) p 6 = true.
Proof. exact (proj1 (thingsdb_keeps_an_owner (str "admin") [10] ex3 (proj1 ex_ids) (proj2 ex_ids) ex_reach)). Defined.


Lemma password_round_trip_witness : let d' := next (CSetPassword true ex_rands 1 (str "bob") (Some (str "secret"))) ex3 in
  exists p, named ex3 (str "bob") p /\ ti_users_auth d' (str "bob") (str "secret") = Some (inr p).
Proof.
  apply (password_round_trip (str "admin") [10] ex3 ex_rands 1 (str "bob") (str "secret") _ (proj1 ex_ids) (proj2 ex_ids) ex_reach);
    [vm_compute; repeat constructor|vm_compute; split; repeat constructor|apply List.Forall_forall; intros c Hc; vm_compute in Hc; by decompose [or] Hc; subst|vm_compute; reflexivity].
Defined.

(** The five privileges are printed by name. *)
Lemma mask_names_exact : forall mask, 0 <= mask < 32 ->
  fold_right (fun n m => match List.find (fun e => bool_decide (e.1 = n)) ti__auth_map with Some e => m + e.2 | None => m end) 0 (mask_names ti__auth_map mask) = mask.
Proof.
  intros mask Hm. apply Z.eqb_eq. revert mask Hm.
  assert (H : forallb (fun i => fold_right (fun n m => match List.find (fun e => bool_decide (e.1 = n)) ti__auth_map with Some e => m + e.2 | None => m end) 0
    (mask_names ti__auth_map (Z.of_nat i)) =? Z.of_nat i) (seq 0 32) = true) by (vm_compute; reflexivity).
  rewrite forallb_forall in H. intros mask Hm. specialize (H (Z.to_nat mask)). rewrite Z2Nat.id in H by lia. apply H, in_seq. lia.
Qed.

(** Any number is granted. A bit that is not one of the five privileges keeps the entry
    when the user is removed; storing it then gives access of an unknown user, and
    restoring that fails. *)
Example unknown_privilege_remains :
  let d := next (CDelUser true 1 (str "bob")) (next (CGrant true 1 TI_SCOPE_THINGSDB (str "bob") 32) ex3) in
  users d = [1] /\ access_thingsdb d = [Auth 1 31; Auth 2 32] /\
  (l ← ti_store_access_store d (access_thingsdb d); ti_store_access_restore d (heap d) l []) = Some None.
Proof. cbv zeta. split; [vm_compute; reflexivity|]. split; vm_compute; reflexivity. Qed.

(** The pointer to the user is kept while the last argument is evaluated: when that
    removes the user, a freed user is used. *)
Example freed_user_is_granted :
  do__f_grant true 1 TI_SCOPE_THINGSDB (str "bob") 1 (fun d => Some (next (CDelUser true 1 (str "bob")) d)) ex3 = None.
Proof. vm_compute. reflexivity. Qed.

(** One more token than the maximum. *)
Example one_token_too_many : let t := Token (str "0123456789012345678901") 0 0 [] in
  let d := with_heap ex3 (<[2 := User 2 2 7 (str "bob") None (replicate MAX_USER_TOKENS t) (None, None)]> (heap ex3)) in
  ('(_, d') ← do__f_new_token true 1 (str "bob") None [] (str "1123456789012345678901") 9 no_effect d; u ← heap d' !! 2; Some (length (u_tokens u)))
    = Some (S MAX_USER_TOKENS).
Proof. vm_compute. reflexivity. Qed.

(** A zero byte ends the password when logging in. *)
Example password_behind_zero : let d := next (CSetPassword true ex_rands 1 (str "bob") (Some (str "secret"))) ex3 in
  ti_users_auth d (str "bob") (str "secret" ++ [0; 1; 2]) = Some (inr 2) /\ ti_users_auth d (str "bob") [0; 1] = None.
Proof. vm_compute. done. Qed.
