(* ===== verification/Base64.v ===== *)
(** * ti/raw: base64

    [ti_bytes_from_base64] and [ti_str_base64_from_raw] of [src/src/ti/raw.c]. Bytes are
    numbers below 256; [None] is reading or writing outside a buffer. *)
From Stdlib Require Import ZArith Lia Ascii String.
From stdpp Require Import base list option numbers.
From S2P Require Import Prelude Utf8 Opr Strx Spec Keywords.

Definition base64__idx : list Z := [
  0;  0;  0;  0;  0;  0;  0;  0;  0;  0;  0;  0; 0;  0;  0;  0;  0;  0;
  0;  0;  0;  0;  0;  0;  0;  0;  0;  0;  0;  0;  0;  0; 0;  0;  0;  0;
  0;  0;  0;  0;  0;  0;  0; 62; 63; 62; 62; 63; 52; 53; 54; 55; 56; 57;
  58; 59; 60; 61;  0;  0;  0;  0;  0;  0;  0;  0;  1;  2;  3;  4;  5;  6;
  7;  8;  9; 10; 11; 12; 13; 14; 15; 16; 17; 18; 19; 20; 21; 22; 23; 24;
  25;  0; 0;  0;  0; 63;  0; 26; 27; 28; 29; 30; 31; 32; 33; 34; 35; 36;
  37; 38; 39; 40; 41; 42; 43; 44; 45; 46; 47; 48; 49; 50; 51] ++ replicate 133 0.

Definition base64__table : list Z := str "ABCDEFGHIJKLMNOPQRSTUVWXYZabcdefghijklmnopqrstuvwxyz0123456789+/".

Definition idx (c : Z) : option Z := base64__idx !! Z.to_nat c.
Definition tab (v : Z) : option Z := base64__table !! Z.to_nat v.

(** ** Decoding *)

(** The loop over [q] groups of four characters: what is written, and the rest. *)
Fixpoint decode_groups (q : nat) (p : list Z) : option (list Z * list Z) :=
  match q with
  | O => Some ([], p)
  | S q =>
    match p with
    | a :: b :: c :: d :: p =>
      a ← idx a; b ← idx b; c ← idx c; d ← idx d;
      let nn := Z.lor (Z.lor (Z.lor (Z.shiftl a 18) (Z.shiftl b 12)) (Z.shiftl c 6)) d in
      '(out, rest) ← decode_groups q p;
      Some (u8 (Z.shiftr nn 16) :: Z.land (Z.shiftr nn 8) 255 :: Z.land nn 255 :: out, rest)
    | _ => None
    end
  end.

Definition decode_pad (rest : list Z) : option (list Z) :=
  match rest with
  | a :: b :: rest =>
    a ← idx a; b ← idx b;
    let nn := Z.lor (Z.shiftl a 18) (Z.shiftl b 12) in
    let o := u8 (Z.shiftr nn 16) in
    match rest with
    | c :: _ => if c =? 61 then Some [o] else c ← idx c; Some [o; Z.land (Z.shiftr (Z.lor nn (Z.shiftl c 6)) 8) 255]
    | [] => Some [o]
    end
  | _ => None
  end.

Definition is_pad (p : list Z) (i : nat) : bool := bool_decide (p !! i = Some 61).

Definition ti_bytes_from_base64 (p : list Z) : option (list Z) :=
  let n := length p in
  let pad := (0 <? n)%nat && (negb (n mod 4 =? 0)%nat || is_pad p (n - 1)) in
  let groups := ((n + 3) / 4 - (if pad then 1 else 0))%nat in
  let extra := if (1 <? n)%nat && ((n mod 4 =? 3)%nat || negb (is_pad p (n - 2))) then 2%nat else 1%nat in
  let size := (groups * 3 + if pad then extra else 0)%nat in
  '(out, rest) ← decode_groups groups p;
  more ← (if pad then decode_pad rest else Some []);
  if (length (out ++ more) <=? size)%nat then Some (out ++ more) else None.

(** ** Encoding *)

Fixpoint encode_groups (b : list Z) : option (list Z) :=
  match b with
  | a :: b :: c :: r =>
    x ← tab (Z.shiftr a 2);
    y ← tab (Z.lor (Z.shiftl (Z.land a 3) 4) (Z.shiftr b 4));
    z ← tab (Z.lor (Z.shiftl (Z.land b 15) 2) (Z.shiftr c 6));
    w ← tab (Z.land c 63);
    out ← encode_groups r;
    Some (x :: y :: z :: w :: out)
  | [a; b] =>
    x ← tab (Z.shiftr a 2);
    y ← tab (Z.lor (Z.shiftl (Z.land a 3) 4) (Z.shiftr b 4));
    z ← tab (Z.shiftl (Z.land b 15) 2);
    Some [x; y; z; 61]
  | [a] =>
    x ← tab (Z.shiftr a 2);
    y ← tab (Z.shiftl (Z.land a 3) 4);
    Some [x; y; 61; 61]
  | [] => Some []
  end.

(** The length of the result is kept in 32 bits. *)
Definition ti_str_base64_from_raw (b : list Z) : option (list Z) :=
  out ← encode_groups b; Some (take (Z.to_nat (u32 (Z.of_nat (length out)))) out).

(** ** Proofs *)

Definition is_byte (x : Z) : Prop := 0 <= x < 256.

(** A character of the table is read back, and is not the padding. *)
Lemma tab_idx v : 0 <= v < 64 -> exists c, tab v = Some c /\ idx c = Some v /\ c <> 61.
Proof.
  intros Hv. assert (H : forallb (fun i => match tab (Z.of_nat i) with Some c => match idx c with Some w => (w =? Z.of_nat i) && negb (c =? 61) | None => false end | None => false end) (seq 0 64) = true)
    by (vm_compute; reflexivity).
  rewrite forallb_forall in H. assert (Hin : In (Z.to_nat v) (seq 0 64)) by (apply in_seq; lia). specialize (H _ Hin). rewrite Z2Nat.id in H by lia.
  destruct (tab v) as [c|]; [|done]. destruct (idx c) as [w|] eqn:Ei; [|done]. apply andb_true_iff in H as [->%Z.eqb_eq Hc]. exists c.
  split_and!; [done|done|]. by apply negb_true_iff, Z.eqb_neq in Hc.
Qed.

Lemma lor_add x y : 0 <= y < 64 -> Z.lor (Z.shiftl x 6) y = x * 64 + y.
Proof.
  intros Hy. rewrite Z.shiftl_mul_pow2 by lia. rewrite <- Z.lxor_lor, <- Z.add_nocarry_lxor; [done|..];
    (apply Z.bits_inj'; intros n Hn; rewrite Z.land_spec, Z.bits_0; destruct (Z.ltb_spec n 6); [by rewrite Z.mul_pow2_bits_low by lia|];
     rewrite <- (Z.mod_small y (2 ^ 6)), Z.mod_pow2_bits_high by lia; apply andb_false_r).
Qed.

Lemma lor_shift x y k : 0 <= k -> 0 <= y < 64 -> Z.lor (Z.shiftl x (6 + k)) (Z.shiftl y k) = Z.shiftl (x * 64 + y) k.
Proof. intros Hk Hy. rewrite <- Z.shiftl_shiftl, <- Z.shiftl_lor by lia. by rewrite lor_add. Qed.

(** The same arithmetic without bits. *)
Lemma two_parts a b i j : 0 <= i -> 0 <= a < 256 -> 0 <= b < 256 -> i + j = 6 -> 0 <= j ->
  Z.lor (Z.shiftl (Z.land a (Z.ones i)) j) (Z.shiftr b (8 - j)) = (a mod 2 ^ i) * 2 ^ j + b / 2 ^ (8 - j).
Proof.
  intros Hi Ha Hb Hij Hj. rewrite Z.land_ones, Z.shiftr_div_pow2 by lia. set (x := a mod 2 ^ i). assert (Hy : 0 <= b / 2 ^ (8 - j) < 2 ^ j).
  { split; [apply Z.div_pos; [lia|apply Z.pow_pos_nonneg; lia]|]. apply Z.div_lt_upper_bound; [apply Z.pow_pos_nonneg; lia|].
    rewrite <- Z.pow_add_r by lia. replace (8 - j + j) with 8 by lia. change (2 ^ 8) with 256. lia. }
  rewrite Z.shiftl_mul_pow2 by lia. rewrite <- Z.lxor_lor, <- Z.add_nocarry_lxor; [done|..];
    (apply Z.bits_inj'; intros n Hn; rewrite Z.land_spec, Z.bits_0; destruct (Z.ltb_spec n j); [by rewrite Z.mul_pow2_bits_low by lia|];
     rewrite <- (Z.mod_small (b / 2 ^ (8 - j)) (2 ^ j)), Z.mod_pow2_bits_high by lia; apply andb_false_r).
Qed.

Lemma second a b : is_byte a -> is_byte b -> Z.lor (Z.shiftl (Z.land a 3) 4) (Z.shiftr b 4) = a mod 4 * 16 + b / 16.
Proof. intros Ha Hb. exact (two_parts a b 2 4 ltac:(lia) Ha Hb ltac:(lia) ltac:(lia)). Qed.
Lemma third b c : is_byte b -> is_byte c -> Z.lor (Z.shiftl (Z.land b 15) 2) (Z.shiftr c 6) = b mod 16 * 4 + c / 64.
Proof. intros Hb Hc. exact (two_parts b c 4 2 ltac:(lia) Hb Hc ltac:(lia) ltac:(lia)). Qed.

Lemma first a : Z.shiftr a 2 = a / 4.
Proof. by rewrite Z.shiftr_div_pow2 by lia. Qed.
Lemma fourth c : Z.land c 63 = c mod 64.
Proof. change 63 with (Z.ones 6). by rewrite Z.land_ones by lia. Qed.
Lemma land255 x : Z.land x 255 = x mod 256.
Proof. change 255 with (Z.ones 8). by rewrite Z.land_ones by lia. Qed.

Ltac byte_lia := unfold is_byte in *; Z.to_euclidean_division_equations; lia.

(** Three bytes are written as four characters that give the bytes back. *)
Lemma group_round a b c : is_byte a -> is_byte b -> is_byte c -> exists w x y z,
  tab (Z.shiftr a 2) = Some w /\ tab (Z.lor (Z.shiftl (Z.land a 3) 4) (Z.shiftr b 4)) = Some x /\
  tab (Z.lor (Z.shiftl (Z.land b 15) 2) (Z.shiftr c 6)) = Some y /\ tab (Z.land c 63) = Some z /\ z <> 61 /\
  forall q p, decode_groups (S q) (w :: x :: y :: z :: p) = ('(out, rest) ← decode_groups q p; Some (a :: b :: c :: out, rest)).
Proof.
  intros Ha Hb Hc. rewrite first, second, third, fourth by done.
  destruct (tab_idx (a / 4)) as (w & -> & Hw & _); [byte_lia|]. destruct (tab_idx (a mod 4 * 16 + b / 16)) as (x & -> & Hx & _); [byte_lia|].
  destruct (tab_idx (b mod 16 * 4 + c / 64)) as (y & -> & Hy & _); [byte_lia|]. destruct (tab_idx (c mod 64)) as (z & -> & Hz & Hne); [byte_lia|].
  exists w, x, y, z. split_and!; try done. intros q p. cbn [decode_groups]. rewrite Hw, Hx, Hy, Hz. cbn [mbind option_bind].
  rewrite (lor_shift _ _ 12), (lor_shift _ _ 6), lor_add by byte_lia.
  replace ((((a / 4 * 64 + (a mod 4 * 16 + b / 16)) * 64 + (b mod 16 * 4 + c / 64)) * 64) + c mod 64) with (a * 65536 + b * 256 + c) by byte_lia.
  rewrite !land255, !Z.shiftr_div_pow2 by lia. change (2 ^ 16) with 65536. change (2 ^ 8) with 256. unfold u8.
  replace ((a * 65536 + b * 256 + c) / 65536 mod 256) with a by byte_lia. replace ((a * 65536 + b * 256 + c) / 256 mod 256) with b by byte_lia.
  by replace ((a * 65536 + b * 256 + c) mod 256) with c by byte_lia.
Qed.

(** All full groups: [t] is read back from what was written for it. *)
Lemma groups_round : forall q t r, length t = (3 * q)%nat -> Forall is_byte t -> exists o, length o = (4 * q)%nat /\
  encode_groups (t ++ r) = (e ← encode_groups r; Some (o ++ e)) /\ (forall p, decode_groups q (o ++ p) = Some (t, p)) /\
  ((0 < q)%nat -> o !! (4 * q - 1)%nat <> Some 61).
Proof.
  induction q as [|q IH]; intros t r Hl Hb.
  { destruct t; [|cbn in Hl; lia]. exists []. split_and!; [done| |done|lia]. cbn [app]. by destruct (encode_groups r). }
  destruct t as [|a [|b [|c t]]]; cbn [length] in Hl; try lia. apply List.Forall_cons_iff in Hb as [Ha Hb]. apply List.Forall_cons_iff in Hb as [Hb Hc].
  apply List.Forall_cons_iff in Hc as [Hc Ht]. destruct (IH t r) as (o & Ho & He & Hd & Hz); [lia|done|].
  destruct (group_round a b c Ha Hb Hc) as (w & x & y & z & E1 & E2 & E3 & E4 & Hne & Hg). exists (w :: x :: y :: z :: o). split_and!.
  - cbn [length]. lia.
  - cbn [app encode_groups]. rewrite E1, E2, E3, E4. cbn [mbind option_bind]. rewrite He. by destruct (encode_groups r).
  - intros p. cbn [app]. rewrite Hg, Hd. done.
  - intros _. destruct q as [|q]; [cbn; congruence|]. replace (4 * S (S q) - 1)%nat with (4 + (4 * S q - 1))%nat by lia. apply Hz. lia.
Qed.

Lemma pad_one a : is_byte a -> exists x y, tab (Z.shiftr a 2) = Some x /\ tab (Z.shiftl (Z.land a 3) 4) = Some y /\ decode_pad [x; y; 61; 61] = Some [a].
Proof.
  intros Ha. pose proof (second a 0 Ha ltac:(unfold is_byte; lia)) as E. change (Z.shiftr 0 4) with 0 in E. rewrite Z.lor_0_r in E. rewrite E, first.
  change (0 / 16) with 0. rewrite Z.add_0_r.
  destruct (tab_idx (a / 4)) as (x & -> & Hx & _); [byte_lia|]. destruct (tab_idx (a mod 4 * 16)) as (y & -> & Hy & _); [byte_lia|].
  exists x, y. split_and!; try done. cbn [decode_pad]. rewrite Hx, Hy. cbn [mbind option_bind Z.eqb Pos.eqb]. rewrite (lor_shift _ _ 12) by byte_lia.
  rewrite Z.shiftl_mul_pow2, Z.shiftr_div_pow2 by lia. change (2 ^ 12) with 4096. change (2 ^ 16) with 65536. unfold u8. do 2 f_equal. byte_lia.
Qed.

Lemma pad_two a b : is_byte a -> is_byte b -> exists x y z, tab (Z.shiftr a 2) = Some x /\ tab (Z.lor (Z.shiftl (Z.land a 3) 4) (Z.shiftr b 4)) = Some y /\
  tab (Z.shiftl (Z.land b 15) 2) = Some z /\ z <> 61 /\ decode_pad [x; y; z; 61] = Some [a; b].
Proof.
  intros Ha Hb. pose proof (third b 0 Hb ltac:(unfold is_byte; lia)) as E. change (Z.shiftr 0 6) with 0 in E. rewrite Z.lor_0_r in E. rewrite E, first, second by done.
  change (0 / 64) with 0. rewrite Z.add_0_r.
  destruct (tab_idx (a / 4)) as (x & -> & Hx & _); [byte_lia|]. destruct (tab_idx (a mod 4 * 16 + b / 16)) as (y & -> & Hy & _); [byte_lia|].
  destruct (tab_idx (b mod 16 * 4)) as (z & -> & Hz & Hne); [byte_lia|]. exists x, y, z. split_and!; try done. cbn [decode_pad]. rewrite Hx, Hy. cbn [mbind option_bind].
  rewrite (proj2 (Z.eqb_neq z 61)), Hz by done. cbn [mbind option_bind]. rewrite (lor_shift _ _ 12), (lor_shift _ _ 6) by byte_lia.
  rewrite land255, !Z.shiftl_mul_pow2, !Z.shiftr_div_pow2 by lia. change (2 ^ 12) with 4096. change (2 ^ 16) with 65536. change (2 ^ 6) with 64. change (2 ^ 8) with 256.
  unfold u8. do 2 f_equal; [|f_equal]; byte_lia.
Qed.

(** The rest of a list behind its groups of three. *)
Lemma split_three (b : list Z) : exists q t r, b = t ++ r /\ length t = (3 * q)%nat /\ (length r < 3)%nat.
Proof.
  exists (length b / 3)%nat, (take (3 * (length b / 3)) b), (drop (3 * (length b / 3)) b). pose proof (Nat.div_mod_eq (length b) 3). pose proof (Nat.mod_upper_bound (length b) 3).
  split; [by rewrite take_drop|]. split; [rewrite length_take; lia|rewrite length_drop; lia].
Qed.

(** The last group decides how the end is read. *)
Lemma decode_with_pad o q x y z t more : length o = (4 * q)%nat -> (forall p, decode_groups q (o ++ p) = Some (t, p)) -> length t = (3 * q)%nat ->
  decode_pad [x; y; z; 61] = Some more -> (length more <= if (z =? 61)%Z then 1 else 2)%nat -> ti_bytes_from_base64 (o ++ [x; y; z; 61]) = Some (t ++ more).
Proof.
  intros Ho Hd Ht Hp Hm. unfold ti_bytes_from_base64. cbv zeta. rewrite length_app, Ho. cbn [length]. replace (4 * q + 4)%nat with (4 * (q + 1))%nat by lia.
  rewrite (proj2 (Nat.ltb_lt 0 _)), (proj2 (Nat.ltb_lt 1 _)) by lia. rewrite (Nat.mul_comm 4 (q + 1)), Nat.Div0.mod_mul. cbn [Nat.eqb negb orb andb].
  assert (Hlast : is_pad (o ++ [x; y; z; 61]) ((q + 1) * 4 - 1) = true).
  { unfold is_pad. apply bool_decide_eq_true_2. rewrite lookup_app_r by lia. replace ((q + 1) * 4 - 1 - length o)%nat with 3%nat by lia. done. }
  assert (Hthird : is_pad (o ++ [x; y; z; 61]) ((q + 1) * 4 - 2) = (z =? 61)).
  { unfold is_pad. rewrite lookup_app_r by lia. replace ((q + 1) * 4 - 2 - length o)%nat with 2%nat by lia. cbn [lookup list_lookup].
    destruct (Z.eqb_spec z 61) as [->|Hz]; [done|]. apply bool_decide_eq_false_2. congruence. }
  rewrite Hlast, Hthird. cbn [andb]. assert (Hdiv : (((q + 1) * 4 + 3) / 4 - 1)%nat = q).
  { rewrite Nat.add_comm, Nat.div_add by lia. cbn. lia. }
  rewrite Hdiv, Hd. cbn [mbind option_bind]. rewrite Hp. cbn [mbind option_bind]. rewrite (proj2 (Nat.leb_le _ _)); [done|].
  rewrite length_app, Ht. destruct (z =? 61); cbn [negb] in *; lia.
Qed.

Lemma encode_round b : Forall is_byte b -> exists out, encode_groups b = Some out /\ (length out <= 4 * ((length b + 2) / 3))%nat /\ ti_bytes_from_base64 out = Some b.
Proof.
  intros Hb. destruct (split_three b) as (q & t & r & -> & Hl & Hr). apply List.Forall_app in Hb as [Ht Hbr].
  destruct (groups_round q t r Hl Ht) as (o & Ho & He & Hd & Hz). rewrite He, length_app, Hl.
  assert (Hq : (q <= (3 * q + length r + 2) / 3)%nat) by (apply Nat.div_le_lower_bound; lia).
  destruct r as [|a [|b [|]]]; cbn [length] in Hr; try lia.
  - cbn [encode_groups mbind option_bind]. rewrite !app_nil_r. exists o. split; [done|]. split; [lia|]. unfold ti_bytes_from_base64. cbv zeta.
    assert (Hpad : (0 <? length o)%nat && (negb (length o mod 4 =? 0)%nat || is_pad o (length o - 1)) = false).
    { rewrite Ho. destruct q as [|q]; [done|]. rewrite (Nat.mul_comm 4), Nat.Div0.mod_mul. cbn [Nat.eqb negb orb]. unfold is_pad. rewrite bool_decide_eq_false_2; [apply andb_false_r|].
      rewrite Nat.mul_comm. apply Hz. lia. }
    rewrite Hpad, Ho. replace ((4 * q + 3) / 4 - 0)%nat with q by (rewrite Nat.sub_0_r, Nat.add_comm, (Nat.mul_comm 4), Nat.div_add by lia; done).
    specialize (Hd []). rewrite app_nil_r in Hd. rewrite Hd. cbn [mbind option_bind]. rewrite app_nil_r, Hl. rewrite (proj2 (Nat.leb_le _ _)) by lia. done.
  - apply List.Forall_inv in Hbr as Ha. destruct (pad_one a Ha) as (x & y & E1 & E2 & Hp). cbn [encode_groups]. rewrite E1, E2. cbn [mbind option_bind].
    eexists. split; [done|]. split; [rewrite length_app, Ho; cbn [length]; replace (3 * q + 1 + 2)%nat with ((q + 1) * 3)%nat by lia; rewrite Nat.div_mul; lia|].
    by apply (decode_with_pad o q).
  - apply List.Forall_inv in Hbr as Ha. apply List.Forall_inv_tail, List.Forall_inv in Hbr as Hb. destruct (pad_two a b Ha Hb) as (x & y & z & E1 & E2 & E3 & Hne & Hp).
    cbn [encode_groups]. rewrite E1, E2, E3. cbn [mbind option_bind]. eexists. split; [done|].
    split; [rewrite length_app, Ho; cbn [length]; replace (3 * q + 2 + 2)%nat with (1 + (q + 1) * 3)%nat by lia; rewrite Nat.div_add by lia; cbn; lia|].
    apply (decode_with_pad o q); try done. rewrite (proj2 (Z.eqb_neq z 61)) by done. cbn. lia.
Qed.



(** A text with one character more than full groups is read one byte too far. *)
Example decode_reads_outside : ti_bytes_from_base64 (str "A") = None /\ ti_bytes_from_base64 (str "TWFuA") = None.
Proof. vm_compute. done. Qed.
