(* ===== verification/Mpack.v ===== *)
(** * util/mpack: reading msgpack

    [src/inc/util/mpack.h]: the reader of msgpack ([mp_next], [mp_skip] and the macros they
    are made of) and the thin layer over the packer of the msgpack library. A buffer is a
    list of bytes; the unpacker is the position [pt] in it, its [end] the length of the
    buffer. [None] is a read outside the buffer, or no fuel left. *)
From Stdlib Require Import ZArith Lia.
From stdpp Require Import base list option numbers.
From S2P Require Import Prelude Utf8 Opr Strx.

Inductive mp_enum :=
  | MP_NEVER_USED | MP_INCOMPLETE | MP_ERR | MP_END
  | MP_I64 | MP_U64 | MP_F64 | MP_BIN | MP_STR | MP_BOOL | MP_NIL | MP_ARR | MP_MAP | MP_EXT.

#[global] Instance mp_enum_eq_dec : EqDecision mp_enum.
Proof. solve_decision. Defined.

(** The values of the enumeration. *)
Definition mp_code (t : mp_enum) : Z :=
  match t with
  | MP_NEVER_USED => -3 | MP_INCOMPLETE => -2 | MP_ERR => -1 | MP_END => 0
  | MP_I64 => 1 | MP_U64 => 2 | MP_F64 => 3 | MP_BIN => 4 | MP_STR => 5 | MP_BOOL => 6
  | MP_NIL => 7 | MP_ARR => 8 | MP_MAP => 9 | MP_EXT => 10
  end.

(** The union: doubles are their bits, pointers into the buffer are positions. [VNone] is
    the union of an object that is not set (no value, nil, errors). *)
Inductive mp_via :=
  | VNone
  | VI64 (z : Z) | VU64 (z : Z) | VF64 (bits : Z) | VBool (b : bool) | VSz (n : Z)
  | VStr (at_ n : Z)
  | VExt (at_ n tp : Z).

Record mp_obj := MpObj { o_tp : mp_enum; o_via : mp_via }.

(** Two's complement on [k] bytes. *)
Definition sx (k : nat) (x : Z) : Z :=
  let m := 2 ^ (8 * Z.of_nat k) in if x <? m / 2 then x else x - m.

(** The bits of [(double) f] for the bits of a float [f]: a NaN becomes a quiet NaN with
    the same payload, a float that is not normal becomes a normal double. *)
Definition f32_to_f64 (u : Z) : Z :=
  let s := Z.shiftr u 31 in
  let e := Z.land (Z.shiftr u 23) 255 in
  let m := Z.land u 8388607 in
  let d e m := Z.shiftl s 63 + Z.shiftl e 52 + m in
  if e =? 255 then d 2047 (if m =? 0 then 0 else Z.shiftl (Z.lor m 4194304) 29)
  else if negb (e =? 0) then d (e + 896) (Z.shiftl m 29)
  else if m =? 0 then d 0 0
  else let p := Z.log2 m in d (p + 874) (Z.shiftl (m - 2 ^ p) (52 - p)).

Section unpacker.

(** [char] is signed or not, as the target has it; the buffer. *)
Context (char_signed : bool) (data : list Z).

Definition end_ : Z := len data.

Definition byte_at (p : Z) : option Z := if p <? 0 then None else data !! Z.to_nat p.

(** [_msgpack_load16] and the others: big-endian. *)
Fixpoint load (k : nat) (p acc : Z) : option Z :=
  match k with
  | O => Some acc
  | S k => b ← byte_at p; load k (p + 1) (acc * 256 + b)
  end.

(** The macros return from the function they are in or go on: with the type that is
    returned or with what is read, and the position. *)
Definition step (A : Type) : Type := option ((mp_enum * Z) + (A * Z)).

Definition mp_read (k : nat) (pt : Z) : option ((mp_enum * Z) + (Z * Z)) :=
  if end_ <=? pt + Z.of_nat k - 1 then Some (inl (MP_INCOMPLETE, pt))
  else v ← load k pt 0; Some (inr (v, pt + Z.of_nat k)).

Definition mp_read_8 : Z -> step Z := mp_read 1.
Definition mp_read_16 : Z -> step Z := mp_read 2.
Definition mp_read_32 : Z -> step Z := mp_read 4.
Definition mp_read_64 : Z -> step Z := mp_read 8.

Definition mp_skip_chars (n pt : Z) : step unit :=
  let pt := pt + n in
  if end_ <? pt then Some (inl (MP_INCOMPLETE, pt)) else Some (inr (tt, pt)).

Definition mp_read_obj_data (n pt : Z) : step Z :=
  let at_ := pt in
  let pt := pt + n in
  if end_ <? pt then Some (inl (MP_INCOMPLETE, pt)) else Some (inr (at_, pt)).

Definition mp_read_ext_type (pt : Z) : option ((mp_enum * Z) + (Z * Z)) :=
  if end_ <=? pt then Some (inl (MP_INCOMPLETE, pt))
  else c ← byte_at pt; Some (inr (sx 1 c, pt + 1)).

(** Sequencing in [mp_next] and in [mp_skip]. *)
Definition then_next {A} (m : step A) (k : A -> Z -> option (mp_obj * Z)) : option (mp_obj * Z) :=
  match m with
  | None => None
  | Some (inl (t, pt)) => Some (MpObj t VNone, pt)
  | Some (inr (a, pt)) => k a pt
  end.

Definition then_skip {A} (m : step A) (k : A -> Z -> option (mp_enum * Z)) : option (mp_enum * Z) :=
  match m with
  | None => None
  | Some (inl r) => Some r
  | Some (inr (a, pt)) => k a pt
  end.

(** The parts of [mp_next]: sizes of [k] bytes of what follows, and numbers. *)
Definition next_raw (tp : mp_enum) (n pt : Z) : option (mp_obj * Z) :=
  then_next (mp_read_obj_data n pt) (fun at_ pt => Some (MpObj tp (VStr at_ n), pt)).

Definition next_ext (n pt : Z) : option (mp_obj * Z) :=
  then_next (mp_read_ext_type pt) (fun t pt =>
  then_next (mp_read_obj_data n pt) (fun at_ pt => Some (MpObj MP_EXT (VExt at_ n t), pt))).

Definition next_num (tp : mp_enum) (via : Z -> mp_via) (v pt : Z) : option (mp_obj * Z) :=
  Some (MpObj tp (via v), pt).

Definition mp_next (pt : Z) : option (mp_obj * Z) :=
  if end_ <=? pt then Some (MpObj MP_END VNone, pt) else
  token ← byte_at pt;
  let pt := pt + 1 in
  if in_rng 0x00 token 0x7f then Some (MpObj MP_U64 (VU64 token), pt)
  else if in_rng 0x80 token 0x8f then Some (MpObj MP_MAP (VSz (Z.land 0xf token)), pt)
  else if in_rng 0x90 token 0x9f then Some (MpObj MP_ARR (VSz (Z.land 0xf token)), pt)
  else if in_rng 0xa0 token 0xbf then next_raw MP_STR (Z.land 0x1f token) pt
  else if token =? 0xc0 then Some (MpObj MP_NIL VNone, pt)
  else if token =? 0xc1 then Some (MpObj MP_NEVER_USED VNone, pt)
  else if token =? 0xc2 then Some (MpObj MP_BOOL (VBool false), pt)
  else if token =? 0xc3 then Some (MpObj MP_BOOL (VBool true), pt)
  else if token =? 0xc4 then then_next (mp_read_8 pt) (next_raw MP_BIN)
  else if token =? 0xc5 then then_next (mp_read_16 pt) (next_raw MP_BIN)
  else if token =? 0xc6 then then_next (mp_read_32 pt) (next_raw MP_BIN)
  else if token =? 0xc7 then then_next (mp_read_8 pt) next_ext
  else if token =? 0xc8 then then_next (mp_read_16 pt) next_ext
  else if token =? 0xc9 then then_next (mp_read_32 pt) next_ext
  else if token =? 0xca then then_next (mp_read_32 pt) (next_num MP_F64 (fun u => VF64 (f32_to_f64 u)))
  else if token =? 0xcb then then_next (mp_read_64 pt) (next_num MP_F64 VF64)
  else if token =? 0xcc then then_next (mp_read_8 pt) (next_num MP_U64 VU64)
  else if token =? 0xcd then then_next (mp_read_16 pt) (next_num MP_U64 VU64)
  else if token =? 0xce then then_next (mp_read_32 pt) (next_num MP_U64 VU64)
  else if token =? 0xcf then then_next (mp_read_64 pt) (next_num MP_U64 VU64)
  else if token =? 0xd0 then then_next (mp_read_8 pt) (next_num MP_I64 (fun u => VI64 (sx 1 u)))
  else if token =? 0xd1 then then_next (mp_read_16 pt) (next_num MP_I64 (fun u => VI64 (sx 2 u)))
  else if token =? 0xd2 then then_next (mp_read_32 pt) (next_num MP_I64 (fun u => VI64 (sx 4 u)))
  else if token =? 0xd3 then then_next (mp_read_64 pt) (next_num MP_I64 (fun u => VI64 (sx 8 u)))
  else if in_rng 0xd4 token 0xd8 then next_ext (Z.shiftl 1 (token - 0xd4)) pt
  else if token =? 0xd9 then then_next (mp_read_8 pt) (next_raw MP_STR)
  else if token =? 0xda then then_next (mp_read_16 pt) (next_raw MP_STR)
  else if token =? 0xdb then then_next (mp_read_32 pt) (next_raw MP_STR)
  else if token =? 0xdc then then_next (mp_read_16 pt) (next_num MP_ARR VSz)
  else if token =? 0xdd then then_next (mp_read_32 pt) (next_num MP_ARR VSz)
  else if token =? 0xde then then_next (mp_read_16 pt) (next_num MP_MAP VSz)
  else if token =? 0xdf then then_next (mp_read_32 pt) (next_num MP_MAP VSz)
  else if in_rng 0xe0 token 0xff then
    Some (MpObj MP_I64 (VI64 (if char_signed then sx 1 token else token)), pt)
  else Some (MpObj MP_ERR VNone, pt).

(** [mp_skip] for all but arrays and maps: skip [n] bytes and return [tp]. *)
Definition skip_to (tp : mp_enum) (n pt : Z) : option (mp_enum * Z) :=
  then_skip (mp_skip_chars n pt) (fun _ pt => Some (tp, pt)).

(** [mp_skip] and the loop of [mp_skip_n]; [fuel] bounds the calls that are open and the
    rounds of the loops. *)
Fixpoint mp_skip (fuel : nat) (pt : Z) : option (mp_enum * Z) :=
  match fuel with
  | O => None
  | S fuel =>
    let skip_all tp n pt := then_skip (mp_skip_n fuel n pt) (fun _ pt => Some (tp, pt)) in
    if end_ <=? pt then Some (MP_END, pt) else
    token ← byte_at pt;
    let pt := pt + 1 in
    if in_rng 0x00 token 0x7f then Some (MP_U64, pt)
    else if in_rng 0x80 token 0x8f then skip_all MP_MAP (Z.land 0xf token * 2) pt
    else if in_rng 0x90 token 0x9f then skip_all MP_ARR (Z.land 0xf token) pt
    else if in_rng 0xa0 token 0xbf then skip_to MP_STR (Z.land 0x1f token) pt
    else if token =? 0xc0 then Some (MP_NIL, pt)
    else if token =? 0xc1 then Some (MP_NEVER_USED, pt)
    else if in_rng 0xc2 token 0xc3 then Some (MP_BOOL, pt)
    else if token =? 0xc4 then then_skip (mp_read_8 pt) (skip_to MP_BIN)
    else if token =? 0xc5 then then_skip (mp_read_16 pt) (skip_to MP_BIN)
    else if token =? 0xc6 then then_skip (mp_read_32 pt) (skip_to MP_BIN)
    else if token =? 0xc7 then then_skip (mp_read_8 pt) (fun n => skip_to MP_EXT (n + 1))
    else if token =? 0xc8 then then_skip (mp_read_16 pt) (fun n => skip_to MP_EXT (n + 1))
    else if token =? 0xc9 then then_skip (mp_read_32 pt) (fun n => skip_to MP_EXT (u32 (n + 1)))
    else if token =? 0xca then skip_to MP_F64 4 pt
    else if token =? 0xcb then skip_to MP_F64 8 pt
    else if token =? 0xcc then skip_to MP_U64 1 pt
    else if token =? 0xcd then skip_to MP_U64 2 pt
    else if token =? 0xce then skip_to MP_U64 4 pt
    else if token =? 0xcf then skip_to MP_U64 8 pt
    else if token =? 0xd0 then skip_to MP_I64 1 pt
    else if token =? 0xd1 then skip_to MP_I64 2 pt
    else if token =? 0xd2 then skip_to MP_I64 4 pt
    else if token =? 0xd3 then skip_to MP_I64 8 pt
    else if in_rng 0xd4 token 0xd8 then skip_to MP_EXT (Z.shiftl 1 (token - 0xd4) + 1) pt
    else if token =? 0xd9 then then_skip (mp_read_8 pt) (skip_to MP_STR)
    else if token =? 0xda then then_skip (mp_read_16 pt) (skip_to MP_STR)
    else if token =? 0xdb then then_skip (mp_read_32 pt) (skip_to MP_STR)
    else if token =? 0xdc then then_skip (mp_read_16 pt) (skip_all MP_ARR)
    else if token =? 0xdd then then_skip (mp_read_32 pt) (skip_all MP_ARR)
    else if token =? 0xde then then_skip (mp_read_16 pt) (fun n => skip_all MP_MAP (n * 2))
    else if token =? 0xdf then then_skip (mp_read_32 pt) (fun n => skip_all MP_MAP (u32 (n * 2)))
    else if in_rng 0xe0 token 0xff then Some (MP_I64, pt)
    else Some (MP_ERR, pt)
  end
with mp_skip_n (fuel : nat) (sz : Z) (pt : Z) : option ((mp_enum * Z) + (unit * Z)) :=
  match fuel with
  | O => None
  | S fuel =>
    if sz =? 0 then Some (inr (tt, pt)) else
    '(tp, pt) ← mp_skip fuel pt;
    if mp_code tp <=? 0 then Some (inl (if mp_code tp =? 0 then MP_INCOMPLETE else tp, pt))
    else mp_skip_n fuel (sz - 1) pt
  end.

(** Enough for every buffer (see [mp_skip_total]). *)
Definition skip_fuel : nat := 2 * length data + 2.

Definition mp_skip_nil (pt : Z) : option (bool * Z) :=
  '(tp, pt') ← mp_skip skip_fuel pt;
  Some (if decide (tp = MP_NIL) then (true, pt') else (false, pt)).

Definition mp_is_valid : option bool :=
  '(tp, pt) ← mp_skip skip_fuel 0;
  if negb (0 <? mp_code tp) then Some false else
  '(tp, _) ← mp_skip skip_fuel pt;
  Some (bool_decide (tp = MP_END)).

End unpacker.

(** ** Casts of numbers: the type of the object is left as it was *)

Definition mp_cast_u64 (o : mp_obj) : option mp_obj :=
  match o_tp o, o_via o with
  | MP_U64, _ => Some o
  | MP_I64, VI64 z => Some (MpObj MP_I64 (VU64 (u64 z)))
  | _, _ => None
  end.

Definition mp_cast_i64 (o : mp_obj) : option mp_obj :=
  match o_tp o, o_via o with
  | MP_I64, _ => Some o
  | MP_U64, VU64 z => if LLONG_MAX <? z then None else Some (MpObj MP_U64 (VI64 z))
  | _, _ => None
  end.

(** ** Packing *)

(** The packer of the msgpack library: what has been packed so far goes in, what has been
    packed after the call comes out, [None] is a failure of the write callback. *)
Class Packer := {
  msgpack_pack_true : list Z -> option (list Z);
  msgpack_pack_false : list Z -> option (list Z);
  msgpack_pack_bin : list Z -> Z -> option (list Z);
  msgpack_pack_bin_body : list Z -> list Z -> option (list Z);
  msgpack_pack_str : list Z -> Z -> option (list Z);
  msgpack_pack_str_body : list Z -> list Z -> option (list Z);
  msgpack_pack_ext : list Z -> Z -> Z -> option (list Z);
  msgpack_pack_ext_body : list Z -> list Z -> option (list Z);
  msgpack_pack_array : list Z -> Z -> option (list Z);
  msgpack_pack_map : list Z -> Z -> option (list Z);
  msgpack_pack_uint8 : list Z -> Z -> option (list Z);
  msgpack_pack_uint64 : list Z -> Z -> option (list Z);
  msgpack_pack_nil : list Z -> option (list Z);
}.

Section packing.

Context `{P : Packer}.

(** [rc = head || (n && body)] *)
Definition with_body (x : option (list Z)) (body : list Z -> list Z -> option (list Z)) (b : list Z) : option (list Z) :=
  x ← x; if negb (len b =? 0) then body x b else Some x.

Definition mp_pack_bool (x : list Z) (b : bool) : option (list Z) :=
  if b then msgpack_pack_true x else msgpack_pack_false x.

Definition mp_pack_bin (x : list Z) (b : list Z) : option (list Z) :=
  with_body (msgpack_pack_bin x (len b)) msgpack_pack_bin_body b.

Definition mp_pack_strn (x : list Z) (s : list Z) : option (list Z) :=
  with_body (msgpack_pack_str x (len s)) msgpack_pack_str_body s.

Definition mp_pack_ext (x : list Z) (ext : Z) (s : list Z) : option (list Z) :=
  with_body (msgpack_pack_ext x (len s) ext) msgpack_pack_ext_body s.

(** [printed] is the text the format gives, [None] when [vsnprintf] fails; [mem] is whether
    [malloc] gives memory. *)
Definition mp_pack_fmt (mem : bool) (x : list Z) (printed : option (list Z)) : option (list Z) :=
  text ← printed;
  x ← msgpack_pack_str x (len text);
  if len text <? 255 then msgpack_pack_str_body x text
  else if negb mem then None
  else if negb (len text =? 0) then msgpack_pack_str_body x text else Some x.

End packing.
