(* ===== verification/MpackProof.v ===== *)
(** * util/mpack: the format, and the reader against it

    [head] and [item] are the grammar of msgpack, written from the description of the
    format: the first bytes of a value with what it holds, and whole values. The reader is
    brought into one form ([form], a table by first byte) and compared with the grammar. *)
From Stdlib Require Import ZArith Lia.
From stdpp Require Import base list option numbers.
From S2P Require Import Prelude Utf8 Opr Strx Mpack.

Definition byte_list (l : list Z) : Prop := Forall (fun b => 0 <= b < 256) l.

(** ** Big-endian numbers *)

Fixpoint be (k : nat) (z : Z) : list Z :=
  match k with
  | O => []
  | S k => (z / 256 ^ Z.of_nat k) mod 256 :: be k z
  end.

Fixpoint unbe (l : list Z) (acc : Z) : Z :=
  match l with [] => acc | b :: l => unbe l (acc * 256 + b) end.

Lemma length_be k z : length (be k z) = k.
Proof. induction k; simpl; congruence. Qed.

Lemma be_bytes k z : byte_list (be k z).
Proof. induction k; constructor; [apply Z.mod_pos_bound; lia|done]. Qed.

Lemma pow256_pos k : 0 < 256 ^ Z.of_nat k.
Proof. apply Z.pow_pos_nonneg; lia. Qed.

Lemma pow256_S k : 256 ^ Z.of_nat (S k) = 256 * 256 ^ Z.of_nat k.
Proof. rewrite Nat2Z.inj_succ, Z.pow_succ_r by lia. done. Qed.

Lemma unbe_acc l : forall acc, unbe l acc = acc * 256 ^ Z.of_nat (length l) + unbe l 0.
Proof.
  induction l as [|b l IH]; intros acc; [simpl; lia|]. cbn [unbe length]. rewrite (IH (acc * 256 + b)), (IH (0 * 256 + b)), pow256_S. lia.
Qed.

Lemma unbe_bound l : byte_list l -> 0 <= unbe l 0 < 256 ^ Z.of_nat (length l).
Proof.
  induction 1 as [|b l Hb Hl IH]; [simpl; lia|]. cbn [unbe length]. rewrite unbe_acc, pow256_S. nia.
Qed.

Lemma be_add k c z : be k (c * 256 ^ Z.of_nat k + z) = be k z.
Proof.
  revert c. induction k as [|k IH]; intros c; [done|]. pose proof (pow256_pos k). cbn [be]. rewrite pow256_S.
  replace (c * (256 * 256 ^ Z.of_nat k) + z) with (z + c * 256 * 256 ^ Z.of_nat k) by lia. rewrite Z.div_add by lia. f_equal.
  - rewrite Z.mod_add by lia. done.
  - rewrite Z.add_comm. apply (IH (c * 256)).
Qed.

Lemma be_mod k z : be k z = be k (z mod 256 ^ Z.of_nat k).
Proof.
  pose proof (pow256_pos k). rewrite (Z.div_mod z (256 ^ Z.of_nat k)) at 1 by lia. by rewrite (Z.mul_comm (256 ^ _)), be_add.
Qed.

Lemma be_unbe l : byte_list l -> be (length l) (unbe l 0) = l.
Proof.
  induction 1 as [|b l Hb Hl IH]; [done|]. cbn [length be unbe]. rewrite (unbe_acc l (0 * 256 + b)). pose proof (unbe_bound l Hl).
  rewrite be_add, IH. f_equal. replace ((0 * 256 + b) * 256 ^ Z.of_nat (length l) + unbe l 0) with (unbe l 0 + b * 256 ^ Z.of_nat (length l)) by lia.
  rewrite Z.div_add, Z.div_small by lia. rewrite Z.mod_small; lia.
Qed.

Lemma unbe_be_mod k z : unbe (be k z) 0 = z mod 256 ^ Z.of_nat k.
Proof.
  induction k as [|k IH]; [cbn; by rewrite Z.mod_1_r|]. cbn [be unbe]. rewrite unbe_acc, length_be, IH, pow256_S. pose proof (pow256_pos k).
  rewrite (Z.mul_comm 256), Z.rem_mul_r by lia. lia.
Qed.

Lemma unbe_be k z : 0 <= z < 256 ^ Z.of_nat k -> unbe (be k z) 0 = z.
Proof. intros H. rewrite unbe_be_mod. by apply Z.mod_small. Qed.

Lemma sx_mod k z : (0 < k)%nat -> - (2 ^ (8 * Z.of_nat k - 1)) <= z < 2 ^ (8 * Z.of_nat k - 1) -> sx k (z mod 256 ^ Z.of_nat k) = z.
Proof.
  intros Hk Hz. unfold sx. cbv zeta. replace (256 ^ Z.of_nat k) with (2 ^ (8 * Z.of_nat k)) by (rewrite Z.pow_mul_r by lia; done).
  replace (2 ^ (8 * Z.of_nat k)) with (2 * 2 ^ (8 * Z.of_nat k - 1)) by (rewrite <- Z.pow_succ_r by lia; f_equal; lia).
  set (h := 2 ^ (8 * Z.of_nat k - 1)) in *. replace (2 * h / 2) with h by (rewrite Z.mul_comm, Z.div_mul; lia).
  destruct (Z.lt_ge_cases z 0) as [Hn|Hn].
  - replace (z mod (2 * h)) with (z + 2 * h) by (rewrite <- (Z.mod_small (z + 2 * h) (2 * h)) by lia; rewrite <- Z.add_mod_idemp_r, Z.mod_same, Z.add_0_r by lia; done).
    zbool; lia.
  - rewrite Z.mod_small by lia. zbool; lia.
Qed.

Lemma sx_range k u : (0 < k)%nat -> 0 <= u < 256 ^ Z.of_nat k -> - (2 ^ (8 * Z.of_nat k - 1)) <= sx k u < 2 ^ (8 * Z.of_nat k - 1) /\ u = sx k u mod 256 ^ Z.of_nat k.
Proof.
  intros Hk Hu. unfold sx. cbv zeta. replace (256 ^ Z.of_nat k) with (2 ^ (8 * Z.of_nat k)) in * by (rewrite Z.pow_mul_r by lia; done).
  replace (2 ^ (8 * Z.of_nat k)) with (2 * 2 ^ (8 * Z.of_nat k - 1)) in * by (rewrite <- Z.pow_succ_r by lia; f_equal; lia).
  set (h := 2 ^ (8 * Z.of_nat k - 1)) in *. replace (2 * h / 2) with h by (rewrite Z.mul_comm, Z.div_mul; lia).
  destruct (Z.ltb_spec u h).
  - split; [lia|]. by rewrite Z.mod_small by lia.
  - split; [lia|]. symmetry. rewrite <- (Z.mod_small u (2 * h)) at 2 by lia. replace (u - 2 * h) with (u + (-1) * (2 * h)) by lia. apply Z.mod_add. lia.
Qed.

(** ** The grammar *)

(** What the first bytes of a value tell. Numbers of the unsigned and of the signed forms
    are told apart, as the reader does. *)
Inductive value :=
  | HUint (z : Z) | HInt (z : Z) | HF64 (bits : Z) | HNil | HBool (b : bool)
  | HStr (l : list Z) | HBin (l : list Z) | HExt (tp : Z) (l : list Z)
  | HArr (n : Z) | HMap (n : Z).

Definition type_of (v : value) : mp_enum :=
  match v with
  | HUint _ => MP_U64 | HInt _ => MP_I64 | HF64 _ => MP_F64 | HNil => MP_NIL | HBool _ => MP_BOOL
  | HStr _ => MP_STR | HBin _ => MP_BIN | HExt _ _ => MP_EXT | HArr _ => MP_ARR | HMap _ => MP_MAP
  end.

Definition is_leaf (v : value) : bool := match v with HArr _ | HMap _ => false | _ => true end.

Inductive head : list Z -> value -> Prop :=
  | head_posfix z : 0 <= z < 128 -> head [z] (HUint z)
  | head_negfix z : -32 <= z < 0 -> head [256 + z] (HInt z)
  | head_uint t k z : (t, k) ∈ [(0xcc, 1%nat); (0xcd, 2%nat); (0xce, 4%nat); (0xcf, 8%nat)] ->
      0 <= z < 256 ^ Z.of_nat k -> head (t :: be k z) (HUint z)
  | head_int t k z : (t, k) ∈ [(0xd0, 1%nat); (0xd1, 2%nat); (0xd2, 4%nat); (0xd3, 8%nat)] ->
      - (2 ^ (8 * Z.of_nat k - 1)) <= z < 2 ^ (8 * Z.of_nat k - 1) -> head (t :: be k z) (HInt z)
  | head_f32 u : 0 <= u < 2 ^ 32 -> head (0xca :: be 4 u) (HF64 (f32_to_f64 u))
  | head_f64 u : 0 <= u < 2 ^ 64 -> head (0xcb :: be 8 u) (HF64 u)
  | head_nil : head [0xc0] HNil
  | head_false : head [0xc2] (HBool false)
  | head_true : head [0xc3] (HBool true)
  | head_fixstr l : len l < 32 -> head (0xa0 + len l :: l) (HStr l)
  | head_str t k l : (t, k) ∈ [(0xd9, 1%nat); (0xda, 2%nat); (0xdb, 4%nat)] ->
      len l < 256 ^ Z.of_nat k -> head (t :: be k (len l) ++ l) (HStr l)
  | head_bin t k l : (t, k) ∈ [(0xc4, 1%nat); (0xc5, 2%nat); (0xc6, 4%nat)] ->
      len l < 256 ^ Z.of_nat k -> head (t :: be k (len l) ++ l) (HBin l)
  | head_fixext t tp l : (t, len l) ∈ [(0xd4, 1); (0xd5, 2); (0xd6, 4); (0xd7, 8); (0xd8, 16)] ->
      -128 <= tp < 128 -> head (t :: be 1 tp ++ l) (HExt tp l)
  | head_ext t k tp l : (t, k) ∈ [(0xc7, 1%nat); (0xc8, 2%nat); (0xc9, 4%nat)] ->
      -128 <= tp < 128 -> len l < 256 ^ Z.of_nat k -> head (t :: be k (len l) ++ be 1 tp ++ l) (HExt tp l)
  | head_fixarr n : 0 <= n < 16 -> head [0x90 + n] (HArr n)
  | head_arr t k n : (t, k) ∈ [(0xdc, 2%nat); (0xdd, 4%nat)] -> 0 <= n < 256 ^ Z.of_nat k -> head (t :: be k n) (HArr n)
  | head_fixmap n : 0 <= n < 16 -> head [0x80 + n] (HMap n)
  | head_map t k n : (t, k) ∈ [(0xde, 2%nat); (0xdf, 4%nat)] -> 0 <= n < 256 ^ Z.of_nat k -> head (t :: be k n) (HMap n).

(** Whole values. With [w] the grammar has what [mp_skip] takes for values besides: an
    extension of [2 ^ 32 - 1] bytes without its contents, and a map of [n >= 2 ^ 31] pairs
    with [2 * n - 2 ^ 32] keys and values only. *)
Inductive item (w : bool) : list Z -> mp_enum -> Prop :=
  | item_leaf b v : head b v -> is_leaf v = true -> item w b (type_of v)
  | item_arr b n r : head b (HArr n) -> items w (Z.to_nat n) r -> item w (b ++ r) MP_ARR
  | item_map b n r : head b (HMap n) -> items w (Z.to_nat (2 * n)) r -> item w (b ++ r) MP_MAP
  | item_ext_wraps : w = true -> item w [0xc9; 0xff; 0xff; 0xff; 0xff] MP_EXT
  | item_map_wraps n r : w = true -> 2 ^ 31 <= n < 2 ^ 32 -> items w (Z.to_nat (2 * n - 2 ^ 32)) r ->
      item w ((0xdf :: be 4 n) ++ r) MP_MAP
with items (w : bool) : nat -> list Z -> Prop :=
  | items_none : items w 0 []
  | items_more n b t r : item w b t -> items w n r -> items w (S n) (b ++ r).

Scheme item_ind' := Induction for item Sort Prop
with items_ind' := Induction for items Sort Prop.
Combined Scheme item_items_ind from item_ind', items_ind'.

(** ** One form for both readers *)

Inductive shape :=
  | ShNever
  | ShImm (tp : mp_enum) (v : mp_via)
  | ShNum (tp : mp_enum) (k : nat) (v : Z -> mp_via)
  | ShRaw (tp : mp_enum) (k : nat) (n : Z)
  | ShExt (k : nat) (n : Z)
  | ShSz (tp : mp_enum) (k : nat) (n : Z).

Definition forms : list shape := [
  ShImm MP_NIL VNone; ShNever; ShImm MP_BOOL (VBool false); ShImm MP_BOOL (VBool true);
  ShRaw MP_BIN 1 0; ShRaw MP_BIN 2 0; ShRaw MP_BIN 4 0; ShExt 1 0; ShExt 2 0; ShExt 4 0;
  ShNum MP_F64 4 (fun u => VF64 (f32_to_f64 u)); ShNum MP_F64 8 VF64;
  ShNum MP_U64 1 VU64; ShNum MP_U64 2 VU64; ShNum MP_U64 4 VU64; ShNum MP_U64 8 VU64;
  ShNum MP_I64 1 (fun u => VI64 (sx 1 u)); ShNum MP_I64 2 (fun u => VI64 (sx 2 u));
  ShNum MP_I64 4 (fun u => VI64 (sx 4 u)); ShNum MP_I64 8 (fun u => VI64 (sx 8 u));
  ShExt 0 1; ShExt 0 2; ShExt 0 4; ShExt 0 8; ShExt 0 16;
  ShRaw MP_STR 1 0; ShRaw MP_STR 2 0; ShRaw MP_STR 4 0;
  ShSz MP_ARR 2 0; ShSz MP_ARR 4 0; ShSz MP_MAP 2 0; ShSz MP_MAP 4 0].

Definition form (t : Z) : shape :=
  if t <? 0x80 then ShImm MP_U64 (VU64 t)
  else if t <? 0x90 then ShSz MP_MAP 0 (t - 0x80)
  else if t <? 0xa0 then ShSz MP_ARR 0 (t - 0x90)
  else if t <? 0xc0 then ShRaw MP_STR 0 (t - 0xa0)
  else if t <? 0xe0 then List.nth (Z.to_nat (t - 0xc0)) forms ShNever
  else ShImm MP_I64 (VI64 (t - 256)).

Lemma rng_t a x b : a <= x <= b -> in_rng a x b = true.
Proof. intros. unfold in_rng. lia. Qed.
Lemma rng_f a x b : x < a \/ b < x -> in_rng a x b = false.
Proof. intros. unfold in_rng. lia. Qed.

Ltac ranges := repeat first [rewrite rng_t by lia | rewrite rng_f by lia | rewrite (proj2 (Z.eqb_neq _ _)) by lia].

Section reader.

Context (data : list Z).

(** The size of what follows: in the first byte ([k] is 0) or in [k] bytes. *)
Definition size (k : nat) (n pt : Z) : option ((mp_enum * Z) + (Z * Z)) :=
  match k with O => Some (inr (n, pt)) | _ => mp_read data k pt end.

Definition next_form (s : shape) (pt : Z) : option (mp_obj * Z) :=
  match s with
  | ShNever => Some (MpObj MP_NEVER_USED VNone, pt)
  | ShImm tp v => Some (MpObj tp v, pt)
  | ShNum tp k v => then_next (mp_read data k pt) (next_num tp v)
  | ShRaw tp k n => then_next (size k n pt) (next_raw data tp)
  | ShExt k n => then_next (size k n pt) (next_ext data)
  | ShSz tp k n => then_next (size k n pt) (next_num tp VSz)
  end.

(** The number of bytes and of values [mp_skip] passes over for a size [n] of [k] bytes. *)
Definition ext_chars (k : nat) (n : Z) : Z := if (k =? 4)%nat then u32 (n + 1) else n + 1.
Definition map_items (k : nat) (n : Z) : Z := if (k =? 4)%nat then u32 (n * 2) else n * 2.
Definition sz_items (tp : mp_enum) (k : nat) (n : Z) : Z := if decide (tp = MP_MAP) then map_items k n else n.

Definition skip_form (f : nat) (s : shape) (pt : Z) : option (mp_enum * Z) :=
  match s with
  | ShNever => Some (MP_NEVER_USED, pt)
  | ShImm tp _ => Some (tp, pt)
  | ShNum tp k _ => skip_to data tp (Z.of_nat k) pt
  | ShRaw tp k n => then_skip (size k n pt) (skip_to data tp)
  | ShExt k n => then_skip (size k n pt) (fun n => skip_to data MP_EXT (ext_chars k n))
  | ShSz tp k n => then_skip (size k n pt) (fun n pt =>
      then_skip (mp_skip_n data f (sz_items tp k n) pt) (fun _ pt => Some (tp, pt)))
  end.

(** First bytes from [0xc0] to [0xdf] one by one. *)
Lemma mid_cases (Q : Z -> Prop) : Forall Q (map (fun i => 0xc0 + Z.of_nat i) (seq 0 32)) -> forall t, 0xc0 <= t < 0xe0 -> Q t.
Proof.
  intros H t Ht. rewrite Forall_forall in H. apply H, in_map_iff. exists (Z.to_nat (t - 0xc0)). split; [lia|]. apply in_seq. lia.
Qed.

Lemma land_low t a k : 0 <= k -> a mod 2 ^ k = 0 -> a <= t < a + 2 ^ k -> Z.land (2 ^ k - 1) t = t - a.
Proof.
  intros Hk Ha Ht. rewrite Z.land_comm. replace (2 ^ k - 1) with (Z.ones k) by (rewrite Z.ones_equiv; lia). rewrite Z.land_ones by lia.
  apply Z.div_exact in Ha; [|lia]. rewrite Ha in Ht |- *. rewrite <- (Z.mod_small (t - 2 ^ k * (a / 2 ^ k)) (2 ^ k)) by lia.
  replace t with ((t - 2 ^ k * (a / 2 ^ k)) + (a / 2 ^ k) * 2 ^ k) at 1 by lia. rewrite Z.mod_add by lia. done.
Qed.

Lemma mp_next_form pt t : pt < end_ data -> byte_at data pt = Some t -> 0 <= t < 256 ->
  mp_next true data pt = next_form (form t) (pt + 1).
Proof.
  intros Hpt Hb Ht. unfold mp_next. rewrite (proj2 (Z.leb_gt _ _)), Hb by lia. cbn [mbind option_bind]. cbv zeta. unfold form.
  destruct (Z.ltb_spec t 0x80); [by ranges|]. destruct (Z.ltb_spec t 0x90).
  { ranges. pose proof (land_low t 0x80 4 ltac:(lia) eq_refl ltac:(lia)) as E. change (2 ^ 4 - 1) with 0xf in E. by rewrite E. }
  destruct (Z.ltb_spec t 0xa0).
  { ranges. pose proof (land_low t 0x90 4 ltac:(lia) eq_refl ltac:(lia)) as E. change (2 ^ 4 - 1) with 0xf in E. by rewrite E. }
  destruct (Z.ltb_spec t 0xc0).
  { ranges. pose proof (land_low t 0xa0 5 ltac:(lia) eq_refl ltac:(lia)) as E. change (2 ^ 5 - 1) with 0x1f in E. by rewrite E. }
  destruct (Z.ltb_spec t 0xe0) as [Hlt|Hge].
  { assert (Hm : 0xc0 <= t < 0xe0) by lia. clear -Hm. revert t Hm. apply mid_cases. repeat constructor. }
  ranges. unfold next_form, sx. change (2 ^ (8 * Z.of_nat 1)) with 256. change (256 / 2) with 128. zbool; [lia|done].
Qed.

Lemma mp_skip_form f pt t : pt < end_ data -> byte_at data pt = Some t -> 0 <= t < 256 ->
  mp_skip data (S f) pt = skip_form f (form t) (pt + 1).
Proof.
  intros Hpt Hb Ht. cbn [mp_skip]. rewrite (proj2 (Z.leb_gt _ _)), Hb by lia. cbn [mbind option_bind]. unfold form.
  destruct (Z.ltb_spec t 0x80); [by ranges|]. destruct (Z.ltb_spec t 0x90).
  { ranges. pose proof (land_low t 0x80 4 ltac:(lia) eq_refl ltac:(lia)) as E. change (2 ^ 4 - 1) with 0xf in E. by rewrite E. }
  destruct (Z.ltb_spec t 0xa0).
  { ranges. pose proof (land_low t 0x90 4 ltac:(lia) eq_refl ltac:(lia)) as E. change (2 ^ 4 - 1) with 0xf in E. by rewrite E. }
  destruct (Z.ltb_spec t 0xc0).
  { ranges. pose proof (land_low t 0xa0 5 ltac:(lia) eq_refl ltac:(lia)) as E. change (2 ^ 5 - 1) with 0x1f in E. by rewrite E. }
  destruct (Z.ltb_spec t 0xe0) as [Hlt|Hge]; [|by ranges].
  assert (Hm : 0xc0 <= t < 0xe0) by lia. clear -Hm. revert t Hm. apply mid_cases. repeat constructor.
Qed.

End reader.

(** ** The grammar by first byte *)

Definition dec (k : nat) (n : Z) (b : list Z) : Z := match k with O => n | _ => unbe b 0 end.

Definition num_value (v : mp_via) : value :=
  match v with
  | VU64 z => HUint z | VI64 z => HInt z | VF64 u => HF64 u | VBool b => HBool b | _ => HNil
  end.
Definition raw_value (tp : mp_enum) (l : list Z) : value := if decide (tp = MP_STR) then HStr l else HBin l.
Definition sz_value (tp : mp_enum) (n : Z) : value := if decide (tp = MP_MAP) then HMap n else HArr n.

Definition head_of (s : shape) (r : list Z) (v : value) : Prop :=
  match s with
  | ShNever => False
  | ShImm tp via => r = [] /\ v = num_value via
  | ShNum tp k via => length r = k /\ v = num_value (via (unbe r 0))
  | ShRaw tp k n => exists b l, r = b ++ l /\ length b = k /\ len l = dec k n b /\ v = raw_value tp l
  | ShExt k n => exists b c l, r = b ++ c :: l /\ length b = k /\ len l = dec k n b /\ v = HExt (sx 1 c) l
  | ShSz tp k n => length r = k /\ v = sz_value tp (dec k n r)
  end.

Ltac table H := repeat (apply elem_of_cons in H as [[= -> ->]|H]); try by apply not_elem_of_nil in H.

Ltac first_byte t := exists t; eexists; split; [reflexivity|]; split; [lia|]; let s := eval hnf in (form t) in change (form t) with s; cbn [head_of].

Lemma sx1_mod tp : -128 <= tp < 128 -> sx 1 ((tp / 256 ^ 0) mod 256) = tp.
Proof. intros H. change (256 ^ 0) with 1. rewrite Z.div_1_r. apply (sx_mod 1 tp); [lia|]. change (8 * Z.of_nat 1 - 1) with 7. lia. Qed.

Lemma head_first b v : head b v -> exists t r, b = t :: r /\ 0 <= t < 256 /\ head_of (form t) r v.
Proof.
  destruct 1 as [z Hz|z Hz|t k z Ht Hz|t k z Ht Hz|u Hu|u Hu| | | |l Hl|t k l Ht Hl|t k l Ht Hl|t tp l Ht Htp|t k tp l Ht Htp Hl|n Hn|t k n Ht Hn|n Hn|t k n Ht Hn].
  - exists z, []. split; [done|]. split; [lia|]. unfold form. by rewrite (proj2 (Z.ltb_lt _ _)) by lia.
  - exists (256 + z), []. split; [done|]. split; [lia|]. unfold form. repeat rewrite (proj2 (Z.ltb_ge _ _)) by lia. split; [done|]. cbn. f_equal. lia.
  - table Ht; [first_byte 0xcc|first_byte 0xcd|first_byte 0xce|first_byte 0xcf]; rewrite length_be, unbe_be by done; done.
  - table Ht; [first_byte 0xd0|first_byte 0xd1|first_byte 0xd2|first_byte 0xd3]; rewrite length_be, unbe_be_mod, sx_mod by (done || lia); done.
  - first_byte 0xca. by rewrite length_be, unbe_be by done.
  - first_byte 0xcb. by rewrite length_be, unbe_be by done.
  - by first_byte 0xc0.
  - by first_byte 0xc2.
  - by first_byte 0xc3.
  - pose proof (len_nonneg l). exists (0xa0 + len l), l. split; [done|]. split; [lia|]. unfold form. do 3 rewrite (proj2 (Z.ltb_ge _ _)) by lia. rewrite (proj2 (Z.ltb_lt _ _)) by lia.
    exists [], l. split_and!; [done|done|cbn; lia|done].
  - pose proof (len_nonneg l). table Ht; [first_byte 0xd9|first_byte 0xda|first_byte 0xdb]; (eexists _, l; split_and!; [reflexivity|apply length_be|cbn [dec]; symmetry; apply unbe_be; lia|done]).
  - pose proof (len_nonneg l). table Ht; [first_byte 0xc4|first_byte 0xc5|first_byte 0xc6]; (eexists _, l; split_and!; [reflexivity|apply length_be|cbn [dec]; symmetry; apply unbe_be; lia|done]).
  - repeat (apply elem_of_cons in Ht as [[= -> Hl]|Ht]); [first_byte 0xd4|first_byte 0xd5|first_byte 0xd6|first_byte 0xd7|first_byte 0xd8|by apply not_elem_of_nil in Ht];
      (eexists [], _, l; split_and!; [reflexivity|done|done|by rewrite sx1_mod]).
  - pose proof (len_nonneg l). table Ht; [first_byte 0xc7|first_byte 0xc8|first_byte 0xc9]; (eexists _, _, l; split_and!; [reflexivity|apply length_be|cbn [dec]; symmetry; apply unbe_be; lia|by rewrite sx1_mod]).
  - exists (0x90 + n), []. split; [done|]. split; [lia|]. unfold form. do 2 rewrite (proj2 (Z.ltb_ge _ _)) by lia. rewrite (proj2 (Z.ltb_lt _ _)) by lia.
    split; [done|]. unfold sz_value, dec. rewrite decide_False by done. f_equal. lia.
  - table Ht; [first_byte 0xdc|first_byte 0xdd]; rewrite length_be; unfold dec; rewrite unbe_be by done; done.
  - exists (0x80 + n), []. split; [done|]. split; [lia|]. unfold form. do 1 rewrite (proj2 (Z.ltb_ge _ _)) by lia. rewrite (proj2 (Z.ltb_lt _ _)) by lia.
    split; [done|]. unfold sz_value, dec. rewrite decide_True by done. f_equal. lia.
  - table Ht; [first_byte 0xde|first_byte 0xdf]; rewrite length_be; unfold dec; rewrite unbe_be by done; done.
Qed.

(** The other way: a first byte with what belongs to its form is in the grammar. *)
Lemma len_length (l : list Z) k : length l = k -> len l = Z.of_nat k.
Proof. unfold len. lia. Qed.

Lemma of_uint t k r v : (t, k) ∈ [(0xcc, 1%nat); (0xcd, 2%nat); (0xce, 4%nat); (0xcf, 8%nat)] -> byte_list r ->
  head_of (ShNum MP_U64 k VU64) r v -> head (t :: r) v.
Proof.
  intros Ht Hr [<- ->]. pose proof (unbe_bound r Hr). rewrite <- (be_unbe r Hr) at 1. by apply head_uint.
Qed.

Lemma of_int t k r v : (t, k) ∈ [(0xd0, 1%nat); (0xd1, 2%nat); (0xd2, 4%nat); (0xd3, 8%nat)] -> byte_list r ->
  head_of (ShNum MP_I64 k (fun u => VI64 (sx k u))) r v -> head (t :: r) v.
Proof.
  intros Ht Hr [<- ->]. pose proof (unbe_bound r Hr) as Hb. cbn [num_value].
  assert (Hk : (0 < length r)%nat) by (repeat (apply elem_of_cons in Ht as [[= -> ->]|Ht]; [lia|]); by apply not_elem_of_nil in Ht).
  destruct (sx_range _ _ Hk Hb) as [Hs Hm]. rewrite <- (be_unbe r Hr) at 1. rewrite Hm at 1. rewrite <- be_mod.
  by apply head_int.
Qed.

Lemma of_raw tp t k r v : (t, k) ∈ (if decide (tp = MP_STR) then [(0xd9, 1%nat); (0xda, 2%nat); (0xdb, 4%nat)] else [(0xc4, 1%nat); (0xc5, 2%nat); (0xc6, 4%nat)]) ->
  byte_list r -> head_of (ShRaw tp k 0) r v -> head (t :: r) v.
Proof.
  intros Ht Hr (b & l & -> & Hk & Hl & ->). apply Forall_app in Hr as [Hb _]. pose proof (unbe_bound b Hb) as Hu.
  assert (Hd : dec k 0 b = unbe b 0) by (case_decide; table Ht; done). rewrite Hd in Hl. rewrite <- (be_unbe b Hb), Hk, <- Hl.
  unfold raw_value. rewrite Hk in Hu. case_decide; [apply head_str|apply head_bin]; (done || lia).
Qed.

Lemma byte_1 c : 0 <= c < 256 -> -128 <= sx 1 c < 128 /\ [c] = be 1 (sx 1 c).
Proof.
  intros Hc. destruct (sx_range 1 c ltac:(lia) Hc) as [Hs Hm]. split; [exact Hs|]. cbn [be]. change (256 ^ Z.of_nat 0) with 1. rewrite Z.div_1_r. f_equal. exact Hm.
Qed.

Lemma of_ext t k r v : (t, k) ∈ [(0xc7, 1%nat); (0xc8, 2%nat); (0xc9, 4%nat)] -> byte_list r -> head_of (ShExt k 0) r v -> head (t :: r) v.
Proof.
  intros Ht Hr (b & c & l & -> & Hk & Hl & ->). apply Forall_app in Hr as [Hb Hc]. apply List.Forall_cons_iff in Hc as [Hc _]. pose proof (unbe_bound b Hb) as Hu.
  assert (Hd : dec k 0 b = unbe b 0) by (table Ht; done). rewrite Hd in Hl. destruct (byte_1 c Hc) as [Hs E].
  change (c :: l) with ([c] ++ l). rewrite E, <- (be_unbe b Hb), Hk, <- Hl. rewrite Hk in Hu. apply head_ext; [done|done|lia].
Qed.

Lemma of_fixext t n r v : (t, n) ∈ [(0xd4, 1); (0xd5, 2); (0xd6, 4); (0xd7, 8); (0xd8, 16)] -> byte_list r -> head_of (ShExt 0 n) r v -> head (t :: r) v.
Proof.
  intros Ht Hr (b & c & l & -> & Hk & Hl & ->). apply nil_length_inv in Hk as ->. cbn in Hr. apply List.Forall_cons_iff in Hr as [Hc _]. destruct (byte_1 c Hc) as [Hs E].
  change ([] ++ c :: l) with ([c] ++ l). rewrite E. cbn [dec] in Hl. apply head_fixext; [by rewrite Hl|done].
Qed.

Lemma of_sz tp t k r v : (t, k) ∈ (if decide (tp = MP_MAP) then [(0xde, 2%nat); (0xdf, 4%nat)] else [(0xdc, 2%nat); (0xdd, 4%nat)]) ->
  byte_list r -> head_of (ShSz tp k 0) r v -> head (t :: r) v.
Proof.
  intros Ht Hr [Hk ->]. pose proof (unbe_bound r Hr) as Hu. assert (Hd : dec k 0 r = unbe r 0) by (case_decide; table Ht; done). rewrite Hd.
  rewrite <- (be_unbe r Hr) at 1. rewrite Hk in *. unfold sz_value. case_decide; [by apply head_map|by apply head_arr].
Qed.

Ltac in_table := repeat first [apply list_elem_of_here | apply list_elem_of_further].

Ltac chosen := first [rewrite decide_True by done | rewrite decide_False by done].

Lemma head_mid t : 0xc0 <= t < 0xe0 -> forall r v, byte_list r -> head_of (form t) r v -> head (t :: r) v.
Proof.
  revert t. refine (mid_cases (fun t => forall r v, byte_list r -> head_of (form t) r v -> head (t :: r) v) _). cbn [map seq]. repeat apply List.Forall_cons. all: try apply List.Forall_nil. all: intros r v Hr Hv.
  all: match type of Hv with head_of (form ?t) _ _ => let s := eval hnf in (form t) in change (form t) with s in Hv end.
  all: try (destruct Hv as [-> ->]; constructor).
  all: try (by destruct Hv).
  all: first [eapply of_uint; [|done|exact Hv]; in_table | eapply of_int; [|done|exact Hv]; in_table | eapply of_ext; [|done|exact Hv]; in_table
             | eapply of_fixext; [|done|exact Hv]; in_table | eapply of_raw; [|done|exact Hv]; chosen; in_table | eapply of_sz; [|done|exact Hv]; chosen; in_table | idtac].
  all: destruct Hv as [Hk ->]; cbn [num_value]; pose proof (unbe_bound r Hr) as Hu; rewrite <- (be_unbe r Hr) at 1; rewrite Hk in *; by constructor.
Qed.

Lemma first_head t r v : 0 <= t < 256 -> byte_list r -> head_of (form t) r v -> head (t :: r) v.
Proof.
  intros Ht Hr. destruct (decide (0xc0 <= t < 0xe0)) as [Hm|Hm]; [by apply head_mid|]. unfold form.
  destruct (Z.ltb_spec t 0x80); [intros [-> ->]; apply head_posfix; lia|]. destruct (Z.ltb_spec t 0x90).
  { intros [Hk ->]. apply nil_length_inv in Hk as ->. cbn. replace t with (0x80 + (t - 0x80)) at 1 by lia. apply head_fixmap. lia. }
  destruct (Z.ltb_spec t 0xa0).
  { intros [Hk ->]. apply nil_length_inv in Hk as ->. cbn. replace t with (0x90 + (t - 0x90)) at 1 by lia. apply head_fixarr. lia. }
  destruct (Z.ltb_spec t 0xc0).
  { intros (b & l & -> & Hk & Hl & ->). apply nil_length_inv in Hk as ->. cbn in Hl |- *. replace t with (0xa0 + len l) by lia. apply head_fixstr. lia. }
  rewrite (proj2 (Z.ltb_ge _ _)) by lia. intros [-> ->]. cbn [num_value]. replace t with (256 + (t - 256)) at 1 by lia. apply head_negfix. lia.
Qed.
