(* ===== verification/MpackRead.v ===== *)
(** * util/mpack: the steps of the reader on a buffer cut in two

    What the macros, [mp_next] and [mp_skip] do at the position between [pre] and [l] of
    the buffer [pre ++ l]. *)
From Stdlib Require Import ZArith Lia.
From stdpp Require Import base list option numbers.
From S2P Require Import Prelude Utf8 Opr Strx Mpack MpackProof.

(** ** The macros *)

Lemma byte_here pre b l : byte_at (pre ++ b :: l) (len pre) = Some b.
Proof.
  unfold byte_at, len. rewrite (proj2 (Z.ltb_ge _ _)), Nat2Z.id by lia. by rewrite list_lookup_middle.
Qed.

Lemma shift_one (pre : list Z) b l : pre ++ b :: l = (pre ++ [b]) ++ l.
Proof. by rewrite <- app_assoc. Qed.

Lemma len_snoc (pre : list Z) b : len (pre ++ [b]) = len pre + 1.
Proof. rewrite len_app. done. Qed.

Lemma load_here b : forall pre l acc, load (pre ++ b ++ l) (length b) (len pre) acc = Some (unbe b acc).
Proof.
  induction b as [|c b IH]; intros pre l acc; [done|]. cbn [length load]. cbn [app]. rewrite byte_here. cbn [mbind option_bind].
  by rewrite shift_one, <- (len_snoc pre c), IH.
Qed.

Lemma read_here pre b l : b <> [] -> mp_read (pre ++ b ++ l) (length b) (len pre) = Some (inr (unbe b 0, len (pre ++ b))).
Proof.
  intros Hb. unfold mp_read, end_. rewrite !len_app. pose proof (len_nonneg l). assert (0 < len b) by (destruct b; [done|unfold len; cbn; lia]).
  rewrite (proj2 (Z.leb_gt _ _)) by (unfold len in *; lia). rewrite load_here. done.
Qed.

(** Either there are [n] bytes more, or not. *)
Lemma split_at (l : list Z) (n : nat) : (exists b l', l = b ++ l' /\ length b = n) \/ (length l < n)%nat.
Proof.
  destruct (decide (length l < n)%nat); [by right|left]. exists (take n l), (drop n l). rewrite take_drop, length_take. split; [done|lia].
Qed.

Lemma read_short pre l k : (length l < k)%nat -> mp_read (pre ++ l) k (len pre) = Some (inl (MP_INCOMPLETE, len pre)).
Proof. intros H. unfold mp_read, end_. rewrite len_app. rewrite (proj2 (Z.leb_le _ _)) by (unfold len in *; lia). done. Qed.

Lemma size_here pre b l n : size (pre ++ b ++ l) (length b) n (len pre) = Some (inr (dec (length b) n b, len (pre ++ b))).
Proof.
  unfold size, dec. destruct b as [|c b]; [by rewrite app_nil_r|]. by rewrite read_here.
Qed.

Lemma size_short pre l k n : (length l < k)%nat -> size (pre ++ l) k n (len pre) = Some (inl (MP_INCOMPLETE, len pre)).
Proof. intros H. unfold size. destruct k; [lia|]. by apply read_short. Qed.

Lemma chars_here pre b l : mp_skip_chars (pre ++ b ++ l) (len b) (len pre) = Some (inr (tt, len (pre ++ b))).
Proof.
  unfold mp_skip_chars, end_. rewrite !len_app. pose proof (len_nonneg l). rewrite (proj2 (Z.ltb_ge _ _)) by lia. done.
Qed.

Lemma chars_short pre l n : len l < n -> mp_skip_chars (pre ++ l) n (len pre) = Some (inl (MP_INCOMPLETE, len pre + n)).
Proof. intros H. unfold mp_skip_chars, end_. rewrite len_app. rewrite (proj2 (Z.ltb_lt _ _)) by lia. done. Qed.

Lemma data_here pre b l : mp_read_obj_data (pre ++ b ++ l) (len b) (len pre) = Some (inr (len pre, len (pre ++ b))).
Proof.
  unfold mp_read_obj_data, end_. rewrite !len_app. pose proof (len_nonneg l). rewrite (proj2 (Z.ltb_ge _ _)) by lia. done.
Qed.

Lemma data_short pre l n : len l < n -> mp_read_obj_data (pre ++ l) n (len pre) = Some (inl (MP_INCOMPLETE, len pre + n)).
Proof. intros H. unfold mp_read_obj_data, end_. rewrite len_app. rewrite (proj2 (Z.ltb_lt _ _)) by lia. done. Qed.

Lemma ext_type_here pre c l : mp_read_ext_type (pre ++ c :: l) (len pre) = Some (inr (sx 1 c, len (pre ++ [c]))).
Proof.
  unfold mp_read_ext_type, end_. rewrite byte_here, !len_app. assert (0 < len (c :: l)) by (unfold len; cbn; lia). rewrite (proj2 (Z.leb_gt _ _)) by lia. done.
Qed.

Lemma ext_type_short pre : mp_read_ext_type (pre ++ []) (len pre) = Some (inl (MP_INCOMPLETE, len pre)).
Proof. unfold mp_read_ext_type, end_. rewrite app_nil_r, Z.leb_refl. done. Qed.

Lemma slice_here (pre b l : list Z) : slice (pre ++ b ++ l) (len pre) (len b) = b.
Proof. unfold slice, len. rewrite !Nat2Z.id, drop_app_length, take_app_length. done. Qed.

(** ** [mp_next] *)

(** What an object holds, the bytes its position and size stand for taken from the buffer. *)
Definition content (data : list Z) (o : mp_obj) : option value :=
  match o_tp o, o_via o with
  | MP_U64, VU64 z => Some (HUint z) | MP_I64, VI64 z => Some (HInt z) | MP_F64, VF64 u => Some (HF64 u)
  | MP_NIL, _ => Some HNil | MP_BOOL, VBool b => Some (HBool b)
  | MP_STR, VStr a n => Some (HStr (slice data a n)) | MP_BIN, VStr a n => Some (HBin (slice data a n))
  | MP_EXT, VExt a n t => Some (HExt t (slice data a n))
  | MP_ARR, VSz n => Some (HArr n) | MP_MAP, VSz n => Some (HMap n)
  | _, _ => None
  end.

(** The shapes of the table have types that fit. *)
Definition shape_ok (s : shape) : Prop :=
  match s with
  | ShNever => True
  | ShImm tp v => forall data, content data (MpObj tp v) = Some (num_value v)
  | ShNum tp k v => k <> 0%nat /\ forall data u, content data (MpObj tp (v u)) = Some (num_value (v u))
  | ShRaw tp k n => 0 <= n /\ (tp = MP_STR \/ tp = MP_BIN)
  | ShExt k n => 0 <= n
  | ShSz tp k n => 0 <= n /\ (tp = MP_MAP \/ tp = MP_ARR)
  end.

Lemma form_ok t : 0 <= t < 256 -> shape_ok (form t).
Proof.
  intros Ht. destruct (decide (0xc0 <= t < 0xe0)) as [Hm|Hm].
  - clear Ht. revert t Hm. refine (mid_cases (fun t => shape_ok (form t)) _). cbn [map seq]. repeat apply List.Forall_cons. all: try apply List.Forall_nil.
    all: match goal with |- shape_ok (form ?t) => let s := eval hnf in (form t) in change (form t) with s end.
    all: cbn [shape_ok]; repeat split; auto; lia.
  - unfold form. repeat case_match; zbool_all; cbn [shape_ok]; try done; try lia; split; auto; lia.
Qed.

Lemma content_pos data o v : content data o = Some v -> o_tp o = type_of v /\ 0 < mp_code (o_tp o).
Proof. destruct o as [[] []]; cbn; intros [= <-]; done. Qed.

Lemma next_form_forward s pre r l v : shape_ok s -> head_of s r v -> exists o,
  next_form (pre ++ r ++ l) s (len pre) = Some (o, len (pre ++ r)) /\ content (pre ++ r ++ l) o = Some v.
Proof.
  destruct s as [|tp via|tp k via|tp k n|k n|tp k n]; cbn [shape_ok head_of next_form].
  - done.
  - intros H [-> ->]. rewrite app_nil_r. eauto.
  - intros [Hk H] [<- ->]. rewrite read_here by (by destruct r). cbn [then_next]. unfold next_num. eauto.
  - intros [_ Htp] (b & d & -> & <- & Hd & ->). rewrite <- !app_assoc, size_here. cbn [then_next]. unfold next_raw. rewrite <- Hd.
    rewrite (app_assoc pre b). rewrite data_here. cbn [then_next]. rewrite <- !app_assoc. eexists. split; [done|]. unfold raw_value.
    destruct Htp as [-> | ->]; cbn; rewrite app_assoc, slice_here; [by rewrite decide_True|by rewrite decide_False].
  - intros _ (b & c & d & -> & <- & Hd & ->). rewrite <- !app_assoc, size_here. cbn [then_next]. unfold next_ext. rewrite <- Hd.
    rewrite (app_assoc pre b). cbn [app]. rewrite ext_type_here. cbn [then_next]. rewrite shift_one, data_here. cbn [then_next].
    eexists. split; [by rewrite <- !app_assoc|]. cbn [content o_tp o_via]. by rewrite (app_assoc pre b [c]), slice_here.
  - intros [_ Htp] [<- ->]. rewrite size_here. cbn [then_next]. unfold next_num, sz_value. eexists. split; [done|]. destruct Htp as [-> | ->]; cbn; chosen; done.
Qed.

Lemma next_form_back s pre l : shape_ok s -> byte_list l -> exists o pt', next_form (pre ++ l) s (len pre) = Some (o, pt') /\ len pre <= pt' /\
  (o_tp o = MP_INCOMPLETE \/ s = ShNever /\ o_tp o = MP_NEVER_USED \/ exists r l' v, l = r ++ l' /\ head_of s r v).
Proof.
  destruct s as [|tp via|tp k via|tp k n|k n|tp k n]; cbn [shape_ok head_of next_form]; intros Hs Hl.
  - eexists _, _. split; [done|]. split; [lia|]. auto.
  - eexists _, _. split; [done|]. split; [lia|]. right; right. by exists [], l, (num_value via).
  - destruct (split_at l k) as [(b & l' & -> & <-)|Hk].
    + destruct Hs as [Hb _]. rewrite read_here by (by destruct b). eexists _, _. split; [done|]. rewrite len_app. pose proof (len_nonneg b). split; [lia|]. right; right. eauto 10.
    + rewrite read_short by done. eexists _, _. split; [done|]. split; [lia|]. by left.
  - destruct (split_at l k) as [(b & l' & -> & <-)|Hk].
    2: { rewrite size_short by done. eexists _, _. split; [done|]. split; [lia|]. by left. }
    rewrite size_here. cbn [then_next]. unfold next_raw. rewrite app_assoc. apply Forall_app in Hl as [Hb Hl']. pose proof (unbe_bound b Hb) as Hu.
    assert (Hn : 0 <= dec (length b) n b) by (unfold dec; case_match; lia). destruct (split_at l' (Z.to_nat (dec (length b) n b))) as [(d & l2 & -> & Hd)|Hd].
    + assert (E : len d = dec (length b) n b) by (unfold len; lia). rewrite <- E, data_here. eexists _, _. split; [done|]. rewrite !len_app. pose proof (len_nonneg b). pose proof (len_nonneg d).
      split; [lia|]. right; right. exists (b ++ d), l2, (raw_value tp d). split; [by rewrite app_assoc|]. eauto 10.
    + rewrite data_short by (unfold len; lia). eexists _, _. split; [done|]. rewrite len_app. pose proof (len_nonneg b). split; [lia|]. by left.
  - destruct (split_at l k) as [(b & l' & -> & <-)|Hk].
    2: { rewrite size_short by done. eexists _, _. split; [done|]. split; [lia|]. by left. }
    rewrite size_here. cbn [then_next]. unfold next_ext. rewrite app_assoc. apply Forall_app in Hl as [Hb Hl']. pose proof (unbe_bound b Hb) as Hu.
    assert (Hn : 0 <= dec (length b) n b) by (unfold dec; case_match; lia). destruct l' as [|c l'].
    { rewrite ext_type_short. eexists _, _. split; [done|]. rewrite len_app. pose proof (len_nonneg b). split; [lia|]. by left. }
    rewrite ext_type_here. cbn [then_next]. rewrite shift_one. destruct (split_at l' (Z.to_nat (dec (length b) n b))) as [(d & l2 & -> & Hd)|Hd].
    + assert (E : len d = dec (length b) n b) by (unfold len; lia). rewrite <- E, data_here. eexists _, _. split; [done|]. rewrite !len_app. pose proof (len_nonneg b). pose proof (len_nonneg d).
      pose proof (len_nonneg [c]). split; [lia|]. right; right. exists (b ++ c :: d), l2, (HExt (sx 1 c) d). split; [by rewrite <- app_assoc|]. eauto 10.
    + rewrite data_short by (unfold len; lia). eexists _, _. split; [done|]. rewrite !len_app. pose proof (len_nonneg b). pose proof (len_nonneg [c]). split; [lia|]. by left.
  - destruct (split_at l k) as [(b & l' & -> & <-)|Hk].
    + rewrite size_here. eexists _, _. split; [done|]. rewrite len_app. pose proof (len_nonneg b). split; [lia|]. right; right. eauto 10.
    + rewrite size_short by done. eexists _, _. split; [done|]. split; [lia|]. by left.
Qed.

Lemma never_first t : 0 <= t < 256 -> form t = ShNever -> t = 0xc1.
Proof.
  intros Ht. destruct (decide (0xc0 <= t < 0xe0)) as [Hm|Hm].
  - clear Ht. revert t Hm. refine (mid_cases (fun t => form t = ShNever -> t = 0xc1) _). cbn [map seq]. repeat apply List.Forall_cons. all: try apply List.Forall_nil.
    all: first [done | intros H; match type of H with form ?t = _ => let s := eval hnf in (form t) in change (form t) with s in H end; done].
  - unfold form. repeat case_match; zbool_all; (done || lia).
Qed.

Lemma mp_next_forward pre b l v : head b v -> exists o,
  mp_next true (pre ++ b ++ l) (len pre) = Some (o, len (pre ++ b)) /\ content (pre ++ b ++ l) o = Some v.
Proof.
  intros H. destruct (head_first b v H) as (t & r & -> & Ht & Hr). cbn [app]. erewrite mp_next_form; [|unfold end_; rewrite !len_app; unfold len; cbn; lia|apply byte_here|done].
  rewrite <- (len_snoc pre t), shift_one. destruct (next_form_forward (form t) (pre ++ [t]) r l v (form_ok t Ht) Hr) as (o & E & Ho).
  exists o. rewrite E. split; [by rewrite <- app_assoc|done].
Qed.

Lemma mp_next_at_end pre : mp_next true (pre ++ []) (len pre) = Some (MpObj MP_END VNone, len pre).
Proof. unfold mp_next, end_. rewrite app_nil_r, Z.leb_refl. done. Qed.

Lemma mp_next_back pre l : byte_list l -> exists o pt', mp_next true (pre ++ l) (len pre) = Some (o, pt') /\ len pre <= pt' /\
  ((l = [] /\ o_tp o = MP_END) \/ (l <> [] /\ o_tp o = MP_INCOMPLETE) \/ (list.head l = Some 0xc1 /\ o_tp o = MP_NEVER_USED) \/
   exists b l' v, l = b ++ l' /\ head b v).
Proof.
  intros Hl. destruct l as [|t l].
  - rewrite mp_next_at_end. eexists _, _. split; [done|]. split; [lia|]. by left.
  - apply List.Forall_cons_iff in Hl as [Ht Hl]. erewrite mp_next_form; [|unfold end_; rewrite len_app; unfold len; cbn; lia|apply byte_here|done].
    rewrite <- (len_snoc pre t), shift_one. destruct (next_form_back (form t) (pre ++ [t]) l (form_ok t Ht) Hl) as (o & pt' & E & Hpt & Hc).
    exists o, pt'. split; [done|]. rewrite len_snoc in Hpt. split; [lia|]. destruct Hc as [Hc|[[Hs Hc]|(r & l' & v & -> & Hr)]].
    + right; left. done.
    + right; right; left. split; [|done]. cbn. f_equal. by apply never_first.
    + right; right; right. exists (t :: r), l', v. split; [done|]. apply first_head; [done| |done]. by apply Forall_app in Hl as [? _].
Qed.

(** ** [mp_skip] *)

Lemma skip_to_here pre b l tp : skip_to (pre ++ b ++ l) tp (len b) (len pre) = Some (tp, len (pre ++ b)).
Proof. unfold skip_to. by rewrite chars_here. Qed.

Lemma u32_of n m : 0 <= m < 2 ^ 32 -> n = m -> u32 n = m.
Proof. intros H ->. by apply u32_small. Qed.

Lemma skip_leaf f s pre r l v : shape_ok s -> head_of s r v -> is_leaf v = true -> len r < 2 ^ 32 ->
  skip_form (pre ++ r ++ l) f s (len pre) = Some (type_of v, len (pre ++ r)).
Proof.
  destruct s as [|tp via|tp k via|tp k n|k n|tp k n]; cbn [shape_ok head_of skip_form].
  - done.
  - intros H [-> ->] _ _. rewrite app_nil_r. by rewrite <- (proj1 (content_pos [] _ _ (H []))).
  - intros [Hk H] [<- ->] _ _. rewrite <- (proj1 (content_pos [] _ _ (H [] (unbe r 0)))). apply skip_to_here.
  - intros [_ Htp] (b & d & -> & <- & Hd & ->) _ _. rewrite <- !app_assoc, size_here. cbn [then_skip]. rewrite <- Hd, (app_assoc pre b), skip_to_here, <- app_assoc.
    unfold raw_value. by destruct Htp as [-> | ->].
  - intros _ (b & c & d & -> & <- & Hd & ->) _ Hlen. rewrite <- !app_assoc, size_here. cbn [then_skip]. rewrite <- Hd, (app_assoc pre b).
    assert (E : ext_chars (length b) (len d) = len (c :: d)).
    { unfold ext_chars. rewrite len_app in Hlen. pose proof (len_nonneg b). case_match; [apply u32_of|]; unfold len in *; cbn [length] in *; lia. }
    rewrite E, skip_to_here, <- app_assoc. done.
  - intros [_ Htp] [_ ->] Hleaf. unfold sz_value in Hleaf. by case_decide.
Qed.
