(* ===== verification/MpackSkip.v ===== *)
(** * util/mpack: [mp_skip] and whole values

    [mp_skip] is shown to return for every buffer, to take what it accepts for one value of
    the grammar with the two forms that wrap, and to pass over every value of the format. *)
From Stdlib Require Import ZArith Lia.
From stdpp Require Import base list option numbers.
From S2P Require Import Prelude Utf8 Opr Strx Mpack MpackProof MpackRead.

(** ** Facts about the grammar *)

Lemma head_nonempty b v : head b v -> b <> [].
Proof. intros H. by destruct (head_first b v H) as (? & ? & -> & _). Qed.

Lemma item_facts w b tp : item w b tp -> b <> [] /\ 0 < mp_code tp.
Proof.
  destruct 1 as [b v H Hv|b n r H|b n r H| |]; cbn; try done.
  - split; [by eapply head_nonempty|by destruct v].
  - apply head_nonempty in H. by destruct b.
  - apply head_nonempty in H. by destruct b.
Qed.

Lemma items_length w n b : items w n b -> (n <= length b)%nat.
Proof.
  induction 1 as [|n b t r Hi Hr IH]; [done|]. destruct (item_facts w b t Hi) as [Hb _]. rewrite length_app. destruct b; [done|]. cbn. lia.
Qed.

(** The wide forms, by first byte. *)
Lemma wide_first t : 0 <= t < 256 -> match form t with ShExt 4 _ => t = 0xc9 | ShSz MP_MAP 4 _ => t = 0xdf | _ => True end.
Proof.
  intros Ht. destruct (decide (0xc0 <= t < 0xe0)) as [Hm|Hm].
  - clear Ht. revert t Hm. refine (mid_cases (fun t => match form t with ShExt 4 _ => t = 0xc9 | ShSz MP_MAP 4 _ => t = 0xdf | _ => True end) _). repeat constructor.
  - unfold form. repeat (case_match; simplify_eq; zbool_all; try done; try lia).
Qed.

(** ** [mp_skip] returns, and what it accepts *)

(** What a run of [mp_skip] at the start of [l] may give, and one of [mp_skip_n]. *)
Definition skips (pre l : list Z) (r : option (mp_enum * Z)) : Prop :=
  exists tp pt, r = Some (tp, pt) /\ len pre <= pt /\ (tp = MP_END -> l = []) /\
  (0 < mp_code tp -> exists b l', l = b ++ l' /\ pt = len (pre ++ b) /\ item true b tp).

Definition skips_n (n : Z) (pre l : list Z) (r : option ((mp_enum * Z) + (unit * Z))) : Prop :=
  (exists tp pt, r = Some (inl (tp, pt)) /\ mp_code tp < 0 /\ len pre <= pt) \/
  (exists b l', l = b ++ l' /\ r = Some (inr (tt, len (pre ++ b))) /\ items true (Z.to_nat n) b).

Lemma skips_short pre l tp pt : mp_code tp < 0 -> len pre <= pt -> skips pre l (Some (tp, pt)).
Proof. intros H Hp. exists tp, pt. split_and!; [done|done|by intros ->|lia]. Qed.

Lemma skips_item pre b l tp : item true b tp -> skips pre (b ++ l) (Some (tp, len (pre ++ b))).
Proof.
  intros H. eexists _, _. split; [done|]. rewrite len_app. pose proof (len_nonneg b). split; [lia|]. split; [intros ->; by apply item_facts in H as [_ ?]|]. intros _. exists b, l. by rewrite len_app.
Qed.

(** Skipping [n] bytes after the bytes [b] of a value. *)
Lemma skips_chars pre b l n tp : 0 <= n -> (forall d l', l = d ++ l' -> len d = n -> item true (b ++ d) tp) ->
  skips pre (b ++ l) (skip_to (pre ++ b ++ l) tp n (len (pre ++ b))).
Proof.
  intros Hn H. rewrite (app_assoc pre b l). destruct (split_at l (Z.to_nat n)) as [(d & l' & -> & Hd)|Hd].
  - assert (E : len d = n) by (unfold len; lia). rewrite <- E. rewrite skip_to_here, <- (app_assoc pre b d), (app_assoc b d l'). apply skips_item. eapply H; [done|done].
  - unfold skip_to. rewrite chars_short by (unfold len; lia). apply skips_short; [done|]. rewrite len_app. pose proof (len_nonneg b). lia.
Qed.

(** The same for the values of an array or a map. *)
Lemma skips_values f pre b l n tp : skips_n n (pre ++ b) l (mp_skip_n (pre ++ b ++ l) f n (len (pre ++ b))) ->
  (forall d, items true (Z.to_nat n) d -> item true (b ++ d) tp) ->
  skips pre (b ++ l) (then_skip (mp_skip_n (pre ++ b ++ l) f n (len (pre ++ b))) (fun _ pt => Some (tp, pt))).
Proof.
  intros [(t & pt & -> & Hc & Hp)|(d & l' & -> & -> & Hd)] H.
  - apply skips_short; [done|]. rewrite len_app in Hp. pose proof (len_nonneg b). lia.
  - cbn [then_skip]. rewrite <- (app_assoc pre b d), (app_assoc b d l'). apply skips_item. by apply H.
Qed.

Lemma all_ones b : byte_list b -> length b = 4%nat -> unbe b 0 = 2 ^ 32 - 1 -> b = [0xff; 0xff; 0xff; 0xff].
Proof. intros Hb Hk Hu. rewrite <- (be_unbe b Hb), Hk, Hu. done. Qed.

Lemma dec_nonneg k n b : 0 <= n -> byte_list b -> 0 <= dec k n b.
Proof. intros Hn Hb. pose proof (unbe_bound b Hb). unfold dec. destruct k; lia. Qed.

Lemma ext_chars_nonneg k n : 0 <= n -> 0 <= ext_chars k n.
Proof. intros H. unfold ext_chars. pose proof (u32_range (n + 1)). destruct (k =? 4)%nat; lia. Qed.

Lemma sz_items_nonneg tp k n : 0 <= n -> 0 <= sz_items tp k n.
Proof. intros H. unfold sz_items, map_items. pose proof (u32_range (n * 2)). case_decide; [destruct (k =? 4)%nat|]; lia. Qed.

(** One value: [t] is its first byte and [l] what follows. *)
Lemma skip_form_ok f pre t l : 0 <= t < 256 -> byte_list l ->
  (forall n pre b l', 0 <= n -> l = b ++ l' -> skips_n n pre l' (mp_skip_n (pre ++ l') f n (len pre))) ->
  skips pre ([t] ++ l) (skip_form (pre ++ [t] ++ l) f (form t) (len (pre ++ [t]))).
Proof.
  intros Ht Hl IH. pose proof (form_ok t Ht) as Hs. pose proof (wide_first t Ht) as Hw.
  assert (Hh : forall r v, byte_list r -> head_of (form t) r v -> head ([t] ++ r) v) by (intros; by apply first_head).
  destruct (form t) as [|tp via|tp k via|tp k n|k n|tp k n] eqn:Ef; cbn [shape_ok head_of skip_form] in *.
  - apply skips_short; [done|]. rewrite len_snoc. lia.
  - apply skips_item. pose proof (proj1 (content_pos [] _ _ (Hs []))) as E. cbn [o_tp] in E. rewrite E. apply item_leaf; [apply (Hh [] (num_value via)); [constructor|done]|]. specialize (Hs []). destruct tp, via; done.
  - apply skips_chars; [lia|]. intros d l' -> Hd. apply Forall_app in Hl as [Hd' _]. assert (Hdk : length d = k) by (unfold len in Hd; lia).
    destruct Hs as [_ Hs]. pose proof (proj1 (content_pos [] _ _ (Hs [] (unbe d 0)))) as E. cbn [o_tp] in E. rewrite E. apply item_leaf; [by apply Hh|]. specialize (Hs [] (unbe d 0)). destruct tp, (via (unbe d 0)); done.
  - rewrite app_assoc. destruct (split_at l k) as [(b & l' & -> & <-)|Hk].
    2: { rewrite size_short by done. apply skips_short; [done|]. rewrite len_snoc. lia. }
    rewrite size_here. cbn [then_skip]. apply Forall_app in Hl as [Hb Hl']. pose proof (unbe_bound b Hb) as Hu. rewrite <- !app_assoc. rewrite (app_assoc [t] b l').
    apply skips_chars; [apply dec_nonneg; [tauto|done]|]. intros d l2 -> Hd. rewrite <- app_assoc. replace tp with (type_of (raw_value tp d)) by (by destruct Hs as [_ [-> | ->]]).
    apply Forall_app in Hl' as [Hd' _]. apply item_leaf; [|by destruct Hs as [_ [-> | ->]]]. apply Hh; [by apply Forall_app|]. by exists b, d.
  - rewrite app_assoc. destruct (split_at l k) as [(b & l' & -> & <-)|Hk].
    2: { rewrite size_short by done. apply skips_short; [done|]. rewrite len_snoc. lia. }
    rewrite size_here. cbn [then_skip]. apply Forall_app in Hl as [Hb Hl']. pose proof (unbe_bound b Hb) as Hu. rewrite <- !app_assoc. rewrite (app_assoc [t] b l').
    assert (Hn : 0 <= dec (length b) n b) by (apply dec_nonneg; [tauto|done]).
    apply skips_chars; [by apply ext_chars_nonneg|]. intros d l2 -> Hd. rewrite <- app_assoc. apply Forall_app in Hl' as [Hd' _].
    destruct (decide (ext_chars (length b) (dec (length b) n b) = dec (length b) n b + 1)) as [E|E].
    + rewrite E in Hd. destruct d as [|c d]; [unfold len in Hd; cbn in Hd; lia|]. apply (item_leaf true _ (HExt (sx 1 c) d)); [|done].
      apply Hh; [by apply Forall_app|]. exists b, c, d. split_and!; [done|done|unfold len in *; cbn [length] in *; lia|done].
    + unfold ext_chars in E, Hd. destruct (Nat.eqb_spec (length b) 4) as [Hk|Hk]; [|done]. rewrite Hk in *. subst t. cbn [dec] in *.
      assert (Hmax : unbe b 0 = 2 ^ 32 - 1) by (destruct (decide (unbe b 0 < 2 ^ 32 - 1)); [exfalso; apply E; apply u32_small; lia|change (256 ^ Z.of_nat 4) with (2 ^ 32) in Hu; lia]).
      rewrite Hmax in Hd. change (u32 (2 ^ 32 - 1 + 1)) with 0 in Hd. destruct d; [|unfold len in Hd; cbn in Hd; lia]. rewrite (all_ones b Hb Hk Hmax). by apply item_ext_wraps.
  - rewrite app_assoc. destruct (split_at l k) as [(b & l' & -> & <-)|Hk].
    2: { rewrite size_short by done. apply skips_short; [done|]. rewrite len_snoc. lia. }
    rewrite size_here. cbn [then_skip]. apply Forall_app in Hl as [Hb Hl']. pose proof (unbe_bound b Hb) as Hu. rewrite <- !app_assoc. rewrite (app_assoc [t] b l').
    assert (Hn : 0 <= dec (length b) n b) by (apply dec_nonneg; [tauto|done]).
    assert (Hsz : 0 <= sz_items tp (length b) (dec (length b) n b)) by (by apply sz_items_nonneg).
    apply skips_values; [rewrite (app_assoc pre ([t] ++ b) l'); by eapply IH|]. intros d Hd. rewrite <- app_assoc.
    specialize (Hh b (sz_value tp (dec (length b) n b)) Hb (conj eq_refl eq_refl)). rewrite app_assoc. destruct Hs as [_ [-> | ->]].
    + unfold sz_value in Hh. rewrite decide_True in Hh by done. unfold sz_items in Hd. rewrite decide_True in Hd by done.
      destruct (decide (map_items (length b) (dec (length b) n b) = 2 * dec (length b) n b)) as [E|E]; [rewrite E in Hd; by eapply item_map|].
      unfold map_items in E, Hd. destruct (Nat.eqb_spec (length b) 4) as [Hk|Hk]; [|lia]. rewrite Hk in *. subst t. cbn [dec] in *. change (256 ^ Z.of_nat 4) with (2 ^ 32) in Hu.
      assert (Hbig : 2 ^ 31 <= unbe b 0) by (destruct (decide (2 ^ 31 <= unbe b 0)); [done|exfalso; apply E; apply u32_of; lia]).
      replace (u32 (unbe b 0 * 2)) with (2 * unbe b 0 - 2 ^ 32) in Hd by (symmetry; unfold u32; rewrite <- (Z.mod_small (2 * unbe b 0 - 2 ^ 32) (2 ^ 32)) by lia;
        replace (unbe b 0 * 2) with ((2 * unbe b 0 - 2 ^ 32) + 1 * 2 ^ 32) by lia; change 4294967296 with (2 ^ 32); by rewrite Z.mod_add by lia).
      pose proof (item_map_wraps true (unbe b 0) d eq_refl (conj Hbig (proj2 Hu)) Hd) as Hi. rewrite <- Hk, (be_unbe b Hb) in Hi. exact Hi.
    + unfold sz_value in Hh. rewrite decide_False in Hh by done. unfold sz_items in Hd. rewrite decide_False in Hd by done. by eapply item_arr.
Qed.

Lemma mp_skip_at_end f pre : mp_skip (pre ++ []) (S f) (len pre) = Some (MP_END, len pre).
Proof. cbn [mp_skip]. unfold end_. rewrite app_nil_r, Z.leb_refl. done. Qed.

Lemma mp_skip_first f pre t l : 0 <= t < 256 -> mp_skip (pre ++ [t] ++ l) (S f) (len pre) = skip_form (pre ++ [t] ++ l) f (form t) (len (pre ++ [t])).
Proof.
  intros Ht. rewrite len_snoc. apply mp_skip_form; [unfold end_; rewrite !len_app; unfold len; cbn; lia|apply byte_here|done].
Qed.

(** Two calls for every byte are enough, and one more for the loop. *)
Lemma mp_skip_total f :
  (forall pre l, byte_list l -> (2 * length l + 1 <= f)%nat -> skips pre l (mp_skip (pre ++ l) f (len pre))) /\
  (forall n pre l, 0 <= n -> byte_list l -> (2 * length l + 2 <= f)%nat -> skips_n n pre l (mp_skip_n (pre ++ l) f n (len pre))).
Proof.
  induction f as [|f [IHs IHn]]; [split; intros; lia|]. split.
  - intros pre l Hl Hf. destruct l as [|t l]; [rewrite mp_skip_at_end; exists MP_END, (len pre); split_and!; (done || lia)|]. apply List.Forall_cons_iff in Hl as [Ht Hl].
    change (t :: l) with ([t] ++ l). rewrite mp_skip_first by done. apply skip_form_ok; [done|done|]. intros n pre' b l' Hn ->. apply Forall_app in Hl as [_ Hl'].
    cbn in Hf. rewrite length_app in Hf. apply IHn; [done|done|lia].
  - intros n pre l Hn Hl Hf. cbn [mp_skip_n]. destruct (Z.eqb_spec n 0) as [->|Hn0].
    { right. exists [], l. rewrite app_nil_r. split_and!; [done|done|constructor]. }
    destruct (IHs pre l Hl ltac:(lia)) as (tp & pt & -> & Hpt & _ & Hi). cbn [mbind option_bind]. destruct (Z.leb_spec (mp_code tp) 0) as [Hc|Hc].
    { left. eexists _, _. split; [done|]. split; [|done]. destruct (Z.eqb_spec (mp_code tp) 0); cbn; lia. }
    destruct (Hi Hc) as (b & l' & -> & -> & Hb). apply Forall_app in Hl as [_ Hl']. destruct (item_facts _ _ _ Hb) as [Hne _]. rewrite length_app in Hf.
    assert (0 < length b)%nat by (destruct b; [done|cbn; lia]). rewrite (app_assoc pre b l').
    destruct (IHn (n - 1) (pre ++ b) l' ltac:(lia) Hl' ltac:(lia)) as [(tp' & pt' & -> & Hc' & Hp)|(d & l2 & -> & -> & Hd)].
    + left. eexists _, _. split; [done|]. split; [done|]. rewrite len_app in Hp. pose proof (len_nonneg b). lia.
    + right. exists (b ++ d), l2. rewrite <- !app_assoc. split_and!; [done|done|]. replace (Z.to_nat n) with (S (Z.to_nat (n - 1))) by lia. by eapply items_more.
Qed.

(** ** Every value is passed over *)

Definition passes (b : list Z) (tp : mp_enum) : Prop := len b < 2 ^ 32 -> forall pre l f, (2 * length b <= f)%nat ->
  mp_skip (pre ++ b ++ l) f (len pre) = Some (tp, len (pre ++ b)).

Definition passes_n (n : nat) (b : list Z) : Prop := len b < 2 ^ 32 -> forall pre l f, (2 * length b + 1 <= f)%nat ->
  mp_skip_n (pre ++ b ++ l) f (Z.of_nat n) (len pre) = Some (inr (tt, len (pre ++ b))).

(** The values after the head of an array or a map; [m] is the number [mp_skip] reads. *)
Lemma passes_sz t r d tp k n m : 0 <= t < 256 -> form t = ShSz tp k n -> length r = k -> sz_items tp k (dec k n r) = Z.of_nat m -> passes_n m d ->
  passes ((t :: r) ++ d) tp.
Proof.
  intros Ht Ef <- Hm IH Hlen pre l f Hf. destruct f as [|f]; [cbn in Hf; lia|]. rewrite length_app, length_cons in Hf. rewrite len_app in Hlen. pose proof (len_nonneg (t :: r)).
  replace (pre ++ ((t :: r) ++ d) ++ l) with (pre ++ [t] ++ r ++ d ++ l) by (cbn; by rewrite <- app_assoc). rewrite mp_skip_first by done. rewrite Ef. cbn [skip_form].
  rewrite (app_assoc pre [t]), size_here. cbn [then_skip]. rewrite Hm, (app_assoc (pre ++ [t]) r). rewrite IH by (done || lia). cbn [then_skip]. by rewrite <- !app_assoc.
Qed.

Lemma head_sz b v : head b v -> is_leaf v = false -> exists t r k n tp, b = t :: r /\ 0 <= t < 256 /\ form t = ShSz tp k n /\ length r = k /\ v = sz_value tp (dec k n r) /\ (tp = MP_MAP \/ tp = MP_ARR).
Proof.
  intros H Hv. destruct (head_first b v H) as (t & r & -> & Ht & Hr). pose proof (form_ok t Ht) as Hs. exists t, r.
  destruct (form t) as [|tp via|tp k via|tp k n|k n|tp k n]; cbn [head_of shape_ok] in *.
  - done.
  - destruct Hr as [-> ->]. by destruct via.
  - destruct Hr as [_ ->]. by destruct (via _).
  - destruct Hr as (? & ? & _ & _ & _ & ->). unfold raw_value in Hv. by case_decide.
  - by destruct Hr as (? & ? & ? & _ & _ & _ & ->).
  - destruct Hr as [Hk ->]. destruct Hs as [_ Htp]. by exists k, n, tp.
Qed.

Lemma all_pass : (forall b tp, item true b tp -> passes b tp) /\ (forall n b, items true n b -> passes_n n b).
Proof.
  apply item_items_ind.
  - intros b v H Hv Hlen pre l f Hf. destruct (head_first b v H) as (t & r & -> & Ht & Hr). destruct f as [|f]; [cbn in Hf; lia|].
    change (t :: r) with ([t] ++ r) in *. rewrite <- app_assoc, mp_skip_first by done. rewrite (app_assoc pre [t]), (app_assoc pre [t] r). apply skip_leaf; [by apply form_ok|done|done|].
    rewrite len_app in Hlen. pose proof (len_nonneg [t]). lia.
  - intros b n r H Hr IH. assert (Hn : 0 <= n) by (inversion H; subst; lia). destruct (head_sz _ _ H eq_refl) as (t & q & k & n0 & tp & -> & Ht & Ef & Hk & Hv & [-> | ->]); unfold sz_value in Hv; [by rewrite decide_True in Hv by done|].
    rewrite decide_False in Hv by done. injection Hv as ->. eapply passes_sz; [done|done|done| |exact IH]. unfold sz_items. rewrite decide_False by done.
    by rewrite Z2Nat.id.
  - intros b n r H Hr IH Hlen. assert (Hn : 0 <= n < 2 ^ 31).
    { split; [inversion H; subst; lia|]. apply items_length in Hr. rewrite len_app in Hlen. pose proof (len_nonneg b). unfold len in Hlen. lia. }
    destruct (head_sz _ _ H eq_refl) as (t & q & k & n0 & tp & -> & Ht & Ef & Hk & Hv & [-> | ->]); unfold sz_value in Hv; [|by rewrite decide_False in Hv by done].
    rewrite decide_True in Hv by done. injection Hv as ->. revert Hlen. eapply passes_sz; [done|done|done| |exact IH]. unfold sz_items, map_items. rewrite decide_True by done.
    rewrite Z2Nat.id by lia. case_match; [apply u32_of; lia|lia].
  - intros _ Hlen pre l f Hf. destruct f as [|f]; [cbn in Hf; lia|]. change ([0xc9; 0xff; 0xff; 0xff; 0xff] ++ l) with ([0xc9] ++ [0xff; 0xff; 0xff; 0xff] ++ l). rewrite mp_skip_first by lia.
    change (form 0xc9) with (ShExt 4 0). cbn [skip_form]. rewrite (app_assoc pre [0xc9]). pose proof (size_here (pre ++ [0xc9]) [0xff; 0xff; 0xff; 0xff] l 0) as E. cbn [length] in E. rewrite E.
    cbn [then_skip]. change (ext_chars 4 (dec 4 0 [0xff; 0xff; 0xff; 0xff])) with (len (@nil Z)). rewrite (app_assoc (pre ++ [0xc9])).
    rewrite (skip_to_here ((pre ++ [0xc9]) ++ [0xff; 0xff; 0xff; 0xff]) [] l). by rewrite app_nil_r, <- app_assoc.
  - intros n r _ Hn Hr IH. eapply (passes_sz 0xdf (be 4 n) r MP_MAP 4 0); [lia|done|apply length_be| |exact IH]. unfold sz_items, map_items. rewrite decide_True by done. cbn [Nat.eqb dec].
    rewrite unbe_be by (change (256 ^ Z.of_nat 4) with (2 ^ 32); lia). rewrite Z2Nat.id by lia. unfold u32. rewrite <- (Z.mod_small (2 * n - 2 ^ 32) 4294967296) by lia.
    replace (n * 2) with ((2 * n - 2 ^ 32) + 1 * 4294967296) by lia. by rewrite Z.mod_add by lia.
  - intros _ pre l f Hf. destruct f as [|f]; [cbn in Hf; lia|]. cbn [mp_skip_n]. by rewrite app_nil_r.
  - intros n b t r Hb IHb Hr IHr Hlen pre l f Hf. destruct f as [|f]; [lia|]. rewrite length_app in Hf. rewrite len_app in Hlen. pose proof (len_nonneg b). pose proof (len_nonneg r).
    destruct (item_facts _ _ _ Hb) as [Hne Hc]. assert (0 < length b)%nat by (destruct b; [done|cbn; lia]). cbn [mp_skip_n]. rewrite (proj2 (Z.eqb_neq _ _)) by lia.
    rewrite <- app_assoc. rewrite IHb by lia. cbn [mbind option_bind]. rewrite (proj2 (Z.leb_gt _ _)) by lia. replace (Z.of_nat (S n) - 1) with (Z.of_nat n) by lia.
    rewrite (app_assoc pre b). rewrite IHr by lia. by rewrite <- app_assoc.
Qed.

(** ** The two forms that wrap *)

Definition wraps (b : list Z) : Prop := exists p q, b = p ++ q /\
  ((exists c q', q = 0xdf :: c :: q' /\ 0x80 <= c) \/ (exists q', q = [0xc9; 0xff; 0xff; 0xff; 0xff] ++ q')).

Lemma wraps_app a b : wraps a -> wraps (a ++ b).
Proof. intros (p & q & -> & H). exists p, (q ++ b). rewrite <- app_assoc. split; [done|]. destruct H as [(c & q' & -> & Hc)|(q' & ->)]; [left|right]; cbn; eauto. Qed.

Lemma app_wraps a b : wraps b -> wraps (a ++ b).
Proof. intros (p & q & -> & H). exists (a ++ p), q. by rewrite <- app_assoc. Qed.

Lemma standard_or_wraps : (forall b tp, item true b tp -> item false b tp \/ wraps b) /\ (forall n b, items true n b -> items false n b \/ wraps b).
Proof.
  apply item_items_ind.
  - intros b v H Hv. left. by apply item_leaf.
  - intros b n r H _ [IH|IH]; [left; by eapply item_arr|right; by apply app_wraps].
  - intros b n r H _ [IH|IH]; [left; by eapply item_map|right; by apply app_wraps].
  - intros _. right. exists [], [0xc9; 0xff; 0xff; 0xff; 0xff]. split; [done|]. right. by exists [].
  - intros n r _ Hn _ _. right. exists [], ((0xdf :: be 4 n) ++ r). split; [done|]. left. eexists _, _. split; [reflexivity|]. rewrite Z.mod_small.
    + change (256 ^ Z.of_nat 3) with (2 ^ 24). apply Z.div_le_lower_bound; lia.
    + change (256 ^ Z.of_nat 3) with (2 ^ 24). split; [apply Z.div_pos; lia|apply Z.div_lt_upper_bound; lia].
  - left. constructor.
  - intros n b t r _ [Hb|Hb] _ IH; [|right; by apply wraps_app]. destruct IH as [Hr|Hr]; [left; by eapply items_more|right; by apply app_wraps].
Qed.

Lemma standard_is_item : (forall b tp, item false b tp -> item true b tp) /\ (forall n b, items false n b -> items true n b).
Proof.
  apply item_items_ind; try done; intros.
  - by apply item_leaf.
  - by eapply item_arr.
  - by eapply item_map.
  - constructor.
  - by eapply items_more.
Qed.
