(* ===== verification/MpackProps.v ===== *)
(** * util/mpack: what the reader and the packer promise

    Reading one object and passing over a value against the grammar of msgpack, and reading
    back what was packed. *)
From Stdlib Require Import ZArith Lia.
From stdpp Require Import base list option numbers.
From S2P Require Import Prelude Utf8 Opr Strx Mpack MpackProof MpackRead MpackSkip.

(** A position in a buffer cuts it in two. *)
Lemma cut (data : list Z) pt : 0 <= pt <= len data -> exists pre, data = pre ++ drop (Z.to_nat pt) data /\ pt = len pre.
Proof.
  intros H. exists (take (Z.to_nat pt) data). rewrite take_drop. split; [done|]. unfold len in *. rewrite length_take. lia.
Qed.

Lemma drop_bytes n l : byte_list l -> byte_list (drop n l).
Proof. apply Forall_drop. Qed.



(** The run [mp_skip] gets its fuel for. *)
Lemma mp_skip_at pre l : byte_list l -> skips pre l (mp_skip (pre ++ l) (skip_fuel (pre ++ l)) (len pre)).
Proof. intros H. apply mp_skip_total; [done|]. unfold skip_fuel. rewrite length_app. lia. Qed.



(** [mp_is_valid] accepts the buffers that are one value, and those with sizes that wrap. *)
Lemma mp_is_valid_spec data : byte_list data -> len data < 2 ^ 32 ->
  exists r, mp_is_valid data = Some r /\ (r = true <-> exists t, item true data t).
Proof.
  intros Hd Hlen. unfold mp_is_valid. destruct (mp_skip_at [] data Hd) as (tp & pt & E & _ & _ & Hs). cbn [app] in E. change (len (@nil Z)) with 0 in E. rewrite E. cbn [mbind option_bind].
  assert (Hpass : forall t, item true data t -> tp = t /\ pt = len data).
  { intros t Hi. pose proof (proj1 all_pass data t Hi Hlen [] [] (skip_fuel data) ltac:(unfold skip_fuel; lia)) as E2. cbn [app] in E2. rewrite app_nil_r in E2.
    change (len (@nil Z)) with 0 in E2. rewrite E in E2. by injection E2 as -> ->. }
  destruct (Z.ltb_spec 0 (mp_code tp)) as [Hc|Hc]; cbn [negb].
  - destruct (Hs Hc) as (b & l' & -> & -> & Hi). cbn [app]. assert (Hl' : byte_list l') by (by apply Forall_app in Hd as [_ ?]).
    destruct (mp_skip_at b l' Hl') as (tp2 & pt2 & E2 & _ & Hend & _). rewrite E2. cbn [mbind option_bind]. eexists. split; [done|]. rewrite bool_decide_eq_true. split.
    + intros ->. rewrite (Hend eq_refl), app_nil_r. eauto.
    + intros [t Ht]. destruct (Hpass t Ht) as [_ Hl]. cbn [app] in Hl. rewrite len_app in Hl. assert (l' = []) as -> by (destruct l'; [done|unfold len in Hl; cbn in Hl; lia]).
      unfold skip_fuel in E2. rewrite Nat.add_comm in E2. cbn [Nat.add] in E2. rewrite mp_skip_at_end in E2. congruence.
  - eexists. split; [done|]. split; [done|]. intros [t Hi]. destruct (Hpass t Hi) as [-> _]. apply item_facts in Hi as [_ Hi]. lia.
Qed.

(** ** Packing and reading back *)

(** What the packer of the msgpack library is relied on for: it appends the head of the
    value it is asked for, with a size below [2 ^ 32], and the bytes it is given. *)
Class PackerLaws `{P : Packer} : Prop := {
  pack_true_law x y : msgpack_pack_true x = Some y -> exists h, y = x ++ h /\ head h (HBool true);
  pack_false_law x y : msgpack_pack_false x = Some y -> exists h, y = x ++ h /\ head h (HBool false);
  pack_bin_law x n y : 0 <= n < 2 ^ 32 -> msgpack_pack_bin x n = Some y ->
    exists h, y = x ++ h /\ forall l, len l = n -> head (h ++ l) (HBin l);
  pack_str_law x n y : 0 <= n < 2 ^ 32 -> msgpack_pack_str x n = Some y ->
    exists h, y = x ++ h /\ forall l, len l = n -> head (h ++ l) (HStr l);
  pack_ext_law x n t y : 0 <= n < 2 ^ 32 -> -128 <= t < 128 -> msgpack_pack_ext x n t = Some y ->
    exists h, y = x ++ h /\ forall l, len l = n -> head (h ++ l) (HExt t l);
  pack_bin_body_law x b y : msgpack_pack_bin_body x b = Some y -> y = x ++ b;
  pack_str_body_law x b y : msgpack_pack_str_body x b = Some y -> y = x ++ b;
  pack_ext_body_law x b y : msgpack_pack_ext_body x b = Some y -> y = x ++ b;
  pack_array_law x n y : 0 <= n < 2 ^ 32 -> msgpack_pack_array x n = Some y -> exists h, y = x ++ h /\ head h (HArr n);
  pack_map_law x n y : 0 <= n < 2 ^ 32 -> msgpack_pack_map x n = Some y -> exists h, y = x ++ h /\ head h (HMap n);
  pack_uint8_law x n y : 0 <= n < 2 ^ 8 -> msgpack_pack_uint8 x n = Some y -> exists h, y = x ++ h /\ head h (HUint n);
  pack_uint64_law x n y : 0 <= n < 2 ^ 64 -> msgpack_pack_uint64 x n = Some y -> exists h, y = x ++ h /\ head h (HUint n);
  pack_nil_law x y : msgpack_pack_nil x = Some y -> exists h, y = x ++ h /\ head h HNil;
}.

(** The calls of [mpack.h] that pack. *)
Inductive pack_call :=
  | PBool (b : bool) | PBin (l : list Z) | PStr (l : list Z) | PExt (t : Z) (l : list Z)
  | PFmt (mem : bool) (text : list Z).

Definition packed_value (c : pack_call) : value :=
  match c with
  | PBool b => HBool b | PBin l => HBin l | PStr l => HStr l | PExt t l => HExt t l | PFmt _ l => HStr l
  end.

Definition call_fits (c : pack_call) : Prop :=
  match c with
  | PBool _ => True
  | PBin l | PStr l | PFmt _ l => len l < 2 ^ 32
  | PExt t l => len l < 2 ^ 32 /\ -128 <= t < 128
  end.

Definition run_pack `{P : Packer} (x : list Z) (c : pack_call) : option (list Z) :=
  match c with
  | PBool b => mp_pack_bool x b
  | PBin l => mp_pack_bin x l
  | PStr l => mp_pack_strn x l
  | PExt t l => mp_pack_ext x t l
  | PFmt mem l => mp_pack_fmt mem x (Some l)
  end.

Fixpoint run_packs `{P : Packer} (x : list Z) (cs : list pack_call) : option (list Z) :=
  match cs with
  | [] => Some x
  | c :: cs => x ← run_pack x c; run_packs x cs
  end.

(** Reading [n] objects with [mp_next], one after the other. *)
Fixpoint read_values (data : list Z) (n : nat) (pt : Z) : option (list value * Z) :=
  match n with
  | O => Some ([], pt)
  | S n =>
    '(o, pt) ← mp_next true data pt;
    v ← content data o;
    '(vs, pt) ← read_values data n pt;
    Some (v :: vs, pt)
  end.

Lemma with_body_ok (x : list Z) y body l v z : (forall x b y, body x b = Some y -> y = x ++ b) ->
  (exists h, z = x ++ h /\ forall l', len l' = len l -> head (h ++ l') (v l')) ->
  with_body (Some z) body l = Some y -> exists h, y = x ++ h /\ head h (v l).
Proof.
  intros Hb (h & -> & Hh). unfold with_body. cbn [mbind option_bind]. destruct (Z.eqb_spec (len l) 0) as [H0|H0]; cbn [negb].
  - intros [= <-]. assert (l = []) as -> by (destruct l; [done|unfold len in H0; cbn in H0; lia]). exists h. split; [done|]. specialize (Hh [] eq_refl). by rewrite app_nil_r in Hh.
  - intros ->%Hb. exists (h ++ l). rewrite app_assoc. split; [done|]. by apply Hh.
Qed.

Lemma run_pack_ok `{PackerLaws} x c y : call_fits c -> run_pack x c = Some y -> exists h, y = x ++ h /\ head h (packed_value c).
Proof.
  destruct c as [b|l|l|t l|mem l]; cbn [call_fits run_pack packed_value]; intros Hf.
  - unfold mp_pack_bool. destruct b; [apply pack_true_law|apply pack_false_law].
  - unfold mp_pack_bin. destruct (msgpack_pack_bin x (len l)) as [z|] eqn:E; [|done]. apply (with_body_ok x y _ l HBin z pack_bin_body_law).
    eapply pack_bin_law; [|exact E]. split; [apply len_nonneg|done].
  - unfold mp_pack_strn. destruct (msgpack_pack_str x (len l)) as [z|] eqn:E; [|done]. apply (with_body_ok x y _ l HStr z pack_str_body_law).
    eapply pack_str_law; [|exact E]. split; [apply len_nonneg|done].
  - destruct Hf as [Hl Ht]. unfold mp_pack_ext. destruct (msgpack_pack_ext x (len l) t) as [z|] eqn:E; [|done]. apply (with_body_ok x y _ l (HExt t) z pack_ext_body_law).
    eapply pack_ext_law; [|done|exact E]. split; [apply len_nonneg|done].
  - unfold mp_pack_fmt. cbn [mbind option_bind]. destruct (msgpack_pack_str x (len l)) as [z|] eqn:E; [|done]. cbn [mbind option_bind].
    apply pack_str_law in E as (h & -> & Hh); [|split; [apply len_nonneg|done]]. intros Hy. exists (h ++ l). split; [|by apply Hh]. rewrite app_assoc. revert Hy.
    destruct (len l <? 255); [apply pack_str_body_law|]. destruct mem; [|done]. cbn [negb]. destruct (Z.eqb_spec (len l) 0) as [H0|H0]; [|apply pack_str_body_law].
    intros [= <-]. destruct l; [by rewrite app_nil_r|unfold len in H0; cbn in H0; lia].
Qed.

Lemma run_packs_ok `{PackerLaws} cs : forall x y, Forall call_fits cs -> run_packs x cs = Some y -> exists h, y = x ++ h /\
  forall l, read_values (x ++ h ++ l) (length cs) (len x) = Some (map packed_value cs, len (x ++ h)).
Proof.
  induction cs as [|c cs IH]; intros x y Hf; cbn [run_packs].
  - intros [= <-]. exists []. rewrite app_nil_r. done.
  - apply List.Forall_cons_iff in Hf as [Hc Hf]. destruct (run_pack x c) as [z|] eqn:E; [|done]. cbn [mbind option_bind]. intros Hy.
    destruct (run_pack_ok x c z Hc E) as (h & -> & Hh). destruct (IH _ _ Hf Hy) as (h2 & -> & Hr). exists (h ++ h2). rewrite app_assoc. split; [done|]. intros l.
    cbn [length read_values]. rewrite <- !app_assoc. destruct (mp_next_forward x h (h2 ++ l) _ Hh) as (o & -> & Ho). cbn [mbind option_bind]. rewrite Ho. cbn [mbind option_bind].
    specialize (Hr l). rewrite <- app_assoc in Hr. rewrite Hr. cbn [mbind option_bind map]. by rewrite <- !app_assoc.
Qed.

(** C36. What is packed is read back. With a packer that writes the heads of the format, any
    sequence of the packing calls of [mpack.h] that do not fail (booleans, binary data,
    strings, extensions and printed text of fewer than [2 ^ 32] bytes) writes bytes from
    which [mp_next] reads the same values in the same order, and then the end. *)
Theorem pack_round_trip `{PackerLaws} cs data : Forall call_fits cs -> run_packs [] cs = Some data ->
  read_values data (length cs) 0 = Some (map packed_value cs, len data) /\ mp_next true data (len data) = Some (MpObj MP_END VNone, len data).
Proof.
  intros Hf Hr. destruct (run_packs_ok cs [] data Hf Hr) as (h & -> & E). specialize (E []). rewrite app_nil_r in E. split; [exact E|].
  pose proof (mp_next_at_end ([] ++ h)) as He. by rewrite app_nil_r in He.
Qed.

(** A packer that writes the shortest heads. *)
Definition short_head (fix_ : Z) (forms : list (Z * nat)) (n : Z) (rest : list Z) : list Z :=
  if n <? fix_ then 0xa0 + n :: rest
  else match List.find (fun '(_, k) => n <? 256 ^ Z.of_nat k) forms with
       | Some (t, k) => t :: be k n ++ rest
       | None => []
       end.

#[local] Instance short_packer : Packer := {
  msgpack_pack_true x := Some (x ++ [0xc3]);
  msgpack_pack_false x := Some (x ++ [0xc2]);
  msgpack_pack_bin x n := Some (x ++ short_head 0 [(0xc4, 1%nat); (0xc5, 2%nat); (0xc6, 4%nat)] n []);
  msgpack_pack_bin_body x b := Some (x ++ b);
  msgpack_pack_str x n := Some (x ++ short_head 32 [(0xd9, 1%nat); (0xda, 2%nat); (0xdb, 4%nat)] n []);
  msgpack_pack_str_body x b := Some (x ++ b);
  msgpack_pack_ext x n t := Some (x ++ short_head 0 [(0xc7, 1%nat); (0xc8, 2%nat); (0xc9, 4%nat)] n (be 1 t));
  msgpack_pack_ext_body x b := Some (x ++ b);
  msgpack_pack_array x n := Some (x ++ (if n <? 16 then [0x90 + n] else 0xdd :: be 4 n));
  msgpack_pack_map x n := Some (x ++ (if n <? 16 then [0x80 + n] else 0xdf :: be 4 n));
  msgpack_pack_uint8 x n := Some (x ++ (if n <? 128 then [n] else 0xcc :: be 1 n));
  msgpack_pack_uint64 x n := Some (x ++ (if n <? 128 then [n] else 0xcf :: be 8 n));
  msgpack_pack_nil x := Some (x ++ [0xc0]);
}.

(** The form [List.find] gives for a size below [2 ^ 32]. *)
Lemma find_form (a b c : Z) n (Q : Z * nat -> Prop) : 0 <= n < 2 ^ 32 -> (forall t k, (t, k) ∈ [(a, 1%nat); (b, 2%nat); (c, 4%nat)] -> n < 256 ^ Z.of_nat k -> Q (t, k)) ->
  exists t k, List.find (fun '(_, k) => n <? 256 ^ Z.of_nat k) [(a, 1%nat); (b, 2%nat); (c, 4%nat)] = Some (t, k) /\ Q (t, k).
Proof.
  intros Hn H. cbn [List.find]. destruct (Z.ltb_spec n (256 ^ Z.of_nat 1)); [eexists _, _; split; [done|]; apply H; [in_table|done]|].
  destruct (Z.ltb_spec n (256 ^ Z.of_nat 2)); [eexists _, _; split; [done|]; apply H; [in_table|done]|].
  destruct (Z.ltb_spec n (256 ^ Z.of_nat 4)); [eexists _, _; split; [done|]; apply H; [in_table|done]|]. change (256 ^ Z.of_nat 4) with (2 ^ 32) in *. lia.
Qed.

#[local] Instance short_packer_laws : PackerLaws (P := short_packer).
Proof.
  constructor; cbn -[be short_head].
  - intros x y [= <-]. eexists. split; [done|constructor].
  - intros x y [= <-]. eexists. split; [done|constructor].
  - intros x n y Hn [= <-]. eexists. split; [done|]. intros l Hl. unfold short_head. rewrite (proj2 (Z.ltb_ge _ _)) by lia.
    destruct (find_form 0xc4 0xc5 0xc6 n (fun '(t, k) => head ((t :: be k n ++ []) ++ l) (HBin l)) Hn) as (t & k & -> & H); [|done].
    intros t k Ht Hk. rewrite app_nil_r. subst n. by apply head_bin.
  - intros x n y Hn [= <-]. eexists. split; [done|]. intros l Hl. unfold short_head. destruct (Z.ltb_spec n 32); [subst n; by apply head_fixstr|].
    destruct (find_form 0xd9 0xda 0xdb n (fun '(t, k) => head ((t :: be k n ++ []) ++ l) (HStr l)) Hn) as (t & k & -> & H'); [|done].
    intros t k Ht Hk. rewrite app_nil_r. subst n. by apply head_str.
  - intros x n tp y Hn Htp [= <-]. eexists. split; [done|]. intros l Hl. unfold short_head. rewrite (proj2 (Z.ltb_ge _ _)) by lia.
    destruct (find_form 0xc7 0xc8 0xc9 n (fun '(t, k) => head ((t :: be k n ++ be 1 tp) ++ l) (HExt tp l)) Hn) as (t & k & -> & H); [|done].
    intros t k Ht Hk. cbn [app]. rewrite <- app_assoc. subst n. by apply head_ext.
  - by intros x b y [= <-].
  - by intros x b y [= <-].
  - by intros x b y [= <-].
  - intros x n y Hn [= <-]. eexists. split; [done|]. destruct (Z.ltb_spec n 16); [apply head_fixarr; lia|]. apply (head_arr 0xdd 4 n); [in_table|]. change (256 ^ Z.of_nat 4) with (2 ^ 32). lia.
  - intros x n y Hn [= <-]. eexists. split; [done|]. destruct (Z.ltb_spec n 16); [apply head_fixmap; lia|]. apply (head_map 0xdf 4 n); [in_table|]. change (256 ^ Z.of_nat 4) with (2 ^ 32). lia.
  - intros x n y Hn [= <-]. eexists. split; [done|]. destruct (Z.ltb_spec n 128); [apply head_posfix; lia|]. apply (head_uint 0xcc 1 n); [in_table|]. change (256 ^ Z.of_nat 1) with 256. lia.
  - intros x n y Hn [= <-]. eexists. split; [done|]. destruct (Z.ltb_spec n 128); [apply head_posfix; lia|]. apply (head_uint 0xcf 8 n); [in_table|]. change (256 ^ Z.of_nat 8) with (2 ^ 64). lia.
  - intros x y [= <-]. eexists. split; [done|constructor].
Qed.

Lemma pack_round_trip_witness : run_packs [] [PBool true; PStr [72; 105]; PExt 1 [9]] = Some [0xc3; 0xa2; 72; 105; 0xc7; 1; 1; 9] /\
  read_values [0xc3; 0xa2; 72; 105; 0xc7; 1; 1; 9] 3 0 = Some ([HBool true; HStr [72; 105]; HExt 1 [9]], 8).
Proof.
  split; [reflexivity|]. refine (proj1 (pack_round_trip [PBool true; PStr [72; 105]; PExt 1 [9]] [0xc3; 0xa2; 72; 105; 0xc7; 1; 1; 9] _ eq_refl)).
  repeat constructor; unfold len; cbn; lia.
Defined.

(** ** Sizes that wrap, and targets where [char] is unsigned *)

(** A map of [2 ^ 31] pairs and an extension of [2 ^ 32 - 1] bytes are complete without
    anything that follows, for [mp_skip] and not for [mp_next]. *)
Lemma skip_wraps : mp_is_valid [0xdf; 0x80; 0; 0; 0] = Some true /\ mp_is_valid [0xc9; 0xff; 0xff; 0xff; 0xff] = Some true /\
  mp_next true [0xdf; 0x80; 0; 0; 0] 0 = Some (MpObj MP_MAP (VSz (2 ^ 31)), 5) /\
  mp_next true [0xc9; 0xff; 0xff; 0xff; 0xff] 0 = Some (MpObj MP_INCOMPLETE VNone, 5).
Proof. repeat split. Qed.

(** Where [char] is unsigned, the numbers from -32 to -1 are read as 224 to 255. *)
Lemma unsigned_char_reads z : -32 <= z < 0 -> mp_next false [256 + z] 0 = Some (MpObj MP_I64 (VI64 (256 + z)), 1).
Proof.
  intros Hz. unfold mp_next, end_, byte_at. change (len [256 + z] <=? 0) with false. change (0 <? 0) with false.
  change ([256 + z] !! Z.to_nat 0) with (Some (256 + z)). cbn [mbind option_bind]. cbv zeta. ranges. done.
Qed.
