(* ===== verification/Scope.v ===== *)
(** * ti/scope, ti/collections: scopes and the names of collections

    [src/src/ti/scope.c], with what [src/src/ti/collections.c] and [collection.c] keep of the
    collections: their ids and names, time zone and depth. A text is a list of bytes; errors
    are told apart by their message. *)
From Stdlib Require Import ZArith Lia Ascii String.
From stdpp Require Import base list option numbers.
From S2P Require Import Prelude Utf8 Opr Strx Spec Keywords Users Mpack.

(** ** Scopes *)

Inductive ti_scope_t :=
  | TI_SCOPE_THINGSDB
  | TI_SCOPE_NODE (node_id : Z)
  | TI_SCOPE_COLLECTION (name : list Z).

(** The messages of [ti_scope_init], all with [EX_VALUE_ERROR], and the other errors. *)
Inductive scope_error :=
  | E_EMPTY | E_ASCII | E_START | E_EXPECT_NAME | E_BUT_GOT | E_NODE_ID | E_NO_COLLECTION | E_COLLECTION_NAME
  | E_BAD_DATA | E_NOT_FOUND | E_NAME_RULES | E_EXISTS | E_MEMORY.

(** [scope__read_id]: -1 is the error. *)
Fixpoint read_id_loop (result : Z) (s : list Z) : Z :=
  match s with
  | [] => result
  | c :: s =>
    if negb (isdigit c) then -1 else
    let result := u64 (10 * result + c - 48) in
    if LLONG_MAX <? result then -1 else read_id_loop result s
  end.

Definition scope__read_id (s : list Z) : Z := read_id_loop 0 s.

Definition scope__collection (s : list Z) : scope_error + ti_scope_t :=
  if negb (ti_name_is_valid_strn s) then inl E_COLLECTION_NAME else inr (TI_SCOPE_COLLECTION s).

(** [invalid_scope:] *)
Definition invalid_scope (s : list Z) : scope_error :=
  match s with
  | [] => E_EMPTY
  | c :: s' =>
    let sep_char := if c =? 64 then 58 else if c =? 47 then 47 else 0 in
    if negb (strx_is_asciin s (length s)) then E_ASCII
    else if sep_char =? 0 then E_START
    else match s' with [] => E_EXPECT_NAME | _ => E_BUT_GOT end
  end.

(** The number of bytes before the first [sep]. *)
Fixpoint until_sep (sep : Z) (s : list Z) : nat :=
  match s with
  | [] => O
  | c :: s => if c =? sep then O else S (until_sep sep s)
  end.

(** [memcmp(a, b, n) == 0] *)
Definition memeq (a b : list Z) (n : nat) : bool := bool_decide (take n a = take n b).

Definition ti_scope_init (my_id : Z) (s : list Z) : scope_error + ti_scope_t :=
  let invalid := inl (invalid_scope s) in
  let n := length s in
  match s with
  | c0 :: c1 :: s2 =>
    match (if c0 =? 64 then Some 58 else if c0 =? 47 then Some 47 else None) with
    | None => invalid
    | Some sep_char =>
      if c1 =? 116 then
        if (9 <? n)%nat || negb (memeq (c1 :: s2) (str "thingsdb") (n - 1)) then invalid else inr TI_SCOPE_THINGSDB
      else if c1 =? 110 then
        let i := (2 + until_sep sep_char s2)%nat in
        if (5 <? i)%nat || negb (memeq (c1 :: s2) (str "node") (i - 1)) then invalid else
        let i := S i in
        if (n <=? i)%nat then inr (TI_SCOPE_NODE my_id) else
        let node_id := scope__read_id (drop i s) in
        if (node_id <? 0) || (64 <=? node_id) then inl E_NODE_ID else inr (TI_SCOPE_NODE (u8 node_id))
      else if c1 =? 99 then
        let i := (2 + until_sep sep_char s2)%nat in
        if (11 <? i)%nat || negb (memeq (c1 :: s2) (str "collection") (i - 1)) then invalid else
        let i := S i in
        if (n <=? i)%nat then inl E_NO_COLLECTION else scope__collection (drop i s)
      else if (c1 =? 47) || (c1 =? 58) then
        if (n <? 3)%nat || negb (c1 =? sep_char) then invalid else scope__collection s2
      else invalid
    end
  | _ => invalid
  end.

(** [ti_scope_init_packed]; [None] as in [mp_next]. *)
Definition ti_scope_init_packed (char_signed : bool) (my_id : Z) (data : list Z) : option (scope_error + ti_scope_t) :=
  '(obj, pt) ← mp_next char_signed data 0;
  match o_tp obj, o_via obj with
  | MP_ARR, VSz sz =>
    if sz =? 0 then Some (inl E_BAD_DATA) else
    '(mp_scope, _) ← mp_next char_signed data pt;
    Some (match o_tp mp_scope, o_via mp_scope with
          | MP_STR, VStr at_ n => ti_scope_init my_id (slice data at_ n)
          | _, _ => inl E_BAD_DATA
          end)
  | _, _ => Some (inl E_BAD_DATA)
  end.

(** ** The collections *)

Record collection := Collection { c_id : Z; c_name : list Z; c_tz : Z; c_deep : Z }.

(** The part of [ti] that [scope.c] uses; time zones are their indices. *)
Record ti := Ti {
  collections : list collection;
  next_free_id : Z;
  t_tz : Z; n_tz : Z; t_deep : Z; n_deep : Z;
  ti_changed : bool;
}.

Definition with_collections (t : ti) (cs : list collection) : ti :=
  Ti cs (next_free_id t) (t_tz t) (n_tz t) (t_deep t) (n_deep t) (ti_changed t).

Definition ti_collections_get_by_strn (t : ti) (s : list Z) : option collection :=
  List.find (fun c => bool_decide (c_name c = s)) (collections t).

Definition ti_collections_get_by_id (t : ti) (id : Z) : option collection :=
  List.find (fun c => c_id c =? id) (collections t).

(** The size of [scope__name_buf]; [None] is a write behind it. *)
Definition scope__name_buf : nat := TI_NAME_MAX + 13.

Definition strcpy_buf (s : list Z) : option (list Z) :=
  if (scope__name_buf <? length s + 1)%nat then None else Some s.

Definition ti_scope_name_from_id (t : ti) (scope_id : Z) : option (list Z) :=
  if scope_id =? 0 then strcpy_buf (str "@thingsdb")
  else if scope_id =? 1 then strcpy_buf (str "@node")
  else match ti_collections_get_by_id t scope_id with
       | Some c => strcpy_buf (str "@collection:" ++ until0 (c_name c))
       | None => strcpy_buf (str "@collection:<unknown>")
       end.

Definition ti_scope_get_collection (t : ti) (sc : ti_scope_t) : scope_error + collection :=
  match sc with
  | TI_SCOPE_THINGSDB | TI_SCOPE_NODE _ => inl E_BAD_DATA
  | TI_SCOPE_COLLECTION name =>
    match ti_collections_get_by_strn t name with Some c => inr c | None => inl E_NOT_FOUND end
  end.

Definition ti_scope_id (t : ti) (sc : ti_scope_t) : scope_error + Z :=
  match sc with
  | TI_SCOPE_THINGSDB => inr 0
  | TI_SCOPE_NODE _ => inr 1
  | TI_SCOPE_COLLECTION name =>
    match ti_collections_get_by_strn t name with Some c => inr (c_id c) | None => inl E_NOT_FOUND end
  end.

(** The first collection with an id is updated in place. *)
Fixpoint update_by_id (f : collection -> collection) (id : Z) (cs : list collection) : list collection :=
  match cs with
  | [] => []
  | c :: cs => if c_id c =? id then f c :: cs else c :: update_by_id f id cs
  end.

Definition ti_scope_set_tz (t : ti) (scope_id tz : Z) : ti :=
  if scope_id =? 0 then Ti (collections t) (next_free_id t) tz (n_tz t) (t_deep t) (n_deep t) true
  else if scope_id =? 1 then Ti (collections t) (next_free_id t) (t_tz t) tz (t_deep t) (n_deep t) true
  else with_collections t (update_by_id (fun c => Collection (c_id c) (c_name c) tz (c_deep c)) scope_id (collections t)).

Definition ti_scope_set_deep (t : ti) (scope_id deep : Z) : ti :=
  if scope_id =? 0 then Ti (collections t) (next_free_id t) (t_tz t) (n_tz t) deep (n_deep t) true
  else if scope_id =? 1 then Ti (collections t) (next_free_id t) (t_tz t) (n_tz t) (t_deep t) deep true
  else with_collections t (update_by_id (fun c => Collection (c_id c) (c_name c) (c_tz c) deep) scope_id (collections t)).

Definition with_next (t : ti) (id : Z) : ti :=
  Ti (collections t) id (t_tz t) (n_tz t) (t_deep t) (n_deep t) (ti_changed t).

Definition ti_next_free_id (t : ti) : Z * ti := (next_free_id t, with_next t (u64 (next_free_id t + 1))).

Definition ti_update_next_free_id (t : ti) (id : Z) : ti :=
  if next_free_id t <=? id then with_next t (u64 (id + 1)) else t.

(** [mem] is whether the collection is made and pushed, [mem'] whether the root thing is made
    and the user gets the privileges; a collection that fails there is popped. *)
Definition ti_collections_create_collection (mem mem' : bool) (t : ti) (collection_id : Z) (name : list Z) : (scope_error + collection) * ti :=
  if negb (ti_name_is_valid_strn name) then (inl E_NAME_RULES, t)
  else if bool_decide (is_Some (ti_collections_get_by_strn t name)) then (inl E_EXISTS, t)
  else if negb (collection_id =? 0) && bool_decide (is_Some (ti_collections_get_by_id t collection_id)) then (inl E_EXISTS, t)
  else
    let '(id, t) := if collection_id =? 0 then ti_next_free_id t else (collection_id, ti_update_next_free_id t collection_id) in
    let c := Collection id name (t_tz t) (t_deep t) in
    if negb mem then (inl E_MEMORY, t)
    else
      let t' := with_collections t (collections t ++ [c]) in
      if negb mem' then (inl E_MEMORY, t) else (inr c, t').

(** Renaming the collection with the given id (a pointer in the code). *)
Definition ti_collection_rename (mem : bool) (t : ti) (id : Z) (rname : list Z) : (scope_error + unit) * ti :=
  if negb (ti_name_is_valid_strn rname) then (inl E_NAME_RULES, t)
  else if bool_decide (is_Some (ti_collections_get_by_strn t rname)) then (inl E_EXISTS, t)
  else if negb mem then (inl E_MEMORY, t)
  else (inr tt, with_collections t (update_by_id (fun c => Collection (c_id c) rname (c_tz c) (c_deep c)) id (collections t))).

Definition ti_collections_del_collection (t : ti) (id : Z) : bool * ti :=
  match list_find (fun c => c_id c = id) (collections t) with
  | Some (i, _) => (true, with_collections t (swap_remove (collections t) i))
  | None => (false, t)
  end.
