(* ===== verification/ScopeProps.v ===== *)
(** * ti/scope: what the texts of scopes mean

    The texts [ti_scope_init] accepts against a grammar, the scope of a request, and the
    names of the scopes read back. *)
From Stdlib Require Import ZArith Lia Ascii String.
From stdpp Require Import base list option numbers.
From S2P Require Import Prelude Utf8 Opr Strx Spec Keywords Users Mpack MpackProof MpackRead Scope.

(** ** The texts of scopes *)

(** The separator that goes with the first byte of a scope: [@] and [:], or [/] twice. *)
Inductive starts : Z -> Z -> Prop :=
  | starts_at : starts 64 58
  | starts_slash : starts 47 47.

(** The decimal number of digits. *)
Definition decimal (ds : list Z) : Z := fold_left (fun a c => 10 * a + (c - 48)) ds 0.

(** The number [scope__read_id] reads, modulo [2 ^ 64]: the number so far must stay below
    [2 ^ 63] after every digit. *)
Definition reads_number (ds : list Z) (k : Z) : Prop :=
  forallb isdigit ds = true /\ (forall p, p `prefix_of` ds -> decimal p mod 2 ^ 64 < 2 ^ 63) /\ k = decimal ds mod 2 ^ 64.

(** Any beginning of [thingsdb] and [node] will do, and for [collection] even none at all. *)
Inductive scope_text (my_id : Z) : list Z -> ti_scope_t -> Prop :=
  | text_thingsdb c sep p : starts c sep -> p <> [] -> p `prefix_of` str "thingsdb" -> scope_text my_id (c :: p) TI_SCOPE_THINGSDB
  | text_this_node c sep p : starts c sep -> p <> [] -> p `prefix_of` str "node" -> scope_text my_id (c :: p) (TI_SCOPE_NODE my_id)
  | text_this_node_sep c sep p : starts c sep -> p <> [] -> p `prefix_of` str "node" -> scope_text my_id (c :: p ++ [sep]) (TI_SCOPE_NODE my_id)
  | text_node c sep p ds k : starts c sep -> p <> [] -> p `prefix_of` str "node" -> ds <> [] -> reads_number ds k -> k < 64 ->
      scope_text my_id (c :: p ++ sep :: ds) (TI_SCOPE_NODE k)
  | text_collection c sep p name : starts c sep -> p `prefix_of` str "collection" -> ti_name_is_valid_strn name = true ->
      scope_text my_id (c :: p ++ sep :: name) (TI_SCOPE_COLLECTION name).

(** ** Numbers *)

Lemma decimal_snoc ds c : decimal (ds ++ [c]) = 10 * decimal ds + (c - 48).
Proof. unfold decimal. by rewrite fold_left_app. Qed.

Lemma isdigit_spec c : isdigit c = true <-> 48 <= c <= 57.
Proof. unfold isdigit, in_rng. lia. Qed.

Lemma prefix_snoc_cases (q p : list Z) c : q `prefix_of` p ++ [c] -> q `prefix_of` p \/ q = p ++ [c].
Proof.
  intros [k E]. destruct k as [|x k _] using rev_ind; [right; by rewrite app_nil_r in E|]. rewrite app_assoc in E. apply app_inj_tail in E as [-> _]. left. by exists k.
Qed.

Lemma read_id_spec ds : forall p, (forall q, q `prefix_of` p -> decimal q mod 2 ^ 64 < 2 ^ 63) -> forall k, 0 <= k ->
  read_id_loop (decimal p mod 2 ^ 64) ds = k <->
  forallb isdigit ds = true /\ (forall q, q `prefix_of` p ++ ds -> decimal q mod 2 ^ 64 < 2 ^ 63) /\ k = decimal (p ++ ds) mod 2 ^ 64.
Proof.
  induction ds as [|c ds IH]; intros p Hp k Hk; cbn [read_id_loop forallb].
  - rewrite app_nil_r. split; [by intros <-|by intros (_ & _ & ->)].
  - destruct (isdigit c) eqn:Hc; cbn [negb andb]; [|split; [intros <-; lia|intros (H & _); done]].
    assert (E : u64 (10 * (decimal p mod 2 ^ 64) + c - 48) = decimal (p ++ [c]) mod 2 ^ 64).
    { unfold u64. change 18446744073709551616 with (2 ^ 64). rewrite decimal_snoc. rewrite <- (Z.add_mod_idemp_l (10 * decimal p)) by lia. rewrite <- Z.mul_mod_idemp_r by lia.
      rewrite Z.add_mod_idemp_l by lia. f_equal. lia. }
    rewrite E. change LLONG_MAX with (2 ^ 63 - 1). destruct (Z.ltb_spec (2 ^ 63 - 1) (decimal (p ++ [c]) mod 2 ^ 64)) as [Hl|Hl].
    + split; [intros <-; lia|]. intros (_ & H & _). specialize (H (p ++ [c])). assert (Hpre : p ++ [c] `prefix_of` p ++ c :: ds) by (apply prefix_app, prefix_cons, prefix_nil). specialize (H Hpre). lia.
    + rewrite (IH (p ++ [c])); [by rewrite <- app_assoc| |done]. intros q Hq. destruct (prefix_snoc_cases q p c Hq) as [Hq'| ->]; [by apply Hp|lia].
Qed.

Lemma read_id_exact ds k : 0 <= k -> scope__read_id ds = k <-> reads_number ds k.
Proof. intros Hk. apply (read_id_spec ds [] (fun q Hq => ltac:(by apply prefix_nil_inv in Hq as ->)) k Hk). Qed.

(** Below [2 ^ 63] this is the number that is written. *)
Lemma decimal_step_le p c : isdigit c = true -> 0 <= decimal p -> decimal p <= decimal (p ++ [c]).
Proof. intros Hc Hp. apply isdigit_spec in Hc. rewrite decimal_snoc. lia. Qed.

Lemma decimal_mono p ds : forallb isdigit (p ++ ds) = true -> 0 <= decimal p <= decimal (p ++ ds).
Proof.
  revert p. assert (Hn : forall p, forallb isdigit p = true -> 0 <= decimal p).
  { induction p as [|c p IH] using rev_ind; [done|]. rewrite forallb_app. cbn. rewrite andb_true_r. intros [Hp Hc]%andb_true_iff. specialize (IH Hp). pose proof (decimal_step_le p c Hc IH). lia. }
  intros p. induction ds as [|c ds IH] using rev_ind; intros H; [rewrite app_nil_r in *; split; [by apply Hn|lia]|].
  rewrite app_assoc in *. rewrite forallb_app in H. cbn in H. rewrite andb_true_r in H. apply andb_true_iff in H as [H Hc]. specialize (IH H).
  pose proof (decimal_step_le (p ++ ds) c Hc ltac:(lia)). lia.
Qed.

Lemma reads_small ds k : decimal ds < 2 ^ 63 -> reads_number ds k <-> forallb isdigit ds = true /\ k = decimal ds.
Proof.
  intros Hs. unfold reads_number. split.
  - intros (Hd & _ & ->). split; [done|]. pose proof (decimal_mono [] ds Hd). apply Z.mod_small. cbn [app] in *. lia.
  - intros (Hd & ->). split; [done|]. split; [|pose proof (decimal_mono [] ds Hd); cbn [app] in *; by rewrite Z.mod_small by lia].
    intros p [q ->]. pose proof (decimal_mono p q Hd). rewrite Z.mod_small by lia. lia.
Qed.

(** ** Accepted texts *)

Lemma until_sep_cut sep s : exists q, s = take (until_sep sep s) s ++ q /\ (q = [] \/ exists r, q = sep :: r).
Proof.
  induction s as [|c s IH]; [exists []; auto|]. cbn [until_sep]. destruct (Z.eqb_spec c sep) as [->|Hc]; [exists (sep :: s); cbn; eauto|].
  destruct IH as (q & E & Hq). exists q. cbn [take app]. split; [by rewrite <- E|done].
Qed.

Lemma until_sep_app sep p q : ~ sep ∈ p -> (q = [] \/ exists r, q = sep :: r) -> until_sep sep (p ++ q) = length p.
Proof.
  intros Hp Hq. induction p as [|c p IH]; cbn [app until_sep length].
  - destruct Hq as [-> |[r ->]]; [done|]. cbn. by rewrite Z.eqb_refl.
  - rewrite (proj2 (Z.eqb_neq c sep)) by (intros ->; apply Hp, list_elem_of_here). rewrite IH; [done|]. intros H. by apply Hp, list_elem_of_further.
Qed.

Lemma memeq_prefix a w n : memeq a w n = true -> (n <= length w)%nat -> take n a `prefix_of` w /\ (n <= length a)%nat.
Proof.
  unfold memeq. rewrite bool_decide_eq_true. intros E Hn. split; [exists (drop n w); by rewrite E, take_drop|].
  apply (f_equal length) in E. rewrite !length_take in E. lia.
Qed.

(** The letters of the words are not separators. *)
Lemma no_sep c sep p w : starts c sep -> w ∈ [str "thingsdb"; str "node"; str "collection"] -> p `prefix_of` w -> ~ sep ∈ p.
Proof.
  intros Hs Hw Hp Hin. assert (Hi : sep ∈ w) by (destruct Hp as [q ->]; apply elem_of_app; by left). clear Hp Hin p.
  repeat (apply elem_of_cons in Hw as [-> |Hw]; [cbn in Hi; destruct Hs; repeat (apply elem_of_cons in Hi as [Hi|Hi]; [done|]); by apply not_elem_of_nil in Hi|]).
  by apply not_elem_of_nil in Hw.
Qed.

Lemma starts_sep c sep : starts c sep -> (if c =? 64 then Some 58 else if c =? 47 then Some 47 else None) = Some sep.
Proof. by destruct 1. Qed.
Lemma sep_starts c sep : (if c =? 64 then Some 58 else if c =? 47 then Some 47 else None) = Some sep -> starts c sep.
Proof. destruct (Z.eqb_spec c 64) as [->|]; [intros [= <-]; constructor|]. destruct (Z.eqb_spec c 47) as [->|]; [intros [= <-]; constructor|done]. Qed.

(** A word and what follows: how the loops of [ti_scope_init] cut it. *)
Lemma word_cut c sep c1 p q w : starts c sep -> w ∈ [str "thingsdb"; str "node"; str "collection"] -> c1 :: p `prefix_of` w ->
  (q = [] \/ exists r, q = sep :: r) ->
  until_sep sep (p ++ q) = length p /\ (length p < length w)%nat /\ memeq (c1 :: p ++ q) w (S (length p)) = true.
Proof.
  intros Hs Hw Hp Hq. pose proof (no_sep c sep _ w Hs Hw Hp) as Hn. split; [|split].
  - apply until_sep_app; [|done]. intros H. by apply Hn, list_elem_of_further.
  - apply prefix_length in Hp. cbn in Hp. lia.
  - unfold memeq. rewrite bool_decide_eq_true. destruct Hp as [k ->]. cbn [app take]. by rewrite !take_app_length.
Qed.

Lemma word_uncut c sep c1 s w : starts c sep -> (S (until_sep sep s) <= length w)%nat -> memeq (c1 :: s) w (S (until_sep sep s)) = true ->
  exists p q, s = p ++ q /\ c1 :: p `prefix_of` w /\ length p = until_sep sep s /\ (q = [] \/ exists r, q = sep :: r).
Proof.
  intros Hs Hlen Hm. destruct (until_sep_cut sep s) as (q & E & Hq). destruct (memeq_prefix _ _ _ Hm Hlen) as [Hp Hl]. cbn [take length] in Hp, Hl.
  exists (take (until_sep sep s) s), q. split_and!; [done|done|rewrite length_take; lia|done].
Qed.

Lemma drop_word c c1 (p : list Z) sep r : drop (S (2 + length p)) (c :: c1 :: p ++ sep :: r) = r.
Proof. cbn [drop Nat.add]. rewrite drop_app_ge by lia. by replace (S (length p) - length p)%nat with 1%nat by lia. Qed.

Lemma init_this_node my_id c sep p q : starts c sep -> 110 :: p `prefix_of` str "node" -> (q = [] \/ q = [sep]) ->
  ti_scope_init my_id (c :: 110 :: p ++ q) = inr (TI_SCOPE_NODE my_id).
Proof.
  intros Hs Hp Hq. assert (Hq' : q = [] \/ exists r, q = sep :: r) by (destruct Hq as [-> | ->]; eauto).
  destruct (word_cut c sep 110 p q (str "node") Hs ltac:(in_table) Hp Hq') as (Hu & Hl & Hm). change (length (str "node")) with 4%nat in Hl.
  unfold ti_scope_init. rewrite (starts_sep c sep Hs). cbn [Z.eqb Pos.eqb]. rewrite Hu. cbn [Nat.add Nat.sub]. rewrite Hm, (proj2 (Nat.ltb_ge _ _)) by lia. cbn [orb negb].
  rewrite (proj2 (Nat.leb_le _ _)); [done|]. cbn [length]. rewrite length_app. destruct Hq as [-> | ->]; cbn; lia.
Qed.

Lemma init_node my_id c sep p ds : starts c sep -> 110 :: p `prefix_of` str "node" -> ds <> [] ->
  ti_scope_init my_id (c :: 110 :: p ++ sep :: ds) =
  if (scope__read_id ds <? 0) || (64 <=? scope__read_id ds) then inl E_NODE_ID else inr (TI_SCOPE_NODE (u8 (scope__read_id ds))).
Proof.
  intros Hs Hp Hne. destruct (word_cut c sep 110 p (sep :: ds) (str "node") Hs ltac:(in_table) Hp ltac:(eauto)) as (Hu & Hl & Hm). change (length (str "node")) with 4%nat in Hl.
  unfold ti_scope_init. rewrite (starts_sep c sep Hs). cbn [Z.eqb Pos.eqb]. rewrite Hu. cbn [Nat.add Nat.sub]. rewrite Hm, (proj2 (Nat.ltb_ge _ _)) by lia. cbn [orb negb].
  rewrite (proj2 (Nat.leb_gt _ _)) by (cbn [length]; rewrite length_app; destruct ds; [done|cbn; lia]).
  pose proof (drop_word c 110 p sep ds) as E. cbn [Nat.add] in E. by rewrite E.
Qed.

Lemma init_collection my_id c sep p name : starts c sep -> p `prefix_of` str "collection" -> name <> [] ->
  ti_scope_init my_id (c :: p ++ sep :: name) = scope__collection name.
Proof.
  intros Hs Hp Hne. destruct p as [|c1 p].
  - cbn [app]. unfold ti_scope_init. rewrite (starts_sep c sep Hs). destruct name as [|x name]; [done|]. destruct Hs; done.
  - assert (c1 = 99) as -> by exact (prefix_cons_inv_1 _ _ _ _ Hp).
    destruct (word_cut c sep 99 p (sep :: name) (str "collection") Hs ltac:(in_table) Hp ltac:(eauto)) as (Hu & Hl & Hm). change (length (str "collection")) with 10%nat in Hl.
    cbn [app]. unfold ti_scope_init. rewrite (starts_sep c sep Hs). cbn [Z.eqb Pos.eqb]. rewrite Hu. cbn [Nat.add Nat.sub]. rewrite Hm, (proj2 (Nat.ltb_ge _ _)) by lia. cbn [orb negb].
    rewrite (proj2 (Nat.leb_gt _ _)) by (cbn [length]; rewrite length_app; destruct name; [done|cbn; lia]).
    pose proof (drop_word c 99 p sep name) as E. cbn [Nat.add] in E. by rewrite E.
Qed.

Lemma init_thingsdb my_id c sep p : starts c sep -> p <> [] -> p `prefix_of` str "thingsdb" -> ti_scope_init my_id (c :: p) = inr TI_SCOPE_THINGSDB.
Proof.
  intros Hs Hne Hp. destruct p as [|c1 p]; [done|]. assert (c1 = 116) as -> by exact (prefix_cons_inv_1 _ _ _ _ Hp).
  unfold ti_scope_init. rewrite (starts_sep c sep Hs). cbn [Z.eqb Pos.eqb length Nat.sub]. pose proof (prefix_length _ _ Hp) as Hl. change (length (str "thingsdb")) with 8%nat in Hl. cbn [length] in Hl.
  rewrite (proj2 (Nat.ltb_ge _ _)) by lia. unfold memeq. destruct Hp as [k E]. rewrite bool_decide_true; [done|].
  rewrite E. change (S (length p)) with (length (116 :: p)). rewrite take_app_length. by apply take_ge.
Qed.

Lemma valid_nonempty name : ti_name_is_valid_strn name = true -> name <> [].
Proof. by destruct name. Qed.

(** What [ti_scope_init] gives is in the grammar. *)
Lemma init_sound my_id s sc : ti_scope_init my_id s = inr sc -> scope_text my_id s sc.
Proof.
  unfold ti_scope_init. destruct s as [|c [|c1 s]]; [done|done|]. destruct (if c =? 64 then _ else _) as [sep|] eqn:Es; [|done]. apply sep_starts in Es.
  destruct (Z.eqb_spec c1 116) as [->|_].
  { destruct (Nat.ltb_spec 9 (length (c :: 116 :: s))) as [|Hl]; [done|]. destruct (memeq _ _ _) eqn:Em; [|done]. intros [= <-]. cbn [length Nat.sub] in *.
    apply memeq_prefix in Em as [Hp _]; [|change (length (str "thingsdb")) with 8%nat; lia]. rewrite (take_ge (116 :: s)) in Hp by done. by eapply text_thingsdb. }
  destruct (Z.eqb_spec c1 110) as [->|_].
  { destruct (Nat.ltb_spec 5 (2 + until_sep sep s)) as [|Hl]; [done|]. destruct (memeq _ _ _) eqn:Em; [|done]. cbn [orb negb]. change (2 + until_sep sep s - 1)%nat with (S (until_sep sep s)) in Em.
    destruct (word_uncut c sep 110 s (str "node") Es ltac:(change (length (str "node")) with 4%nat; lia) Em) as (p & q & E & Hp & Hlen & Hq). rewrite <- Hlen. clear Em Hl Hlen. subst s.
    destruct (Nat.leb_spec (length (c :: 110 :: p ++ q)) (S (2 + length p))) as [Hn|Hn].
    - intros [= <-]. destruct Hq as [-> |[r ->]]; [rewrite app_nil_r; by eapply text_this_node|]. cbn [length] in Hn. rewrite length_app in Hn.
      destruct r; [|cbn in Hn; lia]. by apply (text_this_node_sep my_id c sep (110 :: p)).
    - destruct Hq as [-> |[r ->]]; [rewrite app_nil_r in Hn; cbn in Hn; lia|]. rewrite drop_word.
      destruct (Z.ltb_spec (scope__read_id r) 0); [done|]. destruct (Z.leb_spec 64 (scope__read_id r)); [done|]. cbn [orb]. intros [= <-]. rewrite u8_small by lia.
      cbn [length] in Hn. rewrite length_app in Hn. apply (text_node my_id c sep (110 :: p)); [done|done|done| | |done]; [by destruct r; [cbn in Hn; lia|]|by apply read_id_exact]. }
  destruct (Z.eqb_spec c1 99) as [->|_].
  { destruct (Nat.ltb_spec 11 (2 + until_sep sep s)) as [|Hl]; [done|]. destruct (memeq _ _ _) eqn:Em; [|done]. cbn [orb negb]. change (2 + until_sep sep s - 1)%nat with (S (until_sep sep s)) in Em.
    destruct (word_uncut c sep 99 s (str "collection") Es ltac:(change (length (str "collection")) with 10%nat; lia) Em) as (p & q & E & Hp & Hlen & Hq). rewrite <- Hlen. clear Em Hl Hlen. subst s.
    destruct (Nat.leb_spec (length (c :: 99 :: p ++ q)) (S (2 + length p))) as [Hn|Hn]; [done|]. destruct Hq as [-> |[r ->]]; [rewrite app_nil_r in Hn; cbn in Hn; lia|]. rewrite drop_word.
    unfold scope__collection. destruct (ti_name_is_valid_strn r) eqn:Ev; [|done]. intros [= <-]. by apply (text_collection my_id c sep (99 :: p)). }
  destruct ((c1 =? 47) || (c1 =? 58)); [|done]. destruct (Nat.ltb_spec (length (c :: c1 :: s)) 3); [done|]. destruct (Z.eqb_spec c1 sep) as [->|]; [|done]. cbn [orb negb].
  unfold scope__collection. destruct (ti_name_is_valid_strn s) eqn:Ev; [|done]. intros [= <-]. apply (text_collection my_id c sep []); [done|apply prefix_nil|done].
Qed.

Lemma init_complete my_id s sc : scope_text my_id s sc -> ti_scope_init my_id s = inr sc.
Proof.
  destruct 1 as [c sep p Hs Hne Hp|c sep p Hs Hne Hp|c sep p Hs Hne Hp|c sep p ds k Hs Hne Hp Hds Hk H64|c sep p name Hs Hp Hv].
  - by eapply init_thingsdb.
  - destruct p as [|c1 p]; [done|]. assert (c1 = 110) as -> by exact (prefix_cons_inv_1 _ _ _ _ Hp). rewrite <- (app_nil_r p). eapply init_this_node; [done|done|by left].
  - destruct p as [|c1 p]; [done|]. assert (c1 = 110) as -> by exact (prefix_cons_inv_1 _ _ _ _ Hp). eapply (init_this_node my_id c sep p); [done|done|by right].
  - destruct p as [|c1 p]; [done|]. assert (c1 = 110) as -> by exact (prefix_cons_inv_1 _ _ _ _ Hp). cbn [app]. rewrite (init_node my_id c sep p ds) by done.
    assert (Hk0 : 0 <= k) by (destruct Hk as (_ & _ & ->); apply Z.mod_pos_bound; lia). apply read_id_exact in Hk; [|done]. rewrite Hk, (proj2 (Z.ltb_ge _ _)), (proj2 (Z.leb_gt _ _)) by lia.
    cbn [orb]. by rewrite u8_small by lia.
  - rewrite (init_collection my_id c sep p name) by (done || by apply valid_nonempty). unfold scope__collection. by rewrite Hv.
Qed.

(** ** The scope of a request *)

Lemma content_sz data o n : content data o = Some (HArr n) -> o = MpObj MP_ARR (VSz n).
Proof. destruct o as [[] []]; cbn; congruence. Qed.

Lemma content_str data o t : content data o = Some (HStr t) -> exists a n, o = MpObj MP_STR (VStr a n) /\ slice data a n = t.
Proof. destruct o as [[] []]; cbn; try congruence. intros [= <-]. eauto. Qed.

(** A request with a scope: an array that is not empty, with a string first. *)
Definition scope_request (data t : list Z) : Prop := exists h n b l', data = h ++ b ++ l' /\ head h (HArr n) /\ n <> 0 /\ head b (HStr t).

Lemma init_not_bad_data my_id s : ti_scope_init my_id s <> inl E_BAD_DATA.
Proof.
  assert (Hi : forall s, invalid_scope s <> E_BAD_DATA) by (intros s'; unfold invalid_scope; repeat case_match; done).
  unfold ti_scope_init, scope__collection. specialize (Hi s). revert Hi. generalize (invalid_scope s). intros e He. repeat case_match; congruence.
Qed.

Lemma packed_request my_id data t : scope_request data t -> ti_scope_init_packed true my_id data = Some (ti_scope_init my_id t).
Proof.
  intros (h & n & b & l' & -> & Hh & Hn & Hb). unfold ti_scope_init_packed.
  destruct (mp_next_forward [] h (b ++ l') _ Hh) as (o & E & Ho). cbn [app] in E, Ho. change (len (@nil Z)) with 0 in E. rewrite E. cbn [mbind option_bind]. apply content_sz in Ho as ->. cbn [o_tp o_via].
  rewrite (proj2 (Z.eqb_neq n 0)) by done. destruct (mp_next_forward h b l' _ Hb) as (o2 & -> & Ho2). cbn [mbind option_bind]. apply content_str in Ho2 as (a & m & -> & E2). cbn [o_tp o_via]. by rewrite E2.
Qed.

Lemma packed_other my_id data : byte_list data -> (exists t, scope_request data t) \/ ti_scope_init_packed true my_id data = Some (inl E_BAD_DATA).
Proof.
  intros Hd. unfold ti_scope_init_packed. destruct (mp_next_back [] data Hd) as (o & pt & E & _ & Hc). cbn [app] in E. change (len (@nil Z)) with 0 in E. rewrite E. cbn [mbind option_bind].
  destruct Hc as [[_ Ht]|[[_ Ht]|[[_ Ht]|(h & l & v & -> & Hh)]]]; [rewrite Ht; by right..|].
  destruct (mp_next_forward [] h l v Hh) as (o' & E' & Ho). cbn [app] in E', Ho. change (len (@nil Z)) with 0 in E'. rewrite E in E'. injection E' as <- ->.
  destruct o as [[] []]; cbn [o_tp o_via]; try by right. cbn in Ho. injection Ho as <-. destruct (Z.eqb_spec n 0) as [|Hn]; [by right|].
  apply Forall_app in Hd as [_ Hl]. destruct (mp_next_back h l Hl) as (o2 & pt2 & E2 & _ & Hc). rewrite E2. cbn [mbind option_bind].
  destruct Hc as [[_ Ht]|[[_ Ht]|[[_ Ht]|(b & l' & v & -> & Hb)]]]; [rewrite Ht; by right..|].
  destruct (mp_next_forward h b l' v Hb) as (o' & E' & Ho). rewrite E2 in E'. injection E' as <- ->.
  destruct o2 as [[] []]; cbn [o_tp o_via]; try by right. cbn in Ho. injection Ho as <-. left. eexists. exists h, n, b, l'. eauto.
Qed.

(** C37. The scope of a request. For every package of bytes, [ti_scope_init_packed] returns
    without reading outside the package. It gives a scope if and only if the package starts
    with an array that is not empty, whose first item is a string that is one of the texts of
    that scope: [@] with [:] or [/] with [/], and a beginning of [thingsdb], of [node] with or
    without a number below 64, or of [collection] with a valid name. A package without such a
    string is bad data. Numbers below [2 ^ 63] are read as they are written. *)
Theorem request_scope_exact my_id data : byte_list data ->
  (exists r, ti_scope_init_packed true my_id data = Some r /\
    (forall sc, r = inr sc <-> exists t, scope_request data t /\ scope_text my_id t sc) /\
    (r = inl E_BAD_DATA <-> ~ exists t, scope_request data t)) /\
  (forall ds k, decimal ds < 2 ^ 63 -> reads_number ds k <-> forallb isdigit ds = true /\ k = decimal ds).
Proof.
  intros Hd. split; [|intros; by apply reads_small]. destruct (packed_other my_id data Hd) as [[t Ht]|E].
  - pose proof (packed_request my_id data t Ht) as E. eexists. split; [done|]. split.
    + intros sc. split; [intros Hr; exists t; split; [done|by apply init_sound]|]. intros (t' & Ht' & Hs). apply packed_request with (my_id := my_id) in Ht'. rewrite E in Ht'. injection Ht' as ->. by apply init_complete.
    + split; [by intros ?%init_not_bad_data|]. intros H. exfalso. apply H. eauto.
  - assert (Hno : ~ exists t, scope_request data t) by (intros [t Ht]; apply packed_request with (my_id := my_id) in Ht; rewrite E in Ht; injection Ht as Ht; by apply (init_not_bad_data my_id t)).
    eexists. split; [done|]. split; [|done]. intros sc. split; [done|]. intros (t & Ht & _). exfalso. eauto.
Qed.

Lemma request_scope_exact_witness : ti_scope_init_packed true 3 ([0x92; 0xa8] ++ str "@node:12" ++ [0xa2; 49; 50]) = Some (inr (TI_SCOPE_NODE 12)).
Proof.
  assert (Hb : byte_list ([0x92; 0xa8] ++ str "@node:12" ++ [0xa2; 49; 50])) by (repeat constructor; lia).
  destruct (proj1 (request_scope_exact 3 _ Hb)) as (r & E & H & _). rewrite E. f_equal. apply H. exists (str "@node:12"). split.
  - exists [0x92], 2, (0xa8 :: str "@node:12"), [0xa2; 49; 50]. split; [reflexivity|]. split; [apply (head_fixarr 2); lia|]. split; [lia|]. apply (head_fixstr (str "@node:12")). unfold len; cbn; lia.
  - apply (text_node 3 64 58 (str "node") (str "12") 12); [constructor|discriminate|exists []; reflexivity|discriminate| |lia].
    apply (proj2 (request_scope_exact 3 _ Hb)); [reflexivity|]. split; reflexivity.
Defined.

(** The number wraps around: a node id of 20 digits may be read as a small one. *)
Lemma node_id_wraps : ti_scope_init 3 (str "@node:18446744073709551621") = inr (TI_SCOPE_NODE 5).
Proof. vm_compute. reflexivity. Qed.
