(* ===== verification/ScopeNames.v ===== *)
(** * ti/collections, ti/scope: the collections and the names of scopes

    The collections keep unique valid names and unique ids whatever is created, renamed and
    removed, and so the name of every scope is read back as that scope. *)
From Stdlib Require Import ZArith Lia Ascii String.
From stdpp Require Import base list option numbers.
From S2P Require Import Prelude Utf8 Opr Strx Spec Keywords Users UsersProof Mpack MpackProof MpackRead Scope ScopeProps.

(** ** The operations as steps *)

Inductive op :=
  | OCreate (mem mem' : bool) (id : Z) (name : list Z)
  | ORename (mem : bool) (id : Z) (name : list Z)
  | ODelete (id : Z)
  | OSetTz (id tz : Z)
  | OSetDeep (id deep : Z).

(** An id given to a new collection (by another node) is that of a collection, and ids are
    not used up. *)
Definition op_fits (t : ti) (o : op) : Prop :=
  match o with
  | OCreate _ _ id _ => (id = 0 \/ 2 <= id < 2 ^ 64 - 1) /\ next_free_id t < 2 ^ 64 - 1
  | _ => True
  end.

Definition run_op (t : ti) (o : op) : ti :=
  match o with
  | OCreate mem mem' id name => snd (ti_collections_create_collection mem mem' t id name)
  | ORename mem id name => snd (ti_collection_rename mem t id name)
  | ODelete id => snd (ti_collections_del_collection t id)
  | OSetTz id tz => ti_scope_set_tz t id tz
  | OSetDeep id deep => ti_scope_set_deep t id deep
  end.

(** A new ThingsDB: id 1 is that of the first user. *)
Inductive reach_ti : ti -> Prop :=
  | reach_start tz deep : reach_ti (Ti [] 2 tz tz deep deep false)
  | reach_op t o : reach_ti t -> op_fits t o -> reach_ti (run_op t o).

Record wf (t : ti) : Prop := {
  wf_names : Forall (fun c => ti_name_is_valid_strn (c_name c) = true) (collections t);
  wf_unique_names : NoDup (c_name <$> collections t);
  wf_ids : Forall (fun c => 2 <= c_id c < next_free_id t) (collections t);
  wf_unique_ids : NoDup (c_id <$> collections t);
  wf_next : 2 <= next_free_id t;
}.

(** ** Lookups *)

Lemma find_none_not_in {A} (f : A -> bool) l : List.find f l = None -> Forall (fun a => f a = false) l.
Proof. intros H. apply List.Forall_forall. by apply find_none. Qed.

Lemma not_in_names t s : ti_collections_get_by_strn t s = None -> ~ s ∈ c_name <$> collections t.
Proof.
  intros H Hin. apply list_elem_of_fmap in Hin as (c & -> & Hc). apply find_none_not_in in H. rewrite Forall_forall in H. specialize (H c ltac:(by apply list_elem_of_In)).
  by rewrite bool_decide_true in H.
Qed.

Lemma not_in_ids t id : ti_collections_get_by_id t id = None -> ~ id ∈ c_id <$> collections t.
Proof.
  intros H Hin. apply list_elem_of_fmap in Hin as (c & -> & Hc). apply find_none_not_in in H. rewrite Forall_forall in H. specialize (H c ltac:(by apply list_elem_of_In)).
  by rewrite Z.eqb_refl in H.
Qed.

Lemma find_by_name t c : wf t -> c ∈ collections t -> ti_collections_get_by_strn t (c_name c) = Some c.
Proof.
  intros W Hc. destruct (ti_collections_get_by_strn t (c_name c)) as [c'|] eqn:E.
  - apply find_some in E as [Hin Hn]. apply bool_decide_eq_true in Hn. f_equal. apply list_elem_of_In in Hin. apply list_elem_of_lookup in Hc as [i Hi], Hin as [j Hj].
    assert (i = j) as <- by (eapply NoDup_lookup; [apply (wf_unique_names t W)|rewrite list_lookup_fmap, Hi; done|rewrite list_lookup_fmap, Hj; cbn; by rewrite Hn]). congruence.
  - apply not_in_names in E. exfalso. apply E. by apply list_elem_of_fmap_2.
Qed.

(** ** Updates *)

Lemma update_fmap {B} (g : collection -> B) f id cs : (forall c, g (f c) = g c) -> g <$> update_by_id f id cs = g <$> cs.
Proof. intros H. induction cs as [|c cs IH]; [done|]. cbn [update_by_id]. destruct (c_id c =? id); cbn [fmap list_fmap]; [by rewrite H|by rewrite IH]. Qed.

Lemma update_forall (P : collection -> Prop) f id cs : Forall P cs -> (forall c, P c -> P (f c)) -> Forall P (update_by_id f id cs).
Proof. intros H Hf. induction H as [|c cs Hc H IH]; [constructor|]. cbn [update_by_id]. destruct (c_id c =? id); constructor; auto. Qed.

Lemma update_names f id cs s : (forall c, c_name (f c) = s) -> ~ s ∈ c_name <$> cs -> NoDup (c_name <$> cs) -> NoDup (c_name <$> update_by_id f id cs).
Proof.
  intros Hf. induction cs as [|c cs IH]; intros Hs Hn; [done|]. cbn [update_by_id fmap list_fmap] in *. apply list.NoDup_cons in Hn as [Hc Hn]. rewrite not_elem_of_cons in Hs. destruct Hs as [Hsc Hs].
  assert (Hup : forall x, x ∈ c_name <$> update_by_id f id cs -> x = s \/ x ∈ c_name <$> cs).
  { clear -Hf. induction cs as [|c cs IH]; [by right|]. intros x. cbn [update_by_id fmap list_fmap]. destruct (c_id c =? id); cbn [fmap list_fmap]; rewrite !elem_of_cons, ?Hf; [tauto|]. intros [Hx|H]; [auto|]. destruct (IH x H); auto. }
  destruct (c_id c =? id); cbn [fmap list_fmap]; apply list.NoDup_cons; [by rewrite Hf|]. split; [|by apply IH]. intros H. by destruct (Hup _ H) as [Hx|]; [rewrite Hx in Hsc|].
Qed.

(** ** The invariant *)

(** What is left of the collections after one is removed, or with the same names and ids. *)
Lemma wf_same t t' : wf t -> next_free_id t' = next_free_id t -> c_name <$> collections t' = c_name <$> collections t -> c_id <$> collections t' = c_id <$> collections t -> wf t'.
Proof.
  intros [W1 W2 W3 W4 W5] Hn Hnames Hids. rewrite <- Hnames in W2. rewrite <- Hids in W4. constructor; [|done| |done|lia].
  - apply (Forall_fmap c_name (fun s => ti_name_is_valid_strn s = true)). rewrite Hnames. by apply Forall_fmap.
  - rewrite Hn. apply (Forall_fmap c_id (fun id => 2 <= id < next_free_id t)). rewrite Hids. by apply Forall_fmap.
Qed.

Lemma wf_set t scope_id f tz ntz dp ndp ch : (forall c, c_name (f c) = c_name c /\ c_id (f c) = c_id c) -> wf t ->
  wf (Ti (collections t) (next_free_id t) tz ntz dp ndp ch) /\ wf (with_collections t (update_by_id f scope_id (collections t))).
Proof.
  intros Hf W. split; [by eapply wf_same|]. eapply wf_same; [exact W|done|apply update_fmap; apply Hf|apply update_fmap; apply Hf].
Qed.

Lemma wf_add t id name tz deep next : wf t -> ti_name_is_valid_strn name = true -> ~ name ∈ c_name <$> collections t -> ~ id ∈ c_id <$> collections t ->
  2 <= id < next -> next_free_id t <= next ->
  wf (with_collections (with_next t next) (collections t ++ [Collection id name tz deep])).
Proof.
  intros [W1 W2 W3 W4 W5] Hv Hn Hi Hid Hnext. constructor; cbn.
  - apply Forall_app. split; [done|]. by repeat constructor.
  - rewrite fmap_app. apply list.NoDup_app. split_and!; [done| |apply NoDup_singleton]. intros x Hx ->%list_elem_of_singleton. done.
  - apply Forall_app. split; [|repeat constructor; cbn; lia]. eapply List.Forall_impl; [|exact W3]. cbn. lia.
  - rewrite fmap_app. apply list.NoDup_app. split_and!; [done| |apply NoDup_singleton]. intros x Hx ->%list_elem_of_singleton. done.
  - lia.
Qed.

Lemma wf_with_next t next : wf t -> next_free_id t <= next -> wf (with_next t next).
Proof. intros [W1 W2 W3 W4 W5] H. constructor; cbn; [done|done| |done|lia]. eapply List.Forall_impl; [|exact W3]. cbn. lia. Qed.

Lemma below_next t : wf t -> ~ next_free_id t ∈ c_id <$> collections t.
Proof. intros W (c & E & Hc)%list_elem_of_fmap. pose proof (wf_ids t W) as H. rewrite List.Forall_forall in H. specialize (H c ltac:(by apply list_elem_of_In)). cbn in H. lia. Qed.

Lemma wf_create mem mem' t id name : wf t -> op_fits t (OCreate mem mem' id name) -> wf (snd (ti_collections_create_collection mem mem' t id name)).
Proof.
  intros W [Hid Hnext]. pose proof (wf_next t W). unfold ti_collections_create_collection. destruct (ti_name_is_valid_strn name) eqn:Ev; [|done]. cbn [negb].
  case_bool_decide as Es; [done|]. assert (Hn : ~ name ∈ c_name <$> collections t) by (apply not_in_names; by apply eq_None_not_Some).
  destruct (Z.eqb_spec id 0) as [->|H0]; cbn [negb andb].
  - cbn [ti_next_free_id]. rewrite u64_small by lia. destruct mem; cbn [negb snd]; [|apply wf_with_next; [done|lia]]. destruct mem'; cbn [negb snd]; [|apply wf_with_next; [done|lia]].
    apply (wf_add t (next_free_id t) name (t_tz t) (t_deep t)); [done|done|done|by apply below_next|lia|lia].
  - case_bool_decide as Ei; [done|]. assert (Hi : ~ id ∈ c_id <$> collections t) by (apply not_in_ids; by apply eq_None_not_Some). destruct Hid as [|Hid]; [done|].
    assert (E : exists next, ti_update_next_free_id t id = with_next t next /\ id < next /\ next_free_id t <= next).
    { unfold ti_update_next_free_id. destruct (Z.leb_spec (next_free_id t) id); [exists (id + 1); rewrite u64_small by lia; split_and!; (done || lia)|].
      exists (next_free_id t). split_and!; [by destruct t|lia|lia]. }
    destruct E as (next & -> & Hlt & Hle). destruct mem; cbn [negb snd]; [|apply wf_with_next; [done|lia]]. destruct mem'; cbn [negb snd]; [|apply wf_with_next; [done|lia]].
    apply (wf_add t id name (t_tz t) (t_deep t)); [done|done|done|done|lia|lia].
Qed.

Lemma wf_rename mem t id name : wf t -> wf (snd (ti_collection_rename mem t id name)).
Proof.
  intros W. unfold ti_collection_rename. destruct (ti_name_is_valid_strn name) eqn:Ev; [|done]. cbn [negb]. case_bool_decide as Es; [done|]. destruct mem; [|done]. cbn [negb snd].
  assert (Hn : ~ name ∈ c_name <$> collections t) by (apply not_in_names; by apply eq_None_not_Some). destruct W as [W1 W2 W3 W4 W5]. constructor; cbn.
  - apply update_forall; [done|]. intros c _. exact Ev.
  - eapply (update_names _ id _ name); [by intros c|done|done].
  - apply update_forall; [done|]. intros c H. exact H.
  - by rewrite update_fmap.
  - done.
Qed.

Lemma wf_delete t id : wf t -> wf (snd (ti_collections_del_collection t id)).
Proof.
  intros [W1 W2 W3 W4 W5]. unfold ti_collections_del_collection. destruct (list_find _ _) as [[i c]|] eqn:E; [|done]. apply list_find_Some in E as (Hi & _ & _). cbn [snd].
  pose proof (swap_remove_perm _ i c Hi) as P. constructor; cbn.
  - rewrite P in W1. by inversion W1.
  - rewrite P in W2. cbn in W2. by apply list.NoDup_cons in W2 as [_ ?].
  - rewrite P in W3. by inversion W3.
  - rewrite P in W4. cbn in W4. by apply list.NoDup_cons in W4 as [_ ?].
  - done.
Qed.

Lemma wf_reach t : reach_ti t -> wf t.
Proof.
  induction 1 as [tz deep|t o _ IH Ho]; [constructor; cbn; try constructor; lia|]. destruct o as [mem mem' id name|mem id name|id|id tz|id deep]; cbn [run_op].
  - by apply wf_create.
  - by apply wf_rename.
  - by apply wf_delete.
  - unfold ti_scope_set_tz. pose proof (fun z nz => wf_set t id (fun c => Collection (c_id c) (c_name c) tz (c_deep c)) z nz (t_deep t) (n_deep t) true (fun c => conj eq_refl eq_refl) IH) as H.
    destruct (id =? 0); [apply H|]. destruct (id =? 1); [apply H|]. apply (H 0 0).
  - unfold ti_scope_set_deep. pose proof (fun d nd => wf_set t id (fun c => Collection (c_id c) (c_name c) (c_tz c) deep) (t_tz t) (n_tz t) d nd true (fun c => conj eq_refl eq_refl) IH) as H.
    destruct (id =? 0); [apply H|]. destruct (id =? 1); [apply H|]. apply (H 0 0).
Qed.

(** ** The names *)

Lemma valid_no_nul s : ti_name_is_valid_strn s = true -> until0 s = s /\ (length s <= 255)%nat.
Proof.
  destruct s as [|c s]; [done|]. unfold ti_name_is_valid_strn. intros [[Hl Hc]%andb_true_iff Hs]%andb_true_iff. apply negb_true_iff, Nat.ltb_ge in Hl. split; [|exact Hl].
  assert (Hz : forall c, isalpha c || isdigit c || (c =? 95) = true -> c =? 0 = false) by (intros x; unfold isalpha, isdigit, in_rng; lia).
  cbn [until0]. rewrite (Hz c) by (apply orb_true_iff in Hc as [-> | ->]; [done|by rewrite orb_true_r]). f_equal. clear -Hs Hz. induction s as [|x s IH]; [done|]. cbn [forallb] in Hs.
  apply andb_true_iff in Hs as [Hx Hs]. cbn [until0]. by rewrite (Hz x Hx), IH.
Qed.

Lemma name_of_collection t c : wf t -> c ∈ collections t -> ti_scope_name_from_id t (c_id c) = Some (str "@collection:" ++ c_name c).
Proof.
  intros W Hc. pose proof (wf_ids t W) as Hids. pose proof (wf_names t W) as Hnames. rewrite List.Forall_forall in Hids, Hnames. apply list_elem_of_In in Hc.
  specialize (Hids c Hc). cbn in Hids. unfold ti_scope_name_from_id. rewrite (proj2 (Z.eqb_neq _ _)), (proj2 (Z.eqb_neq _ _)) by lia.
  assert (E : ti_collections_get_by_id t (c_id c) = Some c).
  { destruct (ti_collections_get_by_id t (c_id c)) as [c'|] eqn:E.
    - apply find_some in E as [Hin Hn]. apply Z.eqb_eq in Hn. f_equal. apply list_elem_of_In in Hin, Hc. apply list_elem_of_lookup in Hc as [i Hi], Hin as [j Hj].
      assert (i = j) as <- by (eapply NoDup_lookup; [apply (wf_unique_ids t W)|rewrite list_lookup_fmap, Hi; done|rewrite list_lookup_fmap, Hj; cbn; by rewrite Hn]). congruence.
    - apply not_in_ids in E. exfalso. apply E. apply list_elem_of_fmap_2. by apply list_elem_of_In. }
  rewrite E. destruct (valid_no_nul _ (Hnames c Hc)) as [-> Hl]. unfold strcpy_buf. rewrite (proj2 (Nat.ltb_ge _ _)); [done|]. rewrite length_app. unfold scope__name_buf, TI_NAME_MAX. cbn [length str]. cbn. lia.
Qed.

(** C38. The names of scopes. Whatever collections are created, renamed and removed and
    whatever is set on them, with any allocation failing, the name of a scope fits in the
    buffer it is written to, and [ti_scope_init] and [ti_scope_id] lead from the name of
    the ThingsDB scope, of the node scope and of every collection back to the id it is made
    from. The name given for another id is not a scope. *)
Theorem scope_names_round_trip t : reach_ti t -> forall my_id id, exists text, ti_scope_name_from_id t id = Some text /\
  (id = 0 \/ id = 1 \/ id ∈ c_id <$> collections t -> exists sc, ti_scope_init my_id text = inr sc /\ ti_scope_id t sc = inr id) /\
  (~ (id = 0 \/ id = 1 \/ id ∈ c_id <$> collections t) -> ti_scope_init my_id text = inl E_COLLECTION_NAME).
Proof.
  intros Hr my_id id. pose proof (wf_reach t Hr) as W. destruct (decide (id ∈ c_id <$> collections t)) as [Hin|Hin].
  - apply list_elem_of_fmap in Hin as (c & -> & Hc). eexists. split; [by apply name_of_collection|]. split; [intros _|intros H; exfalso; apply H; right; right; by apply list_elem_of_fmap_2].
    pose proof (wf_names t W) as Hn. rewrite List.Forall_forall in Hn. specialize (Hn c ltac:(by apply list_elem_of_In)). cbn in Hn. exists (TI_SCOPE_COLLECTION (c_name c)). split.
    + apply init_complete. by apply (text_collection my_id 64 58 (str "collection") (c_name c)); [constructor| |].
    + unfold ti_scope_id. by rewrite (find_by_name t c W Hc).
  - unfold ti_scope_name_from_id. destruct (Z.eqb_spec id 0) as [->|H0].
    { eexists. split; [reflexivity|]. split; [|tauto]. intros _. by exists TI_SCOPE_THINGSDB. }
    destruct (Z.eqb_spec id 1) as [->|H1].
    { eexists. split; [reflexivity|]. split; [|tauto]. intros _. by exists (TI_SCOPE_NODE my_id). }
    destruct (ti_collections_get_by_id t id) as [c|] eqn:E.
    { apply find_some in E as [Hc Hid]. apply Z.eqb_eq in Hid as <-. exfalso. apply Hin, list_elem_of_fmap_2. by apply list_elem_of_In. }
    eexists. split; [reflexivity|]. split; [tauto|]. intros _. reflexivity.
Qed.

Lemma scope_names_round_trip_witness : exists text sc, ti_scope_name_from_id (run_op (Ti [] 2 0 0 1 1 false) (OCreate true true 0 (str "stuff"))) 2 = Some text /\
  ti_scope_init 0 text = inr sc /\ ti_scope_id (run_op (Ti [] 2 0 0 1 1 false) (OCreate true true 0 (str "stuff"))) sc = inr 2.
Proof.
  assert (Hr : reach_ti (run_op (Ti [] 2 0 0 1 1 false) (OCreate true true 0 (str "stuff")))) by (apply reach_op; [apply reach_start|split; [left; reflexivity|cbn; lia]]).
  destruct (scope_names_round_trip _ Hr 0 2) as (text & E & H & _). destruct H as (sc & H1 & H2); [right; right; left|]. exists text, sc. exact (conj E (conj H1 H2)).
Defined.
