(* ===== verification/Task.v ===== *)
(** * ti/task, ti/ttask: changes of users as tasks

    A call that changes users is sent to the other nodes as a task: [src/src/ti/task.c] packs
    it, [src/src/ti/ttask.c] unpacks and applies it. The tasks of users are modelled; the
    state they are applied to is that of [Users], the bytes are read with [Mpack]. *)
From Stdlib Require Import ZArith Lia Ascii String.
From stdpp Require Import base list option numbers gmap.
From S2P Require Import Prelude Utf8 Opr Strx Spec Keywords Req Cryptx Users UsersSteps Mpack.

(** ** Codes *)

Definition TI_TASK_DEL_EXPIRED : Z := 7.
Definition TI_TASK_DEL_TOKEN : Z := 12.
Definition TI_TASK_DEL_USER : Z := 14.
Definition TI_TASK_GRANT : Z := 16.
Definition TI_TASK_NEW_TOKEN : Z := 34.
Definition TI_TASK_NEW_USER : Z := 36.
Definition TI_TASK_RENAME_USER : Z := 42.
Definition TI_TASK_REVOKE : Z := 44.
Definition TI_TASK_SET_PASSWORD : Z := 48.
Definition TI_TASK_CLEAR_USERS : Z := 53.
Definition TI_TASK_TAKE_ACCESS : Z := 54.

(** The tasks of other parts: collections, modules, nodes, procedures, time zones, tasks of
    users ([vtask]), restore, white lists and history. *)
Definition other_tasks : list Z :=
  [5; 8; 9; 10; 11; 15; 29; 30; 31; 32; 33; 37; 39; 40; 43; 46; 47; 49; 50; 59; 60; 61; 62; 63; 64; 65; 68; 69; 74; 80; 81; 82; 83; 84].

(** ** Packing *)

(** What is packed, call by call. *)
Inductive field :=
  | FArr (n : Z) | FMap (n : Z) | FU8 (z : Z) | FU64 (z : Z) | FStr (s : list Z) | FNil.

Section pack.

Context `{P : Packer}.

Definition pack_field (x : list Z) (f : field) : option (list Z) :=
  match f with
  | FArr n => msgpack_pack_array x n
  | FMap n => msgpack_pack_map x n
  | FU8 z => msgpack_pack_uint8 x z
  | FU64 z => msgpack_pack_uint64 x z
  | FStr s => mp_pack_strn x s
  | FNil => msgpack_pack_nil x
  end.

Fixpoint pack_fields (x : list Z) (fs : list field) : option (list Z) :=
  match fs with
  | [] => Some x
  | f :: fs => x ← pack_field x f; pack_fields x fs
  end.

(** The data that is pushed to the list of the task; [mem] is whether the buffer is allocated
    and pushed. [None] also when a packing call fails: the code does not look at that and
    pushes what has been packed. *)
Definition task_data (mem : bool) (fs : list field) : option (list Z) :=
  if negb mem then None else pack_fields [] fs.

Definition ti_task_add_del_expired (mem : bool) (after_ts : Z) : option (list Z) :=
  task_data mem [FArr 2; FU8 TI_TASK_DEL_EXPIRED; FU64 after_ts].

Definition ti_task_add_del_token (mem : bool) (key : list Z) : option (list Z) :=
  task_data mem [FArr 2; FU8 TI_TASK_DEL_TOKEN; FStr (take token_key_sz key)].

Definition ti_task_add_del_user (mem : bool) (u : ti_user_t) : option (list Z) :=
  task_data mem [FArr 2; FU8 TI_TASK_DEL_USER; FU64 (u_id u)].

Definition ti_task_add_grant (mem : bool) (scope_id : Z) (u : ti_user_t) (mask : Z) : option (list Z) :=
  task_data mem [FArr 2; FU8 TI_TASK_GRANT; FMap 3; FStr (str "scope"); FU64 scope_id; FStr (str "user"); FU64 (u_id u); FStr (str "mask"); FU64 mask].

Definition ti_task_add_revoke (mem : bool) (scope_id : Z) (u : ti_user_t) (mask : Z) : option (list Z) :=
  task_data mem [FArr 2; FU8 TI_TASK_REVOKE; FMap 3; FStr (str "scope"); FU64 scope_id; FStr (str "user"); FU64 (u_id u); FStr (str "mask"); FU64 mask].

Definition ti_task_add_new_token (mem : bool) (u : ti_user_t) (t : ti_token_t) : option (list Z) :=
  task_data mem [FArr 2; FU8 TI_TASK_NEW_TOKEN; FMap 5; FStr (str "id"); FU64 (u_id u); FStr (str "key"); FStr (take token_key_sz (tk_key t));
    FStr (str "expire_ts"); FU64 (tk_expire_ts t); FStr (str "created_at"); FU64 (tk_created_at t); FStr (str "description"); FStr (until0 (tk_description t))].

Definition ti_task_add_new_user (mem : bool) (u : ti_user_t) : option (list Z) :=
  task_data mem [FArr 2; FU8 TI_TASK_NEW_USER; FMap 3; FStr (str "id"); FU64 (u_id u); FStr (str "username"); FStr (u_name u); FStr (str "created_at"); FU64 (u_created_at u)].

Definition ti_task_add_rename_user (mem : bool) (u : ti_user_t) : option (list Z) :=
  task_data mem [FArr 2; FU8 TI_TASK_RENAME_USER; FMap 2; FStr (str "id"); FU64 (u_id u); FStr (str "name"); FStr (u_name u)].

Definition ti_task_add_set_password (mem : bool) (u : ti_user_t) : option (list Z) :=
  task_data mem [FArr 2; FU8 TI_TASK_SET_PASSWORD; FMap 2; FStr (str "id"); FU64 (u_id u); FStr (str "password");
    match u_encpass u with Some e => FStr (until0 e) | None => FNil end].

(** The id [ti_val_get_access] gives for a scope. *)
Definition scope_id (s : ti_scope) : Z :=
  match s with TI_SCOPE_THINGSDB => 0 | TI_SCOPE_NODE => 1 | TI_SCOPE_COLLECTION id => id end.

(** The task a call adds after it has changed [d] to [d'] ([del_user] before): [Some None] for
    a call that adds no task, [None] when adding it fails. *)
Definition call_task (mem : bool) (c : ucall) (d d' : db) : option (option (list Z)) :=
  let user name := o ← ti_users_get_by_namestrn d name; o in
  let some (x : option (list Z)) := data ← x; Some (Some data) in
  match c with
  | CGrant _ _ s name mask => p ← user name; u ← heap d' !! p; some (ti_task_add_grant mem (scope_id s) u (grant_mask mask))
  | CRevoke _ s name mask => p ← user name; u ← heap d' !! p; some (ti_task_add_revoke mem (scope_id s) u (revoke_mask mask))
  | CNewUser _ _ p _ _ => u ← heap d' !! p; some (ti_task_add_new_user mem u)
  | CDelUser _ _ name => p ← user name; u ← heap d !! p; some (ti_task_add_del_user mem u)
  | CRename _ name _ => p ← user name; u ← heap d' !! p; some (ti_task_add_rename_user mem u)
  | CSetPassword _ _ _ name _ => p ← user name; u ← heap d' !! p; some (ti_task_add_set_password mem u)
  | CNewToken _ _ name _ _ _ _ => p ← user name; u ← heap d' !! p; t ← list.last (u_tokens u); some (ti_task_add_new_token mem u t)
  | CDelToken _ key => some (ti_task_add_del_token mem key)
  | CDelExpired _ now => some (ti_task_add_del_expired mem now)
  | _ => Some None
  end.

End pack.

(** ** Unpacking *)

Section unpack.

Context (char_signed : bool) (data : list Z).

(** The conditions that the tasks check one after the other: [Some None] is invalid data. *)
Definition parser (A : Type) : Type := Z -> option (option (A * Z)).

Definition p_bind {A B} (m : parser A) (k : A -> parser B) : parser B := fun pt =>
  match m pt with None => None | Some None => Some None | Some (Some (a, pt)) => k a pt end.

Definition p_u64 : parser Z := fun pt =>
  '(o, pt) ← mp_next char_signed data pt; Some (match o_tp o, o_via o with MP_U64, VU64 z => Some (z, pt) | _, _ => None end).

Definition p_str : parser (list Z) := fun pt =>
  '(o, pt) ← mp_next char_signed data pt; Some (match o_tp o, o_via o with MP_STR, VStr a n => Some (slice data a n, pt) | _, _ => None end).

Definition p_str_or_nil : parser (option (list Z)) := fun pt =>
  '(o, pt) ← mp_next char_signed data pt;
  Some (match o_tp o, o_via o with MP_STR, VStr a n => Some (Some (slice data a n), pt) | MP_NIL, _ => Some (None, pt) | _, _ => None end).

Definition p_map (n : Z) : parser unit := fun pt =>
  '(o, pt) ← mp_next char_signed data pt; Some (match o_tp o, o_via o with MP_MAP, VSz m => if m =? n then Some (tt, pt) else None | _, _ => None end).

(** [mp_skip(up) != tp] *)
Definition p_skip (tp : mp_enum) : parser unit := fun pt =>
  '(t, pt) ← mp_skip data (skip_fuel data) pt; Some (if decide (t = tp) then Some (tt, pt) else None).

(** A key and its value. *)
Definition p_key {A} (m : parser A) : parser A := p_bind (p_skip MP_STR) (fun _ => m).

(** The result of a task: what it returns, with the state; [Elsewhere] is a task of another
    part. *)
Inductive outcome := Ran (ok : bool) (d : db) | Elsewhere.

(** Invalid data returns -1. *)
Definition parsed {A} (d : db) (m : option (option (A * Z))) (k : A -> option outcome) : option outcome :=
  match m with None => None | Some None => Some (Ran false d) | Some (Some (a, _)) => k a end.

(** The user with an id, or -1. *)
Definition with_user (d : db) (id : Z) (k : ptr -> option outcome) : option outcome :=
  o ← ti_users_get_by_id d id;
  match o with None => Some (Ran false d) | Some p => k p end.

(** A scope by its id, or -1. *)
Definition with_scope (d : db) (id : Z) (k : ti_scope -> option outcome) : option outcome :=
  if 1 <? id then
    match List.find (fun c => co_id c =? id) (collections d) with
    | None => Some (Ran false d)
    | Some _ => k (TI_SCOPE_COLLECTION id)
    end
  else k (if id =? 1 then TI_SCOPE_NODE else TI_SCOPE_THINGSDB).

Definition ttask__clear_users (mem : bool) (d : db) (pt : Z) : option outcome :=
  parsed d (p_skip MP_BOOL pt) (fun _ => '(_, d) ← ti_users_clear mem d; Some (Ran true d)).

(** Granting everything on a list of scopes; a failure is only logged. *)
Fixpoint take_scopes (mem : bool) (p : ptr) (l : list ti_scope) (d : db) : option db :=
  match l with
  | [] => Some d
  | s :: l =>
    a ← ti_val_get_access d s;
    '(_, h, a) ← ti_access_grant mem (heap d) a p TI_AUTH_MASK_FULL;
    take_scopes mem p l (set_access d s h a)
  end.

Definition ttask__take_access (mem : bool) (d : db) (pt : Z) : option outcome :=
  parsed d (p_u64 pt) (fun id =>
  with_user d id (fun p =>
    d ← take_scopes mem p (TI_SCOPE_THINGSDB :: TI_SCOPE_NODE :: map (fun c => TI_SCOPE_COLLECTION (co_id c)) (collections d)) d;
    Some (Ran true d))).

Definition ttask__del_expired (d : db) (pt : Z) : option outcome :=
  parsed d (p_u64 pt) (fun after_ts => d ← ti_users_del_expired d after_ts; Some (Ran true d)).

Definition ttask__del_token (d : db) (pt : Z) : option outcome :=
  parsed d (p_str pt) (fun key =>
    if negb (len key =? Z.of_nat token_key_sz) then Some (Ran false d)
    else '(ok, d) ← ti_users_pop_token_by_key d key; Some (Ran ok d)).

Definition ttask__del_user (d : db) (pt : Z) : option outcome :=
  parsed d (p_u64 pt) (fun id => with_user d id (fun p => d ← ti_users_del_user d p; Some (Ran true d))).

Definition p_scope_user_mask : parser (Z * Z * Z) :=
  p_bind (p_map 3) (fun _ => p_bind (p_key p_u64) (fun s => p_bind (p_key p_u64) (fun u => p_bind (p_key p_u64) (fun m pt => Some (Some ((s, u, m), pt)))))).

Definition ttask__grant (mem : bool) (d : db) (pt : Z) : option outcome :=
  parsed d (p_scope_user_mask pt) (fun '(sid, uid, mask) =>
  with_scope d sid (fun s =>
  with_user d uid (fun p =>
    a ← ti_val_get_access d s;
    '(ok, h, a) ← ti_access_grant mem (heap d) a p mask;
    Some (Ran ok (set_access d s h a))))).

Definition ttask__revoke (d : db) (pt : Z) : option outcome :=
  parsed d (p_scope_user_mask pt) (fun '(sid, uid, mask) =>
  with_scope d sid (fun s =>
  with_user d uid (fun p =>
    a ← ti_val_get_access d s;
    '(h, a) ← ti_access_revoke (heap d) a p mask;
    Some (Ran true (set_access d s h a))))).

Definition p_new_token : parser (Z * list Z * Z * Z * list Z) :=
  p_bind (p_map 5) (fun _ => p_bind (p_key p_u64) (fun u => p_bind (p_key p_str) (fun k => p_bind (p_key p_u64) (fun e =>
  p_bind (p_key p_u64) (fun c => p_bind (p_key p_str) (fun s pt => Some (Some ((u, k, e, c, s), pt)))))))).

Definition ttask__new_token (mem : bool) (d : db) (pt : Z) : option outcome :=
  parsed d (p_new_token pt) (fun '(uid, key, expire, created, desc) =>
    if negb (len key =? Z.of_nat token_key_sz) then Some (Ran false d)
    else with_user d uid (fun p => '(ok, d) ← ti_user_add_token mem d p (Token key expire created (until0 desc)); Some (Ran ok d))).

(** [p] is the address of the new user. *)
Definition ttask__new_user (mem : bool) (p : ptr) (d : db) (pt : Z) : option outcome :=
  parsed d (p_bind (p_map 3) (fun _ => p_bind (p_key p_u64) (fun id => p_bind (p_key p_str) (fun name => p_bind (p_key p_u64) (fun created pt => Some (Some ((id, name, created), pt)))))) pt)
    (fun '(id, name, created) =>
       '(r, d) ← ti_users_load_user mem d p id name None created;
       Some (Ran (match r with inl _ => false | inr _ => true end) d)).

Definition ttask__rename_user (mem : bool) (d : db) (pt : Z) : option outcome :=
  parsed d (p_bind (p_map 2) (fun _ => p_bind (p_key p_u64) (fun id => p_bind (p_key p_str) (fun name pt => Some (Some ((id, name), pt))))) pt)
    (fun '(id, name) => with_user d id (fun p =>
       if negb mem then Some (Ran false d)
       else '(e, d) ← ti_user_rename d p name; Some (Ran (match e with Some _ => false | None => true end) d))).

Definition ttask__set_password (mem : bool) (d : db) (pt : Z) : option outcome :=
  parsed d (p_bind (p_map 2) (fun _ => p_bind (p_key p_u64) (fun id => p_bind (p_key p_str_or_nil) (fun pass pt => Some (Some ((id, pass), pt))))) pt)
    (fun '(id, pass) => with_user d id (fun p =>
       if negb mem && bool_decide (is_Some pass) then Some (Ran false d)
       else u ← heap d !! p;
            Some (Ran true (with_heap d (<[p := User (u_ref u) (u_id u) (u_created_at u) (u_name u) (until0 <$> pass) (u_tokens u) (u_whitelists u)]> (heap d)))))).

(** The numbers of the tasks, cut to the 32 bits of the enumeration. *)
Definition run_code (mem : bool) (p : ptr) (d : db) (task pt : Z) : option outcome :=
  let task := u32 task in
  if task =? TI_TASK_DEL_EXPIRED then ttask__del_expired d pt
  else if task =? TI_TASK_DEL_TOKEN then ttask__del_token d pt
  else if task =? TI_TASK_DEL_USER then ttask__del_user d pt
  else if task =? TI_TASK_GRANT then ttask__grant mem d pt
  else if task =? TI_TASK_NEW_TOKEN then ttask__new_token mem d pt
  else if task =? TI_TASK_NEW_USER then ttask__new_user mem p d pt
  else if task =? TI_TASK_RENAME_USER then ttask__rename_user mem d pt
  else if task =? TI_TASK_REVOKE then ttask__revoke d pt
  else if task =? TI_TASK_SET_PASSWORD then ttask__set_password mem d pt
  else if task =? TI_TASK_CLEAR_USERS then ttask__clear_users mem d pt
  else if task =? TI_TASK_TAKE_ACCESS then ttask__take_access mem d pt
  else if bool_decide (task ∈ other_tasks) then Some Elsewhere
  else Some (Ran false d).

(** The names of tasks before version 1; the last ones are of other parts. *)
Definition run_name (mem : bool) (p : ptr) (d : db) (task : list Z) (pt : Z) : option outcome :=
  let named (s : string) := bool_decide (task = str s) in
  if named "clear_users"%string then ttask__clear_users mem d pt
  else if named "del_expired"%string then ttask__del_expired d pt
  else if named "del_token"%string then ttask__del_token d pt
  else if named "del_user"%string then ttask__del_user d pt
  else if named "grant"%string then ttask__grant mem d pt
  else if named "new_token"%string then ttask__new_token mem d pt
  else if named "new_user"%string then ttask__new_user mem p d pt
  else if named "rename_user"%string then ttask__rename_user mem d pt
  else if named "revoke"%string then ttask__revoke d pt
  else if named "set_password"%string then ttask__set_password mem d pt
  else if named "take_access"%string then ttask__take_access mem d pt
  else if named "set_quota"%string then _ ← mp_skip data (skip_fuel data) pt; Some (Ran true d)
  else if existsb named ["del_timer"; "deploy_module"; "del_collection"; "del_node"; "del_module"; "del_procedure"; "new_timer"; "new_collection"; "new_module"; "new_node";
                      "new_procedure"; "rename_collection"; "rename_module"; "rename_procedure"; "restore"; "set_timer_args"; "set_module_conf"; "set_module_scope"; "set_time_zone"]%string
  then Some Elsewhere
  else Some (Ran false d).

Definition ti_ttask_run (mem : bool) (p : ptr) (d : db) (pt : Z) : option outcome :=
  '(obj, pt) ← mp_next char_signed data pt;
  match o_tp obj, o_via obj with
  | MP_ARR, VSz n =>
    if negb (n =? 2) then Some (Ran false d)
    else parsed d (p_bind p_u64 (fun task pt => Some (Some ((task, pt), pt))) pt) (fun '(task, pt) => run_code mem p d task pt)
  | MP_MAP, VSz n =>
    if negb (n =? 1) then Some (Ran false d)
    else parsed d (p_bind p_str (fun task pt => Some (Some ((task, pt), pt))) pt) (fun '(task, pt) =>
           if (length task <? 3)%nat then Some (Ran false d) else run_name mem p d task pt)
  | _, _ => Some (Ran false d)
  end.

End unpack.
