(* ===== verification/TaskProps.v ===== *)
(** * ti/task, ti/ttask: a task does on another node what the call did *)
From Stdlib Require Import ZArith Lia Ascii String.
From stdpp Require Import base list option numbers gmap.
From S2P Require Import Prelude Utf8 Opr Strx Spec Keywords Req Cryptx Users UsersProof UsersSteps UsersPriv UsersProps Mpack MpackProof MpackRead MpackSkip MpackProps Task.

(** ** Reading what was packed *)

Definition field_value (f : field) : value :=
  match f with
  | FArr n => HArr n | FMap n => HMap n | FU8 z | FU64 z => HUint z | FStr s => HStr s | FNil => HNil
  end.

Definition field_fits (f : field) : Prop :=
  match f with
  | FArr n | FMap n => 0 <= n < 2 ^ 32
  | FU8 z => 0 <= z < 2 ^ 8
  | FU64 z => 0 <= z < 2 ^ 64
  | FStr s => len s < 2 ^ 31
  | FNil => True
  end.

Lemma pack_field_ok `{PackerLaws} x f y : field_fits f -> pack_field x f = Some y -> exists h, y = x ++ h /\ head h (field_value f).
Proof.
  destruct f; cbn [field_fits pack_field field_value]; intros Hf.
  - by apply pack_array_law.
  - by apply pack_map_law.
  - by apply pack_uint8_law.
  - by apply pack_uint64_law.
  - apply (run_pack_ok x (PStr s) y). cbn. lia.
  - apply pack_nil_law.
Qed.

Lemma pack_fields_ok `{PackerLaws} fs : forall x y, Forall field_fits fs -> pack_fields x fs = Some y ->
  exists hs, y = x ++ concat hs /\ Forall2 (fun h f => head h (field_value f)) hs fs.
Proof.
  induction fs as [|f fs IH]; intros x y Hf; cbn [pack_fields].
  - intros [= <-]. exists []. by rewrite app_nil_r.
  - apply List.Forall_cons_iff in Hf as [Hf Hfs]. destruct (pack_field x f) as [z|] eqn:E; [|done]. cbn [mbind option_bind]. intros Hy.
    destruct (pack_field_ok x f z Hf E) as (h & -> & Hh). destruct (IH _ _ Hfs Hy) as (hs & -> & Hhs). exists (h :: hs). cbn. rewrite app_assoc. split; [done|]. by constructor.
Qed.

(** [l] is what is left of the buffer at a position. *)
Definition rest (data : list Z) (pt : Z) (l : list Z) : Prop := exists pre, data = pre ++ l /\ pt = len pre.

(** A parser reads [v] from [b]. *)
Definition parses {A} (data : list Z) (m : parser A) (b : list Z) (v : A) : Prop :=
  forall pt l, rest data pt (b ++ l) -> m pt = Some (Some (v, pt + len b)).

Lemma rest_step data pt b l : rest data pt (b ++ l) -> rest data (pt + len b) l.
Proof. intros (pre & -> & ->). exists (pre ++ b). by rewrite <- app_assoc, len_app. Qed.

Lemma next_at data pt b l v : rest data pt (b ++ l) -> head b v -> exists o, mp_next true data pt = Some (o, pt + len b) /\ content data o = Some v.
Proof. intros (pre & -> & ->) Hb. rewrite <- len_app. by apply mp_next_forward. Qed.

Lemma head_str_len b s : head b (HStr s) -> len b <= len s + 5.
Proof.
  intros H. inversion H as [| | | | | | | | |l Hl|t k l Ht Hl| | | | | | |]; subst; [unfold len; cbn [length]; lia|].
  table Ht; rewrite len_app || idtac; unfold len in *; cbn [length]; rewrite ?length_app, ?length_be; lia.
Qed.

Section parsing.

Context (data : list Z).

Lemma parses_bind {A B} (m : parser A) (k : A -> parser B) b1 b2 a v : parses data m b1 a -> parses data (k a) b2 v -> parses data (p_bind m k) (b1 ++ b2) v.
Proof.
  intros Hm Hk pt l Hr. unfold p_bind. rewrite <- app_assoc in Hr. rewrite (Hm pt _ Hr). rewrite (Hk _ l) by (by apply rest_step). rewrite len_app. do 3 f_equal. lia.
Qed.

Lemma parses_ret {A} (v : A) : parses data (fun pt => Some (Some (v, pt))) [] v.
Proof. intros pt l _. do 3 f_equal. unfold len. cbn. lia. Qed.

Lemma parses_u64 b z : head b (HUint z) -> parses data (p_u64 true data) b z.
Proof. intros Hb pt l Hr. unfold p_u64. destruct (next_at data pt b l _ Hr Hb) as (o & -> & Ho). cbn [mbind option_bind]. by destruct o as [[] []]; cbn in Ho; try done; injection Ho as ->. Qed.

Lemma parses_str b s : head b (HStr s) -> parses data (p_str true data) b s.
Proof. intros Hb pt l Hr. unfold p_str. destruct (next_at data pt b l _ Hr Hb) as (o & -> & Ho). cbn [mbind option_bind]. destruct o as [[] []]; cbn in Ho |- *; try done. by injection Ho as ->. Qed.

Lemma parses_some_str b s : head b (HStr s) -> parses data (p_str_or_nil true data) b (Some s).
Proof. intros Hb pt l Hr. unfold p_str_or_nil. destruct (next_at data pt b l _ Hr Hb) as (o & -> & Ho). cbn [mbind option_bind]. destruct o as [[] []]; cbn in Ho |- *; try done. by injection Ho as ->. Qed.

Lemma parses_nil b : head b HNil -> parses data (p_str_or_nil true data) b None.
Proof. intros Hb pt l Hr. unfold p_str_or_nil. destruct (next_at data pt b l _ Hr Hb) as (o & -> & Ho). cbn [mbind option_bind]. by destruct o as [[] []]. Qed.

Lemma parses_map b n : head b (HMap n) -> parses data (p_map true data n) b tt.
Proof.
  intros Hb pt l Hr. unfold p_map. destruct (next_at data pt b l _ Hr Hb) as (o & -> & Ho). cbn [mbind option_bind]. destruct o as [[] []]; cbn in Ho |- *; try done. injection Ho as ->. by rewrite Z.eqb_refl.
Qed.

Lemma parses_key {A} (m : parser A) h s b v : head h (HStr s) -> len s < 2 ^ 31 -> parses data m b v -> parses data (p_key data m) (h ++ b) v.
Proof.
  intros Hh Hs Hm. unfold p_key. eapply parses_bind; [|exact Hm]. intros pt l (pre & -> & ->). unfold p_skip. pose proof (head_str_len h s Hh).
  rewrite (proj1 all_pass h MP_STR (item_leaf true h (HStr s) Hh eq_refl)) by ((lia) || (unfold skip_fuel; rewrite !length_app; lia)). cbn [mbind option_bind]. rewrite decide_True by done. by rewrite len_app.
Qed.

(** The start of a task: an array with the code. *)
Lemma run_starts mem p d ha hc l code : rest data 0 (ha ++ hc ++ l) -> head ha (HArr 2) -> head hc (HUint code) ->
  exists pt, rest data pt l /\ ti_ttask_run true data mem p d 0 = run_code true data mem p d code pt.
Proof.
  intros Hr Ha Hc. exists (0 + len ha + len hc). split; [apply rest_step; by apply rest_step|]. unfold ti_ttask_run. destruct (next_at data 0 ha _ _ Hr Ha) as (o & -> & Ho). cbn [mbind option_bind].
  destruct o as [[] []]; cbn in Ho; try done. injection Ho as ->. cbn [o_tp o_via negb Z.eqb Pos.eqb]. unfold p_bind. by rewrite (parses_u64 hc code Hc _ l) by (by apply rest_step).
Qed.

Lemma parsed_ok {A} d (m : parser A) b v k pt l : parses data m b v -> rest data pt (b ++ l) -> parsed d (m pt) k = k v.
Proof. intros Hm Hr. unfold parsed. by rewrite (Hm pt l Hr). Qed.

End parsing.

Lemma rest_start data : rest data 0 data.
Proof. by exists []. Qed.

(** ** Users and scopes by their ids *)

Lemma get_by_id d p u : ok d -> p ∈ users d -> heap d !! p = Some u -> ti_users_get_by_id d (u_id u) = Some (Some p).
Proof.
  intros Hok Hp Hu. unfold ti_users_get_by_id. destruct (users_get d (fun v => u_id v =? u_id u) Hok) as ([q|] & -> & Ho).
  - destruct Ho as (Hq & v & Hv & E). apply Z.eqb_eq in E. do 2 f_equal. by eapply (ok_ids d Hok).
  - specialize (Ho p u Hp Hu). by rewrite Z.eqb_refl in Ho.
Qed.

Lemma with_user_ok d p u k : ok d -> p ∈ users d -> heap d !! p = Some u -> with_user d (u_id u) k = k p.
Proof. intros Hok Hp Hu. unfold with_user. by rewrite (get_by_id d p u Hok Hp Hu). Qed.

(** The ids of collections are those of scopes. *)
Definition scopes_fit (d : db) : Prop := Forall (fun c => 2 <= co_id c < 2 ^ 64) (collections d).

Lemma scope_fits d s a : scopes_fit d -> ti_val_get_access d s = Some a -> 0 <= scope_id s < 2 ^ 64 /\ forall k, with_scope d (scope_id s) k = k s.
Proof.
  intros Hs. destruct s as [| |id]; cbn [ti_val_get_access scope_id]; [by intros _; split; [lia|]..|].
  destruct (List.find _ _) as [c|] eqn:E; [|done]. intros _. pose proof (find_some _ _ E) as [Hin Hid]. apply Z.eqb_eq in Hid. unfold scopes_fit in Hs. rewrite List.Forall_forall in Hs. specialize (Hs c Hin).
  split; [lia|]. intros k. unfold with_scope. rewrite (proj2 (Z.ltb_lt _ _)) by lia. by rewrite E.
Qed.

Lemma allowed_access d s q mask : allowed d s q mask = None -> exists a, ti_val_get_access d s = Some a.
Proof. unfold allowed. destruct (ti_val_get_access d s) as [a|]; [by exists a|done]. Qed.

(** A user after the count of references has changed. *)
Lemma grab_id h p h' q u' : ti_grab h p = Some h' -> h' !! q = Some u' -> exists u, h !! q = Some u /\ u_id u = u_id u'.
Proof.
  unfold ti_grab. destruct (h !! p) as [u|] eqn:Hp; [|done]. cbn [mbind option_bind]. intros [= <-]. destruct (decide (p = q)) as [->|Hne].
  - rewrite lookup_insert_eq. intros [= <-]. by exists u.
  - rewrite lookup_insert_ne by done. eauto.
Qed.

Lemma drop_id h p h' q u' : ti_user_drop h p = Some h' -> h' !! q = Some u' -> exists u, h !! q = Some u /\ u_id u = u_id u'.
Proof.
  unfold ti_user_drop. destruct (h !! p) as [u|] eqn:Hp; [|done]. cbn [mbind option_bind]. destruct (decide (p = q)) as [->|Hne]; destruct (_ =? 0); intros [= <-].
  - by rewrite lookup_delete_eq.
  - rewrite lookup_insert_eq. intros [= <-]. by exists u.
  - rewrite lookup_delete_ne by done. eauto.
  - rewrite lookup_insert_ne by done. eauto.
Qed.

Lemma grant_id mem h a p mask r h' a' q u' : ti_access_grant mem h a p mask = Some (r, h', a') -> h' !! q = Some u' -> exists u, h !! q = Some u /\ u_id u = u_id u'.
Proof.
  unfold ti_access_grant. destruct (auth_find a p) as [[i m]|]; [intros [= _ <- _]; eauto|]. destruct mem; [|intros [= _ <- _]; eauto].
  destruct (ti_grab h p) as [h1|] eqn:E; [|done]. cbn. intros [= _ <- _]. by eapply grab_id.
Qed.

Lemma revoke_id h a p mask h' a' q u' : ti_access_revoke h a p mask = Some (h', a') -> h' !! q = Some u' -> exists u, h !! q = Some u /\ u_id u = u_id u'.
Proof.
  unfold ti_access_revoke. destruct (auth_find a p) as [[i m]|]; [|intros [= <- _]; eauto]. destruct (_ =? 0); [|intros [= <- _]; eauto].
  destruct (ti_user_drop h p) as [h1|] eqn:E; [|done]. cbn. intros [= <- _]. by eapply drop_id.
Qed.

(** Granting does the same with memory, when it succeeds. *)
Lemma grant_mem mem h a p mask h' a' : ti_access_grant mem h a p mask = Some (true, h', a') -> ti_access_grant true h a p mask = Some (true, h', a').
Proof. unfold ti_access_grant. destruct (auth_find a p) as [[i m]|]; [done|]. by destruct mem. Qed.

Lemma heap_set_access d s h a : heap (set_access d s h a) = h.
Proof. by destruct s. Qed.

Lemma lor_range x y : 0 <= x < 2 ^ 64 -> 0 <= y < 2 ^ 64 -> 0 <= Z.lor x y < 2 ^ 64.
Proof.
  intros Hx Hy. assert (Hn : 0 <= Z.lor x y) by (apply Z.lor_nonneg; lia). split; [done|]. destruct (decide (Z.lor x y = 0)) as [->|Hne]; [done|]. apply Z.log2_lt_pow2; [lia|].
  rewrite Z.log2_lor by lia. apply Z.max_lub_lt; (destruct (decide (x = 0)) as [->|]; destruct (decide (y = 0)) as [->|]; try done; apply Z.log2_lt_pow2; lia).
Qed.

Lemma grant_mask_range mask : 0 <= grant_mask mask < 2 ^ 64.
Proof. unfold grant_mask. pose proof (u64_range mask). cbv zeta. destruct (_ =? 0); [lia|]. apply lor_range; unfold TI_AUTH_CHANGE; lia. Qed.

Lemma revoke_mask_range mask : 0 <= revoke_mask mask < 2 ^ 64.
Proof. unfold revoke_mask. pose proof (u64_range mask). cbv zeta. destruct (_ =? 0); [lia|]. apply lor_range; unfold TI_AUTH_GRANT; lia. Qed.

Lemma until0_idem l : until0 (until0 l) = until0 l.
Proof. induction l as [|c l IH]; [done|]. cbn [until0]. destruct (c =? 0) eqn:E; [done|]. cbn [until0]. by rewrite E, IH. Qed.

(** ** The calls *)

(** The numbers and texts of a user have the sizes of their types. *)
Record fits (u : ti_user_t) : Prop := {
  fits_id : 0 <= u_id u < 2 ^ 64;
  fits_created : 0 <= u_created_at u < 2 ^ 64;
  fits_name : len (u_name u) < 2 ^ 31;
  fits_pass : match u_encpass u with Some e => len e < 2 ^ 31 | None => True end;
  fits_tokens : Forall (fun t => length (tk_key t) = token_key_sz /\ 0 <= tk_expire_ts t < 2 ^ 64 /\ 0 <= tk_created_at t < 2 ^ 64 /\ len (tk_description t) < 2 ^ 31) (u_tokens u);
}.

Definition db_fits (d : db) : Prop := scopes_fit d /\ forall p u, heap d !! p = Some u -> fits u.

(** A user that gives up a token of its own is still a user, and nobody else has that token. *)
Definition replays (d : db) (c : ucall) : Prop :=
  match c with
  | CDelToken q key => q ∈ users d /\ forall p u, p ∈ users d -> heap d !! p = Some u -> p <> q -> token_index key (u_tokens u) = None
  | CDelExpired _ now => 0 <= now < 2 ^ 64
  | _ => True
  end.

(** The address of a new user. *)
Definition address (c : ucall) : ptr := match c with CNewUser _ _ p _ _ => p | _ => 0 end.

Lemma by_user_get d name f d' : ok d -> by_user d name f = Some (inr tt, d') ->
  exists p u, ti_users_get_by_namestrn d name = Some (Some p) /\ p ∈ users d /\ heap d !! p = Some u /\ f p = Some (inr tt, d').
Proof.
  intros Hok. unfold by_user, ti_users_get_by_namestrn. destruct (users_get d (fun u => bool_decide (u_name u = name)) Hok) as ([p|] & -> & Ho); cbn [mbind option_bind]; [|done].
  destruct Ho as (Hp & u & Hu & _). eauto 10.
Qed.

(** The data of a task with its heads. *)
Lemma task_heads `{PackerLaws} fs data : Forall field_fits fs -> task_data true fs = Some data ->
  exists hs, data = concat hs /\ Forall2 (fun h f => head h (field_value f)) hs fs.
Proof. intros Hf Hd. by apply pack_fields_ok in Hd. Qed.

Ltac heads H := repeat match type of H with
  | Forall2 _ _ (_ :: _) => let h := fresh "h" in let Hh := fresh "Hh" in let t := fresh "hs" in apply Forall2_cons_inv_r in H as (h & t & Hh & H & ->); cbn [field_value] in Hh
  | Forall2 _ _ [] => apply Forall2_nil_inv_r in H as ->
  end.

Ltac small := unfold len, str; cbn; lia.

Lemma parses_scope_user_mask data h1 h2 h3 h4 h5 h6 h7 s u m :
  head h1 (HMap 3) -> head h2 (HStr (str "scope")) -> head h3 (HUint s) -> head h4 (HStr (str "user")) -> head h5 (HUint u) -> head h6 (HStr (str "mask")) -> head h7 (HUint m) ->
  parses data (p_scope_user_mask true data) (h1 ++ (h2 ++ h3) ++ (h4 ++ h5) ++ (h6 ++ h7) ++ []) (s, u, m).
Proof.
  intros. eapply parses_bind; [by apply parses_map|]. eapply parses_bind; [eapply parses_key; [done|small|by apply parses_u64]|].
  eapply parses_bind; [eapply parses_key; [done|small|by apply parses_u64]|]. eapply parses_bind; [eapply parses_key; [done|small|by apply parses_u64]|]. apply parses_ret.
Qed.

(** The heads of a task, and the code that is run on the rest. *)
Ltac code := unfold TI_TASK_DEL_EXPIRED, TI_TASK_DEL_TOKEN, TI_TASK_DEL_USER, TI_TASK_GRANT, TI_TASK_NEW_TOKEN, TI_TASK_NEW_USER, TI_TASK_RENAME_USER, TI_TASK_REVOKE, TI_TASK_SET_PASSWORD; lia.

Ltac solve_fits := repeat (apply List.Forall_cons; [cbn [field_fits]; (lia || code || small)|]); apply List.Forall_nil.

Ltac start_task Hd :=
  let hs := fresh "hs" in let Hhs := fresh "Hhs" in apply task_heads in Hd as (hs & -> & Hhs); [|solve_fits]; heads Hhs; cbn [concat];
  match goal with Ha : head ?ha (HArr 2), Hc : head ?hc (HUint ?code) |- ti_ttask_run true ?data ?mem ?p ?d 0 = _ =>
    let pt := fresh "pt" in let Hr := fresh "Hr" in let E := fresh "E" in
    destruct (run_starts data mem p d ha hc _ code (rest_start data) Ha Hc) as (pt & Hr & E); rewrite E; clear E end.

(** What is left, up to associativity. *)
Ltac same_rest Hr := repeat rewrite <- app_assoc; rewrite !app_nil_r; rewrite !app_nil_r in Hr; exact Hr.

Lemma replay_grant `{PackerLaws} d mem q s name mask d' data p0 : ok d -> db_fits d -> db_fits d' ->
  do__f_grant mem q s name mask no_effect d = Some (inr tt, d') -> call_task true (CGrant mem q s name mask) d d' = Some (Some data) -> ti_ttask_run true data true p0 d 0 = Some (Ran true d').
Proof.
  intros Hok [Hsc _] [_ Hfit] Hc Ht. unfold do__f_grant in Hc. destruct (allowed d s q TI_AUTH_GRANT) eqn:Ea; [done|]. destruct (allowed_access _ _ _ _ Ea) as [a Ha].
  apply by_user_get in Hc as (p & u & Hg & Hp & Hu & Hc); [|done]. cbn [no_effect mbind option_bind] in Hc. rewrite Ha in Hc. cbn [mbind option_bind] in Hc.
  destruct (ti_access_grant mem (heap d) a p (grant_mask mask)) as [[[[] h] a']|] eqn:Eg; [|done..]. injection Hc as <-.
  cbn [call_task] in Ht. rewrite Hg in Ht. cbn [mbind option_bind] in Ht. rewrite heap_set_access in Ht, Hfit. destruct (h !! p) as [u'|] eqn:Hu'; [|done]. cbn [mbind option_bind] in Ht.
  destruct (ti_task_add_grant true (scope_id s) u' (grant_mask mask)) as [dat|] eqn:Hd; [|done]. injection Ht as <-. destruct (grant_id _ _ _ _ _ _ _ _ p u' Eg Hu') as (u0 & Hu0 & Hid). rewrite Hu in Hu0. injection Hu0 as <-.
  destruct (scope_fits d s a Hsc Ha) as [Hsid Hws]. pose proof (fits_id u' (Hfit p u' Hu')). pose proof (grant_mask_range mask). unfold ti_task_add_grant in Hd.
  start_task Hd. match goal with |- run_code _ ?X _ _ _ _ _ = ?r => change (ttask__grant true X true d pt = r) end. unfold ttask__grant.
  erewrite (parsed_ok _ _ _ _ _ _ _ []); [|eapply (parses_scope_user_mask _ _ _ _ _ _ _ _ (scope_id s) (u_id u') (grant_mask mask)); eassumption|by same_rest Hr].
  cbv beta iota. rewrite Hws, <- Hid, (with_user_ok d p u) by done. rewrite Ha. cbn [mbind option_bind]. by rewrite (grant_mem _ _ _ _ _ _ _ Eg).
Qed.

Lemma replay_revoke `{PackerLaws} d q s name mask d' data p0 : ok d -> db_fits d -> db_fits d' ->
  do__f_revoke q s name mask no_effect d = Some (inr tt, d') -> call_task true (CRevoke q s name mask) d d' = Some (Some data) -> ti_ttask_run true data true p0 d 0 = Some (Ran true d').
Proof.
  intros Hok [Hsc _] [_ Hfit] Hc Ht. unfold do__f_revoke in Hc. destruct (allowed d s q TI_AUTH_GRANT) eqn:Ea; [done|]. destruct (allowed_access _ _ _ _ Ea) as [a Ha].
  apply by_user_get in Hc as (p & u & Hg & Hp & Hu & Hc); [|done]. cbn [no_effect mbind option_bind] in Hc. destruct (_ && _); [done|]. rewrite Ha in Hc. cbn [mbind option_bind] in Hc.
  destruct (ti_access_revoke (heap d) a p (revoke_mask mask)) as [[h a']|] eqn:Eg; [|done]. injection Hc as <-.
  cbn [call_task] in Ht. rewrite Hg in Ht. cbn [mbind option_bind] in Ht. rewrite heap_set_access in Ht, Hfit. destruct (h !! p) as [u'|] eqn:Hu'; [|done]. cbn [mbind option_bind] in Ht.
  destruct (ti_task_add_revoke true (scope_id s) u' (revoke_mask mask)) as [dat|] eqn:Hd; [|done]. injection Ht as <-. destruct (revoke_id _ _ _ _ _ _ p u' Eg Hu') as (u0 & Hu0 & Hid). rewrite Hu in Hu0. injection Hu0 as <-.
  destruct (scope_fits d s a Hsc Ha) as [Hsid Hws]. pose proof (fits_id u' (Hfit p u' Hu')). pose proof (revoke_mask_range mask). unfold ti_task_add_revoke in Hd.
  start_task Hd. match goal with |- run_code _ ?X _ _ _ _ _ = ?r => change (ttask__revoke true X d pt = r) end. unfold ttask__revoke.
  erewrite (parsed_ok _ _ _ _ _ _ _ []); [|eapply (parses_scope_user_mask _ _ _ _ _ _ _ _ (scope_id s) (u_id u') (revoke_mask mask)); eassumption|by same_rest Hr].
  cbv beta iota. rewrite Hws, <- Hid, (with_user_ok d p u) by done. rewrite Ha. cbn [mbind option_bind]. by rewrite Eg.
Qed.

Lemma replay_new_user `{PackerLaws} d mem q p name now d' data : ok d -> db_fits d' -> 0 <= next_free_id d < 2 ^ 64 - 1 -> heap d !! p = None ->
  do__f_new_user mem q p name now d = Some (inr tt, d') -> call_task true (CNewUser mem q p name now) d d' = Some (Some data) -> ti_ttask_run true data true p d 0 = Some (Ran true d').
Proof.
  intros Hok [_ Hfit] Hnext Hp Hc Ht. unfold do__f_new_user in Hc. destruct (allowed d TI_SCOPE_THINGSDB q TI_AUTH_GRANT) eqn:Ea; [done|]. unfold ti_users_new_user in Hc.
  destruct (ti_user_name_check d name) as [[e|]|] eqn:En; [done| |done]. cbn [mbind option_bind] in Hc. destruct mem; [|done]. cbn [negb user_set_pass mbind option_bind] in Hc. injection Hc as <-.
  cbn [call_task heap with_users with_heap] in Ht. cbn [heap with_users with_heap] in Hfit. rewrite lookup_insert_eq in Ht. cbn [mbind option_bind] in Ht.
  destruct (ti_task_add_new_user true _) as [dat|] eqn:Hd; [|done]. injection Ht as <-. specialize (Hfit p _ (lookup_insert_eq _ _ _)). pose proof (fits_id _ Hfit) as Hi. pose proof (fits_created _ Hfit) as Hcr. pose proof (fits_name _ Hfit) as Hn.
  cbn [u_id u_created_at u_name ti_user_create] in *. unfold ti_task_add_new_user in Hd. cbn [u_id u_created_at u_name ti_user_create] in Hd.
  start_task Hd. match goal with |- run_code _ ?X _ _ _ _ _ = ?r => change (ttask__new_user true X true p d pt = r) end. unfold ttask__new_user.
  erewrite (parsed_ok _ _ _ _ (next_free_id d, name, now) _ _ []);
    [|eapply parses_bind; [by apply parses_map|]; eapply parses_bind; [eapply (parses_key _ _ _ _ _ _ Hh2); [small|exact (parses_u64 _ _ _ Hh3)]|];
      eapply parses_bind; [eapply (parses_key _ _ _ _ _ _ Hh4); [small|exact (parses_str _ _ _ Hh5)]|]; eapply parses_bind; [eapply (parses_key _ _ _ _ _ _ Hh6); [small|exact (parses_u64 _ _ _ Hh7)]|]; apply parses_ret
     |by same_rest Hr].
  cbv beta iota. unfold ti_users_load_user. rewrite En. cbn [mbind option_bind]. unfold ti_users_get_by_id. destruct (users_get d (fun u => u_id u =? next_free_id d) Hok) as ([x|] & -> & Ho); cbn [mbind option_bind].
  { destruct Ho as (Hx & u & Hu & E). apply Z.eqb_eq in E. pose proof (ok_next d Hok x u Hx Hu). lia. }
  rewrite Z.leb_refl. done.
Qed.

Lemma replay_del_user `{PackerLaws} d mem q name d' data p0 : ok d -> db_fits d ->
  do__f_del_user mem q name d = Some (inr tt, d') -> call_task true (CDelUser mem q name) d d' = Some (Some data) -> ti_ttask_run true data true p0 d 0 = Some (Ran true d').
Proof.
  intros Hok [_ Hfit] Hc Ht. unfold do__f_del_user in Hc. destruct (allowed d TI_SCOPE_THINGSDB q TI_AUTH_GRANT) eqn:Ea; [done|].
  apply by_user_get in Hc as (p & u & Hg & Hp & Hu & Hc); [|done]. destruct (q =? p); [done|]. destruct mem; [|done]. cbn [negb] in Hc.
  destruct (ti_users_del_user d p) as [d1|] eqn:Ed; [|done]. injection Hc as <-. cbn [call_task] in Ht. rewrite Hg in Ht. cbn [mbind option_bind] in Ht. rewrite Hu in Ht. cbn [mbind option_bind] in Ht.
  destruct (ti_task_add_del_user true u) as [dat|] eqn:Hd; [|done]. injection Ht as <-. pose proof (fits_id u (Hfit p u Hu)). unfold ti_task_add_del_user in Hd.
  start_task Hd. match goal with |- run_code _ ?X _ _ _ _ _ = ?r => change (ttask__del_user true X d pt = r) end. unfold ttask__del_user.
  erewrite (parsed_ok _ _ _ _ _ _ _ []); [|exact (parses_u64 _ _ _ Hh1)|by same_rest Hr]. rewrite (with_user_ok d p u) by done. by rewrite Ed.
Qed.

Lemma replay_rename `{PackerLaws} d q name new d' data p0 : ok d -> db_fits d' ->
  do__f_rename_user q name new no_effect d = Some (inr tt, d') -> call_task true (CRename q name new) d d' = Some (Some data) -> ti_ttask_run true data true p0 d 0 = Some (Ran true d').
Proof.
  intros Hok [_ Hfit] Hc Ht. unfold do__f_rename_user in Hc. destruct (allowed d TI_SCOPE_THINGSDB q TI_AUTH_GRANT) eqn:Ea; [done|].
  apply by_user_get in Hc as (p & u & Hg & Hp & Hu & Hc); [|done]. cbn [no_effect mbind option_bind] in Hc. destruct (ti_user_rename d p new) as [[[e|] d1]|] eqn:Ed; [done| |done]. injection Hc as <-.
  pose proof Ed as Er. unfold ti_user_rename in Er. destruct (ti_user_name_check d new) as [[e|]|]; [done| |done]. cbn [mbind option_bind] in Er. rewrite Hu in Er. cbn [mbind option_bind] in Er. injection Er as <-.
  cbn [call_task] in Ht. rewrite Hg in Ht. cbn [mbind option_bind heap with_heap] in Ht, Hfit. rewrite lookup_insert_eq in Ht. cbn [mbind option_bind] in Ht.
  destruct (ti_task_add_rename_user true _) as [dat|] eqn:Hd; [|done]. injection Ht as <-. specialize (Hfit p _ (lookup_insert_eq _ _ _)). pose proof (fits_id _ Hfit) as Hi. pose proof (fits_name _ Hfit) as Hn.
  cbn [u_id u_name] in *. unfold ti_task_add_rename_user in Hd. cbn [u_id u_name] in Hd.
  start_task Hd. match goal with |- run_code _ ?X _ _ _ _ _ = ?r => change (ttask__rename_user true X true d pt = r) end. unfold ttask__rename_user.
  erewrite (parsed_ok _ _ _ _ (u_id u, new) _ _ []);
    [|eapply parses_bind; [by apply parses_map|]; eapply parses_bind; [eapply (parses_key _ _ _ _ _ _ Hh2); [small|exact (parses_u64 _ _ _ Hh3)]|];
      eapply parses_bind; [eapply (parses_key _ _ _ _ _ _ Hh4); [small|exact (parses_str _ _ _ Hh5)]|]; apply parses_ret
     |by same_rest Hr].
  cbv beta iota. rewrite (with_user_ok d p u) by done. cbn [negb]. by rewrite Ed.
Qed.

Lemma replay_del_expired `{PackerLaws} d q now d' data p0 : 0 <= now < 2 ^ 64 ->
  do__f_del_expired q now d = Some (inr tt, d') -> call_task true (CDelExpired q now) d d' = Some (Some data) -> ti_ttask_run true data true p0 d 0 = Some (Ran true d').
Proof.
  intros Hnow Hc Ht. unfold do__f_del_expired in Hc. destruct (allowed d TI_SCOPE_THINGSDB q TI_AUTH_GRANT) eqn:Ea; [done|]. destruct (ti_users_del_expired d now) as [d1|] eqn:Ed; [|done]. injection Hc as <-.
  cbn [call_task] in Ht. destruct (ti_task_add_del_expired true now) as [dat|] eqn:Hd; [|done]. injection Ht as <-. unfold ti_task_add_del_expired in Hd.
  start_task Hd. match goal with |- run_code _ ?X _ _ _ _ _ = ?r => change (ttask__del_expired true X d pt = r) end. unfold ttask__del_expired.
  erewrite (parsed_ok _ _ _ _ _ _ _ []); [|exact (parses_u64 _ _ _ Hh1)|by same_rest Hr]. by rewrite Ed.
Qed.

Lemma len_until0 l : len (until0 l) <= len l.
Proof. induction l as [|c l IH]; [done|]. cbn [until0]. destruct (c =? 0); unfold len in *; cbn [length] in *; lia. Qed.

Lemma replay_set_password `{PackerLaws} d mem rands q name pass d' data p0 : ok d -> db_fits d' ->
  do__f_set_password mem rands q name pass no_effect d = Some (inr tt, d') -> call_task true (CSetPassword mem rands q name pass) d d' = Some (Some data) -> ti_ttask_run true data true p0 d 0 = Some (Ran true d').
Proof.
  intros Hok [_ Hfit] Hc Ht. unfold do__f_set_password in Hc. apply by_user_get in Hc as (p & u & Hg & Hp & Hu & Hc); [|done]. destruct (if p =? q then _ else _); [done|].
  cbn [no_effect mbind option_bind] in Hc. destruct (_ ≫= ti_user_pass_check); [done|]. unfold ti_user_set_pass in Hc. rewrite Hu in Hc. cbn [mbind option_bind] in Hc.
  assert (E : exists e, d' = with_heap d (<[p := User (u_ref u) (u_id u) (u_created_at u) (u_name u) (until0 <$> e) (u_tokens u) (u_whitelists u)]> (heap d))).
  { unfold user_set_pass in Hc. destruct (until0 <$> pass) as [pw|]; [|injection Hc as <-; by exists None]. destruct (cryptx_gen_salt rands) as [salt|]; [|done]. cbn [mbind option_bind] in Hc.
    destruct (cryptx pw salt) as [e|]; [|done]. cbn [mbind option_bind] in Hc. destruct mem; [|done]. injection Hc as <-. by exists (Some e). }
  clear Hc. destruct E as (e & ->). cbn [call_task] in Ht. rewrite Hg in Ht. cbn [mbind option_bind heap with_heap] in Ht, Hfit. rewrite lookup_insert_eq in Ht. cbn [mbind option_bind] in Ht.
  destruct (ti_task_add_set_password true _) as [dat|] eqn:Hd; [|done]. injection Ht as <-. specialize (Hfit p _ (lookup_insert_eq _ _ _)). pose proof (fits_id _ Hfit) as Hi. pose proof (fits_pass _ Hfit) as Hpw.
  cbn [u_id u_encpass] in *. unfold ti_task_add_set_password in Hd. cbn [u_id u_encpass] in Hd.
  assert (Hpf : field_fits (match until0 <$> e with Some e => FStr (until0 e) | None => FNil end)) by (destruct e as [e|]; [|done]; cbn in Hpw |- *; rewrite until0_idem; done).
  apply task_heads in Hd as (hs & -> & Hhs); [|repeat (apply List.Forall_cons; [first [exact Hpf | cbn [field_fits]; (lia || code || small)]|]); apply List.Forall_nil].
  heads Hhs. cbn [concat]. match goal with |- ti_ttask_run true ?data true p0 d 0 = _ => destruct (run_starts data true p0 d h h0 _ _ (rest_start data) Hh Hh0) as (pt & Hr & E); rewrite E; clear E end.
  match goal with |- run_code _ ?X _ _ _ _ _ = ?r => change (ttask__set_password true X true d pt = r); assert (Hpp : parses X (p_str_or_nil true X) h5 (until0 <$> e)) end.
  { destruct e as [e|]; cbn [fmap option_fmap option_map] in Hh5 |- *; [rewrite until0_idem in Hh5; exact (parses_some_str _ _ _ Hh5)|exact (parses_nil _ _ Hh5)]. }
  unfold ttask__set_password.
  erewrite (parsed_ok _ _ _ _ (u_id u, until0 <$> e) _ _ []);
    [|eapply parses_bind; [by apply parses_map|]; eapply parses_bind; [eapply (parses_key _ _ _ _ _ _ Hh2); [small|exact (parses_u64 _ _ _ Hh3)]|];
      eapply parses_bind; [eapply (parses_key _ _ _ _ _ _ Hh4); [small|exact Hpp]|apply parses_ret]
     |by same_rest Hr].
  cbv beta iota. rewrite (with_user_ok d p u) by done. cbn [negb andb]. rewrite Hu. cbn [mbind option_bind]. destruct e as [e|]; [|done]. cbn [fmap option_fmap option_map]. by rewrite until0_idem.
Qed.

Lemma replay_new_token `{PackerLaws} d mem q name expire description key now d' data p0 : ok d -> db_fits d' ->
  do__f_new_token mem q name expire description key now no_effect d = Some (inr tt, d') -> call_task true (CNewToken mem q name expire description key now) d d' = Some (Some data) ->
  ti_ttask_run true data true p0 d 0 = Some (Ran true d').
Proof.
  intros Hok [_ Hfit] Hc Ht. unfold do__f_new_token in Hc. apply by_user_get in Hc as (p & u & Hg & Hp & Hu & Hc); [|done]. destruct (if p =? q then _ else _); [done|].
  rewrite Hu in Hc. cbn [mbind option_bind] in Hc. destruct (_ <? _)%nat; [done|]. cbn [no_effect mbind option_bind] in Hc.
  assert (E : exists ts, d' = with_heap d (<[p := with_tokens u (u_tokens u ++ [Token key ts now (until0 description)])]> (heap d))).
  { unfold ti_user_add_token in Hc. rewrite Hu in Hc. cbn [mbind option_bind] in Hc. destruct mem; destruct expire as [ts|]; try destruct (_ || _); try done; injection Hc as <-; by eexists. }
  clear Hc. destruct E as (ts & ->). cbn [call_task] in Ht. rewrite Hg in Ht. cbn [mbind option_bind heap with_heap] in Ht, Hfit. rewrite lookup_insert_eq in Ht. cbn [mbind option_bind with_tokens u_tokens] in Ht.
  rewrite last_snoc in Ht. cbn [mbind option_bind] in Ht. destruct (ti_task_add_new_token true _ _) as [dat|] eqn:Hd; [|done]. injection Ht as <-. specialize (Hfit p _ (lookup_insert_eq _ _ _)).
  pose proof (fits_id _ Hfit) as Hi. pose proof (fits_tokens _ Hfit) as Htk. cbn [u_tokens with_tokens u_id] in *. apply Forall_app in Htk as [_ Htk]. apply List.Forall_cons_iff in Htk as [(Hk & He & Hcr & Hds) _].
  cbn [tk_key tk_expire_ts tk_created_at tk_description] in *. unfold ti_task_add_new_token in Hd. cbn [u_id tk_key tk_expire_ts tk_created_at tk_description] in Hd. rewrite take_ge, until0_idem in Hd by lia.
  assert (Hkl : len key = Z.of_nat token_key_sz) by (unfold len; lia). assert (Hkz : len key < 2 ^ 31) by (rewrite Hkl; done).
  start_task Hd. match goal with |- run_code _ ?X _ _ _ _ _ = ?r => change (ttask__new_token true X true d pt = r) end. unfold ttask__new_token, p_new_token.
  erewrite (parsed_ok _ _ _ _ (u_id u, key, ts, now, until0 description) _ _ []);
    [|eapply parses_bind; [by apply parses_map|]; eapply parses_bind; [eapply (parses_key _ _ _ _ _ _ Hh2); [small|exact (parses_u64 _ _ _ Hh3)]|];
      eapply parses_bind; [eapply (parses_key _ _ _ _ _ _ Hh4); [small|exact (parses_str _ _ _ Hh5)]|]; eapply parses_bind; [eapply (parses_key _ _ _ _ _ _ Hh6); [small|exact (parses_u64 _ _ _ Hh7)]|];
      eapply parses_bind; [eapply (parses_key _ _ _ _ _ _ Hh8); [small|exact (parses_u64 _ _ _ Hh9)]|]; eapply parses_bind; [eapply (parses_key _ _ _ _ _ _ Hh10); [small|exact (parses_str _ _ _ Hh11)]|]; apply parses_ret
     |by same_rest Hr].
  cbv beta iota. rewrite Hkl, Z.eqb_refl. cbn [negb]. rewrite (with_user_ok d p u) by done. unfold ti_user_add_token. rewrite Hu. cbn [mbind option_bind]. by rewrite until0_idem.
Qed.

(** Only one user has the token. *)
Lemma pop_own d q key d' : ok d -> q ∈ users d -> (forall p u, p ∈ users d -> heap d !! p = Some u -> p <> q -> token_index key (u_tokens u) = None) ->
  ti_user_pop_token_by_key d q key = Some (true, d') -> ti_users_pop_token_by_key d key = Some (true, d').
Proof.
  intros Hok Hq Hone Hpop. unfold ti_users_pop_token_by_key. assert (Hl : forall p, p ∈ users d -> exists u, heap d !! p = Some u) by (intros p; by apply users_live).
  revert Hq Hone Hl. generalize (users d) as l. induction l as [|p l IH]; intros Hq Hone Hl; [by apply elem_of_nil in Hq|]. destruct (decide (p = q)) as [->|Hne]; [by rewrite Hpop|].
  destruct (Hl p) as [u Hu]; [by left|]. assert (Hf : ti_user_pop_token_by_key d p key = Some (false, d)) by (unfold ti_user_pop_token_by_key; rewrite Hu; cbn [mbind option_bind]; by rewrite (Hone p u) by (done || by left)).
  rewrite Hf. cbn [mbind option_bind].
  apply IH; [by apply elem_of_cons in Hq as [->|]| |].
  - intros p' u' Hp'. apply Hone. by right.
  - intros p' Hp'. apply Hl. by right.
Qed.

Lemma replay_del_token `{PackerLaws} d q key d' data p0 : ok d -> replays d (CDelToken q key) ->
  do__f_del_token q key d = Some (inr tt, d') -> call_task true (CDelToken q key) d d' = Some (Some data) -> ti_ttask_run true data true p0 d 0 = Some (Ran true d').
Proof.
  intros Hok [Hq Hone] Hc Ht. unfold do__f_del_token in Hc. destruct (Nat.eqb_spec (length key) token_key_sz) as [Hk|]; [|done]. cbn [negb orb] in Hc. destruct (negb _); [done|].
  assert (E : ti_users_pop_token_by_key d key = Some (true, d')).
  { destruct (ti_access_check _ _ _); [destruct (ti_users_pop_token_by_key d key) as [[[] d1]|]; [|done..]; by injection Hc as <-|].
    destruct (ti_user_pop_token_by_key d q key) as [[[] d1]|] eqn:Ep; [|done..]. injection Hc as <-. by eapply pop_own. }
  cbn [call_task] in Ht. destruct (ti_task_add_del_token true key) as [dat|] eqn:Hd; [|done]. injection Ht as <-. unfold ti_task_add_del_token in Hd. rewrite take_ge in Hd by lia.
  assert (Hkl : len key = Z.of_nat token_key_sz) by (unfold len; lia). assert (Hkz : len key < 2 ^ 31) by (rewrite Hkl; done).
  start_task Hd. match goal with |- run_code _ ?X _ _ _ _ _ = ?r => change (ttask__del_token true X d pt = r) end. unfold ttask__del_token.
  erewrite (parsed_ok _ _ _ _ _ _ _ []); [|exact (parses_str _ _ _ Hh1)|by same_rest Hr]. rewrite Hkl, Z.eqb_refl. cbn [negb]. by rewrite E.
Qed.

Lemma replay_call `{PackerLaws} d c d' data : ok d -> call_ok d c -> replays d c -> db_fits d -> db_fits d' ->
  run_call c d = Some (inr tt, d') -> call_task true c d d' = Some (Some data) -> ti_ttask_run true data true (address c) d 0 = Some (Ran true d').
Proof.
  intros Hok (_ & Hnext & Hcall) Hrep Hd Hd' Hc Ht. destruct c; cbn [run_call] in Hc; try done.
  - by eapply replay_grant.
  - by eapply replay_revoke.
  - by eapply replay_new_user.
  - by eapply replay_del_user.
  - by eapply replay_rename.
  - by eapply replay_set_password.
  - by eapply replay_new_token.
  - by eapply replay_del_token.
  - by eapply replay_del_expired.
Qed.

(** ** Two nodes *)

(** A node that runs calls: each one that succeeds adds a task, one that fails leaves the
    state as it was. With a task goes the address of the user it may create. *)
Inductive leads `{P : Packer} : db -> list (ptr * list Z) -> db -> Prop :=
  | leads_done d : leads d [] d
  | leads_call d c d' data ts d'' : call_ok d c -> replays d c -> db_fits d -> db_fits d' -> run_call c d = Some (inr tt, d') ->
      call_task true c d d' = Some (Some data) -> leads d' ts d'' -> leads d ((address c, data) :: ts) d''
  | leads_refused d c e ts d'' : run_call c d = Some (inl e, d) -> leads d ts d'' -> leads d ts d''.

(** A node that applies tasks. *)
Fixpoint follows (d : db) (ts : list (ptr * list Z)) : option db :=
  match ts with
  | [] => Some d
  | (p, data) :: ts =>
    match ti_ttask_run true data true p d 0 with
    | Some (Ran true d') => follows d' ts
    | _ => None
    end
  end.


